(* ===== verification/_CoqProject ===== *)
-Q . S2P
Prelude.v
Registry.v
ByteIO.v
Serial.v
Float.v
Frame.v
Cobs.v
Fragment.v
Bundle.v
Blob.v
Cbor.v
Messages.v
Codec.v
Trust.v
Handshake.v
Accept.v
Catalog.v
Layout.v
Raw.v
Crypto.v
Link.v
Keyed.v
Channel.v
Safety.v
Pairing.v
TrustLedger.v
Session.v
Builtin.v
CatalogCodec.v
CatalogWire.v
CatalogSchema.v
CatalogTrip.v
CatalogEntries.v
CatalogRound.v
Conformance.v
CatalogTheorems.v
CatalogSafe.v
CText.v
BenchConfig.v
BenchCatalog.v
BenchRuntime.v
HubState.v
HubSafety.v
HubJoin.v
HubPairing.v
HubData.v
HubLoop.v
HubFacts.v
HubInv.v
HubSound.v
HubStep.v
HubCorrect.v
ClientState.v
ClientFacts.v
ClientCorrect.v
ClientEstop.v
ClientTheorems.v
BenchPort.v
BenchHub.v
