(* ===== verification/Prelude.v ===== *)
(** * SlopSync: a verification library for the slopsync-core C++ library

    SlopSync is a channel-oriented synchronisation protocol between a hub (a
    motion controller) and its clients, written as a header-only, heap-free
    C++20 library under src/lib/slopsync/include/slopsync (the paths below are
    relative to it). With it comes SlopBench, a hub that is driven by a
    configuration file (src/hub/slopbench/src). This library models the wire layer,
    the catalog, the per-channel state, the session-level state machines for safety
    and trust, the hub and the client that compose them, and the bench hub, and
    proves them correct.

    ** How the program is put together

    A transport carries frames. A frame is an 8-byte header and a payload; a
    control frame larger than the MTU is fragmented; serial links add COBS
    framing; the 12-byte ESTOP frame is recognised by its magic before any
    header is read. Payloads are raw structs (acknowledgements, clock, beacon,
    stream bundles, blob chunks) or CBOR maps in a deterministic profile. Above
    the wire, the hub keeps per channel a retained value, per session a
    subscription table, event queues, an idempotency ring and a rate limiter,
    and for the whole machine the ownership of control sources and the ledger
    of paired devices; the client keeps a newest-wins shadow per channel. The
    catalog declares the channels: class, direction, access level and layout. The
    application attaches transports to the hub, calls its update method in a loop
    and answers its callbacks. The bench hub is such an application: it parses a
    configuration, authors a catalog from it, keeps the values behind the channels,
    and hands WebSocket connections to the hub as transports.

    ** Files

    - [Prelude]: machine integers as [Z] with explicit wrap-around, spans as
      lists of bytes, [Result], bounded search, counted loops; the tactics and
      hint databases.
    - [Registry]: constants of generated/registry_constants.hpp.
    - [ByteIO]: util/byte_io.hpp and util/bounded_string.hpp.
    - [Serial]: util/serial_arithmetic.hpp and core/clock.hpp.
    - [Float]: binary32 values and conversions, as the code uses them.
    - [Frame]: wire/frame_header.hpp, frame_buffer.hpp, crc32.hpp,
      estop_frame.hpp.
    - [Cobs]: wire/serial_cobs.hpp.
    - [Fragment]: wire/fragmentation.hpp.
    - [Bundle]: wire/stream_bundle.hpp.
    - [Blob]: wire/blob_chunks.hpp and the blob identity of
      wire/messages/blob_req.hpp.
    - [Cbor]: wire/cbor/cbor_writer.hpp and cbor_reader.hpp.
    - [Messages]: wire/messages intent, echo, event, nack, goodbye,
      probe_report and blob_req.
    - [Codec]: encoders and decoders of CBOR maps, the scheme the handshake
      messages share.
    - [Trust]: wire/messages trust_submap, auth and pair.
    - [Handshake]: wire/messages hello, welcome, grant, subscribe and publish.
    - [Accept]: what those decoders accept and refuse.
    - [Catalog]: channel/catalog.hpp; [Layout]: wire/packed/layout_codec.hpp.
    - [Raw]: wire/raw (ackmask, clock_frame, beacon, catalog_ready, ping_pong,
      probe).
    - [Crypto]: wire/sha256.hpp, wire/hmac_sha256.hpp, core/rng.hpp and
      core/crypto.hpp; the classes [IRandom] and [ICrypto] are the interfaces the
      pairing code is verified against, and the shipped implementations are
      their instances.
    - [Keyed]: arrays searched by key, and slot tables with a [used] flag, as
      finite maps; shared by the files below.
    - [Channel]: channel/retained_store.hpp, state_apply.hpp, subscription.hpp,
      event_channel.hpp and intent_registry.hpp, a Module each.
    - [Safety]: session/safety.hpp, shedding.hpp and static_profile.hpp.
    - [Pairing]: session/pairing.hpp ([Pending] for the knock list, [Ledger] for
      the manager).
    - [TrustLedger]: the ledger's CBOR forms in session/pairing.hpp.
    - [Session]: session/session.hpp; [Builtin]: channel/log_channel.hpp,
      safety_events_channel.hpp and trust_channels.hpp.
    - [HubState], [HubSafety], [HubJoin], [HubPairing], [HubData], [HubLoop]: hub/
      hub.hpp and hub_impl.hpp. The state and sending, publishing and parting; the
      safety word; HELLO, reattachment, grants, AUTH and signing; pairing and
      administration; intents, streams, blobs, probes and pacing; transports,
      timeouts, dispatch and update.
    - [HubFacts], [HubInv], [HubSound], [HubStep]: the proof library of the hub (a
      view of its state, computations that do not touch it, the invariant and how
      each operation keeps it); [HubCorrect]: the theorems about it, and a
      concrete platform they are tried on.
    - [Link]: transport/transport.hpp and inprocess_binding.hpp; [Conformance]:
      conformance/mini_catalog.hpp and catalog_check.hpp.
    - [CatalogCodec]: wire/catalog_codec.hpp and catalog_etag.hpp; [CatalogWire],
      [CatalogSchema], [CatalogTrip], [CatalogEntries], [CatalogRound]: its proof
      library; [CatalogTheorems] and [CatalogSafe]: its theorems.
    - [ClientState]: client/client.hpp and client_impl.hpp; [ClientFacts],
      [ClientCorrect], [ClientEstop]: its proof library; [ClientTheorems]: its
      theorems.
    - [CText]: the text and number functions of the C library the bench uses.
    - [BenchConfig]: config/ConfigTypes.h and ConfigParser.cpp; [BenchCatalog] and
      [BenchRuntime]: the catalog builder of hub/BenchHub.cpp and the tables behind
      its channels; [BenchPort]: net/WsServerPort.h and .cpp; [BenchHub]: the rest
      of hub/BenchHub.h and .cpp and common/HostPlatform.h, as a [Platform] of the
      hub (paths relative to src/hub/slopbench/src).

    A class is a record of its members; a method is a function that returns its
    result with the new record; a pointer into an array is an index; an output
    span is threaded as the list of its bytes, so a theorem can say what a
    writer leaves untouched. Errors are values: [Result] with the library's
    [DecodeError], [option] for a null pointer or [nullopt], a pair with a
    boolean where the source returns one. Callbacks are the list of the
    arguments they are called with.

    The hub is written in a state monad over a [World]: the hub's members, the
    surroundings (the state behind the transports, the clock and the application),
    the random generator, the frames that wait at each transport, and the trace of
    what the hub did to the outside. The class [Platform] states what it is given:
    ITransport, IClock, HubDelegate, IRandom, ICrypto. A computation that would
    dereference a null transport or index past the slots is [None];
    callbacks that call back into the hub are not modelled.

    ** What is shown

    - Codecs ([Frame], [Cobs], [Bundle], [Cbor], [Messages], [Raw],
      [TrustLedger]): round trips into the real buffers, exact lengths, refusal of
      buffers that are too small, tolerance of unknown keys, and, for the CBOR
      reader, that it accepts exactly the deterministic profile.
    - Integrity ([Frame], [Crypto]): the CRC table is the bit-serial CRC, ESTOP
      frames resist short bursts and the scanner misses none; SHA-256 and HMAC
      equal their reference definitions for every chunking.
    - Transfer ([Fragment], [Blob]): any order of arrival with repetition
      reassembles the original; hostile input preserves the invariants; the
      repair list is exact.
    - Time ([Serial], [Raw]): wrap-around never shows within the documented
      windows; the clock exchange is accurate to half the round trip.
    - Handshake ([Handshake], [Accept]): round trips; a decoder accepts only
      messages in range, and says which rule a HELLO broke.
    - Catalog and layouts ([Catalog], [Layout]): a catalog says exactly what was
      authored; encoding fills the layout and decodes to the rounded values; old
      clients read the prefix they know.
    - Per-channel state ([Channel]): refinement of each structure to a map, a
      bounded queue or a map of recent intents.
    - Safety and trust ([Safety], [Pairing]): exclusive ownership with
      role-gated takeover; authority comes from grants only; three wrong PIN
      proofs without a grant between them shut the window; the version tripwire
      trips exactly on a change; a bounded knock list.
    - The hub ([HubCorrect]): over every history of calls, frames and timeouts it
      never gets stuck; its sessions are few, distinct and identified, and only
      those present and not stale own a source; the emergency stop latches and
      clears as it must; an intent reaches the application only with a role that
      covers the channel, the fields and the options it names, a bundle only when
      it is well formed, and an intent is applied exactly when every gate lets it
      through; the deadman releases.
    - The client ([ClientTheorems]): its states follow the protocol over every
      history; an emergency stop is repeated until it is confirmed, and no longer;
      an intent is sent as the hub reads it; a catalog that arrives in chunks is
      the one that was announced.
    - The catalog on the wire ([CatalogTheorems], [CatalogSafe]): a round trip for
      every catalog the wire can carry, one encoding per meaning, only well-formed
      catalogs out of arbitrary bytes, and what the conformance checker passes
      survives.
    - Links ([Link]): an endpoint keeps the transport's promises, and an emergency
      stop overtakes.
    - The bench hub: a file loads as a valid configuration or is refused, unless a
      line is white space with a vertical tab or form feed ([BenchConfig]); the
      catalog says what the configuration says, channel by channel and field by
      field ([BenchCatalog]); a written number is clamped and answered, rounded in
      an integer field, and the clamped number is mirrored when it is due, and a
      published snapshot reads back through the catalog ([BenchRuntime]);
      slots and connections go together under every interleaving but one, which is
      shown ([BenchPort]); construction and every tick complete, and what a tick
      touched is what subscribers are served ([BenchHub]).

    ** Recursion, bounds and fuel

    Loops over a span recurse on the list. Loops over a count read from the wire
    recurse on the binary count ([forR]), so they run as far as the code would.
    Where fuel is needed it is tied to the input: the COBS decoder consumes at
    least one byte per round (fuel: the length, and the decoder is proved to
    return), SHA-256 one block per round (fuel: the length), and the CBOR skipper
    one nesting level per call (fuel: the depth limit, and success is
    characterised exactly). The hub's reading loop has one round per frame that
    waits and one to see that none is left; the signing loop one per slot and one
    to see that none is left; drawing a non-zero number has [tries] rounds, with
    the assumption that the generator is not zero that often in a row; each is
    proved to return. A [float] is a binary32 value of [SpecFloat] where
    the code computes with it, and its bit pattern where the code moves it.

    ** Not modelled

    The bench's terminal display, its session log, its entry point and the start of
    its WebSocket server: terminal, file and socket I/O. The unit tests and fuzz
    targets, with the scripted crypto double of core/crypto.hpp they use; P-256 is a
    parameter, as the library only declares it. Callbacks that call back into the hub
    or the client, and timing (constant-time comparison), are outside what the
    definitions express. *)

From Stdlib Require Export ZArith Lia ZifyBool ZifyNat.
From stdpp Require Export base tactics numbers option list list_numbers.

#[global] Set Default Goal Selector "!".

(** ** Machine integers

    An unsigned C++ integer is its value in [Z]; a conversion to width [w] is
    the remainder modulo [2^w], a conversion to a signed type re-reads the
    upper half of the range as negative (C++20 two's complement). *)

Local Open Scope Z_scope.

Definition u8 (z : Z) : Z := z mod 256.
Definition u16 (z : Z) : Z := z mod 65536.
Definition u32 (z : Z) : Z := z mod 4294967296.
Definition u64 (z : Z) : Z := z mod 18446744073709551616.

Definition i8 (z : Z) : Z := let u := u8 z in if u <? 128 then u else u - 256.
Definition i16 (z : Z) : Z := let u := u16 z in if u <? 32768 then u else u - 65536.
Definition i32 (z : Z) : Z :=
  let u := u32 z in if u <? 2147483648 then u else u - 4294967296.
Definition i64 (z : Z) : Z :=
  let u := u64 z in
  if u <? 9223372036854775808 then u else u - 18446744073709551616.


Definition is_u8 (z : Z) : Prop := 0 <= z < 256.
Definition is_u16 (z : Z) : Prop := 0 <= z < 65536.
Definition is_u32 (z : Z) : Prop := 0 <= z < 4294967296.
Definition is_u64 (z : Z) : Prop := 0 <= z < 18446744073709551616.

#[global] Instance is_u8_dec z : Decision (is_u8 z) := decide (_ /\ _).
#[global] Instance is_u16_dec z : Decision (is_u16 z) := decide (_ /\ _).
#[global] Instance is_u32_dec z : Decision (is_u32 z) := decide (_ /\ _).
#[global] Instance is_u64_dec z : Decision (is_u64 z) := decide (_ /\ _).

(** ** Bytes, spans and buffers

    A [std::span<const std::byte>] is the list of its bytes; a mutable span is
    threaded through the writer, which returns the updated list.  [write_at]
    is [memcpy] into a buffer that is large enough. *)

Abbreviation bytes := (list Z).
Abbreviation is_bytes := (Forall is_u8).

Definition byte_at (i : nat) (s : bytes) : Z := nth i s 0.
Definition subspan (off n : nat) (s : bytes) : bytes := take n (drop off s).

Definition write_at {A} (off : nat) (bs buf : list A) : list A :=
  take off buf ++ bs ++ drop (off + length bs) buf.

(** A writer applied to [out.subspan(off)]. *)
Definition on_sub (off : nat) (f : bytes -> nat * bytes) (out : bytes) : nat * bytes :=
  let '(n, s) := f (drop off out) in (n, take off out ++ s).

(** A writer applied to [out.subspan(off, n)]. *)
Definition on_subn (off n : nat) (f : bytes -> nat * bytes) (out : bytes) : nat * bytes :=
  let '(k, s) := f (subspan off n out) in (k, write_at off s out).

(** ** Tactics *)

Create HintDb words discriminated.
Create HintDb bytes discriminated.
Create Rewrite HintDb words.

Ltac unfold_words :=
  unfold i8, i16, i32, i64, u8, u16, u32, u64, is_u8, is_u16, is_u32, is_u64 in *.

(** [solve_word]: linear arithmetic modulo the fixed widths. *)
Ltac solve_word :=
  unfold_words; cbv zeta in *; repeat case_match; Z.div_mod_to_equations; lia.

(** [case_ifs]: split every conditional of the goal, keeping the equation. *)
Ltac case_ifs :=
  repeat match goal with
  | |- context [if ?b then _ else _] => destruct b eqn:?
  end.

(** ** Lemmas on machine integers *)

Lemma u8_range z : is_u8 (u8 z).
Proof. solve_word. Qed.
Lemma u16_range z : is_u16 (u16 z).
Proof. solve_word. Qed.
Lemma u32_range z : is_u32 (u32 z).
Proof. solve_word. Qed.
Lemma u64_range z : is_u64 (u64 z).
Proof. solve_word. Qed.

Lemma u8_id z : is_u8 z -> u8 z = z.
Proof. apply Z.mod_small. Qed.
Lemma u16_id z : is_u16 z -> u16 z = z.
Proof. apply Z.mod_small. Qed.
Lemma u32_id z : is_u32 z -> u32 z = z.
Proof. apply Z.mod_small. Qed.
Lemma u64_id z : is_u64 z -> u64 z = z.
Proof. apply Z.mod_small. Qed.

#[export] Hint Resolve u8_range u16_range u32_range u64_range : words bytes.
#[export] Hint Rewrite u8_id u16_id u32_id u64_id using (first [assumption | solve_word]) : words.

(** Disjoint bit fields add up: the shift-and-or idiom of every reader. *)
Lemma lor_shiftl_add a b n : 0 <= n -> 0 <= a < 2 ^ n -> Z.lor a (Z.shiftl b n) = a + b * 2 ^ n.
Proof.
  intros Hn Ha. rewrite <- Z.shiftl_mul_pow2 by lia.
  rewrite <- Z.add_lor_land. enough (Z.land a (Z.shiftl b n) = 0) by lia.
  apply Z.bits_inj'. intros i Hi. rewrite Z.land_spec, Z.bits_0.
  destruct (Z.ltb_spec i n) as [Hlt|Hge].
  - rewrite Z.shiftl_spec_low by lia. apply andb_false_r.
  - destruct (decide (a = 0)) as [->|Hne]; [by rewrite Z.bits_0|].
    rewrite (Z.bits_above_log2 a i); [done|lia|].
    apply Z.log2_lt_pow2; [lia|]. eapply Z.lt_le_trans; [apply Ha|].
    by apply Z.pow_le_mono_r.
Qed.

(** Bit operations stay within the width of their operands. *)
Lemma log2_range n c : 0 < n -> 0 <= c < 2 ^ n -> Z.log2 c < n.
Proof. intros Hn Hc. destruct (decide (c = 0)) as [->|]; [done|]. apply Z.log2_lt_pow2; lia. Qed.

Lemma range_log2 n c : 0 <= c -> Z.log2 c < n -> 0 <= c < 2 ^ n.
Proof.
  intros Hc Hl. split; [done|]. destruct (decide (c = 0)) as [->|]; [|apply Z.log2_lt_pow2; lia].
  apply Z.pow_pos_nonneg; [lia|]. pose proof (Z.log2_nonneg 0). lia.
Qed.

Lemma lxor_range n a b : 0 < n -> 0 <= a < 2 ^ n -> 0 <= b < 2 ^ n -> 0 <= Z.lxor a b < 2 ^ n.
Proof.
  intros Hn Ha Hb. apply range_log2; [apply Z.lxor_nonneg; lia|].
  eapply Z.le_lt_trans; [apply Z.log2_lxor; lia|]. apply Z.max_lub_lt; by apply log2_range.
Qed.

Lemma lor_range n a b : 0 < n -> 0 <= a < 2 ^ n -> 0 <= b < 2 ^ n -> 0 <= Z.lor a b < 2 ^ n.
Proof.
  intros Hn Ha Hb. apply range_log2; [apply Z.lor_nonneg; lia|].
  rewrite Z.log2_lor by lia. apply Z.max_lub_lt; by apply log2_range.
Qed.

Lemma land_255 z : Z.land z 255 = u8 z.
Proof. change 255 with (Z.ones 8). by rewrite Z.land_ones. Qed.

(** ** Lemmas on buffers *)

Section write_at.
Context {A : Type}.
Implicit Types (bs buf : list A).

Lemma length_write_at off bs buf :
  (off + length bs <= length buf)%nat -> length (write_at off bs buf) = length buf.
Proof. intros. unfold write_at. rewrite !length_app, length_take, length_drop. lia. Qed.

Lemma lookup_write_at off bs buf i :
  (off + length bs <= length buf)%nat ->
  write_at off bs buf !! i =
    if ((off <=? i) && (i <? off + length bs))%nat then bs !! (i - off)%nat else buf !! i.
Proof.
  intros Hfit. unfold write_at.
  assert (length (take off buf) = off) as Hl by (rewrite length_take; lia).
  destruct (Nat.leb_spec off i); destruct (Nat.ltb_spec i (off + length bs)); simpl.
  - rewrite lookup_app_r, Hl, lookup_app_l by lia. done.
  - rewrite lookup_app_r, Hl, lookup_app_r, lookup_drop by lia. f_equal. lia.
  - rewrite lookup_app_l, lookup_take by lia. by rewrite decide_True by lia.
  - lia.
Qed.

Lemma take_write_at off bs buf n :
  (n <= off)%nat -> (off <= length buf)%nat -> take n (write_at off bs buf) = take n buf.
Proof.
  intros. unfold write_at. rewrite take_app_le by (rewrite length_take; lia).
  rewrite take_take. f_equal. lia.
Qed.

Lemma drop_write_at off bs buf n :
  (off + length bs <= n)%nat -> (off <= length buf)%nat ->
  drop n (write_at off bs buf) = drop n buf.
Proof.
  intros. unfold write_at.
  rewrite app_assoc, drop_app_ge by (rewrite length_app, length_take; lia).
  rewrite drop_drop, length_app, length_take. f_equal. lia.
Qed.

Lemma write_at_read off bs buf :
  (off <= length buf)%nat -> take (length bs) (drop off (write_at off bs buf)) = bs.
Proof.
  intros. unfold write_at. rewrite drop_app_ge by (rewrite length_take; lia).
  rewrite length_take. replace (off - off `min` length buf)%nat with 0%nat by lia.
  by rewrite drop_0, take_app_length.
Qed.

Lemma write_at_app off bs cs buf :
  (off + length bs + length cs <= length buf)%nat ->
  write_at (off + length bs) cs (write_at off bs buf) = write_at off (bs ++ cs) buf.
Proof.
  intros Hfit. apply list_eq. intros i.
  rewrite !lookup_write_at; rewrite ?length_write_at, ?length_app; try lia.
  case_ifs; try lia; try done.
  - rewrite lookup_app_r by lia. f_equal. lia.
  - rewrite lookup_app_l by lia. done.
Qed.

Lemma write_at_0 bs buf :
  write_at 0 bs buf = bs ++ drop (length bs) buf.
Proof. done. Qed.

Lemma write_at_mid n (a b c d : list A) :
  n = length a -> length b = length c -> write_at n b (a ++ c ++ d) = a ++ b ++ d.
Proof.
  intros -> H. unfold write_at. rewrite take_app_length. do 2 f_equal.
  rewrite drop_app_ge by lia. replace (length a + length b - length a)%nat with (length c) by lia.
  apply drop_app_length.
Qed.

Lemma write_at_id off n buf :
  (off <= length buf)%nat -> write_at off (take n (drop off buf)) buf = buf.
Proof.
  intros H. unfold write_at. rewrite length_take, length_drop.
  assert (drop (off + n `min` (length buf - off)) buf = drop n (drop off buf)) as ->.
  { rewrite drop_drop. destruct (Nat.le_ge_cases n (length buf - off)).
    - f_equal. lia.
    - rewrite !drop_ge by lia. done. }
  by rewrite !take_drop.
Qed.

Lemma insert_write_at i x buf : (i < length buf)%nat -> <[i:=x]> buf = write_at i [x] buf.
Proof.
  intros. unfold write_at. simpl. rewrite insert_take_drop by done. do 3 f_equal. lia.
Qed.

Lemma write_at_cons off x bs buf :
  (off + S (length bs) <= length buf)%nat ->
  write_at (S off) bs (<[off:=x]> buf) = write_at off (x :: bs) buf.
Proof.
  intros. rewrite insert_write_at by lia.
  rewrite <- (write_at_app off [x] bs) by (simpl; lia). f_equal. simpl. lia.
Qed.

Lemma write_at_nil off buf : write_at off [] buf = buf.
Proof. unfold write_at. simpl. rewrite Nat.add_0_r. by rewrite take_drop. Qed.
End write_at.

Lemma is_bytes_write_at off bs buf :
  is_bytes bs -> is_bytes buf -> is_bytes (write_at off bs buf).
Proof.
  intros. unfold write_at. apply Forall_app. split; [by apply Forall_take|].
  apply Forall_app. split; [done|by apply Forall_drop].
Qed.

Lemma is_bytes_subspan off n s : is_bytes s -> is_bytes (subspan off n s).
Proof. intros. by apply Forall_take, Forall_drop. Qed.

Lemma length_subspan off n s :
  (off + n <= length s)%nat -> length (subspan off n s) = n.
Proof. intros. unfold subspan. rewrite length_take, length_drop. lia. Qed.

Lemma byte_at_lookup i s b : s !! i = Some b -> byte_at i s = b.
Proof. intros H. unfold byte_at. by apply nth_lookup_Some. Qed.

Lemma byte_at_app_r i s t : byte_at (length s + i) (s ++ t) = byte_at i t.
Proof. unfold byte_at. rewrite app_nth2 by lia. f_equal. lia. Qed.

Lemma byte_at_range i s : is_bytes s -> is_u8 (byte_at i s).
Proof.
  intros Hs. unfold byte_at. destruct (nth_in_or_default i s 0) as [Hin| ->]; [|done].
  rewrite List.Forall_forall in Hs. by apply Hs.
Qed.

Lemma subspan_app_here n s t : length s = n -> subspan 0 n (s ++ t) = s.
Proof. intros <-. unfold subspan. by rewrite drop_0, take_app_length. Qed.

#[export] Hint Resolve is_bytes_write_at is_bytes_subspan byte_at_range : bytes.
#[export] Hint Resolve Forall_take Forall_drop : bytes.

(** ** Outcomes

    [Result<T, E>] of core/result.hpp, with the library-wide [DecodeError]. *)

Inductive Result (T E : Type) : Type :=
| Ok (v : T)
| Err (e : E).
Arguments Ok {T E} v.
Arguments Err {T E} e.

Definition isOk {T E} (r : Result T E) : bool :=
  match r with Ok _ => true | Err _ => false end.
Definition valueOr {T E} (r : Result T E) (fallback : T) : T :=
  match r with Ok v => v | Err _ => fallback end.

Inductive DecodeError : Set :=
| Truncated | Malformed | ProfileViolation | DepthExceeded
| BadCrc | UnknownVersion | CapacityExceeded.

#[global] Instance DecodeError_eq_dec : EqDecision DecodeError.
Proof. solve_decision. Defined.

Definition rbind {T U E} (r : Result T E) (k : T -> Result U E) : Result U E :=
  match r with Ok v => k v | Err e => Err e end.

Notation "'let?' x ':=' r 'in' k" :=
  (rbind r (fun x => k)) (at level 10, x pattern, r at level 100, k at level 200).

(** ** Bounded search: the [for (auto& e : arr) if (p(e)) return &e;] idiom *)

Fixpoint find_index {A} (p : A -> bool) (l : list A) : option nat :=
  match l with
  | [] => None
  | x :: l => if p x then Some 0%nat else S <$> find_index p l
  end.

Section find_index.
Context {A : Type} (p : A -> bool).
Implicit Types l : list A.

Lemma find_index_Some l i :
  find_index p l = Some i <->
  exists x, l !! i = Some x /\ p x = true /\
            forall j y, (j < i)%nat -> l !! j = Some y -> p y = false.
Proof.
  revert i. induction l as [|x l IH]; intros i; simpl.
  { split; [done|]. by intros (? & ? & _). }
  destruct (p x) eqn:Hp.
  - split.
    + intros [= <-]. exists x. split_and!; [done|done|lia].
    + intros (y & Hy & Hpy & Hmin). destruct i as [|i]; [done|].
      specialize (Hmin 0%nat x ltac:(lia) eq_refl). congruence.
  - destruct i as [|i]; simpl.
    + split; [by destruct (find_index p l)|].
      intros (y & [= <-] & ? & _). congruence.
    + rewrite fmap_Some. split.
      * intros (i' & (y & Hy & Hpy & Hmin)%IH & [= <-]). exists y. split_and!; [done|done|].
        intros [|j] z Hj Hz; [by simplify_eq/=|]. by eapply Hmin; [|done]; lia.
      * intros (y & Hy & Hpy & Hmin). exists i. split; [|done]. apply IH. exists y.
        split_and!; [done|done|]. intros j z Hj Hz. by eapply (Hmin (S j)); [lia|].
Qed.

Lemma find_index_None l :
  find_index p l = None <-> Forall (fun x => p x = false) l.
Proof.
  induction l as [|x l IH]; simpl; [done|].
  rewrite Forall_cons. destruct (p x) eqn:Hp.
  - split; [done|]. by intros [? _].
  - split.
    + intros H%fmap_None%IH. done.
    + intros [_ H]. apply fmap_None. by apply IH.
Qed.

Lemma find_index_lt l i : find_index p l = Some i -> (i < length l)%nat.
Proof.
  rewrite find_index_Some. intros (x & Hx & _). by eapply lookup_lt_Some.
Qed.

Lemma find_index_app l k :
  find_index p (l ++ k) =
    match find_index p l with Some i => Some i | None => (fun i => (length l + i)%nat) <$> find_index p k end.
Proof.
  induction l as [|x l IH]; cbn [app find_index length]; [by destruct (find_index p k)|].
  destruct (p x); [done|]. rewrite IH. destruct (find_index p l); [done|]. by destruct (find_index p k).
Qed.

Lemma find_index_insert_None l i x :
  find_index p l = None -> (i < length l)%nat -> p x = true -> find_index p (<[i := x]> l) = Some i.
Proof.
  intros Hn Hi Hx. apply find_index_Some. exists x. split_and!; [by apply list_lookup_insert_eq|done|].
  intros j y Hj Hy. rewrite list_lookup_insert_ne in Hy by lia.
  apply find_index_None in Hn. by eapply Forall_lookup_1 in Hn.
Qed.

Lemma find_index_insert_Some l i x :
  find_index p l = Some i -> p x = true -> find_index p (<[i := x]> l) = Some i.
Proof.
  intros Hs Hx. pose proof (find_index_lt l i Hs) as Hi.
  apply find_index_Some in Hs as (y & Hy & Hp & Hmin).
  apply find_index_Some. exists x. split_and!; [by apply list_lookup_insert_eq|done|].
  intros j z Hj Hz. rewrite list_lookup_insert_ne in Hz by lia. by eapply Hmin.
Qed.
End find_index.

(** The first element of a list with a property, whatever code searches for it. *)
Definition first_in {A} (P : A -> Prop) (l : list A) (x : A) : Prop :=
  exists k, l !! k = Some x /\ P x /\ forall j y, (j < k)%nat -> l !! j = Some y -> ~ P y.

Lemma first_in_cons {A} (P : A -> Prop) a l x : first_in P (a :: l) x <-> (P a /\ x = a) \/ (~ P a /\ first_in P l x).
Proof.
  split.
  - intros ([|k] & Hk & HP & Hmin); [left; by injection Hk as <-|]. right. split; [by apply (Hmin 0%nat); [lia|]|].
    exists k. split_and!; [done|done|]. intros j y Hj. apply (Hmin (S j)). lia.
  - intros [[HP ->]|[HN (k & Hk & HP & Hmin)]]; [exists 0%nat; split_and!; [done|done|lia]|]. exists (S k). split_and!; [done|done|].
    intros [|j] y Hj Hy; [by injection Hy as <-|]. apply (Hmin j); [lia|done].
Qed.

Lemma first_in_filter {A} (P : A -> Prop) `{!forall x, Decision (P x)} (l : list A) (x : A) :
  first_in P l x <-> head (filter P l) = Some x.
Proof.
  induction l as [|a l IH]; [split; [by intros (? & ? & _)|done]|]. rewrite first_in_cons, IH, filter_cons.
  destruct (decide (P a)) as [HP|HP]; cbn [head]; [split; [by intros [[_ ->]|[? _]]|intros [= ->]; by left]|].
  split; [by intros [[? _]|[_ ?]]|by right].
Qed.

Lemma first_in_index {A} (p : A -> bool) (l : list A) (x : A) :
  first_in (fun a => p a = true) l x <-> exists i, find_index p l = Some i /\ l !! i = Some x.
Proof.
  split.
  - intros (k & Hk & HP & Hmin). exists k. split; [|done]. apply find_index_Some. exists x. split_and!; [done|done|].
    intros j y Hj Hy. apply not_true_iff_false. by apply (Hmin j).
  - intros (i & (y & Hy & HP & Hmin)%find_index_Some & Hx). simplify_eq. exists i. split_and!; [done|done|].
    intros j z Hj Hz. by rewrite (Hmin j z Hj Hz).
Qed.

Lemma first_in_elem {A} (P : A -> Prop) l x : first_in P l x -> x ∈ l /\ P x.
Proof. intros (k & Hk & HP & _). split; [by eapply list_elem_of_lookup_2|done]. Qed.

Lemma first_in_unique {A} (P : A -> Prop) l x y : first_in P l x -> first_in P l y -> x = y.
Proof.
  induction l as [|a l IH]; [by intros (? & ? & _)|]. rewrite !first_in_cons.
  intros [[? ->]|[? Hx]] [[? ->]|[? Hy]]; [done|done|done|by apply IH].
Qed.

(** Filters that agree on the members of the list. *)
Lemma filter_ext_elem {A} (P Q : A -> Prop) `{!forall x, Decision (P x), !forall x, Decision (Q x)} (l : list A) :
  (forall x, x ∈ l -> P x <-> Q x) -> filter P l = filter Q l.
Proof.
  intros Hpq. induction l as [|x l IH]; [done|]. rewrite !filter_cons.
  rewrite IH by (intros y Hy; apply Hpq; by constructor).
  destruct (decide (P x)), (decide (Q x)); try done; exfalso; pose proof (Hpq x (list_elem_of_here x l)); tauto.
Qed.

(** ** Counted loops

    [for (uint32_t i = 0; i < n; ++i) body], leaving at the first error. The
    recursion is on the binary count, so a loop over a count read from the wire
    evaluates as far as the code would run it. *)

Fixpoint iterR {S E} (body : S -> Result S E) (p : positive) (s : S) : Result S E :=
  match p with
  | xH => body s
  | xO p => let? s := iterR body p s in iterR body p s
  | xI p => let? s := body s in let? s := iterR body p s in iterR body p s
  end.

Definition forR {S E} (n : Z) (body : S -> Result S E) (s : S) : Result S E :=
  match n with Zpos p => iterR body p s | _ => Ok s end.

Section forR.
Context {S E : Type} (body : S -> Result S E).

Lemma rbind_assoc {A B C} (r : Result A E) (f : A -> Result B E) (g : B -> Result C E) :
  rbind (rbind r f) g = rbind r (fun x => rbind (f x) g).
Proof. by destruct r. Qed.

Lemma rbind_ext {A B} (r : Result A E) (f g : A -> Result B E) :
  (forall x, f x = g x) -> rbind r f = rbind r g.
Proof. intros H. destruct r; cbn; auto. Qed.

Lemma iterR_comm p s :
  (let? s := body s in iterR body p s) = (let? s := iterR body p s in body s).
Proof.
  revert s. induction p as [p IH|p IH|]; intros s; cbn [iterR]; [| |done].
  - rewrite !rbind_assoc. apply rbind_ext. intros x.
    rewrite rbind_assoc. rewrite <- rbind_assoc, IH, !rbind_assoc. apply rbind_ext. intros y. apply IH.
  - rewrite <- rbind_assoc, IH, !rbind_assoc. apply rbind_ext. intros y. apply IH.
Qed.

Lemma iterR_succ p s : iterR body (Pos.succ p) s = (let? s := body s in iterR body p s).
Proof.
  revert s. induction p as [p IH|p IH|]; intros s; [|done|done].
  change (rbind (iterR body (Pos.succ p) s) (fun s => iterR body (Pos.succ p) s) =
          rbind (body s) (fun s => rbind (body s) (fun s => rbind (iterR body p s) (iterR body p)))).
  rewrite IH, rbind_assoc. apply rbind_ext. intros x.
  transitivity (let? y := iterR body p x in let? z := body y in iterR body p z).
  { apply rbind_ext. intros y. apply IH. }
  rewrite <- rbind_assoc, <- iterR_comm, rbind_assoc. done.
Qed.

Lemma forR_0 s : forR 0 body s = Ok s.
Proof. done. Qed.

Lemma forR_S k s : forR (Z.of_nat (Datatypes.S k)) body s = (let? s := body s in forR (Z.of_nat k) body s).
Proof.
  destruct k as [|k].
  - change (body s = rbind (body s) Ok). by destruct (body s).
  - change (forR (Z.of_nat (Datatypes.S (Datatypes.S k))) body s) with (iterR body (Pos.succ (Pos.of_succ_nat k)) s).
    apply iterR_succ.
Qed.
End forR.
