(* ===== verification/Registry.v ===== *)
(** * Registry: the wire constants

    generated/registry_constants.hpp: the enums, the key spaces of the CBOR
    maps, the reserved channels, the reason codes and the limits. A constant
    used as a length or an index is a [nat], a wire value is a [Z]. *)

From S2P Require Import Prelude.

Definition kProtocolVersion : Z := 1.
Definition kHeaderBytes : nat := 8.

Inductive ChannelClass : Set := STATE | STREAM | INTENT | EVENT | STORE.

Definition class_u8 (c : ChannelClass) : Z :=
  match c with STATE => 0 | STREAM => 1 | INTENT => 2 | EVENT => 3 | STORE => 4 end.

Inductive AccessLevel : Set := watch | control | configure.

Definition access_u8 (a : AccessLevel) : Z :=
  match a with watch => 0 | control => 1 | configure => 2 end.

Inductive Priority : Set := background | normal | elevated | critical.

Definition priority_u8 (p : Priority) : Z :=
  match p with background => 0 | normal => 1 | elevated => 2 | critical => 3 end.

Module PackedFieldType.
Inductive t : Set := u8 | i8 | u16 | i16 | u32 | i32 | f32 | bitfield8 | str16 | str32 | str64.

Definition to_u8 (p : t) : Z :=
  match p with
  | u8 => 0 | i8 => 1 | u16 => 2 | i16 => 3 | u32 => 4 | i32 => 5 | f32 => 6 | bitfield8 => 7
  | str16 => 8 | str32 => 9 | str64 => 10
  end.
End PackedFieldType.

#[global] Instance ChannelClass_eq_dec : EqDecision ChannelClass.
Proof. solve_decision. Defined.
#[global] Instance AccessLevel_eq_dec : EqDecision AccessLevel.
Proof. solve_decision. Defined.
#[global] Instance Priority_eq_dec : EqDecision Priority.
Proof. solve_decision. Defined.
#[global] Instance PackedFieldType_eq_dec : EqDecision PackedFieldType.t.
Proof. solve_decision. Defined.

Module FrameType.
Definition HELLO : Z := 0x00.
Definition WELCOME : Z := 0x01.
Definition PING : Z := 0x03.
Definition PONG : Z := 0x04.
Definition CLOCK : Z := 0x05.
Definition SUBSCRIBE : Z := 0x06.
Definition UNSUBSCRIBE : Z := 0x07.
Definition GRANT : Z := 0x08.
Definition STATE : Z := 0x0B.
Definition STREAM : Z := 0x0C.
Definition INTENT : Z := 0x0D.
Definition ECHO : Z := 0x0E.
Definition EVENT : Z := 0x0F.
Definition NACK : Z := 0x10.
Definition GOODBYE : Z := 0x11.
Definition PROBE : Z := 0x12.
Definition PROBE_REPORT : Z := 0x13.
Definition PAIR_REQ : Z := 0x14.
Definition PAIR_GRANT : Z := 0x15.
Definition ACKMASK : Z := 0x16.
Definition BEACON : Z := 0x17.
Definition PUBLISH : Z := 0x18.
Definition CATALOG_READY : Z := 0x19.
Definition BLOB_REQ : Z := 0x1A.
Definition BLOB_CHUNK : Z := 0x1B.
Definition AUTH : Z := 0x1C.
Definition HUB_SIG : Z := 0x1D.
Definition DISCOVER_PROBE : Z := 0x1E.
Definition DISCOVER_REPLY : Z := 0x1F.
Definition BLOB_DONE : Z := 0x20.
Definition ESTOP : Z := 0xE5.
End FrameType.

Module flags.
Definition FRAG_START : Z := 1.
Definition FRAG_MORE : Z := 2.
End flags.

Module channels.
Definition catalog : Z := 0x0001.
Definition session_roster : Z := 0x0002.
Definition safety : Z := 0x0003.
Definition control_owner : Z := 0x0004.
Definition safety_intents : Z := 0x0005.
Definition hub_status : Z := 0x0006.
Definition session_events : Z := 0x0007.
Definition log : Z := 0x0008.
Definition session_admin : Z := 0x0009.
Definition pending_pairing : Z := 0x000A.
Definition pairing_events : Z := 0x000B.
Definition paired_devices : Z := 0x000C.
Definition paired_devices_roster : Z := 0x000D.
Definition safety_events : Z := 0x000E.
End channels.

Module CborKey.
Definition proto_ver : Z := 1.
Definition client_kind : Z := 2.
Definition client_name : Z := 3.
Definition instance_id : Z := 4.
Definition token : Z := 5.
Definition session_id : Z := 6.
Definition boot_id : Z := 7.
Definition catalog_etag : Z := 8.
Definition cfg_gen : Z := 9.
Definition subscriptions : Z := 10.
Definition publishes : Z := 11.
Definition rate_hz : Z := 12.
Definition priority : Z := 13.
Definition granted_rate_hz : Z := 14.
Definition channel_id : Z := 15.
Definition code : Z := 16.
Definition detail : Z := 17.
Definition intent_id : Z := 18.
Definition applied : Z := 19.
Definition value : Z := 20.
Definition timestamp : Z := 21.
Definition limits : Z := 22.
Definition roles : Z := 23.
Definition deadman_ms : Z := 24.
Definition deadman_policy : Z := 25.
Definition probe_result : Z := 26.
Definition chunks : Z := 27.
Definition pin_proof : Z := 28.
Definition nonce : Z := 29.
Definition precondition : Z := 30.
Definition retry_after_ms : Z := 31.
Definition takeover : Z := 32.
Definition event_kind : Z := 33.
Definition seq_of_state : Z := 34.
Definition grants : Z := 35.
Definition granted_publishes : Z := 36.
Definition identity : Z := 37.
Definition blob : Z := 38.
Definition trust : Z := 39.
Definition body : Z := 40.
Definition intent_seq : Z := 41.
Definition burst : Z := 42.
Definition reboot_in_ms : Z := 43.
Definition deadman_wish_ms : Z := 44.
Definition curve_family : Z := 45.
Definition ws_port : Z := 46.
Definition ipv4 : Z := 47.
Definition requested_curve_family : Z := 48.
End CborKey.

Module welcome_limits.
Definition max_frame : Z := 1.
Definition max_subscriptions : Z := 2.
Definition retained_pending : Z := 3.
Definition max_subscriptions_per_frame : Z := 4.
End welcome_limits.

Module probe_result_keys.
Definition bytes_received : Z := 1.
Definition span_ms : Z := 2.
Definition loss_pct_x100 : Z := 3.
Definition rtt_ms : Z := 4.
End probe_result_keys.

Module identity_keys.
Definition product : Z := 1.
Definition fw_version : Z := 2.
Definition hub_name : Z := 3.
Definition info : Z := 4.
Definition hub_instance_id : Z := 5.
End identity_keys.

Module blob_keys.
Definition ns : Z := 1.
Definition store_id : Z := 2.
Definition slot : Z := 3.
Definition generation : Z := 4.
Definition name : Z := 5.
Definition kind : Z := 6.
Definition payload : Z := 7.
Definition chunk_index : Z := 8.
Definition chunk_count : Z := 9.
Definition total_bytes : Z := 10.
End blob_keys.

Module trust_keys.
Definition client_ver : Z := 1.
Definition client_nonce : Z := 2.
Definition sig_request : Z := 3.
Definition hub_pubkey : Z := 4.
Definition welcome_sig : Z := 5.
Definition token_proof : Z := 6.
Definition presentation_mode : Z := 7.
Definition pairing_modes : Z := 8.
End trust_keys.

Module trust_ledger.
Definition instance_id : Z := 1.
Definition kind : Z := 2.
Definition name : Z := 3.
Definition version : Z := 4.
Definition first_seen : Z := 5.
Definition last_seen : Z := 6.
Definition role : Z := 7.
Definition state : Z := 8.
Definition presentation_mode : Z := 9.
Definition pairing_mode : Z := 10.
End trust_ledger.

Module trust_states.
Definition trusted : Z := 0.
Definition recognized_pending : Z := 1.
End trust_states.

Module presentation_modes.
Definition bearer : Z := 0.
Definition proof : Z := 1.
End presentation_modes.

Module blob_ns.
Definition catalog : Z := 0.
Definition store : Z := 1.
End blob_ns.

Module session_events.
Definition takeover : Z := 1.
Definition session_joined : Z := 2.
Definition session_left : Z := 3.
Definition session_stale : Z := 4.
Definition session_resumed : Z := 5.
End session_events.

Module log_events.
Definition entry : Z := 1.
End log_events.

Module pairing_events.
Definition knocked : Z := 1.
Definition granted : Z := 2.
Definition denied : Z := 3.
Definition expired : Z := 4.
Definition window_opened : Z := 5.
Definition window_closed : Z := 6.
Definition revoked : Z := 7.
Definition recognized_pending : Z := 8.
End pairing_events.

Module safety_events.
Definition estop_latched : Z := 1.
Definition estop_cleared : Z := 2.
Definition stop_latched : Z := 3.
Definition stop_cleared : Z := 4.
End safety_events.

Module log_levels.
Definition trace : Z := 0.
Definition debug : Z := 1.
Definition info : Z := 2.
Definition warn : Z := 3.
Definition error : Z := 4.
Definition fatal : Z := 5.
End log_levels.

Module safety_ops.
Definition estop_clear : Z := 1.
Definition stop : Z := 2.
Definition hold : Z := 3.
Definition pause : Z := 4.
Definition resume : Z := 5.
Definition estop : Z := 6.
Definition override_on : Z := 7.
Definition override_off : Z := 8.
Definition bypass_on : Z := 9.
Definition bypass_off : Z := 10.
End safety_ops.

Module session_admin_ops.
Definition evict : Z := 1.
Definition pair_approve : Z := 2.
Definition pair_deny : Z := 3.
Definition revoke : Z := 4.
End session_admin_ops.

Module safety_causes.
Definition user : Z := 0.
Definition deadman : Z := 1.
Definition fault : Z := 2.
Definition relay : Z := 3.
Definition session_loss : Z := 4.
End safety_causes.

Module stream_kinds.
Definition samples : Z := 0.
Definition segments : Z := 1.
End stream_kinds.

Module curve_families.
Definition unspecified : Z := 0.
Definition c1_cubic : Z := 1.
Definition c2_quintic : Z := 2.
Definition step : Z := 3.
End curve_families.

Module setting_flags.
Definition advanced : Z := 1.
Definition restart_required : Z := 2.
Definition secret : Z := 4.
End setting_flags.

Module pairing_modes.
Definition knock_approve : Z := 1.
Definition pin_proof : Z := 2.
Definition push_to_pair : Z := 4.
End pairing_modes.

Module NackCode.
Definition MALFORMED : Z := 0x0000.
Definition UNSUPPORTED_VERSION : Z := 0x0001.
Definition FRAME_TOO_LARGE : Z := 0x0002.
Definition PROFILE_VIOLATION : Z := 0x0003.
Definition BUSY : Z := 0x0100.
Definition UNAUTHORIZED : Z := 0x0101.
Definition NOT_CONTROLLER : Z := 0x0102.
Definition PAIRING_REQUIRED : Z := 0x0103.
Definition PAIRING_DENIED : Z := 0x0104.
Definition SESSION_EVICTED : Z := 0x0105.
Definition DUPLICATE_INSTANCE : Z := 0x0106.
Definition NORMAL_CLOSURE : Z := 0x0107.
Definition DEADMAN_TIMEOUT : Z := 0x0108.
Definition REBOOTING : Z := 0x0109.
Definition READY_TIMEOUT : Z := 0x010A.
Definition NOT_READY : Z := 0x010B.
Definition IDLE_REAPED : Z := 0x010C.
Definition SLOT_RECLAIMED : Z := 0x010D.
Definition UNKNOWN_CHANNEL : Z := 0x0200.
Definition ACCESS_DENIED : Z := 0x0201.
Definition CLASS_MISMATCH : Z := 0x0202.
Definition SUB_LIMIT : Z := 0x0203.
Definition SUBSCRIBE_REJECTED : Z := 0x0204.
Definition CONFLICT : Z := 0x0300.
Definition RATE_LIMITED : Z := 0x0301.
Definition INVALID_VALUE : Z := 0x0302.
Definition UNSUPPORTED_OP : Z := 0x0303.
Definition ESTOP_ACTIVE : Z := 0x0400.
Definition NOT_HOMED : Z := 0x0401.
Definition INTERLOCK : Z := 0x0402.
Definition SOURCE_CONFLICT : Z := 0x0403.
Definition TAKEOVER_REQUIRED : Z := 0x0404.
Definition CLEAR_REFUSED : Z := 0x0405.
Definition CHUNK_UNAVAILABLE : Z := 0x0500.
Definition REASSEMBLY_TIMEOUT : Z := 0x0501.
Definition ETAG_MISMATCH : Z := 0x0502.
Definition BLOB_REFUSED : Z := 0x0503.
Definition INVALID_NAMESPACE : Z := 0x0504.
End NackCode.

Module limits.
Definition header_bytes : Z := 8.
Definition min_transport_payload : nat := 242.
Definition catalog_chunk_payload : nat := 192.
Definition blob_chunks_in_flight : Z := 4.
Definition bundle_max_samples : nat := 32.
Definition bundle_max_span_ms : Z := 20.
Definition seq_width_bits : Z := 16.
Definition seq_newer_window : Z := 32768.
Definition frag_reassembly_timeout_ms : Z := 5000.
Definition frag_max_concurrent_per_session : nat := 2.
Definition idempotency_ring_depth : nat := 32.
Definition intent_ingress_default_per_s : Z := 50.
Definition stream_ingress_overage_nack_per_s : Z := 5.
Definition event_queue_depth_per_subscriber : nat := 16.
Definition never_shed_stall_eviction_ms : Z := 2000.
Definition catalog_chunk_gap_timeout_ms : Z := 500.
Definition busy_retry_after_default_ms : Z := 2000.
Definition ping_interval_holding_control_ms : Z := 200.
Definition ping_interval_idle_ms : Z := 1000.
Definition deadman_default_ms : Z := 600.
Definition deadman_min_ms : Z := 250.
Definition deadman_max_ms : Z := 5000.
Definition pairing_window_default_s : Z := 120.
Definition pairing_pin_digits : Z := 4.
Definition pairing_gesture_boot_count : Z := 3.
Definition pairing_gesture_max_uptime_ms : Z := 10000.
Definition token_bytes : nat := 16.
Definition instance_id_bytes : nat := 8.
Definition etag_bytes : nat := 8.
Definition conformance_min_clients : Z := 4.
Definition default_max_clients_ws : Z := 8.
Definition default_max_clients_espnow : Z := 4.
Definition default_max_clients_ble : Z := 1.
Definition default_max_clients_serial : Z := 1.
Definition estop_repeat_interval_ms : Z := 50.
Definition estop_repeat_max : Z := 20.
Definition clock_resync_interval_s : Z := 10.
Definition probe_default_bytes : Z := 8192.
Definition probe_max_duration_ms : Z := 1500.
Definition catalog_max_entries : Z := 256.
Definition catalog_max_entry_bytes : Z := 4096.
Definition max_subscriptions_per_session : nat := 64.
Definition max_subscriptions_per_frame : Z := 16.
Definition max_frame_ws : Z := 512.
Definition max_frame_espnow : Z := 250.
Definition max_frame_ble : Z := 244.
Definition max_frame_serial : Z := 512.
Definition catalog_ready_timeout_ms : Z := 15000.
Definition idle_reap_multiplier : Z := 3.
Definition max_future_schedule_ms : Z := 250.
Definition max_burst_multiple : Z := 4.
Definition desc_max_bytes : nat := 128.
Definition nack_detail_max_bytes : Z := 48.
Definition option_label_max_bytes : nat := 24.
Definition preset_capacity_min : Z := 32.
Definition preset_item_max_bytes : Z := 4096.
Definition paired_devices_max : nat := 8.
Definition trust_ledger_max_bytes : Z := 1900.
Definition pairing_pending_max : nat := 4.
Definition client_ver_max_bytes : nat := 24.
Definition trust_ledger_name_max_bytes : nat := 16.
Definition trust_ledger_kind_max_bytes : nat := 16.
Definition hub_sig_timeout_ms : Z := 3000.
Definition auth_attempts_max : Z := 3.
Definition log_replay_depth_default : Z := 32.
End limits.
