(* ===== verification/ByteIO.v ===== *)
(** * ByteIO: little-endian span primitives and the bounded string

    util/byte_io.hpp (the writers and readers every wire structure goes
    through) and util/bounded_string.hpp. A [float] at this interface is its
    32-bit pattern, which is what [memcpy] moves. *)

From S2P Require Import Prelude.
Local Open Scope Z_scope.

(** ** Writers: bytes written, 0 if [out] is too small *)

Definition putU8 (out : bytes) (v : Z) : nat * bytes :=
  if (length out <? 1)%nat then (0%nat, out) else (1%nat, write_at 0 [u8 v] out).

Definition putU16 (out : bytes) (v : Z) : nat * bytes :=
  if (length out <? 2)%nat then (0%nat, out)
  else (2%nat, write_at 1 [u8 (Z.shiftr v 8)] (write_at 0 [u8 v] out)).

Definition putU32 (out : bytes) (v : Z) : nat * bytes :=
  if (length out <? 4)%nat then (0%nat, out)
  else (4%nat, foldl (fun o i => write_at i [u8 (Z.shiftr v (8 * Z.of_nat i))] o) out (seq 0 4)).

Definition putF32 (out : bytes) (bits : Z) : nat * bytes := putU32 out bits.

(** ** Readers *)

Definition getU8 (s : bytes) : Z := byte_at 0 s.

Definition getU16 (s : bytes) : Z := Z.lor (byte_at 0 s) (Z.shiftl (byte_at 1 s) 8).

Definition getU32 (s : bytes) : Z :=
  foldl (fun v i => Z.lor v (u32 (Z.shiftl (byte_at i s) (8 * Z.of_nat i)))) 0 (seq 0 4).

Definition getF32 (s : bytes) : Z := getU32 s.

(** ** The byte strings they stand for *)

Definition le16 (v : Z) : bytes := [u8 v; u8 (Z.shiftr v 8)].
Definition le32 (v : Z) : bytes :=
  [u8 v; u8 (Z.shiftr v 8); u8 (Z.shiftr v 16); u8 (Z.shiftr v 24)].

Lemma is_bytes_le16 v : is_bytes (le16 v).
Proof. unfold le16. repeat constructor; apply u8_range. Qed.
Lemma is_bytes_le32 v : is_bytes (le32 v).
Proof. unfold le32. repeat constructor; apply u8_range. Qed.
#[export] Hint Resolve is_bytes_le16 is_bytes_le32 : bytes.

Lemma putU8_spec out v :
  (1 <= length out)%nat -> putU8 out v = (1%nat, write_at 0 [u8 v] out).
Proof. intros. unfold putU8. case_ifs; [lia|done]. Qed.

Lemma putU16_spec out v :
  (2 <= length out)%nat -> putU16 out v = (2%nat, write_at 0 (le16 v) out).
Proof.
  intros. unfold putU16, le16. case_ifs; [lia|]. f_equal.
  apply (write_at_app 0 [u8 v] [u8 (Z.shiftr v 8)]). simpl. lia.
Qed.

Lemma putU32_spec out v :
  (4 <= length out)%nat -> putU32 out v = (4%nat, write_at 0 (le32 v) out).
Proof.
  intros. unfold putU32, le32. case_ifs; [lia|]. f_equal. simpl.
  destruct out as [|? [|? [|? [|? out]]]]; simpl in *; try lia.
  unfold write_at. simpl. by rewrite Z.shiftr_0_r.
Qed.

Lemma on_sub_spec (f : bytes -> nat * bytes) off bs out :
  f (drop off out) = (length bs, write_at 0 bs (drop off out)) ->
  (off + length bs <= length out)%nat ->
  on_sub off f out = (length bs, write_at off bs out).
Proof.
  intros Hf Hfit. unfold on_sub. rewrite Hf. f_equal. unfold write_at. simpl.
  by rewrite drop_drop.
Qed.

Lemma on_sub_putU8 off out v :
  (off + 1 <= length out)%nat ->
  on_sub off (fun s => putU8 s v) out = (1%nat, write_at off [u8 v] out).
Proof.
  intros. apply (on_sub_spec _ off [u8 v]); [|done]. apply putU8_spec. rewrite length_drop. lia.
Qed.

Lemma on_sub_putU16 off out v :
  (off + 2 <= length out)%nat ->
  on_sub off (fun s => putU16 s v) out = (2%nat, write_at off (le16 v) out).
Proof.
  intros. apply (on_sub_spec _ off (le16 v)); [|done]. apply putU16_spec. rewrite length_drop. lia.
Qed.

Lemma on_sub_putU32 off out v :
  (off + 4 <= length out)%nat ->
  on_sub off (fun s => putU32 s v) out = (4%nat, write_at off (le32 v) out).
Proof.
  intros. apply (on_sub_spec _ off (le32 v)); [|done]. apply putU32_spec. rewrite length_drop. lia.
Qed.

(** A writer on a bounded subspan of exactly the size it fills. *)
Lemma on_subn_spec (f : bytes -> nat * bytes) off n bs out :
  length bs = n -> (off + n <= length out)%nat ->
  f (subspan off n out) = (n, write_at 0 bs (subspan off n out)) ->
  on_subn off n f out = (n, write_at off bs out).
Proof.
  intros Hn Hfit Hf. unfold on_subn. rewrite Hf. f_equal. rewrite write_at_0.
  rewrite drop_ge by (rewrite length_subspan; lia). by rewrite app_nil_r.
Qed.

Lemma on_subn_putU8 off out v :
  (off + 1 <= length out)%nat ->
  on_subn off 1 (fun s => putU8 s v) out = (1%nat, write_at off [u8 v] out).
Proof. intros. apply on_subn_spec; [done|done|]. apply putU8_spec. rewrite length_subspan; lia. Qed.

Lemma on_subn_putU16 off out v :
  (off + 2 <= length out)%nat ->
  on_subn off 2 (fun s => putU16 s v) out = (2%nat, write_at off (le16 v) out).
Proof. intros. apply on_subn_spec; [done|done|]. apply putU16_spec. rewrite length_subspan; lia. Qed.

Lemma on_subn_putU32 off out v :
  (off + 4 <= length out)%nat ->
  on_subn off 4 (fun s => putU32 s v) out = (4%nat, write_at off (le32 v) out).
Proof. intros. apply on_subn_spec; [done|done|]. apply putU32_spec. rewrite length_subspan; lia. Qed.

(** ** Reading back *)

Lemma getU16_sum a b rest : is_u8 a -> is_u8 b -> getU16 (a :: b :: rest) = a + b * 256.
Proof.
  intros Ha Hb. unfold getU16, byte_at. simpl. rewrite lor_shiftl_add; [done|lia|apply Ha].
Qed.

Lemma getU32_sum a b c d rest :
  is_u8 a -> is_u8 b -> is_u8 c -> is_u8 d ->
  getU32 (a :: b :: c :: d :: rest) = a + b * 256 + c * 65536 + d * 16777216.
Proof.
  intros Ha Hb Hc Hd. unfold getU32, byte_at. cbn [foldl seq nth Z.of_nat].
  change (8 * 0) with 0. change (8 * Z.of_nat 1) with 8. change (8 * Z.of_nat 2) with 16.
  change (8 * Z.of_nat 3) with 24. change (8 * Z.pos (Pos.of_succ_nat 0)) with 8.
  rewrite !Z.shiftl_mul_pow2 by lia.
  rewrite !u32_id by (unfold_words; lia). rewrite Z.lor_0_l, Z.mul_1_r.
  rewrite <- !Z.shiftl_mul_pow2 by lia.
  rewrite (lor_shiftl_add a b 8) by (unfold_words; lia).
  rewrite (lor_shiftl_add _ c 16) by (unfold_words; lia).
  rewrite (lor_shiftl_add _ d 24) by (unfold_words; lia). done.
Qed.

Lemma getU16_le16 v rest : getU16 (le16 v ++ rest) = u16 v.
Proof.
  unfold le16. simpl. rewrite getU16_sum by (apply u8_range).
  rewrite Z.shiftr_div_pow2 by lia. change (2 ^ 8) with 256. solve_word.
Qed.

Lemma getU32_le32 v rest : getU32 (le32 v ++ rest) = u32 v.
Proof.
  unfold le32. simpl. rewrite getU32_sum by (apply u8_range).
  rewrite !Z.shiftr_div_pow2 by lia.
  change (2 ^ 8) with 256. change (2 ^ 16) with 65536. change (2 ^ 24) with 16777216.
  solve_word.
Qed.

Lemma getU16_range s : is_bytes s -> is_u16 (getU16 s).
Proof.
  intros Hs. unfold getU16.
  pose proof (byte_at_range 0 s Hs) as H0. pose proof (byte_at_range 1 s Hs) as H1.
  rewrite lor_shiftl_add; unfold_words; lia.
Qed.

(** The reader is the inverse of the writer on bytes too. *)
Lemma le16_getU16 a b : is_u8 a -> is_u8 b -> le16 (getU16 [a; b]) = [a; b].
Proof.
  intros Ha Hb. rewrite getU16_sum by done. unfold le16.
  rewrite Z.shiftr_div_pow2 by lia. change (2 ^ 8) with 256. f_equal; [|f_equal]; solve_word.
Qed.

(** ** BoundedString<N>: truncates, never rejects *)

Module BoundedString.
Record t := mk { data : bytes; len : Z }.

Section cap.
Context (N : nat).

Definition init : t := mk (replicate N 0) 0.

Definition assign (s : bytes) (b : t) : t :=
  let l := u8 (Z.of_nat (if (length s <? N)%nat then length s else N)) in
  let d := if l =? 0 then data b else write_at 0 (take (Z.to_nat l) s) (data b) in
  mk (take (Z.to_nat l) d ++ replicate (N - Z.to_nat l) 0) l.

Definition view (b : t) : bytes := take (Z.to_nat (len b)) (data b).

Definition sameAs (b : t) (s : bytes) : bool :=
  let n := if (length s <? N)%nat then length s else N in
  (Z.of_nat n =? len b) && bool_decide (take (Z.to_nat (len b)) (data b) = take (Z.to_nat (len b)) s).

Definition empty (b : t) : bool := len b =? 0.

Definition wf (b : t) : Prop :=
  length (data b) = N /\ 0 <= len b <= Z.of_nat N.

Context (HN : (N < 256)%nat).

Lemma string_init_wf : wf init.
Proof. split; simpl; [by rewrite length_replicate|lia]. Qed.

Lemma assign_len s b : len (assign s b) = Z.of_nat (length s `min` N).
Proof. unfold assign. simpl. rewrite u8_id; case_ifs; unfold_words; lia. Qed.

Lemma assign_view s b : wf b -> view (assign s b) = take N s.
Proof.
  intros [Hd Hl]. unfold view. rewrite assign_len, Nat2Z.id.
  unfold assign. simpl. rewrite u8_id by (case_ifs; unfold_words; lia).
  rewrite Nat2Z.id. set (l := if (length s <? N)%nat then length s else N).
  assert (l = length s `min` N)%nat as -> by (unfold l; case_ifs; lia).
  destruct (Z.eqb_spec (Z.of_nat (length s `min` N)) 0) as [Hz|Hz].
  - assert (length s `min` N = 0)%nat as -> by lia. simpl. destruct s; [by rewrite take_nil|].
    destruct N; [done|]. simpl in *. lia.
  - assert (length (take (length s `min` N) s) = length s `min` N)%nat as Hlt
      by (rewrite length_take; lia).
    rewrite take_app_le.
    2:{ rewrite length_take, length_write_at; lia. }
    rewrite take_take, Nat.min_id. rewrite <- Hlt at 1. rewrite write_at_0, take_app_length.
    destruct (Nat.le_ge_cases (length s) N).
    + rewrite !take_ge; [done|lia|lia].
    + f_equal. lia.
Qed.

Lemma assign_wf s b : wf b -> wf (assign s b).
Proof.
  intros [Hd Hl]. split; [|rewrite assign_len; lia].
  unfold assign. simpl. rewrite u8_id by (case_ifs; unfold_words; lia).
  rewrite Nat2Z.id, length_app, length_replicate, length_take.
  case_ifs; rewrite ?length_write_at; rewrite ?length_take; lia.
Qed.

(** A stored name compares equal to the very string it was assigned from,
    whatever its length: truncation alone never looks like a change. *)
Lemma sameAs_assign s b : wf b -> sameAs (assign s b) s = true.
Proof.
  intros Hb. unfold sameAs. rewrite assign_len.
  apply andb_true_iff. split; [case_ifs; lia|]. apply bool_decide_eq_true.
  pose proof (assign_view s b Hb) as Hv. unfold view in Hv. rewrite assign_len in Hv.
  rewrite Hv, Nat2Z.id.
  destruct (Nat.le_ge_cases (length s) N).
  - rewrite !take_ge; [done|lia|lia].
  - f_equal. lia.
Qed.

Lemma sameAs_true b s : wf b -> sameAs b s = true -> view b = take N s.
Proof.
  intros [Hd Hl]. unfold sameAs, view. rewrite andb_true_iff. intros [Hn Hs%bool_decide_eq_true].
  rewrite Hs. destruct (Nat.ltb_spec (length s) N) as [Hlt|Hge].
  - rewrite !take_ge; [done|lia|lia].
  - f_equal. lia.
Qed.

Lemma sameAs_iff b s : wf b -> sameAs b s = true <-> view b = take N s.
Proof.
  intros Hb. split; [by apply sameAs_true|]. pose proof Hb as [Hd Hl]. unfold view, sameAs. intros E.
  assert (Z.to_nat (len b) = length s `min` N)%nat as Hn.
  { pose proof (f_equal length E) as El. rewrite !length_take in El. lia. }
  rewrite E. apply andb_true_iff. split; [case_ifs; lia|]. apply bool_decide_eq_true. rewrite Hn.
  destruct (Nat.le_ge_cases (length s) N); [rewrite !take_ge; [done|lia|lia]|f_equal; lia].
Qed.

Lemma empty_iff b : wf b -> empty b = true <-> view b = [].
Proof.
  intros [Hd Hl]. unfold empty, view. rewrite Z.eqb_eq. split; [by intros ->|].
  intros E%(f_equal length). rewrite length_take in E. cbn in E. lia.
Qed.
End cap.
End BoundedString.
