(* ===== verification/Serial.v ===== *)
(** * Serial: wrap-around sequence numbers and timestamps

    util/serial_arithmetic.hpp, the one place in the library where sequence
    numbers and wrapping timestamps are compared, with core/clock.hpp's
    manual clock. *)

From S2P Require Import Prelude.
Local Open Scope Z_scope.

Definition seqIsNewer (a b : Z) : bool :=
  let d := u16 (a - b) in negb (d =? 0) && (d <? 0x8000).

Definition timeDelta (t reference : Z) : Z := i32 (t - reference).

Definition timeReached (now deadline : Z) : bool := 0 <=? timeDelta now deadline.

(** ** ManualClock *)

Module ManualClock.
Definition t := Z.
Definition nowUs (c : t) : Z := c.
Definition nowMs (c : t) : Z := nowUs c / 1000.
Definition advanceUs (d : Z) (c : t) : t := u32 (c + d).
Definition setUs (v : Z) (c : t) : t := v.
End ManualClock.

(** ** MonotonicMs: a true mod-2^32 millisecond counter *)

Module MonotonicMs.
Record t := mk { lastUs : Z; ms : Z; rem : Z; init : bool }.

Definition fresh : t := mk 0 0 0 false.

Definition advance (nowUs : Z) (c : t) : Z * t :=
  if negb (init c) then
    let m := nowUs / 1000 in (m, mk nowUs m (u16 (nowUs mod 1000)) true)
  else
    let total := u32 (u32 (nowUs - lastUs c) + rem c) in
    let m := u32 (ms c + total / 1000) in
    (m, mk nowUs m (u16 (total mod 1000)) true).

(** Readings taken one after the other, in order. *)
Fixpoint advances (times : list Z) (c : t) : list Z * t :=
  match times with
  | [] => ([], c)
  | now :: times =>
      let '(m, c) := advance now c in
      let '(ms, c) := advances times c in (m :: ms, c)
  end.
End MonotonicMs.

(** ** Sequence numbers *)

Lemma seqIsNewer_iff a b :
  is_u16 a -> is_u16 b ->
  seqIsNewer a b = true <-> exists d, 0 < d < 32768 /\ a = u16 (b + d).
Proof.
  intros Ha Hb. unfold seqIsNewer. rewrite andb_true_iff, negb_true_iff, Z.eqb_neq, Z.ltb_lt. split.
  - intros [Hnz Hlt]. exists (u16 (a - b)). solve_word.
  - intros (d & Hd & ->). solve_word.
Qed.

Lemma seqIsNewer_irrefl a : seqIsNewer a a = false.
Proof. unfold seqIsNewer. by rewrite Z.sub_diag. Qed.

Lemma seqIsNewer_total a b :
  is_u16 a -> is_u16 b -> a <> b -> u16 (a - b) <> 32768 ->
  seqIsNewer a b = negb (seqIsNewer b a).
Proof.
  intros Ha Hb Hne Hmid. unfold seqIsNewer.
  destruct (Z.eqb_spec (u16 (a - b)) 0), (Z.eqb_spec (u16 (b - a)) 0),
    (Z.ltb_spec (u16 (a - b)) 0x8000), (Z.ltb_spec (u16 (b - a)) 0x8000); simpl; try done; solve_word.
Qed.

Lemma seqIsNewer_succ a d : is_u16 a -> 0 < d < 32768 -> seqIsNewer (u16 (a + d)) a = true.
Proof. intros Ha Hd. apply seqIsNewer_iff; [auto with words|done|]. by exists d. Qed.

(** ** Timestamps *)

Lemma timeDelta_window t d :
  -2147483648 <= d < 2147483648 -> timeDelta (u32 (t + d)) (u32 t) = d.
Proof. intros Hd. unfold timeDelta. solve_word. Qed.

Lemma timeDelta_range a b : -2147483648 <= timeDelta a b < 2147483648.
Proof. unfold timeDelta. solve_word. Qed.

Lemma timeDelta_inv a b : is_u32 a -> is_u32 b -> a = u32 (b + timeDelta a b).
Proof. intros Ha Hb. unfold timeDelta. solve_word. Qed.

Lemma timeReached_window t0 elapsed window :
  -2147483648 <= elapsed - window < 2147483648 ->
  timeReached (u32 (t0 + elapsed)) (u32 (t0 + window)) = (window <=? elapsed).
Proof.
  intros H. unfold timeReached.
  replace (t0 + elapsed) with (t0 + window + (elapsed - window)) by lia.
  rewrite timeDelta_window by done. destruct (Z.leb_spec window elapsed); lia.
Qed.

(** ** The millisecond counter follows the unwrapped clock *)

Module MonotonicMsFacts.
Import MonotonicMs.

(** [T] is the true, unwrapped time in microseconds the counter stands at. *)
Definition tracks (T : Z) (c : t) : Prop :=
  init c = true /\ lastUs c = u32 T /\ ms c = u32 (T / 1000) /\ rem c = T mod 1000.

Lemma advance_first now : is_u32 now -> tracks now (advance now fresh).2.
Proof.
  intros Hn. unfold tracks, advance, fresh. simpl. split_and!; [done| | |]; solve_word.
Qed.

Lemma advance_tracks T d c :
  tracks T c -> 0 <= T -> 0 <= d < 4294966297 ->
  tracks (T + d) (advance (u32 (T + d)) c).2 /\
  (advance (u32 (T + d)) c).1 = u32 ((T + d) / 1000).
Proof.
  intros (Hi & Hl & Hm & Hr) HT Hd. unfold tracks, advance. rewrite Hi, Hl, Hm, Hr. simpl.
  assert (u32 (u32 (u32 (T + d) - u32 T) + T mod 1000) = d + T mod 1000) as -> by solve_word.
  assert (u32 (u32 (T / 1000) + (d + T mod 1000) / 1000) = u32 ((T + d) / 1000)) as Hq.
  { assert ((T + d) / 1000 = T / 1000 + (d + T mod 1000) / 1000) as ->
      by (Z.div_mod_to_equations; lia).
    unfold u32. by rewrite Zplus_mod_idemp_l. }
  rewrite Hq. split_and!; try done; solve_word.
Qed.

(** Successive true readings, each less than [2^32 - 999] us after the last. *)
Fixpoint steps (T : Z) (ds : list Z) : list Z :=
  match ds with [] => [] | d :: ds => (T + d) :: steps (T + d) ds end.

Lemma advances_track T ds c :
  tracks T c -> 0 <= T -> Forall (fun d => 0 <= d < 4294966297) ds ->
  (advances (u32 <$> steps T ds) c).1 = (fun T => u32 (T / 1000)) <$> steps T ds.
Proof.
  revert T c. induction ds as [|d ds IH]; intros T c Hc HT Hds; [done|].
  apply Forall_cons in Hds as [Hd Hds]. simpl.
  destruct (advance_tracks T d c Hc HT Hd) as [Ht Hm].
  destruct (advance (u32 (T + d)) c) as [m c'] eqn:E. simpl in *.
  specialize (IH (T + d) c' Ht ltac:(lia) Hds).
  unfold fmap, list_fmap in *. destruct (advances _ c') as [rest c'']. simpl in *. by rewrite Hm, IH.
Qed.
End MonotonicMsFacts.

(** ** Comparisons in unwrapped numbers *)

Lemma seqIsNewer_unwrapped a b : -32768 <= a - b < 32768 -> seqIsNewer (u16 a) (u16 b) = (b <? a).
Proof.
  intros H. unfold seqIsNewer, u16. destruct (Z.ltb_spec b a); Z.div_mod_to_equations; lia.
Qed.

Lemma timeReached_unwrapped a b : -2147483648 <= a - b < 2147483648 -> timeReached (u32 a) (u32 b) = (b <=? a).
Proof.
  intros H. replace a with (b + (a - b)) by lia. unfold timeReached. rewrite timeDelta_window by done.
  destruct (Z.leb_spec 0 (a - b)), (Z.leb_spec b (b + (a - b))); lia.
Qed.

(** * Properties *)

(** Wrap-around never shows: for sequence numbers counted without
    wrapping that are less than 2^15 apart, [seqIsNewer] on their 16-bit images
    is the order of the true numbers; for times less than 2^31 us apart,
    [timeDelta] on their 32-bit images is the true difference and
    [timeReached] the true comparison. *)
Theorem serial_compare_unwrapped (a b t s : Z) :
  -32768 < a - b < 32768 -> -2147483648 <= t - s < 2147483648 ->
  seqIsNewer (u16 a) (u16 b) = (b <? a) /\ timeDelta (u32 t) (u32 s) = t - s /\
  timeReached (u32 t) (u32 s) = (s <=? t).
Proof.
  intros Hab Hts. split_and!.
  - apply seqIsNewer_unwrapped. lia.
  - replace t with (s + (t - s)) at 1 by lia. by apply timeDelta_window.
  - by apply timeReached_unwrapped.
Qed.

Lemma serial_compare_unwrapped_witness :
  seqIsNewer (u16 65540) (u16 65530) = true /\ timeDelta (u32 4294967300) (u32 4294967290) = 10 /\
  timeReached (u32 4294967300) (u32 4294967290) = true.
Proof. apply (serial_compare_unwrapped 65540 65530 4294967300 4294967290); lia. Defined.

(** The millisecond clock does not jump when the 32-bit microsecond counter
    wraps: fed with the wrapped readings of a true clock, however many times it
    wraps, each reading returns the true time divided by 1000 modulo 2^32, as
    long as consecutive readings are less than 2^32 - 999 us apart. *)
Theorem monotonic_ms_true (first : Z) (ds : list Z) :
  is_u32 first -> Forall (fun d => 0 <= d < 4294966297) ds ->
  (MonotonicMs.advances (u32 <$> first :: MonotonicMsFacts.steps first ds) MonotonicMs.fresh).1 =
  (fun T => u32 (T / 1000)) <$> first :: MonotonicMsFacts.steps first ds.
Proof.
  intros Hf Hds. pose proof (MonotonicMsFacts.advance_first first Hf) as Ht.
  cbn [fmap list_fmap MonotonicMs.advances]. rewrite (u32_id first) by done.
  destruct (MonotonicMs.advance first MonotonicMs.fresh) as [m c] eqn:E.
  pose proof (MonotonicMsFacts.advances_track first ds c Ht ltac:(apply Hf) Hds) as H.
  unfold fmap, list_fmap in *. destruct (MonotonicMs.advances _ c) as [rest c']. cbn in *. rewrite H. f_equal.
  injection E as <- _. symmetry. apply u32_id. unfold is_u32 in *. Z.div_mod_to_equations. lia.
Qed.

Lemma monotonic_ms_true_witness :
  (MonotonicMs.advances (u32 <$> [4294000000; 4294968000; 8589900000]) MonotonicMs.fresh).1
  = [4294000; 4294968; 8589900].
Proof.
  pose proof (monotonic_ms_true 4294000000 [968000; 4294932000] ltac:(done) ltac:(repeat constructor; lia)) as H.
  change (4294000000 :: MonotonicMsFacts.steps 4294000000 [968000; 4294932000])
    with [4294000000; 4294968000; 8589900000] in H.
  rewrite H. vm_compute. reflexivity.
Defined.
