(* ===== verification/Float.v ===== *)
(** * Float: IEEE 754 values

    Where the code moves a [float] the library keeps its 32-bit pattern; where it
    computes with one, the value is a [spec_float] and the operations are the
    correctly rounded ones of [SpecFloat]. [Float32.of_bits] and
    [Float32.to_bits] connect the two (a NaN is one value, so its payload does
    not survive arithmetic). [lround] rounds half away from zero. *)

From Stdlib Require Export SpecFloat.
From S2P Require Import Prelude.
Local Open Scope Z_scope.

Module Float32.
Definition t := spec_float.
Definition prec : Z := 24.
Definition emax : Z := 128.
Definition of_Z (z : Z) : t := binary_normalize prec emax z 0 false.
Definition zero : t := S754_zero false.
Definition div : t -> t -> t := SFdiv prec emax.
Definition mul : t -> t -> t := SFmul prec emax.
Definition add : t -> t -> t := SFadd prec emax.
Definition sub : t -> t -> t := SFsub prec emax.
(** [a <= b] and [a >= b] are false on NaN. *)
Definition le (a b : t) : bool := SFleb a b.
Definition lt (a b : t) : bool := SFltb a b.
(** [uint32_t(x)] for a value in range: truncation towards zero. *)
Definition to_u32 (x : t) : Z :=
  match x with
  | S754_finite s m e => let v := if e <? 0 then Z.pos m / 2 ^ (- e) else Z.pos m * 2 ^ e in u32 (if s then - v else v)
  | _ => 0
  end.

(** The value of a bit pattern, and the pattern of a value. *)
Definition of_bits (b : Z) : t :=
  let s := Z.testbit b 31 in
  let e := Z.land (Z.shiftr b 23) 255 in
  let m := Z.land b 0x7FFFFF in
  if e =? 255 then if m =? 0 then S754_infinity s else S754_nan
  else
    match (if e =? 0 then m else m + 0x800000) with
    | Zpos p => S754_finite s p (Z.max e 1 - 150)
    | _ => S754_zero s
    end.

Definition to_bits (x : t) : Z :=
  match x with
  | S754_zero s => if s then 0x80000000 else 0
  | S754_infinity s => (if s then 0x80000000 else 0) + 0x7F800000
  | S754_nan => 0x7FC00000
  | S754_finite s m e =>
      (if s then 0x80000000 else 0)
      + (if Z.pos m <? 0x800000 then Z.pos m else (e + 149) * 0x800000 + Z.pos m)
  end.

(** [a == b]: false on NaN, and the zeros are equal. *)
Definition eq (a b : t) : bool := SFeqb a b.
End Float32.

(** ** binary64 *)

Module Float64.
Definition t := spec_float.
Definition prec : Z := 53.
Definition emax : Z := 1024.
(** [double(x)] is exact. *)
Definition of_float (x : Float32.t) : t :=
  match x with
  | S754_finite s m e => binary_normalize prec emax (if s then Z.neg m else Z.pos m) e s
  | _ => x
  end.
Definition mul : t -> t -> t := SFmul prec emax.
End Float64.

(** [std::lround] to an integer of the given range. Outside it the standard
    leaves the value unspecified: it is the parameter [oob]. *)
Definition round_away (s : bool) (m : positive) (e : Z) : Z :=
  let v := if 0 <=? e then Z.pos m * 2 ^ e else (2 * Z.pos m + 2 ^ (- e)) / 2 ^ (1 - e) in
  if s then - v else v.

Definition lround_in (lo hi : Z) (oob : spec_float -> Z) (x : spec_float) : Z :=
  match x with
  | S754_zero _ => 0
  | S754_finite s m e => let v := round_away s m e in if (lo <=? v) && (v <=? hi) then v else oob x
  | _ => oob x
  end.

(** [long] has at least 32 bits and [long long] 64. *)
Definition lround := lround_in (-2147483648) 2147483647.
Definition llround := lround_in (-9223372036854775808) 9223372036854775807.


(** * Theorems *)

(** The fields of a bit pattern. *)
Lemma bits_split b :
  is_u32 b ->
  exists (s : bool) (e m : Z),
    b = (if s then 0x80000000 else 0) + e * 0x800000 + m /\ 0 <= e < 256 /\ 0 <= m < 0x800000
    /\ Z.testbit b 31 = s /\ Z.land (Z.shiftr b 23) 255 = e /\ Z.land b 0x7FFFFF = m.
Proof.
  intros Hb. exists (Z.testbit b 31), (Z.land (Z.shiftr b 23) 255), (Z.land b 0x7FFFFF).
  pose proof (Z.testbit_spec' b 31 ltac:(lia)) as Hs.
  change 255 with (Z.ones 8). change 0x7FFFFF with (Z.ones 23).
  rewrite !Z.land_ones, Z.shiftr_div_pow2 by lia.
  change (2 ^ 23) with 8388608. change (2 ^ 8) with 256. change (2 ^ 31) with 2147483648 in Hs.
  unfold_words. split_and!; try done; destruct (Z.testbit b 31); cbn [Z.b2z] in Hs; Z.div_mod_to_equations; lia.
Qed.

Definition is_nan (x : spec_float) : bool := match x with S754_nan => true | _ => false end.

(** Every pattern but a NaN's survives the trip through its value. *)
Lemma to_bits_of_bits b : is_u32 b -> is_nan (Float32.of_bits b) = false -> Float32.to_bits (Float32.of_bits b) = b.
Proof.
  intros (s & e & m & Hb & He & Hm & Hs & He' & Hm')%bits_split. unfold Float32.of_bits.
  cbv zeta. rewrite Hs, He', Hm'. clear Hs He' Hm'.
  destruct (Z.eqb_spec e 255); [destruct (Z.eqb_spec m 0); [|done]; intros _; simpl; subst; destruct s; done|].
  intros _. destruct (Z.eqb_spec e 0) as [->|].
  - destruct m as [|p|p] eqn:Em; simpl; [subst; destruct s; done| |lia].
    destruct (Z.ltb_spec (Z.pos p) 0x800000); destruct s; lia.
  - destruct (m + 0x800000) as [|p|p] eqn:Ep; [lia| |lia]. cbn [Float32.to_bits].
    destruct (Z.ltb_spec (Z.pos p) 0x800000); [lia|]. destruct s; lia.
Qed.
