(* ===== verification/Frame.v ===== *)
(** * Frame: the 8-byte header, the fixed frame buffer, CRC-32 and ESTOP

    wire/frame_header.hpp, wire/frame_buffer.hpp, wire/crc32.hpp and
    wire/estop_frame.hpp. *)

From S2P Require Import Prelude Registry ByteIO.
Local Open Scope Z_scope.

(** ** FrameHeader *)

Record FrameHeader := mkFrameHeader {
  fh_type : Z; fh_flags : Z; fh_channel : Z; fh_seq : Z; fh_len : Z }.

Definition fragStart (h : FrameHeader) : bool := negb (Z.land (fh_flags h) flags.FRAG_START =? 0).
Definition fragMore (h : FrameHeader) : bool := negb (Z.land (fh_flags h) flags.FRAG_MORE =? 0).

Definition encodeFrameHeader (h : FrameHeader) (out : bytes) : nat * bytes :=
  if (length out <? kHeaderBytes)%nat then (0%nat, out)
  else
    let out := (on_sub 0 (fun s => putU8 s (fh_type h)) out).2 in
    let out := (on_sub 1 (fun s => putU8 s (fh_flags h)) out).2 in
    let out := (on_sub 2 (fun s => putU16 s (fh_channel h)) out).2 in
    let out := (on_sub 4 (fun s => putU16 s (fh_seq h)) out).2 in
    let out := (on_sub 6 (fun s => putU16 s (fh_len h)) out).2 in
    (kHeaderBytes, out).

Definition decodeFrameHeader (s : bytes) : option FrameHeader :=
  if (length s <? kHeaderBytes)%nat then None
  else Some (mkFrameHeader (getU8 (drop 0 s)) (getU8 (drop 1 s)) (getU16 (drop 2 s))
                           (getU16 (drop 4 s)) (getU16 (drop 6 s))).

Definition header_wf (h : FrameHeader) : Prop :=
  is_u8 (fh_type h) /\ is_u8 (fh_flags h) /\ is_u16 (fh_channel h) /\
  is_u16 (fh_seq h) /\ is_u16 (fh_len h).

(** The eight bytes a header stands for. *)
Definition header_bytes (h : FrameHeader) : bytes :=
  [u8 (fh_type h); u8 (fh_flags h)] ++ le16 (fh_channel h) ++ le16 (fh_seq h) ++ le16 (fh_len h).

Lemma length_header_bytes h : length (header_bytes h) = kHeaderBytes.
Proof. done. Qed.

Lemma is_bytes_header_bytes h : is_bytes (header_bytes h).
Proof. unfold header_bytes. repeat constructor; apply u8_range. Qed.
#[export] Hint Resolve is_bytes_header_bytes : bytes.

Lemma encodeFrameHeader_spec h out :
  (kHeaderBytes <= length out)%nat ->
  encodeFrameHeader h out = (kHeaderBytes, header_bytes h ++ drop kHeaderBytes out).
Proof.
  intros Hl. unfold encodeFrameHeader. destruct (Nat.ltb_spec (length out) kHeaderBytes); [lia|].
  destruct out as [|? [|? [|? [|? [|? [|? [|? [|? out]]]]]]]]; simpl in Hl; unfold kHeaderBytes in *; try lia.
  done.
Qed.

Lemma decodeFrameHeader_bytes h rest :
  header_wf h -> decodeFrameHeader (header_bytes h ++ rest) = Some h.
Proof.
  intros (Ht & Hf & Hc & Hs & Hl). unfold decodeFrameHeader.
  rewrite length_app, length_header_bytes. destruct (Nat.ltb_spec (kHeaderBytes + length rest) kHeaderBytes); [lia|].
  f_equal. destruct h as [t f c s l]. unfold header_bytes. simpl in *.
  f_equal.
  - by apply u8_id.
  - by apply u8_id.
  - rewrite <- (u16_id c) at 3 by done. apply (getU16_le16 c (le16 s ++ le16 l ++ rest)).
  - rewrite <- (u16_id s) at 3 by done. apply (getU16_le16 s (le16 l ++ rest)).
  - rewrite <- (u16_id l) at 3 by done. apply (getU16_le16 l rest).
Qed.

(** ** FrameBuffer: a complete frame in a fixed 512-byte slot *)

Definition kFrameBufferCapacity : nat := 512.

Module FrameBuffer.
Record t := mk { data : bytes; size : Z }.

Definition init : t := mk (replicate kFrameBufferCapacity 0) 0.

Definition from (frame : bytes) : t :=
  if (length frame <=? kFrameBufferCapacity)%nat
  then mk (write_at 0 frame (data init)) (u16 (Z.of_nat (length frame)))
  else init.

Definition setSize (n : nat) (b : t) : t :=
  mk (data b) (u16 (if (n <=? kFrameBufferCapacity)%nat then Z.of_nat n else 0)).

Definition bytes_of (b : t) : bytes := take (Z.to_nat (size b)) (data b).
Definition empty (b : t) : bool := size b =? 0.
Definition header (b : t) : option FrameHeader := decodeFrameHeader (bytes_of b).
Definition payload (b : t) : bytes :=
  if Z.of_nat kHeaderBytes <=? size b then drop kHeaderBytes (bytes_of b) else [].

Lemma bytes_from frame :
  (length frame <= kFrameBufferCapacity)%nat -> bytes_of (from frame) = frame.
Proof.
  intros H. unfold from. destruct (Nat.leb_spec (length frame) kFrameBufferCapacity); [|lia].
  unfold bytes_of. cbn [size data]. rewrite u16_id by (unfold is_u16, kFrameBufferCapacity in *; lia).
  rewrite Nat2Z.id. by rewrite write_at_0, take_app_length.
Qed.

Lemma from_oversized frame :
  (kFrameBufferCapacity < length frame)%nat -> empty (from frame) = true.
Proof. intros H. unfold from. by destruct (Nat.leb_spec (length frame) kFrameBufferCapacity); [lia|]. Qed.
End FrameBuffer.

(** ** CRC-32/ISO-HDLC *)

Definition crc32_bit (c : Z) : Z :=
  if negb (Z.land c 1 =? 0) then Z.lxor 0xEDB88320 (Z.shiftr c 1) else Z.shiftr c 1.

Definition makeCrc32Table : list Z :=
  (fun i => Nat.iter 8 crc32_bit (Z.of_nat i)) <$> seq 0 256.

Definition kCrc32Table : list Z := Eval vm_compute in makeCrc32Table.

Definition crc32Init : Z := 0xFFFFFFFF.

Definition crc32_byte (state b : Z) : Z :=
  Z.lxor (nth (Z.to_nat (Z.land (Z.lxor state b) 0xFF)) kCrc32Table 0) (Z.shiftr state 8).

Definition crc32Update (state : Z) (data : bytes) : Z := foldl crc32_byte state data.

Definition crc32Final (state : Z) : Z := Z.lxor state 0xFFFFFFFF.

Definition crc32 (data : bytes) : Z := crc32Final (crc32Update crc32Init data).

(** ** ESTOP: 12 bytes recognisable on a raw stream *)

Definition kEstopFrameBytes : nat := 12.
Definition kEstopCrcOffset : nat := 8.
Definition kEstopMagicByte : Z := 0xE5.

Record EstopFrame := mkEstopFrame { ef_cause : Z; ef_origin : Z; ef_seq : Z }.

Definition encodeEstop (frame : EstopFrame) (out : bytes) : nat * bytes :=
  if (length out <? kEstopFrameBytes)%nat then (0%nat, out)
  else
    let out := <[0%nat:=kEstopMagicByte]> out in
    let out := <[1%nat:=kEstopMagicByte]> out in
    let out := <[2%nat:=kEstopMagicByte]> out in
    let out := <[3%nat:=kEstopMagicByte]> out in
    let out := (on_sub 4 (fun s => putU8 s (ef_cause frame)) out).2 in
    let out := (on_sub 5 (fun s => putU8 s (ef_origin frame)) out).2 in
    let out := (on_sub 6 (fun s => putU16 s (ef_seq frame)) out).2 in
    let crc := crc32 (subspan 0 kEstopCrcOffset out) in
    let out := (on_sub kEstopCrcOffset (fun s => putU32 s crc) out).2 in
    (kEstopFrameBytes, out).

Definition decodeEstop (s : bytes) : Result EstopFrame DecodeError :=
  if (length s <? kEstopFrameBytes)%nat then Err Truncated
  else if existsb (fun i => negb (byte_at i s =? kEstopMagicByte)) (seq 0 4) then Err Malformed
  else
    let crc := getU32 (subspan kEstopCrcOffset 4 s) in
    if negb (crc32 (subspan 0 kEstopCrcOffset s) =? crc) then Err BadCrc
    else Ok (mkEstopFrame (getU8 (drop 4 s)) (getU8 (drop 5 s)) (getU16 (drop 6 s))).

Record EstopScanResult := mkScan { found : bool; offset : nat; frame : EstopFrame }.

Definition scan_nothing : EstopScanResult := mkScan false 0 (mkEstopFrame 0 0 0).

(** The loop over offsets; [s] is the part of the stream from offset [i] on. *)
Fixpoint scan_from (i : nat) (s : bytes) : EstopScanResult :=
  match s with
  | [] => scan_nothing
  | _ :: rest =>
      if (length s <? 4)%nat then scan_nothing
      else if negb (byte_at 0 s =? kEstopMagicByte) || negb (byte_at 1 s =? kEstopMagicByte)
           || negb (byte_at 2 s =? kEstopMagicByte) || negb (byte_at 3 s =? kEstopMagicByte)
      then scan_from (S i) rest
      else if (length s <? kEstopFrameBytes)%nat then scan_nothing
      else match decodeEstop (take kEstopFrameBytes s) with
           | Ok f => mkScan true i f
           | Err _ => scan_from (S i) rest
           end
  end.

Definition scanForEstop (stream : bytes) : EstopScanResult :=
  if (length stream <? 4)%nat then scan_nothing else scan_from 0 stream.

Definition estop_wf (f : EstopFrame) : Prop :=
  is_u8 (ef_cause f) /\ is_u8 (ef_origin f) /\ is_u16 (ef_seq f).

(** * Theorems *)

(** ** The table step is eight bit steps *)

Lemma kCrc32Table_eq : kCrc32Table = makeCrc32Table.
Proof. vm_compute. reflexivity. Qed.

Lemma table_lookup i : 0 <= i < 256 -> nth (Z.to_nat i) kCrc32Table 0 = Nat.iter 8 crc32_bit i.
Proof.
  intros Hi. apply nth_lookup_Some. rewrite kCrc32Table_eq. unfold makeCrc32Table.
  rewrite list_lookup_fmap, lookup_seq_lt by lia. simpl fmap.
  by rewrite Z2Nat.id by lia.
Qed.

Lemma crc32_bit_testbit c :
  crc32_bit c = Z.lxor (if Z.testbit c 0 then 0xEDB88320 else 0) (Z.shiftr c 1).
Proof.
  unfold crc32_bit. assert (Z.land c 1 = Z.b2z (Z.testbit c 0)) as ->.
  { change 1 with (Z.ones 1) at 1. rewrite Z.land_ones by lia. rewrite Z.bit0_mod. done. }
  by destruct (Z.testbit c 0).
Qed.

Lemma crc32_bit_xor a b : crc32_bit (Z.lxor a b) = Z.lxor (crc32_bit a) (crc32_bit b).
Proof.
  rewrite !crc32_bit_testbit, Z.lxor_spec, Z.shiftr_lxor.
  set (p := 3988292384). set (x := Z.shiftr a 1). set (y := Z.shiftr b 1).
  destruct (Z.testbit a 0), (Z.testbit b 0); simpl;
    apply Z.bits_inj; intros i; rewrite !Z.lxor_spec, ?Z.bits_0;
    destruct (Z.testbit p i), (Z.testbit x i), (Z.testbit y i); done.
Qed.

Lemma crc32_iter_xor n a b :
  Nat.iter n crc32_bit (Z.lxor a b) = Z.lxor (Nat.iter n crc32_bit a) (Nat.iter n crc32_bit b).
Proof.
  induction n as [|n IH]; simpl; [done|]. by rewrite IH, crc32_bit_xor.
Qed.

Lemma crc32_bit_shift n h : crc32_bit (Z.shiftl h (Z.of_nat (S n))) = Z.shiftl h (Z.of_nat n).
Proof.
  rewrite crc32_bit_testbit, Z.shiftl_spec_low by lia. rewrite Z.lxor_0_l.
  rewrite Z.shiftr_shiftl_l by lia. f_equal. lia.
Qed.

Lemma crc32_iter_shift n h : Nat.iter n crc32_bit (Z.shiftl h (Z.of_nat n)) = h.
Proof.
  induction n as [|n IH]; [simpl; by rewrite Z.shiftl_0_r|].
  by rewrite Nat.iter_succ_r, crc32_bit_shift.
Qed.

Lemma split_low8 s : s = Z.lxor (Z.land s 255) (Z.shiftl (Z.shiftr s 8) 8).
Proof.
  apply Z.bits_inj'. intros i Hi. change 255 with (Z.ones 8).
  rewrite Z.lxor_spec, Z.land_spec, Z.testbit_ones_nonneg, Z.shiftl_spec by lia.
  destruct (Z.ltb_spec i 8).
  - rewrite (Z.testbit_neg_r _ (i - 8)) by lia. by destruct (Z.testbit s i).
  - rewrite Z.shiftr_spec by lia. replace (i - 8 + 8) with i by lia. by destruct (Z.testbit s i).
Qed.

(** One table-driven step is eight steps of the bit-serial register. *)
Lemma crc32_byte_bits state b :
  is_u8 b -> crc32_byte state b = Nat.iter 8 crc32_bit (Z.lxor state b).
Proof.
  intros Hb. unfold crc32_byte. set (x := Z.lxor state b).
  assert (0 <= Z.land x 255 < 256) as Hr by (rewrite land_255; apply u8_range).
  rewrite table_lookup by done.
  rewrite (split_low8 x) at 2. rewrite crc32_iter_xor. f_equal.
  pose proof (crc32_iter_shift 8 (Z.shiftr x 8)) as Hs. change (Z.of_nat 8) with 8 in Hs.
  rewrite Hs. unfold x. rewrite Z.shiftr_lxor.
  assert (Z.shiftr b 8 = 0) as -> by (rewrite Z.shiftr_div_pow2 by lia; apply Z.div_small; apply Hb).
  by rewrite Z.lxor_0_r.
Qed.

(** *** The register step is injective on 32-bit words *)

Lemma crc32_bit_range c : is_u32 c -> is_u32 (crc32_bit c).
Proof.
  intros Hc. unfold crc32_bit.
  assert (0 <= Z.shiftr c 1 < 2 ^ 31) as Hs.
  { rewrite Z.shiftr_div_pow2 by lia. unfold_words. Z.div_mod_to_equations. lia. }
  case_ifs; [|unfold_words; lia].
  apply (lxor_range 32); [lia|lia|]. unfold_words. lia.
Qed.

Lemma crc32_bit_top c : is_u32 c -> Z.testbit (crc32_bit c) 31 = Z.testbit c 0.
Proof.
  intros Hc. rewrite crc32_bit_testbit, Z.lxor_spec.
  assert (Z.testbit (Z.shiftr c 1) 31 = false) as ->.
  { rewrite Z.shiftr_spec by lia. destruct (decide (c = 0)) as [->|]; [done|].
    apply Z.bits_above_log2; [apply Hc|]. apply Z.log2_lt_pow2; [unfold_words; lia|apply Hc]. }
  by destruct (Z.testbit c 0).
Qed.

Lemma crc32_bit_inj a b : is_u32 a -> is_u32 b -> crc32_bit a = crc32_bit b -> a = b.
Proof.
  intros Ha Hb H.
  assert (Z.testbit a 0 = Z.testbit b 0) as Hlow.
  { rewrite <- (crc32_bit_top a Ha), <- (crc32_bit_top b Hb). by rewrite H. }
  rewrite !crc32_bit_testbit, Hlow in H.
  assert (Z.shiftr a 1 = Z.shiftr b 1) as Hhi.
  { apply (f_equal (Z.lxor (if Z.testbit b 0 then 3988292384 else 0))) in H.
    by rewrite <- !Z.lxor_assoc, Z.lxor_nilpotent, !Z.lxor_0_l in H. }
  rewrite !Z.shiftr_div_pow2 in Hhi by lia. rewrite !Z.bit0_odd in Hlow.
  rewrite (Zdiv2_odd_eqn a), (Zdiv2_odd_eqn b), Hlow, !Z.div2_div.
  change (2 ^ 1) with 2 in Hhi. by rewrite Hhi.
Qed.

Lemma crc32_iter_inj n a b :
  is_u32 a -> is_u32 b -> Nat.iter n crc32_bit a = Nat.iter n crc32_bit b -> a = b.
Proof.
  revert a b. induction n as [|n IH]; intros a b Ha Hb; [done|].
  rewrite !Nat.iter_succ_r. intros H%IH; [|by apply crc32_bit_range..].
  by apply crc32_bit_inj.
Qed.

Lemma crc32_iter_range n a : is_u32 a -> is_u32 (Nat.iter n crc32_bit a).
Proof. intros Ha. induction n; simpl; [done|]. by apply crc32_bit_range. Qed.

(** A run of bytes, read as one little-endian word, clocked through the
    register in one go. *)
Fixpoint burst_word (bs : bytes) : Z :=
  match bs with [] => 0 | b :: bs => Z.lxor b (Z.shiftl (burst_word bs) 8) end.

Lemma crc32Update_word s bs :
  is_bytes bs -> crc32Update s bs = Nat.iter (8 * length bs) crc32_bit (Z.lxor s (burst_word bs)).
Proof.
  unfold crc32Update. revert s. induction bs as [|b bs IH]; intros s Hbs.
  { simpl. by rewrite Z.lxor_0_r. }
  apply Forall_cons in Hbs as [Hb Hbs]. cbn [foldl]. rewrite IH by done.
  replace (8 * length (b :: bs))%nat with (8 * length bs + 8)%nat by (simpl; lia).
  rewrite Nat.iter_add. f_equal. cbn [burst_word].
  rewrite <- Z.lxor_assoc, crc32_iter_xor, <- crc32_byte_bits by done.
  pose proof (crc32_iter_shift 8 (burst_word bs)) as Hs. change (Z.of_nat 8) with 8 in Hs.
  by rewrite Hs.
Qed.

Lemma burst_word_add b w : is_u8 b -> Z.lxor b (Z.shiftl w 8) = b + w * 256.
Proof.
  intros Hb. change 256 with (2 ^ 8). rewrite <- (lor_shiftl_add b w 8) by (unfold_words; lia).
  apply Z.bits_inj'. intros i Hi. rewrite Z.lxor_spec, Z.lor_spec.
  destruct (Z.ltb_spec i 8).
  - rewrite Z.shiftl_spec_low by lia. by destruct (Z.testbit b i).
  - assert (Z.testbit b i = false) as ->; [|done].
    destruct (decide (b = 0)) as [->|]; [by rewrite Z.bits_0|].
    apply Z.bits_above_log2; [unfold_words; lia|]. apply Z.log2_lt_pow2; [unfold_words; lia|].
    eapply Z.lt_le_trans; [apply Hb|]. change 256 with (2 ^ 8). apply Z.pow_le_mono_r; lia.
Qed.

Lemma burst_word_range bs :
  is_bytes bs -> 0 <= burst_word bs < 2 ^ (8 * Z.of_nat (length bs)).
Proof.
  induction bs as [|b bs IH]; intros H; [simpl; lia|].
  apply Forall_cons in H as [Hb Hbs]. specialize (IH Hbs). cbn [burst_word length].
  rewrite burst_word_add by done.
  replace (8 * Z.of_nat (S (length bs))) with (8 + 8 * Z.of_nat (length bs)) by lia.
  rewrite Z.pow_add_r by lia. unfold_words. lia.
Qed.

Lemma burst_word_inj xs ys :
  is_bytes xs -> is_bytes ys -> length xs = length ys -> burst_word xs = burst_word ys -> xs = ys.
Proof.
  revert ys. induction xs as [|x xs IH]; intros [|y ys] Hx Hy Hl H; simpl in Hl; try done; try lia.
  apply Forall_cons in Hx as [Hx Hxs]. apply Forall_cons in Hy as [Hy Hys]. cbn [burst_word] in H.
  rewrite !burst_word_add in H by done. unfold_words.
  assert (x = y) as -> by lia. f_equal. apply IH; [done|done|lia|lia].
Qed.

Lemma crc32Update_range s bs : is_u32 s -> is_bytes bs -> is_u32 (crc32Update s bs).
Proof.
  unfold crc32Update. revert s. induction bs as [|b bs IH]; intros s Hs H; [done|].
  apply Forall_cons in H as [Hb Hbs]. simpl. apply IH; [|done]. rewrite crc32_byte_bits by done.
  apply crc32_iter_range, (lxor_range 32); [lia|done|unfold_words; lia].
Qed.

Lemma crc32Update_inj s t bs :
  is_u32 s -> is_u32 t -> is_bytes bs -> crc32Update s bs = crc32Update t bs -> s = t.
Proof.
  unfold crc32Update. revert s t. induction bs as [|b bs IH]; intros s t Hs Ht H; [done|].
  apply Forall_cons in H as [Hb Hbs]. simpl.
  rewrite !crc32_byte_bits by done.
  assert (forall w, is_u32 w -> is_u32 (Z.lxor w b)) as Hx
    by (intros w Hw; apply (lxor_range 32); [lia|done|unfold_words; lia]).
  intros E%IH; [|by apply crc32_iter_range; auto..|done].
  apply crc32_iter_inj in E; [|by auto..].
  apply (f_equal (fun w => Z.lxor w b)) in E.
  by rewrite !Z.lxor_assoc, Z.lxor_nilpotent, !Z.lxor_0_r in E.
Qed.

Lemma crc32Update_app s a b : crc32Update s (a ++ b) = crc32Update (crc32Update s a) b.
Proof. unfold crc32Update. by rewrite foldl_app. Qed.

(** Two messages that differ only inside a window of at most four bytes have
    different checksums. *)
Lemma crc32_burst pre xs ys post :
  is_bytes pre -> is_bytes xs -> is_bytes ys -> is_bytes post ->
  length xs = length ys -> (length xs <= 4)%nat ->
  crc32 (pre ++ xs ++ post) = crc32 (pre ++ ys ++ post) -> xs = ys.
Proof.
  intros Hpre Hxs Hys Hpost Hl H4 H. unfold crc32, crc32Final in H.
  apply (f_equal (fun w => Z.lxor w 0xFFFFFFFF)) in H.
  rewrite !Z.lxor_assoc, Z.lxor_nilpotent, !Z.lxor_0_r, !crc32Update_app in H.
  assert (is_u32 (crc32Update crc32Init pre)) as Hs
    by (apply crc32Update_range; [done|done]).
  revert Hs H. generalize (crc32Update crc32Init pre) as st. intros st Hs H.
  apply crc32Update_inj in H; [|by apply crc32Update_range..|done].
  rewrite !crc32Update_word, Hl in H by done.
  assert (forall zs, is_bytes zs -> (length zs <= 4)%nat ->
            is_u32 (Z.lxor st (burst_word zs))) as Hx.
  { intros zs Hzs Hlz. apply (lxor_range 32); [lia|done|].
    pose proof (burst_word_range zs Hzs) as Hr. split; [lia|]. eapply Z.lt_le_trans; [apply Hr|].
    apply Z.pow_le_mono_r; lia. }
  apply crc32_iter_inj in H; [|by apply Hx; [done|lia]..].
  apply (f_equal (Z.lxor st)) in H.
  rewrite <- !Z.lxor_assoc, Z.lxor_nilpotent, !Z.lxor_0_l in H.
  by apply burst_word_inj.
Qed.

(** ** ESTOP frames *)

Definition estop_bytes (f : EstopFrame) : bytes :=
  let body := replicate 4 kEstopMagicByte ++ [u8 (ef_cause f); u8 (ef_origin f)] ++ le16 (ef_seq f) in
  body ++ le32 (crc32 body).

Lemma encodeEstop_bytes f out :
  (kEstopFrameBytes <= length out)%nat ->
  encodeEstop f out = (kEstopFrameBytes, estop_bytes f ++ drop kEstopFrameBytes out).
Proof.
  intros Hl. unfold encodeEstop. destruct (Nat.ltb_spec (length out) kEstopFrameBytes); [lia|].
  unfold kEstopFrameBytes in *.
  do 12 (destruct out as [|? out]; [simpl in Hl; lia|]). done.
Qed.

Lemma estop_body_bytes f :
  is_bytes (replicate 4 kEstopMagicByte ++ [u8 (ef_cause f); u8 (ef_origin f)] ++ le16 (ef_seq f)).
Proof. simpl. repeat constructor; unfold kEstopMagicByte; try lia; apply u8_range. Qed.

Lemma crc32_range bs : is_bytes bs -> is_u32 (crc32 bs).
Proof.
  intros H. unfold crc32, crc32Final. apply (lxor_range 32); [lia| |lia].
  by apply crc32Update_range.
Qed.

Lemma decodeEstop_bytes f rest :
  estop_wf f -> decodeEstop (estop_bytes f ++ rest) = Ok f.
Proof.
  intros (Hc & Ho & Hs). unfold decodeEstop.
  destruct (Nat.ltb_spec (length (estop_bytes f ++ rest)) kEstopFrameBytes) as [Hl|_].
  { rewrite length_app in Hl. unfold kEstopFrameBytes, estop_bytes in Hl. simpl in Hl. lia. }
  assert (existsb (fun i => negb (byte_at i (estop_bytes f ++ rest) =? kEstopMagicByte)) (seq 0 4) = false)
    as -> by done.
  assert (subspan 0 kEstopCrcOffset (estop_bytes f ++ rest) =
    replicate 4 kEstopMagicByte ++ [u8 (ef_cause f); u8 (ef_origin f)] ++ le16 (ef_seq f)) as -> by done.
  set (body := replicate 4 kEstopMagicByte ++ [u8 (ef_cause f); u8 (ef_origin f)] ++ le16 (ef_seq f)).
  assert (subspan kEstopCrcOffset 4 (estop_bytes f ++ rest) = le32 (crc32 body) ++ []) as -> by done.
  rewrite getU32_le32, u32_id by (apply crc32_range, estop_body_bytes).
  rewrite Z.eqb_refl. simpl negb. cbn match. f_equal. destruct f as [c o q]. simpl in *. f_equal.
  - by apply u8_id.
  - by apply u8_id.
  - etransitivity; [apply (getU16_le16 q)|by apply u16_id].
Qed.

(** What an accepted candidate looks like. *)
Lemma decodeEstop_magic s f :
  decodeEstop s = Ok f ->
  (kEstopFrameBytes <= length s)%nat /\ forall i, (i < 4)%nat -> byte_at i s = kEstopMagicByte.
Proof.
  unfold decodeEstop. case_ifs; try done. intros _. split; [lia|]. intros i Hi.
  destruct (Z.eqb_spec (byte_at i s) kEstopMagicByte); [done|]. exfalso.
  assert (existsb (fun i => negb (byte_at i s =? kEstopMagicByte)) (seq 0 4) = true); [|congruence].
  apply existsb_exists. exists i. split; [apply in_seq; lia|]. by apply negb_true_iff, Z.eqb_neq.
Qed.

(** A candidate at offset [k]: twelve bytes there that decode. *)
Definition estop_at (stream : bytes) (k : nat) (f : EstopFrame) : Prop :=
  decodeEstop (subspan k kEstopFrameBytes stream) = Ok f.

Lemma byte_at_take i n s : (i < n)%nat -> byte_at i (take n s) = byte_at i s.
Proof.
  intros H. unfold byte_at. revert n s H. induction i; intros [|n] [|x s] H; simpl; try done; try lia.
  apply IHi. lia.
Qed.

Definition scan_ok (i : nat) (s : bytes) (r : EstopScanResult) : Prop :=
  if found r then
    exists k, offset r = (i + k)%nat /\ estop_at s k (frame r) /\
              forall j f, (j < k)%nat -> ~ estop_at s j f
  else forall k f, ~ estop_at s k f.

Lemma scan_ok_cons i b s r :
  (forall f, ~ estop_at (b :: s) 0 f) -> scan_ok (S i) s r -> scan_ok i (b :: s) r.
Proof.
  unfold scan_ok. intros H0. destruct (found r).
  - intros (k & Ho & Hk & Hmin). exists (S k). split_and!; [lia|exact Hk|].
    intros [|j] f Hj; [apply H0|]. apply (Hmin j f). lia.
  - intros H [|k] f; [apply H0|apply (H k f)].
Qed.

Lemma estop_at_length s k f : estop_at s k f -> (k + kEstopFrameBytes <= length s)%nat.
Proof.
  intros [Hl _]%decodeEstop_magic. unfold subspan in Hl. rewrite length_take, length_drop in Hl.
  unfold kEstopFrameBytes in *. lia.
Qed.

Lemma scan_from_ok i s : scan_ok i s (scan_from i s).
Proof.
  assert (forall i s, (length s < kEstopFrameBytes)%nat -> scan_ok i s scan_nothing) as Hshort.
  { intros i' s' Hs' k f H%estop_at_length. lia. }
  revert i. induction s as [|b s IH]; intros i.
  { apply Hshort. simpl. unfold kEstopFrameBytes. lia. }
  cbn [scan_from]. destruct (Nat.ltb_spec (length (b :: s)) 4).
  { apply Hshort. unfold kEstopFrameBytes. lia. }
  destruct (_ || _) eqn:Hmagic.
  { apply scan_ok_cons; [|apply IH]. intros f [_ Hm]%decodeEstop_magic.
    rewrite !orb_true_iff, !negb_true_iff, !Z.eqb_neq in Hmagic.
    assert (forall j, (j < 4)%nat -> byte_at j (b :: s) = kEstopMagicByte) as Hm'.
    { intros j Hj. rewrite <- (Hm j Hj). unfold subspan. rewrite drop_0.
      symmetry. apply byte_at_take. unfold kEstopFrameBytes. lia. }
    destruct Hmagic as [[[H0|H0]|H0]|H0]; apply H0, Hm'; lia. }
  destruct (Nat.ltb_spec (length (b :: s)) kEstopFrameBytes); [by apply Hshort|].
  destruct (decodeEstop (take kEstopFrameBytes (b :: s))) as [f|e] eqn:Hd.
  - exists 0%nat. split_and!; [simpl; lia| |intros; lia]. exact Hd.
  - apply scan_ok_cons; [|apply IH]. intros f H'. unfold estop_at, subspan in H'.
    rewrite drop_0, Hd in H'. done.
Qed.

Lemma scanForEstop_ok stream : scan_ok 0 stream (scanForEstop stream).
Proof.
  unfold scanForEstop. destruct (Nat.ltb_spec (length stream) 4); [|apply scan_from_ok].
  intros k f Hk%estop_at_length. unfold kEstopFrameBytes in Hk. lia.
Qed.

(** ** Properties *)

(** Encoding a header into any span of at least eight bytes writes exactly
    those eight bytes, leaves the rest of the span alone, and the decoder
    reads back the very header; a shorter span is refused untouched and
    never decodes. *)
Theorem frame_header_roundtrip h out :
  header_wf h ->
  (if (length out <? kHeaderBytes)%nat
   then encodeFrameHeader h out = (0%nat, out) /\ decodeFrameHeader out = None
   else exists out',
     encodeFrameHeader h out = (kHeaderBytes, out') /\
     decodeFrameHeader out' = Some h /\
     length out' = length out /\ drop kHeaderBytes out' = drop kHeaderBytes out).
Proof.
  intros Hh. destruct (Nat.ltb_spec (length out) kHeaderBytes) as [Hl|Hl].
  - unfold encodeFrameHeader, decodeFrameHeader.
    destruct (Nat.ltb_spec (length out) kHeaderBytes); [done|lia].
  - exists (header_bytes h ++ drop kHeaderBytes out).
    split_and!; [by apply encodeFrameHeader_spec|by apply decodeFrameHeader_bytes| |done].
    rewrite length_app, length_drop, length_header_bytes. lia.
Qed.

Lemma frame_header_roundtrip_witness :
  header_wf (mkFrameHeader 11 0 300 65535 242) /\
  exists out', encodeFrameHeader (mkFrameHeader 11 0 300 65535 242) (replicate 10 7) = (kHeaderBytes, out') /\
    decodeFrameHeader out' = Some (mkFrameHeader 11 0 300 65535 242) /\
    length out' = 10%nat /\ drop kHeaderBytes out' = [7; 7].
Proof.
  assert (header_wf (mkFrameHeader 11 0 300 65535 242)) as Hh
    by (unfold header_wf, is_u8, is_u16; simpl; lia).
  split; [done|]. exact (frame_header_roundtrip _ (replicate 10 7) Hh).
Defined.

(** The bit-serial definition of CRC-32/ISO-HDLC: eight shift steps per byte. *)
Definition crc32_reference (data : bytes) : Z :=
  Z.lxor (foldl (fun s b => Nat.iter 8 crc32_bit (Z.lxor s b)) 0xFFFFFFFF data) 0xFFFFFFFF.

(** The table-driven checksum equals the bit-serial CRC-32 on every byte
    string, and the standard check value of "123456789" is 0xCBF43926. *)
Theorem crc32_table_correct data :
  is_bytes data ->
  crc32 data = crc32_reference data /\
  crc32 [49; 50; 51; 52; 53; 54; 55; 56; 57] = 0xCBF43926.
Proof.
  intros Hd. split; [|vm_compute; reflexivity].
  unfold crc32, crc32_reference, crc32Final, crc32Update, crc32Init. f_equal.
  generalize 0xFFFFFFFF as s. induction Hd as [|b data Hb Hd IH]; intros s; [done|].
  simpl foldl. by rewrite IH, crc32_byte_bits.
Qed.

Lemma crc32_table_correct_witness : crc32 [0; 255; 16] = crc32_reference [0; 255; 16].
Proof. apply (crc32_table_correct [0; 255; 16]). repeat constructor; unfold is_u8; lia. Defined.

(** C39. An ESTOP frame written by the encoder decodes to the same frame, and
    any corruption confined to four consecutive bytes of the eight bytes the
    checksum covers is rejected. *)
Theorem estop_integrity f pre xs ys post :
  estop_wf f ->
  take kEstopCrcOffset (estop_bytes f) = pre ++ xs ++ post ->
  is_bytes ys -> length ys = length xs -> (length xs <= 4)%nat -> ys <> xs ->
  (forall out, (kEstopFrameBytes <= length out)%nat -> decodeEstop (encodeEstop f out).2 = Ok f) /\
  (forall rest, isOk (decodeEstop ((pre ++ ys ++ post) ++ drop kEstopCrcOffset (estop_bytes f) ++ rest)) = false).
Proof.
  intros Hf Hsplit Hys Hl H4 Hne. split.
  { intros out Ho. rewrite encodeEstop_bytes by done. by apply decodeEstop_bytes. }
  intros rest.
  assert (is_bytes (pre ++ xs ++ post)) as Hall by (rewrite <- Hsplit; apply estop_body_bytes).
  apply Forall_app in Hall as [Hpre [Hxs Hpost]%Forall_app].
  assert (length (pre ++ ys ++ post) = kEstopCrcOffset) as Hlen.
  { transitivity (length (pre ++ xs ++ post)); [rewrite !length_app; lia|]. by rewrite <- Hsplit. }
  unfold decodeEstop. case_ifs; try done. exfalso.
  apply Hne. symmetry. apply (crc32_burst pre xs ys post); try done.
  rewrite negb_false_iff, Z.eqb_eq in Heqb1.
  rewrite subspan_app_here in Heqb1 by done.
  rewrite Heqb1, <- Hsplit.
  assert (subspan kEstopCrcOffset 4 ((pre ++ ys ++ post) ++ drop kEstopCrcOffset (estop_bytes f) ++ rest)
          = le32 (crc32 (take kEstopCrcOffset (estop_bytes f))) ++ []) as ->.
  { unfold subspan. rewrite <- Hlen at 1. rewrite drop_app_length. done. }
  rewrite getU32_le32. symmetry. apply u32_id, crc32_range, (estop_body_bytes f).
Qed.

Lemma estop_integrity_witness :
  isOk (decodeEstop ([0xE5; 0xE5; 0xE5; 0xE5] ++ [0; 2; 9; 8] ++ [] ++ drop 8 (estop_bytes (mkEstopFrame 0 1 7)))) = false.
Proof.
  refine (proj2 (estop_integrity (mkEstopFrame 0 1 7) [0xE5; 0xE5; 0xE5; 0xE5] [0; 1; 7; 0] [0; 2; 9; 8] []
    _ _ _ _ _ _) []).
  - unfold estop_wf, is_u8, is_u16; simpl; lia.
  - vm_compute. reflexivity.
  - repeat constructor; unfold is_u8; lia.
  - reflexivity.
  - simpl. lia.
  - discriminate.
Defined.

(** C24. The byte-serial scanner reports the first offset at which twelve bytes
    form a valid ESTOP frame, with that frame, and reports nothing exactly
    when no offset holds one: a corrupt or coincidental magic run never hides
    a real frame that overlaps or follows it. *)
Theorem scanForEstop_first stream :
  let r := scanForEstop stream in
  (found r = true ->
     estop_at stream (offset r) (frame r) /\
     forall j f, (j < offset r)%nat -> ~ estop_at stream j f) /\
  (found r = false <-> forall k f, ~ estop_at stream k f).
Proof.
  cbv zeta. pose proof (scanForEstop_ok stream) as H. unfold scan_ok in H.
  destruct (found (scanForEstop stream)); split.
  - destruct H as (k & Ho & Hk & Hmin). rewrite Ho. auto.
  - split; [done|]. intros Hno. destruct H as (k & _ & Hk & _). by apply Hno in Hk.
  - done.
  - done.
Qed.
