(* ===== verification/Cobs.v ===== *)
(** * Cobs: the serial binding's framing layer

    wire/serial_cobs.hpp. The encoder runs on the destination buffer with the
    source's write index, code index, run code and [finalZero] flag; it is
    shown to compute the list-level encoding [cobs], which the decoder inverts. *)

From S2P Require Import Prelude.
Local Open Scope Z_scope.

Record enc := mkEnc {
  dst : bytes; writeIndex : nat; codeIndex : nat; code : Z; finalZero : bool }.

(** Close the current run: store its code, open the next one.  [Err] carries
    the buffer of the early [return 0]. *)
Definition flush (fz : bool) (s : enc) : Result enc bytes :=
  let d := <[codeIndex s := code s]> (dst s) in
  if (length d <=? writeIndex s)%nat then Err d
  else Ok (mkEnc d (S (writeIndex s)) (writeIndex s) 1 fz).

Definition enc_byte (s : enc) (b : Z) : Result enc bytes :=
  if b =? 0 then flush true s
  else if (length (dst s) <=? writeIndex s)%nat then Err (dst s)
  else
    let s := mkEnc (<[writeIndex s := b]> (dst s)) (S (writeIndex s)) (codeIndex s)
                   (u8 (code s + 1)) (finalZero s) in
    if code s =? 0xFF then flush false s else Ok s.

Fixpoint enc_loop (src : bytes) (s : enc) : Result enc bytes :=
  match src with
  | [] => Ok s
  | b :: src => let? s := enc_byte s b in enc_loop src s
  end.

Definition cobsEncode (src out : bytes) : nat * bytes :=
  if (length out =? 0)%nat then (0%nat, out)
  else match enc_loop src (mkEnc out 1 0 1 true) with
       | Err d => (0%nat, d)
       | Ok s =>
           if finalZero s || negb (code s =? 1)
           then (writeIndex s, <[codeIndex s := code s]> (dst s))
           else (writeIndex s - 1, dst s)%nat
       end.

(** The copy loop of one block: [n] data bytes from [src] to [d] at [wi]. *)
Fixpoint copy_block (n : nat) (src d : bytes) (wi : nat) : Result (bytes * nat) DecodeError * bytes :=
  match n with
  | O => (Ok (src, wi), d)
  | S n =>
      match src with
      | [] => (Err Truncated, d)
      | b :: src =>
          if (length d <=? wi)%nat then (Err CapacityExceeded, d)
          else copy_block n src (<[wi := b]> d) (S wi)
      end
  end.

(** The block loop; [None] is fuel running out, see [dec_loop_total]. *)
Fixpoint dec_loop (fuel : nat) (src d : bytes) (wi : nat) : option (Result nat DecodeError * bytes) :=
  match fuel with
  | O => None
  | S fuel =>
      match src with
      | [] => Some (Ok wi, d)
      | c :: src =>
          if c =? 0 then Some (Err Malformed, d)
          else
            match copy_block (Z.to_nat c - 1) src d wi with
            | (Err e, d) => Some (Err e, d)
            | (Ok (src, wi), d) =>
                if negb (c =? 0xFF) && negb (length src =? 0)%nat then
                  if (length d <=? wi)%nat then Some (Err CapacityExceeded, d)
                  else dec_loop fuel src (<[wi := 0]> d) (S wi)
                else dec_loop fuel src d wi
            end
      end
  end.

Definition cobsDecode (src d : bytes) : option (Result nat DecodeError * bytes) :=
  dec_loop (S (length src)) src d 0.

(** ** The list-level encoding *)

(** [blk] is the run collected so far; [fz] says whether a trailing code is
    owed when the input ends here. *)
Fixpoint cobs_from (src blk : bytes) (fz : bool) : bytes :=
  match src with
  | [] => if fz || negb (length blk =? 0)%nat then Z.of_nat (length blk + 1) :: blk else []
  | b :: src =>
      if b =? 0 then Z.of_nat (length blk + 1) :: blk ++ cobs_from src [] true
      else if (length blk + 1 =? 254)%nat then 255 :: blk ++ b :: cobs_from src [] false
      else cobs_from src (blk ++ [b]) fz
  end.

Definition cobs (src : bytes) : bytes := cobs_from src [] true.

(** Slots the encoder still reserves: one per byte plus one per closed run. *)
Fixpoint need (src : bytes) (k : nat) : nat :=
  match src with
  | [] => 0
  | b :: src =>
      if (b =? 0)%Z then 1 + need src 0
      else if (k + 1 =? 254)%nat then 2 + need src 0
      else 1 + need src (k + 1)
  end%nat.

Lemma need_bound src k :
  (k <= 253)%nat -> (need src k <= length src + (k + length src) / 254)%nat.
Proof.
  revert k. induction src as [|b src IH]; intros k Hk; cbn [need length]; [lia|]. case_ifs.
  - specialize (IH 0%nat ltac:(lia)).
    pose proof (Nat.Div0.div_le_mono (length src) (k + S (length src)) 254 ltac:(lia)).
    rewrite Nat.add_0_l in IH. lia.
  - specialize (IH 0%nat ltac:(lia)). assert (k = 253)%nat as -> by lia.
    replace (253 + S (length src))%nat with (length src + 1 * 254)%nat by lia.
    rewrite Nat.div_add by lia. rewrite Nat.add_0_l in IH. lia.
  - specialize (IH (k + 1)%nat ltac:(lia)).
    replace (k + S (length src))%nat with (k + 1 + length src)%nat by lia. lia.
Qed.

(** ** The encoder computes [cobs] *)

(** [done] is the finished output, [blk] the open run. *)
Definition enc_inv (s : enc) (done blk : bytes) (fz : bool) : Prop :=
  codeIndex s = length done /\ writeIndex s = (length done + 1 + length blk)%nat /\
  code s = Z.of_nat (length blk + 1) /\ finalZero s = fz /\ (length blk <= 254)%nat /\
  (writeIndex s <= length (dst s))%nat /\
  take (length done) (dst s) = done /\
  subspan (length done + 1) (length blk) (dst s) = blk.

Lemma enc_inv_close s done blk fz :
  enc_inv s done blk fz ->
  take (writeIndex s) (<[codeIndex s := code s]> (dst s)) = done ++ code s :: blk.
Proof.
  intros (Hci & Hwi & Hc & _ & _ & Hfit & Hdone & Hblk).
  rewrite Hci, Hwi. apply list_eq. intros i.
  assert (forall j, (j < length done)%nat -> dst s !! j = done !! j) as Hd.
  { intros j Hj. rewrite <- Hdone, lookup_take. by rewrite decide_True. }
  assert (forall j, (j < length blk)%nat -> dst s !! (length done + 1 + j)%nat = blk !! j) as Hb.
  { intros j Hj. rewrite <- Hblk. unfold subspan. rewrite lookup_take, lookup_drop.
    by rewrite decide_True. }
  destruct (decide (i < length done + 1 + length blk)%nat) as [Hi|Hi].
  2:{ rewrite !lookup_ge_None_2; [done|rewrite length_app; simpl; lia|rewrite length_take; lia]. }
  rewrite lookup_take, decide_True by done.
  destruct (decide (i < length done)%nat).
  - rewrite list_lookup_insert_ne, Hd, lookup_app_l by lia. done.
  - rewrite lookup_app_r by lia. destruct (decide (i = length done)) as [->|].
    + rewrite Nat.sub_diag, list_lookup_insert_eq by lia. done.
    + rewrite list_lookup_insert_ne by lia.
      replace i with (length done + 1 + (i - length done - 1))%nat at 1 by lia.
      rewrite Hb by lia. destruct (i - length done)%nat as [|m] eqn:E; [lia|]. simpl. f_equal. lia.
Qed.

Lemma flush_inv s done blk fz fz' :
  enc_inv s done blk fz -> (writeIndex s < length (dst s))%nat ->
  exists s', flush fz' s = Ok s' /\ enc_inv s' (done ++ code s :: blk) [] fz' /\
             length (dst s') = length (dst s) /\ writeIndex s' = S (writeIndex s).
Proof.
  intros Hinv Hlt. pose proof (enc_inv_close _ _ _ _ Hinv) as Hclose.
  destruct Hinv as (Hci & Hwi & Hc & Hfz & Hb & Hfit & _ & _).
  unfold flush. rewrite length_insert. case_ifs; [lia|]. eexists. split; [done|].
  unfold enc_inv. simpl. rewrite length_app, length_insert. simpl.
  split_and!; try done; try lia.
  - rewrite <- Hclose. f_equal. lia.
Qed.

Lemma push_inv s done blk fz b :
  enc_inv s done blk fz -> (length blk + 1 <= 254)%nat -> (writeIndex s < length (dst s))%nat ->
  enc_inv (mkEnc (<[writeIndex s := b]> (dst s)) (S (writeIndex s)) (codeIndex s)
                 (u8 (code s + 1)) (finalZero s)) done (blk ++ [b]) fz.
Proof.
  intros (Hci & Hwi & Hc & Hfz & Hb & Hfit & Hdone & Hblk) Hb' Hlt.
  unfold enc_inv. simpl. rewrite length_insert, length_app. simpl. rewrite Hc, Hwi.
  rewrite Hwi in Hlt. rewrite u8_id by (unfold_words; lia).
  split_and!; try done; try lia.
  - rewrite insert_write_at, take_write_at by lia. done.
  - rewrite insert_write_at by lia. rewrite <- Hblk at 3. unfold subspan.
    rewrite take_drop_commute. replace (length done + 1 + (length blk + 1))%nat
      with (length (take (length done + 1 + length blk) (dst s)) + 1)%nat
      by (rewrite length_take; lia).
    unfold write_at. rewrite take_app_add. simpl.
    rewrite drop_app_le by (rewrite length_take; lia). by rewrite <- take_drop_commute.
Qed.

(** Where the loop ends: the bytes [cobsEncode] reports are the finished
    output followed by the encoding of what is left. *)
Definition finish (s : enc) : bytes :=
  if finalZero s || negb (code s =? 1)
  then take (writeIndex s) (<[codeIndex s := code s]> (dst s))
  else take (writeIndex s - 1) (dst s).

Lemma finish_spec s done blk fz :
  enc_inv s done blk fz -> finish s = done ++ cobs_from [] blk fz.
Proof.
  intros Hinv. pose proof (enc_inv_close _ _ _ _ Hinv) as Hclose.
  destruct Hinv as (Hci & Hwi & Hc & Hfz & _ & _ & Hdone & _).
  unfold finish. simpl. rewrite Hfz.
  assert (negb (code s =? 1) = negb (length blk =? 0)%nat) as -> by (f_equal; lia).
  destruct fz; simpl.
  { rewrite Hclose, Hc. done. }
  destruct (Nat.eqb_spec (length blk) 0) as [Hz|]; simpl.
  - rewrite app_nil_r, <- Hdone at 1. f_equal. lia.
  - rewrite Hclose, Hc. done.
Qed.

Lemma enc_loop_spec src s done blk fz :
  is_bytes src -> enc_inv s done blk fz -> (length blk <= 253)%nat ->
  (writeIndex s + need src (length blk) <= length (dst s))%nat ->
  exists s' done' blk' fz', enc_loop src s = Ok s' /\ enc_inv s' done' blk' fz' /\
    length (dst s') = length (dst s) /\
    done' ++ cobs_from [] blk' fz' = done ++ cobs_from src blk fz.
Proof.
  revert s done blk fz. induction src as [|b src IH]; intros s done blk fz Hsrc Hinv Hblk Hneed.
  { exists s, done, blk, fz. done. }
  apply Forall_cons in Hsrc as [Hb Hsrc].
  cbn [enc_loop need cobs_from] in *. unfold enc_byte.
  destruct (Z.eqb_spec b 0) as [->|Hnz].
  { destruct (flush_inv s done blk fz true Hinv ltac:(lia)) as (s1 & -> & H1 & Hl1 & Hw1).
    destruct (IH s1 _ [] true Hsrc H1 ltac:(simpl; lia)) as (s' & d' & b' & f' & Hr & Hi & Hl & He).
    { simpl. lia. }
    exists s', d', b', f'. simpl rbind. split_and!; [done|done|lia|]. rewrite He, <- app_assoc.
    destruct Hinv as (_ & _ & -> & _). done. }
  destruct (Nat.leb_spec (length (dst s)) (writeIndex s)); [destruct (_ =? _)%nat; lia|].
  pose proof (push_inv s done blk fz b Hinv ltac:(lia) ltac:(lia)) as Hp.
  set (s1 := mkEnc _ _ _ _ _) in *.
  assert (code s1 = Z.of_nat (length blk + 2)) as Hc1.
  { destruct Hp as (_ & _ & -> & _). rewrite length_app. simpl. lia. }
  assert (length (dst s1) = length (dst s) /\ writeIndex s1 = S (writeIndex s)) as [Hl1 Hw1]
    by (unfold s1; simpl; by rewrite length_insert).
  cbv zeta. rewrite Hc1.
  destruct (Nat.eqb_spec (length blk + 1) 254) as [Hfull|Hfull].
  - destruct (Z.eqb_spec (Z.of_nat (length blk + 2)) 255) as [_|]; [|lia].
    destruct (flush_inv s1 done _ fz false Hp ltac:(lia)) as (s2 & -> & H2 & Hl2 & Hw2).
    destruct (IH s2 _ [] false Hsrc H2 ltac:(simpl; lia)) as (s' & d' & b' & f' & Hr & Hi & Hl & He).
    { simpl. lia. }
    exists s', d', b', f'. simpl rbind. split_and!; [done|done|lia|]. rewrite He, Hc1.
    replace (Z.of_nat (length blk + 2)) with 255 by lia.
    by rewrite <- !app_assoc, <- app_comm_cons, <- app_assoc.
  - destruct (Z.eqb_spec (Z.of_nat (length blk + 2)) 255) as [|_]; [lia|]. simpl rbind.
    destruct (IH s1 done (blk ++ [b]) fz Hsrc Hp) as (s' & d' & b' & f' & Hr & Hi & Hl & He).
    { rewrite length_app. simpl. lia. }
    { rewrite length_app. cbn [length]. lia. }
    exists s', d', b', f'. split_and!; [done|done|lia|done].
Qed.

Lemma length_cobs_from_need src blk fz :
  (length (cobs_from src blk fz) <= 1 + length blk + need src (length blk))%nat.
Proof.
  revert blk fz. induction src as [|b src IH]; intros blk fz; simpl.
  { case_ifs; simpl; lia. }
  case_ifs.
  - specialize (IH [] true). simpl in *. rewrite length_app. lia.
  - specialize (IH [] false). simpl in *. rewrite length_app. simpl. lia.
  - specialize (IH (blk ++ [b]) fz). rewrite length_app in IH. simpl in IH. lia.
Qed.

(** The encoder on a buffer of the documented worst-case size. *)
Lemma cobsEncode_spec src out :
  is_bytes src -> (length src + length src / 254 + 1 <= length out)%nat ->
  exists out', cobsEncode src out = (length (cobs src), out') /\
    length out' = length out /\ take (length (cobs src)) out' = cobs src.
Proof.
  intros Hsrc Hcap. unfold cobsEncode. destruct (Nat.eqb_spec (length out) 0); [lia|].
  assert (enc_inv (mkEnc out 1 0 1 true) [] [] true) as Hinit.
  { unfold enc_inv. simpl. split_and!; try done; lia. }
  pose proof (need_bound src 0 ltac:(lia)) as Hneed. rewrite Nat.add_0_l in Hneed.
  destruct (enc_loop_spec src _ [] [] true Hsrc Hinit) as (s & d & b & f & -> & Hinv & Hl & He).
  { simpl. lia. }
  { simpl. lia. }
  pose proof (finish_spec _ _ _ _ Hinv) as Hfin. rewrite He in Hfin. simpl in Hfin, Hl.
  change (cobs_from src [] true) with (cobs src) in Hfin. unfold finish in Hfin.
  destruct Hinv as (Hci & Hwi & Hc & Hfz & Hb & Hfit & _ & _).
  destruct (finalZero s || negb (code s =? 1)).
  - exists (<[codeIndex s:=code s]> (dst s)).
    assert (length (cobs src) = writeIndex s) as -> by (rewrite <- Hfin, length_take, length_insert; lia).
    rewrite length_insert. split_and!; [done|lia|done].
  - exists (dst s).
    assert (length (cobs src) = writeIndex s - 1)%nat as -> by (rewrite <- Hfin, length_take; lia).
    split_and!; [done|lia|done].
Qed.

(** ** The decoder inverts [cobs] *)

Lemma copy_block_ok xs rest d wi :
  (wi + length xs <= length d)%nat ->
  copy_block (length xs) (xs ++ rest) d wi = (Ok (rest, wi + length xs)%nat, write_at wi xs d).
Proof.
  revert d wi. induction xs as [|x xs IH]; intros d wi Hfit; simpl in *.
  { by rewrite Nat.add_0_r, write_at_nil. }
  destruct (Nat.leb_spec (length d) wi); [lia|].
  rewrite IH by (rewrite length_insert; lia). rewrite write_at_cons by lia.
  do 2 f_equal. f_equal. lia.
Qed.

Lemma copy_block_shrinks n src d wi r src' wi' d' :
  copy_block n src d wi = (r, d') -> r = Ok (src', wi') -> (length src' <= length src)%nat.
Proof.
  revert src d wi. induction n as [|n IH]; intros src d wi; simpl.
  { intros [= <- <-] [= -> ->]. done. }
  destruct src as [|b src]; [by intros [= <- <-]|]. case_ifs; [by intros [= <- <-]|].
  intros H Hr. specialize (IH _ _ _ H Hr). simpl. lia.
Qed.

Lemma dec_loop_total fuel src d wi :
  (length src < fuel)%nat -> is_Some (dec_loop fuel src d wi).
Proof.
  revert src d wi. induction fuel as [|fuel IH]; intros src d wi Hf; [lia|]. cbn [dec_loop].
  destruct src as [|c src]; [done|]. case_ifs; [done|].
  destruct (copy_block _ _ _ _) as [[[src' wi']|e] d'] eqn:Hc; [|done].
  eapply copy_block_shrinks in Hc; [|done]. simpl in Hf.
  case_ifs; try done; apply IH; lia.
Qed.

Lemma cobs_from_nonempty src blk : (0 < length (cobs_from src blk true))%nat.
Proof. revert blk. induction src as [|b src IH]; intros blk; simpl; case_ifs; simpl; try lia. apply IH. Qed.

Lemma dec_loop_cobs fuel src blk fz d wi :
  (length (cobs_from src blk fz) < fuel)%nat -> (length blk <= 253)%nat ->
  (wi + length blk + length src <= length d)%nat ->
  dec_loop fuel (cobs_from src blk fz) d wi =
    Some (Ok (wi + length blk + length src)%nat, write_at wi (blk ++ src) d).
Proof.
  revert src blk fz d wi. induction fuel as [|fuel IHf]; intros src; [intros; lia|].
  induction src as [|b src IH]; intros blk fz d wi Hfuel Hblk Hfit; cbn [cobs_from] in *.
  { rewrite app_nil_r, Nat.add_0_r. destruct (fz || negb (length blk =? 0)%nat) eqn:E.
    2:{ destruct blk; [|by rewrite orb_true_r in E]. simpl. by rewrite Nat.add_0_r, write_at_nil. }
    cbn [dec_loop]. destruct (Z.eqb_spec (Z.of_nat (length blk + 1)) 0); [lia|].
    replace (Z.to_nat (Z.of_nat (length blk + 1)) - 1)%nat with (length blk) by lia.
    rewrite <- (app_nil_r blk) at 2. rewrite copy_block_ok by (simpl in *; lia).
    rewrite andb_false_r. destruct fuel; [simpl in Hfuel; lia|]. done. }
  destruct (Z.eqb_spec b 0) as [->|Hnz].
  { cbn [dec_loop]. destruct (Z.eqb_spec (Z.of_nat (length blk + 1)) 0); [lia|].
    replace (Z.to_nat (Z.of_nat (length blk + 1)) - 1)%nat with (length blk) by lia.
    rewrite copy_block_ok by lia. simpl in Hfuel, Hfit. rewrite length_app in Hfuel.
    pose proof (cobs_from_nonempty src []).
    destruct (Z.eqb_spec (Z.of_nat (length blk + 1)) 255); [lia|].
    destruct (Nat.eqb_spec (length (cobs_from src [] true)) 0); [lia|]. simpl negb. cbn [andb].
    rewrite length_write_at by lia. destruct (Nat.leb_spec (length d) (wi + length blk)); [lia|].
    rewrite IHf; rewrite ?length_insert, ?length_write_at; simpl; try lia.
    do 2 f_equal; [f_equal; lia|].
    rewrite insert_write_at by (rewrite length_write_at; lia).
    rewrite write_at_app by (simpl; lia).
    replace (S (wi + length blk)) with (wi + length (blk ++ [0%Z]))%nat by (rewrite length_app; simpl; lia).
    rewrite write_at_app by (rewrite length_app; simpl; lia). by rewrite <- app_assoc. }
  destruct (Nat.eqb_spec (length blk + 1) 254) as [Hfull|Hfull].
  - cbn [dec_loop]. change (255 =? 0) with false. cbn match.
    replace (Z.to_nat 255 - 1)%nat with (length (blk ++ [b])) by (rewrite length_app; simpl; lia).
    replace (blk ++ b :: cobs_from src [] false) with ((blk ++ [b]) ++ cobs_from src [] false)
      by (by rewrite <- app_assoc).
    simpl in Hfuel, Hfit. rewrite length_app in Hfuel. simpl in Hfuel.
    rewrite copy_block_ok by (rewrite length_app; simpl; lia). simpl negb. cbn [andb].
    assert (length (write_at wi (blk ++ [b]) d) = length d) as Hw
      by (apply length_write_at; rewrite length_app; simpl; lia).
    rewrite IHf; rewrite ?Hw, ?length_app; simpl; try lia.
    do 2 f_equal; [f_equal; lia|].
    replace (blk ++ b :: src) with ((blk ++ [b]) ++ src) by (by rewrite <- app_assoc).
    rewrite <- (write_at_app wi (blk ++ [b]) src) by (rewrite length_app; simpl; lia).
    by rewrite length_app.
  - rewrite IH; rewrite ?length_app; simpl in *; try lia.
    rewrite <- app_assoc. do 3 f_equal. lia.
Qed.

Lemma cobs_nonzero src blk fz :
  is_bytes src -> Forall (fun b => 0 < b < 256) blk -> (length blk <= 253)%nat ->
  Forall (fun b => 0 < b < 256) (cobs_from src blk fz).
Proof.
  revert blk fz. induction src as [|b src IH]; intros blk fz Hsrc Hblk Hl; simpl.
  { case_ifs; [|done]. constructor; [lia|done]. }
  apply Forall_cons in Hsrc as [Hb Hsrc]. unfold is_u8 in Hb. case_ifs.
  - constructor; [lia|]. apply Forall_app. split; [done|]. apply IH; [done|done|simpl; lia].
  - constructor; [lia|]. apply Forall_app. split; [done|]. constructor; [lia|].
    apply IH; [done|done|simpl; lia].
  - apply IH; [done| |rewrite length_app; simpl; lia].
    apply Forall_app. split; [done|]. constructor; [lia|done].
Qed.

(** ** Properties *)

(** COBS round trip on the real buffers: with the documented worst-case
    destination size the encoder succeeds, its output contains no zero byte
    and obeys the documented length bound, and the decoder, given a buffer
    that holds the frame, returns exactly the frame; the decoder's loop always
    terminates. *)
Theorem cobs_roundtrip src out d :
  is_bytes src ->
  (length src + length src / 254 + 1 <= length out)%nat -> (length src <= length d)%nat ->
  exists n out' d',
    cobsEncode src out = (n, out') /\
    (0 < n <= length src + length src / 254 + 1)%nat /\
    Forall (fun b => b <> 0) (take n out') /\
    cobsDecode (take n out') d = Some (Ok (length src), d') /\
    take (length src) d' = src /\ drop (length src) d' = drop (length src) d.
Proof.
  intros Hsrc Hout Hd.
  destruct (cobsEncode_spec src out Hsrc Hout) as (out' & Henc & _ & Htake).
  exists (length (cobs src)), out', (write_at 0 src d). rewrite Htake. split_and!.
  - done.
  - apply cobs_from_nonempty.
  - pose proof (length_cobs_from_need src [] true) as Hl. pose proof (need_bound src 0 ltac:(lia)) as Hn.
    rewrite Nat.add_0_l in Hn. simpl in Hl. unfold cobs. lia.
  - eapply Forall_impl; [apply (cobs_nonzero src [] true Hsrc); [done|simpl; lia]|]. simpl. lia.
  - unfold cobsDecode, cobs. rewrite dec_loop_cobs; [done|lia|simpl; lia|simpl; lia].
  - by rewrite write_at_0, take_app_length.
  - by rewrite write_at_0, drop_app_length.
Qed.

Lemma cobs_roundtrip_witness :
  exists n out' d',
    cobsEncode [17; 0; 34; 0; 0] (replicate 6 9) = (n, out') /\
    (0 < n <= 6)%nat /\ Forall (fun b => b <> 0) (take n out') /\
    cobsDecode (take n out') (replicate 7 9) = Some (Ok 5%nat, d') /\
    take 5 d' = [17; 0; 34; 0; 0] /\ drop 5 d' = [9; 9].
Proof.
  apply (cobs_roundtrip [17; 0; 34; 0; 0] (replicate 6 9) (replicate 7 9)).
  - repeat constructor; unfold is_u8; lia.
  - vm_compute. lia.
  - vm_compute. lia.
Defined.

(** The decoder is total and safe on arbitrary input: its loop terminates,
    it never changes the size of the destination buffer, a reported length
    fits that buffer, and a zero code byte in first position is [Malformed]. *)
Theorem cobsDecode_total src d :
  exists r d', cobsDecode src d = Some (r, d') /\ length d' = length d /\
    match r with Ok n => (n <= length d)%nat | Err _ => True end /\
    (forall rest, src = 0 :: rest -> r = Err Malformed).
Proof.
  assert (forall n src d wi r d', copy_block n src d wi = (r, d') -> length d' = length d /\
    forall s w, r = Ok (s, w) -> (wi <= length d -> w <= length d)%nat) as Hcopy.
  { clear. intros n. induction n as [|n IH]; intros src d wi r d'; simpl.
    { intros [= <- <-]. split; [done|]. intros s w [= <- <-]. done. }
    destruct src as [|b src]; [by intros [= <- <-]|].
    destruct (Nat.leb_spec (length d) wi); [by intros [= <- <-]|].
    intros [Hl Hw]%IH. rewrite length_insert in *. split; [done|].
    intros s w ->. specialize (Hw _ _ eq_refl). lia. }
  assert (forall fuel src d wi r d', dec_loop fuel src d wi = Some (r, d') -> (wi <= length d)%nat ->
    length d' = length d /\ match r with Ok n => (n <= length d)%nat | Err _ => True end) as Hloop.
  { clear -Hcopy. intros fuel. induction fuel as [|fuel IH]; intros src d wi r d'; cbn [dec_loop]; [done|].
    destruct src as [|c src]; [by intros [= <- <-]|]. case_ifs; [by intros [= <- <-]|].
    destruct (copy_block _ _ _ _) as [[[s1 w1]|e] d1] eqn:Hc; apply Hcopy in Hc as [Hl Hw];
      [|by intros [= <- <-]]. specialize (Hw _ _ eq_refl).
    case_ifs; intros H Hwi.
    - inv H. done.
    - apply IH in H; rewrite ?length_insert in *; [|lia]. by rewrite Hl in H.
    - apply IH in H; [|lia]. by rewrite Hl in H. }
  destruct (dec_loop_total (S (length src)) src d 0 ltac:(lia)) as [[r d'] Hr].
  exists r, d'. destruct (Hloop _ _ _ _ _ _ Hr ltac:(lia)) as [Hl Hn].
  split_and!; [done|done|done|]. intros rest ->. simpl in Hr. congruence.
Qed.
