(* ===== verification/Fragment.v ===== *)
(** * Fragment: control-plane fragmentation and reassembly

    wire/fragmentation.hpp. [fragmentFrame] yields its return value and the
    spans handed to [emit], in order; the [assert] is the release build's (no
    effect). [Reassembler] keeps its two fixed slots and the counters. *)

From stdpp Require Import gmap.
From S2P Require Import Prelude Registry ByteIO Serial Frame.
Local Open Scope Z_scope.

Definition kFragIndexBytes : nat := 2.

(** ** Fragmenter *)

(** One turn of the emit loop: the emitted span and the reused scratch buffer. *)
Definition fragment_step (h : FrameHeader) (payload : bytes) (budget numFragments : nat)
    (scratch : bytes) (i : nat) : bytes * bytes :=
  let total := length payload in
  let offset := (i * budget)%nat in
  let len := (budget `min` (total - offset))%nat in
  let fl := 0 in
  let fl := if (i =? 0)%nat then Z.lor fl flags.FRAG_START else fl in
  let fl := if (i + 1 <? numFragments)%nat then Z.lor fl flags.FRAG_MORE else fl in
  let fh := mkFrameHeader (fh_type h) fl (fh_channel h) (fh_seq h)
                          (u16 (Z.of_nat (kFragIndexBytes + len))) in
  let '(pos, scratch) := encodeFrameHeader fh scratch in
  let '(n, scratch) := on_sub pos (fun s => putU16 s (u16 (Z.of_nat i))) scratch in
  let pos := (pos + n)%nat in
  let scratch := write_at pos (subspan offset len payload) scratch in
  let pos := (pos + len)%nat in
  (take pos scratch, scratch).

Fixpoint fragment_loop (h : FrameHeader) (payload : bytes) (budget numFragments : nat)
    (scratch : bytes) (idxs : list nat) : list bytes :=
  match idxs with
  | [] => []
  | i :: idxs =>
      let '(e, scratch) := fragment_step h payload budget numFragments scratch i in
      e :: fragment_loop h payload budget numFragments scratch idxs
  end.

Definition looksLikeEstop (whole : bytes) : bool :=
  (length whole =? kEstopFrameBytes)%nat &&
  (byte_at 0 whole =? kEstopMagicByte) && (byte_at 1 whole =? kEstopMagicByte) &&
  (byte_at 2 whole =? kEstopMagicByte) && (byte_at 3 whole =? kEstopMagicByte).

Definition fragmentFrame (whole : bytes) (maxFrameBytes : Z) : bool * list bytes :=
  if Z.of_nat kFrameBufferCapacity <? maxFrameBytes then (false, [])
  else if Z.of_nat (length whole) <=? maxFrameBytes then (true, [whole])
  else if looksLikeEstop whole then (false, [])
  else match decodeFrameHeader whole with
       | None => (false, [])
       | Some h =>
           if maxFrameBytes <=? Z.of_nat (kHeaderBytes + kFragIndexBytes) then (false, [])
           else
             let payload := drop kHeaderBytes whole in
             let budget := (Z.to_nat maxFrameBytes - kHeaderBytes - kFragIndexBytes)%nat in
             let total := length payload in
             let numFragments := ((total + budget - 1) / budget)%nat in
             (true, fragment_loop h payload budget numFragments
                      (replicate kFrameBufferCapacity 0) (seq 0 numFragments))
       end.

(** ** Reassembler *)

Definition kMaxFragmentsPerMessage : Z := 32.
Definition kMaxSlotPayload : nat := kFrameBufferCapacity - kHeaderBytes.
Definition kMaxSlots : nat := limits.frag_max_concurrent_per_session.

Record Slot := mkSlot {
  active : bool; type : Z; channel : Z; seq : Z; startMs : Z;
  unitLen : Z; totalFragments : Z; lastFragLen : Z;
  receivedMask : Z; receivedCount : Z;
  havePendingLast : bool; pendingLastIndex : Z; pendingLastLen : Z;
  pendingLastBytes : bytes; data : bytes }.

Definition slot_init : Slot :=
  mkSlot false 0 0 0 0 0 0 0 0 0 false 0 0 (replicate kMaxSlotPayload 0) (replicate kMaxSlotPayload 0).

Record Stats := mkStats { reassemblies_completed : Z; timeouts : Z; evictions : Z }.

Record Reassembler := mkReassembler { slots : list Slot; stats : Stats }.

Definition reassembler_init : Reassembler :=
  mkReassembler (replicate kMaxSlots slot_init) (mkStats 0 0 0).

(** Field updates of a slot, as the code groups them. *)
Definition with_channel (c : Z) (s : Slot) : Slot :=
  mkSlot (active s) (type s) c (seq s) (startMs s) (unitLen s) (totalFragments s) (lastFragLen s)
    (receivedMask s) (receivedCount s) (havePendingLast s) (pendingLastIndex s) (pendingLastLen s)
    (pendingLastBytes s) (data s).
Definition with_unit (u : Z) (s : Slot) : Slot :=
  mkSlot (active s) (type s) (channel s) (seq s) (startMs s) u (totalFragments s) (lastFragLen s)
    (receivedMask s) (receivedCount s) (havePendingLast s) (pendingLastIndex s) (pendingLastLen s)
    (pendingLastBytes s) (data s).
Definition with_total (n l : Z) (s : Slot) : Slot :=
  mkSlot (active s) (type s) (channel s) (seq s) (startMs s) (unitLen s) n l
    (receivedMask s) (receivedCount s) (havePendingLast s) (pendingLastIndex s) (pendingLastLen s)
    (pendingLastBytes s) (data s).
Definition with_placed (mask count : Z) (d : bytes) (s : Slot) : Slot :=
  mkSlot (active s) (type s) (channel s) (seq s) (startMs s) (unitLen s) (totalFragments s) (lastFragLen s)
    mask count (havePendingLast s) (pendingLastIndex s) (pendingLastLen s) (pendingLastBytes s) d.
Definition with_pending (have : bool) (i l : Z) (b : bytes) (s : Slot) : Slot :=
  mkSlot (active s) (type s) (channel s) (seq s) (startMs s) (unitLen s) (totalFragments s) (lastFragLen s)
    (receivedMask s) (receivedCount s) have i l b (data s).

Definition opened (t q now : Z) : Slot :=
  mkSlot true t 0 q now 0 0 0 0 0 false 0 0 (replicate kMaxSlotPayload 0) (replicate kMaxSlotPayload 0).

Definition key_matches (t q : Z) (s : Slot) : bool :=
  active s && (type s =? t) && (seq s =? q).

Definition findSlot (t q : Z) (r : Reassembler) : option nat :=
  find_index (key_matches t q) (slots r).

Definition set_slot (i : nat) (s : Slot) (r : Reassembler) : Reassembler :=
  mkReassembler (<[i := s]> (slots r)) (stats r).

Definition get_slot (i : nat) (r : Reassembler) : Slot := nth i (slots r) slot_init.

Definition expireOne (t q nowMs : Z) (r : Reassembler) : Reassembler :=
  match findSlot t q r with
  | None => r
  | Some i =>
      let deadline := u32 (startMs (get_slot i r) + limits.frag_reassembly_timeout_ms) in
      if timeReached nowMs deadline then
        mkReassembler (<[i := slot_init]> (slots r))
          (mkStats (reassemblies_completed (stats r)) (u32 (timeouts (stats r) + 1)) (evictions (stats r)))
      else r
  end.

Definition expireStale (nowMs : Z) (r : Reassembler) : Reassembler :=
  foldl (fun r i => let s := get_slot i r in
                    if active s then expireOne (type s) (seq s) nowMs r else r)
        r (List.seq 0 kMaxSlots).

(** The eviction scan: the index and age of the oldest slot seen so far. *)
Definition oldest_slot (nowMs : Z) (r : Reassembler) : nat :=
  (foldl (fun '(o, a) i =>
            let age := timeDelta nowMs (startMs (get_slot i r)) in
            if a <? age then (i, age) else (o, a))
         (0%nat, timeDelta nowMs (startMs (get_slot 0 r))) (List.seq 0 kMaxSlots)).1.

Definition allocSlot (t q nowMs : Z) (r : Reassembler) : nat * Reassembler :=
  match find_index (fun s => negb (active s)) (slots r) with
  | Some i => (i, set_slot i (opened t q nowMs) r)
  | None =>
      let i := oldest_slot nowMs r in
      (i, mkReassembler (<[i := opened t q nowMs]> (slots r))
            (mkStats (reassemblies_completed (stats r)) (timeouts (stats r)) (u32 (evictions (stats r) + 1))))
  end.

(** [None] is the [false] return: the fragment would overflow the slot. *)
Definition placeFragment (s : Slot) (index : Z) (bs : bytes) : option Slot :=
  if negb (Z.land (receivedMask s) (Z.shiftl 1 index) =? 0) then Some s
  else
    let offset := index * unitLen s in
    if Z.of_nat (length (data s)) <? offset + Z.of_nat (length bs) then None
    else Some (with_placed (Z.lor (receivedMask s) (Z.shiftl 1 index)) (u16 (receivedCount s + 1))
                           (write_at (Z.to_nat offset) bs (data s)) s).

(** The three shapes of fragment; [None] is [overflowed]. *)
Definition slot_accept (s : Slot) (fl index : Z) (slice : bytes) : option Slot :=
  let isStart := negb (Z.land fl flags.FRAG_START =? 0) in
  let isMore := negb (Z.land fl flags.FRAG_MORE =? 0) in
  if isStart && negb isMore then
    placeFragment (with_total 1 (u16 (Z.of_nat (length slice))) s) 0 slice
  else if isMore then
    let s := if unitLen s =? 0 then with_unit (u16 (Z.of_nat (length slice))) s else s in
    match placeFragment s index slice with
    | None => None
    | Some s =>
        if havePendingLast s && negb (unitLen s =? 0) then
          match placeFragment s (pendingLastIndex s)
                  (take (Z.to_nat (pendingLastLen s)) (pendingLastBytes s)) with
          | None => None
          | Some s => Some (with_pending false (pendingLastIndex s) (pendingLastLen s) (pendingLastBytes s) s)
          end
        else Some s
    end
  else
    let s := with_total (u16 (index + 1)) (u16 (Z.of_nat (length slice))) s in
    if negb (unitLen s =? 0) then placeFragment s index slice
    else if (length (pendingLastBytes s) <? length slice)%nat then None
    else Some (with_pending true index (u16 (Z.of_nat (length slice)))
                 (write_at 0 slice (pendingLastBytes s)) s).

(** The reassembled frame: a clean header and the collected payload. *)
Definition completed_frame (s : Slot) (totalLen : Z) : FrameBuffer.t :=
  let outHeader := mkFrameHeader (type s) 0 (channel s) (seq s) (u16 totalLen) in
  let '(pos, out) := encodeFrameHeader outHeader (FrameBuffer.data FrameBuffer.init) in
  let out := write_at pos (take (Z.to_nat totalLen) (data s)) out in
  FrameBuffer.setSize (pos + Z.to_nat totalLen)
    (FrameBuffer.mk out (FrameBuffer.size FrameBuffer.init)).

(** Result, the slot afterwards, and whether a frame was completed. *)
Definition checkComplete (s : Slot) : Result (option FrameBuffer.t) DecodeError * Slot * bool :=
  if (totalFragments s =? 0) || negb (receivedCount s =? totalFragments s) then (Ok None, s, false)
  else
    let totalLen := (totalFragments s - 1) * unitLen s + lastFragLen s in
    if Z.of_nat (kFrameBufferCapacity - kHeaderBytes) <? totalLen then (Err CapacityExceeded, slot_init, false)
    else (Ok (Some (completed_frame s totalLen)), slot_init, true).

Definition accept (h : FrameHeader) (fragPayload : bytes) (nowMs : Z) (r : Reassembler)
    : Result (option FrameBuffer.t) DecodeError * Reassembler :=
  if (length fragPayload <? kFragIndexBytes)%nat then (Ok None, r)
  else
    let index := getU16 (subspan 0 2 fragPayload) in
    if kMaxFragmentsPerMessage <=? index then (Err CapacityExceeded, r)
    else
      let slice := drop kFragIndexBytes fragPayload in
      let r := expireOne (fh_type h) (fh_seq h) nowMs r in
      let '(i, r) :=
        match findSlot (fh_type h) (fh_seq h) r with
        | Some i => (i, r)
        | None => allocSlot (fh_type h) (fh_seq h) nowMs r
        end in
      let s := with_channel (fh_channel h) (get_slot i r) in
      match slot_accept s (fh_flags h) index slice with
      | None => (Err CapacityExceeded, set_slot i slot_init r)
      | Some s =>
          let '(res, s, fin) := checkComplete s in
          let st := stats r in
          let st := if fin : bool
                    then mkStats (u32 (reassemblies_completed st + 1)) (timeouts st) (evictions st)
                    else st in
          (res, mkReassembler (<[i := s]> (slots r)) st)
      end.

(** * Theorems *)

Lemma completed_frame_bytes s totalLen :
  0 <= totalLen <= Z.of_nat kMaxSlotPayload -> length (data s) = kMaxSlotPayload ->
  FrameBuffer.bytes_of (completed_frame s totalLen) =
    header_bytes (mkFrameHeader (type s) 0 (channel s) (seq s) totalLen) ++ take (Z.to_nat totalLen) (data s).
Proof.
  unfold kMaxSlotPayload, kFrameBufferCapacity, kHeaderBytes. intros Htl Hd.
  unfold completed_frame. rewrite encodeFrameHeader_spec by (vm_compute; lia).
  unfold FrameBuffer.bytes_of, FrameBuffer.setSize. cbn [FrameBuffer.size FrameBuffer.data].
  unfold kHeaderBytes, kFrameBufferCapacity.
  assert ((8 + Z.to_nat totalLen <=? 512)%nat = true) as -> by lia.
  rewrite !u16_id by (unfold_words; lia). rewrite Nat2Z.id.
  unfold write_at. rewrite (take_app_length' (header_bytes _)) by done.
  rewrite app_assoc. apply take_app_length'. rewrite length_app, length_take, length_header_bytes.
  unfold kHeaderBytes. lia.
Qed.

Lemma lor_bit_test m i j :
  0 <= i -> 0 <= j -> Z.testbit (Z.lor m (Z.shiftl 1 i)) j = Z.testbit m j || (i =? j).
Proof.
  intros Hi Hj. rewrite Z.lor_spec. f_equal. rewrite Z.shiftl_spec by lia.
  destruct (Z.eqb_spec i j) as [->|Hne]; [by rewrite Z.sub_diag|].
  destruct (Z.ltb_spec j i); [by apply Z.testbit_neg_r; lia|].
  apply Z.bits_above_log2; [lia|]. simpl. lia.
Qed.

Lemma land_bit_test m i : 0 <= i -> (Z.land m (Z.shiftl 1 i) =? 0) = negb (Z.testbit m i).
Proof.
  intros Hi. destruct (Z.testbit m i) eqn:E; simpl.
  - apply Z.eqb_neq. intros H. apply (f_equal (fun z => Z.testbit z i)) in H.
    rewrite Z.land_spec, E, Z.shiftl_spec, Z.sub_diag, Z.bits_0 in H by lia. done.
  - apply Z.eqb_eq, Z.bits_inj'. intros j Hj. rewrite Z.land_spec, Z.bits_0, Z.shiftl_spec by lia.
    destruct (Z.eqb_spec i j) as [->|Hne]; [by rewrite E|].
    destruct (Z.ltb_spec j i); [by rewrite (Z.testbit_neg_r 1) by lia; rewrite andb_false_r|].
    rewrite (Z.bits_above_log2 1 (j - i)); [by rewrite andb_false_r|lia|simpl; lia].
Qed.

(** ** What the fragmenter emits *)

Section fragments.
Context (h : FrameHeader) (P : bytes) (b : nat).

Definition frag_count : nat := ((length P + b - 1) / b)%nat.
Definition slice (i : nat) : bytes := subspan (i * b) (b `min` (length P - i * b)) P.
Definition frag_flags (i : nat) : Z :=
  Z.lor (if (i =? 0)%nat then flags.FRAG_START else 0)
        (if (i + 1 <? frag_count)%nat then flags.FRAG_MORE else 0).
Definition frag_header (i : nat) : FrameHeader :=
  mkFrameHeader (fh_type h) (frag_flags i) (fh_channel h) (fh_seq h)
    (u16 (Z.of_nat (kFragIndexBytes + length (slice i)))).
Definition frag_bytes (i : nat) : bytes :=
  header_bytes (frag_header i) ++ le16 (Z.of_nat i) ++ slice i.

Lemma length_slice i : length (slice i) = (b `min` (length P - i * b))%nat.
Proof. unfold slice, subspan. rewrite length_take, length_drop. lia. Qed.

Lemma fragment_step_spec scratch i :
  length scratch = kFrameBufferCapacity ->
  (kHeaderBytes + kFragIndexBytes + b <= kFrameBufferCapacity)%nat -> is_u16 (Z.of_nat i) ->
  exists scratch', fragment_step h P b frag_count scratch i = (frag_bytes i, scratch') /\
    length scratch' = kFrameBufferCapacity.
Proof.
  intros Hs Hb Hi. unfold fragment_step. cbv zeta. fold (slice i). rewrite <- !length_slice.
  unfold kHeaderBytes, kFragIndexBytes, kFrameBufferCapacity in *.
  assert (length (slice i) <= b)%nat as Hsl by (rewrite length_slice; lia).
  rewrite encodeFrameHeader_spec by (unfold kHeaderBytes; lia).
  set (fh := mkFrameHeader _ _ _ _ _).
  assert (fh = frag_header i) as ->.
  { unfold fh, frag_header, frag_flags, flags.FRAG_START, flags.FRAG_MORE, kFragIndexBytes.
    f_equal. case_ifs; done. }
  unfold kHeaderBytes. rewrite u16_id by done.
  rewrite on_sub_putU16 by (rewrite length_app, length_header_bytes, length_drop; unfold kHeaderBytes; lia).
  set (w := header_bytes (frag_header i) ++ drop 8 scratch).
  assert (length w = 512)%nat as Hw by (unfold w; rewrite length_app, length_drop, length_header_bytes; unfold kHeaderBytes; lia).
  assert (length (write_at 8 (le16 (Z.of_nat i)) w) = 512)%nat as Hw2
    by (rewrite length_write_at; rewrite Hw; [done|simpl; lia]).
  exists (write_at (8 + 2) (slice i) (write_at 8 (le16 (Z.of_nat i)) w)). split.
  2:{ rewrite length_write_at; lia. }
  f_equal.
  change (8 + 2)%nat with (8 + length (le16 (Z.of_nat i)))%nat.
  rewrite write_at_app by (rewrite Hw; simpl; lia).
  assert (8 + length (le16 (Z.of_nat i)) + length (slice i)
    = 8 + length (le16 (Z.of_nat i) ++ slice i))%nat as -> by (rewrite length_app; lia).
  unfold frag_bytes, write_at, w.
  rewrite (take_app_length' (header_bytes _)) by done.
  rewrite app_assoc. apply take_app_length'. rewrite length_app. done.
Qed.

Lemma fragment_loop_spec scratch idxs :
  length scratch = kFrameBufferCapacity ->
  (kHeaderBytes + kFragIndexBytes + b <= kFrameBufferCapacity)%nat ->
  Forall (fun i => is_u16 (Z.of_nat i)) idxs ->
  fragment_loop h P b frag_count scratch idxs = frag_bytes <$> idxs.
Proof.
  intros Hs Hb Hi. revert scratch Hs. induction Hi as [|i idxs Hi _ IH]; intros scratch Hs; [done|].
  cbn [fragment_loop]. destruct (fragment_step_spec scratch i Hs Hb Hi) as (s' & -> & Hs').
  simpl. f_equal. by apply IH.
Qed.

(** *** Arithmetic of the split *)

Context (Hb : (0 < b)%nat).

Lemma frag_count_bounds :
  (length P <= frag_count * b)%nat /\ (0 < frag_count -> (frag_count - 1) * b < length P)%nat.
Proof.
  unfold frag_count. pose proof (Nat.div_mod_eq (length P + b - 1) b).
  pose proof (Nat.mod_upper_bound (length P + b - 1) b ltac:(lia)). split; nia.
Qed.

Lemma slice_full i : (S i < frag_count)%nat -> length (slice i) = b.
Proof. intros Hi. rewrite length_slice. destruct frag_count_bounds. nia. Qed.

Lemma slice_last_pos : (0 < frag_count)%nat -> (0 < length (slice (frag_count - 1)) <= b)%nat.
Proof. intros HP. rewrite length_slice. destruct frag_count_bounds. lia. Qed.

Lemma slice_end i : (i < frag_count)%nat -> (i * b + length (slice i) <= length P)%nat.
Proof. intros Hi. rewrite length_slice. destruct frag_count_bounds. nia. Qed.

(** Distinct fragments occupy disjoint ranges. *)
Lemma slice_disjoint i j : i <> j -> (i * b + length (slice i) <= j * b \/ j * b + length (slice j) <= i * b)%nat.
Proof. intros Hne. rewrite !length_slice. nia. Qed.

(** A buffer that agrees with every fragment holds the payload. *)
Lemma slices_assemble (d : bytes) :
  (length P <= length d)%nat ->
  (forall i, (i < frag_count)%nat -> subspan (i * b) (length (slice i)) d = slice i) ->
  take (length P) d = P.
Proof.
  intros Hl H. apply list_eq. intros k. rewrite lookup_take.
  destruct (decide (k < length P)%nat) as [Hk|Hk]; [|by rewrite lookup_ge_None_2 by lia].
  destruct frag_count_bounds as [Hc _].
  set (i := (k / b)%nat). pose proof (Nat.div_mod_eq k b) as Hdm.
  pose proof (Nat.mod_upper_bound k b ltac:(lia)) as Hm. fold i in Hdm.
  assert (i < frag_count)%nat as Hi by nia.
  specialize (H i Hi). apply (f_equal (.!! (k - i * b)%nat)) in H. rewrite length_slice in H.
  unfold slice, subspan in H. rewrite !lookup_take, !lookup_drop in H.
  assert (i * b + (k - i * b) = k)%nat as Hk' by nia.
  assert (k - i * b < b `min` (length P - i * b))%nat as Hlt by nia.
  by rewrite !(decide_True _ _ Hlt), Hk' in H.
Qed.
End fragments.

(** ** Reassembly of one message, fragments in any order, with repeats *)

Section reassembly.
Context (h : FrameHeader) (P : bytes) (b : nat).
Let N := frag_count P b.
Let sl := slice P b.
Context (Hb : (0 < b)%nat) (HN : (2 <= N)%nat) (HN32 : (N <= 32)%nat)
        (HP : (length P <= kMaxSlotPayload)%nat).

(** [got] is the set of indices received. Before any full-size fragment
    the unit length is unknown and at most the last one waits; afterwards
    every received fragment is in place. *)
Definition collecting (start : Z) (got : gset nat) (s : Slot) : Prop :=
  active s = true /\ type s = fh_type h /\ seq s = fh_seq h /\ startMs s = start /\
  length (data s) = kMaxSlotPayload /\ length (pendingLastBytes s) = kMaxSlotPayload /\
  got ⊆ set_seq 0 N /\
  totalFragments s = (if decide (N - 1 ∈ got)%nat then Z.of_nat N else 0) /\
  lastFragLen s = (if decide (N - 1 ∈ got)%nat then Z.of_nat (length (sl (N - 1))) else 0) /\
  ((unitLen s = 0 /\ got ⊆ {[ (N - 1)%nat ]} /\ receivedMask s = 0 /\ receivedCount s = 0 /\
    havePendingLast s = bool_decide (N - 1 ∈ got)%nat /\
    ((N - 1)%nat ∈ got -> pendingLastIndex s = Z.of_nat (N - 1) /\
       pendingLastLen s = Z.of_nat (length (sl (N - 1))) /\
       take (length (sl (N - 1))) (pendingLastBytes s) = sl (N - 1)%nat))
   \/
   (unitLen s = Z.of_nat b /\ havePendingLast s = false /\
    (forall i, (0 <= i) -> Z.testbit (receivedMask s) i = bool_decide (Z.to_nat i ∈ got)) /\
    receivedCount s = Z.of_nat (size got) /\
    (forall i, i ∈ got -> subspan (i * b) (length (sl i)) (data s) = sl i))).

Lemma b_small : (b < length P)%nat.
Proof. destruct (frag_count_bounds P b Hb). unfold N in *. nia. Qed.

Lemma got_size (got : gset nat) : got ⊆ set_seq 0 N -> (size got <= N)%nat.
Proof.
  intros Hsub. apply subseteq_size in Hsub. by rewrite size_set_seq in Hsub.
Qed.

(** Placing fragment [i] once the unit length is known. *)
Lemma place_known (got : gset nat) s i :
  (i < N)%nat -> length (data s) = kMaxSlotPayload -> unitLen s = Z.of_nat b -> got ⊆ set_seq 0 N ->
  (forall i, (0 <= i) -> Z.testbit (receivedMask s) i = bool_decide (Z.to_nat i ∈ got)) ->
  receivedCount s = Z.of_nat (size got) ->
  (forall i, i ∈ got -> subspan (i * b) (length (sl i)) (data s) = sl i) ->
  exists m c d, placeFragment s (Z.of_nat i) (sl i) = Some (with_placed m c d s) /\
    length d = kMaxSlotPayload /\
    (forall j, (0 <= j) -> Z.testbit m j = bool_decide (Z.to_nat j ∈ {[i]} ∪ got)) /\
    c = Z.of_nat (size ({[i]} ∪ got)) /\
    (forall j, j ∈ {[i]} ∪ got -> subspan (j * b) (length (sl j)) d = sl j).
Proof.
  intros Hi Hd Hu Hsub Hm Hc Hdata. unfold placeFragment.
  rewrite land_bit_test, Hm, Nat2Z.id, negb_involutive by lia.
  destruct (bool_decide_reflect (i ∈ got)) as [Hin|Hnin].
  { exists (receivedMask s), (receivedCount s), (data s).
    assert ({[i]} ∪ got = got) as -> by set_solver. destruct s. done. }
  pose proof (slice_end P b Hb i Hi) as Hend. fold sl in Hend.
  rewrite Hu, Hd. destruct (Z.ltb_spec (Z.of_nat kMaxSlotPayload) (Z.of_nat i * Z.of_nat b + Z.of_nat (length (sl i)))); [lia|].
  replace (Z.to_nat (Z.of_nat i * Z.of_nat b)) with (i * b)%nat by lia.
  do 3 eexists. split; [done|]. split_and!.
  - rewrite length_write_at; lia.
  - intros j Hj. rewrite lor_bit_test, Hm by lia.
    destruct (Z.eqb_spec (Z.of_nat i) j) as [<-|Hne].
    + rewrite orb_true_r, Nat2Z.id. symmetry. apply bool_decide_eq_true. set_solver.
    + rewrite orb_false_r. apply bool_decide_ext. assert (Z.to_nat j <> i) by lia. set_solver.
  - rewrite size_union by set_solver. rewrite size_singleton, Hc.
    pose proof (got_size got Hsub). rewrite u16_id; [lia|unfold_words; lia].
  - intros j Hj. destruct (decide (j = i)) as [->|Hne].
    + unfold subspan. apply write_at_read. lia.
    + assert (j ∈ got) as Hjg by set_solver. rewrite <- (Hdata j Hjg) at 2.
      pose proof (slice_disjoint P b Hb j i Hne) as Hdis. fold sl in Hdis.
      unfold subspan. destruct Hdis as [Hlt|Hgt].
      * rewrite !take_drop_commute. f_equal. apply take_write_at; lia.
      * rewrite drop_write_at by lia. done.
Qed.

Lemma flags_more i : (i < N - 1)%nat ->
  exists st, frag_flags P b i = Z.lor st 2 /\ (st = 0 \/ st = 1).
Proof.
  intros Hi. unfold frag_flags. fold N. destruct (Nat.ltb_spec (i + 1) N); [|lia].
  destruct (i =? 0)%nat; [exists 1|exists 0]; auto.
Qed.

Lemma flags_last : frag_flags P b (N - 1) = 0.
Proof.
  unfold frag_flags. fold N. destruct (Nat.ltb_spec (N - 1 + 1) N); [lia|].
  by destruct (Nat.eqb_spec (N - 1) 0); [lia|].
Qed.

(** A full-size fragment. *)
Lemma collect_more start got s i :
  (i < N - 1)%nat -> collecting start got s ->
  exists s', slot_accept s (frag_flags P b i) (Z.of_nat i) (sl i) = Some s' /\
    channel s' = channel s /\ collecting start ({[i]} ∪ got) s'.
Proof.
  intros Hi (Ha & Ht & Hq & Hst & Hd & Hpb & Hsub & Htot & Hlast & Hcase).
  assert (length (sl i) = b) as Hlen by (apply slice_full; [done|unfold N in *; lia]).
  pose proof b_small as Hbs. unfold kMaxSlotPayload, kFrameBufferCapacity, kHeaderBytes in HP.
  assert (N - 1 ∈ {[i]} ∪ got <-> N - 1 ∈ got)%nat as Hlast_iff by (assert (N - 1 <> i)%nat by lia; set_solver).
  assert ({[i]} ∪ got ⊆ set_seq 0 N) as Hsub'.
  { apply union_subseteq. split; [|done]. apply singleton_subseteq_l, elem_of_set_seq. lia. }
  assert (forall s', totalFragments s' = totalFragments s -> lastFragLen s' = lastFragLen s ->
    totalFragments s' = (if decide (N - 1 ∈ {[i]} ∪ got)%nat then Z.of_nat N else 0) /\
    lastFragLen s' = (if decide (N - 1 ∈ {[i]} ∪ got)%nat then Z.of_nat (length (sl (N - 1))) else 0)) as Hlasts.
  { intros s' -> ->. rewrite Htot, Hlast. split; repeat case_decide; tauto. }
  unfold slot_accept. destruct (flags_more i Hi) as (st & -> & Hstv).
  assert (negb (Z.land (Z.lor st 2) flags.FRAG_START =? 0)
          && negb (negb (Z.land (Z.lor st 2) flags.FRAG_MORE =? 0)) = false) as ->
    by (destruct Hstv as [->| ->]; done).
  assert (negb (Z.land (Z.lor st 2) flags.FRAG_MORE =? 0) = true) as ->
    by (destruct Hstv as [->| ->]; done).
  destruct Hcase as [(Hu & Hg & Hm & Hc & Hp & Hpend)|(Hu & Hp & Hm & Hc & Hdata)].
  - rewrite Hu, Hlen, u16_id by (unfold_words; lia). simpl Z.eqb. cbv iota.
    destruct (place_known ∅ (with_unit (Z.of_nat b) s) i ltac:(lia) Hd eq_refl ltac:(set_solver))
      as (m & c & d & -> & Hd1 & Hm1 & Hc1 & Hdata1).
    { intros j Hj. simpl. rewrite Hm, Z.bits_0. done. }
    { simpl. by rewrite Hc. }
    { set_solver. }
    simpl havePendingLast. simpl unitLen. rewrite Hp.
    destruct (Z.eqb_spec (Z.of_nat b) 0); [lia|]. rewrite andb_true_r.
    destruct (bool_decide_reflect (N - 1 ∈ got)%nat) as [Hin|Hnin].
    + destruct (Hpend Hin) as (Hpi & Hpl & Hpt). simpl pendingLastIndex. simpl pendingLastLen.
      simpl pendingLastBytes. rewrite Hpi, Hpl, Nat2Z.id, Hpt.
      destruct (place_known ({[i]} ∪ ∅) (with_placed m c d (with_unit (Z.of_nat b) s)) (N - 1)
                  ltac:(lia) Hd1 eq_refl ltac:(set_solver) Hm1 Hc1 Hdata1)
        as (m2 & c2 & d2 & -> & Hd2 & Hm2 & Hc2 & Hdata2).
      assert ({[N - 1]} ∪ ({[i]} ∪ ∅) = {[i]} ∪ got)%nat as Hgot by set_solver.
      rewrite Hgot in *. eexists. split; [done|]. split; [done|].
      destruct (Hlasts s eq_refl eq_refl).
      unfold collecting. simpl. split_and!; try done. right. split_and!; done.
    + assert ({[i]} ∪ ∅ = {[i]} ∪ got) as Hgot by set_solver.
      rewrite Hgot in *. eexists. split; [done|]. split; [done|].
      destruct (Hlasts s eq_refl eq_refl).
      unfold collecting. simpl. split_and!; try done. right. split_and!; done.
  - destruct (Z.eqb_spec (unitLen s) 0); [lia|].
    destruct (place_known got s i ltac:(lia) Hd Hu Hsub Hm Hc Hdata)
      as (m & c & d & -> & Hd1 & Hm1 & Hc1 & Hdata1).
    simpl havePendingLast. rewrite Hp. cbn [andb].
    eexists. split; [done|]. split; [done|]. destruct (Hlasts s eq_refl eq_refl).
    unfold collecting. simpl. split_and!; try done. right. split_and!; done.
Qed.

(** The last fragment: placed, or held until the unit length is known. *)
Lemma collect_last start got s :
  collecting start got s ->
  exists s', slot_accept s (frag_flags P b (N - 1)) (Z.of_nat (N - 1)) (sl (N - 1)) = Some s' /\
    channel s' = channel s /\ collecting start ({[ (N - 1)%nat ]} ∪ got) s'.
Proof.
  intros (Ha & Ht & Hq & Hst & Hd & Hpb & Hsub & Htot & Hlast & Hcase).
  pose proof (slice_last_pos P b Hb ltac:(unfold N in *; lia)) as Hlen. fold N sl in Hlen.
  pose proof b_small as Hbs. unfold kMaxSlotPayload, kFrameBufferCapacity, kHeaderBytes in *.
  assert ({[ (N - 1)%nat ]} ∪ got ⊆ set_seq 0 N) as Hsub'.
  { apply union_subseteq. split; [|done]. apply singleton_subseteq_l, elem_of_set_seq. lia. }
  assert (N - 1 ∈ ({[ (N - 1) ]} ∪ got))%nat as Hin by set_solver.
  unfold slot_accept. rewrite flags_last.
  change (Z.land 0 flags.FRAG_START =? 0) with true. change (Z.land 0 flags.FRAG_MORE =? 0) with true.
  cbn [negb andb].
  rewrite !u16_id by (unfold_words; lia). simpl unitLen.
  replace (Z.of_nat (N - 1) + 1) with (Z.of_nat N) by lia.
  set (s1 := with_total _ _ s).
  destruct Hcase as [(Hu & Hg & Hm & Hc & Hp & Hpend)|(Hu & Hp & Hm & Hc & Hdata)].
  - rewrite Hu. simpl Z.eqb. cbn [negb]. simpl pendingLastBytes.
    destruct (Nat.ltb_spec (length (pendingLastBytes s)) (length (sl (N - 1)))); [lia|].
    eexists. split; [done|]. split; [done|]. unfold collecting. simpl.
    rewrite !decide_True by done. rewrite length_write_at by (simpl; lia).
    split_and!; try done. left. split_and!; try done.
    + set_solver.
    + symmetry. by apply bool_decide_eq_true.
    + intros _. split_and!; [done|done|]. by rewrite write_at_0, take_app_length.
  - destruct (Z.eqb_spec (unitLen s) 0); [lia|]. cbn [negb].
    destruct (place_known got s1 (N - 1) ltac:(lia) Hd Hu Hsub Hm Hc Hdata)
      as (m & c & d & -> & Hd1 & Hm1 & Hc1 & Hdata1).
    eexists. split; [done|]. split; [done|]. unfold collecting. simpl.
    rewrite !decide_True by done. split_and!; try done. right. split_and!; done.
Qed.

Lemma collect_step start got s i :
  (i < N)%nat -> collecting start got s ->
  exists s', slot_accept s (frag_flags P b i) (Z.of_nat i) (sl i) = Some s' /\
    channel s' = channel s /\ collecting start ({[i]} ∪ got) s'.
Proof.
  intros Hi Hs. destruct (decide (i = N - 1)%nat) as [->|Hne]; [by apply collect_last|].
  apply collect_more; [lia|done].
Qed.

(** *** Completion *)

Definition whole : bytes :=
  header_bytes (mkFrameHeader (fh_type h) 0 (fh_channel h) (fh_seq h) (Z.of_nat (length P))) ++ P.

Lemma collect_incomplete start got s :
  collecting start got s -> got <> set_seq 0 N -> checkComplete s = (Ok None, s, false).
Proof.
  intros (Ha & Ht & Hq & Hst & Hd & Hpb & Hsub & Htot & Hlast & Hcase) Hne.
  unfold checkComplete. rewrite Htot. case_decide as Hin; [|done].
  assert (receivedCount s =? Z.of_nat N = false) as ->; [|by rewrite orb_true_r].
  apply Z.eqb_neq. intros Hcount.
  destruct Hcase as [(Hu & Hg & Hm & Hc & _)|(Hu & Hp & Hm & Hc & Hdata)]; [lia|].
  apply Hne. apply leibniz_equiv, (set_subseteq_size_equiv got (set_seq 0 N)); [done|].
  rewrite size_set_seq. lia.
Qed.

Lemma collect_complete start s :
  collecting start (set_seq 0 N) s -> channel s = fh_channel h ->
  exists fb, checkComplete s = (Ok (Some fb), slot_init, true) /\ FrameBuffer.bytes_of fb = whole.
Proof.
  intros (Ha & Ht & Hq & Hst & Hd & Hpb & Hsub & Htot & Hlast & Hcase) Hch.
  assert (forall i, i < N -> i ∈ (set_seq 0 N : gset nat))%nat as Hall
    by (intros i Hi; apply elem_of_set_seq; lia).
  destruct Hcase as [(Hu & Hg & _)|(Hu & Hp & Hm & Hc & Hdata)].
  { exfalso. specialize (Hg 0%nat (Hall 0%nat ltac:(lia))). apply elem_of_singleton in Hg. lia. }
  unfold checkComplete. rewrite Htot, Hlast, !decide_True by (apply Hall; lia).
  rewrite Hc, size_set_seq, Hu, Z.eqb_refl.
  destruct (Z.eqb_spec (Z.of_nat N) 0); [lia|]. cbn [orb negb].
  assert ((Z.of_nat N - 1) * Z.of_nat b + Z.of_nat (length (sl (N - 1))) = Z.of_nat (length P)) as ->.
  { unfold sl. rewrite length_slice. destruct (frag_count_bounds P b Hb). fold N in H, H0. nia. }
  unfold kMaxSlotPayload in *.
  destruct (Z.ltb_spec (Z.of_nat (kFrameBufferCapacity - kHeaderBytes)) (Z.of_nat (length P))); [lia|].
  eexists. split; [done|]. rewrite completed_frame_bytes by (unfold kMaxSlotPayload; lia).
  rewrite Nat2Z.id, Ht, Hq, Hch. unfold whole. f_equal.
  apply (slices_assemble P b Hb); [lia|]. intros i Hi. apply Hdata, Hall. done.
Qed.

(** *** The message inside the reassembler *)

Context (Hh : header_wf h).

(** The receive path: header decoded, the rest handed to [accept]. *)
Definition deliver (frame : bytes) (nowMs : Z) (r : Reassembler)
    : Result (option FrameBuffer.t) DecodeError * Reassembler :=
  match decodeFrameHeader frame with
  | Some fh => accept fh (drop kHeaderBytes frame) nowMs r
  | None => (Ok None, r)
  end.

Definition tracked (start : Z) (got : gset nat) (r : Reassembler) : Prop :=
  exists j s, findSlot (fh_type h) (fh_seq h) r = Some j /\ slots r !! j = Some s /\
              collecting start got s.

Definition in_window (start t : Z) : Prop :=
  timeReached t (u32 (start + limits.frag_reassembly_timeout_ms)) = false.

Lemma frag_header_wf i : (i < N)%nat -> header_wf (frag_header h P b i).
Proof.
  intros Hi. destruct Hh as (Ht & Hf & Hc & Hq & Hl). unfold frag_header, header_wf. simpl.
  split_and!; try done.
  - unfold frag_flags. case_ifs; by vm_compute.
  - apply u16_range.
Qed.

(** What [accept] does once the slot is chosen. *)
Definition accept_at (j : nat) (r : Reassembler) (i : nat)
    : Result (option FrameBuffer.t) DecodeError * Reassembler :=
  match slot_accept (with_channel (fh_channel h) (get_slot j r)) (frag_flags P b i) (Z.of_nat i) (sl i) with
  | None => (Err CapacityExceeded, set_slot j slot_init r)
  | Some s =>
      let '(res, s, fin) := checkComplete s in
      (res, mkReassembler (<[j := s]> (slots r))
         (if fin : bool then mkStats (u32 (reassemblies_completed (stats r) + 1)) (timeouts (stats r)) (evictions (stats r))
          else stats r))
  end.

Lemma deliver_unfold i t r :
  (i < N)%nat ->
  deliver (frag_bytes h P b i) t r =
    let r := expireOne (fh_type h) (fh_seq h) t r in
    let '(j, r) := match findSlot (fh_type h) (fh_seq h) r with
                   | Some j => (j, r)
                   | None => allocSlot (fh_type h) (fh_seq h) t r
                   end in
    accept_at j r i.
Proof.
  intros Hi. unfold deliver, frag_bytes. rewrite decodeFrameHeader_bytes by (by apply frag_header_wf).
  rewrite <- (length_header_bytes (frag_header h P b i)), drop_app_length.
  unfold accept. rewrite length_app.
  destruct (Nat.ltb_spec (length (le16 (Z.of_nat i)) + length (slice P b i)) kFragIndexBytes) as [Hlt|_].
  { simpl in Hlt. unfold kFragIndexBytes in Hlt. lia. }
  rewrite subspan_app_here by done.
  assert (getU16 (le16 (Z.of_nat i)) = Z.of_nat i) as Hidx.
  { rewrite <- (app_nil_r (le16 _)), getU16_le16. apply u16_id. unfold is_u16. lia. }
  cbv zeta. rewrite !Hidx.
  destruct (Z.leb_spec kMaxFragmentsPerMessage (Z.of_nat i)); [unfold kMaxFragmentsPerMessage in *; lia|].
  change kFragIndexBytes with (length (le16 (Z.of_nat i))) at 1. rewrite drop_app_length.
  cbv zeta. cbn [fh_type fh_seq fh_channel fh_flags frag_header].
  destruct (findSlot _ _ _); [reflexivity|].
  destruct (allocSlot _ _ _ _). reflexivity.
Qed.

Lemma collecting_channel start got s c :
  collecting start got s -> collecting start got (with_channel c s).
Proof. done. Qed.

Lemma collecting_key start got s : collecting start got s -> key_matches (fh_type h) (fh_seq h) s = true.
Proof. intros (Ha & Ht & Hq & _). unfold key_matches. by rewrite Ha, Ht, Hq, !Z.eqb_refl. Qed.

Lemma accept_at_more start got j s r i :
  (i < N)%nat -> slots r !! j = Some s -> collecting start got s -> {[i]} ∪ got <> set_seq 0 N ->
  exists s', accept_at j r i = (Ok None, mkReassembler (<[j := s']> (slots r)) (stats r)) /\
    collecting start ({[i]} ∪ got) s'.
Proof.
  intros Hi Hj Hs Hne. unfold accept_at, get_slot. rewrite (nth_lookup_Some _ _ _ _ Hj).
  destruct (collect_step start got _ i Hi (collecting_channel _ _ _ (fh_channel h) Hs))
    as (s' & -> & _ & Hs').
  rewrite (collect_incomplete _ _ _ Hs' Hne). by exists s'.
Qed.

Lemma accept_at_done start got j s r i :
  (i < N)%nat -> slots r !! j = Some s -> collecting start got s -> {[i]} ∪ got = set_seq 0 N ->
  exists fb st, accept_at j r i = (Ok (Some fb), mkReassembler (<[j := slot_init]> (slots r)) st) /\
    FrameBuffer.bytes_of fb = whole.
Proof.
  intros Hi Hj Hs Hall. unfold accept_at, get_slot. rewrite (nth_lookup_Some _ _ _ _ Hj).
  destruct (collect_step start got _ i Hi (collecting_channel _ _ _ (fh_channel h) Hs))
    as (s' & -> & Hch & Hs').
  rewrite Hall in Hs'. destruct (collect_complete _ _ Hs' Hch) as (fb & -> & Hfb). by eauto.
Qed.

Lemma expireOne_live start got r t :
  tracked start got r -> in_window start t -> expireOne (fh_type h) (fh_seq h) t r = r.
Proof.
  intros (j & s & Hf & Hj & Hs) Hw. unfold expireOne. rewrite Hf.
  unfold get_slot. rewrite (nth_lookup_Some _ _ _ _ Hj).
  destruct Hs as (_ & _ & _ & -> & _). by rewrite Hw.
Qed.

Lemma deliver_tracked start got r i t :
  (i < N)%nat -> tracked start got r -> in_window start t -> {[i]} ∪ got <> set_seq 0 N ->
  exists r', deliver (frag_bytes h P b i) t r = (Ok None, r') /\ tracked start ({[i]} ∪ got) r'.
Proof.
  intros Hi Htr Hw Hne. rewrite deliver_unfold by done. cbv zeta.
  rewrite (expireOne_live _ _ _ _ Htr Hw). destruct Htr as (j & s & Hf & Hj & Hs). rewrite Hf.
  destruct (accept_at_more _ _ _ _ _ _ Hi Hj Hs Hne) as (s' & -> & Hs'). eexists. split; [done|].
  exists j, s'. split_and!; [|by apply list_lookup_insert_eq; eapply lookup_lt_Some|done].
  apply find_index_insert_Some; [done|by eapply collecting_key].
Qed.

Lemma deliver_final start got r i t :
  (i < N)%nat -> tracked start got r -> in_window start t -> {[i]} ∪ got = set_seq 0 N ->
  exists fb r', deliver (frag_bytes h P b i) t r = (Ok (Some fb), r') /\ FrameBuffer.bytes_of fb = whole.
Proof.
  intros Hi Htr Hw Hall. rewrite deliver_unfold by done. cbv zeta.
  rewrite (expireOne_live _ _ _ _ Htr Hw). destruct Htr as (j & s & Hf & Hj & Hs). rewrite Hf.
  destruct (accept_at_done _ _ _ _ _ _ Hi Hj Hs Hall) as (fb & st & -> & Hfb). by eauto.
Qed.

(** The first fragment to arrive opens a free slot. *)
Lemma deliver_first r i t :
  (i < N)%nat -> findSlot (fh_type h) (fh_seq h) r = None ->
  is_Some (find_index (fun s => negb (active s)) (slots r)) ->
  exists r', deliver (frag_bytes h P b i) t r = (Ok None, r') /\ tracked t {[i]} r'.
Proof.
  intros Hi Hnone [j Hfree]. rewrite deliver_unfold by done. cbv zeta.
  unfold expireOne. rewrite Hnone. cbv iota. rewrite Hnone. unfold allocSlot. rewrite Hfree.
  pose proof (find_index_lt _ _ _ Hfree) as Hj.
  assert (collecting t ∅ (opened (fh_type h) (fh_seq h) t)) as Hs.
  { unfold collecting, opened. simpl. rewrite !decide_False by set_solver.
    split_and!; try done; set_solver. }
  assert ({[i]} ∪ ∅ <> (set_seq 0 N : gset nat)) as Hne.
  { rewrite union_empty_r_L. intros H. apply (f_equal size) in H.
    rewrite size_set_seq, size_singleton in H. lia. }
  set (r1 := set_slot j _ r).
  assert (slots r1 !! j = Some (opened (fh_type h) (fh_seq h) t)) as Hj1 by (by apply list_lookup_insert_eq).
  destruct (accept_at_more _ _ _ _ _ _ Hi Hj1 Hs Hne) as (s' & -> & Hs').
  rewrite union_empty_r_L in Hs'. eexists. split; [done|].
  exists j, s'. unfold r1. simpl. rewrite list_insert_insert_eq.
  split_and!; [|by apply list_lookup_insert_eq|done].
  apply find_index_insert_None; [done|done|by eapply collecting_key].
Qed.

Fixpoint deliver_all (ds : list (nat * Z)) (r : Reassembler)
    : list (Result (option FrameBuffer.t) DecodeError) * Reassembler :=
  match ds with
  | [] => ([], r)
  | (i, t) :: ds =>
      let '(x, r) := deliver (frag_bytes h P b i) t r in
      let '(xs, r) := deliver_all ds r in (x :: xs, r)
  end.

Lemma deliver_all_tracked start got ds last tl r :
  tracked start got r -> got ⊆ set_seq 0 N -> last ∉ got -> (last < N)%nat ->
  Forall (fun '(i, t) => (i < N)%nat /\ i <> last /\ in_window start t) ds -> in_window start tl ->
  (forall i, (i < N)%nat -> i = last \/ i ∈ got \/ i ∈ ds.*1) ->
  exists fb r', deliver_all (ds ++ [(last, tl)]) r =
    (replicate (length ds) (Ok None) ++ [Ok (Some fb)], r') /\ FrameBuffer.bytes_of fb = whole.
Proof.
  revert got r. induction ds as [|[i t] ds IH]; intros got r Htr Hsub Hnl Hl Hds Htl Hcov.
  - destruct (deliver_final start got r last tl Hl Htr Htl) as (fb & r' & E & Hfb).
    { apply set_eq. intros i. rewrite elem_of_set_seq. split.
      - intros [->%elem_of_singleton|Hin]%elem_of_union; [lia|]. apply Hsub, elem_of_set_seq in Hin. lia.
      - intros Hi. destruct (Hcov i ltac:(lia)) as [->|[Hin|Hin]]; [set_solver|set_solver|]. by apply elem_of_nil in Hin. }
    simpl. rewrite E. by eauto.
  - apply Forall_cons in Hds as [(Hi & Hne & Hw) Hds]. cbn [deliver_all app length replicate].
    destruct (deliver_tracked start got r i t Hi Htr Hw) as (r1 & -> & Htr1).
    { intros Hall. assert (last ∈ {[i]} ∪ got) as Hin; [|set_solver]. rewrite Hall. apply elem_of_set_seq. lia. }
    destruct (IH ({[i]} ∪ got) r1 Htr1) as (fb & r' & E & Hfb); try done.
    { apply union_subseteq. split; [|done]. apply singleton_subseteq_l, elem_of_set_seq. lia. }
    { set_solver. }
    { intros k Hk. destruct (Hcov k Hk) as [->|[Hin|Hin]]; [by left|set_solver|].
      simpl in Hin. apply elem_of_cons in Hin as [->|Hin]; set_solver. }
    rewrite E. by eauto.
Qed.
End reassembly.

(** ** The reassembler's invariant *)

Definition slot_wf (s : Slot) : Prop :=
  length (data s) = kMaxSlotPayload /\ length (pendingLastBytes s) = kMaxSlotPayload /\
  0 <= unitLen s /\ 0 <= pendingLastIndex s /\ 0 <= totalFragments s /\ 0 <= lastFragLen s.

(** Two slots, well-formed buffers, and no two active slots with one key. *)
Definition reassembler_wf (r : Reassembler) : Prop :=
  length (slots r) = kMaxSlots /\ Forall slot_wf (slots r) /\
  forall i j s s', slots r !! i = Some s -> slots r !! j = Some s' -> i <> j ->
    active s = true -> active s' = true -> (type s, seq s) <> (type s', seq s').

Lemma slot_init_wf : slot_wf slot_init.
Proof. unfold slot_wf. simpl. split_and!; try done; lia. Qed.

Lemma opened_wf t q now : slot_wf (opened t q now).
Proof. unfold slot_wf. simpl. split_and!; try done; lia. Qed.

Lemma placeFragment_wf s i bs s' :
  slot_wf s -> 0 <= i -> placeFragment s i bs = Some s' ->
  slot_wf s' /\ (active s', type s', seq s', unitLen s') = (active s, type s, seq s, unitLen s).
Proof.
  intros Hs Hi. pose proof Hs as (Hd & Hp & Hu & Hpi & Ht & Hl). unfold placeFragment. case_ifs; intros E; inv E.
  - done.
  - split; [|done]. unfold slot_wf. simpl. split_and!; try done. rewrite length_write_at; nia.
Qed.

Lemma slot_accept_wf s fl i sl s' :
  slot_wf s -> 0 <= i -> slot_accept s fl i sl = Some s' ->
  slot_wf s' /\ (active s', type s', seq s') = (active s, type s, seq s).
Proof.
  intros Hs Hi. pose proof Hs as (Hd & Hp & Hu & Hpi & Ht & Hl). unfold slot_accept.
  assert (forall z, 0 <= u16 z) as Hu16 by (intros z; apply u16_range).
  destruct (_ && _).
  { intros E. eapply placeFragment_wf in E as [? [=]]; [|by unfold slot_wf; simpl; split_and!; auto; lia|lia].
    split; [done|congruence]. }
  destruct (negb _).
  - cbv zeta. set (s1 := if unitLen s =? 0 then _ else _).
    assert (slot_wf s1 /\ (active s1, type s1, seq s1) = (active s, type s, seq s)) as [Hs1 [= Ha1 Ht1 Hq1]].
    { unfold s1. case_ifs; [|done]. split; [|done]. unfold slot_wf. simpl. split_and!; auto. }
    destruct (placeFragment s1 i sl) as [s2|] eqn:E2; [|done].
    apply placeFragment_wf in E2 as [Hs2 [= Ha2 Ht2 Hq2 _]]; [|done|done].
    destruct (_ && _).
    + destruct (placeFragment s2 _ _) as [s3|] eqn:E3; [|done]. intros [= <-].
      apply placeFragment_wf in E3 as [Hs3 [= Ha3 Ht3 Hq3 _]]; [|done|apply Hs2].
      split; [exact Hs3|]. simpl. congruence.
    + intros [= <-]. split; [done|congruence].
  - cbv zeta. case_ifs.
    + intros E. eapply placeFragment_wf in E as [? [=]]; [|by unfold slot_wf; simpl; split_and!; auto|done].
      split; [done|congruence].
    + done.
    + intros [= <-]. split; [|done]. simpl in *. unfold slot_wf. simpl.
      split_and!; auto. rewrite length_write_at; [done|simpl; lia].
Qed.

Lemma checkComplete_wf s res s' fin :
  slot_wf s -> checkComplete s = (res, s', fin) ->
  (s' = s \/ s' = slot_init) /\
  match res with
  | Ok (Some fb) => (kHeaderBytes <= length (FrameBuffer.bytes_of fb) <= kFrameBufferCapacity)%nat
  | _ => True
  end.
Proof.
  intros (Hd & Hp & Hu & Hpi & Ht & Hl). unfold checkComplete. case_ifs.
  - intros [= <- <- <-]. auto.
  - intros [= <- <- <-]. auto.
  - intros [= <- <- <-]. split; [by right|].
    rewrite completed_frame_bytes by (unfold kMaxSlotPayload; first [nia|done]).
    rewrite length_app, length_header_bytes, length_take, Hd. unfold kMaxSlotPayload, kFrameBufferCapacity, kHeaderBytes. lia.
Qed.

(** Overwriting one slot by a well-formed one that keeps keys distinct. *)
Lemma insert_slot_wf r i s st :
  reassembler_wf r -> slot_wf s ->
  (active s = true -> forall j s', j <> i -> slots r !! j = Some s' -> active s' = true ->
     (type s', seq s') <> (type s, seq s)) ->
  reassembler_wf (mkReassembler (<[i := s]> (slots r)) st).
Proof.
  intros (Hl & Hwf & Hkeys) Hs Hnew. unfold reassembler_wf. simpl. rewrite length_insert.
  split_and!; [done|by apply Forall_insert|].
  intros j k sj sk Hj Hk Hne Haj Hak.
  destruct (decide (j = i)) as [->|Hji], (decide (k = i)) as [->|Hki]; [done| | |].
  - rewrite list_lookup_insert_ne in Hk by done.
    assert (sj = s) as -> by (apply list_lookup_insert_Some in Hj; naive_solver).
    intros E. by eapply Hnew; [| |exact Hk| |].
  - rewrite list_lookup_insert_ne in Hj by done.
    assert (sk = s) as -> by (apply list_lookup_insert_Some in Hk; naive_solver).
    by eapply Hnew; [| |exact Hj|].
  - rewrite list_lookup_insert_ne in Hj, Hk by done. by eapply Hkeys.
Qed.

Lemma get_slot_wf r i : reassembler_wf r -> slot_wf (get_slot i r).
Proof.
  intros (_ & Hwf & _). unfold get_slot. destruct (slots r !! i) as [s|] eqn:E.
  - rewrite (nth_lookup_Some _ _ _ _ E). by eapply Forall_lookup_1 in Hwf.
  - rewrite nth_overflow by (by apply lookup_ge_None_1). apply slot_init_wf.
Qed.

Lemma expireOne_wf t q now r : reassembler_wf r -> reassembler_wf (expireOne t q now r).
Proof.
  intros Hr. unfold expireOne. destruct (findSlot t q r); [|done]. case_ifs; [|done].
  apply insert_slot_wf; [done|apply slot_init_wf|done].
Qed.

Lemma findSlot_key t q r i :
  findSlot t q r = Some i ->
  exists s, slots r !! i = Some s /\ active s = true /\ type s = t /\ seq s = q.
Proof.
  intros (s & Hs & Hk & _)%find_index_Some. exists s. unfold key_matches in Hk.
  rewrite !andb_true_iff, !Z.eqb_eq in Hk. naive_solver.
Qed.

Lemma findSlot_None t q r j s :
  findSlot t q r = None -> slots r !! j = Some s -> active s = true -> (type s, seq s) <> (t, q).
Proof.
  intros Hn Hj Ha [= <- <-]. apply find_index_None in Hn.
  eapply Forall_lookup_1 in Hn; [|done]. unfold key_matches in Hn. by rewrite Ha, !Z.eqb_refl in Hn.
Qed.

Lemma allocSlot_wf t q now r i r' :
  reassembler_wf r -> findSlot t q r = None -> allocSlot t q now r = (i, r') ->
  reassembler_wf r' /\ (forall s, slots r' !! i = Some s -> (type s, seq s) = (t, q)) /\
  (forall j s, j <> i -> slots r' !! j = Some s -> active s = true -> (type s, seq s) <> (t, q)).
Proof.
  intros Hr Hn. unfold allocSlot, set_slot.
  assert (forall i st, reassembler_wf (mkReassembler (<[i := opened t q now]> (slots r)) st) /\
    (forall s, <[i := opened t q now]> (slots r) !! i = Some s -> (type s, seq s) = (t, q)) /\
    (forall j s, j <> i -> <[i := opened t q now]> (slots r) !! j = Some s -> active s = true ->
       (type s, seq s) <> (t, q))) as H.
  { intros k st. split_and!.
    - apply insert_slot_wf; [done|apply opened_wf|]. intros _ j s' _ Hj Ha. by eapply findSlot_None.
    - intros s [(_ & <- & _)|[? _]]%list_lookup_insert_Some; done.
    - intros j s Hne E Ha. rewrite list_lookup_insert_ne in E by done. by eapply findSlot_None. }
  destruct (find_index _ _); intros [= <- <-]; apply H.
Qed.

Lemma reassembler_init_wf : reassembler_wf reassembler_init.
Proof.
  unfold reassembler_wf, reassembler_init. cbn [slots].
  split_and!; [done|by apply Forall_replicate, slot_init_wf|].
  intros i j s s' [-> _]%lookup_replicate. done.
Qed.

Lemma accept_wf h p now r :
  reassembler_wf r -> is_bytes p ->
  reassembler_wf (accept h p now r).2 /\
  match (accept h p now r).1 with
  | Ok (Some fb) => (kHeaderBytes <= length (FrameBuffer.bytes_of fb) <= kFrameBufferCapacity)%nat
  | _ => True
  end.
Proof.
  intros Hr Hp. unfold accept. destruct (length p <? kFragIndexBytes)%nat; [done|].
  cbv zeta. destruct (_ <=? _); [done|].
  assert (0 <= getU16 (subspan 0 2 p)) as Hidx by (by apply getU16_range, is_bytes_subspan).
  pose proof (expireOne_wf (fh_type h) (fh_seq h) now r Hr) as Hr1.
  set (r1 := expireOne _ _ _ r) in *.
  assert (exists i r2, match findSlot (fh_type h) (fh_seq h) r1 with
      | Some i => (i, r1) | None => allocSlot (fh_type h) (fh_seq h) now r1 end = (i, r2) /\
      reassembler_wf r2 /\
      (forall s, slots r2 !! i = Some s -> (type s, seq s) = (fh_type h, fh_seq h)) /\
      (forall j s, j <> i -> slots r2 !! j = Some s -> active s = true ->
        (type s, seq s) <> (fh_type h, fh_seq h))) as (i & r2 & -> & Hr2 & Hi & Hother).
  { destruct (findSlot _ _ r1) as [i|] eqn:Hf.
    - exists i, r1. apply findSlot_key in Hf as (s & Hs & Ha & Ht & Hq).
      split_and!; [done|done| |].
      + intros s' Hs'. assert (s' = s) as -> by congruence. by rewrite Ht, Hq.
      + intros j s' Hne Hj Ha' E. destruct Hr1 as (_ & _ & Hk).
        apply (Hk j i s' s Hj Hs Hne Ha' Ha). rewrite E. by rewrite Ht, Hq.
    - destruct (allocSlot _ _ _ r1) as [i r2] eqn:Ha. exists i, r2. split; [done|].
      by eapply allocSlot_wf. }
  set (s0 := with_channel (fh_channel h) (get_slot i r2)).
  assert (slot_wf s0) as Hs0 by exact (get_slot_wf r2 i Hr2).
  destruct (slot_accept s0 _ _ _) as [s1|] eqn:Hacc.
  2:{ split; [|done]. apply insert_slot_wf; [done|apply slot_init_wf|done]. }
  apply slot_accept_wf in Hacc as [Hs1 [= Ha1 Ht1 Hq1]]; [|done|done].
  destruct (checkComplete s1) as [[res s2] fin] eqn:Hc.
  apply checkComplete_wf in Hc as [Hs2 Hres]; [|done]. split; [|exact Hres].
  apply insert_slot_wf; [done|destruct Hs2 as [->| ->]; [done|apply slot_init_wf]|].
  destruct Hs2 as [->| ->]; [|done]. intros Hact j s' Hne Hj Ha'.
  destruct (slots r2 !! i) as [si|] eqn:Esi.
  - rewrite Ht1, Hq1. simpl. unfold get_slot. rewrite (nth_lookup_Some _ _ _ _ Esi).
    rewrite (Hi si eq_refl). by eapply Hother.
  - exfalso. rewrite Ha1 in Hact. simpl in Hact. unfold get_slot in Hact.
    rewrite nth_overflow in Hact; [done|by apply lookup_ge_None_1].
Qed.

(** Whether a slot survives the sweep. *)
Definition slot_expired (nowMs : Z) (s : Slot) : bool :=
  active s && timeReached nowMs (u32 (startMs s + limits.frag_reassembly_timeout_ms)).

(** One turn of the sweep acts on exactly the slot it looks at: keys are
    distinct, so the search by key finds that slot again. *)
Lemma sweep_step nowMs r i s :
  reassembler_wf r -> slots r !! i = Some s ->
  slots (if active s then expireOne (type s) (seq s) nowMs r else r) =
    <[i := if slot_expired nowMs s then slot_init else s]> (slots r).
Proof.
  intros (_ & _ & Hk) Hi. unfold slot_expired. destruct (active s) eqn:Ha; [|by rewrite list_insert_id].
  assert (findSlot (type s) (seq s) r = Some i) as Hf.
  { destruct (findSlot (type s) (seq s) r) as [j|] eqn:Hf.
    - apply findSlot_key in Hf as (s' & Hs' & Ha' & Ht & Hq). f_equal.
      destruct (decide (j = i)); [done|]. exfalso.
      apply (Hk j i s' s Hs' Hi n Ha' Ha). by rewrite Ht, Hq.
    - exfalso. by eapply findSlot_None. }
  unfold expireOne. rewrite Hf. unfold get_slot. rewrite (nth_lookup_Some _ _ _ _ Hi).
  simpl andb. destruct (timeReached _ _); [done|]. by rewrite list_insert_id.
Qed.

(** ** Properties *)

(** Arrivals of emitted fragments, by index and hub time. *)
Fixpoint receive (frags : list bytes) (ds : list (nat * Z)) (r : Reassembler)
    : list (Result (option FrameBuffer.t) DecodeError) * Reassembler :=
  match ds with
  | [] => ([], r)
  | (i, t) :: ds =>
      let '(x, r) := deliver (nth i frags []) t r in
      let '(xs, r) := receive frags ds r in (x :: xs, r)
  end.

Lemma receive_deliver_all h P b ds r :
  Forall (fun d => (d.1 < frag_count P b)%nat) ds ->
  receive (frag_bytes h P b <$> List.seq 0 (frag_count P b)) ds r = deliver_all h P b ds r.
Proof.
  revert r. induction ds as [|[i t] ds IH]; intros r H; [done|].
  apply Forall_cons in H as [Hi H]. simpl in Hi. cbn [receive deliver_all].
  assert (nth i (frag_bytes h P b <$> List.seq 0 (frag_count P b)) [] = frag_bytes h P b i) as ->.
  { apply nth_lookup_Some. rewrite list_lookup_fmap, lookup_seq_lt by lia. done. }
  destruct (deliver _ t r) as [x r1]. by rewrite (IH r1 H).
Qed.

(** C23. Fragmentation and reassembly are inverse, whatever the order of
    arrival: a clean control frame that exceeds the MTU (and fits the frame
    buffer) is split into fragments of at most the MTU; delivered in any order,
    with any repetitions, within the five-second window, to a reassembler with
    a free slot, every fragment but the one that completes the set yields
    "not yet", and that one yields the original frame byte for byte. *)
Theorem fragment_reassemble h P mtu r i0 t0 ds last tl :
  let w := header_bytes h ++ P in
  let frags := (fragmentFrame w mtu).2 in
  header_wf h -> fh_flags h = 0 -> fh_len h = Z.of_nat (length P) ->
  10 < mtu < Z.of_nat (length w) -> (length w <= kFrameBufferCapacity)%nat ->
  (length frags <= 32)%nat ->
  findSlot (fh_type h) (fh_seq h) r = None ->
  is_Some (find_index (fun s => negb (active s)) (slots r)) ->
  Forall (fun '(i, t) => (i < length frags)%nat /\ i <> last /\ in_window t0 t) ((i0, t0) :: ds) ->
  (last < length frags)%nat -> in_window t0 tl ->
  (forall i, (i < length frags)%nat -> i = last \/ i ∈ ((i0, t0) :: ds).*1) ->
  (fragmentFrame w mtu).1 = true /\
  Forall (fun f => Z.of_nat (length f) <= mtu) frags /\
  exists fb r', receive frags ((i0, t0) :: ds ++ [(last, tl)]) r =
    (replicate (S (length ds)) (Ok None) ++ [Ok (Some fb)], r') /\ FrameBuffer.bytes_of fb = w.
Proof.
  intros w frags Hh Hfl Hln Hmtu Hcap. subst frags.
  assert (length w = 8 + length P)%nat as Hlw by (unfold w; by rewrite length_app).
  set (b := (Z.to_nat mtu - 10)%nat).
  assert (fragmentFrame w mtu = (true, frag_bytes h P b <$> List.seq 0 (frag_count P b))) as ->.
  { unfold fragmentFrame. unfold kFrameBufferCapacity in *.
    assert (Z.of_nat 512 <? mtu = false) as -> by lia.
    assert (Z.of_nat (length w) <=? mtu = false) as -> by lia.
    assert (looksLikeEstop w = false) as ->.
    { unfold looksLikeEstop. assert (byte_at 1 w = 0) as -> by (unfold w; simpl; by rewrite Hfl).
      change (0 =? kEstopMagicByte) with false. by rewrite andb_false_r. }
    unfold w. rewrite decodeFrameHeader_bytes by done. fold w.
    assert (mtu <=? Z.of_nat (kHeaderBytes + kFragIndexBytes) = false) as ->
      by (unfold kHeaderBytes, kFragIndexBytes; lia).
    replace (Z.to_nat mtu - kHeaderBytes - kFragIndexBytes)%nat with b
      by (unfold b, kHeaderBytes, kFragIndexBytes; lia).
    assert (drop kHeaderBytes w = P) as -> by done. f_equal.
    fold (frag_count P b). apply fragment_loop_spec; [done|unfold b, kHeaderBytes, kFragIndexBytes, kFrameBufferCapacity; lia|].
    apply Forall_forall. intros i [_ Hi]%elem_of_seq.
    destruct (frag_count_bounds P b ltac:(unfold b; lia)) as [_ Hc]. unfold is_u16. nia. }
  cbn [fst snd]. rewrite length_fmap, length_seq. set (N := frag_count P b).
  assert (0 < b)%nat as Hb by (unfold b; lia).
  assert (2 <= N)%nat as HN.
  { destruct (frag_count_bounds P b Hb) as [Hc _]. fold N in Hc. unfold b in *. nia. }
  intros HN32 Hnone Hfree Hds Hlast Htl Hcov. split_and!; [done| |].
  - apply Forall_fmap, Forall_forall. intros i _. unfold compose, frag_bytes.
    rewrite !length_app, length_header_bytes, length_slice. unfold kHeaderBytes, b. simpl length. lia.
  - assert (length P <= kMaxSlotPayload)%nat as HPl
      by (unfold kMaxSlotPayload, kFrameBufferCapacity, kHeaderBytes in *; lia).
    rewrite receive_deliver_all.
    2:{ rewrite app_comm_cons. apply Forall_app. split; [|by constructor].
        eapply Forall_impl; [exact Hds|]. intros [i t]. simpl. tauto. }
    apply Forall_cons in Hds as [(Hi0 & Hne0 & Hw0) Hds]. cbn [deliver_all].
    destruct (deliver_first h P b Hb HN HN32 HPl Hh r i0 t0 Hi0 Hnone Hfree) as (r1 & -> & Htr).
    destruct (deliver_all_tracked h P b Hb HN HN32 HPl Hh t0 {[i0]} ds last tl r1 Htr) as (fb & r' & -> & Hfb);
      try done.
    + apply singleton_subseteq_l, elem_of_set_seq. lia.
    + set_solver.
    + intros i Hi. destruct (Hcov i Hi) as [->|Hin]; [by left|]. simpl in Hin.
      apply elem_of_cons in Hin as [->|Hin]; [right; left; set_solver|by right; right].
    + exists fb, r'. split; [done|]. rewrite Hfb. unfold whole, w. do 2 f_equal.
      destruct h. simpl in *. by subst.
Qed.

Lemma fragment_reassemble_witness :
  let h := mkFrameHeader 1 0 0 9 6 in let P := [1; 2; 3; 4; 5; 6] in
  let frags := (fragmentFrame (header_bytes h ++ P) 12).2 in
  exists fb r', receive frags [(2%nat, 100); (0%nat, 101); (2%nat, 102); (1%nat, 103)] reassembler_init =
    ([Ok None; Ok None; Ok None; Ok (Some fb)], r') /\ FrameBuffer.bytes_of fb = header_bytes h ++ P.
Proof.
  refine (proj2 (proj2 (fragment_reassemble (mkFrameHeader 1 0 0 9 6) [1; 2; 3; 4; 5; 6] 12 reassembler_init
    2 100 [(0%nat, 101); (2%nat, 102)] 1 103 _ _ _ _ _ _ _ _ _ _ _ _))).
  - unfold header_wf, is_u8, is_u16. simpl. lia.
  - reflexivity.
  - reflexivity.
  - simpl. lia.
  - vm_compute. lia.
  - vm_compute. lia.
  - reflexivity.
  - vm_compute. by eexists.
  - repeat constructor; vm_compute; try lia; done.
  - vm_compute. lia.
  - reflexivity.
  - change (length _) with 3%nat. intros [|[|[|i]]] Hi; [right; set_solver|by left|right; set_solver|lia].
Defined.

(** Every call of [accept], whatever bytes arrive, preserves the
    reassembler's invariant (two slots, buffers never outgrown, no two active
    slots under one key), and a completed frame always fits the frame buffer. *)
Theorem reassembler_accept_safe h p now r :
  reassembler_wf r -> is_bytes p ->
  reassembler_wf reassembler_init /\
  reassembler_wf (accept h p now r).2 /\
  match (accept h p now r).1 with
  | Ok (Some fb) => (kHeaderBytes <= length (FrameBuffer.bytes_of fb) <= kFrameBufferCapacity)%nat
  | _ => True
  end.
Proof.
  intros Hr Hp. split; [apply reassembler_init_wf|by apply accept_wf].
Qed.

Lemma reassembler_accept_safe_witness :
  reassembler_wf (accept (mkFrameHeader 1 1 0 4 5) [0; 0; 7; 8; 9] 10 reassembler_init).2.
Proof.
  refine (proj1 (proj2 (reassembler_accept_safe (mkFrameHeader 1 1 0 4 5) [0; 0; 7; 8; 9] 10 reassembler_init reassembler_init_wf _))).
  repeat constructor; lia.
Defined.

(** The sweep frees exactly the slots whose five-second window has passed
    and leaves every other slot untouched. *)
Theorem expireStale_exact nowMs r :
  reassembler_wf r ->
  slots (expireStale nowMs r) =
    (fun s => if slot_expired nowMs s then slot_init else s) <$> slots r.
Proof.
  intros Hr. pose proof Hr as (Hl & _). unfold expireStale, kMaxSlots, limits.frag_max_concurrent_per_session in *.
  destruct (slots r) as [|s0 [|s1 [|]]] eqn:Hs; simpl in Hl; try lia.
  cbn [foldl List.seq]. assert (get_slot 0 r = s0) as -> by (unfold get_slot; by rewrite Hs).
  assert (slots r !! 0%nat = Some s0) as H0 by (by rewrite Hs).
  pose proof (sweep_step nowMs r 0 s0 Hr H0) as E0. rewrite Hs in E0. simpl in E0.
  set (r1 := if active s0 then _ else _) in *.
  assert (reassembler_wf r1) as Hr1 by (unfold r1; case_ifs; [by apply expireOne_wf|done]).
  assert (get_slot 1 r1 = s1) as -> by (unfold get_slot; by rewrite E0).
  assert (slots r1 !! 1%nat = Some s1) as H1 by (by rewrite E0).
  rewrite (sweep_step nowMs r1 1 s1 Hr1 H1), E0. done.
Qed.

Lemma expireStale_exact_witness :
  slots (expireStale 9000 (accept (mkFrameHeader 1 1 0 4 5) [0; 0; 7] 10 reassembler_init).2) =
  [slot_init; slot_init].
Proof.
  rewrite (expireStale_exact 9000 _ (proj1 (accept_wf (mkFrameHeader 1 1 0 4 5) [0; 0; 7] 10 _ reassembler_init_wf ltac:(repeat constructor; lia)))).
  vm_compute. reflexivity.
Defined.

(** The completion test counts placed fragments but not which ones: a
    full-size fragment 5 followed by a "last" fragment 1 completes a
    two-fragment message whose first fragment never arrived, and its bytes
    are the slot's zero filling. *)
Definition hole_run : Result (option FrameBuffer.t) DecodeError :=
  let r := (accept (mkFrameHeader 1 flags.FRAG_MORE 0 4 5) [5; 0; 7; 8; 9] 10 reassembler_init).2 in
  (accept (mkFrameHeader 1 0 0 4 3) [1; 0; 42] 11 r).1.

Lemma reassembler_completes_with_hole :
  match hole_run with
  | Ok (Some fb) => FrameBuffer.payload fb = [0; 0; 0; 42]
  | _ => False
  end.
Proof. vm_compute. reflexivity. Qed.
