(* ===== verification/Bundle.v ===== *)
(** * Bundle: STREAM sample bundles

    wire/stream_bundle.hpp. A bundle is
    [t_base u32][n u8][reserved u8][t_off u16 x n][sample x n]; the writer
    appends samples in place (moving the sample block for each new offset),
    the view validates before it hands anything out. *)

From S2P Require Import Prelude Registry ByteIO.
Local Open Scope Z_scope.

Definition kStreamBundleHeaderBytes : nat := 6.
Definition kStreamBundleTOffBytes : nat := 2.

(** ** BundleWriter *)

Record BundleWriter := mkWriter {
  bw_out : bytes; bw_tBase : Z; bw_sampleSize : nat; bw_valid : bool; bw_n : nat; bw_tOffs : list Z }.

Definition bundleWriter (out : bytes) (tBase : Z) (sampleSize : nat) : BundleWriter :=
  if (kStreamBundleHeaderBytes <=? length out)%nat then
    let out := (on_subn 0 4 (fun s => putU32 s tBase) out).2 in
    let out := (on_subn 5 1 (fun s => putU8 s 0) out).2 in
    mkWriter out tBase sampleSize true 0 (replicate limits.bundle_max_samples 0)
  else mkWriter out tBase sampleSize false 0 (replicate limits.bundle_max_samples 0).

Definition addSample (tOff : Z) (sample : bytes) (w : BundleWriter) : bool * BundleWriter :=
  if negb (bw_valid w) then (false, w)
  else if negb (length sample =? bw_sampleSize w)%nat then (false, w)
  else if (limits.bundle_max_samples <=? bw_n w)%nat then (false, w)
  else if (if (bw_n w =? 0)%nat then negb (tOff =? 0) else tOff <=? nth (bw_n w - 1) (bw_tOffs w) 0)
  then (false, w)
  else if limits.bundle_max_span_ms * 1000 <? tOff then (false, w)
  else
    let n := bw_n w in
    let oldHeaderSize := (kStreamBundleHeaderBytes + kStreamBundleTOffBytes * n)%nat in
    let newHeaderSize := (oldHeaderSize + kStreamBundleTOffBytes)%nat in
    let newTotal := (newHeaderSize + (n + 1) * bw_sampleSize w)%nat in
    if (length (bw_out w) <? newTotal)%nat then (false, w)
    else
      let out := bw_out w in
      let out := if (0 <? n)%nat
                 then write_at newHeaderSize (subspan oldHeaderSize (n * bw_sampleSize w) out) out
                 else out in
      let out := (on_subn oldHeaderSize 2 (fun s => putU16 s tOff) out).2 in
      let out := write_at (newHeaderSize + n * bw_sampleSize w) sample out in
      let out := (on_subn 4 1 (fun s => putU8 s (Z.of_nat (n + 1))) out).2 in
      (true, mkWriter out (bw_tBase w) (bw_sampleSize w) true (n + 1) (<[n := tOff]> (bw_tOffs w))).

Definition finalize (w : BundleWriter) : nat :=
  if negb (bw_valid w) then 0
  else kStreamBundleHeaderBytes + kStreamBundleTOffBytes * bw_n w + bw_n w * bw_sampleSize w.

(** ** BundleView *)

Record BundleView := mkView { bv_in : bytes; bv_tBase : Z; bv_n : nat; bv_sampleSize : nat }.

(** The single walk over the t_off array: the last offset, or the rejection. *)
Fixpoint toff_walk (s : bytes) (idxs : list nat) (last : Z) : Result Z DecodeError :=
  match idxs with
  | [] => Ok last
  | i :: idxs =>
      let tOff := getU16 (subspan (kStreamBundleHeaderBytes + kStreamBundleTOffBytes * i) 2 s) in
      if (i =? 0)%nat then (if negb (tOff =? 0) then Err Malformed else toff_walk s idxs tOff)
      else if tOff <=? last then Err Malformed
      else toff_walk s idxs tOff
  end.

Definition parse (s : bytes) (sampleSize : nat) : Result BundleView DecodeError :=
  if (length s <? kStreamBundleHeaderBytes)%nat then Err Truncated
  else
    let tBase := getU32 (subspan 0 4 s) in
    let n := Z.to_nat (getU8 (subspan 4 1 s)) in
    if (limits.bundle_max_samples <? n)%nat then Err Malformed
    else
      let tOffEnd := (kStreamBundleHeaderBytes + kStreamBundleTOffBytes * n)%nat in
      if (length s <? tOffEnd)%nat then Err Truncated
      else
        let? lastTOff := toff_walk s (seq 0 n) 0 in
        if (0 <? n)%nat && (limits.bundle_max_span_ms * 1000 <? lastTOff) then Err Malformed
        else
          let total := (tOffEnd + n * sampleSize)%nat in
          if (length s <? total)%nat then Err Truncated
          else Ok (mkView s tBase n sampleSize).

Definition tOff (v : BundleView) (i : nat) : Z :=
  getU16 (subspan (kStreamBundleHeaderBytes + kStreamBundleTOffBytes * i) 2 (bv_in v)).

Definition sampleTimeUs (v : BundleView) (i : nat) : Z := u32 (bv_tBase v + tOff v i).

Definition sample (v : BundleView) (i : nat) : bytes :=
  let samplesStart := (kStreamBundleHeaderBytes + kStreamBundleTOffBytes * bv_n v)%nat in
  subspan (samplesStart + i * bv_sampleSize v) (bv_sampleSize v) (bv_in v).

(** * Theorems *)

(** ** The wire image of a list of timed samples *)

Definition toffs_bytes (ss : list (Z * bytes)) : bytes := concat ((fun p => le16 p.1) <$> ss).
Definition samples_bytes (ss : list (Z * bytes)) : bytes := concat (ss.*2).

Lemma length_toffs_bytes ss : length (toffs_bytes ss) = (2 * length ss)%nat.
Proof.
  induction ss as [|p ss IH]; [done|].
  change (length (le16 p.1 ++ toffs_bytes ss) = (2 * S (length ss))%nat).
  rewrite length_app, IH. simpl length. lia.
Qed.

Lemma length_samples_bytes sz ss :
  Forall (fun p => length p.2 = sz) ss -> length (samples_bytes ss) = (length ss * sz)%nat.
Proof.
  intros H. induction H as [|p ss Hp _ IH]; [done|].
  change (length (p.2 ++ samples_bytes ss) = (S (length ss) * sz)%nat).
  rewrite length_app, IH, Hp. lia.
Qed.

Lemma toffs_bytes_snoc ss p : toffs_bytes (ss ++ [p]) = toffs_bytes ss ++ le16 p.1.
Proof. unfold toffs_bytes. by rewrite fmap_app, concat_app. Qed.
Lemma samples_bytes_snoc ss p : samples_bytes (ss ++ [p]) = samples_bytes ss ++ p.2.
Proof. unfold samples_bytes. rewrite fmap_app, concat_app. simpl. by rewrite app_nil_r. Qed.

(** Offsets start at 0, strictly increase and stay within the span cap. *)
Fixpoint increasing (last : Z) (ts : list Z) : Prop :=
  match ts with [] => True | t :: ts => last < t /\ increasing t ts end.

Definition offsets_ok (ts : list Z) : Prop :=
  match ts with
  | [] => True
  | t :: ts => t = 0 /\ increasing 0 ts /\ Forall (fun t => t <= limits.bundle_max_span_ms * 1000) ts
  end.

(** The writer's buffer after the samples [ss] were accepted. *)
Definition writer_holds (ss : list (Z * bytes)) (w : BundleWriter) : Prop :=
  bw_valid w = true /\ bw_n w = length ss /\ (length ss <= limits.bundle_max_samples)%nat /\
  length (bw_tOffs w) = limits.bundle_max_samples /\ take (length ss) (bw_tOffs w) = ss.*1 /\
  Forall (fun p => length p.2 = bw_sampleSize w) ss /\ offsets_ok (ss.*1) /\
  exists x rest, (0 < length ss -> x = Z.of_nat (length ss))%nat /\
    bw_out w = le32 (bw_tBase w) ++ [x; 0] ++ toffs_bytes ss ++ samples_bytes ss ++ rest.

Lemma bundleWriter_holds out tBase S :
  (kStreamBundleHeaderBytes <= length out)%nat -> writer_holds [] (bundleWriter out tBase S).
Proof.
  intros Hl. unfold bundleWriter. destruct (Nat.leb_spec kStreamBundleHeaderBytes (length out)); [|lia].
  unfold kStreamBundleHeaderBytes in Hl.
  do 6 (destruct out as [|? out]; [simpl in Hl; lia|]).
  unfold writer_holds. simpl. split_and!; try done; try lia.
  unfold on_subn, subspan, write_at. simpl. eexists _, out. split; [lia|reflexivity].
Qed.

Lemma length_bundleWriter out tBase S : length (bw_out (bundleWriter out tBase S)) = length out.
Proof. do 6 (destruct out as [|? out]; [done|]). reflexivity. Qed.

Fixpoint last_from (d : Z) (ts : list Z) : Z :=
  match ts with [] => d | t :: ts => last_from t ts end.

Lemma last_from_nth d ts : (0 < length ts)%nat -> nth (length ts - 1) ts 0 = last_from d ts.
Proof.
  revert d. induction ts as [|t ts IH]; intros d Hl; simpl in Hl; [lia|].
  cbn [last_from length]. destruct ts as [|t' ts]; [done|].
  rewrite <- (IH t) by (simpl; lia). simpl. by rewrite Nat.sub_0_r.
Qed.

Lemma increasing_snoc d ts t :
  increasing d (ts ++ [t]) <-> increasing d ts /\ last_from d ts < t.
Proof. revert d. induction ts as [|x ts IH]; intros d; simpl; [tauto|]. rewrite IH. tauto. Qed.

Lemma offsets_ok_snoc ts t :
  offsets_ok ts -> (if (length ts =? 0)%nat then t = 0 else last_from 0 ts < t) ->
  t <= limits.bundle_max_span_ms * 1000 -> offsets_ok (ts ++ [t]).
Proof.
  intros Hts Ht Hcap. destruct ts as [|t0 ts]; [simpl in *; auto|].
  destruct Hts as (-> & Hinc & Hall). simpl in Ht. cbn [app offsets_ok].
  split_and!; [done| |apply Forall_app; auto]. by apply increasing_snoc.
Qed.

(** Inserting one offset and one sample into the image. *)
Lemma grow_image (hd tt ss rest smp : bytes) (t x y : Z) (old : nat) :
  length hd = 4%nat -> old = (6 + length tt)%nat ->
  (2 + length smp <= length rest)%nat ->
  exists rest', length rest' = (length rest - 2 - length smp)%nat /\
    write_at 4 [x] (write_at (old + 2 + length ss) smp (write_at old (le16 t) (write_at (old + 2) ss
      (hd ++ [y; 0] ++ tt ++ ss ++ rest)))) =
    hd ++ [x; 0] ++ (tt ++ le16 t) ++ (ss ++ smp) ++ rest'.
Proof.
  intros Hhd Hold Hroom.
  set (X := take 2 (ss ++ rest)). set (Y := take (length ss) (drop 2 (ss ++ rest))).
  set (Z := drop (2 + length ss) (ss ++ rest)).
  assert (ss ++ rest = X ++ Y ++ Z) as ->.
  { unfold X, Y, Z. rewrite <- drop_drop, !take_drop. done. }
  assert (length X = 2%nat) as HX by (unfold X; rewrite length_take, length_app; lia).
  assert (length Y = length ss) as HY by (unfold Y; rewrite length_take, length_drop, length_app; lia).
  assert (length Z = length rest - 2)%nat as HZ by (unfold Z; rewrite length_drop, length_app; lia).
  clearbody X Y Z.
  assert (write_at (old + 2) ss (hd ++ [y; 0] ++ tt ++ X ++ Y ++ Z)
    = (hd ++ [y; 0] ++ tt) ++ X ++ ss ++ Z) as ->.
  { pose proof (write_at_mid (old + 2) (hd ++ [y; 0] ++ tt ++ X) ss Y Z) as E.
    rewrite <- !app_assoc in E. rewrite E; [by rewrite <- !app_assoc| |done].
    rewrite !length_app. simpl. lia. }
  rewrite (write_at_mid old) by (rewrite ?length_app; simpl; lia).
  assert ((hd ++ [y; 0] ++ tt) ++ le16 t ++ ss ++ Z
    = ((hd ++ [y; 0] ++ tt) ++ le16 t ++ ss) ++ take (length smp) Z ++ drop (length smp) Z) as ->
    by (rewrite take_drop, <- !app_assoc; done).
  rewrite write_at_mid by (rewrite ?length_take, ?length_app; simpl; lia).
  exists (drop (length smp) Z). split; [rewrite length_drop; lia|].
  assert ((((hd ++ [y; 0] ++ tt) ++ le16 t ++ ss) ++ smp ++ drop (length smp) Z)
    = hd ++ [y] ++ 0 :: (tt ++ le16 t ++ ss ++ smp ++ drop (length smp) Z)) as -> by (by rewrite <- !app_assoc).
  rewrite write_at_mid by done. by rewrite <- !app_assoc.
Qed.

Lemma addSample_accepts ss w t smp :
  writer_holds ss w -> is_u16 t -> length smp = bw_sampleSize w ->
  (length ss < limits.bundle_max_samples)%nat ->
  (if (length ss =? 0)%nat then t = 0 else last_from 0 (ss.*1) < t) ->
  t <= limits.bundle_max_span_ms * 1000 ->
  (kStreamBundleHeaderBytes + (length ss + 1) * (2 + bw_sampleSize w) <= length (bw_out w))%nat ->
  exists w', addSample t smp w = (true, w') /\ writer_holds (ss ++ [(t, smp)]) w' /\
    bw_tBase w' = bw_tBase w /\ bw_sampleSize w' = bw_sampleSize w /\ length (bw_out w') = length (bw_out w).
Proof.
  intros (Hv & Hn & Hcap & Hlt & Htk & Hsz & Hok & x & rest & Hx & Hout) Ht Hsmp Hroom Hinc Hspan Hfit.
  pose proof (length_samples_bytes _ _ Hsz) as Hls. pose proof (length_toffs_bytes ss) as Hlo.
  assert (length (ss.*1) = length ss) as Hl1 by apply length_fmap.
  assert (length (bw_out w) = 6 + 2 * length ss + length ss * bw_sampleSize w + length rest)%nat as Hlout.
  { rewrite Hout, !length_app, Hls, Hlo. simpl length. lia. }
  unfold addSample. rewrite Hv, Hsmp, Nat.eqb_refl, Hn. cbn [negb].
  destruct (Nat.leb_spec limits.bundle_max_samples (length ss)); [lia|].
  assert ((if (length ss =? 0)%nat then negb (t =? 0)
           else t <=? nth (length ss - 1) (bw_tOffs w) 0) = false) as ->.
  { destruct (Nat.eqb_spec (length ss) 0); [subst t; done|].
    rewrite <- (take_drop (length ss) (bw_tOffs w)), Htk, app_nth1 by lia.
    rewrite <- Hl1, (last_from_nth 0) by lia. lia. }
  destruct (Z.ltb_spec (limits.bundle_max_span_ms * 1000) t); [lia|]. cbv zeta.
  unfold kStreamBundleHeaderBytes, kStreamBundleTOffBytes in *.
  destruct (Nat.ltb_spec (length (bw_out w)) (6 + 2 * length ss + 2 + (length ss + 1) * bw_sampleSize w)); [lia|].
  assert (subspan (6 + 2 * length ss) (length ss * bw_sampleSize w) (bw_out w) = samples_bytes ss) as Hsub.
  { rewrite Hout, <- Hls. unfold subspan. rewrite !app_assoc, <- (app_assoc _ _ rest).
    rewrite drop_app_length' by (rewrite !length_app, Hlo; simpl; lia). apply take_app_length. }
  assert ((if (0 <? length ss)%nat then write_at (6 + 2 * length ss + 2)
             (subspan (6 + 2 * length ss) (length ss * bw_sampleSize w) (bw_out w)) (bw_out w) else bw_out w)
          = write_at (6 + 2 * length ss + 2) (samples_bytes ss) (bw_out w)) as ->.
  { rewrite Hsub. destruct (Nat.ltb_spec 0 (length ss)); [done|].
    destruct ss; [|simpl in *; lia]. symmetry. apply write_at_nil. }
  destruct (grow_image (le32 (bw_tBase w)) (toffs_bytes ss) (samples_bytes ss) rest smp t
              (u8 (Z.of_nat (length ss + 1))) x (6 + 2 * length ss)) as (rest' & Hr' & Hgrow);
    [done|rewrite Hlo; lia|lia|]. rewrite <- Hout in Hgrow.
  rewrite on_subn_putU16 by (rewrite length_write_at; lia). cbn [snd].
  rewrite <- Hls.
  assert (forall o, length (write_at (6 + 2 * length ss) (le16 t) (write_at (6 + 2 * length ss + 2) (samples_bytes ss) (bw_out w))) = o ->
    o = length (bw_out w)) as Hlen1.
  { intros o <-. rewrite length_write_at; rewrite length_write_at; simpl; lia. }
  rewrite on_subn_putU8 by (rewrite length_write_at; rewrite (Hlen1 _ eq_refl); lia). cbn [snd].
  eexists. split; [done|]. rewrite Hgrow. unfold writer_holds. cbn [bw_valid bw_n bw_tOffs bw_sampleSize bw_out bw_tBase].
  rewrite length_app, length_insert, fmap_app. cbn [length].
  split; [|split_and!; [done|done|rewrite !length_app, Hlo, Hls, Hr', Hlout; simpl length; lia]].
  split_and!; try done; try lia.
  - rewrite insert_write_at by lia. unfold write_at.
    rewrite app_assoc, take_app_le by (rewrite length_app, length_take; simpl; lia).
    rewrite take_ge by (rewrite length_app, length_take; simpl; lia). by rewrite Htk.
  - apply Forall_app. split; [done|]. by repeat constructor.
  - apply offsets_ok_snoc; [done| |done]. by rewrite Hl1.
  - exists (u8 (Z.of_nat (length ss + 1))), rest'. split.
    + intros _. apply u8_id. unfold is_u8, limits.bundle_max_samples in *. lia.
    + by rewrite toffs_bytes_snoc, samples_bytes_snoc.
Qed.

(** ** Reading the image *)

Definition image (tBase : Z) (ss : list (Z * bytes)) (rest : bytes) : bytes :=
  le32 tBase ++ [Z.of_nat (length ss); 0] ++ toffs_bytes ss ++ samples_bytes ss ++ rest.

Lemma image_toff tBase ss rest i p :
  ss !! i = Some p -> subspan (6 + 2 * i) 2 (image tBase ss rest) = le16 p.1.
Proof.
  intros Hi. apply list_elem_of_split_length in Hi as (l1 & l2 & -> & ->).
  assert (image tBase (l1 ++ p :: l2) rest = (le32 tBase ++ [Z.of_nat (length (l1 ++ p :: l2)); 0] ++ toffs_bytes l1)
    ++ le16 p.1 ++ (toffs_bytes l2 ++ samples_bytes (l1 ++ p :: l2) ++ rest)) as ->.
  { unfold image. assert (toffs_bytes (l1 ++ p :: l2) = toffs_bytes l1 ++ le16 p.1 ++ toffs_bytes l2) as ->.
    { unfold toffs_bytes. by rewrite fmap_app, concat_app. }
    by rewrite <- !app_assoc. }
  unfold subspan. rewrite drop_app_length' by (rewrite !length_app, length_toffs_bytes; simpl; lia).
  done.
Qed.

Lemma image_sample tBase ss rest i p sz :
  ss !! i = Some p -> Forall (fun p => length p.2 = sz) ss ->
  subspan (6 + 2 * length ss + i * sz) sz (image tBase ss rest) = p.2.
Proof.
  intros Hi Hsz. unfold image.
  assert (length p.2 = sz) as Hp by (by eapply Forall_lookup_1 in Hsz).
  pose proof (list_elem_of_split_length _ _ _ Hi) as (l1 & l2 & Hss & ->).
  assert (samples_bytes ss = samples_bytes l1 ++ p.2 ++ samples_bytes l2) as ->.
  { rewrite Hss. unfold samples_bytes. by rewrite fmap_app, concat_app. }
  assert (length (samples_bytes l1) = length l1 * sz)%nat as Hl1.
  { apply length_samples_bytes. rewrite Hss in Hsz. by apply Forall_app in Hsz as [? _]. }
  unfold subspan.
  replace (le32 tBase ++ _) with ((le32 tBase ++ [Z.of_nat (length ss); 0] ++ toffs_bytes ss ++ samples_bytes l1)
    ++ p.2 ++ (samples_bytes l2 ++ rest)) by (by rewrite <- !app_assoc).
  rewrite drop_app_length' by (rewrite !length_app, length_toffs_bytes, Hl1; simpl length; lia).
  rewrite <- Hp. apply take_app_length.
Qed.

Lemma image_walk tBase ss rest pre suf d :
  ss = pre ++ suf -> Forall (fun p => is_u16 p.1) ss ->
  match pre, suf with
  | [], p :: _ => p.1 = 0 /\ increasing 0 (drop 1 suf.*1)
  | _, _ => increasing d (suf.*1)
  end ->
  toff_walk (image tBase ss rest) (seq (length pre) (length suf)) d = Ok (last_from d (suf.*1)).
Proof.
  intros Hss Hu. revert pre d Hss. induction suf as [|p suf IH]; intros pre d Hss Hinc; [done|].
  cbn [seq length toff_walk fmap list_fmap last_from]. unfold kStreamBundleHeaderBytes, kStreamBundleTOffBytes.
  assert (ss !! length pre = Some p) as Hp by (rewrite Hss; by apply list_lookup_middle).
  rewrite (image_toff _ _ _ _ _ Hp), <- (app_nil_r (le16 p.1)), getU16_le16.
  rewrite u16_id by (by eapply Forall_lookup_1 in Hu).
  assert (seq (S (length pre)) (length suf) = seq (length (pre ++ [p])) (length suf)) as ->
    by (f_equal; rewrite length_app; simpl; lia).
  assert (ss = (pre ++ [p]) ++ suf) as Hss' by (by rewrite <- app_assoc).
  destruct (Nat.eqb_spec (length pre) 0) as [H0|H0].
  - destruct pre; [|done]. destruct Hinc as [Hp0 Hinc]. rewrite Hp0. cbn [Z.eqb negb].
    rewrite IH; [done|done|done].
  - destruct pre as [|q pre]; [done|]. destruct Hinc as [Hlt Hinc].
    destruct (Z.leb_spec p.1 d); [lia|]. rewrite IH; [done|done|done].
Qed.

Lemma last_from_bound ts d cap : d <= cap -> Forall (fun t => t <= cap) ts -> last_from d ts <= cap.
Proof. intros Hd H. revert d Hd. induction H; intros d Hd; simpl; auto. Qed.

Lemma parse_image tBase ss rest sz :
  is_u32 tBase -> (length ss <= limits.bundle_max_samples)%nat -> offsets_ok (ss.*1) ->
  Forall (fun p => is_u16 p.1) ss -> Forall (fun p => length p.2 = sz) ss ->
  parse (image tBase ss rest) sz = Ok (mkView (image tBase ss rest) tBase (length ss) sz).
Proof.
  intros Htb Hn Hok Hu Hsz. unfold parse, limits.bundle_max_samples in *.
  assert (length (image tBase ss rest) = 6 + 2 * length ss + length ss * sz + length rest)%nat as Hl.
  { unfold image. rewrite !length_app, length_toffs_bytes, (length_samples_bytes sz) by done. simpl length. lia. }
  rewrite Hl. unfold kStreamBundleHeaderBytes, kStreamBundleTOffBytes.
  destruct (Nat.ltb_spec (6 + 2 * length ss + length ss * sz + length rest) 6); [lia|].
  assert (getU32 (subspan 0 4 (image tBase ss rest)) = tBase) as ->.
  { change (getU32 (le32 tBase ++ []) = tBase). rewrite getU32_le32. by apply u32_id. }
  assert (Z.to_nat (getU8 (subspan 4 1 (image tBase ss rest))) = length ss) as -> by apply Nat2Z.id.
  cbv zeta. destruct (Nat.ltb_spec 32 (length ss)); [lia|].
  destruct (Nat.ltb_spec (6 + 2 * length ss + length ss * sz + length rest) (6 + 2 * length ss)); [lia|].
  assert (toff_walk (image tBase ss rest) (seq 0 (length ss)) 0 = Ok (last_from 0 (ss.*1))) as ->.
  { apply (image_walk tBase ss rest [] ss 0); [done|done|].
    destruct ss as [|p ss]; [done|]. destruct Hok as (Hz & Hinc & _). done. }
  cbn [rbind].
  assert (last_from 0 (ss.*1) <= limits.bundle_max_span_ms * 1000) as Hlast.
  { apply last_from_bound; [unfold limits.bundle_max_span_ms; lia|].
    destruct ss as [|p ss]; [constructor|]. destruct Hok as (Hz & _ & Hall). simpl in *.
    constructor; [unfold limits.bundle_max_span_ms; lia|done]. }
  destruct (Z.ltb_spec (limits.bundle_max_span_ms * 1000) (last_from 0 (ss.*1))); [lia|].
  rewrite andb_false_r.
  destruct (Nat.ltb_spec (6 + 2 * length ss + length ss * sz + length rest) (6 + 2 * length ss + length ss * sz)); [lia|done].
Qed.

(** ** Appending a whole list of samples *)

Fixpoint addAll (ss : list (Z * bytes)) (w : BundleWriter) : bool * BundleWriter :=
  match ss with
  | [] => (true, w)
  | (t, smp) :: ss =>
      let '(ok, w) := addSample t smp w in
      if ok then addAll ss w else (false, w)
  end.

Lemma offsets_ok_split pre t suf :
  offsets_ok (pre ++ t :: suf) ->
  (if (length pre =? 0)%nat then t = 0 else last_from 0 pre < t) /\ t <= limits.bundle_max_span_ms * 1000.
Proof.
  destruct pre as [|p pre]; cbn [app offsets_ok length].
  - intros (-> & _). unfold limits.bundle_max_span_ms. simpl. lia.
  - intros (-> & Hinc & Hall). cbn [Nat.eqb last_from]. split.
    + revert Hinc. generalize 0 as d. clear. induction pre as [|x pre IH]; simpl; [tauto|]. intros d [_ H]. eauto.
    + apply Forall_app in Hall as [_ Hall]. by apply Forall_cons in Hall as [? _].
Qed.

Lemma addAll_holds pre suf w sz :
  writer_holds pre w -> bw_sampleSize w = sz -> offsets_ok ((pre ++ suf).*1) ->
  Forall (fun p => is_u16 p.1 /\ length p.2 = sz) suf ->
  (length (pre ++ suf) <= limits.bundle_max_samples)%nat ->
  (kStreamBundleHeaderBytes + length (pre ++ suf) * (2 + sz) <= length (bw_out w))%nat ->
  exists w', addAll suf w = (true, w') /\ writer_holds (pre ++ suf) w' /\
    bw_tBase w' = bw_tBase w /\ bw_sampleSize w' = sz.
Proof.
  revert pre w. induction suf as [|[t smp] suf IH]; intros pre w Hw Hsz Hok Hall Hcap Hfit.
  { exists w. rewrite app_nil_r in *. done. }
  apply Forall_cons in Hall as [[Ht Hl] Hall]. simpl in Ht, Hl. rewrite length_app in Hcap, Hfit. simpl in Hcap, Hfit.
  rewrite fmap_app in Hok. destruct (offsets_ok_split _ _ _ Hok) as [Hinc Hspan]. rewrite length_fmap in Hinc.
  destruct (addSample_accepts pre w t smp Hw Ht ltac:(lia) ltac:(lia) Hinc Hspan) as (w1 & E & Hw1 & Htb & Hs1 & Hlo).
  { rewrite Hsz. etransitivity; [|exact Hfit]. unfold kStreamBundleHeaderBytes. simpl. do 6 apply le_n_S. apply Nat.mul_le_mono_r. lia. }
  cbn [addAll]. rewrite E.
  assert (pre ++ (t, smp) :: suf = (pre ++ [(t, smp)]) ++ suf) as Hsp by (by rewrite <- app_assoc).
  destruct (IH (pre ++ [(t, smp)]) w1 Hw1) as (w' & -> & Hw' & Htb' & Hs').
  - congruence.
  - by rewrite <- Hsp, fmap_app.
  - done.
  - rewrite !length_app. simpl. lia.
  - rewrite Hlo, !length_app. simpl. lia.
  - exists w'. rewrite Hsp. split_and!; try done. congruence.
Qed.

(** ** What a successful parse guarantees *)

Lemma toff_walk_sound s i n last r :
  toff_walk s (seq i n) last = Ok r ->
  let ts := (fun j => getU16 (subspan (kStreamBundleHeaderBytes + kStreamBundleTOffBytes * j) 2 s)) <$> seq i n in
  r = last_from last ts /\
  match i, ts with O, t :: ts => t = 0 /\ increasing 0 ts | _, _ => increasing last ts end.
Proof.
  revert i last. induction n as [|n IH]; intros i last H; [injection H as <-; by destruct i|].
  cbn [seq toff_walk] in H. cbn [seq fmap list_fmap last_from increasing].
  set (t := getU16 (subspan (kStreamBundleHeaderBytes + kStreamBundleTOffBytes * i) 2 s)) in *.
  destruct (Nat.eqb_spec i 0) as [->|Hi].
  - destruct (Z.eqb_spec t 0) as [E|]; [|done]. cbn [negb] in H.
    apply IH in H as [-> H]. rewrite E in *. split; [done|]. split; [done|exact H].
  - destruct (Z.leb_spec t last); [done|]. apply IH in H as [-> H]. split; [done|].
    destruct i; [done|]. done.
Qed.

Lemma increasing_last_le d ts cap : increasing d ts -> last_from d ts <= cap -> Forall (fun t => t <= cap) ts /\ d <= cap.
Proof.
  revert d. induction ts as [|t ts IH]; intros d Hi Hl; simpl in *; [by split|].
  destruct Hi as [Hlt Hi]. destruct (IH t Hi Hl) as [Hall Ht]. split; [by constructor|lia].
Qed.

Lemma parse_inv s sz v :
  parse s sz = Ok v ->
  bv_in v = s /\ bv_sampleSize v = sz /\ bv_tBase v = getU32 (subspan 0 4 s) /\
  bv_n v = Z.to_nat (getU8 (subspan 4 1 s)) /\
  (bv_n v <= limits.bundle_max_samples)%nat /\
  (kStreamBundleHeaderBytes + kStreamBundleTOffBytes * bv_n v + bv_n v * sz <= length s)%nat /\
  exists r, toff_walk s (seq 0 (bv_n v)) 0 = Ok r /\
    ((0 < bv_n v)%nat -> r <= limits.bundle_max_span_ms * 1000).
Proof.
  unfold parse. intros H.
  destruct (Nat.ltb_spec (length s) kStreamBundleHeaderBytes); [done|]. cbv zeta in H.
  destruct (Nat.ltb_spec limits.bundle_max_samples (Z.to_nat (getU8 (subspan 4 1 s)))); [done|].
  case_match; [done|].
  destruct (toff_walk _ _ _) as [r|] eqn:Hw; [|done]. cbn [rbind] in H.
  destruct (_ && _) eqn:Hcap; [done|].
  destruct (Nat.ltb_spec (length s) (kStreamBundleHeaderBytes + kStreamBundleTOffBytes * Z.to_nat (getU8 (subspan 4 1 s))
    + Z.to_nat (getU8 (subspan 4 1 s)) * sz)); [done|].
  injection H as <-. cbn [bv_in bv_n bv_tBase bv_sampleSize]. split_and!; try done.
  exists r. split; [done|]. intros Hn. apply andb_false_iff in Hcap as [Hc|Hc]; lia.
Qed.

(** * Properties *)

(** What a stream publisher appends is what the subscriber reads: for any
    non-empty list of at most 32 equally sized samples whose offsets start at 0,
    strictly increase and stay within the span cap, and any buffer large enough,
    every [addSample] succeeds, and parsing the [finalize] bytes of the buffer
    yields exactly these samples, in order, at time [t_base + t_off] modulo
    2^32. *)
Theorem bundle_roundtrip (out : bytes) (tBase : Z) (sz : nat) (ss : list (Z * bytes)) :
  is_u32 tBase -> ss <> [] -> (length ss <= limits.bundle_max_samples)%nat ->
  offsets_ok (ss.*1) -> Forall (fun p => is_u16 p.1 /\ length p.2 = sz) ss ->
  (kStreamBundleHeaderBytes + length ss * (2 + sz) <= length out)%nat ->
  exists w v, addAll ss (bundleWriter out tBase sz) = (true, w) /\
    parse (take (finalize w) (bw_out w)) sz = Ok v /\
    bv_n v = length ss /\ bv_tBase v = tBase /\
    forall i t smp, ss !! i = Some (t, smp) ->
      sampleTimeUs v i = u32 (tBase + t) /\ sample v i = smp.
Proof.
  intros Htb Hne Hcap Hok Hall Hfit.
  destruct (addAll_holds [] ss (bundleWriter out tBase sz) sz) as (w & E & Hw & Htb' & Hsz'); try done.
  { apply bundleWriter_holds. lia. }
  { unfold bundleWriter. by case_ifs. }
  { by rewrite length_bundleWriter. }
  assert (bw_tBase (bundleWriter out tBase sz) = tBase) as Htb0 by (unfold bundleWriter; by case_ifs).
  rewrite Htb0 in Htb'. clear Htb0. destruct Hw as (Hv & Hn & _ & _ & _ & Hszs & _ & x & rest & Hx & Hout).
  rewrite Hsz' in Hszs. cbn [app] in Hn, Hx, Hszs. rewrite app_nil_l in Hout.
  rewrite Hx in Hout by (destruct ss; [done|simpl; lia]). rewrite Htb' in Hout.
  assert (take (finalize w) (bw_out w) = image tBase ss []) as Htake.
  { unfold finalize. rewrite Hv, Hn, Hsz', Hout. unfold image. rewrite app_nil_r. cbn [negb].
    rewrite !app_assoc. apply take_app_length'.
    rewrite !length_app, length_toffs_bytes, (length_samples_bytes sz) by done. simpl length.
    unfold kStreamBundleHeaderBytes, kStreamBundleTOffBytes. lia. }
  assert (Forall (fun p => is_u16 p.1) ss) as Hu by (eapply Forall_impl; [exact Hall|naive_solver]).
  exists w, (mkView (image tBase ss []) tBase (length ss) sz).
  split_and!; [done|rewrite Htake; by apply parse_image|done|done|].
  intros i t smp Hi. unfold sampleTimeUs, tOff, sample, kStreamBundleHeaderBytes, kStreamBundleTOffBytes.
  cbn [bv_in bv_tBase bv_n bv_sampleSize]. split.
  - rewrite (image_toff _ _ _ _ _ Hi), <- (app_nil_r (le16 _)), getU16_le16.
    rewrite u16_id by (by eapply Forall_lookup_1 in Hu). done.
  - by rewrite (image_sample _ _ _ _ _ _ Hi Hszs).
Qed.

Lemma bundle_roundtrip_witness :
  exists w v, addAll [(0, [1; 2]); (500, [3; 4])] (bundleWriter (replicate 20 255) 4294967000 2) = (true, w) /\
    parse (take (finalize w) (bw_out w)) 2 = Ok v /\
    bv_n v = 2%nat /\ bv_tBase v = 4294967000 /\
    forall i t smp, [(0, [1; 2]); (500, [3; 4])] !! i = Some (t, smp) ->
      sampleTimeUs v i = u32 (4294967000 + t) /\ sample v i = smp.
Proof.
  apply (bundle_roundtrip (replicate 20 255) 4294967000 2 [(0, [1; 2]); (500, [3; 4])]);
    try done; unfold limits.bundle_max_samples, kStreamBundleHeaderBytes; simpl;
    unfold is_u16, limits.bundle_max_span_ms; repeat constructor; simpl; lia.
Defined.

(** A bundle from a hostile peer is safe to use once it parsed: at most 32
    samples; the first offset is 0, offsets strictly increase and none exceeds
    the span cap; and every sample the view hands out is a full [sampleSize]
    bytes inside the input, disjoint from the offset table. *)
Theorem bundle_parse_sound (s : bytes) (sz : nat) (v : BundleView) :
  parse s sz = Ok v ->
  (bv_n v <= limits.bundle_max_samples)%nat /\
  offsets_ok (tOff v <$> seq 0 (bv_n v)) /\
  (forall i, (i < bv_n v)%nat -> length (sample v i) = sz /\
     sample v i = subspan (6 + 2 * bv_n v + i * sz) sz s /\ (6 + 2 * bv_n v + i * sz + sz <= length s)%nat).
Proof.
  intros H. apply parse_inv in H as (Hin & Hsz & _ & _ & Hn & Hlen & r & Hw & Hcap).
  unfold kStreamBundleHeaderBytes, kStreamBundleTOffBytes in Hlen.
  split_and!; [done| |].
  - assert (tOff v <$> seq 0 (bv_n v) = (fun j => getU16 (subspan (kStreamBundleHeaderBytes + kStreamBundleTOffBytes * j) 2 s)) <$> seq 0 (bv_n v)) as ->
      by (unfold tOff; by rewrite Hin).
    apply toff_walk_sound in Hw as [-> Hw]. cbv zeta in Hw.
    destruct (bv_n v) as [|n] eqn:En; [done|].
    cbn [seq fmap list_fmap offsets_ok last_from] in *. destruct Hw as [Ht Hinc].
    rewrite Ht in Hcap. split_and!; [done|done|].
    eapply increasing_last_le; [exact Hinc|]. apply Hcap. lia.
  - intros i Hi. unfold sample, kStreamBundleHeaderBytes, kStreamBundleTOffBytes. rewrite Hin, Hsz.
    assert (6 + 2 * bv_n v + i * sz + sz <= length s)%nat by nia.
    split_and!; [|done|done]. apply length_subspan. lia.
Qed.

Lemma bundle_parse_sound_witness :
  exists v, parse [1; 0; 0; 0; 2; 0; 0; 0; 44; 1; 7; 8] 1 = Ok v /\
  (bv_n v <= limits.bundle_max_samples)%nat /\ offsets_ok (tOff v <$> seq 0 (bv_n v)).
Proof.
  eexists. split; [vm_compute; reflexivity|].
  match goal with |- (bv_n ?v <= _)%nat /\ _ =>
    pose proof (bundle_parse_sound [1; 0; 0; 0; 2; 0; 0; 0; 44; 1; 7; 8] 1 v ltac:(vm_compute; reflexivity)) as (H1 & H2 & _) end.
  split; assumption.
Defined.

(** A writer that accepted no sample reports the 6 header bytes although it
    never wrote the sample count: what the count byte held before stays on
    the wire, and the receiver rejects the bundle (or misreads it). *)
Lemma empty_bundle_stale_count :
  let w := bundleWriter (replicate 6 255) 7 4 in
  finalize w = 6%nat /\ parse (take (finalize w) (bw_out w)) 4 = Err Malformed.
Proof. by vm_compute. Qed.
