(* ===== verification/Blob.v ===== *)
(** * Blob: namespaced blob transfer

    wire/blob_chunks.hpp and the blob identity of wire/messages/blob_req.hpp:
    the 14-byte chunk header, the chunking of a blob, and the receiver's
    fixed-capacity reassembler. *)

From stdpp Require Import sets.
From S2P Require Import Prelude Registry ByteIO Serial.
Local Open Scope Z_scope.

(** ** Identity *)

Record BlobId := mkBlobId {
  ns : Z; has_store_id : bool; store_id : Z; has_slot : bool; slot : Z;
  has_generation : bool; generation : Z }.

Definition isCatalog (b : BlobId) : bool := ns b =? blob_ns.catalog.

Definition sameTarget (b o : BlobId) : bool :=
  (ns b =? ns o) && (store_id b =? store_id o) && (slot b =? slot o).

Definition noBlobId : BlobId := mkBlobId blob_ns.catalog false 0 false 0 false 0.

(** ** The chunk header *)

Definition kBlobChunkHeaderBytes : nat := 14.

Record BlobChunkHeader := mkChunkHeader {
  hdr_id : BlobId; chunk_index : Z; chunk_count : Z; total_bytes : Z }.

Definition chunkCount (totalBytes : nat) : nat :=
  if (totalBytes =? 0)%nat then 0%nat
  else ((totalBytes + limits.catalog_chunk_payload - 1) / limits.catalog_chunk_payload)%nat.

Definition putBlobChunkHeader (out : bytes) (h : BlobChunkHeader) : nat * bytes :=
  if (length out <? kBlobChunkHeaderBytes)%nat then (0%nat, out)
  else
    let out := (on_subn 0 1 (fun s => putU8 s (ns (hdr_id h))) out).2 in
    let out := (on_subn 1 1 (fun s => putU8 s (store_id (hdr_id h))) out).2 in
    let out := (on_subn 2 1 (fun s => putU8 s (slot (hdr_id h))) out).2 in
    let out := (on_subn 3 1 (fun s => putU8 s 0) out).2 in
    let out := (on_subn 4 2 (fun s => putU16 s (generation (hdr_id h))) out).2 in
    let out := (on_subn 6 2 (fun s => putU16 s (chunk_index h)) out).2 in
    let out := (on_subn 8 2 (fun s => putU16 s (chunk_count h)) out).2 in
    let out := (on_subn 10 4 (fun s => putU32 s (total_bytes h)) out).2 in
    (kBlobChunkHeaderBytes, out).

Definition getBlobChunkHeader (s : bytes) : option BlobChunkHeader :=
  if (length s <? kBlobChunkHeaderBytes)%nat then None
  else
    let n := getU8 (subspan 0 1 s) in
    let catalog := n =? blob_ns.catalog in
    let gen := getU16 (subspan 4 2 s) in
    Some (mkChunkHeader
      (mkBlobId n (negb catalog) (getU8 (subspan 1 1 s)) (negb catalog) (getU8 (subspan 2 1 s))
         (negb (gen =? 0)) gen)
      (getU16 (subspan 6 2 s)) (getU16 (subspan 8 2 s)) (getU32 (subspan 10 4 s))).

Definition fillBlobChunk (i : BlobId) (encoded : bytes) (index : Z) (out : bytes) : nat * bytes :=
  let cc := chunkCount (length encoded) in
  if (cc =? 0)%nat || (Z.of_nat cc <=? index) then (0%nat, out)
  else
    let offset := (Z.to_nat index * limits.catalog_chunk_payload)%nat in
    let payloadLen := (length encoded - offset)%nat in
    let payloadLen := if (limits.catalog_chunk_payload <? payloadLen)%nat
                      then limits.catalog_chunk_payload else payloadLen in
    let total := (kBlobChunkHeaderBytes + payloadLen)%nat in
    if (length out <? total)%nat then (0%nat, out)
    else
      let h := mkChunkHeader i index (u16 (Z.of_nat cc)) (u32 (Z.of_nat (length encoded))) in
      let out := (putBlobChunkHeader out h).2 in
      (total, write_at kBlobChunkHeaderBytes (subspan offset payloadLen encoded) out).

(** ** ChunkReassembler<MaxChunks> *)

Record ChunkReassembler := mkReassembler {
  cr_buf : bytes; cr_received : list bool; cr_id : BlobId; cr_chunkCount : Z;
  cr_receivedCount : Z; cr_totalBytes : nat; cr_startMs : Z; cr_lastProgressMs : Z;
  cr_active : bool }.

Section ChunkReassembler.
Variable MaxChunks : nat.

Definition kMaxTotalBytes : nat := (MaxChunks * limits.catalog_chunk_payload)%nat.

Definition newReassembler : ChunkReassembler :=
  mkReassembler (replicate kMaxTotalBytes 0) (replicate MaxChunks false) noBlobId 0 0 0 0 0 false.

Definition begin (i : BlobId) (chunkCount : Z) (totalBytes : nat) (nowMs : Z)
    (r : ChunkReassembler) : ChunkReassembler :=
  let active := (0 <? chunkCount) && (chunkCount <=? Z.of_nat MaxChunks) && (totalBytes <=? kMaxTotalBytes)%nat in
  mkReassembler (cr_buf r) (replicate MaxChunks false) i
    (if active then chunkCount else 0) 0 (if active then totalBytes else 0%nat) nowMs nowMs active.

Definition beginFrom (h : BlobChunkHeader) (nowMs : Z) (r : ChunkReassembler) : ChunkReassembler :=
  begin (hdr_id h) (chunk_count h) (Z.to_nat (total_bytes h)) nowMs r.

Definition insertChunk (chunkPayload : bytes) (nowMs : Z) (r : ChunkReassembler) : bool * ChunkReassembler :=
  if negb (cr_active r) then (false, r)
  else match getBlobChunkHeader chunkPayload with
  | None => (false, r)
  | Some h =>
      if negb (sameTarget (hdr_id h) (cr_id r)) then (false, r)
      else if negb (chunk_count h =? cr_chunkCount r) || (cr_chunkCount r <=? chunk_index h) then (false, r)
      else
        let payloadLen := (length chunkPayload - kBlobChunkHeaderBytes)%nat in
        let index := Z.to_nat (chunk_index h) in
        let offset := (index * limits.catalog_chunk_payload)%nat in
        if (length (cr_buf r) <? offset + payloadLen)%nat then (false, r)
        else
          let buf := write_at offset (drop kBlobChunkHeaderBytes chunkPayload) (cr_buf r) in
          let isNew := negb (nth index (cr_received r) false) in
          let received := if isNew then <[index := true]> (cr_received r) else cr_received r in
          let count := if isNew then u32 (cr_receivedCount r + 1) else cr_receivedCount r in
          (true, mkReassembler buf received (cr_id r) (cr_chunkCount r) count (cr_totalBytes r)
                   (cr_startMs r) nowMs true)
  end.

Definition complete (r : ChunkReassembler) : bool :=
  cr_active r && (cr_receivedCount r =? cr_chunkCount r).

(** The loop of missingIndices: [n] slots of [out] are filled. *)
Fixpoint missing_loop (received : list bool) (idxs : list nat) (n : nat) (out : list Z) : nat * list Z :=
  match idxs with
  | [] => (n, out)
  | i :: idxs =>
      if (n <? length out)%nat then
        if nth i received false then missing_loop received idxs n out
        else missing_loop received idxs (n + 1) (<[n := Z.of_nat i]> out)
      else (n, out)
  end.

Definition missingIndices (r : ChunkReassembler) (out : list Z) : nat * list Z :=
  if negb (cr_active r) then (0%nat, out)
  else missing_loop (cr_received r) (seq 0 (Nat.min (Z.to_nat (cr_chunkCount r)) MaxChunks)) 0 out.

Definition timedOut (nowMs : Z) (r : ChunkReassembler) : bool :=
  cr_active r && timeReached nowMs (u32 (cr_startMs r + limits.frag_reassembly_timeout_ms)).

Definition gapElapsed (nowMs : Z) (r : ChunkReassembler) : bool :=
  cr_active r && negb (complete r) &&
  timeReached nowMs (u32 (cr_lastProgressMs r + limits.catalog_chunk_gap_timeout_ms)).

Definition assembled (r : ChunkReassembler) : bytes :=
  if negb (cr_active r) || (length (cr_buf r) <? cr_totalBytes r)%nat then []
  else take (cr_totalBytes r) (cr_buf r).

End ChunkReassembler.

(** * Theorems *)

(** ** The header on the wire *)

Definition chunk_header_bytes (h : BlobChunkHeader) : bytes :=
  [u8 (ns (hdr_id h)); u8 (store_id (hdr_id h)); u8 (slot (hdr_id h)); 0] ++ le16 (generation (hdr_id h)) ++
  le16 (chunk_index h) ++ le16 (chunk_count h) ++ le32 (total_bytes h).

Lemma putBlobChunkHeader_spec out h :
  (kBlobChunkHeaderBytes <= length out)%nat ->
  putBlobChunkHeader out h = (kBlobChunkHeaderBytes, chunk_header_bytes h ++ drop kBlobChunkHeaderBytes out).
Proof.
  intros Hl. unfold kBlobChunkHeaderBytes in *.
  do 14 (destruct out as [|? out]; [simpl in Hl; lia|]). clear Hl.
  unfold putBlobChunkHeader, chunk_header_bytes, on_subn, subspan, write_at.
  simpl. by rewrite Z.shiftr_0_r.
Qed.

(** The identity a receiver reconstructs: presence flags follow the namespace. *)
Definition normalId (i : BlobId) : BlobId :=
  mkBlobId (ns i) (negb (isCatalog i)) (store_id i) (negb (isCatalog i)) (slot i)
    (negb (generation i =? 0)) (generation i).

Definition wf_id (i : BlobId) : Prop :=
  is_u8 (ns i) /\ is_u8 (store_id i) /\ is_u8 (slot i) /\ is_u16 (generation i).

Lemma getBlobChunkHeader_bytes i ci cc tb rest :
  wf_id i -> is_u16 ci -> is_u16 cc -> is_u32 tb ->
  getBlobChunkHeader (chunk_header_bytes (mkChunkHeader i ci cc tb) ++ rest) =
  Some (mkChunkHeader (normalId i) ci cc tb).
Proof.
  intros (Hn & Hs & Ht & Hg) Hci Hcc Htb.
  set (s := chunk_header_bytes _ ++ rest).
  assert (subspan 4 2 s = le16 (generation i) ++ []) as E4 by reflexivity.
  assert (subspan 6 2 s = le16 ci ++ []) as E6 by reflexivity.
  assert (subspan 8 2 s = le16 cc ++ []) as E8 by reflexivity.
  assert (subspan 10 4 s = le32 tb ++ []) as E10 by reflexivity.
  assert (getU8 (subspan 0 1 s) = ns i) as E0 by (apply u8_id; done).
  assert (getU8 (subspan 1 1 s) = store_id i) as E1 by (apply u8_id; done).
  assert (getU8 (subspan 2 1 s) = slot i) as E2 by (apply u8_id; done).
  unfold getBlobChunkHeader. rewrite E0, E1, E2, E4, E6, E8, E10, !getU16_le16, getU32_le32.
  by rewrite !u16_id, u32_id by done.
Qed.

Lemma sameTarget_refl_normal i j : sameTarget (normalId i) j = sameTarget i j.
Proof. done. Qed.

(** ** One chunk of a blob *)

Definition chunk (enc : bytes) (i : nat) : bytes :=
  subspan (i * limits.catalog_chunk_payload) limits.catalog_chunk_payload enc.

Definition chunk_wire (i : BlobId) (enc : bytes) (k : nat) : bytes :=
  chunk_header_bytes (mkChunkHeader i (Z.of_nat k) (Z.of_nat (chunkCount (length enc))) (Z.of_nat (length enc)))
  ++ chunk enc k.

Lemma chunkCount_bounds n :
  (n <= chunkCount n * 192)%nat /\ (0 < n -> 0 < chunkCount n /\ (chunkCount n - 1) * 192 < n)%nat.
Proof.
  unfold chunkCount, limits.catalog_chunk_payload. destruct (Nat.eqb_spec n 0) as [->|Hn]; [lia|].
  pose proof (Nat.div_mod_eq (n + 192 - 1) 192). pose proof (Nat.mod_upper_bound (n + 192 - 1) 192).
  lia.
Qed.

Lemma length_chunk enc k : length (chunk enc k) = Nat.min 192 (length enc - k * 192).
Proof. unfold chunk, subspan, limits.catalog_chunk_payload. rewrite length_take, length_drop. done. Qed.

Lemma fillBlobChunk_spec i enc k out :
  (k < chunkCount (length enc))%nat -> Z.of_nat (chunkCount (length enc)) <= 65535 ->
  (kBlobChunkHeaderBytes + limits.catalog_chunk_payload <= length out)%nat ->
  let '(n, out') := fillBlobChunk i enc (Z.of_nat k) out in
  n = (14 + length (chunk enc k))%nat /\ take n out' = chunk_wire i enc k.
Proof.
  intros Hk Hc Ho. unfold kBlobChunkHeaderBytes, limits.catalog_chunk_payload in Ho.
  destruct (chunkCount_bounds (length enc)) as [Hub Hlb].
  assert (Z.of_nat (length enc) < 4294967296) by lia.
  assert (length enc > 0)%nat as Hpos.
  { unfold chunkCount in Hk. destruct (Nat.eqb_spec (length enc) 0); lia. }
  unfold fillBlobChunk, limits.catalog_chunk_payload.
  destruct (Nat.eqb_spec (chunkCount (length enc)) 0); [lia|].
  destruct (Z.leb_spec (Z.of_nat (chunkCount (length enc))) (Z.of_nat k)); [lia|]. cbn [orb].
  rewrite Nat2Z.id.
  set (pl := if (192 <? length enc - k * 192)%nat then 192%nat else (length enc - k * 192)%nat).
  assert (pl = length (chunk enc k)) as Hpl.
  { rewrite length_chunk. subst pl. destruct (Nat.ltb_spec 192 (length enc - k * 192)); lia. }
  assert (subspan (k * 192) pl enc = chunk enc k) as Hsub.
  { rewrite Hpl, length_chunk. unfold chunk, subspan, limits.catalog_chunk_payload.
    destruct (decide (192 <= length enc - k * 192)%nat).
    - by rewrite Nat.min_l by done.
    - rewrite !take_ge by (rewrite length_drop; lia). done. }
  rewrite Hsub, Hpl. unfold kBlobChunkHeaderBytes.
  destruct (Nat.ltb_spec (length out) (14 + length (chunk enc k))); [rewrite length_chunk in *; lia|].
  split; [done|].
  rewrite putBlobChunkHeader_spec by (unfold kBlobChunkHeaderBytes; lia). cbn [snd].
  rewrite u16_id by (unfold is_u16; lia). rewrite u32_id by (unfold is_u32; lia).
  assert (forall l, write_at 14 (chunk enc k) (chunk_header_bytes l ++ drop kBlobChunkHeaderBytes out) =
    chunk_header_bytes l ++ chunk enc k ++ drop (14 + length (chunk enc k)) out) as ->.
  { intros l. unfold write_at. rewrite take_app_length' by done. do 2 f_equal.
    rewrite drop_app_ge by (simpl; lia). rewrite drop_drop. unfold kBlobChunkHeaderBytes. f_equal. simpl. lia. }
  unfold chunk_wire. rewrite app_assoc. apply take_app_length'. rewrite length_app. simpl. lia.
Qed.

(** ** The reassembler *)

Definition count_true (l : list bool) : nat := length (filter Is_true l).
Arguments count_true : simpl never.

Lemma count_true_cons b l : count_true (b :: l) = ((if b then 1 else 0) + count_true l)%nat.
Proof. unfold count_true. rewrite filter_cons. by destruct b. Qed.

Lemma count_true_app l k : count_true (l ++ k) = (count_true l + count_true k)%nat.
Proof. unfold count_true. by rewrite filter_app, length_app. Qed.

Lemma count_true_insert l i :
  l !! i = Some false -> count_true (<[i := true]> l) = S (count_true l).
Proof.
  revert i. induction l as [|b l IH]; intros [|i] H; [done|done| |]; cbn in H.
  - injection H as ->. simpl. by rewrite !count_true_cons.
  - change (<[S i := true]> (b :: l)) with (b :: <[i := true]> l). rewrite !count_true_cons, IH by done. lia.
Qed.

Lemma count_true_le l : (count_true l <= length l)%nat.
Proof. apply length_filter. Qed.

Lemma count_true_false n : count_true (replicate n false) = 0%nat.
Proof. by induction n. Qed.

Lemma count_true_full l : count_true l = length l <-> Forall (eq true) l.
Proof.
  induction l as [|b l IH]; [done|]. rewrite count_true_cons, Forall_cons, <- IH.
  pose proof (count_true_le l). destruct b; simpl; [|intuition (done || lia)]. intuition (done || lia).
Qed.

(** Marks only below [n]: the count reaches [n] exactly when all are marked. *)
Lemma count_true_below l n :
  (n <= length l)%nat -> Forall (eq false) (drop n l) ->
  count_true l = n <-> forall i, (i < n)%nat -> l !! i = Some true.
Proof.
  intros Hn Hd.
  assert (count_true l = count_true (take n l)) as ->.
  { rewrite <- (take_drop n l) at 1. rewrite count_true_app.
    assert (count_true (drop n l) = 0%nat); [|lia].
    clear -Hd. induction Hd as [|? ? <- _ IH]; [done|]. by rewrite count_true_cons, IH. }
  assert (n = length (take n l)) as E by (rewrite length_take; lia).
  rewrite E at 2. rewrite count_true_full, Forall_lookup. split.
  - intros H i Hi. destruct (lookup_lt_is_Some_2 l i) as [b Hb]; [lia|].
    rewrite Hb. f_equal. symmetry. apply (H i). rewrite lookup_take_lt; done.
  - intros H i b Hb. apply lookup_take_Some in Hb as [Hb Hi]. rewrite H in Hb by done. congruence.
Qed.

Section Theorems.
Variable MaxChunks : nat.
Hypothesis HMax : Z.of_nat MaxChunks <= 65535.

(** What holds of every reassembler, whatever bytes arrive. *)
Record wf (r : ChunkReassembler) : Prop := {
  wf_buf : length (cr_buf r) = kMaxTotalBytes MaxChunks;
  wf_len : length (cr_received r) = MaxChunks;
  wf_cc : 0 <= cr_chunkCount r <= Z.of_nat MaxChunks;
  wf_total : (cr_totalBytes r <= kMaxTotalBytes MaxChunks)%nat;
  wf_marks : Forall (eq false) (drop (Z.to_nat (cr_chunkCount r)) (cr_received r));
  wf_count : cr_receivedCount r = Z.of_nat (count_true (cr_received r));
  wf_off : cr_active r = false -> cr_chunkCount r = 0 /\ cr_totalBytes r = 0%nat;
  wf_on : cr_active r = true -> 0 < cr_chunkCount r }.

Lemma newReassembler_wf : wf (newReassembler MaxChunks).
Proof.
  unfold newReassembler, kMaxTotalBytes. split; cbn; try done; try lia.
  - apply length_replicate.
  - apply length_replicate.
  - rewrite drop_0. by apply Forall_replicate.
  - by rewrite count_true_false.
Qed.

Lemma begin_wf i cc tb now r : wf r -> wf (begin MaxChunks i cc tb now r).
Proof.
  intros H. unfold begin. set (a := (_ && _ && _)%bool).
  assert (a = true -> 0 < cc <= Z.of_nat MaxChunks /\ (tb <= kMaxTotalBytes MaxChunks)%nat) as Ha.
  { unfold a. rewrite !andb_true_iff. intros [[? ?] ?]. lia. }
  clearbody a. destruct a; [specialize (Ha eq_refl)|]; split; cbn; try done; try lia;
    try (apply H); try apply length_replicate; rewrite ?drop_replicate; try (by apply Forall_replicate);
    by rewrite count_true_false.
Qed.

(** Every accepted chunk, spelled out. *)
Lemma insertChunk_inv p now r r' :
  insertChunk p now r = (true, r') -> 
  exists h, getBlobChunkHeader p = Some h /\ cr_active r = true /\ sameTarget (hdr_id h) (cr_id r) = true /\
    chunk_count h = cr_chunkCount r /\ chunk_index h < cr_chunkCount r /\
    (Z.to_nat (chunk_index h) * 192 + length (drop 14 p) <= length (cr_buf r))%nat /\
    let k := Z.to_nat (chunk_index h) in
    let isNew := negb (nth k (cr_received r) false) in
    r' = mkReassembler (write_at (k * 192) (drop 14 p) (cr_buf r))
           (if isNew then <[k := true]> (cr_received r) else cr_received r) (cr_id r) (cr_chunkCount r)
           (if isNew then u32 (cr_receivedCount r + 1) else cr_receivedCount r)
           (cr_totalBytes r) (cr_startMs r) now true.
Proof.
  unfold insertChunk. destruct (cr_active r) eqn:Ha; [|done]. cbn [negb].
  destruct (getBlobChunkHeader p) as [h|] eqn:Hh; [|done].
  destruct (sameTarget _ _) eqn:Hs; [|done]. cbn [negb].
  destruct (Z.eqb_spec (chunk_count h) (cr_chunkCount r)) as [Hc|]; [|done]. cbn [negb orb].
  destruct (Z.leb_spec (cr_chunkCount r) (chunk_index h)) as [|Hi]; [done|].
  unfold limits.catalog_chunk_payload, kBlobChunkHeaderBytes.
  destruct (Nat.ltb_spec (length (cr_buf r)) (Z.to_nat (chunk_index h) * 192 + (length p - 14))); [done|].
  intros [= <-]. exists h. rewrite length_drop. split_and!; done.
Qed.

Lemma insertChunk_refused p now r r' : insertChunk p now r = (false, r') -> r' = r.
Proof. unfold insertChunk. intros H. repeat case_match; congruence. Qed.

(** Marking one chunk, the effect on the bitmap and its counter. *)
Definition mark (k : nat) (l : list bool) : list bool :=
  if negb (nth k l false) then <[k := true]> l else l.

Lemma mark_insert k l : (k < length l)%nat -> mark k l = <[k := true]> l.
Proof.
  intros Hk. unfold mark. destruct (lookup_lt_is_Some_2 l k Hk) as [b Hb].
  rewrite (nth_lookup_Some _ _ _ _ Hb). destruct b; [|done]. symmetry. by apply list_insert_id.
Qed.

Lemma mark_count k l :
  (k < length l)%nat ->
  count_true (mark k l) = ((if negb (nth k l false) then 1 else 0) + count_true l)%nat.
Proof.
  intros Hk. unfold mark. destruct (lookup_lt_is_Some_2 l k Hk) as [b Hb].
  rewrite (nth_lookup_Some _ _ _ _ Hb). destruct b; cbn; [done|]. by rewrite count_true_insert.
Qed.

Lemma getU16_nonneg s : is_bytes s -> 0 <= getU16 s.
Proof. intros H. apply getU16_range in H. apply H. Qed.

Lemma header_index_nonneg p h : is_bytes p -> getBlobChunkHeader p = Some h -> 0 <= chunk_index h.
Proof.
  unfold getBlobChunkHeader. intros Hp H. case_match; [done|]. injection H as <-. cbn.
  apply getU16_nonneg. auto with bytes.
Qed.

Lemma insertChunk_wf_accepted p now r r' h :
  getBlobChunkHeader p = Some h -> 0 <= chunk_index h -> wf r -> insertChunk p now r = (true, r') -> wf r'.
Proof.
  intros Hp Hi0 H E. apply insertChunk_inv in E as (h' & Hh & Ha & _ & Hc & Hi & Hfit & ->).
  rewrite Hp in Hh. injection Hh as <-. destruct H as [Hb Hl Hcc Ht Hm Hn Hoff Hon].
  set (k := Z.to_nat (chunk_index h)) in *.
  assert (k < length (cr_received r))%nat as Hk by lia.
  fold (mark k (cr_received r)). pose proof (mark_count k _ Hk) as Hmc.
  split; cbn; try done.
  - by rewrite length_write_at.
  - rewrite mark_insert by done. by rewrite length_insert.
  - rewrite mark_insert by done. by rewrite drop_insert_lt by lia.
  - pose proof (count_true_le (mark k (cr_received r))) as Hle.
    rewrite mark_insert, length_insert, <- mark_insert in Hle by done. rewrite Hmc in *. rewrite Hn.
    destruct (negb _); [|lia]. rewrite u32_id; [lia|]. unfold is_u32. lia.
  - intros _. apply Hon, Ha.
Qed.

Lemma insertChunk_wf p now r : is_bytes p -> wf r -> wf (insertChunk p now r).2.
Proof.
  intros Hp H. destruct (insertChunk p now r) as [[] r'] eqn:E; cbn.
  2:{ by apply insertChunk_refused in E as ->. }
  destruct (insertChunk_inv p now r r' E) as (h & Hh & _).
  eauto using insertChunk_wf_accepted, header_index_nonneg.
Qed.

(** ** A transfer between the two ends *)

(** The raw payload the sender puts on the wire for chunk [k]. *)
Definition sendChunk (i : BlobId) (enc : bytes) (k : nat) : bytes :=
  let '(n, out) := fillBlobChunk i enc (Z.of_nat k)
    (replicate (kBlobChunkHeaderBytes + limits.catalog_chunk_payload) 0) in take n out.

Definition deliver (i : BlobId) (enc : bytes) (ks : list (nat * Z)) (r : ChunkReassembler) : ChunkReassembler :=
  foldl (fun r '(k, now) => (insertChunk (sendChunk i enc k) now r).2) r ks.

(** The reassembler of a transfer of [enc] in which the chunks [seen] arrived. *)
Record carries (i : BlobId) (enc : bytes) (seen : list nat) (r : ChunkReassembler) : Prop := {
  c_wf : wf r;
  c_active : cr_active r = true;
  c_id : cr_id r = i;
  c_cc : cr_chunkCount r = Z.of_nat (chunkCount (length enc));
  c_total : cr_totalBytes r = length enc;
  c_seen : forall k, (k < MaxChunks)%nat -> cr_received r !! k = Some (bool_decide (k ∈ seen));
  c_bytes : forall p, (p < length enc)%nat -> (p / 192)%nat ∈ seen -> cr_buf r !! p = enc !! p }.

Section transfer.
Variables (i : BlobId) (enc : bytes).
Hypotheses (Hi : wf_id i) (Hne : enc <> []) (Hfits : (chunkCount (length enc) <= MaxChunks)%nat).
Let cc := chunkCount (length enc).

Lemma enc_fits : (0 < length enc <= kMaxTotalBytes MaxChunks)%nat /\ (0 < cc <= MaxChunks)%nat.
Proof.
  destruct (chunkCount_bounds (length enc)) as [Hub Hlb].
  assert (0 < length enc)%nat as Hpos by (destruct enc; [done|simpl; lia]).
  unfold kMaxTotalBytes, limits.catalog_chunk_payload, cc. lia.
Qed.

Lemma sendChunk_spec k : (k < cc)%nat -> sendChunk i enc k = chunk_wire i enc k.
Proof.
  intros Hk. unfold sendChunk.
  pose proof (fillBlobChunk_spec i enc k (replicate (kBlobChunkHeaderBytes + limits.catalog_chunk_payload) 0)
                Hk ltac:(lia) ltac:(rewrite length_replicate; lia)) as H.
  destruct (fillBlobChunk _ _ _ _) as [n out]. apply H.
Qed.

Lemma begin_carries t0 r : wf r -> carries i enc [] (begin MaxChunks i (Z.of_nat cc) (length enc) t0 r).
Proof.
  intros Hr. pose proof enc_fits as [Hl Hc].
  assert ((0 <? Z.of_nat cc) && (Z.of_nat cc <=? Z.of_nat MaxChunks) &&
          (length enc <=? kMaxTotalBytes MaxChunks)%nat = true) as Ha by lia.
  split; [by apply begin_wf|..]; unfold begin; rewrite Ha; cbn; try done.
  - intros k Hk. by apply lookup_replicate_2.
  - set_solver.
Qed.

Lemma chunk_wire_header k :
  (k < cc)%nat ->
  getBlobChunkHeader (chunk_wire i enc k) =
  Some (mkChunkHeader (normalId i) (Z.of_nat k) (Z.of_nat cc) (Z.of_nat (length enc))).
Proof.
  intros Hk. pose proof (chunkCount_bounds (length enc)). pose proof enc_fits. fold cc in H.
  unfold chunk_wire. apply getBlobChunkHeader_bytes; [done| | |]; unfold is_u16, is_u32; fold cc; lia.
Qed.

Lemma carries_insert k now seen r :
  (k < cc)%nat -> carries i enc seen r ->
  exists r', insertChunk (sendChunk i enc k) now r = (true, r') /\ carries i enc (k :: seen) r' /\
    cr_lastProgressMs r' = now.
Proof.
  intros Hk H. pose proof enc_fits as [Hl Hc]. rewrite sendChunk_spec by done.
  destruct (H) as [Hwf Ha Hid Hcc Ht Hs Hb]. destruct Hwf as [Hbuf Hlen Hccr Htot Hm Hn Hoff Hon].
  assert (drop 14 (chunk_wire i enc k) = chunk enc k) as Hd by done.
  assert (length (chunk_wire i enc k) = 14 + length (chunk enc k))%nat as Hlw by done.
  pose proof (length_chunk enc k) as Hlc.
  destruct (insertChunk (chunk_wire i enc k) now r) as [ok r'] eqn:E.
  pose proof E as E'. unfold insertChunk in E'.
  rewrite Ha, chunk_wire_header in E' by done. cbn [negb chunk_count chunk_index hdr_id] in E'.
  rewrite sameTarget_refl_normal, Hid in E'.
  assert (sameTarget i i = true) as Hst by (unfold sameTarget; lia). rewrite Hst, Hcc in E'. fold cc in E'.
  rewrite Z.eqb_refl in E'. cbn [negb orb] in E'.
  destruct (Z.leb_spec (Z.of_nat cc) (Z.of_nat k)); [lia|].
  rewrite Nat2Z.id, Hlw, Hbuf in E'. unfold kMaxTotalBytes, limits.catalog_chunk_payload, kBlobChunkHeaderBytes in E'.
  destruct (Nat.ltb_spec (MaxChunks * 192) (k * 192 + (14 + length (chunk enc k) - 14))); [lia|].
  rewrite Hd in E'. cbv zeta in E'. injection E' as <- <-.
  eexists. split; [done|]. split; [|done].
  pose proof (insertChunk_wf_accepted _ now r _ _ (chunk_wire_header k Hk) (Nat2Z.is_nonneg k) (c_wf _ _ _ _ H) E) as Hwf'.
  fold (mark k (cr_received r)) in Hwf' |- *. rewrite mark_insert in Hwf' |- * by lia.
  split; cbn [cr_buf cr_received cr_id cr_chunkCount cr_receivedCount cr_totalBytes cr_active]; try done.
  - intros j Hj. destruct (decide (j = k)) as [->|Hjk].
    + rewrite list_lookup_insert_eq by lia. rewrite bool_decide_true by set_solver. done.
    + rewrite list_lookup_insert_ne by done. rewrite Hs by done. f_equal. apply bool_decide_ext. set_solver.
  - intros p Hp Hin. rewrite lookup_write_at by (rewrite Hbuf; unfold kMaxTotalBytes, limits.catalog_chunk_payload; lia).
    pose proof (Nat.div_mod_eq p 192). pose proof (Nat.mod_upper_bound p 192 ltac:(lia)).
    destruct (_ && _) eqn:Hin'.
    + unfold chunk, subspan, limits.catalog_chunk_payload. rewrite lookup_take_lt, lookup_drop by lia. f_equal. lia.
    + apply Hb; [done|]. apply elem_of_cons in Hin as [Heq|]; [|done]. exfalso. lia.
Qed.

Lemma carries_deliver ks seen r :
  Forall (fun k => (k < cc)%nat) ks.*1 -> carries i enc seen r ->
  carries i enc (reverse ks.*1 ++ seen) (deliver i enc ks r).
Proof.
  revert seen r. induction ks as [|[k now] ks IH]; intros seen r Hks Hr; [done|].
  cbn [fmap list_fmap fst] in *. apply Forall_cons in Hks as [Hk Hks].
  destruct (carries_insert k now seen r Hk Hr) as (r' & E & Hr' & _).
  unfold deliver. cbn [foldl]. rewrite E. rewrite reverse_cons, <- app_assoc. by apply IH.
Qed.

Lemma carries_complete seen r :
  carries i enc seen r -> complete r = true <-> forall k, (k < cc)%nat -> k ∈ seen.
Proof.
  intros [Hwf Ha Hid Hcc Ht Hs Hb]. pose proof enc_fits as [_ Hc]. fold cc in Hcc.
  destruct Hwf as [_ Hlen _ _ Hm Hn _ _].
  unfold complete. rewrite Ha, Hn, Hcc. cbn [andb]. rewrite Hcc, Nat2Z.id in Hm.
  rewrite Z.eqb_eq, Nat2Z.inj_iff, (count_true_below _ cc) by (done || lia).
  split; intros H k Hk.
  - specialize (H k Hk). rewrite Hs in H by lia. injection H as H. by apply bool_decide_eq_true in H.
  - rewrite Hs by lia. f_equal. apply bool_decide_eq_true. auto.
Qed.

Lemma carries_assembled seen r :
  carries i enc seen r -> complete r = true -> assembled r = enc.
Proof.
  intros H Hcomp. pose proof (proj1 (carries_complete seen r H) Hcomp) as Hall.
  destruct H as [[Hbuf _ _ Htot _ _ _ _] Ha _ _ Ht _ Hb]. pose proof enc_fits as [Hl Hc].
  unfold assembled. rewrite Ha, Ht, Hbuf. cbn [negb orb].
  destruct (Nat.ltb_spec (kMaxTotalBytes MaxChunks) (length enc)); [lia|].
  apply list_eq. intros p. destruct (decide (p < length enc)%nat) as [Hp|Hp].
  - rewrite lookup_take_lt by done. apply Hb; [done|]. apply Hall.
    destruct (chunkCount_bounds (length enc)) as [Hub _]. fold cc in Hub.
    apply Nat.Div0.div_lt_upper_bound. lia.
  - rewrite !lookup_ge_None_2; [done|lia|rewrite length_take; lia].
Qed.

(** ** The repair request *)

Lemma missing_loop_spec received idxs n out :
  (n <= length out)%nat ->
  let '(n', out') := missing_loop received idxs n out in
  let want := Z.of_nat <$> filter (fun k => nth k received false = false) idxs in
  take n' out' = take n out ++ take (length out - n) want /\ n' = (n + Nat.min (length out - n) (length want))%nat.
Proof.
  revert n out. induction idxs as [|k idxs IH]; intros n out Hn; cbn [missing_loop].
  { cbn. rewrite take_nil, app_nil_r, Nat.min_0_r, Nat.add_0_r. done. }
  destruct (Nat.ltb_spec n (length out)) as [Hlt|Hge].
  2:{ cbv zeta. replace (length out - n)%nat with 0%nat by lia. rewrite take_0, app_nil_r. split; [done|lia]. }
  rewrite filter_cons. destruct (nth k received false) eqn:Ek.
  - rewrite decide_False by done. by apply IH.
  - rewrite decide_True by done. specialize (IH (n + 1)%nat (<[n := Z.of_nat k]> out)).
    rewrite length_insert in IH. specialize (IH ltac:(lia)).
    destruct (missing_loop _ _ _ _) as [n' out']. destruct IH as [-> ->]. cbv zeta. cbn [fmap list_fmap length].
    replace (length out - n)%nat with (S (length out - (n + 1)))%nat by lia. cbn [take Nat.min]. split; [|lia].
    rewrite Nat.add_1_r, (take_S_r _ _ (Z.of_nat k)) by (by apply list_lookup_insert_eq).
    rewrite take_insert_ge by lia. by rewrite <- app_assoc.
Qed.

Lemma carries_missing seen r m :
  carries i enc seen r -> (cc <= m)%nat ->
  let '(n, out) := missingIndices MaxChunks r (replicate m 0) in
  take n out = Z.of_nat <$> filter (fun k => k ∉ seen) (seq 0 cc).
Proof.
  intros [Hwf Ha Hid Hcc Ht Hs Hb] Hm. pose proof enc_fits as [_ Hc]. fold cc in Hcc.
  unfold missingIndices. rewrite Ha, Hcc, Nat2Z.id, Nat.min_l by lia. cbn [negb].
  pose proof (missing_loop_spec (cr_received r) (seq 0 cc) 0 (replicate m 0) ltac:(lia)) as H.
  destruct (missing_loop _ _ _ _) as [n out]. destruct H as [-> _]. cbv zeta.
  rewrite take_0, app_nil_l, length_replicate, Nat.sub_0_r.
  assert (filter (fun k => nth k (cr_received r) false = false) (seq 0 cc) = filter (fun k => k ∉ seen) (seq 0 cc)) as ->.
  { apply filter_ext_elem. intros k Hk%elem_of_seq.
    rewrite (nth_lookup_Some _ _ _ _ (Hs k ltac:(lia))). by rewrite bool_decide_eq_false. }
  apply take_ge. rewrite length_fmap.
  pose proof (length_filter (fun k => k ∉ seen) (seq 0 cc)) as Hle. rewrite length_seq in Hle. lia.
Qed.
End transfer.
End Theorems.

(** * Properties *)

(** C36. A blob survives any delivery order: whatever chunks of a blob arrive,
    in any order and with any repetition, the reassembler reports completion
    exactly when every index has arrived, and then hands out the blob itself,
    byte for byte, whatever the buffer held before. *)
Theorem blob_transfer (MaxChunks : nat) (i : BlobId) (enc : bytes) (ks : list (nat * Z)) (t0 : Z) (r : ChunkReassembler) :
  Z.of_nat MaxChunks <= 65535 -> wf MaxChunks r -> wf_id i -> enc <> [] ->
  (chunkCount (length enc) <= MaxChunks)%nat ->
  Forall (fun k => (k < chunkCount (length enc))%nat) ks.*1 ->
  let r' := deliver i enc ks (begin MaxChunks i (Z.of_nat (chunkCount (length enc))) (length enc) t0 r) in
  (complete r' = true <-> forall k, (k < chunkCount (length enc))%nat -> k ∈ ks.*1) /\
  (complete r' = true -> assembled r' = enc).
Proof.
  intros HMax Hr Hi Hne Hfits Hks r'.
  pose proof (carries_deliver MaxChunks HMax i enc Hi Hne Hfits ks [] _ Hks
                (begin_carries MaxChunks HMax i enc Hi Hne Hfits t0 r Hr)) as Hc.
  fold r' in Hc. rewrite app_nil_r in Hc. split.
  - rewrite (carries_complete MaxChunks i enc Hne Hfits _ _ Hc). by setoid_rewrite elem_of_reverse.
  - by apply (carries_assembled MaxChunks i enc Hne Hfits _ _ Hc).
Qed.

Definition sample_blob : bytes := replicate 192 1 ++ replicate 192 2 ++ [3; 4].

Lemma blob_transfer_witness :
  let r' := deliver noBlobId sample_blob [(2%nat, 5); (0%nat, 6); (0%nat, 7); (1%nat, 8)]
              (begin 4 noBlobId 3 386 0 (newReassembler 4)) in
  complete r' = true /\ (complete r' = true -> assembled r' = sample_blob).
Proof.
  split; [vm_compute; reflexivity|].
  apply (blob_transfer 4 noBlobId sample_blob [(2%nat, 5); (0%nat, 6); (0%nat, 7); (1%nat, 8)] 0 (newReassembler 4)).
  - lia.
  - apply newReassembler_wf; lia.
  - repeat split; simpl; done.
  - done.
  - apply Nat.leb_le. vm_compute. reflexivity.
  - repeat constructor; apply Nat.ltb_lt; vm_compute; reflexivity.
Defined.

(** The repair request names exactly what is missing: after any deliveries,
    [missingIndices] writes the ascending list of the indices that have not
    arrived, and delivering just those chunks completes the transfer with the
    original bytes. *)
Theorem blob_repair_completes (MaxChunks m : nat) (i : BlobId) (enc : bytes) (ks : list (nat * Z)) (t0 t1 : Z)
    (r : ChunkReassembler) :
  Z.of_nat MaxChunks <= 65535 -> wf MaxChunks r -> wf_id i -> enc <> [] ->
  (chunkCount (length enc) <= MaxChunks)%nat -> (chunkCount (length enc) <= m)%nat ->
  Forall (fun k => (k < chunkCount (length enc))%nat) ks.*1 ->
  let r' := deliver i enc ks (begin MaxChunks i (Z.of_nat (chunkCount (length enc))) (length enc) t0 r) in
  let '(n, out) := missingIndices MaxChunks r' (replicate m 0) in
  take n out = Z.of_nat <$> filter (fun k => k ∉ ks.*1) (seq 0 (chunkCount (length enc))) /\
  let r'' := deliver i enc ((fun k => (Z.to_nat k, t1)) <$> take n out) r' in
  complete r'' = true /\ assembled r'' = enc.
Proof.
  intros HMax Hr Hi Hne Hfits Hm Hks r'.
  pose proof (carries_deliver MaxChunks HMax i enc Hi Hne Hfits ks [] _ Hks
                (begin_carries MaxChunks HMax i enc Hi Hne Hfits t0 r Hr)) as Hc.
  fold r' in Hc. rewrite app_nil_r in Hc.
  pose proof (carries_missing MaxChunks i enc Hne Hfits _ _ m Hc Hm) as Hmiss.
  destruct (missingIndices _ _ _) as [n out]. rewrite Hmiss.
  rewrite (filter_ext_elem _ (fun k => k ∉ ks.*1)) by (intros k _; by rewrite elem_of_reverse).
  split; [done|]. cbv zeta. rewrite <- list_fmap_compose.
  set (todo := filter _ _).
  assert (((fun k => (Z.to_nat k, t1)) ∘ Z.of_nat) <$> todo = (fun k => (k, t1)) <$> todo) as ->
    by (apply list_fmap_ext; intros ? k _; cbn; by rewrite Nat2Z.id).
  assert (((fun k : nat => (k, t1)) <$> todo).*1 = todo) as Hfst.
  { rewrite <- list_fmap_compose. apply list_fmap_id. }
  assert (carries MaxChunks i enc (reverse todo ++ reverse ks.*1) (deliver i enc ((fun k => (k, t1)) <$> todo) r')) as Hc'.
  { rewrite <- Hfst at 1. apply carries_deliver; try done. rewrite Hfst.
    apply Forall_forall. intros k [_ Hk%elem_of_seq]%list_elem_of_filter. lia. }
  assert (complete (deliver i enc ((fun k => (k, t1)) <$> todo) r') = true) as Hcomp.
  { apply (carries_complete MaxChunks i enc Hne Hfits _ _ Hc'). intros k Hk.
    rewrite elem_of_app, !elem_of_reverse. destruct (decide (k ∈ ks.*1)); [by right|left].
    apply list_elem_of_filter. split; [done|]. apply elem_of_seq. lia. }
  split; [done|]. by apply (carries_assembled MaxChunks i enc Hne Hfits _ _ Hc').
Qed.

Lemma blob_repair_completes_witness :
  let r' := deliver noBlobId sample_blob [(2%nat, 5)] (begin 4 noBlobId 3 386 0 (newReassembler 4)) in
  let '(n, out) := missingIndices 4 r' (replicate 3 0) in
  take n out = [0; 1] /\
  assembled (deliver noBlobId sample_blob ((fun k => (Z.to_nat k, 9)) <$> take n out) r') = sample_blob.
Proof.
  pose proof (blob_repair_completes 4 3 noBlobId sample_blob [(2%nat, 5)] 0 9 (newReassembler 4)) as H.
  specialize (H ltac:(lia) (newReassembler_wf 4)).
  specialize (H ltac:(repeat split; simpl; done) ltac:(done)).
  specialize (H ltac:(apply Nat.leb_le; vm_compute; reflexivity) ltac:(apply Nat.leb_le; vm_compute; reflexivity)).
  specialize (H ltac:(repeat constructor; apply Nat.ltb_lt; vm_compute; reflexivity)).
  change (Z.of_nat (chunkCount (length sample_blob))) with 3 in H.
  change (length sample_blob) with 386%nat in H. cbv zeta in H |- *.
  destruct (missingIndices _ _ _) as [n out]. destruct H as (H1 & _ & H2). split; [rewrite H1; vm_compute; reflexivity|exact H2].
Defined.

(** Hostile chunks cannot corrupt a transfer's bookkeeping: after [begin]
    with any declared sizes and any sequence of arbitrary payloads, the buffer
    keeps its capacity, the declared sizes stay within it (and are 0 for a
    refused transfer), no mark exceeds the chunk count and the counter equals
    the number of marks; a payload that is refused, in particular one that
    belongs to another blob, changes nothing. *)
Theorem blob_insert_safe (MaxChunks : nat) (i : BlobId) (cc : Z) (total : nat) (t0 : Z)
    (ps : list (bytes * Z)) (r : ChunkReassembler) :
  Z.of_nat MaxChunks <= 65535 -> wf MaxChunks r -> Forall (fun p => is_bytes p.1) ps ->
  let r' := foldl (fun r p => (insertChunk p.1 p.2 r).2) (begin MaxChunks i cc total t0 r) ps in
  wf MaxChunks r' /\ (length (assembled r') <= kMaxTotalBytes MaxChunks)%nat /\
  forall p now, insertChunk p now r' = (false, r') \/
    exists h r'', insertChunk p now r' = (true, r'') /\ getBlobChunkHeader p = Some h /\
      sameTarget (hdr_id h) (cr_id r') = true.
Proof.
  intros HMax Hr Hps r'.
  assert (wf MaxChunks r') as Hwf.
  { unfold r'. pose proof (begin_wf MaxChunks i cc total t0 r Hr) as Hb. revert Hb.
    generalize (begin MaxChunks i cc total t0 r) as q.
    induction Hps as [|[p now] ps Hp _ IH]; intros q Hq; [done|]. apply IH. by apply insertChunk_wf. }
  split_and!; [done| |].
  - unfold assembled. destruct (_ || _); [cbn; lia|]. rewrite length_take. destruct Hwf. lia.
  - intros p now. destruct (insertChunk p now r') as [[] q] eqn:E.
    + right. destruct (insertChunk_inv p now r' q E) as (h & Hh & _ & Hs & _). by exists h, q.
    + left. by apply insertChunk_refused in E as ->.
Qed.

Lemma blob_insert_safe_witness :
  let r' := foldl (fun r p => (insertChunk p.1 p.2 r).2) (begin 2 noBlobId 65535 4000 0 (newReassembler 2))
              [([9; 9; 9], 1); (sendChunk noBlobId sample_blob 1, 2)] in
  wf 2 r' /\ (length (assembled r') <= kMaxTotalBytes 2)%nat.
Proof.
  pose proof (blob_insert_safe 2 noBlobId 65535 4000 0 [([9; 9; 9], 1); (sendChunk noBlobId sample_blob 1, 2)]
    (newReassembler 2) ltac:(lia) (newReassembler_wf 2)) as H.
  assert (Forall (fun p : bytes * Z => is_bytes p.1) [([9; 9; 9], 1); (sendChunk noBlobId sample_blob 1, 2)]) as Hp.
  { apply (bool_decide_unpack _). vm_compute. exact I. }
  destruct (H Hp) as (H1 & H2 & _). split; assumption.
Defined.

(** The reassembler counts chunks, not bytes: a chunk with no payload marks its
    index, and the transfer completes with bytes that never arrived. *)
Lemma short_chunk_completes :
  let r := begin 1 noBlobId 1 4 0 (newReassembler 1) in
  let '(ok, r') := insertChunk (chunk_header_bytes (mkChunkHeader noBlobId 0 1 4)) 1 r in
  ok = true /\ complete r' = true /\ assembled r' = [0; 0; 0; 0].
Proof. by vm_compute. Qed.
