(* ===== verification/Cbor.v ===== *)
(** * Cbor: the deterministic CBOR profile

    wire/cbor/cbor_writer.hpp and wire/cbor/cbor_reader.hpp. Both sides keep a
    stack of open containers (top first in the model; [_depth] is its length),
    count down the slots left in each and pop full ones on their own. A
    [float] is its bit pattern. The reader's operations return the value with
    the advanced reader; on an error every caller stops. *)

From stdpp Require Import sets.
From S2P Require Import Prelude ByteIO.
Local Open Scope Z_scope.

(** ** Container frames, identical on both sides *)

Record Frame := mkFrame { isMap : bool; remaining : Z; hasLastKey : bool; lastKey : Z }.

Definition kMaxDepth : nat := 4.

Definition dec (f : Frame) : Frame :=
  if 0 <? remaining f then mkFrame (isMap f) (remaining f - 1) (hasLastKey f) (lastKey f) else f.

(** The popping loop: [f] is the top, [below] the frames under it. *)
Fixpoint settle (f : Frame) (below : list Frame) : list Frame :=
  if remaining f =? 0 then match below with [] => [] | g :: below => settle (dec g) below end
  else f :: below.

Definition afterConsume (stk : list Frame) : list Frame :=
  match stk with [] => [] | f :: below => settle f below end.

Definition consumeOne (stk : list Frame) : list Frame :=
  match stk with [] => [] | f :: below => afterConsume (dec f :: below) end.

(** ** CborWriter *)

Record CborWriter := mkCborWriter { w_out : bytes; w_pos : nat; w_failed : bool; w_stack : list Frame }.

Definition cborWriter (out : bytes) : CborWriter := mkCborWriter out 0 false [].

Definition size (w : CborWriter) : nat := if w_failed w then 0 else w_pos w.

Definition fail (w : CborWriter) : CborWriter := mkCborWriter (w_out w) (w_pos w) true (w_stack w).

Definition ensure (n : nat) (w : CborWriter) : bool * CborWriter :=
  if w_failed w then (false, w)
  else if (length (w_out w) <? w_pos w + n)%nat then (false, fail w)
  else (true, w).

(** [_out[_pos + i] = bs[i]] for each byte, then [_pos += n]. *)
Definition put (bs : bytes) (w : CborWriter) : CborWriter :=
  mkCborWriter (write_at (w_pos w) bs (w_out w)) (w_pos w + length bs) (w_failed w) (w_stack w).

Definition ensure_put (bs : bytes) (w : CborWriter) : CborWriter :=
  let '(ok, w) := ensure (length bs) w in if ok then put bs w else w.

(** [n] bytes of [v], most significant first. *)
Fixpoint be (n : nat) (v : Z) : bytes :=
  match n with O => [] | S n => u8 (Z.shiftr v (8 * Z.of_nat n)) :: be n v end.

Definition writeHead (major v : Z) (w : CborWriter) : CborWriter :=
  let ib0 := u8 (Z.shiftl major 5) in
  if v <=? 23 then ensure_put [Z.lor ib0 (u8 v)] w
  else if v <=? 0xFF then ensure_put (Z.lor ib0 24 :: be 1 v) w
  else if v <=? 0xFFFF then ensure_put (Z.lor ib0 25 :: be 2 v) w
  else if v <=? 0xFFFFFFFF then ensure_put (Z.lor ib0 26 :: be 4 v) w
  else ensure_put (Z.lor ib0 27 :: be 8 v) w.

Definition writeSimple (additionalInfo : Z) (w : CborWriter) : CborWriter :=
  ensure_put [Z.lor (u8 (Z.shiftl 7 5)) additionalInfo] w.

Definition on_stack (f : list Frame -> list Frame) (w : CborWriter) : CborWriter :=
  mkCborWriter (w_out w) (w_pos w) (w_failed w) (f (w_stack w)).

Definition openContainer (map : bool) (slots : Z) (w : CborWriter) : CborWriter :=
  if w_failed w then w
  else if (kMaxDepth <? length (w_stack w) + 1)%nat then fail w
  else on_stack (fun stk => afterConsume (mkFrame map slots false 0 :: stk)) w.

Definition mapHeader (nPairs : Z) (w : CborWriter) : CborWriter :=
  writeHead 5 nPairs (openContainer true (u64 (nPairs * 2)) w).

Definition arrayHeader (n : Z) (w : CborWriter) : CborWriter :=
  writeHead 4 n (openContainer false n w).

Definition keyRaw (kv : Z) (w : CborWriter) : CborWriter :=
  if w_failed w then w
  else match w_stack w with
  | [] => fail w
  | f :: below =>
      if negb (isMap f) then fail w
      else if hasLastKey f && (kv <=? lastKey f) then fail w
      else
        let w := on_stack (fun _ => mkFrame (isMap f) (remaining f) true kv :: below) w in
        on_stack consumeOne (writeHead 0 kv w)
  end.

Definition key (k : Z) (w : CborWriter) : CborWriter := keyRaw k w.

Definition uintVal (v : Z) (w : CborWriter) : CborWriter := on_stack consumeOne (writeHead 0 v w).

Definition intVal (v : Z) (w : CborWriter) : CborWriter :=
  on_stack consumeOne (if 0 <=? v then writeHead 0 (u64 v) w else writeHead 1 (u64 (-1 - v)) w).

Definition boolVal (v : bool) (w : CborWriter) : CborWriter :=
  on_stack consumeOne (writeSimple (if v then 21 else 20) w).

Definition nullVal (w : CborWriter) : CborWriter := on_stack consumeOne (writeSimple 22 w).

Definition f32Val (bits : Z) (w : CborWriter) : CborWriter :=
  let '(ok, w) := ensure 5 w in
  if ok then on_stack consumeOne (put (0xFA :: be 4 bits) w) else w.

Definition strVal (major : Z) (s : bytes) (w : CborWriter) : CborWriter :=
  let w := writeHead major (Z.of_nat (length s)) w in
  if w_failed w then fail w
  else
    let '(ok, w) := ensure (length s) w in
    if ok then on_stack consumeOne (put s w) else fail w.

Definition tstrVal (s : bytes) (w : CborWriter) : CborWriter := strVal 3 s w.
Definition bstrVal (b : bytes) (w : CborWriter) : CborWriter := strVal 2 b w.

(** ** CborReader *)

Record CborReader := mkCborReader { r_in : bytes; r_pos : nat; r_stack : list Frame }.

Definition cborReader (s : bytes) : CborReader := mkCborReader s 0 [].

Definition bytesConsumed (r : CborReader) : nat := r_pos r.

Inductive MajorType : Set := MUInt | MNegInt | MByteString | MTextString | MArray | MMap | MTag | MSimple.

Definition peekType (r : CborReader) : Result MajorType DecodeError :=
  if (length (r_in r) <=? r_pos r)%nat then Err Truncated
  else
    let m := Z.shiftr (byte_at (r_pos r) (r_in r)) 5 in
    Ok (if m =? 0 then MUInt else if m =? 1 then MNegInt else if m =? 2 then MByteString
        else if m =? 3 then MTextString else if m =? 4 then MArray else if m =? 5 then MMap
        else if m =? 6 then MTag else MSimple).

Record Head := mkHead { h_major : Z; h_arg : Z; h_total : nat }.

Definition parseHeadRaw (r : CborReader) : Result Head DecodeError :=
  if (length (r_in r) <=? r_pos r)%nat then Err Truncated
  else
    let ib := byte_at (r_pos r) (r_in r) in
    let major := Z.shiftr ib 5 in
    let ai := Z.land ib 0x1F in
    if major =? 6 then Err ProfileViolation
    else if major =? 7 then Err Malformed
    else if ai <=? 23 then Ok (mkHead major ai 1)
    else
      let nbytes := if ai =? 24 then 1%nat else if ai =? 25 then 2%nat else if ai =? 26 then 4%nat
                    else if ai =? 27 then 8%nat else 0%nat in
      if (nbytes =? 0)%nat then Err (if ai =? 31 then ProfileViolation else Malformed)
      else if (length (r_in r) <? r_pos r + 1 + nbytes)%nat then Err Truncated
      else
        let v := foldl (fun v i => Z.lor (u64 (Z.shiftl v 8)) (byte_at (r_pos r + 1 + i) (r_in r))) 0 (seq 0 nbytes) in
        let minForSize := if (nbytes =? 1)%nat then 24 else if (nbytes =? 2)%nat then 256
                          else if (nbytes =? 4)%nat then 65536 else 4294967296 in
        if v <? minForSize then Err ProfileViolation else Ok (mkHead major v (1 + nbytes)).

Inductive SimpleKind : Set := KFalse | KTrue | KNull | KFloat32.

Record SimpleHead := mkSimple { s_kind : SimpleKind; s_floatBits : Z; s_total : nat }.

Definition parseSimpleRaw (r : CborReader) : Result SimpleHead DecodeError :=
  if (length (r_in r) <=? r_pos r)%nat then Err Truncated
  else
    let ib := byte_at (r_pos r) (r_in r) in
    if negb (Z.shiftr ib 5 =? 7) then Err Malformed
    else
      let ai := Z.land ib 0x1F in
      if ai =? 20 then Ok (mkSimple KFalse 0 1)
      else if ai =? 21 then Ok (mkSimple KTrue 0 1)
      else if ai =? 22 then Ok (mkSimple KNull 0 1)
      else if ai =? 26 then
        if (length (r_in r) <? r_pos r + 5)%nat then Err Truncated
        else
          let bits := foldl (fun v i => Z.lor (u32 (Z.shiftl v 8)) (byte_at (r_pos r + 1 + i) (r_in r))) 0 (seq 0 4) in
          Ok (mkSimple KFloat32 bits 5)
      else if (ai =? 28) || (ai =? 29) || (ai =? 30) then Err Malformed
      else Err ProfileViolation.

(** Advance past an item and count it in the enclosing container. *)
Definition advance (n : nat) (f : list Frame -> list Frame) (r : CborReader) : CborReader :=
  mkCborReader (r_in r) (r_pos r + n) (f (r_stack r)).

Definition enterContainer (expectedMajor : Z) (map : bool) (r : CborReader) : Result (Z * CborReader) DecodeError :=
  let? h := parseHeadRaw r in
  if negb (h_major h =? expectedMajor) then Err Malformed
  else if (kMaxDepth <? length (r_stack r) + 1)%nat then Err DepthExceeded
  else if 0xFFFFFFFF <? h_arg h then Err Malformed
  else
    let f := mkFrame map (if map then u64 (h_arg h * 2) else h_arg h) false 0 in
    Ok (h_arg h, advance (h_total h) (fun stk => afterConsume (f :: stk)) r).

Definition readMapHeader : CborReader -> Result (Z * CborReader) DecodeError := enterContainer 5 true.
Definition readArrayHeader : CborReader -> Result (Z * CborReader) DecodeError := enterContainer 4 false.

Definition readKey (r : CborReader) : Result (Z * CborReader) DecodeError :=
  let? h := parseHeadRaw r in
  if negb (h_major h =? 0) then Err Malformed
  else match r_stack r with
  | [] => Err Malformed
  | f :: below =>
      if negb (isMap f) then Err Malformed
      else if hasLastKey f && (h_arg h <=? lastKey f) then Err ProfileViolation
      else Ok (h_arg h, advance (h_total h)
                 (fun _ => consumeOne (mkFrame (isMap f) (remaining f) true (h_arg h) :: below)) r)
  end.

Definition readUint (r : CborReader) : Result (Z * CborReader) DecodeError :=
  let? h := parseHeadRaw r in
  if negb (h_major h =? 0) then Err Malformed
  else Ok (h_arg h, advance (h_total h) consumeOne r).

Definition readInt (r : CborReader) : Result (Z * CborReader) DecodeError :=
  let? h := parseHeadRaw r in
  if h_major h =? 0 then Ok (i64 (h_arg h), advance (h_total h) consumeOne r)
  else if h_major h =? 1 then Ok (-1 - i64 (h_arg h), advance (h_total h) consumeOne r)
  else Err Malformed.

Definition readBool (r : CborReader) : Result (bool * CborReader) DecodeError :=
  let? s := parseSimpleRaw r in
  match s_kind s with
  | KFalse => Ok (false, advance (s_total s) consumeOne r)
  | KTrue => Ok (true, advance (s_total s) consumeOne r)
  | _ => Err Malformed
  end.

Definition readNull (r : CborReader) : Result (bool * CborReader) DecodeError :=
  let? s := parseSimpleRaw r in
  match s_kind s with
  | KNull => Ok (true, advance (s_total s) consumeOne r)
  | _ => Err Malformed
  end.

Definition readF32 (r : CborReader) : Result (Z * CborReader) DecodeError :=
  let? s := parseSimpleRaw r in
  match s_kind s with
  | KFloat32 => Ok (s_floatBits s, advance (s_total s) consumeOne r)
  | _ => Err Malformed
  end.

Definition readStr (major : Z) (r : CborReader) : Result (bytes * CborReader) DecodeError :=
  let? h := parseHeadRaw r in
  if negb (h_major h =? major) then Err Malformed
  else
    let start := (r_pos r + h_total h)%nat in
    if Z.of_nat (length (r_in r) - start) <? h_arg h then Err Truncated
    else
      let len := Z.to_nat (h_arg h) in
      Ok (subspan start len (r_in r), advance (h_total h + len) consumeOne r).

Definition readTstr : CborReader -> Result (bytes * CborReader) DecodeError := readStr 3.
Definition readBstr : CborReader -> Result (bytes * CborReader) DecodeError := readStr 2.

(** skipValue, recursing on the nesting budget [kMaxDepth - _depth]: with no
    budget left [enterContainer] already refused. *)
Fixpoint skip (budget : nat) (r : CborReader) : Result CborReader DecodeError :=
  let? t := peekType r in
  match t with
  | MUInt => let? (_, r) := readUint r in Ok r
  | MNegInt => let? (_, r) := readInt r in Ok r
  | MByteString => let? (_, r) := readBstr r in Ok r
  | MTextString => let? (_, r) := readTstr r in Ok r
  | MTag => Err ProfileViolation
  | MArray =>
      let? (n, r) := readArrayHeader r in
      match budget with
      | O => Err DepthExceeded
      | S budget => forR n (skip budget) r
      end
  | MMap =>
      let? (n, r) := readMapHeader r in
      match budget with
      | O => Err DepthExceeded
      | S budget => forR n (fun r => let? (_, r) := readKey r in skip budget r) r
      end
  | MSimple => let? s := parseSimpleRaw r in Ok (advance (s_total s) consumeOne r)
  end.

Definition skipValue (r : CborReader) : Result CborReader DecodeError :=
  skip (kMaxDepth - length (r_stack r)) r.

(** * Theorems *)

(** ** Big-endian numbers *)

Definition be_from (acc : Z) (bs : bytes) : Z := foldl (fun v b => v * 256 + b) acc bs.

Lemma length_be n v : length (be n v) = n.
Proof. induction n; cbn; auto. Qed.

Lemma is_bytes_be n v : is_bytes (be n v).
Proof. induction n; constructor; auto with bytes. Qed.
#[local] Hint Resolve is_bytes_be : bytes.

Lemma be_from_acc acc bs : be_from acc bs = acc * 256 ^ Z.of_nat (length bs) + be_from 0 bs.
Proof.
  revert acc. induction bs as [|b bs IH]; intros acc; [cbn; lia|].
  change (be_from acc (b :: bs)) with (be_from (acc * 256 + b) bs).
  change (be_from 0 (b :: bs)) with (be_from b bs). rewrite IH, (IH b). cbn [length].
  rewrite Nat2Z.inj_succ, Z.pow_succ_r by lia. ring.
Qed.

Lemma be_from_bound bs : is_bytes bs -> 0 <= be_from 0 bs < 256 ^ Z.of_nat (length bs).
Proof.
  induction 1 as [|b bs Hb _ IH]; [cbn; lia|].
  change (be_from 0 (b :: bs)) with (be_from b bs). rewrite be_from_acc. cbn [length].
  rewrite Nat2Z.inj_succ, Z.pow_succ_r by lia. unfold is_u8 in Hb. nia.
Qed.

Lemma be_from_be n v : be_from 0 (be n v) = v mod 256 ^ Z.of_nat n.
Proof.
  induction n as [|n IH]; [cbn; by rewrite Z.mod_1_r|].
  change (be_from 0 (be (S n) v)) with (be_from (u8 (Z.shiftr v (8 * Z.of_nat n))) (be n v)).
  rewrite be_from_acc, IH, length_be, Nat2Z.inj_succ, Z.pow_succ_r by lia.
  rewrite (Z.mul_comm 256), Z.rem_mul_r by (try apply Z.pow_pos_nonneg; lia).
  rewrite Z.shiftr_div_pow2, Z.pow_mul_r by lia. change (2 ^ 8) with 256. unfold u8. lia.
Qed.

Lemma be_from_inv acc bs : is_bytes bs -> be (length bs) (be_from acc bs) = bs.
Proof.
  intros H. revert acc. induction H as [|b bs Hb Hbs IH]; intros acc; [done|]. cbn [length be].
  change (be_from acc (b :: bs)) with (be_from (acc * 256 + b) bs). rewrite IH. f_equal.
  rewrite be_from_acc. pose proof (be_from_bound bs Hbs).
  rewrite Z.shiftr_div_pow2, Z.pow_mul_r by lia. change (2 ^ 8) with 256.
  rewrite Z.add_comm, Z.div_add, Z.div_small by (try apply Z.pow_nonzero; lia).
  unfold u8, is_u8 in *. rewrite Z.add_0_l. rewrite Z.add_comm, Z.mod_add by lia. by apply Z.mod_small.
Qed.

(** The readers' accumulating loops compute it. *)
Lemma acc_loop (wrap : Z -> Z) (w : nat) off s k n acc :
  (forall z, 0 <= z < 256 ^ Z.of_nat w -> wrap z = z) ->
  is_bytes s -> (off + k + n <= length s)%nat -> (k + n <= w)%nat -> 0 <= acc < 256 ^ Z.of_nat k ->
  foldl (fun v i => Z.lor (wrap (Z.shiftl v 8)) (byte_at (off + i) s)) acc (seq k n) =
  be_from acc (subspan (off + k) n s).
Proof.
  intros Hwrap Hs. revert k acc. induction n as [|n IH]; intros k acc Hl Hw Ha; [done|].
  cbn [seq foldl]. assert (is_u8 (byte_at (off + k) s)) as Hb by (by apply byte_at_range).
  assert (256 ^ Z.of_nat (S k) <= 256 ^ Z.of_nat w) as Hpow by (apply Z.pow_le_mono_r; lia).
  rewrite Nat2Z.inj_succ, Z.pow_succ_r in Hpow by lia. unfold is_u8 in Hb.
  assert (Z.lor (wrap (Z.shiftl acc 8)) (byte_at (off + k) s) = acc * 256 + byte_at (off + k) s) as ->.
  { rewrite Hwrap by (rewrite Z.shiftl_mul_pow2 by lia; lia).
    rewrite Z.lor_comm, lor_shiftl_add by lia. lia. }
  rewrite IH; [|lia|lia|rewrite Nat2Z.inj_succ, Z.pow_succ_r by lia; lia].
  assert (subspan (off + k) (S n) s = byte_at (off + k) s :: subspan (off + S k) n s) as ->; [|done].
  destruct (lookup_lt_is_Some_2 s (off + k)) as [b Eb]; [lia|]. rewrite (byte_at_lookup _ _ _ Eb).
  unfold subspan. rewrite (drop_S s b (off + k)) by done. cbn [take]. by rewrite Nat.add_succ_r.
Qed.

(** ** The canonical head *)

Definition head_bytes (major v : Z) : bytes :=
  if v <=? 23 then [major * 32 + v]
  else if v <=? 0xFF then (major * 32 + 24) :: be 1 v
  else if v <=? 0xFFFF then (major * 32 + 25) :: be 2 v
  else if v <=? 0xFFFFFFFF then (major * 32 + 26) :: be 4 v
  else (major * 32 + 27) :: be 8 v.

Lemma writeHead_spec major v w :
  0 <= major < 8 -> 0 <= v -> writeHead major v w = ensure_put (head_bytes major v) w.
Proof.
  intros Hm Hv. unfold writeHead, head_bytes.
  assert (u8 (Z.shiftl major 5) = major * 32) as -> by (rewrite Z.shiftl_mul_pow2 by lia; apply u8_id; unfold is_u8; lia).
  assert (forall a, 0 <= a < 32 -> Z.lor (major * 32) a = major * 32 + a) as Hor.
  { intros a Ha. change 32 with (2 ^ 5). rewrite <- Z.shiftl_mul_pow2 by lia.
    rewrite Z.lor_comm, lor_shiftl_add by lia. rewrite Z.shiftl_mul_pow2 by lia. lia. }
  case_ifs; try rewrite u8_id by (unfold is_u8; lia); rewrite Hor by lia; done.
Qed.

Lemma length_head_bytes major v : (1 <= length (head_bytes major v))%nat.
Proof. unfold head_bytes. case_ifs; cbn; lia. Qed.

Lemma is_bytes_head major v : 0 <= major < 8 -> 0 <= v -> is_bytes (head_bytes major v).
Proof. intros. unfold head_bytes. case_ifs; constructor; auto with bytes; unfold is_u8; lia. Qed.

(** The initial byte splits back into major type and additional information. *)
Lemma initial_byte major ai :
  0 <= ai < 32 -> Z.shiftr (major * 32 + ai) 5 = major /\ Z.land (major * 32 + ai) 31 = ai.
Proof.
  intros Ha. split.
  - rewrite Z.shiftr_div_pow2 by lia. change (2 ^ 5) with 32. Z.div_mod_to_equations. lia.
  - change 31 with (Z.ones 5). rewrite Z.land_ones by lia. change (2 ^ 5) with 32. Z.div_mod_to_equations. lia.
Qed.

Lemma initial_byte_inv b :
  is_u8 b -> 0 <= Z.shiftr b 5 < 8 /\ 0 <= Z.land b 31 < 32 /\ b = Z.shiftr b 5 * 32 + Z.land b 31.
Proof.
  unfold is_u8. intros Hb. change 31 with (Z.ones 5). rewrite Z.shiftr_div_pow2, Z.land_ones by lia.
  change (2 ^ 5) with 32. Z.div_mod_to_equations. lia.
Qed.

(** ** Reading at a position *)

(** The bytes still to be read. *)
Definition ahead (r : CborReader) : bytes := drop (r_pos r) (r_in r).

Lemma ahead_cons r b s :
  ahead r = b :: s ->
  (r_pos r < length (r_in r))%nat /\ byte_at (r_pos r) (r_in r) = b /\
  forall n, subspan (r_pos r + 1 + 0) n (r_in r) = take n s.
Proof.
  unfold ahead. intros E. assert (r_pos r < length (r_in r))%nat as Hlt.
  { pose proof (length_drop (r_in r) (r_pos r)) as Hl. rewrite E in Hl. cbn in Hl. lia. }
  split_and!; [done| |].
  - apply byte_at_lookup. assert (drop (r_pos r) (r_in r) !! 0%nat = Some b) as H by (by rewrite E).
    rewrite lookup_drop in H. by rewrite Nat.add_0_r in H.
  - intros n. unfold subspan. rewrite Nat.add_0_r, <- drop_drop, E. done.
Qed.

Lemma ahead_length r : (length (ahead r) = length (r_in r) - r_pos r)%nat.
Proof. apply length_drop. Qed.

Lemma head_loop r b s n :
  is_bytes (r_in r) -> ahead r = b :: s -> (n <= length s)%nat -> (n <= 8)%nat ->
  foldl (fun v i => Z.lor (u64 (Z.shiftl v 8)) (byte_at (r_pos r + 1 + i) (r_in r))) 0 (seq 0 n) = be_from 0 (take n s).
Proof.
  intros Hb Ha Hn H8. pose proof (ahead_length r) as Hl. rewrite Ha in Hl. cbn [length] in Hl.
  rewrite (acc_loop u64 8); [|by apply u64_id|done|lia|lia|cbn; lia].
  f_equal. by apply (ahead_cons r b s).
Qed.

Ltac wide_cases H :=
  rewrite !elem_of_cons in H;
  destruct H as [[= -> -> ->]|[[= -> -> ->]|[[= -> -> ->]|[[= -> -> ->]|[]%not_elem_of_nil]]]].

(** What each additional-information value of a multi-byte head stands for. *)
Lemma parseHead_wide r b s ai n lo :
  is_bytes (r_in r) -> ahead r = b :: s -> 0 <= Z.shiftr b 5 < 6 -> Z.land b 31 = ai ->
  (ai, n, lo) ∈ [(24, 1%nat, 24); (25, 2%nat, 256); (26, 4%nat, 65536); (27, 8%nat, 4294967296)] ->
  parseHeadRaw r =
    if (length s <? n)%nat then Err Truncated
    else if be_from 0 (take n s) <? lo then Err ProfileViolation
    else Ok (mkHead (Z.shiftr b 5) (be_from 0 (take n s)) (1 + n)).
Proof.
  intros Hb Ha Hm Hai Hin. destruct (ahead_cons r b s Ha) as (Hlt & Eb & _).
  pose proof (ahead_length r) as Hl. rewrite Ha in Hl. cbn [length] in Hl.
  unfold parseHeadRaw. rewrite Eb, Hai. destruct (Nat.leb_spec (length (r_in r)) (r_pos r)); [lia|]. cbv zeta.
  destruct (Z.eqb_spec (Z.shiftr b 5) 6); [lia|]. destruct (Z.eqb_spec (Z.shiftr b 5) 7); [lia|].
  assert (forall k, (length (r_in r) <? r_pos r + 1 + k)%nat = (length s <? k)%nat) as Hltb.
  { intros k. destruct (Nat.ltb_spec (length s) k), (Nat.ltb_spec (length (r_in r)) (r_pos r + 1 + k)); lia. }
  wide_cases Hin; cbn -[foldl seq Nat.add Nat.ltb];
    rewrite Hltb; (match goal with |- context [(length s <? ?k)%nat] => destruct (Nat.ltb_spec (length s) k) end; [done|]);
    rewrite (head_loop r b s) by (done || lia); done.
Qed.

Lemma parseHead_head r m v rest :
  is_bytes (r_in r) -> 0 <= m < 6 -> is_u64 v -> ahead r = head_bytes m v ++ rest ->
  parseHeadRaw r = Ok (mkHead m v (length (head_bytes m v))).
Proof.
  intros Hb Hm Hv Ha. unfold is_u64 in Hv. unfold head_bytes in *.
  destruct (Z.leb_spec v 23).
  { cbn [app] in Ha. destruct (ahead_cons r _ _ Ha) as (Hlt & Eb & _). unfold parseHeadRaw. rewrite Eb.
    destruct (Nat.leb_spec (length (r_in r)) (r_pos r)); [lia|]. cbv zeta.
    destruct (initial_byte m v ltac:(lia)) as [-> ->].
    destruct (Z.eqb_spec m 6); [lia|]. destruct (Z.eqb_spec m 7); [lia|].
    destruct (Z.leb_spec v 23); [done|lia]. }
  assert (forall ai n lo, (ai, n, lo) ∈ [(24, 1%nat, 24); (25, 2%nat, 256); (26, 4%nat, 65536); (27, 8%nat, 4294967296)] ->
    lo <= v < 256 ^ Z.of_nat n -> ahead r = (m * 32 + ai) :: be n v ++ rest ->
    parseHeadRaw r = Ok (mkHead m v (1 + n))) as Hwide.
  { intros ai n lo Hin Hlo Hah.
    assert (0 <= ai < 32) as Hai by (wide_cases Hin; lia).
    destruct (initial_byte m ai Hai) as [E1 E2].
    rewrite (parseHead_wide r _ _ ai n lo Hb Hah); [|lia|done|done].
    rewrite length_app, length_be, take_app_length' by (by rewrite length_be).
    rewrite be_from_be, Z.mod_small, E1 by lia.
    destruct (Nat.ltb_spec (n + length rest) n); [lia|]. destruct (Z.ltb_spec v lo); [lia|done]. }
  destruct (Z.leb_spec v 0xFF); [|destruct (Z.leb_spec v 0xFFFF); [|destruct (Z.leb_spec v 0xFFFFFFFF)]];
    cbn [length app] in *; rewrite length_be.
  - apply (Hwide 24 1%nat 24); [set_solver|cbn; lia|done].
  - apply (Hwide 25 2%nat 256); [set_solver|cbn; lia|done].
  - apply (Hwide 26 4%nat 65536); [set_solver|cbn; lia|done].
  - apply (Hwide 27 8%nat 4294967296); [set_solver|cbn; lia|done].
Qed.

Lemma parseHead_inv r h :
  is_bytes (r_in r) -> parseHeadRaw r = Ok h ->
  0 <= h_major h < 6 /\ is_u64 (h_arg h) /\ h_total h = length (head_bytes (h_major h) (h_arg h)) /\
  exists rest, ahead r = head_bytes (h_major h) (h_arg h) ++ rest.
Proof.
  intros Hb H. destruct (ahead r) as [|b s] eqn:Ha.
  { unfold parseHeadRaw in H. pose proof (ahead_length r) as Hl. rewrite Ha in Hl. cbn in Hl.
    destruct (Nat.leb_spec (length (r_in r)) (r_pos r)); [done|lia]. }
  assert (is_bytes (b :: s)) as Hbs by (rewrite <- Ha; by apply Forall_drop).
  apply Forall_cons in Hbs as [Hb8 Hs].
  destruct (initial_byte_inv b Hb8) as (Hmaj & Hai & Eb).
  destruct (ahead_cons r b s Ha) as (Hlt & Ebyte & _).
  assert (Z.shiftr b 5 <> 6 /\ Z.shiftr b 5 <> 7) as [Hn6 Hn7].
  { unfold parseHeadRaw in H. rewrite Ebyte in H. destruct (Nat.leb_spec (length (r_in r)) (r_pos r)); [lia|].
    cbv zeta in H. split; intros E; rewrite E in H; done. }
  destruct (Z.leb_spec (Z.land b 31) 23) as [Hsm|Hbig].
  { unfold parseHeadRaw in H. rewrite Ebyte in H. destruct (Nat.leb_spec (length (r_in r)) (r_pos r)); [lia|].
    cbv zeta in H. destruct (Z.eqb_spec (Z.shiftr b 5) 6); [done|]. destruct (Z.eqb_spec (Z.shiftr b 5) 7); [done|].
    destruct (Z.leb_spec (Z.land b 31) 23); [|lia]. injection H as <-. cbn [h_major h_arg h_total].
    unfold head_bytes. destruct (Z.leb_spec (Z.land b 31) 23); [|lia]. unfold is_u64.
    split_and!; try lia; [done|]. exists s. by rewrite <- Eb. }
  assert (forall ai n lo, (ai, n, lo) ∈ [(24, 1%nat, 24); (25, 2%nat, 256); (26, 4%nat, 65536); (27, 8%nat, 4294967296)] ->
    Z.land b 31 = ai -> 256 ^ Z.of_nat n <= 18446744073709551616 ->
    (forall v, lo <= v < 256 ^ Z.of_nat n -> head_bytes (Z.shiftr b 5) v = (Z.shiftr b 5 * 32 + ai) :: be n v) ->
    0 <= h_major h < 6 /\ is_u64 (h_arg h) /\ h_total h = length (head_bytes (h_major h) (h_arg h)) /\
    exists rest, b :: s = head_bytes (h_major h) (h_arg h) ++ rest) as Hwide.
  { intros ai n lo Hin Eai Hcap Hhd.
    rewrite (parseHead_wide r b s ai n lo) in H by (done || lia).
    destruct (Nat.ltb_spec (length s) n); [done|].
    destruct (Z.ltb_spec (be_from 0 (take n s)) lo); [done|].
    assert (length (take n s) = n) as Hlt' by (rewrite length_take; lia).
    assert (is_bytes (take n s)) as Hts by (by apply Forall_take).
    pose proof (be_from_bound (take n s) Hts) as Hbound. rewrite Hlt' in Hbound.
    injection H as <-. cbn [h_major h_arg h_total]. rewrite Hhd by lia. unfold is_u64.
    split_and!; try lia; [cbn; by rewrite length_be|]. exists (drop n s). rewrite <- Eai, <- Eb.
    pose proof (be_from_inv 0 (take n s) Hts) as Hinv. rewrite Hlt' in Hinv. rewrite Hinv. cbn. by rewrite take_drop. }
  assert (Z.land b 31 = 24 \/ Z.land b 31 = 25 \/ Z.land b 31 = 26 \/ Z.land b 31 = 27) as Hcases.
  { unfold parseHeadRaw in H. rewrite Ebyte in H. destruct (Nat.leb_spec (length (r_in r)) (r_pos r)); [lia|].
    cbv zeta in H. destruct (Z.eqb_spec (Z.shiftr b 5) 6); [done|]. destruct (Z.eqb_spec (Z.shiftr b 5) 7); [done|].
    destruct (Z.leb_spec (Z.land b 31) 23); [lia|].
    destruct (Z.eqb_spec (Z.land b 31) 24); [lia|]. destruct (Z.eqb_spec (Z.land b 31) 25); [lia|].
    destruct (Z.eqb_spec (Z.land b 31) 26); [lia|]. destruct (Z.eqb_spec (Z.land b 31) 27); [lia|]. done. }
  destruct Hcases as [E|[E|[E|E]]].
  - apply (Hwide 24 1%nat 24); [set_solver|done|lia|]. intros v Hv. cbn in Hv. unfold head_bytes. case_ifs; (done || lia).
  - apply (Hwide 25 2%nat 256); [set_solver|done|lia|]. intros v Hv. cbn in Hv. unfold head_bytes. case_ifs; (done || lia).
  - apply (Hwide 26 4%nat 65536); [set_solver|done|lia|]. intros v Hv. cbn in Hv. unfold head_bytes. case_ifs; (done || lia).
  - apply (Hwide 27 8%nat 4294967296); [set_solver|done|cbn; lia|]. intros v Hv. cbn in Hv. unfold head_bytes. case_ifs; (done || lia).
Qed.

(** ** Scalars *)

Lemma head_of_parse r m v :
  is_bytes (r_in r) -> 0 <= m < 6 ->
  parseHeadRaw r = Ok (mkHead m v (length (head_bytes m v))) <->
  is_u64 v /\ exists rest, ahead r = head_bytes m v ++ rest.
Proof.
  intros Hb Hm. split.
  - intros H. apply parseHead_inv in H as (_ & Hv & _ & Hr); done.
  - intros [Hv [rest Hr]]. by eapply parseHead_head.
Qed.

Lemma readUint_iff r v r' :
  is_bytes (r_in r) ->
  readUint r = Ok (v, r') <->
  is_u64 v /\ (exists rest, ahead r = head_bytes 0 v ++ rest) /\ r' = advance (length (head_bytes 0 v)) consumeOne r.
Proof.
  intros Hb. unfold readUint. split.
  - destruct (parseHeadRaw r) as [h|] eqn:Hh; [|done]. cbn [rbind].
    destruct (Z.eqb_spec (h_major h) 0) as [E|]; [|done]. intros [= <- <-].
    apply parseHead_inv in Hh as (_ & Hv & Ht & Hr); [|done]. rewrite E in *. by rewrite Ht.
  - intros (Hv & [rest Hr] & ->). by rewrite (parseHead_head r 0 v rest) by done.
Qed.

Lemma readKey_iff r f below v r' :
  is_bytes (r_in r) -> r_stack r = f :: below -> isMap f = true ->
  readKey r = Ok (v, r') <->
  is_u64 v /\ (exists rest, ahead r = head_bytes 0 v ++ rest) /\ (hasLastKey f = true -> lastKey f < v) /\
  r' = advance (length (head_bytes 0 v)) (fun _ => consumeOne (mkFrame true (remaining f) true v :: below)) r.
Proof.
  intros Hb Hs Hm. unfold readKey. rewrite Hs, Hm. cbn [negb]. split.
  - destruct (parseHeadRaw r) as [h|] eqn:Hh; [|done]. cbn [rbind].
    destruct (Z.eqb_spec (h_major h) 0) as [E|]; [|done]. cbn [negb].
    destruct (hasLastKey f && (h_arg h <=? lastKey f)) eqn:Hlast; [done|]. intros [= <- <-].
    apply parseHead_inv in Hh as (_ & Hv & Ht & Hr); [|done]. rewrite E in *. rewrite Ht.
    split_and!; try done. intros Hl. rewrite Hl in Hlast. cbn in Hlast. lia.
  - intros (Hv & [rest Hr] & Hlast & ->). rewrite (parseHead_head r 0 v rest) by done. cbn.
    destruct (hasLastKey f); [|done]. specialize (Hlast eq_refl). cbn.
    destruct (Z.leb_spec v (lastKey f)); [lia|done].
Qed.

Lemma readStr_iff m r s r' :
  is_bytes (r_in r) -> 0 <= m < 6 ->
  readStr m r = Ok (s, r') <->
  is_u64 (Z.of_nat (length s)) /\ (exists rest, ahead r = head_bytes m (Z.of_nat (length s)) ++ s ++ rest) /\
  r' = advance (length (head_bytes m (Z.of_nat (length s)) ++ s)) consumeOne r.
Proof.
  intros Hb Hm. unfold readStr. split.
  - destruct (parseHeadRaw r) as [h|] eqn:Hh; [|done]. cbn [rbind].
    destruct (Z.eqb_spec (h_major h) m) as [E|]; [|done]. cbn [negb].
    destruct (Z.ltb_spec (Z.of_nat (length (r_in r) - (r_pos r + h_total h))) (h_arg h)); [done|]. intros [= <- <-].
    apply parseHead_inv in Hh as (_ & Hv & Ht & rest & Hr); [|done]. rewrite E in *. unfold is_u64 in Hv.
    pose proof (ahead_length r) as Hal. rewrite Hr, length_app, <- Ht in Hal.
    assert (subspan (r_pos r + h_total h) (Z.to_nat (h_arg h)) (r_in r) = take (Z.to_nat (h_arg h)) rest) as ->.
    { unfold subspan. rewrite <- drop_drop. fold (ahead r). by rewrite Hr, Ht, drop_app_length. }
    rewrite length_take, Nat.min_l by lia. rewrite Z2Nat.id by lia. split_and!; [done| |].
    + exists (drop (Z.to_nat (h_arg h)) rest). by rewrite take_drop.
    + rewrite length_app, length_take, Nat.min_l by lia. by rewrite Ht.
  - intros (Hv & [rest Hr] & ->). rewrite (parseHead_head r m _ _ Hb Hm Hv Hr). cbn -[Nat.add].
    rewrite Z.eqb_refl. cbn [negb]. pose proof (ahead_length r) as Hal. rewrite Hr, !length_app in Hal.
    destruct (Z.ltb_spec (Z.of_nat (length (r_in r) - (r_pos r + length (head_bytes m (Z.of_nat (length s))))))
      (Z.of_nat (length s))); [lia|]. rewrite Nat2Z.id, length_app. do 2 f_equal.
    unfold subspan. rewrite <- drop_drop. fold (ahead r). by rewrite Hr, drop_app_length, take_app_length.
Qed.

Definition simple_bytes (s : SimpleHead) : bytes :=
  match s_kind s with
  | KFalse => [0xF4] | KTrue => [0xF5] | KNull => [0xF6] | KFloat32 => 0xFA :: be 4 (s_floatBits s)
  end.

Lemma parseSimple_inv r s :
  is_bytes (r_in r) -> parseSimpleRaw r = Ok s ->
  s_total s = length (simple_bytes s) /\ is_u32 (s_floatBits s) /\ exists rest, ahead r = simple_bytes s ++ rest.
Proof.
  intros Hb H. unfold parseSimpleRaw in H. destruct (Nat.leb_spec (length (r_in r)) (r_pos r)); [done|]. cbv zeta in H.
  pose proof (ahead_length r) as Hal. destruct (ahead r) as [|b t] eqn:Ha; [cbn in Hal; lia|]. cbn [length] in Hal.
  destruct (ahead_cons r b t Ha) as (_ & Eb & Hsub). rewrite Eb in H.
  assert (is_bytes (b :: t)) as Hbt by (rewrite <- Ha; by apply Forall_drop).
  apply Forall_cons in Hbt as [Hb8 Ht]. destruct (initial_byte_inv b Hb8) as (_ & _ & Eq).
  destruct (Z.eqb_spec (Z.shiftr b 5) 7) as [E7|]; [|done]. cbn [negb] in H. rewrite E7 in Eq.
  destruct (Z.eqb_spec (Z.land b 31) 20) as [E|].
  { injection H as <-. rewrite E in Eq. cbn. split_and!; [done|done|]. exists t. by rewrite Eq. }
  destruct (Z.eqb_spec (Z.land b 31) 21) as [E|].
  { injection H as <-. rewrite E in Eq. cbn. split_and!; [done|done|]. exists t. by rewrite Eq. }
  destruct (Z.eqb_spec (Z.land b 31) 22) as [E|].
  { injection H as <-. rewrite E in Eq. cbn. split_and!; [done|done|]. exists t. by rewrite Eq. }
  destruct (Z.eqb_spec (Z.land b 31) 26) as [E|]; [|by destruct (_ || _)].
  destruct (Nat.ltb_spec (length (r_in r)) (r_pos r + 5)); [done|].
  rewrite (acc_loop u32 4) in H by (try apply u32_id; cbn; done || lia). rewrite Hsub in H.
  assert (length (take 4 t) = 4%nat) as Hl4 by (rewrite length_take; lia).
  assert (is_bytes (take 4 t)) as Hb4 by (by apply Forall_take).
  pose proof (be_from_bound _ Hb4) as Hbd. rewrite Hl4 in Hbd.
  injection H as <-. cbn [s_total s_floatBits simple_bytes s_kind]. cbn [length]. rewrite length_be.
  split_and!; [done|exact Hbd|]. exists (drop 4 t).
  pose proof (be_from_inv 0 _ Hb4) as Hinv. rewrite Hl4 in Hinv. rewrite Hinv. cbn [app].
  rewrite take_drop, Eq, E. done.
Qed.

Lemma parseSimple_bytes r s rest :
  is_bytes (r_in r) -> s_total s = length (simple_bytes s) -> is_u32 (s_floatBits s) ->
  (s_kind s = KFloat32 \/ s_floatBits s = 0) -> ahead r = simple_bytes s ++ rest -> parseSimpleRaw r = Ok s.
Proof.
  intros Hb Ht Hbits Hz Ha. destruct s as [k bits tot]. unfold simple_bytes in *. cbn [s_kind s_floatBits s_total] in *.
  pose proof (ahead_length r) as Hal.
  destruct (ahead r) as [|b t] eqn:E; [by destruct k|]. cbn [length] in Hal.
  destruct (ahead_cons r b t E) as (Hlt & Eb & Hsub). unfold parseSimpleRaw. rewrite Eb.
  destruct (Nat.leb_spec (length (r_in r)) (r_pos r)); [lia|].
  destruct k; pose proof (f_equal (hd 0) Ha) as Hhd; pose proof (f_equal tail Ha) as Htl; cbn [hd app tail] in Hhd; rewrite Hhd;
    try (destruct Hz as [ | -> ]; [done|]; subst tot; reflexivity).
  change (t = be 4 bits ++ rest) in Htl. subst tot t. change (Z.shiftr 0xFA 5) with 7. change (Z.land 0xFA 31) with 26. cbv zeta. cbn [Z.eqb negb Pos.eqb].
  rewrite length_app, length_be in Hal.
  destruct (Nat.ltb_spec (length (r_in r)) (r_pos r + 5)); [lia|].
  rewrite (acc_loop u32 4) by (try apply u32_id; cbn; done || lia). rewrite Hsub.
  rewrite take_app_length' by done. rewrite be_from_be, Z.mod_small by (unfold is_u32 in *; cbn; lia).
  done.
Qed.

(** ** Container bookkeeping *)

Lemma consumeOne_more m k hl lk below :
  1 < k -> consumeOne (mkFrame m k hl lk :: below) = mkFrame m (k - 1) hl lk :: below.
Proof.
  intros Hk. unfold consumeOne, dec. cbn [remaining isMap hasLastKey lastKey].
  destruct (Z.ltb_spec 0 k); [|lia]. cbn [afterConsume].
  destruct below as [|g below]; cbn [settle remaining]; destruct (Z.eqb_spec (k - 1) 0); done || lia.
Qed.

Lemma settle_empty m hl lk below : afterConsume (mkFrame m 0 hl lk :: below) = consumeOne below.
Proof. by destruct below as [|[m' k' hl' lk'] below]. Qed.

Lemma consumeOne_last m hl lk below : consumeOne (mkFrame m 1 hl lk :: below) = consumeOne below.
Proof. apply settle_empty. Qed.

Lemma open_nonempty m k below : 0 < k -> afterConsume (mkFrame m k false 0 :: below) = mkFrame m k false 0 :: below.
Proof.
  intros Hk. destruct below as [|g below]; cbn [afterConsume settle remaining]; destruct (Z.eqb_spec k 0); done || lia.
Qed.

Lemma advance_ahead n f r rest bs :
  ahead r = bs ++ rest -> length bs = n -> ahead (advance n f r) = rest.
Proof.
  intros Ha <-. unfold ahead, advance in *. cbn. rewrite <- drop_drop, Ha. apply drop_app_length.
Qed.

(** ** The profile's grammar

    [value b s]: the bytes [s] are one value of the deterministic profile with
    at most [b] levels of nested containers. *)

Inductive scalar : bytes -> Prop :=
| sc_uint v : is_u64 v -> scalar (head_bytes 0 v)
| sc_nint v : is_u64 v -> scalar (head_bytes 1 v)
| sc_bstr s : is_u64 (Z.of_nat (length s)) -> scalar (head_bytes 2 (Z.of_nat (length s)) ++ s)
| sc_tstr s : is_u64 (Z.of_nat (length s)) -> scalar (head_bytes 3 (Z.of_nat (length s)) ++ s)
| sc_simple s : is_u32 (s_floatBits s) -> scalar (simple_bytes s).

Fixpoint ascending (last : option Z) (ks : list Z) : Prop :=
  match ks with
  | [] => True
  | k :: ks => match last with Some l => l < k | None => True end /\ ascending (Some k) ks
  end.

Definition pair_bytes (kv : Z * bytes) : bytes := head_bytes 0 kv.1 ++ kv.2.

Fixpoint value (b : nat) (s : bytes) : Prop :=
  scalar s \/
  match b with
  | O => False
  | S b =>
      (exists vs, is_u32 (Z.of_nat (length vs)) /\ Forall (value b) vs /\
         s = head_bytes 4 (Z.of_nat (length vs)) ++ concat vs) \/
      (exists kvs, is_u32 (Z.of_nat (length kvs)) /\ ascending None kvs.*1 /\
         Forall (fun kv => is_u64 kv.1 /\ value b kv.2) kvs /\
         s = head_bytes 5 (Z.of_nat (length kvs)) ++ concat (pair_bytes <$> kvs))
  end.

Lemma head_shape m v : 0 <= m < 8 -> 0 <= v -> exists b s, head_bytes m v = b :: s /\ Z.shiftr b 5 = m.
Proof.
  intros Hm Hv. unfold head_bytes.
  case_ifs; eexists _, _; (split; [reflexivity|]); apply initial_byte; lia.
Qed.

Lemma peek_head r m v rest :
  0 <= m < 8 -> 0 <= v -> ahead r = head_bytes m v ++ rest ->
  peekType r = Ok (if m =? 0 then MUInt else if m =? 1 then MNegInt else if m =? 2 then MByteString
        else if m =? 3 then MTextString else if m =? 4 then MArray else if m =? 5 then MMap
        else if m =? 6 then MTag else MSimple).
Proof.
  intros Hm Hv Ha. destruct (head_shape m v Hm Hv) as (b & s & Eh & Es). rewrite Eh in Ha.
  destruct (ahead_cons r b (s ++ rest) Ha) as (Hlt & Eb & _). unfold peekType. rewrite Eb, Es.
  destruct (Nat.leb_spec (length (r_in r)) (r_pos r)); [lia|done].
Qed.

Lemma peek_simple r s rest : ahead r = simple_bytes s ++ rest -> peekType r = Ok MSimple.
Proof.
  intros Ha. assert (exists b t, ahead r = b :: t /\ Z.shiftr b 5 = 7) as (b & t & E & Eb).
  { destruct s as [[]]; rewrite Ha; eexists _, _; (split; [reflexivity|done]). }
  destruct (ahead_cons r b t E) as (Hlt & Ebyte & _). unfold peekType. rewrite Ebyte, Eb.
  destruct (Nat.leb_spec (length (r_in r)) (r_pos r)); [lia|done].
Qed.

Lemma skip_scalar b r s rest :
  is_bytes (r_in r) -> scalar s -> ahead r = s ++ rest -> skip b r = Ok (advance (length s) consumeOne r).
Proof.
  intros Hb Hs Ha. destruct Hs as [v Hv|v Hv|t Ht|t Ht|t Ht].
  - assert (skip b r = let? (_, r) := readUint r in Ok r) as ->.
    { destruct b; cbn [skip]; by rewrite (peek_head r 0 v rest) by (done || apply Hv). }
    by rewrite (proj2 (readUint_iff r v _ Hb) (conj Hv (conj (ex_intro _ rest Ha) eq_refl))).
  - assert (skip b r = let? (_, r) := readInt r in Ok r) as ->.
    { destruct b; cbn [skip]; by rewrite (peek_head r 1 v rest) by (done || apply Hv). }
    unfold readInt. by rewrite (parseHead_head r 1 v rest) by done.
  - rewrite <- app_assoc in Ha.
    assert (skip b r = let? (_, r) := readBstr r in Ok r) as ->.
    { destruct b; cbn [skip]; by rewrite (peek_head r 2 _ _ ltac:(done) (proj1 Ht) Ha). }
    unfold readBstr. by rewrite (proj2 (readStr_iff 2 r t _ Hb ltac:(done)) (conj Ht (conj (ex_intro _ rest Ha) eq_refl))).
  - rewrite <- app_assoc in Ha.
    assert (skip b r = let? (_, r) := readTstr r in Ok r) as ->.
    { destruct b; cbn [skip]; by rewrite (peek_head r 3 _ _ ltac:(done) (proj1 Ht) Ha). }
    unfold readTstr. by rewrite (proj2 (readStr_iff 3 r t _ Hb ltac:(done)) (conj Ht (conj (ex_intro _ rest Ha) eq_refl))).
  - assert (skip b r = let? s := parseSimpleRaw r in Ok (advance (s_total s) consumeOne r)) as ->.
    { destruct b; cbn [skip]; by rewrite (peek_simple r t rest Ha). }
    assert (exists t', simple_bytes t' = simple_bytes t /\ parseSimpleRaw r = Ok t' /\ s_total t' = length (simple_bytes t)) as (t' & _ & -> & E).
    { exists (mkSimple (s_kind t) (match s_kind t with KFloat32 => s_floatBits t | _ => 0 end) (length (simple_bytes t))).
      assert (simple_bytes (mkSimple (s_kind t) (match s_kind t with KFloat32 => s_floatBits t | _ => 0 end)
        (length (simple_bytes t))) = simple_bytes t) as Eb by (unfold simple_bytes; cbn; by destruct (s_kind t)).
      split_and!; [done| |done]. apply (parseSimple_bytes r _ rest); rewrite ?Eb; cbn [s_kind s_floatBits s_total]; try done.
      - by destruct (s_kind t).
      - destruct (s_kind t); auto. }
    cbn [rbind]. by rewrite E.
Qed.

Lemma enter_iff m map r n r' :
  is_bytes (r_in r) -> 0 <= m < 6 ->
  enterContainer m map r = Ok (n, r') <->
  is_u32 n /\ (length (r_stack r) < kMaxDepth)%nat /\ (exists rest, ahead r = head_bytes m n ++ rest) /\
  r' = advance (length (head_bytes m n))
         (fun stk => afterConsume (mkFrame map (if map then n * 2 else n) false 0 :: stk)) r.
Proof.
  intros Hb Hm. unfold enterContainer.
  assert (forall n, is_u32 n -> (if map then u64 (n * 2) else n) = (if map then n * 2 else n)) as Hu.
  { intros k Hk. destruct map; [|done]. apply u64_id. unfold is_u32, is_u64 in *. lia. }
  split.
  - destruct (parseHeadRaw r) as [h|] eqn:Hh; [|done]. cbn [rbind].
    destruct (Z.eqb_spec (h_major h) m) as [E|]; [|done]. cbn [negb].
    destruct (Nat.ltb_spec kMaxDepth (length (r_stack r) + 1)); [done|].
    destruct (Z.ltb_spec 0xFFFFFFFF (h_arg h)); [done|]. intros [= <- <-].
    apply parseHead_inv in Hh as (_ & Hv & Ht & Hr); [|done]. rewrite E in *.
    assert (is_u32 (h_arg h)) as Hn by (unfold is_u32, is_u64 in *; lia).
    rewrite Hu, Ht by done. split_and!; try done. lia.
  - intros (Hn & Hd & [rest Hr] & ->).
    rewrite (parseHead_head r m n rest) by (done || unfold is_u32, is_u64 in *; lia). cbn [rbind h_major h_arg h_total].
    rewrite Z.eqb_refl. cbn [negb]. rewrite Hu by done.
    destruct (Nat.ltb_spec kMaxDepth (length (r_stack r) + 1)); [lia|].
    destruct (Z.ltb_spec 0xFFFFFFFF n); [unfold is_u32 in *; lia|done].
Qed.

(** ** One level of skipValue *)

(** [skip] with budget [b] accepts exactly the values of that budget. *)
Definition skips (b : nat) : Prop := forall r r',
  is_bytes (r_in r) -> (length (r_stack r) + b = kMaxDepth)%nat ->
  skip b r = Ok r' <-> exists s rest, ahead r = s ++ rest /\ value b s /\ r' = advance (length s) consumeOne r.

Lemma advance_advance n k f g r : advance k g (advance n f r) = advance (n + k) (fun stk => g (f stk)) r.
Proof. unfold advance. cbn. by rewrite Nat.add_assoc. Qed.

Lemma advance_stack n f g r : f (r_stack r) = g (r_stack r) -> advance n f r = advance n g r.
Proof. unfold advance. by intros ->. Qed.

Lemma array_loop b stk k r r' hl lk :
  skips b -> is_bytes (r_in r) -> r_stack r = mkFrame false (Z.of_nat (S k)) hl lk :: stk ->
  (S (length stk) + b = kMaxDepth)%nat ->
  forR (Z.of_nat (S k)) (skip b) r = Ok r' <->
  exists vs rest, length vs = S k /\ Forall (value b) vs /\ ahead r = concat vs ++ rest /\
    r' = advance (length (concat vs)) (fun _ => consumeOne stk) r.
Proof.
  intros Hskip. revert r r'. induction k as [|k IH]; intros r r' Hb Hs Hd.
  - rewrite forR_S. cbn [Z.of_nat forR]. split.
    + destruct (skip b r) as [r1|] eqn:E; [|done]. cbn [rbind]. intros [= <-].
      apply Hskip in E as (s & rest & Ha & Hv & ->); [|done|rewrite Hs; done].
      exists [s], rest. cbn [concat]. rewrite app_nil_r. split_and!; [done|by constructor|done|].
      apply advance_stack. rewrite Hs. apply consumeOne_last.
    + intros (vs & rest & Hl & Hv & Ha & ->). destruct vs as [|s [|]]; [done| |done].
      apply Forall_cons in Hv as [Hv _]. cbn [concat] in *. rewrite app_nil_r in *.
      assert (skip b r = Ok (advance (length s) consumeOne r)) as ->
        by (apply Hskip; [done|by rewrite Hs|]; by exists s, rest).
      cbn [rbind]. f_equal. apply advance_stack. rewrite Hs. apply consumeOne_last.
  - rewrite forR_S. split.
    + destruct (skip b r) as [r1|] eqn:E; [|done]. cbn [rbind]. intros H.
      apply Hskip in E as (s & rest & Ha & Hv & ->); [|done|rewrite Hs; done].
      apply IH in H as (vs & rest' & Hl & Hvs & Ha' & ->); [|done| |done].
      2:{ cbn [advance r_stack]. rewrite Hs. rewrite consumeOne_more by lia. do 2 f_equal. lia. }
      rewrite (advance_ahead _ _ r rest s) in Ha' by done. subst rest.
      exists (s :: vs), rest'. cbn [concat length]. rewrite advance_advance, length_app.
      split_and!; [lia|by constructor|by rewrite <- app_assoc|done].
    + intros (vs & rest & Hl & Hv & Ha & ->). destruct vs as [|s vs]; [done|].
      apply Forall_cons in Hv as [Hv Hvs]. cbn [concat] in *. rewrite <- app_assoc in Ha.
      assert (skip b r = Ok (advance (length s) consumeOne r)) as ->
        by (apply Hskip; [done|by rewrite Hs|]; by exists s, (concat vs ++ rest)).
      cbn [rbind]. apply IH; [done| |done|].
      * cbn [advance r_stack]. rewrite Hs. rewrite consumeOne_more by lia. do 2 f_equal. lia.
      * exists vs, rest. rewrite (advance_ahead _ _ r (concat vs ++ rest) s) by done.
        rewrite advance_advance, length_app. cbn in Hl. split_and!; [lia|done|done|done].
Qed.

(** A key and its value: two slots of the map. *)
Definition pair_body (b : nat) (r : CborReader) : Result CborReader DecodeError :=
  let? (_, r) := readKey r in skip b r.

Lemma pair_iff b stk n hl lk r r' :
  skips b -> is_bytes (r_in r) -> r_stack r = mkFrame true n hl lk :: stk -> 1 < n ->
  (S (length stk) + b = kMaxDepth)%nat ->
  pair_body b r = Ok r' <->
  exists kv rest, is_u64 kv.1 /\ value b kv.2 /\ (hl = true -> lk < kv.1) /\ ahead r = pair_bytes kv ++ rest /\
    r' = advance (length (pair_bytes kv)) (fun _ => consumeOne (mkFrame true (n - 1) true kv.1 :: stk)) r.
Proof.
  intros Hskip Hb Hs Hn Hd. unfold pair_body, pair_bytes. split.
  - destruct (readKey r) as [[k r1]|] eqn:E; [|done]. cbn [rbind]. intros H.
    apply (readKey_iff r _ stk k r1 Hb Hs eq_refl) in E as (Hk & [rest Ha] & Hl & ->). cbn [hasLastKey lastKey remaining] in *.
    apply Hskip in H as (s & rest' & Ha' & Hv & ->); [|done|cbn [advance r_stack]; rewrite consumeOne_more by lia; done].
    rewrite (advance_ahead _ _ r rest (head_bytes 0 k)) in Ha' by done. subst rest.
    exists (k, s), rest'. cbn [fst snd]. rewrite advance_advance, length_app.
    split_and!; try done; [by rewrite <- app_assoc|]. apply advance_stack. by rewrite (consumeOne_more true n) by lia.
  - intros ([k s] & rest & Hk & Hv & Hl & Ha & ->). cbn [fst snd] in *. rewrite <- app_assoc in Ha.
    rewrite (proj2 (readKey_iff r _ stk k _ Hb Hs eq_refl) (conj Hk (conj (ex_intro _ (s ++ rest) Ha) (conj Hl eq_refl)))).
    cbn [rbind remaining]. apply Hskip; [done|cbn [advance r_stack]; rewrite consumeOne_more by lia; done|].
    exists s, rest. rewrite (advance_ahead _ _ r (s ++ rest) (head_bytes 0 k)) by done.
    rewrite advance_advance, length_app. split_and!; try done. apply advance_stack. by rewrite (consumeOne_more true n) by lia.
Qed.

Definition last_of (hl : bool) (lk : Z) : option Z := if hl then Some lk else None.

Lemma map_loop b stk k r r' hl lk :
  skips b -> is_bytes (r_in r) -> r_stack r = mkFrame true (2 * Z.of_nat (S k)) hl lk :: stk ->
  (S (length stk) + b = kMaxDepth)%nat ->
  forR (Z.of_nat (S k)) (pair_body b) r = Ok r' <->
  exists kvs rest, length kvs = S k /\ ascending (last_of hl lk) kvs.*1 /\
    Forall (fun kv => is_u64 kv.1 /\ value b kv.2) kvs /\ ahead r = concat (pair_bytes <$> kvs) ++ rest /\
    r' = advance (length (concat (pair_bytes <$> kvs))) (fun _ => consumeOne stk) r.
Proof.
  intros Hskip. revert r r' hl lk. induction k as [|k IH]; intros r r' hl lk Hb Hs Hd; rewrite forR_S.
  - cbn [Z.of_nat forR]. split.
    + destruct (pair_body b r) as [r1|] eqn:E; [|done]. cbn [rbind]. intros [= <-].
      apply (pair_iff b stk _ hl lk r r1 Hskip Hb Hs ltac:(lia) Hd) in E as (kv & rest & Hk & Hv & Hl & Ha & ->).
      exists [kv], rest. cbn [concat fmap list_fmap ascending]. rewrite app_nil_r.
      split_and!; [done|unfold last_of; destruct hl; auto|done|by constructor; [|constructor]|done|].
      apply advance_stack. apply consumeOne_last.
    + intros (kvs & rest & Hl & Hasc & Hv & Ha & ->). destruct kvs as [|kv [|]]; [done| |done].
      apply Forall_cons in Hv as [[Hk Hv] _]. cbn [concat fmap list_fmap] in *. rewrite app_nil_r in *.
      assert (hl = true -> lk < kv.1) as Hfst by (intros ->; apply Hasc).
      rewrite (proj2 (pair_iff b stk _ hl lk r _ Hskip Hb Hs ltac:(lia) Hd)
        (ex_intro _ kv (ex_intro _ rest (conj Hk (conj Hv (conj Hfst (conj Ha eq_refl))))))).
      cbn [rbind]. f_equal. apply advance_stack. apply consumeOne_last.
  - split.
    + destruct (pair_body b r) as [r1|] eqn:E; [|done]. cbn [rbind]. intros H.
      apply (pair_iff b stk _ hl lk r r1 Hskip Hb Hs ltac:(lia) Hd) in E as (kv & rest & Hk & Hv & Hl & Ha & ->).
      apply (IH _ _ true kv.1) in H as (kvs & rest' & Hlen & Hasc & Hvs & Ha' & ->); [|done| |done].
      2:{ cbn [advance r_stack]. rewrite consumeOne_more by lia. do 2 f_equal. lia. }
      rewrite (advance_ahead _ _ r rest (pair_bytes kv)) in Ha' by done. subst rest.
      exists (kv :: kvs), rest'. cbn [concat fmap list_fmap length ascending]. rewrite advance_advance, length_app.
      split_and!; [lia|unfold last_of; destruct hl; auto|done|by constructor|by rewrite <- app_assoc|done].
    + intros (kvs & rest & Hl & Hasc & Hv & Ha & ->). destruct kvs as [|kv kvs]; [done|].
      apply Forall_cons in Hv as [[Hk Hv] Hvs]. cbn [concat fmap list_fmap ascending] in *. rewrite <- app_assoc in Ha.
      destruct Hasc as [Hfirst Hasc].
      assert (hl = true -> lk < kv.1) as Hfst by (intros ->; apply Hfirst).
      rewrite (proj2 (pair_iff b stk _ hl lk r _ Hskip Hb Hs ltac:(lia) Hd)
        (ex_intro _ kv (ex_intro _ _ (conj Hk (conj Hv (conj Hfst (conj Ha eq_refl))))))).
      cbn [rbind]. apply (IH _ _ true kv.1); [done| |done|].
      * cbn [advance r_stack]. rewrite consumeOne_more by lia. do 2 f_equal. lia.
      * exists kvs, rest. rewrite (advance_ahead _ _ r _ (pair_bytes kv)) by done.
        rewrite advance_advance, length_app. cbn in Hl. split_and!; [lia|done|done|done|done].
Qed.

Lemma enter_stack m map n r :
  is_u32 n ->
  r_stack (advance (length (head_bytes m n)) (fun stk => afterConsume (mkFrame map (if map then n * 2 else n) false 0 :: stk)) r)
  = if n =? 0 then consumeOne (r_stack r) else mkFrame map (if map then n * 2 else n) false 0 :: r_stack r.
Proof.
  unfold is_u32. intros Hn. cbn [advance r_stack]. destruct (Z.eqb_spec n 0) as [->|].
  - destruct map; apply settle_empty.
  - apply open_nonempty. destruct map; lia.
Qed.

Lemma skip_array b r r' :
  skips b -> is_bytes (r_in r) -> (length (r_stack r) + S b = kMaxDepth)%nat ->
  (let? (n, r) := readArrayHeader r in forR n (skip b) r) = Ok r' <->
  exists vs rest, is_u32 (Z.of_nat (length vs)) /\ Forall (value b) vs /\
    ahead r = (head_bytes 4 (Z.of_nat (length vs)) ++ concat vs) ++ rest /\
    r' = advance (length (head_bytes 4 (Z.of_nat (length vs)) ++ concat vs)) consumeOne r.
Proof.
  intros Hskip Hb Hd. unfold readArrayHeader. assert (length (r_stack r) < kMaxDepth)%nat as Hlt by lia.
  assert (forall n r1 rest, is_u32 n -> ahead r = head_bytes 4 n ++ rest ->
    r1 = advance (length (head_bytes 4 n)) (fun stk => afterConsume (mkFrame false n false 0 :: stk)) r ->
    forR n (skip b) r1 = Ok r' <-> exists vs rest', n = Z.of_nat (length vs) /\ Forall (value b) vs /\ rest = concat vs ++ rest' /\
      r' = advance (length (head_bytes 4 n ++ concat vs)) consumeOne r) as Hloop.
  { intros n r1 rest Hn Ha Er. 
    assert (r_stack r1 = if n =? 0 then consumeOne (r_stack r) else mkFrame false n false 0 :: r_stack r) as Hst
      by (rewrite Er; by apply (enter_stack 4 false)).
    assert (ahead r1 = rest) as Har by (rewrite Er; by eapply advance_ahead).
    assert (n = Z.of_nat (Z.to_nat n)) as Hnat by (unfold is_u32 in Hn; lia).
    destruct (Z.to_nat n) as [|k] eqn:Ek.
    - assert (n = 0) as -> by lia. cbn [forR]. split.
      + intros [= <-]. exists [], rest. rewrite app_nil_r. split_and!; [done|by constructor|done|].
        rewrite Er. apply advance_stack. apply settle_empty.
      + intros (vs & rest' & Hl & _ & _ & ->). destruct vs; [|cbn in Hl; lia]. f_equal. rewrite Er, app_nil_r.
        apply advance_stack. apply settle_empty.
    - destruct (Z.eqb_spec n 0); [lia|].
      assert (is_bytes (r_in r1)) as Hb1 by (by rewrite Er). rewrite Hnat in Hst.
      pose proof (array_loop b (r_stack r) k r1 r' false 0 Hskip Hb1 Hst ltac:(lia)) as Hl.
      rewrite <- Hnat in Hl. rewrite Hl. clear Hl.
      rewrite Har. split; intros (vs & rest' & Hl & Hv & -> & ->); exists vs, rest'.
      + split_and!; try done; [by rewrite Hl|]. rewrite Er, advance_advance, length_app. done.
      + split_and!; try done; [lia|]. rewrite Er, advance_advance, length_app. done. }
  split.
  - destruct (enterContainer 4 false r) as [[n r1]|] eqn:E; [|done]. cbn [rbind].
    apply (enter_iff 4 false r n r1 Hb ltac:(lia)) in E as (Hn & _ & [rest Ha] & Er).
    intros H. apply (Hloop n r1 rest Hn Ha Er) in H as (vs & rest' & En & Hv & -> & ->). subst n.
    exists vs, rest'. by rewrite <- app_assoc.
  - intros (vs & rest & Hn & Hv & Ha & ->). rewrite <- app_assoc in Ha.
    rewrite (proj2 (enter_iff 4 false r _ _ Hb ltac:(lia)) (conj Hn (conj Hlt (conj (ex_intro _ _ Ha) eq_refl)))).
    cbn [rbind]. apply (Hloop _ _ _ Hn Ha eq_refl). by exists vs, rest.
Qed.

Lemma skip_map b r r' :
  skips b -> is_bytes (r_in r) -> (length (r_stack r) + S b = kMaxDepth)%nat ->
  (let? (n, r) := readMapHeader r in forR n (pair_body b) r) = Ok r' <->
  exists kvs rest, is_u32 (Z.of_nat (length kvs)) /\ ascending None kvs.*1 /\
    Forall (fun kv => is_u64 kv.1 /\ value b kv.2) kvs /\
    ahead r = (head_bytes 5 (Z.of_nat (length kvs)) ++ concat (pair_bytes <$> kvs)) ++ rest /\
    r' = advance (length (head_bytes 5 (Z.of_nat (length kvs)) ++ concat (pair_bytes <$> kvs))) consumeOne r.
Proof.
  intros Hskip Hb Hd. unfold readMapHeader. assert (length (r_stack r) < kMaxDepth)%nat as Hlt by lia.
  assert (forall n r1 rest, is_u32 n -> ahead r = head_bytes 5 n ++ rest ->
    r1 = advance (length (head_bytes 5 n)) (fun stk => afterConsume (mkFrame true (n * 2) false 0 :: stk)) r ->
    forR n (pair_body b) r1 = Ok r' <-> exists kvs rest', n = Z.of_nat (length kvs) /\ ascending None kvs.*1 /\
      Forall (fun kv => is_u64 kv.1 /\ value b kv.2) kvs /\ rest = concat (pair_bytes <$> kvs) ++ rest' /\
      r' = advance (length (head_bytes 5 n ++ concat (pair_bytes <$> kvs))) consumeOne r) as Hloop.
  { intros n r1 rest Hn Ha Er. 
    assert (r_stack r1 = if n =? 0 then consumeOne (r_stack r) else mkFrame true (n * 2) false 0 :: r_stack r) as Hst
      by (rewrite Er; by apply (enter_stack 5 true)).
    assert (ahead r1 = rest) as Har by (rewrite Er; by eapply advance_ahead).
    assert (n = Z.of_nat (Z.to_nat n)) as Hnat by (unfold is_u32 in Hn; lia).
    destruct (Z.to_nat n) as [|k] eqn:Ek.
    - assert (n = 0) as -> by lia. cbn [forR]. split.
      + intros [= <-]. exists [], rest. rewrite app_nil_r. split_and!; [done|done|by constructor|done|].
        rewrite Er. apply advance_stack. apply settle_empty.
      + intros (vs & rest' & Hl & _ & _ & _ & ->). destruct vs; [|cbn in Hl; lia]. f_equal. rewrite Er, app_nil_r.
        apply advance_stack. apply settle_empty.
    - destruct (Z.eqb_spec n 0); [lia|].
      assert (n * 2 = 2 * Z.of_nat (S k)) as E2 by lia. rewrite E2 in Hst. rewrite Hnat at 1.
      assert (is_bytes (r_in r1)) as Hb1 by (by rewrite Er).
      rewrite (map_loop b (r_stack r) k r1 r' false 0 Hskip Hb1 Hst ltac:(lia)).
      rewrite Har. split; intros (vs & rest' & Hl & Hasc & Hv & -> & ->); exists vs, rest'.
      + split_and!; try done; [by rewrite Hl|]. rewrite Er, advance_advance, length_app. done.
      + split_and!; try done; [lia|]. rewrite Er, advance_advance, length_app. done. }
  split.
  - destruct (enterContainer 5 true r) as [[n r1]|] eqn:E; [|done]. cbn [rbind].
    apply (enter_iff 5 true r n r1 Hb ltac:(lia)) in E as (Hn & _ & [rest Ha] & Er).
    intros H. apply (Hloop n r1 rest Hn Ha Er) in H as (vs & rest' & En & Hasc & Hv & -> & ->). subst n.
    exists vs, rest'. by rewrite <- app_assoc.
  - intros (vs & rest & Hn & Hasc & Hv & Ha & ->). rewrite <- app_assoc in Ha.
    rewrite (proj2 (enter_iff 5 true r _ _ Hb ltac:(lia)) (conj Hn (conj Hlt (conj (ex_intro _ _ Ha) eq_refl)))).
    cbn [rbind]. apply (Hloop _ _ _ Hn Ha eq_refl). by exists vs, rest.
Qed.

Lemma skip_scalar_inv b r r' :
  is_bytes (r_in r) -> skip b r = Ok r' ->
  (exists s rest, ahead r = s ++ rest /\ scalar s /\ r' = advance (length s) consumeOne r) \/
  (exists n r1, readArrayHeader r = Ok (n, r1) /\
     match b with O => False | S b => forR n (skip b) r1 = Ok r' end) \/
  (exists n r1, readMapHeader r = Ok (n, r1) /\
     match b with O => False | S b => forR n (pair_body b) r1 = Ok r' end).
Proof.
  intros Hb H. destruct b as [|b]; cbn [skip] in H; destruct (peekType r) as [[]|]; cbn [rbind] in H; try done.
  all: try (right; left; destruct (readArrayHeader r) as [[n r1]|]; [|done]; by exists n, r1).
  all: try (right; right; destruct (readMapHeader r) as [[n r1]|]; [|done]; by exists n, r1).
  all: left.
  all: try (destruct (readUint r) as [[v r1]|] eqn:E; [|done]; injection H as <-;
            apply readUint_iff in E as (Hv & [rest Ha] & ->); [|done]; exists (head_bytes 0 v), rest; by auto using scalar).
  all: try (destruct (readBstr r) as [[v r1]|] eqn:E; [|done]; injection H as <-;
            apply readStr_iff in E as (Hv & [rest Ha] & ->); [|done|done];
            exists (head_bytes 2 (Z.of_nat (length v)) ++ v), rest; rewrite <- app_assoc; by auto using scalar).
  all: try (destruct (readTstr r) as [[v r1]|] eqn:E; [|done]; injection H as <-;
            apply readStr_iff in E as (Hv & [rest Ha] & ->); [|done|done];
            exists (head_bytes 3 (Z.of_nat (length v)) ++ v), rest; rewrite <- app_assoc; by auto using scalar).
  all: try (destruct (parseSimpleRaw r) as [s|] eqn:E; [|done]; injection H as <-;
            apply parseSimple_inv in E as (-> & Hv & [rest Ha]); [|done]; exists (simple_bytes s), rest; by auto using scalar).
  all: unfold readInt in H; destruct (parseHeadRaw r) as [h|] eqn:E; [|done]; cbn [rbind] in H;
    apply parseHead_inv in E as (_ & Hv & Ht & [rest Ha]); [|done];
    (destruct (Z.eqb_spec (h_major h) 0) as [E0|];
      [|destruct (Z.eqb_spec (h_major h) 1) as [E0|]; [|done]]);
    injection H as <-; exists (head_bytes (h_major h) (h_arg h)), rest;
    (split_and!; [done|rewrite E0; by constructor|by rewrite Ht]).
Qed.

Lemma skip_iff b : skips b.
Proof.
  induction b as [|b IH]; intros r r' Hb Hd.
  - split.
    + intros H. apply skip_scalar_inv in H as [(s & rest & Ha & Hs & ->)|[(n & r1 & _ & [])|(n & r1 & _ & [])]]; [|done].
      exists s, rest. split_and!; [done|by left|done].
    + intros (s & rest & Ha & [Hs|[]] & ->). by eapply skip_scalar.
  - split.
    + intros H. apply skip_scalar_inv in H as [(s & rest & Ha & Hs & ->)|[(n & r1 & E & H)|(n & r1 & E & H)]]; [| | |done].
      * exists s, rest. split_and!; [done|by left|done].
      * pose proof (skip_array b r r' IH Hb Hd) as Hl. rewrite E in Hl. apply Hl in H as (vs & rest & Hn & Hv & Ha & ->).
        eexists _, rest. split_and!; [exact Ha|right; left; by exists vs|done].
      * pose proof (skip_map b r r' IH Hb Hd) as Hl. rewrite E in Hl. apply Hl in H as (vs & rest & Hn & Hasc & Hv & Ha & ->).
        eexists _, rest. split_and!; [exact Ha|right; right; by exists vs|done].
    + intros (s & rest & Ha & [Hs|[(vs & Hn & Hv & ->)|(vs & Hn & Hasc & Hv & ->)]] & ->); [by eapply skip_scalar| |].
      * cbn [skip]. pose proof Ha as Ha'. rewrite <- app_assoc in Ha'.
        rewrite (peek_head r 4 _ _ ltac:(done) (proj1 Hn) Ha'). cbn [rbind Z.eqb Pos.eqb].
        apply (skip_array b r _ IH Hb Hd). by exists vs, rest.
      * cbn [skip]. pose proof Ha as Ha'. rewrite <- app_assoc in Ha'.
        rewrite (peek_head r 5 _ _ ltac:(done) (proj1 Hn) Ha'). cbn [rbind Z.eqb Pos.eqb].
        apply (skip_map b r _ IH Hb Hd). by exists vs, rest.
Qed.

(** ** The writer as a sequence of calls *)

Inductive op : Type :=
| OpMap (n : Z) | OpArr (n : Z) | OpKey (k : Z) | OpUint (v : Z) | OpInt (v : Z)
| OpBool (v : bool) | OpNull | OpF32 (bits : Z) | OpTstr (s : bytes) | OpBstr (s : bytes).

Definition exec (o : op) (w : CborWriter) : CborWriter :=
  match o with
  | OpMap n => mapHeader n w | OpArr n => arrayHeader n w | OpKey k => key k w
  | OpUint v => uintVal v w | OpInt v => intVal v w | OpBool v => boolVal v w | OpNull => nullVal w
  | OpF32 b => f32Val b w | OpTstr s => tstrVal s w | OpBstr s => bstrVal s w
  end.

Definition run (ops : list op) (w : CborWriter) : CborWriter := foldl (fun w o => exec o w) w ops.

(** The canonical bytes of one call, and what it does to the open containers
    ([None]: the call is refused). *)
Definition op_bytes (o : op) : bytes :=
  match o with
  | OpMap n => head_bytes 5 n | OpArr n => head_bytes 4 n | OpKey k => head_bytes 0 k
  | OpUint v => head_bytes 0 v
  | OpInt v => if 0 <=? v then head_bytes 0 v else head_bytes 1 (-1 - v)
  | OpBool v => [if v then 0xF5 else 0xF4] | OpNull => [0xF6] | OpF32 b => 0xFA :: be 4 b
  | OpTstr s => head_bytes 3 (Z.of_nat (length s)) ++ s
  | OpBstr s => head_bytes 2 (Z.of_nat (length s)) ++ s
  end.

Definition push (m : bool) (n : Z) (stk : list Frame) : option (list Frame) :=
  if (length stk <? kMaxDepth)%nat then Some (afterConsume (mkFrame m n false 0 :: stk)) else None.

Definition op_stack (o : op) (stk : list Frame) : option (list Frame) :=
  match o with
  | OpMap n => push true (n * 2) stk
  | OpArr n => push false n stk
  | OpKey k =>
      match stk with
      | f :: below => if isMap f && negb (hasLastKey f && (k <=? lastKey f))
                      then Some (consumeOne (mkFrame (isMap f) (remaining f) true k :: below)) else None
      | [] => None
      end
  | _ => Some (consumeOne stk)
  end.

Definition op_wf (o : op) : Prop :=
  match o with
  | OpMap n | OpArr n => is_u32 n
  | OpKey v | OpUint v => is_u64 v
  | OpInt v => -9223372036854775808 <= v < 9223372036854775808
  | OpF32 b => is_u32 b
  | OpTstr s | OpBstr s => is_u64 (Z.of_nat (length s))
  | _ => True
  end.

Fixpoint ops_stack (ops : list op) (stk : list Frame) : option (list Frame) :=
  match ops with [] => Some stk | o :: ops => op_stack o stk ≫= ops_stack ops end.

Definition ops_bytes (ops : list op) : bytes := concat (op_bytes <$> ops).

Lemma failed_ensure_put bs w : w_failed w = true -> ensure_put bs w = w.
Proof. intros Hf. unfold ensure_put, ensure. by rewrite Hf. Qed.

Lemma failed_writeHead m v w : w_failed w = true -> writeHead m v w = w.
Proof. intros Hf. unfold writeHead. case_ifs; by apply failed_ensure_put. Qed.

Lemma failed_exec o w : w_failed w = true -> w_failed (exec o w) = true.
Proof.
  intros Hf.
  assert (forall m v, w_failed (writeHead m v w) = true) as Hhead by (intros; by rewrite failed_writeHead).
  assert (forall m n, openContainer m n w = w) as Hopen by (intros; unfold openContainer; by rewrite Hf).
  destruct o; cbn [exec]; unfold mapHeader, arrayHeader, key, keyRaw, uintVal, intVal, boolVal, nullVal, f32Val,
    tstrVal, bstrVal, strVal, writeSimple, ensure; rewrite ?Hopen, ?Hhead, ?Hf, ?failed_ensure_put by done; cbn;
    rewrite ?Hhead, ?Hf; try done.
  case_ifs; apply Hhead.
Qed.

Lemma failed_run ops w : w_failed w = true -> w_failed (run ops w) = true.
Proof. revert w. induction ops as [|o ops IH]; intros w Hf; [done|]. apply IH. by apply failed_exec. Qed.

(** One call on a writer that is not full. *)
Definition appended (bs : bytes) (stk : list Frame) (w : CborWriter) : CborWriter :=
  mkCborWriter (write_at (w_pos w) bs (w_out w)) (w_pos w + length bs) false stk.

Lemma ensure_put_spec bs w :
  w_failed w = false ->
  ensure_put bs w = if (w_pos w + length bs <=? length (w_out w))%nat then appended bs (w_stack w) w else fail w.
Proof.
  intros Hf. unfold ensure_put, ensure, appended, put. rewrite Hf.
  destruct (Nat.ltb_spec (length (w_out w)) (w_pos w + length bs)), (Nat.leb_spec (w_pos w + length bs) (length (w_out w)));
    cbn; rewrite ?Hf; done || lia.
Qed.

(** [e] is the outcome of appending [bs] and leaving the containers [stk]. *)
Definition appends (bs : bytes) (stk : list Frame) (w e : CborWriter) : Prop :=
  if (w_pos w + length bs <=? length (w_out w))%nat then e = appended bs stk w else w_failed e = true.

Lemma appends_scalar bs w :
  w_failed w = false -> appends bs (consumeOne (w_stack w)) w (on_stack consumeOne (ensure_put bs w)).
Proof. intros Hf. unfold appends. rewrite ensure_put_spec by done. by destruct (_ <=? _)%nat. Qed.

Lemma appends_str m s w :
  w_failed w = false -> 0 <= m < 8 ->
  appends (head_bytes m (Z.of_nat (length s)) ++ s) (consumeOne (w_stack w)) w (strVal m s w).
Proof.
  intros Hf Hm. unfold appends, strVal. rewrite writeHead_spec, ensure_put_spec, length_app by (done || lia).
  set (h := head_bytes m (Z.of_nat (length s))).
  destruct (Nat.leb_spec (w_pos w + length h) (length (w_out w))) as [Hh|Hh].
  2:{ cbn. destruct (Nat.leb_spec (w_pos w + (length h + length s)) (length (w_out w))); [lia|done]. }
  cbn [appended w_failed]. unfold ensure. cbn [w_failed w_out w_pos appended].
  rewrite length_write_at by done.
  destruct (Nat.leb_spec (w_pos w + (length h + length s)) (length (w_out w))),
    (Nat.ltb_spec (length (w_out w)) (w_pos w + length h + length s)); try lia; [|done].
  unfold appended, put, on_stack. cbn [w_out w_pos w_failed w_stack]. rewrite (write_at_app (w_pos w) h s) by lia. rewrite length_app. f_equal. lia.
Qed.

Lemma appends_open m n major w :
  w_failed w = false -> 0 <= major < 8 -> 0 <= n ->
  forall slots, match push m slots (w_stack w) with
  | Some stk => appends (head_bytes major n) stk w (writeHead major n (openContainer m slots w))
  | None => w_failed (writeHead major n (openContainer m slots w)) = true
  end.
Proof.
  intros Hf Hm Hn slots. unfold push, openContainer, appends. rewrite Hf, writeHead_spec by done.
  destruct (Nat.ltb_spec (length (w_stack w)) kMaxDepth), (Nat.ltb_spec kMaxDepth (length (w_stack w) + 1)); try lia.
  - rewrite ensure_put_spec by done. cbn [w_pos w_out on_stack]. by destruct (_ <=? _)%nat.
  - by rewrite failed_ensure_put.
Qed.

Lemma exec_spec o w :
  w_failed w = false -> op_wf o ->
  match op_stack o (w_stack w) with
  | Some stk => appends (op_bytes o) stk w (exec o w)
  | None => w_failed (exec o w) = true
  end.
Proof.
  intros Hf Hwf. destruct o as [n|n|k|v|v|v| |b|s|s]; cbn [exec op_stack op_bytes op_wf] in *.
  - unfold mapHeader. rewrite u64_id by (unfold is_u32, is_u64 in *; lia).
    apply (appends_open true n 5 w Hf); unfold is_u32 in *; lia.
  - apply (appends_open false n 4 w Hf); unfold is_u32 in *; lia.
  - unfold key, keyRaw. rewrite Hf. destruct (w_stack w) as [|f below] eqn:Es; [done|].
    destruct (isMap f); [|done]. destruct (hasLastKey f && (k <=? lastKey f)); [done|]. cbn [negb andb].
    rewrite writeHead_spec by (unfold is_u64 in *; lia).
    apply (appends_scalar (head_bytes 0 k) (on_stack (fun _ => mkFrame true (remaining f) true k :: below) w) Hf).
  - unfold uintVal. rewrite writeHead_spec by (unfold is_u64 in *; lia). by apply appends_scalar.
  - unfold intVal. destruct (Z.leb_spec 0 v);
      rewrite u64_id, writeHead_spec by (unfold is_u64 in *; lia); by apply appends_scalar.
  - unfold boolVal, writeSimple. destruct v; by apply appends_scalar.
  - by apply appends_scalar.
  - pose proof (appends_scalar (0xFA :: be 4 b) w Hf) as H. unfold f32Val, ensure_put, ensure in *.
    cbn [length] in *. rewrite Hf in *. rewrite length_be in *.
    destruct (Nat.ltb_spec (length (w_out w)) (w_pos w + 5)); [|done]. unfold appends. cbn [length]. rewrite length_be.
    destruct (Nat.leb_spec (w_pos w + 5) (length (w_out w))); [lia|done].
  - by apply appends_str.
  - by apply appends_str.
Qed.

Lemma run_spec ops w :
  w_failed w = false -> (w_pos w <= length (w_out w))%nat -> Forall op_wf ops ->
  match ops_stack ops (w_stack w) with
  | Some stk => appends (ops_bytes ops) stk w (run ops w)
  | None => w_failed (run ops w) = true
  end.
Proof.
  revert w. induction ops as [|o ops IH]; intros w Hf Hpos Hwf; cbn [ops_stack].
  { unfold appends, appended, ops_bytes. cbn. rewrite Nat.add_0_r, write_at_nil.
    destruct (Nat.leb_spec (w_pos w) (length (w_out w))); [|lia]. destruct w; cbn in *. by subst. }
  apply Forall_cons in Hwf as [Ho Hwf]. pose proof (exec_spec o w Hf Ho) as H.
  change (run (o :: ops) w) with (run ops (exec o w)).
  assert (ops_bytes (o :: ops) = op_bytes o ++ ops_bytes ops) as -> by done.
  destruct (op_stack o (w_stack w)) as [stk|]; cbn [mbind option_bind]; [|by apply failed_run].
  unfold appends in H. destruct (Nat.leb_spec (w_pos w + length (op_bytes o)) (length (w_out w))) as [Hfit|Hno].
  - rewrite H. specialize (IH (appended (op_bytes o) stk w) eq_refl). cbn [w_pos w_out appended w_stack] in IH.
    rewrite length_write_at in IH by done. specialize (IH Hfit Hwf).
    destruct (ops_stack ops stk) as [stk'|]; [|done]. unfold appends in *. cbn [w_pos w_out appended] in IH.
    rewrite length_write_at in IH by done. rewrite length_app, Nat.add_assoc. destruct (Nat.leb_spec (w_pos w + length (op_bytes o) + length (ops_bytes ops)) (length (w_out w))); [|done].
    rewrite IH. unfold appended. cbn [w_out w_pos]. rewrite write_at_app by lia. by rewrite length_app, Nat.add_assoc.
  - destruct (ops_stack ops stk); [|by apply failed_run]. unfold appends. rewrite length_app.
    destruct (Nat.leb_spec (w_pos w + (length (op_bytes o) + length (ops_bytes ops))) (length (w_out w))); [lia|].
    by apply failed_run.
Qed.

Lemma is_bytes_op o : op_wf o -> (match o with OpTstr s | OpBstr s => is_bytes s | _ => True end) -> is_bytes (op_bytes o).
Proof.
  destruct o as [n|n|k|v|v|v| |b|s|s]; cbn [op_wf op_bytes]; unfold is_u32, is_u64; intros Hw Hs;
    try (apply is_bytes_head; lia).
  - case_ifs; apply is_bytes_head; lia.
  - destruct v; repeat constructor; done.
  - repeat constructor; done.
  - constructor; [done|apply is_bytes_be].
  - apply Forall_app. split; [apply is_bytes_head; lia|done].
  - apply Forall_app. split; [apply is_bytes_head; lia|done].
Qed.

(** * Properties *)

(** C26. The reader accepts exactly the deterministic profile: at any nesting
    depth, [skipValue] succeeds on an input if and only if the bytes ahead start
    with one value of the grammar (shortest-form heads, definite lengths,
    binary32 floats only, no tags, strictly ascending map keys, at most
    [kMaxDepth] open containers), and it consumes exactly that value, closing
    the containers it completes. *)
Theorem cbor_skip_exact (r r' : CborReader) :
  is_bytes (r_in r) -> (length (r_stack r) <= kMaxDepth)%nat ->
  skipValue r = Ok r' <->
  exists s rest, ahead r = s ++ rest /\ value (kMaxDepth - length (r_stack r)) s /\
    r' = mkCborReader (r_in r) (r_pos r + length s) (consumeOne (r_stack r)).
Proof. intros Hb Hd. apply skip_iff; [done|lia]. Qed.

Lemma cbor_skip_exact_witness :
  exists s rest, ahead (cborReader [0xA2; 1; 0x81; 0x18; 0x20; 2; 0xFA; 0; 0; 0; 0; 9]) = s ++ rest /\
    value kMaxDepth s /\ length s = 11%nat.
Proof.
  assert (exists r', skipValue (cborReader [0xA2; 1; 0x81; 0x18; 0x20; 2; 0xFA; 0; 0; 0; 0; 9]) = Ok r' /\ r_pos r' = 11%nat)
    as (r' & E & Ep) by (eexists; split; vm_compute; reflexivity).
  destruct (proj1 (cbor_skip_exact (cborReader [0xA2; 1; 0x81; 0x18; 0x20; 2; 0xFA; 0; 0; 0; 0; 9]) r'
    ltac:(apply (bool_decide_unpack _); vm_compute; exact I) ltac:(cbn; lia)) E) as (s & rest & Ha & Hv & ->).
  exists s, rest. split; [exact Ha|]. split; [exact Hv|]. exact Ep.
Defined.

(** C27. The writer is exact or silent: for any sequence of calls on a fresh
    writer, either the calls respect the nesting limit and the key order and
    their canonical encodings fit the buffer, and then [size] is their total
    length and the buffer is their concatenation followed by its untouched
    rest; or [size] is 0. *)
Theorem cbor_writer_exact (out : bytes) (ops : list op) :
  Forall op_wf ops ->
  let w := run ops (cborWriter out) in
  match ops_stack ops [] with
  | Some stk =>
      if (length (ops_bytes ops) <=? length out)%nat
      then size w = length (ops_bytes ops) /\ w_stack w = stk /\
           w_out w = ops_bytes ops ++ drop (length (ops_bytes ops)) out
      else size w = 0%nat
  | None => size w = 0%nat
  end.
Proof.
  intros Hwf w. pose proof (run_spec ops (cborWriter out) eq_refl ltac:(cbn; lia) Hwf) as H. fold w in H.
  cbn [w_stack cborWriter] in H. unfold size. destruct (ops_stack ops []) as [stk|]; [|by rewrite H].
  unfold appends in H. cbn [w_pos w_out cborWriter Nat.add] in H.
  destruct (_ <=? _)%nat; [|by rewrite H]. rewrite H. by cbn.
Qed.

Lemma cbor_writer_exact_witness :
  let w := run [OpMap 1; OpKey 7; OpArr 2; OpUint 300; OpInt (-5)] (cborWriter (replicate 10 0)) in
  size w = 7%nat /\ take 7 (w_out w) = [0xA1; 7; 0x82; 0x19; 1; 44; 0x24].
Proof.
  pose proof (cbor_writer_exact (replicate 10 0) [OpMap 1; OpKey 7; OpArr 2; OpUint 300; OpInt (-5)]
    ltac:(repeat constructor; cbn; lia)) as H.
  cbv zeta in H. change (ops_stack [OpMap 1; OpKey 7; OpArr 2; OpUint 300; OpInt (-5)] []) with (Some (@nil Frame)) in H.
  destruct H as (H1 & _ & H2). cbv zeta. rewrite H1, H2. split; vm_compute; reflexivity.
Defined.

(** Integers survive the round trip over their whole range: what [uintVal]
    writes of any 64-bit unsigned value [readUint] returns, what [intVal]
    writes of any 64-bit signed value [readInt] returns, each consuming
    exactly the bytes that were written. *)
Theorem cbor_int_roundtrip (out : bytes) (u i : Z) :
  is_bytes out -> is_u64 u -> -9223372036854775808 <= i < 9223372036854775808 -> (9 <= length out)%nat ->
  let wu := uintVal u (cborWriter out) in let wi := intVal i (cborWriter out) in
  (0 < size wu)%nat /\ (0 < size wi)%nat /\
  readUint (cborReader (w_out wu)) = Ok (u, mkCborReader (w_out wu) (size wu) []) /\
  readInt (cborReader (w_out wi)) = Ok (i, mkCborReader (w_out wi) (size wi) []).
Proof.
  intros Hout Hu Hi Hl.
  assert (forall o, op_wf o -> (match o with OpTstr s | OpBstr s => False | _ => True end) ->
    op_stack o [] = Some [] -> (length (op_bytes o) <= 9)%nat ->
    exec o (cborWriter out) = mkCborWriter (op_bytes o ++ drop (length (op_bytes o)) out) (length (op_bytes o)) false [] /\
    is_bytes (op_bytes o ++ drop (length (op_bytes o)) out)) as Hone.
  { intros o Ho Hns Hst Hlen. pose proof (exec_spec o (cborWriter out) eq_refl Ho) as H.
    cbn [w_stack cborWriter] in H. rewrite Hst in H. unfold appends in H. cbn [w_pos w_out cborWriter Nat.add] in H.
    destruct (Nat.leb_spec (length (op_bytes o)) (length out)); [|lia]. split; [exact H|].
    apply Forall_app. split; [|by apply Forall_drop]. apply is_bytes_op; [done|]. by destruct o. }
  assert (forall m v, (length (head_bytes m v) <= 9)%nat) as Hh9.
  { intros. unfold head_bytes. case_ifs; cbn [length]; rewrite ?length_be; lia. }
  destruct (Hone (OpUint u)) as [Eu Hbu]; [done|done|done|apply Hh9|].
  destruct (Hone (OpInt i)) as [Ei Hbi]; [done|done|done|cbn; case_ifs; apply Hh9|].
  cbn [exec] in Eu, Ei. cbv zeta. rewrite Eu, Ei. unfold size. cbn [w_failed w_pos w_out].
  assert (forall m v, (0 < length (head_bytes m v))%nat) as Hpos by (intros m v; pose proof (length_head_bytes m v); lia).
  split_and!; [apply Hpos|cbn; case_ifs; apply Hpos| |].
  - apply readUint_iff; [done|]. split; [done|]. split; [eexists; reflexivity|done].
  - unfold readInt. cbn [op_bytes] in *. destruct (Z.leb_spec 0 i).
    + rewrite (parseHead_head _ 0 i (drop (length (head_bytes 0 i)) out)) by (done || unfold is_u64; lia).
      cbn. do 2 f_equal. unfold i64, u64. rewrite Z.mod_small by lia. destruct (Z.ltb_spec i 9223372036854775808); lia.
    + rewrite (parseHead_head _ 1 (-1 - i) (drop (length (head_bytes 1 (-1 - i))) out)) by (done || unfold is_u64; lia).
      cbn [rbind h_major h_arg Z.eqb Pos.eqb h_total]. do 2 f_equal. unfold i64, u64. rewrite Z.mod_small by lia.
      destruct (Z.ltb_spec (-1 - i) 9223372036854775808); lia.
Qed.

Lemma cbor_int_roundtrip_witness :
  let out := replicate 9 255 in
  let wu := uintVal 18446744073709551615 (cborWriter out) in
  let wi := intVal (-9223372036854775808) (cborWriter out) in
  readUint (cborReader (w_out wu)) = Ok (18446744073709551615, mkCborReader (w_out wu) (size wu) []) /\
  readInt (cborReader (w_out wi)) = Ok (-9223372036854775808, mkCborReader (w_out wi) (size wi) []).
Proof.
  destruct (cbor_int_roundtrip (replicate 9 255) 18446744073709551615 (-9223372036854775808)
    ltac:(apply (bool_decide_unpack _); vm_compute; exact I) ltac:(done) ltac:(lia) ltac:(cbn; lia)) as (_ & _ & H1 & H2).
  split; [exact H1|exact H2].
Defined.

(** [readInt] does not reject integers outside its range: the unsigned integer
    2^64 - 1 is read as -1, and the negative integer -2^64 as 0. *)
Lemma readInt_wraps :
  (exists r, readInt (cborReader [0x1B; 255; 255; 255; 255; 255; 255; 255; 255]) = Ok (-1, r)) /\
  (exists r, readInt (cborReader [0x3B; 255; 255; 255; 255; 255; 255; 255; 255]) = Ok (0, r)).
Proof. split; eexists; vm_compute; reflexivity. Qed.
