(* ===== verification/Messages.v ===== *)
(** * Messages: the CBOR control-plane codecs

    wire/messages: intent.hpp (with the value vocabulary ECHO and EVENT share),
    echo.hpp, event.hpp, nack.hpp, goodbye.hpp, probe_report.hpp and
    blob_req.hpp. A count with its fixed array is the list of the counted
    entries; an enum carried as its number stays a number; views are the bytes
    they show. Each decoder is the map loop of the source over a [switch] given
    as a function of the key. *)

From stdpp Require Import sets.
From S2P Require Import Prelude Registry ByteIO Blob Cbor.
Local Open Scope Z_scope.

(** ** The decoders' common loop *)

Section decodeMap.
Context {M : Type}.

(** [for (i < n) { readKey(); switch (key) ... }] over the message so far. *)
Definition decodeFields (field : Z -> M -> CborReader -> Result (M * CborReader) DecodeError)
    (n : Z) (m : M) (r : CborReader) : Result (M * CborReader) DecodeError :=
  forR n (fun '(m, r) => let? (k, r) := readKey r in field k m r) (m, r).

Definition decodeMap (field : Z -> M -> CborReader -> Result (M * CborReader) DecodeError)
    (m : M) (r : CborReader) : Result (M * CborReader) DecodeError :=
  let? (n, r) := readMapHeader r in decodeFields field n m r.

(** The [default:] case: the pair is ignored. *)
Definition ignoreField (m : M) (r : CborReader) : Result (M * CborReader) DecodeError :=
  let? r := skipValue r in Ok (m, r).
End decodeMap.

(** What an encoder returns: the byte count and the buffer. *)
Definition encoded (w : CborWriter) : nat * bytes := (size w, w_out w).

(** ** Intent values *)

Definition kIntentMaxValueFields : nat := 8.

Inductive IntentValue : Type :=
| U64 (v : Z) | I64 (v : Z) | F32 (bits : Z) | Bool (v : bool) | Tstr (s : bytes) | Bstr (s : bytes).

Record IntentValueField := mkField { f_key : Z; f_value : IntentValue }.

Definition encodeIntentValue (v : IntentValue) (w : CborWriter) : CborWriter :=
  match v with
  | U64 v => uintVal v w | I64 v => intVal v w | F32 b => f32Val b w
  | Bool v => boolVal v w | Tstr s => tstrVal s w | Bstr s => bstrVal s w
  end.

Definition encodeValues (fs : list IntentValueField) (w : CborWriter) : CborWriter :=
  foldl (fun w f => encodeIntentValue (f_value f) (key (f_key f) w)) w fs.

Definition decodeIntentValue (r : CborReader) : Result (IntentValue * CborReader) DecodeError :=
  let? t := peekType r in
  match t with
  | MUInt => let? (v, r) := readUint r in Ok (U64 v, r)
  | MNegInt => let? (v, r) := readInt r in Ok (I64 v, r)
  | MTextString => let? (v, r) := readTstr r in Ok (Tstr v, r)
  | MByteString => let? (v, r) := readBstr r in Ok (Bstr v, r)
  | MSimple =>
      match readBool r with
      | Ok (b, r) => Ok (Bool b, r)
      | Err _ => let? (v, r) := readF32 r in Ok (F32 v, r)
      end
  | MArray | MMap | MTag => Err Malformed
  end.

(** One pair of a value map, appended to the fields read so far. *)
Definition valueField (k : Z) (fs : list IntentValueField) (r : CborReader) : Result (list IntentValueField * CborReader) DecodeError :=
  if 0xFF <? k then Err Malformed
  else let? (v, r) := decodeIntentValue r in Ok (fs ++ [mkField (u8 k) v], r).

Definition decodeIntentValueMap (r : CborReader) : Result (list IntentValueField * CborReader) DecodeError :=
  let? (n, r) := readMapHeader r in
  if Z.of_nat kIntentMaxValueFields <? n then Err CapacityExceeded
  else decodeFields valueField n [] r.

(** ** INTENT *)

Record IntentMsg := mkIntent {
  im_channel_id : Z; im_intent_id : Z; im_value : list IntentValueField;
  im_has_precondition : bool; im_precondition : Z; im_has_takeover : bool; im_takeover : bool }.

Definition b2z (b : bool) : Z := if b then 1 else 0.

Definition encodeIntent (m : IntentMsg) (out : bytes) : nat * bytes :=
  if (kIntentMaxValueFields <? length (im_value m))%nat then (0%nat, out)
  else
    let nKeys := 3 + b2z (im_has_precondition m) + b2z (im_has_takeover m) in
    let w := mapHeader nKeys (cborWriter out) in
    let w := uintVal (im_channel_id m) (key CborKey.channel_id w) in
    let w := uintVal (im_intent_id m) (key CborKey.intent_id w) in
    let w := mapHeader (Z.of_nat (length (im_value m))) (key CborKey.value w) in
    let w := encodeValues (im_value m) w in
    let w := if im_has_precondition m then uintVal (im_precondition m) (key CborKey.precondition w) else w in
    let w := if im_has_takeover m then boolVal (im_takeover m) (key CborKey.takeover w) else w in
    encoded w.

(** The message under construction with [gotChannel, gotIntentId, gotValue]. *)
Definition intentField (k : Z) (s : IntentMsg * (bool * bool * bool)) (r : CborReader) :
    Result (IntentMsg * (bool * bool * bool) * CborReader) DecodeError :=
  let '(mkIntent ch ii va hp pre ht tk as m, (gc, gi, gv)) := s in
  if k =? CborKey.channel_id then
    let? (v, r) := readUint r in Ok ((mkIntent (u16 v) ii va hp pre ht tk, (true, gi, gv)), r)
  else if k =? CborKey.intent_id then
    let? (v, r) := readUint r in Ok ((mkIntent ch (u16 v) va hp pre ht tk, (gc, true, gv)), r)
  else if k =? CborKey.value then
    let? (fs, r) := decodeIntentValueMap r in Ok ((mkIntent ch ii fs hp pre ht tk, (gc, gi, true)), r)
  else if k =? CborKey.precondition then
    let? (v, r) := readUint r in Ok ((mkIntent ch ii va true (u16 v) ht tk, (gc, gi, gv)), r)
  else if k =? CborKey.takeover then
    let? (v, r) := readBool r in Ok ((mkIntent ch ii va hp pre true v, (gc, gi, gv)), r)
  else ignoreField (m, (gc, gi, gv)) r.

Definition noIntent : IntentMsg := mkIntent 0 0 [] false 0 false false.

Definition decodeIntent (s : bytes) : Result IntentMsg DecodeError :=
  let? (m, (gc, gi, gv), _) := decodeMap intentField (noIntent, (false, false, false)) (cborReader s) in
  if negb (gc && gi && gv) then Err Malformed else Ok m.

(** ** ECHO *)

Record EchoMsg := mkEcho { em_intent_id : Z; em_cfg_gen : Z; em_applied : list IntentValueField }.

Definition encodeEcho (m : EchoMsg) (out : bytes) : nat * bytes :=
  if (kIntentMaxValueFields <? length (em_applied m))%nat then (0%nat, out)
  else
    let w := mapHeader 3 (cborWriter out) in
    let w := uintVal (em_cfg_gen m) (key CborKey.cfg_gen w) in
    let w := uintVal (em_intent_id m) (key CborKey.intent_id w) in
    let w := mapHeader (Z.of_nat (length (em_applied m))) (key CborKey.applied w) in
    encoded (encodeValues (em_applied m) w).

Definition echoField (k : Z) (s : EchoMsg * (bool * bool * bool)) (r : CborReader) :
    Result (EchoMsg * (bool * bool * bool) * CborReader) DecodeError :=
  let '(mkEcho ii cg ap as m, (gi, gc, ga)) := s in
  if k =? CborKey.cfg_gen then
    let? (v, r) := readUint r in Ok ((mkEcho ii (u16 v) ap, (gi, true, ga)), r)
  else if k =? CborKey.intent_id then
    let? (v, r) := readUint r in Ok ((mkEcho (u16 v) cg ap, (true, gc, ga)), r)
  else if k =? CborKey.applied then
    let? (fs, r) := decodeIntentValueMap r in Ok ((mkEcho ii cg fs, (gi, gc, true)), r)
  else ignoreField (m, (gi, gc, ga)) r.

Definition decodeEcho (s : bytes) : Result EchoMsg DecodeError :=
  let? (m, (gi, gc, ga), _) := decodeMap echoField (mkEcho 0 0 [], (false, false, false)) (cborReader s) in
  if negb (gi && gc && ga) then Err Malformed else Ok m.

(** ** EVENT *)

Record EventMsg := mkEvent {
  ev_channel_id : Z; ev_timestamp : Z; ev_kind : Z; ev_has_seq : bool; ev_seq_of_state : Z;
  ev_has_body : bool; ev_body : list IntentValueField }.

Definition encodeEvent (m : EventMsg) (out : bytes) : nat * bytes :=
  if (kIntentMaxValueFields <? length (ev_body m))%nat then (0%nat, out)
  else
    let nKeys := 3 + b2z (ev_has_body m) + b2z (ev_has_seq m) in
    let w := mapHeader nKeys (cborWriter out) in
    let w := uintVal (ev_channel_id m) (key CborKey.channel_id w) in
    let w := uintVal (ev_timestamp m) (key CborKey.timestamp w) in
    let w := uintVal (ev_kind m) (key CborKey.event_kind w) in
    let w := if ev_has_seq m then uintVal (ev_seq_of_state m) (key CborKey.seq_of_state w) else w in
    let w := if ev_has_body m
             then encodeValues (ev_body m) (mapHeader (Z.of_nat (length (ev_body m))) (key CborKey.body w)) else w in
    encoded w.

Definition eventField (k : Z) (s : EventMsg * (bool * bool * bool)) (r : CborReader) :
    Result (EventMsg * (bool * bool * bool) * CborReader) DecodeError :=
  let '(mkEvent ch ts ki hs sq hb bo as m, (gc, gt, gk)) := s in
  if k =? CborKey.channel_id then
    let? (v, r) := readUint r in Ok ((mkEvent (u16 v) ts ki hs sq hb bo, (true, gt, gk)), r)
  else if k =? CborKey.body then
    let? (fs, r) := decodeIntentValueMap r in Ok ((mkEvent ch ts ki hs sq true fs, (gc, gt, gk)), r)
  else if k =? CborKey.timestamp then
    let? (v, r) := readUint r in Ok ((mkEvent ch (u32 v) ki hs sq hb bo, (gc, true, gk)), r)
  else if k =? CborKey.event_kind then
    let? (v, r) := readUint r in Ok ((mkEvent ch ts (u16 v) hs sq hb bo, (gc, gt, true)), r)
  else if k =? CborKey.seq_of_state then
    let? (v, r) := readUint r in Ok ((mkEvent ch ts ki true (u16 v) hb bo, (gc, gt, gk)), r)
  else ignoreField (m, (gc, gt, gk)) r.

Definition decodeEvent (s : bytes) : Result EventMsg DecodeError :=
  let? (m, (gc, gt, gk), _) :=
    decodeMap eventField (mkEvent 0 0 0 false 0 false [], (false, false, false)) (cborReader s) in
  if negb (gc && gt && gk) then Err Malformed else Ok m.

(** ** NACK *)

Definition kNackMaxDetailBytes : nat := 48.

Record NackMsg := mkNack {
  nk_code : Z; nk_has_channel : bool; nk_channel_id : Z; nk_has_intent_id : bool; nk_intent_id : Z;
  nk_has_detail : bool; nk_detail : bytes; nk_has_retry : bool; nk_retry_after_ms : Z;
  nk_has_intent_seq : bool; nk_intent_seq : Z }.

Definition encodeNack (m : NackMsg) (out : bytes) : nat * bytes :=
  if (kNackMaxDetailBytes <? length (nk_detail m))%nat then (0%nat, out)
  else
    let nKeys := 1 + b2z (nk_has_channel m) + b2z (nk_has_detail m) + b2z (nk_has_intent_id m)
                 + b2z (nk_has_retry m) + b2z (nk_has_intent_seq m) in
    let w := mapHeader nKeys (cborWriter out) in
    let w := if nk_has_channel m then uintVal (nk_channel_id m) (key CborKey.channel_id w) else w in
    let w := uintVal (u16 (nk_code m)) (key CborKey.code w) in
    let w := if nk_has_detail m then tstrVal (nk_detail m) (key CborKey.detail w) else w in
    let w := if nk_has_intent_id m then uintVal (nk_intent_id m) (key CborKey.intent_id w) else w in
    let w := if nk_has_retry m then uintVal (nk_retry_after_ms m) (key CborKey.retry_after_ms w) else w in
    let w := if nk_has_intent_seq m then uintVal (nk_intent_seq m) (key CborKey.intent_seq w) else w in
    encoded w.

Definition kMALFORMED : Z := 0.

Definition noNack : NackMsg := mkNack kMALFORMED false 0 false 0 false [] false 0 false 0.

Definition nackField (k : Z) (s : NackMsg * bool) (r : CborReader) : Result (NackMsg * bool * CborReader) DecodeError :=
  let '(mkNack co hc ch hi ii hd de hr ra hq sq as m, gotCode) := s in
  if k =? CborKey.channel_id then
    let? (v, r) := readUint r in Ok ((mkNack co true (u16 v) hi ii hd de hr ra hq sq, gotCode), r)
  else if k =? CborKey.code then
    let? (v, r) := readUint r in
    if 0xFFFF <? v then Err Malformed else Ok ((mkNack (u16 v) hc ch hi ii hd de hr ra hq sq, true), r)
  else if k =? CborKey.detail then
    let? (v, r) := readTstr r in
    if (kNackMaxDetailBytes <? length v)%nat then Err CapacityExceeded
    else Ok ((mkNack co hc ch hi ii true v hr ra hq sq, gotCode), r)
  else if k =? CborKey.intent_id then
    let? (v, r) := readUint r in Ok ((mkNack co hc ch true (u16 v) hd de hr ra hq sq, gotCode), r)
  else if k =? CborKey.retry_after_ms then
    let? (v, r) := readUint r in Ok ((mkNack co hc ch hi ii hd de true (u32 v) hq sq, gotCode), r)
  else if k =? CborKey.intent_seq then
    let? (v, r) := readUint r in
    if 0xFFFF <? v then Err Malformed else Ok ((mkNack co hc ch hi ii hd de hr ra true (u16 v), gotCode), r)
  else ignoreField (m, gotCode) r.

Definition decodeNack (s : bytes) : Result NackMsg DecodeError :=
  let? (m, gotCode, _) := decodeMap nackField (noNack, false) (cborReader s) in
  if negb gotCode then Err Malformed else Ok m.

(** ** GOODBYE *)

Definition kGoodbyeMaxDetailBytes : nat := 48.

Record GoodbyeMsg := mkGoodbye { gb_code : Z; gb_has_detail : bool; gb_detail : bytes }.

Definition encodeGoodbye (m : GoodbyeMsg) (out : bytes) : nat * bytes :=
  if (kGoodbyeMaxDetailBytes <? length (gb_detail m))%nat then (0%nat, out)
  else
    let w := mapHeader (1 + b2z (gb_has_detail m)) (cborWriter out) in
    let w := uintVal (u16 (gb_code m)) (key CborKey.code w) in
    let w := if gb_has_detail m then tstrVal (gb_detail m) (key CborKey.detail w) else w in
    encoded w.

Definition goodbyeField (k : Z) (s : GoodbyeMsg * bool) (r : CborReader) : Result (GoodbyeMsg * bool * CborReader) DecodeError :=
  let '(mkGoodbye co hd de as m, gotCode) := s in
  if k =? CborKey.code then
    let? (v, r) := readUint r in
    if 0xFFFF <? v then Err Malformed else Ok ((mkGoodbye (u16 v) hd de, true), r)
  else if k =? CborKey.detail then
    let? (v, r) := readTstr r in
    if (kGoodbyeMaxDetailBytes <? length v)%nat then Err CapacityExceeded
    else Ok ((mkGoodbye co true v, gotCode), r)
  else ignoreField (m, gotCode) r.

Definition decodeGoodbye (s : bytes) : Result GoodbyeMsg DecodeError :=
  let? (m, gotCode, _) := decodeMap goodbyeField (mkGoodbye kMALFORMED false [], false) (cborReader s) in
  if negb gotCode then Err Malformed else Ok m.

(** ** PROBE_REPORT *)

Record ProbeResult := mkProbe { pr_bytes_received : Z; pr_span_ms : Z; pr_loss_pct_x100 : Z; pr_rtt_ms : Z }.

Definition encodeProbeReport (m : ProbeResult) (out : bytes) : nat * bytes :=
  let w := mapHeader 1 (cborWriter out) in
  let w := mapHeader 4 (key CborKey.probe_result w) in
  let w := uintVal (pr_bytes_received m) (key probe_result_keys.bytes_received w) in
  let w := uintVal (pr_span_ms m) (key probe_result_keys.span_ms w) in
  let w := uintVal (pr_loss_pct_x100 m) (key probe_result_keys.loss_pct_x100 w) in
  let w := uintVal (pr_rtt_ms m) (key probe_result_keys.rtt_ms w) in
  encoded w.

Definition probeResultField (k : Z) (p : ProbeResult) (r : CborReader) : Result (ProbeResult * CborReader) DecodeError :=
  let '(mkProbe by_ sp lo rt) := p in
  if k =? probe_result_keys.bytes_received then let? (v, r) := readUint r in Ok (mkProbe (u32 v) sp lo rt, r)
  else if k =? probe_result_keys.span_ms then let? (v, r) := readUint r in Ok (mkProbe by_ (u32 v) lo rt, r)
  else if k =? probe_result_keys.loss_pct_x100 then let? (v, r) := readUint r in Ok (mkProbe by_ sp (u32 v) rt, r)
  else if k =? probe_result_keys.rtt_ms then let? (v, r) := readUint r in Ok (mkProbe by_ sp lo (u32 v), r)
  else ignoreField p r.

Definition probeReportField (k : Z) (s : ProbeResult * bool) (r : CborReader) : Result (ProbeResult * bool * CborReader) DecodeError :=
  if k =? CborKey.probe_result then
    let? (p, r) := decodeMap probeResultField s.1 r in Ok ((p, true), r)
  else ignoreField s r.

Definition decodeProbeReport (s : bytes) : Result ProbeResult DecodeError :=
  let? (m, got, _) := decodeMap probeReportField (mkProbe 0 0 0 0, false) (cborReader s) in
  if negb got then Err Malformed else Ok m.

(** ** BLOB_REQ *)

Definition kBlobReqMaxChunks : nat := 32.

Record BlobReqMsg := mkBlobReq { br_blob : BlobId; br_full : bool; br_chunks : list Z }.

Definition encodeBlobReq (m : BlobReqMsg) (out : bytes) : nat * bytes :=
  let b := br_blob m in
  if (kBlobReqMaxChunks <? length (br_chunks m))%nat then (0%nat, out)
  else if br_full m && (0 <? length (br_chunks m))%nat then (0%nat, out)
  else if negb (br_full m) && (length (br_chunks m) =? 0)%nat then (0%nat, out)
  else if isCatalog b && (has_store_id b || has_slot b) then (0%nat, out)
  else
    let emitNs := negb (isCatalog b) in
    let nBlobKeys := b2z emitNs + b2z (has_store_id b) + b2z (has_slot b) + b2z (has_generation b) in
    let nKeys := (if br_full m then 0 else 1) + (if 0 <? nBlobKeys then 1 else 0) in
    let w := mapHeader nKeys (cborWriter out) in
    let w := if negb (br_full m) then
               foldl (fun w c => uintVal c w)
                 (arrayHeader (Z.of_nat (length (br_chunks m))) (key CborKey.chunks w)) (br_chunks m)
             else w in
    let w := if 0 <? nBlobKeys then
               let w := mapHeader nBlobKeys (key CborKey.blob w) in
               let w := if emitNs then uintVal (ns b) (key blob_keys.ns w) else w in
               let w := if has_store_id b then uintVal (store_id b) (key blob_keys.store_id w) else w in
               let w := if has_slot b then uintVal (slot b) (key blob_keys.slot w) else w in
               if has_generation b then uintVal (generation b) (key blob_keys.generation w) else w
             else w in
    encoded w.

Definition blobIdField (k : Z) (b : BlobId) (r : CborReader) : Result (BlobId * CborReader) DecodeError :=
  let '(mkBlobId n hs st hl sl hg ge) := b in
  if k =? blob_keys.ns then
    let? (v, r) := readUint r in
    if 0xFF <? v then Err Malformed else Ok (mkBlobId (u8 v) hs st hl sl hg ge, r)
  else if k =? blob_keys.store_id then
    let? (v, r) := readUint r in
    if 0xFF <? v then Err Malformed else Ok (mkBlobId n true (u8 v) hl sl hg ge, r)
  else if k =? blob_keys.slot then
    let? (v, r) := readUint r in
    if 0xFF <? v then Err Malformed else Ok (mkBlobId n hs st true (u8 v) hg ge, r)
  else if k =? blob_keys.generation then
    let? (v, r) := readUint r in
    if 0xFFFF <? v then Err Malformed else Ok (mkBlobId n hs st hl sl true (u16 v), r)
  else ignoreField b r.

Definition decodeBlobId (b : BlobId) (r : CborReader) : Result (BlobId * CborReader) DecodeError :=
  decodeMap blobIdField b r.

Definition decodeChunks (n : Z) (r : CborReader) : Result (list Z * CborReader) DecodeError :=
  forR n (fun '(cs, r) =>
    let? (v, r) := readUint r in
    if 0xFFFF <? v then Err Malformed else Ok (cs ++ [u16 v], r)) ([], r).

Definition blobReqField (k : Z) (m : BlobReqMsg) (r : CborReader) : Result (BlobReqMsg * CborReader) DecodeError :=
  if k =? CborKey.chunks then
    let? (n, r) := readArrayHeader r in
    if Z.of_nat kBlobReqMaxChunks <? n then Err CapacityExceeded
    else if n =? 0 then Err Malformed
    else let? (cs, r) := decodeChunks n r in Ok (mkBlobReq (br_blob m) false cs, r)
  else if k =? CborKey.blob then
    let? (b, r) := decodeBlobId (br_blob m) r in Ok (mkBlobReq b (br_full m) (br_chunks m), r)
  else ignoreField m r.

Definition decodeBlobReq (s : bytes) : Result BlobReqMsg DecodeError :=
  let? (m, _) := decodeMap blobReqField (mkBlobReq noBlobId true []) (cborReader s) in
  if isCatalog (br_blob m) && (has_store_id (br_blob m) || has_slot (br_blob m)) then Err Malformed
  else Ok m.

(** * Theorems *)

(** ** Decoding a map field by field *)

(** At depth [d], [h] reads the bytes [bs] as the update [eff]. *)
Definition reads {M} (d : nat) (h : M -> CborReader -> Result (M * CborReader) DecodeError) (bs : bytes) (eff : M -> M) : Prop :=
  forall m r rest, is_bytes (r_in r) -> length (r_stack r) = d -> ahead r = bs ++ rest ->
  h m r = Ok (eff m, advance (length bs) consumeOne r).

(** A field of an encoded map: its key, the calls that write its value, its
    meaning for the decoder. *)
Record Entry (M : Type) := mkEntry { e_key : Z; e_ops : list op; e_eff : M -> M }.
Arguments mkEntry {M} _ _ _.
Arguments e_key {M} _. Arguments e_ops {M} _. Arguments e_eff {M} _.

Definition e_bytes {M} (e : Entry M) : bytes := ops_bytes (e_ops e).
Definition entry_ops {M} (e : Entry M) : list op := OpKey (e_key e) :: e_ops e.
Definition entry_bytes {M} (e : Entry M) : bytes := head_bytes 0 (e_key e) ++ e_bytes e.
Definition map_ops {M} (es : list (Entry M)) : list op :=
  OpMap (Z.of_nat (length es)) :: concat (entry_ops <$> es).
Definition map_bytes {M} (es : list (Entry M)) : bytes :=
  head_bytes 5 (Z.of_nat (length es)) ++ concat (entry_bytes <$> es).
Definition effects {M} (es : list (Entry M)) (m : M) : M := foldl (fun m e => e_eff e m) m es.

Section maps.
Context {M : Type} (field : Z -> M -> CborReader -> Result (M * CborReader) DecodeError).

(** A pair as the decoder sees it: key, value bytes and meaning. *)
Definition piece : Type := Z * bytes * (M -> M).

Definition piece_ok (d : nat) (p : piece) : Prop :=
  is_u64 p.1.1 /\ reads d (field p.1.1) p.1.2 p.2.

Definition piece_effects (ps : list piece) (m : M) : M := foldl (fun m p => p.2 m) m ps.

Lemma fields_loop d stk (es : list piece) m r hl lk :
  Forall (piece_ok d) es -> ascending (last_of hl lk) (es.*1).*1 -> es <> [] ->
  is_bytes (r_in r) -> r_stack r = mkFrame true (2 * Z.of_nat (length es)) hl lk :: stk -> S (length stk) = d ->
  forall rest, ahead r = concat (pair_bytes <$> es.*1) ++ rest ->
  decodeFields field (Z.of_nat (length es)) m r =
  Ok (piece_effects es m, advance (length (concat (pair_bytes <$> es.*1))) (fun _ => consumeOne stk) r).
Proof.
  intros Hok. revert m r hl lk. induction Hok as [|e es [Hk He] Hes IH]; intros m r hl lk Hasc Hne Hb Hs Hd rest Ha; [done|].
  unfold decodeFields. cbn [length] in *. rewrite forR_S. cbn [fmap list_fmap concat ascending] in *.
  unfold pair_bytes at 1 in Ha. rewrite <- !app_assoc in Ha. destruct Hasc as [Hfirst Hasc].
  assert (hl = true -> lk < e.1.1) as Hl by (intros ->; exact Hfirst).
  rewrite (proj2 (readKey_iff r _ stk (e.1.1) _ Hb Hs eq_refl) (conj Hk (conj (ex_intro _ _ Ha) (conj Hl eq_refl)))).
  cbn [rbind remaining]. set (r1 := advance _ _ r).
  assert (r_stack r1 = mkFrame true (2 * Z.of_nat (S (length es)) - 1) true (e.1.1) :: stk) as Hs1
    by (unfold r1; cbn [advance r_stack]; by rewrite consumeOne_more by lia).
  assert (ahead r1 = e.1.2 ++ concat (pair_bytes <$> es.*1) ++ rest) as Ha1
    by (unfold r1; by eapply advance_ahead).
  rewrite (He m r1 _ Hb ltac:(by rewrite Hs1) Ha1). cbn [rbind].
  assert (length (pair_bytes e.1) = (length (head_bytes 0 (e.1.1)) + length (e.1.2))%nat) as Hlen
    by apply length_app.
  destruct es as [|e2 es].
  - cbn [length Z.of_nat forR fmap list_fmap concat]. rewrite app_nil_r, Hlen.
    do 2 f_equal. unfold r1. rewrite advance_advance. apply advance_stack. fold r1.
    cbn [length] in *. rewrite consumeOne_more by lia. apply consumeOne_last.
  - specialize (IH (e.2 m) (advance (length (e.1.2)) consumeOne r1) true (e.1.1) Hasc ltac:(done) Hb).
    unfold decodeFields in IH. rewrite (IH) with (rest := rest).
    + unfold piece_effects. cbn [foldl]. do 2 f_equal. rewrite length_app, Hlen. unfold r1. rewrite !advance_advance. 
      by rewrite Nat.add_assoc.
    + cbn [advance r_stack]. rewrite Hs1, consumeOne_more by (cbn [length]; lia). do 2 f_equal. lia.
    + done.
    + by eapply advance_ahead.
Qed.

Lemma decodePieces_reads d (es : list piece) :
  (d < kMaxDepth)%nat -> is_u32 (Z.of_nat (length es)) -> Forall (piece_ok (S d)) es ->
  ascending None (es.*1).*1 -> reads d (decodeMap field) (head_bytes 5 (Z.of_nat (length es)) ++ concat (pair_bytes <$> es.*1)) (piece_effects es).
Proof.
  intros Hd Hn Hok Hasc m r rest Hb Hs Ha. rewrite <- app_assoc in Ha.
  unfold decodeMap, readMapHeader.
  assert (length (r_stack r) < kMaxDepth)%nat as Hlt by lia.
  rewrite (proj2 (enter_iff 5 true r _ _ Hb ltac:(lia)) (conj Hn (conj Hlt (conj (ex_intro _ _ Ha) eq_refl)))).
  cbn [rbind]. destruct es as [|e es].
  { cbn [length fmap list_fmap concat]. rewrite app_nil_r. unfold decodeFields. cbn [Z.of_nat forR]. unfold piece_effects. cbn [foldl]. do 2 f_equal. apply advance_stack. apply settle_empty. }
  set (r1 := advance _ _ r).
  assert (r_stack r1 = mkFrame true (2 * Z.of_nat (length (e :: es))) false 0 :: r_stack r) as Hs1.
  { unfold r1. cbn [advance r_stack]. rewrite open_nonempty by (cbn [length]; lia). do 2 f_equal. lia. }
  rewrite (fields_loop (S d) (r_stack r) (e :: es) m r1 false 0 Hok Hasc ltac:(done) Hb Hs1 ltac:(by rewrite Hs) rest)
    by (unfold r1; by eapply advance_ahead).
  do 2 f_equal. unfold r1. rewrite advance_advance, length_app. done.
Qed.

Definition piece_of (e : Entry M) : piece := (e_key e, e_bytes e, e_eff e).

Definition entry_ok (d : nat) (e : Entry M) : Prop := piece_ok d (piece_of e).

Lemma decodeMap_reads d es :
  (d < kMaxDepth)%nat -> is_u32 (Z.of_nat (length es)) -> Forall (entry_ok (S d)) es ->
  ascending None (e_key <$> es) -> reads d (decodeMap field) (map_bytes es) (effects es).
Proof.
  intros Hd Hn Hok Hasc.
  pose proof (decodePieces_reads d (piece_of <$> es)) as H. rewrite length_fmap, <- !list_fmap_compose, Forall_fmap in H.
  assert (forall m, piece_effects (piece_of <$> es) m = effects es m) as Heff
    by (intros m; unfold piece_effects, effects; by rewrite foldl_fmap).
  intros m r rest. rewrite <- Heff. by apply H.
Qed.
End maps.

(** ** Writing a map entry by entry *)

Lemma ops_bytes_app a b : ops_bytes (a ++ b) = ops_bytes a ++ ops_bytes b.
Proof. unfold ops_bytes. by rewrite fmap_app, concat_app. Qed.

Lemma ops_bytes_concat {M} (es : list (Entry M)) :
  ops_bytes (concat (entry_ops <$> es)) = concat (entry_bytes <$> es).
Proof. induction es as [|e es IH]; [done|]. cbn [fmap list_fmap concat]. by rewrite ops_bytes_app, IH. Qed.

Lemma ops_bytes_map {M} (es : list (Entry M)) : ops_bytes (map_ops es) = map_bytes es.
Proof. unfold map_ops, map_bytes. rewrite <- ops_bytes_concat. done. Qed.

Lemma ops_stack_app a b stk : ops_stack (a ++ b) stk = ops_stack a stk ≫= ops_stack b.
Proof.
  revert stk. induction a as [|o a IH]; intros stk; [done|]. cbn [app ops_stack].
  destruct (op_stack o stk); [|done]. apply IH.
Qed.

(** At depth [d] the calls write one complete value. *)
Definition closes (d : nat) (ops : list op) : Prop :=
  forall stk, length stk = d -> ops_stack ops stk = Some (consumeOne stk).

Lemma entries_stack {M} d stk (es : list (Entry M)) hl lk :
  Forall (fun e => closes d (e_ops e)) es -> ascending (last_of hl lk) (e_key <$> es) -> es <> [] ->
  S (length stk) = d ->
  ops_stack (concat (entry_ops <$> es)) (mkFrame true (2 * Z.of_nat (length es)) hl lk :: stk) = Some (consumeOne stk).
Proof.
  intros Hc. revert hl lk. induction Hc as [|e es He Hes IH]; intros hl lk Hasc Hne Hd; [done|].
  cbn [fmap list_fmap concat ascending] in *. destruct Hasc as [Hfirst Hasc].
  rewrite ops_stack_app. cbn [entry_ops ops_stack op_stack isMap hasLastKey lastKey remaining andb].
  assert (hl && (e_key e <=? lk) = false) as -> by (destruct hl; cbn in *; lia).
  cbn [negb mbind option_bind]. rewrite consumeOne_more by (cbn [length]; lia).
  rewrite He by done. cbn [mbind option_bind]. destruct es as [|e2 es].
  - cbn [length fmap list_fmap concat ops_stack]. f_equal. apply consumeOne_last.
  - rewrite consumeOne_more by (cbn [length]; lia).
    replace (2 * Z.of_nat (length (e :: e2 :: es)) - 1 - 1) with (2 * Z.of_nat (length (e2 :: es))) by (cbn [length]; lia).
    by apply IH.
Qed.

Lemma map_closes {M} d (es : list (Entry M)) :
  (d < kMaxDepth)%nat -> Forall (fun e => closes (S d) (e_ops e)) es -> ascending None (e_key <$> es) ->
  closes d (map_ops es).
Proof.
  intros Hd Hc Hasc stk Hs. unfold map_ops. cbn [ops_stack op_stack]. unfold push.
  destruct (Nat.ltb_spec (length stk) kMaxDepth); [|lia]. cbn [mbind option_bind].
  destruct es as [|e es].
  - cbn [length fmap list_fmap concat ops_stack]. f_equal. apply settle_empty.
  - rewrite open_nonempty by (cbn [length]; lia). rewrite Z.mul_comm. apply (entries_stack (S d)); try done. by rewrite Hs.
Qed.

(** ** Scalars at a position *)

Lemma readUint_at r v rest :
  is_bytes (r_in r) -> is_u64 v -> ahead r = head_bytes 0 v ++ rest ->
  readUint r = Ok (v, advance (length (head_bytes 0 v)) consumeOne r).
Proof. intros Hb Hv Ha. apply readUint_iff; [done|]. eauto. Qed.

Lemma readStr_at m r s rest :
  is_bytes (r_in r) -> 0 <= m < 6 -> is_u64 (Z.of_nat (length s)) ->
  ahead r = (head_bytes m (Z.of_nat (length s)) ++ s) ++ rest ->
  readStr m r = Ok (s, advance (length (head_bytes m (Z.of_nat (length s)) ++ s)) consumeOne r).
Proof. intros Hb Hm Hs Ha. apply readStr_iff; [done|done|]. rewrite <- app_assoc in Ha. eauto. Qed.

Lemma simple_at r k bits rest :
  is_bytes (r_in r) -> is_u32 bits -> (k = KFloat32 \/ bits = 0) ->
  ahead r = simple_bytes (mkSimple k bits 0) ++ rest ->
  parseSimpleRaw r = Ok (mkSimple k bits (length (simple_bytes (mkSimple k bits 0)))).
Proof.
  intros Hb Hbits Hk Ha. apply (parseSimple_bytes r _ rest); cbn [s_total s_floatBits s_kind]; try done.
Qed.

Lemma readBool_at r (v : bool) rest :
  is_bytes (r_in r) -> ahead r = op_bytes (OpBool v) ++ rest -> readBool r = Ok (v, advance 1 consumeOne r).
Proof.
  intros Hb Ha. unfold readBool.
  by destruct v; [rewrite (simple_at r KTrue 0 rest)|rewrite (simple_at r KFalse 0 rest)]; try (by right).
Qed.

Lemma readF32_at r bits rest :
  is_bytes (r_in r) -> is_u32 bits -> ahead r = op_bytes (OpF32 bits) ++ rest ->
  readBool r = Err Malformed /\ readF32 r = Ok (bits, advance 5 consumeOne r).
Proof.
  intros Hb Hbits Ha. unfold readBool, readF32. rewrite (simple_at r KFloat32 bits rest); try done; by left.
Qed.

(** ** A whole message: encoder and decoder agree *)

Lemma run_app a b w : run (a ++ b) w = run b (run a w).
Proof. unfold run. apply foldl_app. Qed.

Lemma is_bytes_map {M} (es : list (Entry M)) :
  is_u32 (Z.of_nat (length es)) -> Forall (fun e => is_u64 (e_key e) /\ is_bytes (e_bytes e)) es -> is_bytes (map_bytes es).
Proof.
  unfold is_u32, map_bytes. intros Hn He. apply Forall_app. split; [apply is_bytes_head; lia|].
  clear Hn. induction He as [|e es [Hk He] _ IH]; [done|]. cbn [fmap list_fmap concat].
  apply Forall_app. split; [|done]. apply Forall_app. split; [apply is_bytes_head; [lia|apply Hk]|done].
Qed.

Lemma closes_scalar d o :
  (match o with OpMap _ | OpArr _ | OpKey _ => False | _ => True end) -> closes d [o].
Proof. by destruct o. Qed.

(** ** Intent values *)

Definition value_op (v : IntentValue) : op :=
  match v with
  | U64 v => OpUint v | I64 v => OpInt v | F32 b => OpF32 b | Bool b => OpBool b | Tstr s => OpTstr s | Bstr s => OpBstr s
  end.

Definition value_wf (v : IntentValue) : Prop :=
  op_wf (value_op v) /\ match v with Tstr s | Bstr s => is_bytes s | _ => True end.

(** A non-negative signed value comes back unsigned: the wire does not tell. *)
Definition canonical (v : IntentValue) : IntentValue :=
  match v with I64 v => if 0 <=? v then U64 v else I64 v | v => v end.

Lemma decodeIntentValue_at r v rest :
  is_bytes (r_in r) -> value_wf v -> ahead r = op_bytes (value_op v) ++ rest ->
  decodeIntentValue r = Ok (canonical v, advance (length (op_bytes (value_op v))) consumeOne r).
Proof.
  intros Hb [Hwf Hs] Ha. unfold decodeIntentValue. destruct v as [v|v|b|b|s|s]; cbn [value_op op_bytes op_wf canonical] in *.
  - rewrite (peek_head r 0 v rest) by (done || apply Hwf). cbn [rbind Z.eqb]. by rewrite (readUint_at r v rest).
  - destruct (Z.leb_spec 0 v).
    + rewrite (peek_head r 0 v rest) by done. cbn [rbind Z.eqb]. rewrite (readUint_at r v rest); [done|done|unfold is_u64; lia|done].
    + rewrite (peek_head r 1 (-1 - v) rest) by (done || lia). cbn [rbind Z.eqb Pos.eqb].
      unfold readInt. rewrite (parseHead_head r 1 (-1 - v) rest) by (done || unfold is_u64; lia).
      cbn [rbind h_major h_arg h_total Z.eqb Pos.eqb]. do 3 f_equal. unfold i64, u64. rewrite Z.mod_small by lia.
      destruct (Z.ltb_spec (-1 - v) 9223372036854775808); lia.
  - rewrite (peek_simple r (mkSimple KFloat32 b 0) rest) by done. cbn [rbind].
    destruct (readF32_at r b rest Hb Hwf Ha) as [-> ->]. done.
  - rewrite (peek_simple r (mkSimple (if b then KTrue else KFalse) 0 0) rest) by (by destruct b). cbn [rbind].
    by rewrite (readBool_at r b rest Hb Ha).
  - pose proof Ha as Ha'. rewrite <- app_assoc in Ha'.
    rewrite (peek_head r 3 _ _ ltac:(lia) (Nat2Z.is_nonneg _) Ha'). cbn [rbind Z.eqb Pos.eqb]. unfold readTstr.
    by rewrite (readStr_at 3 r s rest Hb ltac:(lia) Hwf Ha).
  - pose proof Ha as Ha'. rewrite <- app_assoc in Ha'.
    rewrite (peek_head r 2 _ _ ltac:(lia) (Nat2Z.is_nonneg _) Ha'). cbn [rbind Z.eqb Pos.eqb]. unfold readBstr.
    by rewrite (readStr_at 2 r s rest Hb ltac:(lia) Hwf Ha).
Qed.

Definition canonical_field (f : IntentValueField) : IntentValueField := mkField (f_key f) (canonical (f_value f)).

Definition value_entry (f : IntentValueField) : Entry (list IntentValueField) :=
  mkEntry (f_key f) [value_op (f_value f)] (fun fs => fs ++ [canonical_field f]).

(** A value map a peer may send: at most 8 fields, keys ascending. *)
Definition values_wf (fs : list IntentValueField) : Prop :=
  (length fs <= kIntentMaxValueFields)%nat /\ ascending None (f_key <$> fs) /\
  Forall (fun f => is_u8 (f_key f) /\ value_wf (f_value f)) fs.

Lemma value_op_bytes v : value_wf v -> is_bytes (op_bytes (value_op v)).
Proof. intros [Hw Hs]. apply is_bytes_op; [done|]. by destruct v. Qed.

Lemma values_keys (fs : list IntentValueField) : e_key <$> (value_entry <$> fs) = f_key <$> fs.
Proof. by rewrite <- list_fmap_compose. Qed.

Lemma values_effects fs acc : effects (value_entry <$> fs) acc = acc ++ (canonical_field <$> fs).
Proof.
  revert acc. induction fs as [|f fs IH]; intros acc; [by rewrite app_nil_r|].
  cbn [fmap list_fmap]. unfold effects in *. cbn [foldl]. rewrite IH. cbn [value_entry e_eff]. by rewrite <- app_assoc.
Qed.

Lemma decodeIntentValueMap_at r fs rest :
  is_bytes (r_in r) -> (length (r_stack r) < kMaxDepth)%nat -> values_wf fs ->
  ahead r = map_bytes (value_entry <$> fs) ++ rest ->
  decodeIntentValueMap r = Ok (canonical_field <$> fs, advance (length (map_bytes (value_entry <$> fs))) consumeOne r).
Proof.
  intros Hb Hd (Hlen & Hasc & Hwf) Ha.
  assert (is_u32 (Z.of_nat (length (value_entry <$> fs)))) as Hn
    by (rewrite length_fmap; unfold is_u32, kIntentMaxValueFields in *; lia).
  assert (Forall (entry_ok valueField (S (length (r_stack r)))) (value_entry <$> fs)) as Hok.
  { apply Forall_fmap. eapply Forall_impl; [exact Hwf|]. intros f [Hk Hv]. split; [unfold is_u8, is_u64 in *; cbn; lia|].
    intros m r1 rest1 Hb1 _ Ha1. unfold piece_of in *. cbn [fst snd] in *. unfold valueField. cbn [value_entry e_key e_bytes e_ops e_eff ops_bytes] in *.
    unfold e_bytes, ops_bytes in *. cbn [value_entry e_ops fmap list_fmap concat] in *. rewrite app_nil_r in *.
    destruct (Z.ltb_spec 0xFF (f_key f)); [unfold is_u8 in Hk; lia|].
    rewrite (decodeIntentValue_at r1 _ rest1) by done. cbn [rbind]. by rewrite u8_id. }
  rewrite <- values_keys in Hasc.
  pose proof (decodeMap_reads valueField _ _ Hd Hn Hok Hasc [] r rest Hb eq_refl Ha) as H.
  rewrite values_effects in H. unfold decodeMap, decodeIntentValueMap in *.
  pose proof Ha as Ha'. unfold map_bytes in Ha'. rewrite <- app_assoc in Ha'. unfold readMapHeader in *.
  rewrite (proj2 (enter_iff 5 true r _ _ Hb ltac:(lia)) (conj Hn (conj Hd (conj (ex_intro _ _ Ha') eq_refl)))) in *.
  cbn [rbind] in *. destruct (Z.ltb_spec (Z.of_nat kIntentMaxValueFields) (Z.of_nat (length (value_entry <$> fs)))) as [Hlt|_]; [|done].
  rewrite length_fmap in Hlt. lia.
Qed.

Lemma encodeValues_run fs w : encodeValues fs w = run (concat (entry_ops <$> (value_entry <$> fs))) w.
Proof.
  revert w. induction fs as [|f fs IH]; intros w; [done|]. unfold encodeValues in *. cbn [foldl].
  rewrite IH. cbn [fmap list_fmap concat]. rewrite run_app. f_equal. by destruct f as [k []].
Qed.

(** ** Entries that both sides agree on *)

(** At depth [d] the entry is written as one well-formed value, and read back
    as its meaning. *)
Record good {M} (field : Z -> M -> CborReader -> Result (M * CborReader) DecodeError) (d : nat) (e : Entry M) : Prop := {
  g_key : is_u64 (e_key e);
  g_reads : reads d (field (e_key e)) (e_bytes e) (e_eff e);
  g_wf : Forall op_wf (e_ops e);
  g_closes : closes d (e_ops e);
  g_bytes : is_bytes (e_bytes e) }.

Lemma ops_bytes_1 o : ops_bytes [o] = op_bytes o.
Proof. unfold ops_bytes. cbn. apply app_nil_r. Qed.

Lemma good_scalar {M} field d k o (eff : M -> M) :
  is_u64 k -> op_wf o ->
  (match o with OpMap _ | OpArr _ | OpKey _ => False | OpTstr s | OpBstr s => is_bytes s | _ => True end) ->
  reads d (field k) (op_bytes o) eff -> good field d (mkEntry k [o] eff).
Proof.
  intros Hk Ho Hs Hr. split; cbn [e_key e_ops e_eff]; unfold e_bytes; cbn [e_ops]; rewrite ?ops_bytes_1; try done.
  - by repeat constructor.
  - apply closes_scalar. by destruct o.
  - apply is_bytes_op; [done|]. by destruct o.
Qed.

Lemma good_map {M N} field d k (es : list (Entry N)) sub (eff : M -> M) :
  is_u64 k -> (d < kMaxDepth)%nat -> is_u32 (Z.of_nat (length es)) -> Forall (good sub (S d)) es ->
  ascending None (e_key <$> es) -> reads d (field k) (map_bytes es) eff -> good field d (mkEntry k (map_ops es) eff).
Proof.
  intros Hk Hd Hn Hes Hasc Hr. split; cbn [e_key e_ops e_eff]; unfold e_bytes; cbn [e_ops]; rewrite ?ops_bytes_map; try done.
  - constructor; [done|]. clear -Hes. induction Hes as [|e es He _ IH]; [done|].
    cbn [fmap list_fmap concat]. apply Forall_app. split; [|done]. constructor; apply He.
  - apply map_closes; [done| |done]. eapply Forall_impl; [exact Hes|]. by intros e [].
  - apply is_bytes_map; [done|]. eapply Forall_impl; [exact Hes|]. by intros e [].
Qed.

Lemma message_roundtrip {M} field (es : list (Entry M)) (m0 : M) out :
  is_u32 (Z.of_nat (length es)) -> Forall (good field 1) es -> ascending None (e_key <$> es) ->
  (length (map_bytes es) <= length out)%nat ->
  let '(n, out') := encoded (run (map_ops es) (cborWriter out)) in
  n = length (map_bytes es) /\ take n out' = map_bytes es /\
  exists r, decodeMap field m0 (cborReader (map_bytes es)) = Ok (effects es m0, r).
Proof.
  intros Hn Hg Hasc Hfit.
  assert (reads 0 ((fun _ => decodeMap field) 0) (map_bytes es) (effects es)) as Hr.
  { apply decodeMap_reads; [unfold kMaxDepth; lia|done| |done]. eapply Forall_impl; [exact Hg|]. by intros e []. }
  destruct (good_map (fun _ => decodeMap field) 0 0 es field (effects es) ltac:(done) ltac:(unfold kMaxDepth; lia) Hn Hg Hasc Hr)
    as [_ _ Hops Hcl Hb]. unfold e_bytes in Hb. cbn [e_ops] in *. rewrite ops_bytes_map in Hb.
  pose proof (run_spec (map_ops es) (cborWriter out) eq_refl ltac:(cbn; lia) Hops) as H.
  cbn [w_stack cborWriter] in H. rewrite Hcl in H by done.
  unfold appends in H. cbn [w_pos w_out cborWriter Nat.add] in H. rewrite ops_bytes_map in H.
  destruct (Nat.leb_spec (length (map_bytes es)) (length out)); [|lia].
  unfold encoded. rewrite H. unfold size. cbn [w_failed w_pos w_out appended cborWriter Nat.add].
  split_and!; [done|by rewrite write_at_0, take_app_length|].
  eexists. apply (Hr m0 (cborReader (map_bytes es)) []); [done|done|]. cbn. by rewrite app_nil_r.
Qed.

(** ** Entries of the messages *)

Definition opt {A} (b : bool) (x : A) : list A := if b then [x] else [].

Lemma run_cons o ops w : run (o :: ops) w = run ops (exec o w).
Proof. done. Qed.

(** The encoder's nested calls against the flat list of calls. *)
Ltac literal_counts :=
  repeat match goal with
  | |- context [Z.of_nat ?n] =>
      let z := eval vm_compute in (Z.of_nat n) in
      lazymatch z with Z0 => idtac | Zpos _ => idtac end; change (Z.of_nat n) with z
  end.
Ltac flatten_run :=
  unfold map_ops; cbn [opt app fmap list_fmap concat entry_ops e_key e_ops length b2z Z.add Pos.add];
  literal_counts; rewrite ?run_cons, ?run_app, ?length_fmap; cbn [app];
  unfold run; cbn [foldl exec]; reflexivity.

Lemma u16_u64 v : is_u16 v -> is_u64 v.
Proof. unfold is_u16, is_u64. lia. Qed.
Lemma u32_u64 v : is_u32 v -> is_u64 v.
Proof. unfold is_u32, is_u64. lia. Qed.
Lemma u8_u64 v : is_u8 v -> is_u64 v.
Proof. unfold is_u8, is_u64. lia. Qed.
#[local] Hint Resolve u16_u64 u32_u64 u8_u64 : words.

Lemma Forall_opt {A} (P : A -> Prop) b x : (b = true -> P x) -> Forall P (opt b x).
Proof. destruct b; cbn; [|done]. intros H. constructor; auto. Qed.

(** Split the goodness of a list of entries into one goal per entry. *)
Ltac each_entry := rewrite ?Forall_app, ?Forall_cons; split_and!; try exact (List.Forall_nil _); try (apply Forall_opt; intros _).

(** An unsigned entry: the decoder's branch for its key reads it. *)
Ltac uint_entry field :=
  apply good_scalar; [done|cbn; auto with words|done|];
  let m := fresh "m" in let r := fresh "r" in let rest := fresh "rest" in
  let Hb := fresh "Hb" in let Hd := fresh "Hd" in let Ha := fresh "Ha" in
  intros m r rest Hb Hd Ha; cbn [op_bytes] in Ha |- *;
  unfold field; repeat match goal with |- context [match ?x with _ => _ end] => is_var x; destruct x end;
  cbn -[head_bytes readUint u8 u16 u32 advance];
  match type of Ha with _ = head_bytes 0 ?v ++ _ => rewrite (readUint_at r v rest Hb) by (auto with words) end;
  cbn -[head_bytes u8 u16 u32 advance];
  repeat match goal with |- context [?a <? ?b] => destruct (Z.ltb_spec a b); [unfold is_u8, is_u16, is_u32 in *; lia|] end;
  rewrite ?u8_id, ?u16_id, ?u32_id by done; reflexivity.

Definition intent_entries (m : IntentMsg) : list (Entry (IntentMsg * (bool * bool * bool))) :=
  [mkEntry CborKey.channel_id [OpUint (im_channel_id m)]
     (fun '(mkIntent ch ii va hp pre ht tk, (gc, gi, gv)) => (mkIntent (im_channel_id m) ii va hp pre ht tk, (true, gi, gv)));
   mkEntry CborKey.intent_id [OpUint (im_intent_id m)]
     (fun '(mkIntent ch ii va hp pre ht tk, (gc, gi, gv)) => (mkIntent ch (im_intent_id m) va hp pre ht tk, (gc, true, gv)));
   mkEntry CborKey.value (map_ops (value_entry <$> im_value m))
     (fun '(mkIntent ch ii va hp pre ht tk, (gc, gi, gv)) => (mkIntent ch ii (canonical_field <$> im_value m) hp pre ht tk, (gc, gi, true)))]
  ++ opt (im_has_precondition m) (mkEntry CborKey.precondition [OpUint (im_precondition m)]
     (fun '(mkIntent ch ii va hp pre ht tk, (gc, gi, gv)) => (mkIntent ch ii va true (im_precondition m) ht tk, (gc, gi, gv))))
  ++ opt (im_has_takeover m) (mkEntry CborKey.takeover [OpBool (im_takeover m)]
     (fun '(mkIntent ch ii va hp pre ht tk, (gc, gi, gv)) => (mkIntent ch ii va hp pre true (im_takeover m), (gc, gi, gv)))).

(** Field ranges of the C++ types; an absent optional holds its default. *)
Definition intent_wf (m : IntentMsg) : Prop :=
  is_u16 (im_channel_id m) /\ is_u16 (im_intent_id m) /\ is_u16 (im_precondition m) /\ values_wf (im_value m) /\
  (im_has_precondition m = false -> im_precondition m = 0) /\ (im_has_takeover m = false -> im_takeover m = false).

Definition canonical_intent (m : IntentMsg) : IntentMsg :=
  mkIntent (im_channel_id m) (im_intent_id m) (canonical_field <$> im_value m) (im_has_precondition m)
    (im_precondition m) (im_has_takeover m) (im_takeover m).

Lemma intent_encode m out :
  (length (im_value m) <= kIntentMaxValueFields)%nat ->
  encodeIntent m out = encoded (run (map_ops (intent_entries m)) (cborWriter out)).
Proof.
  intros Hl. unfold encodeIntent. destruct (Nat.ltb_spec kIntentMaxValueFields (length (im_value m))); [lia|].
  f_equal. rewrite encodeValues_run. unfold intent_entries.
  destruct (im_has_precondition m), (im_has_takeover m); flatten_run.
Qed.

Lemma values_good {M} field d k fs (eff : M -> M) :
  is_u64 k -> (d < kMaxDepth)%nat -> values_wf fs ->
  reads d (field k) (map_bytes (value_entry <$> fs)) eff -> good field d (mkEntry k (map_ops (value_entry <$> fs)) eff).
Proof.
  intros Hk Hd (Hl & Hasc & Hwf) Hr. apply (good_map field d k _ valueField); try done.
  - rewrite length_fmap. unfold is_u32, kIntentMaxValueFields in *. lia.
  - apply Forall_fmap. eapply Forall_impl; [exact Hwf|]. intros f [Hkf Hv]. apply good_scalar.
    + by apply u8_u64.
    + apply Hv.
    + destruct Hv as [_ Hs]. by destruct (f_value f).
    + intros m r rest Hb _ Ha. unfold valueField. destruct (Z.ltb_spec 0xFF (f_key f)); [unfold is_u8 in Hkf; lia|].
      rewrite (decodeIntentValue_at r _ rest) by done. cbn [rbind]. by rewrite u8_id.
  - by rewrite values_keys.
Qed.

Lemma intent_entries_good m : intent_wf m -> Forall (good intentField 1) (intent_entries m).
Proof.
  intros (Hc & Hi & Hp & Hv & _). unfold intent_entries. each_entry.
  - uint_entry intentField.
  - uint_entry intentField.
  - apply values_good; [done|unfold kMaxDepth; lia|done|].
    intros [[ch ii va hp pre ht tk] [[gc gi] gv]] r rest Hb Hd Ha. unfold intentField. cbn -[map_bytes].
    by rewrite (decodeIntentValueMap_at r (im_value m) rest Hb) by (done || (rewrite Hd; unfold kMaxDepth; lia)).
  - uint_entry intentField.
  - apply good_scalar; [done|done|done|]. intros [[ch ii va hp pre ht tk] [[gc gi] gv]] r rest Hb Hd Ha.
    unfold intentField. cbn. by rewrite (readBool_at _ _ _ Hb Ha).
Qed.

Lemma intent_roundtrip_at m out :
  intent_wf m -> (length (map_bytes (intent_entries m)) <= length out)%nat ->
  let '(n, out') := encodeIntent m out in
  n = length (map_bytes (intent_entries m)) /\ decodeIntent (take n out') = Ok (canonical_intent m).
Proof.
  intros Hwf Hfit. pose proof (intent_entries_good m Hwf) as Hg. destruct Hwf as (_ & _ & _ & Hv & Hdp & Hdt).
  rewrite intent_encode by (apply Hv).
  pose proof (message_roundtrip intentField (intent_entries m) (noIntent, (false, false, false)) out) as H.
  destruct (encoded _) as [n out']. destruct H as (-> & -> & r & E); try done.
  1, 2: unfold intent_entries; by destruct (im_has_precondition m), (im_has_takeover m).
  split; [done|]. unfold decodeIntent. rewrite E. unfold canonical_intent, intent_entries.
  destruct (im_has_precondition m), (im_has_takeover m); cbn; rewrite ?Hdp, ?Hdt by done; reflexivity.
Qed.

Definition echo_entries (m : EchoMsg) : list (Entry (EchoMsg * (bool * bool * bool))) :=
  [mkEntry CborKey.cfg_gen [OpUint (em_cfg_gen m)]
     (fun '(mkEcho ii cg ap, (gi, gc, ga)) => (mkEcho ii (em_cfg_gen m) ap, (gi, true, ga)));
   mkEntry CborKey.intent_id [OpUint (em_intent_id m)]
     (fun '(mkEcho ii cg ap, (gi, gc, ga)) => (mkEcho (em_intent_id m) cg ap, (true, gc, ga)));
   mkEntry CborKey.applied (map_ops (value_entry <$> em_applied m))
     (fun '(mkEcho ii cg ap, (gi, gc, ga)) => (mkEcho ii cg (canonical_field <$> em_applied m), (gi, gc, true)))].

Definition echo_wf (m : EchoMsg) : Prop :=
  is_u16 (em_intent_id m) /\ is_u16 (em_cfg_gen m) /\ values_wf (em_applied m).

Lemma echo_entries_good m : echo_wf m -> Forall (good echoField 1) (echo_entries m).
Proof.
  intros (Hi & Hc & Hv). unfold echo_entries. each_entry.
  - uint_entry echoField.
  - uint_entry echoField.
  - apply values_good; [done|unfold kMaxDepth; lia|done|].
    intros [[ii cg ap] [[gi gc] ga]] r rest Hb Hd Ha. unfold echoField. cbn -[map_bytes].
    by rewrite (decodeIntentValueMap_at r (em_applied m) rest Hb) by (done || (rewrite Hd; unfold kMaxDepth; lia)).
Qed.

Lemma echo_roundtrip_at m out :
  echo_wf m -> (length (map_bytes (echo_entries m)) <= length out)%nat ->
  let '(n, out') := encodeEcho m out in
  n = length (map_bytes (echo_entries m)) /\
  decodeEcho (take n out') = Ok (mkEcho (em_intent_id m) (em_cfg_gen m) (canonical_field <$> em_applied m)).
Proof.
  intros Hwf Hfit. pose proof (echo_entries_good m Hwf) as Hg. destruct Hwf as (_ & _ & Hl & Hv).
  assert (encodeEcho m out = encoded (run (map_ops (echo_entries m)) (cborWriter out))) as ->.
  { unfold encodeEcho. destruct (Nat.ltb_spec kIntentMaxValueFields (length (em_applied m))); [lia|].
    f_equal. rewrite encodeValues_run. unfold echo_entries. flatten_run. }
  pose proof (message_roundtrip echoField (echo_entries m) (mkEcho 0 0 [], (false, false, false)) out) as H.
  destruct (encoded _) as [n out']. destruct H as (-> & -> & r & E); try done.
  split; [done|]. unfold decodeEcho. by rewrite E.
Qed.

Definition event_entries (m : EventMsg) : list (Entry (EventMsg * (bool * bool * bool))) :=
  [mkEntry CborKey.channel_id [OpUint (ev_channel_id m)]
     (fun '(mkEvent ch ts ki hs sq hb bo, (gc, gt, gk)) => (mkEvent (ev_channel_id m) ts ki hs sq hb bo, (true, gt, gk)));
   mkEntry CborKey.timestamp [OpUint (ev_timestamp m)]
     (fun '(mkEvent ch ts ki hs sq hb bo, (gc, gt, gk)) => (mkEvent ch (ev_timestamp m) ki hs sq hb bo, (gc, true, gk)));
   mkEntry CborKey.event_kind [OpUint (ev_kind m)]
     (fun '(mkEvent ch ts ki hs sq hb bo, (gc, gt, gk)) => (mkEvent ch ts (ev_kind m) hs sq hb bo, (gc, gt, true)))]
  ++ opt (ev_has_seq m) (mkEntry CborKey.seq_of_state [OpUint (ev_seq_of_state m)]
     (fun '(mkEvent ch ts ki hs sq hb bo, (gc, gt, gk)) => (mkEvent ch ts ki true (ev_seq_of_state m) hb bo, (gc, gt, gk))))
  ++ opt (ev_has_body m) (mkEntry CborKey.body (map_ops (value_entry <$> ev_body m))
     (fun '(mkEvent ch ts ki hs sq hb bo, (gc, gt, gk)) => (mkEvent ch ts ki hs sq true (canonical_field <$> ev_body m), (gc, gt, gk)))).

Definition event_wf (m : EventMsg) : Prop :=
  is_u16 (ev_channel_id m) /\ is_u32 (ev_timestamp m) /\ is_u16 (ev_kind m) /\ is_u16 (ev_seq_of_state m) /\
  values_wf (ev_body m) /\ (ev_has_seq m = false -> ev_seq_of_state m = 0) /\ (ev_has_body m = false -> ev_body m = []).

Definition canonical_event (m : EventMsg) : EventMsg :=
  mkEvent (ev_channel_id m) (ev_timestamp m) (ev_kind m) (ev_has_seq m) (ev_seq_of_state m) (ev_has_body m)
    (canonical_field <$> ev_body m).

Lemma event_entries_good m : event_wf m -> Forall (good eventField 1) (event_entries m).
Proof.
  intros (Hc & Ht & Hk & Hs & Hv & _). unfold event_entries. each_entry.
  - uint_entry eventField.
  - uint_entry eventField.
  - uint_entry eventField.
  - uint_entry eventField.
  - apply values_good; [done|unfold kMaxDepth; lia|done|].
    intros [[ch ts ki hs sq hb bo] [[gi gc] ga]] r rest Hb Hd Ha. unfold eventField. cbn -[map_bytes].
    by rewrite (decodeIntentValueMap_at r (ev_body m) rest Hb) by (done || (rewrite Hd; unfold kMaxDepth; lia)).
Qed.

Lemma event_roundtrip_at m out :
  event_wf m -> (length (map_bytes (event_entries m)) <= length out)%nat ->
  let '(n, out') := encodeEvent m out in
  n = length (map_bytes (event_entries m)) /\ decodeEvent (take n out') = Ok (canonical_event m).
Proof.
  intros Hwf Hfit. pose proof (event_entries_good m Hwf) as Hg. destruct Hwf as (_ & _ & _ & _ & [Hl _] & Hds & Hdb).
  assert (encodeEvent m out = encoded (run (map_ops (event_entries m)) (cborWriter out))) as ->.
  { unfold encodeEvent. destruct (Nat.ltb_spec kIntentMaxValueFields (length (ev_body m))); [lia|].
    f_equal. rewrite encodeValues_run. unfold event_entries. destruct (ev_has_seq m), (ev_has_body m); flatten_run. }
  pose proof (message_roundtrip eventField (event_entries m) (mkEvent 0 0 0 false 0 false [], (false, false, false)) out) as H.
  destruct (encoded _) as [n out']. destruct H as (-> & -> & r & E); try done.
  1, 2: unfold event_entries; by destruct (ev_has_seq m), (ev_has_body m).
  split; [done|]. unfold decodeEvent. rewrite E. unfold canonical_event, event_entries.
  destruct (ev_has_seq m), (ev_has_body m); cbn; rewrite ?Hds, ?Hdb by done; reflexivity.
Qed.

(** *** NACK and GOODBYE *)

Definition nack_entries (m : NackMsg) : list (Entry (NackMsg * bool)) :=
  opt (nk_has_channel m) (mkEntry CborKey.channel_id [OpUint (nk_channel_id m)]
     (fun '(mkNack co hc ch hi ii hd de hr ra hq sq, g) => (mkNack co true (nk_channel_id m) hi ii hd de hr ra hq sq, g)))
  ++ [mkEntry CborKey.code [OpUint (nk_code m)]
     (fun '(mkNack co hc ch hi ii hd de hr ra hq sq, g) => (mkNack (nk_code m) hc ch hi ii hd de hr ra hq sq, true))]
  ++ opt (nk_has_detail m) (mkEntry CborKey.detail [OpTstr (nk_detail m)]
     (fun '(mkNack co hc ch hi ii hd de hr ra hq sq, g) => (mkNack co hc ch hi ii true (nk_detail m) hr ra hq sq, g)))
  ++ opt (nk_has_intent_id m) (mkEntry CborKey.intent_id [OpUint (nk_intent_id m)]
     (fun '(mkNack co hc ch hi ii hd de hr ra hq sq, g) => (mkNack co hc ch true (nk_intent_id m) hd de hr ra hq sq, g)))
  ++ opt (nk_has_retry m) (mkEntry CborKey.retry_after_ms [OpUint (nk_retry_after_ms m)]
     (fun '(mkNack co hc ch hi ii hd de hr ra hq sq, g) => (mkNack co hc ch hi ii hd de true (nk_retry_after_ms m) hq sq, g)))
  ++ opt (nk_has_intent_seq m) (mkEntry CborKey.intent_seq [OpUint (nk_intent_seq m)]
     (fun '(mkNack co hc ch hi ii hd de hr ra hq sq, g) => (mkNack co hc ch hi ii hd de hr ra true (nk_intent_seq m), g))).

Definition nack_wf (m : NackMsg) : Prop :=
  is_u16 (nk_code m) /\ is_u16 (nk_channel_id m) /\ is_u16 (nk_intent_id m) /\ is_u32 (nk_retry_after_ms m) /\
  is_u16 (nk_intent_seq m) /\ is_bytes (nk_detail m) /\ (length (nk_detail m) <= kNackMaxDetailBytes)%nat /\
  (nk_has_channel m = false -> nk_channel_id m = 0) /\ (nk_has_intent_id m = false -> nk_intent_id m = 0) /\
  (nk_has_detail m = false -> nk_detail m = []) /\ (nk_has_retry m = false -> nk_retry_after_ms m = 0) /\
  (nk_has_intent_seq m = false -> nk_intent_seq m = 0).

Lemma nack_entries_good m : nack_wf m -> Forall (good nackField 1) (nack_entries m).
Proof.
  intros (Hco & Hch & Hi & Hr & Hs & Hd & Hl & _). unfold nack_entries. each_entry; try (uint_entry nackField).
  assert (is_u64 (Z.of_nat (length (nk_detail m)))) as H64 by (unfold is_u64, kNackMaxDetailBytes in *; lia).
  apply good_scalar; [done|done|done|]. intros [[] g] r rest Hb Hdp Ha.
  unfold nackField, readTstr. cbn -[head_bytes readStr Nat.ltb kNackMaxDetailBytes]. rewrite (readStr_at 3 r (nk_detail m) rest) by done. cbn -[head_bytes kNackMaxDetailBytes Nat.ltb].
  destruct (Nat.ltb_spec kNackMaxDetailBytes (length (nk_detail m))); [lia|done].
Qed.

Lemma ignore_reads {M} d (v : bytes) :
  (d <= kMaxDepth)%nat -> value (kMaxDepth - d) v -> reads (M := M) d ignoreField v (fun m => m).
Proof.
  intros Hd Hv m r rest Hb Hs Ha. unfold ignoreField, skipValue. rewrite Hs.
  assert (skip (kMaxDepth - d) r = Ok (advance (length v) consumeOne r)) as ->; [|done].
  apply skip_iff; [done|lia|]. by exists v, rest.
Qed.

Lemma nack_roundtrip_at m out :
  nack_wf m -> (length (map_bytes (nack_entries m)) <= length out)%nat ->
  let '(n, out') := encodeNack m out in
  n = length (map_bytes (nack_entries m)) /\ decodeNack (take n out') = Ok m.
Proof.
  intros Hwf Hfit. pose proof (nack_entries_good m Hwf) as Hg.
  destruct Hwf as (Hco & Hch & Hi & Hr & Hs & Hd & Hl & D1 & D2 & D3 & D4 & D5).
  assert (encodeNack m out = encoded (run (map_ops (nack_entries m)) (cborWriter out))) as ->.
  { unfold encodeNack. destruct (Nat.ltb_spec kNackMaxDetailBytes (length (nk_detail m))); [lia|].
    f_equal. rewrite u16_id by done. unfold nack_entries.
    destruct (nk_has_channel m), (nk_has_detail m), (nk_has_intent_id m), (nk_has_retry m), (nk_has_intent_seq m); flatten_run. }
  pose proof (message_roundtrip nackField (nack_entries m) (noNack, false) out) as H.
  destruct (encoded _) as [n out']. destruct H as (-> & -> & r & E); try done.
  1, 2: unfold nack_entries; by destruct (nk_has_channel m), (nk_has_detail m), (nk_has_intent_id m), (nk_has_retry m), (nk_has_intent_seq m).
  split; [done|]. unfold decodeNack. rewrite E. unfold nack_entries.
  destruct m as [co hc ch hi ii hd de hr ra hq sq]; cbn in *.
  destruct hc, hd, hi, hr, hq; cbn; rewrite ?D1, ?D2, ?D3, ?D4, ?D5 by done; reflexivity.
Qed.

Definition goodbye_entries (m : GoodbyeMsg) : list (Entry (GoodbyeMsg * bool)) :=
  [mkEntry CborKey.code [OpUint (gb_code m)] (fun '(mkGoodbye co hd de, g) => (mkGoodbye (gb_code m) hd de, true))]
  ++ opt (gb_has_detail m) (mkEntry CborKey.detail [OpTstr (gb_detail m)]
     (fun '(mkGoodbye co hd de, g) => (mkGoodbye co true (gb_detail m), g))).

Definition goodbye_wf (m : GoodbyeMsg) : Prop :=
  is_u16 (gb_code m) /\ is_bytes (gb_detail m) /\ (length (gb_detail m) <= kGoodbyeMaxDetailBytes)%nat /\
  (gb_has_detail m = false -> gb_detail m = []).

Lemma goodbye_roundtrip_at m out :
  goodbye_wf m -> (length (map_bytes (goodbye_entries m)) <= length out)%nat ->
  let '(n, out') := encodeGoodbye m out in
  n = length (map_bytes (goodbye_entries m)) /\ decodeGoodbye (take n out') = Ok m.
Proof.
  intros (Hco & Hd & Hl & D1) Hfit.
  assert (is_u64 (Z.of_nat (length (gb_detail m)))) as H64 by (unfold is_u64, kGoodbyeMaxDetailBytes in *; lia).
  assert (Forall (good goodbyeField 1) (goodbye_entries m)) as Hg.
  { unfold goodbye_entries. each_entry; try (uint_entry goodbyeField).
    apply good_scalar; [done|done|done|]. intros [[] g] r rest Hb Hdp Ha.
    unfold goodbyeField, readTstr. cbn -[head_bytes readStr Nat.ltb kGoodbyeMaxDetailBytes].
    rewrite (readStr_at 3 r (gb_detail m) rest) by done. cbn -[head_bytes kGoodbyeMaxDetailBytes Nat.ltb].
    destruct (Nat.ltb_spec kGoodbyeMaxDetailBytes (length (gb_detail m))); [lia|done]. }
  assert (encodeGoodbye m out = encoded (run (map_ops (goodbye_entries m)) (cborWriter out))) as ->.
  { unfold encodeGoodbye. destruct (Nat.ltb_spec kGoodbyeMaxDetailBytes (length (gb_detail m))); [lia|].
    f_equal. rewrite u16_id by done. unfold goodbye_entries. destruct (gb_has_detail m); flatten_run. }
  pose proof (message_roundtrip goodbyeField (goodbye_entries m) (mkGoodbye kMALFORMED false [], false) out) as H.
  destruct (encoded _) as [n out']. destruct H as (-> & -> & r & E); try done.
  1, 2: unfold goodbye_entries; by destruct (gb_has_detail m).
  split; [done|]. unfold decodeGoodbye. rewrite E. unfold goodbye_entries.
  destruct m as [co hd de]; cbn in *. destruct hd; cbn; rewrite ?D1 by done; reflexivity.
Qed.

Definition probe_entries (p : ProbeResult) : list (Entry ProbeResult) :=
  [mkEntry probe_result_keys.bytes_received [OpUint (pr_bytes_received p)] (fun '(mkProbe a b c d) => mkProbe (pr_bytes_received p) b c d);
   mkEntry probe_result_keys.span_ms [OpUint (pr_span_ms p)] (fun '(mkProbe a b c d) => mkProbe a (pr_span_ms p) c d);
   mkEntry probe_result_keys.loss_pct_x100 [OpUint (pr_loss_pct_x100 p)] (fun '(mkProbe a b c d) => mkProbe a b (pr_loss_pct_x100 p) d);
   mkEntry probe_result_keys.rtt_ms [OpUint (pr_rtt_ms p)] (fun '(mkProbe a b c d) => mkProbe a b c (pr_rtt_ms p))].

Definition probe_report_entries (p : ProbeResult) : list (Entry (ProbeResult * bool)) :=
  [mkEntry CborKey.probe_result (map_ops (probe_entries p)) (fun s => (effects (probe_entries p) s.1, true))].

Definition probe_wf (p : ProbeResult) : Prop :=
  is_u32 (pr_bytes_received p) /\ is_u32 (pr_span_ms p) /\ is_u32 (pr_loss_pct_x100 p) /\ is_u32 (pr_rtt_ms p).

Lemma probe_roundtrip_at p out :
  probe_wf p -> (length (map_bytes (probe_report_entries p)) <= length out)%nat ->
  let '(n, out') := encodeProbeReport p out in
  n = length (map_bytes (probe_report_entries p)) /\ decodeProbeReport (take n out') = Ok p.
Proof.
  intros (H1 & H2 & H3 & H4) Hfit.
  assert (Forall (good probeResultField 2) (probe_entries p)) as Hin
    by (unfold probe_entries; each_entry; uint_entry probeResultField).
  assert (Forall (good probeReportField 1) (probe_report_entries p)) as Hg.
  { unfold probe_report_entries. each_entry.
    apply (good_map probeReportField 1 _ (probe_entries p) probeResultField); try done; [unfold kMaxDepth; lia|].
    intros s r rest Hb Hd Ha. unfold probeReportField. cbn -[map_bytes].
    rewrite (decodeMap_reads probeResultField 1 (probe_entries p)) with (rest := rest); try done; [unfold kMaxDepth; lia|].
    eapply Forall_impl; [exact Hin|]. by intros e []. }
  assert (encodeProbeReport p out = encoded (run (map_ops (probe_report_entries p)) (cborWriter out))) as ->
    by (unfold encodeProbeReport; cbv zeta; apply (f_equal encoded); unfold probe_report_entries, probe_entries; flatten_run).
  pose proof (message_roundtrip probeReportField (probe_report_entries p) (mkProbe 0 0 0 0, false) out) as H.
  destruct (encoded _) as [n out']. destruct H as (-> & -> & r & E); try done.
  split; [done|]. unfold decodeProbeReport. rewrite E. by destruct p.
Qed.

(** *** BLOB_REQ *)

Definition chunk_ops (cs : list Z) : list op := OpArr (Z.of_nat (length cs)) :: (OpUint <$> cs).

Lemma uints_stack cs stk hl lk :
  cs <> [] -> ops_stack (OpUint <$> cs) (mkFrame false (Z.of_nat (length cs)) hl lk :: stk) = Some (consumeOne stk).
Proof.
  induction cs as [|c cs IH]; [done|]. intros _. cbn [fmap list_fmap ops_stack op_stack mbind option_bind].
  destruct cs as [|c2 cs].
  - cbn [length fmap list_fmap ops_stack]. f_equal. apply consumeOne_last.
  - rewrite consumeOne_more by (cbn [length]; lia).
    replace (Z.of_nat (length (c :: c2 :: cs)) - 1) with (Z.of_nat (length (c2 :: cs))) by (cbn [length]; lia).
    by apply IH.
Qed.

Lemma chunks_closes d cs : (d < kMaxDepth)%nat -> cs <> [] -> closes d (chunk_ops cs).
Proof.
  intros Hd Hne stk Hs. unfold chunk_ops. cbn [ops_stack op_stack]. unfold push.
  destruct (Nat.ltb_spec (length stk) kMaxDepth); [|lia]. cbn [mbind option_bind].
  rewrite open_nonempty by (destruct cs; cbn [length] in *; [done|lia]). by apply uints_stack.
Qed.

Lemma chunk_ops_bytes cs :
  ops_bytes (chunk_ops cs) = head_bytes 4 (Z.of_nat (length cs)) ++ concat (head_bytes 0 <$> cs).
Proof.
  unfold chunk_ops, ops_bytes. cbn [fmap list_fmap concat op_bytes]. f_equal. rewrite <- list_fmap_compose. done.
Qed.

Lemma decodeChunks_at cs acc stk hl lk r rest :
  Forall is_u16 cs -> cs <> [] -> is_bytes (r_in r) ->
  r_stack r = mkFrame false (Z.of_nat (length cs)) hl lk :: stk -> ahead r = concat (head_bytes 0 <$> cs) ++ rest ->
  forR (Z.of_nat (length cs)) (fun '(cs, r) => let? (v, r) := readUint r in
     if 0xFFFF <? v then Err Malformed else Ok (cs ++ [u16 v], r)) (acc, r) =
  Ok (acc ++ cs, advance (length (concat (head_bytes 0 <$> cs))) (fun _ => consumeOne stk) r).
Proof.
  intros Hcs. revert acc r. induction Hcs as [|c cs Hc Hcs IH]; intros acc r Hne Hb Hs Ha; [done|].
  cbn [length fmap list_fmap concat] in *. rewrite <- app_assoc in Ha. rewrite forR_S.
  rewrite (readUint_at r c _ Hb (u16_u64 c Hc) Ha). cbn [rbind].
  destruct (Z.ltb_spec 0xFFFF c); [unfold is_u16 in Hc; lia|]. rewrite u16_id by done. cbn [rbind].
  destruct cs as [|c2 cs].
  - cbn [length Z.of_nat forR fmap list_fmap concat]. rewrite app_nil_r. do 2 f_equal. apply advance_stack.
    rewrite Hs. apply consumeOne_last.
  - rewrite IH; [|done|done| |by eapply advance_ahead].
    + rewrite <- app_assoc, advance_advance, length_app. done.
    + cbn [advance r_stack]. rewrite Hs, consumeOne_more by (cbn [length]; lia). do 2 f_equal. cbn [length]. lia.
Qed.

Definition blob_id_entries (b : BlobId) : list (Entry BlobId) :=
  opt (negb (isCatalog b)) (mkEntry blob_keys.ns [OpUint (ns b)] (fun '(mkBlobId n hs st hl sl hg ge) => mkBlobId (ns b) hs st hl sl hg ge))
  ++ opt (has_store_id b) (mkEntry blob_keys.store_id [OpUint (store_id b)] (fun '(mkBlobId n hs st hl sl hg ge) => mkBlobId n true (store_id b) hl sl hg ge))
  ++ opt (has_slot b) (mkEntry blob_keys.slot [OpUint (slot b)] (fun '(mkBlobId n hs st hl sl hg ge) => mkBlobId n hs st true (slot b) hg ge))
  ++ opt (has_generation b) (mkEntry blob_keys.generation [OpUint (generation b)] (fun '(mkBlobId n hs st hl sl hg ge) => mkBlobId n hs st hl sl true (generation b))).

Definition blob_req_entries (m : BlobReqMsg) : list (Entry BlobReqMsg) :=
  opt (negb (br_full m)) (mkEntry CborKey.chunks (chunk_ops (br_chunks m)) (fun x => mkBlobReq (br_blob x) false (br_chunks m)))
  ++ opt (0 <? Z.of_nat (length (blob_id_entries (br_blob m))))
       (mkEntry CborKey.blob (map_ops (blob_id_entries (br_blob m)))
          (fun x => mkBlobReq (effects (blob_id_entries (br_blob m)) (br_blob x)) (br_full x) (br_chunks x))).

Definition blob_req_wf (m : BlobReqMsg) : Prop :=
  let b := br_blob m in
  wf_id b /\ Forall is_u16 (br_chunks m) /\ (length (br_chunks m) <= kBlobReqMaxChunks)%nat /\
  (br_full m = true <-> br_chunks m = []) /\ (isCatalog b = true -> has_store_id b = false /\ has_slot b = false) /\
  (has_store_id b = false -> store_id b = 0) /\ (has_slot b = false -> slot b = 0) /\
  (has_generation b = false -> generation b = 0).

Lemma blob_id_entries_facts b d :
  wf_id b -> (S d < kMaxDepth)%nat ->
  is_u32 (Z.of_nat (length (blob_id_entries b))) /\ Forall (good blobIdField (S d)) (blob_id_entries b) /\
  ascending None (e_key <$> blob_id_entries b) /\
  Z.of_nat (length (blob_id_entries b)) = b2z (negb (isCatalog b)) + b2z (has_store_id b) + b2z (has_slot b) + b2z (has_generation b).
Proof.
  intros (H1 & H2 & H3 & H4) Hd. split_and!.
  - unfold blob_id_entries. by destruct (isCatalog b), (has_store_id b), (has_slot b), (has_generation b).
  - unfold blob_id_entries. each_entry; uint_entry blobIdField.
  - unfold blob_id_entries. by destruct (isCatalog b), (has_store_id b), (has_slot b), (has_generation b).
  - unfold blob_id_entries. by destruct (isCatalog b), (has_store_id b), (has_slot b), (has_generation b).
Qed.

Lemma chunks_good cs :
  Forall is_u16 cs -> cs <> [] -> (length cs <= kBlobReqMaxChunks)%nat ->
  good blobReqField 1 (mkEntry CborKey.chunks (chunk_ops cs) (fun x => mkBlobReq (br_blob x) false cs)).
Proof.
  intros Hcs Hne Hl. assert (is_u32 (Z.of_nat (length cs))) as Hn by (unfold is_u32, kBlobReqMaxChunks in *; lia).
  split; cbn [e_key e_ops e_eff]; unfold e_bytes; cbn [e_ops].
  - done.
  - rewrite chunk_ops_bytes. intros m r rest Hb Hd Ha. rewrite <- app_assoc in Ha.
    unfold blobReqField. cbn [Z.eqb CborKey.chunks Pos.eqb]. unfold readArrayHeader.
    assert (length (r_stack r) < kMaxDepth)%nat as Hlt by (unfold kMaxDepth; lia).
    rewrite (proj2 (enter_iff 4 false r _ _ Hb ltac:(lia)) (conj Hn (conj Hlt (conj (ex_intro _ _ Ha) eq_refl)))).
    cbn [rbind]. destruct (Z.ltb_spec (Z.of_nat kBlobReqMaxChunks) (Z.of_nat (length cs))); [lia|].
    destruct (Z.eqb_spec (Z.of_nat (length cs)) 0); [destruct cs; [done|cbn in *; lia]|].
    unfold decodeChunks. rewrite (decodeChunks_at cs [] (r_stack r) false 0 _ rest); try done.
    + cbn [rbind app]. do 2 f_equal. rewrite advance_advance, length_app. done.
    + cbn [advance r_stack]. rewrite open_nonempty by lia. done.
    + by eapply advance_ahead.
  - constructor; [done|]. apply Forall_fmap. eapply Forall_impl; [exact Hcs|]. intros c Hc. by apply u16_u64.
  - apply chunks_closes; [unfold kMaxDepth; lia|done].
  - rewrite chunk_ops_bytes. apply Forall_app. split; [apply is_bytes_head; lia|].
    clear Hn Hne Hl. induction Hcs as [|c cs Hc _ IH]; [done|]. cbn [fmap list_fmap concat].
    apply Forall_app. split; [apply is_bytes_head; [lia|apply Hc]|done].
Qed.

Lemma uints_run cs w : foldl (fun w c => uintVal c w) w cs = run (OpUint <$> cs) w.
Proof. unfold run. by rewrite foldl_fmap. Qed.

Lemma blob_req_encode m out :
  blob_req_wf m -> encodeBlobReq m out = encoded (run (map_ops (blob_req_entries m)) (cborWriter out)).
Proof.
  intros (Hid & Hcs & Hl & Hfull & Hcat & _). unfold encodeBlobReq.
  destruct (blob_id_entries_facts (br_blob m) 1 Hid ltac:(unfold kMaxDepth; lia)) as (_ & _ & _ & Hcount).
  destruct (Nat.ltb_spec kBlobReqMaxChunks (length (br_chunks m))); [lia|].
  assert (br_full m && (0 <? length (br_chunks m))%nat = false) as ->.
  { destruct (br_full m); [|done]. by rewrite (proj1 Hfull eq_refl). }
  assert (negb (br_full m) && (length (br_chunks m) =? 0)%nat = false) as ->.
  { destruct (br_full m) eqn:E; [done|]. destruct (br_chunks m); [discriminate (proj2 Hfull eq_refl)|done]. }
  assert (isCatalog (br_blob m) && (has_store_id (br_blob m) || has_slot (br_blob m)) = false) as ->.
  { destruct (isCatalog (br_blob m)); [|done]. by destruct (Hcat eq_refl) as [-> ->]. }
  cbv zeta. rewrite <- Hcount. apply (f_equal encoded). clear Hcount. rewrite uints_run.
  unfold blob_req_entries, chunk_ops, blob_id_entries.
  destruct (br_full m), (isCatalog (br_blob m)), (has_store_id (br_blob m)), (has_slot (br_blob m)), (has_generation (br_blob m));
    cbn [negb opt app length]; literal_counts; cbn [Z.ltb Z.compare opt]; flatten_run.
Qed.

Lemma blob_req_roundtrip_at m out :
  blob_req_wf m -> (length (map_bytes (blob_req_entries m)) <= length out)%nat ->
  let '(n, out') := encodeBlobReq m out in
  n = length (map_bytes (blob_req_entries m)) /\ decodeBlobReq (take n out') = Ok m.
Proof.
  intros Hwf Hfit. rewrite blob_req_encode by done.
  destruct Hwf as (Hid & Hcs & Hl & Hfull & Hcat & D1 & D2 & D3).
  destruct (blob_id_entries_facts (br_blob m) 1 Hid ltac:(unfold kMaxDepth; lia)) as (Hnb & Hgb & Hab & _).
  assert (Forall (good blobReqField 1) (blob_req_entries m)) as Hg.
  { unfold blob_req_entries. apply Forall_app. split; apply Forall_opt.
    - intros Hnf. apply chunks_good; [done| |done]. intros E. rewrite (proj2 Hfull E) in Hnf. done.
    - intros _. apply (good_map blobReqField 1 _ (blob_id_entries (br_blob m)) blobIdField); try done; [unfold kMaxDepth; lia|].
      intros x r rest Hb Hd Ha. unfold blobReqField, decodeBlobId. cbn [Z.eqb CborKey.chunks CborKey.blob Pos.eqb].
      rewrite (decodeMap_reads blobIdField 1 (blob_id_entries (br_blob m))) with (rest := rest); try done; [unfold kMaxDepth; lia|].
      eapply Forall_impl; [exact Hgb|]. by intros e []. }
  pose proof (message_roundtrip blobReqField (blob_req_entries m) (mkBlobReq noBlobId true []) out) as H.
  destruct (encoded _) as [n out']. destruct H as (-> & -> & r & E); try done.
  1, 2: unfold blob_req_entries; by destruct (br_full m), (0 <? _).
  split; [done|]. unfold decodeBlobReq. rewrite E. cbn [rbind]. clear E Hg Hgb Hab Hnb Hfit.
  assert (effects (blob_req_entries m) (mkBlobReq noBlobId true []) = m) as ->.
  { destruct m as [[n hs st hl sl hg ge] full cs]. unfold blob_req_entries, blob_id_entries, isCatalog in *. cbn [br_blob br_full br_chunks
      ns has_store_id store_id has_slot slot has_generation generation] in *.
    assert (full = true -> cs = []) as Hf by apply Hfull.
    destruct full; [rewrite Hf by done|]; destruct (Z.eqb_spec n blob_ns.catalog) as [->|], hs, hl, hg; cbn;
      rewrite ?D1, ?D2, ?D3 by done; reflexivity. }
  destruct (isCatalog (br_blob m)); [|done]. by destruct (Hcat eq_refl) as [-> ->].
Qed.

(** ** Unknown keys *)

(** The entries of a message among pairs the decoder does not know. *)
Inductive interleaved {M} (known : Z -> bool) (b : nat) : list (Entry M) -> list (Z * bytes) -> Prop :=
| i_nil : interleaved known b [] []
| i_known e es kvs : interleaved known b es kvs -> interleaved known b (e :: es) ((e_key e, e_bytes e) :: kvs)
| i_foreign k v es kvs : known k = false -> is_u64 k -> is_bytes v -> value b v ->
    interleaved known b es kvs -> interleaved known b es ((k, v) :: kvs).

Lemma interleaved_pieces {M} (field : Z -> M -> CborReader -> Result (M * CborReader) DecodeError) known d es kvs :
  (forall k m r, known k = false -> field k m r = ignoreField m r) -> (d <= kMaxDepth)%nat ->
  interleaved known (kMaxDepth - d) es kvs -> Forall (entry_ok field d) es ->
  exists ps, Forall (piece_ok field d) ps /\ ps.*1 = kvs /\ forall m, piece_effects ps m = effects es m.
Proof.
  intros Hign Hdm Hint Hok. induction Hint as [|e es kvs Hint IH|k v es kvs Hk Hk64 Hvb Hv Hint IH].
  - by exists [].
  - apply Forall_cons in Hok as [He Hok]. destruct (IH Hok) as (ps & H1 & H2 & H3).
    exists (piece_of e :: ps). split_and!; [by constructor|cbn; by rewrite H2|]. intros m. apply H3.
  - destruct (IH Hok) as (ps & H1 & H2 & H3). exists ((k, v, fun m => m) :: ps).
    split_and!; [constructor; [|done]|cbn; by rewrite H2|done]. split; [done|].
    intros m r rest Hb Hs Ha. cbn [fst snd] in *. rewrite Hign by done. by eapply ignore_reads.
Qed.

Lemma tolerant_read {M} (field : Z -> M -> CborReader -> Result (M * CborReader) DecodeError) known es kvs m0 :
  (forall k m r, known k = false -> field k m r = ignoreField m r) ->
  interleaved known 3 es kvs -> Forall (good field 1) es -> ascending None kvs.*1 -> is_u32 (Z.of_nat (length kvs)) ->
  exists r, decodeMap field m0 (cborReader (head_bytes 5 (Z.of_nat (length kvs)) ++ concat (pair_bytes <$> kvs)))
            = Ok (effects es m0, r).
Proof.
  intros Hign Hint Hg Hasc Hn.
  assert (is_bytes (head_bytes 5 (Z.of_nat (length kvs)) ++ concat (pair_bytes <$> kvs))) as Hb.
  { apply Forall_app. split; [apply is_bytes_head; lia|]. clear -Hint Hg.
    induction Hint as [|e es kvs Hint IH|k v es kvs Hk Hk64 Hvb Hv Hint IH]; [done| |]; cbn [fmap list_fmap concat];
      repeat (apply Forall_app; split).
    - apply Forall_cons in Hg as [He _]. apply is_bytes_head; [lia|]. apply (g_key _ _ _ He).
    - apply Forall_cons in Hg as [He _]. apply (g_bytes _ _ _ He).
    - apply Forall_cons in Hg as [_ Hg]. auto.
    - apply is_bytes_head; [lia|apply Hk64].
    - done.
    - auto. }
  destruct (interleaved_pieces field known 1 es kvs) as (ps & Hps & Hk & Heff); try done; [unfold kMaxDepth; lia| |].
  { eapply Forall_impl; [exact Hg|]. intros e []. by split. }
  eexists. rewrite <- Heff.
  assert (length ps = length kvs) as Hl by (rewrite <- Hk; by rewrite length_fmap). rewrite <- Hl, <- Hk in Hb |- *.
  apply (decodePieces_reads field 0 ps) with (rest := []); try done; [unfold kMaxDepth; lia|by rewrite Hl|by rewrite Hk|].
  cbn. by rewrite app_nil_r.
Qed.

(** * Properties *)

(** C28. INTENT, ECHO and EVENT, the messages that carry values, survive the
    wire: for every message within the C++ field ranges (at most 8 value fields
    with ascending keys, any scalar kind, any combination of the optional
    members) and any buffer that holds the encoding, the encoder reports its
    exact length and the decoder returns the message, a non-negative signed
    value being returned as the equal unsigned one. *)
Theorem value_messages_roundtrip (out : bytes) :
  (forall m, intent_wf m -> (length (map_bytes (intent_entries m)) <= length out)%nat ->
     let '(n, out') := encodeIntent m out in
     n = length (map_bytes (intent_entries m)) /\ decodeIntent (take n out') = Ok (canonical_intent m)) /\
  (forall m, echo_wf m -> (length (map_bytes (echo_entries m)) <= length out)%nat ->
     let '(n, out') := encodeEcho m out in
     n = length (map_bytes (echo_entries m)) /\
     decodeEcho (take n out') = Ok (mkEcho (em_intent_id m) (em_cfg_gen m) (canonical_field <$> em_applied m))) /\
  (forall m, event_wf m -> (length (map_bytes (event_entries m)) <= length out)%nat ->
     let '(n, out') := encodeEvent m out in
     n = length (map_bytes (event_entries m)) /\ decodeEvent (take n out') = Ok (canonical_event m)).
Proof. split_and!; intros m Hwf Hfit; [by apply intent_roundtrip_at|by apply echo_roundtrip_at|by apply event_roundtrip_at]. Qed.

Example intent_on_the_wire :
  let m := mkIntent 7 300 [mkField 1 (I64 (-5)); mkField 2 (Bool true); mkField 9 (Tstr [104; 105])] true 12 false false in
  let '(n, out) := encodeIntent m (replicate 40 0) in
  n = 20%nat /\ decodeIntent (take n out) = Ok m.
Proof. vm_compute. split; reflexivity. Qed.

(** NACK is forward compatible: a NACK whose known fields are interleaved
    with any number of unknown keys carrying arbitrary values of the profile
    (nested up to the depth limit) decodes to the same message as without
    them; in particular the encoder's own output decodes to the message. *)
Theorem nack_tolerant_roundtrip (m : NackMsg) (kvs : list (Z * bytes)) (out : bytes) :
  nack_wf m ->
  interleaved (fun k => bool_decide (k ∈ [15; 16; 17; 18; 31; 41])) 3 (nack_entries m) kvs ->
  ascending None kvs.*1 -> is_u32 (Z.of_nat (length kvs)) ->
  (length (map_bytes (nack_entries m)) <= length out)%nat ->
  decodeNack (head_bytes 5 (Z.of_nat (length kvs)) ++ concat (pair_bytes <$> kvs)) = Ok m /\
  let '(n, out') := encodeNack m out in
  n = length (map_bytes (nack_entries m)) /\ decodeNack (take n out') = Ok m.
Proof.
  intros Hwf Hint Hasc Hn Hfit. split; [|by apply nack_roundtrip_at].
  destruct (tolerant_read nackField (fun k => bool_decide (k ∈ [15; 16; 17; 18; 31; 41])) (nack_entries m) kvs (noNack, false))
    as (r & E); try done; [|by apply nack_entries_good|].
  { intros k x r Hk%bool_decide_eq_false. rewrite !not_elem_of_cons in Hk. unfold nackField.
    destruct x as [[] g]. unfold CborKey.channel_id, CborKey.code, CborKey.detail, CborKey.intent_id, CborKey.retry_after_ms, CborKey.intent_seq.
    repeat match goal with |- context [k =? ?c] => destruct (Z.eqb_spec k c); [naive_solver|] end. done. }
  unfold decodeNack. rewrite E. clear E.
  destruct Hwf as (_ & _ & _ & _ & _ & _ & _ & D1 & D2 & D3 & D4 & D5).
  unfold nack_entries. destruct m as [co hc ch hi ii hd de hr ra hq sq]; cbn in *.
  destruct hc, hd, hi, hr, hq; cbn; rewrite ?D1, ?D2, ?D3, ?D4, ?D5 by done; reflexivity.
Qed.

Lemma nack_tolerant_roundtrip_witness :
  let m := mkNack 3 true 7 false 0 false [] true 1500 false 0 in
  decodeNack (head_bytes 5 4 ++ concat (pair_bytes <$> [(2, [0x81; 0x20]); (15, [7]); (16, [3]); (31, [0x19; 5; 0xDC])])) = Ok m.
Proof.
  pose (m := mkNack 3 true 7 false 0 false [] true 1500 false 0).
  apply (nack_tolerant_roundtrip m [(2, [0x81; 0x20]); (15, [7]); (16, [3]); (31, [0x19; 5; 0xDC])] (replicate 30 0)).
  - unfold nack_wf, m. cbn. unfold is_u16, is_u32, kNackMaxDetailBytes. split_and!; done || lia.
  - apply i_foreign; [reflexivity|done|apply (bool_decide_unpack _); vm_compute; exact I| |].
    + right. left. exists [[0x20]]. split; [done|]. split; [|reflexivity].
      constructor; [|constructor]. left. change [0x20] with (head_bytes 1 0). by constructor.
    + repeat first [apply i_nil | refine (i_known _ _ (mkEntry _ _ _) _ _ _)].
  - cbn. lia.
  - done.
  - apply Nat.leb_le. vm_compute. reflexivity.
Defined.

(** GOODBYE, PROBE_REPORT and BLOB_REQ survive the wire: within the field
    ranges (and for BLOB_REQ: a full request names no chunk, a repair names
    1 to 32, a catalog request carries no store or slot) the encoder reports
    the exact length and the decoder returns the message itself. *)
Theorem plain_messages_roundtrip (out : bytes) :
  (forall m, goodbye_wf m -> (length (map_bytes (goodbye_entries m)) <= length out)%nat ->
     let '(n, out') := encodeGoodbye m out in
     n = length (map_bytes (goodbye_entries m)) /\ decodeGoodbye (take n out') = Ok m) /\
  (forall p, probe_wf p -> (length (map_bytes (probe_report_entries p)) <= length out)%nat ->
     let '(n, out') := encodeProbeReport p out in
     n = length (map_bytes (probe_report_entries p)) /\ decodeProbeReport (take n out') = Ok p) /\
  (forall m, blob_req_wf m -> (length (map_bytes (blob_req_entries m)) <= length out)%nat ->
     let '(n, out') := encodeBlobReq m out in
     n = length (map_bytes (blob_req_entries m)) /\ decodeBlobReq (take n out') = Ok m).
Proof. split_and!; intros m Hwf Hfit; [by apply goodbye_roundtrip_at|by apply probe_roundtrip_at|by apply blob_req_roundtrip_at]. Qed.

Example blob_req_on_the_wire :
  let m := mkBlobReq (mkBlobId 1 true 4 true 9 true 513) false [2; 700] in
  let '(n, out) := encodeBlobReq m (replicate 40 0) in
  n = 21%nat /\ decodeBlobReq (take n out) = Ok m.
Proof. vm_compute. split; reflexivity. Qed.

(** Out-of-range numbers are not treated alike: a channel id of 65536 + 7 is
    read as channel 7, a reason code of 65536 + 7 is rejected. *)
Lemma nack_channel_truncates :
  decodeNack ([0xA2; 15; 0x1A; 0; 1; 0; 7; 16; 3]) = Ok (mkNack 3 true 7 false 0 false [] false 0 false 0) /\
  decodeNack ([0xA1; 16; 0x1A; 0; 1; 0; 7]) = Err Malformed.
Proof. vm_compute. split; reflexivity. Qed.
