(* ===== verification/Codec.v ===== *)
(** * Codec: arrays, optional fields and sub-maps of the control messages

    The shapes the handshake messages and the ledger share on top of [Messages]:
    a bounded CBOR array of items, an optional map entry, a nested map; the
    lemmas that turn an encoder into its list of writer calls and a decoder into
    the effects of its entries; and the class of a message with its codec, which
    is what the senders and receivers of messages rely on. *)

From coqutil Require Export Datatypes.RecordSetters.
From stdpp Require Import sets.
From S2P Require Import Prelude ByteIO Cbor Messages.
Export DoubleBraceUpdate.
Local Open Scope Z_scope.

(** [arrayHeader(n)] and one item after the other. *)
Definition writeArray {A} (write : A -> CborWriter -> CborWriter) (xs : list A) (w : CborWriter) : CborWriter :=
  foldl (fun w x => write x w) (arrayHeader (Z.of_nat (length xs)) w) xs.

(** The bounded array loop of the decoders. *)
Definition decodeArray {B} (cap : nat) (item : CborReader -> Result (B * CborReader) DecodeError) (r : CborReader) :
    Result (list B * CborReader) DecodeError :=
  let? (n, r) := readArrayHeader r in
  if Z.of_nat cap <? n then Err CapacityExceeded
  else forR n (fun '(acc, r) => let? (x, r) := item r in Ok (acc ++ [x], r)) ([], r).

(** * Theorems *)

(** ** Arrays of items *)

Section array_ops.
Context {A : Type} (ops : A -> list op).

Definition array_ops (xs : list A) : list op := OpArr (Z.of_nat (length xs)) :: concat (ops <$> xs).

Lemma items_bytes xs : ops_bytes (concat (ops <$> xs)) = concat ((fun x => ops_bytes (ops x)) <$> xs).
Proof. induction xs as [|x xs IH]; [done|]. cbn [fmap list_fmap concat]. by rewrite ops_bytes_app, IH. Qed.

Lemma array_closes d xs :
  (d < kMaxDepth)%nat -> Forall (fun x => closes (S d) (ops x)) xs -> closes d (array_ops xs).
Proof.
  intros Hd Hxs stk Hs. unfold array_ops. cbn [ops_stack op_stack]. unfold push.
  destruct (Nat.ltb_spec (length stk) kMaxDepth); [|lia]. cbn [mbind option_bind].
  destruct xs as [|x xs]; [cbn [length fmap list_fmap concat ops_stack]; f_equal; apply settle_empty|].
  rewrite open_nonempty by (cbn [length]; lia). generalize false at 2. generalize 0.
  assert (x :: xs <> []) as Hne by done. revert Hxs Hne. generalize (x :: xs). clear x xs. intros xs Hxs.
  induction Hxs as [|x xs Hx Hxs IH]; intros Hne lk hl; [done|]. cbn [fmap list_fmap concat]. rewrite ops_stack_app.
  rewrite Hx by (cbn; by rewrite Hs). cbn [mbind option_bind]. destruct xs as [|x2 xs].
  - cbn [length fmap list_fmap concat ops_stack]. f_equal. apply consumeOne_last.
  - rewrite consumeOne_more by (cbn [length]; lia).
    replace (Z.of_nat (length (x :: x2 :: xs)) - 1) with (Z.of_nat (length (x2 :: xs))) by (cbn [length]; lia).
    by apply IH.
Qed.
End array_ops.

Section arrays.
Context {A B : Type} (item : CborReader -> Result (B * CborReader) DecodeError) (ops : A -> list op) (dec : A -> B).

(** At depth [d] the item written for [x] reads back as [dec x]. *)
Definition item_ok (d : nat) (x : A) : Prop :=
  forall r rest, is_bytes (r_in r) -> length (r_stack r) = d -> ahead r = ops_bytes (ops x) ++ rest ->
  item r = Ok (dec x, advance (length (ops_bytes (ops x))) consumeOne r).

Lemma items_loop d xs acc stk hl lk r rest :
  Forall (item_ok d) xs -> xs <> [] -> is_bytes (r_in r) ->
  r_stack r = mkFrame false (Z.of_nat (length xs)) hl lk :: stk -> S (length stk) = d ->
  ahead r = ops_bytes (concat (ops <$> xs)) ++ rest ->
  forR (Z.of_nat (length xs)) (fun '(acc, r) => let? (x, r) := item r in Ok (acc ++ [x], r)) (acc, r) =
  Ok (acc ++ (dec <$> xs), advance (length (ops_bytes (concat (ops <$> xs)))) (fun _ => consumeOne stk) r).
Proof.
  intros Hxs. revert acc r. induction Hxs as [|x xs Hx Hxs IH]; intros acc r Hne Hb Hs Hd Ha; [done|].
  cbn [length fmap list_fmap concat] in *. rewrite ops_bytes_app in *. rewrite <- app_assoc in Ha. rewrite forR_S.
  rewrite (Hx r _ Hb ltac:(rewrite Hs; exact Hd) Ha). cbn [rbind].
  destruct xs as [|x2 xs].
  - cbn [length Z.of_nat forR fmap list_fmap concat]. unfold ops_bytes at 3. cbn [fmap list_fmap concat]. rewrite app_nil_r.
    do 2 f_equal. apply advance_stack. rewrite Hs. apply consumeOne_last.
  - rewrite IH; [|done|done| |done|by eapply advance_ahead].
    + rewrite <- app_assoc, advance_advance, length_app. done.
    + cbn [advance r_stack]. rewrite Hs, consumeOne_more by (cbn [length]; lia). do 2 f_equal. cbn [length]. lia.
Qed.
End arrays.

(** Calls that write one complete value at top level. *)
Lemma closed_run ops out : Forall op_wf ops -> closes 0 ops -> (length (ops_bytes ops) <= length out)%nat ->
  encoded (run ops (cborWriter out)) = (length (ops_bytes ops), write_at 0 (ops_bytes ops) out).
Proof.
  intros Hwf Hcl Hfit. pose proof (run_spec ops (cborWriter out) eq_refl ltac:(cbn; lia) Hwf) as H.
  cbn [w_stack cborWriter] in H. rewrite Hcl in H by done. unfold appends in H. cbn [w_pos w_out cborWriter Nat.add] in H.
  destruct (Nat.leb_spec (length (ops_bytes ops)) (length out)); [|lia]. unfold encoded. rewrite H. done.
Qed.

(** ** Entries as the decoders read them *)

Section good_entries.
Context {M : Type} (field : Z -> M -> CborReader -> Result (M * CborReader) DecodeError) (d : nat) (k : Z).
Hypothesis Hk : is_u64 k.

Lemma good_number v eff : is_u64 v ->
  (forall x r r', readUint r = Ok (v, r') -> field k x r = Ok (eff x, r')) -> good field d (mkEntry k [OpUint v] eff).
Proof using Hk. intros Hv Hf. apply good_scalar; [done|done|done|]. intros x r rest Hb _ Ha. apply Hf. by apply (readUint_at r v rest). Qed.

Lemma good_text s eff : is_bytes s -> (length s < 256)%nat ->
  (forall x r r', readTstr r = Ok (s, r') -> field k x r = Ok (eff x, r')) -> good field d (mkEntry k [OpTstr s] eff).
Proof using Hk.
  intros Hs Hl Hf. assert (is_u64 (Z.of_nat (length s))) as Hls by (unfold is_u64; lia).
  apply good_scalar; [done|done|done|]. intros x r rest Hb _ Ha. apply Hf. unfold readTstr. by apply (readStr_at 3 r s rest).
Qed.

Lemma good_binary s eff : is_bytes s -> (length s < 256)%nat ->
  (forall x r r', readBstr r = Ok (s, r') -> field k x r = Ok (eff x, r')) -> good field d (mkEntry k [OpBstr s] eff).
Proof using Hk.
  intros Hs Hl Hf. assert (is_u64 (Z.of_nat (length s))) as Hls by (unfold is_u64; lia).
  apply good_scalar; [done|done|done|]. intros x r rest Hb _ Ha. apply Hf. unfold readBstr. by apply (readStr_at 2 r s rest).
Qed.

Lemma good_flag (b : bool) eff :
  (forall x r r', readBool r = Ok (b, r') -> field k x r = Ok (eff x, r')) -> good field d (mkEntry k [OpBool b] eff).
Proof using Hk.
  intros Hf. apply good_scalar; [done|done|done|]. intros x r rest Hb _ Ha. apply Hf.
  assert (length (op_bytes (OpBool b)) = 1%nat) as -> by (by destruct b). by apply (readBool_at r b rest).
Qed.

Lemma good_float bits eff : is_u32 bits ->
  (forall x r r', readF32 r = Ok (bits, r') -> field k x r = Ok (eff x, r')) -> good field d (mkEntry k [OpF32 bits] eff).
Proof using Hk.
  intros Hv Hf. apply good_scalar; [done|done|done|]. intros x r rest Hb _ Ha. apply Hf.
  destruct (readF32_at r bits rest Hb Hv Ha) as [_ E]. exact E.
Qed.

Lemma good_submap {N} (sub : Z -> N -> CborReader -> Result (N * CborReader) DecodeError) (proj : M -> N) es eff :
  (d < kMaxDepth)%nat -> is_u32 (Z.of_nat (length es)) -> Forall (good sub (S d)) es -> ascending None (e_key <$> es) ->
  (forall x r r', decodeMap sub (proj x) r = Ok (effects es (proj x), r') -> field k x r = Ok (eff x, r')) ->
  good field d (mkEntry k (map_ops es) eff).
Proof using Hk.
  intros Hd Hn Hes Hasc Hf. apply (good_map field d k es sub); try done.
  intros x r rest Hb Hs Ha. apply Hf. apply (decodeMap_reads sub d es) with (rest := rest); try done.
  eapply Forall_impl; [exact Hes|]. by intros e [].
Qed.
End good_entries.

(** ** Arrays as the decoders read them *)

Section good_arrays.
Context {A B : Type} (item : CborReader -> Result (B * CborReader) DecodeError) (ops : A -> list op) (dec : A -> B).

(** An item both sides agree on at depth [d]. *)
Record item_good (d : nat) (x : A) : Prop := {
  i_reads : item_ok item ops dec d x;
  i_wf : Forall op_wf (ops x);
  i_closes : closes d (ops x);
  i_bytes : is_bytes (ops_bytes (ops x)) }.

Lemma decodeArray_at d cap xs r rest :
  (d < kMaxDepth)%nat -> (length xs <= cap)%nat -> is_u32 (Z.of_nat cap) -> Forall (item_ok item ops dec (S d)) xs ->
  is_bytes (r_in r) -> length (r_stack r) = d -> ahead r = ops_bytes (array_ops ops xs) ++ rest ->
  decodeArray cap item r = Ok (dec <$> xs, advance (length (ops_bytes (array_ops ops xs))) consumeOne r).
Proof.
  intros Hd Hl Hcap Hok Hb Hs Ha. assert (is_u32 (Z.of_nat (length xs))) as Hn by (unfold is_u32 in *; lia).
  assert (ops_bytes (array_ops ops xs) = head_bytes 4 (Z.of_nat (length xs)) ++ ops_bytes (concat (ops <$> xs))) as Eb by done.
  rewrite Eb in *. rewrite <- app_assoc in Ha. unfold decodeArray, readArrayHeader.
  assert (length (r_stack r) < kMaxDepth)%nat as Hlt by lia.
  rewrite (proj2 (enter_iff 4 false r _ _ Hb ltac:(lia)) (conj Hn (conj Hlt (conj (ex_intro _ _ Ha) eq_refl)))). cbn [rbind].
  destruct (Z.ltb_spec (Z.of_nat cap) (Z.of_nat (length xs))); [lia|].
  destruct (decide (xs = [])) as [->|Hne].
  { cbn [length Z.of_nat forR fmap list_fmap concat]. rewrite app_nil_r. do 2 f_equal. apply advance_stack. apply settle_empty. }
  rewrite (items_loop item ops dec (S d) xs [] (r_stack r) false 0 _ rest); try done.
  - cbn [app]. do 2 f_equal. rewrite advance_advance, length_app. done.
  - cbn [advance r_stack]. rewrite open_nonempty; [done|]. destruct xs; [done|cbn [length]; lia].
  - by rewrite Hs.
  - by eapply advance_ahead.
Qed.

Lemma good_array {M} (field : Z -> M -> CborReader -> Result (M * CborReader) DecodeError) d k cap xs eff :
  is_u64 k -> (d < kMaxDepth)%nat -> (length xs <= cap)%nat -> is_u32 (Z.of_nat cap) -> Forall (item_good (S d)) xs ->
  (forall x r r', decodeArray cap item r = Ok (dec <$> xs, r') -> field k x r = Ok (eff x, r')) ->
  good field d (mkEntry k (array_ops ops xs) eff).
Proof.
  intros Hk Hd Hl Hcap Hxs Hf. assert (is_u32 (Z.of_nat (length xs))) as Hn by (unfold is_u32 in *; lia).
  split; cbn [e_key e_ops e_eff]; unfold e_bytes; cbn [e_ops]; try done.
  - intros x r rest Hb Hs Ha. apply Hf. apply (decodeArray_at d cap xs r rest); try done. eapply Forall_impl; [exact Hxs|]. by intros y [].
  - constructor; [done|]. clear Hl Hn Hf. induction Hxs as [|y ys Hy _ IH]; [constructor|]. cbn [fmap list_fmap concat].
    apply Forall_app. split; [apply Hy|done].
  - apply array_closes; [done|]. eapply Forall_impl; [exact Hxs|]. by intros y [].
  - unfold array_ops. change (OpArr ?n :: ?l) with ([OpArr n] ++ l). rewrite ops_bytes_app, ops_bytes_1, items_bytes.
    apply Forall_app. split; [apply is_bytes_head; unfold is_u32 in Hn; lia|]. clear Hl Hn Hf.
    induction Hxs as [|y ys Hy _ IH]; [constructor|]. cbn [fmap list_fmap concat]. apply Forall_app. split; [apply Hy|done].
Qed.

Lemma writeArray_run (write : A -> CborWriter -> CborWriter) xs w :
  (forall x w, write x w = run (ops x) w) -> writeArray write xs w = run (array_ops ops xs) w.
Proof.
  intros Hw. unfold writeArray, array_ops. rewrite run_cons. cbn [exec].
  generalize (arrayHeader (Z.of_nat (length xs)) w). induction xs as [|x xs IH]; intros v; [done|].
  cbn [foldl fmap list_fmap concat]. by rewrite IH, run_app, Hw.
Qed.
End good_arrays.

(** An item that is a map of entries. *)
Lemma item_of_map {A N} (sub : Z -> N -> CborReader -> Result (N * CborReader) DecodeError) (m0 : N) (es : A -> list (Entry N)) d x :
  (d < kMaxDepth)%nat -> is_u32 (Z.of_nat (length (es x))) -> Forall (good sub (S d)) (es x) ->
  ascending None (e_key <$> es x) ->
  item_good (decodeMap sub m0) (fun x => map_ops (es x)) (fun x => effects (es x) m0) d x.
Proof.
  intros Hd Hn Hes Hasc.
  assert (reads d ((fun _ => decodeMap sub) 0) (map_bytes (es x)) (effects (es x))) as Hr.
  { apply decodeMap_reads; try done. eapply Forall_impl; [exact Hes|]. by intros e []. }
  destruct (good_map (fun _ => decodeMap sub) d 0 (es x) sub (effects (es x)) ltac:(done) Hd Hn Hes Hasc Hr) as [_ _ Hw Hc Hb].
  unfold e_bytes in *. cbn [e_ops] in *. split; try done.
  intros r rest Hbr Hs Ha. rewrite ops_bytes_map in *. by apply (Hr m0 r rest).
Qed.

Lemma item_uint d v : is_u64 v -> item_good readUint (fun v => [OpUint v]) id d v.
Proof.
  intros Hv. split.
  - intros r rest Hb _ Ha. rewrite ops_bytes_1 in *. by apply (readUint_at r v rest).
  - constructor; [exact Hv|]. apply List.Forall_nil.
  - by apply closes_scalar.
  - rewrite ops_bytes_1. by apply is_bytes_op.
Qed.

(** ** Optional entries *)

Lemma effects_cons {M} (e : Entry M) es s : effects (e :: es) s = effects es (e_eff e s).
Proof. done. Qed.

Lemma effects_nil {M} (s : M) : effects [] s = s.
Proof. done. Qed.

(** An absent entry changes nothing if its effect is to restore the default. *)
Lemma effects_opt {M} b (e : Entry M) es s :
  (b = false -> e_eff e s = s) -> effects (opt b e ++ es) s = effects es (e_eff e s).
Proof. destruct b; [done|]. intros H. by rewrite H. Qed.

Lemma count_opt {A} b (x : A) l : Z.of_nat (length (opt b x ++ l)) = b2z b + Z.of_nat (length l).
Proof. destruct b; cbn [opt app length b2z]; lia. Qed.

Lemma count_cons {A} (x : A) l : Z.of_nat (length (x :: l)) = 1 + Z.of_nat (length l).
Proof. cbn [length]. lia. Qed.

Lemma run_opt {M} b (x : Entry M) w :
  run (concat (entry_ops <$> opt b x)) w = if b then run (e_ops x) (key (e_key x) w) else w.
Proof. destruct b; [|done]. cbn [opt fmap list_fmap concat]. by rewrite app_nil_r. Qed.

Lemma run_opt_app {M} b (x : Entry M) es w :
  run (concat (entry_ops <$> (opt b x ++ es))) w =
  run (concat (entry_ops <$> es)) (if b then run (e_ops x) (key (e_key x) w) else w).
Proof. rewrite fmap_app, concat_app, run_app. by rewrite run_opt. Qed.

Lemma run_entry {M} (x : Entry M) es w :
  run (concat (entry_ops <$> (x :: es))) w = run (concat (entry_ops <$> es)) (run (e_ops x) (key (e_key x) w)).
Proof. cbn [fmap list_fmap concat]. by rewrite run_app. Qed.

Lemma run_map {M} (es : list (Entry M)) w :
  run (map_ops es) w = run (concat (entry_ops <$> es)) (mapHeader (Z.of_nat (length es)) w).
Proof. done. Qed.

Lemma b2z_range b : 0 <= b2z b <= 1.
Proof. destruct b; cbn; lia. Qed.

(** The encoders thread the writer through a [let] per call. *)
Lemma run_let (B : CborWriter -> CborWriter) ops a b : a = b -> (forall w, B w = run ops w) -> B a = run ops b.
Proof. by intros -> H. Qed.

Ltac let_step_by call :=
  lazymatch goal with
  | |- (let w := ?a in @?B w) = run ?ops ?b =>
      apply (run_let B ops a b); [call|]; let w := fresh "w" in intros w; cbv beta
  end.
Ltac run_steps_by call := repeat (first [rewrite run_opt_app | rewrite run_entry]; try let_step_by call).
Ltac let_step := let_step_by ltac:(reflexivity).
Ltac run_steps := run_steps_by ltac:(reflexivity).

(** ** Keys of the present entries *)

Lemma ascending_weaken o k ks : (match o with Some l => l < k | None => True end) -> ascending (Some k) ks -> ascending o ks.
Proof. intros Ho. destruct ks as [|k2 ks]; [done|]. cbn. destruct o as [l|]; intros [? ?]; split; try done. lia. Qed.

Lemma ascending_sublist o ks ls : sublist ks ls -> ascending o ls -> ascending o ks.
Proof.
  intros Hs. revert o. induction Hs as [|k ks ls _ IH|k ks ls _ IH]; intros o; [done| |]; cbn [ascending]; intros [Ho Ha].
  - split; [done|]. by apply IH.
  - apply IH. by apply (ascending_weaken o k).
Qed.

Lemma opt_sublist {A} b (x : A) l l' : sublist l l' -> sublist (opt b x ++ l) (x :: l').
Proof. destruct b; cbn [opt app]; [apply sublist_skip|apply sublist_cons]. Qed.

Lemma entry_sublist {A} (x : A) l l' : sublist l l' -> sublist (x :: l) (x :: l').
Proof. apply sublist_skip. Qed.

Lemma keys_sublist {M} (es es' : list (Entry M)) : sublist es es' -> sublist (e_key <$> es) (e_key <$> es').
Proof. induction 1; cbn [fmap list_fmap]; by constructor. Qed.

(** With all entries present the keys are in the order of the encoder. *)
Ltac keys_ascending :=
  eapply ascending_sublist;
  [ apply keys_sublist; repeat first [apply opt_sublist | apply entry_sublist]; apply sublist_nil
  | cbn [fmap list_fmap e_key ascending]; split_and!; done ].

(** The branch of a [switch] on a literal key. *)
Ltac switch :=
  repeat match goal with
  | |- context [Z.eqb ?a ?b] =>
      let v := eval vm_compute in (Z.eqb a b) in
      lazymatch v with true => idtac | false => idtac end;
      change (Z.eqb a b) with v; cbv iota
  end.

(** ** Messages with their codec *)

(** What the two ends of a link rely on: a sendable message has one encoding,
    the encoder writes exactly it into any buffer that holds it, and the
    decoder returns the message. *)
Class WireMessage (M : Type) := {
  encode : M -> bytes -> nat * bytes;
  decode : bytes -> Result M DecodeError;
  sendable : M -> Prop;
  wire : M -> bytes;
  encode_wire : forall m out, sendable m -> (length (wire m) <= length out)%nat ->
    encode m out = (length (wire m), write_at 0 (wire m) out);
  decode_wire : forall m, sendable m -> decode (wire m) = Ok m }.

(** A message whose encoder writes the map [es] and whose decoder reads it. *)
Section messages.
Context {M : Type} (field : Z -> M -> CborReader -> Result (M * CborReader) DecodeError) (es : list (Entry M)).
Context (Hn : is_u32 (Z.of_nat (length es))) (Hg : Forall (good field 1) es) (Hasc : ascending None (e_key <$> es)).

Lemma entries_item m0 : item_good (decodeMap field m0) (fun _ : unit => map_ops es) (fun _ => effects es m0) 0 tt.
Proof using Hn Hg Hasc. apply (item_of_map field m0 (fun _ : unit => es)); try done. unfold kMaxDepth. lia. Qed.

Lemma encode_entries (m0 : M) out : (length (map_bytes es) <= length out)%nat ->
  encoded (run (map_ops es) (cborWriter out)) = (length (map_bytes es), write_at 0 (map_bytes es) out).
Proof using Hn Hg Hasc.
  intros Hfit. destruct (entries_item m0) as [_ Hw Hc _]. rewrite <- ops_bytes_map in *. by apply closed_run.
Qed.

Lemma decode_entries m0 : exists r, decodeMap field m0 (cborReader (map_bytes es)) = Ok (effects es m0, r).
Proof using Hn Hg Hasc.
  destruct (entries_item m0) as [Hr _ _ Hb]. eexists. rewrite ops_bytes_map in Hb.
  apply (Hr (cborReader (map_bytes es)) []); [done|done|]. rewrite app_nil_r, ops_bytes_map. done.
Qed.
End messages.

Lemma item_of_entries {A} (sub : Z -> A -> CborReader -> Result (A * CborReader) DecodeError) (m0 : A) (es : A -> list (Entry A)) d x :
  (d < kMaxDepth)%nat -> is_u32 (Z.of_nat (length (es x))) -> Forall (good sub (S d)) (es x) ->
  ascending None (e_key <$> es x) -> effects (es x) m0 = x ->
  item_good (decodeMap sub m0) (fun x => map_ops (es x)) id d x.
Proof.
  intros Hd Hn Hes Hasc He. destruct (item_of_map sub m0 es d x Hd Hn Hes Hasc) as [Hr Hw Hc Hb]. split; try done.
  intros r rest Hbr Hs Ha. rewrite (Hr r rest Hbr Hs Ha). by rewrite He.
Qed.
