(* ===== verification/Trust.v ===== *)
(** * Trust: the trust sub-map, AUTH, HUB_SIG and the pairing ceremony's messages

    wire/messages: trust_submap.hpp ([TrustMap]), auth.hpp ([Envelope]) and
    pair.hpp ([PairReq], [PairGrant]). A presence flag stays a flag beside the
    value it announces; a length with its fixed array is the list of the bytes
    in use. *)

From S2P Require Import Prelude Registry ByteIO Cbor Messages Codec.
Local Open Scope Z_scope.

Definition kTrustPubkeyMaxBytes : nat := 33.
Definition kTrustSigMaxBytes : nat := 72.
Definition kTrustTokenProofBytes : nat := 16.
Definition kTrustClientNonceBytes : nat := 8.
Definition kPinProofBytes : nat := 16.

Module TrustMap.

Record t := mk {
  has_client_ver : bool; client_ver : bytes;
  has_client_nonce : bool; client_nonce : bytes;
  has_sig_request : bool; sig_request : bool;
  has_presentation_mode : bool; presentation_mode : Z;
  has_token_proof : bool; token_proof : bytes;
  has_hub_pubkey : bool; hub_pubkey : bytes;
  has_welcome_sig : bool; welcome_sig : bytes;
  has_pairing_modes : bool; pairing_modes_mask : Z }.

Definition none : t :=
  mk false [] false (replicate kTrustClientNonceBytes 0) false false false 0 false (replicate kTrustTokenProofBytes 0)
    false [] false [] false 0.

Definition any (m : t) : bool :=
  has_client_ver m || has_client_nonce m || has_sig_request m || has_presentation_mode m ||
  has_token_proof m || has_hub_pubkey m || has_welcome_sig m || has_pairing_modes m.

Definition keyCount (m : t) : Z :=
  b2z (has_client_ver m) + b2z (has_client_nonce m) + b2z (has_sig_request m) + b2z (has_hub_pubkey m) +
  b2z (has_welcome_sig m) + b2z (has_token_proof m) + b2z (has_presentation_mode m) + b2z (has_pairing_modes m).

(** Writes [39: { ... }] into the open map. *)
Definition encodeTrustMap (m : t) (w : CborWriter) : CborWriter :=
  let w := mapHeader (keyCount m) (key CborKey.trust w) in
  let w := if has_client_ver m then tstrVal (client_ver m) (key trust_keys.client_ver w) else w in
  let w := if has_client_nonce m then bstrVal (client_nonce m) (key trust_keys.client_nonce w) else w in
  let w := if has_sig_request m then boolVal (sig_request m) (key trust_keys.sig_request w) else w in
  let w := if has_hub_pubkey m then bstrVal (hub_pubkey m) (key trust_keys.hub_pubkey w) else w in
  let w := if has_welcome_sig m then bstrVal (welcome_sig m) (key trust_keys.welcome_sig w) else w in
  let w := if has_token_proof m then bstrVal (token_proof m) (key trust_keys.token_proof w) else w in
  let w := if has_presentation_mode m then uintVal (presentation_mode m) (key trust_keys.presentation_mode w) else w in
  if has_pairing_modes m then uintVal (pairing_modes_mask m) (key trust_keys.pairing_modes w) else w.

Definition field (k : Z) (m : t) (r : CborReader) : Result (t * CborReader) DecodeError :=
  if k =? trust_keys.client_ver then
    let? (v, r) := readTstr r in
    if (limits.client_ver_max_bytes <? length v)%nat then Err CapacityExceeded
    else Ok (m{{client_ver := v; has_client_ver := true}}, r)
  else if k =? trust_keys.client_nonce then
    let? (v, r) := readBstr r in
    if negb (length v =? kTrustClientNonceBytes)%nat then Err Malformed
    else Ok (m{{client_nonce := v; has_client_nonce := true}}, r)
  else if k =? trust_keys.sig_request then
    let? (v, r) := readBool r in Ok (m{{sig_request := v; has_sig_request := true}}, r)
  else if k =? trust_keys.hub_pubkey then
    let? (v, r) := readBstr r in
    if (length v =? 0)%nat || (kTrustPubkeyMaxBytes <? length v)%nat then Err CapacityExceeded
    else Ok (m{{hub_pubkey := v; has_hub_pubkey := true}}, r)
  else if k =? trust_keys.welcome_sig then
    let? (v, r) := readBstr r in
    if (length v =? 0)%nat || (kTrustSigMaxBytes <? length v)%nat then Err CapacityExceeded
    else Ok (m{{welcome_sig := v; has_welcome_sig := true}}, r)
  else if k =? trust_keys.token_proof then
    let? (v, r) := readBstr r in
    if negb (length v =? kTrustTokenProofBytes)%nat then Err Malformed
    else Ok (m{{token_proof := v; has_token_proof := true}}, r)
  else if k =? trust_keys.presentation_mode then
    let? (v, r) := readUint r in
    if 0xFF <? v then Err Malformed else Ok (m{{presentation_mode := u8 v; has_presentation_mode := true}}, r)
  else if k =? trust_keys.pairing_modes then
    let? (v, r) := readUint r in
    if 0xFF <? v then Err Malformed else Ok (m{{pairing_modes_mask := u8 v; has_pairing_modes := true}}, r)
  else ignoreField m r.

Definition decodeTrustMap (m : t) (r : CborReader) : Result (t * CborReader) DecodeError := decodeMap field m r.

(** The map's entries; an absent one holds its default. *)
Definition entries (m : t) : list (Entry t) :=
  opt (has_client_ver m) (mkEntry trust_keys.client_ver [OpTstr (client_ver m)]
    (fun x => x{{client_ver := client_ver m; has_client_ver := has_client_ver m}}))
  ++ opt (has_client_nonce m) (mkEntry trust_keys.client_nonce [OpBstr (client_nonce m)]
    (fun x => x{{client_nonce := client_nonce m; has_client_nonce := has_client_nonce m}}))
  ++ opt (has_sig_request m) (mkEntry trust_keys.sig_request [OpBool (sig_request m)]
    (fun x => x{{sig_request := sig_request m; has_sig_request := has_sig_request m}}))
  ++ opt (has_hub_pubkey m) (mkEntry trust_keys.hub_pubkey [OpBstr (hub_pubkey m)]
    (fun x => x{{hub_pubkey := hub_pubkey m; has_hub_pubkey := has_hub_pubkey m}}))
  ++ opt (has_welcome_sig m) (mkEntry trust_keys.welcome_sig [OpBstr (welcome_sig m)]
    (fun x => x{{welcome_sig := welcome_sig m; has_welcome_sig := has_welcome_sig m}}))
  ++ opt (has_token_proof m) (mkEntry trust_keys.token_proof [OpBstr (token_proof m)]
    (fun x => x{{token_proof := token_proof m; has_token_proof := has_token_proof m}}))
  ++ opt (has_presentation_mode m) (mkEntry trust_keys.presentation_mode [OpUint (presentation_mode m)]
    (fun x => x{{presentation_mode := presentation_mode m; has_presentation_mode := has_presentation_mode m}}))
  ++ opt (has_pairing_modes m) (mkEntry trust_keys.pairing_modes [OpUint (pairing_modes_mask m)]
    (fun x => x{{pairing_modes_mask := pairing_modes_mask m; has_pairing_modes := has_pairing_modes m}}))
  ++ [].

Record wf (m : t) : Prop := {
  wf_ver : is_bytes (client_ver m) /\ (length (client_ver m) <= limits.client_ver_max_bytes)%nat;
  wf_nonce : is_bytes (client_nonce m) /\ length (client_nonce m) = kTrustClientNonceBytes;
  wf_proof : is_bytes (token_proof m) /\ length (token_proof m) = kTrustTokenProofBytes;
  wf_pubkey : is_bytes (hub_pubkey m) /\ (length (hub_pubkey m) <= kTrustPubkeyMaxBytes)%nat;
  wf_sig : is_bytes (welcome_sig m) /\ (length (welcome_sig m) <= kTrustSigMaxBytes)%nat;
  wf_mode : is_u8 (presentation_mode m);
  wf_mask : is_u8 (pairing_modes_mask m);
  wf_some_pubkey : has_hub_pubkey m = true -> hub_pubkey m <> [];
  wf_some_sig : has_welcome_sig m = true -> welcome_sig m <> [];
  no_ver : has_client_ver m = false -> client_ver m = [];
  no_nonce : has_client_nonce m = false -> client_nonce m = replicate kTrustClientNonceBytes 0;
  no_request : has_sig_request m = false -> sig_request m = false;
  no_pubkey : has_hub_pubkey m = false -> hub_pubkey m = [];
  no_sig : has_welcome_sig m = false -> welcome_sig m = [];
  no_proof : has_token_proof m = false -> token_proof m = replicate kTrustTokenProofBytes 0;
  no_mode : has_presentation_mode m = false -> presentation_mode m = 0;
  no_mask : has_pairing_modes m = false -> pairing_modes_mask m = 0 }.

#[local] Hint Resolve u8_u64 : words.

Ltac branch E H := intros x r r' E; unfold field; switch; rewrite E, H; cbn [rbind].

Lemma trust_map_entries_good d m : wf m -> Forall (good field d) (entries m).
Proof.
  intros [[Hv Lv] [Hn Ln] [Hp Lp] [Hk Lk] [Hs Ls] Hm Hz Nk Ns _ _ _ _ _ _ _ _]. unfold entries.
  repeat (apply Forall_app; split); try apply List.Forall_nil; apply Forall_opt; intros H.
  - apply good_text; [done|done|unfold limits.client_ver_max_bytes in Lv; lia|]. branch E H.
    by destruct (Nat.ltb_spec limits.client_ver_max_bytes (length (client_ver m))); [lia|].
  - apply good_binary; [done|done|rewrite Ln; unfold kTrustClientNonceBytes; lia|]. branch E H. by rewrite Ln.
  - apply good_flag; [done|]. by branch E H.
  - apply good_binary; [done|done|unfold kTrustPubkeyMaxBytes in Lk; lia|]. branch E H.
    destruct (Nat.ltb_spec kTrustPubkeyMaxBytes (length (hub_pubkey m))); [lia|]. specialize (Nk H). by destruct (hub_pubkey m).
  - apply good_binary; [done|done|unfold kTrustSigMaxBytes in Ls; lia|]. branch E H.
    destruct (Nat.ltb_spec kTrustSigMaxBytes (length (welcome_sig m))); [lia|]. specialize (Ns H). by destruct (welcome_sig m).
  - apply good_binary; [done|done|rewrite Lp; unfold kTrustTokenProofBytes; lia|]. branch E H. by rewrite Lp.
  - apply good_number; [done|auto with words|]. branch E H. destruct (Z.ltb_spec 0xFF (presentation_mode m)); [unfold is_u8 in Hm; lia|].
    by rewrite u8_id.
  - apply good_number; [done|auto with words|]. branch E H. destruct (Z.ltb_spec 0xFF (pairing_modes_mask m)); [unfold is_u8 in Hz; lia|].
    by rewrite u8_id.
Qed.

Lemma trust_map_entries_shape m : Z.of_nat (length (entries m)) = keyCount m /\ ascending None (e_key <$> entries m).
Proof. split; [|unfold entries; keys_ascending]. unfold entries, keyCount. rewrite !count_opt. cbn [length Z.of_nat]. lia. Qed.

Lemma keyCount_u32 m : is_u32 (keyCount m).
Proof.
  unfold is_u32, keyCount.
  pose proof (b2z_range (has_client_ver m)). pose proof (b2z_range (has_client_nonce m)). pose proof (b2z_range (has_sig_request m)).
  pose proof (b2z_range (has_hub_pubkey m)). pose proof (b2z_range (has_welcome_sig m)). pose proof (b2z_range (has_token_proof m)).
  pose proof (b2z_range (has_presentation_mode m)). pose proof (b2z_range (has_pairing_modes m)). lia.
Qed.

Lemma trust_map_effects_entries m : wf m -> effects (entries m) none = m.
Proof.
  intros []. unfold entries.
  do 8 (rewrite effects_opt;
    [|intros H; cbn [e_eff]; rewrite H;
      first [rewrite no_ver0 by exact H | rewrite no_nonce0 by exact H | rewrite no_request0 by exact H | rewrite no_pubkey0 by exact H
            | rewrite no_sig0 by exact H | rewrite no_proof0 by exact H | rewrite no_mode0 by exact H | rewrite no_mask0 by exact H];
      reflexivity]).
  by destruct m.
Qed.

Lemma encodeTrustMap_run m w : encodeTrustMap m w = run (map_ops (entries m)) (key CborKey.trust w).
Proof.
  rewrite run_map. destruct (trust_map_entries_shape m) as [-> _]. cbv delta [encodeTrustMap entries]; cbv beta. let_step. run_steps. done.
Qed.
End TrustMap.

(** The trust entry of a message, read by [decodeTrustMap] into the message's
    own trust map. *)
Lemma trust_good {M} (field : Z -> M -> CborReader -> Result (M * CborReader) DecodeError) d (proj : M -> TrustMap.t) m eff :
  (S d <= kMaxDepth)%nat -> TrustMap.wf m ->
  (forall x r r', TrustMap.decodeTrustMap (proj x) r = Ok (effects (TrustMap.entries m) (proj x), r') ->
     field CborKey.trust x r = Ok (eff x, r')) ->
  good field d (mkEntry CborKey.trust (map_ops (TrustMap.entries m)) eff).
Proof.
  intros Hd Hwf Hf. destruct (TrustMap.trust_map_entries_shape m) as [Hc Ha].
  apply (good_submap field d CborKey.trust ltac:(done) TrustMap.field proj); try done.
  - rewrite Hc. apply TrustMap.keyCount_u32.
  - by apply TrustMap.trust_map_entries_good.
Qed.

(** ** AUTH and HUB_SIG *)

Definition kHubSigMaterialBytes : nat := kTrustClientNonceBytes + 4 + 4.

(** [out[base + i] = (v >> (8 * i)) & 0xFF] for [i < 4]. *)
Definition putLE32 (base : nat) (v : Z) (out : bytes) : bytes :=
  foldl (fun out i => write_at (base + i) [Z.land (Z.shiftr v (8 * Z.of_nat i)) 0xFF] out) out (seq 0 4).

Definition hubSigMaterial (client_nonce : bytes) (session_id boot_id : Z) : bytes :=
  let out := replicate kHubSigMaterialBytes 0 in
  let out := foldl (fun out i => write_at i [byte_at i client_nonce] out) out (seq 0 kTrustClientNonceBytes) in
  let out := putLE32 kTrustClientNonceBytes session_id out in
  putLE32 (kTrustClientNonceBytes + 4) boot_id out.

Module Envelope.
Record t := mk { trust_map : TrustMap.t }.

Definition encodeTrustEnvelope (m : t) (out : bytes) : nat * bytes :=
  if negb (TrustMap.any (trust_map m)) then (0%nat, out)
  else encoded (TrustMap.encodeTrustMap (trust_map m) (mapHeader 1 (cborWriter out))).

(** The message with [gotTrust]. *)
Definition field (k : Z) (s : t * bool) (r : CborReader) : Result (t * bool * CborReader) DecodeError :=
  if k =? CborKey.trust then
    let? (tm, r) := TrustMap.decodeTrustMap (trust_map s.1) r in Ok ((mk tm, true), r)
  else ignoreField s r.

Definition decodeTrustEnvelope (s : bytes) : Result t DecodeError :=
  let? (m, gotTrust, _) := decodeMap field (mk TrustMap.none, false) (cborReader s) in
  if negb gotTrust then Err Malformed else Ok m.

Definition entries (m : t) : list (Entry (t * bool)) :=
  [mkEntry CborKey.trust (map_ops (TrustMap.entries (trust_map m)))
     (fun s => (mk (effects (TrustMap.entries (trust_map m)) (trust_map s.1)), true))].

Definition sendable (m : t) : Prop := TrustMap.wf (trust_map m) /\ TrustMap.any (trust_map m) = true.

Lemma envelope_entries_ok m : TrustMap.wf (trust_map m) -> Forall (good field 1) (entries m).
Proof.
  intros Hwf. constructor; [|apply List.Forall_nil]. apply (trust_good field 1 (fun s => trust_map s.1)); [unfold kMaxDepth; lia|done|].
  intros [x g] r r' E. unfold field. switch. cbn [fst] in *. by rewrite E.
Qed.

#[global, program] Instance message : WireMessage t := {|
  encode := encodeTrustEnvelope; decode := decodeTrustEnvelope; Codec.sendable := sendable;
  wire m := map_bytes (entries m) |}.
Next Obligation.
  intros m out [Hwf Hany] Hfit. unfold encodeTrustEnvelope. rewrite Hany. cbn [negb].
  rewrite TrustMap.encodeTrustMap_run. rewrite <- (encode_entries field (entries m)); try done; [|by apply envelope_entries_ok|exact (m, false)].
  apply (f_equal encoded). rewrite (run_map (entries m)). unfold entries. by rewrite run_entry.
Qed.
Next Obligation.
  intros m [Hwf _]. unfold decodeTrustEnvelope.
  destruct (decode_entries field (entries m) ltac:(done) (envelope_entries_ok m Hwf) ltac:(done) (mk TrustMap.none, false)) as [r ->].
  cbn [rbind]. unfold entries. rewrite effects_cons, effects_nil. cbn [e_eff fst trust_map]. rewrite TrustMap.trust_map_effects_entries by done. by destruct m.
Qed.
End Envelope.

(** ** PAIR_REQ *)

Module PairReq.
Record t := mk { instance_id : bytes; has_pin_proof : bool; pin_proof : bytes }.

Definition encodePairReq (m : t) (out : bytes) : nat * bytes :=
  let w := mapHeader (if has_pin_proof m then 2 else 1) (cborWriter out) in
  let w := bstrVal (instance_id m) (key CborKey.instance_id w) in
  let w := if has_pin_proof m then bstrVal (pin_proof m) (key CborKey.pin_proof w) else w in
  encoded w.

Definition none : t := mk (replicate limits.instance_id_bytes 0) false (replicate kPinProofBytes 0).

Definition field (k : Z) (s : t * bool) (r : CborReader) : Result (t * bool * CborReader) DecodeError :=
  let '(m, gotInstance) := s in
  if k =? CborKey.instance_id then
    let? (v, r) := readBstr r in
    if negb (length v =? limits.instance_id_bytes)%nat then Err Malformed
    else Ok ((m{{instance_id := v}}, true), r)
  else if k =? CborKey.pin_proof then
    let? (v, r) := readBstr r in
    if negb (length v =? kPinProofBytes)%nat then Err Malformed
    else Ok ((m{{pin_proof := v; has_pin_proof := true}}, gotInstance), r)
  else ignoreField (m, gotInstance) r.

Definition decodePairReq (s : bytes) : Result t DecodeError :=
  let? (m, gotInstance, _) := decodeMap field (none, false) (cborReader s) in
  if negb gotInstance then Err Malformed else Ok m.

Definition entries (m : t) : list (Entry (t * bool)) :=
  mkEntry CborKey.instance_id [OpBstr (instance_id m)] (fun s => (s.1{{instance_id := instance_id m}}, true))
  :: opt (has_pin_proof m) (mkEntry CborKey.pin_proof [OpBstr (pin_proof m)]
       (fun s => (s.1{{pin_proof := pin_proof m; has_pin_proof := has_pin_proof m}}, s.2))) ++ [].

Record sendable (m : t) : Prop := {
  s_instance : is_bytes (instance_id m) /\ length (instance_id m) = limits.instance_id_bytes;
  s_proof : is_bytes (pin_proof m) /\ length (pin_proof m) = kPinProofBytes;
  s_knock : has_pin_proof m = false -> pin_proof m = replicate kPinProofBytes 0 }.

Lemma pair_req_entries_ok m : sendable m ->
  is_u32 (Z.of_nat (length (entries m))) /\ Forall (good field 1) (entries m) /\ ascending None (e_key <$> entries m).
Proof.
  intros [[Hi Li] [Hp Lp] _]. split_and!; [by unfold entries; destruct (has_pin_proof m)| |unfold entries; keys_ascending].
  unfold entries. apply Forall_cons. split; [|apply Forall_app; split; [apply Forall_opt; intros H|apply List.Forall_nil]].
  - apply good_binary; [done|done|rewrite Li; unfold limits.instance_id_bytes; lia|]. intros [x g] r r' E. unfold field. switch.
    rewrite E. cbn [rbind]. by rewrite Li.
  - apply good_binary; [done|done|rewrite Lp; unfold kPinProofBytes; lia|]. intros [x g] r r' E. unfold field. switch.
    rewrite E. cbn [rbind]. by rewrite Lp, H.
Qed.

#[global, program] Instance message : WireMessage t := {|
  encode := encodePairReq; decode := decodePairReq; Codec.sendable := sendable; wire m := map_bytes (entries m) |}.
Next Obligation.
  intros m out Hs Hfit. destruct (pair_req_entries_ok m Hs) as (Hn & Hg & Ha). rewrite <- (encode_entries field (entries m) Hn Hg Ha (m, true)) by done.
  unfold encodePairReq, entries. apply (f_equal encoded). rewrite run_map, run_entry, run_opt_app. by destruct (has_pin_proof m).
Qed.
Next Obligation.
  intros m Hs. destruct (pair_req_entries_ok m Hs) as (Hn & Hg & Ha). destruct Hs as [_ _ Hk]. unfold decodePairReq.
  destruct (decode_entries field (entries m) Hn Hg Ha (none, false)) as [r ->]. cbn [rbind]. unfold entries.
  rewrite effects_cons, effects_opt; [by destruct m|]. intros H. cbn [e_eff]. by rewrite H, Hk.
Qed.
End PairReq.

(** ** PAIR_GRANT *)

Module PairGrant.
Record t := mk { token : bytes; roles : Z; has_trust : bool; trust_map : TrustMap.t }.

Definition encodePairGrant (m : t) (out : bytes) : nat * bytes :=
  let hasTrust := has_trust m && TrustMap.any (trust_map m) in
  let w := mapHeader (if hasTrust then 3 else 2) (cborWriter out) in
  let w := bstrVal (token m) (key CborKey.token w) in
  let w := uintVal (roles m) (key CborKey.roles w) in
  let w := if hasTrust then TrustMap.encodeTrustMap (trust_map m) w else w in
  encoded w.

Definition none : t := mk (replicate limits.token_bytes 0) 0 false TrustMap.none.

(** The message with [gotToken] and [gotRoles]. *)
Definition field (k : Z) (s : t * (bool * bool)) (r : CborReader) : Result (t * (bool * bool) * CborReader) DecodeError :=
  let '(m, (gotToken, gotRoles)) := s in
  if k =? CborKey.token then
    let? (v, r) := readBstr r in
    if negb (length v =? limits.token_bytes)%nat then Err Malformed
    else Ok ((m{{token := v}}, (true, gotRoles)), r)
  else if k =? CborKey.roles then
    let? (v, r) := readUint r in Ok ((m{{roles := u8 v}}, (gotToken, true)), r)
  else if k =? CborKey.trust then
    let? (tm, r) := TrustMap.decodeTrustMap (trust_map m) r in
    Ok ((m{{trust_map := tm; has_trust := true}}, (gotToken, gotRoles)), r)
  else ignoreField s r.

Definition decodePairGrant (s : bytes) : Result t DecodeError :=
  let? (m, (gotToken, gotRoles), _) := decodeMap field (none, (false, false)) (cborReader s) in
  if negb (gotToken && gotRoles) then Err Malformed else Ok m.

Definition entries (m : t) : list (Entry (t * (bool * bool))) :=
  mkEntry CborKey.token [OpBstr (token m)] (fun '(x, (gt, gr)) => (x{{token := token m}}, (true, gr)))
  :: mkEntry CborKey.roles [OpUint (roles m)] (fun '(x, (gt, gr)) => (x{{roles := roles m}}, (gt, true)))
  :: opt (has_trust m) (mkEntry CborKey.trust (map_ops (TrustMap.entries (trust_map m)))
       (fun '(x, (gt, gr)) => (x{{trust_map := effects (TrustMap.entries (trust_map m)) (trust_map x); has_trust := has_trust m}}, (gt, gr)))) ++ [].

Record sendable (m : t) : Prop := {
  s_token : is_bytes (token m) /\ length (token m) = limits.token_bytes;
  s_roles : is_u8 (roles m);
  s_trust : TrustMap.wf (trust_map m);
  s_some_trust : has_trust m = true -> TrustMap.any (trust_map m) = true;
  s_no_trust : has_trust m = false -> trust_map m = TrustMap.none }.

Lemma pair_grant_entries_ok m : sendable m ->
  is_u32 (Z.of_nat (length (entries m))) /\ Forall (good field 1) (entries m) /\ ascending None (e_key <$> entries m).
Proof.
  intros [[Ht Lt] Hr Hw _ _]. split_and!; [by unfold entries; destruct (has_trust m)| |unfold entries; keys_ascending].
  unfold entries. rewrite !Forall_cons. split_and!; [| |apply Forall_app; split; [apply Forall_opt; intros H|apply List.Forall_nil]].
  - apply good_binary; [done|done|rewrite Lt; unfold limits.token_bytes; lia|]. intros [x [g1 g2]] r r' E. unfold field. switch.
    rewrite E. cbn [rbind]. by rewrite Lt.
  - apply good_number; [done|by apply u8_u64|]. intros [x [g1 g2]] r r' E. unfold field. switch. rewrite E. cbn [rbind]. by rewrite u8_id.
  - apply (trust_good field 1 (fun s => trust_map s.1)); [unfold kMaxDepth; lia|done|]. intros [x [g1 g2]] r r' E.
    unfold field. switch. cbn [fst] in E. by rewrite E, H.
Qed.

#[global, program] Instance message : WireMessage t := {|
  encode := encodePairGrant; decode := decodePairGrant; Codec.sendable := sendable; wire m := map_bytes (entries m) |}.
Next Obligation.
  intros m out Hs Hfit. destruct (pair_grant_entries_ok m Hs) as (Hn & Hg & Ha). rewrite <- (encode_entries field (entries m) Hn Hg Ha (m, (true, true))) by done.
  unfold encodePairGrant, entries. apply (f_equal encoded). rewrite run_map, !run_entry, run_opt_app, TrustMap.encodeTrustMap_run.
  pose proof (s_some_trust m Hs) as Hany. destruct (has_trust m); [by rewrite Hany|done].
Qed.
Next Obligation.
  intros m Hs. destruct (pair_grant_entries_ok m Hs) as (Hn & Hg & Ha). destruct Hs as [_ _ Hw _ Hno]. unfold decodePairGrant.
  destruct (decode_entries field (entries m) Hn Hg Ha (none, (false, false))) as [r ->]. cbn [rbind]. unfold entries.
  rewrite !effects_cons, effects_opt.
  - rewrite effects_nil. cbn -[effects]. rewrite TrustMap.trust_map_effects_entries by done. by destruct m.
  - intros H. cbn [e_eff]. rewrite H, (Hno H). done.
Qed.
End PairGrant.

(** ** What a hub signature covers *)

Lemma land_u8 v : Z.land v 0xFF = u8 v.
Proof. change 0xFF with (Z.ones 8). rewrite Z.land_ones by lia. done. Qed.

(** A loop that stores one byte per index stores the block. *)
Lemma store_loop base (f : nat -> Z) n k out : (base + k + n <= length out)%nat ->
  foldl (fun out i => write_at (base + i) [f i] out) out (seq k n) = write_at (base + k) (f <$> seq k n) out.
Proof.
  revert k out. induction n as [|n IH]; intros k out Hl; [cbn [seq foldl fmap list_fmap]; by rewrite write_at_nil|]. cbn [seq foldl fmap list_fmap].
  rewrite IH.
  - replace (base + S k)%nat with (base + k + length [f k])%nat by (cbn; lia). rewrite write_at_app; [done|].
    rewrite length_fmap, length_seq. cbn. lia.
  - unfold write_at. rewrite !length_app, length_take, length_drop. cbn. lia.
Qed.

Lemma hubSigMaterial_bytes nonce sid bid : length nonce = kTrustClientNonceBytes ->
  hubSigMaterial nonce sid bid = nonce ++ le32 sid ++ le32 bid.
Proof.
  intros Hl. unfold hubSigMaterial, putLE32. rewrite (store_loop 0 (fun i => byte_at i nonce)) by (vm_compute; lia).
  assert ((fun i => byte_at i nonce) <$> seq 0 kTrustClientNonceBytes = nonce) as ->.
  { do 8 (destruct nonce as [|? nonce]; [done|]). by destruct nonce. }
  assert (forall v, (fun i => Z.land (Z.shiftr v (8 * Z.of_nat i)) 0xFF) <$> seq 0 4 = le32 v) as Hle.
  { intros v. cbn [seq fmap list_fmap]. by rewrite !land_u8, Z.shiftr_0_r. }
  rewrite !(store_loop _ (fun i => Z.land (Z.shiftr _ (8 * Z.of_nat i)) 0xFF)), !Hle.
  - do 8 (destruct nonce as [|? nonce]; [done|]). by destruct nonce.
  - do 8 (destruct nonce as [|? nonce]; [done|]). destruct nonce; [cbn; lia|done].
  - do 8 (destruct nonce as [|? nonce]; [done|]). destruct nonce; [cbn; lia|done].
Qed.

(** Signed material binds the client's nonce, the session and the boot: two
    handshakes that differ in any of them sign different bytes. *)
Lemma hub_sig_binds n1 s1 b1 n2 s2 b2 :
  length n1 = kTrustClientNonceBytes -> length n2 = kTrustClientNonceBytes -> is_u32 s1 -> is_u32 s2 -> is_u32 b1 -> is_u32 b2 ->
  hubSigMaterial n1 s1 b1 = hubSigMaterial n2 s2 b2 -> n1 = n2 /\ s1 = s2 /\ b1 = b2.
Proof.
  intros Hn1 Hn2 Hs1 Hs2 Hb1 Hb2. rewrite !hubSigMaterial_bytes by done. intros E.
  apply app_inj_1 in E as [-> E]; [|by rewrite Hn1]. apply app_inj_1 in E as [E1 E2]; [|done].
  assert (forall u v, is_u32 u -> is_u32 v -> le32 u = le32 v -> u = v) as Hinj.
  { intros u v Hu Hv Huv. pose proof (getU32_le32 u []) as Eu. pose proof (getU32_le32 v []) as Ev. rewrite Huv, Ev, !u32_id in Eu; done. }
  split_and!; auto.
Qed.
