(* ===== verification/Handshake.v ===== *)
(** * Handshake: HELLO, WELCOME and the renegotiation messages

    wire/messages: hello.hpp, subscribe.hpp, publish.hpp, welcome.hpp and
    grant.hpp. The entry shapes that several messages share (wishes, grants) are
    modules of their own; a count with its fixed array is the list of the
    counted entries; a [float] is its bit pattern. *)

From S2P Require Import Prelude Registry ByteIO Cbor Messages Codec Trust.
Local Open Scope Z_scope.

#[local] Hint Resolve u8_u64 u16_u64 u32_u64 : words.

(** A branch of a decoder's [switch] whose reader returned a value. *)
Ltac branch fld :=
  let E := fresh "E" in intros x r r' E; unfold fld; switch; rewrite E; cbn [rbind].
Ltac branch_got fld :=
  let E := fresh "E" in intros [x g] r r' E; cbn [fst] in E; unfold fld; switch; rewrite E; cbn [rbind].

(** ** Wishes *)

Module SubscriptionWish.
Record t := mk { channel_id : Z; rate_hz : Z; priority : Z }.

Definition none : t := mk 0 0 0.

Definition write (s : t) (w : CborWriter) : CborWriter :=
  let w := mapHeader 3 w in
  let w := f32Val (rate_hz s) (key CborKey.rate_hz w) in
  let w := uintVal (priority s) (key CborKey.priority w) in
  uintVal (channel_id s) (key CborKey.channel_id w).

Definition field (k : Z) (wish : t) (r : CborReader) : Result (t * CborReader) DecodeError :=
  if k =? CborKey.channel_id then let? (v, r) := readUint r in Ok (wish{{channel_id := u16 v}}, r)
  else if k =? CborKey.rate_hz then let? (v, r) := readF32 r in Ok (wish{{rate_hz := v}}, r)
  else if k =? CborKey.priority then let? (v, r) := readUint r in Ok (wish{{priority := u8 v}}, r)
  else ignoreField wish r.

Definition item (r : CborReader) : Result (t * CborReader) DecodeError := decodeMap field none r.

Definition entries (s : t) : list (Entry t) :=
  [mkEntry CborKey.rate_hz [OpF32 (rate_hz s)] (fun x => x{{rate_hz := rate_hz s}});
   mkEntry CborKey.priority [OpUint (priority s)] (fun x => x{{priority := priority s}});
   mkEntry CborKey.channel_id [OpUint (channel_id s)] (fun x => x{{channel_id := channel_id s}})].

Definition ops (s : t) : list op := map_ops (entries s).

Definition wf (s : t) : Prop := is_u16 (channel_id s) /\ is_u32 (rate_hz s) /\ is_u8 (priority s).

Lemma subscription_wish_item_ok s : wf s -> item_good item ops id 2 s.
Proof.
  intros (Hc & Hr & Hp). apply (item_of_entries field none entries); [unfold kMaxDepth; lia|done| |done|by destruct s].
  unfold entries. rewrite !Forall_cons. split_and!; [| | |apply List.Forall_nil].
  - apply good_float; [done|done|]. by branch field.
  - apply good_number; [done|auto with words|]. branch field. by rewrite u8_id.
  - apply good_number; [done|auto with words|]. branch field. by rewrite u16_id.
Qed.

Lemma subscription_wish_write_run s w : write s w = run (ops s) w.
Proof. unfold ops. rewrite run_map. cbv delta [write entries]; cbv beta. let_step. run_steps. done. Qed.
End SubscriptionWish.

Module PublishWish.
Record t := mk {
  channel_id : Z; rate_hz : Z; has_burst : bool; burst : Z; has_curve_family : bool; curve_family : Z }.

Definition none : t := mk 0 0 false 0 false 0.

Definition write (p : t) (w : CborWriter) : CborWriter :=
  let w := mapHeader (2 + b2z (has_burst p) + b2z (has_curve_family p)) w in
  let w := f32Val (rate_hz p) (key CborKey.rate_hz w) in
  let w := uintVal (channel_id p) (key CborKey.channel_id w) in
  let w := if has_burst p then f32Val (burst p) (key CborKey.burst w) else w in
  if has_curve_family p then uintVal (curve_family p) (key CborKey.curve_family w) else w.

Definition field (k : Z) (wish : t) (r : CborReader) : Result (t * CborReader) DecodeError :=
  if k =? CborKey.channel_id then let? (v, r) := readUint r in Ok (wish{{channel_id := u16 v}}, r)
  else if k =? CborKey.rate_hz then let? (v, r) := readF32 r in Ok (wish{{rate_hz := v}}, r)
  else if k =? CborKey.burst then let? (v, r) := readF32 r in Ok (wish{{burst := v; has_burst := true}}, r)
  else if k =? CborKey.curve_family then
    let? (v, r) := readUint r in
    if 0xFF <? v then Err Malformed else Ok (wish{{curve_family := u8 v; has_curve_family := true}}, r)
  else ignoreField wish r.

Definition item (r : CborReader) : Result (t * CborReader) DecodeError := decodeMap field none r.

Definition entries (p : t) : list (Entry t) :=
  mkEntry CborKey.rate_hz [OpF32 (rate_hz p)] (fun x => x{{rate_hz := rate_hz p}})
  :: mkEntry CborKey.channel_id [OpUint (channel_id p)] (fun x => x{{channel_id := channel_id p}})
  :: opt (has_burst p) (mkEntry CborKey.burst [OpF32 (burst p)] (fun x => x{{burst := burst p; has_burst := has_burst p}}))
  ++ opt (has_curve_family p) (mkEntry CborKey.curve_family [OpUint (curve_family p)]
       (fun x => x{{curve_family := curve_family p; has_curve_family := has_curve_family p}}))
  ++ [].

Definition ops (p : t) : list op := map_ops (entries p).

Record wf (p : t) : Prop := {
  wf_channel : is_u16 (channel_id p); wf_rate : is_u32 (rate_hz p); wf_burst : is_u32 (burst p); wf_family : is_u8 (curve_family p);
  no_burst : has_burst p = false -> burst p = 0; no_family : has_curve_family p = false -> curve_family p = 0 }.

Lemma publish_wish_entries_count p : Z.of_nat (length (entries p)) = 2 + b2z (has_burst p) + b2z (has_curve_family p).
Proof. unfold entries. rewrite !count_cons, !count_opt. cbn [length Z.of_nat]. ring. Qed.

Lemma publish_wish_item_ok p : wf p -> item_good item ops id 2 p.
Proof.
  intros [Hc Hr Hb Hf Nb Nf]. apply (item_of_entries field none entries); [unfold kMaxDepth; lia| | |unfold entries; keys_ascending|].
  - rewrite publish_wish_entries_count. unfold is_u32. pose proof (b2z_range (has_burst p)). pose proof (b2z_range (has_curve_family p)). lia.
  - unfold entries. rewrite !Forall_cons, !Forall_app. split_and!; try apply List.Forall_nil; try (apply Forall_opt; intros H).
    + apply good_float; [done|done|]. by branch field.
    + apply good_number; [done|auto with words|]. branch field. by rewrite u16_id.
    + apply good_float; [done|done|]. branch field. by rewrite H.
    + apply good_number; [done|auto with words|]. branch field.
      destruct (Z.ltb_spec 0xFF (curve_family p)); [unfold is_u8 in Hf; lia|]. by rewrite u8_id, H.
  - unfold entries. rewrite !effects_cons, !effects_opt; [by destruct p| |]; intros H; cbn [e_eff]; rewrite H, ?Nb, ?Nf by done; done.
Qed.

Lemma publish_wish_write_run p w : write p w = run (ops p) w.
Proof. unfold ops. rewrite run_map, publish_wish_entries_count. cbv delta [write entries]; cbv beta. let_step. run_steps. done. Qed.
End PublishWish.

(** ** Grants *)

Module Grant.
Record t := mk { channel_id : Z; granted_rate_hz : Z; priority : Z }.

Definition none : t := mk 0 0 0.

Definition write (g : t) (w : CborWriter) : CborWriter :=
  let w := mapHeader 3 w in
  let w := uintVal (priority g) (key CborKey.priority w) in
  let w := f32Val (granted_rate_hz g) (key CborKey.granted_rate_hz w) in
  uintVal (channel_id g) (key CborKey.channel_id w).

Definition field (k : Z) (g : t) (r : CborReader) : Result (t * CborReader) DecodeError :=
  if k =? CborKey.channel_id then let? (v, r) := readUint r in Ok (g{{channel_id := u16 v}}, r)
  else if k =? CborKey.granted_rate_hz then let? (v, r) := readF32 r in Ok (g{{granted_rate_hz := v}}, r)
  else if k =? CborKey.priority then let? (v, r) := readUint r in Ok (g{{priority := u8 v}}, r)
  else ignoreField g r.

Definition item (r : CborReader) : Result (t * CborReader) DecodeError := decodeMap field none r.

Definition entries (g : t) : list (Entry t) :=
  [mkEntry CborKey.priority [OpUint (priority g)] (fun x => x{{priority := priority g}});
   mkEntry CborKey.granted_rate_hz [OpF32 (granted_rate_hz g)] (fun x => x{{granted_rate_hz := granted_rate_hz g}});
   mkEntry CborKey.channel_id [OpUint (channel_id g)] (fun x => x{{channel_id := channel_id g}})].

Definition ops (g : t) : list op := map_ops (entries g).

Definition wf (g : t) : Prop := is_u16 (channel_id g) /\ is_u32 (granted_rate_hz g) /\ is_u8 (priority g).

Lemma grant_item_ok g : wf g -> item_good item ops id 2 g.
Proof.
  intros (Hc & Hr & Hp). apply (item_of_entries field none entries); [unfold kMaxDepth; lia|done| |done|by destruct g].
  unfold entries. rewrite !Forall_cons. split_and!; [| | |apply List.Forall_nil].
  - apply good_number; [done|auto with words|]. branch field. by rewrite u8_id.
  - apply good_float; [done|done|]. by branch field.
  - apply good_number; [done|auto with words|]. branch field. by rewrite u16_id.
Qed.

Lemma grant_write_run g w : write g w = run (ops g) w.
Proof. unfold ops. rewrite run_map. cbv delta [write entries]; cbv beta. let_step. run_steps. done. Qed.
End Grant.

Module GrantedPublish.
Record t := mk {
  channel_id : Z; granted_rate_hz : Z; has_burst : bool; burst : Z; has_curve_family : bool; curve_family : Z;
  has_requested_curve_family : bool; requested_curve_family : Z }.

Definition none : t := mk 0 0 false 0 false 0 false 0.

Definition write (p : t) (w : CborWriter) : CborWriter :=
  let w := mapHeader (2 + b2z (has_burst p) + b2z (has_curve_family p) + b2z (has_requested_curve_family p)) w in
  let w := f32Val (granted_rate_hz p) (key CborKey.granted_rate_hz w) in
  let w := uintVal (channel_id p) (key CborKey.channel_id w) in
  let w := if has_burst p then f32Val (burst p) (key CborKey.burst w) else w in
  let w := if has_curve_family p then uintVal (curve_family p) (key CborKey.curve_family w) else w in
  if has_requested_curve_family p then uintVal (requested_curve_family p) (key CborKey.requested_curve_family w) else w.

Definition field (k : Z) (gp : t) (r : CborReader) : Result (t * CborReader) DecodeError :=
  if k =? CborKey.granted_rate_hz then let? (v, r) := readF32 r in Ok (gp{{granted_rate_hz := v}}, r)
  else if k =? CborKey.channel_id then let? (v, r) := readUint r in Ok (gp{{channel_id := u16 v}}, r)
  else if k =? CborKey.burst then let? (v, r) := readF32 r in Ok (gp{{burst := v; has_burst := true}}, r)
  else if k =? CborKey.curve_family then
    let? (v, r) := readUint r in
    if 0xFF <? v then Err Malformed else Ok (gp{{curve_family := u8 v; has_curve_family := true}}, r)
  else if k =? CborKey.requested_curve_family then
    let? (v, r) := readUint r in
    if 0xFF <? v then Err Malformed else Ok (gp{{requested_curve_family := u8 v; has_requested_curve_family := true}}, r)
  else ignoreField gp r.

Definition item (r : CborReader) : Result (t * CborReader) DecodeError := decodeMap field none r.

Definition entries (p : t) : list (Entry t) :=
  mkEntry CborKey.granted_rate_hz [OpF32 (granted_rate_hz p)] (fun x => x{{granted_rate_hz := granted_rate_hz p}})
  :: mkEntry CborKey.channel_id [OpUint (channel_id p)] (fun x => x{{channel_id := channel_id p}})
  :: opt (has_burst p) (mkEntry CborKey.burst [OpF32 (burst p)] (fun x => x{{burst := burst p; has_burst := has_burst p}}))
  ++ opt (has_curve_family p) (mkEntry CborKey.curve_family [OpUint (curve_family p)]
       (fun x => x{{curve_family := curve_family p; has_curve_family := has_curve_family p}}))
  ++ opt (has_requested_curve_family p) (mkEntry CborKey.requested_curve_family [OpUint (requested_curve_family p)]
       (fun x => x{{requested_curve_family := requested_curve_family p; has_requested_curve_family := has_requested_curve_family p}}))
  ++ [].

Definition ops (p : t) : list op := map_ops (entries p).

Record wf (p : t) : Prop := {
  wf_channel : is_u16 (channel_id p); wf_rate : is_u32 (granted_rate_hz p); wf_burst : is_u32 (burst p);
  wf_family : is_u8 (curve_family p); wf_requested : is_u8 (requested_curve_family p);
  no_burst : has_burst p = false -> burst p = 0; no_family : has_curve_family p = false -> curve_family p = 0;
  no_requested : has_requested_curve_family p = false -> requested_curve_family p = 0 }.

Lemma granted_publish_entries_count p :
  Z.of_nat (length (entries p)) = 2 + b2z (has_burst p) + b2z (has_curve_family p) + b2z (has_requested_curve_family p).
Proof. unfold entries. rewrite !count_cons, !count_opt. cbn [length Z.of_nat]. ring. Qed.

Lemma granted_publish_item_ok p : wf p -> item_good item ops id 2 p.
Proof.
  intros [Hc Hr Hb Hf Hq Nb Nf Nq]. apply (item_of_entries field none entries); [unfold kMaxDepth; lia| | |unfold entries; keys_ascending|].
  - rewrite granted_publish_entries_count. unfold is_u32.
    pose proof (b2z_range (has_burst p)). pose proof (b2z_range (has_curve_family p)). pose proof (b2z_range (has_requested_curve_family p)). lia.
  - unfold entries. rewrite !Forall_cons, !Forall_app. split_and!; try apply List.Forall_nil; try (apply Forall_opt; intros H).
    + apply good_float; [done|done|]. by branch field.
    + apply good_number; [done|auto with words|]. branch field. by rewrite u16_id.
    + apply good_float; [done|done|]. branch field. by rewrite H.
    + apply good_number; [done|auto with words|]. branch field.
      destruct (Z.ltb_spec 0xFF (curve_family p)); [unfold is_u8 in Hf; lia|]. by rewrite u8_id, H.
    + apply good_number; [done|auto with words|]. branch field.
      destruct (Z.ltb_spec 0xFF (requested_curve_family p)); [unfold is_u8 in Hq; lia|]. by rewrite u8_id, H.
  - unfold entries. rewrite !effects_cons, !effects_opt; [by destruct p| | |]; intros H; cbn [e_eff]; rewrite H, ?Nb, ?Nf, ?Nq by done; done.
Qed.

Lemma granted_publish_write_run p w : write p w = run (ops p) w.
Proof. unfold ops. rewrite run_map, granted_publish_entries_count. cbv delta [write entries]; cbv beta. let_step. run_steps. done. Qed.
End GrantedPublish.

(** ** SUBSCRIBE and UNSUBSCRIBE *)

Definition kSubscribeMaxWishes : nat := 16.
Definition kUnsubscribeMaxChannels : nat := 16.

Module Subscribe.
Record t := mk { subscriptions : list SubscriptionWish.t }.

Definition encodeSubscribe (m : t) (out : bytes) : nat * bytes :=
  if (kSubscribeMaxWishes <? length (subscriptions m))%nat then (0%nat, out)
  else
    let w := mapHeader 1 (cborWriter out) in
    encoded (writeArray SubscriptionWish.write (subscriptions m) (key CborKey.subscriptions w)).

Definition field (k : Z) (s : t * bool) (r : CborReader) : Result (t * bool * CborReader) DecodeError :=
  if k =? CborKey.subscriptions then
    let? (ws, r) := decodeArray kSubscribeMaxWishes SubscriptionWish.item r in Ok ((mk ws, true), r)
  else ignoreField s r.

Definition decodeSubscribe (s : bytes) : Result t DecodeError :=
  let? (m, gotSubscriptions, _) := decodeMap field (mk [], false) (cborReader s) in
  if negb gotSubscriptions then Err Malformed else Ok m.

Definition entries (m : t) : list (Entry (t * bool)) :=
  [mkEntry CborKey.subscriptions (array_ops SubscriptionWish.ops (subscriptions m)) (fun s => (mk (subscriptions m), true))].

Definition sendable (m : t) : Prop :=
  (length (subscriptions m) <= kSubscribeMaxWishes)%nat /\ Forall SubscriptionWish.wf (subscriptions m).

Lemma subscribe_entries_ok m : sendable m -> Forall (good field 1) (entries m).
Proof.
  intros [Hl Hw]. constructor; [|apply List.Forall_nil].
  apply (good_array SubscriptionWish.item SubscriptionWish.ops id) with (cap := kSubscribeMaxWishes); try done; [unfold kMaxDepth; lia| |].
  - eapply Forall_impl; [exact Hw|]. apply SubscriptionWish.subscription_wish_item_ok.
  - branch field. by rewrite list_fmap_id.
Qed.

#[global, program] Instance message : WireMessage t := {|
  encode := encodeSubscribe; decode := decodeSubscribe; Codec.sendable := sendable; wire m := map_bytes (entries m) |}.
Next Obligation.
  intros m out Hs Hfit. rewrite <- (encode_entries field (entries m) ltac:(done) (subscribe_entries_ok m Hs) ltac:(done) (m, true)) by done.
  destruct Hs as [Hl _]. unfold encodeSubscribe. destruct (Nat.ltb_spec kSubscribeMaxWishes (length (subscriptions m))); [lia|].
  apply (f_equal encoded). rewrite run_map, (writeArray_run SubscriptionWish.ops) by apply SubscriptionWish.subscription_wish_write_run. unfold entries.
  by rewrite run_entry.
Qed.
Next Obligation.
  intros m Hs. unfold decodeSubscribe.
  destruct (decode_entries field (entries m) ltac:(done) (subscribe_entries_ok m Hs) ltac:(done) (mk [], false)) as [r ->]. by destruct m.
Qed.
End Subscribe.

Module Unsubscribe.
Record t := mk { channel_ids : list Z }.

Definition encodeUnsubscribe (m : t) (out : bytes) : nat * bytes :=
  if (kUnsubscribeMaxChannels <? length (channel_ids m))%nat then (0%nat, out)
  else
    let w := mapHeader 1 (cborWriter out) in
    encoded (writeArray uintVal (channel_ids m) (key CborKey.subscriptions w)).

Definition item (r : CborReader) : Result (Z * CborReader) DecodeError :=
  let? (v, r) := readUint r in Ok (u16 v, r).

Definition field (k : Z) (s : t * bool) (r : CborReader) : Result (t * bool * CborReader) DecodeError :=
  if k =? CborKey.subscriptions then
    let? (cs, r) := decodeArray kUnsubscribeMaxChannels item r in Ok ((mk cs, true), r)
  else ignoreField s r.

Definition decodeUnsubscribe (s : bytes) : Result t DecodeError :=
  let? (m, gotChannels, _) := decodeMap field (mk [], false) (cborReader s) in
  if negb gotChannels then Err Malformed else Ok m.

Definition ops (c : Z) : list op := [OpUint c].

Definition entries (m : t) : list (Entry (t * bool)) :=
  [mkEntry CborKey.subscriptions (array_ops ops (channel_ids m)) (fun s => (mk (channel_ids m), true))].

Definition sendable (m : t) : Prop :=
  (length (channel_ids m) <= kUnsubscribeMaxChannels)%nat /\ Forall is_u16 (channel_ids m).

Lemma unsubscribe_item_ok c : is_u16 c -> item_good item ops id 2 c.
Proof.
  intros Hc. destruct (item_uint 2 c (u16_u64 c Hc)) as [Hr Hw Hcl Hb]. split; try done.
  intros r rest Hbr Hs Ha. unfold item. rewrite (Hr r rest Hbr Hs Ha). cbn [rbind]. by rewrite u16_id.
Qed.

Lemma unsubscribe_entries_ok m : sendable m -> Forall (good field 1) (entries m).
Proof.
  intros [Hl Hw]. constructor; [|apply List.Forall_nil].
  apply (good_array item ops id) with (cap := kUnsubscribeMaxChannels); try done; [unfold kMaxDepth; lia| |].
  - eapply Forall_impl; [exact Hw|]. apply unsubscribe_item_ok.
  - branch field. by rewrite list_fmap_id.
Qed.

#[global, program] Instance message : WireMessage t := {|
  encode := encodeUnsubscribe; decode := decodeUnsubscribe; Codec.sendable := sendable; wire m := map_bytes (entries m) |}.
Next Obligation.
  intros m out Hs Hfit. rewrite <- (encode_entries field (entries m) ltac:(done) (unsubscribe_entries_ok m Hs) ltac:(done) (m, true)) by done.
  destruct Hs as [Hl _]. unfold encodeUnsubscribe. destruct (Nat.ltb_spec kUnsubscribeMaxChannels (length (channel_ids m))); [lia|].
  apply (f_equal encoded). rewrite run_map, (writeArray_run ops) by done. unfold entries. by rewrite run_entry.
Qed.
Next Obligation.
  intros m Hs. unfold decodeUnsubscribe.
  destruct (decode_entries field (entries m) ltac:(done) (unsubscribe_entries_ok m Hs) ltac:(done) (mk [], false)) as [r ->]. by destruct m.
Qed.
End Unsubscribe.

(** ** PUBLISH *)

Definition kHelloMaxSubscriptionWishes : nat := 16.
Definition kHelloMaxPublishWishes : nat := 8.
Definition kHelloMaxClientKindBytes : nat := 16.
Definition kHelloMaxClientNameBytes : nat := 32.
Definition kPublishMaxWishes : nat := kHelloMaxPublishWishes.

Module Publish.
Record t := mk { publishes : list PublishWish.t }.

Definition encodePublish (m : t) (out : bytes) : nat * bytes :=
  if (kPublishMaxWishes <? length (publishes m))%nat then (0%nat, out)
  else
    let w := mapHeader 1 (cborWriter out) in
    encoded (writeArray PublishWish.write (publishes m) (key CborKey.publishes w)).

Definition field (k : Z) (s : t * bool) (r : CborReader) : Result (t * bool * CborReader) DecodeError :=
  if k =? CborKey.publishes then
    let? (ws, r) := decodeArray kPublishMaxWishes PublishWish.item r in Ok ((mk ws, true), r)
  else ignoreField s r.

Definition decodePublish (s : bytes) : Result t DecodeError :=
  let? (m, gotPublishes, _) := decodeMap field (mk [], false) (cborReader s) in
  if negb gotPublishes then Err Malformed else Ok m.

Definition entries (m : t) : list (Entry (t * bool)) :=
  [mkEntry CborKey.publishes (array_ops PublishWish.ops (publishes m)) (fun s => (mk (publishes m), true))].

Definition sendable (m : t) : Prop :=
  (length (publishes m) <= kPublishMaxWishes)%nat /\ Forall PublishWish.wf (publishes m).

Lemma publish_entries_ok m : sendable m -> Forall (good field 1) (entries m).
Proof.
  intros [Hl Hw]. constructor; [|apply List.Forall_nil].
  apply (good_array PublishWish.item PublishWish.ops id) with (cap := kPublishMaxWishes); try done; [unfold kMaxDepth; lia| |].
  - eapply Forall_impl; [exact Hw|]. apply PublishWish.publish_wish_item_ok.
  - branch field. by rewrite list_fmap_id.
Qed.

#[global, program] Instance message : WireMessage t := {|
  encode := encodePublish; decode := decodePublish; Codec.sendable := sendable; wire m := map_bytes (entries m) |}.
Next Obligation.
  intros m out Hs Hfit. rewrite <- (encode_entries field (entries m) ltac:(done) (publish_entries_ok m Hs) ltac:(done) (m, true)) by done.
  destruct Hs as [Hl _]. unfold encodePublish. destruct (Nat.ltb_spec kPublishMaxWishes (length (publishes m))); [lia|].
  apply (f_equal encoded). rewrite run_map, (writeArray_run PublishWish.ops) by apply PublishWish.publish_wish_write_run. unfold entries.
  by rewrite run_entry.
Qed.
Next Obligation.
  intros m Hs. unfold decodePublish.
  destruct (decode_entries field (entries m) ltac:(done) (publish_entries_ok m Hs) ltac:(done) (mk [], false)) as [r ->]. by destruct m.
Qed.
End Publish.

(** ** HELLO *)

Module Hello.
Record t := mk {
  proto_ver : Z; client_kind : bytes; client_name : bytes; instance_id : bytes;
  has_token : bool; token : bytes; has_catalog_etag : bool; catalog_etag : bytes;
  subscriptions : list SubscriptionWish.t; publishes : list PublishWish.t;
  has_trust : bool; trust_map : TrustMap.t; deadman_wish_ms : Z }.

Definition none : t :=
  mk kProtocolVersion [] [] (replicate limits.instance_id_bytes 0) false (replicate limits.token_bytes 0)
    false (replicate limits.etag_bytes 0) [] [] false TrustMap.none 0.

(** [hasTrust]: an empty trust map is not sent. *)
Definition hasTrust (m : t) : bool := has_trust m && TrustMap.any (trust_map m).

Definition some {A} (xs : list A) : bool := (0 <? length xs)%nat.

Definition write (m : t) (w : CborWriter) : CborWriter :=
  let nKeys := 4 + b2z (has_token m) + b2z (has_catalog_etag m) + b2z (some (subscriptions m)) + b2z (some (publishes m))
               + b2z (hasTrust m) + b2z (0 <? deadman_wish_ms m) in
  let w := mapHeader nKeys w in
  let w := uintVal (proto_ver m) (key CborKey.proto_ver w) in
  let w := tstrVal (client_kind m) (key CborKey.client_kind w) in
  let w := tstrVal (client_name m) (key CborKey.client_name w) in
  let w := bstrVal (instance_id m) (key CborKey.instance_id w) in
  let w := if has_token m then bstrVal (token m) (key CborKey.token w) else w in
  let w := if has_catalog_etag m then bstrVal (catalog_etag m) (key CborKey.catalog_etag w) else w in
  let w := if some (subscriptions m) then writeArray SubscriptionWish.write (subscriptions m) (key CborKey.subscriptions w) else w in
  let w := if some (publishes m) then writeArray PublishWish.write (publishes m) (key CborKey.publishes w) else w in
  let w := if hasTrust m then TrustMap.encodeTrustMap (trust_map m) w else w in
  if 0 <? deadman_wish_ms m then uintVal (deadman_wish_ms m) (key CborKey.deadman_wish_ms w) else w.

Definition encodeHello (m : t) (out : bytes) : nat * bytes :=
  if (kHelloMaxClientKindBytes <? length (client_kind m))%nat then (0%nat, out)
  else if (kHelloMaxClientNameBytes <? length (client_name m))%nat then (0%nat, out)
  else if (kHelloMaxSubscriptionWishes <? length (subscriptions m))%nat then (0%nat, out)
  else if (kHelloMaxPublishWishes <? length (publishes m))%nat then (0%nat, out)
  else encoded (write m (cborWriter out)).

(** [gotProtoVer], [gotKind], [gotName], [gotInstance]. *)
Record Got := mkGot { gotProtoVer : bool; gotKind : bool; gotName : bool; gotInstance : bool }.

Definition field (k : Z) (s : t * Got) (r : CborReader) : Result (t * Got * CborReader) DecodeError :=
  let '(m, g) := s in
  if k =? CborKey.proto_ver then
    let? (v, r) := readUint r in
    if 0xFF <? v then Err Malformed else Ok ((m{{proto_ver := u8 v}}, g{{gotProtoVer := true}}), r)
  else if k =? CborKey.client_kind then
    let? (v, r) := readTstr r in
    if (kHelloMaxClientKindBytes <? length v)%nat then Err CapacityExceeded
    else Ok ((m{{client_kind := v}}, g{{gotKind := true}}), r)
  else if k =? CborKey.client_name then
    let? (v, r) := readTstr r in
    if (kHelloMaxClientNameBytes <? length v)%nat then Err CapacityExceeded
    else Ok ((m{{client_name := v}}, g{{gotName := true}}), r)
  else if k =? CborKey.instance_id then
    let? (v, r) := readBstr r in
    if negb (length v =? limits.instance_id_bytes)%nat then Err Malformed
    else Ok ((m{{instance_id := v}}, g{{gotInstance := true}}), r)
  else if k =? CborKey.token then
    let? (v, r) := readBstr r in
    if negb (length v =? limits.token_bytes)%nat then Err Malformed
    else Ok ((m{{token := v; has_token := true}}, g), r)
  else if k =? CborKey.catalog_etag then
    let? (v, r) := readBstr r in
    if negb (length v =? limits.etag_bytes)%nat then Err Malformed
    else Ok ((m{{catalog_etag := v; has_catalog_etag := true}}, g), r)
  else if k =? CborKey.subscriptions then
    let? (ws, r) := decodeArray kHelloMaxSubscriptionWishes SubscriptionWish.item r in Ok ((m{{subscriptions := ws}}, g), r)
  else if k =? CborKey.publishes then
    let? (ws, r) := decodeArray kHelloMaxPublishWishes PublishWish.item r in Ok ((m{{publishes := ws}}, g), r)
  else if k =? CborKey.trust then
    let? (tm, r) := TrustMap.decodeTrustMap (trust_map m) r in Ok ((m{{trust_map := tm; has_trust := true}}, g), r)
  else if k =? CborKey.deadman_wish_ms then
    let? (v, r) := readUint r in
    if 0xFFFFFFFF <? v then Err Malformed else Ok ((m{{deadman_wish_ms := u32 v}}, g), r)
  else ignoreField s r.

Definition gotAll (g : Got) : bool := gotProtoVer g && gotKind g && gotName g && gotInstance g.
Definition gotNone : Got := mkGot false false false false.

Definition decodeHello (s : bytes) : Result t DecodeError :=
  let? (m, g, _) := decodeMap field (none, gotNone) (cborReader s) in
  if negb (gotAll g) then Err Malformed else Ok m.

Definition entries (m : t) : list (Entry (t * Got)) :=
  mkEntry CborKey.proto_ver [OpUint (proto_ver m)] (fun '(x, g) => (x{{proto_ver := proto_ver m}}, g{{gotProtoVer := true}}))
  :: mkEntry CborKey.client_kind [OpTstr (client_kind m)] (fun '(x, g) => (x{{client_kind := client_kind m}}, g{{gotKind := true}}))
  :: mkEntry CborKey.client_name [OpTstr (client_name m)] (fun '(x, g) => (x{{client_name := client_name m}}, g{{gotName := true}}))
  :: mkEntry CborKey.instance_id [OpBstr (instance_id m)] (fun '(x, g) => (x{{instance_id := instance_id m}}, g{{gotInstance := true}}))
  :: opt (has_token m) (mkEntry CborKey.token [OpBstr (token m)] (fun '(x, g) => (x{{token := token m; has_token := has_token m}}, g)))
  ++ opt (has_catalog_etag m) (mkEntry CborKey.catalog_etag [OpBstr (catalog_etag m)]
       (fun '(x, g) => (x{{catalog_etag := catalog_etag m; has_catalog_etag := has_catalog_etag m}}, g)))
  ++ opt (some (subscriptions m)) (mkEntry CborKey.subscriptions (array_ops SubscriptionWish.ops (subscriptions m))
       (fun '(x, g) => (x{{subscriptions := subscriptions m}}, g)))
  ++ opt (some (publishes m)) (mkEntry CborKey.publishes (array_ops PublishWish.ops (publishes m))
       (fun '(x, g) => (x{{publishes := publishes m}}, g)))
  ++ opt (hasTrust m) (mkEntry CborKey.trust (map_ops (TrustMap.entries (trust_map m)))
       (fun '(x, g) => (x{{trust_map := effects (TrustMap.entries (trust_map m)) (trust_map x); has_trust := has_trust m}}, g)))
  ++ opt (0 <? deadman_wish_ms m) (mkEntry CborKey.deadman_wish_ms [OpUint (deadman_wish_ms m)]
       (fun '(x, g) => (x{{deadman_wish_ms := deadman_wish_ms m}}, g)))
  ++ [].

Record sendable (m : t) : Prop := {
  s_ver : is_u8 (proto_ver m);
  s_kind : is_bytes (client_kind m) /\ (length (client_kind m) <= kHelloMaxClientKindBytes)%nat;
  s_name : is_bytes (client_name m) /\ (length (client_name m) <= kHelloMaxClientNameBytes)%nat;
  s_instance : is_bytes (instance_id m) /\ length (instance_id m) = limits.instance_id_bytes;
  s_token : is_bytes (token m) /\ length (token m) = limits.token_bytes;
  s_etag : is_bytes (catalog_etag m) /\ length (catalog_etag m) = limits.etag_bytes;
  s_subs : Forall SubscriptionWish.wf (subscriptions m) /\ (length (subscriptions m) <= kHelloMaxSubscriptionWishes)%nat;
  s_pubs : Forall PublishWish.wf (publishes m) /\ (length (publishes m) <= kHelloMaxPublishWishes)%nat;
  s_trust : TrustMap.wf (trust_map m);
  s_deadman : is_u32 (deadman_wish_ms m);
  s_no_token : has_token m = false -> token m = replicate limits.token_bytes 0;
  s_no_etag : has_catalog_etag m = false -> catalog_etag m = replicate limits.etag_bytes 0;
  s_some_trust : has_trust m = true -> TrustMap.any (trust_map m) = true;
  s_no_trust : has_trust m = false -> trust_map m = TrustMap.none }.

Lemma hasTrust_eq m : sendable m -> hasTrust m = has_trust m.
Proof. intros Hs. unfold hasTrust. pose proof (s_some_trust m Hs). destruct (has_trust m); [auto|done]. Qed.

Lemma some_false {A} (xs : list A) : some xs = false -> xs = [].
Proof. by destruct xs. Qed.

Lemma hello_entries_good m : sendable m -> Forall (good field 1) (entries m).
Proof.
  intros Hs. pose proof (hasTrust_eq m Hs) as Ht.
  destruct Hs as [Hv [Hk Lk] [Hn Ln] [Hi Li] [Hto Lto] [He Le] [Hsu Lsu] [Hpu Lpu] Htr Hd _ _ _ _].
  unfold entries. rewrite !Forall_cons, !Forall_app. split_and!; try apply List.Forall_nil; try (apply Forall_opt; intros H).
  - apply good_number; [done|auto with words|]. branch_got field. destruct (Z.ltb_spec 0xFF (proto_ver m)); [unfold is_u8 in Hv; lia|].
    by rewrite u8_id.
  - apply good_text; [done|done|unfold kHelloMaxClientKindBytes in Lk; lia|]. branch_got field.
    by destruct (Nat.ltb_spec kHelloMaxClientKindBytes (length (client_kind m))); [lia|].
  - apply good_text; [done|done|unfold kHelloMaxClientNameBytes in Ln; lia|]. branch_got field.
    by destruct (Nat.ltb_spec kHelloMaxClientNameBytes (length (client_name m))); [lia|].
  - apply good_binary; [done|done|rewrite Li; unfold limits.instance_id_bytes; lia|]. branch_got field. by rewrite Li.
  - apply good_binary; [done|done|rewrite Lto; unfold limits.token_bytes; lia|]. branch_got field. by rewrite Lto, H.
  - apply good_binary; [done|done|rewrite Le; unfold limits.etag_bytes; lia|]. branch_got field. by rewrite Le, H.
  - apply (good_array SubscriptionWish.item SubscriptionWish.ops id) with (cap := kHelloMaxSubscriptionWishes); try done; [unfold kMaxDepth; lia| |].
    + eapply Forall_impl; [exact Hsu|]. apply SubscriptionWish.subscription_wish_item_ok.
    + branch_got field. by rewrite list_fmap_id.
  - apply (good_array PublishWish.item PublishWish.ops id) with (cap := kHelloMaxPublishWishes); try done; [unfold kMaxDepth; lia| |].
    + eapply Forall_impl; [exact Hpu|]. apply PublishWish.publish_wish_item_ok.
    + branch_got field. by rewrite list_fmap_id.
  - apply (trust_good field 1 (fun s => trust_map s.1)); [unfold kMaxDepth; lia|done|]. branch_got field. by rewrite <- Ht, H.
  - apply good_number; [done|auto with words|]. branch_got field. destruct (Z.ltb_spec 0xFFFFFFFF (deadman_wish_ms m)); [unfold is_u32 in Hd; lia|].
    by rewrite u32_id.
Qed.

Lemma hello_entries_shape m :
  is_u32 (Z.of_nat (length (entries m))) /\ ascending None (e_key <$> entries m) /\
  Z.of_nat (length (entries m)) = 4 + b2z (has_token m) + b2z (has_catalog_etag m) + b2z (some (subscriptions m)) + b2z (some (publishes m))
               + b2z (hasTrust m) + b2z (0 <? deadman_wish_ms m).
Proof.
  assert (Z.of_nat (length (entries m)) = 4 + b2z (has_token m) + b2z (has_catalog_etag m) + b2z (some (subscriptions m))
    + b2z (some (publishes m)) + b2z (hasTrust m) + b2z (0 <? deadman_wish_ms m)) as E.
  { unfold entries. rewrite !count_cons, !count_opt. cbn [length Z.of_nat]. ring. }
  split_and!; [|unfold entries; keys_ascending|done]. rewrite E. unfold is_u32.
  pose proof (b2z_range (has_token m)). pose proof (b2z_range (has_catalog_etag m)). pose proof (b2z_range (some (subscriptions m))).
  pose proof (b2z_range (some (publishes m))). pose proof (b2z_range (hasTrust m)). pose proof (b2z_range (0 <? deadman_wish_ms m)).
  clear E. lia.
Qed.

(** One call of the encoder: a scalar, an array of wishes or the trust map. *)
Ltac call :=
  first [reflexivity
    | rewrite (writeArray_run SubscriptionWish.ops) by apply SubscriptionWish.subscription_wish_write_run; reflexivity
    | rewrite (writeArray_run PublishWish.ops) by apply PublishWish.publish_wish_write_run; reflexivity
    | rewrite TrustMap.encodeTrustMap_run; reflexivity].

Lemma hello_write_run m w : write m w = run (map_ops (entries m)) w.
Proof.
  rewrite run_map. destruct (hello_entries_shape m) as (_ & _ & ->). cbv delta [write entries]; cbv beta.
  lazymatch goal with |- (let n := ?a in @?B n) = _ => change (B a = run (concat (entry_ops <$> entries m)) (mapHeader a w)) end.
  cbv beta delta [entries]. let_step. run_steps_by call. done.
Qed.

Lemma hello_effects_entries m : sendable m -> effects (entries m) (none, gotNone) = (m, mkGot true true true true).
Proof.
  intros Hs. pose proof (hasTrust_eq m Hs) as Ht. destruct Hs as [_ _ _ _ _ _ _ _ Hw Hd Nto Ne _ Nt].
  unfold entries. rewrite !effects_cons. rewrite Ht.
  rewrite effects_opt by (intros H; cbn [e_eff]; by rewrite H, Nto).
  rewrite effects_opt by (intros H; cbn [e_eff]; by rewrite H, Ne).
  rewrite effects_opt by (intros H; cbn [e_eff]; by rewrite (some_false _ H)).
  rewrite effects_opt by (intros H; cbn [e_eff]; by rewrite (some_false _ H)).
  rewrite effects_opt by (intros H; cbn [e_eff]; by rewrite H, Nt).
  rewrite effects_opt.
  - rewrite effects_nil. cbn -[effects]. rewrite TrustMap.trust_map_effects_entries by done. by destruct m.
  - intros H. cbn [e_eff]. assert (deadman_wish_ms m = 0) as -> by (unfold is_u32 in Hd; lia). done.
Qed.

#[global, program] Instance message : WireMessage t := {|
  encode := encodeHello; decode := decodeHello; Codec.sendable := sendable; wire m := map_bytes (entries m) |}.
Next Obligation.
  intros m out Hs Hfit. destruct (hello_entries_shape m) as (Hn & Ha & _).
  rewrite <- (encode_entries field (entries m) Hn (hello_entries_good m Hs) Ha (m, gotNone)) by done.
  destruct Hs as [_ [_ Lk] [_ Ln] _ _ _ [_ Lsu] [_ Lpu] _ _ _ _ _ _]. unfold encodeHello.
  destruct (Nat.ltb_spec kHelloMaxClientKindBytes (length (client_kind m))); [lia|].
  destruct (Nat.ltb_spec kHelloMaxClientNameBytes (length (client_name m))); [lia|].
  destruct (Nat.ltb_spec kHelloMaxSubscriptionWishes (length (subscriptions m))); [lia|].
  destruct (Nat.ltb_spec kHelloMaxPublishWishes (length (publishes m))); [lia|].
  by rewrite hello_write_run.
Qed.
Next Obligation.
  intros m Hs. destruct (hello_entries_shape m) as (Hn & Ha & _). unfold decodeHello.
  destruct (decode_entries field (entries m) Hn (hello_entries_good m Hs) Ha (none, gotNone)) as [r ->].
  by rewrite hello_effects_entries.
Qed.
End Hello.

(** ** GRANT *)

Definition kWelcomeMaxGrants : nat := 16.
Definition kWelcomeMaxGrantedPublishes : nat := 8.
Definition kGrantMsgMaxGrants : nat := 16.

Ltac call :=
  first [reflexivity
    | rewrite (writeArray_run Grant.ops) by apply Grant.grant_write_run; reflexivity
    | rewrite (writeArray_run GrantedPublish.ops) by apply GrantedPublish.granted_publish_write_run; reflexivity
    | rewrite TrustMap.encodeTrustMap_run; reflexivity].

(** The two grant arrays, in WELCOME and in GRANT. *)
Lemma grants_good {M} (field : Z -> M -> CborReader -> Result (M * CborReader) DecodeError) gs eff cap :
  (cap < 256)%nat -> Forall Grant.wf gs -> (length gs <= cap)%nat ->
  (forall x r r', decodeArray cap Grant.item r = Ok (gs, r') -> field CborKey.grants x r = Ok (eff x, r')) ->
  good field 1 (mkEntry CborKey.grants (array_ops Grant.ops gs) eff).
Proof.
  intros Hc Hw Hl Hf. apply (good_array Grant.item Grant.ops id) with (cap := cap); try done; [unfold kMaxDepth; lia|unfold is_u32; lia| |].
  - eapply Forall_impl; [exact Hw|]. apply Grant.grant_item_ok.
  - intros x r r' E. rewrite list_fmap_id in E. by apply Hf.
Qed.

Lemma granted_publishes_good {M} (field : Z -> M -> CborReader -> Result (M * CborReader) DecodeError) gs eff :
  Forall GrantedPublish.wf gs -> (length gs <= kWelcomeMaxGrantedPublishes)%nat ->
  (forall x r r', decodeArray kWelcomeMaxGrantedPublishes GrantedPublish.item r = Ok (gs, r') ->
     field CborKey.granted_publishes x r = Ok (eff x, r')) ->
  good field 1 (mkEntry CborKey.granted_publishes (array_ops GrantedPublish.ops gs) eff).
Proof.
  intros Hw Hl Hf.
  apply (good_array GrantedPublish.item GrantedPublish.ops id) with (cap := kWelcomeMaxGrantedPublishes); try done; [unfold kMaxDepth; lia| |].
  - eapply Forall_impl; [exact Hw|]. apply GrantedPublish.granted_publish_item_ok.
  - intros x r r' E. rewrite list_fmap_id in E. by apply Hf.
Qed.

Module GrantMsg.
Record t := mk {
  has_roles : bool; roles : Z; grants : list Grant.t; granted_publishes : list GrantedPublish.t }.

Definition none : t := mk false 0 [] [].

Definition write (m : t) (w : CborWriter) : CborWriter :=
  let w := mapHeader (1 + b2z (Hello.some (granted_publishes m)) + b2z (has_roles m)) w in
  let w := if has_roles m then uintVal (roles m) (key CborKey.roles w) else w in
  let w := writeArray Grant.write (grants m) (key CborKey.grants w) in
  if Hello.some (granted_publishes m)
  then writeArray GrantedPublish.write (granted_publishes m) (key CborKey.granted_publishes w) else w.

Definition encodeGrant (m : t) (out : bytes) : nat * bytes :=
  if (kGrantMsgMaxGrants <? length (grants m))%nat then (0%nat, out)
  else if (kWelcomeMaxGrantedPublishes <? length (granted_publishes m))%nat then (0%nat, out)
  else encoded (write m (cborWriter out)).

(** The message with [gotGrants]. *)
Definition field (k : Z) (s : t * bool) (r : CborReader) : Result (t * bool * CborReader) DecodeError :=
  let '(m, g) := s in
  if k =? CborKey.grants then
    let? (gs, r) := decodeArray kGrantMsgMaxGrants Grant.item r in Ok ((m{{grants := gs}}, true), r)
  else if k =? CborKey.roles then
    let? (v, r) := readUint r in
    if access_u8 configure <? v then Err Malformed else Ok ((m{{roles := u8 v; has_roles := true}}, g), r)
  else if k =? CborKey.granted_publishes then
    let? (gs, r) := decodeArray kWelcomeMaxGrantedPublishes GrantedPublish.item r in Ok ((m{{granted_publishes := gs}}, g), r)
  else ignoreField s r.

Definition decodeGrant (s : bytes) : Result t DecodeError :=
  let? (m, gotGrants, _) := decodeMap field (none, false) (cborReader s) in
  if negb gotGrants then Err Malformed else Ok m.

Definition entries (m : t) : list (Entry (t * bool)) :=
  opt (has_roles m) (mkEntry CborKey.roles [OpUint (roles m)] (fun '(x, g) => (x{{roles := roles m; has_roles := has_roles m}}, g)))
  ++ mkEntry CborKey.grants (array_ops Grant.ops (grants m)) (fun '(x, g) => (x{{grants := grants m}}, true))
  :: opt (Hello.some (granted_publishes m)) (mkEntry CborKey.granted_publishes (array_ops GrantedPublish.ops (granted_publishes m))
       (fun '(x, g) => (x{{granted_publishes := granted_publishes m}}, g)))
  ++ [].

Record sendable (m : t) : Prop := {
  s_roles : 0 <= roles m <= access_u8 configure;
  s_grants : Forall Grant.wf (grants m) /\ (length (grants m) <= kGrantMsgMaxGrants)%nat;
  s_pubs : Forall GrantedPublish.wf (granted_publishes m) /\ (length (granted_publishes m) <= kWelcomeMaxGrantedPublishes)%nat;
  s_no_roles : has_roles m = false -> roles m = 0 }.

Lemma grant_msg_entries_good m : sendable m -> Forall (good field 1) (entries m).
Proof.
  intros [Hr [Hg Lg] [Hp Lp] _]. unfold entries. rewrite Forall_app, Forall_cons, Forall_app.
  split_and!; try apply List.Forall_nil; try (apply Forall_opt; intros H).
  - apply good_number; [done|unfold is_u64; cbn in Hr; lia|]. branch_got field.
    destruct (Z.ltb_spec (access_u8 configure) (roles m)); [lia|]. rewrite u8_id by (unfold is_u8; cbn in Hr; lia). by rewrite H.
  - apply (grants_good field) with (cap := kGrantMsgMaxGrants); try done; [unfold kGrantMsgMaxGrants; lia|]. by branch_got field.
  - apply granted_publishes_good; try done. by branch_got field.
Qed.

Lemma grant_msg_entries_shape m :
  is_u32 (Z.of_nat (length (entries m))) /\ ascending None (e_key <$> entries m) /\
  Z.of_nat (length (entries m)) = 1 + b2z (Hello.some (granted_publishes m)) + b2z (has_roles m).
Proof.
  unfold entries. split_and!; [by destruct (has_roles m), (Hello.some (granted_publishes m))|keys_ascending|].
  rewrite count_opt, count_cons, count_opt. cbn [length Z.of_nat]. ring.
Qed.

#[global, program] Instance message : WireMessage t := {|
  encode := encodeGrant; decode := decodeGrant; Codec.sendable := sendable; wire m := map_bytes (entries m) |}.
Next Obligation.
  intros m out Hs Hfit. destruct (grant_msg_entries_shape m) as (Hn & Ha & Hc).
  rewrite <- (encode_entries field (entries m) Hn (grant_msg_entries_good m Hs) Ha (m, true)) by done.
  destruct Hs as [_ [_ Lg] [_ Lp] _]. unfold encodeGrant.
  destruct (Nat.ltb_spec kGrantMsgMaxGrants (length (grants m))); [lia|].
  destruct (Nat.ltb_spec kWelcomeMaxGrantedPublishes (length (granted_publishes m))); [lia|].
  apply (f_equal encoded). rewrite run_map, Hc. cbv delta [write entries]; cbv beta. let_step. run_steps_by call.
  by rewrite (writeArray_run GrantedPublish.ops) by apply GrantedPublish.granted_publish_write_run.
Qed.
Next Obligation.
  intros m Hs. destruct (grant_msg_entries_shape m) as (Hn & Ha & _). unfold decodeGrant.
  destruct (decode_entries field (entries m) Hn (grant_msg_entries_good m Hs) Ha (none, false)) as [r ->]. cbn [rbind]. unfold entries.
  rewrite effects_opt by (intros H; cbn [e_eff]; by rewrite H, (s_no_roles m Hs)).
  rewrite effects_cons, effects_opt by (intros H; cbn [e_eff]; by rewrite (Hello.some_false _ H)). by destruct m.
Qed.
End GrantMsg.

(** ** WELCOME *)

Definition kIdentityProductMaxBytes : nat := 32.
Definition kIdentityFwVersionMaxBytes : nat := 24.
Definition kIdentityHubNameMaxBytes : nat := 32.
Definition kWelcomeNonceBytes : nat := 8.

Module WelcomeLimits.
Record t := mk { max_frame : Z; max_subscriptions : Z; retained_pending : Z; max_subscriptions_per_frame : Z }.

Definition none : t := mk 0 0 0 0.

Definition hasPerFrame (l : t) : bool := 0 <? max_subscriptions_per_frame l.

Definition write (l : t) (w : CborWriter) : CborWriter :=
  let w := mapHeader (3 + b2z (hasPerFrame l)) (key CborKey.limits w) in
  let w := uintVal (max_frame l) (key welcome_limits.max_frame w) in
  let w := uintVal (max_subscriptions l) (key welcome_limits.max_subscriptions w) in
  let w := uintVal (retained_pending l) (key welcome_limits.retained_pending w) in
  if hasPerFrame l then uintVal (max_subscriptions_per_frame l) (key welcome_limits.max_subscriptions_per_frame w) else w.

Definition field (k : Z) (l : t) (r : CborReader) : Result (t * CborReader) DecodeError :=
  if k =? welcome_limits.max_frame then let? (v, r) := readUint r in Ok (l{{max_frame := u32 v}}, r)
  else if k =? welcome_limits.max_subscriptions then let? (v, r) := readUint r in Ok (l{{max_subscriptions := u32 v}}, r)
  else if k =? welcome_limits.retained_pending then let? (v, r) := readUint r in Ok (l{{retained_pending := u32 v}}, r)
  else if k =? welcome_limits.max_subscriptions_per_frame then
    let? (v, r) := readUint r in Ok (l{{max_subscriptions_per_frame := u32 v}}, r)
  else ignoreField l r.

Definition entries (l : t) : list (Entry t) :=
  mkEntry welcome_limits.max_frame [OpUint (max_frame l)] (fun x => x{{max_frame := max_frame l}})
  :: mkEntry welcome_limits.max_subscriptions [OpUint (max_subscriptions l)] (fun x => x{{max_subscriptions := max_subscriptions l}})
  :: mkEntry welcome_limits.retained_pending [OpUint (retained_pending l)] (fun x => x{{retained_pending := retained_pending l}})
  :: opt (hasPerFrame l) (mkEntry welcome_limits.max_subscriptions_per_frame [OpUint (max_subscriptions_per_frame l)]
       (fun x => x{{max_subscriptions_per_frame := max_subscriptions_per_frame l}})) ++ [].

Definition wf (l : t) : Prop :=
  is_u32 (max_frame l) /\ is_u32 (max_subscriptions l) /\ is_u32 (retained_pending l) /\ is_u32 (max_subscriptions_per_frame l).

Lemma welcome_limits_entries_good d l : wf l -> Forall (good field d) (entries l).
Proof.
  intros (H1 & H2 & H3 & H4). unfold entries. rewrite !Forall_cons, Forall_app.
  split_and!; try apply List.Forall_nil; try (apply Forall_opt; intros H); (apply good_number; [done|auto with words|]); branch field; by rewrite u32_id.
Qed.

Lemma welcome_limits_entries_shape l :
  is_u32 (Z.of_nat (length (entries l))) /\ ascending None (e_key <$> entries l) /\ Z.of_nat (length (entries l)) = 3 + b2z (hasPerFrame l).
Proof.
  unfold entries. split_and!; [by destruct (hasPerFrame l)|keys_ascending|]. rewrite !count_cons, count_opt. cbn [length Z.of_nat]. ring.
Qed.

Lemma welcome_limits_write_run l w : write l w = run (map_ops (entries l)) (key CborKey.limits w).
Proof.
  rewrite run_map. destruct (welcome_limits_entries_shape l) as (_ & _ & ->). cbv delta [write entries]; cbv beta. let_step. run_steps. done.
Qed.

Lemma welcome_limits_effects_entries l : wf l -> effects (entries l) none = l.
Proof.
  intros (_ & _ & _ & H4). unfold entries. rewrite !effects_cons, effects_opt; [by destruct l|]. intros H. cbn [e_eff].
  unfold hasPerFrame in H. assert (max_subscriptions_per_frame l = 0) as -> by (unfold is_u32 in H4; lia). done.
Qed.
End WelcomeLimits.

Module IdentityInfo.
Record t := mk { product : bytes; fw_version : bytes; hub_name : bytes; has_hub_instance_id : bool; hub_instance_id : Z }.

Definition none : t := mk [] [] [] false 0.

Definition any (i : t) : bool :=
  Hello.some (product i) || Hello.some (fw_version i) || Hello.some (hub_name i) || has_hub_instance_id i.

Definition write (i : t) (w : CborWriter) : CborWriter :=
  let w := mapHeader (b2z (Hello.some (product i)) + b2z (Hello.some (fw_version i)) + b2z (Hello.some (hub_name i)) + b2z (has_hub_instance_id i))
             (key CborKey.identity w) in
  let w := if Hello.some (product i) then tstrVal (product i) (key identity_keys.product w) else w in
  let w := if Hello.some (fw_version i) then tstrVal (fw_version i) (key identity_keys.fw_version w) else w in
  let w := if Hello.some (hub_name i) then tstrVal (hub_name i) (key identity_keys.hub_name w) else w in
  if has_hub_instance_id i then uintVal (hub_instance_id i) (key identity_keys.hub_instance_id w) else w.

Definition field (k : Z) (i : t) (r : CborReader) : Result (t * CborReader) DecodeError :=
  if k =? identity_keys.product then
    let? (v, r) := readTstr r in
    if (kIdentityProductMaxBytes <? length v)%nat then Err CapacityExceeded else Ok (i{{product := v}}, r)
  else if k =? identity_keys.fw_version then
    let? (v, r) := readTstr r in
    if (kIdentityFwVersionMaxBytes <? length v)%nat then Err CapacityExceeded else Ok (i{{fw_version := v}}, r)
  else if k =? identity_keys.hub_name then
    let? (v, r) := readTstr r in
    if (kIdentityHubNameMaxBytes <? length v)%nat then Err CapacityExceeded else Ok (i{{hub_name := v}}, r)
  else if k =? identity_keys.hub_instance_id then
    let? (v, r) := readUint r in Ok (i{{hub_instance_id := v; has_hub_instance_id := true}}, r)
  else ignoreField i r.

Definition entries (i : t) : list (Entry t) :=
  opt (Hello.some (product i)) (mkEntry identity_keys.product [OpTstr (product i)] (fun x => x{{product := product i}}))
  ++ opt (Hello.some (fw_version i)) (mkEntry identity_keys.fw_version [OpTstr (fw_version i)] (fun x => x{{fw_version := fw_version i}}))
  ++ opt (Hello.some (hub_name i)) (mkEntry identity_keys.hub_name [OpTstr (hub_name i)] (fun x => x{{hub_name := hub_name i}}))
  ++ opt (has_hub_instance_id i) (mkEntry identity_keys.hub_instance_id [OpUint (hub_instance_id i)]
       (fun x => x{{hub_instance_id := hub_instance_id i; has_hub_instance_id := has_hub_instance_id i}}))
  ++ [].

Record wf (i : t) : Prop := {
  wf_product : is_bytes (product i) /\ (length (product i) <= kIdentityProductMaxBytes)%nat;
  wf_version : is_bytes (fw_version i) /\ (length (fw_version i) <= kIdentityFwVersionMaxBytes)%nat;
  wf_name : is_bytes (hub_name i) /\ (length (hub_name i) <= kIdentityHubNameMaxBytes)%nat;
  wf_id : is_u64 (hub_instance_id i);
  no_id : has_hub_instance_id i = false -> hub_instance_id i = 0 }.

Lemma identity_info_entries_good d i : wf i -> Forall (good field d) (entries i).
Proof.
  intros [[Hp Lp] [Hv Lv] [Hn Ln] Hi _]. unfold entries. rewrite !Forall_app.
  split_and!; try apply List.Forall_nil; try (apply Forall_opt; intros H).
  - apply good_text; [done|done|unfold kIdentityProductMaxBytes in Lp; lia|]. branch field.
    by destruct (Nat.ltb_spec kIdentityProductMaxBytes (length (product i))); [lia|].
  - apply good_text; [done|done|unfold kIdentityFwVersionMaxBytes in Lv; lia|]. branch field.
    by destruct (Nat.ltb_spec kIdentityFwVersionMaxBytes (length (fw_version i))); [lia|].
  - apply good_text; [done|done|unfold kIdentityHubNameMaxBytes in Ln; lia|]. branch field.
    by destruct (Nat.ltb_spec kIdentityHubNameMaxBytes (length (hub_name i))); [lia|].
  - apply good_number; [done|done|]. branch field. by rewrite H.
Qed.

Lemma identity_info_entries_shape i :
  is_u32 (Z.of_nat (length (entries i))) /\ ascending None (e_key <$> entries i) /\
  Z.of_nat (length (entries i)) = b2z (Hello.some (product i)) + b2z (Hello.some (fw_version i)) + b2z (Hello.some (hub_name i)) + b2z (has_hub_instance_id i).
Proof.
  unfold entries. split_and!; [|keys_ascending|].
  - by destruct (Hello.some (product i)), (Hello.some (fw_version i)), (Hello.some (hub_name i)), (has_hub_instance_id i).
  - rewrite !count_opt. cbn [length Z.of_nat]. ring.
Qed.

Lemma identity_info_write_run i w : write i w = run (map_ops (entries i)) (key CborKey.identity w).
Proof.
  rewrite run_map. destruct (identity_info_entries_shape i) as (_ & _ & ->). cbv delta [write entries]; cbv beta. let_step. run_steps. done.
Qed.

Lemma identity_info_effects_entries i : wf i -> effects (entries i) none = i.
Proof.
  intros [_ _ _ _ Hno]. unfold entries. rewrite !effects_opt; [by destruct i| | | |]; intros H; cbn [e_eff];
    try (by rewrite (Hello.some_false _ H)). by rewrite H, Hno.
Qed.
End IdentityInfo.

Module Welcome.
Record t := mk {
  proto_ver : Z; session_id : Z; boot_id : Z; catalog_etag : bytes; cfg_gen : Z; limits_info : WelcomeLimits.t;
  roles : Z; deadman_ms : Z; deadman_policy : Z; nonce : bytes;
  grants : list Grant.t; granted_publishes : list GrantedPublish.t;
  has_identity : bool; identity : IdentityInfo.t; ws_port : Z; ipv4 : Z; has_trust : bool; trust_map : TrustMap.t }.

Definition none : t :=
  mk kProtocolVersion 0 0 (replicate limits.etag_bytes 0) 0 WelcomeLimits.none 0 limits.deadman_default_ms 0
    (replicate kWelcomeNonceBytes 0) [] [] false IdentityInfo.none 0 0 false TrustMap.none.

Definition hasGrantedPublishes (m : t) : bool := Hello.some (granted_publishes m).
Definition hasIdentity (m : t) : bool := has_identity m && IdentityInfo.any (identity m).
Definition hasTrust (m : t) : bool := has_trust m && TrustMap.any (trust_map m).
Definition hasWsPort (m : t) : bool := negb (ws_port m =? 0).
Definition hasIpv4 (m : t) : bool := negb (ipv4 m =? 0).

Definition keyCount (m : t) : Z :=
  11 + b2z (hasGrantedPublishes m) + b2z (hasIdentity m) + b2z (hasTrust m) + b2z (hasWsPort m) + b2z (hasIpv4 m).

Definition write (m : t) (w : CborWriter) : CborWriter :=
  let w := mapHeader (keyCount m) w in
  let w := uintVal (proto_ver m) (key CborKey.proto_ver w) in
  let w := uintVal (session_id m) (key CborKey.session_id w) in
  let w := uintVal (boot_id m) (key CborKey.boot_id w) in
  let w := bstrVal (catalog_etag m) (key CborKey.catalog_etag w) in
  let w := uintVal (cfg_gen m) (key CborKey.cfg_gen w) in
  let w := WelcomeLimits.write (limits_info m) w in
  let w := uintVal (roles m) (key CborKey.roles w) in
  let w := uintVal (deadman_ms m) (key CborKey.deadman_ms w) in
  let w := uintVal (deadman_policy m) (key CborKey.deadman_policy w) in
  let w := bstrVal (nonce m) (key CborKey.nonce w) in
  let w := writeArray Grant.write (grants m) (key CborKey.grants w) in
  let w := if hasGrantedPublishes m
           then writeArray GrantedPublish.write (granted_publishes m) (key CborKey.granted_publishes w) else w in
  let w := if hasIdentity m then IdentityInfo.write (identity m) w else w in
  let w := if hasTrust m then TrustMap.encodeTrustMap (trust_map m) w else w in
  let w := if hasWsPort m then uintVal (ws_port m) (key CborKey.ws_port w) else w in
  if hasIpv4 m then uintVal (ipv4 m) (key CborKey.ipv4 w) else w.

(** An identity string over its cap. *)
Definition identityTooLong (m : t) : bool :=
  hasIdentity m &&
  ((kIdentityProductMaxBytes <? length (IdentityInfo.product (identity m)))%nat ||
   (kIdentityFwVersionMaxBytes <? length (IdentityInfo.fw_version (identity m)))%nat ||
   (kIdentityHubNameMaxBytes <? length (IdentityInfo.hub_name (identity m)))%nat).

Definition encodeWelcome (m : t) (out : bytes) : nat * bytes :=
  if (kWelcomeMaxGrants <? length (grants m))%nat then (0%nat, out)
  else if (kWelcomeMaxGrantedPublishes <? length (granted_publishes m))%nat then (0%nat, out)
  else if identityTooLong m then (0%nat, out)
  else encoded (write m (cborWriter out)).

Record Got := mkGot {
  gotProtoVer : bool; gotSession : bool; gotBoot : bool; gotEtag : bool; gotCfgGen : bool; gotLimits : bool; gotRoles : bool;
  gotDeadmanMs : bool; gotDeadmanPolicy : bool; gotNonce : bool; gotGrants : bool }.

Definition gotNone : Got := mkGot false false false false false false false false false false false.

Definition gotAll (g : Got) : bool :=
  gotProtoVer g && gotSession g && gotBoot g && gotEtag g && gotCfgGen g && gotLimits g &&
  gotRoles g && gotDeadmanMs g && gotDeadmanPolicy g && gotNonce g && gotGrants g.

Definition field (k : Z) (s : t * Got) (r : CborReader) : Result (t * Got * CborReader) DecodeError :=
  let '(m, g) := s in
  if k =? CborKey.proto_ver then
    let? (v, r) := readUint r in
    if 0xFF <? v then Err Malformed else Ok ((m{{proto_ver := u8 v}}, g{{gotProtoVer := true}}), r)
  else if k =? CborKey.session_id then let? (v, r) := readUint r in Ok ((m{{session_id := u32 v}}, g{{gotSession := true}}), r)
  else if k =? CborKey.boot_id then let? (v, r) := readUint r in Ok ((m{{boot_id := u32 v}}, g{{gotBoot := true}}), r)
  else if k =? CborKey.catalog_etag then
    let? (v, r) := readBstr r in
    if negb (length v =? limits.etag_bytes)%nat then Err Malformed else Ok ((m{{catalog_etag := v}}, g{{gotEtag := true}}), r)
  else if k =? CborKey.cfg_gen then let? (v, r) := readUint r in Ok ((m{{cfg_gen := u16 v}}, g{{gotCfgGen := true}}), r)
  else if k =? CborKey.limits then
    let? (l, r) := decodeMap WelcomeLimits.field (limits_info m) r in Ok ((m{{limits_info := l}}, g{{gotLimits := true}}), r)
  else if k =? CborKey.roles then let? (v, r) := readUint r in Ok ((m{{roles := u8 v}}, g{{gotRoles := true}}), r)
  else if k =? CborKey.deadman_ms then let? (v, r) := readUint r in Ok ((m{{deadman_ms := u32 v}}, g{{gotDeadmanMs := true}}), r)
  else if k =? CborKey.deadman_policy then
    let? (v, r) := readUint r in Ok ((m{{deadman_policy := u8 v}}, g{{gotDeadmanPolicy := true}}), r)
  else if k =? CborKey.nonce then
    let? (v, r) := readBstr r in
    if negb (length v =? kWelcomeNonceBytes)%nat then Err Malformed else Ok ((m{{nonce := v}}, g{{gotNonce := true}}), r)
  else if k =? CborKey.grants then
    let? (gs, r) := decodeArray kWelcomeMaxGrants Grant.item r in Ok ((m{{grants := gs}}, g{{gotGrants := true}}), r)
  else if k =? CborKey.granted_publishes then
    let? (gs, r) := decodeArray kWelcomeMaxGrantedPublishes GrantedPublish.item r in Ok ((m{{granted_publishes := gs}}, g), r)
  else if k =? CborKey.identity then
    let? (i, r) := decodeMap IdentityInfo.field (identity m) r in Ok ((m{{identity := i; has_identity := true}}, g), r)
  else if k =? CborKey.trust then
    let? (tm, r) := TrustMap.decodeTrustMap (trust_map m) r in Ok ((m{{trust_map := tm; has_trust := true}}, g), r)
  else if k =? CborKey.ws_port then
    let? (v, r) := readUint r in
    if 0xFFFF <? v then Err Malformed else Ok ((m{{ws_port := u16 v}}, g), r)
  else if k =? CborKey.ipv4 then
    let? (v, r) := readUint r in
    if 0xFFFFFFFF <? v then Err Malformed else Ok ((m{{ipv4 := u32 v}}, g), r)
  else ignoreField s r.

Definition decodeWelcome (s : bytes) : Result t DecodeError :=
  let? (m, g, _) := decodeMap field (none, gotNone) (cborReader s) in
  if negb (gotAll g) then Err Malformed else Ok m.

Definition entries (m : t) : list (Entry (t * Got)) :=
  mkEntry CborKey.proto_ver [OpUint (proto_ver m)] (fun '(x, g) => (x{{proto_ver := proto_ver m}}, g{{gotProtoVer := true}}))
  :: mkEntry CborKey.session_id [OpUint (session_id m)] (fun '(x, g) => (x{{session_id := session_id m}}, g{{gotSession := true}}))
  :: mkEntry CborKey.boot_id [OpUint (boot_id m)] (fun '(x, g) => (x{{boot_id := boot_id m}}, g{{gotBoot := true}}))
  :: mkEntry CborKey.catalog_etag [OpBstr (catalog_etag m)] (fun '(x, g) => (x{{catalog_etag := catalog_etag m}}, g{{gotEtag := true}}))
  :: mkEntry CborKey.cfg_gen [OpUint (cfg_gen m)] (fun '(x, g) => (x{{cfg_gen := cfg_gen m}}, g{{gotCfgGen := true}}))
  :: mkEntry CborKey.limits (map_ops (WelcomeLimits.entries (limits_info m)))
       (fun '(x, g) => (x{{limits_info := effects (WelcomeLimits.entries (limits_info m)) (limits_info x)}}, g{{gotLimits := true}}))
  :: mkEntry CborKey.roles [OpUint (roles m)] (fun '(x, g) => (x{{roles := roles m}}, g{{gotRoles := true}}))
  :: mkEntry CborKey.deadman_ms [OpUint (deadman_ms m)] (fun '(x, g) => (x{{deadman_ms := deadman_ms m}}, g{{gotDeadmanMs := true}}))
  :: mkEntry CborKey.deadman_policy [OpUint (deadman_policy m)]
       (fun '(x, g) => (x{{deadman_policy := deadman_policy m}}, g{{gotDeadmanPolicy := true}}))
  :: mkEntry CborKey.nonce [OpBstr (nonce m)] (fun '(x, g) => (x{{nonce := nonce m}}, g{{gotNonce := true}}))
  :: mkEntry CborKey.grants (array_ops Grant.ops (grants m)) (fun '(x, g) => (x{{grants := grants m}}, g{{gotGrants := true}}))
  :: opt (hasGrantedPublishes m) (mkEntry CborKey.granted_publishes (array_ops GrantedPublish.ops (granted_publishes m))
       (fun '(x, g) => (x{{granted_publishes := granted_publishes m}}, g)))
  ++ opt (hasIdentity m) (mkEntry CborKey.identity (map_ops (IdentityInfo.entries (identity m)))
       (fun '(x, g) => (x{{identity := effects (IdentityInfo.entries (identity m)) (identity x); has_identity := has_identity m}}, g)))
  ++ opt (hasTrust m) (mkEntry CborKey.trust (map_ops (TrustMap.entries (trust_map m)))
       (fun '(x, g) => (x{{trust_map := effects (TrustMap.entries (trust_map m)) (trust_map x); has_trust := has_trust m}}, g)))
  ++ opt (hasWsPort m) (mkEntry CborKey.ws_port [OpUint (ws_port m)] (fun '(x, g) => (x{{ws_port := ws_port m}}, g)))
  ++ opt (hasIpv4 m) (mkEntry CborKey.ipv4 [OpUint (ipv4 m)] (fun '(x, g) => (x{{ipv4 := ipv4 m}}, g)))
  ++ [].

Record sendable (m : t) : Prop := {
  s_ver : is_u8 (proto_ver m); s_session : is_u32 (session_id m); s_boot : is_u32 (boot_id m);
  s_etag : is_bytes (catalog_etag m) /\ length (catalog_etag m) = limits.etag_bytes;
  s_gen : is_u16 (cfg_gen m); s_limits : WelcomeLimits.wf (limits_info m);
  s_roles : is_u8 (roles m); s_deadman : is_u32 (deadman_ms m); s_policy : is_u8 (deadman_policy m);
  s_nonce : is_bytes (nonce m) /\ length (nonce m) = kWelcomeNonceBytes;
  s_grants : Forall Grant.wf (grants m) /\ (length (grants m) <= kWelcomeMaxGrants)%nat;
  s_pubs : Forall GrantedPublish.wf (granted_publishes m) /\ (length (granted_publishes m) <= kWelcomeMaxGrantedPublishes)%nat;
  s_identity : IdentityInfo.wf (identity m); s_trust : TrustMap.wf (trust_map m);
  s_port : is_u16 (ws_port m); s_ipv4 : is_u32 (ipv4 m);
  s_some_identity : has_identity m = true -> IdentityInfo.any (identity m) = true;
  s_no_identity : has_identity m = false -> identity m = IdentityInfo.none;
  s_some_trust : has_trust m = true -> TrustMap.any (trust_map m) = true;
  s_no_trust : has_trust m = false -> trust_map m = TrustMap.none }.

Lemma optional_maps m : sendable m -> hasIdentity m = has_identity m /\ hasTrust m = has_trust m.
Proof.
  intros Hs. unfold hasIdentity, hasTrust. pose proof (s_some_trust m Hs). pose proof (s_some_identity m Hs).
  split; [destruct (has_identity m)|destruct (has_trust m)]; auto.
Qed.

Lemma limits_good l eff :
  WelcomeLimits.wf l ->
  (forall x r r', decodeMap WelcomeLimits.field (limits_info x.1) r = Ok (effects (WelcomeLimits.entries l) (limits_info x.1), r') ->
     field CborKey.limits x r = Ok (eff x, r')) ->
  good field 1 (mkEntry CborKey.limits (map_ops (WelcomeLimits.entries l)) eff).
Proof.
  intros Hl Hf. destruct (WelcomeLimits.welcome_limits_entries_shape l) as (Hcnt & Hasc & _).
  apply (good_submap field 1 CborKey.limits ltac:(done) WelcomeLimits.field (fun s => limits_info s.1)); try done; [unfold kMaxDepth; lia|].
  by apply WelcomeLimits.welcome_limits_entries_good.
Qed.

Lemma identity_good i eff :
  IdentityInfo.wf i ->
  (forall x r r', decodeMap IdentityInfo.field (identity x.1) r = Ok (effects (IdentityInfo.entries i) (identity x.1), r') ->
     field CborKey.identity x r = Ok (eff x, r')) ->
  good field 1 (mkEntry CborKey.identity (map_ops (IdentityInfo.entries i)) eff).
Proof.
  intros Hl Hf. destruct (IdentityInfo.identity_info_entries_shape i) as (Hcnt & Hasc & _).
  apply (good_submap field 1 CborKey.identity ltac:(done) IdentityInfo.field (fun s => identity s.1)); try done; [unfold kMaxDepth; lia|].
  by apply IdentityInfo.identity_info_entries_good.
Qed.

Lemma welcome_entries_good m : sendable m -> Forall (good field 1) (entries m).
Proof.
  intros Hse. destruct (optional_maps m Hse) as [Hid Htr].
  destruct Hse as [Hv Hs Hb [He Le] Hc Hl Hr Hd Hp [Hn Ln] [Hg Lg] [Hgp Lp] Hi Ht Hw H4 _ _ _ _].
  unfold entries. rewrite !Forall_cons, !Forall_app. split_and!; try apply List.Forall_nil; try (apply Forall_opt; intros H).
  all: try (apply good_number; [done|auto with words|]; branch_got field; try (rewrite ?u8_id, ?u16_id, ?u32_id by done; reflexivity)).
  - destruct (Z.ltb_spec 0xFF (proto_ver m)); [unfold is_u8 in Hv; lia|]. by rewrite u8_id.
  - apply good_binary; [done|done|rewrite Le; unfold limits.etag_bytes; lia|]. branch_got field. by rewrite Le.
  - apply limits_good; [done|]. by branch_got field.
  - apply good_binary; [done|done|rewrite Ln; unfold kWelcomeNonceBytes; lia|]. branch_got field. by rewrite Ln.
  - apply (grants_good field) with (cap := kWelcomeMaxGrants); try done; [unfold kWelcomeMaxGrants; lia|]. by branch_got field.
  - apply granted_publishes_good; try done. by branch_got field.
  - apply identity_good; [done|]. branch_got field. by rewrite <- Hid, H.
  - apply (trust_good field 1 (fun s => trust_map s.1)); [unfold kMaxDepth; lia|done|]. branch_got field. by rewrite <- Htr, H.
  - destruct (Z.ltb_spec 0xFFFF (ws_port m)); [unfold is_u16 in Hw; lia|]. by rewrite u16_id.
  - destruct (Z.ltb_spec 0xFFFFFFFF (ipv4 m)); [unfold is_u32 in H4; lia|]. by rewrite u32_id.
Qed.

Lemma welcome_entries_shape m :
  is_u32 (Z.of_nat (length (entries m))) /\ ascending None (e_key <$> entries m) /\ Z.of_nat (length (entries m)) = keyCount m.
Proof.
  assert (Z.of_nat (length (entries m)) = keyCount m) as E.
  { unfold entries, keyCount. rewrite !count_cons, !count_opt. cbn [length Z.of_nat]. ring. }
  split_and!; [|unfold entries; keys_ascending|done]. rewrite E. unfold is_u32, keyCount.
  pose proof (b2z_range (hasGrantedPublishes m)). pose proof (b2z_range (hasIdentity m)). pose proof (b2z_range (hasTrust m)).
  pose proof (b2z_range (hasWsPort m)). pose proof (b2z_range (hasIpv4 m)). clear E. lia.
Qed.

Ltac call :=
  first [reflexivity
    | rewrite (writeArray_run Grant.ops) by apply Grant.grant_write_run; reflexivity
    | rewrite (writeArray_run GrantedPublish.ops) by apply GrantedPublish.granted_publish_write_run; reflexivity
    | rewrite WelcomeLimits.welcome_limits_write_run; reflexivity
    | rewrite IdentityInfo.identity_info_write_run; reflexivity
    | rewrite TrustMap.encodeTrustMap_run; reflexivity].

Lemma welcome_write_run m w : write m w = run (map_ops (entries m)) w.
Proof.
  rewrite run_map. destruct (welcome_entries_shape m) as (_ & _ & ->). cbv delta [write entries]; cbv beta. let_step. run_steps_by call. done.
Qed.

Lemma welcome_effects_entries m : sendable m ->
  effects (entries m) (none, gotNone) = (m, mkGot true true true true true true true true true true true).
Proof.
  intros Hs. destruct (optional_maps m Hs) as [Hid Htr].
  destruct Hs as [_ _ _ _ _ Hl _ _ _ _ _ _ Hi Ht Hw H4 _ Nid _ Ntr]. unfold entries. rewrite !effects_cons, Hid, Htr.
  rewrite effects_opt by (intros H; cbn [e_eff]; by rewrite (Hello.some_false _ H)).
  rewrite effects_opt by (intros H; cbn [e_eff]; by rewrite H, Nid).
  rewrite effects_opt by (intros H; cbn [e_eff]; by rewrite H, Ntr).
  rewrite effects_opt by (intros H; cbn [e_eff]; by rewrite (proj1 (Z.eqb_eq _ _) (proj1 (negb_false_iff _) H))).
  rewrite effects_opt by (intros H; cbn [e_eff]; by rewrite (proj1 (Z.eqb_eq _ _) (proj1 (negb_false_iff _) H))).
  rewrite effects_nil. cbn -[effects].
  rewrite TrustMap.trust_map_effects_entries, IdentityInfo.identity_info_effects_entries, WelcomeLimits.welcome_limits_effects_entries by done. by destruct m.
Qed.

#[global, program] Instance message : WireMessage t := {|
  encode := encodeWelcome; decode := decodeWelcome; Codec.sendable := sendable; wire m := map_bytes (entries m) |}.
Next Obligation.
  intros m out Hs Hfit. destruct (welcome_entries_shape m) as (Hn & Ha & _).
  rewrite <- (encode_entries field (entries m) Hn (welcome_entries_good m Hs) Ha (m, gotNone)) by done.
  destruct Hs as [_ _ _ _ _ _ _ _ _ _ [_ Lg] [_ Lp] [[_ L1] [_ L2] [_ L3] _ _] _ _ _ _ _ _ _]. unfold encodeWelcome, identityTooLong.
  destruct (Nat.ltb_spec kWelcomeMaxGrants (length (grants m))); [lia|].
  destruct (Nat.ltb_spec kWelcomeMaxGrantedPublishes (length (granted_publishes m))); [lia|].
  destruct (Nat.ltb_spec kIdentityProductMaxBytes (length (IdentityInfo.product (identity m)))); [lia|].
  destruct (Nat.ltb_spec kIdentityFwVersionMaxBytes (length (IdentityInfo.fw_version (identity m)))); [lia|].
  destruct (Nat.ltb_spec kIdentityHubNameMaxBytes (length (IdentityInfo.hub_name (identity m)))); [lia|].
  cbn [orb]. rewrite andb_false_r. by rewrite welcome_write_run.
Qed.
Next Obligation.
  intros m Hs. destruct (welcome_entries_shape m) as (Hn & Ha & _). unfold decodeWelcome.
  destruct (decode_entries field (entries m) Hn (welcome_entries_good m Hs) Ha (none, gotNone)) as [r ->].
  by rewrite welcome_effects_entries.
Qed.
End Welcome.

(** * Properties *)

Lemma delivered_wire {M} `{WireMessage M} m out : sendable m -> (length (wire m) <= length out)%nat ->
  let '(n, out') := encode m out in n = length (wire m) /\ decode (take n out') = Ok m.
Proof.
  intros Hs Hfit. rewrite encode_wire by done. split; [done|]. rewrite write_at_0, take_app_length. by apply decode_wire.
Qed.

(** C30. The handshake and negotiation messages survive the wire: HELLO, WELCOME,
    GRANT, SUBSCRIBE, UNSUBSCRIBE, PUBLISH, AUTH/HUB_SIG, PAIR_REQ and
    PAIR_GRANT. For every message within the C++ ranges and the protocol's caps
    (optional members present or at their defaults, in any combination, nested
    wishes, grants, limits, identity and trust map included) and every buffer
    that holds the encoding, the encoder reports its exact length and the
    decoder returns the message. *)
Theorem handshake_roundtrip (out : bytes) :
  (forall m, Hello.sendable m -> (length (map_bytes (Hello.entries m)) <= length out)%nat ->
     let '(n, out') := Hello.encodeHello m out in n = length (map_bytes (Hello.entries m)) /\ Hello.decodeHello (take n out') = Ok m) /\
  (forall m, Welcome.sendable m -> (length (map_bytes (Welcome.entries m)) <= length out)%nat ->
     let '(n, out') := Welcome.encodeWelcome m out in n = length (map_bytes (Welcome.entries m)) /\ Welcome.decodeWelcome (take n out') = Ok m) /\
  (forall m, GrantMsg.sendable m -> (length (map_bytes (GrantMsg.entries m)) <= length out)%nat ->
     let '(n, out') := GrantMsg.encodeGrant m out in n = length (map_bytes (GrantMsg.entries m)) /\ GrantMsg.decodeGrant (take n out') = Ok m) /\
  (forall m, Subscribe.sendable m -> (length (map_bytes (Subscribe.entries m)) <= length out)%nat ->
     let '(n, out') := Subscribe.encodeSubscribe m out in
     n = length (map_bytes (Subscribe.entries m)) /\ Subscribe.decodeSubscribe (take n out') = Ok m) /\
  (forall m, Unsubscribe.sendable m -> (length (map_bytes (Unsubscribe.entries m)) <= length out)%nat ->
     let '(n, out') := Unsubscribe.encodeUnsubscribe m out in
     n = length (map_bytes (Unsubscribe.entries m)) /\ Unsubscribe.decodeUnsubscribe (take n out') = Ok m) /\
  (forall m, Publish.sendable m -> (length (map_bytes (Publish.entries m)) <= length out)%nat ->
     let '(n, out') := Publish.encodePublish m out in n = length (map_bytes (Publish.entries m)) /\ Publish.decodePublish (take n out') = Ok m) /\
  (forall m, Envelope.sendable m -> (length (map_bytes (Envelope.entries m)) <= length out)%nat ->
     let '(n, out') := Envelope.encodeTrustEnvelope m out in
     n = length (map_bytes (Envelope.entries m)) /\ Envelope.decodeTrustEnvelope (take n out') = Ok m) /\
  (forall m, PairReq.sendable m -> (length (map_bytes (PairReq.entries m)) <= length out)%nat ->
     let '(n, out') := PairReq.encodePairReq m out in n = length (map_bytes (PairReq.entries m)) /\ PairReq.decodePairReq (take n out') = Ok m) /\
  (forall m, PairGrant.sendable m -> (length (map_bytes (PairGrant.entries m)) <= length out)%nat ->
     let '(n, out') := PairGrant.encodePairGrant m out in
     n = length (map_bytes (PairGrant.entries m)) /\ PairGrant.decodePairGrant (take n out') = Ok m).
Proof. split_and!; intros m Hs Hfit; exact (delivered_wire m out Hs Hfit). Qed.

Definition a_hello : Hello.t :=
  let ver := TrustMap.none{{TrustMap.client_ver := [49; 46; 48]; TrustMap.has_client_ver := true}} in
  Hello.mk 1 [119; 101; 98] [] [1; 2; 3; 4; 5; 6; 7; 8] false (replicate 16 0) false (replicate 8 0)
    [SubscriptionWish.mk 3 0 3; SubscriptionWish.mk 256 1092616192 1] [PublishWish.mk 512 1106247680 true 1112014848 false 0]
    true ver 800.

Lemma a_hello_sendable : Hello.sendable a_hello.
Proof.
  assert (TrustMap.wf (Hello.trust_map a_hello)) as Ht.
  { split; try done; try (intros; discriminate); (split; [apply (bool_decide_unpack _); vm_compute; exact I|first [reflexivity|vm_compute; lia]]). }
  split; try done; try (split; [apply (bool_decide_unpack _); vm_compute; exact I|first [reflexivity|vm_compute; lia]]).
  - split; [|vm_compute; lia]. constructor; [|apply List.Forall_nil]. split; try done.
Qed.

Lemma handshake_roundtrip_witness :
  let '(n, out) := Hello.encodeHello a_hello (replicate 100 0) in n = 79%nat /\ Hello.decodeHello (take n out) = Ok a_hello.
Proof.
  destruct (handshake_roundtrip (replicate 100 0)) as (H & _). specialize (H a_hello a_hello_sendable).
  destruct (Hello.encodeHello a_hello (replicate 100 0)) as [n out]. destruct H as [-> ->]; [vm_compute; lia|].
  split; [vm_compute; reflexivity|reflexivity].
Defined.
