(* ===== verification/Accept.v ===== *)
(** * Accept: what the handshake decoders let through

    The decoders of [Trust] and [Handshake] on arbitrary input: every message
    they return is within the ranges of the C++ types and the caps of the
    protocol, with absent fields at their defaults. *)

From S2P Require Import Prelude Registry ByteIO Cbor Messages Codec Trust Handshake.
Local Open Scope Z_scope.

(** ** Readers and decoders that establish a predicate *)

Definition yields {A} (P : A -> Prop) (read : CborReader -> Result (A * CborReader) DecodeError) : Prop :=
  forall r x r', is_bytes (r_in r) -> read r = Ok (x, r') -> P x /\ r_in r' = r_in r.

Definition preserves {M} (P : M -> Prop) (h : M -> CborReader -> Result (M * CborReader) DecodeError) : Prop :=
  forall m r m' r', is_bytes (r_in r) -> P m -> h m r = Ok (m', r') -> P m' /\ r_in r' = r_in r.

Lemma iterR_inv {S E} (body : S -> Result S E) (P : S -> Prop) p s s' :
  (forall s s', P s -> body s = Ok s' -> P s') -> P s -> iterR body p s = Ok s' -> P s'.
Proof.
  intros Hb. revert s s'. induction p as [p IH|p IH|]; intros s s' Hs; cbn [iterR].
  - destruct (body s) as [s1|] eqn:E1; [|done]. cbn [rbind]. destruct (iterR body p s1) as [s2|] eqn:E2; [|done]. cbn [rbind]. eauto.
  - destruct (iterR body p s) as [s2|] eqn:E2; [|done]. cbn [rbind]. eauto.
  - by apply Hb.
Qed.

Lemma forR_inv {S E} (body : S -> Result S E) (P : S -> Prop) n s s' :
  (forall s s', P s -> body s = Ok s' -> P s') -> P s -> forR n body s = Ok s' -> P s'.
Proof. intros Hb Hs. destruct n; cbn [forR]; [by intros [= <-]|by apply iterR_inv|by intros [= <-]]. Qed.

Lemma yields_uint : yields is_u64 readUint.
Proof. intros r v r' Hb E. apply readUint_iff in E as (Hv & _ & ->); done. Qed.

Lemma yields_str m : 0 <= m < 6 -> yields is_bytes (readStr m).
Proof.
  intros Hm r s r' Hb E. apply readStr_iff in E as (_ & [rest Ha] & ->); try done. split; [|done].
  assert (is_bytes (ahead r)) as H by (unfold ahead; by apply Forall_drop). rewrite Ha in H.
  apply Forall_app in H as [_ H]. by apply Forall_app in H as [H _].
Qed.

Lemma yields_tstr : yields is_bytes readTstr.
Proof. apply yields_str. lia. Qed.
Lemma yields_bstr : yields is_bytes readBstr.
Proof. apply yields_str. lia. Qed.

Lemma yields_bool : yields (fun _ => True) readBool.
Proof. intros r b r' Hb. unfold readBool. destruct (parseSimpleRaw r) as [[[] ? ?]|]; cbn; try done; by intros [= <- <-]. Qed.

Lemma lor_byte_u32 v b : is_u32 v -> is_u8 b -> is_u32 (Z.lor (u32 (Z.shiftl v 8)) b).
Proof.
  intros Hv Hb. unfold is_u32. change 4294967296 with (2 ^ 32). apply lor_range; [lia| |].
  - unfold u32. change 4294967296 with (2 ^ 32). apply Z.mod_pos_bound. lia.
  - unfold is_u8 in Hb. lia.
Qed.

Lemma yields_f32 : yields is_u32 readF32.
Proof.
  intros r v r' Hb. unfold readF32, parseSimpleRaw.
  destruct (Nat.leb_spec (length (r_in r)) (r_pos r)); [done|]. cbv zeta. destruct (negb _); [done|]. case_ifs; cbn [rbind s_kind s_floatBits s_total]; try done.
  intros [= <- <-]. split; [|done]. assert (is_u32 0) as H0 by done. revert H0.
  assert (forall i, is_u8 (byte_at (r_pos r + 1 + i) (r_in r))) as Hi by auto with bytes.
  intros H0. repeat (apply lor_byte_u32; [|apply Hi]). done.
Qed.

(** A reader leaves the input as it is. *)
Lemma enter_in m map r n r' : enterContainer m map r = Ok (n, r') -> r_in r' = r_in r.
Proof. unfold enterContainer. destruct (parseHeadRaw r); [|done]. cbn [rbind]. case_ifs; [done|done|done|by intros [= _ <-]..]. Qed.

Lemma readKey_in r k r' : readKey r = Ok (k, r') -> r_in r' = r_in r.
Proof.
  unfold readKey. destruct (parseHeadRaw r); [|done]. cbn [rbind]. case_ifs; [done|]. destruct (r_stack r); [done|].
  case_ifs; [done|done|by intros [= _ <-]].
Qed.

Lemma skip_in b r r' : skip b r = Ok r' -> r_in r' = r_in r.
Proof.
  revert r r'. induction b as [|b IH]; intros r r'; cbn [skip]; (destruct (peekType r) as [t|]; [|done]); cbn [rbind]; destruct t; try done.
  all: unfold readUint, readInt, readBstr, readTstr, readStr, readArrayHeader, readMapHeader.
  all: try (destruct (parseHeadRaw r); [|done]; cbn [rbind]; case_ifs; cbn [rbind]; try done; by intros [= <-]).
  all: try (destruct (parseSimpleRaw r); [|done]; cbn [rbind]; by intros [= <-]).
  all: try (destruct (enterContainer _ _ r) as [[n r1]|] eqn:E; [|done]; cbn [rbind]; try done; apply enter_in in E; rewrite <- E).
  - intros H. apply (forR_inv _ (fun s => r_in s = r_in r1)) in H; [done| |done]. intros s s' Hs Hx. by rewrite <- Hs, (IH s s').
  - intros H. apply (forR_inv _ (fun s => r_in s = r_in r1)) in H; [done| |done]. intros s s' Hs.
    destruct (readKey s) as [[k s1]|] eqn:Ek; [|done]. cbn [rbind]. intros Hx. by rewrite <- Hs, (IH s1 s' Hx), (readKey_in _ _ _ Ek).
Qed.

Lemma ignore_same {M} (m m' : M) r r' : ignoreField m r = Ok (m', r') -> m' = m /\ r_in r' = r_in r.
Proof.
  unfold ignoreField, skipValue. destruct (skip _ r) as [r1|] eqn:E; [|done]. cbn [rbind]. intros [= <- <-].
  split; [done|by eapply skip_in].
Qed.

Lemma preserves_map {M} (P : M -> Prop) field : (forall k, preserves P (field k)) -> preserves P (decodeMap field).
Proof.
  intros Hf m r m' r' Hb Hm. unfold decodeMap, readMapHeader. destruct (enterContainer 5 true r) as [[n r1]|] eqn:E; [|done].
  apply enter_in in E. cbn [rbind]. rewrite <- E in Hb |- *. clear E r. unfold decodeFields. intros H.
  apply (forR_inv _ (fun s => P s.1 /\ r_in s.2 = r_in r1)) in H; [done| |done]. intros [x rx] [y ry] [Hx Hi]. cbn [fst snd] in *.
  destruct (readKey rx) as [[k r2]|] eqn:Ek; [|done]. cbn [rbind]. apply readKey_in in Ek. rewrite Hi in Ek. intros Hy.
  apply Hf in Hy as [Hy Hr]; [|by rewrite Ek|done]. split; [done|congruence].
Qed.

Lemma yields_decode {M} (P : M -> Prop) field m0 : (forall k, preserves P (field k)) -> P m0 -> yields P (decodeMap field m0).
Proof. intros Hf H0 r m r' Hb E. eapply preserves_map; eauto. Qed.

Lemma accept_array_loop {B} (P : B -> Prop) item r0 n : yields P item -> is_bytes r0 ->
  forall (acc : list B) r xs r', Forall P acc -> r_in r = r0 ->
  forR (Z.of_nat n) (fun '(acc, r) => let? (x, r) := item r in Ok (acc ++ [x], r)) (acc, r) = Ok (xs, r') ->
  Forall P xs /\ length xs = (length acc + n)%nat /\ r_in r' = r0.
Proof.
  intros Hi Hb. induction n as [|n IH]; intros acc r xs r' Ha Hr.
  - cbn. intros [= <- <-]. split_and!; [done|lia|done].
  - rewrite forR_S. destruct (item r) as [[x r1]|] eqn:E; [|done]. cbn [rbind]. intros H.
    apply Hi in E as [Hx H1]; [|by rewrite Hr]. apply IH in H as (? & Hl & ?); [| |congruence].
    + split_and!; [done| |done]. rewrite Hl, length_app. cbn. lia.
    + apply Forall_app. split; [done|]. by constructor.
Qed.

Lemma yields_array {B} (P : B -> Prop) cap item :
  yields P item -> yields (fun xs => Forall P xs /\ (length xs <= cap)%nat) (decodeArray cap item).
Proof.
  intros Hi r xs r' Hb. unfold decodeArray, readArrayHeader. destruct (enterContainer 4 false r) as [[n r1]|] eqn:E; [|done].
  pose proof E as E'. apply enter_iff in E' as (Hn & _); [|done|lia]. apply enter_in in E. cbn [rbind].
  destruct (Z.ltb_spec (Z.of_nat cap) n); [done|]. intros H'.
  rewrite <- (Z2Nat.id n) in H' by (unfold is_u32 in Hn; lia).
  apply (accept_array_loop P item (r_in r)) in H' as (? & Hl & ?); [|done|done|constructor|done]. cbn in Hl. split; [split; [done|lia]|done].
Qed.

Lemma accept_bind {A M} (Q : A -> Prop) read (f : A -> CborReader -> Result (M * CborReader) DecodeError) r m' r' :
  yields Q read -> is_bytes (r_in r) -> (let? (v, r1) := read r in f v r1) = Ok (m', r') ->
  exists v r1, Q v /\ r_in r1 = r_in r /\ f v r1 = Ok (m', r').
Proof.
  intros Hy Hb. destruct (read r) as [[v r1]|] eqn:E; [|done]. cbn [rbind]. intros H. apply Hy in E as [? ?]; eauto.
Qed.

(** ** The messages *)

(** One branch of a [switch]: what the reader returned, and the update. *)
Ltac read_with y :=
  let E := fresh "E" in let v := fresh "v" in let r1 := fresh "r1" in let Hv := fresh "Hv" in let Hr := fresh "Hr" in
  intros E; eapply accept_bind in E as (v & r1 & Hv & Hr & E); [|exact y|eassumption]; revert E; cbn beta iota in Hv |- *.

Ltac read_value := first [read_with yields_uint | read_with yields_tstr | read_with yields_bstr | read_with yields_bool | read_with yields_f32].

Ltac ignored := let H := fresh in intros H; apply ignore_same in H as [-> ?]; split; assumption.

Ltac updated := case_ifs; try done; intros [= <- <-]; (split; [|assumption]).

Ltac wf_fields := cbn; unfold constant in *; auto; try done.

#[local] Hint Resolve u8_u64 u16_u64 u32_u64 : words.

#[local] Hint Resolve u8_range u16_range u32_range : core.

(** A bound the decoder checked. *)
Ltac checked :=
  repeat match goal with
  | H : (_ <? _)%nat = false |- _ => apply Nat.ltb_ge in H
  | H : (_ || _) = false |- _ => apply orb_false_iff in H as [? ?]
  | H : negb (_ =? _)%nat = false |- _ => apply negb_false_iff, Nat.eqb_eq in H
  | H : (_ =? _)%nat = false |- _ => apply Nat.eqb_neq in H
  end.

Lemma trust_accepts : preserves TrustMap.wf TrustMap.decodeTrustMap.
Proof.
  apply preserves_map. intros k m r m' r' Hb Hm. unfold TrustMap.field.
  repeat match goal with |- context [k =? ?c] => destruct (k =? c) end; [..|ignored].
  all: read_value; updated; checked; destruct Hm; split; wf_fields.
  all: intros _ ->; done.
Qed.

Ltac literal_bytes := first [apply List.Forall_nil | apply (bool_decide_unpack _); vm_compute; exact I].
Ltac defaults := try (split; [literal_bytes|first [reflexivity | cbv; lia]]).

Lemma trust_none_wf : TrustMap.wf TrustMap.none.
Proof. split; wf_fields; defaults. Qed.
#[local] Hint Resolve trust_none_wf : core.

(** An absent trust map and an empty one are the same to the receiver. *)
Lemma trust_empty m : TrustMap.wf m -> TrustMap.any m = false -> m = TrustMap.none.
Proof.
  intros [] Ha. unfold TrustMap.any in Ha. rewrite !orb_false_iff in Ha. destruct Ha as [[[[[[[? ?] ?] ?] ?] ?] ?] ?].
  destruct m. cbn in *. subst. unfold TrustMap.none. f_equal; auto.
Qed.

Ltac every_key k := repeat match goal with |- context [k =? ?c] => destruct (k =? c) end.

Lemma subscription_wish_accepts : yields SubscriptionWish.wf SubscriptionWish.item.
Proof.
  apply yields_decode; [|by vm_compute]. intros k m r m' r' Hb Hm. unfold SubscriptionWish.field.
  every_key k; [..|ignored].
  all: destruct Hm as (H1 & H2 & H3); read_value; updated; unfold SubscriptionWish.wf; cbn; unfold constant; auto with words.
Qed.

Lemma publish_wish_accepts : yields PublishWish.wf PublishWish.item.
Proof.
  apply yields_decode; [|by split]. intros k m r m' r' Hb Hm. unfold PublishWish.field. every_key k; [..|ignored].
  all: read_value; updated; destruct Hm; split; wf_fields.
Qed.

Lemma grant_accepts : yields Grant.wf Grant.item.
Proof.
  apply yields_decode; [|by vm_compute]. intros k m r m' r' Hb Hm. unfold Grant.field.
  every_key k; [..|ignored].
  all: destruct Hm as (H1 & H2 & H3); read_value; updated; unfold Grant.wf; cbn; unfold constant; auto with words.
Qed.

Lemma granted_publish_accepts : yields GrantedPublish.wf GrantedPublish.item.
Proof.
  apply yields_decode; [|by split]. intros k m r m' r' Hb Hm. unfold GrantedPublish.field. every_key k; [..|ignored].
  all: read_value; updated; destruct Hm; split; wf_fields.
Qed.

(** What a decoder returned, with an empty trust map dropped. *)
Definition normal_hello (m : Hello.t) : Hello.t := m{{Hello.has_trust := Hello.hasTrust m}}.

Definition hello_inv (s : Hello.t * Hello.Got) : Prop := Hello.sendable (normal_hello s.1).

Lemma hello_trust m tm : Hello.sendable (normal_hello m) -> TrustMap.wf tm ->
  Hello.sendable (normal_hello (m{{Hello.trust_map := tm; Hello.has_trust := true}})).
Proof.
  intros [] Ht. split; wf_fields. intros Ha. by apply trust_empty.
Qed.

Lemma hello_fields_accept k : preserves hello_inv (Hello.field k).
Proof.
  intros [m g] r m' r' Hb Hm. unfold Hello.field. every_key k; [..|ignored].
  7: read_with (yields_array _ kHelloMaxSubscriptionWishes _ subscription_wish_accepts); intros [= <- <-].
  8: read_with (yields_array _ kHelloMaxPublishWishes _ publish_wish_accepts); intros [= <- <-].
  9: { destruct (TrustMap.decodeTrustMap (Hello.trust_map m) r) as [[tm r1]|] eqn:E; [|done]. cbn [rbind].
       pose proof Hm as [_ _ _ _ _ _ _ _ Ht _ _ _ _ _]. apply trust_accepts in E as [Htm Hr]; [|done|exact Ht]. intros [= <- <-]. split; [|done].
       by apply hello_trust. }
  all: try (read_value; updated; checked); try (split; [|assumption]).
  all: unfold hello_inv in *; cbn [fst] in *; destruct Hm; split; wf_fields.
Qed.

Lemma hello_accepts s m : is_bytes s -> Hello.decodeHello s = Ok m -> Hello.sendable (normal_hello m).
Proof.
  intros Hb. unfold Hello.decodeHello. destruct (decodeMap _ _ _) as [[[x g] r]|] eqn:E; [|done]. cbn [rbind]. case_ifs; [done|].
  intros [= <-]. apply (preserves_map hello_inv Hello.field hello_fields_accept) in E as [H _]; [done|done|].
  unfold hello_inv. cbn [fst]. split; wf_fields; defaults.
Qed.

Lemma subscribe_accepts s m : is_bytes s -> Subscribe.decodeSubscribe s = Ok m -> Subscribe.sendable m.
Proof.
  intros Hb. unfold Subscribe.decodeSubscribe. destruct (decodeMap _ _ _) as [[[x g] r]|] eqn:E; [|done]. cbn [rbind]. case_ifs; [done|].
  intros [= <-]. apply (preserves_map (fun s => Subscribe.sendable s.1)) in E as [H _]; [done| |done|split; [cbn; lia|constructor]].
  clear. intros k [m g] r m' r' Hb Hm. unfold Subscribe.field. every_key k; [|ignored].
  read_with (yields_array _ kSubscribeMaxWishes _ subscription_wish_accepts). intros [= <- <-]. split; [|done]. unfold Subscribe.sendable. naive_solver.
Qed.

Lemma unsubscribe_accepts s m : is_bytes s -> Unsubscribe.decodeUnsubscribe s = Ok m -> Unsubscribe.sendable m.
Proof.
  assert (yields is_u16 Unsubscribe.item) as Hy.
  { intros r v r' Hb. unfold Unsubscribe.item. read_value. intros [= <- <-]. auto with words. }
  intros Hb. unfold Unsubscribe.decodeUnsubscribe. destruct (decodeMap _ _ _) as [[[x g] r]|] eqn:E; [|done]. cbn [rbind]. case_ifs; [done|].
  intros [= <-]. apply (preserves_map (fun s => Unsubscribe.sendable s.1)) in E as [H _]; [done| |done|split; [cbn; lia|constructor]].
  clear -Hy. intros k [m g] r m' r' Hb Hm. unfold Unsubscribe.field. every_key k; [|ignored].
  read_with (yields_array _ kUnsubscribeMaxChannels _ Hy). intros [= <- <-]. split; [|done]. unfold Unsubscribe.sendable. naive_solver.
Qed.

Lemma publish_accepts s m : is_bytes s -> Publish.decodePublish s = Ok m -> Publish.sendable m.
Proof.
  intros Hb. unfold Publish.decodePublish. destruct (decodeMap _ _ _) as [[[x g] r]|] eqn:E; [|done]. cbn [rbind]. case_ifs; [done|].
  intros [= <-]. apply (preserves_map (fun s => Publish.sendable s.1)) in E as [H _]; [done| |done|split; [cbn; lia|constructor]].
  clear. intros k [m g] r m' r' Hb Hm. unfold Publish.field. every_key k; [|ignored].
  read_with (yields_array _ kPublishMaxWishes _ publish_wish_accepts). intros [= <- <-]. split; [|done]. unfold Publish.sendable. naive_solver.
Qed.

Lemma envelope_accepts s m : is_bytes s -> Envelope.decodeTrustEnvelope s = Ok m -> TrustMap.wf (Envelope.trust_map m).
Proof.
  intros Hb. unfold Envelope.decodeTrustEnvelope. destruct (decodeMap _ _ _) as [[[x g] r]|] eqn:E; [|done]. cbn [rbind]. case_ifs; [done|].
  intros [= <-]. apply (preserves_map (fun s => TrustMap.wf (Envelope.trust_map s.1))) in E as [H _]; [done| |done|cbn; auto].
  clear. intros k [m g] r m' r' Hb Hm. unfold Envelope.field. cbn [fst] in *. every_key k; [|ignored].
  destruct (TrustMap.decodeTrustMap (Envelope.trust_map m) r) as [[tm r1]|] eqn:E; [|done]. cbn [rbind].
  apply trust_accepts in E as [Htm Hr]; [|done|done]. by intros [= <- <-].
Qed.

Lemma pair_req_accepts s m : is_bytes s -> PairReq.decodePairReq s = Ok m -> PairReq.sendable m.
Proof.
  intros Hb. unfold PairReq.decodePairReq. destruct (decodeMap _ _ _) as [[[x g] r]|] eqn:E; [|done]. cbn [rbind]. case_ifs; [done|].
  intros [= <-]. apply (preserves_map (fun s => PairReq.sendable s.1)) in E as [H _]; [done| |done|split; wf_fields; defaults].
  clear. intros k [m g] r m' r' Hb Hm. unfold PairReq.field. every_key k; [..|ignored].
  all: read_value; updated; checked; destruct Hm; split; wf_fields.
Qed.

Definition normal_pair_grant (m : PairGrant.t) : PairGrant.t :=
  m{{PairGrant.has_trust := PairGrant.has_trust m && TrustMap.any (PairGrant.trust_map m)}}.

Lemma pair_grant_accepts s m : is_bytes s -> PairGrant.decodePairGrant s = Ok m -> PairGrant.sendable (normal_pair_grant m).
Proof.
  intros Hb. unfold PairGrant.decodePairGrant. destruct (decodeMap _ _ _) as [[[x [g1 g2]] r]|] eqn:E; [|done]. cbn [rbind]. case_ifs; [done|].
  intros [= <-].
  apply (preserves_map (fun s => PairGrant.sendable (normal_pair_grant s.1))) in E as [H _]; [done| |done|split; wf_fields; defaults].
  clear. intros k [m [g1 g2]] r m' r' Hb Hm. unfold PairGrant.field. every_key k; [..|ignored].
  3: { destruct (TrustMap.decodeTrustMap (PairGrant.trust_map m) r) as [[tm r1]|] eqn:E; [|done]. cbn [rbind].
       pose proof Hm as [_ _ Ht _ _]. apply trust_accepts in E as [Htm Hr]; [|done|exact Ht]. intros [= <- <-]. split; [|done].
       cbn [fst] in *. destruct Hm. split; wf_fields. intros Ha. by apply trust_empty. }
  all: read_value; updated; checked; cbn [fst] in *; destruct Hm; split; wf_fields; auto with words.
Qed.

Lemma grant_msg_accepts s m : is_bytes s -> GrantMsg.decodeGrant s = Ok m -> GrantMsg.sendable m.
Proof.
  intros Hb. unfold GrantMsg.decodeGrant. destruct (decodeMap _ _ _) as [[[x g] r]|] eqn:E; [|done]. cbn [rbind]. case_ifs; [done|].
  intros [= <-]. apply (preserves_map (fun s => GrantMsg.sendable s.1)) in E as [H _]; [done| |done|split; wf_fields; defaults].
  clear. intros k [m g] r m' r' Hb Hm. unfold GrantMsg.field. every_key k; [..|ignored].
  - read_with (yields_array _ kGrantMsgMaxGrants _ grant_accepts). intros [= <- <-]. split; [|done]. destruct Hm. split; wf_fields.
  - read_value. updated. destruct Hm. split; wf_fields.
    assert (0 <= v <= 2) as Hv2 by (unfold is_u64 in Hv; cbn in *; lia). unfold u8. rewrite Z.mod_small by lia. done.
  - read_with (yields_array _ kWelcomeMaxGrantedPublishes _ granted_publish_accepts). intros [= <- <-]. split; [|done]. destruct Hm. split; wf_fields.
Qed.

Lemma limits_accepts : preserves WelcomeLimits.wf (decodeMap WelcomeLimits.field).
Proof.
  apply preserves_map. intros k m r m' r' Hb Hm. unfold WelcomeLimits.field. every_key k; [..|ignored].
  all: destruct Hm as (H1 & H2 & H3 & H4); read_value; updated; unfold WelcomeLimits.wf; cbn; unfold constant; auto with words.
Qed.

Lemma identity_accepts : preserves IdentityInfo.wf (decodeMap IdentityInfo.field).
Proof.
  apply preserves_map. intros k m r m' r' Hb Hm. unfold IdentityInfo.field. every_key k; [..|ignored].
  all: read_value; updated; checked; destruct Hm; split; wf_fields.
Qed.

Lemma identity_none_wf : IdentityInfo.wf IdentityInfo.none.
Proof. split; wf_fields; defaults. Qed.

Lemma identity_empty i : IdentityInfo.wf i -> IdentityInfo.any i = false -> i = IdentityInfo.none.
Proof.
  intros [] Ha. unfold IdentityInfo.any in Ha. rewrite !orb_false_iff in Ha. destruct Ha as [[[H1 H2] H3] H4].
  apply Hello.some_false in H1, H2, H3. destruct i. cbn in *. subst. unfold IdentityInfo.none. f_equal; auto.
Qed.

Definition normal_welcome (m : Welcome.t) : Welcome.t :=
  m{{Welcome.has_trust := Welcome.hasTrust m; Welcome.has_identity := Welcome.hasIdentity m}}.

Definition welcome_inv (s : Welcome.t * Welcome.Got) : Prop := Welcome.sendable (normal_welcome s.1).

Lemma welcome_fields_accept k : preserves welcome_inv (Welcome.field k).
Proof.
  intros [m g] r m' r' Hb Hm. unfold Welcome.field. every_key k; [..|ignored].
  11: read_with (yields_array _ kWelcomeMaxGrants _ grant_accepts); intros [= <- <-].
  12: read_with (yields_array _ kWelcomeMaxGrantedPublishes _ granted_publish_accepts); intros [= <- <-].
  6: { destruct (decodeMap WelcomeLimits.field (Welcome.limits_info m) r) as [[l r1]|] eqn:E; [|done]. cbn [rbind].
       pose proof (Welcome.s_limits _ Hm) as Hl. apply limits_accepts in E as [Hl' Hr]; [|done|exact Hl]. intros [= <- <-]. split; [|done].
       unfold welcome_inv in *. cbn [fst] in *. destruct Hm. split; wf_fields. }
  12: { destruct (decodeMap IdentityInfo.field (Welcome.identity m) r) as [[l r1]|] eqn:E; [|done]. cbn [rbind].
       pose proof (Welcome.s_identity _ Hm) as Hl. apply identity_accepts in E as [Hl' Hr]; [|done|exact Hl]. intros [= <- <-]. split; [|done].
       unfold welcome_inv in *. cbn [fst] in *. destruct Hm. split; wf_fields. intros Ha. by apply identity_empty. }
  12: { destruct (TrustMap.decodeTrustMap (Welcome.trust_map m) r) as [[l r1]|] eqn:E; [|done]. cbn [rbind].
       pose proof (Welcome.s_trust _ Hm) as Hl. apply trust_accepts in E as [Hl' Hr]; [|done|exact Hl]. intros [= <- <-]. split; [|done].
       unfold welcome_inv in *. cbn [fst] in *. destruct Hm. split; wf_fields. intros Ha. by apply trust_empty. }
  all: try (read_value; updated; checked); try (split; [|assumption]).
  all: unfold welcome_inv in *; cbn [fst] in *; destruct Hm; split; wf_fields; auto with words.
Qed.

Lemma welcome_accepts s m : is_bytes s -> Welcome.decodeWelcome s = Ok m -> Welcome.sendable (normal_welcome m).
Proof.
  intros Hb. unfold Welcome.decodeWelcome. destruct (decodeMap _ _ _) as [[[x g] r]|] eqn:E; [|done]. cbn [rbind]. case_ifs; [done|].
  intros [= <-]. apply (preserves_map welcome_inv Welcome.field welcome_fields_accept) in E as [H _]; [done|done|].
  unfold welcome_inv. cbn [fst]. split; wf_fields; defaults. apply identity_none_wf.
Qed.

(** ** Rejection *)

(** Well-formed entries followed by a pair whose branch fails: the decoder
    fails with that error, whatever follows. *)
Section rejection.
Context {M : Type} (field : Z -> M -> CborReader -> Result (M * CborReader) DecodeError) (k : Z) (v rest : bytes) (e : DecodeError).
Hypothesis Hk : is_u64 k.
Hypothesis Hbad : forall m r, is_bytes (r_in r) -> length (r_stack r) = 1%nat -> ahead r = v ++ rest -> field k m r = Err e.

Lemma fields_fail (es : list (Entry M)) j m r hl lk :
  Forall (good field 1) es -> ascending (last_of hl lk) ((e_key <$> es) ++ [k]) -> is_bytes (r_in r) ->
  r_stack r = [mkFrame true (2 * Z.of_nat (length es + S j)) hl lk] ->
  ahead r = concat (entry_bytes <$> es) ++ head_bytes 0 k ++ v ++ rest ->
  decodeFields field (Z.of_nat (length es + S j)) m r = Err e.
Proof using Hk Hbad.
  intros Hok. revert m r hl lk. induction Hok as [|x es Hx Hes IH]; intros m r hl lk Hasc Hb Hs Ha; unfold decodeFields; cbn [length Nat.add] in *.
  - rewrite forR_S. cbn [fmap list_fmap concat app] in Ha. cbn [fmap list_fmap app ascending] in Hasc. destruct Hasc as [Hf _].
    assert (hl = true -> lk < k) as Hl by (intros ->; exact Hf).
    rewrite (proj2 (readKey_iff r _ [] k _ Hb Hs eq_refl) (conj Hk (conj (ex_intro _ _ Ha) (conj Hl eq_refl)))). cbn [rbind remaining].
    rewrite Hbad; [done|done| |by eapply advance_ahead].
    cbn [advance r_stack]. rewrite consumeOne_more by lia. done.
  - rewrite forR_S. cbn [fmap list_fmap concat] in Ha. cbn [fmap list_fmap app ascending] in Hasc. destruct Hasc as [Hf Hasc].
    destruct Hx as [Hkx Hrx _ _ _]. unfold entry_bytes at 1 in Ha. rewrite <- !app_assoc in Ha.
    assert (hl = true -> lk < e_key x) as Hl by (intros ->; exact Hf).
    rewrite (proj2 (readKey_iff r _ [] _ _ Hb Hs eq_refl) (conj Hkx (conj (ex_intro _ _ Ha) (conj Hl eq_refl)))). cbn [rbind remaining].
    set (r1 := advance _ _ r).
    assert (r_stack r1 = [mkFrame true (2 * Z.of_nat (S (length es + S j)) - 1) true (e_key x)]) as Hs1
      by (unfold r1; cbn [advance r_stack]; by rewrite consumeOne_more by lia).
    assert (ahead r1 = e_bytes x ++ concat (entry_bytes <$> es) ++ head_bytes 0 k ++ v ++ rest) as Ha1 by (unfold r1; by eapply advance_ahead).
    rewrite (Hrx m r1 _ Hb ltac:(by rewrite Hs1) Ha1). cbn [rbind]. unfold decodeFields in IH. apply (IH _ _ true (e_key x)); [exact Hasc|done| |by eapply advance_ahead].
    cbn [advance r_stack]. rewrite Hs1, consumeOne_more by lia. do 2 f_equal. lia.
Qed.

Lemma decode_fails (es : list (Entry M)) n m0 :
  Forall (good field 1) es -> ascending None ((e_key <$> es) ++ [k]) -> is_bytes (v ++ rest) ->
  is_u32 n -> Z.of_nat (length es) < n ->
  decodeMap field m0 (cborReader (head_bytes 5 n ++ concat (entry_bytes <$> es) ++ head_bytes 0 k ++ v ++ rest)) = Err e.
Proof using Hk Hbad.
  intros Hes Hasc Hv Hn Hlt.
  set (s := head_bytes 5 n ++ concat (entry_bytes <$> es) ++ head_bytes 0 k ++ v ++ rest).
  assert (is_bytes s) as Hb.
  { unfold s. unfold is_u32 in Hn. apply Forall_app. split; [apply is_bytes_head; lia|]. apply Forall_app. split.
    - clear -Hes. induction Hes as [|x es Hx _ IH]; [done|]. cbn [fmap list_fmap concat]. apply Forall_app. split; [|done].
      apply Forall_app. split; [apply is_bytes_head; [lia|apply Hx]|apply Hx].
    - apply Forall_app. split; [apply is_bytes_head; [lia|apply Hk]|done]. }
  unfold decodeMap, readMapHeader. assert (length (r_stack (cborReader s)) < kMaxDepth)%nat as Hd by (cbn; unfold kMaxDepth; lia).
  assert (ahead (cborReader s) = head_bytes 5 n ++ concat (entry_bytes <$> es) ++ head_bytes 0 k ++ v ++ rest) as Ha by done.
  rewrite (proj2 (enter_iff 5 true (cborReader s) n _ Hb ltac:(lia)) (conj Hn (conj Hd (conj (ex_intro _ _ Ha) eq_refl)))). cbn [rbind].
  destruct (Nat.le_exists_sub (S (length es)) (Z.to_nat n)) as (j & Hj & _); [lia|].
  assert (n = Z.of_nat (length es + S j)) as -> by lia.
  apply (fields_fail es j m0 _ false 0); [done|exact Hasc|done| |by eapply advance_ahead].
  cbn [advance r_stack cborReader]. rewrite open_nonempty by lia. do 2 f_equal. lia.
Qed.
End rejection.

(** The values HELLO refuses, with the error. *)
Inductive bad_hello : Z -> bytes -> DecodeError -> Prop :=
| bad_version n : is_u64 n -> 0xFF < n -> bad_hello CborKey.proto_ver (head_bytes 0 n) Malformed
| bad_kind s : is_bytes s -> is_u64 (Z.of_nat (length s)) -> (kHelloMaxClientKindBytes < length s)%nat ->
    bad_hello CborKey.client_kind (head_bytes 3 (Z.of_nat (length s)) ++ s) CapacityExceeded
| bad_name s : is_bytes s -> is_u64 (Z.of_nat (length s)) -> (kHelloMaxClientNameBytes < length s)%nat ->
    bad_hello CborKey.client_name (head_bytes 3 (Z.of_nat (length s)) ++ s) CapacityExceeded
| bad_instance s : is_bytes s -> is_u64 (Z.of_nat (length s)) -> length s <> limits.instance_id_bytes ->
    bad_hello CborKey.instance_id (head_bytes 2 (Z.of_nat (length s)) ++ s) Malformed
| bad_token s : is_bytes s -> is_u64 (Z.of_nat (length s)) -> length s <> limits.token_bytes ->
    bad_hello CborKey.token (head_bytes 2 (Z.of_nat (length s)) ++ s) Malformed
| bad_etag s : is_bytes s -> is_u64 (Z.of_nat (length s)) -> length s <> limits.etag_bytes ->
    bad_hello CborKey.catalog_etag (head_bytes 2 (Z.of_nat (length s)) ++ s) Malformed
| bad_subscriptions n : is_u32 n -> Z.of_nat kHelloMaxSubscriptionWishes < n ->
    bad_hello CborKey.subscriptions (head_bytes 4 n) CapacityExceeded
| bad_publishes n : is_u32 n -> Z.of_nat kHelloMaxPublishWishes < n -> bad_hello CborKey.publishes (head_bytes 4 n) CapacityExceeded
| bad_deadman n : is_u64 n -> 0xFFFFFFFF < n -> bad_hello CborKey.deadman_wish_ms (head_bytes 0 n) Malformed.

Lemma array_over_cap {B} cap (item : CborReader -> Result (B * CborReader) DecodeError) n r rest :
  is_bytes (r_in r) -> (length (r_stack r) < kMaxDepth)%nat -> is_u32 n -> Z.of_nat cap < n -> ahead r = head_bytes 4 n ++ rest ->
  decodeArray cap item r = Err CapacityExceeded.
Proof.
  intros Hb Hd Hn Hc Ha. unfold decodeArray, readArrayHeader.
  rewrite (proj2 (enter_iff 4 false r n _ Hb ltac:(lia)) (conj Hn (conj Hd (conj (ex_intro _ _ Ha) eq_refl)))). cbn [rbind].
  by destruct (Z.ltb_spec (Z.of_nat cap) n); [|lia].
Qed.

Lemma bad_hello_fails k v e rest m r :
  bad_hello k v e -> is_bytes (r_in r) -> length (r_stack r) = 1%nat -> ahead r = v ++ rest -> Hello.field k m r = Err e.
Proof.
  intros Hbad Hb Hd Ha. assert (length (r_stack r) < kMaxDepth)%nat as Hlt by (unfold kMaxDepth; lia). destruct m as [m g].
  unfold Hello.field. destruct Hbad as [n Hn Hl|s Hs Hu Hl|s Hs Hu Hl|s Hs Hu Hl|s Hs Hu Hl|s Hs Hu Hl|n Hn Hl|n Hn Hl|n Hn Hl]; switch;
    unfold readTstr, readBstr.
  - rewrite (readUint_at r n rest) by done. cbn [rbind]. by destruct (Z.ltb_spec 0xFF n); [|lia].
  - rewrite (readStr_at 3 r s rest) by (done || lia). cbn [rbind]. by destruct (Nat.ltb_spec kHelloMaxClientKindBytes (length s)); [|lia].
  - rewrite (readStr_at 3 r s rest) by (done || lia). cbn [rbind]. by destruct (Nat.ltb_spec kHelloMaxClientNameBytes (length s)); [|lia].
  - rewrite (readStr_at 2 r s rest) by (done || lia). cbn [rbind]. by destruct (Nat.eqb_spec (length s) limits.instance_id_bytes).
  - rewrite (readStr_at 2 r s rest) by (done || lia). cbn [rbind]. by destruct (Nat.eqb_spec (length s) limits.token_bytes).
  - rewrite (readStr_at 2 r s rest) by (done || lia). cbn [rbind]. by destruct (Nat.eqb_spec (length s) limits.etag_bytes).
  - by rewrite (array_over_cap kHelloMaxSubscriptionWishes _ n r rest).
  - by rewrite (array_over_cap kHelloMaxPublishWishes _ n r rest).
  - rewrite (readUint_at r n rest) by done. cbn [rbind]. by destruct (Z.ltb_spec 0xFFFFFFFF n); [|lia].
Qed.

(** The mandatory keys of HELLO, by the flags the decoder keeps. *)
Lemma got_keys m (flag : Hello.Got -> bool) k es s :
  Forall (fun e => forall s, flag (e_eff e s).2 = flag s.2 || (e_key e =? k)) (Hello.entries m) ->
  sublist es (Hello.entries m) -> flag (effects es s).2 = flag s.2 || bool_decide (k ∈ (e_key <$> es)).
Proof.
  intros Hf Hsub. assert (Forall (fun e => forall s, flag (e_eff e s).2 = flag s.2 || (e_key e =? k)) es) as He.
  { apply Forall_forall. intros x Hx. rewrite Forall_forall in Hf. apply Hf. by eapply elem_of_sublist. }
  clear Hf Hsub. revert s. induction He as [|x es Hx _ IH]; intros s.
  - cbn. by rewrite orb_false_r.
  - rewrite effects_cons, IH, Hx. cbn [fmap list_fmap]. rewrite <- orb_assoc. f_equal.
    destruct (Z.eqb_spec (e_key x) k) as [->|Hne]; cbn [orb].
    + symmetry. apply bool_decide_eq_true. apply list_elem_of_here.
    + apply bool_decide_ext. rewrite elem_of_cons. naive_solver.
Qed.

Ltac each_flag :=
  unfold Hello.entries; rewrite !Forall_cons, !Forall_app; split_and!; try apply List.Forall_nil; try (apply Forall_opt; intros _);
  intros [? []]; cbn; unfold constant; rewrite ?orb_true_r, ?orb_false_r; reflexivity.

Lemma got_mandatory m es s :
  sublist es (Hello.entries m) ->
  Hello.gotAll (effects es (s, Hello.gotNone)).2 =
  forallb (fun k => bool_decide (k ∈ (e_key <$> es))) [CborKey.proto_ver; CborKey.client_kind; CborKey.client_name; CborKey.instance_id].
Proof.
  intros Hsub. unfold Hello.gotAll. cbn [forallb]. rewrite andb_true_r, !andb_assoc.
  rewrite (got_keys m Hello.gotProtoVer CborKey.proto_ver), (got_keys m Hello.gotKind CborKey.client_kind),
    (got_keys m Hello.gotName CborKey.client_name), (got_keys m Hello.gotInstance CborKey.instance_id); try exact Hsub; [done|each_flag..].
Qed.

(** * Properties *)

Lemma ascending_snoc o ks k : ascending o ks -> (match o with Some l => l < k | None => True end) -> Forall (fun x => x < k) ks ->
  ascending o (ks ++ [k]).
Proof.
  intros Ha Ho Hk. revert o Ha Ho. induction Hk as [|x ks Hx _ IH]; intros o Ha Ho; cbn in *; [done|]. destruct Ha as [? ?]. split; [done|]. by apply IH.
Qed.

Lemma bad_hello_bytes k v e : bad_hello k v e -> is_u64 k /\ is_bytes v.
Proof.
  intros []; (split; [done|]); unfold is_u64, is_u32 in *; try (apply Forall_app; split; [|done]); apply is_bytes_head; lia.
Qed.

(** C31. Whatever bytes arrive, a handshake message that is accepted is one its
    encoder could have sent: lengths and counts within the caps, numbers within
    the widths of their C++ fields, absent optionals at their defaults, roles of
    GRANT at most configure. (A trust or identity map that is present but empty
    counts as absent.) *)
Theorem handshake_accepts_sendable (s : bytes) :
  is_bytes s ->
  (forall m, Hello.decodeHello s = Ok m -> Hello.sendable (normal_hello m)) /\
  (forall m, Welcome.decodeWelcome s = Ok m -> Welcome.sendable (normal_welcome m)) /\
  (forall m, GrantMsg.decodeGrant s = Ok m -> GrantMsg.sendable m) /\
  (forall m, Subscribe.decodeSubscribe s = Ok m -> Subscribe.sendable m) /\
  (forall m, Unsubscribe.decodeUnsubscribe s = Ok m -> Unsubscribe.sendable m) /\
  (forall m, Publish.decodePublish s = Ok m -> Publish.sendable m) /\
  (forall m, Envelope.decodeTrustEnvelope s = Ok m -> TrustMap.wf (Envelope.trust_map m)) /\
  (forall m, PairReq.decodePairReq s = Ok m -> PairReq.sendable m) /\
  (forall m, PairGrant.decodePairGrant s = Ok m -> PairGrant.sendable (normal_pair_grant m)).
Proof.
  intros Hb. split_and!; intros m E;
    [by apply (hello_accepts s)|by apply (welcome_accepts s)|by apply (grant_msg_accepts s)|by apply (subscribe_accepts s)
    |by apply (unsubscribe_accepts s)|by apply (publish_accepts s)|by apply (envelope_accepts s)|by apply (pair_req_accepts s)
    |by apply (pair_grant_accepts s)].
Qed.

Lemma handshake_accepts_sendable_witness :
  GrantMsg.decodeGrant [0xA2; 23; 2; 0x18; 35; 0x81; 0xA3; 13; 3; 14; 0xFA; 0x41; 0x20; 0; 0; 15; 7] =
    Ok (GrantMsg.mk true 2 [Grant.mk 7 1092616192 3] []) /\
  GrantMsg.sendable (GrantMsg.mk true 2 [Grant.mk 7 1092616192 3] []).
Proof.
  assert (GrantMsg.decodeGrant [0xA2; 23; 2; 0x18; 35; 0x81; 0xA3; 13; 3; 14; 0xFA; 0x41; 0x20; 0; 0; 15; 7] =
    Ok (GrantMsg.mk true 2 [Grant.mk 7 1092616192 3] [])) as E by (vm_compute; reflexivity).
  split; [exact E|].
  destruct (handshake_accepts_sendable [0xA2; 23; 2; 0x18; 35; 0x81; 0xA3; 13; 3; 14; 0xFA; 0x41; 0x20; 0; 0; 15; 7]) as (_ & _ & H & _);
    [apply (bool_decide_unpack _); vm_compute; exact I|]. apply H, E.
Defined.

(** C32. HELLO's error paths. Of the entries of a well-formed HELLO, any
    selection decodes exactly when it holds the four mandatory keys and is
    MALFORMED otherwise; and after any selection of entries, a pair whose value
    is out of range, of the wrong length or over its cap ([bad_hello]) makes the
    decoder return that error, whatever the rest of the frame holds. *)
Theorem hello_errors (m : Hello.t) (es : list (Entry (Hello.t * Hello.Got))) :
  Hello.sendable m -> sublist es (Hello.entries m) ->
  Hello.decodeHello (map_bytes es) =
    (if forallb (fun k => bool_decide (k ∈ (e_key <$> es))) [CborKey.proto_ver; CborKey.client_kind; CborKey.client_name; CborKey.instance_id]
     then Ok (effects es (Hello.none, Hello.gotNone)).1 else Err Malformed) /\
  (forall k v e n rest, bad_hello k v e -> Forall (fun x => x < k) (e_key <$> es) -> is_bytes rest -> is_u32 n -> Z.of_nat (length es) < n ->
   Hello.decodeHello (head_bytes 5 n ++ concat (entry_bytes <$> es) ++ head_bytes 0 k ++ v ++ rest) = Err e).
Proof.
  intros Hs Hsub. destruct (Hello.hello_entries_shape m) as (Hn & Ha & _). pose proof (Hello.hello_entries_good m Hs) as Hg.
  assert (Forall (good Hello.field 1) es) as Hges.
  { apply Forall_forall. intros x Hx. rewrite Forall_forall in Hg. apply Hg. by eapply elem_of_sublist. }
  assert (ascending None (e_key <$> es)) as Haes by (eapply ascending_sublist; [by apply keys_sublist|done]).
  assert (is_u32 (Z.of_nat (length es))) as Hnes by (apply sublist_length in Hsub; unfold is_u32 in *; lia).
  split.
  - unfold Hello.decodeHello. destruct (decode_entries Hello.field es Hnes Hges Haes (Hello.none, Hello.gotNone)) as [r ->]. cbn [rbind].
    pose proof (got_mandatory m es Hello.none Hsub) as Hgot. destruct (effects es (Hello.none, Hello.gotNone)) as [x g]. cbn [snd fst] in *.
    rewrite <- Hgot. by destruct (Hello.gotAll g).
  - intros k v e n rest Hbad Hlt Hrest Hcnt Hlen. destruct (bad_hello_bytes k v e Hbad) as [Hk Hv]. unfold Hello.decodeHello.
    rewrite (decode_fails Hello.field k v rest e Hk); try done.
    + intros x r Hbr Hd Hah. by eapply bad_hello_fails.
    + by apply ascending_snoc.
    + apply Forall_app. done.
Qed.

Lemma hello_errors_witness :
  Hello.decodeHello (map_bytes (take 3 (Hello.entries a_hello))) = Err Malformed /\
  Hello.decodeHello (head_bytes 5 9 ++ concat (entry_bytes <$> take 3 (Hello.entries a_hello)) ++ head_bytes 0 10 ++ head_bytes 4 17 ++ [0xFF])
    = Err CapacityExceeded.
Proof.
  destruct (hello_errors a_hello (take 3 (Hello.entries a_hello)) a_hello_sendable) as [-> H]; [apply sublist_take|]. split; [reflexivity|].
  apply (H CborKey.subscriptions (head_bytes 4 17) CapacityExceeded 9 [0xFF]).
  - apply bad_subscriptions; [done|]. vm_compute. reflexivity.
  - repeat (apply Forall_cons; split; [reflexivity|]). apply List.Forall_nil.
  - apply (bool_decide_unpack _). vm_compute. exact I.
  - done.
  - vm_compute. reflexivity.
Defined.
