(* ===== verification/Catalog.v ===== *)
(** * Catalog: the self-description of a hub

    channel/catalog.hpp: the channel entries, the fields of their payloads, and
    the fixed-capacity catalog whose entries own slices of shared pools. Of each
    pool and of the entry array the used prefix is kept (a slot is written as a
    whole when it enters the prefix), so a use counter is the length of its list;
    the capacities are the template arguments, which fit a [uint16_t]. An
    [initializer_list] is a list, a pointer to a stored entry is its index, and a
    [float] is its bit pattern.

    The contract is [contents]: the list of entries, each with its payload and
    the label texts the payload refers to. Every authoring operation either adds
    exactly what it was given at the end of it or latches [overflow]. *)

From S2P Require Import Prelude Registry Float Codec.
Local Open Scope Z_scope.

(** ** Annotation values *)

(** The tagged union of a factory value. *)
Inductive SettingDefault : Set :=
| DNone | DInt (i : Z) | DFloat (f : Z) | DBool (b : bool) | DTstr (s : bytes).

Module SettingDefault.
Definition has (d : SettingDefault) : bool := match d with DNone => false | _ => true end.

(** [operator==]: a float is compared as a number. *)
Definition eqb (a b : SettingDefault) : bool :=
  match a, b with
  | DNone, DNone => true
  | DInt i, DInt j => i =? j
  | DFloat f, DFloat g => Float32.eq (Float32.of_bits f) (Float32.of_bits g)
  | DBool x, DBool y => Bool.eqb x y
  | DTstr s, DTstr t => bool_decide (s = t)
  | _, _ => false
  end.
End SettingDefault.

(** A slice of the label pool; [count = 0] is absent. *)
Module LabelRef.
Record t := mk { offset : Z; count : nat }.
Definition kNone : Z := 0xFFFF.
Definition kMaxCount : nat := 255.
Definition none : t := mk kNone 0.
Definition empty (r : t) : bool := (count r =? 0)%nat.
Definition start (r : t) : nat := Z.to_nat (offset r).
End LabelRef.

(** ** Fields *)

Module LayoutField.
Record t := mk {
  name : bytes; type : PackedFieldType.t; unit : bytes; scale : Z; hasMin : bool; hasMax : bool;
  min : Z; max : Z; bits : LabelRef.t; options : LabelRef.t; dflt : SettingDefault; group : bytes;
  desc : bytes; role : bytes; step : Z; settingKey : Z; flags : Z; hasSettingKey : bool; hasStep : bool;
  hasRank : bool; rank : Z; hasAspect : bool; aspect : Z; hasScope : bool; scope : Z;
  hasProvenance : bool; provenance : Z; hasUnitId : bool; unitId : Z }.

Definition init : t :=
  mk [] PackedFieldType.u8 [] 0x3F800000 false false 0 0 LabelRef.none LabelRef.none DNone [] [] [] 0 0 0
    false false false 0 false 0 false 0 false 0 false 0.

Definition wireSize (f : t) : nat :=
  match type f with
  | PackedFieldType.u8 | PackedFieldType.i8 | PackedFieldType.bitfield8 => 1
  | PackedFieldType.u16 | PackedFieldType.i16 => 2
  | PackedFieldType.u32 | PackedFieldType.i32 | PackedFieldType.f32 => 4
  | PackedFieldType.str16 => 16
  | PackedFieldType.str32 => 32
  | PackedFieldType.str64 => 64
  end.

Definition isString (f : t) : bool :=
  match type f with PackedFieldType.str16 | PackedFieldType.str32 | PackedFieldType.str64 => true | _ => false end.
End LayoutField.

Module CborFieldType.
Inductive t : Set := uint_t | int_t | f32_t | bool_t | tstr_t | bstr_t.

Definition to_u8 (c : t) : Z :=
  match c with uint_t => 0 | int_t => 1 | f32_t => 2 | bool_t => 3 | tstr_t => 4 | bstr_t => 5 end.
End CborFieldType.

Module SchemaField.
Record t := mk {
  key : Z; name : bytes; type : CborFieldType.t; unit : bytes; hasMin : bool; hasMax : bool;
  min : Z; max : Z; dflt : SettingDefault; options : LabelRef.t; group : bytes; desc : bytes; role : bytes;
  step : Z; flags : Z; access : AccessLevel; hasAccess : bool; hasStep : bool; hasOptionAccess : bool;
  hasRank : bool; rank : Z; hasAspect : bool; aspect : Z; hasScope : bool; scope : Z;
  hasProvenance : bool; provenance : Z; hasUnitId : bool; unitId : Z }.

Definition init : t :=
  mk 0 [] CborFieldType.uint_t [] false false 0 0 DNone LabelRef.none [] [] [] 0 0 watch false false false
    false 0 false 0 false 0 false 0 false 0.
End SchemaField.

Module StoreDescriptor.
Record t := mk { storeId : Z; kind : bytes; capacity : Z; perItemMax : Z; nameMax : Z }.
Definition init : t := mk 0 [] 0 0 0.
End StoreDescriptor.

(** ** Entries *)

Inductive Direction : Set := h2c | c2h.
#[global] Instance Direction_eq_dec : EqDecision Direction.
Proof. solve_decision. Defined.
Definition direction_u8 (d : Direction) : Z := match d with h2c => 0 | c2h => 1 end.

Inductive FieldForm : Set := Layout | Schema | Store.

Module CatalogEntry.
Record t := mk {
  id : Z; name : bytes; cls : ChannelClass; dir : Direction; access : AccessLevel; maxRateHz : Z;
  defaultPriority : Priority; fieldCount : nat; fieldOffset : nat; hasCategory : bool; category : Z;
  categoryLabel : bytes; hasReplayDepth : bool; replayDepth : Z; hasSettingChannel : bool;
  settingChannel : Z; streamKind : Z; hasRank : bool; rank : Z }.

Definition init : t := mk 0 [] STATE h2c watch 0 normal 0 0 false 0 [] false 0 false 0 0 false 0.

Definition kMaxFields : nat := 64.

Definition form (e : t) : FieldForm :=
  match cls e with STATE | STREAM => Layout | INTENT | EVENT => Schema | STORE => Store end.

Definition usesLayout (e : t) : bool := match form e with Layout => true | _ => false end.
Definition usesSchema (e : t) : bool := match form e with Schema => true | _ => false end.
Definition usesStore (e : t) : bool := match form e with Store => true | _ => false end.
End CatalogEntry.

Definition layoutWireSize (fields : list LayoutField.t) : nat := foldl (fun s f => (s + LayoutField.wireSize f)%nat) 0%nat fields.

(** ** The catalog *)

Record BasicCatalog := mkCatalog {
  entries : list CatalogEntry.t; layoutPool : list LayoutField.t; schemaPool : list SchemaField.t;
  storePool : list StoreDescriptor.t; labelPool : list bytes; labelAccessPool : list AccessLevel;
  overflow : bool }.

Definition emptyCatalog : BasicCatalog := mkCatalog [] [] [] [] [] [] false.

Definition ok (c : BasicCatalog) : bool := negb (overflow c).

Definition clear (c : BasicCatalog) : BasicCatalog := emptyCatalog.

Definition count (c : BasicCatalog) : nat := length (entries c).
Definition layoutUsed (c : BasicCatalog) : nat := length (layoutPool c).
Definition schemaUsed (c : BasicCatalog) : nat := length (schemaPool c).
Definition labelUsed (c : BasicCatalog) : nat := length (labelPool c).
Definition storeUsed (c : BasicCatalog) : nat := length (storePool c).

(** *** Access *)

Definition find (id : Z) (c : BasicCatalog) : option CatalogEntry.t :=
  i ← find_index (fun e => CatalogEntry.id e =? id) (entries c); entries c !! i.

(** A span over a pool: empty unless it resolves inside the used part. *)
Definition slice {A} (pool : list A) (off n : nat) : list A :=
  if (length pool <? off + n)%nat then [] else take n (drop off pool).

Definition layoutFields (e : CatalogEntry.t) (c : BasicCatalog) : list LayoutField.t :=
  if negb (CatalogEntry.usesLayout e) then []
  else slice (layoutPool c) (CatalogEntry.fieldOffset e) (CatalogEntry.fieldCount e).

Definition schemaFields (e : CatalogEntry.t) (c : BasicCatalog) : list SchemaField.t :=
  if negb (CatalogEntry.usesSchema e) then []
  else slice (schemaPool c) (CatalogEntry.fieldOffset e) (CatalogEntry.fieldCount e).

Definition storeDescriptor (e : CatalogEntry.t) (c : BasicCatalog) : option StoreDescriptor.t :=
  if negb (CatalogEntry.usesStore e) || negb (CatalogEntry.fieldCount e =? 1)%nat then None
  else if (storeUsed c <? CatalogEntry.fieldOffset e + 1)%nat then None
  else storePool c !! CatalogEntry.fieldOffset e.

Definition labels (ref : LabelRef.t) (c : BasicCatalog) : list bytes :=
  if LabelRef.empty ref then [] else slice (labelPool c) (LabelRef.start ref) (LabelRef.count ref).

Definition labelAccess (ref : LabelRef.t) (c : BasicCatalog) : list AccessLevel :=
  if LabelRef.empty ref then [] else slice (labelAccessPool c) (LabelRef.start ref) (LabelRef.count ref).

Definition bitLabels (f : LayoutField.t) (c : BasicCatalog) : list bytes := labels (LayoutField.bits f) c.
Definition optionLabels (f : LayoutField.t) (c : BasicCatalog) : list bytes := labels (LayoutField.options f) c.
Definition schemaOptionLabels (f : SchemaField.t) (c : BasicCatalog) : list bytes := labels (SchemaField.options f) c.
Definition optionAccess (f : SchemaField.t) (c : BasicCatalog) : list AccessLevel :=
  if negb (SchemaField.hasOptionAccess f) then [] else labelAccess (SchemaField.options f) c.

Definition entryWireSize (e : CatalogEntry.t) (c : BasicCatalog) : nat := layoutWireSize (layoutFields e c).

Definition isSegmentClass (e : CatalogEntry.t) : bool :=
  bool_decide (CatalogEntry.cls e = STREAM) && (CatalogEntry.streamKind e =? stream_kinds.segments).

(** *** Authoring *)

Section BasicCatalog.
Variables Entries LayoutFields SchemaFields Labels Stores : nat.

Implicit Types c : BasicCatalog.

Definition fails c : bool * BasicCatalog := (false, c{{overflow := true}}).

Definition addEntry (header : CatalogEntry.t) c : option nat * BasicCatalog :=
  if (Entries <=? count c)%nat then (None, c{{overflow := true}})
  else
    let off :=
      match CatalogEntry.form header with
      | Layout => layoutUsed c | Schema => schemaUsed c | Store => storeUsed c
      end in
    let header := header{{CatalogEntry.fieldCount := 0%nat; CatalogEntry.fieldOffset := off}} in
    (Some (count c), c{{entries := entries c ++ [header] }}).

(** [++e.fieldCount] on the most recent entry. *)
Definition setLastCount (n : nat) c : BasicCatalog :=
  c{{entries := alter (fun e => e{{CatalogEntry.fieldCount := n}}) (count c - 1)%nat (entries c)}}.

Definition addLayoutField (f : LayoutField.t) c : bool * BasicCatalog :=
  match last (entries c) with
  | None => fails c
  | Some e =>
      if (LayoutFields <=? layoutUsed c)%nat then fails c
      else if negb (CatalogEntry.usesLayout e)
              || negb (CatalogEntry.fieldOffset e + CatalogEntry.fieldCount e =? layoutUsed c)%nat then fails c
      else if (CatalogEntry.kMaxFields <=? CatalogEntry.fieldCount e)%nat then fails c
      else (true, setLastCount (S (CatalogEntry.fieldCount e)) (c{{layoutPool := layoutPool c ++ [f] }}))
  end.

Definition addSchemaField (f : SchemaField.t) c : bool * BasicCatalog :=
  match last (entries c) with
  | None => fails c
  | Some e =>
      if (SchemaFields <=? schemaUsed c)%nat then fails c
      else if negb (CatalogEntry.usesSchema e)
              || negb (CatalogEntry.fieldOffset e + CatalogEntry.fieldCount e =? schemaUsed c)%nat then fails c
      else if (CatalogEntry.kMaxFields <=? CatalogEntry.fieldCount e)%nat then fails c
      else (true, setLastCount (S (CatalogEntry.fieldCount e)) (c{{schemaPool := schemaPool c ++ [f] }}))
  end.

Definition addStoreDescriptor (d : StoreDescriptor.t) c : bool * BasicCatalog :=
  match last (entries c) with
  | None => fails c
  | Some e =>
      if (Stores <=? storeUsed c)%nat then fails c
      else if negb (CatalogEntry.usesStore e) || negb (CatalogEntry.fieldCount e =? 0)%nat
              || negb (CatalogEntry.fieldOffset e =? storeUsed c)%nat then fails c
      else (true, setLastCount 1 (c{{storePool := storePool c ++ [d] }}))
  end.

(** *** The low-level pools *)

Definition poolAddLayoutField (f : LayoutField.t) c : bool * BasicCatalog :=
  if (LayoutFields <=? layoutUsed c)%nat then fails c else (true, c{{layoutPool := layoutPool c ++ [f] }}).

Definition poolAddSchemaField (f : SchemaField.t) c : bool * BasicCatalog :=
  if (SchemaFields <=? schemaUsed c)%nat then fails c else (true, c{{schemaPool := schemaPool c ++ [f] }}).

Definition poolAddStore (d : StoreDescriptor.t) c : bool * BasicCatalog :=
  if (Stores <=? storeUsed c)%nat then fails c else (true, c{{storePool := storePool c ++ [d] }}).

Definition poolAddLabel (s : bytes) (a : AccessLevel) c : bool * BasicCatalog :=
  if (Labels <=? labelUsed c)%nat then fails c
  else (true, c{{labelAccessPool := labelAccessPool c ++ [a]; labelPool := labelPool c ++ [s] }}).

Definition poolSetLabelAccess (index : nat) (a : AccessLevel) c : bool * BasicCatalog :=
  if (labelUsed c <=? index)%nat then fails c
  else (true, c{{labelAccessPool := <[index := a]> (labelAccessPool c)}}).

Definition addEntryVerbatim (e : CatalogEntry.t) c : bool * BasicCatalog :=
  if (Entries <=? count c)%nat then fails c else (true, c{{entries := entries c ++ [e] }}).

(** *** Labels *)

(** A loop whose body may return [false] early. *)
Fixpoint each {A} (body : A -> BasicCatalog -> bool * BasicCatalog) (l : list A) c : bool * BasicCatalog :=
  match l with
  | [] => (true, c)
  | x :: l => match body x c with (false, c) => (false, c) | (true, c) => each body l c end
  end.

Definition checkOptionLabels (options : list bytes) c : bool * BasicCatalog :=
  each (fun o c => if bool_decide (o = []) then fails c else (true, c)) options c.

(** [while (n > 0 && p[n - 1].empty()) --n;] *)
Fixpoint trimmedLength (labels : list bytes) (n : nat) : nat :=
  match n with
  | O => O
  | S n' => match labels !! n' with Some [] => trimmedLength labels n' | _ => n end
  end.

(** [None] is a [false] return, which leaves the caller's reference as it was. *)
Definition internLabels (labels : list bytes) (maxCount : nat) c : option LabelRef.t * BasicCatalog :=
  let n := trimmedLength labels (length labels) in
  if (n =? 0)%nat then (Some LabelRef.none, c)
  else if (maxCount <? n)%nat then (None, c{{overflow := true}})
  else
    let mark := labelUsed c in
    match each (fun s => poolAddLabel s watch) (take n labels) c with
    | (false, c) => (None, c)
    | (true, c) => (Some (LabelRef.mk (Z.of_nat mark) n), c)
    end.

Definition addBitfieldField (f : LayoutField.t) (bits : list bytes) c : bool * BasicCatalog :=
  match internLabels bits 8 c with
  | (None, c) => (false, c)
  | (Some ref, c) => addLayoutField (f{{LayoutField.bits := ref}}) c
  end.

Definition addSelectField (f : LayoutField.t) (options : list bytes) c : bool * BasicCatalog :=
  match checkOptionLabels options c with
  | (false, c) => (false, c)
  | (true, c) =>
      match internLabels options LabelRef.kMaxCount c with
      | (None, c) => (false, c)
      | (Some ref, c) => addLayoutField (f{{LayoutField.options := ref}}) c
      end
  end.

Definition addSelectSchemaField (f : SchemaField.t) (options : list bytes) (optionAccess : list AccessLevel) c :
    bool * BasicCatalog :=
  if negb (length optionAccess =? 0)%nat && negb (length optionAccess =? length options)%nat then fails c
  else
    match checkOptionLabels options c with
    | (false, c) => (false, c)
    | (true, c) =>
        match internLabels options LabelRef.kMaxCount c with
        | (None, c) => (false, c)
        | (Some ref, c) =>
            let f := f{{SchemaField.options := ref}} in
            if negb (length optionAccess =? 0)%nat then
              let pool := write_at (LabelRef.start ref) (take (LabelRef.count ref) optionAccess) (labelAccessPool c) in
              addSchemaField (f{{SchemaField.hasOptionAccess := true}}) (c{{labelAccessPool := pool}})
            else addSchemaField f c
        end
    end.

(** *** Copying an entry out of another catalog *)

Definition reintern (src : BasicCatalog) (ref : LabelRef.t) c : option LabelRef.t * BasicCatalog :=
  if LabelRef.empty ref then (Some LabelRef.none, c)
  else
    let text := labels ref src in
    let acc := labelAccess ref src in
    if negb (length text =? LabelRef.count ref)%nat then (None, c)
    else
      let mark := labelUsed c in
      match each (fun i => poolAddLabel (nth i text []) (nth i acc watch)) (seq 0 (length text)) c with
      | (false, c) => (None, c)
      | (true, c) => (Some (LabelRef.mk (Z.of_nat mark) (LabelRef.count ref)), c)
      end.

Definition copyLayoutField (src : BasicCatalog) (f : LayoutField.t) c : bool * BasicCatalog :=
  match reintern src (LayoutField.bits f) c with
  | (None, c) => (false, c)
  | (Some bits, c) =>
      match reintern src (LayoutField.options f) c with
      | (None, c) => (false, c)
      | (Some options, c) => addLayoutField (f{{LayoutField.bits := bits; LayoutField.options := options}}) c
      end
  end.

Definition copySchemaField (src : BasicCatalog) (f : SchemaField.t) c : bool * BasicCatalog :=
  match reintern src (SchemaField.options f) c with
  | (None, c) => (false, c)
  | (Some options, c) => addSchemaField (f{{SchemaField.options := options}}) c
  end.

Definition addEntryFrom (src : BasicCatalog) (e : CatalogEntry.t) c : bool * BasicCatalog :=
  match addEntry e c with
  | (None, c) => (false, c)
  | (Some _, c) =>
      match CatalogEntry.form e with
      | Layout => each (copyLayoutField src) (layoutFields e src) c
      | Schema => each (copySchemaField src) (schemaFields e src) c
      | Store =>
          match storeDescriptor e src with
          | None => (false, c)
          | Some d => addStoreDescriptor d c
          end
      end
  end.
End BasicCatalog.

(** ** The contract: what a catalog says *)

Definition layoutContent (c : BasicCatalog) (f : LayoutField.t) : LayoutField.t * list bytes * list bytes :=
  (f{{LayoutField.bits := LabelRef.none; LayoutField.options := LabelRef.none}}, bitLabels f c, optionLabels f c).

Definition schemaContent (c : BasicCatalog) (f : SchemaField.t) : SchemaField.t * list bytes * list AccessLevel :=
  (f{{SchemaField.options := LabelRef.none}}, schemaOptionLabels f c, optionAccess f c).

Inductive Payload :=
| PLayout (fields : list (LayoutField.t * list bytes * list bytes))
| PSchema (fields : list (SchemaField.t * list bytes * list AccessLevel))
| PStore (d : option StoreDescriptor.t).

Definition payload (c : BasicCatalog) (e : CatalogEntry.t) : Payload :=
  match CatalogEntry.form e with
  | Layout => PLayout (layoutContent c <$> layoutFields e c)
  | Schema => PSchema (schemaContent c <$> schemaFields e c)
  | Store => PStore (storeDescriptor e c)
  end.

(** An entry's own keys, without the place of its payload. *)
Definition header (e : CatalogEntry.t) : CatalogEntry.t :=
  e{{CatalogEntry.fieldCount := 0%nat; CatalogEntry.fieldOffset := 0%nat}}.

Definition entryContent (c : BasicCatalog) (e : CatalogEntry.t) : CatalogEntry.t * Payload := (header e, payload c e).

Definition contents (c : BasicCatalog) : list (CatalogEntry.t * Payload) := entryContent c <$> entries c.

(** * Theorems *)

(** ** Slices of pools that grow *)

Section slices.
Context {A : Type}.
Implicit Types pool : list A.

Lemma slice_prefix pool pool' off n :
  pool `prefix_of` pool' -> (off + n <= length pool)%nat -> slice pool' off n = slice pool off n.
Proof.
  intros [k ->] H. unfold slice. rewrite length_app. case_ifs; try lia.
  rewrite drop_app_le, take_app_le by (rewrite ?length_drop; lia). done.
Qed.

Lemma slice_app_here pool new : slice (pool ++ new) (length pool) (length new) = new.
Proof.
  unfold slice. rewrite length_app. case_ifs; [lia|]. rewrite drop_app_length. apply take_ge. lia.
Qed.

Lemma slice_snoc pool off n x : (off + n = length pool)%nat -> slice (pool ++ [x]) off (S n) = slice pool off n ++ [x].
Proof.
  intros H. unfold slice. rewrite length_app. cbn [length]. case_ifs; try lia.
  rewrite drop_app_le by lia. rewrite (take_ge (drop off pool)) by (rewrite length_drop; lia).
  apply take_ge. rewrite length_app, length_drop. cbn [length]. lia.
Qed.

Lemma slice_0 pool off : slice pool off 0 = [].
Proof. unfold slice. case_ifs; [done|]. apply take_0. Qed.

Lemma length_pool_slice pool off n : (off + n <= length pool)%nat -> length (slice pool off n) = n.
Proof. intros. unfold slice. case_ifs; [lia|]. rewrite length_take, length_drop. lia. Qed.
End slices.

(** ** Well-formedness *)

Definition used (fm : FieldForm) (c : BasicCatalog) : nat :=
  match fm with Layout => layoutUsed c | Schema => schemaUsed c | Store => storeUsed c end.

#[global] Instance FieldForm_eq_dec : EqDecision FieldForm.
Proof. solve_decision. Defined.

(** The slots of a pool the entries own. *)
Definition owned (fm : FieldForm) (es : list CatalogEntry.t) : nat :=
  foldr (fun e n => ((if bool_decide (CatalogEntry.form e = fm) then CatalogEntry.fieldCount e else 0) + n)%nat) 0%nat es.

Definition ref_ok (c : BasicCatalog) (r : LabelRef.t) : Prop :=
  LabelRef.count r = 0%nat \/ (LabelRef.start r + LabelRef.count r <= labelUsed c)%nat.

Definition layout_ok (c : BasicCatalog) (f : LayoutField.t) : Prop :=
  ref_ok c (LayoutField.bits f) /\ ref_ok c (LayoutField.options f).

Definition count_ok (e : CatalogEntry.t) : Prop :=
  (CatalogEntry.fieldCount e <= CatalogEntry.kMaxFields)%nat
  /\ (CatalogEntry.form e = Store -> (CatalogEntry.fieldCount e <= 1)%nat).

(** Each entry's slice starts where the slices of its form before it end, so
    the slices tile the pools; labels resolve. *)
Record wf (c : BasicCatalog) : Prop := {
  wf_access : length (labelAccessPool c) = labelUsed c;
  wf_placed : forall i e, entries c !! i = Some e -> CatalogEntry.fieldOffset e = owned (CatalogEntry.form e) (take i (entries c));
  wf_owned : forall fm, owned fm (entries c) = used fm c;
  wf_counts : Forall count_ok (entries c);
  wf_layout : Forall (layout_ok c) (layoutPool c);
  wf_schema : Forall (fun f => ref_ok c (SchemaField.options f)) (schemaPool c) }.

Lemma owned_app fm es es' : owned fm (es ++ es') = (owned fm es + owned fm es')%nat.
Proof.
  unfold owned. induction es as [|e es IH]; [done|]. cbn [app foldr]. rewrite IH. lia.
Qed.

Lemma owned_cons fm e es :
  owned fm (e :: es) = ((if bool_decide (CatalogEntry.form e = fm) then CatalogEntry.fieldCount e else 0) + owned fm es)%nat.
Proof. done. Qed.

Lemma owned_single fm e : owned fm [e] = if decide (CatalogEntry.form e = fm) then CatalogEntry.fieldCount e else 0%nat.
Proof. rewrite owned_cons, Nat.add_0_r. by case_decide; [rewrite bool_decide_true|rewrite bool_decide_false]. Qed.

Lemma owned_take fm es i : (owned fm (take i es) <= owned fm es)%nat.
Proof. rewrite <- (take_drop i es) at 2. rewrite owned_app. lia. Qed.

(** The slice of an entry ends within its pool. *)
Lemma wf_resolves c e :
  wf c -> e ∈ entries c -> (CatalogEntry.fieldOffset e + CatalogEntry.fieldCount e <= used (CatalogEntry.form e) c)%nat.
Proof.
  intros H [i Hi]%list_elem_of_lookup. rewrite (wf_placed c H i e Hi), <- (wf_owned c H).
  rewrite <- (take_drop_middle (entries c) i e Hi) at 2. rewrite owned_app, owned_cons.
  rewrite bool_decide_true by done. lia.
Qed.

(** ** Growth of the pools leaves the contents alone *)

Record grows (c c' : BasicCatalog) : Prop := {
  g_layout : layoutPool c `prefix_of` layoutPool c';
  g_schema : schemaPool c `prefix_of` schemaPool c';
  g_store : storePool c `prefix_of` storePool c';
  g_label : labelPool c `prefix_of` labelPool c';
  g_access : labelAccessPool c `prefix_of` labelAccessPool c' }.

#[global] Instance grows_preorder : PreOrder grows.
Proof.
  split.
  - by intros c.
  - intros a b c [] []. constructor; by etrans.
Qed.

Lemma labels_grow c c' r : grows c c' -> ref_ok c r -> labels r c' = labels r c.
Proof.
  intros G [H|H]; unfold labels, LabelRef.empty.
  - by rewrite H.
  - case_ifs; [done|]. by apply slice_prefix; [apply G|].
Qed.

Lemma labelAccess_grow c c' r : wf c -> grows c c' -> ref_ok c r -> labelAccess r c' = labelAccess r c.
Proof.
  intros W G [H|H]; unfold labelAccess, LabelRef.empty.
  - by rewrite H.
  - case_ifs; [done|]. apply slice_prefix; [apply G|]. by rewrite (wf_access c W).
Qed.

Lemma layoutContent_grow c c' f : grows c c' -> layout_ok c f -> layoutContent c' f = layoutContent c f.
Proof. intros G [Hb Ho]. unfold layoutContent, bitLabels, optionLabels. by rewrite !(labels_grow c c'). Qed.

Lemma schemaContent_grow c c' f :
  wf c -> grows c c' -> ref_ok c (SchemaField.options f) -> schemaContent c' f = schemaContent c f.
Proof.
  intros W G H. unfold schemaContent, schemaOptionLabels, optionAccess.
  by rewrite (labels_grow c c'), (labelAccess_grow c c') by done.
Qed.

Lemma Forall_slice {A} (P : A -> Prop) pool off n : Forall P pool -> Forall P (slice pool off n).
Proof. intros. unfold slice. case_ifs; [done|]. by apply Forall_take, Forall_drop. Qed.

Lemma payload_grow c c' e : wf c -> grows c c' -> e ∈ entries c -> payload c' e = payload c e.
Proof.
  intros W G He. pose proof (wf_resolves c e W He) as Hr.
  unfold payload, layoutFields, schemaFields, storeDescriptor, CatalogEntry.usesLayout, CatalogEntry.usesSchema,
    CatalogEntry.usesStore, used in *.
  destruct (CatalogEntry.form e) eqn:Hf; cbn [negb orb].
  - f_equal. rewrite (slice_prefix (layoutPool c)) by (done || apply G).
    apply Forall_fmap_ext_1. apply Forall_slice. eapply Forall_impl; [apply (wf_layout c W)|].
    intros f Hok. by apply layoutContent_grow.
  - f_equal. rewrite (slice_prefix (schemaPool c)) by (done || apply G).
    apply Forall_fmap_ext_1. apply Forall_slice. eapply Forall_impl; [apply (wf_schema c W)|].
    intros f Hok. by apply schemaContent_grow.
  - f_equal. destruct (Nat.eqb_spec (CatalogEntry.fieldCount e) 1) as [H1|]; [|done]. cbn [negb].
    destruct (g_store c c' G) as [k Hk]. unfold storeUsed in *. rewrite Hk, length_app. case_ifs; try lia.
    apply lookup_app_l. lia.
Qed.

Lemma contents_grow c c' (es : list CatalogEntry.t) :
  wf c -> grows c c' -> (forall e, e ∈ es -> e ∈ entries c) -> entryContent c' <$> es = entryContent c <$> es.
Proof.
  intros W G H. apply Forall_fmap_ext_1, Forall_forall. intros e He. unfold entryContent.
  f_equal. by apply payload_grow; [..|apply H].
Qed.

(** ** Only labels added, or only the flag latched *)

Definition more (c : BasicCatalog) (ls : list bytes) (acc : list AccessLevel) (o : bool) : BasicCatalog :=
  mkCatalog (entries c) (layoutPool c) (schemaPool c) (storePool c) (labelPool c ++ ls) (labelAccessPool c ++ acc) o.

Lemma ref_ok_grow c c' r : grows c c' -> ref_ok c r -> ref_ok c' r.
Proof.
  intros G [H|H]; [by left|right]. destruct (g_label c c' G) as [k Hk]. unfold labelUsed in *. rewrite Hk, length_app. lia.
Qed.

Lemma more_grows c ls acc o : grows c (more c ls acc o).
Proof. constructor; cbn; by (reflexivity || apply prefix_app_r). Qed.

Lemma wf_more c ls acc o : wf c -> length acc = length ls -> wf (more c ls acc o).
Proof.
  intros W Hl. pose proof (more_grows c ls acc o) as G. destruct W as [Wa Wp Wo Wc Wl Ws]. constructor; try done.
  - unfold labelUsed in *. cbn. rewrite !length_app. lia.
  - eapply Forall_impl; [apply Wl|]. intros f [? ?]. split; by eapply ref_ok_grow.
  - eapply Forall_impl; [apply Ws|]. intros f ?. by eapply ref_ok_grow.
Qed.

Lemma contents_more c ls acc o : wf c -> contents (more c ls acc o) = contents c.
Proof. intros W. apply contents_grow; [done|apply more_grows|done]. Qed.

Lemma more_nil c : more c [] [] (overflow c) = c.
Proof. destruct c. unfold more. cbn. by rewrite !app_nil_r. Qed.

Lemma more_flag c : more c [] [] true = c{{overflow := true}}.
Proof. destruct c. unfold more. cbn. by rewrite !app_nil_r. Qed.

Lemma more_more c ls acc o ls' acc' o' : more (more c ls acc o) ls' acc' o' = more c (ls ++ ls') (acc ++ acc') o'.
Proof. unfold more. cbn. by rewrite <- !app_assoc. Qed.

(** ** The most recent entry *)

Definition on_last {A} (f : A -> A) (l : list A) : list A := alter f (length l - 1)%nat l.

Lemma on_last_snoc {A} (f : A -> A) l x : on_last f (l ++ [x]) = l ++ [f x].
Proof.
  unfold on_last. rewrite length_app. cbn [length]. replace (length l + 1 - 1)%nat with (length l + 0)%nat by lia.
  by rewrite alter_app_r.
Qed.

Lemma setLastCount_snoc n c es e :
  entries c = es ++ [e] -> entries (setLastCount n c) = es ++ [e{{CatalogEntry.fieldCount := n}}].
Proof. intros H. unfold setLastCount, count. cbn [entries]. rewrite H. apply (on_last_snoc (fun e => e{{CatalogEntry.fieldCount := n}})). Qed.

(** An operation that changes the last entry's count, with its pool. *)
Lemma wf_last c c' es e e' n :
  wf c -> entries c = es ++ [e] -> entries c' = es ++ [e'] -> CatalogEntry.form e' = CatalogEntry.form e ->
  CatalogEntry.fieldOffset e' = CatalogEntry.fieldOffset e ->
  CatalogEntry.fieldCount e' = (CatalogEntry.fieldCount e + n)%nat -> count_ok e' ->
  (forall fm, used fm c' = used fm c + if decide (CatalogEntry.form e = fm) then n else 0)%nat ->
  length (labelAccessPool c') = labelUsed c' ->
  Forall (layout_ok c') (layoutPool c') -> Forall (fun f => ref_ok c' (SchemaField.options f)) (schemaPool c') -> wf c'.
Proof.
  intros W He He' Hf Ho Hn Hc Hu Ha Hl Hs. destruct W as [Wa Wp Wo Wc Wl Ws]. rewrite He in *. constructor; try done.
  - intros i x. rewrite He'. intros Hx. apply lookup_app_Some in Hx as [Hx|[Hi Hx]].
    + pose proof (lookup_lt_Some _ _ _ Hx). rewrite take_app_le by lia. rewrite (Wp i x); [|by apply lookup_app_l_Some].
      by rewrite take_app_le by lia.
    + apply list_lookup_singleton_Some in Hx as [? <-]. rewrite take_app_le by lia. rewrite take_ge by lia.
      rewrite Hf, Ho, (Wp (length es) e); [|by apply list_lookup_middle]. by rewrite take_app_length.
  - intros fm. rewrite He', Hu, <- Wo, !owned_app, !owned_single, Hf, Hn. case_decide; lia.
  - rewrite He'. apply Forall_app in Wc as [? _]. apply Forall_app. split; [done|]. by apply Forall_singleton.
Qed.

Lemma contents_last c c' es e e' :
  wf c -> grows c c' -> entries c = es ++ [e] -> entries c' = es ++ [e'] -> header e' = header e ->
  contents c' = (entryContent c <$> es) ++ [(header e, payload c' e')].
Proof.
  intros W G He He' Hh. unfold contents. rewrite He', fmap_app. cbn. unfold entryContent at 2. rewrite Hh. f_equal.
  apply contents_grow; [done|done|]. intros x Hx. rewrite He. apply elem_of_app. by left.
Qed.

(** ** Attaching payload *)

Definition push_layout (x : LayoutField.t * list bytes * list bytes) (p : Payload) : Payload :=
  match p with PLayout fs => PLayout (fs ++ [x]) | _ => p end.
Definition push_schema (x : SchemaField.t * list bytes * list AccessLevel) (p : Payload) : Payload :=
  match p with PSchema fs => PSchema (fs ++ [x]) | _ => p end.
Definition set_store (d : StoreDescriptor.t) (p : Payload) : Payload :=
  match p with PStore _ => PStore (Some d) | _ => p end.

Definition on_payload (f : Payload -> Payload) (l : list (CatalogEntry.t * Payload)) : list (CatalogEntry.t * Payload) :=
  on_last (fun '(h, p) => (h, f p)) l.

(** The last entry is of the form and has room for another slot. *)
Definition has_room (fm : FieldForm) (max cap : nat) (c : BasicCatalog) : bool :=
  match last (entries c) with
  | None => false
  | Some e => bool_decide (CatalogEntry.form e = fm) && (CatalogEntry.fieldCount e <? max)%nat && (used fm c <? cap)%nat
  end.

(** A slot is attached to the last entry, or the flag is latched. *)
Definition attached (c : BasicCatalog) (f : Payload -> Payload) (fits : bool) (r : bool * BasicCatalog) : Prop :=
  if fits then fst r = true /\ wf (snd r) /\ grows c (snd r) /\ overflow (snd r) = overflow c
               /\ contents (snd r) = on_payload f (contents c)
  else r = (false, c{{overflow := true}}).

Lemma last_tail c es e :
  wf c -> entries c = es ++ [e] -> (CatalogEntry.fieldOffset e + CatalogEntry.fieldCount e = used (CatalogEntry.form e) c)%nat.
Proof.
  intros W He. rewrite <- (wf_owned c W), He, owned_app, owned_single, decide_True by done.
  rewrite (wf_placed c W (length es) e); [|rewrite He; by apply list_lookup_middle].
  by rewrite He, take_app_length.
Qed.

Lemma last_count c es e : wf c -> entries c = es ++ [e] -> count_ok e.
Proof. intros W He. pose proof (wf_counts c W) as H. rewrite He in H. apply Forall_app in H as [_ H]. apply Forall_cons in H as [H _]. exact H. Qed.

Lemma grows_set_count c c' n : grows c c' -> grows c (setLastCount n c').
Proof. intros []. by constructor. Qed.

(** What [has_room] leaves to show of an attachment. *)
Lemma attach c fm max cap (f : Payload -> Payload) (c' : BasicCatalog) :
  wf c -> has_room fm max cap c = true -> (max <= CatalogEntry.kMaxFields)%nat -> (fm = Store -> max = 1%nat) ->
  grows c c' -> entries c' = entries c -> overflow c' = overflow c -> length (labelAccessPool c') = labelUsed c' ->
  (forall fm', used fm' c' = used fm' c + if decide (fm = fm') then 1 else 0)%nat ->
  Forall (layout_ok c') (layoutPool c') -> Forall (fun f => ref_ok c' (SchemaField.options f)) (schemaPool c') ->
  (forall e es n, entries c = es ++ [e] -> CatalogEntry.form e = fm ->
     n = S (CatalogEntry.fieldCount e) -> (CatalogEntry.fieldOffset e + CatalogEntry.fieldCount e = used fm c)%nat ->
     payload (setLastCount n c') (e{{CatalogEntry.fieldCount := n}}) = f (payload c e)) ->
  exists e, last (entries c) = Some e /\ CatalogEntry.form e = fm /\ (CatalogEntry.fieldCount e < max)%nat
    /\ (CatalogEntry.fieldOffset e + CatalogEntry.fieldCount e = used fm c)%nat /\ (used fm c < cap)%nat
    /\ attached c f true (true, setLastCount (S (CatalogEntry.fieldCount e)) c').
Proof.
  intros W Hr Hm Hst G He Ho Ha Hu Hl Hs Hp. unfold has_room in Hr. destruct (last (entries c)) as [e|] eqn:Hlast; [|done].
  apply andb_prop in Hr as [[Hf%bool_decide_eq_true Hn]%andb_prop Hc]. apply Nat.ltb_lt in Hn, Hc.
  apply last_Some in Hlast as [es Hes]. exists e. pose proof (last_tail c es e W Hes) as Ht. rewrite Hf in Ht.
  split_and!; try done. pose proof (setLastCount_snoc (S (CatalogEntry.fieldCount e)) c' es e ltac:(by rewrite He)) as Hes'.
  pose proof (grows_set_count c c' (S (CatalogEntry.fieldCount e)) G) as G'.
  unfold attached. cbn [fst snd]. split_and!; try done.
  - eapply (wf_last c _ es e _ 1); try done.
    + change (S (CatalogEntry.fieldCount e) = CatalogEntry.fieldCount e + 1)%nat. lia.
    + split; [change (S (CatalogEntry.fieldCount e) <= CatalogEntry.kMaxFields)%nat; lia|]. intros Hst'.
      change (CatalogEntry.form e = Store) in Hst'. change (S (CatalogEntry.fieldCount e) <= 1)%nat.
      rewrite Hst' in Hf. specialize (Hst (eq_sym Hf)). lia.
    + intros fm'. rewrite Hf, <- Hu. by destruct fm'.
  - rewrite (contents_last c _ es e _ W G' Hes Hes') by done. unfold contents, on_payload. rewrite Hes, fmap_app.
    cbn [fmap list_fmap]. rewrite on_last_snoc. do 2 f_equal. unfold entryContent. f_equal. by apply (Hp e es).
Qed.

Lemma form_count e n : CatalogEntry.form (e{{CatalogEntry.fieldCount := n}}) = CatalogEntry.form e.
Proof. done. Qed.

Section attach.
Variables Entries LayoutFields SchemaFields Labels Stores : nat.

Lemma addLayoutField_attaches f c :
  wf c -> layout_ok c f ->
  attached c (push_layout (layoutContent c f)) (has_room Layout CatalogEntry.kMaxFields LayoutFields c) (addLayoutField LayoutFields f c).
Proof.
  intros W Hok. set (c' := c{{layoutPool := layoutPool c ++ [f] }}).
  assert (grows c c') as G by (constructor; cbn; by (reflexivity || apply prefix_app_r)).
  destruct (has_room Layout CatalogEntry.kMaxFields LayoutFields c) eqn:Hr.
  - destruct (attach c Layout CatalogEntry.kMaxFields LayoutFields (push_layout (layoutContent c f)) c')
      as (e & Hl & Hf & Hn & Ht & Hc & Hat); try done.
    + apply W.
    + intros []; [apply length_app|symmetry; apply Nat.add_0_r..].
    + apply Forall_app. split; [|by apply Forall_singleton]. apply W.
    + apply W.
    + intros e es n Hes Hf -> Ht. unfold payload, layoutFields, CatalogEntry.usesLayout. rewrite Hf, form_count, Hf. cbn [negb push_layout].
      f_equal. etrans; [|apply (fmap_snoc (layoutContent c))].
      change (layoutContent c <$> slice (layoutPool c ++ [f]) (CatalogEntry.fieldOffset e) (S (CatalogEntry.fieldCount e)) =
        layoutContent c <$> (slice (layoutPool c) (CatalogEntry.fieldOffset e) (CatalogEntry.fieldCount e) ++ [f])).
      by rewrite slice_snoc.
    + unfold addLayoutField. rewrite Hl. unfold CatalogEntry.usesLayout. rewrite Hf. cbn [used] in *. case_ifs; try lia. done.
  - unfold attached, addLayoutField, has_room, CatalogEntry.usesLayout, fails in *. destruct (last (entries c)) as [e|] eqn:Hl; [|done].
    cbn [used] in *. destruct (CatalogEntry.form e) eqn:Hf; cbn [negb orb] in *; case_ifs; try done.
    rewrite bool_decide_true in Hr by done. cbn [andb] in Hr. lia.
Qed.

Lemma addSchemaField_attaches f c :
  wf c -> ref_ok c (SchemaField.options f) ->
  attached c (push_schema (schemaContent c f)) (has_room Schema CatalogEntry.kMaxFields SchemaFields c) (addSchemaField SchemaFields f c).
Proof.
  intros W Hok. set (c' := c{{schemaPool := schemaPool c ++ [f] }}).
  assert (grows c c') as G by (constructor; cbn; by (reflexivity || apply prefix_app_r)).
  destruct (has_room Schema CatalogEntry.kMaxFields SchemaFields c) eqn:Hr.
  - destruct (attach c Schema CatalogEntry.kMaxFields SchemaFields (push_schema (schemaContent c f)) c')
      as (e & Hl & Hf & Hn & Ht & Hc & Hat); try done.
    + apply W.
    + intros []; [symmetry; apply Nat.add_0_r|apply length_app|symmetry; apply Nat.add_0_r].
    + apply W.
    + apply Forall_app. split; [|by apply Forall_singleton]. apply W.
    + intros e es n Hes Hf -> Ht. unfold payload, schemaFields, CatalogEntry.usesSchema. rewrite Hf, form_count, Hf. cbn [negb push_schema].
      f_equal. etrans; [|apply (fmap_snoc (schemaContent c))].
      change (schemaContent c <$> slice (schemaPool c ++ [f]) (CatalogEntry.fieldOffset e) (S (CatalogEntry.fieldCount e)) =
        schemaContent c <$> (slice (schemaPool c) (CatalogEntry.fieldOffset e) (CatalogEntry.fieldCount e) ++ [f])).
      by rewrite slice_snoc.
    + unfold addSchemaField. rewrite Hl. unfold CatalogEntry.usesSchema. rewrite Hf. cbn [used] in *. case_ifs; try lia. done.
  - unfold attached, addSchemaField, has_room, CatalogEntry.usesSchema, fails in *. destruct (last (entries c)) as [e|] eqn:Hl; [|done].
    cbn [used] in *. destruct (CatalogEntry.form e) eqn:Hf; cbn [negb orb] in *; case_ifs; try done.
    rewrite bool_decide_true in Hr by done. cbn [andb] in Hr. lia.
Qed.

Lemma addStoreDescriptor_attaches d c :
  wf c -> attached c (set_store d) (has_room Store 1 Stores c) (addStoreDescriptor Stores d c).
Proof.
  intros W. set (c' := c{{storePool := storePool c ++ [d] }}).
  assert (grows c c') as G by (constructor; cbn; by (reflexivity || apply prefix_app_r)).
  destruct (has_room Store 1 Stores c) eqn:Hr.
  - destruct (attach c Store 1 Stores (set_store d) c') as (e & Hl & Hf & Hn & Ht & Hc & Hat); try done.
    + unfold CatalogEntry.kMaxFields. lia.
    + apply W.
    + intros []; [symmetry; apply Nat.add_0_r..|apply length_app].
    + apply W.
    + apply W.
    + intros e es n Hes Hf -> Ht. assert (CatalogEntry.fieldCount e = 0)%nat as H0.
      { unfold has_room in Hr. rewrite Hes, last_snoc in Hr. lia. }
      unfold payload, storeDescriptor, CatalogEntry.usesStore. rewrite Hf, form_count, Hf, H0. cbn [negb orb set_store].
      change (PStore (if (length (storePool c ++ [d]) <? CatalogEntry.fieldOffset e + 1)%nat then None
                      else (storePool c ++ [d]) !! CatalogEntry.fieldOffset e) = PStore (Some d)).
      unfold used, storeUsed in Ht. rewrite length_app. cbn [length]. case_ifs; [lia|]. f_equal.
      rewrite H0, Nat.add_0_r in Ht. rewrite Ht. by apply list_lookup_middle.
    + unfold addStoreDescriptor. rewrite Hl. unfold CatalogEntry.usesStore. rewrite Hf. cbn [used negb orb] in *.
      assert (CatalogEntry.fieldCount e = 0)%nat as H0 by lia. rewrite H0 in *. case_ifs; try lia. done.
  - unfold attached, addStoreDescriptor, has_room, CatalogEntry.usesStore, fails in *. destruct (last (entries c)) as [e|] eqn:Hl; [|done].
    cbn [used] in *. destruct (CatalogEntry.form e) eqn:Hf; cbn [negb orb] in *; case_ifs; try done.
    rewrite bool_decide_true in Hr by done. cbn [andb] in Hr. lia.
Qed.
End attach.

(** ** Interning labels *)

Section labels.
Variables Entries LayoutFields SchemaFields Labels Stores : nat.

Definition labels_fit (n : nat) c : bool := (n =? 0)%nat || (labelUsed c + n <=? Labels)%nat.

Lemma fmap_nth_seq {A} (l : list A) (d : A) : (fun i => nth i l d) <$> seq 0 (length l) = l.
Proof.
  apply list_eq. intros i. rewrite list_lookup_fmap. destruct (decide (i < length l)%nat) as [H|H].
  - rewrite lookup_seq_lt by done. destruct (lookup_lt_is_Some_2 l i H) as [x Hx]. cbn. rewrite Hx. f_equal.
    by apply nth_lookup_Some.
  - rewrite lookup_seq_ge by lia. cbn. symmetry. apply lookup_ge_None. lia.
Qed.

(** Either every label is added, or some are and the flag is latched. *)
Lemma each_label {A} (f : A -> bytes) (g : A -> AccessLevel) (l : list A) c :
  exists n, each (fun x => poolAddLabel Labels (f x) (g x)) l c =
    if labels_fit (length l) c then (true, more c (f <$> l) (g <$> l) (overflow c))
    else (false, more c (f <$> take n l) (g <$> take n l) true).
Proof.
  revert c. induction l as [|x l IH]; intros c; cbn [each fmap list_fmap length].
  - exists 0%nat. cbn [labels_fit]. by rewrite more_nil.
  - unfold poolAddLabel. destruct (Nat.leb_spec Labels (labelUsed c)) as [Hfull|Hroom].
    + exists 0%nat. unfold labels_fit, fails. cbn [take fmap list_fmap]. rewrite more_flag. case_ifs; [lia|done].
    + set (c1 := more c [f x] [g x] (overflow c)). destruct (IH c1) as [n Hn]. exists (S n).
      transitivity (each (fun x => poolAddLabel Labels (f x) (g x)) l c1); [done|]. rewrite Hn.
      unfold labels_fit. cbn [take fmap list_fmap]. unfold c1. rewrite !more_more. cbn [overflow more app].
      assert (labelUsed (more c [f x] [g x] (overflow c)) = S (labelUsed c)) as ->
        by (unfold labelUsed, more; cbn; rewrite length_app; cbn; lia).
      destruct (Nat.eqb_spec (length l) 0) as [H0|H0].
      * rewrite H0 in *. cbn [orb]. case_ifs; [done|lia].
      * case_ifs; (done || lia).
Qed.

Definition trim (ls : list bytes) : list bytes := take (trimmedLength ls (length ls)) ls.

Lemma trimmedLength_le ls n : (trimmedLength ls n <= n)%nat.
Proof. induction n as [|n IH]; cbn; [lia|]. destruct (ls !! n) as [[|? ?]|]; lia. Qed.

(** The trimmed list and the original differ by trailing empty labels only. *)
Lemma trim_spec ls : exists n, ls = trim ls ++ replicate n [] /\ last (trim ls) <> Some [].
Proof.
  unfold trim. assert (forall n, (n <= length ls)%nat ->
    exists k, take n ls = take (trimmedLength ls n) ls ++ replicate k [] /\ last (take (trimmedLength ls n) ls) <> Some []) as H.
  { induction n as [|n IH]; intros Hn; [by exists 0%nat|]. cbn [trimmedLength].
    destruct (lookup_lt_is_Some_2 ls n ltac:(lia)) as [x Hx]. rewrite Hx. destruct x as [|b x].
    - destruct IH as (k & Hk & Hl); [lia|]. exists (S k). split; [|done]. rewrite (take_S_r _ _ [] Hx), Hk, <- app_assoc.
      f_equal. change [[]] with (replicate 1 ([] : bytes)). rewrite <- replicate_add. f_equal. lia.
    - exists 0%nat. rewrite app_nil_r. split; [done|]. by rewrite (take_S_r _ _ _ Hx), last_snoc. }
  destruct (H (length ls)) as (n & Hn & Hl); [done|]. rewrite take_ge in Hn by lia. by exists n.
Qed.

(** Labels interned in [c1] are read back from every catalog it grows into. *)
Definition interned (c : BasicCatalog) (ls : list bytes) (acc : list AccessLevel) (r : LabelRef.t) (c1 : BasicCatalog) : Prop :=
  c1 = more c ls acc (overflow c) /\ ref_ok c1 r /\ LabelRef.count r = length ls
  /\ (length ls <> 0%nat -> LabelRef.offset r = Z.of_nat (labelUsed c)) /\ labels r c1 = ls /\ (wf c -> labelAccess r c1 = acc).

Lemma interned_new c ls acc :
  length acc = length ls -> interned c ls acc (LabelRef.mk (Z.of_nat (labelUsed c)) (length ls)) (more c ls acc (overflow c)).
Proof.
  intros Hl. unfold interned, ref_ok, labels, labelAccess, LabelRef.empty. unfold LabelRef.start. cbn [LabelRef.count LabelRef.offset].
  rewrite Nat2Z.id. assert (slice (labelPool c ++ ls) (labelUsed c) (length ls) = ls) as Hs by apply slice_app_here.
  split_and!; try done.
  - right. unfold labelUsed. cbn. rewrite length_app. lia.
  - cbn [labelPool more]. rewrite Hs. case_ifs; [|done]. symmetry. apply nil_length_inv. lia.
  - intros W. cbn [labelAccessPool more]. rewrite <- (wf_access c W), <- Hl, slice_app_here. case_ifs; [|done].
    symmetry. apply nil_length_inv. lia.
Qed.

Lemma interned_none c : interned c [] [] LabelRef.none c.
Proof. split_and!; try done; [by rewrite more_nil|by left]. Qed.

(** What a failed label loop leaves behind. *)
Definition leaked (c c' : BasicCatalog) : Prop :=
  exists ls acc, length acc = length ls /\ c' = more c ls acc true.

Lemma leaked_flag c : leaked c (c{{overflow := true}}).
Proof. exists [], []. split; [done|]. by rewrite more_flag. Qed.

Lemma internLabels_spec ls maxCount c :
  let fits := (length (trim ls) <=? maxCount)%nat && labels_fit (length (trim ls)) c in
  exists c1, if fits then exists r, internLabels Labels ls maxCount c = (Some r, c1)
                                 /\ interned c (trim ls) (replicate (length (trim ls)) watch) r c1
             else internLabels Labels ls maxCount c = (None, c1) /\ leaked c c1.
Proof.
  cbv zeta. assert (length (trim ls) = trimmedLength ls (length ls)) as Hlen
    by (unfold trim; rewrite length_take; pose proof (trimmedLength_le ls (length ls)); lia).
  assert (take (length (trim ls)) ls = trim ls) as Ht by by rewrite Hlen.
  unfold internLabels. rewrite <- Hlen, Ht. cbv zeta.
  destruct (Nat.eqb_spec (length (trim ls)) 0) as [H0|H0].
  - apply nil_length_inv in H0. rewrite H0. cbn [length]. exists c.
    destruct (Nat.leb_spec 0 maxCount); [|lia]. exists LabelRef.none. split; [done|]. apply interned_none.
  - destruct (Nat.ltb_spec maxCount (length (trim ls))).
    { exists (c{{overflow := true}}). destruct (Nat.leb_spec (length (trim ls)) maxCount); [lia|].
      split; [done|apply leaked_flag]. }
    destruct (Nat.leb_spec (length (trim ls)) maxCount); [|lia]. cbn [andb].
    destruct (each_label id (fun _ => watch) (trim ls) c) as [n Hn]. cbn [id] in Hn. unfold id in Hn.
    rewrite Hn. destruct (labels_fit (length (trim ls)) c) eqn:Hf.
    + eexists. eexists. split; [done|]. rewrite list_fmap_id, (const_fmap (fun _ => watch) _ watch) by done. by apply interned_new; rewrite length_replicate.
    + eexists. split; [done|]. eexists _, _. split; [|done]. by rewrite !length_fmap.
Qed.

Lemma wf_interned c ls acc r c1 : wf c -> length acc = length ls -> interned c ls acc r c1 -> wf c1.
Proof. intros W Hl (-> & _). by apply wf_more. Qed.

(** *** Copying labels from another catalog *)

Lemma reintern_spec src r c :
  wf src -> ref_ok src r ->
  exists c1, if labels_fit (LabelRef.count r) c
             then exists r', reintern Labels src r c = (Some r', c1) /\ interned c (labels r src) (labelAccess r src) r' c1
             else reintern Labels src r c = (None, c1) /\ leaked c c1.
Proof.
  intros W Hr. unfold reintern, LabelRef.empty. destruct (Nat.eqb_spec (LabelRef.count r) 0) as [H0|H0].
  { exists c. unfold labels_fit. rewrite H0. cbn. eexists. split; [done|]. unfold labels, labelAccess, LabelRef.empty.
    rewrite H0. apply interned_none. }
  destruct Hr as [|Hr]; [done|].
  assert (length (labels r src) = LabelRef.count r) as Ht.
  { unfold labels, LabelRef.empty. case_ifs; [lia|]. by apply length_pool_slice. }
  assert (length (labelAccess r src) = LabelRef.count r) as Ha.
  { unfold labelAccess, LabelRef.empty. case_ifs; [lia|]. apply length_pool_slice. by rewrite (wf_access src W). }
  rewrite Ht, Nat.eqb_refl. cbn [negb].
  destruct (each_label (fun i => nth i (labels r src) []) (fun i => nth i (labelAccess r src) watch) (seq 0 (LabelRef.count r)) c) as [n Hn].
  rewrite length_seq in Hn. cbv zeta. rewrite Hn. destruct (labels_fit (LabelRef.count r) c).
  - eexists. eexists. split; [done|].
    pose proof (fmap_nth_seq (labels r src) []) as E1. pose proof (fmap_nth_seq (labelAccess r src) watch) as E2.
    rewrite Ht in E1. rewrite Ha in E2. rewrite E1, E2, <- Ht. apply interned_new. lia.
  - eexists. split; [done|]. eexists _, _. split; [|done]. by rewrite !length_fmap.
Qed.
End labels.

(** ** Authoring refines the list of contents *)

Inductive Authoring :=
| OpenEntry (h : CatalogEntry.t)
| Field (f : LayoutField.t)
| Bitfield (f : LayoutField.t) (bits : list bytes)
| Select (f : LayoutField.t) (options : list bytes)
| Argument (f : SchemaField.t)
| SelectArgument (f : SchemaField.t) (options : list bytes) (access : list AccessLevel)
| Descriptor (d : StoreDescriptor.t).

(** A field is authored without label references of its own. *)
Definition plain (op : Authoring) : Prop :=
  let no r := LabelRef.count r = 0%nat in
  match op with
  | Field f => no (LayoutField.bits f) /\ no (LayoutField.options f)
  | Bitfield f _ => no (LayoutField.options f)
  | Select f _ => no (LayoutField.bits f)
  | Argument f | SelectArgument f _ _ => no (SchemaField.options f) /\ SchemaField.hasOptionAccess f = false
  | _ => True
  end.

Definition noRefs (f : LayoutField.t) : LayoutField.t :=
  f{{LayoutField.bits := LabelRef.none; LayoutField.options := LabelRef.none}}.

Definition noPayload (h : CatalogEntry.t) : Payload :=
  match CatalogEntry.form h with Layout => PLayout [] | Schema => PSchema [] | Store => PStore None end.

(** What the operation means. *)
Definition authored (op : Authoring) (l : list (CatalogEntry.t * Payload)) : list (CatalogEntry.t * Payload) :=
  match op with
  | OpenEntry h => l ++ [(header h, noPayload h)]
  | Field f => on_payload (push_layout (noRefs f, [], [])) l
  | Bitfield f bits => on_payload (push_layout (noRefs f, trim bits, [])) l
  | Select f options => on_payload (push_layout (noRefs f, [], options)) l
  | Argument f => on_payload (push_schema (f{{SchemaField.options := LabelRef.none}}, [], [])) l
  | SelectArgument f options access =>
      on_payload (push_schema (f{{SchemaField.options := LabelRef.none;
                                  SchemaField.hasOptionAccess := negb (bool_decide (access = []))}}, options, access)) l
  | Descriptor d => on_payload (set_store d) l
  end.

Section authoring.
Variables Entries LayoutFields SchemaFields Labels Stores : nat.

Definition author (op : Authoring) (c : BasicCatalog) : bool * BasicCatalog :=
  match op with
  | OpenEntry h => match addEntry Entries h c with (None, c) => (false, c) | (Some _, c) => (true, c) end
  | Field f => addLayoutField LayoutFields f c
  | Bitfield f bits => addBitfieldField LayoutFields Labels f bits c
  | Select f options => addSelectField LayoutFields Labels f options c
  | Argument f => addSchemaField SchemaFields f c
  | SelectArgument f options access => addSelectSchemaField SchemaFields Labels f options access c
  | Descriptor d => addStoreDescriptor Stores d c
  end.

Definition nonempty (options : list bytes) : bool := forallb (fun o => negb (bool_decide (o = []))) options.

Definition room_for_field := has_room Layout CatalogEntry.kMaxFields LayoutFields.
Definition room_for_argument := has_room Schema CatalogEntry.kMaxFields SchemaFields.
Definition options_fit (options : list bytes) c : bool :=
  nonempty options && (length options <=? LabelRef.kMaxCount)%nat && labels_fit Labels (length options) c.

(** When it succeeds: the capacities, the form of the open entry, and the rules
    on labels. The order of the pool slices never stands in the way. *)
Definition fits (op : Authoring) (c : BasicCatalog) : bool :=
  match op with
  | OpenEntry h => (count c <? Entries)%nat
  | Field f => room_for_field c
  | Bitfield f bits => (length (trim bits) <=? 8)%nat && labels_fit Labels (length (trim bits)) c && room_for_field c
  | Select f options => options_fit options c && room_for_field c
  | Argument f => room_for_argument c
  | SelectArgument f options access =>
      ((length access =? 0)%nat || (length access =? length options)%nat) && options_fit options c && room_for_argument c
  | Descriptor d => has_room Store 1 Stores c
  end.

Definition authoring_step (op : Authoring) (c : BasicCatalog) (r : bool * BasicCatalog) : Prop :=
  fst r = fits op c /\ wf (snd r) /\ overflow (snd r) = overflow c || negb (fst r)
  /\ contents (snd r) = if fst r then authored op (contents c) else contents c.

Lemma step_leaked op c c' : wf c -> leaked c c' -> fits op c = false -> authoring_step op c (false, c').
Proof.
  intros W (ls & acc & Hl & ->) Hf. unfold authoring_step. cbn [fst snd]. rewrite Hf. split_and!; try done.
  - by apply wf_more.
  - cbn. by rewrite orb_true_r.
  - by apply contents_more.
Qed.

(** An attachment after labels were interned. *)
Lemma step_attached op c ls acc f b r :
  wf c -> length acc = length ls -> fits op c = b -> authored op (contents c) = on_payload f (contents c) ->
  attached (more c ls acc (overflow c)) f b r -> authoring_step op c r.
Proof.
  intros W Hl Hf Ha Hr. destruct b; cbn [attached] in Hr.
  - destruct Hr as (H1 & H2 & _ & H4 & H5). unfold authoring_step. rewrite H1, Hf, H4, H5, contents_more, Ha by done.
    cbn. by rewrite orb_false_r.
  - subst r. apply step_leaked; try done. exists ls, acc. by split.
Qed.

Lemma step_plain_attached op c f b r :
  wf c -> fits op c = b -> authored op (contents c) = on_payload f (contents c) -> attached c f b r -> authoring_step op c r.
Proof. intros W Hf Ha Hr. apply (step_attached op c [] [] f b r); try done. by rewrite more_nil. Qed.

Lemma has_room_more fm max cap c ls acc o : has_room fm max cap (more c ls acc o) = has_room fm max cap c.
Proof. by destruct fm. Qed.

Lemma checkOptionLabels_spec options c :
  checkOptionLabels options c = if nonempty options then (true, c) else (false, c{{overflow := true}}).
Proof.
  unfold checkOptionLabels. induction options as [|o options IH]; [done|]. cbn [each nonempty forallb].
  destruct (bool_decide (o = [])); cbn [negb andb]; [done|]. apply IH.
Qed.

Lemma trim_nonempty options : nonempty options = true -> trim options = options.
Proof.
  intros H. destruct (trim_spec options) as (n & Hn & _). destruct n as [|n]; [by rewrite app_nil_r in Hn|].
  rewrite Hn in H. unfold nonempty in H. rewrite forallb_app in H. cbn in H. by rewrite andb_false_r in H.
Qed.

Lemma labels_none c r : LabelRef.count r = 0%nat -> labels r c = [].
Proof. intros H. unfold labels, LabelRef.empty. by rewrite H. Qed.

Lemma step_open h c : wf c -> authoring_step (OpenEntry h) c (author (OpenEntry h) c).
Proof.
  intros W. unfold author, addEntry. destruct (Nat.leb_spec Entries (count c)) as [H|H].
  { apply step_leaked; [done|apply leaked_flag|]. cbn. by apply Nat.ltb_ge. }
  set (e := h{{CatalogEntry.fieldCount := 0%nat; CatalogEntry.fieldOffset := _}}).
  assert (CatalogEntry.fieldCount e = 0%nat) as H0 by done.
  assert (CatalogEntry.fieldOffset e = used (CatalogEntry.form h) c) as Ho by (cbn; by destruct (CatalogEntry.form h)).
  assert (CatalogEntry.form e = CatalogEntry.form h) as Hf by done. assert (header e = header h) as Hh by done.
  clearbody e. unfold authoring_step. cbn [fst snd]. split_and!.
  - cbn. symmetry. by apply Nat.ltb_lt.
  - destruct W as [Wa Wp Wo Wc Wl Ws]. constructor; try done;
      change (entries (c{{entries := entries c ++ [e] }})) with (entries c ++ [e]).
    + intros i x Hx. apply lookup_app_Some in Hx as [Hx|[Hi Hx]].
      * pose proof (lookup_lt_Some _ _ _ Hx). rewrite take_app_le by lia. by apply Wp.
      * apply list_lookup_singleton_Some in Hx as [? <-]. rewrite take_app_le, take_ge, Hf, Ho, <- Wo by lia. done.
    + intros fm. rewrite owned_app, owned_single, H0, Wo. by destruct fm; case_decide; apply Nat.add_0_r.
    + apply Forall_app. split; [done|]. apply Forall_singleton. unfold count_ok. rewrite H0. split; intros; lia.
  - cbn. by rewrite orb_false_r.
  - unfold contents. change (entries (c{{entries := entries c ++ [e] }})) with (entries c ++ [e]).
    cbn [authored]. rewrite fmap_app. cbn [fmap list_fmap].
    rewrite <- (contents_grow c (c{{entries := entries c ++ [e] }}) (entries c)); [|done|by constructor|done].
    do 2 f_equal. unfold entryContent. rewrite Hh. f_equal. unfold payload, noPayload. rewrite Hf.
    unfold layoutFields, schemaFields, storeDescriptor. rewrite H0, !slice_0.
    destruct (CatalogEntry.form h); case_ifs; try done. by rewrite orb_true_r in *.
Qed.

Lemma layoutContent_none c f :
  LabelRef.count (LayoutField.bits f) = 0%nat -> LabelRef.count (LayoutField.options f) = 0%nat -> layoutContent c f = (noRefs f, [], []).
Proof. intros Hb Ho. unfold layoutContent, bitLabels, optionLabels. by rewrite !labels_none. Qed.

Lemma step_field f c : wf c -> plain (Field f) -> authoring_step (Field f) c (author (Field f) c).
Proof.
  intros W [Hb Ho]. eapply step_plain_attached; [done|done| |apply addLayoutField_attaches; [done|split; by left]].
  cbn [authored]. by rewrite layoutContent_none.
Qed.

Lemma step_bitfield f bits c : wf c -> plain (Bitfield f bits) -> authoring_step (Bitfield f bits) c (author (Bitfield f bits) c).
Proof.
  intros W Ho. cbn [plain author] in *. unfold addBitfieldField. destruct (internLabels_spec Labels bits 8 c) as [c1 H].
  destruct (_ && _) eqn:Hf in H.
  - destruct H as (r & -> & Hi). pose proof Hi as (-> & Hr & _ & _ & Hl & _).
    assert (wf (more c (trim bits) (replicate (length (trim bits)) watch) (overflow c))) as W1
      by (eapply wf_interned, Hi; [done|by rewrite length_replicate]).
    eapply step_attached; [done| | | |apply addLayoutField_attaches; [done|split; [done|by left]]].
    + by rewrite length_replicate.
    + cbn [fits]. rewrite Hf. symmetry. apply has_room_more.
    + cbn [authored]. unfold layoutContent, bitLabels, optionLabels. cbn [LayoutField.bits LayoutField.options].
      rewrite (labels_none _ (LayoutField.options _)) by done.
      change (on_payload (push_layout (noRefs f, trim bits, [])) (contents c) =
        on_payload (push_layout (noRefs f, labels r (more c (trim bits) (replicate (length (trim bits)) watch) (overflow c)), [])) (contents c)).
      by rewrite Hl.
  - destruct H as [-> Hleak]. apply step_leaked; [done|done|]. cbn [fits]. by rewrite Hf.
Qed.

(** The labels of a select, checked and interned. *)
Lemma options_interned options c :
  exists c1, if options_fit options c
    then exists r, checkOptionLabels options c = (true, c) /\ internLabels Labels options LabelRef.kMaxCount c = (Some r, c1)
                   /\ interned c options (replicate (length options) watch) r c1
    else leaked c c1 /\ (checkOptionLabels options c = (false, c1)
                         \/ checkOptionLabels options c = (true, c) /\ internLabels Labels options LabelRef.kMaxCount c = (None, c1)).
Proof.
  unfold options_fit. rewrite checkOptionLabels_spec. destruct (nonempty options) eqn:Hn; cbn [andb].
  - destruct (internLabels_spec Labels options LabelRef.kMaxCount c) as [c1 H]. rewrite trim_nonempty in H by done.
    exists c1. destruct (_ && _); [|by destruct H; eauto]. destruct H as (r & H1 & H2). by exists r.
  - eexists. split; [apply leaked_flag|by left].
Qed.

Lemma step_select f options c : wf c -> plain (Select f options) -> authoring_step (Select f options) c (author (Select f options) c).
Proof.
  intros W Hb. cbn [plain author] in *. unfold addSelectField. destruct (options_interned options c) as [c1 H].
  destruct (options_fit options c) eqn:Hf.
  - destruct H as (r & -> & -> & Hi). pose proof Hi as (-> & Hr & _ & _ & Hl & _).
    assert (length (replicate (length options) watch) = length options) as Hlen by apply length_replicate.
    pose proof (wf_interned _ _ _ _ _ W Hlen Hi) as W1.
    eapply step_attached; [done|done| | |apply addLayoutField_attaches; [done|split; [by left|done]]].
    + cbn [fits]. rewrite Hf. symmetry. apply has_room_more.
    + cbn [authored]. rewrite <- Hl at 1. unfold layoutContent, bitLabels. rewrite (labels_none _ (LayoutField.bits _)) by done. done.
  - destruct H as [Hleak H]. assert (fits (Select f options) c = false) as Hfit by (cbn [fits]; by rewrite Hf).
    destruct H as [->|[-> ->]]; by apply step_leaked.
Qed.

Lemma step_argument f c : wf c -> plain (Argument f) -> authoring_step (Argument f) c (author (Argument f) c).
Proof.
  intros W [Ho Ha]. eapply step_plain_attached; [done|done| |apply addSchemaField_attaches; [done|by left]].
  cbn [authored]. unfold schemaContent, schemaOptionLabels, optionAccess. by rewrite labels_none, Ha by done.
Qed.

Lemma step_select_argument f options access c :
  wf c -> plain (SelectArgument f options access) ->
  authoring_step (SelectArgument f options access) c (author (SelectArgument f options access) c).
Proof.
  intros W [Ho Ha]. cbn [author]. unfold addSelectSchemaField.
  destruct (negb _ && negb _) eqn:Hlen.
  { apply step_leaked; [done|apply leaked_flag|]. cbn [fits]. rewrite <- negb_orb in Hlen. apply negb_true_iff in Hlen. by rewrite Hlen. }
  rewrite <- negb_orb in Hlen. apply negb_false_iff in Hlen.
  destruct (options_interned options c) as [c1 H]. destruct (options_fit options c) eqn:Hf.
  - destruct H as (r & -> & -> & Hi). pose proof Hi as (-> & Hr & Hc & Hoff & Hl & Hacc).
    assert (length (replicate (length options) watch) = length options) as Hrep by apply length_replicate.
    assert (fits (SelectArgument f options access) c = room_for_argument c) as Hfit by (cbn [fits]; by rewrite Hlen, Hf).
    destruct (Nat.eqb_spec (length access) 0) as [H0|H0]; cbn [negb].
    + apply nil_length_inv in H0 as ->. pose proof (wf_interned _ _ _ _ _ W Hrep Hi) as W1.
      eapply step_attached; [done|done| | |apply addSchemaField_attaches; done].
      * rewrite Hfit. symmetry. apply has_room_more.
      * cbn [authored]. rewrite <- Hl at 1. unfold schemaContent, optionAccess. cbn [SchemaField.hasOptionAccess].
        change (SchemaField.hasOptionAccess (f{{SchemaField.options := r}})) with (SchemaField.hasOptionAccess f).
        rewrite Ha. do 2 f_equal. f_equal. f_equal. destruct f. cbn in *. by subst.
    + assert (length access = length options) as Hal by lia.
      set (c2 := (more c options (replicate (length options) watch) (overflow c)){{labelAccessPool := _}}).
      assert (c2 = more c options access (overflow c)) as ->.
      { unfold c2, more. cbn. f_equal. unfold LabelRef.start. rewrite Hoff, Nat2Z.id by lia. rewrite Hc, take_ge by lia.
        rewrite <- (app_nil_r (labelAccessPool c ++ _)), <- app_assoc.
        rewrite write_at_mid; [by rewrite app_nil_r|symmetry; apply (wf_access c W)|by rewrite length_replicate]. }
      assert (LabelRef.mk (Z.of_nat (labelUsed c)) (length options) = r) as Er by (destruct r; cbn in *; rewrite Hc, Hoff by lia; done).
      pose proof (interned_new c options access Hal) as Hi2. rewrite Er in Hi2. destruct Hi2 as (_ & Hr2 & _ & _ & Hl2 & Hacc2).
      eapply step_attached; [done|done| | |apply addSchemaField_attaches; [by apply wf_more|done]].
      * rewrite Hfit. symmetry. apply has_room_more.
      * cbn [authored]. rewrite bool_decide_false by (by intros ->). rewrite <- (Hacc2 W) at 1. rewrite <- Hl2 at 1. done.
  - destruct H as [Hleak H]. assert (fits (SelectArgument f options access) c = false) as Hfit
      by (cbn [fits]; rewrite Hf; by rewrite andb_false_r).
    destruct H as [->|[-> ->]]; by apply step_leaked.
Qed.

Lemma step_descriptor d c : wf c -> authoring_step (Descriptor d) c (author (Descriptor d) c).
Proof. intros W. eapply step_plain_attached; [done|done| |by apply addStoreDescriptor_attaches]. done. Qed.

Lemma author_steps op c : wf c -> plain op -> authoring_step op c (author op c).
Proof.
  intros W Hp. destruct op; [by apply step_open|by apply step_field|by apply step_bitfield|by apply step_select|
    by apply step_argument|by apply step_select_argument|by apply step_descriptor].
Qed.

(** A run of the builder: what each call returned, and the catalog. *)
Definition build (ops : list Authoring) (c : BasicCatalog) : list bool * BasicCatalog :=
  foldl (fun '(rs, c) op => let '(r, c) := author op c in (rs ++ [r], c)) ([], c) ops.

Lemma wf_empty : wf emptyCatalog.
Proof. constructor; try done. by intros []. Qed.

Lemma build_snoc ops op c :
  build (ops ++ [op]) c = let '(rs, c) := build ops c in let '(r, c) := author op c in (rs ++ [r], c).
Proof. unfold build. rewrite foldl_app. cbn [foldl]. by destruct (foldl _ _ ops). Qed.

Lemma build_spec ops :
  Forall plain ops ->
  let '(rs, c) := build ops emptyCatalog in
  wf c /\ ok c = forallb id rs /\ (ok c = true -> contents c = foldl (fun l op => authored op l) [] ops).
Proof.
  induction ops as [|op ops IH] using rev_ind; [by split; [apply wf_empty|]|]. intros [Hps Hp]%Forall_app.
  apply Forall_cons in Hp as [Hp _]. specialize (IH Hps). rewrite build_snoc, foldl_app.
  destruct (build ops emptyCatalog) as [rs c]. destruct IH as (W & Hok & Hc). cbn [foldl].
  pose proof (author_steps op c W Hp) as (Hf & W' & Ho & Hc'). destruct (author op c) as [r c'].
  cbn [fst snd] in *. unfold ok in *. split_and!; [done|..].
  - rewrite Ho, forallb_app, <- Hok. cbn. by rewrite negb_orb, negb_involutive, andb_true_r.
  - rewrite Ho, negb_orb, negb_involutive. intros [Hno Hr]%andb_prop. rewrite Hc', Hr, Hc by done. done.
Qed.
End authoring.

(** ** Copying an entry *)

Section copying.
Variables Entries LayoutFields SchemaFields Labels Stores : nat.
Context (src : BasicCatalog) (Wsrc : wf src).

(** A copied slot says in [c'] what it said in [src]. *)
Definition copied (c : BasicCatalog) (f : Payload -> Payload) (r : bool * BasicCatalog) : Prop :=
  fst r = true -> wf (snd r) /\ overflow (snd r) = overflow c /\ contents (snd r) = on_payload f (contents c).

Lemma attached_copied c f b r : attached c f b r -> copied c f r.
Proof. intros Hat Hr. destruct b; cbn [attached] in Hat; [|by subst r]. by destruct Hat as (_ & ? & _ & ? & ?). Qed.

Lemma copied_more c ls acc f r : wf c -> copied (more c ls acc (overflow c)) f r -> copied c f r.
Proof. intros W H Hr. rewrite <- (contents_more c ls acc (overflow c)) by done. by apply H. Qed.

Lemma length_labelAccess r : ref_ok src r -> length (labelAccess r src) = length (labels r src).
Proof.
  intros Hr. unfold labelAccess, labels, LabelRef.empty. destruct (Nat.eqb_spec (LabelRef.count r) 0) as [|H0]; [done|].
  destruct Hr as [|Hr]; [done|]. rewrite !length_pool_slice; [done|done|]. by rewrite (wf_access src Wsrc).
Qed.

Lemma copyLayoutField_copies f c :
  layout_ok src f -> wf c -> copied c (push_layout (layoutContent src f)) (copyLayoutField LayoutFields Labels src f c).
Proof.
  intros [Hb Ho] W. unfold copyLayoutField.
  destruct (reintern_spec Labels src (LayoutField.bits f) c Wsrc Hb) as [c1 H1]. destruct (labels_fit _ _ c).
  2:{ destruct H1 as [-> _]. by intros ?. }
  destruct H1 as (rb & -> & Hi1). pose proof Hi1 as (-> & Hrb & _ & _ & Hlb & _).
  pose proof (wf_interned _ _ _ _ _ W (length_labelAccess _ Hb) Hi1) as W1.
  set (c1 := more c _ _ _) in *.
  destruct (reintern_spec Labels src (LayoutField.options f) c1 Wsrc Ho) as [c2 H2]. destruct (labels_fit _ _ c1).
  2:{ destruct H2 as [-> _]. by intros ?. }
  destruct H2 as (ro & -> & Hi2). pose proof Hi2 as (-> & Hro & _ & _ & Hlo & _).
  pose proof (wf_interned _ _ _ _ _ W1 (length_labelAccess _ Ho) Hi2) as W2.
  set (c2 := more c1 _ _ _) in *. pose proof (more_grows c1 (labels (LayoutField.options f) src) (labelAccess (LayoutField.options f) src) (overflow c1)) as G.
  assert (labels rb c2 = bitLabels f src) as Hlb2 by (rewrite (labels_grow c1 c2); done).
  apply (copied_more c (labels (LayoutField.bits f) src) (labelAccess (LayoutField.bits f) src) _ _ W). fold c1.
  apply (copied_more c1 (labels (LayoutField.options f) src) (labelAccess (LayoutField.options f) src) _ _ W1). fold c2.
  replace (layoutContent src f) with (layoutContent c2 (f{{LayoutField.bits := rb; LayoutField.options := ro}})).
  - eapply attached_copied, addLayoutField_attaches; [done|]. split; [by apply (ref_ok_grow c1)|done].
  - transitivity (noRefs f, labels rb c2, labels ro c2); [done|]. by rewrite Hlb2, Hlo.
Qed.

Lemma copySchemaField_copies f c :
  ref_ok src (SchemaField.options f) -> wf c ->
  copied c (push_schema (schemaContent src f)) (copySchemaField SchemaFields Labels src f c).
Proof.
  intros Ho W. unfold copySchemaField.
  destruct (reintern_spec Labels src (SchemaField.options f) c Wsrc Ho) as [c1 H1]. destruct (labels_fit _ _ c).
  2:{ destruct H1 as [-> _]. by intros ?. }
  destruct H1 as (r & -> & Hi). pose proof Hi as (-> & Hr & _ & _ & Hl & Ha). specialize (Ha W).
  pose proof (wf_interned _ _ _ _ _ W (length_labelAccess _ Ho) Hi) as W1.
  set (c1 := more c _ _ _) in *.
  apply (copied_more c (labels (SchemaField.options f) src) (labelAccess (SchemaField.options f) src) _ _ W). fold c1.
  replace (schemaContent src f) with (schemaContent c1 (f{{SchemaField.options := r}})).
  - by eapply attached_copied, addSchemaField_attaches.
  - transitivity (f{{SchemaField.options := LabelRef.none}}, labels r c1,
                  if negb (SchemaField.hasOptionAccess f) then [] else labelAccess r c1); [done|]. by rewrite Hl, Ha.
Qed.

(** A loop of copies appends all the slots. *)
Lemma each_copies {A B} (body : A -> BasicCatalog -> bool * BasicCatalog) (content : A -> B) (inj : list B -> Payload)
    (push : B -> Payload -> Payload) (P : A -> Prop) l c c' h ys es :
  (forall x c, P x -> wf c -> copied c (push (content x)) (body x c)) ->
  (forall x ys, push x (inj ys) = inj (ys ++ [x])) ->
  Forall P l -> wf c -> contents c = es ++ [(h, inj ys)] -> each body l c = (true, c') ->
  wf c' /\ overflow c' = overflow c /\ contents c' = es ++ [(h, inj (ys ++ (content <$> l)))].
Proof.
  intros Hbody Hpush Hl. revert c ys. induction Hl as [|x l Hx Hl IH]; intros c ys W Hc He; cbn [each] in He.
  { injection He as <-. by rewrite app_nil_r. }
  pose proof (Hbody x c Hx W) as Hb. destruct (body x c) as [[] c1]; [|done]. destruct (Hb eq_refl) as (W1 & Ho1 & Hc1).
  cbn [snd] in *. rewrite Hc in Hc1. unfold on_payload in Hc1. rewrite on_last_snoc, Hpush in Hc1.
  destruct (IH c1 _ W1 Hc1 He) as (W2 & Ho2 & Hc2). rewrite Ho2, Hc2, <- app_assoc. done.
Qed.
End copying.

(** * The properties *)

(** C33. A catalog built from the empty one by any sequence of authoring calls is
    well formed (the entries' slices tile the pools, labels resolve); its sticky
    flag tells exactly whether some call returned false; and when none did, the
    catalog says exactly what was authored, entry by entry and field by field,
    with the labels resolved. Each call succeeds exactly when the capacities, the
    form of the open entry and the label rules allow it. *)
Theorem catalog_authoring (E L S B T : nat) (ops : list Authoring) :
  Forall plain ops ->
  let '(rs, c) := build E L S B T ops emptyCatalog in
  wf c /\ ok c = forallb id rs
  /\ (ok c = true -> contents c = foldl (fun l op => authored op l) [] ops)
  /\ (forall op, plain op -> fst (author E L S B T op c) = fits E L S B T op c).
Proof.
  intros Hp. pose proof (build_spec E L S B T ops Hp) as H. destruct (build E L S B T ops emptyCatalog) as [rs c].
  destruct H as (W & Hok & Hc). split_and!; [done|done|done|]. intros op Hop. by apply author_steps.
Qed.

Definition demo_authoring : list Authoring :=
  [OpenEntry (CatalogEntry.init{{CatalogEntry.id := 0x80}});
   Bitfield (LayoutField.init{{LayoutField.type := PackedFieldType.bitfield8}}) [[104]; []; [112]; []];
   Field (LayoutField.init{{LayoutField.type := PackedFieldType.str16}});
   OpenEntry (CatalogEntry.init{{CatalogEntry.id := 0x100; CatalogEntry.cls := INTENT}});
   SelectArgument SchemaField.init [[97]; [98]] [control; configure];
   OpenEntry (CatalogEntry.init{{CatalogEntry.id := 0x200; CatalogEntry.cls := STORE}});
   Descriptor StoreDescriptor.init].

Lemma catalog_authoring_witness :
  Forall plain demo_authoring /\
  let '(rs, c) := build 3 2 1 5 1 demo_authoring emptyCatalog in
  ok c = true /\ contents c = foldl (fun l op => authored op l) [] demo_authoring.
Proof.
  assert (Forall plain demo_authoring) as Hp by (repeat (constructor; [done|]); constructor).
  split; [exact Hp|]. pose proof (catalog_authoring 3 2 1 5 1 demo_authoring Hp) as H.
  destruct (build 3 2 1 5 1 demo_authoring emptyCatalog) as [rs c] eqn:Hb. destruct H as (_ & _ & H & _).
  assert (ok c = true) as Hok by (change c with (snd (rs, c)); rewrite <- Hb; vm_compute; reflexivity).
  split; [exact Hok|exact (H Hok)].
Defined.

(** Copying an entry out of another catalog preserves what it says: the entry
    with its fields, label texts and option access levels, re-pooled. *)
Theorem addEntryFrom_copies (E L S B T : nat) (src c c' : BasicCatalog) (e : CatalogEntry.t) :
  wf src -> e ∈ entries src -> wf c -> addEntryFrom E L S B T src e c = (true, c') ->
  wf c' /\ overflow c' = overflow c /\ contents c' = contents c ++ [entryContent src e].
Proof.
  intros Ws He W. unfold addEntryFrom. pose proof (step_open E L S B T e c W) as H. unfold author in H.
  destruct (addEntry E e c) as [[i|] c1]; [|done]. destruct H as (_ & W1 & Ho1 & Hc1). cbn [fst snd] in *.
  cbn [negb authored] in *. rewrite orb_false_r in Ho1. rewrite <- Ho1. unfold noPayload in Hc1. unfold entryContent, payload.
  destruct (CatalogEntry.form e) eqn:Hf.
  - intros H. eapply (each_copies _ (layoutContent src) PLayout push_layout (layout_ok src) _ _ _ _ [] _); [| | |done|done|exact H].
    + intros x c2 Hx W2. by apply copyLayoutField_copies.
    + done.
    + unfold layoutFields. case_ifs; [done|]. apply Forall_slice, Ws.
  - intros H. eapply (each_copies _ (schemaContent src) PSchema push_schema (fun f => ref_ok src (SchemaField.options f)) _ _ _ _ [] _); [| | |done|done|exact H].
    + intros x c2 Hx W2. by apply copySchemaField_copies.
    + done.
    + unfold schemaFields. case_ifs; [done|]. apply Forall_slice, Ws.
  - destruct (storeDescriptor e src) as [d|]; [|done]. intros H.
    pose proof (attached_copied _ _ _ _ (addStoreDescriptor_attaches T d c1 W1)) as Hat. rewrite H in Hat.
    destruct (Hat eq_refl) as (W2 & Ho2 & Hc2). cbn [snd] in *. rewrite Hc1 in Hc2. unfold on_payload in Hc2.
    by rewrite on_last_snoc in Hc2.
Qed.

Definition demo_catalog : BasicCatalog := snd (build 3 2 1 5 1 demo_authoring emptyCatalog).

Definition demo_entry : CatalogEntry.t := nth 0 (entries demo_catalog) CatalogEntry.init.

Lemma demo_catalog_wf : wf demo_catalog.
Proof.
  pose proof (build_spec 3 2 1 5 1 demo_authoring) as H. unfold demo_catalog.
  destruct (build 3 2 1 5 1 demo_authoring emptyCatalog) as [rs c]. apply H. repeat (constructor; [done|]). constructor.
Qed.

Lemma demo_entry_in : demo_entry ∈ entries demo_catalog.
Proof. apply list_elem_of_lookup. exists 0%nat. vm_compute. reflexivity. Qed.

Lemma addEntryFrom_copies_witness :
  let r := addEntryFrom 1 2 0 3 0 demo_catalog demo_entry emptyCatalog in
  fst r = true /\ contents (snd r) = [entryContent demo_catalog demo_entry].
Proof.
  intros r. assert (fst r = true) as Hr by (vm_compute; reflexivity). split; [exact Hr|].
  assert (r = (true, snd r)) as E by (rewrite <- Hr; apply surjective_pairing).
  exact (proj2 (proj2 (addEntryFrom_copies 1 2 0 3 0 demo_catalog emptyCatalog (snd r) demo_entry
    demo_catalog_wf demo_entry_in wf_empty E))).
Defined.
