(* ===== verification/Layout.v ===== *)
(** * Layout: packed payloads described by a catalog

    wire/packed/layout_codec.hpp and [appendOnlyRead] of
    channel/state_apply.hpp: the fields of a STATE or STREAM payload, packed
    back to back. [oob] is what [std::lround] returns for a value no integer of
    its range represents, which the standard leaves open. *)

From S2P Require Import Prelude Registry Float ByteIO Codec Catalog.
Local Open Scope Z_scope.

Section layout_codec.
Variable oob : spec_float -> Z.

(** ** One field *)

(** [double(physical) * double(field.scale)] *)
Definition scaled (field : LayoutField.t) (physical : Float32.t) : Float64.t :=
  Float64.mul (Float64.of_float physical) (Float64.of_float (Float32.of_bits (LayoutField.scale field))).

Definition packField (field : LayoutField.t) (physical : Float32.t) (out : bytes) : nat * bytes :=
  let n := LayoutField.wireSize field in
  if (length out <? n)%nat then (0%nat, out)
  else
    match LayoutField.type field with
    | PackedFieldType.bitfield8 => putU8 out (u8 (lround oob (Float64.of_float physical)))
    | PackedFieldType.u8 => putU8 out (u8 (lround oob (scaled field physical)))
    | PackedFieldType.i8 => putU8 out (u8 (i8 (lround oob (scaled field physical))))
    | PackedFieldType.u16 => putU16 out (u16 (lround oob (scaled field physical)))
    | PackedFieldType.i16 => putU16 out (u16 (i16 (lround oob (scaled field physical))))
    | PackedFieldType.u32 => putU32 out (u32 (llround oob (scaled field physical)))
    | PackedFieldType.i32 => putU32 out (u32 (i32 (llround oob (scaled field physical))))
    | PackedFieldType.f32 => putF32 out (Float32.to_bits (Float32.mul physical (Float32.of_bits (LayoutField.scale field))))
    | PackedFieldType.str16 | PackedFieldType.str32 | PackedFieldType.str64 => (n, write_at 0 (replicate n 0) out)
    end.

Definition packStringField (field : LayoutField.t) (text out : bytes) : nat * bytes :=
  if negb (LayoutField.isString field) then (0%nat, out)
  else
    let n := LayoutField.wireSize field in
    if (length out <? n)%nat then (0%nat, out)
    else
      let copied := if (length text <? n)%nat then length text else n in
      let out := if (0 <? copied)%nat then write_at 0 (take copied text) out else out in
      let out := if (copied <? n)%nat then write_at copied (replicate (n - copied) 0) out else out in
      (n, out).

(** Precondition: [in] holds the field. *)
Definition readField (field : LayoutField.t) (s : bytes) : Float32.t :=
  let scale := Float32.of_bits (LayoutField.scale field) in
  match LayoutField.type field with
  | PackedFieldType.bitfield8 => Float32.of_Z (getU8 s)
  | PackedFieldType.u8 => Float32.div (Float32.of_Z (getU8 s)) scale
  | PackedFieldType.i8 => Float32.div (Float32.of_Z (i8 (getU8 s))) scale
  | PackedFieldType.u16 => Float32.div (Float32.of_Z (getU16 s)) scale
  | PackedFieldType.i16 => Float32.div (Float32.of_Z (i16 (getU16 s))) scale
  | PackedFieldType.u32 => Float32.div (Float32.of_Z (getU32 s)) scale
  | PackedFieldType.i32 => Float32.div (Float32.of_Z (i32 (getU32 s))) scale
  | PackedFieldType.f32 => Float32.div (Float32.of_bits (getF32 s)) scale
  | PackedFieldType.str16 | PackedFieldType.str32 | PackedFieldType.str64 => Float32.zero
  end.

(** [while (len < n && p[len] != 0) ++len;] *)
Fixpoint textLength (n : nat) (s : bytes) : nat :=
  match n, s with
  | S n, b :: s => if b =? 0 then 0%nat else S (textLength n s)
  | _, _ => 0%nat
  end.

Definition readStringField (field : LayoutField.t) (s : bytes) : bytes :=
  if negb (LayoutField.isString field) then []
  else
    let n := LayoutField.wireSize field in
    if (length s <? n)%nat then [] else take (textLength n s) s.

(** ** A layout *)

Fixpoint encodeFields (fields : list LayoutField.t) (values : list Float32.t) (offset : nat) (out : bytes) : nat * bytes :=
  match fields with
  | [] => (offset, out)
  | f :: fields =>
      let '(n, out) := on_subn offset (LayoutField.wireSize f) (packField f (hd Float32.zero values)) out in
      if (n =? 0)%nat then (0%nat, out) else encodeFields fields (tl values) (offset + n) out
  end.

Definition encodeByLayout (fields : list LayoutField.t) (physicalValues : list Float32.t) (out : bytes) : nat * bytes :=
  if (length physicalValues <? length fields)%nat then (0%nat, out)
  else if (length out <? layoutWireSize fields)%nat then (0%nat, out)
  else encodeFields fields physicalValues 0 out.

(** The result, and [outPhysical], which keeps what was read before an error. *)
Fixpoint decodeFields (fields : list LayoutField.t) (s : bytes) (offset i : nat) (outPhysical : list Float32.t) :
    Result nat DecodeError * list Float32.t :=
  match fields with
  | [] => (Ok offset, outPhysical)
  | f :: fields =>
      let n := LayoutField.wireSize f in
      if (length s <? offset + n)%nat then (Err Truncated, outPhysical)
      else decodeFields fields s (offset + n) (S i) (<[i := readField f (subspan offset n s)]> outPhysical)
  end.

Definition decodeByLayout (fields : list LayoutField.t) (s : bytes) (outPhysical : list Float32.t) :
    Result nat DecodeError * list Float32.t :=
  if (length outPhysical <? length fields)%nat then (Err CapacityExceeded, outPhysical)
  else decodeFields fields s 0 0 outPhysical.

Definition encodeEntry (cat : BasicCatalog) (entry : CatalogEntry.t) (physicalValues : list Float32.t) (out : bytes) : nat * bytes :=
  if negb (CatalogEntry.usesLayout entry) then (0%nat, out)
  else encodeByLayout (layoutFields entry cat) physicalValues out.

Definition decodeEntry (cat : BasicCatalog) (entry : CatalogEntry.t) (s : bytes) (outPhysical : list Float32.t) :
    Result nat DecodeError * list Float32.t :=
  if negb (CatalogEntry.usesLayout entry) then (Err Malformed, outPhysical)
  else decodeByLayout (layoutFields entry cat) s outPhysical.

Definition appendOnlyRead (knownLayout : list LayoutField.t) (payload : bytes) (outPhysical : list Float32.t) :
    Result nat DecodeError * list Float32.t := decodeByLayout knownLayout payload outPhysical.

Definition appendOnlyReadEntry (cat : BasicCatalog) (knownLayout : CatalogEntry.t) (payload : bytes) (outPhysical : list Float32.t) :
    Result nat DecodeError * list Float32.t := decodeEntry cat knownLayout payload outPhysical.

(** ** What a field stands for *)

(** The integer of an integer field, wrapped to its width. *)
Definition quantised (f : LayoutField.t) (v : Float32.t) : Z :=
  match LayoutField.type f with
  | PackedFieldType.bitfield8 => u8 (lround oob (Float64.of_float v))
  | PackedFieldType.u8 => u8 (lround oob (scaled f v))
  | PackedFieldType.i8 => i8 (lround oob (scaled f v))
  | PackedFieldType.u16 => u16 (lround oob (scaled f v))
  | PackedFieldType.i16 => i16 (lround oob (scaled f v))
  | PackedFieldType.u32 => u32 (llround oob (scaled f v))
  | PackedFieldType.i32 => i32 (llround oob (scaled f v))
  | _ => 0
  end.

(** The value a subscriber reads for [v]. *)
Definition delivered (f : LayoutField.t) (v : Float32.t) : Float32.t :=
  let scale := Float32.of_bits (LayoutField.scale f) in
  match LayoutField.type f with
  | PackedFieldType.bitfield8 => Float32.of_Z (quantised f v)
  | PackedFieldType.f32 => Float32.div (Float32.of_bits (u32 (Float32.to_bits (Float32.mul v scale)))) scale
  | PackedFieldType.str16 | PackedFieldType.str32 | PackedFieldType.str64 => Float32.zero
  | _ => Float32.div (Float32.of_Z (quantised f v)) scale
  end.

(** The bytes of a field. *)
Definition field_bytes (f : LayoutField.t) (v : Float32.t) : bytes :=
  match LayoutField.type f with
  | PackedFieldType.bitfield8 | PackedFieldType.u8 | PackedFieldType.i8 => [u8 (quantised f v)]
  | PackedFieldType.u16 | PackedFieldType.i16 => le16 (u16 (quantised f v))
  | PackedFieldType.u32 | PackedFieldType.i32 => le32 (u32 (quantised f v))
  | PackedFieldType.f32 => le32 (Float32.to_bits (Float32.mul v (Float32.of_bits (LayoutField.scale f))))
  | _ => replicate (LayoutField.wireSize f) 0
  end.

(** * Theorems *)

Lemma length_field_bytes f v : length (field_bytes f v) = LayoutField.wireSize f.
Proof. unfold field_bytes, LayoutField.wireSize. destruct (LayoutField.type f); done. Qed.

Lemma wireSize_pos f : (0 < LayoutField.wireSize f)%nat.
Proof. unfold LayoutField.wireSize. destruct (LayoutField.type f); lia. Qed.

Lemma u8_i8 z : u8 (i8 z) = u8 z.
Proof. solve_word. Qed.
Lemma u16_i16 z : u16 (i16 z) = u16 z.
Proof. solve_word. Qed.
Lemma u32_i32 z : u32 (i32 z) = u32 z.
Proof. solve_word. Qed.
Lemma i8_u8 z : i8 (u8 z) = i8 z.
Proof. solve_word. Qed.
Lemma i16_u16 z : i16 (u16 z) = i16 z.
Proof. solve_word. Qed.
Lemma i32_u32 z : i32 (u32 z) = i32 z.
Proof. solve_word. Qed.
Lemma u8_u8 z : u8 (u8 z) = u8 z.
Proof. solve_word. Qed.
Lemma u16_u16 z : u16 (u16 z) = u16 z.
Proof. solve_word. Qed.
Lemma u32_u32 z : u32 (u32 z) = u32 z.
Proof. solve_word. Qed.

Lemma packField_spec f v out :
  packField f v out =
    if (length out <? LayoutField.wireSize f)%nat then (0%nat, out)
    else (LayoutField.wireSize f, write_at 0 (field_bytes f v) out).
Proof.
  unfold packField. destruct (Nat.ltb_spec (length out) (LayoutField.wireSize f)) as [|Hfit]; [done|].
  unfold field_bytes, quantised, LayoutField.wireSize in *. destruct (LayoutField.type f); try done;
    unfold putF32; rewrite ?putU8_spec, ?putU16_spec, ?putU32_spec by done;
    rewrite ?u8_u8, ?u16_u16, ?u32_u32, ?u8_i8, ?u16_i16, ?u32_i32; try done.
Qed.

Lemma readField_bytes f v rest : readField f (field_bytes f v ++ rest) = delivered f v.
Proof.
  unfold readField, delivered, field_bytes, quantised, getF32, getU8. destruct (LayoutField.type f); try done;
    rewrite ?getU16_le16, ?getU32_le32; cbn [app byte_at nth];
    rewrite ?u8_u8, ?u16_u16, ?u32_u32, ?u8_i8, ?u16_i16, ?u32_i32, ?i8_u8, ?i16_u16, ?i32_u32; done.
Qed.

Lemma layoutWireSize_from k fs :
  foldl (fun s f => (s + LayoutField.wireSize f)%nat) k fs = (k + layoutWireSize fs)%nat.
Proof.
  unfold layoutWireSize. revert k. induction fs as [|g fs IH]; intros k; cbn [foldl]; [lia|].
  rewrite IH, (IH (0 + _)%nat). lia.
Qed.

Lemma layoutWireSize_cons f fs : layoutWireSize (f :: fs) = (LayoutField.wireSize f + layoutWireSize fs)%nat.
Proof. apply (layoutWireSize_from (LayoutField.wireSize f)). Qed.

Lemma layoutWireSize_app fs gs : layoutWireSize (fs ++ gs) = (layoutWireSize fs + layoutWireSize gs)%nat.
Proof. induction fs as [|f fs IH]; [done|]. cbn [app]. rewrite !layoutWireSize_cons, IH. lia. Qed.

(** The bytes of a whole payload. *)
Definition layout_bytes (fields : list LayoutField.t) (vs : list Float32.t) : bytes := concat (zip_with field_bytes fields vs).

Lemma length_layout_bytes fields vs :
  (length fields <= length vs)%nat -> length (layout_bytes fields vs) = layoutWireSize fields.
Proof.
  unfold layout_bytes. revert vs. induction fields as [|f fs IH]; intros [|v vs] H; cbn [length zip_with concat] in *; try lia; [done..|].
  rewrite length_app, length_field_bytes, layoutWireSize_cons, IH by lia. done.
Qed.

Lemma encodeFields_spec fields vs offset out :
  (length fields <= length vs)%nat -> (offset + layoutWireSize fields <= length out)%nat ->
  encodeFields fields vs offset out = ((offset + layoutWireSize fields)%nat, write_at offset (layout_bytes fields vs) out).
Proof.
  revert vs offset out. induction fields as [|f fs IH]; intros vs offset out Hv Ho.
  { cbn. by rewrite Nat.add_0_r, write_at_nil. }
  destruct vs as [|v vs]; [cbn in Hv; lia|]. rewrite layoutWireSize_cons in *. cbn [length] in *. cbn [encodeFields hd tl].
  rewrite (on_subn_spec _ _ _ (field_bytes f v)).
  - pose proof (wireSize_pos f). destruct (Nat.eqb_spec (LayoutField.wireSize f) 0); [lia|].
    assert (length (write_at offset (field_bytes f v) out) = length out) as Hl
      by (apply length_write_at; rewrite length_field_bytes; lia).
    rewrite IH by (rewrite ?Hl; lia). f_equal; [lia|]. unfold layout_bytes. cbn [zip_with concat].
    rewrite <- (length_field_bytes f v). apply write_at_app. rewrite length_field_bytes.
    fold (layout_bytes fs vs). rewrite length_layout_bytes; lia.
  - apply length_field_bytes.
  - lia.
  - rewrite packField_spec, length_subspan by lia. case_ifs; [lia|done].
Qed.

Lemma encodeByLayout_spec fields vs out :
  encodeByLayout fields vs out =
    if ((length vs <? length fields) || (length out <? layoutWireSize fields))%nat then (0%nat, out)
    else (layoutWireSize fields, write_at 0 (layout_bytes fields vs) out).
Proof.
  unfold encodeByLayout. destruct (Nat.ltb_spec (length vs) (length fields)); [done|].
  destruct (Nat.ltb_spec (length out) (layoutWireSize fields)); [done|]. cbn [orb]. by rewrite encodeFields_spec.
Qed.

(** The values read at the fields' offsets. *)
Fixpoint layout_values (fields : list LayoutField.t) (s : bytes) : list Float32.t :=
  match fields with
  | [] => []
  | f :: fs => readField f (subspan 0 (LayoutField.wireSize f) s) :: layout_values fs (drop (LayoutField.wireSize f) s)
  end.

Lemma length_layout_values fields s : length (layout_values fields s) = length fields.
Proof. revert s. induction fields as [|f fs IH]; intros s; [done|]. cbn. by rewrite IH. Qed.

Lemma layout_values_app fs gs s :
  layout_values (fs ++ gs) s = layout_values fs s ++ layout_values gs (drop (layoutWireSize fs) s).
Proof.
  revert s. induction fs as [|f fs IH]; intros s; cbn [app layout_values]; [by rewrite drop_0|].
  by rewrite IH, layoutWireSize_cons, drop_drop.
Qed.

Lemma decodeFields_spec fields s offset i outs :
  (i + length fields <= length outs)%nat -> (offset + layoutWireSize fields <= length s)%nat ->
  decodeFields fields s offset i outs =
    (Ok (offset + layoutWireSize fields)%nat, write_at i (layout_values fields (drop offset s)) outs).
Proof.
  revert offset i outs. induction fields as [|f fs IH]; intros offset i outs Hi Hs.
  { cbn. by rewrite Nat.add_0_r, write_at_nil. }
  rewrite layoutWireSize_cons in *. cbn [decodeFields layout_values length] in *. case_ifs; [lia|].
  rewrite IH by (rewrite ?length_insert; lia). f_equal; [f_equal; lia|]. rewrite write_at_cons by (rewrite length_layout_values; lia).
  unfold subspan. rewrite drop_0, drop_drop. done.
Qed.

Lemma decodeFields_truncated fields s offset i outs :
  (offset <= length s)%nat -> (length s < offset + layoutWireSize fields)%nat -> fst (decodeFields fields s offset i outs) = Err Truncated.
Proof.
  revert offset i outs. induction fields as [|f fs IH]; intros offset i outs Ho Hs; [cbn in Hs; lia|].
  rewrite layoutWireSize_cons in *. cbn [decodeFields]. case_ifs; [done|]. apply IH; lia.
Qed.

(** The decoder, on every input. *)
Lemma decodeByLayout_spec fields s outs :
  fst (decodeByLayout fields s outs) =
    (if (length outs <? length fields)%nat then Err CapacityExceeded
     else if (length s <? layoutWireSize fields)%nat then Err Truncated else Ok (layoutWireSize fields))
  /\ ((length fields <= length outs)%nat -> (layoutWireSize fields <= length s)%nat ->
      snd (decodeByLayout fields s outs) = write_at 0 (layout_values fields s) outs).
Proof.
  unfold decodeByLayout. destruct (Nat.ltb_spec (length outs) (length fields)); [split; [done|intros; lia]|].
  destruct (Nat.ltb_spec (length s) (layoutWireSize fields)).
  - split; [apply decodeFields_truncated; lia|intros; lia].
  - rewrite decodeFields_spec by lia. by rewrite drop_0.
Qed.

Lemma layout_values_bytes fields vs rest :
  (length fields <= length vs)%nat -> layout_values fields (layout_bytes fields vs ++ rest) = zip_with delivered fields vs.
Proof.
  unfold layout_bytes. revert vs. induction fields as [|f fs IH]; intros [|v vs] H; cbn [length] in *; try lia; [done..|].
  cbn [layout_values zip_with concat]. rewrite <- app_assoc, <- (length_field_bytes f v).
  rewrite subspan_app_here, drop_app_length by done. f_equal; [|by apply IH; lia].
  rewrite <- (app_nil_r (field_bytes f v)). apply readField_bytes.
Qed.
End layout_codec.

(** ** Text fields *)

Lemma textLength_le n s : (textLength n s <= n)%nat.
Proof. revert s. induction n as [|n IH]; intros [|b s]; cbn; try lia. destruct (b =? 0); [lia|]. specialize (IH s). lia. Qed.

(** Text without NUL, padded to the width. *)
Lemma textLength_padded n text rest :
  Forall (fun b => b <> 0) text -> (length text <= n)%nat ->
  textLength n (text ++ replicate (n - length text) 0 ++ rest) = length text.
Proof.
  intros Hz. revert n. induction Hz as [|b text Hb Hz IH]; intros n Hl; cbn [app length] in *; [by destruct n|].
  destruct n; [lia|]. cbn [textLength]. destruct (Z.eqb_spec b 0); [done|]. f_equal. apply IH. lia.
Qed.

Lemma packStringField_spec f text out :
  LayoutField.isString f = true -> (LayoutField.wireSize f <= length out)%nat ->
  let t := take (LayoutField.wireSize f) text in
  packStringField f text out =
    (LayoutField.wireSize f, write_at 0 (t ++ replicate (LayoutField.wireSize f - length t) 0) out).
Proof.
  intros Hs Ho t. unfold packStringField. rewrite Hs. cbn [negb]. set (n := LayoutField.wireSize f) in *.
  pose proof (wireSize_pos f) as Hn. fold n in Hn. unfold t. clear t. destruct (Nat.ltb_spec (length out) n); [lia|].
  destruct (Nat.ltb_spec (length text) n) as [Hlt|Hge].
  - rewrite (take_ge text n), firstn_all, <- write_at_app by (rewrite ?length_replicate; lia).
    destruct (Nat.ltb_spec (length text) n); [|lia]. destruct (Nat.ltb_spec 0 (length text)); [done|].
    assert (text = []) as -> by (apply nil_length_inv; lia). by rewrite write_at_nil.
  - destruct (Nat.ltb_spec 0 n); [|lia]. destruct (Nat.ltb_spec n n); [lia|]. rewrite length_take, Nat.min_l, Nat.sub_diag by lia.
    by rewrite app_nil_r.
Qed.

Lemma readStringField_padded f text rest :
  LayoutField.isString f = true -> Forall (fun b => b <> 0) text -> (length text <= LayoutField.wireSize f)%nat ->
  readStringField f (text ++ replicate (LayoutField.wireSize f - length text) 0 ++ rest) = text.
Proof.
  intros Hs Hz Hl. unfold readStringField. rewrite Hs. cbn [negb]. set (n := LayoutField.wireSize f) in *.
  rewrite !length_app, length_replicate. case_ifs; [lia|].
  rewrite textLength_padded by done. apply take_app_length.
Qed.

(** * The properties *)

(** Packing a layout and reading it back. The encoder fills exactly
    [layoutWireSize] bytes and touches no other, or writes nothing when a value
    is missing or the buffer is too small; decoding those bytes, whatever follows
    them, gives for each field its value rounded to the field's resolution
    ([delivered]), independently of the other fields. *)
Theorem layout_roundtrip (oob : spec_float -> Z) (fields : list LayoutField.t) (vs outs : list Float32.t) (out : bytes) :
  (length fields <= length outs)%nat ->
  let '(n, buf) := encodeByLayout oob fields vs out in
  if ((length vs <? length fields) || (length out <? layoutWireSize fields))%nat then n = 0%nat /\ buf = out
  else n = layoutWireSize fields /\ drop n buf = drop n out /\ length buf = length out
       /\ decodeByLayout fields buf outs = (Ok n, zip_with (delivered oob) fields vs ++ drop (length fields) outs).
Proof.
  intros Ho. rewrite encodeByLayout_spec. destruct (_ || _) eqn:Hc; [done|].
  assert (length fields <= length vs /\ layoutWireSize fields <= length out)%nat as [Hv Hl] by lia.
  pose proof (length_layout_bytes oob fields vs Hv) as Hb. split_and!; [done|..].
  - apply drop_write_at; lia.
  - apply length_write_at. lia.
  - destruct (decodeByLayout fields (write_at 0 (layout_bytes oob fields vs) out) outs) as [r os] eqn:E.
    destruct (decodeByLayout_spec fields (write_at 0 (layout_bytes oob fields vs) out) outs) as [H1 H2].
    rewrite E, length_write_at in H1, H2 by lia. cbn [fst snd] in *. rewrite H1, H2 by lia. case_ifs; try lia. f_equal.
    rewrite !write_at_0, layout_values_bytes by done. rewrite length_zip_with. do 2 f_equal. lia.
Qed.

Definition demo_layout : list LayoutField.t :=
  [LayoutField.init{{LayoutField.type := PackedFieldType.i16; LayoutField.scale := 0x41200000}};
   LayoutField.init{{LayoutField.type := PackedFieldType.str16}};
   LayoutField.init{{LayoutField.type := PackedFieldType.u8}}].

(** -1.25 at a scale of ten is -12.5, which rounds away from zero: -13 on the
    wire. *)
Lemma layout_roundtrip_witness :
  let vs := [Float32.div (Float32.of_Z (-5)) (Float32.of_Z 4); Float32.zero; Float32.of_Z 200] in
  let '(n, buf) := encodeByLayout (fun _ => 0) demo_layout vs (replicate 20 7) in
  n = 19%nat /\ take 2 buf = [0xF3; 0xFF] /\ drop 18 buf = [200; 7] /\
  decodeByLayout demo_layout buf (replicate 3 Float32.zero) =
    (Ok 19%nat, [Float32.div (Float32.of_Z (-13)) (Float32.of_Z 10); Float32.zero; Float32.of_Z 200]).
Proof.
  intros vs. pose proof (layout_roundtrip (fun _ => 0) demo_layout vs (replicate 3 Float32.zero) (replicate 20 7) ltac:(cbn; lia)) as H.
  destruct (encodeByLayout (fun _ => 0) demo_layout vs (replicate 20 7)) as [n buf] eqn:E. vm_compute in E.
  destruct H as (-> & _ & _ & H). injection E as <-. split; [reflexivity|]. split; [reflexivity|]. split; [reflexivity|].
  etransitivity; [exact H|]. vm_compute. reflexivity.
Defined.

(** The decoder on every input: it fails with CapacityExceeded exactly when
    there are fewer places than fields, with Truncated exactly when the payload
    is shorter than the layout, and otherwise consumes [layoutWireSize] bytes. A
    client that knows a prefix of the layout reads, from whatever payload the
    whole layout decodes, the values the whole layout gives those fields. *)
Theorem layout_append_only (known more : list LayoutField.t) (payload : bytes) (outs outs' : list Float32.t) :
  fst (decodeByLayout known payload outs) =
    (if (length outs <? length known)%nat then Err CapacityExceeded
     else if (length payload <? layoutWireSize known)%nat then Err Truncated else Ok (layoutWireSize known))
  /\ (isOk (fst (decodeByLayout (known ++ more) payload outs')) = true -> (length known <= length outs)%nat ->
      fst (appendOnlyRead known payload outs) = Ok (layoutWireSize known)
      /\ take (length known) (snd (appendOnlyRead known payload outs))
         = take (length known) (snd (decodeByLayout (known ++ more) payload outs'))).
Proof.
  destruct (decodeByLayout_spec known payload outs) as [H1 H2]. split; [done|].
  destruct (decodeByLayout_spec (known ++ more) payload outs') as [-> H4]. rewrite length_app, layoutWireSize_app in *.
  case_ifs; try done. intros _ Ho. unfold appendOnlyRead. rewrite H1, H2, H4 by lia.
  split; [case_ifs; try lia; done|]. rewrite !write_at_0, layout_values_app, <- app_assoc.
  rewrite <- (length_layout_values known payload). by rewrite !take_app_length.
Qed.

Lemma layout_append_only_witness :
  let buf := [0xF3; 0xFF] ++ replicate 16 65 ++ [200; 7] in
  fst (appendOnlyRead (take 1 demo_layout) buf [Float32.zero]) = Ok 2%nat.
Proof.
  intros buf. refine (proj1 (proj2 (layout_append_only (take 1 demo_layout) (drop 1 demo_layout) buf [Float32.zero]
    (replicate 3 Float32.zero)) _ _)).
  - vm_compute. reflexivity.
  - cbn. lia.
Defined.

(** A text field holds any text without NUL up to its width, exactly; a longer
    text is cut to the width. The field's width is filled and nothing after it. *)
Theorem string_field_roundtrip (f : LayoutField.t) (text out : bytes) :
  LayoutField.isString f = true -> Forall (fun b => b <> 0) text ->
  let '(n, buf) := packStringField f text out in
  if (length out <? LayoutField.wireSize f)%nat then n = 0%nat /\ buf = out
  else n = LayoutField.wireSize f /\ drop n buf = drop n out /\ readStringField f buf = take n text.
Proof.
  intros Hs Hz. destruct (Nat.ltb_spec (length out) (LayoutField.wireSize f)) as [H|H].
  { unfold packStringField. rewrite Hs. cbn [negb]. by rewrite (proj2 (Nat.ltb_lt _ _) H). }
  rewrite packStringField_spec by done. set (n := LayoutField.wireSize f) in *.
  assert (length (take n text) <= n)%nat as Hl by (rewrite length_take; lia). split_and!; [done|..].
  - apply drop_write_at; [rewrite length_app, length_replicate; lia|lia].
  - rewrite write_at_0, <- app_assoc. apply readStringField_padded; [done|by apply Forall_take|done].
Qed.

Lemma string_field_roundtrip_witness :
  let f := LayoutField.init{{LayoutField.type := PackedFieldType.str16}} in
  readStringField f (snd (packStringField f [72; 105] (replicate 17 1))) = [72; 105].
Proof.
  intros f. assert (Forall (fun b : Z => b <> 0) [72; 105]) as Hz by (apply (bool_decide_unpack _); exact I).
  pose proof (string_field_roundtrip f [72; 105] (replicate 17 1) eq_refl Hz) as H.
  destruct (packStringField f [72; 105] (replicate 17 1)) as [n buf]. destruct H as (-> & _ & H). exact H.
Defined.
