(* ===== verification/Raw.v ===== *)
(** * Raw: the raw-plane frames

    wire/raw: ackmask.hpp (the sliding acknowledgement window), clock_frame.hpp
    (the four-timestamp exchange), beacon.hpp, catalog_ready.hpp, ping_pong.hpp
    and probe.hpp. *)

From stdpp Require Import sets.
From S2P Require Import Prelude Registry ByteIO Serial.
Local Open Scope Z_scope.

(** ** ACKMASK *)

Record AckMask := mkAckMask { base_seq : Z; mask : Z }.

Definition kAckMaskBytes : nat := 6.
Definition kAckMaskWindow : Z := 32.

Definition encodeAckMask (m : AckMask) (out : bytes) : nat * bytes :=
  if (length out <? kAckMaskBytes)%nat then (0%nat, out)
  else
    let out := (on_subn 0 2 (fun s => putU16 s (base_seq m)) out).2 in
    let out := (on_subn 2 4 (fun s => putU32 s (mask m)) out).2 in
    (kAckMaskBytes, out).

Definition decodeAckMask (s : bytes) : Result AckMask DecodeError :=
  if (length s <? kAckMaskBytes)%nat then Err Truncated
  else Ok (mkAckMask (getU16 (subspan 0 2 s)) (getU32 (subspan 2 4 s))).

(** The sequence numbers the callback is invoked with, in order. *)
Definition unpackAckMask (base m : Z) : list Z :=
  (fun i => u16 (base + Z.of_nat i)) <$>
    filter (fun i => Z.land m (Z.shiftl 1 (Z.of_nat i)) <> 0) (seq 0 (Z.to_nat kAckMaskWindow)).

(** AckTracker is the pair it snapshots. *)
Definition ackTracker (base : Z) : AckMask := mkAckMask base 0.

Definition record (seq : Z) (t : AckMask) : AckMask :=
  if negb (seq =? base_seq t) && negb (seqIsNewer seq (base_seq t)) then t
  else
    let offset := i16 (seq - base_seq t) in
    let '(b, m, offset) :=
      if kAckMaskWindow <=? offset then
        let shift := u16 (offset - kAckMaskWindow + 1) in
        (u16 (base_seq t + shift),
         (if kAckMaskWindow <=? shift then 0 else Z.shiftr (mask t) shift),
         kAckMaskWindow - 1)
      else (base_seq t, mask t, offset) in
    mkAckMask b (Z.lor m (u32 (Z.shiftl 1 offset))).

Definition resetTracker (base : Z) (t : AckMask) : AckMask := mkAckMask base 0.

(** ** CLOCK *)

Definition kClockRequestBytes : nat := 4.
Definition kClockReplyBytes : nat := 12.

Record ClockReply := mkClockReply { cl_t0 : Z; cl_t1 : Z; cl_t2 : Z }.

Definition encodeClockRequest (t0 : Z) (out : bytes) : nat * bytes :=
  if (length out <? kClockRequestBytes)%nat then (0%nat, out) else putU32 out t0.

Definition decodeClockRequest (s : bytes) : Result Z DecodeError :=
  if (length s <? kClockRequestBytes)%nat then Err Truncated else Ok (getU32 (subspan 0 4 s)).

Definition encodeClockReply (t0 t1 t2 : Z) (out : bytes) : nat * bytes :=
  if (length out <? kClockReplyBytes)%nat then (0%nat, out)
  else
    let out := (on_subn 0 4 (fun s => putU32 s t0) out).2 in
    let out := (on_subn 4 4 (fun s => putU32 s t1) out).2 in
    let out := (on_subn 8 4 (fun s => putU32 s t2) out).2 in
    (kClockReplyBytes, out).

Definition decodeClockReply (s : bytes) : Result ClockReply DecodeError :=
  if (length s <? kClockReplyBytes)%nat then Err Truncated
  else Ok (mkClockReply (getU32 (subspan 0 4 s)) (getU32 (subspan 4 4 s)) (getU32 (subspan 8 4 s))).

Record ClockSync := mkClockSync { offsetUs : Z; rttUs : Z }.

(** [/ 2] on a signed operand truncates towards zero. *)
Definition computeClockSync (t0 t1 t2 t3 : Z) : ClockSync :=
  let d1 := timeDelta t1 t0 in
  let d2 := timeDelta t2 t3 in
  let offset := Z.quot (d1 + d2) 2 in
  let dRttObserved := timeDelta t3 t0 in
  let dHubHold := timeDelta t2 t1 in
  let rtt := dRttObserved - dHubHold in
  mkClockSync (i32 offset) (u32 rtt).

(** ** BEACON *)

Definition kBeaconFrameBytes : nat := 4 + limits.etag_bytes + 1.

Record BeaconFrame := mkBeacon { bc_boot_id : Z; bc_etag : bytes; bc_pairing_open : bool }.

Definition encodeBeacon (b : BeaconFrame) (out : bytes) : nat * bytes :=
  if (length out <? kBeaconFrameBytes)%nat then (0%nat, out)
  else
    let out := (on_subn 0 4 (fun s => putU32 s (bc_boot_id b)) out).2 in
    let out := write_at 4 (bc_etag b) out in
    let out := (on_subn (4 + length (bc_etag b)) 1 (fun s => putU8 s (if bc_pairing_open b then 1 else 0)) out).2 in
    (kBeaconFrameBytes, out).

Definition decodeBeacon (s : bytes) : Result BeaconFrame DecodeError :=
  if (length s <? kBeaconFrameBytes)%nat then Err Truncated
  else Ok (mkBeacon (getU32 (subspan 0 4 s)) (subspan 4 limits.etag_bytes s)
             (negb (getU8 (subspan (4 + limits.etag_bytes) 1 s) =? 0))).

(** ** CATALOG_READY, PING/PONG, PROBE *)

Definition kCatalogReadyBytes : nat := limits.etag_bytes.

Definition encodeCatalogReady (etag out : bytes) : nat * bytes :=
  if negb (length etag =? kCatalogReadyBytes)%nat then (0%nat, out)
  else if (length out <? kCatalogReadyBytes)%nat then (0%nat, out)
  else (kCatalogReadyBytes, write_at 0 etag out).

Definition decodeCatalogReady (payload : bytes) : option bytes :=
  if negb (length payload =? kCatalogReadyBytes)%nat then None else Some (take kCatalogReadyBytes payload).

Definition encodePing (payload out : bytes) : nat * bytes :=
  if (length out <? length payload)%nat then (0%nat, out) else (length payload, write_at 0 payload out).

Definition encodePong (pingPayload out : bytes) : nat * bytes := encodePing pingPayload out.

Definition kProbeIndexBytes : nat := 2.

Definition encodeProbeFrame (probeIndex : Z) (out : bytes) : nat * bytes :=
  if (length out <? kProbeIndexBytes)%nat then (0%nat, out)
  else
    let out := (on_subn 0 2 (fun s => putU16 s probeIndex) out).2 in
    (length out, write_at kProbeIndexBytes (replicate (length out - kProbeIndexBytes) 0) out).

Definition decodeProbeFrame (s : bytes) : Result Z DecodeError :=
  if (length s <? kProbeIndexBytes)%nat then Err Truncated else Ok (getU16 (subspan 0 2 s)).

(** * Theorems *)

(** ** The acknowledgement window, in unwrapped sequence numbers *)

(** The tracker at unwrapped base [B] knows the window's set [S]. *)
Definition tracks_window (B : Z) (S : Z -> Prop) (t : AckMask) : Prop :=
  base_seq t = u16 B /\ is_u32 (mask t) /\
  forall i, 0 <= i < 32 -> Z.testbit (mask t) i = true <-> S (B + i).

Lemma i16_small z : -32768 <= z < 32768 -> i16 z = z.
Proof. intros H. unfold i16, u16. destruct (Z.ltb_spec (z mod 65536) 32768); Z.div_mod_to_equations; lia. Qed.

Lemma i16_congr a b : (a - b) mod 65536 = 0 -> i16 a = i16 b.
Proof. intros H. unfold i16, u16. assert (a mod 65536 = b mod 65536) as -> by (Z.div_mod_to_equations; lia). done. Qed.

Lemma testbit_bit k i : 0 <= k -> Z.testbit (Z.shiftl 1 k) i = (i =? k).
Proof.
  intros Hk. rewrite Z.shiftl_1_l. destruct (Z.eqb_spec i k) as [->|Hne].
  - by apply Z.pow2_bits_true.
  - apply Z.pow2_bits_false. lia.
Qed.

Lemma u32_bit k : 0 <= k < 32 -> u32 (Z.shiftl 1 k) = Z.shiftl 1 k.
Proof.
  intros Hk. apply u32_id. rewrite Z.shiftl_1_l. split; [apply Z.pow_nonneg; lia|].
  change 4294967296 with (2 ^ 32). apply Z.pow_lt_mono_r; lia.
Qed.

Lemma lor_u32 a b : is_u32 a -> is_u32 b -> is_u32 (Z.lor a b).
Proof. apply (lor_range 32). lia. Qed.

Lemma shiftr_u32 a n : 0 <= n -> is_u32 a -> is_u32 (Z.shiftr a n).
Proof.
  unfold is_u32. intros Hn Ha. rewrite Z.shiftr_div_pow2 by done.
  assert (0 < 2 ^ n) by (apply Z.pow_pos_nonneg; lia). split; [apply Z.div_pos; lia|].
  apply Z.div_lt_upper_bound; [lia|]. nia.
Qed.

Lemma bits_above_u32 a i : is_u32 a -> 32 <= i -> Z.testbit a i = false.
Proof.
  unfold is_u32. intros Ha Hi. destruct (decide (a = 0)) as [->|]; [apply Z.bits_0|].
  apply Z.bits_above_log2; [lia|]. assert (Z.log2 a < 32); [|lia]. apply Z.log2_lt_pow2; [lia|]. change (2 ^ 32) with 4294967296. lia.
Qed.

Lemma record_window B S t n :
  -32768 <= n - B < 32768 -> (forall x, S x -> x < B + 32) -> tracks_window B S t ->
  tracks_window (Z.max B (n - 31)) (fun x => S x \/ x = n) (record (u16 n) t).
Proof.
  intros Hw Htop (Hb & Hm & Hbits). unfold record. rewrite Hb.
  assert (negb (u16 n =? u16 B) && negb (seqIsNewer (u16 n) (u16 B)) = (n <? B)) as ->.
  { unfold seqIsNewer, u16. destruct (Z.ltb_spec n B); Z.div_mod_to_equations; lia. }
  assert (i16 (u16 n - u16 B) = n - B) as Hoff.
  { rewrite (i16_congr _ (n - B)); [apply i16_small; lia|]. unfold u16. Z.div_mod_to_equations. lia. }
  destruct (Z.ltb_spec n B) as [Hold|Hnew].
  { rewrite Z.max_l by lia. split_and!; [done|done|]. intros i Hi. rewrite Hbits by done. split; [auto|]. intros [|]; [done|lia]. }
  rewrite Hoff. unfold kAckMaskWindow. destruct (Z.leb_spec 32 (n - B)) as [Hfar|Hnear].
  - rewrite Z.max_r by lia. rewrite (u16_id (n - B - 32 + 1)) by (unfold is_u16; lia).
    set (m := if 32 <=? n - B - 32 + 1 then 0 else Z.shiftr (mask t) (n - B - 32 + 1)).
    assert (is_u32 m) as Hm' by (unfold m; case_ifs; [done|apply shiftr_u32; [lia|done]]).
    rewrite u32_bit by lia. split_and!.
    + cbn. unfold u16. Z.div_mod_to_equations. lia.
    + cbn. apply lor_u32; [done|]. rewrite <- (u32_bit (32 - 1)) by lia. apply u32_range.
    + intros i Hi. cbn [mask]. rewrite Z.lor_spec, testbit_bit, orb_true_iff, Z.eqb_eq by lia.
      assert (Z.testbit m i = true <-> S (n - 31 + i)) as ->; [|split; intros [|]; auto; lia].
      unfold m. destruct (Z.leb_spec 32 (n - B - 32 + 1)).
      * rewrite Z.bits_0. split; [done|]. intros Hs%Htop. lia.
      * rewrite Z.shiftr_spec by lia. destruct (decide (i + (n - B - 32 + 1) < 32)).
        { rewrite Hbits by lia. replace (B + (i + (n - B - 32 + 1))) with (n - 31 + i) by lia. done. }
        rewrite bits_above_u32 by (done || lia). split; [done|]. intros Hs%Htop. lia.
  - rewrite Z.max_l by lia. rewrite u32_bit by lia. split_and!; [done| |].
    + cbn. apply lor_u32; [done|]. rewrite <- (u32_bit (n - B)) by lia. apply u32_range.
    + intros i Hi. cbn [mask]. rewrite Z.lor_spec, testbit_bit, orb_true_iff, Z.eqb_eq by lia.
      rewrite Hbits by done. split; (intros [|]; [auto|right; lia]).
Qed.

(** ** Frames on the wire *)

Lemma getU32_of v s : is_u32 v -> s = le32 v -> getU32 s = v.
Proof. intros Hv ->. rewrite <- (app_nil_r (le32 v)), getU32_le32. by apply u32_id. Qed.

Lemma getU16_of v s : is_u16 v -> s = le16 v -> getU16 s = v.
Proof. intros Hv ->. rewrite <- (app_nil_r (le16 v)), getU16_le16. by apply u16_id. Qed.

Ltac explode out :=
  repeat (destruct out as [|? out]; [exfalso; match goal with H : (_ <= length _)%nat |- _ => cbn in H; lia end|]).

Lemma ackmask_roundtrip_at m out :
  is_u16 (base_seq m) -> is_u32 (mask m) -> (kAckMaskBytes <= length out)%nat ->
  let '(n, out') := encodeAckMask m out in n = kAckMaskBytes /\ decodeAckMask (take n out') = Ok m.
Proof.
  intros Hb Hm Hl. unfold kAckMaskBytes in *. explode out. destruct m as [b m].
  match goal with |- context [encodeAckMask ?x ?o] =>
    assert (encodeAckMask x o = (6%nat, (le16 b ++ le32 m) ++ out)) as -> by reflexivity end.
  rewrite take_app_length' by done. split; [done|].
  change (@Ok _ DecodeError (mkAckMask (getU16 (le16 b)) (getU32 (le32 m))) = Ok (mkAckMask b m)).
  by rewrite (getU16_of b), (getU32_of m).
Qed.

Lemma clock_reply_roundtrip_at r out :
  is_u32 (cl_t0 r) -> is_u32 (cl_t1 r) -> is_u32 (cl_t2 r) -> (kClockReplyBytes <= length out)%nat ->
  let '(n, out') := encodeClockReply (cl_t0 r) (cl_t1 r) (cl_t2 r) out in
  n = kClockReplyBytes /\ decodeClockReply (take n out') = Ok r.
Proof.
  intros H0 H1 H2 Hl. unfold kClockReplyBytes in *. explode out. destruct r as [a b c].
  match goal with |- context [encodeClockReply ?x ?y ?z ?o] =>
    assert (encodeClockReply x y z o = (12%nat, (le32 a ++ le32 b ++ le32 c) ++ out)) as -> by reflexivity end.
  rewrite take_app_length' by done. split; [done|].
  change (@Ok _ DecodeError (mkClockReply (getU32 (le32 a)) (getU32 (le32 b)) (getU32 (le32 c))) = Ok (mkClockReply a b c)).
  by rewrite (getU32_of a), (getU32_of b), (getU32_of c).
Qed.

Lemma beacon_roundtrip_at b out :
  is_u32 (bc_boot_id b) -> length (bc_etag b) = limits.etag_bytes -> (kBeaconFrameBytes <= length out)%nat ->
  let '(n, out') := encodeBeacon b out in n = kBeaconFrameBytes /\ decodeBeacon (take n out') = Ok b.
Proof.
  intros Hb He Hl. unfold kBeaconFrameBytes, limits.etag_bytes in *. explode out.
  destruct b as [id etag po]. cbn in Hb, He. do 8 (destruct etag as [|? etag]; [done|]). destruct etag; [|done].
  match goal with |- context [encodeBeacon (mkBeacon id ?e po) ?o] =>
    assert (encodeBeacon (mkBeacon id e po) o = (13%nat, (le32 id ++ e ++ [if po then 1 else 0]) ++ out)) as ->
      by (destruct po; reflexivity);
    rewrite take_app_length' by done; split; [done|];
    change (@Ok _ DecodeError (mkBeacon (getU32 (le32 id)) e (negb ((if po then 1 else 0) =? 0))) = Ok (mkBeacon id e po)) end.
  rewrite (getU32_of id) by done. by destruct po.
Qed.

(** * Properties *)

(** The window's base after the (unwrapped) numbers [ns] arrived, and the
    condition that each was within half the sequence space of it. *)
Fixpoint window_base (B : Z) (ns : list Z) : Z :=
  match ns with [] => B | n :: ns => window_base (Z.max B (n - 31)) ns end.
Fixpoint within_reach (B : Z) (ns : list Z) : Prop :=
  match ns with [] => True | n :: ns => -32768 <= n - B < 32768 /\ within_reach (Z.max B (n - 31)) ns end.

(** The acknowledgement bitmap is truthful: after any sequence of arrivals,
    in any order, with repetitions and across any number of 16-bit
    wrap-arounds, the tracker's base is the newest number minus 31 (or the
    initial base), and bit [i] is set if and only if number [base + i] did
    arrive. *)
Theorem ack_window_exact (B : Z) (ns : list Z) :
  within_reach B ns ->
  let t := foldl (fun t n => record (u16 n) t) (ackTracker (u16 B)) ns in
  base_seq t = u16 (window_base B ns) /\
  forall i, 0 <= i < 32 -> Z.testbit (mask t) i = true <-> window_base B ns + i ∈ ns.
Proof.
  intros Hw.
  assert (forall ns B S t, within_reach B ns -> (forall x, S x -> x < B + 32) -> tracks_window B S t ->
    tracks_window (window_base B ns) (fun x => S x \/ x ∈ ns) (foldl (fun t n => record (u16 n) t) t ns)) as Hgen.
  { clear. induction ns as [|n ns IH]; intros B S t Hw Htop Ht; cbn [window_base foldl].
    - destruct Ht as (Hb & Hm & Hbits). split_and!; [done|done|]. intros i Hi. rewrite Hbits by done. set_solver.
    - destruct Hw as [Hn Hw]. pose proof (record_window B S t n Hn Htop Ht) as Ht'.
      assert (forall x, S x \/ x = n -> x < Z.max B (n - 31) + 32) as Htop' by (intros x [Hx%Htop| ->]; lia).
      destruct (IH _ _ _ Hw Htop' Ht') as (Hb & Hm & Hbits).
      split_and!; [done|done|]. intros i Hi. rewrite Hbits by done. rewrite elem_of_cons. tauto. }
  destruct (Hgen ns B (fun _ => False) (ackTracker (u16 B)) Hw) as (Hb & _ & Hbits); [done| |].
  { split_and!; [done|done|]. intros i Hi. cbn. by rewrite Z.bits_0. }
  split; [done|]. intros i Hi. rewrite Hbits by done. tauto.
Qed.

Lemma ack_window_exact_witness :
  let t := foldl (fun t n => record (u16 n) t) (ackTracker (u16 65530)) [65531; 65570; 65540; 65531] in
  base_seq t = 3 /\ (Z.testbit (mask t) 31 = true <-> 65539 + 31 ∈ [65531; 65570; 65540; 65531]).
Proof.
  destruct (ack_window_exact 65530 [65531; 65570; 65540; 65531]) as [H1 H2]; [cbn; lia|].
  split; [rewrite H1; reflexivity|apply (H2 31); lia].
Defined.

(** Clock synchronisation is as good as the exchange allows: for a hub
    clock [off] us ahead of the client's, any wrapped readings and any
    non-negative path delays and hub hold time, the computed round-trip time is
    exactly the sum of the two path delays, and the computed offset differs
    from the true one by at most half of it (half the path asymmetry). *)
Theorem clock_sync_bound (c off up hold down : Z) :
  0 <= up -> 0 <= hold -> 0 <= down -> up + hold + down < 2147483648 ->
  -2147483648 <= off + up < 2147483648 -> -2147483648 <= off - down < 2147483648 ->
  let s := computeClockSync (u32 c) (u32 (c + off + up)) (u32 (c + off + up + hold)) (u32 (c + up + hold + down)) in
  rttUs s = up + down /\ offsetUs s = Z.quot (2 * off + up - down) 2 /\
  2 * Z.abs (offsetUs s - off) <= up + down + 1.
Proof.
  intros Hup Hh Hd Hsum H1 H2 s. unfold s, computeClockSync.
  assert (timeDelta (u32 (c + off + up)) (u32 c) = off + up) as ->
    by (replace (c + off + up) with (c + (off + up)) by lia; by apply timeDelta_window).
  assert (timeDelta (u32 (c + off + up + hold)) (u32 (c + up + hold + down)) = off - down) as ->
    by (replace (c + off + up + hold) with (c + up + hold + down + (off - down)) by lia; by apply timeDelta_window).
  assert (timeDelta (u32 (c + up + hold + down)) (u32 c) = up + hold + down) as ->
    by (replace (c + up + hold + down) with (c + (up + hold + down)) by lia; apply timeDelta_window; lia).
  assert (timeDelta (u32 (c + off + up + hold)) (u32 (c + off + up)) = hold) as -> by (apply timeDelta_window; lia).
  cbn [offsetUs rttUs]. replace (off + up + (off - down)) with (2 * off + up - down) by lia.
  assert (i32 (Z.quot (2 * off + up - down) 2) = Z.quot (2 * off + up - down) 2) as ->.
  { assert (-2147483648 <= Z.quot (2 * off + up - down) 2 < 2147483648) by (Z.quot_rem_to_equations; lia).
    unfold i32, u32. destruct (Z.ltb_spec (Z.quot (2 * off + up - down) 2 mod 4294967296) 2147483648);
      Z.div_mod_to_equations; lia. }
  split_and!; [unfold u32; rewrite Z.mod_small; lia|done|]. Z.quot_rem_to_equations. lia.
Qed.

Lemma clock_sync_bound_witness :
  let s := computeClockSync (u32 4294967000) (u32 (4294967000 - 5000 + 300)) (u32 (4294967000 - 5000 + 300 + 50))
             (u32 (4294967000 + 300 + 50 + 100)) in
  rttUs s = 400 /\ offsetUs s = -4900.
Proof.
  destruct (clock_sync_bound 4294967000 (-5000) 300 50 100) as (H1 & H2 & _); try lia.
  split; [exact H1|exact H2].
Defined.

(** The raw-plane frames survive the wire: acknowledgement masks, clock
    replies and beacons with fields in range decode to what was encoded, from
    any buffer that is large enough. *)
Theorem raw_frames_roundtrip (out : bytes) :
  (forall m, is_u16 (base_seq m) -> is_u32 (mask m) -> (kAckMaskBytes <= length out)%nat ->
     let '(n, out') := encodeAckMask m out in n = kAckMaskBytes /\ decodeAckMask (take n out') = Ok m) /\
  (forall r, is_u32 (cl_t0 r) -> is_u32 (cl_t1 r) -> is_u32 (cl_t2 r) -> (kClockReplyBytes <= length out)%nat ->
     let '(n, out') := encodeClockReply (cl_t0 r) (cl_t1 r) (cl_t2 r) out in
     n = kClockReplyBytes /\ decodeClockReply (take n out') = Ok r) /\
  (forall b, is_u32 (bc_boot_id b) -> length (bc_etag b) = limits.etag_bytes -> (kBeaconFrameBytes <= length out)%nat ->
     let '(n, out') := encodeBeacon b out in n = kBeaconFrameBytes /\ decodeBeacon (take n out') = Ok b).
Proof. split_and!; intros; [by apply ackmask_roundtrip_at|by apply clock_reply_roundtrip_at|by apply beacon_roundtrip_at]. Qed.
