(* ===== verification/Crypto.v ===== *)
(** * Crypto: SHA-256, HMAC-SHA256 and the injected interfaces

    wire/sha256.hpp, wire/hmac_sha256.hpp, core/crypto.hpp and core/rng.hpp. The
    classes [IRandom] and [ICrypto] are the interfaces the pairing code is
    written against; the implementations shipped with the library are their
    instances here. *)

From S2P Require Import Prelude.
Local Open Scope Z_scope.

(** ** Sha256 *)

Module Sha256.
Definition kDigestBytes : nat := 32.
Definition kBlockBytes : nat := 64.

(** The eight state words. *)
Record Regs := mkRegs { ra : Z; rb : Z; rc : Z; rd : Z; re : Z; rf : Z; rg : Z; rh : Z }.
Record Sha256 := mkSha { _state : Regs; _bitlen : Z; _buf : bytes; _bufLen : nat }.

Definition H0 : Regs :=
  mkRegs 0x6a09e667 0xbb67ae85 0x3c6ef372 0xa54ff53a 0x510e527f 0x9b05688c 0x1f83d9ab 0x5be0cd19.

(** [reset] leaves the block buffer as it is. *)
Definition reset (s : Sha256) : Sha256 := mkSha H0 0 (_buf s) 0.
Definition init : Sha256 := reset (mkSha (mkRegs 0 0 0 0 0 0 0 0) 0 (replicate kBlockBytes 0) 0).

Definition rotr (x n : Z) : Z := Z.lor (Z.shiftr x n) (u32 (Z.shiftl x (32 - n))).

Definition kK : list Z :=
  [1116352408; 1899447441; 3049323471; 3921009573; 961987163; 1508970993; 2453635748; 2870763221;
   3624381080; 310598401; 607225278; 1426881987; 1925078388; 2162078206; 2614888103; 3248222580;
   3835390401; 4022224774; 264347078; 604807628; 770255983; 1249150122; 1555081692; 1996064986;
   2554220882; 2821834349; 2952996808; 3210313671; 3336571891; 3584528711; 113926993; 338241895;
   666307205; 773529912; 1294757372; 1396182291; 1695183700; 1986661051; 2177026350; 2456956037;
   2730485921; 2820302411; 3259730800; 3345764771; 3516065817; 3600352804; 4094571909; 275423344;
   430227734; 506948616; 659060556; 883997877; 958139571; 1322822218; 1537002063; 1747873779;
   1955562222; 2024104815; 2227730452; 2361852424; 2428436474; 2756734187; 3204031479; 3329325298].

(** The source's comment on the table: the first 32 bits of the fractional
    parts of the cube roots of the first 64 primes. With [r] the integer part of
    the root, [r * 2^32 + k] is the root of [p * 2^96] rounded down. *)
Definition is_prime (p : Z) : bool :=
  (1 <? p) && forallb (fun d => negb (p mod d =? 0)) (seqZ 2 (p - 2)).

Definition cube_root_digits (p k : Z) : bool :=
  existsb (fun r =>
      let c := r * 4294967296 + k in
      (c ^ 3 <=? p * 2 ^ 96) && (p * 2 ^ 96 <? (c + 1) ^ 3))
    (seqZ 1 6).

Lemma kK_cube_roots :
  forallb (fun pk => cube_root_digits (fst pk) (snd pk))
    (zip (List.filter is_prime (seqZ 2 310)) kK) = true
  /\ length (List.filter is_prime (seqZ 2 310)) = 64%nat /\ length kK = 64%nat.
Proof. vm_compute. auto. Qed.

(** [m[0..15]]: big-endian words of the block. *)
Definition be32_at (j : nat) (block : bytes) : Z :=
  Z.lor (Z.lor (Z.lor (Z.shiftl (byte_at j block) 24) (Z.shiftl (byte_at (j + 1) block) 16))
    (Z.shiftl (byte_at (j + 2) block) 8)) (byte_at (j + 3) block).

(** [m[i]] for [i >= 16], from the words before it. *)
Definition extend (m : list Z) (i : nat) : list Z :=
  let w k := nth k m 0 in
  let s0 := Z.lxor (Z.lxor (rotr (w (i - 15)%nat) 7) (rotr (w (i - 15)%nat) 18)) (Z.shiftr (w (i - 15)%nat) 3) in
  let s1 := Z.lxor (Z.lxor (rotr (w (i - 2)%nat) 17) (rotr (w (i - 2)%nat) 19)) (Z.shiftr (w (i - 2)%nat) 10) in
  m ++ [u32 (w (i - 16)%nat + s0 + w (i - 7)%nat + s1)].

Definition schedule (block : bytes) : list Z :=
  foldl extend ((fun i => be32_at (i * 4) block) <$> seq 0 16) (seq 16 48).

Definition round (r : Regs) (km : Z * Z) : Regs :=
  let '(mkRegs a b c d e f g h) := r in
  let ep1 := Z.lxor (Z.lxor (rotr e 6) (rotr e 11)) (rotr e 25) in
  let ch := Z.lxor (Z.land e f) (Z.land (u32 (Z.lnot e)) g) in
  let t1 := u32 (h + ep1 + ch + km.1 + km.2) in
  let ep0 := Z.lxor (Z.lxor (rotr a 2) (rotr a 13)) (rotr a 22) in
  let maj := Z.lxor (Z.lxor (Z.land a b) (Z.land a c)) (Z.land b c) in
  let t2 := u32 (ep0 + maj) in
  mkRegs (u32 (t1 + t2)) a b c (u32 (d + t1)) e f g.

(** [transform]: the new [_state] from one 64-byte block. *)
Definition transform (st : Regs) (block : bytes) : Regs :=
  let r := foldl round st (zip kK (schedule block)) in
  mkRegs (u32 (ra st + ra r)) (u32 (rb st + rb r)) (u32 (rc st + rc r)) (u32 (rd st + rd r))
         (u32 (re st + re r)) (u32 (rf st + rf r)) (u32 (rg st + rg r)) (u32 (rh st + rh r)).

(** The loop over the full blocks of the caller's span. *)
Fixpoint fullBlocks (fuel : nat) (data : bytes) (st : Regs) (bitlen : Z) (offset : nat) : Regs * Z * nat :=
  match fuel with
  | O => (st, bitlen, offset)
  | S fuel =>
      if (kBlockBytes <=? length data - offset)%nat
      then fullBlocks fuel data (transform st (subspan offset kBlockBytes data)) (u64 (bitlen + 512)) (offset + kBlockBytes)
      else (st, bitlen, offset)
  end.

Definition topUp (data : bytes) (s : Sha256) : nat * Sha256 :=
  if (0 <? _bufLen s)%nat then
    let need := (kBlockBytes - _bufLen s)%nat in
    let tk := if (length data <? need)%nat then length data else need in
    let buf := write_at (_bufLen s) (take tk data) (_buf s) in
    let bufLen := (_bufLen s + tk)%nat in
    if (bufLen =? kBlockBytes)%nat
    then (tk, mkSha (transform (_state s) buf) (u64 (_bitlen s + 512)) buf 0)
    else (tk, mkSha (_state s) (_bitlen s) buf bufLen)
  else (0%nat, s).

Definition update (data : bytes) (s : Sha256) : Sha256 :=
  let '(offset, s) := topUp data s in
  let '(st, bitlen, offset) := fullBlocks (length data) data (_state s) (_bitlen s) offset in
  let rem := (length data - offset)%nat in
  if (0 <? rem)%nat
  then mkSha st bitlen (write_at 0 (drop offset data) (_buf s)) rem
  else mkSha st bitlen (_buf s) (_bufLen s).

Definition putBitlen (bitlen : Z) (buf : bytes) : bytes :=
  foldl (fun buf b => <[(63 - b)%nat := u8 (Z.shiftr bitlen (8 * Z.of_nat b))]> buf) buf (seq 0 8).

Definition word_bytes (w : Z) : bytes := [u8 (Z.shiftr w 24); u8 (Z.shiftr w 16); u8 (Z.shiftr w 8); u8 w].

Definition digest (r : Regs) : bytes :=
  word_bytes (ra r) ++ word_bytes (rb r) ++ word_bytes (rc r) ++ word_bytes (rd r) ++
  word_bytes (re r) ++ word_bytes (rf r) ++ word_bytes (rg r) ++ word_bytes (rh r).

Definition final (s : Sha256) : bytes :=
  let '(st, buf) :=
    if (_bufLen s <? 56)%nat
    then (_state s, write_at (_bufLen s) (0x80 :: replicate (55 - _bufLen s) 0) (_buf s))
    else
      let buf := write_at (_bufLen s) (0x80 :: replicate (63 - _bufLen s) 0) (_buf s) in
      (transform (_state s) buf, write_at 0 (replicate 56 0) buf) in
  let bitlen := u64 (_bitlen s + Z.of_nat (_bufLen s) * 8) in
  digest (transform st (putBitlen bitlen buf)).

Definition hash (data : bytes) : bytes := final (update data init).
End Sha256.

(** ** HMAC *)

Definition hmacSha256 (key msg : bytes) : bytes :=
  let B := 64%nat in
  let k := if (B <? length key)%nat then write_at 0 (Sha256.hash key) (replicate B 0) else write_at 0 key (replicate B 0) in
  let ipad := (fun b => Z.lxor b 0x36) <$> k in
  let opad := (fun b => Z.lxor b 0x5C) <$> k in
  let innerHash := Sha256.final (Sha256.update msg (Sha256.update ipad Sha256.init)) in
  Sha256.final (Sha256.update innerHash (Sha256.update opad Sha256.init)).

Definition pairingPinProof (pinAscii nonce : bytes) : bytes := take 16 (hmacSha256 pinAscii nonce).

(** ** The injected interfaces *)

(** A generator fills a span with that many bytes and moves on. *)
Class IRandom (R : Type) : Type := {
  fill : R -> nat -> bytes * R;
  fill_length : forall r n, length (fill r n).1 = n;
  fill_bytes : forall r n, is_bytes (fill r n).1;
}.

(** The documented contract: 32 bytes or nothing, and an equality test. *)
Class ICrypto (C : Type) : Type := {
  icHmac : C -> bytes -> bytes -> option bytes;
  constantTimeEqual : C -> bytes -> bytes -> bool;
  icHmac_length : forall c k m mac, icHmac c k m = Some mac -> length mac = 32%nat;
  constantTimeEqual_spec : forall c a b, is_bytes a -> is_bytes b -> constantTimeEqual c a b = true <-> a = b;
}.

Module FixedSequenceRandom.
Record rng := mk { _seq : bytes; _pos : nat }.

Definition nextByte (r : rng) : Z * rng :=
  match _seq r with
  | [] => (0, r)
  | _ => (u8 (byte_at (_pos r) (_seq r)), mk (_seq r) ((_pos r + 1) mod length (_seq r)))
  end.

(** Four bytes, the lowest first. *)
Definition nextU32 (r : rng) : Z * rng :=
  let '(b0, r) := nextByte r in
  let '(b1, r) := nextByte r in
  let '(b2, r) := nextByte r in
  let '(b3, r) := nextByte r in
  (Z.lor (Z.lor (Z.lor b0 (Z.shiftl b1 8)) (Z.shiftl b2 16)) (Z.shiftl b3 24), r).

Fixpoint fill (r : rng) (n : nat) : bytes * rng :=
  match n with
  | O => ([], r)
  | S n => let '(b, r) := nextByte r in let '(bs, r) := fill r n in (b :: bs, r)
  end.
End FixedSequenceRandom.

Module XorShift32.
Definition make (seed : Z) : Z := if seed =? 0 then 0xB007CAFE else seed.

Definition nextU32 (x : Z) : Z :=
  let x := Z.lxor x (u32 (Z.shiftl x 13)) in
  let x := Z.lxor x (Z.shiftr x 17) in
  Z.lxor x (u32 (Z.shiftl x 5)).

Fixpoint fill (s : Z) (n : nat) : bytes * Z :=
  match n with
  | O => ([], s)
  | S n => let s := nextU32 s in let '(bs, s') := fill s n in (u8 s :: bs, s')
  end.
End XorShift32.

Module SoftwareCrypto.
(** [hmacSha256] into a span of [outSize] bytes. *)
Definition hmacSha256 (outSize : nat) (key message : bytes) : option bytes :=
  if (outSize <? 32)%nat then None else Some (hmacSha256 key message).

(** Accumulates every difference; the lengths are compared first. *)
Definition constantTimeEqual (a b : bytes) : bool :=
  if negb (length a =? length b)%nat then false
  else foldl (fun diff ab => u8 (Z.lor diff (Z.lxor ab.1 ab.2))) 0 (zip a b) =? 0.
End SoftwareCrypto.

(** * Theorems *)

(** ** Streaming *)

Module Sha256Facts.
Import Sha256.

(** FIPS 180-4: the padded message, cut into blocks. *)
Definition be64 (v : Z) : bytes := (fun b => u8 (Z.shiftr v (8 * Z.of_nat b))) <$> [7; 6; 5; 4; 3; 2; 1; 0]%nat.
Definition padding (len : nat) : bytes :=
  0x80 :: replicate ((119 - len mod 64) mod 64) 0 ++ be64 (u64 (8 * Z.of_nat len)).

Lemma length_be64 v : length (be64 v) = 8%nat.
Proof. done. Qed.

(** [n] blocks of a message absorbed by the compression function. *)
Fixpoint absorb (n : nat) (st : Regs) (m : bytes) : Regs :=
  match n with
  | O => st
  | S n => absorb n (transform st (take 64 m)) (drop 64 m)
  end.

Definition sha256 (m : bytes) : bytes :=
  let p := m ++ padding (length m) in digest (absorb (length p / 64) H0 p).

Lemma absorb_add n k st m : absorb (n + k) st m = absorb k (absorb n st m) (drop (64 * n) m).
Proof.
  revert st m. induction n as [|n IH]; intros st m; [done|].
  cbn [Nat.add absorb]. rewrite IH, drop_drop. do 2 f_equal. lia.
Qed.

Lemma absorb_app n st m x : (64 * n <= length m)%nat -> absorb n st (m ++ x) = absorb n st m.
Proof.
  revert st m. induction n as [|n IH]; intros st m Hn; [done|]. cbn [absorb].
  rewrite take_app_le, drop_app_le by lia. apply IH. rewrite length_drop. lia.
Qed.

Lemma absorb_S n st m : absorb (S n) st m = transform (absorb n st m) (subspan (64 * n) 64 m).
Proof. rewrite <- Nat.add_1_r, absorb_add. done. Qed.

(** What the object holds after absorbing [m]. *)
Record holds (m : bytes) (s : Sha256) : Prop := {
  h_len : _bufLen s = (length m mod 64)%nat;
  h_state : _state s = absorb (length m / 64) H0 m;
  h_bits : _bitlen s = u64 (512 * Z.of_nat (length m / 64));
  h_size : length (_buf s) = 64%nat;
  h_buf : take (_bufLen s) (_buf s) = drop (64 * (length m / 64)) m;
}.

Lemma init_holds : holds [] init.
Proof. split; done. Qed.

(** A message that ends at a block boundary, extended by whole blocks of [data]. *)
Lemma fullBlocks_spec fuel data k m st bl off :
  (length data - off < 64 * (fuel + 1))%nat -> (off <= length data)%nat ->
  length m = (64 * k)%nat -> st = absorb k H0 m -> bl = u64 (512 * Z.of_nat k) ->
  let j := ((length data - off) / 64)%nat in
  fullBlocks fuel data st bl off =
    (absorb (k + j) H0 (m ++ drop off data), u64 (512 * Z.of_nat (k + j)), (off + 64 * j)%nat).
Proof.
  revert k m st bl off. induction fuel as [|fuel IH]; intros k m st bl off Hf Ho Hm -> -> j; cbn [fullBlocks].
  - assert (j = 0%nat) as -> by (apply Nat.div_small; lia).
    rewrite !Nat.add_0_r, absorb_app by lia. do 2 f_equal; lia.
  - unfold kBlockBytes. destruct (Nat.leb_spec 64 (length data - off)) as [Hle|Hlt].
    + rewrite (IH (S k) (m ++ subspan off 64 data)); cycle 1.
      { lia. } { lia. } { rewrite length_app, length_subspan; lia. }
      { rewrite absorb_S, absorb_app by lia. f_equal. unfold subspan at 2. rewrite drop_app_ge by lia.
        rewrite Hm, Nat.sub_diag. rewrite take_ge; [done|]. rewrite drop_0, length_subspan; lia. }
      { solve_word. }
      assert (j = S ((length data - (off + 64)) / 64)) as ->.
      { unfold j. replace (length data - off)%nat with (1 * 64 + (length data - (off + 64)))%nat by lia.
        rewrite Nat.div_add_l by lia. lia. }
      rewrite <- app_assoc. unfold subspan. rewrite <- (drop_drop data 64 off), take_drop.
      rewrite (Nat.add_succ_r k). f_equal. lia.
    + assert (j = 0%nat) as -> by (apply Nat.div_small; lia).
      rewrite !Nat.add_0_r, absorb_app by lia. do 2 f_equal; lia.
Qed.

(** Absorbing a chunk that starts on a block boundary. *)
Lemma update_aligned m data s off k :
  (off <= length data)%nat -> length m = (64 * k)%nat -> _state s = absorb k H0 m ->
  _bitlen s = u64 (512 * Z.of_nat k) -> length (_buf s) = 64%nat -> _bufLen s = 0%nat ->
  holds (m ++ drop off data)
    (let '(st, bitlen, offset) := fullBlocks (length data) data (_state s) (_bitlen s) off in
     let rem := (length data - offset)%nat in
     if (0 <? rem)%nat then mkSha st bitlen (write_at 0 (drop offset data) (_buf s)) rem
     else mkSha st bitlen (_buf s) (_bufLen s)).
Proof.
  intros Ho Hm Hst Hbl Hb Hbuf. rewrite (fullBlocks_spec _ data k m) by (done || lia).
  set (j := ((length data - off) / 64)%nat). set (r := ((length data - off) mod 64)%nat).
  assert (length data - off = 64 * j + r)%nat as Hj by apply Nat.div_mod_eq.
  assert (r < 64)%nat as Hr by (apply Nat.mod_upper_bound; lia).
  assert (length (m ++ drop off data) = r + (k + j) * 64)%nat as Hl by (rewrite length_app, length_drop; lia).
  assert (length (m ++ drop off data) / 64 = k + j)%nat as Hq.
  { rewrite Hl, Nat.div_add, Nat.div_small by lia. lia. }
  assert (length (m ++ drop off data) mod 64 = r)%nat as Hmod.
  { rewrite Hl, Nat.Div0.mod_add, Nat.mod_small by lia. lia. }
  assert (drop (64 * (k + j)) (m ++ drop off data) = drop (off + 64 * j) data) as Hd.
  { rewrite drop_app_ge, drop_drop by lia. f_equal. lia. }
  replace (length data - (off + 64 * j))%nat with r by lia. cbv zeta.
  assert (length (drop (off + 64 * j) data) = r) as Hlr by (rewrite length_drop; lia).
  destruct (Nat.ltb_spec 0 r) as [Hpos|Hz]; split; cbn [_bufLen _state _bitlen _buf]; rewrite ?Hq, ?Hmod, ?Hd; try done.
  - rewrite length_write_at; lia.
  - rewrite <- Hlr at 1. by apply (write_at_read 0); lia.
  - lia.
  - rewrite Hbuf. symmetry. apply length_zero_iff_nil. lia.
Qed.

Lemma update_holds m data s : holds m s -> holds (m ++ data) (update data s).
Proof.
  intros [Hl Hst Hbl Hb Hbuf]. unfold update, topUp, kBlockBytes.
  pose proof (Nat.div_mod_eq (length m) 64) as Hdm. set (k := (length m / 64)%nat) in *.
  pose proof (Nat.mod_upper_bound (length m) 64 ltac:(lia)) as Hr. rewrite Hl in *. set (r := (length m mod 64)%nat) in *.
  assert (length (drop (64 * k) m) = r) as Hlt by (rewrite length_drop; lia).
  destruct (Nat.ltb_spec 0 r) as [Hpos|Hz].
  2:{ rewrite <- (drop_0 data) at 1. apply (update_aligned _ _ _ _ k); [lia|lia|done|done|done|lia]. }
  set (tk := if (length data <? 64 - r)%nat then length data else (64 - r)%nat).
  assert (tk <= length data /\ r + tk <= 64)%nat as [Htk Htk'].
  { unfold tk. destruct (Nat.ltb_spec (length data) (64 - r)); lia. }
  assert (length (take tk data) = tk) as Hlk by (rewrite length_take; lia).
  assert (take (r + tk) (write_at r (take tk data) (_buf s)) = drop (64 * k) m ++ take tk data) as Htake.
  { unfold write_at. rewrite Hbuf, app_assoc. rewrite <- Hlt at 1. rewrite <- Hlk at 1.
    rewrite <- length_app. apply take_app_length. }
  destruct (Nat.eqb_spec (r + tk) 64) as [Hfull|Hpart].
  - rewrite <- (take_drop tk data) at 1. rewrite app_assoc.
    apply (update_aligned (m ++ take tk data) data _ _ (S k)); cbn [_state _bitlen _buf _bufLen].
    + lia.
    + rewrite length_app. lia.
    + rewrite absorb_S, absorb_app, Hst by lia. f_equal.
      rewrite Hfull, take_ge in Htake by (rewrite length_write_at; lia). rewrite Htake.
      unfold subspan. rewrite drop_app_le by lia. symmetry. apply take_ge. rewrite length_app, Hlt, Hlk. lia.
    + rewrite Hbl. solve_word.
    + rewrite length_write_at; lia.
    + done.
  - assert (tk = length data) as Htk2 by (unfold tk in *; destruct (Nat.ltb_spec (length data) (64 - r)); lia).
    rewrite Htk2, (take_ge data) in Htake by lia. rewrite Htk2, (take_ge data) by lia. cbn [_state _bitlen _buf _bufLen].
    assert (fullBlocks (length data) data (_state s) (_bitlen s) (length data) = (_state s, _bitlen s, length data)) as ->.
    { destruct (length data) as [|n] eqn:E; [done|]. cbn [fullBlocks]. unfold kBlockBytes. by rewrite E, Nat.sub_diag. }
    rewrite Nat.sub_diag. cbn [Nat.ltb Nat.leb _state _bitlen _buf _bufLen].
    assert (length (m ++ data) = (r + length data) + k * 64)%nat as Hlm by (rewrite length_app; lia).
    assert (length (m ++ data) / 64 = k)%nat as Hq by (rewrite Hlm, Nat.div_add, Nat.div_small by lia; lia).
    assert (length (m ++ data) mod 64 = r + length data)%nat as Hmod.
    { rewrite Hlm, Nat.Div0.mod_add, Nat.mod_small by lia. lia. }
    split; cbn [_state _bitlen _buf _bufLen]; rewrite ?Hq, ?Hmod; try done.
    + rewrite absorb_app by lia. done.
    + rewrite length_write_at; lia.
    + rewrite Htake, drop_app_le by lia. done.
Qed.

Lemma updates_hold chunks m s : holds m s -> holds (m ++ concat chunks) (foldl (fun s d => update d s) s chunks).
Proof.
  revert m s. induction chunks as [|d chunks IH]; intros m s H; cbn [foldl concat].
  - by rewrite app_nil_r.
  - rewrite app_assoc. apply IH. by apply update_holds.
Qed.

Lemma putBitlen_spec p q v : length p = 56%nat -> length q = 8%nat -> putBitlen v (p ++ q) = p ++ be64 v.
Proof.
  intros Hp Hq. do 8 (destruct q as [|? q]; [done|]). destruct q; [|done].
  unfold putBitlen, be64. cbn [foldl seq fmap list_fmap].
  repeat (rewrite insert_app_r_alt by lia; rewrite Hp; cbn [Nat.sub insert list_insert]). done.
Qed.

Lemma final_holds m s : holds m s -> final s = sha256 m.
Proof.
  intros [Hl Hst Hbl Hb Hbuf]. unfold final, sha256, padding.
  pose proof (Nat.div_mod_eq (length m) 64) as Hdm. set (k := (length m / 64)%nat) in *.
  pose proof (Nat.mod_upper_bound (length m) 64 ltac:(lia)) as Hr. rewrite Hl in *. set (r := (length m mod 64)%nat) in *.
  assert (u64 (_bitlen s + Z.of_nat r * 8) = u64 (8 * Z.of_nat (length m))) as ->.
  { rewrite Hbl, Hdm. unfold u64. rewrite Zplus_mod_idemp_l. f_equal. lia. }
  set (v := u64 (8 * Z.of_nat (length m))). set (t := drop (64 * k) m) in *.
  assert (length t = r) as Hlt by (unfold t; rewrite length_drop; lia).
  assert (forall n x, absorb (k + n) H0 (m ++ x) = absorb n (_state s) (t ++ x)) as Habs.
  { intros n x. rewrite absorb_add, absorb_app, Hst by lia. unfold t. by rewrite drop_app_le by lia. }
  destruct (Nat.ltb_spec r 56) as [Hs|Hs].
  - assert ((119 - r) mod 64 = 55 - r)%nat as ->.
    { replace (119 - r)%nat with ((55 - r) + 1 * 64)%nat by lia. rewrite Nat.Div0.mod_add. apply Nat.mod_small. lia. }
    assert (write_at r (128 :: replicate (55 - r) 0) (_buf s) =
      (t ++ 128 :: replicate (55 - r) 0) ++ drop 56 (_buf s)) as ->.
    { unfold write_at. rewrite Hbuf, <- app_assoc. cbn [length]. rewrite length_replicate. do 2 f_equal. f_equal. lia. }
    rewrite putBitlen_spec; [|rewrite length_app; cbn [length]; rewrite length_replicate; lia|rewrite length_drop; lia].
    replace (length _ / 64)%nat with (k + 1)%nat.
    + rewrite Habs. cbn [absorb]. do 2 f_equal. rewrite <- app_assoc. symmetry. apply take_ge.
      rewrite !length_app. cbn [length]. rewrite length_replicate, length_be64. lia.
    + rewrite length_app. cbn [length]. rewrite length_app, length_replicate, length_be64.
      replace (length m + _)%nat with ((k + 1) * 64)%nat by lia. symmetry. apply Nat.div_mul. lia.
  - assert ((119 - r) mod 64 = 119 - r)%nat as -> by (apply Nat.mod_small; lia).
    assert (write_at r (128 :: replicate (63 - r) 0) (_buf s) = t ++ 128 :: replicate (63 - r) 0) as ->.
    { unfold write_at. rewrite Hbuf, drop_ge; [by rewrite app_nil_r|]. cbn [length]. rewrite length_replicate. lia. }
    set (b1 := t ++ 128 :: replicate (63 - r) 0).
    assert (length b1 = 64%nat) as Hb1 by (unfold b1; rewrite length_app; cbn [length]; rewrite length_replicate; lia).
    rewrite write_at_0, length_replicate, putBitlen_spec; [|done|rewrite length_drop; lia].
    replace (length _ / 64)%nat with (k + 2)%nat.
    + rewrite Habs. cbn [absorb].
      assert (t ++ 128 :: replicate (119 - r) 0 ++ be64 v = b1 ++ replicate 56 0 ++ be64 v) as ->.
      { unfold b1. rewrite <- app_assoc. cbn [app]. rewrite (app_assoc _ (replicate 56 0)), <- replicate_add. do 4 f_equal. lia. }
      rewrite take_app_le, take_ge, drop_app_ge, Hb1, Nat.sub_diag, drop_0, take_ge by (done || lia). done.
    + rewrite length_app. cbn [length]. rewrite length_app, length_replicate, length_be64.
      replace (length m + _)%nat with ((k + 2) * 64)%nat by lia. symmetry. apply Nat.div_mul. lia.
Qed.
End Sha256Facts.

(** ** The shipped implementations meet the interfaces *)

Lemma ct_diff_zero xs d :
  is_u8 d -> Forall (fun ab => is_u8 ab.1 /\ is_u8 ab.2) xs ->
  foldl (fun diff ab => u8 (Z.lor diff (Z.lxor ab.1 ab.2))) d xs = 0 <-> d = 0 /\ Forall (fun ab => ab.1 = ab.2) xs.
Proof.
  revert d. induction xs as [|[a b] xs IH]; intros d Hd Hxs; cbn [foldl fst snd].
  { split; [intros; split; [done|constructor]|by intros [? _]]. }
  apply Forall_cons in Hxs as [[Ha Hb] Hxs]. cbn [fst snd] in Ha, Hb.
  assert (is_u8 (Z.lor d (Z.lxor a b))) as Hu by (apply (lor_range 8); [lia|done|]; by apply lxor_range).
  rewrite u8_id, IH, Forall_cons, Z.lor_eq_0_iff, Z.lxor_eq_0_iff by done. cbn [fst snd]. tauto.
Qed.

Lemma SoftwareCrypto_equal a b : is_bytes a -> is_bytes b -> SoftwareCrypto.constantTimeEqual a b = true <-> a = b.
Proof.
  intros Ha Hb. unfold SoftwareCrypto.constantTimeEqual. destruct (Nat.eqb_spec (length a) (length b)) as [Hl|Hl]; cbn [negb].
  - rewrite Z.eqb_eq, ct_diff_zero; [|done|].
    2:{ clear Hl. revert b Hb. induction Ha; intros [|y b] Hb; cbn; try constructor.
        - by apply Forall_cons in Hb as [? _].
        - apply IHHa. by apply Forall_cons in Hb as [_ ?]. }
    split; [|intros <-; split; [done|]].
    + intros [_ H]. clear Ha Hb. revert b Hl H. induction a as [|x a IH]; intros [|y b] Hl H; try done.
      apply Forall_cons in H as [Hxy H]. cbn [fst snd] in Hxy. subst y. f_equal. apply IH; [by injection Hl|done].
    + clear. induction a; by constructor.
  - split; [done|]. by intros ->.
Qed.

Lemma is_bytes_digest r : is_bytes (Sha256.digest r).
Proof. unfold Sha256.digest, Sha256.word_bytes. repeat (apply Forall_cons; split; [apply u8_range|]). constructor. Qed.

Lemma length_sha256 m : length (Sha256Facts.sha256 m) = 32%nat.
Proof. done. Qed.

(** RFC 2104 over the FIPS 180-4 hash. *)
Definition hmac_spec (key msg : bytes) : bytes :=
  let k0 := if (64 <? length key)%nat then Sha256Facts.sha256 key else key in
  let k := k0 ++ replicate (64 - length k0) 0 in
  Sha256Facts.sha256 (((fun b => Z.lxor b 0x5C) <$> k) ++
    Sha256Facts.sha256 (((fun b => Z.lxor b 0x36) <$> k) ++ msg)).

Lemma final_updates chunks :
  Sha256.final (foldl (fun s d => Sha256.update d s) Sha256.init chunks) = Sha256Facts.sha256 (concat chunks).
Proof. apply Sha256Facts.final_holds, (Sha256Facts.updates_hold chunks []), Sha256Facts.init_holds. Qed.

Lemma hash_spec m : Sha256.hash m = Sha256Facts.sha256 m.
Proof. rewrite <- (app_nil_r m) at 2. apply (final_updates [m]). Qed.

Lemma hmac_correct key msg : hmacSha256 key msg = hmac_spec key msg.
Proof.
  unfold hmacSha256, hmac_spec. cbv zeta. rewrite hash_spec.
  assert (forall k0, (length k0 <= 64)%nat -> write_at 0 k0 (replicate 64 0) = k0 ++ replicate (64 - length k0) 0) as Hpad.
  { intros k0 Hk. rewrite write_at_0, drop_replicate. done. }
  assert (forall a b, Sha256.final (Sha256.update b (Sha256.update a Sha256.init)) = Sha256Facts.sha256 (a ++ b)) as H2.
  { intros a b. rewrite <- (app_nil_r b) at 2. apply (final_updates [a; b]). }
  destruct (Nat.ltb_spec 64 (length key)); rewrite !H2, Hpad; try done; lia || (rewrite length_sha256; lia).
Qed.

Lemma length_hmac key msg : length (hmacSha256 key msg) = 32%nat.
Proof. rewrite hmac_correct. apply length_sha256. Qed.

Lemma is_bytes_hmac key msg : is_bytes (hmacSha256 key msg).
Proof. rewrite hmac_correct. apply is_bytes_digest. Qed.

#[global] Program Instance SoftwareCrypto_ICrypto : ICrypto unit := {
  icHmac _ k m := SoftwareCrypto.hmacSha256 32 k m;
  constantTimeEqual _ := SoftwareCrypto.constantTimeEqual;
}.
Next Obligation. intros _ k m mac [= <-]. apply length_hmac. Qed.
Next Obligation. exact (fun _ => SoftwareCrypto_equal). Qed.

#[global] Program Instance FixedSequence_IRandom : IRandom FixedSequenceRandom.rng := { fill := FixedSequenceRandom.fill }.
Next Obligation.
  intros r n. revert r. induction n as [|n IH]; intros r; [done|]. cbn.
  destruct (FixedSequenceRandom.nextByte r) as [b r']. specialize (IH r'). destruct (FixedSequenceRandom.fill r' n). cbn in *. lia.
Qed.
Next Obligation.
  intros r n. revert r. induction n as [|n IH]; intros r; [constructor|]. cbn.
  destruct (FixedSequenceRandom.nextByte r) as [b r'] eqn:E. specialize (IH r'). destruct (FixedSequenceRandom.fill r' n). cbn in *.
  constructor; [|done]. unfold FixedSequenceRandom.nextByte in E. case_match; simplify_eq; [done|apply u8_range].
Qed.

#[global] Program Instance XorShift32_IRandom : IRandom Z := { fill := XorShift32.fill }.
Next Obligation.
  intros r n. revert r. induction n as [|n IH]; intros r; [done|]. cbn.
  specialize (IH (XorShift32.nextU32 r)). destruct (XorShift32.fill (XorShift32.nextU32 r) n). cbn in *. lia.
Qed.
Next Obligation.
  intros r n. revert r. induction n as [|n IH]; intros r; [constructor|]. cbn.
  specialize (IH (XorShift32.nextU32 r)). destruct (XorShift32.fill (XorShift32.nextU32 r) n). cbn in *.
  constructor; [apply u8_range|done].
Qed.

(** ** Known answers *)

Example sha256_empty : Sha256.hash [] =
  Sha256.digest (Sha256.mkRegs 0xe3b0c442 0x98fc1c14 0x9afbf4c8 0x996fb924 0x27ae41e4 0x649b934c 0xa495991b 0x7852b855).
Proof. vm_compute. reflexivity. Qed.

Example sha256_abc : Sha256.hash [0x61; 0x62; 0x63] =
  Sha256.digest (Sha256.mkRegs 0xba7816bf 0x8f01cfea 0x414140de 0x5dae2223 0xb00361a3 0x96177a9c 0xb410ff61 0xf20015ad).
Proof. vm_compute. reflexivity. Qed.

(** C40. The incremental hasher is SHA-256 whatever the chunking: feeding a
    message in any pieces and finalizing gives the digest of the FIPS 180-4
    padded message absorbed block by block; and [hmacSha256] is the RFC 2104
    construction over it, for keys shorter and longer than a block. *)
Theorem sha256_hmac_correct (chunks : list bytes) (key msg : bytes) :
  Sha256.final (foldl (fun s d => Sha256.update d s) Sha256.init chunks) = Sha256Facts.sha256 (concat chunks) /\
  Sha256.hash (concat chunks) = Sha256Facts.sha256 (concat chunks) /\
  hmacSha256 key msg = hmac_spec key msg.
Proof. split_and!; [apply final_updates|apply hash_spec|apply hmac_correct]. Qed.
