(* ===== verification/Link.v ===== *)
(** * Link: the in-process binding

    transport/transport.hpp and transport/inprocess_binding.hpp: two endpoints joined
    by two directions, each a queue of at most 16 frames with the time of their
    delivery and a schedule of faults. Loss, jitter, reordering and duplication are
    drawn, in this order, from the one generator both directions share; the clock is
    read at every call. *)

From S2P Require Import Prelude Registry ByteIO Serial Frame Crypto.
Local Open Scope Z_scope.

Inductive CongestionSignal : Set := QueueWatermark | AckLossRate | NotifyQueueDepth | Simulated.

Module TransportProperties.
Record t := mk { mtu : Z; ordered : bool; reliable : bool; congestion : CongestionSignal }.
Definition init : t := mk (Z.of_nat (limits.min_transport_payload + kHeaderBytes)) false false Simulated.
End TransportProperties.

Module FaultProfile.
Record t := mk { mtu : Z; loss_pct : Z; dup_pct : Z; reorder_pct : Z; latency_us : Z; jitter_us : Z }.
Definition init : t := mk 250 0 0 0 0 0.
End FaultProfile.

(** ** The queue of a direction *)
Module FrameQueue.
Record Entry := mkEntry { frame : FrameBuffer.t; deliverAtUs : Z }.
Definition t := list Entry.
Definition kCapacity : nat := 16.

Definition push_back (fb : FrameBuffer.t) (at_ : Z) (q : t) : bool * t :=
  if (kCapacity <=? length q)%nat then (false, q) else (true, q ++ [mkEntry fb at_]).

Definition push_front (fb : FrameBuffer.t) (at_ : Z) (q : t) : bool * t :=
  if (kCapacity <=? length q)%nat then (false, q) else (true, mkEntry fb at_ :: q).

Definition swapLastTwo (q : t) : t :=
  let n := length q in
  match q !! (n - 2)%nat, q !! (n - 1)%nat with
  | Some a, Some b => if (2 <=? n)%nat then take (n - 2) q ++ [b; a] else q
  | _, _ => q
  end.

(** Only the head is delivered, and not before its time. *)
Definition popFront (nowUs : Z) (q : t) : option FrameBuffer.t * t :=
  match q with
  | [] => (None, q)
  | e :: rest => if negb (timeReached nowUs (deliverAtUs e)) then (None, q) else (Some (frame e), rest)
  end.
End FrameQueue.

Definition looksLikeEstop (frame : bytes) : bool :=
  (length frame =? kEstopFrameBytes)%nat && (byte_at 0 frame =? kEstopMagicByte) && (byte_at 1 frame =? kEstopMagicByte)
  && (byte_at 2 frame =? kEstopMagicByte) && (byte_at 3 frame =? kEstopMagicByte).

(** ** One direction *)
Module Direction.
Record t := mk { _profile : FaultProfile.t; _queue : FrameQueue.t }.
Definition init : t := mk FaultProfile.init [].

Section rng.
Context {R : Type} (nextU32 : R -> Z * R).

(** [_rng.nextU32() % n] *)
Definition roll (n : Z) (r : R) : Z * R := let '(x, r) := nextU32 r in (x mod n, r).

Definition write (nowUs : Z) (f : bytes) (r : R) (d : t) : bool * R * t :=
  let p := _profile d in
  if FaultProfile.mtu p <? Z.of_nat (length f) then (false, r, d)
  else
    let isEstop := looksLikeEstop f in
    let '(lossRoll, r) := roll 100 r in
    let lost := lossRoll <? FaultProfile.loss_pct p in
    let '(jitter, r) :=
      if 0 <? FaultProfile.jitter_us p
      then let '(x, r) := roll (u32 (2 * FaultProfile.jitter_us p + 1)) r in (i32 x - i32 (FaultProfile.jitter_us p), r)
      else (0, r) in
    let '(reorderRoll, r) := roll 100 r in
    let reorder := reorderRoll <? FaultProfile.reorder_pct p in
    let '(dupRoll, r) := roll 100 r in
    let dup := dupRoll <? FaultProfile.dup_pct p in
    if lost then (true, r, d)
    else
      let deliverAt := u32 (nowUs + FaultProfile.latency_us p + u32 jitter) in
      let fb := FrameBuffer.from f in
      let '(queued, q) := if isEstop then FrameQueue.push_front fb deliverAt (_queue d) else FrameQueue.push_back fb deliverAt (_queue d) in
      if negb queued then (false, r, mk p q)
      else
        let q := if negb isEstop && reorder then FrameQueue.swapLastTwo q else q in
        let q := if dup then snd (if isEstop then FrameQueue.push_front fb deliverAt q else FrameQueue.push_back fb deliverAt q) else q in
        (true, r, mk p q).
End rng.

Definition read (nowUs : Z) (d : t) : option FrameBuffer.t * t :=
  let '(f, q) := FrameQueue.popFront nowUs (_queue d) in (f, mk (_profile d) q).

Definition properties (d : t) : TransportProperties.t :=
  let p := _profile d in
  TransportProperties.mk (FaultProfile.mtu p) (negb ((0 <? FaultProfile.reorder_pct p) || (0 <? FaultProfile.jitter_us p)))
    ((FaultProfile.loss_pct p =? 0) && (FaultProfile.dup_pct p =? 0)) Simulated.
End Direction.

(** ** The link *)
Inductive Side : Set := A | B.
#[global] Instance Side_eq_dec : EqDecision Side.
Proof. solve_decision. Defined.
Definition other (s : Side) : Side := match s with A => B | B => A end.

Record InProcessLink (R : Type) := mkLink { _aToB : Direction.t; _bToA : Direction.t; openA : bool; openB : bool; _rng : R }.
Arguments mkLink {R}.
Arguments _aToB {R}.
Arguments _bToA {R}.
Arguments openA {R}.
Arguments openB {R}.
Arguments _rng {R}.

Section link.
Context {R : Type} (nextU32 : R -> Z * R).
Implicit Types l : InProcessLink R.

Definition link (r : R) : InProcessLink R := mkLink Direction.init Direction.init false false r.

(** What an endpoint writes to; it reads from the other's. *)
Definition outbound (s : Side) l : Direction.t := match s with A => _aToB l | B => _bToA l end.
Definition isOpen (s : Side) l : bool := match s with A => openA l | B => openB l end.
Definition setOutbound (s : Side) (d : Direction.t) l : InProcessLink R :=
  match s with A => mkLink d (_bToA l) (openA l) (openB l) (_rng l) | B => mkLink (_aToB l) d (openA l) (openB l) (_rng l) end.
Definition setOpen (s : Side) (b : bool) l : InProcessLink R :=
  match s with A => mkLink (_aToB l) (_bToA l) b (openB l) (_rng l) | B => mkLink (_aToB l) (_bToA l) (openA l) b (_rng l) end.

Definition open (s : Side) l : bool * InProcessLink R := (true, setOpen s true l).
Definition close (s : Side) l : InProcessLink R := setOpen s false l.

Definition write (s : Side) (nowUs : Z) (f : bytes) l : bool * InProcessLink R :=
  if negb (isOpen s l) then (false, l)
  else
    let '(b, r, d) := Direction.write nextU32 nowUs f (_rng l) (outbound s l) in
    (b, setOutbound s d (mkLink (_aToB l) (_bToA l) (openA l) (openB l) r)).

Definition read (s : Side) (nowUs : Z) l : option FrameBuffer.t * InProcessLink R :=
  if negb (isOpen s l) then (None, l)
  else let '(f, d) := Direction.read nowUs (outbound (other s) l) in (f, setOutbound (other s) d l).

Definition properties (s : Side) l : TransportProperties.t := Direction.properties (outbound s l).

(** [profileA()] and [profileB()] are references the caller may assign through. *)
Definition setProfile (s : Side) (p : FaultProfile.t) l : InProcessLink R :=
  setOutbound s (Direction.mk p (Direction._queue (outbound s l))) l.
End link.

(** ** Histories of a link *)

Inductive LinkOp :=
| OOpen (s : Side) | OClose (s : Side) | OWrite (s : Side) (nowUs : Z) (f : bytes) | ORead (s : Side) (nowUs : Z).

(** What a call did: a frame was accepted from a side, or delivered to one. *)
Inductive LinkEvent := Sent (s : Side) (f : bytes) | Got (s : Side) (f : bytes).

Section history.
Context {R : Type} (nextU32 : R -> Z * R).

Definition linkStep (l : InProcessLink R) (o : LinkOp) : list LinkEvent * InProcessLink R :=
  match o with
  | OOpen s => ([], snd (open s l))
  | OClose s => ([], close s l)
  | OWrite s now f => let '(b, l) := write nextU32 s now f l in (if b then [Sent s f] else [], l)
  | ORead s now => match read s now l with (Some fb, l) => ([Got s (FrameBuffer.bytes_of fb)], l) | (None, l) => ([], l) end
  end.

Fixpoint linkRun (l : InProcessLink R) (ops : list LinkOp) : list LinkEvent * InProcessLink R :=
  match ops with
  | [] => ([], l)
  | o :: ops => let '(e1, l) := linkStep l o in let '(e2, l) := linkRun l ops in (e1 ++ e2, l)
  end.
End history.

(** The frames accepted from [s], those delivered to it, and those on the way from it. *)
Definition sentBy (s : Side) (tr : list LinkEvent) : list bytes := omap (fun e => match e with Sent s' f => if decide (s' = s) then Some f else None | _ => None end) tr.
Definition gotBy (s : Side) (tr : list LinkEvent) : list bytes := omap (fun e => match e with Got s' f => if decide (s' = s) then Some f else None | _ => None end) tr.
Definition frames (q : FrameQueue.t) : list bytes := (fun e => FrameBuffer.bytes_of (FrameQueue.frame e)) <$> q.
Definition queued (d : Direction.t) : list bytes := frames (Direction._queue d).
Definition underway {R} (s : Side) (l : InProcessLink R) : list bytes := queued (outbound s l).

(** * Theorems *)

(** How a frame may join the queue: at most twice, and where the profile allows it. *)
Record joins (p : FaultProfile.t) (f : bytes) (q q' : list bytes) : Prop := {
  j_perm : exists k, (k <= 2)%nat /\ q' ≡ₚ q ++ replicate k f /\ (FaultProfile.loss_pct p = 0 -> (1 <= k)%nat) /\ (FaultProfile.dup_pct p = 0 -> (k <= 1)%nat);
  j_order : FaultProfile.loss_pct p = 0 -> FaultProfile.dup_pct p = 0 -> FaultProfile.reorder_pct p <= 0 -> looksLikeEstop f = false -> q' = q ++ [f] }.

Lemma swapLastTwo_perm q : FrameQueue.swapLastTwo q ≡ₚ q.
Proof.
  unfold FrameQueue.swapLastTwo. destruct (q !! (length q - 2)%nat) as [a|] eqn:Ea; [|done]. destruct (q !! (length q - 1)%nat) as [b|] eqn:Eb; [|done].
  destruct (Nat.leb_spec 2 (length q)) as [H|H]; [|done].
  assert (q = take (length q - 2) q ++ [a; b]) as E.
  { rewrite <- (take_drop (length q - 2) q) at 1. f_equal. rewrite (drop_S _ a) by done. f_equal.
    replace (S (length q - 2)) with (length q - 1)%nat by lia. rewrite (drop_S _ b) by done. f_equal. apply drop_ge. lia. }
  rewrite E at 3. apply Permutation_app_head, perm_swap.
Qed.

Lemma roll_range {R} (nextU32 : R -> Z * R) n r : 0 < n -> 0 <= (Direction.roll nextU32 n r).1.
Proof. intros H. unfold Direction.roll. destruct (nextU32 r) as [x r']. cbn. by apply Z.mod_pos_bound. Qed.

Lemma roll_never {R} (nextU32 : R -> Z * R) n r pct x r' : 0 < n -> Direction.roll nextU32 n r = (x, r') -> pct <= 0 -> (x <? pct) = false.
Proof. intros Hn E Hp. apply Z.ltb_ge. pose proof (roll_range nextU32 n r Hn) as H. rewrite E in H. cbn in H. lia. Qed.

(** An accepted frame, with its copy if there is one. *)
Lemma push_joins (estop reorder dup : bool) (f : bytes) at_ (q : FrameQueue.t) :
  let fb := FrameBuffer.from f in
  let '(ok, q1) := if estop then FrameQueue.push_front fb at_ q else FrameQueue.push_back fb at_ q in
  let q2 := if negb estop && reorder then FrameQueue.swapLastTwo q1 else q1 in
  let q3 := if dup then snd (if estop then FrameQueue.push_front fb at_ q2 else FrameQueue.push_back fb at_ q2) else q2 in
  FrameBuffer.bytes_of fb = f ->
  if ok then (exists k, (1 <= k <= if dup then 2 else 1)%nat /\ frames q3 ≡ₚ frames q ++ replicate k f)
    /\ (estop = false -> reorder = false -> dup = false -> frames q3 = frames q ++ [f])
  else q1 = q.
Proof.
  intros fb. unfold FrameQueue.push_front, FrameQueue.push_back, frames. destruct (Nat.leb_spec FrameQueue.kCapacity (length q)) as [|Hq]; [by destruct estop|].
  set (e := FrameQueue.mkEntry fb at_). set (fr := fun e => _).
  destruct estop; cbn [negb andb]; intros Hf; [split; [|done]|split].
  - destruct dup; [|exists 1%nat; split; [lia|]; cbn [fmap list_fmap]; change (fr e) with (FrameBuffer.bytes_of fb); rewrite Hf; apply Permutation_cons_append].
    destruct (FrameQueue.kCapacity <=? _)%nat; cbn [snd fmap list_fmap]; change (fr e) with (FrameBuffer.bytes_of fb); rewrite Hf.
    + exists 1%nat. split; [lia|]. apply Permutation_cons_append.
    + exists 2%nat. split; [lia|]. cbn [replicate]. rewrite (Permutation_app_comm _ [f; f]). done.
  - assert (S : fr <$> (if reorder then FrameQueue.swapLastTwo (q ++ [e]) else q ++ [e]) ≡ₚ (fr <$> q) ++ [f]).
    { destruct reorder; [rewrite swapLastTwo_perm|]; rewrite fmap_app; cbn [fmap list_fmap]; change (fr e) with (FrameBuffer.bytes_of fb); by rewrite Hf. }
    destruct dup; [|exists 1%nat; split; [lia|exact S]].
    destruct (FrameQueue.kCapacity <=? _)%nat; cbn [snd]; [exists 1%nat; split; [lia|exact S]|]. exists 2%nat. split; [lia|].
    rewrite fmap_app, S, <- app_assoc. cbn [fmap list_fmap]. change (fr e) with (FrameBuffer.bytes_of fb). by rewrite Hf.
  - destruct reorder, dup; intros; try done. rewrite fmap_app. cbn [fmap list_fmap]. change (fr e) with (FrameBuffer.bytes_of fb). by rewrite Hf.
Qed.

Lemma write_joins {R} (nextU32 : R -> Z * R) now f r d : (FaultProfile.mtu (Direction._profile d) <= Z.of_nat kFrameBufferCapacity) ->
  let '(b, _, d') := Direction.write nextU32 now f r d in
  Direction._profile d' = Direction._profile d /\ if b then joins (Direction._profile d) f (queued d) (queued d') else queued d' = queued d.
Proof.
  intros Hm. unfold Direction.write. destruct (Z.ltb_spec (FaultProfile.mtu (Direction._profile d)) (Z.of_nat (length f))) as [|Hl]; [done|].
  set (p := Direction._profile d) in *. assert (Hf : FrameBuffer.bytes_of (FrameBuffer.from f) = f) by (apply FrameBuffer.bytes_from; lia).
  destruct (Direction.roll nextU32 100 r) as [lossRoll r1] eqn:E1.
  destruct (if 0 <? FaultProfile.jitter_us p then _ else _) as [jitter r2]. destruct (Direction.roll nextU32 100 r2) as [reorderRoll r3] eqn:E3.
  destruct (Direction.roll nextU32 100 r3) as [dupRoll r4] eqn:E4.
  pose proof (roll_never _ 100 _ (FaultProfile.loss_pct p) _ _ ltac:(lia) E1) as N1. pose proof (roll_never _ 100 _ (FaultProfile.reorder_pct p) _ _ ltac:(lia) E3) as N3.
  pose proof (roll_never _ 100 _ (FaultProfile.dup_pct p) _ _ ltac:(lia) E4) as N4. clear E1 E3 E4.
  destruct (lossRoll <? FaultProfile.loss_pct p).
  { split; [done|]. split; [|intros H; by specialize (N1 ltac:(lia))]. exists 0%nat. rewrite app_nil_r. split_and!; [lia|done|intros H; by specialize (N1 ltac:(lia))|lia]. }
  pose proof (push_joins (looksLikeEstop f) (reorderRoll <? FaultProfile.reorder_pct p) (dupRoll <? FaultProfile.dup_pct p) f
    (u32 (now + FaultProfile.latency_us p + u32 jitter)) (Direction._queue d)) as J. cbv zeta in J.
  destruct (if looksLikeEstop f then _ else _) as [ok q1]. specialize (J Hf). destruct ok; cbn [negb]; [|by rewrite J].
  split; [done|]. destruct J as [(k & Hk & P) O]. split.
  - exists k. split_and!; [by destruct (dupRoll <? _); lia|exact P|lia|]. intros H. specialize (N4 ltac:(lia)). rewrite N4 in Hk. lia.
  - intros H1 H2 H3 H4. apply O; [done|by apply N3|apply N4; lia].
Qed.

(** What one call does to the direction from [s]. *)
Inductive moved (p : FaultProfile.t) : list bytes -> list bytes -> list bytes -> list bytes -> Prop :=
| m_none q : moved p [] [] q q
| m_sent f q q' : joins p f q q' -> moved p [f] [] q q'
| m_got f q : moved p [] [f] (f :: q) q.

Section moves.
Context {R : Type} (nextU32 : R -> Z * R).
Implicit Types l : InProcessLink R.

Definition profileOf (s : Side) l : FaultProfile.t := Direction._profile (outbound s l).

Lemma step_moves s l o : FaultProfile.mtu (profileOf s l) <= Z.of_nat kFrameBufferCapacity ->
  let '(ev, l') := linkStep nextU32 l o in
  profileOf s l' = profileOf s l /\ moved (profileOf s l) (sentBy s ev) (gotBy (other s) ev) (underway s l) (underway s l').
Proof.
  intros Hm. destruct o as [s'|s'|s' now f|s' now]; cbn [linkStep].
  - by destruct s, s'; split; try constructor.
  - by destruct s, s'; split; try constructor.
  - unfold write. destruct (negb (isOpen s' l)); [by split; try constructor|]. destruct (decide (s' = s)) as [->|Hne].
    + pose proof (write_joins nextU32 now f (_rng l) (outbound s l) Hm) as H. destruct (Direction.write _ _ _ _ _) as [[b r] d']. destruct H as [Hp Hj].
      assert (Eo : forall l1 : InProcessLink R, outbound s (setOutbound s d' l1) = d') by (by destruct s). unfold profileOf, underway. rewrite Eo. split; [done|].
      destruct b; [|rewrite Hj; constructor]. unfold sentBy. cbn [omap list_omap gotBy]. rewrite decide_True by done. by apply m_sent.
    + destruct (Direction.write _ _ _ _ _) as [[b r] d'].
      assert (Eo : outbound s (setOutbound s' d' (mkLink (_aToB l) (_bToA l) (openA l) (openB l) r)) = outbound s l) by (by destruct s, s').
      unfold profileOf, underway. rewrite Eo. split; [done|]. assert (sentBy s (if b then [Sent s' f] else []) = []) as -> by (destruct b; [|done]; unfold sentBy; cbn; by rewrite decide_False).
      destruct b; constructor.
  - unfold read. destruct (negb (isOpen s' l)); [by split; try constructor|]. unfold Direction.read.
    destruct (decide (s' = other s)) as [->|Hne].
    + assert (other (other s) = s) as -> by (by destruct s). unfold underway, queued, profileOf. destruct (Direction._queue (outbound s l)) as [|e q] eqn:Eq; cbn [FrameQueue.popFront].
      * assert (Eo : outbound s (setOutbound s (Direction.mk (Direction._profile (outbound s l)) []) l) = Direction.mk (Direction._profile (outbound s l)) []) by (by destruct s).
        rewrite Eo. cbn [Direction._queue Direction._profile]. split; [done|constructor].
      * assert (Eo : forall d, outbound s (setOutbound s d l) = d) by (by destruct s).
        destruct (negb _); rewrite Eo; cbn [Direction._queue Direction._profile]; (split; [done|]); [constructor|]. unfold gotBy. cbn [omap list_omap sentBy]. rewrite decide_True by done. apply m_got.
    + destruct (FrameQueue.popFront _ _) as [[fb|] q].
      all: assert (Eo : outbound s (setOutbound (other s') (Direction.mk (Direction._profile (outbound (other s') l)) q) l) = outbound s l) by (by destruct s, s').
      all: unfold underway, profileOf; rewrite Eo; (split; [done|]).
      * unfold gotBy. cbn [omap list_omap sentBy]. rewrite decide_False by done. constructor.
      * constructor.
Qed.

(** The account of a direction: what was accepted, what arrived, what is on its way. *)
Record account (p : FaultProfile.t) (sent got q : list bytes) : Prop := {
  a_any : got ++ q ⊆+ sent ++ sent;
  a_reliable : FaultProfile.loss_pct p = 0 -> FaultProfile.dup_pct p = 0 -> got ++ q ≡ₚ sent;
  a_fifo : FaultProfile.loss_pct p = 0 -> FaultProfile.dup_pct p = 0 -> FaultProfile.reorder_pct p <= 0 ->
    Forall (fun f => looksLikeEstop f = false) sent -> got ++ q = sent }.

Lemma account_moved p sent got q s1 g1 q' : account p sent got q -> moved p s1 g1 q q' -> account p (sent ++ s1) (got ++ g1) q'.
Proof.
  intros [Ha Hr Hf] M. destruct M as [q|f q q' [(k & Hk & P & K1 & K2) O]|f q].
  - by rewrite !app_nil_r.
  - rewrite app_nil_r. split.
    + rewrite P. transitivity ((sent ++ sent) ++ replicate 2 f).
      * rewrite app_assoc. apply submseteq_app; [done|]. apply sublist_submseteq. replace 2%nat with (k + (2 - k))%nat by lia. rewrite replicate_add. by apply sublist_inserts_r.
      * apply Permutation_submseteq. cbn [replicate]. solve_Permutation.
    + intros H1 H2. assert (k = 1%nat) as -> by (specialize (K1 H1); specialize (K2 H2); lia). rewrite P, app_assoc. cbn [replicate]. by rewrite (Hr H1 H2).
    + intros H1 H2 H3 [He Hl]%Forall_app. rewrite Forall_singleton in Hl. rewrite (O H1 H2 H3 Hl), app_assoc. by rewrite (Hf H1 H2 H3 He).
  - rewrite app_nil_r. by split; rewrite <- app_assoc.
Qed.

Lemma run_account s ops l sent got :
  FaultProfile.mtu (profileOf s l) <= Z.of_nat kFrameBufferCapacity -> account (profileOf s l) sent got (underway s l) ->
  let '(tr, l') := linkRun nextU32 l ops in
  profileOf s l' = profileOf s l /\ account (profileOf s l) (sent ++ sentBy s tr) (got ++ gotBy (other s) tr) (underway s l').
Proof.
  revert l sent got. induction ops as [|o ops IH]; intros l sent got Hm Ha; cbn [linkRun]; [by rewrite !app_nil_r|].
  pose proof (step_moves s l o Hm) as H. destruct (linkStep nextU32 l o) as [e1 l1]. destruct H as [Hp M]. specialize (IH l1 (sent ++ sentBy s e1) (got ++ gotBy (other s) e1)).
  rewrite Hp in IH. specialize (IH Hm (account_moved _ _ _ _ _ _ _ Ha M)). destruct (linkRun nextU32 l1 ops) as [e2 l2]. destruct IH as [IH1 IH2]. split; [done|].
  unfold sentBy, gotBy in *. by rewrite !omap_app, !app_assoc.
Qed.
End moves.

(** ** What an endpoint promises *)

Lemma account_nil p : account p [] [] [].
Proof. by split. Qed.

(** The properties an endpoint declares are kept over every history of calls on both
    ends, whatever the generator draws: nothing arrives that was not accepted, and no
    frame more than twice; declared reliable, what has arrived and what is on its way are
    exactly the frames accepted; declared ordered as well, and no ESTOP among them, they
    arrive in the order in which they were accepted. *)
Theorem link_keeps_properties {R} (nextU32 : R -> Z * R) (r : R) (s : Side) (p p' : FaultProfile.t) (ops : list LinkOp) :
  FaultProfile.mtu p <= Z.of_nat kFrameBufferCapacity ->
  let l0 := setProfile (other s) p' (setProfile s p (link r)) in
  let '(tr, l) := linkRun nextU32 l0 ops in
  let sent := sentBy s tr in let got := gotBy (other s) tr in let props := properties s l0 in
  got ⊆+ sent ++ sent
  /\ (TransportProperties.reliable props = true -> got ++ underway s l ≡ₚ sent)
  /\ (TransportProperties.reliable props = true -> TransportProperties.ordered props = true ->
      Forall (fun f => looksLikeEstop f = false) sent -> got ++ underway s l = sent).
Proof.
  intros Hm l0. assert (Ep : profileOf s l0 = p) by (by destruct s). assert (Eq : underway s l0 = []) by (by destruct s).
  pose proof (run_account nextU32 s ops l0 [] [] ltac:(by rewrite Ep)) as H. rewrite Ep, Eq in H. specialize (H (account_nil p)).
  destruct (linkRun nextU32 l0 ops) as [tr l]. destruct H as [_ [Ha Hr Hf]]. cbn [app] in *. unfold properties, Direction.properties.
  change (Direction._profile (outbound s l0)) with (profileOf s l0). rewrite Ep. cbn [TransportProperties.reliable TransportProperties.ordered].
  rewrite andb_true_iff, negb_true_iff, orb_false_iff, !Z.eqb_eq, !Z.ltb_ge. split_and!.
  - etrans; [|exact Ha]. by apply submseteq_inserts_r.
  - intros [H1 H2]. by apply Hr.
  - intros [H1 H2] [H3 _] He. by apply Hf.
Qed.

(** C38. An ESTOP overtakes everything in its queue: once a link without loss and jitter has
    accepted one, the next read on the other side from its delivery time on returns it. *)
Theorem estop_overtakes {R} (nextU32 : R -> Z * R) (s : Side) (now now' : Z) (f : bytes) (l l' : InProcessLink R) :
  looksLikeEstop f = true -> isOpen (other s) l = true -> FaultProfile.loss_pct (profileOf s l) = 0 -> FaultProfile.jitter_us (profileOf s l) = 0 ->
  write nextU32 s now f l = (true, l') -> timeReached now' (u32 (now + FaultProfile.latency_us (profileOf s l))) = true ->
  exists fb l2, read (other s) now' l' = (Some fb, l2) /\ FrameBuffer.bytes_of fb = f.
Proof.
  intros He Ho Hloss Hj. unfold write. destruct (negb (isOpen s l)); [done|]. unfold Direction.write. fold (profileOf s l). set (p := profileOf s l) in *.
  destruct (FaultProfile.mtu p <? _); [done|]. destruct (Direction.roll nextU32 100 (_rng l)) as [lossRoll r1] eqn:E1.
  rewrite (roll_never nextU32 100 _ _ _ _ ltac:(lia) E1) by lia. rewrite Hj. cbn [Z.ltb Z.compare].
  destruct (Direction.roll nextU32 100 r1) as [reorderRoll r3]. destruct (Direction.roll nextU32 100 r3) as [dupRoll r4]. rewrite He. cbn [negb andb].
  assert (Hl : (length f <= kFrameBufferCapacity)%nat).
  { unfold looksLikeEstop in He. apply andb_true_iff in He as [He _]. apply andb_true_iff in He as [He _]. apply andb_true_iff in He as [He _].
    apply andb_true_iff in He as [He _]. apply Nat.eqb_eq in He. rewrite He. vm_compute. lia. }
  change (u32 0) with 0. rewrite Z.add_0_r. set (at_ := u32 (now + FaultProfile.latency_us p)). set (e := FrameQueue.mkEntry (FrameBuffer.from f) at_).
  unfold FrameQueue.push_front. destruct (FrameQueue.kCapacity <=? _)%nat; [done|]. cbn [negb]. fold e.
  set (q := if dupRoll <? _ then _ else _). assert (exists rest, q = e :: rest) as [rest Hq] by (unfold q; destruct (dupRoll <? _); [destruct (FrameQueue.kCapacity <=? _)%nat|]; eauto).
  clearbody q. subst q. intros [= <-] Ht. unfold read.
  assert (isOpen (other s) (setOutbound s (Direction.mk p (e :: rest)) (mkLink (_aToB l) (_bToA l) (openA l) (openB l) r4)) = true) as -> by (by destruct s).
  cbn [negb]. assert (other (other s) = s) as -> by (by destruct s).
  assert (outbound s (setOutbound s (Direction.mk p (e :: rest)) (mkLink (_aToB l) (_bToA l) (openA l) (openB l) r4)) = Direction.mk p (e :: rest)) as -> by (by destruct s).
  unfold Direction.read. cbn [Direction._queue FrameQueue.popFront FrameQueue.deliverAtUs e]. rewrite Ht. cbn [negb]. do 2 eexists. split; [reflexivity|].
  by apply FrameBuffer.bytes_from.
Qed.

(** ** Concrete links *)

Definition xorshift (s : Z) : Z * Z := let x := XorShift32.nextU32 s in (x, x).

Definition demo_ops : list LinkOp := [OOpen A; OOpen B; OWrite A 0 [1]; OWrite A 5 [2]; ORead B 10; OWrite A 20 [3]].

Definition demo_run := linkRun xorshift (setProfile B FaultProfile.init (setProfile A FaultProfile.init (link (XorShift32.make 7)))) demo_ops.

Lemma demo_sent : sentBy A (fst demo_run) = [[1]; [2]; [3]].
Proof. vm_compute. reflexivity. Qed.
Lemma demo_got : gotBy B (fst demo_run) = [[1]].
Proof. vm_compute. reflexivity. Qed.

Lemma link_keeps_properties_witness :
  let '(tr, l) := linkRun xorshift (setProfile B FaultProfile.init (setProfile A FaultProfile.init (link (XorShift32.make 7)))) demo_ops in
  sentBy A tr = [[1]; [2]; [3]] /\ gotBy B tr = [[1]] /\ gotBy B tr ++ underway A l = sentBy A tr.
Proof.
  pose proof (link_keeps_properties xorshift (XorShift32.make 7) A FaultProfile.init FaultProfile.init demo_ops ltac:(vm_compute; discriminate)) as H. cbv zeta in H.
  pose proof demo_sent as Es. pose proof demo_got as Eg. unfold demo_run in Es, Eg. destruct (linkRun xorshift _ demo_ops) as [tr l]. cbn [fst] in Es, Eg.
  split; [exact Es|]. split; [exact Eg|]. destruct H as (_ & _ & H). apply H; [vm_compute; reflexivity|vm_compute; reflexivity|]. rewrite Es. repeat (apply Forall_cons; split; [vm_compute; reflexivity|]). apply List.Forall_nil.
Defined.

Definition demo_estop : bytes := replicate 12 kEstopMagicByte.

(** Two frames wait; the ESTOP is read first. *)
Definition demo_link : InProcessLink Z := snd (linkRun xorshift (link (XorShift32.make 7)) [OOpen A; OOpen B; OWrite A 0 [1]; OWrite A 5 [2]]).

Lemma demo_estop_accepted : write xorshift A 30 demo_estop demo_link = (true, snd (write xorshift A 30 demo_estop demo_link)).
Proof. vm_compute. reflexivity. Qed.

Lemma estop_overtakes_witness :
  exists fb l2, read B 30 (snd (write xorshift A 30 demo_estop demo_link)) = (Some fb, l2) /\ FrameBuffer.bytes_of fb = demo_estop.
Proof.
  apply (estop_overtakes xorshift A 30 30 demo_estop demo_link (snd (write xorshift A 30 demo_estop demo_link))); [vm_compute; reflexivity..|exact demo_estop_accepted|vm_compute; reflexivity].
Defined.

(** A frame longer than a frame buffer, within the configured MTU, is accepted and
    arrives empty. *)
Example oversized_arrives_empty :
  let l := setProfile A (FaultProfile.mk 1024 0 0 0 0 0) (link 7) in
  let '(tr, _) := linkRun xorshift l [OOpen A; OOpen B; OWrite A 0 (replicate 513 1); ORead B 0] in
  sentBy A tr = [replicate 513 1] /\ gotBy B tr = [[]].
Proof. vm_compute. done. Qed.
