(* ===== verification/Keyed.v ===== *)
(** * Keyed: arrays searched by key

    The tables of the hub and the client are arrays searched linearly by a key.
    An array whose keys are distinct is read here as a finite map ([amap]); the
    updates the code makes (in place, at the end, closing a gap) are map
    updates. *)

From stdpp Require Import gmap sets.
From S2P Require Import Prelude.
Local Open Scope Z_scope.

Section keyed.
Context {A : Type} (key : A -> Z).
Implicit Types l : list A.

Definition amap l : gmap Z A := list_to_map ((fun e => (key e, e)) <$> l).
Definition keys l : list Z := key <$> l.
Definition kfind (k : Z) l : option nat := find_index (fun e => key e =? k) l.

Lemma amap_keys l : ((fun e => (key e, e)) <$> l).*1 = keys l.
Proof. unfold keys. rewrite <- list_fmap_compose. done. Qed.

Lemma amap_lookup l k e : NoDup (keys l) -> amap l !! k = Some e <-> e ∈ l /\ key e = k.
Proof.
  intros Hn. unfold amap. rewrite <- elem_of_list_to_map by (by rewrite amap_keys).
  rewrite list_elem_of_fmap. split; [intros (x & [= -> ->] & Hx)|intros [Hx <-]; eauto]; done.
Qed.

Lemma kfind_Some l k i : kfind k l = Some i -> exists e, l !! i = Some e /\ key e = k.
Proof. intros H. apply find_index_Some in H as (e & He & Hk & _). exists e. split; [done|]. lia. Qed.

Lemma kfind_None l k : kfind k l = None <-> k ∉ keys l.
Proof.
  unfold kfind, keys. rewrite find_index_None, Forall_forall, list_elem_of_fmap. split.
  - intros H (e & -> & He). specialize (H e He). lia.
  - intros H e He. destruct (Z.eqb_spec (key e) k) as [<-|]; [|done]. exfalso. eauto.
Qed.

Lemma amap_find l k i e : NoDup (keys l) -> kfind k l = Some i -> l !! i = Some e -> amap l !! k = Some e.
Proof.
  intros Hn Hf He. destruct (kfind_Some _ _ _ Hf) as (e' & He' & Hk). rewrite He in He'. injection He' as <-.
  apply amap_lookup; [done|]. split; [|done]. by eapply list_elem_of_lookup_2.
Qed.

Lemma amap_find_None l k : kfind k l = None -> amap l !! k = None.
Proof. intros H%kfind_None. apply not_elem_of_list_to_map_1. by rewrite amap_keys. Qed.

Lemma keys_insert l i x : kfind (key x) l = Some i -> keys (<[i := x]> l) = keys l.
Proof.
  intros Hf. destruct (kfind_Some _ _ _ Hf) as (e & He & Hk). unfold keys. rewrite list_fmap_insert.
  apply list_insert_id. by rewrite list_lookup_fmap, He, <- Hk.
Qed.

Lemma amap_insert l i x :
  NoDup (keys l) -> kfind (key x) l = Some i -> amap (<[i := x]> l) = <[key x := x]> (amap l).
Proof.
  intros Hn Hf. pose proof (find_index_lt _ _ _ Hf) as Hi. destruct (kfind_Some _ _ _ Hf) as (e0 & He0 & Hk0).
  apply map_eq. intros k. apply option_eq. intros e.
  rewrite amap_lookup by (by rewrite (keys_insert _ _ _ Hf)). destruct (decide (k = key x)) as [->|Hne].
  - rewrite lookup_insert_eq. split.
    + intros [Hin Hke]. apply list_elem_of_lookup in Hin as [j Hj]. destruct (decide (i = j)) as [<-|Hij].
      { by rewrite list_lookup_insert_eq in Hj. }
      rewrite list_lookup_insert_ne in Hj by done. exfalso. apply Hij.
      eapply (NoDup_lookup _ _ _ (key x) Hn); unfold keys; rewrite list_lookup_fmap; [by rewrite He0; cbn; rewrite Hk0|by rewrite Hj; cbn; rewrite Hke].
    + intros [= <-]. split; [|done]. eapply list_elem_of_lookup_2. by apply list_lookup_insert_eq.
  - rewrite lookup_insert_ne by done. rewrite amap_lookup by done. split; intros [Hin Hke]; (split; [|done]);
      apply list_elem_of_lookup in Hin as [j Hj]; (destruct (decide (i = j)) as [<-|Hij]).
    + rewrite list_lookup_insert_eq in Hj by done. injection Hj as <-. done.
    + rewrite list_lookup_insert_ne in Hj by done. by eapply list_elem_of_lookup_2.
    + rewrite He0 in Hj. injection Hj as <-. congruence.
    + eapply list_elem_of_lookup_2. by rewrite list_lookup_insert_ne.
Qed.

Lemma amap_snoc l x : NoDup (keys l) -> key x ∉ keys l -> amap (l ++ [x]) = <[key x := x]> (amap l) /\ NoDup (keys (l ++ [x])).
Proof.
  intros Hn Hx. assert (NoDup (keys (l ++ [x]))) as Hn'.
  { unfold keys. rewrite fmap_app. apply NoDup_app. split_and!; [done| |apply NoDup_singleton].
    intros k Hk Hk'. apply list_elem_of_singleton in Hk'. by subst k. }
  split; [|done]. apply map_eq. intros k. apply option_eq. intros e. rewrite amap_lookup by done.
  destruct (decide (k = key x)) as [->|Hne].
  - rewrite lookup_insert_eq, elem_of_app, list_elem_of_singleton. split; [|by intros [= <-]; auto].
    intros [[He| ->] Hk]; [|done]. exfalso. apply Hx. rewrite <- Hk. by apply list_elem_of_fmap_2.
  - rewrite lookup_insert_ne, amap_lookup, elem_of_app, list_elem_of_singleton by done.
    split; [intros [[He| ->] Hk]; done|]. intros [He Hk]. auto.
Qed.

Lemma amap_delete l k i :
  NoDup (keys l) -> kfind k l = Some i ->
  amap (take i l ++ drop (S i) l) = delete k (amap l) /\ NoDup (keys (take i l ++ drop (S i) l)).
Proof.
  intros Hn Hf. destruct (kfind_Some _ _ _ Hf) as (e0 & He0 & Hk0).
  pose proof (take_drop_middle l i e0 He0) as Hl. rewrite <- Hl in Hn. set (a := take i l) in *. set (b := drop (S i) l) in *.
  assert (NoDup (key e0 :: keys (a ++ b))) as Hn'.
  { eapply NoDup_Permutation_proper; [|exact Hn]. unfold keys. rewrite !fmap_app, fmap_cons. by rewrite Permutation_middle. }
  apply NoDup_cons in Hn' as [Hk Hn']. split; [|done].
  apply map_eq. intros x. apply option_eq. intros e. rewrite amap_lookup by done.
  rewrite lookup_delete_Some, <- Hl, amap_lookup by done. rewrite !elem_of_app, elem_of_cons.
  split; [intros [He <-]; split; [|tauto]|intros (Hne & He & <-); split; [|done]].
  - rewrite <- Hk0. intros Heq. apply Hk. rewrite Heq. apply list_elem_of_fmap_2, elem_of_app. tauto.
  - destruct He as [|[-> |]]; [tauto| |tauto]. by rewrite Hk0 in Hne.
Qed.

Lemma amap_size l : NoDup (keys l) -> size (amap l) = length l.
Proof. intros Hn. unfold amap. rewrite map_size_list_to_map by (by rewrite amap_keys). apply length_fmap. Qed.
End keyed.

(** ** Slot tables

    Fixed arrays whose elements carry a [used] flag: freed slots leave holes
    and a new element takes the first hole. *)

Section slots.
Context {A K : Type} `{Countable K} (key : A -> K) (used : A -> bool).
Implicit Types l : list A.

Definition smap l : gmap K A := foldr (fun e m => if used e then <[key e := e]> m else m) ∅ l.

Definition sfind (k : K) l : option nat := find_index (fun e => used e && bool_decide (key e = k)) l.
Definition sfree l : option nat := find_index (fun e => negb (used e)) l.

(** No two used slots share a key. *)
Definition distinct l : Prop :=
  forall i j a b, l !! i = Some a -> l !! j = Some b -> used a = true -> used b = true -> key a = key b -> i = j.

Lemma distinct_cons x l :
  distinct (x :: l) <-> distinct l /\ (used x = true -> forall e, e ∈ l -> used e = true -> key e <> key x).
Proof.
  split.
  - intros Hd. split.
    + intros i j a b Ha Hb Hua Hub Hk. specialize (Hd (S i) (S j) a b Ha Hb Hua Hub Hk). lia.
    + intros Hx e [i Hi]%list_elem_of_lookup He Hk. specialize (Hd (S i) 0%nat e x Hi eq_refl He Hx Hk). lia.
  - intros [Hd Hx] [|i] [|j] a b Ha Hb Hua Hub Hk; simplify_eq/=; [done| | |f_equal; by eapply Hd].
    + exfalso. eapply (Hx Hua b); [by eapply list_elem_of_lookup_2|done|done].
    + exfalso. eapply (Hx Hub a); [by eapply list_elem_of_lookup_2|done|done].
Qed.

Lemma smap_lookup l k e : distinct l -> smap l !! k = Some e <-> e ∈ l /\ used e = true /\ key e = k.
Proof.
  induction l as [|x l IH]; intros Hd; cbn.
  - rewrite lookup_empty. split; [done|]. by intros [?%elem_of_nil _].
  - apply distinct_cons in Hd as [Hd Hx]. specialize (IH Hd). rewrite elem_of_cons.
    destruct (used x) eqn:Hu.
    + destruct (decide (key x = k)) as [<-|Hne].
      * rewrite lookup_insert_eq. split; [intros [= <-]; auto|]. intros ([->|Hin] & Hue & Hk); [done|].
        exfalso. by apply (Hx eq_refl e Hin Hue).
      * rewrite lookup_insert_ne, IH by done. split; [intros (?&?&?); auto|]. intros ([->|?] & ? & ?); [done|auto].
    + rewrite IH. split; [intros (?&?&?); auto|]. intros ([->|?] & ? & ?); [congruence|auto].
Qed.

Lemma smap_lookup_at l i e : distinct l -> l !! i = Some e -> used e = true -> smap l !! key e = Some e.
Proof. intros Hd Hi Hu. apply smap_lookup; [done|]. split_and!; [by eapply list_elem_of_lookup_2|done|done]. Qed.

Lemma sfind_Some l k i : sfind k l = Some i -> exists e, l !! i = Some e /\ used e = true /\ key e = k.
Proof.
  intros (e & He & Hp & _)%find_index_Some. exists e. apply andb_true_iff in Hp as [Hu Hk].
  split_and!; [done|done|by apply bool_decide_eq_true in Hk].
Qed.

Lemma sfind_smap l k : distinct l ->
  smap l !! k = match sfind k l with Some i => l !! i | None => None end.
Proof.
  intros Hd. destruct (sfind k l) as [i|] eqn:Hf.
  - destruct (sfind_Some _ _ _ Hf) as (e & He & Hu & Hk). rewrite He. apply smap_lookup; [done|].
    split_and!; [by eapply list_elem_of_lookup_2|done|done].
  - apply eq_None_not_Some. intros [e He]. apply smap_lookup in He as (Hin & Hu & Hk); [|done].
    apply find_index_None in Hf. rewrite Forall_forall in Hf. specialize (Hf e Hin). cbn in Hf.
    rewrite Hu, bool_decide_eq_true_2 in Hf by done. done.
Qed.

Lemma sfind_None l k : distinct l -> sfind k l = None <-> smap l !! k = None.
Proof.
  intros Hd. rewrite sfind_smap by done. destruct (sfind k l) as [i|] eqn:Hf; [|done].
  destruct (sfind_Some _ _ _ Hf) as (e & -> & _). split; congruence.
Qed.

(** Writing a used element over a free slot, or over the element of its key. *)
Lemma smap_set l i x e0 :
  distinct l -> l !! i = Some e0 -> used x = true ->
  (forall j e, l !! j = Some e -> used e = true -> key e = key x -> j = i) ->
  (used e0 = true -> key e0 = key x) ->
  smap (<[i := x]> l) = <[key x := x]> (smap l) /\ distinct (<[i := x]> l).
Proof.
  intros Hd Hi Hx Hother Hsame. pose proof (lookup_lt_Some _ _ _ Hi) as Hlt.
  assert (distinct (<[i := x]> l)) as Hd'.
  { intros a b ea eb Ha Hb Hua Hub Hk.
    apply list_lookup_insert_Some in Ha as [(<- & <- & _)|[Hna Ha]], Hb as [(<- & <- & _)|[Hnb Hb]]; [done| | |].
    - exfalso. apply Hnb. symmetry. by eapply Hother.
    - exfalso. apply Hna. symmetry. by eapply Hother.
    - by eapply Hd. }
  split; [|done]. apply map_eq. intros k. apply option_eq. intros e. rewrite smap_lookup by done.
  destruct (decide (k = key x)) as [->|Hne].
  - rewrite lookup_insert_eq. split.
    + intros ([j Hj]%list_elem_of_lookup & Hu & Hk). apply list_lookup_insert_Some in Hj as [(_ & <- & _)|[Hn Hj]]; [done|].
      exfalso. apply Hn. symmetry. by eapply Hother.
    + intros [= <-]. split_and!; [|done|done]. eapply list_elem_of_lookup_2. by apply list_lookup_insert_eq.
  - rewrite lookup_insert_ne by done. rewrite smap_lookup by done. split; intros ([j Hj]%list_elem_of_lookup & Hu & Hk).
    + apply list_lookup_insert_Some in Hj as [(_ & <- & _)|[Hn Hj]]; [congruence|].
      split_and!; [by eapply list_elem_of_lookup_2|done|done].
    + split_and!; [|done|done]. destruct (decide (i = j)) as [<-|Hn].
      { rewrite Hi in Hj. injection Hj as ->. specialize (Hsame Hu). congruence. }
      eapply (list_elem_of_lookup_2 _ j). by rewrite list_lookup_insert_ne.
Qed.

Lemma smap_update l i x e0 :
  distinct l -> l !! i = Some e0 -> used e0 = true -> used x = true -> key x = key e0 ->
  smap (<[i := x]> l) = <[key x := x]> (smap l) /\ distinct (<[i := x]> l).
Proof. intros Hd Hi Hu Hx Hk. eapply smap_set; try done. intros j e Hj Hue Hke. eapply Hd; try done. congruence. Qed.

Lemma smap_fill l i x :
  distinct l -> sfree l = Some i -> used x = true -> smap l !! key x = None ->
  smap (<[i := x]> l) = <[key x := x]> (smap l) /\ distinct (<[i := x]> l).
Proof.
  intros Hd Hf Hx Hn. apply find_index_Some in Hf as (e0 & Hi & Hu0 & _). apply negb_true_iff in Hu0.
  eapply smap_set; [done|done|done| |congruence]. intros j e Hj Hue Hk. exfalso.
  assert (smap l !! key x = Some e) as E; [|congruence]. rewrite <- Hk. by eapply smap_lookup_at.
Qed.

(** Freeing the slots that satisfy a predicate. *)
Definition sdrop (P : A -> bool) (none : A) l : list A := (fun e => if used e && P e then none else e) <$> l.

Lemma smap_drop (P : A -> bool) none l :
  distinct l -> used none = false ->
  smap (sdrop P none l) = filter (fun kv => P kv.2 = false) (smap l) /\ distinct (sdrop P none l).
Proof.
  intros Hd Hnone.
  assert (forall j e, sdrop P none l !! j = Some e -> used e = true -> l !! j = Some e /\ P e = false) as Hback.
  { intros j e Hj Hu. unfold sdrop in Hj. rewrite list_lookup_fmap in Hj. destruct (l !! j) as [x|]; [|done].
    cbn in Hj. injection Hj as Hj. destruct (used x && P x) eqn:Hb; [congruence|]. subst x. split; [done|].
    by rewrite Hu in Hb. }
  assert (distinct (sdrop P none l)) as Hd'.
  { intros i j a b Ha Hb Hua Hub Hk. destruct (Hback i a Ha Hua), (Hback j b Hb Hub). by eapply Hd. }
  split; [|done]. apply map_eq. intros k. apply option_eq. intros e.
  rewrite smap_lookup, map_lookup_filter_Some, smap_lookup by done. cbn. split.
  - intros ([j Hj]%list_elem_of_lookup & Hu & Hk). destruct (Hback j e Hj Hu) as [Hl HP].
    split_and!; [by eapply list_elem_of_lookup_2|done|done|done].
  - intros [([j Hj]%list_elem_of_lookup & Hu & Hk) HP]. split_and!; [|done|done].
    eapply (list_elem_of_lookup_2 _ j). unfold sdrop. rewrite list_lookup_fmap, Hj. cbn. by rewrite Hu, HP.
Qed.

Lemma smap_free l i e none :
  distinct l -> l !! i = Some e -> used e = true -> used none = false ->
  smap (<[i := none]> l) = delete (key e) (smap l) /\ distinct (<[i := none]> l).
Proof.
  intros Hd Hi Hu Hnone. pose proof (lookup_lt_Some _ _ _ Hi) as Hlt.
  assert (distinct (<[i := none]> l)) as Hd'.
  { intros a b ea eb Ha Hb Hua Hub Hk.
    apply list_lookup_insert_Some in Ha as [(<- & <- & _)|[Hna Ha]]; [congruence|].
    apply list_lookup_insert_Some in Hb as [(<- & <- & _)|[Hnb Hb]]; [congruence|]. by eapply Hd. }
  split; [|done]. apply map_eq. intros k. apply option_eq. intros x.
  rewrite smap_lookup, lookup_delete_Some, smap_lookup by done. split.
  - intros ([j Hj]%list_elem_of_lookup & Hux & Hk). apply list_lookup_insert_Some in Hj as [(_ & <- & _)|[Hn Hj]]; [congruence|].
    split_and!; [|by eapply list_elem_of_lookup_2|done|done]. intros <-. apply Hn. by eapply Hd.
  - intros (Hne & [j Hj]%list_elem_of_lookup & Hux & Hk). split_and!; [|done|done].
    eapply (list_elem_of_lookup_2 _ j). rewrite list_lookup_insert_ne; [done|]. intros ->. congruence.
Qed.

(** The number of used slots. *)
Definition scount l : nat := length (filter (fun e => used e = true) l).

Lemma smap_size l : distinct l -> size (smap l) = scount l.
Proof.
  unfold scount. induction l as [|x l IH]; intros Hd; [done|]. apply distinct_cons in Hd as [Hd Hx]. cbn [smap foldr].
  fold (smap l). rewrite filter_cons. destruct (used x) eqn:Hu; [|by rewrite decide_False, IH].
  rewrite decide_True by done. cbn [length]. rewrite map_size_insert_None, IH; [done|done|].
  apply eq_None_not_Some. intros [e (Hin & Hue & Hk)%smap_lookup]; [|done]. by apply (Hx eq_refl e).
Qed.

Lemma sfree_None l : distinct l -> sfree l = None <-> size (smap l) = length l.
Proof.
  intros Hd. rewrite smap_size by done. unfold sfree, scount. clear Hd. induction l as [|x l IH]; [done|].
  cbn [find_index length]. rewrite filter_cons. destruct (used x) eqn:Hu; cbn [negb].
  - rewrite decide_True by done. cbn [length]. destruct (find_index _ l); cbn.
    + split; [done|]. intros E. injection E as E. by apply IH in E.
    + split; [|done]. intros _. f_equal. by apply IH.
  - rewrite decide_False by congruence. split; [done|]. intros E. exfalso.
    pose proof (length_filter (fun e => used e = true) l). lia.
Qed.

Lemma smap_size_le l : distinct l -> (size (smap l) <= length l)%nat.
Proof. intros Hd. rewrite smap_size by done. apply length_filter. Qed.

Lemma distinct_replicate n x : used x = false -> distinct (replicate n x) /\ smap (replicate n x) = ∅.
Proof.
  intros Hx. split.
  - intros i j a b [-> _]%lookup_replicate _ Ha. congruence.
  - induction n as [|n IH]; [done|]. cbn. by rewrite Hx.
Qed.
End slots.
