(* ===== verification/Channel.v ===== *)
(** * Channel: per-channel state on both ends

    channel/retained_store.hpp (the hub's last value per STATE channel),
    channel/state_apply.hpp (the subscriber's newest-wins shadow),
    channel/subscription.hpp (grants and push pacing), channel/event_channel.hpp
    (the bounded event queue) and channel/intent_registry.hpp (the idempotency
    ring and the ingress token bucket).

    Of an array with a count only the counted prefix is kept: the source
    resets an element when it enters the prefix. A ring keeps its whole array.
    A [float] is a value of [Float32]. *)

From stdpp Require Import gmap sets.
From S2P Require Import Prelude Registry Float Serial Keyed.
Local Open Scope Z_scope.

(** ** RetainedStore *)

Module RetainedStore.
Record Entry := mkEntry { channel_id : Z; valid : bool; seq : Z; payload : bytes; size : Z }.
Abbreviation store := (list Entry).

Definition emptyEntry (ch : Z) : Entry := mkEntry ch false 0 (replicate limits.min_transport_payload 0) 0.

Section RetainedStore.
Variable Capacity : nat.

Definition find (ch : Z) (s : store) : option nat := find_index (fun e => channel_id e =? ch) s.

Definition publish (ch : Z) (p : bytes) (s : store) : option Z * store :=
  if (limits.min_transport_payload <? length p)%nat then (None, s)
  else
    match
      match find ch s with
      | Some i => Some (i, s)
      | None => if (Capacity <=? length s)%nat then None else Some (length s, s ++ [emptyEntry ch])
      end
    with
    | None => (None, s)
    | Some (i, s) =>
        let e := nth i s (emptyEntry ch) in
        let e := mkEntry (channel_id e) true (u16 (seq e + 1)) (write_at 0 p (payload e)) (u16 (Z.of_nat (length p))) in
        (Some (seq e), <[i := e]> s)
    end.

Definition get (ch : Z) (s : store) : option (Z * bytes) :=
  match find ch s with
  | None => None
  | Some i =>
      let e := nth i s (emptyEntry ch) in
      if negb (valid e) then None else Some (seq e, take (Z.to_nat (size e)) (payload e))
  end.
End RetainedStore.
End RetainedStore.

(** ** The subscriber's shadow *)

Module StateApply.
Record ShadowSlot := mkSlot { valid : bool; seq : Z; value : bytes; size : Z }.

Definition emptySlot : ShadowSlot := mkSlot false 0 (replicate limits.min_transport_payload 0) 0.

(** Accepted?, capacityExceeded?, and the slot. *)
Definition applyStateFrame (frameSeq : Z) (p : bytes) (s : ShadowSlot) : bool * bool * ShadowSlot :=
  if (length (value s) <? length p)%nat then (false, true, s)
  else if valid s && negb (seqIsNewer frameSeq (seq s)) then (false, false, s)
  else (true, false, mkSlot true frameSeq (write_at 0 p (value s)) (u16 (Z.of_nat (length p)))).
End StateApply.

(** ** Subscriptions *)

Module Subscription.
Record SubscriptionEntry := mkSub {
  channel_id : Z; granted_rate_hz : Float32.t; priority : Priority; everPushed : bool; lastPushMs : Z }.
Abbreviation table := (list SubscriptionEntry).

Definition dueForPush (nowMs : Z) (changePending : bool) (e : SubscriptionEntry) : bool :=
  if negb (everPushed e) then true
  else if negb changePending then false
  else if Float32.le (granted_rate_hz e) Float32.zero then true
  else
    let periodMs := Float32.to_u32 (Float32.div (Float32.of_Z 1000) (granted_rate_hz e)) in
    timeReached nowMs (u32 (lastPushMs e + periodMs)).

Definition markPushed (nowMs : Z) (e : SubscriptionEntry) : SubscriptionEntry :=
  mkSub (channel_id e) (granted_rate_hz e) (priority e) true nowMs.

Section SubscriptionTable.
Variable Capacity : nat.

Definition find (ch : Z) (t : table) : option nat := find_index (fun e => channel_id e =? ch) t.

Definition upsert (ch : Z) (rate : Float32.t) (prio : Priority) (t : table) : bool * table :=
  match find ch t with
  | Some i => (true, <[i := mkSub ch rate prio false 0]> t)
  | None => if (Capacity <=? length t)%nat then (false, t) else (true, t ++ [mkSub ch rate prio false 0])
  end.

(** Shifting the later entries down one place. *)
Definition remove (ch : Z) (t : table) : bool * table :=
  match find ch t with
  | Some i => (true, take i t ++ drop (S i) t)
  | None => (false, t)
  end.
End SubscriptionTable.
End Subscription.

(** ** EventQueue *)

Module EventQueue.
Record Slot := mkSlot { s_bytes : bytes; s_size : Z; s_channel : Z }.
Record queue := mkQueue { slots : list Slot; head : nat; tail : nat; count : nat; eventsDropped : Z }.

Section EventQueue.
Variables Depth SlotCapacity : nat.

Definition emptySlot : Slot := mkSlot (replicate SlotCapacity 0) 0 0.
Definition empty : queue := mkQueue (replicate Depth emptySlot) 0 0 0 0.

Definition push (ch : Z) (bs : bytes) (q : queue) : bool * queue :=
  if (SlotCapacity <? length bs)%nat then (false, q)
  else
    let '(tl, cnt, dropped) :=
      if (count q =? Depth)%nat
      then (((tail q + 1) mod Depth)%nat, (count q - 1)%nat, u32 (eventsDropped q + 1))
      else (tail q, count q, eventsDropped q) in
    let s := nth (head q) (slots q) emptySlot in
    let s := mkSlot (write_at 0 bs (s_bytes s)) (u16 (Z.of_nat (length bs))) ch in
    (true, mkQueue (<[head q := s]> (slots q)) ((head q + 1) mod Depth)%nat tl (cnt + 1)%nat dropped).

Definition pop (q : queue) : option (Z * bytes) * queue :=
  if (count q =? 0)%nat then (None, q)
  else
    let s := nth (tail q) (slots q) emptySlot in
    (Some (s_channel s, take (Z.to_nat (s_size s)) (s_bytes s)),
     mkQueue (slots q) (head q) ((tail q + 1) mod Depth)%nat (count q - 1)%nat (eventsDropped q)).
End EventQueue.
End EventQueue.

(** ** IntentRing *)

Module IntentRing.
Record Slot := mkSlot { used : bool; intent_id : Z; i_bytes : bytes; i_size : Z }.
Record ring := mkRing { slots : list Slot; head : nat; count : nat }.

Section IntentRing.
Variables Depth SlotCapacity : nat.

Definition emptySlot : Slot := mkSlot false 0 (replicate SlotCapacity 0) 0.
Definition empty : ring := mkRing (replicate Depth emptySlot) 0 0.

Definition store (id : Z) (echo : bytes) (r : ring) : bool * ring :=
  if (SlotCapacity <? length echo)%nat then (false, r)
  else
    let s := nth (head r) (slots r) emptySlot in
    let s := mkSlot true id (write_at 0 echo (i_bytes s)) (u16 (Z.of_nat (length echo))) in
    (true, mkRing (<[head r := s]> (slots r)) ((head r + 1) mod Depth)%nat
             (if (count r <? Depth)%nat then (count r + 1)%nat else count r)).

Definition lookup (id : Z) (r : ring) : option bytes :=
  match find_index (fun s => used s && (intent_id s =? id)) (take (count r) (slots r)) with
  | Some i => let s := nth i (slots r) emptySlot in Some (take (Z.to_nat (i_size s)) (i_bytes s))
  | None => None
  end.

Definition clear (r : ring) : ring :=
  mkRing ((fun s => mkSlot false (intent_id s) (i_bytes s) (i_size s)) <$> slots r) 0 0.
End IntentRing.
End IntentRing.

(** ** IngressRateLimiter *)

Module IngressRateLimiter.
Record limiter := mkLimiter { ratePerSec : Z; capacity : Float32.t; tokens : Float32.t; lastMs : Z }.

Definition make (rate nowMs : Z) (capacityTokens : Float32.t) : limiter :=
  let c := if Float32.lt Float32.zero capacityTokens then capacityTokens else Float32.of_Z rate in
  mkLimiter rate c c nowMs.

Definition refill (nowMs : Z) (l : limiter) : limiter :=
  let deltaMs := timeDelta nowMs (lastMs l) in
  if deltaMs <=? 0 then l
  else
    let added := Float32.mul (Float32.div (Float32.of_Z deltaMs) (Float32.of_Z 1000)) (Float32.of_Z (ratePerSec l)) in
    let t := Float32.add (tokens l) added in
    mkLimiter (ratePerSec l) (capacity l) (if Float32.lt (capacity l) t then capacity l else t) nowMs.

Definition allowN (nowMs n : Z) (l : limiter) : bool * limiter :=
  let l := refill nowMs l in
  if Float32.le (Float32.of_Z n) (tokens l)
  then (true, mkLimiter (ratePerSec l) (capacity l) (Float32.sub (tokens l) (Float32.of_Z n)) (lastMs l))
  else (false, l).

Definition allow (nowMs : Z) (l : limiter) : bool * limiter := allowN nowMs 1 l.
End IngressRateLimiter.

(** * Theorems *)

(** ** RetainedStore against a map of snapshots *)

Module RetainedFacts.
Import RetainedStore.

Definition view (e : Entry) : Z * bytes := (seq e, take (Z.to_nat (size e)) (payload e)).
Definition snapshots (s : store) : gmap Z (Z * bytes) := view <$> amap channel_id s.

Record wf (Capacity : nat) (s : store) : Prop := {
  wf_nodup : NoDup (keys channel_id s);
  wf_cap : (length s <= Capacity)%nat;
  wf_entries : Forall (fun e => valid e = true /\ length (payload e) = limits.min_transport_payload) s }.

(** What the hub promises: the map of the last published snapshots. *)
Definition spec_publish (Capacity : nat) (ch : Z) (p : bytes) (m : gmap Z (Z * bytes)) : option Z * gmap Z (Z * bytes) :=
  if (limits.min_transport_payload <? length p)%nat then (None, m)
  else match m !! ch with
  | Some (n, _) => (Some (u16 (n + 1)), <[ch := (u16 (n + 1), p)]> m)
  | None => if (Capacity <=? base.size m)%nat then (None, m) else (Some 1, <[ch := (1, p)]> m)
  end.

Lemma view_written e p :
  length (payload e) = limits.min_transport_payload -> (length p <= limits.min_transport_payload)%nat ->
  view (mkEntry (channel_id e) true (u16 (seq e + 1)) (write_at 0 p (payload e)) (u16 (Z.of_nat (length p))))
  = (u16 (seq e + 1), p) /\ length (write_at 0 p (payload e)) = limits.min_transport_payload.
Proof.
  intros Hl Hp. split; [|rewrite length_write_at; [done|lia]]. unfold view. cbn [seq size payload]. f_equal.
  rewrite u16_id by (unfold is_u16, limits.min_transport_payload in *; lia). rewrite Nat2Z.id.
  rewrite write_at_0. apply take_app_length.
Qed.

Lemma publish_refines Capacity ch p s :
  wf Capacity s ->
  (publish Capacity ch p s).1 = (spec_publish Capacity ch p (snapshots s)).1 /\
  snapshots (publish Capacity ch p s).2 = (spec_publish Capacity ch p (snapshots s)).2 /\
  wf Capacity (publish Capacity ch p s).2.
Proof.
  intros Hwf. destruct (Hwf) as [Hn Hc He]. unfold publish, spec_publish.
  destruct (Nat.ltb_spec limits.min_transport_payload (length p)) as [|Hp]; [done|].
  assert (snapshots s !! ch = view <$> amap channel_id s !! ch) as -> by apply lookup_fmap.
  assert (base.size (snapshots s) = length s) as -> by (unfold snapshots; by rewrite map_size_fmap, amap_size).
  unfold find. fold (kfind channel_id ch s). destruct (kfind channel_id ch s) as [i|] eqn:Hf.
  - destruct (kfind_Some _ _ _ _ Hf) as (e & Hi & Hk). rewrite (amap_find _ _ _ _ _ Hn Hf Hi). cbn [fmap option_fmap option_map].
    rewrite (nth_lookup_Some _ _ _ _ Hi). cbn [view].
    destruct (Forall_lookup_1 _ _ _ _ He Hi) as [Hv Hl]. destruct (view_written e p Hl Hp) as [Hview Hlen].
    set (e' := mkEntry _ _ _ _ _) in *. assert (kfind channel_id (channel_id e') s = Some i) as Hf' by (cbn; by rewrite Hk).
    cbn [fst snd]. split_and!; [done| |split].
    + unfold snapshots. rewrite amap_insert by done. rewrite fmap_insert, Hview. cbn. by rewrite Hk.
    + by rewrite (keys_insert _ _ _ _ Hf').
    + by rewrite length_insert.
    + apply Forall_insert; [done|]. done.
  - rewrite (amap_find_None _ _ _ Hf). cbn [fmap option_fmap option_map].
    destruct (Nat.leb_spec Capacity (length s)); [done|].
    rewrite app_nth2, Nat.sub_diag by lia. cbn [nth].
    destruct (view_written (emptyEntry ch) p ltac:(apply length_replicate) Hp) as [Hview Hlen].
    set (e' := mkEntry _ _ _ _ _) in *. change (channel_id (emptyEntry ch)) with ch in *.
    rewrite insert_app_r_alt, Nat.sub_diag by lia. cbn [insert list_insert].
    destruct (amap_snoc channel_id s e' Hn) as [Hm Hn']; [by apply kfind_None in Hf|].
    cbn [fst snd]. split_and!; [done| |split].
    + unfold snapshots. rewrite Hm, fmap_insert, Hview. done.
    + done.
    + rewrite length_app. cbn. lia.
    + apply Forall_app. split; [done|]. by constructor.
Qed.

Lemma get_refines Capacity ch s : wf Capacity s -> get ch s = snapshots s !! ch.
Proof.
  intros [Hn _ He]. unfold get, snapshots. rewrite lookup_fmap. unfold find. fold (kfind channel_id ch s).
  destruct (kfind channel_id ch s) as [i|] eqn:Hf.
  - destruct (kfind_Some _ _ _ _ Hf) as (e & Hi & Hk). rewrite (amap_find _ _ _ _ _ Hn Hf Hi).
    rewrite (nth_lookup_Some _ _ _ _ Hi). by destruct (Forall_lookup_1 _ _ _ _ He Hi) as [-> _].
  - by rewrite (amap_find_None _ _ _ Hf).
Qed.
End RetainedFacts.

(** ** The shadow keeps the newest frame *)

Module ShadowFacts.
Import StateApply.

(** The slot holds the frame numbered [n] (unwrapped) with payload [p]. *)
Definition holds (n : Z) (p : bytes) (s : ShadowSlot) : Prop :=
  valid s = true /\ seq s = u16 n /\ take (Z.to_nat (size s)) (value s) = p /\ length (value s) = limits.min_transport_payload.

Definition deliver (frames : list (Z * bytes)) (s : ShadowSlot) : ShadowSlot :=
  foldl (fun s f => (applyStateFrame (u16 f.1) f.2 s).2) s frames.

Lemma accept_holds n p s :
  (length p <= limits.min_transport_payload)%nat -> length (value s) = limits.min_transport_payload ->
  holds n p (mkSlot true (u16 n) (write_at 0 p (value s)) (u16 (Z.of_nat (length p)))).
Proof.
  intros Hp Hl. unfold holds. cbn [valid seq size value]. split_and!; [done|done| |].
  - rewrite u16_id by (unfold is_u16, limits.min_transport_payload in *; lia). rewrite Nat2Z.id.
    rewrite write_at_0. apply take_app_length.
  - rewrite length_write_at; [done|lia].
Qed.

Lemma apply_newest n p s m q :
  (length q <= limits.min_transport_payload)%nat -> holds n p s -> -32768 < m - n < 32768 ->
  exists n' p', holds n' p' (applyStateFrame (u16 m) q s).2 /\ n' = Z.max n m /\ ((n', p') = (n, p) \/ (n', p') = (m, q)).
Proof.
  intros Hq Hh Hmn. destruct (Hh) as (Hv & Hs & Hp & Hl). unfold applyStateFrame. rewrite Hl, Hv, Hs.
  destruct (Nat.ltb_spec limits.min_transport_payload (length q)); [lia|].
  rewrite seqIsNewer_unwrapped by lia. destruct (Z.ltb_spec n m); cbn [andb negb snd].
  - exists m, q. split_and!; [by apply accept_holds|lia|auto].
  - exists n, p. split_and!; [done|lia|auto].
Qed.

Lemma deliver_newest frames n p s lo hi :
  holds n p s -> Forall (fun f => (length f.2 <= limits.min_transport_payload)%nat /\ lo <= f.1 <= hi) frames ->
  lo <= n <= hi -> hi - lo < 32768 ->
  exists N P, holds N P (deliver frames s) /\ (N, P) ∈ (n, p) :: frames /\ Forall (fun f => f.1 <= N) ((n, p) :: frames).
Proof.
  intros Hh Hf Hn Hspan. revert n p s Hh Hn. induction Hf as [|[m q] frames [Hq Hm] Hf IH]; intros n p s Hh Hn.
  { exists n, p. split_and!; [done|set_solver|]. by repeat constructor. }
  cbn [fst snd] in *. destruct (apply_newest n p s m q Hq Hh ltac:(lia)) as (n' & p' & Hh' & Hmax & Hfrom).
  unfold deliver. cbn [foldl fst snd]. destruct (IH n' p' _ Hh' ltac:(lia)) as (N & P & HN & Hin & Hall).
  exists N, P. apply Forall_cons in Hall as [Hn' Hall]. cbn in Hn'. split_and!; [done| |].
  - apply elem_of_cons in Hin as [E|Hin]; [|set_solver]. rewrite E. destruct Hfrom as [-> | ->]; set_solver.
  - constructor; [cbn; lia|]. constructor; [cbn; lia|done].
Qed.
End ShadowFacts.

(** ** The event ring is a bounded queue that drops its oldest entry *)

Module EventFacts.
Import EventQueue.

Lemma mod_shift_ne t i j D : (0 < D)%nat -> (i < j)%nat -> (j - i < D)%nat -> ((t + i) mod D <> (t + j) mod D)%nat.
Proof.
  intros HD Hij Hd E. pose proof (Nat.div_mod_eq (t + i) D). pose proof (Nat.div_mod_eq (t + j) D).
  assert (D * ((t + j) / D) = D * ((t + i) / D) + (j - i))%nat by lia. nia.
Qed.

Section facts.
Variables Depth SlotCapacity : nat.
Hypothesis HD : (0 < Depth)%nat.
Hypothesis HS : Z.of_nat SlotCapacity < 65536.

Definition content (s : Slot) : Z * bytes := (s_channel s, take (Z.to_nat (s_size s)) (s_bytes s)).
Definition slot_at (q : queue) (i : nat) : Slot := nth ((tail q + i) mod Depth) (slots q) (emptySlot SlotCapacity).
Definition queued (q : queue) : list (Z * bytes) := (fun i => content (slot_at q i)) <$> seq 0 (count q).

Record wf (q : queue) : Prop := {
  wf_len : length (slots q) = Depth;
  wf_count : (count q <= Depth)%nat;
  wf_tail : (tail q < Depth)%nat;
  wf_head : head q = ((tail q + count q) mod Depth)%nat;
  wf_slots : Forall (fun s => length (s_bytes s) = SlotCapacity) (slots q) }.

(** The queue the hub promises each subscriber. *)
Definition spec_push (ch : Z) (bs : bytes) (l : list (Z * bytes)) (dropped : Z) : bool * list (Z * bytes) * Z :=
  if (SlotCapacity <? length bs)%nat then (false, l, dropped)
  else if (length l =? Depth)%nat then (true, drop 1 l ++ [(ch, bs)], u32 (dropped + 1))
  else (true, l ++ [(ch, bs)], dropped).

Lemma queue_empty_wf : wf (empty Depth SlotCapacity).
Proof.
  split; cbn; [apply length_replicate|lia|done|by rewrite Nat.Div0.mod_0_l|].
  apply Forall_replicate, length_replicate.
Qed.

Lemma length_queued q : length (queued q) = count q.
Proof. unfold queued. by rewrite length_fmap, length_seq. Qed.

Lemma drop_oldest q d :
  wf q -> (0 < count q)%nat ->
  let q' := mkQueue (slots q) (head q) ((tail q + 1) mod Depth)%nat (count q - 1)%nat d in
  wf q' /\ queued q' = drop 1 (queued q).
Proof.
  intros [Hl Hc Ht Hh Hs] Hpos q'. split.
  - split; cbn; [done|lia|by apply Nat.mod_upper_bound; lia| |done].
    rewrite Hh, Nat.Div0.add_mod_idemp_l. f_equal. lia.
  - unfold queued. destruct (count q) as [|n] eqn:E; [lia|]. cbn [count q' seq fmap list_fmap drop].
    replace (S n - 1)%nat with n by lia. rewrite <- fmap_S_seq, <- list_fmap_compose.
    apply list_fmap_ext. intros _ i _. cbn [compose]. f_equal. unfold slot_at. cbn [tail slots q'].
    rewrite Nat.Div0.add_mod_idemp_l. do 2 f_equal. lia.
Qed.

Lemma append_newest q ch bs :
  wf q -> (count q < Depth)%nat -> (length bs <= SlotCapacity)%nat ->
  let s := nth (head q) (slots q) (emptySlot SlotCapacity) in
  let s := mkSlot (write_at 0 bs (s_bytes s)) (u16 (Z.of_nat (length bs))) ch in
  let q' := mkQueue (<[head q := s]> (slots q)) ((head q + 1) mod Depth)%nat (tail q) (count q + 1)%nat (eventsDropped q) in
  wf q' /\ queued q' = queued q ++ [(ch, bs)].
Proof.
  intros [Hl Hc Ht Hh Hs] Hroom Hbs s0 s q'.
  assert (head q < Depth)%nat as Hhd by (rewrite Hh; apply Nat.mod_upper_bound; lia).
  assert (length (s_bytes s0) = SlotCapacity) as Hs0.
  { unfold s0. destruct (lookup_lt_is_Some_2 (slots q) (head q)) as [x Hx]; [lia|].
    rewrite (nth_lookup_Some _ _ _ _ Hx). by eapply Forall_lookup_1 in Hs. }
  split.
  - split; cbn; [by rewrite length_insert|lia|done| |].
    + rewrite Hh, Nat.Div0.add_mod_idemp_l. f_equal. lia.
    + apply Forall_insert; [done|]. cbn. rewrite length_write_at; [done|lia].
  - unfold queued. cbn [count q']. rewrite seq_app, fmap_app. cbn [seq fmap list_fmap]. f_equal.
    + apply list_fmap_ext. intros _ i Hi%list_elem_of_lookup_2%elem_of_seq. f_equal. unfold slot_at. cbn [tail slots q'].
      rewrite !nth_lookup, list_lookup_insert_ne; [done|]. rewrite Hh. symmetry. apply mod_shift_ne; lia.
    + f_equal. unfold slot_at. cbn [tail slots q']. rewrite nth_lookup, Nat.add_0_l, <- Hh, list_lookup_insert_eq by lia.
      cbn [default]. unfold content, s. cbn [s_channel s_size s_bytes]. f_equal.
      rewrite u16_id by (unfold is_u16; lia). cbn [id s_size s_bytes]. rewrite Nat2Z.id, write_at_0. apply take_app_length.
Qed.

Lemma push_refines ch bs q :
  wf q ->
  let '(ok, q') := push Depth SlotCapacity ch bs q in
  (ok, queued q', eventsDropped q') = spec_push ch bs (queued q) (eventsDropped q) /\ wf q'.
Proof.
  intros Hwf. unfold push, spec_push. destruct (Nat.ltb_spec SlotCapacity (length bs)) as [|Hbs]; [done|].
  rewrite length_queued. destruct (Nat.eqb_spec (count q) Depth) as [Hfull|Hroom].
  - destruct (drop_oldest q (u32 (eventsDropped q + 1)) Hwf ltac:(lia)) as [Hwf' Hq'].
    destruct (append_newest _ ch bs Hwf' ltac:(cbn; lia) Hbs) as [Hwf'' Hq'']. cbn [head tail count slots eventsDropped] in *.
    split; [|done]. rewrite Hq'', Hq'. done.
  - destruct (append_newest q ch bs Hwf ltac:(destruct Hwf; lia) Hbs) as [Hwf' Hq'].
    split; [|done]. rewrite Hq'. done.
Qed.

Lemma pop_refines q :
  wf q ->
  let '(x, q') := pop Depth SlotCapacity q in
  (x, queued q', eventsDropped q') = (hd_error (queued q), drop 1 (queued q), eventsDropped q) /\ wf q'.
Proof.
  intros Hwf. unfold pop. destruct (Nat.eqb_spec (count q) 0) as [E|Hne].
  - split; [|done]. unfold queued. by rewrite E.
  - destruct (drop_oldest q (eventsDropped q) Hwf ltac:(lia)) as [Hwf' Hq']. split; [|done]. rewrite Hq'. cbn [eventsDropped].
    do 2 f_equal. unfold queued. destruct (count q) as [|n] eqn:E; [done|]. cbn [seq fmap list_fmap hd_error].
    unfold slot_at. rewrite Nat.add_0_r, Nat.mod_small by apply Hwf. done.
Qed.
End facts.
End EventFacts.

(** ** The idempotency ring remembers the last [Depth] intents *)

Module RingFacts.
Import IntentRing.

Section facts.
Variables Depth SlotCapacity : nat.
Hypothesis HD : (0 < Depth)%nat.
Hypothesis HS : Z.of_nat SlotCapacity < 65536.

Definition stores (sts : list (Z * bytes)) (r : ring) : ring :=
  foldl (fun r st => (store Depth SlotCapacity st.1 st.2 r).2) r sts.

Definition recent (sts : list (Z * bytes)) : list (Z * bytes) := drop (length sts - Depth) sts.

Definition holds (st : Z * bytes) (s : Slot) : Prop :=
  used s = true /\ intent_id s = st.1 /\ take (Z.to_nat (i_size s)) (i_bytes s) = st.2.

Record wf (sts : list (Z * bytes)) (r : ring) : Prop := {
  wf_len : length (slots r) = Depth;
  wf_head : head r = (length sts mod Depth)%nat;
  wf_count : count r = Nat.min (length sts) Depth;
  wf_bytes : Forall (fun s => length (i_bytes s) = SlotCapacity) (slots r);
  wf_holds : forall k st, (length sts - Depth <= k)%nat -> sts !! k = Some st ->
    exists s, slots r !! (k mod Depth)%nat = Some s /\ holds st s }.

Lemma ring_empty_wf : wf [] (empty Depth SlotCapacity).
Proof.
  split; cbn; [apply length_replicate|by rewrite Nat.Div0.mod_0_l|lia| |done].
  apply Forall_replicate, length_replicate.
Qed.

Lemma store_wf sts r id echo :
  wf sts r -> (length echo <= SlotCapacity)%nat ->
  wf (sts ++ [(id, echo)]) (store Depth SlotCapacity id echo r).2.
Proof.
  intros [Hl Hh Hc Hb Hk] He. unfold store. destruct (Nat.ltb_spec SlotCapacity (length echo)); [lia|]. cbn [snd].
  assert (head r < Depth)%nat as Hhd by (rewrite Hh; apply Nat.mod_upper_bound; lia).
  set (s0 := nth (head r) (slots r) (emptySlot SlotCapacity)).
  assert (length (i_bytes s0) = SlotCapacity) as Hs0.
  { unfold s0. destruct (lookup_lt_is_Some_2 (slots r) (head r)) as [x Hx]; [lia|].
    rewrite (nth_lookup_Some _ _ _ _ Hx). by eapply Forall_lookup_1 in Hb. }
  split; cbn [slots head count]; rewrite ?length_app; cbn [length].
  - by rewrite length_insert.
  - rewrite Hh, Nat.Div0.add_mod_idemp_l. done.
  - rewrite Hc. destruct (Nat.ltb_spec (length sts `min` Depth) Depth); lia.
  - apply Forall_insert; [done|]. cbn. rewrite length_write_at; [done|lia].
  - intros k st Hlo Hst. apply lookup_snoc_Some in Hst as [[Hlt Hst]|[-> <-]].
    + destruct (Hk k st ltac:(lia) Hst) as (s & Hs & Hh'). exists s. split; [|done].
      rewrite list_lookup_insert_ne; [done|]. rewrite Hh. intros E. symmetry in E.
      pose proof (EventFacts.mod_shift_ne 0 k (length sts) Depth HD Hlt ltac:(lia)) as Hne. by apply Hne.
    + eexists. rewrite <- Hh, list_lookup_insert_eq by lia. split; [done|]. unfold holds. cbn. split_and!; [done|done|].
      rewrite u16_id by (unfold is_u16; lia). rewrite Nat2Z.id, write_at_0. apply take_app_length.
Qed.

Lemma stores_wf sts0 sts r :
  wf sts0 r -> Forall (fun st => (length st.2 <= SlotCapacity)%nat) sts -> wf (sts0 ++ sts) (stores sts r).
Proof.
  intros Hwf Hs. revert sts0 r Hwf. induction Hs as [|[id echo] sts He _ IH]; intros sts0 r Hwf.
  { by rewrite app_nil_r. }
  replace (sts0 ++ (id, echo) :: sts) with ((sts0 ++ [(id, echo)]) ++ sts) by (by rewrite <- app_assoc).
  apply IH. by apply store_wf.
Qed.

(** The slots in use are exactly those of the recent intents. *)
Lemma slot_recent sts r j :
  wf sts r -> (j < count r)%nat -> exists k st s, sts !! k = Some st /\ (length sts - Depth <= k)%nat /\
    (k mod Depth = j)%nat /\ slots r !! j = Some s /\ holds st s.
Proof.
  intros [Hl Hh Hc Hb Hk] Hj. rewrite Hc in Hj. set (n := length sts) in *.
  set (k := (n - 1 - (n - 1 - j) mod Depth)%nat).
  pose proof (Nat.mod_upper_bound (n - 1 - j) Depth ltac:(lia)) as Hm.
  pose proof (Nat.Div0.mod_le (n - 1 - j) Depth) as Hle.
  assert (k mod Depth = j)%nat as Hkj.
  { unfold k. pose proof (Nat.div_mod_eq (n - 1 - j) Depth) as Heq.
    replace (n - 1 - (n - 1 - j) mod Depth)%nat with (j + ((n - 1 - j) / Depth) * Depth)%nat by lia.
    rewrite Nat.Div0.mod_add. apply Nat.mod_small. lia. }
  destruct (lookup_lt_is_Some_2 sts k) as [st Hst]; [unfold k, n in *; lia|].
  destruct (Hk k st ltac:(unfold k in *; lia) Hst) as (s & Hs & Hh'). rewrite Hkj in Hs. exists k, st, s.
  split_and!; try done. unfold k in *; lia.
Qed.

Lemma recent_spec sts id e :
  (id, e) ∈ recent sts <-> exists k, (length sts - Depth <= k)%nat /\ sts !! k = Some (id, e).
Proof.
  unfold recent. rewrite list_elem_of_lookup. setoid_rewrite lookup_drop. split.
  - intros [i Hi]. exists (length sts - Depth + i)%nat. split; [lia|done].
  - intros (k & Hk & Hst). exists (k - (length sts - Depth))%nat. rewrite <- Hst. f_equal. lia.
Qed.

Lemma lookup_recent sts r id e :
  wf sts r -> NoDup (recent sts).*1 -> lookup SlotCapacity id r = Some e <-> (id, e) ∈ recent sts.
Proof.
  intros Hwf Hn. unfold lookup. set (p := fun s => used s && (intent_id s =? id)).
  assert (forall i s, (i < count r)%nat -> slots r !! i = Some s -> p s = true ->
    (id, take (Z.to_nat (i_size s)) (i_bytes s)) ∈ recent sts) as Hsound.
  { intros i s Hi Hs Hp. destruct (slot_recent sts r i Hwf Hi) as (k & [id' e'] & s' & Hst & Hk & _ & Hs' & Hu & Hid & Hb).
    rewrite Hs in Hs'. injection Hs' as <-. unfold p in Hp. cbn in Hid, Hb. rewrite Hu, Hid in Hp. cbn in Hp.
    apply recent_spec. exists k. split; [done|]. rewrite Hst. do 2 f_equal; [lia|done]. }
  destruct (find_index p (take (count r) (slots r))) as [i|] eqn:Hf.
  - apply find_index_Some in Hf as (s & Hs & Hp & _). apply lookup_take_Some in Hs as [Hs Hi].
    rewrite (nth_lookup_Some _ _ _ _ Hs). pose proof (Hsound i s Hi Hs Hp) as Hin. split; [by intros [= <-]|].
    intros Hin'. f_equal. apply list_elem_of_lookup in Hin as [a Ha]. apply list_elem_of_lookup in Hin' as [b Hb].
    assert (a = b) as <-; [|rewrite Ha in Hb; congruence].
    eapply (NoDup_lookup _ _ _ id Hn); rewrite list_lookup_fmap; [by rewrite Ha|by rewrite Hb].
  - split; [done|]. intros Hin. apply recent_spec in Hin as (k & Hk & Hst). exfalso.
    destruct (wf_holds _ _ Hwf k (id, e) Hk Hst) as (s & Hs & Hu & Hid & _). cbn in Hid.
    apply find_index_None in Hf. assert (p s = false) as Hp.
    { eapply (Forall_lookup_1 _ _ (k mod Depth)%nat _ Hf). apply lookup_take_Some. split; [done|].
      rewrite (wf_count _ _ Hwf). pose proof (Nat.mod_upper_bound k Depth ltac:(lia)). pose proof (Nat.Div0.mod_le k Depth).
      apply lookup_lt_Some in Hst. lia. }
    unfold p in Hp. rewrite Hu, Hid, Z.eqb_refl in Hp. done.
Qed.
End facts.
End RingFacts.

(** ** The subscription table is a map of grants *)

Module SubscriptionFacts.
Import Subscription.

Inductive op : Type := Upsert (ch : Z) (rate : Float32.t) (prio : Priority) | Remove (ch : Z).

Definition grants (t : table) : gmap Z SubscriptionEntry := amap channel_id t.

Definition step (Capacity : nat) (o : op) (t : table) : bool * table :=
  match o with Upsert ch rate prio => upsert Capacity ch rate prio t | Remove ch => remove ch t end.

(** A (re-)SUBSCRIBE replaces the grant and is due at once; the table holds at
    most [Capacity] channels. *)
Definition spec_step (Capacity : nat) (o : op) (m : gmap Z SubscriptionEntry) : bool * gmap Z SubscriptionEntry :=
  match o with
  | Upsert ch rate prio =>
      if bool_decide (is_Some (m !! ch)) || (size m <? Capacity)%nat
      then (true, <[ch := mkSub ch rate prio false 0]> m) else (false, m)
  | Remove ch => (bool_decide (is_Some (m !! ch)), delete ch m)
  end.

Lemma sub_step_refines Capacity o t :
  NoDup (keys channel_id t) -> (length t <= Capacity)%nat ->
  let '(ok, t') := step Capacity o t in
  (ok, grants t') = spec_step Capacity o (grants t) /\ NoDup (keys channel_id t') /\ (length t' <= Capacity)%nat.
Proof.
  intros Hn Hc. unfold grants. destruct o as [ch rate prio|ch]; cbn [step spec_step].
  - unfold upsert, find. fold (kfind channel_id ch t). destruct (kfind channel_id ch t) as [i|] eqn:Hf.
    + destruct (kfind_Some _ _ _ _ Hf) as (e & Hi & Hk). rewrite (amap_find _ _ _ _ _ Hn Hf Hi).
      rewrite bool_decide_true by eauto. cbn [orb]. rewrite (amap_insert _ t i (mkSub ch rate prio false 0)) by done.
      split_and!; [done| |by rewrite length_insert]. by rewrite (keys_insert _ t i (mkSub ch rate prio false 0)).
    + rewrite (amap_find_None _ _ _ Hf), bool_decide_false by (by intros []). cbn [orb]. rewrite amap_size by done.
      destruct (Nat.leb_spec Capacity (length t)), (Nat.ltb_spec (length t) Capacity); try lia; [done|].
      destruct (amap_snoc channel_id t (mkSub ch rate prio false 0) Hn) as [-> Hn']; [by apply kfind_None in Hf|].
      split_and!; [done|done|]. rewrite length_app. cbn. lia.
  - unfold remove, find. fold (kfind channel_id ch t). destruct (kfind channel_id ch t) as [i|] eqn:Hf.
    + destruct (kfind_Some _ _ _ _ Hf) as (e & Hi & Hk). destruct (amap_delete _ _ _ _ Hn Hf) as [-> Hn'].
      rewrite (amap_find _ _ _ _ _ Hn Hf Hi), bool_decide_true by eauto. split_and!; [done|done|].
      rewrite length_app, length_take, length_drop. apply lookup_lt_Some in Hi. lia.
    + rewrite (amap_find_None _ _ _ Hf), bool_decide_false by (by intros []).
      rewrite delete_id by (by apply amap_find_None). done.
Qed.
End SubscriptionFacts.

(** * Properties *)

(** The hub's retained store is the map of last snapshots: over any
    sequence of publications from an empty store, the returned sequence numbers
    (or refusals) are those of the specification, which numbers each channel's
    publications 1, 2, ... modulo 2^16, refuses payloads over the transport
    floor and new channels beyond the capacity, and [get] returns exactly the
    last accepted snapshot of each channel and nothing for a channel never
    published. *)
Theorem retained_store_refines (Capacity : nat) (ops : list (Z * bytes)) :
  let run := foldl (fun '(outs, s) '(ch, p) =>
      let '(o, s) := RetainedStore.publish Capacity ch p s in (outs ++ [o], s)) ([], []) ops in
  let spec := foldl (fun '(outs, m) '(ch, p) =>
      let '(o, m) := RetainedFacts.spec_publish Capacity ch p m in (outs ++ [o], m)) ([], ∅) ops in
  run.1 = spec.1 /\ forall ch, RetainedStore.get ch run.2 = spec.2 !! ch.
Proof.
  cbv zeta.
  assert (forall ops outs s, RetainedFacts.wf Capacity s ->
    let run := foldl (fun '(outs, s) '(ch, p) =>
      let '(o, s) := RetainedStore.publish Capacity ch p s in (outs ++ [o], s)) (outs, s) ops in
    let spec := foldl (fun '(outs, m) '(ch, p) =>
      let '(o, m) := RetainedFacts.spec_publish Capacity ch p m in (outs ++ [o], m)) (outs, RetainedFacts.snapshots s) ops in
    run.1 = spec.1 /\ forall ch, RetainedStore.get ch run.2 = spec.2 !! ch) as Hgen.
  { clear ops. induction ops as [|[ch p] ops IH]; intros outs s Hwf; cbn [foldl].
    - split; [done|]. intros ch. by eapply RetainedFacts.get_refines.
    - destruct (RetainedFacts.publish_refines Capacity ch p s Hwf) as (Ho & Hm & Hwf').
      destruct (RetainedStore.publish Capacity ch p s) as [o s'].
      destruct (RetainedFacts.spec_publish Capacity ch p (RetainedFacts.snapshots s)) as [o' m']. cbn [fst snd] in *. subst.
      by apply IH. }
  apply (Hgen ops [] []). split; [constructor|cbn; lia|constructor].
Qed.

(** C37. STATE converges to the newest value whatever the transport does: if the
    frames that arrive, in any order, with any loss and duplication, carry
    (unwrapped) sequence numbers spanning less than 2^15, the subscriber's
    shadow ends up holding a frame that arrived and whose number is the largest
    of those that arrived. *)
Theorem shadow_newest_wins (frames : list (Z * bytes)) (lo hi : Z) :
  frames <> [] -> hi - lo < 32768 ->
  Forall (fun f => (length f.2 <= limits.min_transport_payload)%nat /\ lo <= f.1 <= hi) frames ->
  exists N P, ShadowFacts.holds N P (ShadowFacts.deliver frames StateApply.emptySlot) /\
    (N, P) ∈ frames /\ Forall (fun f => f.1 <= N) frames.
Proof.
  intros Hne Hspan Hf. destruct frames as [|[n p] frames]; [done|]. apply Forall_cons in Hf as [[Hp Hn] Hf]. cbn in Hp, Hn.
  assert (ShadowFacts.holds n p (StateApply.applyStateFrame (u16 n) p StateApply.emptySlot).2) as Hh.
  { unfold StateApply.applyStateFrame. cbn [StateApply.value StateApply.valid StateApply.emptySlot andb]. rewrite length_replicate.
    destruct (Nat.ltb_spec limits.min_transport_payload (length p)); [lia|].
    apply (ShadowFacts.accept_holds n p StateApply.emptySlot); [done|]. apply length_replicate. }
  by destruct (ShadowFacts.deliver_newest frames n p _ lo hi Hh Hf Hn Hspan) as (N & P & HN & Hin & Hall); eauto.
Qed.

Lemma shadow_newest_wins_witness :
  exists N P, ShadowFacts.holds N P (ShadowFacts.deliver [(65535, [1]); (65537, [3]); (65536, [2]); (65537, [3])] StateApply.emptySlot) /\
    (N, P) ∈ [(65535, [1]); (65537, [3]); (65536, [2]); (65537, [3])] /\
    Forall (fun f => f.1 <= N) [(65535, [1]); (65537, [3]); (65536, [2]); (65537, [3])].
Proof.
  apply (shadow_newest_wins [(65535, [1]); (65537, [3]); (65536, [2]); (65537, [3])] 65535 65537); [done|lia|].
  repeat constructor; cbn; unfold limits.min_transport_payload; lia.
Defined.

(** Operations on an event queue. *)
Inductive queue_op : Type := Push (ch : Z) (bs : bytes) | Pop.

(** The event ring refines a bounded queue: over any sequence of pushes and
    pops from the empty queue, every result (acceptance of a push, the event
    and its channel returned by a pop) and the drop counter are those of a list
    of at most [Depth] events that is served oldest first, that drops its
    oldest event to admit one too many, and that refuses an oversized event
    unchanged. *)
Theorem event_queue_refines (Depth SlotCapacity : nat) (ops : list queue_op) :
  (0 < Depth)%nat -> Z.of_nat SlotCapacity < 65536 ->
  let run := foldl (fun '(outs, q) o => match o with
      | Push ch bs => let '(ok, q) := EventQueue.push Depth SlotCapacity ch bs q in (outs ++ [inl ok], q)
      | Pop => let '(x, q) := EventQueue.pop Depth SlotCapacity q in (outs ++ [inr x], q) end)
      ([], EventQueue.empty Depth SlotCapacity) ops in
  let spec := foldl (fun '(outs, l, d) o => match o with
      | Push ch bs => let '(ok, l, d) := EventFacts.spec_push Depth SlotCapacity ch bs l d in (outs ++ [inl ok], l, d)
      | Pop => (outs ++ [inr (hd_error l)], drop 1 l, d) end)
      (@nil (bool + option (Z * bytes)), @nil (Z * bytes), 0) ops in
  (run.1, EventFacts.queued Depth SlotCapacity run.2, EventQueue.eventsDropped run.2) = spec /\
  (length spec.1.2 <= Depth)%nat.
Proof.
  intros HD HS. cbv zeta.
  assert (forall ops outs q, EventFacts.wf Depth SlotCapacity q ->
    let run := foldl (fun '(outs, q) o => match o with
      | Push ch bs => let '(ok, q) := EventQueue.push Depth SlotCapacity ch bs q in (outs ++ [inl ok], q)
      | Pop => let '(x, q) := EventQueue.pop Depth SlotCapacity q in (outs ++ [inr x], q) end) (outs, q) ops in
    let spec := foldl (fun '(outs, l, d) o => match o with
      | Push ch bs => let '(ok, l, d) := EventFacts.spec_push Depth SlotCapacity ch bs l d in (outs ++ [inl ok], l, d)
      | Pop => (outs ++ [inr (hd_error l)], drop 1 l, d) end)
      (outs, EventFacts.queued Depth SlotCapacity q, EventQueue.eventsDropped q) ops in
    (run.1, EventFacts.queued Depth SlotCapacity run.2, EventQueue.eventsDropped run.2) = spec /\
    EventFacts.wf Depth SlotCapacity run.2) as Hgen.
  { clear ops. induction ops as [|[ch bs|] ops IH]; intros outs q Hwf; cbn [foldl]; [done| |].
    - pose proof (EventFacts.push_refines Depth SlotCapacity HD HS ch bs q Hwf) as H.
      destruct (EventQueue.push Depth SlotCapacity ch bs q) as [ok q']. destruct H as [H Hwf']. rewrite <- H. by apply IH.
    - pose proof (EventFacts.pop_refines Depth SlotCapacity HD q Hwf) as H.
      destruct (EventQueue.pop Depth SlotCapacity q) as [x q']. destruct H as [H Hwf']. injection H as -> Hq Hd.
      rewrite <- Hq, <- Hd. by apply IH. }
  destruct (Hgen ops [] _ (EventFacts.queue_empty_wf Depth SlotCapacity HD)) as [Heq Hwf]. split; [exact Heq|].
  change (EventFacts.queued Depth SlotCapacity (EventQueue.empty Depth SlotCapacity)) with (@nil (Z * bytes)) in Heq.
  cbn [EventQueue.eventsDropped EventQueue.empty] in Heq. rewrite <- Heq. cbn [fst snd].
  rewrite EventFacts.length_queued. apply Hwf.
Qed.

Lemma event_queue_refines_witness :
  let run := foldl (fun '(outs, q) o => match o with
      | Push ch bs => let '(ok, q) := EventQueue.push 2 4 ch bs q in (outs ++ [inl ok], q)
      | Pop => let '(x, q) := EventQueue.pop 2 4 q in (outs ++ [inr x], q) end)
      (@nil (bool + option (Z * bytes)), EventQueue.empty 2 4) [Push 1 [10]; Push 2 [20; 21]; Push 3 [30]; Pop] in
  run.1 = [inl true; inl true; inl true; inr (Some (2, [20; 21]))] /\ EventQueue.eventsDropped run.2 = 1.
Proof.
  destruct (event_queue_refines 2 4 [Push 1 [10]; Push 2 [20; 21]; Push 3 [30]; Pop] ltac:(lia) ltac:(lia)) as [H _].
  cbv zeta in *. split.
  - etransitivity; [exact (f_equal (fun x => x.1.1) H)|vm_compute; reflexivity].
  - etransitivity; [exact (f_equal snd H)|vm_compute; reflexivity].
Defined.

(** Idempotency: after any number of accepted intents, as long as the ids
    of the last [Depth] are distinct, a duplicate of any of these finds exactly
    the ECHO that was stored for it, and any other id finds nothing (so it is
    applied as new). *)
Theorem intent_ring_exact (Depth SlotCapacity : nat) (sts : list (Z * bytes)) (id : Z) (echo : bytes) :
  (0 < Depth)%nat -> Z.of_nat SlotCapacity < 65536 ->
  Forall (fun st => (length st.2 <= SlotCapacity)%nat) sts ->
  NoDup (RingFacts.recent Depth sts).*1 ->
  IntentRing.lookup SlotCapacity id (RingFacts.stores Depth SlotCapacity sts (IntentRing.empty Depth SlotCapacity)) = Some echo
  <-> (id, echo) ∈ RingFacts.recent Depth sts.
Proof.
  intros HD HS Hlen Hn. apply (RingFacts.lookup_recent Depth SlotCapacity HD); [|done].
  apply (RingFacts.stores_wf Depth SlotCapacity HD HS [] sts); [by apply RingFacts.ring_empty_wf|done].
Qed.

Lemma intent_ring_exact_witness :
  let r := RingFacts.stores 2 4 [(7, [1]); (8, [2]); (9, [3; 4])] (IntentRing.empty 2 4) in
  (IntentRing.lookup 4 9 r = Some [3; 4] <-> (9, [3; 4]) ∈ RingFacts.recent 2 [(7, [1]); (8, [2]); (9, [3; 4])]) /\
  IntentRing.lookup 4 7 r = None.
Proof.
  split; [|vm_compute; reflexivity].
  apply (intent_ring_exact 2 4 [(7, [1]); (8, [2]); (9, [3; 4])] 9 [3; 4]); [lia|lia|repeat constructor; cbn; lia|].
  apply (bool_decide_unpack _). vm_compute. exact I.
Defined.

(** The subscription table is a map of grants: over any sequence of
    (re-)subscriptions and removals from the empty table, every result and the
    final table are those of a finite map of at most [Capacity] channels, in
    which a re-subscription replaces the grant and makes it due at once. *)
Theorem subscription_table_refines (Capacity : nat) (ops : list SubscriptionFacts.op) :
  let run := foldl (fun '(outs, t) o => let '(ok, t) := SubscriptionFacts.step Capacity o t in (outs ++ [ok], t)) ([], []) ops in
  let spec := foldl (fun '(outs, m) o => let '(ok, m) := SubscriptionFacts.spec_step Capacity o m in (outs ++ [ok], m)) ([], ∅) ops in
  (run.1, SubscriptionFacts.grants run.2) = spec /\ (length run.2 <= Capacity)%nat.
Proof.
  cbv zeta.
  assert (forall ops outs t, NoDup (keys Subscription.channel_id t) -> (length t <= Capacity)%nat ->
    let run := foldl (fun '(outs, t) o => let '(ok, t) := SubscriptionFacts.step Capacity o t in (outs ++ [ok], t)) (outs, t) ops in
    (run.1, SubscriptionFacts.grants run.2) =
    foldl (fun '(outs, m) o => let '(ok, m) := SubscriptionFacts.spec_step Capacity o m in (outs ++ [ok], m))
      (outs, SubscriptionFacts.grants t) ops /\ (length run.2 <= Capacity)%nat) as Hgen.
  { clear ops. induction ops as [|o ops IH]; intros outs t Hn Hc; cbn [foldl]; [done|].
    pose proof (SubscriptionFacts.sub_step_refines Capacity o t Hn Hc) as H.
    destruct (SubscriptionFacts.step Capacity o t) as [ok t']. destruct H as (H & Hn' & Hc'). rewrite <- H. by apply IH. }
  apply (Hgen ops [] []); [constructor|cbn; lia].
Qed.

(** Push pacing respects the granted rate: a freshly granted channel is due
    at once; after a push, a channel with a positive rate is not due again
    until its period (1000 ms over the rate, truncated) has elapsed, and is due
    from then on as soon as a change is pending, whatever the wrap-around of
    the millisecond clock. *)
Theorem push_rate_ceiling (e : Subscription.SubscriptionEntry) (T d : Z) (change : bool) :
  let period := Float32.to_u32 (Float32.div (Float32.of_Z 1000) (Subscription.granted_rate_hz e)) in
  Float32.le (Subscription.granted_rate_hz e) Float32.zero = false ->
  0 <= d < 2147483648 -> period < 2147483648 ->
  Subscription.dueForPush (u32 (T + d)) change (Subscription.markPushed (u32 T) e) = change && (period <=? d) /\
  (Subscription.everPushed e = false -> Subscription.dueForPush (u32 T) change e = true).
Proof.
  intros period Hrate Hd Hp. split.
  - unfold Subscription.dueForPush, Subscription.markPushed. cbn [Subscription.everPushed Subscription.granted_rate_hz Subscription.lastPushMs negb].
    destruct change; [|done]. cbn [negb andb]. rewrite Hrate. fold period.
    assert (0 <= period) as Hp0 by (unfold period, Float32.to_u32; case_match; try lia; apply u32_range).
    assert (u32 (u32 T + period) = u32 (T + period)) as -> by (unfold u32; by rewrite Zplus_mod_idemp_l).
    apply timeReached_window. lia.
  - intros He. unfold Subscription.dueForPush. by rewrite He.
Qed.

Lemma push_rate_ceiling_witness :
  let e := Subscription.mkSub 5 (Float32.of_Z 30) normal true 0 in
  Subscription.dueForPush (u32 (4294967290 + 32)) true (Subscription.markPushed (u32 4294967290) e) = false /\
  Subscription.dueForPush (u32 (4294967290 + 33)) true (Subscription.markPushed (u32 4294967290) e) = true.
Proof.
  intros e. split.
  - rewrite (proj1 (push_rate_ceiling e 4294967290 32 true ltac:(vm_compute; reflexivity) ltac:(lia) ltac:(vm_compute; reflexivity))).
    vm_compute. reflexivity.
  - rewrite (proj1 (push_rate_ceiling e 4294967290 33 true ltac:(vm_compute; reflexivity) ltac:(lia) ltac:(vm_compute; reflexivity))).
    vm_compute. reflexivity.
Defined.
