(* ===== verification/Safety.v ===== *)
(** * Safety: who controls a source, and what a congested link sheds

    session/safety.hpp (the ownership table of control sources),
    session/shedding.hpp (the shedding decision) and session/static_profile.hpp
    (what a client with a compiled-in catalog may do). *)

From stdpp Require Import gmap sets.
From S2P Require Import Prelude Registry Keyed.
Local Open Scope Z_scope.

(** What happens to a source when its owner goes away. *)
Inductive SourceLossPolicy : Set := Stop | Continue.

Module safety_bits.
Definition ESTOP : Z := 1.
Definition STOP : Z := 2.
Definition HOLD : Z := 4.
Definition PAUSE : Z := 8.
End safety_bits.

Module safety_mode_bits.
Definition OVERRIDE : Z := 1.
Definition BYPASS : Z := 2.
End safety_mode_bits.

(** ** SourceOwnershipTable *)

Module Ownership.
Definition kMaxSources : nat := 4.

Inductive AcquireResult : Set := Acquired | AlreadyOwner | Conflict | TakenOver.

Record Entry := mkEntry { source_id : Z; owner : Z; role : AccessLevel; used : bool }.
Abbreviation table := (list Entry).

Definition noEntry : Entry := mkEntry 0 0 watch false.
Definition empty : table := replicate kMaxSources noEntry.

Definition find (src : Z) (t : table) : option nat :=
  find_index (fun e => used e && (source_id e =? src)) t.

Definition findOrCreate (src : Z) (t : table) : option nat * table :=
  match find src t with
  | Some i => (Some i, t)
  | None =>
      match find_index (fun e => negb (used e)) t with
      | Some i => (Some i, <[i := mkEntry src 0 watch true]> t)
      | None => (None, t)
      end
  end.

Definition setOwner (sid : Z) (r : AccessLevel) (e : Entry) : Entry := mkEntry (source_id e) sid r (used e).

Definition acquire (src sid : Z) (r : AccessLevel) (takeover : bool) (t : table) : AcquireResult * table :=
  let '(oi, t) := findOrCreate src t in
  match oi with
  | None => (Conflict, t)
  | Some i =>
      let e := nth i t noEntry in
      if owner e =? 0 then (Acquired, <[i := setOwner sid r e]> t)
      else if owner e =? sid then (AlreadyOwner, t)
      else if takeover && (access_u8 (role e) <=? access_u8 r) then (TakenOver, <[i := setOwner sid r e]> t)
      else (Conflict, t)
  end.

Definition release (src sid : Z) (t : table) : bool * table :=
  match find src t with
  | None => (false, t)
  | Some i =>
      let e := nth i t noEntry in
      if negb (owner e =? sid) then (false, t) else (true, <[i := setOwner 0 watch e]> t)
  end.

(** The sources the callback is invoked on, in order, and the table after. *)
Fixpoint releaseAllOf (sid : Z) (t : table) : list Z * table :=
  match t with
  | [] => ([], [])
  | e :: t =>
      let '(cb, t') := releaseAllOf sid t in
      if used e && (owner e =? sid) then (source_id e :: cb, setOwner 0 watch e :: t') else (cb, e :: t')
  end.

Definition ownerOf (src : Z) (t : table) : Z :=
  match find src t with Some i => owner (nth i t noEntry) | None => 0 end.

Definition ownerRoleOf (src : Z) (t : table) : AccessLevel :=
  match find src t with Some i => role (nth i t noEntry) | None => watch end.
End Ownership.

(** ** shedDecision *)

Module Shedding.
Inductive ShedDecision : Set := Send | Decimate2x | Decimate4x | ConflateHard | Drop.

Definition shedDecision (p : Priority) (cls : ChannelClass) (congestionLevel : Z) (segmentClass : bool) : ShedDecision :=
  if congestionLevel =? 0 then Send
  else if decide (p = critical) then Send
  else if segmentClass then
    if congestionLevel =? 1 then Send
    else match p with background | normal => Drop | _ => Send end
  else if congestionLevel =? 1 then
    match p with
    | background => match cls with STREAM => Decimate4x | STATE => ConflateHard | _ => Send end
    | normal => match cls with STREAM => Decimate2x | _ => Send end
    | elevated | critical => Send
    end
  else
    match p with background => Drop | normal => Decimate4x | elevated => Decimate2x | critical => Send end.
End Shedding.

(** ** decideStaticProfile *)

Module StaticProfile.
Inductive StaticProfilePolicy : Set := DegradeGracefully | RefuseLoudly.
Record StaticProfileDecision := mkDecision { proceed : bool; controlSuppressed : bool }.

Definition decideStaticProfile (myEtag hubEtag : bytes) (policy : StaticProfilePolicy) : StaticProfileDecision :=
  let matches := (length myEtag =? length hubEtag)%nat && forallb (fun ab => ab.1 =? ab.2) (zip myEtag hubEtag) in
  if matches then mkDecision true false
  else match policy with DegradeGracefully => mkDecision true true | RefuseLoudly => mkDecision false false end.
End StaticProfile.

(** * Theorems *)

(** ** The table against a map of owners *)

Module OwnershipFacts.
Import Ownership.

(** The used entries come first: entries are never freed. *)
Record wf (l : list Entry) (t : table) : Prop := {
  wf_split : t = l ++ replicate (kMaxSources - length l) noEntry;
  wf_cap : (length l <= kMaxSources)%nat;
  wf_used : Forall (fun e => used e = true) l;
  wf_nodup : NoDup (keys source_id l);
}.

(** The abstract state: the sources ever seen and the owner of each. *)
Record astate := mkA { known : gset Z; owners : gmap Z (Z * AccessLevel) }.

Definition held (e : Entry) : option (Z * AccessLevel) := if owner e =? 0 then None else Some (owner e, role e).
Definition abs (l : list Entry) : astate := mkA (dom (amap source_id l)) (omap held (amap source_id l)).

Inductive op : Type :=
| OAcquire (src sid : Z) (r : AccessLevel) (takeover : bool)
| ORelease (src sid : Z)
| OReleaseAll (sid : Z).

Inductive out : Type := RAcquire (a : AcquireResult) | RRelease (ok : bool) | RReleased (srcs : gset Z).

Definition op_session (o : op) : Z :=
  match o with OAcquire _ sid _ _ => sid | ORelease _ sid => sid | OReleaseAll sid => sid end.

Definition step (o : op) (t : table) : out * table :=
  match o with
  | OAcquire src sid r tk => let '(a, t) := acquire src sid r tk t in (RAcquire a, t)
  | ORelease src sid => let '(b, t) := release src sid t in (RRelease b, t)
  | OReleaseAll sid => let '(cb, t) := releaseAllOf sid t in (RReleased (list_to_set cb), t)
  end.

(** The promise: a source has at most one owner; it changes hands only to a
    requester that asks for a takeover with at least the owner's role. *)
Definition spec_step (o : op) (s : astate) : out * astate :=
  match o with
  | OAcquire src sid r tk =>
      if decide (src ∉ known s /\ (kMaxSources <= size (known s))%nat) then (RAcquire Conflict, s)
      else
        let k := {[src]} ∪ known s in
        match owners s !! src with
        | None => (RAcquire Acquired, mkA k (<[src := (sid, r)]> (owners s)))
        | Some (o, ro) =>
            if decide (o = sid) then (RAcquire AlreadyOwner, s)
            else if tk && (access_u8 ro <=? access_u8 r) then (RAcquire TakenOver, mkA k (<[src := (sid, r)]> (owners s)))
            else (RAcquire Conflict, s)
        end
  | ORelease src sid =>
      if decide (fst <$> owners s !! src = Some sid) then (RRelease true, mkA (known s) (delete src (owners s)))
      else (RRelease false, s)
  | OReleaseAll sid =>
      (RReleased (dom (filter (fun kv => kv.2.1 = sid) (owners s))),
       mkA (known s) (filter (fun kv => kv.2.1 <> sid) (owners s)))
  end.

Lemma find_wf l t src : wf l t -> find src t = kfind source_id src l.
Proof.
  intros [-> _ Hu _]. unfold find, kfind. rewrite find_index_app.
  assert (find_index (fun e => used e && (source_id e =? src)) l = find_index (fun e => source_id e =? src) l) as ->.
  { induction Hu as [|e l He _ IH]; cbn [find_index]; [done|]. by rewrite He, IH. }
  destruct (find_index (fun e => source_id e =? src) l); [done|].
  assert (find_index (fun e => used e && (source_id e =? src)) (replicate (kMaxSources - length l) noEntry) = None) as ->; [|done].
  apply find_index_None, Forall_replicate. done.
Qed.

Lemma table_empty_wf : wf [] empty.
Proof. split; [done|cbn; lia|constructor|constructor]. Qed.

Lemma known_size l : NoDup (keys source_id l) -> size (known (abs l)) = length l.
Proof. intros Hn. cbn. by rewrite size_dom, amap_size. Qed.

Lemma known_find l src : src ∈ known (abs l) <-> kfind source_id src l <> None.
Proof.
  cbn. rewrite kfind_None. unfold amap. rewrite dom_list_to_map_L, amap_keys, elem_of_list_to_set.
  destruct (decide (src ∈ keys source_id l)); tauto.
Qed.

Lemma findOrCreate_spec l t src : wf l t ->
  match findOrCreate src t with
  | (Some i, t') => (src ∈ known (abs l) \/ (size (known (abs l)) < kMaxSources)%nat) /\
      exists l', wf l' t' /\ kfind source_id src l' = Some i /\
        known (abs l') = {[src]} ∪ known (abs l) /\ owners (abs l') = owners (abs l) /\
        (src ∈ known (abs l) -> t' = t /\ l' = l)
  | (None, t') => t' = t /\ src ∉ known (abs l) /\ (kMaxSources <= size (known (abs l)))%nat
  end.
Proof.
  intros Hwf. unfold findOrCreate. rewrite (find_wf _ _ _ Hwf). pose proof Hwf as [Ht Hc Hu Hn].
  rewrite (known_size _ Hn). destruct (kfind source_id src l) as [i|] eqn:Hf.
  { assert (src ∈ known (abs l)) as Hk by (apply known_find; by rewrite Hf).
    split; [by left|]. exists l. split_and!; [done|done|set_solver|done|done]. }
  assert (src ∉ known (abs l)) as Hk by (rewrite known_find, Hf; tauto).
  rewrite Ht, find_index_app. replace (find_index _ l) with (@None nat).
  2:{ symmetry. apply find_index_None. eapply Forall_impl; [exact Hu|]. intros e He. cbn. by rewrite He. }
  destruct (kMaxSources - length l)%nat as [|k] eqn:Hd; cbn [replicate find_index negb used noEntry fmap option_fmap option_map].
  { split_and!; [done|done|lia]. }
  split; [right; lia|]. set (x := mkEntry src 0 watch true).
  destruct (amap_snoc source_id l x Hn) as [Ha Hn']; [by apply kfind_None|].
  exists (l ++ [x]). split_and!.
  - split; [| rewrite length_app; cbn [length]; lia | | done].
    + rewrite insert_app_r_alt by lia. rewrite Nat.add_0_r, Nat.sub_diag. cbn [insert list_insert replicate].
      rewrite <- app_assoc. cbn [app]. do 3 f_equal. rewrite length_app. cbn [length]. lia.
    + apply Forall_app. split; [done|by repeat constructor].
  - rewrite Nat.add_0_r. unfold kfind in *. rewrite find_index_app, Hf. cbn [find_index source_id x].
    rewrite Z.eqb_refl. cbn. f_equal. lia.
  - cbn [known abs]. rewrite Ha, dom_insert_L. done.
  - cbn [owners abs]. rewrite Ha, omap_insert_None by done. apply delete_id.
    rewrite lookup_omap, amap_find_None by done. done.
  - done.
Qed.

(** The write of a found entry. *)
Lemma set_spec l t src i sid r : wf l t -> kfind source_id src l = Some i ->
  exists e, nth i t noEntry = e /\ amap source_id l !! src = Some e /\
    wf (<[i := setOwner sid r e]> l) (<[i := setOwner sid r e]> t) /\
    amap source_id (<[i := setOwner sid r e]> l) = <[src := setOwner sid r e]> (amap source_id l).
Proof.
  intros [-> Hc Hu Hn] Hf. destruct (kfind_Some _ _ _ _ Hf) as (e & He & Hk).
  pose proof (lookup_lt_Some _ _ _ He) as Hi. exists e. split_and!.
  - rewrite app_nth1 by done. by apply nth_lookup_Some.
  - by eapply amap_find.
  - assert (kfind source_id (source_id (setOwner sid r e)) l = Some i) as Hf' by (cbn; by rewrite Hk).
    split.
    + rewrite insert_app_l by done. by rewrite length_insert.
    + by rewrite length_insert.
    + apply Forall_insert; [done|]. cbn. by eapply Forall_lookup_1 in Hu.
    + rewrite (keys_insert source_id _ _ _ Hf'). done.
  - rewrite <- Hk. apply (amap_insert source_id l i (setOwner sid r e)); [done|]. cbn. by rewrite Hk.
Qed.

Lemma acquire_refines l t src sid r tk : wf l t -> sid <> 0 ->
  let '(o, t') := step (OAcquire src sid r tk) t in
  exists l', wf l' t' /\ spec_step (OAcquire src sid r tk) (abs l) = (o, abs l').
Proof.
  intros Hwf Hs. cbn [step spec_step]. unfold acquire.
  pose proof (findOrCreate_spec l t src Hwf) as H. destruct (findOrCreate src t) as [[i|] t1].
  2:{ destruct H as (-> & Hk & Hsz). exists l. split; [done|]. by rewrite decide_True. }
  destruct H as (Hroom & l1 & Hwf1 & Hf & Hknown & Howners & Hsame).
  rewrite decide_False by (intros [? ?]; destruct Hroom; [done|lia]). rewrite <- Hknown, <- Howners.
  destruct (set_spec l1 t1 src i sid r Hwf1 Hf) as (e & -> & He & Hwf2 & Ha).
  assert (owners (abs l1) !! src = held e) as Hheld by (cbn [owners abs]; by rewrite lookup_omap, He).
  rewrite Hheld. assert (held (setOwner sid r e) = Some (sid, r)) as Hset.
  { unfold held. cbn [owner role setOwner]. by rewrite (proj2 (Z.eqb_neq _ _) Hs). }
  assert (mkA (known (abs l1)) (<[src := (sid, r)]> (owners (abs l1))) = abs (<[i := setOwner sid r e]> l1)) as Habs.
  { unfold abs. cbn [known owners]. rewrite Ha, dom_insert_L, (omap_insert_Some held _ _ _ _ Hset). f_equal.
    symmetry. apply subseteq_union_1_L, singleton_subseteq_l, elem_of_dom. by rewrite He. }
  assert (held e <> None -> abs l1 = abs l) as Hback.
  { intros Hh. assert (src ∈ known (abs l)) as Hin.
    { rewrite Howners in Hheld. cbn [owners known abs] in *. apply elem_of_dom.
      rewrite lookup_omap in Hheld. destruct (amap source_id l !! src); [done|]. by cbn in Hheld. }
    by destruct (Hsame Hin) as [_ ->]. }
  unfold held in *. destruct (Z.eqb_spec (owner e) 0) as [H0|H0]; cbn [fst snd].
  { exists (<[i := setOwner sid r e]> l1). split; [done|]. by rewrite Habs. }
  specialize (Hback ltac:(done)). destruct (Z.eqb_spec (owner e) sid) as [E|E].
  { rewrite decide_True by done. exists l1. split; [done|]. by rewrite Hback. }
  rewrite decide_False by done. destruct (tk && _).
  { exists (<[i := setOwner sid r e]> l1). split; [done|]. by rewrite Habs. }
  exists l1. split; [done|]. by rewrite Hback.
Qed.

Lemma release_refines l t src sid : wf l t -> sid <> 0 ->
  let '(o, t') := step (ORelease src sid) t in
  exists l', wf l' t' /\ spec_step (ORelease src sid) (abs l) = (o, abs l').
Proof.
  intros Hwf Hs. cbn [step spec_step owners abs known]. unfold release. rewrite (find_wf _ _ _ Hwf).
  rewrite lookup_omap. destruct (kfind source_id src l) as [i|] eqn:Hf.
  2:{ rewrite (amap_find_None _ _ _ Hf). cbn. exists l. by split. }
  destruct (set_spec l t src i 0 watch Hwf Hf) as (e & -> & He & Hwf2 & Ha). rewrite He. cbn [mbind option_bind].
  destruct (Z.eqb_spec (owner e) sid) as [E|E]; cbn [negb].
  - rewrite decide_True by (unfold held; rewrite (proj2 (Z.eqb_neq (owner e) 0)) by congruence; cbn; by rewrite E).
    exists (<[i := setOwner 0 watch e]> l). split; [done|]. unfold abs. rewrite Ha, dom_insert_L, omap_insert_None by done.
    do 2 f_equal. symmetry. apply subseteq_union_1_L, singleton_subseteq_l, elem_of_dom. by rewrite He.
  - exists l. split; [done|]. rewrite decide_False; [done|]. unfold held. case_match; cbn; [done|]. intros [= ?]. done.
Qed.

Definition freed (sid : Z) (e : Entry) : Entry := if owner e =? sid then setOwner 0 watch e else e.

Lemma releaseAllOf_spec l n sid : Forall (fun e => used e = true) l ->
  releaseAllOf sid (l ++ replicate n noEntry) =
    (source_id <$> filter (fun e => owner e = sid) l, (freed sid <$> l) ++ replicate n noEntry).
Proof.
  intros Hu. induction Hu as [|e l He _ IH]; cbn [app].
  - induction n as [|n IH]; [done|]. cbn [replicate releaseAllOf used noEntry andb]. by rewrite IH.
  - cbn [releaseAllOf fmap list_fmap]. rewrite IH, He, filter_cons.
    assert (freed sid e = if owner e =? sid then setOwner 0 watch e else e) as -> by done.
    destruct (Z.eqb_spec (owner e) sid); cbn [andb]; [by rewrite decide_True|by rewrite decide_False].
Qed.

Lemma amap_freed l sid : amap source_id (freed sid <$> l) = freed sid <$> amap source_id l.
Proof.
  unfold amap. rewrite <- list_to_map_fmap. f_equal. rewrite <- !list_fmap_compose. apply list_fmap_ext.
  intros _ e _. unfold compose, freed. cbn. by case_ifs.
Qed.

Lemma releaseAll_refines l t sid : wf l t -> sid <> 0 ->
  let '(o, t') := step (OReleaseAll sid) t in
  exists l', wf l' t' /\ spec_step (OReleaseAll sid) (abs l) = (o, abs l').
Proof.
  intros [-> Hc Hu Hn] Hs. cbn [step spec_step owners abs known]. rewrite releaseAllOf_spec by done.
  exists (freed sid <$> l).
  assert (keys source_id (freed sid <$> l) = keys source_id l) as Hkeys.
  { unfold keys. rewrite <- list_fmap_compose. apply list_fmap_ext. intros _ e _. unfold compose, freed. by case_ifs. }
  split.
  { split; [by rewrite length_fmap|by rewrite length_fmap| |by rewrite Hkeys].
    apply Forall_fmap. eapply Forall_impl; [exact Hu|]. intros e He. unfold compose, freed. by case_ifs. }
  unfold abs. rewrite amap_freed, dom_fmap_L. f_equal; [f_equal|f_equal].
  - apply set_eq. intros src. rewrite elem_of_dom, elem_of_list_to_set, list_elem_of_fmap. split.
    + intros [[o ro] Hx]. apply map_lookup_filter_Some in Hx as [Hx Ho]. cbn in Ho. subst o.
      rewrite lookup_omap_Some in Hx. destruct Hx as (e & He & Hl). apply amap_lookup in Hl as [Hl Hk]; [|done].
      exists e. split; [done|]. apply list_elem_of_filter. split; [|done]. unfold held in He. by case_match; simplify_eq.
    + intros (e & -> & [Ho He]%list_elem_of_filter). exists (sid, role e). apply map_lookup_filter_Some. split; [|done].
      rewrite lookup_omap_Some. exists e. split; [|by apply amap_lookup]. unfold held. rewrite Ho.
      by rewrite (proj2 (Z.eqb_neq _ _) Hs).
  - apply map_eq. intros src. rewrite map_lookup_filter, !lookup_omap, lookup_fmap.
    destruct (amap source_id l !! src) as [e|]; [|done]. cbn. unfold freed, held.
    destruct (Z.eqb_spec (owner e) sid) as [E|E]; cbn [setOwner owner role].
    + rewrite (proj2 (Z.eqb_neq (owner e) 0)) by congruence. cbn. rewrite option_guard_False; [done|]. tauto.
    + case_ifs; [done|]. cbn. by rewrite option_guard_True.
Qed.

Lemma own_step_refines l t o : wf l t -> op_session o <> 0 ->
  let '(r, t') := step o t in exists l', wf l' t' /\ spec_step o (abs l) = (r, abs l').
Proof. destruct o; cbn [op_session]; [apply acquire_refines|apply release_refines|apply releaseAll_refines]. Qed.

Lemma ownerOf_spec l t src : wf l t -> ownerOf src t = default 0 (fst <$> owners (abs l) !! src).
Proof.
  intros Hwf. unfold ownerOf. rewrite (find_wf _ _ _ Hwf). cbn [owners abs]. rewrite lookup_omap.
  destruct (kfind source_id src l) as [i|] eqn:Hf.
  - destruct (set_spec l t src i 0 watch Hwf Hf) as (e & -> & He & _). rewrite He. cbn. unfold held.
    by destruct (Z.eqb_spec (owner e) 0).
  - by rewrite (amap_find_None _ _ _ Hf).
Qed.

Definition run (ops : list op) : list out * table :=
  foldl (fun '(outs, t) o => let '(r, t) := step o t in (outs ++ [r], t)) ([], empty) ops.
Definition spec_run (ops : list op) : list out * astate :=
  foldl (fun '(outs, s) o => let '(r, s) := spec_step o s in (outs ++ [r], s)) ([], mkA ∅ ∅) ops.
End OwnershipFacts.

(** C25. Exclusive control: over any sequence of acquires, releases and session
    departures, every answer and the owner of every source are those of a map
    from source to (session, role) in which a source changes hands only to a
    session that asks for a takeover with at least the owner's role, a session
    releases only what it owns, and a departing session gives up everything it
    owned and nothing else; a fifth distinct source is refused. *)
Theorem ownership_refines (ops : list OwnershipFacts.op) :
  Forall (fun o => OwnershipFacts.op_session o <> 0) ops ->
  (OwnershipFacts.run ops).1 = (OwnershipFacts.spec_run ops).1 /\
  forall src, Ownership.ownerOf src (OwnershipFacts.run ops).2 =
    default 0 (fst <$> OwnershipFacts.owners (OwnershipFacts.spec_run ops).2 !! src).
Proof.
  intros Hops.
  assert (forall ops outs l t, Forall (fun o => OwnershipFacts.op_session o <> 0) ops -> OwnershipFacts.wf l t ->
    exists outs' l' t', OwnershipFacts.wf l' t' /\
    foldl (fun '(outs, t) o => let '(r, t) := OwnershipFacts.step o t in (outs ++ [r], t)) (outs, t) ops = (outs', t') /\
    foldl (fun '(outs, s) o => let '(r, s) := OwnershipFacts.spec_step o s in (outs ++ [r], s)) (outs, OwnershipFacts.abs l) ops
      = (outs', OwnershipFacts.abs l')) as Hgen.
  { clear. induction ops as [|o ops IH]; intros outs l t Ho Hwf; cbn [foldl]; [by exists outs, l, t|].
    apply Forall_cons in Ho as [Ho Hos]. pose proof (OwnershipFacts.own_step_refines l t o Hwf Ho) as H.
    destruct (OwnershipFacts.step o t) as [r t']. destruct H as (l' & Hwf' & ->). by apply IH. }
  destruct (Hgen ops [] [] _ Hops OwnershipFacts.table_empty_wf) as (outs & l & t & Hwf & Hr & Hs).
  unfold OwnershipFacts.run, OwnershipFacts.spec_run. change (OwnershipFacts.mkA ∅ ∅) with (OwnershipFacts.abs []).
  rewrite Hr, Hs. split; [done|]. intros src. by apply OwnershipFacts.ownerOf_spec.
Qed.

Lemma ownership_refines_witness :
  let ops := [OwnershipFacts.OAcquire 1 11 control false; OwnershipFacts.OAcquire 1 22 control false;
              OwnershipFacts.OAcquire 1 22 control true; OwnershipFacts.OAcquire 1 33 watch true;
              OwnershipFacts.ORelease 1 11] in
  (OwnershipFacts.run ops).1 =
    [OwnershipFacts.RAcquire Ownership.Acquired; OwnershipFacts.RAcquire Ownership.Conflict;
     OwnershipFacts.RAcquire Ownership.TakenOver; OwnershipFacts.RAcquire Ownership.Conflict;
     OwnershipFacts.RRelease false] /\
  Ownership.ownerOf 1 (OwnershipFacts.run ops).2 = 22.
Proof.
  intros ops. destruct (ownership_refines ops) as [H1 H2]; [repeat constructor; cbn; lia|].
  split; [etransitivity; [exact H1|vm_compute; reflexivity]|etransitivity; [exact (H2 1)|vm_compute; reflexivity]].
Defined.

(** How much of a subscription a decision gives up. *)
Definition severity (d : Shedding.ShedDecision) : Z :=
  match d with
  | Shedding.Send => 0 | Shedding.Decimate2x => 1 | Shedding.Decimate4x => 2 | Shedding.ConflateHard => 3 | Shedding.Drop => 4
  end.

Definition prio_u8 (p : Priority) : Z := match p with background => 0 | normal => 1 | elevated => 2 | critical => 3 end.

(** Shedding is a policy: critical traffic is always sent; a channel of
    timed segments is sent whole or dropped whole, never decimated; and a
    subscription never loses more than one of lower priority on the same
    channel, or than it would on a more congested link. *)
Theorem shed_policy (p q : Priority) (cls : ChannelClass) (a b : Z) (seg : bool) :
  0 <= a <= b -> prio_u8 p <= prio_u8 q ->
  Shedding.shedDecision critical cls b seg = Shedding.Send /\
  (Shedding.shedDecision p cls b true = Shedding.Send \/ Shedding.shedDecision p cls b true = Shedding.Drop) /\
  severity (Shedding.shedDecision q cls b seg) <= severity (Shedding.shedDecision p cls b seg) /\
  severity (Shedding.shedDecision p cls a seg) <= severity (Shedding.shedDecision p cls b seg).
Proof.
  intros Hab Hpq. unfold Shedding.shedDecision.
  destruct (Z.eqb_spec a 0), (Z.eqb_spec b 0), (Z.eqb_spec a 1), (Z.eqb_spec b 1); try lia;
    destruct p, q, seg; cbn in Hpq; try lia; cbn; split_and!; auto; try lia; by destruct cls.
Qed.

Lemma shed_policy_witness :
  severity (Shedding.shedDecision elevated STREAM 2 false) <= severity (Shedding.shedDecision background STREAM 2 false) /\
  severity (Shedding.shedDecision background STREAM 1 false) <= severity (Shedding.shedDecision background STREAM 2 false).
Proof.
  destruct (shed_policy background elevated STREAM 1 2 false) as (_ & _ & H1 & H2); [lia|cbn; lia|]. by split.
Defined.

(** Controls are live only on a matching etag, and a refusing client never
    proceeds past a mismatch. *)
Lemma static_profile_controls my hub policy :
  let d := StaticProfile.decideStaticProfile my hub policy in
  (StaticProfile.proceed d && negb (StaticProfile.controlSuppressed d) = true <-> my = hub) /\
  (policy = StaticProfile.RefuseLoudly -> StaticProfile.proceed d = true <-> my = hub).
Proof.
  cbv zeta. unfold StaticProfile.decideStaticProfile.
  assert ((length my =? length hub)%nat && forallb (fun ab => ab.1 =? ab.2) (zip my hub) = true <-> my = hub) as H.
  { revert hub. induction my as [|x my IH]; intros [|y hub]; cbn; try done. specialize (IH hub).
    destruct (Z.eqb_spec x y) as [->|Hne]; cbn; [rewrite IH; split; congruence|].
    rewrite andb_false_r. split; congruence. }
  destruct (_ && _); [split; intros; cbn; intuition|].
  assert (my <> hub) as Hne by (intros E; by apply H in E). destruct policy; split; cbn; intuition congruence.
Qed.
