(* ===== verification/Pairing.v ===== *)
(** * Pairing: the trust ledger and the pairing ceremonies

    session/pairing.hpp: the list of pending knocks, the ledger of paired
    devices, the PIN and presence windows, token and proof validation, the
    version tripwire and the ledger's persistent form. Randomness and
    cryptography are the injected interfaces of [Crypto]. A pointer into an
    array is the index of the element. *)

From stdpp Require Import gmap sets.
From S2P Require Import Prelude Registry ByteIO Serial Cbor Messages Codec Trust Crypto Keyed.
Local Open Scope Z_scope.

Definition kLedgerKindMaxBytes : nat := limits.trust_ledger_kind_max_bytes.
Definition kLedgerNameMaxBytes : nat := limits.trust_ledger_name_max_bytes.
Definition kLedgerVersionMaxBytes : nat := limits.client_ver_max_bytes.

Abbreviation bstring := BoundedString.t.

(** ** PendingPairingList *)

Module Pending.
Record PendingKnock := mkKnock {
  instance_id : bytes; session_id : Z; expiresAtMs : Z; mode : Z;
  kind : bstring; name : bstring; version : bstring; reapproval : bool; used : bool }.

Definition noKnock : PendingKnock :=
  mkKnock (replicate limits.instance_id_bytes 0) 0 0 pairing_modes.knock_approve
    (BoundedString.init kLedgerKindMaxBytes) (BoundedString.init kLedgerNameMaxBytes)
    (BoundedString.init kLedgerVersionMaxBytes) false false.

Abbreviation slots := (list PendingKnock).

Section cap.
Variable Cap : nat.

Definition empty : slots := replicate Cap noKnock.

Definition find (id : bytes) (l : slots) : option nat :=
  if negb (length id =? limits.instance_id_bytes)%nat then None
  else find_index (fun e => used e && bool_decide (instance_id e = id)) l.

(** [k->used = true; k->session_id = ...] on a knock. *)
Definition refresh (sid expires md : Z) (k : PendingKnock) : PendingKnock :=
  mkKnock (instance_id k) sid expires md (kind k) (name k) (version k) (reapproval k) true.

Definition fresh (id : bytes) : PendingKnock :=
  mkKnock (take limits.instance_id_bytes id) 0 0 pairing_modes.knock_approve
    (kind noKnock) (name noKnock) (version noKnock) false false.

Definition add (id : bytes) (sid expires md : Z) (l : slots) : option nat * slots :=
  match find id l with
  | Some i => (Some i, <[i := refresh sid expires md (nth i l noKnock)]> l)
  | None =>
      match find_index (fun e => negb (used e)) l with
      | None => (None, l)
      | Some i => (Some i, <[i := refresh sid expires md (fresh id)]> l)
      end
  end.

Definition remove (id : bytes) (l : slots) : bool * slots :=
  match find id l with None => (false, l) | Some i => (true, <[i := noKnock]> l) end.

(** The knocks handed to the callback, in order, the count and the list after. *)
Fixpoint dropIf (p : PendingKnock -> bool) (l : slots) : list PendingKnock * nat * slots :=
  match l with
  | [] => ([], 0%nat, [])
  | e :: l =>
      let '(fn, n, l') := dropIf p l in
      if negb (used e) || negb (p e) then (fn, n, e :: l') else (e :: fn, S n, noKnock :: l')
  end.

Definition expire (nowMs : Z) (l : slots) : list PendingKnock * nat * slots :=
  dropIf (fun e => timeReached nowMs (expiresAtMs e)) l.

Definition dropBySession (sid : Z) (l : slots) : list PendingKnock * nat * slots :=
  dropIf (fun e => session_id e =? sid) l.

Definition count (l : slots) : nat := length (filter (fun e => used e = true) l).
End cap.
End Pending.

(** ** PairingManager *)

Module Ledger.
Definition kMaxPaired : nat := limits.paired_devices_max.

Record PairedEntry := mkPaired {
  instance_id : bytes; token : bytes; role : AccessLevel; state : Z;
  presentationMode : Z; pairingMode : Z; kind : bstring; name : bstring; version : bstring;
  firstSeen : Z; lastSeen : Z; used : bool }.

Definition noEntry : PairedEntry :=
  mkPaired (replicate limits.instance_id_bytes 0) (replicate limits.token_bytes 0) control trust_states.trusted
    0 pairing_modes.knock_approve (BoundedString.init kLedgerKindMaxBytes) (BoundedString.init kLedgerNameMaxBytes)
    (BoundedString.init kLedgerVersionMaxBytes) 0 0 false.

Record PairingManager := mkManager {
  entries : list PairedEntry; pending : Pending.slots; pin : bytes;
  windowOpenedMs : Z; presenceOpenedMs : Z; wallSeconds : Z; generation : Z;
  presenceDefaultRole : AccessLevel; autoKeepMax : AccessLevel;
  windowFlag : bool; presenceFlag : bool; knockApproveEnabled : bool; dirty : bool; failCount : Z }.

Definition init : PairingManager :=
  mkManager (replicate kMaxPaired noEntry) (Pending.empty limits.pairing_pending_max) [] 0 0 0 1
    control watch false false true false 0.

Definition with_entries (es : list PairedEntry) (m : PairingManager) : PairingManager :=
  mkManager es (pending m) (pin m) (windowOpenedMs m) (presenceOpenedMs m) (wallSeconds m) (generation m)
    (presenceDefaultRole m) (autoKeepMax m) (windowFlag m) (presenceFlag m) (knockApproveEnabled m) (dirty m) (failCount m).

Definition with_window (p : bytes) (opened : Z) (flag : bool) (fails : Z) (m : PairingManager) : PairingManager :=
  mkManager (entries m) (pending m) p opened (presenceOpenedMs m) (wallSeconds m) (generation m)
    (presenceDefaultRole m) (autoKeepMax m) flag (presenceFlag m) (knockApproveEnabled m) (dirty m) fails.

Definition with_presence (opened : Z) (flag : bool) (m : PairingManager) : PairingManager :=
  mkManager (entries m) (pending m) (pin m) (windowOpenedMs m) opened (wallSeconds m) (generation m)
    (presenceDefaultRole m) (autoKeepMax m) (windowFlag m) flag (knockApproveEnabled m) (dirty m) (failCount m).

Definition with_dirty (g : Z) (d : bool) (m : PairingManager) : PairingManager :=
  mkManager (entries m) (pending m) (pin m) (windowOpenedMs m) (presenceOpenedMs m) (wallSeconds m) g
    (presenceDefaultRole m) (autoKeepMax m) (windowFlag m) (presenceFlag m) (knockApproveEnabled m) d (failCount m).

Definition touch (m : PairingManager) : PairingManager := with_dirty (u16 (generation m + 1)) true m.

Definition setWallClockSeconds (s : Z) (m : PairingManager) : PairingManager :=
  mkManager (entries m) (pending m) (pin m) (windowOpenedMs m) (presenceOpenedMs m) s (generation m)
    (presenceDefaultRole m) (autoKeepMax m) (windowFlag m) (presenceFlag m) (knockApproveEnabled m) (dirty m) (failCount m).

Definition setTrustChangeAutoKeepMax (r : AccessLevel) (m : PairingManager) : PairingManager :=
  mkManager (entries m) (pending m) (pin m) (windowOpenedMs m) (presenceOpenedMs m) (wallSeconds m) (generation m)
    (presenceDefaultRole m) r (windowFlag m) (presenceFlag m) (knockApproveEnabled m) (dirty m) (failCount m).

Definition setPresenceDefaultRole (r : AccessLevel) (m : PairingManager) : PairingManager :=
  mkManager (entries m) (pending m) (pin m) (windowOpenedMs m) (presenceOpenedMs m) (wallSeconds m) (generation m)
    r (autoKeepMax m) (windowFlag m) (presenceFlag m) (knockApproveEnabled m) (dirty m) (failCount m).

Definition setKnockApproveEnabled (on : bool) (m : PairingManager) : PairingManager :=
  mkManager (entries m) (pending m) (pin m) (windowOpenedMs m) (presenceOpenedMs m) (wallSeconds m) (generation m)
    (presenceDefaultRole m) (autoKeepMax m) (windowFlag m) (presenceFlag m) on (dirty m) (failCount m).

Definition clearDirty (m : PairingManager) : PairingManager := with_dirty (generation m) false m.

Definition findByInstance (id : bytes) (es : list PairedEntry) : option nat :=
  if negb (length id =? limits.instance_id_bytes)%nat then None
  else find_index (fun e => used e && bool_decide (instance_id e = id)) es.

(** *** Windows *)

Definition openWindow (pinAscii : bytes) (nowMs : Z) (m : PairingManager) : PairingManager :=
  with_window pinAscii nowMs true 0 m.

Definition closeWindow (m : PairingManager) : PairingManager :=
  with_window (pin m) (windowOpenedMs m) false (failCount m) m.

Definition windowOpen (nowMs : Z) (m : PairingManager) : bool :=
  if negb (windowFlag m) then false
  else negb (timeReached nowMs (u32 (windowOpenedMs m + limits.pairing_window_default_s * 1000))).

Definition openPresenceWindow (nowMs : Z) (m : PairingManager) : PairingManager := with_presence nowMs true m.
Definition closePresenceWindow (m : PairingManager) : PairingManager := with_presence (presenceOpenedMs m) false m.

Definition presenceWindowOpen (nowMs : Z) (m : PairingManager) : bool :=
  if negb (presenceFlag m) then false
  else negb (timeReached nowMs (u32 (presenceOpenedMs m + limits.pairing_window_default_s * 1000))).

Definition hasConfigureToken (m : PairingManager) : bool :=
  existsb (fun e => used e && bool_decide (role e = configure)) (entries m).

Definition presenceGrantRole (m : PairingManager) : AccessLevel :=
  if hasConfigureToken m then presenceDefaultRole m else configure.

Definition offeredModes (nowMs : Z) (m : PairingManager) : Z :=
  let md := 0 in
  let md := if knockApproveEnabled m then Z.lor md pairing_modes.knock_approve else md in
  let md := if windowOpen nowMs m then Z.lor md pairing_modes.pin_proof else md in
  if presenceWindowOpen nowMs m then Z.lor md pairing_modes.push_to_pair else md.

(** *** Granting *)

Section granting.
Context {R : Type} `{IRandom R} {C : Type} `{ICrypto C}.

Definition freshEntry (id : bytes) (seen : Z) : PairedEntry :=
  mkPaired id (token noEntry) (role noEntry) (state noEntry) (presentationMode noEntry) (pairingMode noEntry)
    (kind noEntry) (name noEntry) (version noEntry) seen (lastSeen noEntry) false.

(** [e->used = true; rng.fill(e->token); ...] on an entry. *)
Definition granted (tok : bytes) (r : AccessLevel) (md seen : Z) (e : PairedEntry) : PairedEntry :=
  mkPaired (instance_id e) tok r trust_states.trusted (presentationMode e) md (kind e) (name e) (version e)
    (firstSeen e) seen true.

(** The entry's index, the bytes of [tokenOut], the generator and the manager. *)
Definition grant (id : bytes) (r : AccessLevel) (md : Z) (rng : R) (tokenOut : bytes) (m : PairingManager)
    : option nat * bytes * R * PairingManager :=
  if negb (length id =? limits.instance_id_bytes)%nat then (None, tokenOut, rng, m)
  else
    match
      match findByInstance id (entries m) with
      | Some i => Some (i, nth i (entries m) noEntry)
      | None =>
          match find_index (fun e => negb (used e)) (entries m) with
          | Some i => Some (i, freshEntry id (wallSeconds m))
          | None => None
          end
      end
    with
    | None => (None, tokenOut, rng, m)
    | Some (i, e) =>
        let '(tok, rng) := fill rng limits.token_bytes in
        let e := granted tok r md (wallSeconds m) e in
        let tokenOut := if (limits.token_bytes <=? length tokenOut)%nat then write_at 0 tok tokenOut else tokenOut in
        (Some i, tokenOut, rng, touch (with_entries (<[i := e]> (entries m)) m))
    end.

Inductive PairOutcome : Set := Granted | Denied | WindowClosed.

Definition handlePairReq (c : C) (id pin_proof nonce : bytes) (rng : R) (nowMs : Z) (grantRole : AccessLevel)
    (tokenOut : bytes) (m : PairingManager) : PairOutcome * bytes * R * PairingManager :=
  if negb (windowOpen nowMs m) then (WindowClosed, tokenOut, rng, m)
  else if negb (length id =? limits.instance_id_bytes)%nat then (Denied, tokenOut, rng, m)
  else
    let expected := pairingPinProof (pin m) nonce in
    if negb (constantTimeEqual c pin_proof expected) then
      let fails := u8 (failCount m + 1) in
      (Denied, tokenOut, rng,
       with_window (pin m) (windowOpenedMs m) (if 3 <=? fails then false else windowFlag m) fails m)
    else
      let '(oi, tokenOut, rng, m) := grant id grantRole pairing_modes.pin_proof rng tokenOut m in
      match oi with
      | None => (Denied, tokenOut, rng, m)
      | Some _ => (Granted, tokenOut, rng, with_window (pin m) (windowOpenedMs m) (windowFlag m) 0 m)
      end.

(** *** Validation *)

Definition liveRole (e : PairedEntry) : AccessLevel :=
  if state e =? trust_states.recognized_pending then watch else role e.

Definition validate (c : C) (id tok : bytes) (m : PairingManager) : AccessLevel :=
  if negb (length tok =? limits.token_bytes)%nat then watch
  else
    match findByInstance id (entries m) with
    | None => watch
    | Some i =>
        let e := nth i (entries m) noEntry in
        if negb (constantTimeEqual c (token e) tok) then watch else liveRole e
    end.

(** The role and [*proofMatched]. *)
Definition validateProof (c : C) (id proof nonce : bytes) (m : PairingManager) : AccessLevel * bool :=
  if negb (length proof =? kTrustTokenProofBytes)%nat then (watch, false)
  else if negb (length nonce =? 8)%nat then (watch, false)
  else
    match findByInstance id (entries m) with
    | None => (watch, false)
    | Some i =>
        let e := nth i (entries m) noEntry in
        match icHmac c (token e) nonce with
        | None => (watch, false)
        | Some mac =>
            if negb (constantTimeEqual c (take kTrustTokenProofBytes mac) proof) then (watch, false)
            else (liveRole e, true)
        end
    end.
End granting.

#[global] Instance PairOutcome_eq_dec : EqDecision PairOutcome.
Proof. solve_decision. Defined.

(** *** The version tripwire *)

Record HelloObservation := mkObs {
  known : bool; versionChanged : bool; suspended : bool; effectiveRole : AccessLevel; suspendedRole : AccessLevel }.

Definition describe (client_kind client_name : bytes) (pm seen : Z) (e : PairedEntry) : PairedEntry :=
  mkPaired (instance_id e) (token e) (role e) (state e) pm (pairingMode e)
    (BoundedString.assign kLedgerKindMaxBytes client_kind (kind e))
    (BoundedString.assign kLedgerNameMaxBytes client_name (name e)) (version e) (firstSeen e) seen (used e).

Definition with_version (v : bytes) (e : PairedEntry) : PairedEntry :=
  mkPaired (instance_id e) (token e) (role e) (state e) (presentationMode e) (pairingMode e) (kind e) (name e)
    (BoundedString.assign kLedgerVersionMaxBytes v (version e)) (firstSeen e) (lastSeen e) (used e).

Definition with_state (s : Z) (e : PairedEntry) : PairedEntry :=
  mkPaired (instance_id e) (token e) (role e) s (presentationMode e) (pairingMode e) (kind e) (name e)
    (version e) (firstSeen e) (lastSeen e) (used e).

Definition observeHello (id client_kind client_name client_ver : bytes) (hasClientVer : bool) (pm : Z)
    (m : PairingManager) : HelloObservation * PairingManager :=
  match findByInstance id (entries m) with
  | None => (mkObs false false false watch watch, m)
  | Some i =>
      let e0 := nth i (entries m) noEntry in
      let e := describe client_kind client_name pm (wallSeconds m) e0 in
      let alreadySuspended := state e =? trust_states.recognized_pending in
      let put e m := with_entries (<[i := e]> (entries m)) m in
      if hasClientVer && negb (BoundedString.sameAs kLedgerVersionMaxBytes (version e) client_ver)
         && negb (BoundedString.empty (version e)) && negb alreadySuspended
      then
        if access_u8 (role e) <=? access_u8 (autoKeepMax m)
        then let e := with_version client_ver e in
             (mkObs true true false (liveRole e) (role e0), touch (put e m))
        else let e := with_state trust_states.recognized_pending e in
             (mkObs true true true (liveRole e) (role e0), touch (put e m))
      else if hasClientVer && BoundedString.empty (version e)
      then let e := with_version client_ver e in
           (mkObs true false false (liveRole e) (role e0), touch (put e m))
      else
        (mkObs true false false (liveRole e) (role e0),
         if negb alreadySuspended then with_dirty (generation m) true (put e m) else put e m)
  end.

(** *** Ledger management *)

Definition revoke (id : bytes) (m : PairingManager) : bool * PairingManager :=
  match findByInstance id (entries m) with
  | None => (false, m)
  | Some i => (true, touch (with_entries (<[i := noEntry]> (entries m)) m))
  end.

Definition entryCount (m : PairingManager) : nat := length (filter (fun e => used e = true) (entries m)).

Definition entry (i : nat) (m : PairingManager) : option PairedEntry :=
  filter (fun e => used e = true) (entries m) !! i.

Definition slot (i : nat) (m : PairingManager) : option PairedEntry :=
  if (kMaxPaired <=? i)%nat then None
  else let e := nth i (entries m) noEntry in if used e then Some e else None.

Definition with_used (e : PairedEntry) : PairedEntry :=
  mkPaired (instance_id e) (token e) (role e) (state e) (presentationMode e) (pairingMode e) (kind e) (name e)
    (version e) (firstSeen e) (lastSeen e) true.

Definition importEntry (e : PairedEntry) (m : PairingManager) : bool * PairingManager :=
  match find_index (fun s => negb (used s)) (entries m) with
  | Some i => (true, touch (with_entries (<[i := with_used e]> (entries m)) m))
  | None => (false, m)
  end.
End Ledger.

(** * Theorems *)

(** ** Pending knocks against a map *)

Module PendingFacts.
Import Pending.

Definition kmap (l : slots) : gmap bytes PendingKnock := smap instance_id used l.

Record wf (Cap : nat) (l : slots) : Prop := {
  wf_len : length l = Cap;
  wf_distinct : distinct instance_id used l;
  wf_ids : forall id k, kmap l !! id = Some k -> length id = limits.instance_id_bytes;
}.

Lemma find_spec Cap id l : wf Cap l -> length id = limits.instance_id_bytes -> find id l = sfind instance_id used id l.
Proof. intros _ Hid. unfold find. by rewrite Hid, Nat.eqb_refl. Qed.

Lemma dropIf_spec p l :
  dropIf p l = (filter (fun e => used e && p e = true) l, length (filter (fun e => used e && p e = true) l), sdrop used p noKnock l).
Proof.
  induction l as [|e l IH]; [done|]. cbn [dropIf]. rewrite IH, filter_cons. unfold sdrop. cbn [fmap list_fmap].
  destruct (used e), (p e); cbn; [by rewrite decide_True|by rewrite decide_False..].
Qed.

(** The promise: at most [Cap] knocks, one per device. *)
Inductive op : Type :=
| OAdd (id : bytes) (sid expires md : Z) | ORemove (id : bytes) | OExpire (now : Z) | ODrop (sid : Z).

Definition op_ok (o : op) : Prop :=
  match o with OAdd id _ _ _ | ORemove id => length id = limits.instance_id_bytes | _ => True end.

Definition step (o : op) (l : slots) : (bool + nat) * slots :=
  match o with
  | OAdd id sid ex md => let '(i, l) := add id sid ex md l in (inl (bool_decide (is_Some i)), l)
  | ORemove id => let '(b, l) := remove id l in (inl b, l)
  | OExpire now => let '(_, n, l) := expire now l in (inr n, l)
  | ODrop sid => let '(_, n, l) := dropBySession sid l in (inr n, l)
  end.

Definition spec_step (Cap : nat) (o : op) (m : gmap bytes PendingKnock) : (bool + nat) * gmap bytes PendingKnock :=
  match o with
  | OAdd id sid ex md =>
      match m !! id with
      | Some k => (inl true, <[id := refresh sid ex md k]> m)
      | None => if (base.size m <? Cap)%nat then (inl true, <[id := refresh sid ex md (fresh id)]> m) else (inl false, m)
      end
  | ORemove id => (inl (bool_decide (is_Some (m !! id))), delete id m)
  | OExpire now =>
      (inr (base.size (filter (fun kv => timeReached now (expiresAtMs kv.2) = true) m)),
       filter (fun kv => timeReached now (expiresAtMs kv.2) = false) m)
  | ODrop sid =>
      (inr (base.size (filter (fun kv => (session_id kv.2 =? sid) = true) m)),
       filter (fun kv => (session_id kv.2 =? sid) = false) m)
  end.

Lemma smap_filter_size (p : PendingKnock -> bool) l : distinct instance_id used l ->
  base.size (filter (fun kv => p kv.2 = true) (kmap l)) = length (filter (fun e => used e && p e = true) l).
Proof.
  unfold kmap. induction l as [|x l IH]; intros Hd; [done|]. apply distinct_cons in Hd as [Hd Hx].
  cbn [smap foldr]. fold (smap instance_id used l). rewrite filter_cons. destruct (used x) eqn:Hu; cbn [andb].
  2:{ rewrite decide_False by done. by apply IH. }
  assert (smap instance_id used l !! instance_id x = None) as Hn.
  { apply eq_None_not_Some. intros [e (Hin & Hue & Hk)%smap_lookup]; [|done]. by apply (Hx eq_refl e). }
  destruct (p x) eqn:Hp.
  - rewrite decide_True by done. rewrite map_filter_insert_True by done. cbn [length].
    rewrite map_size_insert_None, IH by (done || by apply map_lookup_filter_None; left). done.
  - rewrite decide_False by done. rewrite map_filter_insert_False by (cbn; congruence).
    rewrite map_filter_delete, delete_id by (apply map_lookup_filter_None; by left). by apply IH.
Qed.

Lemma add_refines Cap id sid ex md l : wf Cap l -> length id = limits.instance_id_bytes ->
  let '(r, l') := step (OAdd id sid ex md) l in spec_step Cap (OAdd id sid ex md) (kmap l) = (r, kmap l') /\ wf Cap l'.
Proof.
  intros Hwf Hid. pose proof Hwf as [Hl Hd Hi]. cbn [step spec_step]. unfold add. rewrite (find_spec Cap) by done.
  destruct (sfind instance_id used id l) as [i|] eqn:Hf.
  - destruct (sfind_Some _ _ _ _ _ Hf) as (k & Hk & Hu & <-).
    assert (kmap l !! instance_id k = Some k) as Hm by (by eapply smap_lookup_at). rewrite Hm.
    rewrite (nth_lookup_Some _ _ _ _ Hk).
    destruct (smap_update instance_id used l i (refresh sid ex md k) k Hd Hk Hu eq_refl eq_refl) as [Hs Hd'].
    rewrite bool_decide_eq_true_2 by done. unfold kmap. rewrite Hs. cbn [instance_id refresh]. split; [done|].
    split; [by rewrite length_insert|done|]. intros id' k'. unfold kmap. rewrite Hs. cbn [instance_id refresh].
    destruct (decide (id' = instance_id k)) as [->|]; [done|]. rewrite lookup_insert_ne by done. apply Hi.
  - assert (kmap l !! id = None) as Hm by (by apply sfind_None). rewrite Hm.
    fold (sfree used l). destruct (sfree used l) as [i|] eqn:Hfree.
    + assert (base.size (kmap l) < Cap)%nat as Hlt.
      { pose proof (smap_size_le instance_id used l Hd) as Hle. rewrite Hl in Hle.
        destruct (decide (base.size (smap instance_id used l) = length l)) as [E|]; [|unfold kmap; lia].
        apply (sfree_None instance_id used l Hd) in E. congruence. }
      destruct (Nat.ltb_spec (base.size (kmap l)) Cap) as [_|]; [|lia].
      assert (take limits.instance_id_bytes id = id) as Htake by (apply take_ge; lia).
      destruct (smap_fill instance_id used l i (refresh sid ex md (fresh id)) Hd Hfree eq_refl) as [Hs Hd'].
      { cbn [instance_id refresh fresh]. by rewrite Htake. }
      rewrite bool_decide_eq_true_2 by done. unfold kmap. rewrite Hs. cbn [instance_id refresh fresh]. rewrite Htake. split; [done|].
      split; [by rewrite length_insert|done|]. intros id' k'. unfold kmap. rewrite Hs. cbn [instance_id refresh fresh]. rewrite Htake.
      destruct (decide (id' = id)) as [->|]; [done|]. rewrite lookup_insert_ne by done. apply Hi.
    + apply (sfree_None instance_id used l Hd) in Hfree. destruct (Nat.ltb_spec (base.size (kmap l)) Cap) as [Hlt|_]; [unfold kmap in Hlt; lia|].
      by rewrite bool_decide_eq_false_2 by (by intros [? ?]).
Qed.

Lemma drop_wf Cap (p : PendingKnock -> bool) l : wf Cap l ->
  kmap (sdrop used p noKnock l) = filter (fun kv => p kv.2 = false) (kmap l) /\ wf Cap (sdrop used p noKnock l).
Proof.
  intros [Hl Hd Hi]. destruct (smap_drop instance_id used p noKnock l Hd eq_refl) as [Hs Hd']. split; [done|].
  split; [unfold sdrop; by rewrite length_fmap|done|]. intros id k. unfold kmap. rewrite Hs.
  intros [Hk _]%map_lookup_filter_Some. by eapply Hi.
Qed.

Lemma pending_step_refines Cap o l : wf Cap l -> op_ok o ->
  let '(r, l') := step o l in spec_step Cap o (kmap l) = (r, kmap l') /\ wf Cap l'.
Proof.
  intros Hwf Hok. destruct o as [id sid ex md|id|now|sid]; [by apply add_refines| | |]; pose proof Hwf as [Hl Hd Hi]; cbn [op_ok step spec_step] in *.
  - unfold remove. rewrite (find_spec Cap) by done. destruct (sfind instance_id used id l) as [i|] eqn:Hf.
    + destruct (sfind_Some _ _ _ _ _ Hf) as (k & Hk & Hu & <-).
      destruct (smap_free instance_id used l i k noKnock Hd Hk Hu eq_refl) as [Hs Hd'].
      assert (kmap l !! instance_id k = Some k) as Hm by (by eapply smap_lookup_at).
      rewrite bool_decide_eq_true_2 by (by rewrite Hm). unfold kmap. rewrite Hs. split; [done|].
      split; [by rewrite length_insert|done|]. intros id' k'. unfold kmap. rewrite Hs.
      intros [_ Hk']%lookup_delete_Some. by eapply Hi.
    + assert (kmap l !! id = None) as Hm by (by apply sfind_None).
      rewrite bool_decide_eq_false_2 by (rewrite Hm; by intros [? ?]). by rewrite delete_id.
  - unfold expire. rewrite dropIf_spec. destruct (drop_wf Cap (fun e => timeReached now (expiresAtMs e)) l Hwf) as [-> Hwf'].
    split; [|done]. f_equal. f_equal. apply (smap_filter_size (fun e => timeReached now (expiresAtMs e)) l Hd).
  - unfold dropBySession. rewrite dropIf_spec. destruct (drop_wf Cap (fun e => session_id e =? sid) l Hwf) as [-> Hwf'].
    split; [|done]. f_equal. f_equal. apply (smap_filter_size (fun e => session_id e =? sid) l Hd).
Qed.

Lemma pending_empty_wf Cap : wf Cap (empty Cap) /\ kmap (empty Cap) = ∅.
Proof.
  destruct (distinct_replicate instance_id used Cap noKnock eq_refl) as [Hd Hs]. split; [|done].
  split; [apply length_replicate|done|]. intros id k. unfold kmap, empty. by rewrite Hs, lookup_empty.
Qed.
End PendingFacts.

Lemma is_bytes_pinProof pinAscii nonce : is_bytes (pairingPinProof pinAscii nonce).
Proof. apply Forall_take, is_bytes_hmac. Qed.

(** ** The ledger against a map *)

Module LedgerFacts.
Import Ledger.

Definition emap (m : PairingManager) : gmap bytes PairedEntry := smap instance_id used (entries m).

Record wf (m : PairingManager) : Prop := {
  wf_len : length (entries m) = kMaxPaired;
  wf_distinct : distinct instance_id used (entries m);
  wf_entry : forall id e, emap m !! id = Some e ->
    length id = limits.instance_id_bytes /\ length (token e) = limits.token_bytes /\ is_bytes (token e);
}.

Lemma ledger_init_wf : wf init /\ emap init = ∅.
Proof.
  destruct (distinct_replicate instance_id used kMaxPaired noEntry eq_refl) as [Hd Hs]. split; [|done].
  split; [done|done|]. intros id e. unfold emap. cbn [entries init]. by rewrite Hs, lookup_empty.
Qed.

Lemma find_at m id i : wf m -> findByInstance id (entries m) = Some i ->
  exists e, entries m !! i = Some e /\ used e = true /\ instance_id e = id /\ emap m !! id = Some e /\
            nth i (entries m) noEntry = e.
Proof.
  intros [_ Hd _] Hf. unfold findByInstance in Hf. case_match; [done|].
  destruct (sfind_Some _ _ _ _ _ Hf) as (e & He & Hu & <-). exists e.
  split_and!; [done|done|done|by eapply smap_lookup_at|by apply nth_lookup_Some].
Qed.

Lemma find_none m id : wf m -> findByInstance id (entries m) = None <-> emap m !! id = None.
Proof.
  intros Hwf. pose proof Hwf as [_ Hd Hi]. unfold findByInstance.
  destruct (Nat.eqb_spec (length id) limits.instance_id_bytes) as [Hid|Hid]; cbn [negb]; [by apply sfind_None|].
  split; [|done]. intros _. apply eq_None_not_Some. intros [e He]. destruct (Hi id e He) as [? _]. done.
Qed.

(** An in-place update of a found entry. *)
Lemma update_at m id i e e' : wf m -> entries m !! i = Some e -> used e = true -> instance_id e = id ->
  used e' = true -> instance_id e' = id -> length (token e') = limits.token_bytes -> is_bytes (token e') ->
  smap instance_id used (<[i := e']> (entries m)) = <[id := e']> (emap m) /\
  forall m', entries m' = <[i := e']> (entries m) -> wf m'.
Proof.
  intros [Hl Hd Hi] He Hu Hid Hu' Hid' Ht Htb.
  destruct (smap_update instance_id used (entries m) i e' e Hd He Hu Hu' ltac:(congruence)) as [Hs Hd'].
  rewrite Hid' in Hs. split; [done|]. intros m' Hm'. split; [by rewrite Hm', length_insert|by rewrite Hm'|].
  intros id0 e0. unfold emap. rewrite Hm', Hs. intros [[<- <-]|[_ H0]]%lookup_insert_Some; [|by eapply Hi].
  split_and!; [|done|done]. rewrite <- Hid. eapply (Hi (instance_id e) e). by eapply smap_lookup_at.
Qed.

Section ops.
Context {R : Type} `{IRandom R} {C : Type} `{ICrypto C}.
Implicit Types (rng : R) (c : C).

Lemma grant_spec id r md rng out m : wf m -> length id = limits.instance_id_bytes ->
  let '(oi, out', rng', m') := grant id r md rng out m in
  match oi with
  | Some _ => wf m' /\ rng' = (fill rng limits.token_bytes).2 /\
      exists e, emap m' = <[id := e]> (emap m) /\ token e = (fill rng limits.token_bytes).1 /\ role e = r /\
        state e = trust_states.trusted /\ pairingMode e = md /\
        ((limits.token_bytes <= length out)%nat -> take limits.token_bytes out' = token e)
  | None => m' = m /\ rng' = rng /\ out' = out /\ emap m !! id = None /\ base.size (emap m) = kMaxPaired
  end.
Proof.
  intros Hwf Hid. pose proof Hwf as [Hl Hd Hi]. unfold grant. rewrite Hid, Nat.eqb_refl. cbn [negb].
  pose proof (fill_length rng limits.token_bytes) as Hfl. pose proof (fill_bytes rng limits.token_bytes) as Hfb.
  destruct (fill rng limits.token_bytes) as [tok rng']. cbn [fst snd] in *.
  assert (forall o : bytes, (limits.token_bytes <= length o)%nat ->
    take limits.token_bytes (if (limits.token_bytes <=? length o)%nat then write_at 0 tok o else o) = tok) as Hout.
  { intros o Ho. destruct (Nat.leb_spec limits.token_bytes (length o)); [|lia]. rewrite <- Hfl. apply (write_at_read 0). lia. }
  destruct (findByInstance id (entries m)) as [i|] eqn:Hf.
  - destruct (find_at m id i Hwf Hf) as (e & He & Hu & Hk & Hm & ->).
    destruct (update_at m id i e (granted tok r md (wallSeconds m) e) Hwf He Hu Hk eq_refl Hk Hfl Hfb) as [Hs Hwf'].
    split_and!; [by apply Hwf'|done|]. exists (granted tok r md (wallSeconds m) e). split_and!; try done. apply Hout.
  - apply (find_none m id Hwf) in Hf. fold (sfree used (entries m)). destruct (sfree used (entries m)) as [i|] eqn:Hfree.
    + destruct (smap_fill instance_id used (entries m) i (granted tok r md (wallSeconds m) (freshEntry id (wallSeconds m))) Hd Hfree eq_refl Hf) as [Hs Hd'].
      cbn [instance_id granted freshEntry] in Hs. split_and!; [|done|].
      * split; [cbn; by rewrite length_insert|done|]. intros id0 e0. unfold emap. cbn [entries touch with_dirty with_entries].
        rewrite Hs. intros [[<- <-]|[_ H0']]%lookup_insert_Some; [|by eapply Hi]. done.
      * eexists. split_and!; [exact Hs|done..|apply Hout].
    + apply (sfree_None instance_id used (entries m) Hd) in Hfree. split_and!; try done. unfold emap. lia.
Qed.

Lemma validate_spec c id tok m : wf m -> is_bytes tok ->
  validate c id tok m =
    match emap m !! id with Some e => if decide (token e = tok) then liveRole e else watch | None => watch end.
Proof.
  intros Hwf Htok. unfold validate.
  destruct (findByInstance id (entries m)) as [i|] eqn:Hf.
  - destruct (find_at m id i Hwf Hf) as (e & He & Hu & Hk & Hm & ->). rewrite Hm.
    destruct (wf_entry m Hwf id e Hm) as (_ & Ht & Htb).
    destruct (Nat.eqb_spec (length tok) limits.token_bytes) as [E|E]; cbn [negb].
    + destruct (constantTimeEqual c (token e) tok) eqn:Ec; cbn [negb].
      * apply constantTimeEqual_spec in Ec; [|done|done]. by rewrite decide_True.
      * rewrite decide_False; [done|]. intros Heq. apply (constantTimeEqual_spec c) in Heq; [congruence|done|done].
    + rewrite decide_False; [done|]. congruence.
  - apply (find_none m id Hwf) in Hf. rewrite Hf. by destruct (negb _).
Qed.

Lemma revoke_spec id m : wf m ->
  let '(b, m') := revoke id m in
  wf m' /\ emap m' = delete id (emap m) /\ b = bool_decide (is_Some (emap m !! id)).
Proof.
  intros Hwf. pose proof Hwf as [Hl Hd Hi]. unfold revoke. destruct (findByInstance id (entries m)) as [i|] eqn:Hf.
  - destruct (find_at m id i Hwf Hf) as (e & He & Hu & <- & Hm & _).
    destruct (smap_free instance_id used (entries m) i e noEntry Hd He Hu eq_refl) as [Hs Hd'].
    split_and!; [|done|by rewrite bool_decide_eq_true_2 by (by rewrite Hm)].
    split; [cbn; by rewrite length_insert|done|]. intros id0 e0. unfold emap. cbn [entries touch with_dirty with_entries].
    rewrite Hs. intros [_ H0']%lookup_delete_Some. by eapply Hi.
  - apply (find_none m id Hwf) in Hf. split_and!; [done|by rewrite delete_id|].
    rewrite bool_decide_eq_false_2; [done|]. rewrite Hf. by intros [? ?].
Qed.

(** What a HELLO does to the device's entry. *)
Lemma observeHello_spec id k n v hasV pm m : wf m ->
  let '(o, m') := observeHello id k n v hasV pm m in
  wf m' /\ autoKeepMax m' = autoKeepMax m /\
  match emap m !! id with
  | None => m' = m /\ o = mkObs false false false watch watch
  | Some e =>
      let trips := hasV && negb (BoundedString.sameAs kLedgerVersionMaxBytes (version e) v)
                   && negb (BoundedString.empty (version e)) && negb (state e =? trust_states.recognized_pending) in
      let susp := trips && negb (access_u8 (role e) <=? access_u8 (autoKeepMax m)) in
      exists e', emap m' = <[id := e']> (emap m) /\ token e' = token e /\ role e' = role e /\
        state e' = (if susp then trust_states.recognized_pending else state e) /\
        o = mkObs true trips susp (liveRole e') (role e)
  end.
Proof.
  intros Hwf. unfold observeHello. destruct (findByInstance id (entries m)) as [i|] eqn:Hf.
  2:{ apply (find_none m id Hwf) in Hf. by rewrite Hf. }
  destruct (find_at m id i Hwf Hf) as (e & He & Hu & Hk & Hm & ->). rewrite Hm.
  destruct (wf_entry m Hwf id e Hm) as (_ & Ht & Htb).
  assert (forall e', used e' = used e -> instance_id e' = instance_id e -> token e' = token e ->
    smap instance_id used (<[i := e']> (entries m)) = <[id := e']> (emap m) /\
    forall m', entries m' = <[i := e']> (entries m) -> wf m') as Hput.
  { intros e' Hu' Hi' Ht'. apply (update_at m id i e); congruence. }
  cbn [version state role describe]. destruct (hasV && _ && _ && _) eqn:Htrip; cbv zeta.
  - destruct (access_u8 (role e) <=? access_u8 (autoKeepMax m)); cbn [negb andb].
    + destruct (Hput (with_version v (describe k n pm (wallSeconds m) e)) eq_refl eq_refl eq_refl) as [Hs Hwf'].
      split_and!; [by apply Hwf'|done|]. eexists. by split_and!; [exact Hs|..].
    + destruct (Hput (with_state trust_states.recognized_pending (describe k n pm (wallSeconds m) e)) eq_refl eq_refl eq_refl) as [Hs Hwf'].
      split_and!; [by apply Hwf'|done|]. eexists. by split_and!; [exact Hs|..].
  - cbn [andb]. destruct (hasV && BoundedString.empty (version e)).
    + destruct (Hput (with_version v (describe k n pm (wallSeconds m) e)) eq_refl eq_refl eq_refl) as [Hs Hwf'].
      split_and!; [by apply Hwf'|done|]. eexists. by split_and!; [exact Hs|..].
    + destruct (Hput (describe k n pm (wallSeconds m) e) eq_refl eq_refl eq_refl) as [Hs Hwf'].
      assert (forall b : bool, let mm := if b then with_dirty (generation m) true (with_entries (<[i:=describe k n pm (wallSeconds m) e]> (entries m)) m)
        else with_entries (<[i:=describe k n pm (wallSeconds m) e]> (entries m)) m in
        entries mm = <[i:=describe k n pm (wallSeconds m) e]> (entries m) /\ autoKeepMax mm = autoKeepMax m) as Hmm by (by intros []).
      destruct (Hmm (negb (state e =? trust_states.recognized_pending))) as [Hme Hma].
      split_and!; [by apply Hwf'|done|]. eexists. split_and!; [unfold emap at 1; rewrite Hme; exact Hs|done..].
Qed.

Lemma grant_wf id r md rng out m : wf m -> length id = limits.instance_id_bytes -> wf (grant id r md rng out m).2.
Proof.
  intros Hwf Hid. pose proof (grant_spec id r md rng out m Hwf Hid) as Hg.
  destruct (grant id r md rng out m) as [[[[i|] out'] rng'] m']; [apply Hg|by destruct Hg as [-> _]].
Qed.

Lemma observeHello_wf id k n v hasV pm m : wf m -> wf (observeHello id k n v hasV pm m).2.
Proof.
  intros Hwf. pose proof (observeHello_spec id k n v hasV pm m Hwf) as Ho.
  destruct (observeHello id k n v hasV pm m). apply Ho.
Qed.

(** The PIN ceremony, given an 8-byte identity. *)
Lemma pair_spec c id proof nonce rng now r out m : wf m -> length id = limits.instance_id_bytes -> is_bytes proof ->
  handlePairReq c id proof nonce rng now r out m =
  if negb (windowOpen now m) then (WindowClosed, out, rng, m)
  else if decide (proof = pairingPinProof (pin m) nonce) then
    let '(oi, out', rng', m') := grant id r pairing_modes.pin_proof rng out m in
    match oi with
    | None => (Denied, out', rng', m')
    | Some _ => (Granted, out', rng', with_window (pin m') (windowOpenedMs m') (windowFlag m') 0 m')
    end
  else
    let fails := u8 (failCount m + 1) in
    (Denied, out, rng, with_window (pin m) (windowOpenedMs m) (if 3 <=? fails then false else windowFlag m) fails m).
Proof.
  intros Hwf Hid Hp. unfold handlePairReq. destruct (windowOpen now m); cbn [negb]; [|done].
  rewrite Hid, Nat.eqb_refl. cbn [negb].
  pose proof (constantTimeEqual_spec c proof (pairingPinProof (pin m) nonce) Hp (is_bytes_pinProof _ _)) as E.
  destruct (constantTimeEqual c proof _); cbn [negb].
  - by rewrite decide_True by (by apply E).
  - rewrite decide_False; [done|]. intros Heq. by apply E in Heq.
Qed.

(** What an operation of the hub tells about a device. *)
Inductive event : Type := EGranted (id tok : bytes) (r : AccessLevel) | ERevoked (id : bytes) | ESuspended (id : bytes).

Definition event_id (e : event) : bytes := match e with EGranted id _ _ => id | ERevoked id => id | ESuspended id => id end.

Inductive op : Type :=
| OGrant (id : bytes) (r : AccessLevel) (md : Z)
| ORevoke (id : bytes)
| OHello (id k n v : bytes) (hasV : bool) (pm : Z)
| OPair (id proof nonce : bytes) (now : Z) (r : AccessLevel)
| OOpenWindow (pin : bytes) (now : Z)
| OCloseWindow
| OPolicy (r : AccessLevel)
| OWallClock (s : Z).

Definition op_ok (o : op) : Prop :=
  match o with
  | OGrant id _ _ => length id = limits.instance_id_bytes
  | OPair id proof _ _ _ => length id = limits.instance_id_bytes /\ is_bytes proof
  | _ => True
  end.

Definition granted_event (oi : option nat) (id out : bytes) (r : AccessLevel) : list event :=
  match oi with Some _ => [EGranted id out r] | None => [] end.

(** One operation: the events it raises, the generator and the manager after.
    The token of a grant is what the caller's 16-byte buffer receives. *)
Definition step (c : C) (o : op) (s : R * PairingManager) : list event * (R * PairingManager) :=
  let '(rng, m) := s in
  let buf := replicate limits.token_bytes 0 in
  match o with
  | OGrant id r md => let '(oi, out, rng, m) := grant id r md rng buf m in (granted_event oi id out r, (rng, m))
  | ORevoke id => let '(b, m) := revoke id m in (if b then [ERevoked id] else [], (rng, m))
  | OHello id k n v hasV pm =>
      let '(ob, m) := observeHello id k n v hasV pm m in (if suspended ob then [ESuspended id] else [], (rng, m))
  | OPair id proof nonce now r =>
      let '(res, out, rng, m) := handlePairReq c id proof nonce rng now r buf m in
      (match res with Granted => [EGranted id out r] | _ => [] end, (rng, m))
  | OOpenWindow p now => ([], (rng, openWindow p now m))
  | OCloseWindow => ([], (rng, closeWindow m))
  | OPolicy r => ([], (rng, setTrustChangeAutoKeepMax r m))
  | OWallClock x => ([], (rng, setWallClockSeconds x m))
  end.

Definition run (c : C) (ops : list op) (s : list event * (R * PairingManager)) : list event * (R * PairingManager) :=
  foldl (fun '(evs, s) o => let '(ev, s) := step c o s in (evs ++ ev, s)) s ops.

(** The standing of a device: decided by the last event about it alone. *)
Definition standing (id : bytes) (s : option (bytes * AccessLevel)) (ev : event) : option (bytes * AccessLevel) :=
  if decide (event_id ev = id) then match ev with EGranted _ tok r => Some (tok, r) | _ => None end else s.

Definition authority (evs : list event) (id : bytes) : option (bytes * AccessLevel) := foldl (standing id) None evs.

Definition credential (m : PairingManager) (id : bytes) : option (bytes * AccessLevel) :=
  emap m !! id ≫= fun e => if state e =? trust_states.recognized_pending then None else Some (token e, role e).

Lemma credential_insert m m' id e : emap m' = <[id := e]> (emap m) -> forall id',
  credential m' id' = if decide (id = id')
    then (if state e =? trust_states.recognized_pending then None else Some (token e, role e)) else credential m id'.
Proof.
  intros E id'. unfold credential. rewrite E. destruct (decide (id = id')) as [<-|].
  - by rewrite lookup_insert_eq.
  - by rewrite lookup_insert_ne.
Qed.

Lemma grant_step id r md rng m out : wf m -> length id = limits.instance_id_bytes -> length out = limits.token_bytes ->
  let '(oi, out', rng', m') := grant id r md rng out m in
  wf m' /\ forall id', credential m' id' = foldl (standing id') (credential m id') (granted_event oi id out' r).
Proof.
  intros Hwf Hid Hout. pose proof (grant_spec id r md rng out m Hwf Hid) as Hg.
  assert (length (grant id r md rng out m).1.1.2 = length out) as Hlen.
  { unfold grant. pose proof (fill_length rng limits.token_bytes) as Hl. destruct (negb _); [done|]. destruct (match findByInstance id (entries m) with Some _ => _ | None => _ end) as [[i e]|]; [|done].
    destruct (fill rng limits.token_bytes) as [tok rng']. cbn [fst snd] in *.
    destruct (Nat.leb_spec limits.token_bytes (length out)); [|done]. apply length_write_at. lia. }
  destruct (grant id r md rng out m) as [[[[i|] out'] rng'] m']; cbn [fst snd granted_event foldl] in *.
  - destruct Hg as (Hwf' & _ & e & He & Ht & Hr & Hs & _ & Ho). split; [done|]. intros id'.
    rewrite (credential_insert m m' id e He). unfold standing. cbn [event_id].
    destruct (decide (id = id')); [|done]. rewrite Hs, Hr, <- (Ho ltac:(lia)).
    change (trust_states.trusted =? trust_states.recognized_pending) with false. by rewrite take_ge by lia.
  - by destruct Hg as (-> & _).
Qed.

Lemma step_credential c o rng m : wf m -> op_ok o ->
  let '(ev, (rng', m')) := step c o (rng, m) in
  wf m' /\ forall id, credential m' id = foldl (standing id) (credential m id) ev.
Proof.
  intros Hwf Hok.
  assert (forall m', entries m' = entries m -> wf m' /\ forall id, credential m' id = credential m id) as Hsame.
  { intros m' E. split; [|intros id; unfold credential, emap; by rewrite E].
    destruct Hwf as [Hl Hd Hi]. split; unfold emap in *; rewrite E; done. }
  destruct o as [id r md|id|id k n v hasV pm|id proof nonce now r|p now| |r|x]; cbn [step op_ok] in *; try (by apply Hsame).
  - pose proof (grant_step id r md rng m (replicate limits.token_bytes 0) Hwf Hok eq_refl) as Hg.
    by destruct (grant _ _ _ _ _ m) as [[[oi out'] rng'] m'].
  - pose proof (revoke_spec id m Hwf) as Hr. destruct (revoke id m) as [b m']. destruct Hr as (Hwf' & He & ->).
    split; [done|]. intros id'. unfold credential at 1. rewrite He. destruct (decide (id = id')) as [<-|Hne].
    + rewrite lookup_delete_eq. case_bool_decide as Hb; cbn [foldl].
      * unfold standing. cbn [event_id]. by rewrite decide_True.
      * unfold credential. apply eq_None_not_Some in Hb. by rewrite Hb.
    + rewrite lookup_delete_ne by done. case_bool_decide; cbn [foldl]; [|done].
      unfold standing. cbn [event_id]. by rewrite decide_False.
  - pose proof (observeHello_spec id k n v hasV pm m Hwf) as Ho. destruct (observeHello _ _ _ _ _ _ m) as [ob m'].
    destruct Ho as (Hwf' & _ & Ho). split; [done|]. intros id'. destruct (emap m !! id) as [e|] eqn:Hm.
    2:{ by destruct Ho as [-> ->]. }
    destruct Ho as (e' & He & Ht & Hr & Hs & ->). cbn [suspended]. rewrite (credential_insert m m' id e' He), Hs, Ht, Hr.
    destruct (_ && negb (access_u8 _ <=? _)); cbn [foldl].
    + unfold standing. cbn [event_id]. by destruct (decide (id = id')).
    + destruct (decide (id = id')) as [<-|]; [|done]. unfold credential. by rewrite Hm.
  - destruct Hok as [Hid Hp]. rewrite (pair_spec c) by done. destruct (windowOpen now m); cbn [negb]; [|done].
    destruct (decide _).
    + pose proof (grant_step id r pairing_modes.pin_proof rng m (replicate limits.token_bytes 0) Hwf Hid eq_refl) as Hg.
      destruct (grant _ _ _ _ _ m) as [[[[i|] out'] rng'] m']; destruct Hg as [Hwf' Hc]; [|done]. split; [|done].
      destruct Hwf' as [Hl Hd Hi]. by split.
    + by apply Hsame.
Qed.

Lemma run_credential c ops evs rng m : wf m -> Forall op_ok ops -> (forall id, credential m id = authority evs id) ->
  let '(evs', (rng', m')) := run c ops (evs, (rng, m)) in wf m' /\ forall id, credential m' id = authority evs' id.
Proof.
  intros Hwf Hok. revert evs rng m Hwf. induction Hok as [|o ops Ho _ IH]; intros evs rng m Hwf Hc; [done|].
  unfold run. cbn [foldl]. pose proof (step_credential c o rng m Hwf Ho) as Hs.
  destruct (step c o (rng, m)) as [ev [rng' m']]. destruct Hs as [Hwf' Hs]. apply (IH (evs ++ ev) rng' m' Hwf').
  intros id. unfold authority. rewrite foldl_app. by rewrite Hs, Hc.
Qed.

(** A request of the PIN ceremony. *)
Record request := mkReq { q_id : bytes; q_proof : bytes; q_nonce : bytes; q_now : Z; q_role : AccessLevel }.

(** One handled request: what was asked, the outcome, and the generator and the
    manager before and after. *)
Record attempt := mkAttempt { a_req : request; a_out : PairOutcome; a_before : R * PairingManager; a_after : R * PairingManager }.

(** The requests of the ceremony in the order they arrive. *)
Fixpoint ceremony (c : C) (qs : list request) (s : R * PairingManager) : list attempt :=
  match qs with
  | [] => []
  | q :: qs =>
      let '(o, _, rng, m) :=
        handlePairReq c (q_id q) (q_proof q) (q_nonce q) s.1 (q_now q) (q_role q) (replicate limits.token_bytes 0) s.2 in
      mkAttempt q o s (rng, m) :: ceremony c qs (rng, m)
  end.

(** A wrong guess at the PIN [p] that was examined: the request names a device
    and its proof is not the PIN's, and the window was found open. *)
Definition wrong (p : bytes) (q : request) : Prop :=
  length (q_id q) = limits.instance_id_bytes /\ q_proof q <> pairingPinProof p (q_nonce q).

Definition wrong_guess (p : bytes) (a : attempt) : Prop := wrong p (a_req a) /\ a_out a <> WindowClosed.

#[global] Instance wrong_guess_dec p a : Decision (wrong_guess p a).
Proof. unfold wrong_guess, wrong. apply _. Defined.

Definition wrong_guesses (p : bytes) (l : list attempt) : nat := length (filter (wrong_guess p) l).

(** The guesses spent since the window opened or since the last grant; three
    when the window is shut. *)
Definition spent (m : PairingManager) : Z := if windowFlag m then failCount m else 3.

Definition pinned (p : bytes) (m : PairingManager) : Prop :=
  wf m /\ pin m = p /\ 0 <= spent m <= 3 /\ (windowFlag m = true -> spent m < 3).

(** What one request does to the count of spent guesses. *)
Definition attempt_ok (p : bytes) (a : attempt) : Prop :=
  let '(rng, m) := a_before a in
  let '(rng', m') := a_after a in
  (a_out a <> Granted -> rng' = rng /\ entries m' = entries m) /\
  (wrong p (a_req a) -> a_out a <> Granted) /\
  (windowFlag m = false -> a_out a = WindowClosed) /\
  spent m' = (if decide (a_out a = Granted) then 0 else spent m + (if decide (wrong_guess p a) then 1 else 0)).

Lemma grant_window id r md rng out m :
  let '(oi, _, rng', m') := grant id r md rng out m in
  pin m' = pin m /\ windowFlag m' = windowFlag m /\ windowOpenedMs m' = windowOpenedMs m /\ failCount m' = failCount m /\
  (oi = None -> rng' = rng /\ m' = m).
Proof.
  unfold grant. destruct (negb _); [done|].
  destruct (match findByInstance id (entries m) with Some _ => _ | None => _ end) as [[i e]|]; [|done].
  by destruct (fill rng _).
Qed.

Lemma attempt_step c p q rng m : pinned p m -> is_bytes (q_proof q) ->
  let '(o, _, rng', m') :=
    handlePairReq c (q_id q) (q_proof q) (q_nonce q) rng (q_now q) (q_role q) (replicate limits.token_bytes 0) m in
  attempt_ok p (mkAttempt q o (rng, m) (rng', m')) /\ pinned p m'.
Proof.
  intros Hp Hb. pose proof Hp as (Hwf & Epin & Hs & Hlt). unfold attempt_ok, wrong_guess, wrong. cbn [a_before a_after a_out a_req].
  destruct (decide (length (q_id q) = limits.instance_id_bytes)) as [Hid|Hid].
  - rewrite pair_spec by done. destruct (windowOpen (q_now q) m) eqn:Hw; cbn [negb].
    + assert (windowFlag m = true) as Hflag by (unfold windowOpen in Hw; by destruct (windowFlag m)).
      unfold spent in Hs, Hlt. rewrite Hflag in Hs, Hlt. specialize (Hlt eq_refl). rewrite Epin. destruct (decide (q_proof q = _)) as [Ep|Ep].
      * pose proof (grant_window (q_id q) (q_role q) pairing_modes.pin_proof rng (replicate limits.token_bytes 0) m) as Hg.
        pose proof (grant_wf (q_id q) (q_role q) pairing_modes.pin_proof rng (replicate limits.token_bytes 0) m Hwf Hid) as Hg'.
        destruct (grant _ _ _ _ _ m) as [[[[i|] out'] rng'] m']; destruct Hg as (Gp & Gf & Go & Gc & Gn).
        -- split; [split_and!; [done|by intros [_ ?]|by rewrite Hflag|]|].
           ++ unfold spent. cbn. by rewrite Gf, Hflag.
           ++ unfold pinned, spent. cbn. rewrite Gf, Hflag, Gp. destruct Hg' as [Hl Hd Hi]. split_and!; [by split|done|lia|lia|lia].
        -- destruct Gn as [-> ->]; [done|]. split; [|done]. split_and!; [done|by intros [_ ?]|by rewrite Hflag|].
           rewrite decide_False by done. rewrite decide_False by (by intros [[_ ?] _]). lia.
      * cbv zeta. rewrite (u8_id (failCount m + 1)) by (unfold is_u8; lia). rewrite Hflag. split.
        -- split_and!; [done|done|done|]. rewrite decide_False by done. rewrite decide_True by done.
           unfold spent. cbn. rewrite Hflag. destruct (Z.leb_spec 3 (failCount m + 1)); lia.
        -- unfold pinned, spent. cbn. destruct Hwf as [Hl Hd Hi]. split_and!; [by split|done|..]; destruct (Z.leb_spec 3 (failCount m + 1)); lia || done.
    + split; [|done]. split_and!; [done|done|done|]. rewrite decide_False by done. rewrite decide_False by (by intros [_ []]). lia.
  - unfold handlePairReq. apply Nat.eqb_neq in Hid as Hid'. rewrite Hid'. cbn [negb].
    destruct (windowOpen (q_now q) m) eqn:Hw; cbn [negb]; (split; [|done]); split_and!; try done.
    + unfold windowOpen in Hw. intros Hf. by rewrite Hf in Hw.
    + rewrite decide_False by done. rewrite decide_False by (by intros [[] _]). lia.
    + rewrite decide_False by done. rewrite decide_False by (by intros [[] _]). lia.
Qed.

Lemma ceremony_requests c qs s : a_req <$> ceremony c qs s = qs.
Proof.
  revert s. induction qs as [|q qs IH]; intros s; [done|]. cbn [ceremony].
  destruct (handlePairReq c _ _ _ _ _ _ _ _) as [[[o out] rng'] m']. cbn. by rewrite IH.
Qed.

(** A stretch of the ceremony: its attempts, and the states it joins. *)
Inductive stretch (p : bytes) : R * PairingManager -> list attempt -> R * PairingManager -> Prop :=
  | stretch_nil s : pinned p s.2 -> stretch p s [] s
  | stretch_cons s a l s' : a_before a = s -> pinned p s.2 -> attempt_ok p a -> stretch p (a_after a) l s' -> stretch p s (a :: l) s'.

Lemma ceremony_stretch c p qs s : pinned p s.2 -> Forall (fun q => is_bytes (q_proof q)) qs ->
  exists s', stretch p s (ceremony c qs s) s'.
Proof.
  intros Hs Hq. revert s Hs. induction Hq as [|q qs Hb _ IH]; intros [rng m] Hs; [exists (rng, m); by constructor|].
  cbn [ceremony fst snd]. pose proof (attempt_step c p q rng m Hs Hb) as Ha.
  destruct (handlePairReq c _ _ _ _ _ _ _ m) as [[[o out] rng'] m']. destruct Ha as [Ha Hm'].
  destruct (IH (rng', m') Hm') as [s' Hs']. exists s'. by constructor.
Qed.

Lemma stretch_split p s l1 l2 s' : stretch p s (l1 ++ l2) s' -> exists s1, stretch p s l1 s1 /\ stretch p s1 l2 s'.
Proof.
  revert s. induction l1 as [|a l1 IH]; intros s Hs; cbn in Hs.
  - exists s. split; [|done]. constructor. by inversion Hs; subst.
  - inversion Hs as [|? ? ? ? Eb Hp Ha Ht]; subst. destruct (IH _ Ht) as (s1 & H1 & H2). exists s1. split; [by constructor|done].
Qed.

Lemma stretch_end p s l s' : stretch p s l s' -> pinned p s'.2.
Proof. by induction 1. Qed.

Lemma stretch_attempts p s l s' : stretch p s l s' -> Forall (attempt_ok p) l.
Proof. induction 1; by constructor. Qed.

(** Without a grant the guesses add up; once shut, the window stays shut. *)
Lemma stretch_spent p s l s' : stretch p s l s' -> Forall (fun a => a_out a <> Granted) l ->
  spent s'.2 = spent s.2 + Z.of_nat (wrong_guesses p l).
Proof.
  induction 1 as [s Hp|s a l s' Eb Hp Ha Ht IH]; intros Hg; [cbn; lia|]. inversion Hg as [|? ? Ho Hg']; subst.
  rewrite (IH Hg'). unfold attempt_ok in Ha. destruct (a_before a) as [rng m], (a_after a) as [rng' m'].
  destruct Ha as (_ & _ & _ & Es). rewrite decide_False in Es by done. cbn [snd]. rewrite Es. unfold wrong_guesses.
  destruct (decide (wrong_guess p a)) as [W|W]; [rewrite filter_cons_True by done|rewrite filter_cons_False by done]; cbn [length]; lia.
Qed.

Lemma stretch_shut p s l s' : stretch p s l s' -> windowFlag s.2 = false -> Forall (fun a => a_out a = WindowClosed) l.
Proof.
  induction 1 as [s Hp|s a l s' Eb Hp Ha Ht IH]; intros Hf; [constructor|]. subst s. unfold attempt_ok in Ha.
  destruct (a_before a) as [rng m], (a_after a) as [rng' m']. cbn [snd] in *. destruct Ha as (_ & _ & Hc & Es). specialize (Hc Hf).
  constructor; [done|]. apply IH. rewrite decide_False in Es by (by rewrite Hc). rewrite decide_False in Es by (by intros [_ []]).
  apply stretch_end in Ht as Hp'. inversion Ht as [? Hp''|? ? ? ? ? Hp'']; subst; cbn [snd] in *; destruct Hp'' as (_ & _ & _ & Hlt);
    unfold spent in *; rewrite Hf in Es; destruct (windowFlag m'); [specialize (Hlt eq_refl); lia|done|specialize (Hlt eq_refl); lia|done].
Qed.
End ops.
End LedgerFacts.

(** C6. Authority comes from grants only: over any sequence of grants,
    revocations, HELLO observations, PIN ceremonies and window or policy changes
    on a fresh manager, a presented token confers a role exactly when the last
    thing that happened to that device was a grant of that token at that role;
    a revoked or suspended device, a stale token and an unknown device get
    [watch]. *)
Theorem pairing_authority {R C} `{IRandom R, ICrypto C} (c : C) (rng : R) (ops : list LedgerFacts.op) (id tok : bytes) :
  Forall LedgerFacts.op_ok ops -> is_bytes tok ->
  let '(evs, (_, m)) := LedgerFacts.run c ops ([], (rng, Ledger.init)) in
  Ledger.validate c id tok m =
    match LedgerFacts.authority evs id with
    | Some (t, r) => if decide (t = tok) then r else watch
    | None => watch
    end.
Proof.
  intros Hops Htok. destruct LedgerFacts.ledger_init_wf as [Hwf He].
  pose proof (LedgerFacts.run_credential c ops [] rng Ledger.init Hwf Hops) as Hrun.
  destruct (LedgerFacts.run c ops _) as [evs [rng' m]]. destruct Hrun as [Hwf' Hc].
  { intros id'. unfold LedgerFacts.credential. by rewrite He, lookup_empty. }
  rewrite (LedgerFacts.validate_spec c id tok m Hwf' Htok), <- Hc. unfold LedgerFacts.credential, Ledger.liveRole.
  destruct (LedgerFacts.emap m !! id) as [e|]; [|done]. cbn [mbind option_bind].
  destruct (Ledger.state e =? trust_states.recognized_pending); [by destruct (decide _)|done].
Qed.

Lemma pairing_authority_witness :
  let id := [1; 2; 3; 4; 5; 6; 7; 8] in
  let rng := FixedSequenceRandom.mk [7; 9] 0 in
  let tok := [7; 9; 7; 9; 7; 9; 7; 9; 7; 9; 7; 9; 7; 9; 7; 9] in
  let '(_, (_, m)) := LedgerFacts.run tt [LedgerFacts.OGrant id configure 1] ([], (rng, Ledger.init)) in
  let '(_, (_, m')) := LedgerFacts.run tt [LedgerFacts.OGrant id configure 1; LedgerFacts.ORevoke id] ([], (rng, Ledger.init)) in
  Ledger.validate tt id tok m = configure /\ Ledger.validate tt id tok m' = watch.
Proof.
  intros id rng tok.
  pose proof (pairing_authority tt rng [LedgerFacts.OGrant id configure 1] id tok) as H1.
  pose proof (pairing_authority tt rng [LedgerFacts.OGrant id configure 1; LedgerFacts.ORevoke id] id tok) as H2.
  assert (is_bytes tok) as Hb by (apply (bool_decide_unpack (is_bytes tok)); vm_compute; exact I).
  specialize (H1 ltac:(repeat constructor) Hb). specialize (H2 ltac:(repeat constructor) Hb).
  destruct (LedgerFacts.run tt [LedgerFacts.OGrant id configure 1] ([], (rng, Ledger.init))) as [e1 [r1 m1]] eqn:E1.
  destruct (LedgerFacts.run tt [LedgerFacts.OGrant id configure 1; LedgerFacts.ORevoke id] ([], (rng, Ledger.init))) as [e2 [r2 m2]] eqn:E2.
  vm_compute in E1, E2. injection E1 as <- _ _. injection E2 as <- _ _. split; [exact H1|exact H2].
Defined.

(** C34. Three consecutive wrong PIN proofs shut the window. After the window
    opens, requests arrive in any number and order, with right and wrong proofs
    mixed and with any identities, nonces, roles and times. A wrong proof is
    never granted, and whatever is not granted draws no token and leaves the
    ledger untouched. In any stretch of the sequence without a grant at most
    three wrong proofs are examined, and once a stretch has three, every later
    request, a right one too, finds the window closed. A grant resets the
    count, so the bound is per stretch between grants and not per window. *)
Theorem pin_guess_bound {R C} `{IRandom R, ICrypto C} (c : C) (rng : R) (m : Ledger.PairingManager)
    (pin : bytes) (now : Z) (qs : list LedgerFacts.request) :
  LedgerFacts.wf m -> Forall (fun q => is_bytes (LedgerFacts.q_proof q)) qs ->
  let attempts := LedgerFacts.ceremony c qs (rng, Ledger.openWindow pin now m) in
  LedgerFacts.a_req <$> attempts = qs /\
  Forall (fun a => LedgerFacts.wrong pin (LedgerFacts.a_req a) -> LedgerFacts.a_out a <> Ledger.Granted) attempts /\
  Forall (fun a => LedgerFacts.a_out a <> Ledger.Granted ->
            (LedgerFacts.a_after a).1 = (LedgerFacts.a_before a).1 /\
            Ledger.entries (LedgerFacts.a_after a).2 = Ledger.entries (LedgerFacts.a_before a).2) attempts /\
  forall before stretch after, attempts = before ++ stretch ++ after ->
    Forall (fun a => LedgerFacts.a_out a <> Ledger.Granted) stretch ->
    (LedgerFacts.wrong_guesses pin stretch <= 3)%nat /\
    (LedgerFacts.wrong_guesses pin stretch = 3%nat -> Forall (fun a => LedgerFacts.a_out a = Ledger.WindowClosed) after).
Proof.
  intros Hwf Hq attempts. assert (LedgerFacts.pinned pin (rng, Ledger.openWindow pin now m).2) as Hp.
  { destruct Hwf as [Hl Hd Hi]. split_and!; [by split|done|cbn; lia..|cbn; lia]. }
  destruct (LedgerFacts.ceremony_stretch c pin qs _ Hp Hq) as [s' Hs]. fold attempts in Hs.
  pose proof (LedgerFacts.stretch_attempts _ _ _ _ Hs) as Ha. split_and!.
  - apply LedgerFacts.ceremony_requests.
  - eapply Forall_impl; [exact Ha|]. intros a Hok. unfold LedgerFacts.attempt_ok in Hok.
    destruct (LedgerFacts.a_before a), (LedgerFacts.a_after a). apply Hok.
  - eapply Forall_impl; [exact Ha|]. intros a Hok. unfold LedgerFacts.attempt_ok in Hok.
    destruct (LedgerFacts.a_before a), (LedgerFacts.a_after a). apply Hok.
  - intros before mid after E Hg. rewrite E in Hs. apply LedgerFacts.stretch_split in Hs as (s1 & _ & Hs).
    apply LedgerFacts.stretch_split in Hs as (s2 & Hmid & Hafter). pose proof (LedgerFacts.stretch_spent _ _ _ _ Hmid Hg) as Es.
    apply LedgerFacts.stretch_end in Hmid as Hp2. assert (LedgerFacts.pinned pin s1.2) as Hp1 by (by inversion Hmid).
    destruct Hp1 as (_ & _ & Hs1 & _), Hp2 as (_ & _ & Hs2 & Hlt). split; [lia|]. intros E3.
    apply (LedgerFacts.stretch_shut _ _ _ _ Hafter). destruct (Ledger.windowFlag s2.2) eqn:Ef; [specialize (Hlt eq_refl); lia|done].
Qed.

(** Two wrong proofs, a right one, then four wrong ones and a right one: five
    wrong proofs are examined in this window, three of them since the grant. *)
Lemma pin_guess_bound_witness :
  let pin := [0x31] in
  let id := [1; 2; 3; 4; 5; 6; 7; 8] in
  let bad := LedgerFacts.mkReq id [0] [] 5 control in
  let good := LedgerFacts.mkReq id (pairingPinProof pin []) [] 5 control in
  let attempts := LedgerFacts.ceremony tt [bad; bad; good; bad; bad; bad; bad; good]
                    (FixedSequenceRandom.mk [7; 9] 0, Ledger.openWindow pin 0 Ledger.init) in
  LedgerFacts.a_out <$> attempts =
    [Ledger.Denied; Ledger.Denied; Ledger.Granted; Ledger.Denied; Ledger.Denied; Ledger.Denied; Ledger.WindowClosed; Ledger.WindowClosed] /\
  LedgerFacts.wrong_guesses pin (take 3 (drop 3 attempts)) = 3%nat /\
  Forall (fun a => LedgerFacts.a_out a = Ledger.WindowClosed) (drop 6 attempts).
Proof.
  intros pin id bad good attempts. split; [vm_compute; reflexivity|]. split; [vm_compute; reflexivity|].
  pose proof (pin_guess_bound tt (FixedSequenceRandom.mk [7; 9] 0) Ledger.init pin 0 [bad; bad; good; bad; bad; bad; bad; good]
    (proj1 LedgerFacts.ledger_init_wf)) as H.
  destruct H as (_ & _ & _ & H).
  { apply (bool_decide_unpack (Forall (fun q => is_bytes (LedgerFacts.q_proof q)) _)). vm_compute. exact I. }
  apply (H (take 3 attempts) (take 3 (drop 3 attempts)) (drop 6 attempts)); [vm_compute; reflexivity| |vm_compute; reflexivity].
  unfold attempts. apply (bool_decide_unpack (Forall (fun a => LedgerFacts.a_out a <> Ledger.Granted) _)). vm_compute. exact I.
Defined.

(** The tripwire trips exactly on a reported version change of a device
    whose role is above the auto-keep ceiling: a known device is suspended by a
    HELLO if and only if it reports a version, one was recorded, the two differ
    up to the stored width, it is not suspended already and its role exceeds
    the ceiling. The role the session then gets is what validating its token
    gives from that moment on, and is never above the granted role. *)
Theorem tripwire_exact {C} `{ICrypto C} (c : C) (m : Ledger.PairingManager) (id k n v : bytes) (hasV : bool) (pm : Z)
    (e : Ledger.PairedEntry) :
  LedgerFacts.wf m -> LedgerFacts.emap m !! id = Some e -> BoundedString.wf kLedgerVersionMaxBytes (Ledger.version e) ->
  let '(o, m') := Ledger.observeHello id k n v hasV pm m in
  (Ledger.suspended o = true <->
     hasV = true /\ BoundedString.view (Ledger.version e) <> [] /\
     take kLedgerVersionMaxBytes v <> BoundedString.view (Ledger.version e) /\
     Ledger.state e <> trust_states.recognized_pending /\ access_u8 (Ledger.autoKeepMax m) < access_u8 (Ledger.role e)) /\
  Ledger.validate c id (Ledger.token e) m' = Ledger.effectiveRole o /\
  access_u8 (Ledger.effectiveRole o) <= access_u8 (Ledger.role e) /\
  (Ledger.suspended o = true -> Ledger.effectiveRole o = watch /\ Ledger.suspendedRole o = Ledger.role e).
Proof.
  intros Hwf He Hv. pose proof (LedgerFacts.observeHello_spec id k n v hasV pm m Hwf) as Ho.
  destruct (Ledger.observeHello id k n v hasV pm m) as [o m']. destruct Ho as (Hwf' & _ & Ho). rewrite He in Ho.
  destruct Ho as (e' & He' & Ht & Hr & Hs & ->). cbn [Ledger.suspended Ledger.effectiveRole Ledger.suspendedRole].
  destruct (LedgerFacts.wf_entry m Hwf id e He) as (_ & _ & Htb).
  pose proof (BoundedString.sameAs_iff kLedgerVersionMaxBytes ltac:(cbv; lia) (Ledger.version e) v Hv) as Hsame.
  pose proof (BoundedString.empty_iff kLedgerVersionMaxBytes ltac:(cbv; lia) (Ledger.version e) Hv) as Hempty.
  split_and!.
  - rewrite !andb_true_iff, !negb_true_iff, Z.leb_gt, Z.eqb_neq, <- !not_true_iff_false, Hsame, Hempty. intuition congruence.
  - rewrite (LedgerFacts.validate_spec c id _ m' Hwf' Htb), He', lookup_insert_eq. by rewrite decide_True.
  - unfold Ledger.liveRole. rewrite Hr. case_ifs; [by destruct (Ledger.role e)|lia].
  - intros Hsus. rewrite Hsus in Hs. unfold Ledger.liveRole. by rewrite Hs.
Qed.

Lemma tripwire_exact_witness :
  let id := [1; 2; 3; 4; 5; 6; 7; 8] in
  let m0 := (Ledger.grant id control 1 (FixedSequenceRandom.mk [7] 0) [] Ledger.init).2 in
  let m1 := (Ledger.observeHello id [] [] [0x31] true 0 m0).2 in
  Ledger.suspended (Ledger.observeHello id [] [] [0x31] true 0 m1).1 = false /\
  Ledger.suspended (Ledger.observeHello id [] [] [0x32] true 0 m1).1 = true.
Proof.
  intros id m0 m1.
  assert (LedgerFacts.wf m1) as Hwf.
  { apply LedgerFacts.observeHello_wf, LedgerFacts.grant_wf; [apply LedgerFacts.ledger_init_wf|reflexivity]. }
  pose (e := nth 0 (Ledger.entries m1) Ledger.noEntry).
  assert (LedgerFacts.emap m1 !! id = Some e) as He by (vm_compute; reflexivity).
  assert (BoundedString.wf kLedgerVersionMaxBytes (Ledger.version e)) as Hv.
  { split; [vm_compute; reflexivity|]. split; [vm_compute; discriminate|vm_compute; discriminate]. }
  pose proof (tripwire_exact tt m1 id [] [] [0x31] true 0 e Hwf He Hv) as H1.
  pose proof (tripwire_exact tt m1 id [] [] [0x32] true 0 e Hwf He Hv) as H2.
  destruct (Ledger.observeHello id [] [] [0x31] true 0 m1) as [o1 m2]. destruct H1 as [H1 _].
  destruct (Ledger.observeHello id [] [] [0x32] true 0 m1) as [o2 m3]. destruct H2 as [H2 _]. cbn [fst]. split.
  - apply not_true_is_false. intros Hs. apply H1 in Hs as (_ & _ & Hne & _). apply Hne. vm_compute. reflexivity.
  - apply H2. split; [reflexivity|]. split; [vm_compute; discriminate|]. split; [vm_compute; discriminate|].
    split; [vm_compute; discriminate|]. vm_compute. reflexivity.
Defined.

(** A knock flood is harmless: over any sequence of knocks, answers,
    expiries and session teardowns, the results and the pending list are those
    of a map from device to knock with at most [Cap] entries, in which a
    re-knock refreshes the device's own entry, a knock that would exceed the
    bound is refused without effect, expiry frees exactly the elapsed knocks and
    a teardown exactly the departed session's. *)
Theorem pending_refines (Cap : nat) (ops : list PendingFacts.op) :
  Forall PendingFacts.op_ok ops ->
  let run := foldl (fun '(outs, l) o => let '(r, l) := PendingFacts.step o l in (outs ++ [r], l)) ([], Pending.empty Cap) ops in
  let spec := foldl (fun '(outs, m) o => let '(r, m) := PendingFacts.spec_step Cap o m in (outs ++ [r], m)) ([], ∅) ops in
  (run.1, PendingFacts.kmap run.2) = spec /\ (base.size spec.2 <= Cap)%nat /\ Pending.count run.2 = base.size spec.2.
Proof.
  intros Hops. cbv zeta.
  assert (forall ops outs l, Forall PendingFacts.op_ok ops -> PendingFacts.wf Cap l ->
    let run := foldl (fun '(outs, l) o => let '(r, l) := PendingFacts.step o l in (outs ++ [r], l)) (outs, l) ops in
    PendingFacts.wf Cap run.2 /\ foldl (fun '(outs, m) o => let '(r, m) := PendingFacts.spec_step Cap o m in (outs ++ [r], m))
      (outs, PendingFacts.kmap l) ops = (run.1, PendingFacts.kmap run.2)) as Hgen.
  { clear. induction ops as [|o ops IH]; intros outs l Ho Hwf; [done|]. apply Forall_cons in Ho as [Ho Hos].
    cbn [foldl]. pose proof (PendingFacts.pending_step_refines Cap o l Hwf Ho) as H. destruct (PendingFacts.step o l) as [r l'].
    destruct H as [-> Hwf']. by apply IH. }
  destruct (PendingFacts.pending_empty_wf Cap) as [Hwf He]. destruct (Hgen ops [] _ Hops Hwf) as [Hwf' E].
  rewrite He in E. rewrite E. cbn [snd]. split; [done|]. pose proof Hwf' as [Hl Hd _]. split.
  - rewrite <- Hl at 2. by apply smap_size_le.
  - symmetry. by apply smap_size.
Qed.

Lemma pending_refines_witness :
  let id n := [n; 0; 0; 0; 0; 0; 0; 0] in
  let ops := [PendingFacts.OAdd (id 1) 10 100 1; PendingFacts.OAdd (id 2) 20 200 1; PendingFacts.OAdd (id 3) 30 300 1;
              PendingFacts.OAdd (id 1) 11 150 1; PendingFacts.ODrop 20; PendingFacts.OExpire 160] in
  (foldl (fun '(outs, l) o => let '(r, l) := PendingFacts.step o l in (outs ++ [r], l)) ([], Pending.empty 2) ops).1 =
  [inl true; inl true; inl false; inl true; inr 1%nat; inr 1%nat].
Proof.
  intros id ops. destruct (pending_refines 2 ops) as [H _]; [repeat constructor|].
  etransitivity; [exact (f_equal fst H)|vm_compute; reflexivity].
Defined.

(** Restoring two entries of one device (nothing checks for a twin) leaves the
    second one live after the device is revoked. *)
Lemma imported_twin_survives_revoke :
  let id := [1; 2; 3; 4; 5; 6; 7; 8] in
  let e := Ledger.with_used (Ledger.granted (replicate 16 7) configure 1 0 (Ledger.freshEntry id 0)) in
  let m := (Ledger.importEntry e (Ledger.importEntry e Ledger.init).2).2 in
  let '(ok, m') := Ledger.revoke id m in
  ok = true /\ Ledger.validate tt id (replicate 16 7) m' = configure.
Proof. vm_compute. split; reflexivity. Qed.
