(* ===== verification/TrustLedger.v ===== *)
(** * TrustLedger: the ledger's CBOR forms

    encodeEntry, encodeLedger and decodeLedger of session/pairing.hpp: the item
    a configure session may read (without the token) and the blob the
    application persists (with it). *)

From stdpp Require Import gmap sets.
From S2P Require Import Prelude Registry ByteIO Cbor Messages Codec Crypto Pairing.
Local Open Scope Z_scope.
Import Ledger.

Definition has (b : bstring) : bool := negb (BoundedString.empty b).

(** [n] beyond the fixed fields. *)
Definition optionalFields (e : PairedEntry) : Z :=
  b2z (has (kind e)) + b2z (has (name e)) + b2z (has (version e)) + b2z (negb (firstSeen e =? 0)) + b2z (negb (lastSeen e =? 0)).

(** The ten fields both forms write, in key order. *)
Definition writeFields (e : PairedEntry) (w : CborWriter) : CborWriter :=
  let w := bstrVal (instance_id e) (key trust_ledger.instance_id w) in
  let w := if has (kind e) then tstrVal (BoundedString.view (kind e)) (key trust_ledger.kind w) else w in
  let w := if has (name e) then tstrVal (BoundedString.view (name e)) (key trust_ledger.name w) else w in
  let w := if has (version e) then tstrVal (BoundedString.view (version e)) (key trust_ledger.version w) else w in
  let w := if negb (firstSeen e =? 0) then uintVal (firstSeen e) (key trust_ledger.first_seen w) else w in
  let w := if negb (lastSeen e =? 0) then uintVal (lastSeen e) (key trust_ledger.last_seen w) else w in
  let w := uintVal (access_u8 (role e)) (key trust_ledger.role w) in
  let w := uintVal (state e) (key trust_ledger.state w) in
  let w := uintVal (presentationMode e) (key trust_ledger.presentation_mode w) in
  uintVal (pairingMode e) (key trust_ledger.pairing_mode w).

Definition encodeEntry (e : PairedEntry) (out : bytes) : nat * bytes :=
  encoded (writeFields e (mapHeader (5 + optionalFields e) (cborWriter out))).

(** One element of the persistent form: key 11 carries the token. *)
Definition writeEntry (w : CborWriter) (e : PairedEntry) : CborWriter :=
  let w := writeFields e (mapHeader (6 + optionalFields e) w) in
  bstrVal (token e) (key 11 w).

Definition usedEntries (m : PairingManager) : list PairedEntry := filter (fun e => used e = true) (entries m).

Definition encodeLedger (m : PairingManager) (out : bytes) : nat * bytes :=
  encoded (foldl writeEntry (arrayHeader (Z.of_nat (entryCount m)) (cborWriter out)) (usedEntries m)).

Definition access_of (v : Z) : AccessLevel := if v =? 0 then watch else if v =? 1 then control else configure.

(** The [switch] over the keys of one element; the flag is [gotInstance]. *)
Definition ledgerField (k : Z) (s : PairedEntry * bool) (r : CborReader) : Result (PairedEntry * bool * CborReader) DecodeError :=
  let '(mkPaired i t ro st pm pg ki na ve fs ls us, got) := s in
  if k =? trust_ledger.instance_id then
    let? (v, r) := readBstr r in
    if negb (length v =? limits.instance_id_bytes)%nat then Err Malformed
    else Ok ((mkPaired v t ro st pm pg ki na ve fs ls us, true), r)
  else if k =? trust_ledger.kind then
    let? (v, r) := readTstr r in
    if (kLedgerKindMaxBytes <? length v)%nat then Err Malformed
    else Ok ((mkPaired i t ro st pm pg (BoundedString.assign kLedgerKindMaxBytes v ki) na ve fs ls us, got), r)
  else if k =? trust_ledger.name then
    let? (v, r) := readTstr r in
    if (kLedgerNameMaxBytes <? length v)%nat then Err Malformed
    else Ok ((mkPaired i t ro st pm pg ki (BoundedString.assign kLedgerNameMaxBytes v na) ve fs ls us, got), r)
  else if k =? trust_ledger.version then
    let? (v, r) := readTstr r in
    if (kLedgerVersionMaxBytes <? length v)%nat then Err Malformed
    else Ok ((mkPaired i t ro st pm pg ki na (BoundedString.assign kLedgerVersionMaxBytes v ve) fs ls us, got), r)
  else if k =? trust_ledger.first_seen then
    let? (v, r) := readUint r in Ok ((mkPaired i t ro st pm pg ki na ve (u32 v) ls us, got), r)
  else if k =? trust_ledger.last_seen then
    let? (v, r) := readUint r in Ok ((mkPaired i t ro st pm pg ki na ve fs (u32 v) us, got), r)
  else if k =? trust_ledger.role then
    let? (v, r) := readUint r in
    if access_u8 configure <? v then Err Malformed
    else Ok ((mkPaired i t (access_of v) st pm pg ki na ve fs ls us, got), r)
  else if k =? trust_ledger.state then
    let? (v, r) := readUint r in
    if trust_states.recognized_pending <? v then Err Malformed
    else Ok ((mkPaired i t ro (u8 v) pm pg ki na ve fs ls us, got), r)
  else if k =? trust_ledger.presentation_mode then
    let? (v, r) := readUint r in
    if 0xFF <? v then Err Malformed else Ok ((mkPaired i t ro st (u8 v) pg ki na ve fs ls us, got), r)
  else if k =? trust_ledger.pairing_mode then
    let? (v, r) := readUint r in
    if 0xFF <? v then Err Malformed else Ok ((mkPaired i t ro st pm (u8 v) ki na ve fs ls us, got), r)
  else if k =? 11 then
    let? (v, r) := readBstr r in
    if negb (length v =? limits.token_bytes)%nat then Err Malformed
    else Ok ((mkPaired i v ro st pm pg ki na ve fs ls us, got), r)
  else ignoreField (mkPaired i t ro st pm pg ki na ve fs ls us, got) r.

Definition ledgerItem (r : CborReader) : Result (PairedEntry * CborReader) DecodeError :=
  let? (e, got, r) := decodeMap ledgerField (noEntry, false) r in
  if negb got then Err Malformed else Ok (with_used e, r).

(** The staged elements, in order; every failure is [return false]. *)
Definition stageLedger (s : bytes) : Result (list PairedEntry) DecodeError :=
  let? (n, r) := readArrayHeader (cborReader s) in
  if Z.of_nat kMaxPaired <? n then Err Malformed
  else
    let? (staged, _) := forR n (fun '(staged, r) => let? (e, r) := ledgerItem r in Ok (staged ++ [e], r)) ([], r) in
    Ok staged.

Definition decodeLedger (s : bytes) (m : PairingManager) : bool * PairingManager :=
  match stageLedger s with
  | Err _ => (false, m)
  | Ok staged => (true, touch (with_entries (staged ++ replicate (kMaxPaired - length staged) noEntry) m))
  end.

(** * Theorems *)

(** ** Entries of one ledger element *)

(** With [t], the persistent form; without, the item served to readers. *)
Definition ledger_entries (t : bool) (e : PairedEntry) : list (Entry (PairedEntry * bool)) :=
  [mkEntry trust_ledger.instance_id [OpBstr (instance_id e)]
     (fun '(mkPaired i tk ro st pm pg ki na ve fs ls us, got) => (mkPaired (instance_id e) tk ro st pm pg ki na ve fs ls us, true))]
  ++ opt (has (kind e)) (mkEntry trust_ledger.kind [OpTstr (BoundedString.view (kind e))]
     (fun '(mkPaired i tk ro st pm pg ki na ve fs ls us, got) =>
        (mkPaired i tk ro st pm pg (BoundedString.assign kLedgerKindMaxBytes (BoundedString.view (kind e)) ki) na ve fs ls us, got)))
  ++ opt (has (name e)) (mkEntry trust_ledger.name [OpTstr (BoundedString.view (name e))]
     (fun '(mkPaired i tk ro st pm pg ki na ve fs ls us, got) =>
        (mkPaired i tk ro st pm pg ki (BoundedString.assign kLedgerNameMaxBytes (BoundedString.view (name e)) na) ve fs ls us, got)))
  ++ opt (has (version e)) (mkEntry trust_ledger.version [OpTstr (BoundedString.view (version e))]
     (fun '(mkPaired i tk ro st pm pg ki na ve fs ls us, got) =>
        (mkPaired i tk ro st pm pg ki na (BoundedString.assign kLedgerVersionMaxBytes (BoundedString.view (version e)) ve) fs ls us, got)))
  ++ opt (negb (firstSeen e =? 0)) (mkEntry trust_ledger.first_seen [OpUint (firstSeen e)]
     (fun '(mkPaired i tk ro st pm pg ki na ve fs ls us, got) => (mkPaired i tk ro st pm pg ki na ve (firstSeen e) ls us, got)))
  ++ opt (negb (lastSeen e =? 0)) (mkEntry trust_ledger.last_seen [OpUint (lastSeen e)]
     (fun '(mkPaired i tk ro st pm pg ki na ve fs ls us, got) => (mkPaired i tk ro st pm pg ki na ve fs (lastSeen e) us, got)))
  ++ [mkEntry trust_ledger.role [OpUint (access_u8 (role e))]
        (fun '(mkPaired i tk ro st pm pg ki na ve fs ls us, got) => (mkPaired i tk (role e) st pm pg ki na ve fs ls us, got));
      mkEntry trust_ledger.state [OpUint (state e)]
        (fun '(mkPaired i tk ro st pm pg ki na ve fs ls us, got) => (mkPaired i tk ro (state e) pm pg ki na ve fs ls us, got));
      mkEntry trust_ledger.presentation_mode [OpUint (presentationMode e)]
        (fun '(mkPaired i tk ro st pm pg ki na ve fs ls us, got) => (mkPaired i tk ro st (presentationMode e) pg ki na ve fs ls us, got));
      mkEntry trust_ledger.pairing_mode [OpUint (pairingMode e)]
        (fun '(mkPaired i tk ro st pm pg ki na ve fs ls us, got) => (mkPaired i tk ro st pm (pairingMode e) ki na ve fs ls us, got))]
  ++ opt t (mkEntry 11 [OpBstr (token e)]
     (fun '(mkPaired i tk ro st pm pg ki na ve fs ls us, got) => (mkPaired i (token e) ro st pm pg ki na ve fs ls us, got))).

(** A stored label: what assigning its text to a fresh string gives. *)
Definition label_wf (N : nat) (b : bstring) : Prop :=
  (length (BoundedString.view b) <= N)%nat /\ is_bytes (BoundedString.view b) /\
  b = BoundedString.assign N (BoundedString.view b) (BoundedString.init N).

(** The ranges of the C++ fields. *)
Record entry_wf (e : PairedEntry) : Prop := {
  ew_id : length (instance_id e) = limits.instance_id_bytes /\ is_bytes (instance_id e);
  ew_token : length (token e) = limits.token_bytes /\ is_bytes (token e);
  ew_state : 0 <= state e <= trust_states.recognized_pending;
  ew_pm : is_u8 (presentationMode e);
  ew_mode : is_u8 (pairingMode e);
  ew_kind : label_wf kLedgerKindMaxBytes (kind e);
  ew_name : label_wf kLedgerNameMaxBytes (name e);
  ew_version : label_wf kLedgerVersionMaxBytes (version e);
  ew_first : is_u32 (firstSeen e);
  ew_last : is_u32 (lastSeen e);
  ew_used : used e = true;
}.

Lemma access_of_u8 a : access_of (access_u8 a) = a.
Proof. by destruct a. Qed.

Lemma access_u8_u8 a : is_u8 (access_u8 a).
Proof. by destruct a. Qed.

#[local] Hint Resolve u16_u64 u32_u64 u8_u64 access_u8_u8 : words.

(** Run one branch of the [switch] on the value its reader returned. *)
Ltac ledger_branch :=
  let r' := fresh "r'" in let E := fresh "E" in
  intros [[] ?] ? r' E; unfold ledgerField;
  cbn [Z.eqb Pos.eqb trust_ledger.instance_id trust_ledger.kind trust_ledger.name trust_ledger.version trust_ledger.first_seen
    trust_ledger.last_seen trust_ledger.role trust_ledger.state trust_ledger.presentation_mode trust_ledger.pairing_mode];
  rewrite E; cbn [rbind].

Lemma ledger_entries_good d t e : entry_wf e -> Forall (good ledgerField d) (ledger_entries t e).
Proof.
  intros [[Hi Hib] [Ht Htb] Hs Hpm Hpg (Hk1 & Hk2 & _) (Hn1 & Hn2 & _) (Hv1 & Hv2 & _) Hfs Hls _]. unfold ledger_entries. each_entry.
  - apply good_binary; [done|done|rewrite Hi; cbv; lia|]. ledger_branch. by rewrite Hi.
  - apply good_text; [done|done|unfold kLedgerKindMaxBytes, limits.trust_ledger_kind_max_bytes in *; lia|]. ledger_branch.
    destruct (Nat.ltb_spec kLedgerKindMaxBytes (length (BoundedString.view (kind e)))); [lia|done].
  - apply good_text; [done|done|unfold kLedgerNameMaxBytes, limits.trust_ledger_name_max_bytes in *; lia|]. ledger_branch.
    destruct (Nat.ltb_spec kLedgerNameMaxBytes (length (BoundedString.view (name e)))); [lia|done].
  - apply good_text; [done|done|unfold kLedgerVersionMaxBytes, limits.client_ver_max_bytes in *; lia|]. ledger_branch.
    destruct (Nat.ltb_spec kLedgerVersionMaxBytes (length (BoundedString.view (version e)))); [lia|done].
  - apply good_number; [done|auto with words|]. ledger_branch. by rewrite u32_id.
  - apply good_number; [done|auto with words|]. ledger_branch. by rewrite u32_id.
  - apply good_number; [done|auto with words|]. ledger_branch. rewrite access_of_u8.
    destruct (Z.ltb_spec (access_u8 configure) (access_u8 (role e))) as [Hlt|]; [destruct (role e); cbn in Hlt; lia|done].
  - unfold trust_states.recognized_pending in Hs. apply good_number; [done|unfold is_u64; lia|]. ledger_branch.
    destruct (Z.ltb_spec trust_states.recognized_pending (state e)) as [Hlt|]; [unfold trust_states.recognized_pending in Hlt; lia|].
    rewrite u8_id; [done|]. unfold is_u8. lia.
  - apply good_number; [done|auto with words|]. ledger_branch.
    destruct (Z.ltb_spec 0xFF (presentationMode e)); [unfold is_u8 in Hpm; lia|]. by rewrite u8_id.
  - apply good_number; [done|auto with words|]. ledger_branch.
    destruct (Z.ltb_spec 0xFF (pairingMode e)); [unfold is_u8 in Hpg; lia|]. by rewrite u8_id.
  - apply good_binary; [done|done|rewrite Ht; cbv; lia|]. ledger_branch. by rewrite Ht.
Qed.

Lemma ledger_entries_shape t e :
  is_u32 (Z.of_nat (length (ledger_entries t e))) /\ ascending None (e_key <$> ledger_entries t e) /\
  Z.of_nat (length (ledger_entries t e)) = (if t then 6 else 5) + optionalFields e.
Proof.
  unfold ledger_entries, optionalFields.
  destruct (has (kind e)), (has (name e)), (has (version e)), (firstSeen e =? 0), (lastSeen e =? 0), t; cbn; done || lia.
Qed.

(** What a reader of the element sees: the entry, with the token or with none. *)
Definition shown (t : bool) (e : PairedEntry) : PairedEntry :=
  mkPaired (instance_id e) (if t then token e else token noEntry) (role e) (state e) (presentationMode e) (pairingMode e)
    (kind e) (name e) (version e) (firstSeen e) (lastSeen e) true.

Lemma label_default N b : (N < 256)%nat -> label_wf N b -> has b = false -> b = BoundedString.init N.
Proof.
  intros HN (_ & _ & E) Hh. assert (BoundedString.view b = []) as Hv.
  { unfold has in Hh. apply negb_false_iff, Z.eqb_eq in Hh. unfold BoundedString.view. by rewrite Hh. }
  rewrite E, Hv. unfold BoundedString.assign, BoundedString.init. cbn. destruct N; [done|]. cbn. done.
Qed.

Lemma ledger_effects t e : entry_wf e ->
  effects (ledger_entries t e) (noEntry, false) =
    (mkPaired (instance_id e) (if t then token e else token noEntry) (role e) (state e) (presentationMode e) (pairingMode e)
       (kind e) (name e) (version e) (firstSeen e) (lastSeen e) false, true).
Proof.
  intros [_ _ _ _ _ Hk Hn Hv _ _ _].
  pose proof (label_default kLedgerKindMaxBytes _ ltac:(cbv; lia) Hk) as Dk. pose proof (label_default kLedgerNameMaxBytes _ ltac:(cbv; lia) Hn) as Dn.
  pose proof (label_default kLedgerVersionMaxBytes _ ltac:(cbv; lia) Hv) as Dv.
  destruct Hk as (_ & _ & Ek), Hn as (_ & _ & En), Hv as (_ & _ & Ev).
  unfold ledger_entries, effects. rewrite !foldl_app. unfold noEntry at 1. cbn [foldl e_eff].
  assert (forall (b : bool) (x : Entry (PairedEntry * bool)) s, foldl (fun m e => e_eff e m) s (opt b x) = if b then e_eff x s else s) as Hopt
    by (by intros []).
  rewrite !Hopt. cbn [e_eff].
  destruct (has (kind e)); [rewrite <- Ek|rewrite <- Dk by done];
  (destruct (has (name e)); [rewrite <- En|rewrite <- Dn by done]);
  (destruct (has (version e)); [rewrite <- Ev|rewrite <- Dv by done]);
  (destruct (Z.eqb_spec (firstSeen e) 0) as [Ef|]; destruct (Z.eqb_spec (lastSeen e) 0) as [El|]); cbn [negb foldl e_eff];
  rewrite ?Ef, ?El; by destruct t.
Qed.

(** ** The encoders as sequences of writer calls *)

Lemma writeFields_run e w : writeFields e w = run (concat (entry_ops <$> ledger_entries false e)) w.
Proof.
  unfold writeFields, ledger_entries. rewrite !fmap_app, !concat_app, !run_app, !run_opt.
  cbn [fmap list_fmap concat app entry_ops e_ops e_key]. unfold run. cbn [foldl exec]. by rewrite ?app_nil_r.
Qed.

Definition element_ops (e : PairedEntry) : list op := map_ops (ledger_entries true e).

Lemma writeEntry_run w e : writeEntry w e = run (element_ops e) w.
Proof.
  unfold element_ops, map_ops. destruct (ledger_entries_shape true e) as (_ & _ & ->). rewrite run_cons. cbn [exec].
  unfold writeEntry. rewrite writeFields_run.
  assert (concat (entry_ops <$> ledger_entries true e) =
    concat (entry_ops <$> ledger_entries false e) ++ [OpKey 11; OpBstr (token e)]) as ->.
  { unfold ledger_entries. cbn [opt]. rewrite !fmap_app, !concat_app, <- !app_assoc. done. }
  by rewrite run_app.
Qed.

Lemma encodeEntry_run e out : encodeEntry e out = encoded (run (map_ops (ledger_entries false e)) (cborWriter out)).
Proof.
  unfold encodeEntry, map_ops. destruct (ledger_entries_shape false e) as (_ & _ & ->).
  rewrite run_cons. cbn [exec]. by rewrite writeFields_run.
Qed.

Lemma encodeLedger_run m out :
  encodeLedger m out = encoded (run (array_ops element_ops (usedEntries m)) (cborWriter out)).
Proof.
  unfold encodeLedger, array_ops, entryCount, usedEntries. rewrite run_cons. cbn [exec]. f_equal.
  generalize (arrayHeader (Z.of_nat (length (filter (fun e => used e = true) (entries m)))) (cborWriter out)).
  induction (filter (fun e => used e = true) (entries m)) as [|e es IH]; intros w; [done|].
  cbn [foldl fmap list_fmap concat]. by rewrite IH, run_app, writeEntry_run.
Qed.

Lemma element_good e : entry_wf e ->
  good (fun _ => decodeMap ledgerField) 1 (mkEntry 0 (element_ops e) (effects (ledger_entries true e))).
Proof.
  intros Hwf. destruct (ledger_entries_shape true e) as (Hn & Hasc & _). pose proof (ledger_entries_good 2 true e Hwf) as Hg.
  apply (good_map _ 1 0 (ledger_entries true e) ledgerField); try done; [unfold kMaxDepth; lia|].
  apply decodeMap_reads; [unfold kMaxDepth; lia|done| |done]. eapply Forall_impl; [exact Hg|]. by intros x [].
Qed.

Lemma element_item e : entry_wf e -> item_ok ledgerItem element_ops id 1 e.
Proof.
  intros Hwf r rest Hb Hd Ha. destruct (element_good e Hwf) as [_ Hr _ _ _]. unfold ledgerItem.
  rewrite (Hr (noEntry, false) r rest Hb Hd Ha). cbn [e_eff]. rewrite ledger_effects by done. cbn [rbind negb].
  destruct e. pose proof (ew_used _ Hwf) as Hu. cbn in Hu. by subst.
Qed.

Lemma used_entries_wf m : Forall (fun e => used e = true -> entry_wf e) (entries m) -> Forall entry_wf (usedEntries m).
Proof.
  intros H. unfold usedEntries. apply Forall_forall. intros e [Hu Hin]%list_elem_of_filter.
  rewrite Forall_forall in H. by apply H.
Qed.

Definition ledger_bytes (m : PairingManager) : bytes := ops_bytes (array_ops element_ops (usedEntries m)).

Lemma ledger_calls m : length (entries m) = kMaxPaired -> Forall entry_wf (usedEntries m) ->
  Forall op_wf (array_ops element_ops (usedEntries m)) /\ closes 0 (array_ops element_ops (usedEntries m)) /\
  is_bytes (ledger_bytes m) /\ (length (usedEntries m) <= kMaxPaired)%nat.
Proof.
  intros Hl Hwf. assert (length (usedEntries m) <= kMaxPaired)%nat as Hc by (unfold usedEntries; rewrite <- Hl; apply length_filter).
  assert (is_u32 (Z.of_nat (length (usedEntries m)))) as Hn by (unfold is_u32; unfold kMaxPaired, limits.paired_devices_max in Hc; lia).
  split_and!; [| | |done].
  - constructor; [done|]. clear Hc Hn. induction Hwf as [|e es He _ IH]; [constructor|]. cbn [fmap list_fmap concat].
    apply Forall_app. split; [|done]. apply (g_wf _ _ _ (element_good e He)).
  - apply array_closes; [unfold kMaxDepth; lia|]. eapply Forall_impl; [exact Hwf|]. intros e He. apply (g_closes _ _ _ (element_good e He)).
  - assert (ledger_bytes m = head_bytes 4 (Z.of_nat (length (usedEntries m))) ++ ops_bytes (concat (element_ops <$> usedEntries m))) as -> by done.
    apply Forall_app. split; [apply is_bytes_head; unfold is_u32 in Hn; lia|]. rewrite items_bytes. clear Hc Hn. induction Hwf as [|e es He _ IH]; [constructor|]. cbn [fmap list_fmap concat].
    apply Forall_app. split; [|done]. apply (g_bytes _ _ _ (element_good e He)).
Qed.

Lemma stage_ledger m : length (entries m) = kMaxPaired -> Forall entry_wf (usedEntries m) ->
  stageLedger (ledger_bytes m) = Ok (usedEntries m).
Proof.
  intros Hl Hwf. destruct (ledger_calls m Hl Hwf) as (_ & _ & Hb & Hc). unfold stageLedger, readArrayHeader.
  set (r := cborReader (ledger_bytes m)). set (n := Z.of_nat (length (usedEntries m))).
  assert (is_u32 n) as Hn by (unfold is_u32, n; unfold kMaxPaired, limits.paired_devices_max in Hc; lia).
  assert (ahead r = head_bytes 4 n ++ ops_bytes (concat (element_ops <$> usedEntries m)) ++ []) as Ha by (by rewrite app_nil_r).
  assert (length (r_stack r) < kMaxDepth)%nat as Hd by (cbn; unfold kMaxDepth; lia).
  rewrite (proj2 (enter_iff 4 false r _ _ Hb ltac:(lia)) (conj Hn (conj Hd (conj (ex_intro _ _ Ha) eq_refl)))). cbn [rbind].
  destruct (Z.ltb_spec (Z.of_nat kMaxPaired) n); [unfold n in *; lia|]. subst n.
  destruct (decide (length (usedEntries m) = 0%nat)) as [E|E].
  { apply length_zero_iff_nil in E. by rewrite E. }
  assert (usedEntries m <> []) as Hne by (intros E'; by rewrite E' in E).
  rewrite (items_loop ledgerItem element_ops id 1 (usedEntries m) [] [] false 0 _ []); try done.
  - cbn [rbind app]. by rewrite list_fmap_id.
  - eapply Forall_impl; [exact Hwf|]. apply element_item.
  - cbn [advance r_stack]. rewrite open_nonempty by lia. done.
  - by eapply advance_ahead.
Qed.

(** C29. The persisted ledger round-trips: into a buffer that is large enough,
    [encodeLedger] writes a blob from which [decodeLedger] restores exactly the
    used entries of the ledger, tokens and suspensions included, in order and
    compacted; a blob that does not decode leaves the manager as it was. The
    item served to readers decodes to the same entry without the token. *)
Theorem ledger_roundtrip (m m0 : PairingManager) (out : bytes) :
  length (entries m) = kMaxPaired -> Forall (fun e => used e = true -> entry_wf e) (entries m) ->
  (length (ledger_bytes m) <= length out)%nat ->
  (let '(n, out') := encodeLedger m out in
   n = length (ledger_bytes m) /\
   decodeLedger (take n out') m0 =
     (true, touch (with_entries (usedEntries m ++ replicate (kMaxPaired - length (usedEntries m)) noEntry) m0))) /\
  (forall s, (decodeLedger s m0).1 = false -> (decodeLedger s m0).2 = m0) /\
  (forall e buf, e ∈ usedEntries m -> (length (map_bytes (ledger_entries false e)) <= length buf)%nat ->
   let '(n, buf') := encodeEntry e buf in
   exists r, ledgerItem (cborReader (take n buf')) = Ok (shown false e, r)).
Proof.
  intros Hl He Hfit. pose proof (used_entries_wf m He) as Hwf. destruct (ledger_calls m Hl Hwf) as (Hops & Hcl & Hb & Hc).
  split_and!.
  - rewrite encodeLedger_run, closed_run by done. split; [done|]. fold (ledger_bytes m).
    rewrite write_at_0, take_app_length. unfold decodeLedger. by rewrite stage_ledger.
  - intros s. unfold decodeLedger. by destruct (stageLedger s).
  - intros e buf Hin Hbuf. rewrite encodeEntry_run. destruct (ledger_entries_shape false e) as (Hn & Hasc & _).
    assert (entry_wf e) as Hew by (rewrite Forall_forall in Hwf; by apply Hwf).
    assert (Forall (good ledgerField 1) (ledger_entries false e)) as Hg by (by apply ledger_entries_good).
    pose proof (message_roundtrip ledgerField (ledger_entries false e) (noEntry, false) buf Hn Hg Hasc Hbuf) as H.
    destruct (encoded _) as [n buf']. destruct H as (_ & -> & r & E). exists r. unfold ledgerItem. rewrite E.
    by rewrite ledger_effects.
Qed.

Lemma ledger_roundtrip_witness :
  let id := [1; 2; 3; 4; 5; 6; 7; 8] in
  let e := granted (replicate 16 7) control 1 0 (freshEntry id 0) in
  let m := with_entries (noEntry :: e :: replicate 6 noEntry) init in
  let '(n, out) := encodeLedger m (replicate 64 0) in
  n = 38%nat /\ (decodeLedger (take n out) init).1 = true /\
  Ledger.validate tt id (replicate 16 7) (decodeLedger (take n out) init).2 = control.
Proof.
  intros id e m.
  assert (entry_wf e) as He.
  { split; try done; try (split; [reflexivity|]; apply (bool_decide_unpack _); vm_compute; exact I).
    all: split; [vm_compute; lia|]; split; [constructor|reflexivity]. }
  destruct (ledger_roundtrip m init (replicate 64 0)) as (H & _ & _).
  - reflexivity.
  - constructor; [discriminate|]. constructor; [intros _; exact He|]. apply Forall_replicate. discriminate.
  - vm_compute. lia.
  - destruct (encodeLedger m (replicate 64 0)) as [n out] eqn:E. destruct H as [Hn ->]. cbn [fst snd].
    split; [etransitivity; [exact Hn|vm_compute; reflexivity]|]. split; [reflexivity|vm_compute; reflexivity].
Defined.
