(* ===== verification/Session.v ===== *)
(** * Session: the records the hub and the client keep per session

    session/session.hpp. The containers have the capacities of their template
    defaults; [reset] reconstructs the record in place. *)

From S2P Require Import Prelude Registry Float ByteIO Channel Codec.
Local Open Scope Z_scope.

Inductive ClientSessionState : Set := CLOSED | CONNECTING | HELLO_SENT | SYNCING | LIVE.

Module HubSessionState.
Inductive t : Set := FREE | VALIDATING | GRANTED | LIVE | STALE | CLOSED.

#[global] Instance eq_dec : EqDecision t.
Proof. solve_decision. Defined.
End HubSessionState.

Record ClientIdentity := mkIdentity {
  ci_instance_id : bytes; ci_token : bytes; ci_hasToken : bool; ci_client_kind : bytes; ci_client_name : bytes }.

(** ** Granted publishes *)

Module PublishGrant.
Record t := mk {
  used : bool; channel_id : Z; granted_rate_hz : Float32.t; granted_burst : Float32.t; burstRequested : bool;
  limiter : IngressRateLimiter.limiter; everNackedOverage : bool; lastOverageNackMs : Z; curveFamily : Z }.

Definition none : t :=
  mk false 0 Float32.zero Float32.zero false
    (IngressRateLimiter.make limits.intent_ingress_default_per_s 0 Float32.zero) false 0 0.
End PublishGrant.

Definition kMaxPublishGrants : nat := 8.

(** ** The hub's session *)

Module HubSession.
Record t := mk {
  state : HubSessionState.t; session_id : Z; instance_id : bytes; role : AccessLevel; helloSeenCfgGen : Z;
  clientEtagMatched : bool; clientKind : BoundedString.t; clientName : BoundedString.t; clientVer : BoundedString.t;
  hasClientVer : bool; presentationMode : Z; ready : bool; readyEtagMismatch : bool; grantedAtMs : Z;
  subs : Subscription.table; intentRing : IntentRing.ring; intentLimiter : IngressRateLimiter.limiter;
  events : EventQueue.queue; publishGrants : list PublishGrant.t; streamBundlesAccepted : Z; streamBundlesDropped : Z;
  lastRxMs : Z; deadmanMs : Z; lastTxMs : Z; retainedPending : Z; staleSinceMs : Z }.

Definition kRingDepth : nat := limits.idempotency_ring_depth.
Definition kRingSlot : nat := 96.
Definition kEventDepth : nat := limits.event_queue_depth_per_subscriber.
Definition kEventSlot : nat := 192.

Definition init : t :=
  mk HubSessionState.FREE 0 (replicate limits.instance_id_bytes 0) watch 0 false
    (BoundedString.init limits.trust_ledger_kind_max_bytes) (BoundedString.init limits.trust_ledger_name_max_bytes)
    (BoundedString.init limits.client_ver_max_bytes) false 0 false false 0
    [] (IntentRing.empty kRingDepth kRingSlot) (IngressRateLimiter.make limits.intent_ingress_default_per_s 0 Float32.zero)
    (EventQueue.empty kEventDepth kEventSlot) (replicate kMaxPublishGrants PublishGrant.none) 0 0
    0 limits.deadman_default_ms 0 0 0.

Definition publishGrantFor (ch : Z) (s : t) : option nat :=
  find_index (fun pg => PublishGrant.used pg && (PublishGrant.channel_id pg =? ch)) (publishGrants s).

Definition addPublishGrant (ch : Z) (granted_rate_hz : Float32.t) (nowMs : Z) (granted_burst : Float32.t)
    (burstRequested : bool) (curveFamily : Z) (s : t) : bool * t :=
  let ratePerSec :=
    Float32.to_u32 (if Float32.lt granted_rate_hz (Float32.of_Z 1) then Float32.of_Z 1 else granted_rate_hz) in
  let capacity := if Float32.lt Float32.zero granted_burst then granted_burst else Float32.of_Z ratePerSec in
  match
    match publishGrantFor ch s with
    | Some i => Some i
    | None => find_index (fun pg => negb (PublishGrant.used pg)) (publishGrants s)
    end
  with
  | None => (false, s)
  | Some i =>
      let pg :=
        PublishGrant.mk true ch granted_rate_hz capacity burstRequested
          (IngressRateLimiter.make ratePerSec nowMs capacity) false 0 curveFamily in
      (true, s{{publishGrants := <[i := pg]> (publishGrants s)}})
  end.

Definition reset (s : t) : t := init.

Definition occupied (s : t) : bool :=
  match state s with HubSessionState.FREE | HubSessionState.CLOSED => false | _ => true end.
End HubSession.
