(* ===== verification/Builtin.v ===== *)
(** * Builtin: the channels the library itself defines

    channel/log_channel.hpp (the log channel and its replay ring),
    channel/safety_events_channel.hpp and channel/trust_channels.hpp: the keys of
    their bodies, the sizes of their payloads, and the catalog entries, built
    through the authoring interface of [Catalog]. Text is the list of its bytes. *)

From Stdlib Require Import String.
From S2P Require Import Prelude Registry Float Codec Catalog.
Local Open Scope Z_scope.

(** The bytes of a string literal. *)
Definition text (s : string) : bytes := Z.of_N <$> (Ascii.N_of_ascii <$> list_ascii_of_string s).
Arguments text s%_string.

Module log_body.
Definition level : Z := 1.
Definition tag : Z := 2.
Definition hub_ms : Z := 3.
Definition message : Z := 4.
End log_body.

Definition kLogTagMaxBytes : nat := 16.
Definition kLogMessageMaxBytes : nat := 128.

Module safety_body.
Definition word : Z := 1.
Definition cause : Z := 2.
Definition owner_session : Z := 3.
Definition estop_seq : Z := 4.
Definition level : Z := 5.
End safety_body.

Module admin_value.
Definition op : Z := 1.
Definition session_id : Z := 2.
Definition instance_id : Z := 3.
Definition role : Z := 4.
End admin_value.

Module pairing_body.
Definition instance_id : Z := 1.
Definition name : Z := 2.
Definition mode : Z := 3.
Definition role : Z := 4.
Definition version : Z := 5.
End pairing_body.

Module pending_pairing_flags.
Definition window_open : Z := 1.
End pending_pairing_flags.

Definition kPendingSlots : nat := limits.pairing_pending_max.
Definition kPendingSlotBytes : nat := 4 + 4 + 1 + 2 + 16.
Definition kPendingPayloadBytes : nat := 4 + kPendingSlots * kPendingSlotBytes.
Definition kPairedRosterBytes : nat := 4.

(** ** EventReplayRing *)

Module EventReplayRing.
Record Slot := mkSlot { s_bytes : bytes; s_size : Z }.
Record ring := mkRing { slots : list Slot; head : nat; tail : nat; count : nat; dropped : Z }.

Section EventReplayRing.
Variables Depth SlotCapacity : nat.

Definition emptySlot : Slot := mkSlot (replicate SlotCapacity 0) 0.
Definition empty : ring := mkRing (replicate Depth emptySlot) 0 0 0 0.

Definition push (bs : bytes) (r : ring) : bool * ring :=
  if (SlotCapacity <? length bs)%nat then (false, r)
  else
    let '(tl, cnt, dr) :=
      if (count r =? Depth)%nat then (((tail r + 1) mod Depth)%nat, (count r - 1)%nat, u32 (dropped r + 1))
      else (tail r, count r, dropped r) in
    let s := nth (head r) (slots r) emptySlot in
    let s := mkSlot (write_at 0 bs (s_bytes s)) (u16 (Z.of_nat (length bs))) in
    (true, mkRing (<[head r := s]> (slots r)) ((head r + 1) mod Depth)%nat tl (cnt + 1)%nat dr).

(** The arguments of the callback, oldest of the newest [want] first. *)
Definition forEachNewest (want : nat) (r : ring) : list bytes :=
  let n := if (want <? count r)%nat then want else count r in
  let start := ((tail r + (count r - n)) mod Depth)%nat in
  (fun i => let s := nth ((start + i) mod Depth)%nat (slots r) emptySlot in take (Z.to_nat (s_size s)) (s_bytes s)) <$> seq 0 n.
End EventReplayRing.
End EventReplayRing.

Definition kLogRingDepth : nat := Z.to_nat limits.log_replay_depth_default.
Definition kLogRingSlot : nat := 192.

(** ** Catalog entries *)

(** [Catalog32] *)
Definition c32_addEntry := addEntry 48.
Definition c32_addLayoutField := addLayoutField 200.
Definition c32_addBitfieldField := addBitfieldField 200 192.
Definition c32_addSchemaField := addSchemaField 160.
Definition c32_addSelectSchemaField := addSelectSchemaField 160 192.
Definition c32_addStoreDescriptor := addStoreDescriptor 4.

(** The adders are called for their effect; [ok] is asked at the end. *)
Definition layoutFields_of (fs : list LayoutField.t) (c : BasicCatalog) : BasicCatalog :=
  foldl (fun c f => snd (c32_addLayoutField f c)) c fs.
Definition schemaFields_of (fs : list SchemaField.t) (c : BasicCatalog) : BasicCatalog :=
  foldl (fun c f => snd (c32_addSchemaField f c)) c fs.

Definition schemaField (key : Z) (name : bytes) (type : CborFieldType.t) (unit : bytes) : SchemaField.t :=
  SchemaField.init{{SchemaField.key := key; SchemaField.name := name; SchemaField.type := type; SchemaField.unit := unit}}.

Definition layoutField (name : bytes) (type : PackedFieldType.t) (unit : bytes) : LayoutField.t :=
  LayoutField.init{{LayoutField.name := name; LayoutField.type := type; LayoutField.unit := unit; LayoutField.scale := 0x3F800000}}.

(** Open the entry, add its fields, and tell whether the catalog is still good. *)
Definition opened (header : CatalogEntry.t) (fields : BasicCatalog -> BasicCatalog) (cat : BasicCatalog) : bool * BasicCatalog :=
  match c32_addEntry header cat with
  | (None, cat) => (false, cat)
  | (Some _, cat) => let cat := fields cat in (negb (overflow cat), cat)
  end.

Definition builtin (id : Z) (name : bytes) (cls : ChannelClass) (dir : Direction) (access : AccessLevel) (rate : Z)
    (prio : Priority) : CatalogEntry.t :=
  CatalogEntry.init{{CatalogEntry.id := id; CatalogEntry.name := name; CatalogEntry.cls := cls; CatalogEntry.dir := dir;
    CatalogEntry.access := access; CatalogEntry.maxRateHz := rate; CatalogEntry.defaultPriority := prio}}.

Definition addLogChannel (replayDepth : Z) : BasicCatalog -> bool * BasicCatalog :=
  opened
    ((builtin channels.log (text "log") EVENT h2c watch 0 background){{CatalogEntry.hasReplayDepth := 0 <? replayDepth;
       CatalogEntry.replayDepth := replayDepth}})
    (schemaFields_of
       [schemaField log_body.level (text "level") CborFieldType.uint_t [];
        schemaField log_body.tag (text "tag") CborFieldType.tstr_t [];
        schemaField log_body.hub_ms (text "hub_ms") CborFieldType.uint_t (text "ms");
        schemaField log_body.message (text "message") CborFieldType.tstr_t []]).

Definition addSafetyEventsChannel : BasicCatalog -> bool * BasicCatalog :=
  opened (builtin channels.safety_events (text "safety-events") EVENT h2c watch 0 critical)
    (schemaFields_of
       [schemaField safety_body.word (text "word") CborFieldType.uint_t (text "flag");
        schemaField safety_body.cause (text "cause") CborFieldType.uint_t [];
        schemaField safety_body.owner_session (text "owner_session") CborFieldType.uint_t [];
        schemaField safety_body.estop_seq (text "estop_seq") CborFieldType.uint_t (text "count");
        schemaField safety_body.level (text "level") CborFieldType.uint_t (text "flag")]).

Definition addSessionAdminChannel (maxRateHz : Z) : BasicCatalog -> bool * BasicCatalog :=
  opened (builtin channels.session_admin (text "session-admin") INTENT c2h configure maxRateHz normal)
    (fun cat =>
       let cat := snd (c32_addSelectSchemaField (schemaField admin_value.op (text "op") CborFieldType.uint_t [])
                         [text "reserved"; text "evict"; text "pair_approve"; text "pair_deny"; text "revoke"]
                         [configure; configure; configure; configure; configure] cat) in
       let cat := schemaFields_of
                    [schemaField admin_value.session_id (text "session_id") CborFieldType.uint_t [];
                     schemaField admin_value.instance_id (text "instance_id") CborFieldType.bstr_t []] cat in
       schemaFields_of
         [(schemaField admin_value.role (text "role") CborFieldType.uint_t []){{SchemaField.hasMin := true;
            SchemaField.hasMax := true; SchemaField.min := Float32.to_bits (Float32.of_Z (access_u8 watch));
            SchemaField.max := Float32.to_bits (Float32.of_Z (access_u8 configure))}}] cat).

Definition digit (s : string) (i : nat) : bytes := text s ++ [48 + Z.of_nat i].

Definition pendingSlotFields (i : nat) : list LayoutField.t :=
  [layoutField (digit "inst_lo" i) PackedFieldType.u32 []; layoutField (digit "inst_hi" i) PackedFieldType.u32 [];
   layoutField (digit "kind" i) PackedFieldType.u8 (text "flag"); layoutField (digit "expires_s" i) PackedFieldType.u16 (text "s");
   layoutField (digit "name" i) PackedFieldType.str16 []].

Definition addPendingPairingChannel : BasicCatalog -> bool * BasicCatalog :=
  opened (builtin channels.pending_pairing (text "pending-pairing") STATE h2c configure 0 normal)
    (fun cat =>
       let cat := layoutFields_of [layoutField (text "generation") PackedFieldType.u16 (text "count");
                                   layoutField (text "count") PackedFieldType.u8 (text "count")] cat in
       let cat := snd (c32_addBitfieldField (layoutField (text "flags") PackedFieldType.bitfield8 (text "flag"))
                         [text "window_open"] cat) in
       layoutFields_of (concat (pendingSlotFields <$> seq 0 kPendingSlots)) cat).

Definition addPairingEventsChannel : BasicCatalog -> bool * BasicCatalog :=
  opened (builtin channels.pairing_events (text "pairing-events") EVENT h2c watch 0 normal)
    (schemaFields_of
       [schemaField pairing_body.instance_id (text "instance_id") CborFieldType.bstr_t [];
        schemaField pairing_body.name (text "name") CborFieldType.tstr_t [];
        schemaField pairing_body.mode (text "mode") CborFieldType.uint_t (text "flag");
        schemaField pairing_body.role (text "role") CborFieldType.uint_t [];
        schemaField pairing_body.version (text "version") CborFieldType.tstr_t []]).

Definition addPairedDevicesStore (storeId : Z) : BasicCatalog -> bool * BasicCatalog :=
  opened (builtin channels.paired_devices (text "paired-devices") STORE h2c configure 0 background)
    (fun cat => snd (c32_addStoreDescriptor
       (StoreDescriptor.mk storeId (text "trust.ledger") (u16 (Z.of_nat limits.paired_devices_max))
          (u32 (limits.trust_ledger_max_bytes / Z.of_nat limits.paired_devices_max))
          (u16 (Z.of_nat limits.trust_ledger_name_max_bytes))) cat)).

Definition addPairedDevicesRoster : BasicCatalog -> bool * BasicCatalog :=
  opened (builtin channels.paired_devices_roster (text "paired-devices-roster") STATE h2c configure 0 background)
    (layoutFields_of
       [layoutField (text "generation") PackedFieldType.u16 (text "count");
        layoutField (text "count") PackedFieldType.u8 (text "count");
        layoutField (text "capacity") PackedFieldType.u8 (text "count")]).

(** 5.0f *)
Definition kAdminRate : Z := 0x40A00000.

Definition addTrustChannels (storeId : Z) (cat : BasicCatalog) : bool * BasicCatalog :=
  match addSessionAdminChannel kAdminRate cat with
  | (false, cat) => (false, cat)
  | (true, cat) =>
      match addPendingPairingChannel cat with
      | (false, cat) => (false, cat)
      | (true, cat) =>
          match addPairingEventsChannel cat with
          | (false, cat) => (false, cat)
          | (true, cat) =>
              match addPairedDevicesStore storeId cat with
              | (false, cat) => (false, cat)
              | (true, cat) => addPairedDevicesRoster cat
              end
          end
      end
  end.
