(* ===== verification/CatalogCodec.v ===== *)
(** * CatalogCodec: the catalog on the wire

    wire/catalog_codec.hpp and wire/catalog_etag.hpp: a catalog as a CBOR array of
    entry maps. Every entry has a writer, and a reader, of its own over its part of
    the buffer, so that each has the full nesting depth. Encoding takes what a
    catalog says from its pools; decoding pushes fields and labels straight into the
    pools of the catalog it fills. The keys of a schema map are sorted by the
    encoder ([std::sort]: the order of equal keys is immaterial, since the writer
    refuses a repeated key). A decoder that fails leaves a catalog that no caller
    may read: an error carries none here. *)

From stdpp Require Import sorting.
From S2P Require Import Prelude Registry Float ByteIO Cbor Messages Codec Catalog Crypto.
Local Open Scope Z_scope.

(** ** Encoding *)

Definition encodeSettingDefault (d : SettingDefault) (w : CborWriter) : CborWriter :=
  match d with
  | DInt i => intVal i w | DFloat f => f32Val f w | DBool b => boolVal b w | DTstr s => tstrVal s w | DNone => w
  end.

Definition nonEmpty (s : bytes) : bool := negb (bool_decide (s = [])).

(** The named bits with their numbers. *)
Definition namedBits (bits : list bytes) : list (Z * bytes) :=
  filter (fun p => nonEmpty p.2 = true) (imap (fun i s => (Z.of_nat i, s)) bits).

Definition nBits (bits : list bytes) : Z := Z.of_nat (length (filter (fun s => nonEmpty s = true) bits)).

Definition some {A} (l : list A) : bool := negb (length l =? 0)%nat.

Definition layoutKeyCount (f : LayoutField.t) (bits options : list bytes) : Z :=
  4 + b2z (LayoutField.hasMin f) + b2z (LayoutField.hasMax f) + b2z (0 <? nBits bits) + b2z (LayoutField.hasSettingKey f)
  + b2z (SettingDefault.has (LayoutField.dflt f)) + b2z (some options) + b2z (nonEmpty (LayoutField.group f))
  + b2z (nonEmpty (LayoutField.desc f)) + b2z (nonEmpty (LayoutField.role f)) + b2z (LayoutField.hasStep f)
  + b2z (negb (LayoutField.flags f =? 0)) + b2z (LayoutField.hasRank f) + b2z (LayoutField.hasAspect f)
  + b2z (LayoutField.hasScope f) + b2z (LayoutField.hasProvenance f) + b2z (LayoutField.hasUnitId f).

Definition encodeLayoutField (f : LayoutField.t) (bits options : list bytes) (w : CborWriter) : CborWriter :=
  let w := mapHeader (layoutKeyCount f bits options) w in
  let w := tstrVal (LayoutField.name f) (key 1 w) in
  let w := uintVal (PackedFieldType.to_u8 (LayoutField.type f)) (key 2 w) in
  let w := tstrVal (LayoutField.unit f) (key 3 w) in
  let w := f32Val (LayoutField.scale f) (key 4 w) in
  let w := if LayoutField.hasMin f then f32Val (LayoutField.min f) (key 5 w) else w in
  let w := if LayoutField.hasMax f then f32Val (LayoutField.max f) (key 6 w) else w in
  let w := if 0 <? nBits bits
           then foldl (fun w p => tstrVal p.2 (key p.1 w)) (mapHeader (nBits bits) (key 7 w)) (namedBits bits) else w in
  let w := if LayoutField.hasSettingKey f then uintVal (LayoutField.settingKey f) (key 8 w) else w in
  let w := if SettingDefault.has (LayoutField.dflt f) then encodeSettingDefault (LayoutField.dflt f) (key 9 w) else w in
  let w := if some options then writeArray tstrVal options (key 10 w) else w in
  let w := if nonEmpty (LayoutField.group f) then tstrVal (LayoutField.group f) (key 11 w) else w in
  let w := if nonEmpty (LayoutField.desc f) then tstrVal (LayoutField.desc f) (key 12 w) else w in
  let w := if nonEmpty (LayoutField.role f) then tstrVal (LayoutField.role f) (key 13 w) else w in
  let w := if LayoutField.hasStep f then f32Val (LayoutField.step f) (key 14 w) else w in
  let w := if negb (LayoutField.flags f =? 0) then uintVal (LayoutField.flags f) (key 15 w) else w in
  let w := if LayoutField.hasRank f then uintVal (LayoutField.rank f) (key 19 w) else w in
  let w := if LayoutField.hasAspect f then uintVal (LayoutField.aspect f) (key 20 w) else w in
  let w := if LayoutField.hasScope f then uintVal (LayoutField.scope f) (key 21 w) else w in
  let w := if LayoutField.hasProvenance f then uintVal (LayoutField.provenance f) (key 22 w) else w in
  if LayoutField.hasUnitId f then uintVal (LayoutField.unitId f) (key 23 w) else w.

Definition schemaKeyCount (f : SchemaField.t) (options : list bytes) (acc : list AccessLevel) : Z :=
  3 + b2z (SchemaField.hasMin f) + b2z (SchemaField.hasMax f) + b2z (SettingDefault.has (SchemaField.dflt f))
  + b2z (some options) + b2z (nonEmpty (SchemaField.group f)) + b2z (nonEmpty (SchemaField.desc f))
  + b2z (nonEmpty (SchemaField.role f)) + b2z (SchemaField.hasStep f) + b2z (negb (SchemaField.flags f =? 0))
  + b2z (SchemaField.hasAccess f) + b2z (some acc) + b2z (SchemaField.hasRank f) + b2z (SchemaField.hasAspect f)
  + b2z (SchemaField.hasScope f) + b2z (SchemaField.hasProvenance f) + b2z (SchemaField.hasUnitId f).

Definition encodeSchemaField (f : SchemaField.t) (options : list bytes) (acc : list AccessLevel) (w : CborWriter) : CborWriter :=
  let w := mapHeader (schemaKeyCount f options acc) w in
  let w := tstrVal (SchemaField.name f) (key 1 w) in
  let w := uintVal (CborFieldType.to_u8 (SchemaField.type f)) (key 2 w) in
  let w := tstrVal (SchemaField.unit f) (key 3 w) in
  let w := if SchemaField.hasMin f then f32Val (SchemaField.min f) (key 5 w) else w in
  let w := if SchemaField.hasMax f then f32Val (SchemaField.max f) (key 6 w) else w in
  let w := if SettingDefault.has (SchemaField.dflt f) then encodeSettingDefault (SchemaField.dflt f) (key 9 w) else w in
  let w := if some options then writeArray tstrVal options (key 10 w) else w in
  let w := if nonEmpty (SchemaField.group f) then tstrVal (SchemaField.group f) (key 11 w) else w in
  let w := if nonEmpty (SchemaField.desc f) then tstrVal (SchemaField.desc f) (key 12 w) else w in
  let w := if nonEmpty (SchemaField.role f) then tstrVal (SchemaField.role f) (key 13 w) else w in
  let w := if SchemaField.hasStep f then f32Val (SchemaField.step f) (key 14 w) else w in
  let w := if negb (SchemaField.flags f =? 0) then uintVal (SchemaField.flags f) (key 15 w) else w in
  let w := if SchemaField.hasAccess f then uintVal (access_u8 (SchemaField.access f)) (key 16 w) else w in
  let w := if some acc then writeArray (fun a => uintVal (access_u8 a)) acc (key 17 w) else w in
  let w := if SchemaField.hasRank f then uintVal (SchemaField.rank f) (key 19 w) else w in
  let w := if SchemaField.hasAspect f then uintVal (SchemaField.aspect f) (key 20 w) else w in
  let w := if SchemaField.hasScope f then uintVal (SchemaField.scope f) (key 21 w) else w in
  let w := if SchemaField.hasProvenance f then uintVal (SchemaField.provenance f) (key 22 w) else w in
  if SchemaField.hasUnitId f then uintVal (SchemaField.unitId f) (key 23 w) else w.

Definition encodeStoreDescriptor (d : StoreDescriptor.t) (w : CborWriter) : CborWriter :=
  let w := mapHeader 5 w in
  let w := uintVal (StoreDescriptor.storeId d) (key 1 w) in
  let w := tstrVal (StoreDescriptor.kind d) (key 2 w) in
  let w := uintVal (StoreDescriptor.capacity d) (key 3 w) in
  let w := uintVal (StoreDescriptor.perItemMax d) (key 4 w) in
  uintVal (StoreDescriptor.nameMax d) (key 5 w).

(** The order in which the fields of a schema go out. *)
Definition byKey (a b : SchemaField.t) : Prop := SchemaField.key a <= SchemaField.key b.
#[global] Instance byKey_dec : RelDecision byKey.
Proof. intros a b. unfold byKey. apply _. Defined.

Definition entryKeyCount (e : CatalogEntry.t) : Z :=
  8 + b2z (CatalogEntry.hasCategory e) + b2z (nonEmpty (CatalogEntry.categoryLabel e)) + b2z (CatalogEntry.hasReplayDepth e)
  + b2z (CatalogEntry.hasSettingChannel e) + b2z (negb (CatalogEntry.streamKind e =? 0)) + b2z (CatalogEntry.hasRank e).

(** The fields of an entry. *)
Definition writeFields (cat : BasicCatalog) (e : CatalogEntry.t) (w : CborWriter) : CborWriter :=
  match CatalogEntry.form e with
  | Layout =>
      writeArray (fun lf => encodeLayoutField lf (bitLabels lf cat) (optionLabels lf cat)) (layoutFields e cat) (key 8 w)
  | Schema =>
      let sorted := merge_sort byKey (schemaFields e cat) in
      foldl (fun w sf => encodeSchemaField sf (schemaOptionLabels sf cat) (optionAccess sf cat) (key (SchemaField.key sf) w))
        (mapHeader (Z.of_nat (length sorted)) (key 9 w)) sorted
  | Store => w
  end.

Definition nFields (cat : BasicCatalog) (e : CatalogEntry.t) : nat :=
  match CatalogEntry.form e with
  | Layout => length (layoutFields e cat) | Schema => length (schemaFields e cat) | Store => 0
  end.

(** Nothing is written for an entry with too many fields or without its store. *)
Definition encodeEntry (cat : BasicCatalog) (e : CatalogEntry.t) (w : CborWriter) : CborWriter :=
  if (CatalogEntry.kMaxFields <? nFields cat e)%nat then w
  else if CatalogEntry.usesStore e && bool_decide (storeDescriptor e cat = None) then w
  else
    let w := mapHeader (entryKeyCount e) w in
    let w := uintVal (CatalogEntry.id e) (key 1 w) in
    let w := tstrVal (CatalogEntry.name e) (key 2 w) in
    let w := uintVal (class_u8 (CatalogEntry.cls e)) (key 3 w) in
    let w := uintVal (direction_u8 (CatalogEntry.dir e)) (key 4 w) in
    let w := uintVal (access_u8 (CatalogEntry.access e)) (key 5 w) in
    let w := f32Val (CatalogEntry.maxRateHz e) (key 6 w) in
    let w := uintVal (priority_u8 (CatalogEntry.defaultPriority e)) (key 7 w) in
    let w := writeFields cat e w in
    let w := if CatalogEntry.hasCategory e then uintVal (CatalogEntry.category e) (key 10 w) else w in
    let w := if nonEmpty (CatalogEntry.categoryLabel e) then tstrVal (CatalogEntry.categoryLabel e) (key 11 w) else w in
    let w := match storeDescriptor e cat with
             | Some d => if CatalogEntry.usesStore e then encodeStoreDescriptor d (key 12 w) else w
             | None => w
             end in
    let w := if CatalogEntry.hasReplayDepth e then uintVal (CatalogEntry.replayDepth e) (key 13 w) else w in
    let w := if CatalogEntry.hasSettingChannel e then uintVal (CatalogEntry.settingChannel e) (key 14 w) else w in
    let w := if negb (CatalogEntry.streamKind e =? 0) then uintVal (CatalogEntry.streamKind e) (key 15 w) else w in
    if CatalogEntry.hasRank e then uintVal (CatalogEntry.rank e) (key 16 w) else w.

(** Entries not strictly ascending by id. *)
Fixpoint idsAscend (es : list CatalogEntry.t) : bool :=
  match es with
  | a :: (b :: _) as es => (CatalogEntry.id a <? CatalogEntry.id b) && idsAscend es
  | _ => true
  end.

(** The entry's payload is where its offset and count say. *)
Definition resolves (cat : BasicCatalog) (e : CatalogEntry.t) : bool :=
  match CatalogEntry.form e with
  | Layout => (length (layoutFields e cat) =? CatalogEntry.fieldCount e)%nat
  | Schema => (length (schemaFields e cat) =? CatalogEntry.fieldCount e)%nat
  | Store => negb (bool_decide (storeDescriptor e cat = None))
  end.

Fixpoint encodeEntries (cat : BasicCatalog) (es : list CatalogEntry.t) (pos : nat) (out : bytes) : nat * bytes :=
  match es with
  | [] => (pos, out)
  | e :: es =>
      if (CatalogEntry.kMaxFields <? CatalogEntry.fieldCount e)%nat then (0%nat, out)
      else if (length out <? pos)%nat then (0%nat, out)
      else if negb (resolves cat e) then (0%nat, out)
      else
        let '(n, buf) := encoded (encodeEntry cat e (cborWriter (drop pos out))) in
        let out := take pos out ++ buf in
        if (n =? 0)%nat then (0%nat, out)
        else if limits.catalog_max_entry_bytes <? Z.of_nat n then (0%nat, out)
        else encodeEntries cat es (pos + n) out
  end.

Definition encodeCatalog (cat : BasicCatalog) (out : bytes) : nat * bytes :=
  if negb (idsAscend (entries cat)) then (0%nat, out)
  else
    let '(hdrLen, hdrBuf) := encoded (arrayHeader (Z.of_nat (count cat)) (cborWriter (replicate 9 0))) in
    if (hdrLen =? 0)%nat || (length out <? hdrLen)%nat then (0%nat, out)
    else encodeEntries cat (entries cat) hdrLen (write_at 0 (take hdrLen hdrBuf) out).

Definition catalogEtag (cat : BasicCatalog) (scratch : bytes) : bytes :=
  let '(n, scratch) := encodeCatalog cat scratch in take 8 (Sha256.hash (take n scratch)).

(** ** Decoding *)

(** [readUint] with an upper bound. *)
Definition readUpTo (max : Z) (r : CborReader) : Result (Z * CborReader) DecodeError :=
  let? (v, r) := readUint r in if max <? v then Err Malformed else Ok (v, r).

(** [readTstr] with a cap on the length, and perhaps without the empty string. *)
Definition readText (mayBeEmpty : bool) (cap : nat) (r : CborReader) : Result (bytes * CborReader) DecodeError :=
  let? (s, r) := readTstr r in
  if (negb mayBeEmpty && negb (nonEmpty s)) || (cap <? length s)%nat then Err Malformed else Ok (s, r).

(** The enumerator with the value [v]. *)
Definition packed_of (v : Z) : PackedFieldType.t :=
  nth (Z.to_nat v) [PackedFieldType.u8; PackedFieldType.i8; PackedFieldType.u16; PackedFieldType.i16; PackedFieldType.u32;
    PackedFieldType.i32; PackedFieldType.f32; PackedFieldType.bitfield8; PackedFieldType.str16; PackedFieldType.str32;
    PackedFieldType.str64] PackedFieldType.u8.
Definition cbor_type_of (v : Z) : CborFieldType.t :=
  nth (Z.to_nat v) [CborFieldType.uint_t; CborFieldType.int_t; CborFieldType.f32_t; CborFieldType.bool_t; CborFieldType.tstr_t;
    CborFieldType.bstr_t] CborFieldType.uint_t.
Definition class_of (v : Z) : ChannelClass := nth (Z.to_nat v) [STATE; STREAM; INTENT; EVENT; STORE] STATE.
Definition direction_of (v : Z) : Direction := nth (Z.to_nat v) [h2c; c2h] h2c.
Definition level_of (v : Z) : AccessLevel := nth (Z.to_nat v) [watch; control; configure] watch.
Definition priority_of (v : Z) : Priority := nth (Z.to_nat v) [background; normal; elevated; critical] background.

Definition decodeSettingDefault (r : CborReader) : Result (SettingDefault * CborReader) DecodeError :=
  let? t := peekType r in
  match t with
  | MUInt | MNegInt =>
      let? (v, r) := readInt r in
      if (0x7FFFFFFF <? v) || (v <? -0x80000000) then Err Malformed else Ok (DInt v, r)
  | MTextString => let? (s, r) := readTstr r in Ok (DTstr s, r)
  | MSimple =>
      match readF32 r with
      | Ok (f, r) => Ok (DFloat f, r)
      | Err _ => match readBool r with Ok (b, r) => Ok (DBool b, r) | Err _ => Err Malformed end
      end
  | _ => Err Malformed
  end.

Section decode.
Variables Entries LayoutFields SchemaFields Labels Stores : nat.

(** A label goes into the pool or the decoding ends. *)
Definition pushLabel (s : bytes) (cat : BasicCatalog) : Result BasicCatalog DecodeError :=
  match poolAddLabel Labels s watch cat with (true, cat) => Ok cat | (false, _) => Err CapacityExceeded end.

Definition decodeOptions (r : CborReader) (cat : BasicCatalog) : Result (LabelRef.t * BasicCatalog * CborReader) DecodeError :=
  let? (n, r) := readArrayHeader r in
  if (n =? 0) || (Z.of_nat LabelRef.kMaxCount <? n) then Err Malformed
  else
    let mark := labelUsed cat in
    let? (cat, r) := forR n (fun '(cat, r) =>
      let? (s, r) := readText false limits.option_label_max_bytes r in
      let? cat := pushLabel s cat in Ok (cat, r)) (cat, r) in
    Ok (LabelRef.mk (Z.of_nat mark) (Z.to_nat (u8 n)), cat, r).

(** [while (filled < bit)]: the gap is filled with empty labels. *)
Fixpoint fillGap (n : nat) (cat : BasicCatalog) : Result BasicCatalog DecodeError :=
  match n with O => Ok cat | S n => let? cat := pushLabel [] cat in fillGap n cat end.

(** One named bit: the pool and how far it is filled. *)
Definition bitField (k : Z) (s : BasicCatalog * nat) (r : CborReader) : Result (BasicCatalog * nat * CborReader) DecodeError :=
  let '(cat, filled) := s in
  if 8 <=? k then Err Malformed
  else
    let? (name, r) := readText false 24 r in
    let? cat := fillGap (Z.to_nat k - filled) cat in
    let? cat := pushLabel name cat in
    Ok (cat, S (Nat.max filled (Z.to_nat k)), r).

Definition decodeBits (r : CborReader) (cat : BasicCatalog) : Result (LabelRef.t * BasicCatalog * CborReader) DecodeError :=
  let? (n, r) := readMapHeader r in
  if (n =? 0) || (8 <? n) then Err Malformed
  else
    let mark := labelUsed cat in
    let? (s, r) := decodeFields bitField n (cat, 0%nat) r in
    Ok (LabelRef.mk (Z.of_nat mark) (snd s), fst s, r).

(** What a layout field's loop carries. *)
Record LayoutState := mkLayoutState {
  lf : LayoutField.t; lf_gotName : bool; lf_gotType : bool; lf_gotUnit : bool; lf_gotScale : bool; lf_cat : BasicCatalog }.

Definition layoutKey (k : Z) (s : LayoutState) (r : CborReader) : Result (LayoutState * CborReader) DecodeError :=
  if k =? 1 then let? (v, r) := readText false 24 r in Ok (s{{lf := (lf s){{LayoutField.name := v}}; lf_gotName := true}}, r)
  else if k =? 2 then let? (v, r) := readUpTo 10 r in Ok (s{{lf := (lf s){{LayoutField.type := packed_of v}}; lf_gotType := true}}, r)
  else if k =? 3 then let? (v, r) := readText true 8 r in Ok (s{{lf := (lf s){{LayoutField.unit := v}}; lf_gotUnit := true}}, r)
  else if k =? 4 then let? (v, r) := readF32 r in Ok (s{{lf := (lf s){{LayoutField.scale := v}}; lf_gotScale := true}}, r)
  else if k =? 5 then let? (v, r) := readF32 r in Ok (s{{lf := (lf s){{LayoutField.min := v; LayoutField.hasMin := true}} }}, r)
  else if k =? 6 then let? (v, r) := readF32 r in Ok (s{{lf := (lf s){{LayoutField.max := v; LayoutField.hasMax := true}} }}, r)
  else if k =? 7 then
    let? (ref, cat, r) := decodeBits r (lf_cat s) in Ok (s{{lf := (lf s){{LayoutField.bits := ref}}; lf_cat := cat}}, r)
  else if k =? 8 then
    let? (v, r) := readUpTo 0xFF r in Ok (s{{lf := (lf s){{LayoutField.settingKey := v; LayoutField.hasSettingKey := true}} }}, r)
  else if k =? 9 then let? (v, r) := decodeSettingDefault r in Ok (s{{lf := (lf s){{LayoutField.dflt := v}} }}, r)
  else if k =? 10 then
    let? (ref, cat, r) := decodeOptions r (lf_cat s) in Ok (s{{lf := (lf s){{LayoutField.options := ref}}; lf_cat := cat}}, r)
  else if k =? 11 then let? (v, r) := readText false 24 r in Ok (s{{lf := (lf s){{LayoutField.group := v}} }}, r)
  else if k =? 12 then let? (v, r) := readText false limits.desc_max_bytes r in Ok (s{{lf := (lf s){{LayoutField.desc := v}} }}, r)
  else if k =? 13 then let? (v, r) := readText false 24 r in Ok (s{{lf := (lf s){{LayoutField.role := v}} }}, r)
  else if k =? 14 then let? (v, r) := readF32 r in Ok (s{{lf := (lf s){{LayoutField.step := v; LayoutField.hasStep := true}} }}, r)
  else if k =? 15 then let? (v, r) := readUpTo 0xFF r in Ok (s{{lf := (lf s){{LayoutField.flags := v}} }}, r)
  else if k =? 19 then let? (v, r) := readUpTo 0xFF r in Ok (s{{lf := (lf s){{LayoutField.rank := v; LayoutField.hasRank := true}} }}, r)
  else if k =? 20 then let? (v, r) := readUpTo 0xFF r in Ok (s{{lf := (lf s){{LayoutField.aspect := v; LayoutField.hasAspect := true}} }}, r)
  else if k =? 21 then let? (v, r) := readUpTo 0xFF r in Ok (s{{lf := (lf s){{LayoutField.scope := v; LayoutField.hasScope := true}} }}, r)
  else if k =? 22 then
    let? (v, r) := readUpTo 0xFF r in Ok (s{{lf := (lf s){{LayoutField.provenance := v; LayoutField.hasProvenance := true}} }}, r)
  else if k =? 23 then let? (v, r) := readUpTo 0xFF r in Ok (s{{lf := (lf s){{LayoutField.unitId := v; LayoutField.hasUnitId := true}} }}, r)
  else ignoreField s r.

Definition decodeLayoutField (r : CborReader) (cat : BasicCatalog) : Result (LayoutField.t * BasicCatalog * CborReader) DecodeError :=
  let? (s, r) := decodeMap layoutKey (mkLayoutState LayoutField.init false false false false cat) r in
  if negb (lf_gotName s && lf_gotType s && lf_gotUnit s && lf_gotScale s) then Err Malformed else Ok (lf s, lf_cat s, r).

(** What a schema field's loop carries. *)
Record SchemaState := mkSchemaState {
  sf : SchemaField.t; sf_gotName : bool; sf_gotType : bool; sf_gotUnit : bool; sf_cat : BasicCatalog }.

(** The access level of each option, in the pool beside its label. *)
Definition decodeOptionAccess (ref : LabelRef.t) (r : CborReader) (cat : BasicCatalog) : Result (BasicCatalog * CborReader) DecodeError :=
  let? (n, r) := readArrayHeader r in
  if (LabelRef.count ref =? 0)%nat || negb (n =? Z.of_nat (LabelRef.count ref)) then Err Malformed
  else
    let? (a, cat, r) := forR n (fun '(a, cat, r) =>
      let? (v, r) := readUpTo 2 r in
      match poolSetLabelAccess (Z.to_nat (u16 (LabelRef.offset ref + Z.of_nat a))) (level_of v) cat with
      | (false, _) => Err Malformed
      | (true, cat) => Ok (S a, cat, r)
      end) (0%nat, cat, r) in
    Ok (cat, r).

Definition schemaKey (k : Z) (s : SchemaState) (r : CborReader) : Result (SchemaState * CborReader) DecodeError :=
  if k =? 1 then let? (v, r) := readText false 24 r in Ok (s{{sf := (sf s){{SchemaField.name := v}}; sf_gotName := true}}, r)
  else if k =? 2 then let? (v, r) := readUpTo 5 r in Ok (s{{sf := (sf s){{SchemaField.type := cbor_type_of v}}; sf_gotType := true}}, r)
  else if k =? 3 then let? (v, r) := readText true 8 r in Ok (s{{sf := (sf s){{SchemaField.unit := v}}; sf_gotUnit := true}}, r)
  else if k =? 5 then let? (v, r) := readF32 r in Ok (s{{sf := (sf s){{SchemaField.min := v; SchemaField.hasMin := true}} }}, r)
  else if k =? 6 then let? (v, r) := readF32 r in Ok (s{{sf := (sf s){{SchemaField.max := v; SchemaField.hasMax := true}} }}, r)
  else if k =? 9 then let? (v, r) := decodeSettingDefault r in Ok (s{{sf := (sf s){{SchemaField.dflt := v}} }}, r)
  else if k =? 10 then
    let? (ref, cat, r) := decodeOptions r (sf_cat s) in Ok (s{{sf := (sf s){{SchemaField.options := ref}}; sf_cat := cat}}, r)
  else if k =? 11 then let? (v, r) := readText false 24 r in Ok (s{{sf := (sf s){{SchemaField.group := v}} }}, r)
  else if k =? 12 then let? (v, r) := readText false limits.desc_max_bytes r in Ok (s{{sf := (sf s){{SchemaField.desc := v}} }}, r)
  else if k =? 13 then let? (v, r) := readText false 24 r in Ok (s{{sf := (sf s){{SchemaField.role := v}} }}, r)
  else if k =? 14 then let? (v, r) := readF32 r in Ok (s{{sf := (sf s){{SchemaField.step := v; SchemaField.hasStep := true}} }}, r)
  else if k =? 15 then let? (v, r) := readUpTo 0xFF r in Ok (s{{sf := (sf s){{SchemaField.flags := v}} }}, r)
  else if k =? 16 then
    let? (v, r) := readUpTo 2 r in Ok (s{{sf := (sf s){{SchemaField.access := level_of v; SchemaField.hasAccess := true}} }}, r)
  else if k =? 17 then
    let? (cat, r) := decodeOptionAccess (SchemaField.options (sf s)) r (sf_cat s) in
    Ok (s{{sf := (sf s){{SchemaField.hasOptionAccess := true}}; sf_cat := cat}}, r)
  else if k =? 19 then let? (v, r) := readUpTo 0xFF r in Ok (s{{sf := (sf s){{SchemaField.rank := v; SchemaField.hasRank := true}} }}, r)
  else if k =? 20 then let? (v, r) := readUpTo 0xFF r in Ok (s{{sf := (sf s){{SchemaField.aspect := v; SchemaField.hasAspect := true}} }}, r)
  else if k =? 21 then let? (v, r) := readUpTo 0xFF r in Ok (s{{sf := (sf s){{SchemaField.scope := v; SchemaField.hasScope := true}} }}, r)
  else if k =? 22 then
    let? (v, r) := readUpTo 0xFF r in Ok (s{{sf := (sf s){{SchemaField.provenance := v; SchemaField.hasProvenance := true}} }}, r)
  else if k =? 23 then let? (v, r) := readUpTo 0xFF r in Ok (s{{sf := (sf s){{SchemaField.unitId := v; SchemaField.hasUnitId := true}} }}, r)
  else ignoreField s r.

Definition decodeSchemaField (k : Z) (r : CborReader) (cat : BasicCatalog) : Result (SchemaField.t * BasicCatalog * CborReader) DecodeError :=
  let? (s, r) := decodeMap schemaKey (mkSchemaState (SchemaField.init{{SchemaField.key := k}}) false false false cat) r in
  if negb (sf_gotName s && sf_gotType s && sf_gotUnit s) then Err Malformed else Ok (sf s, sf_cat s, r).

(** What a store descriptor's loop carries. *)
Record StoreState := mkStoreState {
  sd : StoreDescriptor.t; sd_gotId : bool; sd_gotKind : bool; sd_gotCap : bool; sd_gotItemMax : bool; sd_gotNameMax : bool }.

Definition storeKey (k : Z) (s : StoreState) (r : CborReader) : Result (StoreState * CborReader) DecodeError :=
  if k =? 1 then let? (v, r) := readUpTo 0xFF r in Ok (s{{sd := (sd s){{StoreDescriptor.storeId := v}}; sd_gotId := true}}, r)
  else if k =? 2 then let? (v, r) := readText false 32 r in Ok (s{{sd := (sd s){{StoreDescriptor.kind := v}}; sd_gotKind := true}}, r)
  else if k =? 3 then let? (v, r) := readUpTo 0xFFFF r in Ok (s{{sd := (sd s){{StoreDescriptor.capacity := v}}; sd_gotCap := true}}, r)
  else if k =? 4 then let? (v, r) := readUpTo 0xFFFFFFFF r in Ok (s{{sd := (sd s){{StoreDescriptor.perItemMax := v}}; sd_gotItemMax := true}}, r)
  else if k =? 5 then let? (v, r) := readUpTo 0xFFFF r in Ok (s{{sd := (sd s){{StoreDescriptor.nameMax := v}}; sd_gotNameMax := true}}, r)
  else ignoreField s r.

Definition decodeStoreDescriptor (r : CborReader) : Result (StoreDescriptor.t * CborReader) DecodeError :=
  let? (s, r) := decodeMap storeKey (mkStoreState StoreDescriptor.init false false false false false) r in
  if negb (sd_gotId s && sd_gotKind s && sd_gotCap s && sd_gotItemMax s && sd_gotNameMax s) then Err Malformed else Ok (sd s, r).

(** What an entry's loop carries. *)
Record EntryState := mkEntryState {
  en : CatalogEntry.t; en_gotId : bool; en_gotName : bool; en_gotCls : bool; en_gotDir : bool; en_gotAccess : bool;
  en_gotRate : bool; en_gotPrio : bool; en_gotLayout : bool; en_gotSchema : bool; en_gotStore : bool; en_cat : BasicCatalog }.

(** A pool addition of the decoder. *)
Definition pooled (r : bool * BasicCatalog) : Result BasicCatalog DecodeError :=
  match r with (true, cat) => Ok cat | (false, _) => Err CapacityExceeded end.

Definition decodeLayout (r : CborReader) (cat : BasicCatalog) : Result (Z * BasicCatalog * CborReader) DecodeError :=
  let? (n, r) := readArrayHeader r in
  if (n =? 0) || (Z.of_nat CatalogEntry.kMaxFields <? n) then Err Malformed
  else
    let? (cat, r) := forR n (fun '(cat, r) =>
      let? (f, cat, r) := decodeLayoutField r cat in
      let? cat := pooled (poolAddLayoutField LayoutFields f cat) in Ok (cat, r)) (cat, r) in
    Ok (n, cat, r).

Definition schemaEntry (k : Z) (cat : BasicCatalog) (r : CborReader) : Result (BasicCatalog * CborReader) DecodeError :=
  if 0xFF <? k then Err Malformed
  else
    let? (f, cat, r) := decodeSchemaField k r cat in
    let? cat := pooled (poolAddSchemaField SchemaFields f cat) in Ok (cat, r).

Definition decodeSchema (r : CborReader) (cat : BasicCatalog) : Result (Z * BasicCatalog * CborReader) DecodeError :=
  let? (n, r) := readMapHeader r in
  if (n =? 0) || (Z.of_nat CatalogEntry.kMaxFields <? n) then Err Malformed
  else let? (cat, r) := decodeFields schemaEntry n cat r in Ok (n, cat, r).

Definition entryKey (layoutMark schemaMark storeMark : nat) (k : Z) (s : EntryState) (r : CborReader) :
    Result (EntryState * CborReader) DecodeError :=
  let e := en s in
  if k =? 1 then let? (v, r) := readUpTo 0xFFFF r in Ok (s{{en := e{{CatalogEntry.id := v}}; en_gotId := true}}, r)
  else if k =? 2 then let? (v, r) := readText false 32 r in Ok (s{{en := e{{CatalogEntry.name := v}}; en_gotName := true}}, r)
  else if k =? 3 then let? (v, r) := readUpTo 4 r in Ok (s{{en := e{{CatalogEntry.cls := class_of v}}; en_gotCls := true}}, r)
  else if k =? 4 then let? (v, r) := readUpTo 1 r in Ok (s{{en := e{{CatalogEntry.dir := direction_of v}}; en_gotDir := true}}, r)
  else if k =? 5 then let? (v, r) := readUpTo 2 r in Ok (s{{en := e{{CatalogEntry.access := level_of v}}; en_gotAccess := true}}, r)
  else if k =? 6 then let? (v, r) := readF32 r in Ok (s{{en := e{{CatalogEntry.maxRateHz := v}}; en_gotRate := true}}, r)
  else if k =? 7 then
    let? (v, r) := readUpTo 3 r in Ok (s{{en := e{{CatalogEntry.defaultPriority := priority_of v}}; en_gotPrio := true}}, r)
  else if k =? 8 then
    if en_gotSchema s || en_gotStore s then Err Malformed
    else
      let? (n, cat, r) := decodeLayout r (en_cat s) in
      Ok (s{{en := e{{CatalogEntry.fieldOffset := layoutMark; CatalogEntry.fieldCount := Z.to_nat (u8 n)}}; en_cat := cat;
             en_gotLayout := true}}, r)
  else if k =? 9 then
    if en_gotLayout s || en_gotStore s then Err Malformed
    else
      let? (n, cat, r) := decodeSchema r (en_cat s) in
      Ok (s{{en := e{{CatalogEntry.fieldOffset := schemaMark; CatalogEntry.fieldCount := Z.to_nat (u8 n)}}; en_cat := cat;
             en_gotSchema := true}}, r)
  else if k =? 10 then
    let? (v, r) := readUpTo 0xFF r in Ok (s{{en := e{{CatalogEntry.category := v; CatalogEntry.hasCategory := true}} }}, r)
  else if k =? 11 then let? (v, r) := readText false 24 r in Ok (s{{en := e{{CatalogEntry.categoryLabel := v}} }}, r)
  else if k =? 12 then
    if en_gotLayout s || en_gotSchema s then Err Malformed
    else
      let? (d, r) := decodeStoreDescriptor r in
      let? cat := pooled (poolAddStore Stores d (en_cat s)) in
      Ok (s{{en := e{{CatalogEntry.fieldOffset := storeMark; CatalogEntry.fieldCount := 1%nat}}; en_cat := cat; en_gotStore := true}}, r)
  else if k =? 13 then
    let? (v, r) := readUpTo 0xFFFF r in Ok (s{{en := e{{CatalogEntry.replayDepth := v; CatalogEntry.hasReplayDepth := true}} }}, r)
  else if k =? 14 then
    let? (v, r) := readUpTo 0xFFFF r in Ok (s{{en := e{{CatalogEntry.settingChannel := v; CatalogEntry.hasSettingChannel := true}} }}, r)
  else if k =? 15 then let? (v, r) := readUpTo 0xFF r in Ok (s{{en := e{{CatalogEntry.streamKind := v}} }}, r)
  else if k =? 16 then
    let? (v, r) := readUpTo 0xFF r in Ok (s{{en := e{{CatalogEntry.rank := v; CatalogEntry.hasRank := true}} }}, r)
  else ignoreField s r.

Definition b2n (b : bool) : nat := if b then 1 else 0.

Definition decodeEntry (r : CborReader) (cat : BasicCatalog) : Result (CatalogEntry.t * BasicCatalog * CborReader) DecodeError :=
  let? (s, r) := decodeMap (entryKey (layoutUsed cat) (schemaUsed cat) (storeUsed cat))
    (mkEntryState CatalogEntry.init false false false false false false false false false false cat) r in
  if negb (en_gotId s && en_gotName s && en_gotCls s && en_gotDir s && en_gotAccess s && en_gotRate s && en_gotPrio s)
  then Err Malformed
  else if negb (b2n (en_gotLayout s) + b2n (en_gotSchema s) + b2n (en_gotStore s) =? 1)%nat then Err Malformed
  else if negb (match CatalogEntry.form (en s) with
                | Layout => en_gotLayout s | Schema => en_gotSchema s | Store => en_gotStore s end)
  then Err Malformed
  else Ok (en s, en_cat s, r).

(** Between two entries: the catalog, the position, and the id of the last entry. *)
Definition catalogStep (s : bytes) (st : BasicCatalog * nat * option Z) : Result (BasicCatalog * nat * option Z) DecodeError :=
  let '(cat, pos, prev) := st in
  if (length s <? pos)%nat then Err Truncated
  else
    let window := Nat.min (length s - pos) (Z.to_nat limits.catalog_max_entry_bytes) in
    let? (e, cat, r) := decodeEntry (cborReader (subspan pos window s)) cat in
    if match prev with Some p => CatalogEntry.id e <=? p | None => false end then Err Malformed
    else
      let? cat := pooled (addEntryVerbatim Entries e cat) in
      Ok (cat, (pos + bytesConsumed r)%nat, Some (CatalogEntry.id e)).

Definition decodeCatalog (s : bytes) : Result BasicCatalog DecodeError :=
  let? (n, r) := readArrayHeader (cborReader s) in
  if Z.of_nat Entries <? n then Err CapacityExceeded
  else let? (cat, _, _) := forR n (catalogStep s) (emptyCatalog, bytesConsumed r, None) in Ok cat.
End decode.
