(* ===== verification/CatalogWire.v ===== *)
(** * CatalogWire: the catalog survives the wire

    What the encoder of [CatalogCodec] writes, as a function of what the catalog
    says, and how the decoder reads it back into empty pools. The decoder's loops
    change the pools as they go and succeed only while these have room, so their
    fields are followed from state to state. *)

From stdpp Require Import sorting.
From S2P Require Import Prelude Registry Float ByteIO Cbor Messages Codec Catalog Crypto CatalogCodec.
Local Open Scope Z_scope.

(** ** Reading from state to state *)

(** At depth [d], [h] reads the bytes [bs] in the state [m] and gets to [m']. *)
Definition readsTo {M} (d : nat) (h : M -> CborReader -> Result (M * CborReader) DecodeError) (bs : bytes) (m m' : M) : Prop :=
  forall r rest, is_bytes (r_in r) -> length (r_stack r) = d -> ahead r = bs ++ rest ->
  h m r = Ok (m', advance (length bs) consumeOne r).

Lemma reads_readsTo {M} d (h : M -> CborReader -> Result (M * CborReader) DecodeError) bs eff m : reads d h bs eff -> readsTo d h bs m (eff m).
Proof. intros H r rest. apply H. Qed.

(** The header of a map, and the reader behind it. *)
Lemma mapHeader_at {M} d (es : list (Entry M)) r rest :
  (d < kMaxDepth)%nat -> is_u32 (Z.of_nat (length es)) -> es <> [] -> is_bytes (r_in r) -> length (r_stack r) = d ->
  ahead r = map_bytes es ++ rest ->
  exists r1, readMapHeader r = Ok (Z.of_nat (length es), r1) /\ is_bytes (r_in r1)
    /\ r_stack r1 = mkFrame true (2 * Z.of_nat (length es)) false 0 :: r_stack r /\ ahead r1 = concat (entry_bytes <$> es) ++ rest
    /\ (forall n f, advance n (fun _ => f (r_stack r)) r1 = advance (length (head_bytes 5 (Z.of_nat (length es))) + n) f r).
Proof.
  intros Hd Hn Hne Hb Hs Ha. unfold map_bytes in Ha. rewrite <- app_assoc in Ha. unfold readMapHeader.
  assert (length (r_stack r) < kMaxDepth)%nat as Hlt by lia.
  rewrite (proj2 (enter_iff 5 true r _ _ Hb ltac:(lia)) (conj Hn (conj Hlt (conj (ex_intro _ _ Ha) eq_refl)))).
  eexists. split; [reflexivity|]. split_and!; [done| |by eapply advance_ahead|].
  - cbn [advance r_stack]. destruct es as [|e es]; [done|]. rewrite open_nonempty by (cbn [length]; lia). do 2 f_equal. lia.
  - intros n f. rewrite advance_advance. by apply advance_stack.
Qed.

Lemma arrayHeader_at d (bss : list bytes) r rest :
  (d < kMaxDepth)%nat -> is_u32 (Z.of_nat (length bss)) -> bss <> [] -> is_bytes (r_in r) -> length (r_stack r) = d ->
  ahead r = (head_bytes 4 (Z.of_nat (length bss)) ++ concat bss) ++ rest ->
  exists r1, readArrayHeader r = Ok (Z.of_nat (length bss), r1) /\ is_bytes (r_in r1)
    /\ r_stack r1 = mkFrame false (Z.of_nat (length bss)) false 0 :: r_stack r /\ ahead r1 = concat bss ++ rest
    /\ (forall n f, advance n (fun _ => f (r_stack r)) r1 = advance (length (head_bytes 4 (Z.of_nat (length bss))) + n) f r).
Proof.
  intros Hd Hn Hne Hb Hs Ha. rewrite <- app_assoc in Ha. unfold readArrayHeader.
  assert (length (r_stack r) < kMaxDepth)%nat as Hlt by lia.
  rewrite (proj2 (enter_iff 4 false r _ _ Hb ltac:(lia)) (conj Hn (conj Hlt (conj (ex_intro _ _ Ha) eq_refl)))).
  eexists. split; [reflexivity|]. split_and!; [done| |by eapply advance_ahead|].
  - cbn [advance r_stack]. destruct bss as [|b bss]; [done|]. by rewrite open_nonempty by (cbn [length]; lia).
  - intros n f. rewrite advance_advance. by apply advance_stack.
Qed.

Section follow.
Context {M : Type} (field : Z -> M -> CborReader -> Result (M * CborReader) DecodeError).

(** The entries are read one after the other from the state [m] on. *)
Fixpoint follows (d : nat) (es : list (Entry M)) (m : M) : Prop :=
  match es with
  | [] => True
  | e :: es => (is_u64 (e_key e) /\ readsTo d (field (e_key e)) (e_bytes e) m (e_eff e m)) /\ follows d es (e_eff e m)
  end.

Lemma follows_app d a b m : follows d (a ++ b) m <-> follows d a m /\ follows d b (effects a m).
Proof.
  revert m. induction a as [|e a IH]; intros m; [cbn; tauto|]. cbn [app follows]. rewrite IH, effects_cons. tauto.
Qed.

Lemma follows_good d es m : Forall (good field d) es -> follows d es m.
Proof.
  intros H. revert m. induction H as [|e es [Hk Hr _ _ _] _ IH]; intros m; [done|]. split; [|apply IH]. split; [done|]. by apply reads_readsTo.
Qed.

Lemma fields_follow d stk (es : list (Entry M)) m r hl lk :
  follows d es m -> ascending (last_of hl lk) (e_key <$> es) -> es <> [] ->
  is_bytes (r_in r) -> r_stack r = mkFrame true (2 * Z.of_nat (length es)) hl lk :: stk -> S (length stk) = d ->
  forall rest, ahead r = concat (entry_bytes <$> es) ++ rest ->
  decodeFields field (Z.of_nat (length es)) m r =
  Ok (effects es m, advance (length (concat (entry_bytes <$> es))) (fun _ => consumeOne stk) r).
Proof.
  revert m r hl lk. induction es as [|e es IH]; intros m r hl lk Hok Hasc Hne Hb Hs Hd rest Ha; [done|].
  destruct Hok as [[Hk He] Hok]. unfold decodeFields. cbn [length] in *. rewrite forR_S. cbn [fmap list_fmap concat ascending] in *.
  unfold entry_bytes at 1 in Ha. rewrite <- !app_assoc in Ha. destruct Hasc as [Hfirst Hasc].
  assert (hl = true -> lk < e_key e) as Hl by (intros ->; exact Hfirst).
  rewrite (proj2 (readKey_iff r _ stk (e_key e) _ Hb Hs eq_refl) (conj Hk (conj (ex_intro _ _ Ha) (conj Hl eq_refl)))).
  cbn [rbind remaining]. set (r1 := advance _ _ r).
  assert (r_stack r1 = mkFrame true (2 * Z.of_nat (S (length es)) - 1) true (e_key e) :: stk) as Hs1
    by (unfold r1; cbn [advance r_stack]; by rewrite consumeOne_more by lia).
  assert (ahead r1 = e_bytes e ++ concat (entry_bytes <$> es) ++ rest) as Ha1 by (unfold r1; by eapply advance_ahead).
  rewrite (He r1 _ Hb ltac:(by rewrite Hs1) Ha1). cbn [rbind].
  assert (length (entry_bytes e) = (length (head_bytes 0 (e_key e)) + length (e_bytes e))%nat) as Hlen by apply length_app.
  rewrite effects_cons. destruct es as [|e2 es].
  - cbn [length Z.of_nat forR fmap list_fmap concat]. rewrite app_nil_r, Hlen, effects_nil.
    do 2 f_equal. unfold r1. rewrite advance_advance. apply advance_stack. fold r1.
    cbn [length] in *. rewrite consumeOne_more by lia. apply consumeOne_last.
  - specialize (IH (e_eff e m) (advance (length (e_bytes e)) consumeOne r1) true (e_key e) Hok Hasc ltac:(done) Hb).
    unfold decodeFields in IH. rewrite (IH) with (rest := rest).
    + do 2 f_equal. rewrite length_app, Hlen. unfold r1. rewrite !advance_advance. by rewrite Nat.add_assoc.
    + cbn [advance r_stack]. rewrite Hs1, consumeOne_more by (cbn [length]; lia). do 2 f_equal. lia.
    + done.
    + by eapply advance_ahead.
Qed.


Lemma decodeMap_follow d es m :
  (d < kMaxDepth)%nat -> is_u32 (Z.of_nat (length es)) -> es <> [] -> follows (S d) es m -> ascending None (e_key <$> es) ->
  readsTo d (decodeMap field) (map_bytes es) m (effects es m).
Proof.
  intros Hd Hn Hne Hf Hasc r rest Hb Hs Ha. destruct (mapHeader_at d es r rest Hd Hn Hne Hb Hs Ha) as (r1 & E & Hb1 & Hs1 & Ha1 & Hadv).
  unfold decodeMap. rewrite E. cbn [rbind].
  rewrite (fields_follow (S d) (r_stack r) es m r1 false 0 Hf Hasc Hne Hb1 Hs1 ltac:(by rewrite Hs) rest Ha1).
  rewrite (Hadv _ consumeOne). unfold map_bytes. by rewrite length_app.
Qed.
End follow.

(** The items of an array, from state to state. *)
Section items.
Context {M : Type} (item : M -> CborReader -> Result (M * CborReader) DecodeError).

Inductive visits (d : nat) : list bytes -> M -> M -> Prop :=
| v_nil m : visits d [] m m
| v_cons bs bss m1 m2 m3 : readsTo d item bs m1 m2 -> visits d bss m2 m3 -> visits d (bs :: bss) m1 m3.

Lemma items_visit d bss m m' stk hl lk r rest :
  visits d bss m m' -> bss <> [] -> is_bytes (r_in r) ->
  r_stack r = mkFrame false (Z.of_nat (length bss)) hl lk :: stk -> S (length stk) = d -> ahead r = concat bss ++ rest ->
  forR (Z.of_nat (length bss)) (fun '(m, r) => item m r) (m, r) = Ok (m', advance (length (concat bss)) (fun _ => consumeOne stk) r).
Proof.
  intros H. revert r. induction H as [|bs bss m1 m2 m3 Hi Hv IH]; intros r Hne Hb Hs Hd Ha; [done|].
  cbn [length concat] in *. rewrite <- app_assoc in Ha. rewrite forR_S.
  rewrite (Hi r _ Hb ltac:(rewrite Hs; exact Hd) Ha). cbn [rbind]. destruct bss as [|bs2 bss].
  - inversion Hv; subst. cbn [length Z.of_nat forR concat]. rewrite app_nil_r. do 2 f_equal. apply advance_stack. rewrite Hs. apply consumeOne_last.
  - rewrite IH; [|done|done| |done|by eapply advance_ahead].
    + by rewrite advance_advance, length_app.
    + cbn [advance r_stack]. rewrite Hs, consumeOne_more by (cbn [length]; lia). do 2 f_equal. cbn [length]. lia.
Qed.

End items.

(** ** What is written *)

(** Calls that write one value at depth [d]. *)
Record written (d : nat) (ops : list op) : Prop := {
  w_wf : Forall op_wf ops; w_closes : closes d ops; w_bytes : is_bytes (ops_bytes ops) }.

Lemma written_good {M} (field : Z -> M -> CborReader -> Result (M * CborReader) DecodeError) d e : good field d e -> written d (e_ops e).
Proof. by intros [_ _ Hw Hc Hb]. Qed.

Lemma written_map {M} d (es : list (Entry M)) : (d < kMaxDepth)%nat -> is_u32 (Z.of_nat (length es)) ->
  Forall (fun e => is_u64 (e_key e) /\ written (S d) (e_ops e)) es -> ascending None (e_key <$> es) -> written d (map_ops es).
Proof.
  intros Hd Hn Hes Hasc. split.
  - constructor; [done|]. clear Hn Hasc. induction Hes as [|e es [Hk He] _ IH]; [done|]. cbn [fmap list_fmap concat]. apply Forall_app. split; [|done].
    constructor; [done|]. apply He.
  - apply map_closes; [done| |done]. eapply Forall_impl; [exact Hes|]. by intros e [_ []].
  - rewrite ops_bytes_map. apply is_bytes_map; [done|]. eapply Forall_impl; [exact Hes|]. by intros e [? []].
Qed.

Lemma written_array {A} d (ops : A -> list op) xs : (d < kMaxDepth)%nat -> is_u32 (Z.of_nat (length xs)) ->
  Forall (fun x => written (S d) (ops x)) xs -> written d (array_ops ops xs).
Proof.
  intros Hd Hn Hxs. split.
  - constructor; [done|]. clear Hn. induction Hxs as [|y ys Hy _ IH]; [constructor|]. cbn [fmap list_fmap concat]. apply Forall_app. split; [apply Hy|done].
  - apply array_closes; [done|]. eapply Forall_impl; [exact Hxs|]. by intros y [].
  - unfold array_ops. change (OpArr ?n :: ?l) with ([OpArr n] ++ l). rewrite ops_bytes_app, ops_bytes_1, items_bytes.
    apply Forall_app. split; [apply is_bytes_head; unfold is_u32 in Hn; lia|]. clear Hn.
    induction Hxs as [|y ys Hy _ IH]; [constructor|]. cbn [fmap list_fmap concat]. apply Forall_app. split; [apply Hy|done].
Qed.

Lemma array_bytes {A} (ops : A -> list op) xs :
  ops_bytes (array_ops ops xs) = head_bytes 4 (Z.of_nat (length ((fun x => ops_bytes (ops x)) <$> xs))) ++ concat ((fun x => ops_bytes (ops x)) <$> xs).
Proof. unfold array_ops. change (OpArr ?n :: ?l) with ([OpArr n] ++ l). by rewrite ops_bytes_app, ops_bytes_1, items_bytes, length_fmap. Qed.

(** ** Scalars *)

(** A text the field readers take. *)
Definition text_ok (cap : nat) (s : bytes) : Prop := is_bytes s /\ (length s <= cap)%nat.

Definition default_ops (d : SettingDefault) : list op :=
  match d with DNone => [] | DInt i => [OpInt i] | DFloat f => [OpF32 f] | DBool b => [OpBool b] | DTstr s => [OpTstr s] end.

Definition default_ok (d : SettingDefault) : Prop :=
  match d with
  | DNone | DBool _ => True
  | DInt i => -0x80000000 <= i < 0x80000000
  | DFloat f => is_u32 f
  | DTstr s => is_bytes s /\ is_u64 (Z.of_nat (length s))
  end.

Lemma readInt_at r v rest : is_bytes (r_in r) -> -0x80000000 <= v < 0x80000000 -> ahead r = op_bytes (OpInt v) ++ rest ->
  readInt r = Ok (v, advance (length (op_bytes (OpInt v))) consumeOne r).
Proof.
  intros Hb Hv Ha. unfold readInt. cbn [op_bytes] in *. destruct (Z.leb_spec 0 v).
  - rewrite (parseHead_head r 0 v rest) by (done || unfold is_u64; lia). cbn [rbind h_major h_arg h_total Z.eqb]. do 3 f_equal.
    unfold i64, u64. rewrite Z.mod_small by lia. destruct (Z.ltb_spec v 9223372036854775808); lia.
  - rewrite (parseHead_head r 1 (-1 - v) rest) by (done || unfold is_u64; lia). cbn [rbind h_major h_arg h_total Z.eqb Pos.eqb]. do 3 f_equal.
    unfold i64, u64. rewrite Z.mod_small by lia. destruct (Z.ltb_spec (-1 - v) 9223372036854775808); lia.
Qed.

Lemma decodeSettingDefault_at r d rest : is_bytes (r_in r) -> default_ok d -> SettingDefault.has d = true ->
  ahead r = ops_bytes (default_ops d) ++ rest ->
  decodeSettingDefault r = Ok (d, advance (length (ops_bytes (default_ops d))) consumeOne r).
Proof.
  intros Hb Hd Hh Ha. unfold decodeSettingDefault. destruct d as [|i|f|b|s]; [done|..]; cbn [default_ops default_ok] in *; rewrite ops_bytes_1 in *.
  - assert (readInt r = Ok (i, advance (length (op_bytes (OpInt i))) consumeOne r)) as E by (by apply (readInt_at r i rest)).
    assert (decodeSettingDefault r = let? (v, r) := readInt r in if (0x7FFFFFFF <? v) || (v <? -0x80000000) then Err Malformed else Ok (DInt v, r)) as D.
    { unfold decodeSettingDefault. cbn [op_bytes] in Ha. destruct (Z.leb_spec 0 i); [rewrite (peek_head r 0 i rest) by done|rewrite (peek_head r 1 (-1 - i) rest) by (done || lia)]; done. }
    fold (decodeSettingDefault r). rewrite D, E. cbn [rbind]. destruct (Z.ltb_spec 0x7FFFFFFF i), (Z.ltb_spec i (-0x80000000)); try lia. done.
  - rewrite (peek_simple r (mkSimple KFloat32 f 0) rest) by done. cbn [rbind].
    destruct (readF32_at r f rest Hb Hd Ha) as [_ ->]. done.
  - rewrite (peek_simple r (mkSimple (if b then KTrue else KFalse) 0 0) rest) by (by destruct b). cbn [rbind].
    assert (readF32 r = Err Malformed) as ->
      by (unfold readF32; by destruct b; [rewrite (simple_at r KTrue 0 rest)|rewrite (simple_at r KFalse 0 rest)]; try (by right)).
    rewrite (readBool_at r b rest Hb Ha). by destruct b.
  - destruct Hd as [_ Hl]. pose proof Ha as Ha'. cbn [op_bytes] in Ha'. rewrite <- app_assoc in Ha'.
    rewrite (peek_head r 3 _ _ ltac:(lia) (Nat2Z.is_nonneg _) Ha'). cbn [rbind Z.eqb Pos.eqb]. unfold readTstr.
    by rewrite (readStr_at 3 r s rest Hb ltac:(lia) Hl Ha).
Qed.

Lemma readText_at e cap r s rest : is_bytes (r_in r) -> text_ok cap s -> (cap < 256)%nat -> (e = false -> s <> []) ->
  ahead r = op_bytes (OpTstr s) ++ rest -> readText e cap r = Ok (s, advance (length (op_bytes (OpTstr s))) consumeOne r).
Proof.
  intros Hb [Hs Hl] Hc Hne Ha. unfold readText, readTstr.
  rewrite (readStr_at 3 r s rest Hb ltac:(lia) ltac:(unfold is_u64; lia) Ha). cbn [rbind].
  assert (negb e && negb (nonEmpty s) = false) as -> by (unfold nonEmpty; destruct e; [done|]; rewrite bool_decide_eq_false_2 by auto; done).
  destruct (Nat.ltb_spec cap (length s)); [lia|done].
Qed.

Lemma readUpTo_at max r v rest : is_bytes (r_in r) -> 0 <= v <= max -> is_u64 max -> ahead r = op_bytes (OpUint v) ++ rest ->
  readUpTo max r = Ok (v, advance (length (op_bytes (OpUint v))) consumeOne r).
Proof.
  intros Hb Hv Hm Ha. unfold readUpTo. rewrite (readUint_at r v rest Hb ltac:(unfold is_u64 in *; lia) Ha). cbn [rbind].
  destruct (Z.ltb_spec max v); [lia|done].
Qed.

Section good_fields.
Context {M : Type} (field : Z -> M -> CborReader -> Result (M * CborReader) DecodeError) (d : nat) (k : Z).
Hypothesis Hk : is_u64 k.

Lemma good_upto max v eff : 0 <= v <= max -> is_u64 max ->
  (forall x r r', readUpTo max r = Ok (v, r') -> field k x r = Ok (eff x, r')) -> good field d (mkEntry k [OpUint v] eff).
Proof using Hk.
  intros Hv Hm Hf. apply good_scalar; [done|unfold op_wf, is_u64 in *; lia|done|]. intros x r rest Hb _ Ha. apply Hf. by apply (readUpTo_at max r v rest).
Qed.

Lemma good_capped e cap s eff : text_ok cap s -> (cap < 256)%nat -> (e = false -> s <> []) ->
  (forall x r r', readText e cap r = Ok (s, r') -> field k x r = Ok (eff x, r')) -> good field d (mkEntry k [OpTstr s] eff).
Proof using Hk.
  intros Hs Hc Hne Hf. destruct (Hs) as [Hb' Hl]. apply good_scalar; [done|unfold op_wf, is_u64; lia|done|].
  intros x r rest Hb _ Ha. apply Hf. by apply (readText_at e cap r s rest).
Qed.

Lemma good_default v eff : default_ok v -> SettingDefault.has v = true ->
  (forall x r r', decodeSettingDefault r = Ok (v, r') -> field k x r = Ok (eff x, r')) -> good field d (mkEntry k (default_ops v) eff).
Proof using Hk.
  intros Hv Hh Hf. assert (reads d (field k) (ops_bytes (default_ops v)) eff) as Hr
    by (intros x r rest Hb _ Ha; apply Hf; by apply (decodeSettingDefault_at r v rest)).
  destruct v as [|i|f|b|s]; [done|..]; cbn [default_ops default_ok] in *; rewrite ops_bytes_1 in Hr; apply good_scalar; try done; cbn [op_wf]; try lia.
  all: apply Hv.
Qed.
End good_fields.

(** ** Labels *)

(** The catalog with more labels. *)
Definition addLabels (ls : list bytes) (cat : BasicCatalog) : BasicCatalog := more cat ls (replicate (length ls) watch) (overflow cat).

Lemma addLabels_nil cat : addLabels [] cat = cat.
Proof. apply more_nil. Qed.

Lemma addLabels_app a b cat : addLabels b (addLabels a cat) = addLabels (a ++ b) cat.
Proof. unfold addLabels. rewrite more_more, length_app, replicate_add. done. Qed.

Lemma labelUsed_add ls cat : labelUsed (addLabels ls cat) = (labelUsed cat + length ls)%nat.
Proof. unfold labelUsed. cbn. apply length_app. Qed.

Section labels.
Variable Labels : nat.

Lemma pushLabel_ok s cat : (labelUsed cat + 1 <= Labels)%nat -> pushLabel Labels s cat = Ok (addLabels [s] cat).
Proof. intros H. unfold pushLabel, poolAddLabel. destruct (Nat.leb_spec Labels (labelUsed cat)); [lia|]. by destruct cat. Qed.

Lemma fillGap_ok n cat : (labelUsed cat + n <= Labels)%nat -> fillGap Labels n cat = Ok (addLabels (replicate n []) cat).
Proof.
  revert cat. induction n as [|n IH]; intros cat H; [by rewrite addLabels_nil|]. cbn [fillGap]. rewrite pushLabel_ok by lia. cbn [rbind].
  rewrite IH by (rewrite labelUsed_add; cbn [length]; lia). by rewrite addLabels_app.
Qed.

Definition option_item (cat : BasicCatalog) (r : CborReader) : Result (BasicCatalog * CborReader) DecodeError :=
  let? (s, r) := readText false limits.option_label_max_bytes r in let? cat := pushLabel Labels s cat in Ok (cat, r).

Definition option_ok (s : bytes) : Prop := text_ok limits.option_label_max_bytes s /\ s <> [].

Definition option_ops (s : bytes) : list op := [OpTstr s].

Lemma options_visit d options cat : Forall option_ok options -> (labelUsed cat + length options <= Labels)%nat ->
  visits option_item d ((fun s => ops_bytes (option_ops s)) <$> options) cat (addLabels options cat).
Proof.
  intros H. revert cat. induction H as [|s options [Hs Hne] _ IH]; intros cat Hl; [rewrite addLabels_nil; constructor|]. cbn [length fmap list_fmap] in *.
  apply v_cons with (m2 := addLabels [s] cat).
  - intros r rest Hb _ Ha. unfold option_ops in *. rewrite ops_bytes_1 in *. unfold option_item. rewrite (readText_at false _ r s rest) by (done || (unfold limits.option_label_max_bytes; lia)).
    cbn [rbind]. by rewrite pushLabel_ok by lia.
  - change (s :: options) with ([s] ++ options). rewrite <- addLabels_app. apply IH. rewrite labelUsed_add. cbn [length]. lia.
Qed.

Lemma decodeOptions_at d options cat r rest : (d < kMaxDepth)%nat -> Forall option_ok options -> options <> [] ->
  (length options <= LabelRef.kMaxCount)%nat -> (labelUsed cat + length options <= Labels)%nat ->
  is_bytes (r_in r) -> length (r_stack r) = d -> ahead r = ops_bytes (array_ops option_ops options) ++ rest ->
  decodeOptions Labels r cat
  = Ok (LabelRef.mk (Z.of_nat (labelUsed cat)) (length options), addLabels options cat, advance (length (ops_bytes (array_ops option_ops options))) consumeOne r).
Proof.
  intros Hd Ho Hne Hmax Hfit Hb Hs Ha. unfold LabelRef.kMaxCount in *. rewrite array_bytes in *. set (bss := (fun s => ops_bytes (option_ops s)) <$> options) in *.
  assert (length bss = length options) as Hlen by apply length_fmap.
  assert (bss <> []) as Hne' by (intros E; rewrite E in Hlen; by destruct options).
  destruct (arrayHeader_at d bss r rest Hd ltac:(unfold is_u32; lia) Hne' Hb Hs Ha) as (r1 & E & Hb1 & Hs1 & Ha1 & Hadv).
  unfold decodeOptions. rewrite E. cbn [rbind]. destruct (Z.eqb_spec (Z.of_nat (length bss)) 0); [destruct options; [done|cbn in *; lia]|].
  destruct (Z.ltb_spec (Z.of_nat LabelRef.kMaxCount) (Z.of_nat (length bss))); [unfold LabelRef.kMaxCount in *; lia|]. cbn [orb].
  pose proof (items_visit option_item (S d) bss cat (addLabels options cat) (r_stack r) false 0 r1 rest (options_visit (S d) options cat Ho Hfit)
    Hne' Hb1 Hs1 ltac:(by rewrite Hs) Ha1) as V. unfold option_item in V. rewrite V. cbn [rbind]. clear V.
  rewrite (Hadv _ consumeOne), length_app, Hlen. rewrite u8_id by (unfold is_u8; lia). by rewrite Nat2Z.id.
Qed.

(** *** Bit names *)

Definition bit_entry (p : Z * bytes) : Entry (BasicCatalog * nat) :=
  mkEntry p.1 [OpTstr p.2] (fun '(cat, filled) => (addLabels (replicate (Z.to_nat p.1 - filled) [] ++ [p.2]) cat, S (Nat.max filled (Z.to_nat p.1)))).

Definition named (j : nat) (bs : list bytes) : list (Z * bytes) :=
  filter (fun p => nonEmpty p.2 = true) (imap (fun i s => (Z.of_nat (j + i), s)) bs).

Lemma named_0 bits : namedBits bits = named 0 bits.
Proof. done. Qed.

Lemma named_cons j s bs : named j (s :: bs) = (if nonEmpty s then [(Z.of_nat j, s)] else []) ++ named (S j) bs.
Proof.
  unfold named. rewrite imap_cons, filter_cons, Nat.add_0_r. cbn [snd].
  assert (E : imap ((fun i s => (Z.of_nat (j + i), s)) ∘ S) bs = imap (fun i s => (Z.of_nat (S j + i), s)) bs)
    by (apply imap_ext; intros i x _; cbn; do 2 f_equal; lia).
  rewrite E. by destruct (nonEmpty s) eqn:H; [rewrite decide_True by done|rewrite decide_False by done].
Qed.

Lemma nonEmpty_true s : nonEmpty s = true <-> s <> [].
Proof. unfold nonEmpty. rewrite negb_true_iff. apply bool_decide_eq_false. Qed.

Lemma nonEmpty_false s : nonEmpty s = false -> s = [].
Proof. unfold nonEmpty. rewrite negb_false_iff. apply bool_decide_eq_true. Qed.

Lemma length_named j bs : Z.of_nat (length (named j bs)) = nBits bs.
Proof.
  revert j. induction bs as [|s bs IH]; intros j; [done|]. rewrite named_cons, length_app. unfold nBits in *. rewrite filter_cons.
  specialize (IH (S j)). destruct (nonEmpty s) eqn:H; [rewrite decide_True by done|rewrite decide_False by done]; cbn [length]; lia.
Qed.

Definition trimmed (bs : list bytes) : Prop := forall s, last bs = Some s -> s <> [].

Lemma trimmed_cons s bs : trimmed (s :: bs) -> trimmed bs.
Proof. intros H x Hx. apply H. by destruct bs. Qed.

Lemma named_empty j bs : trimmed bs -> named j bs = [] -> bs = [].
Proof.
  revert j. induction bs as [|s bs IH]; intros j Ht; [done|]. rewrite named_cons. destruct (nonEmpty s) eqn:H; [done|]. cbn [app]. intros E.
  apply IH in E as ->; [|by eapply trimmed_cons]. apply nonEmpty_false in H. by destruct (Ht s).
Qed.

Lemma bitField_at d k s cat filled : text_ok 24 s -> s <> [] -> 0 <= k < 8 -> (labelUsed cat + (Z.to_nat k - filled) + 1 <= Labels)%nat ->
  readsTo d (bitField Labels k) (ops_bytes [OpTstr s]) (cat, filled) (e_eff (bit_entry (k, s)) (cat, filled)).
Proof.
  intros Hs Hne Hk Hfit r rest Hb _ Ha. rewrite ops_bytes_1 in *. unfold bitField. destruct (Z.leb_spec 8 k); [lia|].
  rewrite (readText_at false 24 r s rest) by (done || lia). cbn [rbind]. rewrite fillGap_ok by lia. cbn [rbind].
  rewrite pushLabel_ok by (rewrite labelUsed_add, length_replicate; lia). cbn [rbind]. by rewrite addLabels_app.
Qed.

Lemma bits_follow d bs j g cat : Forall (text_ok 24) bs -> trimmed bs -> (g <= j)%nat -> (j + length bs <= 8)%nat ->
  (labelUsed cat + g + length bs <= Labels)%nat ->
  follows (bitField Labels) d (bit_entry <$> named j bs) (cat, (j - g)%nat)
  /\ (bs <> [] -> effects (bit_entry <$> named j bs) (cat, (j - g)%nat) = (addLabels (replicate g [] ++ bs) cat, (j + length bs)%nat)).
Proof.
  intros Hbs. revert j g cat. induction Hbs as [|s bs Hs Hbs IH]; intros j g cat Ht Hg Hj Hfit; [done|].
  rewrite named_cons. cbn [length] in *. destruct (nonEmpty s) eqn:Hne.
  - apply nonEmpty_true in Hne. cbn [app fmap list_fmap follows]. rewrite effects_cons.
    assert (e_eff (bit_entry (Z.of_nat j, s)) (cat, (j - g)%nat) = (addLabels (replicate g [] ++ [s]) cat, S j)) as E.
    { cbn [bit_entry e_eff fst snd]. rewrite Nat2Z.id. replace (j - (j - g))%nat with g by lia. by rewrite Nat.max_r by lia. }
    rewrite E. destruct (IH (S j) 0%nat (addLabels (replicate g [] ++ [s]) cat)) as [F K].
    { by eapply trimmed_cons. } { lia. } { lia. } { rewrite labelUsed_add, length_app, length_replicate. cbn [length]. lia. }
    rewrite Nat.sub_0_r in *. split.
    + split; [|exact F]. split; [unfold is_u64; cbn [bit_entry e_key fst]; lia|]. rewrite <- E. apply bitField_at; [done|done|lia|]. rewrite Nat2Z.id. lia.
    + intros _. destruct bs as [|s2 bs]; [change (named (S j) []) with (@nil (Z * bytes)); cbn [fmap list_fmap length]; rewrite effects_nil; f_equal; lia|].
      rewrite K by done. rewrite addLabels_app. cbn [replicate app]. rewrite <- app_assoc. cbn [app length]. f_equal. lia.
  - apply nonEmpty_false in Hne as ->. cbn [app]. destruct (IH (S j) (S g) cat) as [F K].
    { by eapply trimmed_cons. } { lia. } { lia. } { lia. }
    change (S j - S g)%nat with (j - g)%nat in *. split; [exact F|]. intros _. destruct bs as [|s2 bs]; [by destruct (Ht [])|].
    rewrite K by done. rewrite replicate_S_end, <- app_assoc. cbn [app length]. f_equal. lia.
Qed.

Definition bitWire (bits : list bytes) : list (Entry (BasicCatalog * nat)) := bit_entry <$> named 0 bits.

Lemma named_ascending j bs o : match o with Some l => l < Z.of_nat j | None => True end -> ascending o ((named j bs).*1).
Proof.
  revert j o. induction bs as [|s bs IH]; intros j o Ho; [done|]. rewrite named_cons. destruct (nonEmpty s); cbn [app fmap list_fmap].
  - split; [done|]. apply IH. cbn. lia.
  - apply IH. destruct o; [lia|done].
Qed.

Lemma bitWire_ascending bits : ascending None (e_key <$> bitWire bits).
Proof. unfold bitWire. rewrite <- list_fmap_compose. by apply named_ascending. Qed.

Lemma bitWire_written d bits : (d < kMaxDepth)%nat -> Forall (text_ok 24) bits -> (length bits <= 8)%nat -> written d (map_ops (bitWire bits)).
Proof.
  intros Hd Hb Hl. assert (Z.of_nat (length (bitWire bits)) <= 8) as Hn.
  { unfold bitWire. rewrite length_fmap, length_named. unfold nBits. pose proof (length_filter (fun s => nonEmpty s = true) bits). lia. }
  apply written_map; [done|unfold is_u32; lia| |apply bitWire_ascending]. apply Forall_fmap, Forall_forall. intros [k s] H. cbn [compose bit_entry e_key e_ops fst snd].
  apply list_elem_of_filter in H as [_ H]. apply elem_of_lookup_imap in H as (i & x & [= -> ->] & Hi). rewrite Forall_forall in Hb.
  pose proof (lookup_lt_Some _ _ _ Hi) as Hlt. destruct (Hb x) as [Hx Lx]; [by eapply list_elem_of_lookup_2|]. split; [unfold is_u64; lia|].
  split; [by repeat constructor; unfold op_wf, is_u64; lia|by apply closes_scalar|]. rewrite ops_bytes_1. apply is_bytes_op; [unfold op_wf, is_u64; lia|done].
Qed.

Lemma decodeBits_at d bits cat r rest : (d < kMaxDepth)%nat -> Forall (text_ok 24) bits -> trimmed bits -> bits <> [] -> (length bits <= 8)%nat ->
  (labelUsed cat + length bits <= Labels)%nat -> is_bytes (r_in r) -> length (r_stack r) = d -> ahead r = map_bytes (bitWire bits) ++ rest ->
  decodeBits Labels r cat
  = Ok (LabelRef.mk (Z.of_nat (labelUsed cat)) (length bits), addLabels bits cat, advance (length (map_bytes (bitWire bits))) consumeOne r).
Proof.
  intros Hd Hb Ht Hne Hl Hfit Hbr Hs Ha. assert (length (bitWire bits) <= 8)%nat as Hn.
  { unfold bitWire. rewrite length_fmap. pose proof (length_named 0 bits) as E. unfold nBits in E. pose proof (length_filter (fun s => nonEmpty s = true) bits). lia. }
  assert (bitWire bits <> []) as Hne'.
  { unfold bitWire. intros E. apply fmap_nil_inv in E. by apply named_empty in E. }
  destruct (mapHeader_at d (bitWire bits) r rest Hd ltac:(unfold is_u32; lia) Hne' Hbr Hs Ha) as (r1 & E & Hb1 & Hs1 & Ha1 & Hadv).
  unfold decodeBits. rewrite E. cbn [rbind]. destruct (Z.eqb_spec (Z.of_nat (length (bitWire bits))) 0) as [E0|_]; [destruct (bitWire bits); [done|cbn in E0; lia]|].
  destruct (Z.ltb_spec 8 (Z.of_nat (length (bitWire bits)))); [lia|]. cbn [orb].
  destruct (bits_follow (S d) bits 0 0 cat Hb Ht) as [F K]; [lia|lia|lia|].
  rewrite (fields_follow (bitField Labels) (S d) (r_stack r) (bitWire bits) (cat, 0%nat) r1 false 0 F (bitWire_ascending bits) Hne' Hb1 Hs1 ltac:(by rewrite Hs) rest Ha1).
  cbn [rbind]. assert (effects (bitWire bits) (cat, 0%nat) = (addLabels bits cat, length bits)) as -> by exact (K Hne). cbn [fst snd].
  rewrite (Hadv _ consumeOne). unfold map_bytes. by rewrite length_app.
Qed.
End labels.

(** The reference a decoder makes for labels it pushed. *)
Definition refOf (cat : BasicCatalog) (ls : list bytes) : LabelRef.t :=
  if some ls then LabelRef.mk (Z.of_nat (labelUsed cat)) (length ls) else LabelRef.none.

Lemma some_cons {A} (l : list A) : some l = true <-> l <> [].
Proof. unfold some. destruct l; cbn; naive_solver. Qed.

Lemma some_nil {A} (l : list A) : some l = false -> l = [].
Proof. by destruct l. Qed.

(** ** Layout fields *)

Section layout.
Variable Labels : nat.

(** What the decoder accepts and restores: the ranges and caps of the readers, and
    an absent annotation at its default. *)
Record layout_sendable (f : LayoutField.t) (bits options : list bytes) : Prop := {
  ls_name : text_ok 24 (LayoutField.name f) /\ LayoutField.name f <> []; ls_unit : text_ok 8 (LayoutField.unit f);
  ls_scale : is_u32 (LayoutField.scale f); ls_min : is_u32 (LayoutField.min f); ls_max : is_u32 (LayoutField.max f);
  ls_bits : Forall (text_ok 24) bits /\ trimmed bits /\ (length bits <= 8)%nat;
  ls_setting : is_u8 (LayoutField.settingKey f); ls_dflt : default_ok (LayoutField.dflt f);
  ls_options : Forall option_ok options /\ (length options <= LabelRef.kMaxCount)%nat;
  ls_group : text_ok 24 (LayoutField.group f); ls_desc : text_ok limits.desc_max_bytes (LayoutField.desc f); ls_role : text_ok 24 (LayoutField.role f);
  ls_step : is_u32 (LayoutField.step f); ls_flags : is_u8 (LayoutField.flags f); ls_rank : is_u8 (LayoutField.rank f);
  ls_aspect : is_u8 (LayoutField.aspect f); ls_scope : is_u8 (LayoutField.scope f); ls_provenance : is_u8 (LayoutField.provenance f);
  ls_unitId : is_u8 (LayoutField.unitId f);
  no_min : LayoutField.hasMin f = false -> LayoutField.min f = 0; no_max : LayoutField.hasMax f = false -> LayoutField.max f = 0;
  no_setting : LayoutField.hasSettingKey f = false -> LayoutField.settingKey f = 0; no_step : LayoutField.hasStep f = false -> LayoutField.step f = 0;
  no_rank : LayoutField.hasRank f = false -> LayoutField.rank f = 0; no_aspect : LayoutField.hasAspect f = false -> LayoutField.aspect f = 0;
  no_scope : LayoutField.hasScope f = false -> LayoutField.scope f = 0;
  no_provenance : LayoutField.hasProvenance f = false -> LayoutField.provenance f = 0;
  no_unitId : LayoutField.hasUnitId f = false -> LayoutField.unitId f = 0;
  no_refs : LayoutField.bits f = LabelRef.none /\ LayoutField.options f = LabelRef.none }.

Definition layoutHead (f : LayoutField.t) : list (Entry LayoutState) :=
  mkEntry 1 [OpTstr (LayoutField.name f)] (fun s => s{{lf := (lf s){{LayoutField.name := LayoutField.name f}}; lf_gotName := true}})
  :: mkEntry 2 [OpUint (PackedFieldType.to_u8 (LayoutField.type f))] (fun s => s{{lf := (lf s){{LayoutField.type := LayoutField.type f}}; lf_gotType := true}})
  :: mkEntry 3 [OpTstr (LayoutField.unit f)] (fun s => s{{lf := (lf s){{LayoutField.unit := LayoutField.unit f}}; lf_gotUnit := true}})
  :: mkEntry 4 [OpF32 (LayoutField.scale f)] (fun s => s{{lf := (lf s){{LayoutField.scale := LayoutField.scale f}}; lf_gotScale := true}})
  :: opt (LayoutField.hasMin f) (mkEntry 5 [OpF32 (LayoutField.min f)]
       (fun s => s{{lf := (lf s){{LayoutField.min := LayoutField.min f; LayoutField.hasMin := LayoutField.hasMin f}} }}))
  ++ opt (LayoutField.hasMax f) (mkEntry 6 [OpF32 (LayoutField.max f)]
       (fun s => s{{lf := (lf s){{LayoutField.max := LayoutField.max f; LayoutField.hasMax := LayoutField.hasMax f}} }}))
  ++ [].

Definition bitsEntry (bits : list bytes) : Entry LayoutState :=
  mkEntry 7 (map_ops (bitWire bits)) (fun s => s{{lf := (lf s){{LayoutField.bits := refOf (lf_cat s) bits}}; lf_cat := addLabels bits (lf_cat s)}}).

Definition layoutMiddle (f : LayoutField.t) : list (Entry LayoutState) :=
  opt (LayoutField.hasSettingKey f) (mkEntry 8 [OpUint (LayoutField.settingKey f)]
       (fun s => s{{lf := (lf s){{LayoutField.settingKey := LayoutField.settingKey f; LayoutField.hasSettingKey := LayoutField.hasSettingKey f}} }}))
  ++ opt (SettingDefault.has (LayoutField.dflt f)) (mkEntry 9 (default_ops (LayoutField.dflt f))
       (fun s => s{{lf := (lf s){{LayoutField.dflt := LayoutField.dflt f}} }}))
  ++ [].

Definition optionsEntry (options : list bytes) : Entry LayoutState :=
  mkEntry 10 (array_ops option_ops options)
    (fun s => s{{lf := (lf s){{LayoutField.options := refOf (lf_cat s) options}}; lf_cat := addLabels options (lf_cat s)}}).

Definition layoutTail (f : LayoutField.t) : list (Entry LayoutState) :=
  opt (nonEmpty (LayoutField.group f)) (mkEntry 11 [OpTstr (LayoutField.group f)] (fun s => s{{lf := (lf s){{LayoutField.group := LayoutField.group f}} }}))
  ++ opt (nonEmpty (LayoutField.desc f)) (mkEntry 12 [OpTstr (LayoutField.desc f)] (fun s => s{{lf := (lf s){{LayoutField.desc := LayoutField.desc f}} }}))
  ++ opt (nonEmpty (LayoutField.role f)) (mkEntry 13 [OpTstr (LayoutField.role f)] (fun s => s{{lf := (lf s){{LayoutField.role := LayoutField.role f}} }}))
  ++ opt (LayoutField.hasStep f) (mkEntry 14 [OpF32 (LayoutField.step f)]
       (fun s => s{{lf := (lf s){{LayoutField.step := LayoutField.step f; LayoutField.hasStep := LayoutField.hasStep f}} }}))
  ++ opt (negb (LayoutField.flags f =? 0)) (mkEntry 15 [OpUint (LayoutField.flags f)] (fun s => s{{lf := (lf s){{LayoutField.flags := LayoutField.flags f}} }}))
  ++ opt (LayoutField.hasRank f) (mkEntry 19 [OpUint (LayoutField.rank f)]
       (fun s => s{{lf := (lf s){{LayoutField.rank := LayoutField.rank f; LayoutField.hasRank := LayoutField.hasRank f}} }}))
  ++ opt (LayoutField.hasAspect f) (mkEntry 20 [OpUint (LayoutField.aspect f)]
       (fun s => s{{lf := (lf s){{LayoutField.aspect := LayoutField.aspect f; LayoutField.hasAspect := LayoutField.hasAspect f}} }}))
  ++ opt (LayoutField.hasScope f) (mkEntry 21 [OpUint (LayoutField.scope f)]
       (fun s => s{{lf := (lf s){{LayoutField.scope := LayoutField.scope f; LayoutField.hasScope := LayoutField.hasScope f}} }}))
  ++ opt (LayoutField.hasProvenance f) (mkEntry 22 [OpUint (LayoutField.provenance f)]
       (fun s => s{{lf := (lf s){{LayoutField.provenance := LayoutField.provenance f; LayoutField.hasProvenance := LayoutField.hasProvenance f}} }}))
  ++ opt (LayoutField.hasUnitId f) (mkEntry 23 [OpUint (LayoutField.unitId f)]
       (fun s => s{{lf := (lf s){{LayoutField.unitId := LayoutField.unitId f; LayoutField.hasUnitId := LayoutField.hasUnitId f}} }}))
  ++ [].

Definition layoutWire (f : LayoutField.t) (bits options : list bytes) : list (Entry LayoutState) :=
  layoutHead f ++ opt (some bits) (bitsEntry bits) ++ layoutMiddle f ++ opt (some options) (optionsEntry options) ++ layoutTail f.

Lemma packed_roundtrip t : packed_of (PackedFieldType.to_u8 t) = t /\ 0 <= PackedFieldType.to_u8 t <= 10.
Proof. destruct t; split; cbn; done || lia. Qed.

Ltac key_of fld := let E := fresh "E" in intros x r r' E; unfold fld; switch; rewrite E; cbn [rbind].

Lemma layoutHead_good f bits options d : layout_sendable f bits options -> Forall (good (layoutKey Labels) d) (layoutHead f).
Proof.
  intros H. unfold layoutHead. rewrite !Forall_cons, !Forall_app. split_and!; try apply List.Forall_nil; try (apply Forall_opt; intros Hh).
  - destruct (ls_name _ _ _ H). apply good_capped with (e := false) (cap := 24%nat); [done|done|lia|done|]. by key_of layoutKey.
  - destruct (packed_roundtrip (LayoutField.type f)) as [E1 E2]. apply good_upto with (max := 10); [done|done|done|]. key_of layoutKey. by rewrite E1.
  - apply good_capped with (e := true) (cap := 8%nat); [done|apply H|lia|done|]. by key_of layoutKey.
  - apply good_float; [done|apply H|]. by key_of layoutKey.
  - apply good_float; [done|apply H|]. key_of layoutKey. by rewrite Hh.
  - apply good_float; [done|apply H|]. key_of layoutKey. by rewrite Hh.
Qed.

Lemma layoutMiddle_good f bits options d : layout_sendable f bits options -> Forall (good (layoutKey Labels) d) (layoutMiddle f).
Proof.
  intros H. unfold layoutMiddle. rewrite !Forall_app. split_and!; try apply List.Forall_nil; try (apply Forall_opt; intros Hh).
  - pose proof (ls_setting _ _ _ H). apply good_upto with (max := 0xFF); [done|unfold is_u8 in *; lia|done|]. key_of layoutKey. by rewrite Hh.
  - apply good_default; [done|apply H|done|]. by key_of layoutKey.
Qed.

Lemma layoutTail_good f bits options d : layout_sendable f bits options -> Forall (good (layoutKey Labels) d) (layoutTail f).
Proof.
  intros H. unfold layoutTail. rewrite !Forall_app. split_and!; try apply List.Forall_nil; try (apply Forall_opt; intros Hh).
  - apply nonEmpty_true in Hh. apply good_capped with (e := false) (cap := 24%nat); [done|apply H|lia|done|]. by key_of layoutKey.
  - apply nonEmpty_true in Hh. apply good_capped with (e := false) (cap := limits.desc_max_bytes); [done|apply H|unfold limits.desc_max_bytes; lia|done|]. by key_of layoutKey.
  - apply nonEmpty_true in Hh. apply good_capped with (e := false) (cap := 24%nat); [done|apply H|lia|done|]. by key_of layoutKey.
  - apply good_float; [done|apply H|]. key_of layoutKey. by rewrite Hh.
  - pose proof (ls_flags _ _ _ H). apply good_upto with (max := 0xFF); [done|unfold is_u8 in *; lia|done|]. by key_of layoutKey.
  - pose proof (ls_rank _ _ _ H). apply good_upto with (max := 0xFF); [done|unfold is_u8 in *; lia|done|]. key_of layoutKey. by rewrite Hh.
  - pose proof (ls_aspect _ _ _ H). apply good_upto with (max := 0xFF); [done|unfold is_u8 in *; lia|done|]. key_of layoutKey. by rewrite Hh.
  - pose proof (ls_scope _ _ _ H). apply good_upto with (max := 0xFF); [done|unfold is_u8 in *; lia|done|]. key_of layoutKey. by rewrite Hh.
  - pose proof (ls_provenance _ _ _ H). apply good_upto with (max := 0xFF); [done|unfold is_u8 in *; lia|done|]. key_of layoutKey. by rewrite Hh.
  - pose proof (ls_unitId _ _ _ H). apply good_upto with (max := 0xFF); [done|unfold is_u8 in *; lia|done|]. key_of layoutKey. by rewrite Hh.
Qed.

(** Entries that leave the pools alone. *)
Definition aside (es : list (Entry LayoutState)) : Prop := Forall (fun e => forall s, lf_cat (e_eff e s) = lf_cat s) es.

Lemma aside_effects es s : aside es -> lf_cat (effects es s) = lf_cat s.
Proof. intros H. revert s. induction H as [|e es He _ IH]; intros s; [done|]. by rewrite effects_cons, IH. Qed.

Lemma layout_aside f : aside (layoutHead f) /\ aside (layoutMiddle f) /\ aside (layoutTail f).
Proof.
  unfold aside, layoutHead, layoutMiddle, layoutTail. rewrite !Forall_cons, !Forall_app. split_and!; try apply List.Forall_nil; try done; by apply Forall_opt.
Qed.

Lemma effects_app {M} (a b : list (Entry M)) m : effects (a ++ b) m = effects b (effects a m).
Proof. apply foldl_app. Qed.

Lemma bits_read d bits s : (d < kMaxDepth)%nat -> Forall (text_ok 24) bits -> trimmed bits -> (length bits <= 8)%nat ->
  (labelUsed (lf_cat s) + length bits <= Labels)%nat -> follows (layoutKey Labels) d (opt (some bits) (bitsEntry bits)) s
  /\ lf_cat (effects (opt (some bits) (bitsEntry bits)) s) = addLabels bits (lf_cat s).
Proof.
  intros Hd Hb Ht Hl Hfit. destruct (some bits) eqn:Hs; cbn [opt].
  - apply some_cons in Hs as Hne. split; [|done]. split; [|done]. split; [done|]. intros r rest Hbr Hst Ha. unfold bitsEntry, e_bytes in *. cbn [e_key e_ops e_eff] in *.
    rewrite ops_bytes_map in *. unfold layoutKey. switch. rewrite (decodeBits_at Labels d bits (lf_cat s) r rest) by done. cbn [rbind].
    unfold refOf. by rewrite Hs.
  - apply some_nil in Hs as ->. split; [done|]. by rewrite addLabels_nil.
Qed.

Lemma options_read d options s : (d < kMaxDepth)%nat -> Forall option_ok options -> (length options <= LabelRef.kMaxCount)%nat ->
  (labelUsed (lf_cat s) + length options <= Labels)%nat -> follows (layoutKey Labels) d (opt (some options) (optionsEntry options)) s
  /\ lf_cat (effects (opt (some options) (optionsEntry options)) s) = addLabels options (lf_cat s).
Proof.
  intros Hd Hb Hl Hfit. destruct (some options) eqn:Hs; cbn [opt].
  - apply some_cons in Hs as Hne. split; [|done]. split; [|done]. split; [done|]. intros r rest Hbr Hst Ha. unfold optionsEntry, e_bytes in *. cbn [e_key e_ops e_eff] in *.
    unfold layoutKey. switch. rewrite (decodeOptions_at Labels d options (lf_cat s) r rest) by done. cbn [rbind].
    unfold refOf. by rewrite Hs.
  - apply some_nil in Hs as ->. split; [done|]. by rewrite addLabels_nil.
Qed.

Lemma layout_follows d f bits options s : (d < kMaxDepth)%nat -> layout_sendable f bits options ->
  (labelUsed (lf_cat s) + length bits + length options <= Labels)%nat -> follows (layoutKey Labels) d (layoutWire f bits options) s.
Proof.
  intros Hd H Hfit. destruct (layout_aside f) as (A1 & A2 & A3). destruct (ls_bits _ _ _ H) as (Hb & Ht & Hl). destruct (ls_options _ _ _ H) as [Ho Hlo].
  unfold layoutWire. rewrite !follows_app. split_and!; try (by apply follows_good; eauto using layoutHead_good, layoutMiddle_good, layoutTail_good).
  - apply bits_read; [done|done|done|done|]. rewrite aside_effects by done. lia.
  - apply options_read; [done|done|done|]. rewrite (aside_effects (layoutMiddle f)) by done.
    destruct (bits_read d bits (effects (layoutHead f) s) Hd Hb Ht Hl) as [_ ->]; [rewrite aside_effects by done; lia|].
    rewrite aside_effects, labelUsed_add by done. lia.
Qed.

Lemma effects_opt_last {M} b (e : Entry M) s : (b = false -> e_eff e s = s) -> effects (opt b e) s = e_eff e s.
Proof. destruct b; [done|]. intros H. by rewrite H. Qed.

(** The state behind a layout field. *)
Definition layoutRead (f : LayoutField.t) (bits options : list bytes) (cat : BasicCatalog) : LayoutState :=
  mkLayoutState (f{{LayoutField.bits := refOf cat bits; LayoutField.options := refOf (addLabels bits cat) options}})
    true true true true (addLabels options (addLabels bits cat)).

(** The field as far as its head, its bits, its middle and its options say. *)
Definition stage1 (f : LayoutField.t) : LayoutField.t :=
  LayoutField.init{{LayoutField.name := LayoutField.name f; LayoutField.type := LayoutField.type f; LayoutField.unit := LayoutField.unit f;
    LayoutField.scale := LayoutField.scale f; LayoutField.min := LayoutField.min f; LayoutField.hasMin := LayoutField.hasMin f;
    LayoutField.max := LayoutField.max f; LayoutField.hasMax := LayoutField.hasMax f}}.
Definition stage2 (f : LayoutField.t) (bits : LabelRef.t) : LayoutField.t := (stage1 f){{LayoutField.bits := bits}}.
Definition stage3 (f : LayoutField.t) (bits : LabelRef.t) : LayoutField.t :=
  (stage2 f bits){{LayoutField.settingKey := LayoutField.settingKey f; LayoutField.hasSettingKey := LayoutField.hasSettingKey f;
    LayoutField.dflt := LayoutField.dflt f}}.
Definition stage4 (f : LayoutField.t) (bits options : LabelRef.t) : LayoutField.t := (stage3 f bits){{LayoutField.options := options}}.

Lemma effects_head f bits options cat : layout_sendable f bits options ->
  effects (layoutHead f) (mkLayoutState LayoutField.init false false false false cat) = mkLayoutState (stage1 f) true true true true cat.
Proof.
  intros H. pose proof (no_min _ _ _ H) as N1. pose proof (no_max _ _ _ H) as N2. unfold layoutHead. rewrite !effects_cons, !effects_opt, effects_nil; [done| |];
    intros E; cbn [e_eff]; rewrite E, ?N1, ?N2 by done; done.
Qed.

Lemma effects_middle f bits options ref cat : layout_sendable f bits options ->
  effects (layoutMiddle f) (mkLayoutState (stage2 f ref) true true true true cat) = mkLayoutState (stage3 f ref) true true true true cat.
Proof.
  intros H. pose proof (no_setting _ _ _ H) as N1. unfold layoutMiddle. rewrite !effects_opt, effects_nil; [done| |];
    intros E; cbn [e_eff]; [by destruct (LayoutField.dflt f)|]. rewrite E, N1 by done. done.
Qed.

Lemma effects_tail f bits options ref ref' cat : layout_sendable f bits options ->
  effects (layoutTail f) (mkLayoutState (stage4 f ref ref') true true true true cat)
  = mkLayoutState (f{{LayoutField.bits := ref; LayoutField.options := ref'}}) true true true true cat.
Proof.
  intros H. pose proof (no_step _ _ _ H) as N1. pose proof (no_rank _ _ _ H) as N2. pose proof (no_aspect _ _ _ H) as N3.
  pose proof (no_scope _ _ _ H) as N4. pose proof (no_provenance _ _ _ H) as N5. pose proof (no_unitId _ _ _ H) as N6. clear H.
  unfold layoutTail. rewrite !effects_opt, effects_nil; [by destruct f|..]; intros E; cbn [e_eff].
  all: try (rewrite E, ?N1, ?N2, ?N3, ?N4, ?N5, ?N6 by done; done).
  all: try (apply nonEmpty_false in E; rewrite E; done).
  apply negb_false_iff, Z.eqb_eq in E. rewrite E. done.
Qed.

Lemma absent_bits s : LayoutField.bits (lf s) = LabelRef.none -> e_eff (bitsEntry []) s = s.
Proof. destruct s as [f g1 g2 g3 g4 cat]. intros E. cbn in E. unfold bitsEntry. cbn [e_eff]. rewrite addLabels_nil. by destruct f; cbn in E; subst. Qed.

Lemma absent_options s : LayoutField.options (lf s) = LabelRef.none -> e_eff (optionsEntry []) s = s.
Proof. destruct s as [f g1 g2 g3 g4 cat]. intros E. cbn in E. unfold optionsEntry. cbn [e_eff]. rewrite addLabels_nil. by destruct f; cbn in E; subst. Qed.

Lemma layout_effects f bits options cat : layout_sendable f bits options ->
  effects (layoutWire f bits options) (mkLayoutState LayoutField.init false false false false cat) = layoutRead f bits options cat.
Proof.
  intros H. unfold layoutWire. rewrite !effects_app, (effects_head f bits options) by done.
  rewrite (effects_opt_last (some bits)) by (intros ->%some_nil; by apply absent_bits).
  change (e_eff (bitsEntry bits) (mkLayoutState (stage1 f) true true true true cat)) with (mkLayoutState (stage2 f (refOf cat bits)) true true true true (addLabels bits cat)).
  rewrite (effects_middle f bits options) by done. rewrite (effects_opt_last (some options)) by (intros ->%some_nil; by apply absent_options).
  apply (effects_tail f bits options); done.
Qed.

Lemma layout_ascending f bits options : ascending None (e_key <$> layoutWire f bits options).
Proof.
  unfold layoutWire, layoutHead, layoutMiddle, layoutTail. rewrite <- !app_comm_cons, <- !app_assoc. cbn [app]. keys_ascending.
Qed.

Lemma layout_count f bits options : (nBits bits = 0 <-> bits = []) ->
  Z.of_nat (length (layoutWire f bits options)) = layoutKeyCount f bits options.
Proof.
  intros Hb. unfold layoutWire, layoutHead, layoutMiddle, layoutTail. rewrite <- !app_comm_cons, <- !app_assoc. cbn [app]. rewrite !count_cons, !count_opt.
  cbn [length Z.of_nat]. unfold layoutKeyCount. assert (some bits = (0 <? nBits bits)) as ->; [|ring].
  destruct (some bits) eqn:E; [apply some_cons in E|apply some_nil in E]; symmetry; [apply Z.ltb_lt|apply Z.ltb_ge].
  - assert (nBits bits <> 0) by tauto. unfold nBits in *. lia.
  - apply Hb in E. lia.
Qed.

Lemma nBits_0 bits : trimmed bits -> nBits bits = 0 <-> bits = [].
Proof.
  intros Ht. rewrite <- (length_named 0). split; [|by intros ->]. intros H. apply (named_empty 0); [done|]. apply nil_length_inv. lia.
Qed.

Lemma bits_write_run bits w :
  foldl (fun w p => tstrVal p.2 (key p.1 w)) (mapHeader (nBits bits) w) (namedBits bits) = run (map_ops (bitWire bits)) w.
Proof.
  rewrite run_map. unfold bitWire. rewrite length_fmap, length_named, named_0. generalize (mapHeader (nBits bits) w).
  induction (named 0 bits) as [|p ps IH]; intros w1; [done|]. cbn [foldl fmap list_fmap concat]. by rewrite IH, run_app.
Qed.

Lemma default_write_run d w : encodeSettingDefault d w = run (default_ops d) w.
Proof. by destruct d. Qed.

Lemma options_write_run options w : writeArray tstrVal options w = run (array_ops option_ops options) w.
Proof. by apply writeArray_run. Qed.

Lemma layout_write_run f bits options w : trimmed bits -> encodeLayoutField f bits options w = run (map_ops (layoutWire f bits options)) w.
Proof.
  intros Ht. rewrite run_map, (layout_count f bits options) by (by apply nBits_0).
  assert (B : (0 <? nBits bits) = some bits).
  { destruct (some bits) eqn:E; [apply some_cons in E|apply some_nil in E as ->; done]. apply Z.ltb_lt. rewrite <- (nBits_0 bits Ht) in E. unfold nBits in *. lia. }
  unfold layoutWire, layoutHead, layoutMiddle, layoutTail. rewrite <- !app_comm_cons, <- !app_assoc. cbn [app].
  cbv delta [encodeLayoutField]; cbv beta. rewrite B. let_step.
  run_steps_by ltac:(first [rewrite bits_write_run; reflexivity|rewrite default_write_run; reflexivity|rewrite options_write_run; reflexivity|reflexivity]). done.
Qed.

Lemma option_written d s : option_ok s -> written d (option_ops s).
Proof.
  intros [[Hb Hl] _]. unfold limits.option_label_max_bytes in Hl. split; [by repeat constructor; unfold op_wf, is_u64; lia|by apply closes_scalar|].
  unfold option_ops. rewrite ops_bytes_1. apply is_bytes_op; [unfold op_wf, is_u64; lia|done].
Qed.

Lemma options_written d options : (d < kMaxDepth)%nat -> Forall option_ok options -> (length options <= LabelRef.kMaxCount)%nat ->
  written d (array_ops option_ops options).
Proof.
  intros Hd Ho Hl. unfold LabelRef.kMaxCount in Hl. apply written_array; [done|unfold is_u32; lia|]. eapply Forall_impl; [exact Ho|]. intros s. apply option_written.
Qed.

Lemma good_written {M} (field : Z -> M -> CborReader -> Result (M * CborReader) DecodeError) d es :
  Forall (good field d) es -> Forall (fun e => is_u64 (e_key e) /\ written d (e_ops e)) es.
Proof. intros H. eapply Forall_impl; [exact H|]. intros e G. split; [apply G|by eapply written_good]. Qed.

Lemma count_bound n : 0 <= n <= 64 -> is_u32 n.
Proof. unfold is_u32. lia. Qed.

Lemma layout_count_u32 f bits options : is_u32 (Z.of_nat (length (layoutWire f bits options))).
Proof.
  unfold layoutWire, layoutHead, layoutMiddle, layoutTail. rewrite <- !app_comm_cons, <- !app_assoc. cbn [app]. rewrite !count_cons, !count_opt.
  cbn [length Z.of_nat]. apply count_bound. repeat match goal with |- context [b2z ?b] => pose proof (b2z_range b); generalize dependent (b2z b); intros end. lia.
Qed.

Lemma layout_written d f bits options : (S d < kMaxDepth)%nat -> layout_sendable f bits options -> written d (map_ops (layoutWire f bits options)).
Proof.
  intros Hd H. destruct (ls_bits _ _ _ H) as (Hb & Ht & Hl). destruct (ls_options _ _ _ H) as [Ho Hlo].
  apply written_map; [lia|apply layout_count_u32| |apply layout_ascending]. unfold layoutWire. rewrite !Forall_app. split_and!.
  - eapply good_written, layoutHead_good. exact H.
  - apply Forall_opt. intros _. split; [done|]. by apply bitWire_written.
  - eapply good_written, layoutMiddle_good. exact H.
  - apply Forall_opt. intros _. split; [done|]. by apply options_written.
  - eapply good_written, layoutTail_good. exact H.
Qed.

(** A layout field read back into the pools. *)
Lemma decodeLayoutField_at d f bits options cat r rest : (S d < kMaxDepth)%nat -> layout_sendable f bits options ->
  (labelUsed cat + length bits + length options <= Labels)%nat -> is_bytes (r_in r) -> length (r_stack r) = d ->
  ahead r = ops_bytes (map_ops (layoutWire f bits options)) ++ rest ->
  decodeLayoutField Labels r cat
  = Ok (f{{LayoutField.bits := refOf cat bits; LayoutField.options := refOf (addLabels bits cat) options}}, addLabels options (addLabels bits cat),
        advance (length (ops_bytes (map_ops (layoutWire f bits options)))) consumeOne r).
Proof.
  intros Hd H Hfit Hb Hs Ha. rewrite ops_bytes_map in *. unfold decodeLayoutField.
  rewrite (decodeMap_follow (layoutKey Labels) d (layoutWire f bits options) (mkLayoutState LayoutField.init false false false false cat)
    ltac:(lia) (layout_count_u32 f bits options) ltac:(done) (layout_follows (S d) f bits options (mkLayoutState LayoutField.init false false false false cat) Hd H Hfit) (layout_ascending f bits options) r rest Hb Hs Ha).
  cbn [rbind]. by rewrite (layout_effects f bits options cat H).
Qed.
End layout.
