(* ===== verification/CatalogSchema.v ===== *)
(** * CatalogSchema: schema fields and store descriptors survive the wire

    The same as [CatalogWire] for the other two payloads of an entry: the fields of
    a schema, with the access levels beside their option labels, and the descriptor
    of a store. *)

From stdpp Require Import sorting.
From S2P Require Import Prelude Registry Float ByteIO Cbor Messages Codec Catalog Crypto CatalogCodec CatalogWire.
Local Open Scope Z_scope.

(** ** Access levels of options *)

Lemma level_roundtrip a : level_of (access_u8 a) = a /\ 0 <= access_u8 a <= 2.
Proof. destruct a; split; cbn; done || lia. Qed.

Lemma cbor_type_roundtrip t : cbor_type_of (CborFieldType.to_u8 t) = t /\ 0 <= CborFieldType.to_u8 t <= 5.
Proof. destruct t; split; cbn; done || lia. Qed.

Definition access_ops (a : AccessLevel) : list op := [OpUint (access_u8 a)].

(** The catalog with labels of given access. *)
Definition addOptions (ls : list bytes) (acc : list AccessLevel) (cat : BasicCatalog) : BasicCatalog := more cat ls acc (overflow cat).

Definition access_item (ref : LabelRef.t) (s : nat * BasicCatalog) (r : CborReader) : Result (nat * BasicCatalog * CborReader) DecodeError :=
  let '(a, cat) := s in
  let? (v, r) := readUpTo 2 r in
  match poolSetLabelAccess (Z.to_nat (u16 (LabelRef.offset ref + Z.of_nat a))) (level_of v) cat with
  | (false, _) => Err Malformed
  | (true, cat) => Ok (S a, cat, r)
  end.

Lemma setAccess_ok ls acc old a i cat : length (labelAccessPool cat) = labelUsed cat -> length acc = i -> (i < length ls)%nat ->
  length (acc ++ old) = length ls -> old <> [] ->
  poolSetLabelAccess (labelUsed cat + i) a (addOptions ls (acc ++ old) cat) = (true, addOptions ls (acc ++ [a] ++ tail old) cat).
Proof.
  intros Hw Hi Hlt Hl Hne. unfold poolSetLabelAccess. change (labelUsed (addOptions ls (acc ++ old) cat)) with (length (labelPool cat ++ ls)).
  rewrite length_app. change (length (labelPool cat)) with (labelUsed cat). destruct (Nat.leb_spec (labelUsed cat + length ls) (labelUsed cat + i)); [lia|].
  destruct old as [|x old]; [done|]. cbn [tail]. assert (E : <[(labelUsed cat + i)%nat := a]> (labelAccessPool cat ++ acc ++ x :: old) = labelAccessPool cat ++ acc ++ a :: old).
  { rewrite <- Hw, insert_app_r, <- Hi. do 1 f_equal. replace (length acc) with (length acc + 0)%nat by lia. by rewrite insert_app_r. }
  unfold addOptions, more. cbn [app]. rewrite <- E. done.
Qed.

Lemma access_visit d ls done_ todo cat : length (labelAccessPool cat) = labelUsed cat -> (Z.of_nat (labelUsed cat + length ls) <= 0xFFFF) ->
  (length done_ + length todo = length ls)%nat ->
  visits (access_item (LabelRef.mk (Z.of_nat (labelUsed cat)) (length ls))) d ((fun a => ops_bytes (access_ops a)) <$> todo)
    (length done_, addOptions ls (done_ ++ replicate (length todo) watch) cat) (length ls, addOptions ls (done_ ++ todo) cat).
Proof.
  intros Hw Hu. revert done_. induction todo as [|a todo IH]; intros dn Hl; cbn [length fmap list_fmap replicate] in *.
  - rewrite Nat.add_0_r in Hl. rewrite Hl. constructor.
  - apply v_cons with (m2 := (S (length dn), addOptions ls ((dn ++ [a]) ++ replicate (length todo) watch) cat)).
    + intros r rest Hb _ Ha. destruct (level_roundtrip a) as [El Er]. unfold access_ops in *. rewrite ops_bytes_1 in *. unfold access_item.
      rewrite (readUpTo_at 2 r _ rest) by done. cbn [rbind LabelRef.offset]. rewrite El.
      rewrite u16_id by (unfold is_u16; lia). replace (Z.to_nat (Z.of_nat (labelUsed cat) + Z.of_nat (length dn))) with (labelUsed cat + length dn)%nat by lia.
      rewrite setAccess_ok; [by rewrite <- app_assoc|done|done|lia|rewrite length_app; cbn [length]; rewrite length_replicate; lia|done].
    + specialize (IH (dn ++ [a])). rewrite length_app in IH. cbn [length] in IH. replace (length dn + 1)%nat with (S (length dn)) in IH by lia.
      rewrite <- (app_assoc dn [a] todo) in IH. apply IH. lia.
Qed.

Lemma decodeOptionAccess_at d ls acc cat r rest : (d < kMaxDepth)%nat -> length (labelAccessPool cat) = labelUsed cat ->
  Z.of_nat (labelUsed cat + length ls) <= 0xFFFF -> length acc = length ls -> ls <> [] -> is_bytes (r_in r) -> length (r_stack r) = d ->
  ahead r = ops_bytes (array_ops access_ops acc) ++ rest ->
  decodeOptionAccess (LabelRef.mk (Z.of_nat (labelUsed cat)) (length ls)) r (addLabels ls cat)
  = Ok (addOptions ls acc cat, advance (length (ops_bytes (array_ops access_ops acc))) consumeOne r).
Proof.
  intros Hd Hw Hu Hl Hne Hb Hs Ha. rewrite array_bytes in *. set (bss := (fun a => ops_bytes (access_ops a)) <$> acc) in *.
  assert (length bss = length ls) as Hlen by (rewrite <- Hl; apply length_fmap).
  assert (bss <> []) as Hne' by (intros E; rewrite E in Hlen; by destruct ls).
  destruct (arrayHeader_at d bss r rest Hd ltac:(unfold is_u32; lia) Hne' Hb Hs Ha) as (r1 & E & Hb1 & Hs1 & Ha1 & Hadv).
  unfold decodeOptionAccess. rewrite E. cbn [rbind LabelRef.count]. destruct (Nat.eqb_spec (length ls) 0); [destruct ls; [done|cbn in *; lia]|].
  rewrite Hlen, Z.eqb_refl. cbn [negb orb]. rewrite <- Hlen at 1.
  pose proof (access_visit (S d) ls [] acc cat Hw Hu Hl) as V. cbn [app length] in V. rewrite Hl in V.
  pose proof (items_visit _ (S d) bss _ _ (r_stack r) false 0 r1 rest V Hne' Hb1 Hs1 ltac:(by rewrite Hs) Ha1) as W. unfold access_item in W.
  change (addOptions ls (replicate (length ls) watch) cat) with (addLabels ls cat) in W. rewrite W. cbn [rbind]. rewrite (Hadv _ consumeOne), length_app. by rewrite Hlen.
Qed.

(** ** Schema fields *)

(** The levels of the newest labels. *)
Definition setAccess (acc : list AccessLevel) (cat : BasicCatalog) : BasicCatalog :=
  mkCatalog (entries cat) (layoutPool cat) (schemaPool cat) (storePool cat) (labelPool cat)
    (take (labelUsed cat - length acc) (labelAccessPool cat) ++ acc) (overflow cat).

Lemma setAccess_add ls acc cat : length (labelAccessPool cat) = labelUsed cat -> length acc = length ls ->
  setAccess acc (addLabels ls cat) = addOptions ls acc cat.
Proof.
  intros Hw Hl. unfold setAccess, addOptions, more. rewrite labelUsed_add, Hl, Nat.add_sub, <- Hw. cbn. by rewrite take_app_length.
Qed.

Section schema.
Variable Labels : nat.
Hypothesis Labels_u16 : Z.of_nat Labels <= 0xFFFF.

Record schema_sendable (f : SchemaField.t) (options : list bytes) (acc : list AccessLevel) : Prop := {
  ss_name : text_ok 24 (SchemaField.name f) /\ SchemaField.name f <> []; ss_unit : text_ok 8 (SchemaField.unit f);
  ss_min : is_u32 (SchemaField.min f); ss_max : is_u32 (SchemaField.max f); ss_dflt : default_ok (SchemaField.dflt f);
  ss_options : Forall option_ok options /\ (length options <= LabelRef.kMaxCount)%nat;
  ss_access : SchemaField.hasOptionAccess f = some acc /\ (acc <> [] -> length acc = length options);
  ss_group : text_ok 24 (SchemaField.group f); ss_desc : text_ok limits.desc_max_bytes (SchemaField.desc f); ss_role : text_ok 24 (SchemaField.role f);
  ss_step : is_u32 (SchemaField.step f); ss_flags : is_u8 (SchemaField.flags f); ss_rank : is_u8 (SchemaField.rank f);
  ss_aspect : is_u8 (SchemaField.aspect f); ss_scope : is_u8 (SchemaField.scope f); ss_provenance : is_u8 (SchemaField.provenance f);
  ss_unitId : is_u8 (SchemaField.unitId f); ss_key : is_u8 (SchemaField.key f);
  sno_min : SchemaField.hasMin f = false -> SchemaField.min f = 0; sno_max : SchemaField.hasMax f = false -> SchemaField.max f = 0;
  sno_step : SchemaField.hasStep f = false -> SchemaField.step f = 0; sno_access : SchemaField.hasAccess f = false -> SchemaField.access f = watch;
  sno_rank : SchemaField.hasRank f = false -> SchemaField.rank f = 0; sno_aspect : SchemaField.hasAspect f = false -> SchemaField.aspect f = 0;
  sno_scope : SchemaField.hasScope f = false -> SchemaField.scope f = 0;
  sno_provenance : SchemaField.hasProvenance f = false -> SchemaField.provenance f = 0;
  sno_unitId : SchemaField.hasUnitId f = false -> SchemaField.unitId f = 0; sno_refs : SchemaField.options f = LabelRef.none }.

Definition schemaHead (f : SchemaField.t) : list (Entry SchemaState) :=
  mkEntry 1 [OpTstr (SchemaField.name f)] (fun s => s{{sf := (sf s){{SchemaField.name := SchemaField.name f}}; sf_gotName := true}})
  :: mkEntry 2 [OpUint (CborFieldType.to_u8 (SchemaField.type f))] (fun s => s{{sf := (sf s){{SchemaField.type := SchemaField.type f}}; sf_gotType := true}})
  :: mkEntry 3 [OpTstr (SchemaField.unit f)] (fun s => s{{sf := (sf s){{SchemaField.unit := SchemaField.unit f}}; sf_gotUnit := true}})
  :: opt (SchemaField.hasMin f) (mkEntry 5 [OpF32 (SchemaField.min f)]
       (fun s => s{{sf := (sf s){{SchemaField.min := SchemaField.min f; SchemaField.hasMin := SchemaField.hasMin f}} }}))
  ++ opt (SchemaField.hasMax f) (mkEntry 6 [OpF32 (SchemaField.max f)]
       (fun s => s{{sf := (sf s){{SchemaField.max := SchemaField.max f; SchemaField.hasMax := SchemaField.hasMax f}} }}))
  ++ opt (SettingDefault.has (SchemaField.dflt f)) (mkEntry 9 (default_ops (SchemaField.dflt f))
       (fun s => s{{sf := (sf s){{SchemaField.dflt := SchemaField.dflt f}} }}))
  ++ [].

Definition schemaOptionsEntry (options : list bytes) : Entry SchemaState :=
  mkEntry 10 (array_ops option_ops options)
    (fun s => s{{sf := (sf s){{SchemaField.options := refOf (sf_cat s) options}}; sf_cat := addLabels options (sf_cat s)}}).

Definition schemaMiddle (f : SchemaField.t) : list (Entry SchemaState) :=
  opt (nonEmpty (SchemaField.group f)) (mkEntry 11 [OpTstr (SchemaField.group f)] (fun s => s{{sf := (sf s){{SchemaField.group := SchemaField.group f}} }}))
  ++ opt (nonEmpty (SchemaField.desc f)) (mkEntry 12 [OpTstr (SchemaField.desc f)] (fun s => s{{sf := (sf s){{SchemaField.desc := SchemaField.desc f}} }}))
  ++ opt (nonEmpty (SchemaField.role f)) (mkEntry 13 [OpTstr (SchemaField.role f)] (fun s => s{{sf := (sf s){{SchemaField.role := SchemaField.role f}} }}))
  ++ opt (SchemaField.hasStep f) (mkEntry 14 [OpF32 (SchemaField.step f)]
       (fun s => s{{sf := (sf s){{SchemaField.step := SchemaField.step f; SchemaField.hasStep := SchemaField.hasStep f}} }}))
  ++ opt (negb (SchemaField.flags f =? 0)) (mkEntry 15 [OpUint (SchemaField.flags f)] (fun s => s{{sf := (sf s){{SchemaField.flags := SchemaField.flags f}} }}))
  ++ opt (SchemaField.hasAccess f) (mkEntry 16 [OpUint (access_u8 (SchemaField.access f))]
       (fun s => s{{sf := (sf s){{SchemaField.access := SchemaField.access f; SchemaField.hasAccess := SchemaField.hasAccess f}} }}))
  ++ [].

Definition accessEntry (acc : list AccessLevel) : Entry SchemaState :=
  mkEntry 17 (array_ops access_ops acc)
    (fun s => if some acc then s{{sf := (sf s){{SchemaField.hasOptionAccess := true}}; sf_cat := setAccess acc (sf_cat s)}} else s).

Definition schemaTail (f : SchemaField.t) : list (Entry SchemaState) :=
  opt (SchemaField.hasRank f) (mkEntry 19 [OpUint (SchemaField.rank f)]
       (fun s => s{{sf := (sf s){{SchemaField.rank := SchemaField.rank f; SchemaField.hasRank := SchemaField.hasRank f}} }}))
  ++ opt (SchemaField.hasAspect f) (mkEntry 20 [OpUint (SchemaField.aspect f)]
       (fun s => s{{sf := (sf s){{SchemaField.aspect := SchemaField.aspect f; SchemaField.hasAspect := SchemaField.hasAspect f}} }}))
  ++ opt (SchemaField.hasScope f) (mkEntry 21 [OpUint (SchemaField.scope f)]
       (fun s => s{{sf := (sf s){{SchemaField.scope := SchemaField.scope f; SchemaField.hasScope := SchemaField.hasScope f}} }}))
  ++ opt (SchemaField.hasProvenance f) (mkEntry 22 [OpUint (SchemaField.provenance f)]
       (fun s => s{{sf := (sf s){{SchemaField.provenance := SchemaField.provenance f; SchemaField.hasProvenance := SchemaField.hasProvenance f}} }}))
  ++ opt (SchemaField.hasUnitId f) (mkEntry 23 [OpUint (SchemaField.unitId f)]
       (fun s => s{{sf := (sf s){{SchemaField.unitId := SchemaField.unitId f; SchemaField.hasUnitId := SchemaField.hasUnitId f}} }}))
  ++ [].

Definition schemaWire (f : SchemaField.t) (options : list bytes) (acc : list AccessLevel) : list (Entry SchemaState) :=
  schemaHead f ++ opt (some options) (schemaOptionsEntry options) ++ schemaMiddle f ++ opt (some acc) (accessEntry acc) ++ schemaTail f.

Ltac key_of fld := let E := fresh "E" in intros x r r' E; unfold fld; switch; rewrite E; cbn [rbind].

Lemma schemaHead_good f options acc d : schema_sendable f options acc -> Forall (good (schemaKey Labels) d) (schemaHead f).
Proof.
  intros H. unfold schemaHead. rewrite !Forall_cons, !Forall_app. split_and!; try apply List.Forall_nil; try (apply Forall_opt; intros Hh).
  - destruct (ss_name _ _ _ H). apply good_capped with (e := false) (cap := 24%nat); [done|done|lia|done|]. by key_of schemaKey.
  - destruct (cbor_type_roundtrip (SchemaField.type f)) as [E1 E2]. apply good_upto with (max := 5); [done|done|done|]. key_of schemaKey. by rewrite E1.
  - apply good_capped with (e := true) (cap := 8%nat); [done|apply H|lia|done|]. by key_of schemaKey.
  - apply good_float; [done|apply H|]. key_of schemaKey. by rewrite Hh.
  - apply good_float; [done|apply H|]. key_of schemaKey. by rewrite Hh.
  - apply good_default; [done|apply H|done|]. by key_of schemaKey.
Qed.

Lemma schemaMiddle_good f options acc d : schema_sendable f options acc -> Forall (good (schemaKey Labels) d) (schemaMiddle f).
Proof.
  intros H. unfold schemaMiddle. rewrite !Forall_app. split_and!; try apply List.Forall_nil; try (apply Forall_opt; intros Hh).
  - apply nonEmpty_true in Hh. apply good_capped with (e := false) (cap := 24%nat); [done|apply H|lia|done|]. by key_of schemaKey.
  - apply nonEmpty_true in Hh. apply good_capped with (e := false) (cap := limits.desc_max_bytes); [done|apply H|unfold limits.desc_max_bytes; lia|done|]. by key_of schemaKey.
  - apply nonEmpty_true in Hh. apply good_capped with (e := false) (cap := 24%nat); [done|apply H|lia|done|]. by key_of schemaKey.
  - apply good_float; [done|apply H|]. key_of schemaKey. by rewrite Hh.
  - pose proof (ss_flags _ _ _ H). apply good_upto with (max := 0xFF); [done|unfold is_u8 in *; lia|done|]. by key_of schemaKey.
  - destruct (level_roundtrip (SchemaField.access f)) as [E1 E2]. apply good_upto with (max := 2); [done|done|done|]. key_of schemaKey. by rewrite E1, Hh.
Qed.

Lemma schemaTail_good f options acc d : schema_sendable f options acc -> Forall (good (schemaKey Labels) d) (schemaTail f).
Proof.
  intros H. unfold schemaTail. rewrite !Forall_app. split_and!; try apply List.Forall_nil; try (apply Forall_opt; intros Hh).
  - pose proof (ss_rank _ _ _ H). apply good_upto with (max := 0xFF); [done|unfold is_u8 in *; lia|done|]. key_of schemaKey. by rewrite Hh.
  - pose proof (ss_aspect _ _ _ H). apply good_upto with (max := 0xFF); [done|unfold is_u8 in *; lia|done|]. key_of schemaKey. by rewrite Hh.
  - pose proof (ss_scope _ _ _ H). apply good_upto with (max := 0xFF); [done|unfold is_u8 in *; lia|done|]. key_of schemaKey. by rewrite Hh.
  - pose proof (ss_provenance _ _ _ H). apply good_upto with (max := 0xFF); [done|unfold is_u8 in *; lia|done|]. key_of schemaKey. by rewrite Hh.
  - pose proof (ss_unitId _ _ _ H). apply good_upto with (max := 0xFF); [done|unfold is_u8 in *; lia|done|]. key_of schemaKey. by rewrite Hh.
Qed.

(** Entries that leave the pools and the options alone. *)
Definition schema_place (s : SchemaState) : BasicCatalog * LabelRef.t := (sf_cat s, SchemaField.options (sf s)).

Definition saside (es : list (Entry SchemaState)) : Prop := Forall (fun e => forall s, schema_place (e_eff e s) = schema_place s) es.

Lemma saside_effects es s : saside es -> schema_place (effects es s) = schema_place s.
Proof. intros H. revert s. induction H as [|e es He _ IH]; intros s; [done|]. by rewrite effects_cons, IH. Qed.

Lemma schema_aside f : saside (schemaHead f) /\ saside (schemaMiddle f).
Proof. unfold saside, schemaHead, schemaMiddle. rewrite !Forall_cons, !Forall_app. split_and!; try apply List.Forall_nil; try done; by apply Forall_opt. Qed.

Lemma schema_options_read d options s : (d < kMaxDepth)%nat -> Forall option_ok options -> (length options <= LabelRef.kMaxCount)%nat ->
  (labelUsed (sf_cat s) + length options <= Labels)%nat -> SchemaField.options (sf s) = LabelRef.none ->
  follows (schemaKey Labels) d (opt (some options) (schemaOptionsEntry options)) s
  /\ schema_place (effects (opt (some options) (schemaOptionsEntry options)) s) = (addLabels options (sf_cat s), refOf (sf_cat s) options).
Proof.
  intros Hd Hb Hl Hfit Hn. destruct (some options) eqn:Hs; cbn [opt].
  - apply some_cons in Hs as Hne. split; [|done]. split; [|done]. split; [done|]. intros r rest Hbr Hst Ha. unfold schemaOptionsEntry, e_bytes in *. cbn [e_key e_ops e_eff] in *.
    unfold schemaKey. switch. rewrite (decodeOptions_at Labels d options (sf_cat s) r rest) by done. cbn [rbind].
    unfold refOf. by rewrite Hs.
  - apply some_nil in Hs as ->. split; [done|]. rewrite addLabels_nil. unfold schema_place, refOf. by rewrite effects_nil, Hn.
Qed.

Lemma schema_access_read d options acc cat s : (d < kMaxDepth)%nat -> length (labelAccessPool cat) = labelUsed cat ->
  Z.of_nat (labelUsed cat + length options) <= 0xFFFF -> (acc <> [] -> length acc = length options) ->
  schema_place s = (addLabels options cat, refOf cat options) -> follows (schemaKey Labels) d (opt (some acc) (accessEntry acc)) s.
Proof.
  intros Hd Hw Hu Hl E. destruct (some acc) eqn:Hs; cbn [opt]; [|done]. apply some_cons in Hs as Hne. specialize (Hl Hne).
  assert (options <> []) as Hno by (intros ->; by destruct acc).
  injection E as E1 E2. unfold refOf in E2. rewrite (proj2 (some_cons options) Hno) in E2. split; [|done]. split; [done|]. intros r rest Hbr Hst Ha.
  unfold accessEntry, e_bytes in *. cbn [e_key e_ops e_eff] in *. rewrite Hs. unfold schemaKey. switch. rewrite E1, E2.
  rewrite (decodeOptionAccess_at d options acc cat r rest) by done. cbn [rbind]. by rewrite setAccess_add.
Qed.

Lemma schema_follows d f options acc k cat : (d < kMaxDepth)%nat -> schema_sendable f options acc -> length (labelAccessPool cat) = labelUsed cat ->
  (labelUsed cat + length options <= Labels)%nat ->
  follows (schemaKey Labels) d (schemaWire f options acc) (mkSchemaState (SchemaField.init{{SchemaField.key := k}}) false false false cat).
Proof using Labels_u16.
  intros Hd H Hw Hfit. destruct (schema_aside f) as (A1 & A2). destruct (ss_options _ _ _ H) as [Ho Hlo]. set (s0 := mkSchemaState _ _ _ _ cat).
  assert (E0 := saside_effects (schemaHead f) s0 A1). assert (E1 := f_equal fst E0). assert (E1' := f_equal snd E0). cbn [fst snd schema_place] in E1, E1'.
  destruct (schema_options_read d options (effects (schemaHead f) s0) Hd Ho Hlo) as [F P]; [by rewrite E1|by rewrite E1'|].
  rewrite E1 in P. unfold schemaWire. rewrite !follows_app. split_and!; try (by apply follows_good; eauto using schemaHead_good, schemaMiddle_good, schemaTail_good).
  - exact F.
  - apply (schema_access_read d options acc cat); [done|done|lia|apply H|]. rewrite (saside_effects (schemaMiddle f)) by done. exact P.
Qed.

(** The state behind a schema field. *)
Definition schemaPools (options : list bytes) (acc : list AccessLevel) (cat : BasicCatalog) : BasicCatalog :=
  if some acc then addOptions options acc cat else addLabels options cat.

Definition sstage1 (f : SchemaField.t) : SchemaField.t :=
  SchemaField.init{{SchemaField.key := SchemaField.key f; SchemaField.name := SchemaField.name f; SchemaField.type := SchemaField.type f;
    SchemaField.unit := SchemaField.unit f; SchemaField.min := SchemaField.min f; SchemaField.hasMin := SchemaField.hasMin f;
    SchemaField.max := SchemaField.max f; SchemaField.hasMax := SchemaField.hasMax f; SchemaField.dflt := SchemaField.dflt f}}.
Definition sstage2 (f : SchemaField.t) (ref : LabelRef.t) : SchemaField.t := (sstage1 f){{SchemaField.options := ref}}.
Definition sstage3 (f : SchemaField.t) (ref : LabelRef.t) : SchemaField.t :=
  (sstage2 f ref){{SchemaField.group := SchemaField.group f; SchemaField.desc := SchemaField.desc f; SchemaField.role := SchemaField.role f;
    SchemaField.step := SchemaField.step f; SchemaField.hasStep := SchemaField.hasStep f; SchemaField.flags := SchemaField.flags f;
    SchemaField.access := SchemaField.access f; SchemaField.hasAccess := SchemaField.hasAccess f}}.
Definition sstage4 (f : SchemaField.t) (ref : LabelRef.t) : SchemaField.t := (sstage3 f ref){{SchemaField.hasOptionAccess := SchemaField.hasOptionAccess f}}.

Lemma effects_shead f options acc cat : schema_sendable f options acc ->
  effects (schemaHead f) (mkSchemaState (SchemaField.init{{SchemaField.key := SchemaField.key f}}) false false false cat)
  = mkSchemaState (sstage1 f) true true true cat.
Proof.
  intros H. pose proof (sno_min _ _ _ H) as N1. pose proof (sno_max _ _ _ H) as N2. clear H. unfold schemaHead.
  rewrite !effects_cons, !effects_opt, effects_nil; [done|..]; intros E; cbn [e_eff].
  - by destruct (SchemaField.dflt f).
  - rewrite E, N2 by done. done.
  - rewrite E, N1 by done. done.
Qed.

Lemma effects_smiddle f options acc ref cat : schema_sendable f options acc ->
  effects (schemaMiddle f) (mkSchemaState (sstage2 f ref) true true true cat) = mkSchemaState (sstage3 f ref) true true true cat.
Proof.
  intros H. pose proof (sno_step _ _ _ H) as N1. pose proof (sno_access _ _ _ H) as N2. clear H. unfold schemaMiddle.
  rewrite !effects_opt, effects_nil; [done|..]; intros E; cbn [e_eff].
  all: try (rewrite E, ?N1, ?N2 by done; done).
  all: try (apply nonEmpty_false in E; rewrite E; done).
  apply negb_false_iff, Z.eqb_eq in E. rewrite E. done.
Qed.

Lemma effects_stail f options acc ref cat : schema_sendable f options acc ->
  effects (schemaTail f) (mkSchemaState (sstage4 f ref) true true true cat) = mkSchemaState (f{{SchemaField.options := ref}}) true true true cat.
Proof.
  intros H. pose proof (sno_rank _ _ _ H) as N2. pose proof (sno_aspect _ _ _ H) as N3. pose proof (sno_scope _ _ _ H) as N4.
  pose proof (sno_provenance _ _ _ H) as N5. pose proof (sno_unitId _ _ _ H) as N6. clear H.
  unfold schemaTail. rewrite !effects_opt, effects_nil; [by destruct f|..]; intros E; cbn [e_eff]; rewrite E, ?N2, ?N3, ?N4, ?N5, ?N6 by done; done.
Qed.

Lemma absent_schema_options s : SchemaField.options (sf s) = LabelRef.none -> e_eff (schemaOptionsEntry []) s = s.
Proof. destruct s as [f g1 g2 g3 cat]. intros E. cbn in E. unfold schemaOptionsEntry. cbn [e_eff]. rewrite addLabels_nil. by destruct f; cbn in E; subst. Qed.

Lemma access_state f ref options acc cat : schema_sendable f options acc -> length (labelAccessPool cat) = labelUsed cat ->
  e_eff (accessEntry acc) (mkSchemaState (sstage3 f ref) true true true (addLabels options cat))
  = mkSchemaState (sstage4 f ref) true true true (schemaPools options acc cat).
Proof.
  intros H Hw. destruct (ss_access _ _ _ H) as [E Hl]. unfold accessEntry, schemaPools, sstage4. cbn [e_eff]. rewrite E.
  destruct (some acc) eqn:Hs; [|done]. cbn [sf_cat]. apply some_cons, Hl in Hs. by rewrite <- (setAccess_add options acc cat Hw Hs).
Qed.

Lemma schema_effects f options acc cat : schema_sendable f options acc -> length (labelAccessPool cat) = labelUsed cat ->
  effects (schemaWire f options acc) (mkSchemaState (SchemaField.init{{SchemaField.key := SchemaField.key f}}) false false false cat)
  = mkSchemaState (f{{SchemaField.options := refOf cat options}}) true true true (schemaPools options acc cat).
Proof.
  intros H Hw. unfold schemaWire. rewrite !effects_app, (effects_shead f options acc) by done.
  rewrite (effects_opt_last (some options)) by (intros ->%some_nil; by apply absent_schema_options).
  change (e_eff (schemaOptionsEntry options) (mkSchemaState (sstage1 f) true true true cat)) with (mkSchemaState (sstage2 f (refOf cat options)) true true true (addLabels options cat)).
  rewrite (effects_smiddle f options acc) by done. rewrite (effects_opt_last (some acc)) by (intros E; unfold accessEntry; cbn [e_eff]; by rewrite E).
  rewrite (access_state f _ options acc) by done. apply (effects_stail f options acc); done.
Qed.

Lemma schema_ascending f options acc : ascending None (e_key <$> schemaWire f options acc).
Proof.
  unfold schemaWire, schemaHead, schemaMiddle, schemaTail. rewrite <- !app_comm_cons, <- !app_assoc. cbn [app]. keys_ascending.
Qed.

Lemma schema_count f options acc : Z.of_nat (length (schemaWire f options acc)) = schemaKeyCount f options acc.
Proof.
  unfold schemaWire, schemaHead, schemaMiddle, schemaTail. rewrite <- !app_comm_cons, <- !app_assoc. cbn [app]. rewrite !count_cons, !count_opt.
  cbn [length Z.of_nat]. unfold schemaKeyCount. ring.
Qed.

Lemma schema_count_u32 f options acc : is_u32 (Z.of_nat (length (schemaWire f options acc))).
Proof.
  rewrite schema_count. unfold schemaKeyCount. apply count_bound.
  repeat match goal with |- context [b2z ?b] => pose proof (b2z_range b); generalize dependent (b2z b); intros end. lia.
Qed.

Lemma access_write_run acc w : writeArray (fun a => uintVal (access_u8 a)) acc w = run (array_ops access_ops acc) w.
Proof. by apply writeArray_run. Qed.

Lemma schema_write_run f options acc w : encodeSchemaField f options acc w = run (map_ops (schemaWire f options acc)) w.
Proof.
  rewrite run_map, schema_count. unfold schemaWire, schemaHead, schemaMiddle, schemaTail. rewrite <- !app_comm_cons, <- !app_assoc. cbn [app].
  cbv delta [encodeSchemaField]; cbv beta. let_step.
  run_steps_by ltac:(first [rewrite default_write_run; reflexivity|rewrite options_write_run; reflexivity|rewrite access_write_run; reflexivity|reflexivity]). done.
Qed.

Lemma access_written d acc : (d < kMaxDepth)%nat -> (length acc <= LabelRef.kMaxCount)%nat -> written d (array_ops access_ops acc).
Proof.
  intros Hd Hl. unfold LabelRef.kMaxCount in Hl. apply written_array; [done|unfold is_u32; lia|]. apply Forall_forall. intros a _.
  destruct (level_roundtrip a) as [_ Hr]. unfold access_ops. split; [by repeat constructor; unfold op_wf, is_u64; lia|by apply closes_scalar|].
  rewrite ops_bytes_1. apply is_bytes_op; [unfold op_wf, is_u64; lia|done].
Qed.

Lemma schema_written d f options acc : (S d < kMaxDepth)%nat -> schema_sendable f options acc -> written d (map_ops (schemaWire f options acc)).
Proof.
  intros Hd H. destruct (ss_options _ _ _ H) as [Ho Hlo]. destruct (ss_access _ _ _ H) as [_ Hl].
  apply written_map; [lia|apply schema_count_u32| |apply schema_ascending]. unfold schemaWire. rewrite !Forall_app. split_and!.
  - eapply good_written, schemaHead_good. exact H.
  - apply Forall_opt. intros _. split; [done|]. by apply options_written.
  - eapply good_written, schemaMiddle_good. exact H.
  - apply Forall_opt. intros Hs%some_cons%Hl. split; [done|]. apply access_written; [done|by rewrite Hs].
  - eapply good_written, schemaTail_good. exact H.
Qed.

(** A schema field read back into the pools. *)
Lemma decodeSchemaField_at d f options acc cat r rest : (S d < kMaxDepth)%nat -> schema_sendable f options acc ->
  length (labelAccessPool cat) = labelUsed cat -> (labelUsed cat + length options <= Labels)%nat -> is_bytes (r_in r) -> length (r_stack r) = d ->
  ahead r = ops_bytes (map_ops (schemaWire f options acc)) ++ rest ->
  decodeSchemaField Labels (SchemaField.key f) r cat
  = Ok (f{{SchemaField.options := refOf cat options}}, schemaPools options acc cat,
        advance (length (ops_bytes (map_ops (schemaWire f options acc)))) consumeOne r).
Proof using Labels_u16.
  intros Hd H Hw Hfit Hb Hs Ha. rewrite ops_bytes_map in *. unfold decodeSchemaField.
  rewrite (decodeMap_follow (schemaKey Labels) d (schemaWire f options acc) (mkSchemaState (SchemaField.init{{SchemaField.key := SchemaField.key f}}) false false false cat)
    ltac:(lia) (schema_count_u32 f options acc) ltac:(done) (schema_follows (S d) f options acc (SchemaField.key f) cat Hd H Hw Hfit) (schema_ascending f options acc) r rest Hb Hs Ha).
  cbn [rbind]. by rewrite (schema_effects f options acc cat H Hw).
Qed.
End schema.

(** ** Store descriptors *)

Record store_sendable (d : StoreDescriptor.t) : Prop := {
  st_id : is_u8 (StoreDescriptor.storeId d); st_kind : text_ok 32 (StoreDescriptor.kind d) /\ StoreDescriptor.kind d <> [];
  st_capacity : is_u16 (StoreDescriptor.capacity d); st_item : is_u32 (StoreDescriptor.perItemMax d); st_nameMax : is_u16 (StoreDescriptor.nameMax d) }.

Definition storeWire (d : StoreDescriptor.t) : list (Entry StoreState) :=
  [mkEntry 1 [OpUint (StoreDescriptor.storeId d)] (fun s => s{{sd := (sd s){{StoreDescriptor.storeId := StoreDescriptor.storeId d}}; sd_gotId := true}});
   mkEntry 2 [OpTstr (StoreDescriptor.kind d)] (fun s => s{{sd := (sd s){{StoreDescriptor.kind := StoreDescriptor.kind d}}; sd_gotKind := true}});
   mkEntry 3 [OpUint (StoreDescriptor.capacity d)] (fun s => s{{sd := (sd s){{StoreDescriptor.capacity := StoreDescriptor.capacity d}}; sd_gotCap := true}});
   mkEntry 4 [OpUint (StoreDescriptor.perItemMax d)] (fun s => s{{sd := (sd s){{StoreDescriptor.perItemMax := StoreDescriptor.perItemMax d}}; sd_gotItemMax := true}});
   mkEntry 5 [OpUint (StoreDescriptor.nameMax d)] (fun s => s{{sd := (sd s){{StoreDescriptor.nameMax := StoreDescriptor.nameMax d}}; sd_gotNameMax := true}})].

Lemma storeWire_good n d : store_sendable d -> Forall (good storeKey n) (storeWire d).
Proof.
  intros [H1 [H2 H2'] H3 H4 H5]. unfold storeWire. rewrite !Forall_cons. split_and!; try apply List.Forall_nil.
  - apply good_upto with (max := 0xFF); [done|unfold is_u8 in *; lia|done|]. intros x r r' E. unfold storeKey. switch. by rewrite E.
  - apply good_capped with (e := false) (cap := 32%nat); [done|done|lia|done|]. intros x r r' E. unfold storeKey. switch. by rewrite E.
  - apply good_upto with (max := 0xFFFF); [done|unfold is_u16 in *; lia|done|]. intros x r r' E. unfold storeKey. switch. by rewrite E.
  - apply good_upto with (max := 0xFFFFFFFF); [done|unfold is_u32 in *; lia|done|]. intros x r r' E. unfold storeKey. switch. by rewrite E.
  - apply good_upto with (max := 0xFFFF); [done|unfold is_u16 in *; lia|done|]. intros x r r' E. unfold storeKey. switch. by rewrite E.
Qed.

Lemma store_write_run d w : encodeStoreDescriptor d w = run (map_ops (storeWire d)) w.
Proof. rewrite run_map. cbv delta [encodeStoreDescriptor storeWire]; cbv beta. let_step. run_steps. done. Qed.

Lemma store_written n d : (n < kMaxDepth)%nat -> store_sendable d -> written n (map_ops (storeWire d)).
Proof. intros Hn H. apply written_map; [done|done| |done]. by eapply good_written, storeWire_good. Qed.

Lemma decodeStoreDescriptor_at n d r rest : (n < kMaxDepth)%nat -> store_sendable d -> is_bytes (r_in r) -> length (r_stack r) = n ->
  ahead r = ops_bytes (map_ops (storeWire d)) ++ rest ->
  decodeStoreDescriptor r = Ok (d, advance (length (ops_bytes (map_ops (storeWire d)))) consumeOne r).
Proof.
  intros Hn H Hb Hs Ha. rewrite ops_bytes_map in *. unfold decodeStoreDescriptor.
  rewrite (decodeMap_follow storeKey n (storeWire d) (mkStoreState StoreDescriptor.init false false false false false) Hn ltac:(done) ltac:(done)
    (follows_good _ _ _ _ (storeWire_good (S n) d H)) ltac:(done) r rest Hb Hs Ha).
  cbn [rbind]. by destruct d.
Qed.
