(* ===== verification/CatalogTrip.v ===== *)
(** * CatalogTrip: entries and whole catalogs survive the wire

    The wire form of an entry is a function of what the entry says, not of where its
    payload lies. Decoding pushes the payload into the pools and then the entry, so
    that after each entry the catalog is well formed and says one entry more. *)

From stdpp Require Import sorting.
From S2P Require Import Prelude Registry Float ByteIO Cbor Messages Codec Catalog Crypto CatalogCodec CatalogWire CatalogSchema.
Local Open Scope Z_scope.

(** ** The order of a schema *)

Section sort_map.
Context {A B : Type} (R : relation A) (Q : relation B) `{!RelDecision R, !RelDecision Q} (f : A -> B).
Hypothesis same : forall x y, R x y <-> Q (f x) (f y).

Lemma list_merge_fmap l1 l2 : list_merge Q (f <$> l1) (f <$> l2) = f <$> list_merge R l1 l2.
Proof using same.
  revert l2. induction l1 as [|x l1 IH1]; intros l2; [by destruct l2|]. induction l2 as [|y l2 IH2]; [done|]. cbn [fmap list_fmap].
  rewrite !list_merge_cons. destruct (decide (R x y)) as [H|H].
  - rewrite decide_True by (by apply same). cbn [fmap list_fmap]. f_equal. exact (IH1 (y :: l2)).
  - rewrite decide_False by (by rewrite <- same). cbn [fmap list_fmap]. f_equal. exact IH2.
Qed.

Definition map_stack (st : list (option (list A))) : list (option (list B)) := map (option_map (map f)) st.

Lemma to_stack_fmap st l : merge_list_to_stack Q (map_stack st) (f <$> l) = map_stack (merge_list_to_stack R st l).
Proof using same. revert l. induction st as [|[l'|] st IH]; intros l; [done| |done]. cbn. rewrite list_merge_fmap. f_equal. apply IH. Qed.

Lemma merge_stack_fmap st : merge_stack Q (map_stack st) = f <$> merge_stack R st.
Proof using same. induction st as [|[l|] st IH]; [done| |exact IH]. cbn. unfold map_stack in IH. by rewrite IH, list_merge_fmap. Qed.

Lemma merge_sort_fmap l : merge_sort Q (f <$> l) = f <$> merge_sort R l.
Proof using same.
  unfold merge_sort. change (@nil (option (list B))) with (map_stack []). generalize (@nil (option (list A))). induction l as [|x l IH]; intros st; cbn.
  - apply merge_stack_fmap.
  - change [f x] with (f <$> [x]). by rewrite to_stack_fmap, IH.
Qed.
End sort_map.

(** What a field says. *)
Abbreviation LayoutSaid := (LayoutField.t * list bytes * list bytes)%type.
Abbreviation SchemaSaid := (SchemaField.t * list bytes * list AccessLevel)%type.

Definition said_key (c : SchemaSaid) : Z := SchemaField.key c.1.1.
Definition saidByKey (a b : SchemaSaid) : Prop := said_key a <= said_key b.
#[global] Instance saidByKey_dec : RelDecision saidByKey.
Proof. intros a b. unfold saidByKey. apply _. Defined.
#[global] Instance saidByKey_total : Total saidByKey.
Proof. intros a b. unfold saidByKey. lia. Qed.
#[global] Instance saidByKey_trans : Transitive saidByKey.
Proof. intros a b c. unfold saidByKey. lia. Qed.

Definition ordered (fs : list SchemaSaid) : list SchemaSaid := merge_sort saidByKey fs.

(** What a payload says, whatever the order of its schema. *)
Definition settled (p : Payload) : Payload := match p with PSchema fs => PSchema (ordered fs) | p => p end.

Lemma strongly_ascending o fs : StronglySorted saidByKey fs -> NoDup (said_key <$> fs) ->
  (forall l, o = Some l -> Forall (fun c => l < said_key c) fs) -> ascending o (said_key <$> fs).
Proof.
  intros Hs. revert o. induction Hs as [|c fs Hs IH Hc]; intros o Hn Ho; [done|]. cbn [fmap list_fmap] in *. apply NoDup_cons in Hn as [Hn Hd]. split.
  - destruct o as [l|]; [|done]. specialize (Ho l eq_refl). by apply Forall_cons in Ho as [Ho _].
  - apply IH; [done|]. intros l [= <-]. rewrite Forall_forall in Hc |- *. intros x Hx. specialize (Hc x Hx). unfold saidByKey in Hc.
    assert (said_key x <> said_key c); [|lia]. intros E. apply Hn. rewrite <- E. by apply list_elem_of_fmap_2.
Qed.

Lemma ordered_ascending fs : NoDup (said_key <$> fs) -> ascending None (said_key <$> ordered fs).
Proof.
  intros H. apply strongly_ascending; [apply StronglySorted_merge_sort; apply _| |done]. unfold ordered. by rewrite (merge_sort_Permutation saidByKey fs).
Qed.

(** ** What a catalog takes in *)

Definition takeLayout (cat : BasicCatalog) (c : LayoutSaid) : BasicCatalog :=
  let '(f, bits, options) := c in
  let f := f{{LayoutField.bits := refOf cat bits; LayoutField.options := refOf (addLabels bits cat) options}} in
  let cat := addLabels options (addLabels bits cat) in cat{{layoutPool := layoutPool cat ++ [f] }}.

Definition takeSchema (cat : BasicCatalog) (c : SchemaSaid) : BasicCatalog :=
  let '(f, options, acc) := c in
  let f := f{{SchemaField.options := refOf cat options}} in
  let cat := schemaPools options acc cat in cat{{schemaPool := schemaPool cat ++ [f] }}.

Definition takePayload (p : Payload) (cat : BasicCatalog) : BasicCatalog :=
  match p with
  | PLayout fs => foldl takeLayout cat fs
  | PSchema fs => foldl takeSchema cat fs
  | PStore (Some d) => cat{{storePool := storePool cat ++ [d] }}
  | PStore None => cat
  end.

Definition slots (p : Payload) : nat :=
  match p with PLayout fs => length fs | PSchema fs => length fs | PStore (Some _) => 1 | PStore None => 0 end.

Definition formOf (p : Payload) : FieldForm := match p with PLayout _ => Layout | PSchema _ => Schema | PStore _ => Store end.

Definition takeEntry (cat : BasicCatalog) (c : CatalogEntry.t * Payload) : BasicCatalog :=
  let '(h, p) := c in
  let e := h{{CatalogEntry.fieldOffset := used (formOf p) cat; CatalogEntry.fieldCount := slots p}} in
  let cat' := takePayload p cat in cat'{{entries := entries cat' ++ [e] }}.

(** The labels that come with it. *)
Definition layoutLabels (c : LayoutSaid) : nat := (length c.1.2 + length c.2)%nat.
Definition schemaLabels (c : SchemaSaid) : nat := length c.1.2.
Definition labelsOf (p : Payload) : nat :=
  match p with PLayout fs => sum_list (layoutLabels <$> fs) | PSchema fs => sum_list (schemaLabels <$> fs) | PStore _ => 0 end.
Definition slotsOf (fm : FieldForm) (p : Payload) : nat := if decide (formOf p = fm) then slots p else 0.

(** What the pools of [cat] have become. *)
Record taken (cat cat' : BasicCatalog) (ls : nat) : Prop := {
  t_grows : grows cat cat'; t_entries : entries cat' = entries cat; t_overflow : overflow cat' = overflow cat;
  t_access : length (labelAccessPool cat') = labelUsed cat'; t_labels : labelUsed cat' = (labelUsed cat + ls)%nat }.

Lemma taken_refl cat : length (labelAccessPool cat) = labelUsed cat -> taken cat cat 0.
Proof. intros H. split; done || lia. Qed.

Lemma taken_trans a b c l1 l2 : taken a b l1 -> taken b c l2 -> taken a c (l1 + l2).
Proof. intros [G1 E1 O1 A1 L1] [G2 E2 O2 A2 L2]. split; [by etrans|congruence|congruence|done|lia]. Qed.

Lemma addOptions_taken cat ls acc : length (labelAccessPool cat) = labelUsed cat -> length acc = length ls -> taken cat (addOptions ls acc cat) (length ls).
Proof.
  intros Hw Hl. split; [apply more_grows|done|done| |]; unfold addOptions, more, labelUsed in *; cbn; rewrite !length_app; lia.
Qed.

Lemma addLabels_taken cat ls : length (labelAccessPool cat) = labelUsed cat -> taken cat (addLabels ls cat) (length ls).
Proof. intros Hw. apply addOptions_taken; [done|apply length_replicate]. Qed.

Lemma refOf_ok cat ls acc : length acc = length ls -> ref_ok (addOptions ls acc cat) (refOf cat ls).
Proof.
  intros Hl. unfold refOf. destruct (some ls) eqn:E; [|by left]. right. unfold LabelRef.start, addOptions, more, labelUsed. cbn. rewrite length_app. lia.
Qed.

Lemma labels_refOf cat ls acc : labels (refOf cat ls) (addOptions ls acc cat) = ls.
Proof.
  unfold refOf. destruct (some ls) eqn:E; [|by apply some_nil in E as ->]. unfold labels, LabelRef.empty, LabelRef.start. cbn [LabelRef.count LabelRef.offset].
  apply some_cons in E. destruct (Nat.eqb_spec (length ls) 0); [by destruct ls|]. rewrite Nat2Z.id. apply slice_app_here.
Qed.

Lemma access_refOf cat ls acc : length (labelAccessPool cat) = labelUsed cat -> length acc = length ls -> labelAccess (refOf cat ls) (addOptions ls acc cat) = acc.
Proof.
  intros Hw Hl. unfold refOf. destruct (some ls) eqn:E; [|apply some_nil in E as ->; by destruct acc]. unfold labelAccess, LabelRef.empty, LabelRef.start. cbn [LabelRef.count LabelRef.offset].
  apply some_cons in E. destruct (Nat.eqb_spec (length ls) 0); [by destruct ls|]. rewrite Nat2Z.id, <- Hw, <- Hl. apply slice_app_here.
Qed.

(** *** Layouts *)

Definition bare (c : LayoutSaid) : Prop := LayoutField.bits c.1.1 = LabelRef.none /\ LayoutField.options c.1.1 = LabelRef.none.

Lemma takeLayout_spec c cat : length (labelAccessPool cat) = labelUsed cat -> bare c ->
  exists f, layoutPool (takeLayout cat c) = layoutPool cat ++ [f] /\ taken cat (takeLayout cat c) (layoutLabels c)
    /\ schemaPool (takeLayout cat c) = schemaPool cat /\ storePool (takeLayout cat c) = storePool cat
    /\ layout_ok (takeLayout cat c) f /\ layoutContent (takeLayout cat c) f = c.
Proof.
  destruct c as [[f bits] options]. intros Hw [B1 B2]. cbn [fst snd] in B1, B2.
  pose proof (addLabels_taken cat bits Hw) as T1. pose proof (addLabels_taken (addLabels bits cat) options (t_access _ _ _ T1)) as T2.
  set (f' := f{{LayoutField.bits := refOf cat bits; LayoutField.options := refOf (addLabels bits cat) options}}).
  set (c1 := addLabels bits cat) in *. set (c2 := addLabels options c1) in *.
  assert (T : taken cat (takeLayout cat (f, bits, options)) (layoutLabels (f, bits, options))).
  { destruct (taken_trans _ _ _ _ _ T1 T2) as [[G1 G2 G3 G4 G5] E O A L]. split; try done. split; try done. etrans; [exact G1|]. by apply prefix_app_r. }
  assert (G1 : grows c1 (takeLayout cat (f, bits, options))) by (destruct T2 as [[? ? ? ? ?] _ _ _ _]; split; try done; by apply prefix_app_r).
  assert (G2 : grows c2 (takeLayout cat (f, bits, options))) by (split; try done; by apply prefix_app_r).
  assert (R1 : ref_ok c1 (refOf cat bits)) by (apply refOf_ok, length_replicate).
  assert (R2 : ref_ok c2 (refOf c1 options)) by (apply refOf_ok, length_replicate).
  exists f'. split; [done|]. split; [exact T|]. split; [done|]. split; [done|].
  assert (Hok : layout_ok (takeLayout cat (f, bits, options)) f') by (split; [by apply (ref_ok_grow c1)|by apply (ref_ok_grow c2)]).
  split; [exact Hok|]. unfold layoutContent, bitLabels, optionLabels.
  change (LayoutField.bits f') with (refOf cat bits). change (LayoutField.options f') with (refOf c1 options).
  rewrite (labels_grow c1 _ _ G1 R1), (labels_grow c2 _ _ G2 R2).
  change (labels (refOf cat bits) c1) with (labels (refOf cat bits) (addOptions bits (replicate (length bits) watch) cat)).
  change (labels (refOf c1 options) c2) with (labels (refOf c1 options) (addOptions options (replicate (length options) watch) c1)). rewrite !labels_refOf. do 2 f_equal. unfold f'. by destruct f; cbn in B1, B2; subst.
Qed.

Lemma takeLayouts_spec fs cat : length (labelAccessPool cat) = labelUsed cat -> Forall bare fs ->
  let cat' := foldl takeLayout cat fs in
  exists fs', layoutPool cat' = layoutPool cat ++ fs' /\ taken cat cat' (sum_list (layoutLabels <$> fs))
    /\ schemaPool cat' = schemaPool cat /\ storePool cat' = storePool cat /\ Forall (layout_ok cat') fs' /\ layoutContent cat' <$> fs' = fs.
Proof.
  intros Hw Hb. revert cat Hw. induction Hb as [|c fs Hc _ IH]; intros cat Hw; cbn [foldl fmap list_fmap sum_list].
  - exists []. rewrite app_nil_r. split; [done|]. split; [by apply taken_refl|done].
  - destruct (takeLayout_spec c cat Hw Hc) as (f & P1 & T1 & S1 & D1 & O1 & C1).
    destruct (IH (takeLayout cat c) (t_access _ _ _ T1)) as (fs' & P2 & T2 & S2 & D2 & O2 & C2). exists (f :: fs'). split_and!.
    + by rewrite P2, P1, <- app_assoc.
    + by eapply taken_trans.
    + congruence.
    + congruence.
    + constructor; [|done]. destruct O1. split; (eapply ref_ok_grow; [apply T2|done]).
    + cbn [fmap list_fmap]. rewrite (layoutContent_grow _ _ _ (t_grows _ _ _ T2) O1), C1. by f_equal.
Qed.

(** *** Schemas *)

Definition sbare (c : SchemaSaid) : Prop :=
  SchemaField.options c.1.1 = LabelRef.none /\ SchemaField.hasOptionAccess c.1.1 = some c.2 /\ (c.2 <> [] -> length c.2 = length c.1.2).

Lemma schemaPools_eq options acc cat : (acc <> [] -> length acc = length options) ->
  exists acc', schemaPools options acc cat = addOptions options acc' cat /\ length acc' = length options /\ (acc <> [] -> acc' = acc).
Proof.
  intros Hl. unfold schemaPools. destruct (some acc) eqn:E.
  - apply some_cons in E. exists acc. split; [done|]. split; [by apply Hl|done].
  - apply some_nil in E as ->. exists (replicate (length options) watch). split; [done|]. split; [apply length_replicate|done].
Qed.

Lemma takeSchema_spec c cat : length (labelAccessPool cat) = labelUsed cat -> sbare c ->
  exists f, schemaPool (takeSchema cat c) = schemaPool cat ++ [f] /\ taken cat (takeSchema cat c) (schemaLabels c)
    /\ layoutPool (takeSchema cat c) = layoutPool cat /\ storePool (takeSchema cat c) = storePool cat
    /\ ref_ok (takeSchema cat c) (SchemaField.options f) /\ schemaContent (takeSchema cat c) f = c.
Proof.
  destruct c as [[f options] acc]. intros Hw (B1 & B2 & B3). cbn [fst snd] in B1, B2, B3. unfold takeSchema.
  destruct (schemaPools_eq options acc cat B3) as (acc' & -> & Hl & Ha). pose proof (addOptions_taken cat options acc' Hw Hl) as [[G1 G2 G3 G4 G5] E O A L].
  set (f' := f{{SchemaField.options := refOf cat options}}). set (c1 := addOptions options acc' cat) in *. set (c2 := c1{{schemaPool := schemaPool c1 ++ [f'] }}).
  assert (T : taken cat c2 (schemaLabels (f, options, acc))) by (split; try done; split; try done; etrans; [exact G2|]; by apply prefix_app_r).
  assert (G : grows c1 c2) by (split; try done; by apply prefix_app_r). assert (R : ref_ok c1 (refOf cat options)) by (by apply refOf_ok).
  exists f'. split; [done|]. split; [exact T|]. split; [done|]. split; [done|]. split; [by apply (ref_ok_grow c1)|].
  unfold schemaContent, schemaOptionLabels, optionAccess. change (SchemaField.options f') with (refOf cat options).
  change (SchemaField.hasOptionAccess f') with (SchemaField.hasOptionAccess f). rewrite (labels_grow c1) by done. unfold c1 at 1. rewrite labels_refOf.
  assert (E1 : f'{{SchemaField.options := LabelRef.none}} = f) by (unfold f'; by destruct f; cbn in B1; subst). rewrite E1, B2. do 2 f_equal.
  destruct (some acc) eqn:Es; cbn [negb]; [|by apply some_nil in Es]. apply some_cons, Ha in Es as <-.
  change (labelAccess (refOf cat options) c2) with (labelAccess (refOf cat options) c1). by apply access_refOf.
Qed.

Lemma schemaContent_grows c c' f : length (labelAccessPool c) = labelUsed c -> grows c c' -> ref_ok c (SchemaField.options f) ->
  schemaContent c' f = schemaContent c f.
Proof.
  intros Hw G H. unfold schemaContent, schemaOptionLabels, optionAccess. rewrite (labels_grow c c') by done. f_equal.
  destruct (SchemaField.hasOptionAccess f); [|done]. cbn [negb]. unfold labelAccess, LabelRef.empty. destruct H as [->|H]; [done|]. case_ifs; [done|].
  apply slice_prefix; [apply G|]. by rewrite Hw.
Qed.

Lemma takeSchemas_spec fs cat : length (labelAccessPool cat) = labelUsed cat -> Forall sbare fs ->
  let cat' := foldl takeSchema cat fs in
  exists fs', schemaPool cat' = schemaPool cat ++ fs' /\ taken cat cat' (sum_list (schemaLabels <$> fs))
    /\ layoutPool cat' = layoutPool cat /\ storePool cat' = storePool cat /\ Forall (fun f => ref_ok cat' (SchemaField.options f)) fs'
    /\ schemaContent cat' <$> fs' = fs.
Proof.
  intros Hw Hb. revert cat Hw. induction Hb as [|c fs Hc _ IH]; intros cat Hw; cbn [foldl fmap list_fmap sum_list].
  - exists []. rewrite app_nil_r. split; [done|]. split; [by apply taken_refl|done].
  - destruct (takeSchema_spec c cat Hw Hc) as (f & P1 & T1 & S1 & D1 & O1 & C1).
    destruct (IH (takeSchema cat c) (t_access _ _ _ T1)) as (fs' & P2 & T2 & S2 & D2 & O2 & C2). exists (f :: fs'). split_and!.
    + by rewrite P2, P1, <- app_assoc.
    + by eapply taken_trans.
    + congruence.
    + congruence.
    + constructor; [|done]. eapply ref_ok_grow; [apply T2|done].
    + cbn [fmap list_fmap]. rewrite (schemaContent_grows _ _ _ (t_access _ _ _ T1) (t_grows _ _ _ T2) O1), C1. by f_equal.
Qed.

(** *** Entries *)

(** The payload of an entry that can be taken in as it is. *)
Definition payload_bare (p : Payload) : Prop :=
  match p with PLayout fs => Forall bare fs | PSchema fs => Forall sbare fs | PStore d => d <> None end.

(** The entry that is pushed says the payload. *)
Lemma takePayload_spec p cat e : wf cat -> payload_bare p -> CatalogEntry.form e = formOf p ->
  CatalogEntry.fieldOffset e = used (formOf p) cat -> CatalogEntry.fieldCount e = slots p ->
  let cat' := takePayload p cat in
  taken cat cat' (labelsOf p) /\ (forall fm, used fm cat' = used fm cat + slotsOf fm p)%nat
  /\ Forall (layout_ok cat') (layoutPool cat') /\ Forall (fun f => ref_ok cat' (SchemaField.options f)) (schemaPool cat') /\ payload cat' e = p.
Proof.
  intros W Hb Hf Ho Hc cat'. unfold payload, layoutFields, schemaFields, storeDescriptor, CatalogEntry.usesLayout, CatalogEntry.usesSchema, CatalogEntry.usesStore.
  rewrite Hf, Ho, Hc. pose proof (wf_access _ W) as Hw. destruct p as [fs|fs|[d|]]; cbn [formOf slots payload_bare takePayload negb orb labelsOf] in *; [| | |done].
  - destruct (takeLayouts_spec fs cat Hw Hb) as (fs' & P & T & S & D & O & C). fold cat' in P, T, S, D, O, C.
    assert (L : length fs' = length fs) by (rewrite <- C; symmetry; apply length_fmap). split; [done|]. split_and!.
    + intros []; unfold slotsOf, used, layoutUsed, schemaUsed, storeUsed; cbn [formOf slots]; case_decide; try done; rewrite ?P, ?S, ?D, ?length_app; lia.
    + rewrite P. apply Forall_app. split; [|done]. eapply Forall_impl; [apply (wf_layout _ W)|]. intros f [? ?]. split; (eapply ref_ok_grow; [apply T|done]).
    + rewrite S. eapply Forall_impl; [apply (wf_schema _ W)|]. intros f Hok. eapply ref_ok_grow; [apply T|done].
    + f_equal. rewrite P. cbn [used]. unfold layoutUsed. rewrite <- L, slice_app_here. exact C.
  - destruct (takeSchemas_spec fs cat Hw Hb) as (fs' & P & T & S & D & O & C). fold cat' in P, T, S, D, O, C.
    assert (L : length fs' = length fs) by (rewrite <- C; symmetry; apply length_fmap). split; [done|]. split_and!.
    + intros []; unfold slotsOf, used, layoutUsed, schemaUsed, storeUsed; cbn [formOf slots]; case_decide; try done; rewrite ?P, ?S, ?D, ?length_app; lia.
    + rewrite S. eapply Forall_impl; [apply (wf_layout _ W)|]. intros f [? ?]. split; (eapply ref_ok_grow; [apply T|done]).
    + rewrite P. apply Forall_app. split; [|done]. eapply Forall_impl; [apply (wf_schema _ W)|]. intros f Hok. eapply ref_ok_grow; [apply T|done].
    + f_equal. rewrite P. cbn [used]. unfold schemaUsed. rewrite <- L, slice_app_here. exact C.
  - unfold cat'. split; [split; [split; try done; by apply prefix_app_r|done|done|exact Hw|exact (eq_sym (Nat.add_0_r _))]|]. split_and!.
    + intros []; unfold slotsOf, used, layoutUsed, schemaUsed, storeUsed; cbn [formOf slots]; case_decide; try done;
        try exact (eq_sym (Nat.add_0_r _)). apply (length_app (storePool cat) [d]).
    + eapply Forall_impl; [apply (wf_layout _ W)|]. done.
    + eapply Forall_impl; [apply (wf_schema _ W)|]. done.
    + cbn [Nat.eqb negb used]. f_equal.
      change ((if (length (storePool cat ++ [d]) <? storeUsed cat + 1)%nat then None else (storePool cat ++ [d]) !! storeUsed cat) = Some d).
      rewrite length_app. cbn [length]. destruct (Nat.ltb_spec (length (storePool cat) + 1) (storeUsed cat + 1)); [unfold storeUsed in *; lia|].
      by apply list_lookup_middle.
Qed.

Record entry_fits (h : CatalogEntry.t) (p : Payload) : Prop := {
  ef_bare : payload_bare p; ef_form : CatalogEntry.form h = formOf p; ef_header : header h = h; ef_slots : (slots p <= CatalogEntry.kMaxFields)%nat }.

Lemma wf_snoc cat cat' e : wf cat -> entries cat' = entries cat -> length (labelAccessPool cat') = labelUsed cat' -> count_ok e ->
  CatalogEntry.fieldOffset e = used (CatalogEntry.form e) cat ->
  (forall fm, used fm cat' = used fm cat + if decide (CatalogEntry.form e = fm) then CatalogEntry.fieldCount e else 0)%nat ->
  Forall (layout_ok cat') (layoutPool cat') -> Forall (fun f => ref_ok cat' (SchemaField.options f)) (schemaPool cat') ->
  wf (cat'{{entries := entries cat' ++ [e] }}).
Proof.
  intros W E A Hc Ho Hu Hl Hs. destruct W as [Wa Wp Wo Wc Wl Ws]. rewrite E. split.
  - exact A.
  - intros i x Hx. change (((entries cat ++ [e]) !! i) = Some x) in Hx. change (CatalogEntry.fieldOffset x = owned (CatalogEntry.form x) (take i (entries cat ++ [e]))).
    apply lookup_app_Some in Hx as [Hx|[Hi Hx]].
    + pose proof (lookup_lt_Some _ _ _ Hx). rewrite take_app_le by lia. by apply Wp.
    + apply list_lookup_singleton_Some in Hx as [? <-]. rewrite take_app_le, take_ge by lia. by rewrite Ho, <- Wo.
  - intros fm. change (owned fm (entries cat ++ [e]) = used fm cat'). rewrite owned_app, owned_single, Hu, Wo. done.
  - change (Forall count_ok (entries cat ++ [e])). apply Forall_app. split; [done|]. by apply Forall_singleton.
  - exact Hl.
  - exact Hs.
Qed.

Lemma takeEntry_spec cat h p : wf cat -> entry_fits h p ->
  let cat' := takeEntry cat (h, p) in
  wf cat' /\ contents cat' = contents cat ++ [(h, p)] /\ labelUsed cat' = (labelUsed cat + labelsOf p)%nat
  /\ (forall fm, used fm cat' = used fm cat + slotsOf fm p)%nat /\ count cat' = S (count cat) /\ overflow cat' = overflow cat.
Proof.
  intros W [Hb Hf Hh Hs] cat'. unfold cat', takeEntry. set (e := h{{CatalogEntry.fieldOffset := used (formOf p) cat; CatalogEntry.fieldCount := slots p}}).
  destruct (takePayload_spec p cat e W Hb Hf eq_refl eq_refl) as (T & U & Lo & So & P). set (c1 := takePayload p cat) in *.
  assert (W' : wf (c1{{entries := entries c1 ++ [e] }})).
  { apply (wf_snoc cat c1 e); try done.
    - apply (t_entries _ _ _ T).
    - apply (t_access _ _ _ T).
    - split; [exact Hs|]. change (CatalogEntry.form h = Store -> (slots p <= 1)%nat). rewrite Hf. by destruct p as [| |[]]; cbn; try done; lia.
    - change (used (formOf p) cat = used (CatalogEntry.form h) cat). by rewrite Hf.
    - intros fm. rewrite U. unfold slotsOf. change (CatalogEntry.form e) with (CatalogEntry.form h). by rewrite Hf. }
  split; [exact W'|]. split_and!.
  - unfold contents. change (entries (c1{{entries := entries c1 ++ [e] }})) with (entries c1 ++ [e]). rewrite (t_entries _ _ _ T), fmap_app. f_equal.
    + apply contents_grow; [done| |done]. destruct T as [[] _ _ _ _]. by split.
    + cbn [fmap list_fmap]. f_equal. change ((header h, payload c1 e) = (h, p)). by rewrite Hh, P.
  - apply (t_labels _ _ _ T).
  - exact U.
  - change (length (entries c1 ++ [e]) = S (count cat)). rewrite length_app, (t_entries _ _ _ T). cbn [length]. unfold count. lia.
  - apply (t_overflow _ _ _ T).
Qed.
