(* ===== verification/CatalogEntries.v ===== *)
(** * CatalogEntries: entries survive the wire

    The map of one entry, as a function of what the entry says, and the state the
    decoder's loop has when it has read it: the fields are in the pools, and the
    entry points at them. *)

From stdpp Require Import sorting.
From S2P Require Import Prelude Registry Float ByteIO Cbor Messages Codec Catalog Crypto CatalogCodec CatalogWire CatalogSchema CatalogTrip.
Local Open Scope Z_scope.

(** ** Payloads *)

Definition layoutOps (c : LayoutSaid) : list op := map_ops (layoutWire c.1.1 c.1.2 c.2).

Definition schemaItem (c : SchemaSaid) : Entry BasicCatalog :=
  mkEntry (said_key c) (map_ops (schemaWire c.1.1 c.1.2 c.2)) (fun cat => takeSchema cat c).

Definition layout_said (c : LayoutSaid) : Prop := layout_sendable c.1.1 c.1.2 c.2.
Definition schema_said (c : SchemaSaid) : Prop := schema_sendable c.1.1 c.1.2 c.2.

(** The fields an entry may have on the wire. *)
Definition payload_sendable (p : Payload) : Prop :=
  match p with
  | PLayout fs => Forall layout_said fs /\ fs <> [] /\ (length fs <= CatalogEntry.kMaxFields)%nat
  | PSchema fs => Forall schema_said fs /\ NoDup (said_key <$> fs) /\ fs <> [] /\ (length fs <= CatalogEntry.kMaxFields)%nat
  | PStore (Some d) => store_sendable d
  | PStore None => False
  end.

Lemma ordered_perm fs : ordered fs ≡ₚ fs.
Proof. apply merge_sort_Permutation. Qed.

Lemma sum_list_perm (a b : list nat) : a ≡ₚ b -> sum_list a = sum_list b.
Proof. induction 1; cbn [sum_list]; lia. Qed.

Lemma settled_labels p : labelsOf (settled p) = labelsOf p.
Proof. destruct p; try done. apply sum_list_perm. by rewrite ordered_perm. Qed.

Lemma settled_slots p : slots (settled p) = slots p.
Proof. destruct p; try done. cbn [settled slots]. by rewrite ordered_perm. Qed.

Lemma settled_form p : formOf (settled p) = formOf p.
Proof. by destruct p. Qed.

Lemma settled_sendable p : payload_sendable p -> payload_sendable (settled p).
Proof.
  destruct p as [|fs|]; try done. cbn [settled payload_sendable]. intros (H1 & H2 & H3 & H4). split_and!; try by rewrite ordered_perm.
  intros E. apply H3. apply Permutation_nil. by rewrite <- (ordered_perm fs), E.
Qed.

Lemma sendable_bare p : payload_sendable p -> payload_bare p.
Proof.
  destruct p as [fs|fs|[d|]]; cbn [payload_sendable payload_bare]; try done.
  - intros [H _]. eapply Forall_impl; [exact H|]. intros c Hc. exact (no_refs _ _ _ Hc).
  - intros [H _]. eapply Forall_impl; [exact H|]. intros c Hc. split; [exact (sno_refs _ _ _ Hc)|]. exact (ss_access _ _ _ Hc).
Qed.

Section payloads.
Variables LayoutFields SchemaFields Labels Stores : nat.
Hypothesis Labels_u16 : Z.of_nat Labels <= 0xFFFF.

Definition layout_item (cat : BasicCatalog) (r : CborReader) : Result (BasicCatalog * CborReader) DecodeError :=
  let? (f, cat, r) := decodeLayoutField Labels r cat in
  let? cat := pooled (poolAddLayoutField LayoutFields f cat) in Ok (cat, r).

Lemma takeLayout_used cat c : labelUsed (takeLayout cat c) = (labelUsed cat + layoutLabels c)%nat /\ layoutUsed (takeLayout cat c) = S (layoutUsed cat).
Proof.
  destruct c as [[f bits] options]. unfold takeLayout, layoutLabels. cbn [fst snd]. split.
  - change (labelUsed (addLabels options (addLabels bits cat)) = (labelUsed cat + (length bits + length options))%nat). rewrite !labelUsed_add. lia.
  - unfold layoutUsed. cbn. rewrite length_app. cbn. lia.
Qed.

Lemma layout_item_at d c cat : (S d < kMaxDepth)%nat -> layout_said c -> (labelUsed cat + layoutLabels c <= Labels)%nat ->
  (S (layoutUsed cat) <= LayoutFields)%nat -> readsTo d layout_item (ops_bytes (layoutOps c)) cat (takeLayout cat c).
Proof.
  destruct c as [[f bits] options]. intros Hd H Hl Hu r rest Hb Hs Ha. unfold layout_item, layoutLabels, layoutOps in *. cbn [fst snd] in *.
  rewrite (decodeLayoutField_at Labels d f bits options cat r rest) by (done || lia). cbn [rbind]. unfold poolAddLayoutField.
  change (layoutUsed (addLabels options (addLabels bits cat))) with (layoutUsed cat). destruct (Nat.leb_spec LayoutFields (layoutUsed cat)); [lia|]. done.
Qed.

Lemma layouts_visit d fs cat : (S d < kMaxDepth)%nat -> Forall layout_said fs -> (labelUsed cat + sum_list (layoutLabels <$> fs) <= Labels)%nat ->
  (layoutUsed cat + length fs <= LayoutFields)%nat ->
  visits layout_item d ((fun c => ops_bytes (layoutOps c)) <$> fs) cat (foldl takeLayout cat fs).
Proof.
  intros Hd H. revert cat. induction H as [|c fs Hc _ IH]; intros cat Hl Hu; cbn [fmap list_fmap foldl sum_list length] in *; [constructor|].
  change (id (layoutLabels c)) with (layoutLabels c) in Hl. destruct (takeLayout_used cat c) as [U1 U2]. apply v_cons with (m2 := takeLayout cat c); [apply layout_item_at; done || lia|]. apply IH; lia.
Qed.

Lemma decodeLayout_at d fs cat r rest : (S (S d) < kMaxDepth)%nat -> payload_sendable (PLayout fs) ->
  (labelUsed cat + labelsOf (PLayout fs) <= Labels)%nat -> (layoutUsed cat + length fs <= LayoutFields)%nat ->
  is_bytes (r_in r) -> length (r_stack r) = d -> ahead r = ops_bytes (array_ops layoutOps fs) ++ rest ->
  decodeLayout LayoutFields Labels r cat
  = Ok (Z.of_nat (length fs), foldl takeLayout cat fs, advance (length (ops_bytes (array_ops layoutOps fs))) consumeOne r).
Proof.
  intros Hd (Hfs & Hne & Hm) Hl Hu Hb Hs Ha. rewrite array_bytes in *. set (bss := (fun c => ops_bytes (layoutOps c)) <$> fs) in *.
  assert (length bss = length fs) as Hlen by apply length_fmap. unfold CatalogEntry.kMaxFields in Hm.
  assert (bss <> []) as Hne' by (intros E; rewrite E in Hlen; by destruct fs).
  destruct (arrayHeader_at d bss r rest ltac:(lia) ltac:(unfold is_u32; lia) Hne' Hb Hs Ha) as (r1 & E & Hb1 & Hs1 & Ha1 & Hadv).
  unfold decodeLayout. rewrite E, Hlen. cbn [rbind]. change (Z.of_nat CatalogEntry.kMaxFields) with 64.
  destruct (Z.eqb_spec (Z.of_nat (length fs)) 0); [destruct fs; [done|cbn in *; lia]|]. destruct (Z.ltb_spec 64 (Z.of_nat (length fs))); [lia|]. cbn [orb].
  pose proof (items_visit _ (S d) bss _ _ (r_stack r) false 0 r1 rest (layouts_visit (S d) fs cat Hd Hfs Hl Hu) Hne' Hb1 Hs1 ltac:(by rewrite Hs) Ha1) as W.
  unfold layout_item in W. rewrite Hlen in W. rewrite W. cbn [rbind]. rewrite (Hadv _ consumeOne), length_app. by rewrite Hlen.
Qed.

Lemma takeSchema_used cat c : length (labelAccessPool cat) = labelUsed cat -> sbare c ->
  length (labelAccessPool (takeSchema cat c)) = labelUsed (takeSchema cat c)
  /\ labelUsed (takeSchema cat c) = (labelUsed cat + schemaLabels c)%nat /\ schemaUsed (takeSchema cat c) = S (schemaUsed cat).
Proof.
  intros Hw Hb. destruct (takeSchema_spec c cat Hw Hb) as (f & P & [_ _ _ A L] & _). split; [done|]. split; [done|].
  unfold schemaUsed. rewrite P, length_app. cbn. lia.
Qed.

Lemma schema_item_at d c cat : (S d < kMaxDepth)%nat -> schema_said c -> length (labelAccessPool cat) = labelUsed cat ->
  (labelUsed cat + schemaLabels c <= Labels)%nat -> (S (schemaUsed cat) <= SchemaFields)%nat ->
  readsTo d (schemaEntry SchemaFields Labels (said_key c)) (e_bytes (schemaItem c)) cat (takeSchema cat c).
Proof using Labels_u16.
  destruct c as [[f options] acc]. intros Hd H Hw Hl Hu r rest Hb Hs Ha. unfold schemaEntry, schemaLabels, schemaItem, e_bytes, said_key in *. cbn [fst snd e_ops] in *.
  pose proof (ss_key _ _ _ H) as Hk. cbn [fst snd] in Hk. unfold is_u8 in Hk. destruct (Z.ltb_spec 0xFF (SchemaField.key f)); [lia|].
  rewrite (decodeSchemaField_at Labels Labels_u16 d f options acc cat r rest) by (done || lia). cbn [rbind]. unfold poolAddSchemaField.
  assert (schemaUsed (schemaPools options acc cat) = schemaUsed cat) as -> by (unfold schemaPools; by destruct (some acc)).
  destruct (Nat.leb_spec SchemaFields (schemaUsed cat)); [lia|]. done.
Qed.

Lemma schemas_follow d fs cat : (S d < kMaxDepth)%nat -> Forall schema_said fs -> length (labelAccessPool cat) = labelUsed cat ->
  (labelUsed cat + sum_list (schemaLabels <$> fs) <= Labels)%nat -> (schemaUsed cat + length fs <= SchemaFields)%nat ->
  follows (schemaEntry SchemaFields Labels) d (schemaItem <$> fs) cat.
Proof using Labels_u16.
  intros Hd H. revert cat. induction H as [|c fs Hc _ IH]; intros cat Hw Hl Hu; cbn [fmap list_fmap follows sum_list length] in *; [done|].
  assert (sbare c) as Hb by (split; [exact (sno_refs _ _ _ Hc)|exact (ss_access _ _ _ Hc)]).
  change (id (schemaLabels c)) with (schemaLabels c) in Hl. destruct (takeSchema_used cat c Hw Hb) as (W & U1 & U2). split; [split|].
  - pose proof (ss_key _ _ _ Hc) as Hk. unfold schemaItem, said_key. cbn [e_key]. unfold is_u8, is_u64 in *. lia.
  - apply schema_item_at; done || lia.
  - change (e_eff (schemaItem c) cat) with (takeSchema cat c). apply IH; [done|lia|lia].
Qed.

Lemma schemas_effects (fs : list SchemaSaid) cat : effects (schemaItem <$> fs) cat = foldl takeSchema cat fs.
Proof. revert cat. induction fs as [|c fs IH]; intros cat; [done|]. cbn [fmap list_fmap foldl]. rewrite effects_cons. apply IH. Qed.

Lemma item_keys (fs : list SchemaSaid) : e_key <$> (schemaItem <$> fs) = said_key <$> fs.
Proof. by rewrite <- list_fmap_compose. Qed.

Lemma decodeSchema_at d fs cat r rest : (S (S d) < kMaxDepth)%nat -> payload_sendable (PSchema fs) -> length (labelAccessPool cat) = labelUsed cat ->
  (labelUsed cat + labelsOf (PSchema fs) <= Labels)%nat -> (schemaUsed cat + length fs <= SchemaFields)%nat ->
  is_bytes (r_in r) -> length (r_stack r) = d -> ahead r = ops_bytes (map_ops (schemaItem <$> ordered fs)) ++ rest ->
  decodeSchema SchemaFields Labels r cat
  = Ok (Z.of_nat (length fs), foldl takeSchema cat (ordered fs), advance (length (ops_bytes (map_ops (schemaItem <$> ordered fs)))) consumeOne r).
Proof using Labels_u16.
  intros Hd Hp Hw Hl Hu Hb Hs Ha. pose proof (settled_sendable _ Hp) as (Hfs & _ & Hne & Hm). pose proof (proj1 (proj2 Hp)) as Hn.
  rewrite ops_bytes_map in *. set (es := schemaItem <$> ordered fs) in *. unfold CatalogEntry.kMaxFields in Hm.
  assert (length (ordered fs) = length fs) as Hp' by (by rewrite ordered_perm). assert (length es = length fs) as Hlen by (unfold es; by rewrite length_fmap).
  assert (es <> []) as Hne' by (unfold es; by destruct (ordered fs)).
  destruct (mapHeader_at d es r rest ltac:(lia) ltac:(unfold is_u32; lia) Hne' Hb Hs Ha) as (r1 & E & Hb1 & Hs1 & Ha1 & Hadv).
  unfold decodeSchema. rewrite E, Hlen. cbn [rbind]. change (Z.of_nat CatalogEntry.kMaxFields) with 64.
  destruct (Z.eqb_spec (Z.of_nat (length fs)) 0); [destruct (ordered fs); [done|cbn in *; lia]|]. destruct (Z.ltb_spec 64 (Z.of_nat (length fs))); [lia|]. cbn [orb].
  assert (follows (schemaEntry SchemaFields Labels) (S d) es cat) as F.
  { apply schemas_follow; [done|done|done| |lia]. rewrite <- (settled_labels (PSchema fs)) in Hl. exact Hl. }
  assert (ascending None (e_key <$> es)) as A by (unfold es; rewrite item_keys; by apply ordered_ascending).
  pose proof (fields_follow _ (S d) (r_stack r) es cat r1 false 0 F A Hne' Hb1 Hs1 ltac:(by rewrite Hs) rest Ha1) as W.
  rewrite Hlen in W. rewrite W. cbn [rbind]. unfold es at 1. rewrite schemas_effects, (Hadv _ consumeOne). unfold map_bytes. rewrite length_app, Hlen. done.
Qed.
End payloads.

(** ** The map of an entry *)

Record entry_sendable (h : CatalogEntry.t) (p : Payload) : Prop := {
  es_id : is_u16 (CatalogEntry.id h); es_name : text_ok 32 (CatalogEntry.name h) /\ CatalogEntry.name h <> [];
  es_rate : is_u32 (CatalogEntry.maxRateHz h); es_category : is_u8 (CatalogEntry.category h); es_label : text_ok 24 (CatalogEntry.categoryLabel h);
  es_replay : is_u16 (CatalogEntry.replayDepth h); es_setting : is_u16 (CatalogEntry.settingChannel h);
  es_stream : is_u8 (CatalogEntry.streamKind h); es_rank : is_u8 (CatalogEntry.rank h);
  eno_category : CatalogEntry.hasCategory h = false -> CatalogEntry.category h = 0;
  eno_replay : CatalogEntry.hasReplayDepth h = false -> CatalogEntry.replayDepth h = 0;
  eno_setting : CatalogEntry.hasSettingChannel h = false -> CatalogEntry.settingChannel h = 0;
  eno_rank : CatalogEntry.hasRank h = false -> CatalogEntry.rank h = 0;
  eno_place : header h = h; es_form : CatalogEntry.form h = formOf p; es_payload : payload_sendable p }.

Lemma sendable_fits h p : entry_sendable h p -> entry_fits h (settled p).
Proof.
  intros H. pose proof (settled_sendable p (es_payload _ _ H)) as Hp. split; [by apply sendable_bare|by rewrite settled_form; apply H|apply H|].
  clear H. destruct (settled p) as [fs|fs|[d|]]; cbn [payload_sendable slots] in *; try apply Hp; unfold CatalogEntry.kMaxFields; try lia.
Qed.

Definition entryHead (h : CatalogEntry.t) : list (Entry EntryState) :=
  [mkEntry 1 [OpUint (CatalogEntry.id h)] (fun s => s{{en := (en s){{CatalogEntry.id := CatalogEntry.id h}}; en_gotId := true}});
   mkEntry 2 [OpTstr (CatalogEntry.name h)] (fun s => s{{en := (en s){{CatalogEntry.name := CatalogEntry.name h}}; en_gotName := true}});
   mkEntry 3 [OpUint (class_u8 (CatalogEntry.cls h))] (fun s => s{{en := (en s){{CatalogEntry.cls := CatalogEntry.cls h}}; en_gotCls := true}});
   mkEntry 4 [OpUint (direction_u8 (CatalogEntry.dir h))] (fun s => s{{en := (en s){{CatalogEntry.dir := CatalogEntry.dir h}}; en_gotDir := true}});
   mkEntry 5 [OpUint (access_u8 (CatalogEntry.access h))] (fun s => s{{en := (en s){{CatalogEntry.access := CatalogEntry.access h}}; en_gotAccess := true}});
   mkEntry 6 [OpF32 (CatalogEntry.maxRateHz h)] (fun s => s{{en := (en s){{CatalogEntry.maxRateHz := CatalogEntry.maxRateHz h}}; en_gotRate := true}});
   mkEntry 7 [OpUint (priority_u8 (CatalogEntry.defaultPriority h))]
     (fun s => s{{en := (en s){{CatalogEntry.defaultPriority := CatalogEntry.defaultPriority h}}; en_gotPrio := true}})].

(** The state with the payload in its pools. *)
Definition withPayload (p : Payload) (s : EntryState) : EntryState :=
  let e := (en s){{CatalogEntry.fieldOffset := used (formOf p) (en_cat s); CatalogEntry.fieldCount := slots p}} in
  let s := s{{en := e; en_cat := takePayload (settled p) (en_cat s)}} in
  match formOf p with Layout => s{{en_gotLayout := true}} | Schema => s{{en_gotSchema := true}} | Store => s{{en_gotStore := true}} end.

Definition fieldsEntry (p : Payload) : list (Entry EntryState) :=
  match p with
  | PLayout fs => [mkEntry 8 (array_ops layoutOps fs) (withPayload p)]
  | PSchema fs => [mkEntry 9 (map_ops (schemaItem <$> ordered fs)) (withPayload p)]
  | PStore _ => []
  end.

Definition entryMiddle (h : CatalogEntry.t) : list (Entry EntryState) :=
  opt (CatalogEntry.hasCategory h) (mkEntry 10 [OpUint (CatalogEntry.category h)]
    (fun s => s{{en := (en s){{CatalogEntry.category := CatalogEntry.category h; CatalogEntry.hasCategory := CatalogEntry.hasCategory h}} }}))
  ++ opt (nonEmpty (CatalogEntry.categoryLabel h)) (mkEntry 11 [OpTstr (CatalogEntry.categoryLabel h)]
    (fun s => s{{en := (en s){{CatalogEntry.categoryLabel := CatalogEntry.categoryLabel h}} }}))
  ++ [].

Definition storeEntry (p : Payload) : list (Entry EntryState) :=
  match p with PStore (Some d) => [mkEntry 12 (map_ops (storeWire d)) (withPayload p)] | _ => [] end.

Definition entryTail (h : CatalogEntry.t) : list (Entry EntryState) :=
  opt (CatalogEntry.hasReplayDepth h) (mkEntry 13 [OpUint (CatalogEntry.replayDepth h)]
    (fun s => s{{en := (en s){{CatalogEntry.replayDepth := CatalogEntry.replayDepth h; CatalogEntry.hasReplayDepth := CatalogEntry.hasReplayDepth h}} }}))
  ++ opt (CatalogEntry.hasSettingChannel h) (mkEntry 14 [OpUint (CatalogEntry.settingChannel h)]
    (fun s => s{{en := (en s){{CatalogEntry.settingChannel := CatalogEntry.settingChannel h; CatalogEntry.hasSettingChannel := CatalogEntry.hasSettingChannel h}} }}))
  ++ opt (negb (CatalogEntry.streamKind h =? 0)) (mkEntry 15 [OpUint (CatalogEntry.streamKind h)]
    (fun s => s{{en := (en s){{CatalogEntry.streamKind := CatalogEntry.streamKind h}} }}))
  ++ opt (CatalogEntry.hasRank h) (mkEntry 16 [OpUint (CatalogEntry.rank h)]
    (fun s => s{{en := (en s){{CatalogEntry.rank := CatalogEntry.rank h; CatalogEntry.hasRank := CatalogEntry.hasRank h}} }}))
  ++ [].

Definition entryWire (c : CatalogEntry.t * Payload) : list (Entry EntryState) :=
  entryHead c.1 ++ fieldsEntry c.2 ++ entryMiddle c.1 ++ storeEntry c.2 ++ entryTail c.1.

(** The bytes of an entry. *)
Definition entryBytes (c : CatalogEntry.t * Payload) : bytes := ops_bytes (map_ops (entryWire c)).

Lemma class_roundtrip c : class_of (class_u8 c) = c /\ 0 <= class_u8 c <= 4.
Proof. destruct c; split; cbn; done || lia. Qed.
Lemma direction_roundtrip c : direction_of (direction_u8 c) = c /\ 0 <= direction_u8 c <= 1.
Proof. destruct c; split; cbn; done || lia. Qed.
Lemma priority_roundtrip c : priority_of (priority_u8 c) = c /\ 0 <= priority_u8 c <= 3.
Proof. destruct c; split; cbn; done || lia. Qed.

Section entry.
Variables LayoutFields SchemaFields Labels Stores : nat.
Hypothesis Labels_u16 : Z.of_nat Labels <= 0xFFFF.
Variables layoutMark schemaMark storeMark : nat.

Local Abbreviation field := (entryKey LayoutFields SchemaFields Labels Stores layoutMark schemaMark storeMark).

Ltac entry_key := let E := fresh "E" in intros x r r' E; unfold entryKey; switch; rewrite E; cbn [rbind].

Lemma entryHead_good h p d : entry_sendable h p -> Forall (good field d) (entryHead h).
Proof.
  intros H. unfold entryHead. rewrite !Forall_cons. split_and!; try apply List.Forall_nil.
  - pose proof (es_id _ _ H). apply good_upto with (max := 0xFFFF); [done|unfold is_u16 in *; lia|done|]. by entry_key.
  - destruct (es_name _ _ H). apply good_capped with (e := false) (cap := 32%nat); [done|done|lia|done|]. by entry_key.
  - destruct (class_roundtrip (CatalogEntry.cls h)) as [E1 E2]. apply good_upto with (max := 4); [done|done|done|]. entry_key. by rewrite E1.
  - destruct (direction_roundtrip (CatalogEntry.dir h)) as [E1 E2]. apply good_upto with (max := 1); [done|done|done|]. entry_key. by rewrite E1.
  - destruct (level_roundtrip (CatalogEntry.access h)) as [E1 E2]. apply good_upto with (max := 2); [done|done|done|]. entry_key. by rewrite E1.
  - apply good_float; [done|apply H|]. by entry_key.
  - destruct (priority_roundtrip (CatalogEntry.defaultPriority h)) as [E1 E2]. apply good_upto with (max := 3); [done|done|done|]. entry_key. by rewrite E1.
Qed.

Lemma entryMiddle_good h p d : entry_sendable h p -> Forall (good field d) (entryMiddle h).
Proof.
  intros H. unfold entryMiddle. rewrite !Forall_app. split_and!; try apply List.Forall_nil; apply Forall_opt; intros Hh.
  - pose proof (es_category _ _ H). apply good_upto with (max := 0xFF); [done|unfold is_u8 in *; lia|done|]. entry_key. by rewrite Hh.
  - apply nonEmpty_true in Hh. apply good_capped with (e := false) (cap := 24%nat); [done|apply H|lia|done|]. by entry_key.
Qed.

Lemma entryTail_good h p d : entry_sendable h p -> Forall (good field d) (entryTail h).
Proof.
  intros H. unfold entryTail. rewrite !Forall_app. split_and!; try apply List.Forall_nil; apply Forall_opt; intros Hh.
  - pose proof (es_replay _ _ H). apply good_upto with (max := 0xFFFF); [done|unfold is_u16 in *; lia|done|]. entry_key. by rewrite Hh.
  - pose proof (es_setting _ _ H). apply good_upto with (max := 0xFFFF); [done|unfold is_u16 in *; lia|done|]. entry_key. by rewrite Hh.
  - pose proof (es_stream _ _ H). apply good_upto with (max := 0xFF); [done|unfold is_u8 in *; lia|done|]. by entry_key.
  - pose proof (es_rank _ _ H). apply good_upto with (max := 0xFF); [done|unfold is_u8 in *; lia|done|]. entry_key. by rewrite Hh.
Qed.

(** The pools have room for a payload. *)
Definition room (cat : BasicCatalog) (p : Payload) : Prop :=
  (labelUsed cat + labelsOf p <= Labels)%nat /\ (layoutUsed cat + slotsOf Layout p <= LayoutFields)%nat
  /\ (schemaUsed cat + slotsOf Schema p <= SchemaFields)%nat /\ (storeUsed cat + slotsOf Store p <= Stores)%nat.

(** The pools, and which payloads there have been. *)
Definition entry_place (s : EntryState) : BasicCatalog * bool * bool * bool := (en_cat s, en_gotLayout s, en_gotSchema s, en_gotStore s).

Definition easide (es : list (Entry EntryState)) : Prop := Forall (fun e => forall s, entry_place (e_eff e s) = entry_place s) es.

Lemma easide_effects es s : easide es -> entry_place (effects es s) = entry_place s.
Proof. intros H. revert s. induction H as [|e es He _ IH]; intros s; [done|]. by rewrite effects_cons, IH. Qed.

Lemma entry_aside h : easide (entryHead h) /\ easide (entryMiddle h).
Proof. unfold easide, entryHead, entryMiddle. rewrite !Forall_cons, !Forall_app. split_and!; try apply List.Forall_nil; try done; by apply Forall_opt. Qed.

(** The marks are those of the pools as the entry found them. *)
Definition fresh (cat : BasicCatalog) (s : EntryState) : Prop :=
  entry_place s = (cat, false, false, false) /\ layoutUsed cat = layoutMark /\ schemaUsed cat = schemaMark /\ storeUsed cat = storeMark
  /\ length (labelAccessPool cat) = labelUsed cat.

Lemma slots_u8 n : (n <= CatalogEntry.kMaxFields)%nat -> Z.to_nat (u8 (Z.of_nat n)) = n.
Proof. unfold CatalogEntry.kMaxFields. intros H. rewrite u8_id by (unfold is_u8; lia). lia. Qed.

Lemma fields_read p cat s : payload_sendable p -> room cat p -> fresh cat s -> follows field 1 (fieldsEntry p) s.
Proof using Labels_u16.
  intros Hp (R1 & R2 & R3 & R4) (E & M1 & M2 & M3 & Hw). injection E as E1 E2 E3 E4. destruct p as [fs|fs|d]; cbn [fieldsEntry follows]; [| |done];
    (split; [|done]; split; [done|]; intros r rest Hb Hs Ha; unfold e_bytes in *; cbn [e_key e_ops e_eff] in *; unfold entryKey; switch; rewrite ?E2, ?E3, ?E4, E1; cbn [orb]).
  - change (slotsOf Layout (PLayout fs)) with (length fs) in R2.
    rewrite (decodeLayout_at LayoutFields Labels 1 fs cat r rest) by (done || (unfold kMaxDepth; lia)). cbn [rbind].
    rewrite slots_u8 by apply Hp. unfold withPayload. cbn [formOf slots settled takePayload used]. by rewrite E1, M1.
  - change (slotsOf Schema (PSchema fs)) with (length fs) in R3.
    rewrite (decodeSchema_at SchemaFields Labels Labels_u16 1 fs cat r rest) by (done || (unfold kMaxDepth; lia)). cbn [rbind].
    rewrite slots_u8 by apply Hp. unfold withPayload. cbn [formOf slots settled takePayload used]. by rewrite E1, M2.
Qed.

Lemma store_read p cat s : payload_sendable p -> room cat p -> (formOf p = Store -> fresh cat s) -> follows field 1 (storeEntry p) s.
Proof.
  intros Hp (R1 & R2 & R3 & R4) Hf. destruct p as [fs|fs|[d|]]; cbn [storeEntry follows]; try done. destruct (Hf eq_refl) as (E & M1 & M2 & M3 & Hw).
  injection E as E1 E2 E3 E4. split; [|done]. split; [done|]. intros r rest Hb Hs Ha. unfold e_bytes in *. cbn [e_key e_ops e_eff] in *.
  unfold entryKey. switch. rewrite ?E2, ?E3, E1. cbn [orb].
  rewrite (decodeStoreDescriptor_at 1 d r rest) by (done || (unfold kMaxDepth; lia)). cbn [rbind]. unfold poolAddStore.
  change (slotsOf Store (PStore (Some d))) with 1%nat in R4. destruct (Nat.leb_spec Stores (storeUsed cat)); [lia|]. cbn [pooled rbind]. unfold withPayload. cbn [formOf slots settled takePayload used]. by rewrite E1, M3.
Qed.

Lemma entry_follows h p cat s : entry_sendable h p -> room cat p -> fresh cat s -> follows field 1 (entryWire (h, p)) s.
Proof using Labels_u16.
  intros H R F. destruct (entry_aside h) as [A1 A2]. assert (F1 : fresh cat (effects (entryHead h) s)) by (destruct F as [F F']; split; [by rewrite easide_effects|done]).
  unfold entryWire. cbn [fst snd]. rewrite !follows_app. split_and!; try (by apply follows_good; eauto using entryHead_good, entryMiddle_good, entryTail_good).
  - by apply (fields_read p cat); [apply H| |].
  - apply (store_read p cat); [apply H|done|]. intros Hs. destruct p as [| |d]; try done. cbn [fieldsEntry]. rewrite effects_nil.
    destruct F1 as [F1 F']. split; [by rewrite (easide_effects (entryMiddle h))|done].
Qed.

(** What the parts of the header leave. *)
Definition headed (h e : CatalogEntry.t) : CatalogEntry.t :=
  e{{CatalogEntry.id := CatalogEntry.id h; CatalogEntry.name := CatalogEntry.name h; CatalogEntry.cls := CatalogEntry.cls h;
    CatalogEntry.dir := CatalogEntry.dir h; CatalogEntry.access := CatalogEntry.access h; CatalogEntry.maxRateHz := CatalogEntry.maxRateHz h;
    CatalogEntry.defaultPriority := CatalogEntry.defaultPriority h}}.
Definition labelled (h e : CatalogEntry.t) : CatalogEntry.t :=
  e{{CatalogEntry.category := CatalogEntry.category h; CatalogEntry.hasCategory := CatalogEntry.hasCategory h;
    CatalogEntry.categoryLabel := CatalogEntry.categoryLabel h}}.
Definition ended (h e : CatalogEntry.t) : CatalogEntry.t :=
  e{{CatalogEntry.replayDepth := CatalogEntry.replayDepth h; CatalogEntry.hasReplayDepth := CatalogEntry.hasReplayDepth h;
    CatalogEntry.settingChannel := CatalogEntry.settingChannel h; CatalogEntry.hasSettingChannel := CatalogEntry.hasSettingChannel h;
    CatalogEntry.streamKind := CatalogEntry.streamKind h; CatalogEntry.rank := CatalogEntry.rank h; CatalogEntry.hasRank := CatalogEntry.hasRank h}}.

Lemma effects_label h p s : entry_sendable h p ->
  CatalogEntry.category (en s) = 0 -> CatalogEntry.hasCategory (en s) = false -> CatalogEntry.categoryLabel (en s) = [] ->
  effects (entryMiddle h) s = s{{en := labelled h (en s)}}.
Proof.
  intros H D1 D2 D3. pose proof (eno_category _ _ H) as N1. clear H. destruct s as [e g1 g2 g3 g4 g5 g6 g7 g8 g9 g10 cat]. cbn [en] in *. unfold entryMiddle.
  rewrite !effects_opt, effects_nil; [done| |]; intros E; cbn [e_eff].
  - apply nonEmpty_false in E. destruct e; cbn in D1, D2, D3; subst. by rewrite E.
  - destruct e; cbn in D1, D2, D3; subst. rewrite E, N1 by done. done.
Qed.

Lemma effects_end h p s : entry_sendable h p ->
  CatalogEntry.replayDepth (en s) = 0 -> CatalogEntry.hasReplayDepth (en s) = false -> CatalogEntry.settingChannel (en s) = 0 ->
  CatalogEntry.hasSettingChannel (en s) = false -> CatalogEntry.streamKind (en s) = 0 -> CatalogEntry.rank (en s) = 0 -> CatalogEntry.hasRank (en s) = false ->
  effects (entryTail h) s = s{{en := ended h (en s)}}.
Proof.
  intros H D1 D2 D3 D4 D5 D6 D7. pose proof (eno_replay _ _ H) as N1. pose proof (eno_setting _ _ H) as N2. pose proof (eno_rank _ _ H) as N3. clear H.
  destruct s as [e g1 g2 g3 g4 g5 g6 g7 g8 g9 g10 cat]. cbn [en] in *. destruct e; cbn in D1, D2, D3, D4, D5, D6, D7; subst. unfold entryTail.
  rewrite !effects_opt, effects_nil; [done|..]; intros E; cbn [e_eff].
  - rewrite E, N3 by done. done.
  - apply negb_false_iff, Z.eqb_eq in E. rewrite E. done.
  - rewrite E, N2 by done. done.
  - rewrite E, N1 by done. done.
Qed.

Definition start (cat : BasicCatalog) : EntryState := mkEntryState CatalogEntry.init false false false false false false false false false false cat.

Lemma entry_effects h p cat : entry_sendable h p ->
  effects (entryWire (h, p)) (start cat) = withPayload p (mkEntryState h true true true true true true true false false false cat).
Proof.
  intros H. unfold entryWire. cbn [fst snd]. rewrite !effects_app.
  assert (E : effects (entryHead h) (start cat) = mkEntryState (headed h CatalogEntry.init) true true true true true true true false false false cat) by done.
  rewrite E. clear E. destruct p as [fs|fs|[d|]]; cbn [fieldsEntry storeEntry]; [| | |by destruct (es_payload _ _ H)].
  - rewrite effects_cons, !effects_nil, (effects_label h (PLayout fs)), (effects_end h (PLayout fs)) by done. by destruct h.
  - rewrite effects_cons, !effects_nil, (effects_label h (PSchema fs)), (effects_end h (PSchema fs)) by done. by destruct h.
  - rewrite effects_cons, !effects_nil, (effects_label h (PStore (Some d))), (effects_end h (PStore (Some d))) by done. by destruct h.
Qed.
End entry.

(** ** What the encoder writes for an entry *)

Lemma writeArray_fmap {A B} (ops : B -> list op) (f : A -> B) (write : A -> CborWriter -> CborWriter) xs w :
  Forall (fun x => forall w, write x w = run (ops (f x)) w) xs -> writeArray write xs w = run (array_ops ops (f <$> xs)) w.
Proof.
  intros H. unfold writeArray, array_ops. rewrite run_cons, length_fmap. cbn [exec].
  generalize (arrayHeader (Z.of_nat (length xs)) w). induction H as [|x xs Hx _ IH]; intros v; [done|].
  cbn [foldl fmap list_fmap concat]. by rewrite IH, run_app, Hx.
Qed.

Lemma layouts_write cat e w : CatalogEntry.form e = Layout -> payload_sendable (payload cat e) ->
  writeFields cat e w = run (array_ops layoutOps (layoutContent cat <$> layoutFields e cat)) (key 8 w).
Proof.
  intros F. unfold payload, writeFields. rewrite F. intros (H & _). apply writeArray_fmap. rewrite Forall_fmap in H. eapply Forall_impl; [exact H|].
  intros f Hf v. unfold layoutOps. cbn [layoutContent fst snd]. rewrite layout_write_run by apply (ls_bits _ _ _ Hf). reflexivity.
Qed.

Lemma sorted_content cat fs : schemaContent cat <$> merge_sort byKey fs = ordered (schemaContent cat <$> fs).
Proof. symmetry. apply merge_sort_fmap. done. Qed.

Lemma schemas_write cat e w : CatalogEntry.form e = Schema ->
  writeFields cat e w = run (map_ops (schemaItem <$> ordered (schemaContent cat <$> schemaFields e cat))) (key 9 w).
Proof.
  intros F. unfold writeFields. rewrite F, <- sorted_content, run_map, !length_fmap. generalize (mapHeader (Z.of_nat (length (merge_sort byKey (schemaFields e cat)))) (key 9 w)).
  induction (merge_sort byKey (schemaFields e cat)) as [|f fs IH]; intros v; [done|]. cbn [foldl fmap list_fmap concat]. rewrite run_app, IH. f_equal.
  rewrite schema_write_run. reflexivity.
Qed.

(** The entries of the map, one by one. *)
Ltac listed :=
  unfold entryWire, entryHead, entryMiddle, entryTail; cbn [fst snd fieldsEntry storeEntry]; rewrite <- ?app_comm_cons, <- ?app_assoc; cbn [app].

Lemma entry_count h p : payload_sendable p -> Z.of_nat (length (entryWire (h, p))) = entryKeyCount h.
Proof.
  intros Hp. destruct p as [fs|fs|[d|]]; [| | |done]; listed; rewrite ?count_cons, ?count_opt, ?count_cons, ?count_opt; cbn [length Z.of_nat]; unfold entryKeyCount; ring.
Qed.

Lemma entry_ascending c : ascending None (e_key <$> entryWire c).
Proof.
  destruct c as [h [fs|fs|[d|]]]; listed; keys_ascending.
Qed.

(** A step of the encoder that writes nothing. *)
Ltac let_skip := lazymatch goal with |- (let w := ?a in @?B w) = ?r => change (B a = r); cbv beta end.

Lemma entry_write_run cat e w : payload_sendable (payload cat e) -> encodeEntry cat e w = run (map_ops (entryWire (entryContent cat e))) w.
Proof.
  intros H. unfold entryContent. rewrite run_map, entry_count by done. change (entryKeyCount (header e)) with (entryKeyCount e).
  destruct (CatalogEntry.form e) eqn:F; unfold payload in *; rewrite F in *.
  - assert (N : (CatalogEntry.kMaxFields <? nFields cat e)%nat = false).
    { apply Nat.ltb_ge. unfold nFields. rewrite F. destruct H as (_ & _ & H). by rewrite length_fmap in H. }
    assert (U : CatalogEntry.usesStore e = false) by (unfold CatalogEntry.usesStore; by rewrite F).
    assert (S : storeDescriptor e cat = None) by (unfold storeDescriptor; by rewrite U).
    listed.
    cbv delta [encodeEntry]; cbv beta. rewrite N, U, S. cbv beta iota delta [andb].
    let_step. do 7 (rewrite run_entry; let_step). rewrite run_entry. let_step_by ltac:(apply layouts_write; [exact F|unfold payload; by rewrite F]).
    do 2 (rewrite run_opt_app; let_step). let_skip. run_steps. done.
  - assert (N : (CatalogEntry.kMaxFields <? nFields cat e)%nat = false).
    { apply Nat.ltb_ge. unfold nFields. rewrite F. destruct H as (_ & _ & _ & H). by rewrite length_fmap in H. }
    assert (U : CatalogEntry.usesStore e = false) by (unfold CatalogEntry.usesStore; by rewrite F).
    assert (S : storeDescriptor e cat = None) by (unfold storeDescriptor; by rewrite U).
    listed.
    cbv delta [encodeEntry]; cbv beta. rewrite N, U, S. cbv beta iota delta [andb].
    let_step. do 7 (rewrite run_entry; let_step). rewrite run_entry. let_step_by ltac:(by apply schemas_write).
    do 2 (rewrite run_opt_app; let_step). let_skip. run_steps. done.
  - assert (N : (CatalogEntry.kMaxFields <? nFields cat e)%nat = false) by (unfold nFields; by rewrite F).
    assert (U : CatalogEntry.usesStore e = true) by (unfold CatalogEntry.usesStore; by rewrite F).
    destruct (storeDescriptor e cat) as [d|] eqn:S; [|done].
    assert (W : forall w, writeFields cat e w = w) by (intros v; unfold writeFields; by rewrite F).
    listed.
    cbv delta [encodeEntry]; cbv beta. rewrite N, U, S. rewrite bool_decide_eq_false_2 by done. cbv beta iota delta [andb].
    let_step. do 7 (rewrite run_entry; let_step). rewrite W. let_skip.
    run_steps_by ltac:(first [rewrite store_write_run; reflexivity|reflexivity]). done.
Qed.

Lemma entry_count_u32 h p : payload_sendable p -> is_u32 (Z.of_nat (length (entryWire (h, p)))).
Proof.
  intros Hp. rewrite entry_count by done. unfold entryKeyCount. apply count_bound.
  repeat match goal with |- context [b2z ?b] => pose proof (b2z_range b); generalize dependent (b2z b); intros end. lia.
Qed.

Lemma fields_written p : payload_sendable p -> Forall (fun e => is_u64 (e_key e) /\ written 1 (e_ops e)) (fieldsEntry p).
Proof.
  destruct p as [fs|fs|d]; cbn [fieldsEntry]; [| |by constructor]; intros Hp; (apply Forall_singleton; split; [done|]; cbn [e_ops]).
  - destruct Hp as (H & _ & Hm). unfold CatalogEntry.kMaxFields in Hm. apply written_array; [unfold kMaxDepth; lia|unfold is_u32; lia|].
    eapply Forall_impl; [exact H|]. intros c Hc. apply (layout_written 0); [unfold kMaxDepth; lia|exact Hc].
  - pose proof (settled_sendable _ Hp) as (H & _ & _ & Hm). pose proof (proj1 (proj2 Hp)) as Hn. unfold CatalogEntry.kMaxFields in Hm.
    apply written_map; [unfold kMaxDepth; lia|rewrite length_fmap; unfold is_u32; lia| |rewrite item_keys; by apply ordered_ascending].
    apply Forall_fmap. eapply Forall_impl; [exact H|]. intros c Hc. split.
    + pose proof (ss_key _ _ _ Hc) as Hk. cbn. unfold said_key, is_u8, is_u64 in *. lia.
    + apply (schema_written 0); [unfold kMaxDepth; lia|exact Hc].
Qed.

Lemma entry_written h p : entry_sendable h p -> written 0 (map_ops (entryWire (h, p))).
Proof.
  intros H. pose proof (es_payload _ _ H) as Hp. apply written_map; [unfold kMaxDepth; lia|by apply entry_count_u32| |apply entry_ascending].
  unfold entryWire. cbn [fst snd]. rewrite !Forall_app. split_and!.
  - eapply good_written, (entryHead_good 0 0 0 0 0 0 0). exact H.
  - by apply fields_written.
  - eapply good_written, (entryMiddle_good 0 0 0 0 0 0 0). exact H.
  - destruct p as [| |[d|]]; cbn [storeEntry]; try by constructor. apply Forall_singleton. split; [done|]. apply store_written; [unfold kMaxDepth; lia|exact Hp].
  - eapply good_written, (entryTail_good 0 0 0 0 0 0 0). exact H.
Qed.

(** An entry read back into the pools. *)
Lemma decodeEntry_at L S B T h p cat r rest : Z.of_nat B <= 0xFFFF -> entry_sendable h p -> room L S B T cat p ->
  length (labelAccessPool cat) = labelUsed cat -> is_bytes (r_in r) -> length (r_stack r) = 0%nat -> ahead r = entryBytes (h, p) ++ rest ->
  decodeEntry L S B T r cat
  = Ok (h{{CatalogEntry.fieldOffset := used (formOf p) cat; CatalogEntry.fieldCount := slots p}}, takePayload (settled p) cat,
        advance (length (entryBytes (h, p))) consumeOne r).
Proof.
  intros HB H R Hw Hb Hs Ha. unfold entryBytes in *. rewrite ops_bytes_map in *. pose proof (es_payload _ _ H) as Hp.
  assert (F : fresh (layoutUsed cat) (schemaUsed cat) (storeUsed cat) cat (start cat)) by done.
  unfold decodeEntry. fold (start cat). rewrite (decodeMap_follow _ 0 (entryWire (h, p)) (start cat) ltac:(unfold kMaxDepth; lia) (entry_count_u32 h p Hp) ltac:(done)
    (entry_follows L S B T HB _ _ _ h p cat (start cat) H R F) (entry_ascending (h, p)) r rest Hb Hs Ha).
  cbn [rbind]. rewrite entry_effects by done. unfold withPayload. pose proof (es_form _ _ H) as Hf. destruct (formOf p).
  all: match goal with |- context [CatalogEntry.form (en ?s)] => change (CatalogEntry.form (en s)) with (CatalogEntry.form h) end; rewrite Hf; done.
Qed.
