(* ===== verification/CatalogRound.v ===== *)
(** * CatalogRound: a catalog survives the wire

    [encodeCatalog] writes the wire form of what the catalog says; [decodeCatalog]
    reads it, entry by entry, into a catalog that says the same, its schemas in the
    order of their keys. So the encoding, and with it the etag, identifies what a
    catalog says. *)

From S2P Require Import Prelude Registry Float ByteIO Cbor Messages Codec Catalog Crypto CatalogCodec CatalogWire CatalogSchema CatalogTrip CatalogEntries.
Local Open Scope Z_scope.

Abbreviation Said := (CatalogEntry.t * Payload)%type.

(** What an entry says, its schema in the order of its keys. *)
Definition settledSaid (c : Said) : Said := (c.1, settled c.2).

(** The wire form of a catalog. *)
Definition catalogBytes (l : list Said) : bytes := head_bytes 4 (Z.of_nat (length l)) ++ concat (entryBytes <$> l).

(** The labels and the slots of a pool that come with it. *)
Definition labelsSaid (l : list Said) : nat := foldr (fun c n => labelsOf c.2 + n)%nat 0%nat l.
Definition slotsSaid (fm : FieldForm) (l : list Said) : nat := foldr (fun c n => slotsOf fm c.2 + n)%nat 0%nat l.

(** What the wire can carry: every entry within the ranges of its keys and within
    4096 bytes, the ids strictly ascending, the labels within 16-bit offsets. *)
Record catalog_sendable (cat : BasicCatalog) : Prop := {
  cs_wf : wf cat;
  cs_ids : idsAscend (entries cat) = true;
  cs_labels : Z.of_nat (labelsSaid (contents cat)) <= 0xFFFF;
  cs_count : is_u32 (Z.of_nat (count cat));
  cs_entries : Forall (fun c => entry_sendable c.1 c.2) (contents cat);
  cs_sizes : Forall (fun c => Z.of_nat (length (entryBytes c)) <= limits.catalog_max_entry_bytes) (contents cat) }.

(** ** Encoding *)

Lemma ids_ascending es prev : idsAscend es = true -> (forall l e, prev = Some l -> head es = Some e -> l < CatalogEntry.id e) ->
  ascending prev (CatalogEntry.id <$> es).
Proof.
  revert prev. induction es as [|a es IH]; intros prev H Hp; [done|]. cbn [fmap list_fmap ascending]. split.
  - destruct prev as [l|]; [|done]. by apply Hp.
  - apply IH; [|].
    + destruct es; [done|]. by apply andb_true_iff in H as [_ H].
    + intros l e [= <-] He. destruct es as [|b es]; [done|]. injection He as ->. apply andb_true_iff in H as [H _]. by apply Z.ltb_lt.
Qed.

Lemma entryBytes_pos c : (0 < length (entryBytes c))%nat.
Proof.
  unfold entryBytes. rewrite ops_bytes_map. unfold map_bytes. rewrite length_app. pose proof (length_head_bytes 5 (Z.of_nat (length (entryWire c)))). lia.
Qed.

Lemma resolves_wf cat e : wf cat -> e ∈ entries cat -> payload_sendable (payload cat e) -> resolves cat e = true.
Proof.
  intros W He Hp. pose proof (wf_resolves cat e W He) as R. unfold resolves. destruct (CatalogEntry.form e) eqn:F; cbn [used] in R.
  - unfold layoutFields, CatalogEntry.usesLayout. rewrite F. cbn [negb orb]. rewrite length_pool_slice by done. apply Nat.eqb_refl.
  - unfold schemaFields, CatalogEntry.usesSchema. rewrite F. cbn [negb orb]. rewrite length_pool_slice by done. apply Nat.eqb_refl.
  - unfold payload in Hp. rewrite F in Hp. by destruct (storeDescriptor e cat).
Qed.

Lemma write_sub pos (bs out : bytes) : (pos + length bs <= length out)%nat -> take pos out ++ write_at 0 bs (drop pos out) = write_at pos bs out.
Proof. intros H. unfold write_at. cbn [take Nat.add app]. by rewrite drop_drop. Qed.

Lemma encodeEntries_wire cat es pos out : wf cat -> (forall e, e ∈ es -> e ∈ entries cat) ->
  Forall (fun e => entry_sendable (header e) (payload cat e) /\ Z.of_nat (length (entryBytes (entryContent cat e))) <= limits.catalog_max_entry_bytes) es ->
  let bs := concat ((fun e => entryBytes (entryContent cat e)) <$> es) in
  (pos + length bs <= length out)%nat -> encodeEntries cat es pos out = ((pos + length bs)%nat, write_at pos bs out).
Proof.
  intros W Hin H. revert pos out. induction H as [|e es [He Hm] _ IH]; intros pos out bs Hfit.
  { unfold bs. cbn [fmap list_fmap concat length encodeEntries]. by rewrite Nat.add_0_r, write_at_nil. }
  unfold bs in *. cbn [fmap list_fmap concat encodeEntries] in *. rewrite length_app in *. set (b := entryBytes (entryContent cat e)) in *.
  pose proof (es_payload _ _ He) as Hp. assert (Hie : e ∈ entries cat) by (apply Hin; left).
  assert (count_ok e) as [Hc _] by (by apply (proj1 (Forall_forall _ _) (wf_counts _ W))).
  destruct (Nat.ltb_spec CatalogEntry.kMaxFields (CatalogEntry.fieldCount e)); [lia|]. destruct (Nat.ltb_spec (length out) pos); [lia|].
  rewrite resolves_wf by done. cbn [negb]. rewrite entry_write_run by done. destruct (entry_written _ _ He) as [Hw Hcl _].
  assert (b = ops_bytes (map_ops (entryWire (entryContent cat e)))) as Hb by done.
  rewrite closed_run by (done || (rewrite <- Hb, length_drop; lia)). rewrite <- Hb, write_sub by lia.
  pose proof (entryBytes_pos (entryContent cat e)) as Hpos. fold b in Hpos. destruct (Nat.eqb_spec (length b) 0); [lia|].
  destruct (Z.ltb_spec limits.catalog_max_entry_bytes (Z.of_nat (length b))); [lia|].
  rewrite IH; [|by intros x Hx; apply Hin; right|rewrite length_write_at; lia]. by rewrite Nat.add_assoc, write_at_app by lia.
Qed.

Lemma length_head_max major v : (length (head_bytes major v) <= 9)%nat.
Proof. unfold head_bytes. case_ifs; cbn; lia. Qed.

Lemma header_wire n : is_u32 n -> encoded (arrayHeader n (cborWriter (replicate 9 0))) = (length (head_bytes 4 n), write_at 0 (head_bytes 4 n) (replicate 9 0)).
Proof.
  intros Hn. change (arrayHeader n (cborWriter (replicate 9 0))) with (run [OpArr n] (cborWriter (replicate 9 0))).
  pose proof (run_spec [OpArr n] (cborWriter (replicate 9 0)) eq_refl ltac:(cbn; lia) (proj2 (Forall_singleton op_wf (OpArr n)) Hn)) as H.
  cbn [ops_stack op_stack w_stack cborWriter] in H. unfold push in H. cbn [length Nat.ltb Nat.leb kMaxDepth mbind option_bind] in H.
  rewrite ops_bytes_1 in H. unfold appends in H. cbn [w_pos w_out cborWriter Nat.add op_bytes] in H. rewrite length_replicate in H.
  pose proof (length_head_max 4 n). destruct (Nat.leb_spec (length (head_bytes 4 n)) 9); [|lia]. unfold encoded. by rewrite H.
Qed.

Lemma contents_bytes cat : concat ((fun e => entryBytes (entryContent cat e)) <$> entries cat) = concat (entryBytes <$> contents cat).
Proof. unfold contents. by rewrite <- list_fmap_compose. Qed.

Lemma encodeCatalog_wire cat out : catalog_sendable cat -> (length (catalogBytes (contents cat)) <= length out)%nat ->
  encodeCatalog cat out = (length (catalogBytes (contents cat)), write_at 0 (catalogBytes (contents cat)) out).
Proof.
  intros [W I _ N H S] Hfit. unfold encodeCatalog. rewrite I. cbn [negb]. rewrite header_wire by done. set (hd := head_bytes 4 (Z.of_nat (count cat))).
  assert (E : catalogBytes (contents cat) = hd ++ concat ((fun e => entryBytes (entryContent cat e)) <$> entries cat)).
  { unfold catalogBytes, hd. rewrite contents_bytes. unfold contents, count. by rewrite length_fmap. }
  rewrite E in *. rewrite length_app in Hfit. pose proof (length_head_bytes 4 (Z.of_nat (count cat))) as P. fold hd in P.
  destruct (Nat.eqb_spec (length hd) 0); [lia|]. destruct (Nat.ltb_spec (length out) (length hd)); [lia|]. cbn [orb].
  assert (take (length hd) (write_at 0 hd (replicate 9 0)) = hd) as -> by (unfold write_at; cbn [take]; apply (take_app_length hd)).
  rewrite encodeEntries_wire; [|done|done| |rewrite length_write_at; lia].
  - change (length hd) with (0 + length hd)%nat at 2. by rewrite length_app, write_at_app by lia.
  - unfold contents in H, S. rewrite Forall_fmap in H, S. by apply Forall_and.
Qed.

(** ** Decoding *)

Section decoding.
Variables E L S B T : nat.
Hypothesis B_u16 : Z.of_nat B <= 0xFFFF.

Record roomFor (cat : BasicCatalog) (l : list Said) : Prop := {
  rf_count : (count cat + length l <= E)%nat; rf_labels : (labelUsed cat + labelsSaid l <= B)%nat;
  rf_layout : (layoutUsed cat + slotsSaid Layout l <= L)%nat; rf_schema : (schemaUsed cat + slotsSaid Schema l <= S)%nat;
  rf_store : (storeUsed cat + slotsSaid Store l <= T)%nat }.

Lemma roomFor_take cat c l : wf cat -> entry_sendable c.1 c.2 -> roomFor cat (c :: l) ->
  room L S B T cat c.2 /\ (count cat < E)%nat /\ roomFor (takeEntry cat (settledSaid c)) l.
Proof.
  destruct c as [h p]. intros W H [R1 R2 R3 R4 R5]. cbn [labelsSaid slotsSaid foldr fst snd length] in *.
  fold (labelsSaid l) in R2. fold (slotsSaid Layout l) in R3. fold (slotsSaid Schema l) in R4. fold (slotsSaid Store l) in R5.
  destruct (takeEntry_spec cat h (settled p) W (sendable_fits h p H)) as (_ & _ & U & V & N & _).
  pose proof (V Layout) as V1. pose proof (V Schema) as V2. pose proof (V Store) as V3. cbn [used] in V1, V2, V3. unfold slotsOf in V1, V2, V3. rewrite !settled_form, !settled_slots in *.
  fold (slotsOf Layout p) in V1. fold (slotsOf Schema p) in V2. fold (slotsOf Store p) in V3. rewrite settled_labels in U.
  split; [split_and!; lia|]. split; [lia|]. unfold settledSaid. cbn [fst snd]. split; lia.
Qed.

Lemma catalogStep_at s cat pos prev c rest : wf cat -> entry_sendable c.1 c.2 -> room L S B T cat c.2 -> (count cat < E)%nat ->
  Z.of_nat (length (entryBytes c)) <= limits.catalog_max_entry_bytes -> (forall l, prev = Some l -> l < CatalogEntry.id c.1) ->
  is_bytes s -> (pos <= length s)%nat -> drop pos s = entryBytes c ++ rest ->
  catalogStep E L S B T s (cat, pos, prev) = Ok (takeEntry cat (settledSaid c), (pos + length (entryBytes c))%nat, Some (CatalogEntry.id c.1)).
Proof using B_u16.
  destruct c as [h p]. cbn [fst snd]. intros W H R Hc Hm Hp Hb Hpos Hd. unfold catalogStep. destruct (Nat.ltb_spec (length s) pos); [lia|].
  set (win := Nat.min _ _). set (r := cborReader (subspan pos win s)).
  assert (Hl : (length (entryBytes (h, p)) <= win)%nat).
  { unfold win. apply (f_equal length) in Hd. rewrite length_drop, length_app in Hd. lia. }
  assert (Ha : ahead r = entryBytes (h, p) ++ take (win - length (entryBytes (h, p))) rest).
  { unfold r, ahead, subspan. cbn [cborReader r_pos r_in drop]. rewrite Hd, take_app_ge by done. done. }
  assert (Hr : is_bytes (r_in r)) by (unfold r, subspan; cbn [cborReader r_in]; by apply Forall_take, Forall_drop).
  rewrite (decodeEntry_at L S B T h p cat r _ B_u16 H R (wf_access _ W) Hr eq_refl Ha). cbn [rbind].
  set (e := h{{CatalogEntry.fieldOffset := used (formOf p) cat; CatalogEntry.fieldCount := slots p}}). change (CatalogEntry.id e) with (CatalogEntry.id h).
  assert (match prev with Some q => CatalogEntry.id h <=? q | None => false end = false) as ->.
  { destruct prev as [q|]; [|done]. apply Z.leb_gt. by apply Hp. }
  unfold addEntryVerbatim. pose proof (sendable_bare _ (settled_sendable _ (es_payload _ _ H))) as Hbare.
  destruct (takePayload_spec (settled p) cat e W Hbare) as (Tk & _); rewrite ?settled_form, ?settled_slots; [apply H|done|done|].
  unfold count. rewrite (t_entries _ _ _ Tk). fold (count cat). destruct (Nat.leb_spec E (count cat)); [lia|]. cbn [pooled rbind].
  unfold takeEntry, settledSaid. cbn [fst snd]. rewrite settled_form, settled_slots, (t_entries _ _ _ Tk). done.
Qed.

Lemma decode_steps l s cat pos prev : wf cat -> Forall (fun c => entry_sendable c.1 c.2) l ->
  Forall (fun c => Z.of_nat (length (entryBytes c)) <= limits.catalog_max_entry_bytes) l -> roomFor cat l ->
  ascending prev ((fun c => CatalogEntry.id c.1) <$> l) -> is_bytes s -> (pos <= length s)%nat -> drop pos s = concat (entryBytes <$> l) ->
  exists cat' pos' prev', forR (Z.of_nat (length l)) (catalogStep E L S B T s) (cat, pos, prev) = Ok (cat', pos', prev')
    /\ wf cat' /\ contents cat' = contents cat ++ (settledSaid <$> l) /\ overflow cat' = overflow cat.
Proof using B_u16.
  intros W Hs Hm R A Hb. revert cat pos prev W Hm R A. induction Hs as [|c l Hc _ IH]; intros cat pos prev W Hm R A Hpos Hd.
  { exists cat, pos, prev. cbn [fmap list_fmap]. by rewrite app_nil_r. }
  apply Forall_cons in Hm as [Hm Hms]. cbn [fmap list_fmap ascending concat length] in *. destruct A as [A1 A2].
  destruct (roomFor_take cat c l W Hc R) as (R1 & R2 & R3).
  rewrite forR_S, (catalogStep_at s cat pos prev c (concat (entryBytes <$> l))); try done; [|by intros q ->]. cbn [rbind].
  destruct c as [h p]. destruct (takeEntry_spec cat h (settled p) W (sendable_fits h p Hc)) as (W' & C' & _ & _ & _ & O').
  destruct (IH (takeEntry cat (settledSaid (h, p))) (pos + length (entryBytes (h, p)))%nat (Some (CatalogEntry.id h)) W' Hms R3 A2) as (cat' & pos' & prev' & F & W2 & C2 & O2).
  - apply (f_equal length) in Hd. rewrite length_drop, length_app in Hd. lia.
  - rewrite <- drop_drop, Hd. apply drop_app_length.
  - exists cat', pos', prev'. split; [exact F|]. split; [done|]. split; [|rewrite O2; exact O']. rewrite C2. unfold settledSaid at 1. cbn [fst snd]. rewrite C', <- app_assoc. done.
Qed.

Lemma entries_is_bytes l : Forall (fun c => entry_sendable c.1 c.2) l -> is_bytes (concat (entryBytes <$> l)).
Proof.
  induction 1 as [|[h p] l H _ IH]; [constructor|]. cbn [fmap list_fmap concat]. apply Forall_app. split; [|done]. apply (entry_written h p H).
Qed.

Lemma decodeCatalog_wire l : is_u32 (Z.of_nat (length l)) -> Forall (fun c => entry_sendable c.1 c.2) l ->
  Forall (fun c => Z.of_nat (length (entryBytes c)) <= limits.catalog_max_entry_bytes) l -> roomFor emptyCatalog l ->
  ascending None ((fun c => CatalogEntry.id c.1) <$> l) ->
  exists cat, decodeCatalog E L S B T (catalogBytes l) = Ok cat /\ wf cat /\ contents cat = settledSaid <$> l /\ ok cat = true.
Proof using B_u16.
  intros Hn Hs Hm R A. set (s := catalogBytes l). set (hd := head_bytes 4 (Z.of_nat (length l))).
  assert (Hb : is_bytes s) by (apply Forall_app; split; [apply is_bytes_head; unfold is_u32 in Hn; lia|by apply entries_is_bytes]).
  assert (Ha : ahead (cborReader s) = hd ++ concat (entryBytes <$> l)) by done. unfold decodeCatalog, readArrayHeader.
  assert (0 < kMaxDepth)%nat as Hlt by (unfold kMaxDepth; lia).
  rewrite (proj2 (enter_iff 4 false (cborReader s) _ _ Hb ltac:(lia)) (conj Hn (conj Hlt (conj (ex_intro _ _ Ha) eq_refl)))). cbn [rbind].
  pose proof (rf_count _ _ R) as Hc. cbn in Hc. destruct (Z.ltb_spec (Z.of_nat E) (Z.of_nat (length l))); [lia|].
  unfold bytesConsumed, advance, cborReader. cbn [r_pos Nat.add]. fold hd.
  destruct (decode_steps l s emptyCatalog (length hd) None wf_empty Hs Hm R A Hb) as (cat & pos & prev & -> & W & C & O).
  - unfold s, catalogBytes. rewrite length_app. fold hd. lia.
  - unfold s, catalogBytes. fold hd. apply drop_app_length.
  - exists cat. split; [done|]. split; [done|]. split; [done|]. unfold ok. by rewrite O.
Qed.
End decoding.

(** ** The whole catalog *)

Lemma slots_payload cat e : wf cat -> e ∈ entries cat -> payload_sendable (payload cat e) -> slots (payload cat e) = CatalogEntry.fieldCount e.
Proof.
  intros W He Hp. pose proof (resolves_wf cat e W He Hp) as R. unfold resolves, payload in *. destruct (CatalogEntry.form e) eqn:F; cbn [slots].
  - rewrite length_fmap. by apply Nat.eqb_eq.
  - rewrite length_fmap. by apply Nat.eqb_eq.
  - destruct (storeDescriptor e cat) as [d|] eqn:D; [|done]. unfold storeDescriptor in D.
    destruct (Nat.eqb_spec (CatalogEntry.fieldCount e) 1) as [->|]; [done|]. by rewrite orb_true_r in D.
Qed.

Lemma form_payload cat e : formOf (payload cat e) = CatalogEntry.form e.
Proof. unfold payload. by destruct (CatalogEntry.form e). Qed.

Lemma slotsSaid_used cat fm : catalog_sendable cat -> slotsSaid fm (contents cat) = used fm cat.
Proof.
  intros [W _ _ _ H _]. rewrite <- (wf_owned _ W). unfold contents in *. rewrite Forall_fmap in H.
  assert (Hin : forall e, e ∈ entries cat -> e ∈ entries cat) by done. revert Hin H. generalize (entries cat) at 1 3 4 5 as es.
  induction es as [|e es IH]; intros Hin H; [done|]. apply Forall_cons in H as [He H]. cbn [fmap list_fmap]. rewrite owned_cons. unfold slotsSaid in *. cbn [foldr].
  rewrite IH; [|by intros x Hx; apply Hin; right|done]. f_equal. unfold slotsOf. cbn [entryContent snd]. rewrite form_payload.
  rewrite slots_payload; [|done|apply Hin; left|apply He]. by case_decide; [rewrite bool_decide_true|rewrite bool_decide_false].
Qed.

Lemma contents_ascending cat : catalog_sendable cat -> ascending None ((fun c : Said => CatalogEntry.id c.1) <$> contents cat).
Proof.
  intros H. unfold contents. rewrite <- list_fmap_compose. apply (ids_ascending (entries cat)); [apply H|done].
Qed.

Lemma decode_sendable E L S B T cat : Z.of_nat B <= 0xFFFF -> catalog_sendable cat ->
  (count cat <= E)%nat -> (layoutUsed cat <= L)%nat -> (schemaUsed cat <= S)%nat -> (labelsSaid (contents cat) <= B)%nat -> (storeUsed cat <= T)%nat ->
  exists cat', decodeCatalog E L S B T (catalogBytes (contents cat)) = Ok cat' /\ wf cat' /\ contents cat' = settledSaid <$> contents cat /\ ok cat' = true.
Proof.
  intros HB H HE HL HS HL' HT. assert (length (contents cat) = count cat) as N by apply length_fmap.
  apply decodeCatalog_wire; [done|rewrite N; apply H|apply H|apply H| |by apply contents_ascending].
  split; rewrite ?N; cbn [count layoutUsed schemaUsed storeUsed labelUsed emptyCatalog]; rewrite ?slotsSaid_used by done; done.
Qed.

(** The wire form is a function of what the entries say. *)
Lemma fields_settled p q : settled p = settled q -> entry_bytes <$> fieldsEntry p = entry_bytes <$> fieldsEntry q.
Proof. destruct p, q; try done; cbn [settled fieldsEntry fmap list_fmap]; intros [= E]; unfold entry_bytes, e_bytes; cbn [e_key e_ops]; by rewrite E. Qed.

Lemma store_settled p q : settled p = settled q -> entry_bytes <$> storeEntry p = entry_bytes <$> storeEntry q.
Proof. by destruct p, q; try done; cbn [settled storeEntry]; intros [= ->]. Qed.

Lemma entryBytes_settled c d : settledSaid c = settledSaid d -> entryBytes c = entryBytes d.
Proof.
  destruct c as [h p], d as [h' q]. unfold settledSaid. cbn [fst snd]. intros [= <- E]. unfold entryBytes. rewrite !ops_bytes_map. unfold map_bytes.
  assert (B : entry_bytes <$> entryWire (h, p) = entry_bytes <$> entryWire (h, q)).
  { unfold entryWire. cbn [fst snd]. by rewrite !fmap_app, (fields_settled p q E), (store_settled p q E). }
  rewrite B. apply (f_equal length) in B. rewrite !length_fmap in B. by rewrite B.
Qed.

Lemma catalogBytes_settled l k : settledSaid <$> l = settledSaid <$> k -> catalogBytes l = catalogBytes k.
Proof.
  intros H. assert (length l = length k) as N by (apply (f_equal length) in H; by rewrite !length_fmap in H). unfold catalogBytes. rewrite N. f_equal. f_equal. clear N.
  revert k H. induction l as [|c l IH]; intros [|d k] H; try done. cbn [fmap list_fmap] in *. injection H as H1 H2 H3. f_equal; [|by apply IH].
  apply entryBytes_settled. unfold settledSaid. by rewrite H1, H2.
Qed.
