(* ===== verification/Conformance.v ===== *)
(** * Conformance: the frozen fixture and the catalog checker

    conformance/mini_catalog.hpp (the catalog whose encoding and etag the test
    vectors pin) and conformance/catalog_check.hpp (every violation of the rules a
    catalog has to keep). The calls of the fixture's builder are the steps of a fold
    over the catalog; a designated initialiser is an update of the default member
    values, and a [float] is its bit pattern. *)

From Stdlib Require Import String.
From S2P Require Import Prelude Registry Float ByteIO Cbor Messages Codec Catalog Crypto Builtin CatalogCodec CatalogWire CatalogSchema CatalogTrip CatalogEntries CatalogRound.
Local Open Scope Z_scope.

(** ** The mini catalog *)

Section mini.
Variables Entries LayoutFields SchemaFields Labels Stores : nat.

Definition openEntry (id : Z) (name : string) (cls : ChannelClass) (dir : Direction) (access : AccessLevel) (rate : Z) (prio : Priority)
    (c : BasicCatalog) : BasicCatalog :=
  snd (addEntry Entries (CatalogEntry.init{{CatalogEntry.id := id; CatalogEntry.name := text name; CatalogEntry.cls := cls;
    CatalogEntry.dir := dir; CatalogEntry.access := access; CatalogEntry.maxRateHz := rate; CatalogEntry.defaultPriority := prio}}) c).

Definition layoutOf (name : string) (type : PackedFieldType.t) (unit : string) (scale : Z) : LayoutField.t :=
  LayoutField.init{{LayoutField.name := text name; LayoutField.type := type; LayoutField.unit := text unit; LayoutField.scale := scale}}.

Definition addField (f : LayoutField.t) (c : BasicCatalog) : BasicCatalog := snd (addLayoutField LayoutFields f c).
Definition addBits (f : LayoutField.t) (bits : list string) (c : BasicCatalog) : BasicCatalog :=
  snd (addBitfieldField LayoutFields Labels f (text <$> bits) c).

Definition schemaOf (key : Z) (name : string) (type : CborFieldType.t) (unit : string) : SchemaField.t :=
  SchemaField.init{{SchemaField.key := key; SchemaField.name := text name; SchemaField.type := type; SchemaField.unit := text unit}}.

Definition addArg (f : SchemaField.t) (c : BasicCatalog) : BasicCatalog := snd (addSchemaField SchemaFields f c).

(** 1, 10, 100, 2, 240, 600 and -600 as binary32. *)
Definition f_1 : Z := 0x3F800000.
Definition f_2 : Z := 0x40000000.
Definition f_10 : Z := 0x41200000.
Definition f_100 : Z := 0x42C80000.
Definition f_240 : Z := 0x43700000.
Definition f_600 : Z := 0x44160000.
Definition f_m600 : Z := 0xC4160000.

Definition miniCatalogSteps : list (BasicCatalog -> BasicCatalog) :=
  [openEntry 0x0003 "safety" STATE h2c watch 0 critical;
   addBits (layoutOf "word" PackedFieldType.bitfield8 "flag" f_1) ["estop"; "stop"; "hold"; "pause"]%string;
   addField (layoutOf "cause" PackedFieldType.u8 "" f_1);
   addField (layoutOf "owner_session" PackedFieldType.u32 "" f_1);
   addField (layoutOf "estop_seq" PackedFieldType.u16 "count" f_1);
   addBits (layoutOf "modes" PackedFieldType.bitfield8 "flag" f_1) ["override"; "bypass"]%string;
   openEntry 0x0080 "position" STREAM h2c watch f_240 elevated;
   addField (layoutOf "pos_10um" PackedFieldType.u16 "mm" f_100);
   addField (layoutOf "tgt_10um" PackedFieldType.u16 "mm" f_100);
   addField (layoutOf "raw_10um" PackedFieldType.u16 "mm" f_100);
   openEntry 0x0082 "motion-status" STATE h2c watch f_10 normal;
   addBits (layoutOf "flags" PackedFieldType.bitfield8 "flag" f_1) ["homed"; "homing"; "gen_running"; "paused"; "override"]%string;
   addField (layoutOf "reserved" PackedFieldType.u8 "" f_1);
   openEntry 0x0084 "motion-config-set" INTENT c2h control f_10 critical;
   addArg ((schemaOf 1 "speed" CborFieldType.f32_t "mm/s"){{SchemaField.hasMin := true; SchemaField.hasMax := true; SchemaField.max := f_600}});
   addArg ((schemaOf 2 "depth_pct" CborFieldType.uint_t "%"){{SchemaField.hasMin := true; SchemaField.hasMax := true; SchemaField.max := f_100}});
   addArg (schemaOf 3 "label" CborFieldType.tstr_t "");
   addArg (schemaOf 4 "enable" CborFieldType.bool_t "");
   openEntry 0x008A "anomalies" EVENT h2c watch 0 normal;
   addArg (schemaOf 1 "kind" CborFieldType.uint_t "");
   addArg (schemaOf 2 "t_dev" CborFieldType.uint_t "ms");
   addArg (schemaOf 3 "delta" CborFieldType.int_t "mm");
   addArg (schemaOf 4 "blob" CborFieldType.bstr_t "");
   openEntry 0x0090 "diag" STATE h2c watch f_2 background;
   addField (layoutOf "d_i8" PackedFieldType.i8 "degC" f_1);
   addField ((layoutOf "d_i16" PackedFieldType.i16 "mm/s" f_10){{LayoutField.hasMin := true; LayoutField.hasMax := true;
              LayoutField.min := f_m600; LayoutField.max := f_600}});
   addField (layoutOf "d_i32" PackedFieldType.i32 "count" f_1);
   addField (layoutOf "d_u32" PackedFieldType.u32 "count" f_1);
   addField (layoutOf "d_f32" PackedFieldType.f32 "mm/s2" f_1)].

Definition buildMiniCatalog (c : BasicCatalog) : bool * BasicCatalog :=
  let c := foldl (fun c step => step c) (clear c) miniCatalogSteps in (ok c, c).
End mini.

(** ** The checker *)

Inductive ViolationKind : Set :=
| StateTooLarge | IdsNotAscending | NameTooLong | NameEmpty | WrongFieldForm | NoFields | CoreChannelMisclass
| EntryTooLarge | CategoryLabelMissing | SettingChannelMissing.
#[global] Instance ViolationKind_eq_dec : EqDecision ViolationKind.
Proof. solve_decision. Defined.

Record Violation := mkViolation { kind : ViolationKind; channel_id : Z }.

(** The violations in use; the array ends at [kMax]. *)
Module ConformanceReport.
Definition t := list Violation.
Definition kMax : nat := 32.
Definition ok (r : t) : bool := (length r =? 0)%nat.
Definition add (k : ViolationKind) (id : Z) (r : t) : t := if (length r <? kMax)%nat then r ++ [mkViolation k id] else r.
Definition has (k : ViolationKind) (r : t) : bool := existsb (fun v => bool_decide (kind v = k)) r.
End ConformanceReport.

(** [if (c) r.add(k, id);] *)
Definition addIf (c : bool) (k : ViolationKind) (id : Z) (r : ConformanceReport.t) : ConformanceReport.t :=
  if c then ConformanceReport.add k id r else r.

(** The entry does not resolve to the fields it declares. *)
Definition wrongForm (cat : BasicCatalog) (e : CatalogEntry.t) : bool :=
  match CatalogEntry.form e with
  | Layout => negb (length (layoutFields e cat) =? CatalogEntry.fieldCount e)%nat
  | Schema => negb (length (schemaFields e cat) =? CatalogEntry.fieldCount e)%nat
  | Store => negb (CatalogEntry.fieldCount e =? 1)%nat || bool_decide (storeDescriptor e cat = None)
  end.

(** One turn of the loop: the report, whether there was an entry before, its id, and
    the buffer to measure in. *)
Definition checkEntry (cat : BasicCatalog) (st : ConformanceReport.t * bool * Z * bytes) (e : CatalogEntry.t) :
    ConformanceReport.t * bool * Z * bytes :=
  let '(r, later, prevId, scratch) := st in
  let id := CatalogEntry.id e in
  let r := addIf (later && (id <=? prevId)) IdsNotAscending id r in
  let r := if negb (nonEmpty (CatalogEntry.name e)) then ConformanceReport.add NameEmpty id r
           else addIf (32 <? length (CatalogEntry.name e))%nat NameTooLong id r in
  let r := addIf (CatalogEntry.fieldCount e =? 0)%nat NoFields id r in
  let layout := layoutFields e cat in
  let r := if (0 <? CatalogEntry.fieldCount e)%nat then addIf (wrongForm cat e) WrongFieldForm id r else r in
  let r := addIf (CatalogEntry.usesLayout e && bool_decide (CatalogEntry.cls e = STATE)
                  && (limits.min_transport_payload <? layoutWireSize layout)%nat) StateTooLarge id r in
  let r := addIf (CatalogEntry.hasCategory e && (0x40 <=? CatalogEntry.category e) && (CatalogEntry.category e <=? 0x7E)
                  && negb (nonEmpty (CatalogEntry.categoryLabel e))) CategoryLabelMissing id r in
  let r := if negb (CatalogEntry.hasSettingChannel e)
           then addIf (existsb LayoutField.hasSettingKey layout) SettingChannelMissing id r else r in
  let '(r, scratch) :=
    if negb (length scratch =? 0)%nat
    then let '(n, scratch) := encoded (encodeEntry cat e (cborWriter scratch)) in
         (addIf ((n =? 0)%nat || (limits.catalog_max_entry_bytes <? Z.of_nat n)) EntryTooLarge id r, scratch)
    else (r, scratch) in
  let r := addIf ((id =? channels.safety) && negb (bool_decide (CatalogEntry.cls e = STATE))) CoreChannelMisclass id r in
  let r := addIf ((id =? channels.safety_intents) && negb (bool_decide (CatalogEntry.cls e = INTENT))) CoreChannelMisclass id r in
  (r, true, id, scratch).

Definition checkCatalog (cat : BasicCatalog) (scratch : bytes) : ConformanceReport.t :=
  fst (fst (fst (foldl (checkEntry cat) ([], false, 0, scratch) (entries cat)))).

(** Without a buffer, everything but the size of an entry. *)
Definition checkStructure (cat : BasicCatalog) : ConformanceReport.t := checkCatalog cat [].
