(* ===== verification/CatalogTheorems.v ===== *)
(** * CatalogTheorems: what a catalog on the wire is worth

    The round trip of whole catalogs, the encoding as the identity of what a catalog
    says, and the promise of the conformance checker: a catalog it passes is one the
    wire carries. The frozen fixture is the witness, with its pinned length and
    etag. *)

From Stdlib Require Import String.
From S2P Require Import Prelude Registry Float ByteIO Cbor Messages Codec Catalog Crypto Builtin CatalogCodec CatalogWire CatalogSchema CatalogTrip CatalogEntries CatalogRound Conformance.
Local Open Scope Z_scope.

(** ** What the checker establishes *)

Lemma addIf_ok c k id r : ConformanceReport.ok (addIf c k id r) = true <-> c = false /\ ConformanceReport.ok r = true.
Proof.
  unfold addIf, ConformanceReport.add, ConformanceReport.ok. destruct c; [|naive_solver]. split; [|by intros [? _]].
  destruct (Nat.ltb_spec (length r) ConformanceReport.kMax) as [H|H]; [rewrite length_app|]; intros E%Nat.eqb_eq; exfalso; unfold ConformanceReport.kMax in *; cbn in E; lia.
Qed.

Lemma addIf_nested (b c : bool) k id r : (if b then addIf c k id r else r) = addIf (b && c) k id r.
Proof. by destruct b. Qed.

(** The rules of the checker, for an entry behind one with the id [prev]. *)
Record checked (cat : BasicCatalog) (prev : option Z) (scratch : bytes) (e : CatalogEntry.t) : Prop := {
  ck_id : match prev with Some l => l < CatalogEntry.id e | None => True end;
  ck_name : CatalogEntry.name e <> [] /\ (length (CatalogEntry.name e) <= 32)%nat;
  ck_fields : CatalogEntry.fieldCount e <> 0%nat;
  ck_form : wrongForm cat e = false;
  ck_state : CatalogEntry.cls e = STATE -> (layoutWireSize (layoutFields e cat) <= limits.min_transport_payload)%nat;
  ck_category : CatalogEntry.hasCategory e = true -> 0x40 <= CatalogEntry.category e <= 0x7E -> CatalogEntry.categoryLabel e <> [];
  ck_setting : CatalogEntry.hasSettingChannel e = false -> Forall (fun f => LayoutField.hasSettingKey f = false) (layoutFields e cat);
  ck_size : scratch <> [] -> let n := fst (encoded (encodeEntry cat e (cborWriter scratch))) in n <> 0%nat /\ Z.of_nat n <= limits.catalog_max_entry_bytes;
  ck_safety : CatalogEntry.id e = channels.safety -> CatalogEntry.cls e = STATE;
  ck_intents : CatalogEntry.id e = channels.safety_intents -> CatalogEntry.cls e = INTENT }.

(** The buffer behind an entry. *)
Definition measured (cat : BasicCatalog) (scratch : bytes) (e : CatalogEntry.t) : bytes :=
  if negb (length scratch =? 0)%nat then snd (encoded (encodeEntry cat e (cborWriter scratch))) else scratch.

Lemma name_check name id r :
  ConformanceReport.ok (if negb (nonEmpty name) then ConformanceReport.add NameEmpty id r else addIf (32 <? length name)%nat NameTooLong id r) = true
  <-> (name <> [] /\ (length name <= 32)%nat) /\ ConformanceReport.ok r = true.
Proof.
  assert (E : (if negb (nonEmpty name) then ConformanceReport.add NameEmpty id r else addIf (32 <? length name)%nat NameTooLong id r)
    = addIf (negb (nonEmpty name) || (32 <? length name)%nat) (if negb (nonEmpty name) then NameEmpty else NameTooLong) id r) by (by destruct (nonEmpty name)).
  rewrite E, addIf_ok, orb_false_iff, negb_false_iff, nonEmpty_true, Nat.ltb_ge. done.
Qed.

(** Each condition of the checker as its rule. *)
Lemma andb_false_imp (a b : bool) : a && b = false <-> (a = true -> b = false).
Proof. destruct a, b; naive_solver. Qed.

Lemma id_rule prev id : bool_decide (prev <> None) && (id <=? default 0 prev) = false <-> match prev with Some l => l < id | None => True end.
Proof. destruct prev as [l|]; cbn [default from_option]; [rewrite bool_decide_true by done; apply Z.leb_gt|rewrite bool_decide_false by tauto; tauto]. Qed.

Lemma state_rule e n : CatalogEntry.usesLayout e && bool_decide (CatalogEntry.cls e = STATE) && (limits.min_transport_payload <? n)%nat = false
  <-> (CatalogEntry.cls e = STATE -> (n <= limits.min_transport_payload)%nat).
Proof.
  unfold CatalogEntry.usesLayout, CatalogEntry.form. rewrite <- Nat.ltb_ge. destruct (CatalogEntry.cls e); cbn; split; intros; done || auto.
Qed.

Lemma category_rule (h : bool) c (l : bytes) : h && (0x40 <=? c) && (c <=? 0x7E) && negb (nonEmpty l) = false <-> (h = true -> 0x40 <= c <= 0x7E -> l <> []).
Proof. rewrite <- nonEmpty_true, andb_false_imp, !andb_true_iff, negb_false_iff, !Z.leb_le. tauto. Qed.

Lemma setting_rule (b : bool) fs : negb b && existsb LayoutField.hasSettingKey fs = false <-> (b = false -> Forall (fun f => LayoutField.hasSettingKey f = false) fs).
Proof.
  rewrite andb_false_imp, negb_true_iff. apply Morphisms_Prop.iff_iff_iff_impl_morphism; [done|]. induction fs as [|f fs IH]; cbn [existsb]; [by split|].
  by rewrite orb_false_iff, Forall_cons, IH.
Qed.

Lemma core_rule id v (c k : ChannelClass) : (id =? v) && negb (bool_decide (c = k)) = false <-> (id = v -> c = k).
Proof. rewrite andb_false_imp, Z.eqb_eq, negb_false_iff, bool_decide_eq_true. done. Qed.

Lemma checkEntry_ok cat r prev scratch e :
  let '(r', later, prevId, scratch') := checkEntry cat (r, bool_decide (prev <> None), default 0 prev, scratch) e in
  later = true /\ prevId = CatalogEntry.id e /\ scratch' = measured cat scratch e
  /\ (ConformanceReport.ok r' = true <-> checked cat prev scratch e /\ ConformanceReport.ok r = true).
Proof.
  unfold checkEntry, measured. destruct (negb (length scratch =? 0)%nat) eqn:Hs;
    [destruct (encoded (encodeEntry cat e (cborWriter scratch))) as [n s'] eqn:En|]; (split_and!; [done|done|done|]);
    rewrite !addIf_nested, !addIf_ok, name_check, !addIf_ok, !core_rule, setting_rule, category_rule, state_rule, id_rule, ?orb_false_iff, !Nat.eqb_neq, ?Z.ltb_ge, andb_false_imp.
  - split.
    + intros H. destruct_and! H. split; [|done]. split; try done; [|by rewrite En].
      match goal with H : _ -> wrongForm cat e = false |- _ => apply H end. apply Nat.ltb_lt. lia.
    + intros [[] H]. assert (scratch <> []) as Hne by (by intros ->). rewrite En in *. destruct (ck_size0 Hne), ck_name0. split_and!; done.
  - apply negb_false_iff, Nat.eqb_eq in Hs. split.
    + intros H. destruct_and! H. split; [|done]. split; try done; [|by destruct scratch].
      match goal with H : _ -> wrongForm cat e = false |- _ => apply H end. apply Nat.ltb_lt. lia.
    + intros [[] H]. destruct ck_name0. split_and!; done.
Qed.

(** The rules for a list of entries, the buffer handed on. *)
Fixpoint all_checked (cat : BasicCatalog) (prev : option Z) (scratch : bytes) (es : list CatalogEntry.t) : Prop :=
  match es with
  | [] => True
  | e :: es => checked cat prev scratch e /\ all_checked cat (Some (CatalogEntry.id e)) (measured cat scratch e) es
  end.

Lemma checkEntries_ok cat es r prev scratch :
  ConformanceReport.ok (fst (fst (fst (foldl (checkEntry cat) (r, bool_decide (prev <> None), default 0 prev, scratch) es)))) = true
  <-> all_checked cat prev scratch es /\ ConformanceReport.ok r = true.
Proof.
  revert r prev scratch. induction es as [|e es IH]; intros r prev scratch; cbn [foldl all_checked]; [cbn; tauto|].
  pose proof (checkEntry_ok cat r prev scratch e) as H. destruct (checkEntry _ _ e) as [[[r' later] prevId] scratch']. destruct H as (-> & -> & -> & H).
  specialize (IH r' (Some (CatalogEntry.id e)) (measured cat scratch e)). rewrite bool_decide_true in IH by done. rewrite IH, H. tauto.
Qed.

Lemma checkCatalog_ok cat scratch : ConformanceReport.ok (checkCatalog cat scratch) = true <-> all_checked cat None scratch (entries cat).
Proof.
  unfold checkCatalog. pose proof (checkEntries_ok cat (entries cat) [] None scratch) as H. rewrite bool_decide_false in H by tauto.
  rewrite H. cbn. tauto.
Qed.

(** ** What remains of a checked catalog *)

(** Values within the widths and caps of their fields, absent ones at their defaults:
    what the checker does not look at. *)
Definition payload_ranged (p : Payload) : Prop :=
  match p with
  | PLayout fs => Forall layout_said fs
  | PSchema fs => Forall schema_said fs /\ NoDup (said_key <$> fs)
  | PStore (Some d) => store_sendable d
  | PStore None => True
  end.

Record entry_ranged (h : CatalogEntry.t) (p : Payload) : Prop := {
  er_id : is_u16 (CatalogEntry.id h); er_name : is_bytes (CatalogEntry.name h);
  er_rate : is_u32 (CatalogEntry.maxRateHz h); er_category : is_u8 (CatalogEntry.category h); er_label : text_ok 24 (CatalogEntry.categoryLabel h);
  er_replay : is_u16 (CatalogEntry.replayDepth h); er_setting : is_u16 (CatalogEntry.settingChannel h);
  er_stream : is_u8 (CatalogEntry.streamKind h); er_rank : is_u8 (CatalogEntry.rank h);
  erno_category : CatalogEntry.hasCategory h = false -> CatalogEntry.category h = 0;
  erno_replay : CatalogEntry.hasReplayDepth h = false -> CatalogEntry.replayDepth h = 0;
  erno_setting : CatalogEntry.hasSettingChannel h = false -> CatalogEntry.settingChannel h = 0;
  erno_rank : CatalogEntry.hasRank h = false -> CatalogEntry.rank h = 0; er_payload : payload_ranged p }.

Lemma checked_entry cat prev scratch e : count_ok e -> entry_ranged (header e) (payload cat e) -> checked cat prev scratch e ->
  entry_sendable (header e) (payload cat e).
Proof.
  intros [Hc _] [] [? [? ?] Hf Hw]. split; try done; [exact (eq_sym (form_payload cat e))|]. unfold payload, wrongForm in *.
  destruct (CatalogEntry.form e) eqn:F; cbn [payload_ranged payload_sendable] in *.
  - apply negb_false_iff, Nat.eqb_eq in Hw. rewrite length_fmap. split; [done|]. split; [|lia]. intros E. apply fmap_nil_inv in E. by rewrite E in Hw.
  - apply negb_false_iff, Nat.eqb_eq in Hw. rewrite length_fmap. split; [apply er_payload0|]. split; [apply er_payload0|]. split; [|lia].
    intros E. apply fmap_nil_inv in E. by rewrite E in Hw.
  - apply orb_false_iff in Hw as [_ Hw]. apply bool_decide_eq_false in Hw. by destruct (storeDescriptor e cat).
Qed.

Lemma measured_entry cat scratch e : entry_sendable (header e) (payload cat e) -> scratch <> [] ->
  fst (encoded (encodeEntry cat e (cborWriter scratch))) <> 0%nat ->
  encoded (encodeEntry cat e (cborWriter scratch)) = (length (entryBytes (entryContent cat e)), write_at 0 (entryBytes (entryContent cat e)) scratch)
  /\ (length (entryBytes (entryContent cat e)) <= length scratch)%nat.
Proof.
  intros H Hne. rewrite entry_write_run by apply H. destruct (entry_written _ _ H) as [Hw Hcl _]. change (header e, payload cat e) with (entryContent cat e) in *.
  set (ops := map_ops (entryWire (entryContent cat e))) in *. change (entryBytes (entryContent cat e)) with (ops_bytes ops). intros Hn.
  assert (Hfit : (length (ops_bytes ops) <= length scratch)%nat).
  { pose proof (run_spec ops (cborWriter scratch) eq_refl ltac:(cbn; lia) Hw) as R. cbn [w_stack cborWriter] in R. rewrite Hcl in R by done.
    unfold appends in R. cbn [w_pos w_out cborWriter Nat.add] in R. destruct (Nat.leb_spec (length (ops_bytes ops)) (length scratch)); [done|].
    unfold encoded, size in Hn. by rewrite R in Hn. }
  split; [by apply closed_run|done].
Qed.

Lemma all_checked_sendable cat es prev scratch : wf cat -> (forall e, e ∈ es -> e ∈ entries cat) -> scratch <> [] ->
  Forall (fun e => entry_ranged (header e) (payload cat e)) es -> all_checked cat prev scratch es ->
  Forall (fun e => entry_sendable (header e) (payload cat e) /\ Z.of_nat (length (entryBytes (entryContent cat e))) <= limits.catalog_max_entry_bytes) es
  /\ idsAscend es = true.
Proof.
  intros W Hin Hne Hr. revert prev scratch Hne. induction Hr as [|e es He _ IH]; intros prev scratch Hne; [done|]. cbn [all_checked]. intros [Hc Ha].
  assert (Hs : entry_sendable (header e) (payload cat e)).
  { apply (checked_entry cat prev scratch); [|done|done]. apply (proj1 (Forall_forall _ _) (wf_counts _ W)), Hin. left. }
  destruct (ck_size _ _ _ _ Hc Hne) as [Hn Hm]. destruct (measured_entry cat scratch e Hs Hne Hn) as [E Hfit]. rewrite E in Hm. cbn [fst] in Hm.
  assert (M : measured cat scratch e <> []).
  { unfold measured. destruct (Nat.eqb_spec (length scratch) 0) as [Z|_]; [by destruct scratch|]. cbn [negb]. rewrite E. cbn [snd]. intros Z. apply Hne.
    apply nil_length_inv. apply (f_equal length) in Z. by rewrite length_write_at in Z by lia. }
  destruct (IH ltac:(by intros x Hx; apply Hin; right) (Some (CatalogEntry.id e)) _ M Ha) as [Hes Hi]. split; [by constructor|].
  destruct es as [|e2 es]; [done|]. cbn [idsAscend]. rewrite andb_true_iff. split; [|done]. apply Z.ltb_lt. destruct Ha as [Ha _]. apply (ck_id _ _ _ _ Ha).
Qed.

Lemma checked_sendable cat scratch : wf cat -> Forall (fun c => entry_ranged c.1 c.2) (contents cat) -> Z.of_nat (count cat) <= 0xFFFF ->
  Z.of_nat (labelsSaid (contents cat)) <= 0xFFFF -> scratch <> [] -> ConformanceReport.ok (checkCatalog cat scratch) = true -> catalog_sendable cat.
Proof.
  intros W Hr Hc Hl Hne Hok. apply checkCatalog_ok in Hok. unfold contents in Hr. rewrite Forall_fmap in Hr.
  destruct (all_checked_sendable cat (entries cat) None scratch W ltac:(done) Hne Hr Hok) as [Hs Hi].
  split; [done|done|done|unfold is_u32; lia| |]; unfold contents; rewrite Forall_fmap; (eapply Forall_impl; [exact Hs|]); intros e [H1 H2]; done.
Qed.

Lemma concat_bound {A} (f : A -> bytes) l m : Forall (fun x => length (f x) <= m)%nat l -> (length (concat (f <$> l)) <= m * length l)%nat.
Proof. induction 1 as [|x l Hx _ IH]; cbn [fmap list_fmap concat length]; [lia|]. rewrite length_app. lia. Qed.

Lemma catalogBytes_bound cat : catalog_sendable cat -> (length (catalogBytes (contents cat)) <= 9 + 4096 * count cat)%nat.
Proof.
  intros H. unfold catalogBytes. rewrite length_app. pose proof (length_head_max 4 (Z.of_nat (length (contents cat)))).
  assert (length (concat (entryBytes <$> contents cat)) <= 4096 * length (contents cat))%nat as Hb.
  { apply concat_bound. eapply Forall_impl; [apply (cs_sizes _ H)|]. intros c. unfold limits.catalog_max_entry_bytes. lia. }
  unfold contents at 2 in Hb. rewrite length_fmap in Hb. fold (count cat) in Hb. lia.
Qed.

(** * Theorems *)

Lemma take_written bs out : (length bs <= length out)%nat -> take (length bs) (write_at 0 bs out : bytes) = bs.
Proof. intros H. unfold write_at. cbn [take]. apply (take_app_length bs). Qed.

(** C12. A catalog the wire can carry survives it: the encoder writes it into any buffer
    of its size, and the decoder, given the written bytes and pools that are large
    enough, returns a well-formed catalog that says the same, entry by entry and field
    by field, with the schemas in the order of their keys. *)
Theorem catalog_roundtrip (E L S B T : nat) (cat : BasicCatalog) (out : bytes) :
  catalog_sendable cat -> (length (catalogBytes (contents cat)) <= length out)%nat ->
  (count cat <= E)%nat -> (layoutUsed cat <= L)%nat -> (schemaUsed cat <= S)%nat -> (storeUsed cat <= T)%nat ->
  (labelsSaid (contents cat) <= B)%nat -> Z.of_nat B <= 0xFFFF ->
  let '(n, buf) := encodeCatalog cat out in
  n = length (catalogBytes (contents cat)) /\ exists cat', decodeCatalog E L S B T (take n buf) = Ok cat'
    /\ wf cat' /\ ok cat' = true /\ contents cat' = settledSaid <$> contents cat.
Proof.
  intros H Hfit HE HL HS HT Hl HB. rewrite encodeCatalog_wire by done. split; [done|]. rewrite take_written by done.
  destruct (decode_sendable E L S B T cat HB H HE HL HS Hl HT) as (cat' & D & W & C & O). eauto.
Qed.

(** C13. The encoding identifies what a catalog says: two catalogs the wire can carry have
    the same encoding exactly when they say the same, whatever the order in which the
    arguments of a schema were added and wherever fields and labels lie in the pools;
    so catalogs that say the same have the same etag. *)
Theorem catalog_encoding_canonical (cat1 cat2 : BasicCatalog) (out1 out2 : bytes) :
  catalog_sendable cat1 -> catalog_sendable cat2 ->
  (length (catalogBytes (contents cat1)) <= length out1)%nat -> (length (catalogBytes (contents cat2)) <= length out2)%nat ->
  let '(n1, buf1) := encodeCatalog cat1 out1 in let '(n2, buf2) := encodeCatalog cat2 out2 in
  (take n1 buf1 = take n2 buf2 <-> settledSaid <$> contents cat1 = settledSaid <$> contents cat2)
  /\ (settledSaid <$> contents cat1 = settledSaid <$> contents cat2 -> catalogEtag cat1 out1 = catalogEtag cat2 out2).
Proof.
  intros H1 H2 F1 F2. unfold catalogEtag. rewrite !encodeCatalog_wire by done. rewrite !take_written by done.
  split; [|by intros ->%catalogBytes_settled]. split; [|apply catalogBytes_settled]. intros Eq.
  set (E := Nat.max (count cat1) (count cat2)). set (L := Nat.max (layoutUsed cat1) (layoutUsed cat2)). set (S := Nat.max (schemaUsed cat1) (schemaUsed cat2)).
  set (T := Nat.max (storeUsed cat1) (storeUsed cat2)). set (B := Nat.max (labelsSaid (contents cat1)) (labelsSaid (contents cat2))).
  pose proof (cs_labels _ H1). pose proof (cs_labels _ H2). assert (HB : Z.of_nat B <= 0xFFFF) by lia.
  destruct (decode_sendable E L S B T cat1 HB H1) as (c1 & D1 & _ & C1 & _); try lia.
  destruct (decode_sendable E L S B T cat2 HB H2) as (c2 & D2 & _ & C2 & _); try lia.
  rewrite <- C1, <- C2. rewrite Eq, D2 in D1. by injection D1 as ->.
Qed.

(** C14. The promise of the conformance checker: when it has a buffer to measure in and
    finds nothing in a well-formed catalog whose values are within their fields, that
    catalog encodes into 9 + 4096 bytes per entry, and decodes to one that says the same. *)
Theorem checked_catalog_survives (E L S B T : nat) (cat : BasicCatalog) (scratch out : bytes) :
  wf cat -> Forall (fun c => entry_ranged c.1 c.2) (contents cat) -> Z.of_nat (count cat) <= 0xFFFF ->
  scratch <> [] -> ConformanceReport.ok (checkCatalog cat scratch) = true -> (9 + 4096 * count cat <= length out)%nat ->
  (count cat <= E)%nat -> (layoutUsed cat <= L)%nat -> (schemaUsed cat <= S)%nat -> (storeUsed cat <= T)%nat ->
  (labelsSaid (contents cat) <= B)%nat -> Z.of_nat B <= 0xFFFF ->
  let '(n, buf) := encodeCatalog cat out in
  (0 < n)%nat /\ exists cat', decodeCatalog E L S B T (take n buf) = Ok cat' /\ contents cat' = settledSaid <$> contents cat.
Proof.
  intros W Hr Hc Hne Hok Hout HE HL HS HT Hl HB. assert (H : catalog_sendable cat) by (apply (checked_sendable cat scratch); done || lia).
  pose proof (catalogBytes_bound cat H). rewrite encodeCatalog_wire by (done || lia). rewrite take_written by lia.
  destruct (decode_sendable E L S B T cat HB H HE HL HS Hl HT) as (cat' & D & _ & C & _). split; [|eauto].
  unfold catalogBytes. rewrite length_app. pose proof (length_head_bytes 4 (Z.of_nat (length (contents cat)))). lia.
Qed.

(** ** The frozen fixture *)

Definition mini : BasicCatalog := snd (buildMiniCatalog 8 24 12 24 emptyCatalog).
Definition mini_out : bytes := replicate 832 0.
Definition mini_scratch : bytes := replicate 512 0.

(** Its calls, as the authoring operations they are. *)
Definition open (id : Z) (name : string) cls dir access rate prio : Authoring :=
  OpenEntry (CatalogEntry.init{{CatalogEntry.id := id; CatalogEntry.name := text name; CatalogEntry.cls := cls; CatalogEntry.dir := dir;
    CatalogEntry.access := access; CatalogEntry.maxRateHz := rate; CatalogEntry.defaultPriority := prio}}).

Definition mini_authoring : list Authoring :=
  [open 0x0003 "safety" STATE h2c watch 0 critical;
   Bitfield (layoutOf "word" PackedFieldType.bitfield8 "flag" f_1) (text <$> ["estop"; "stop"; "hold"; "pause"]%string);
   Field (layoutOf "cause" PackedFieldType.u8 "" f_1);
   Field (layoutOf "owner_session" PackedFieldType.u32 "" f_1);
   Field (layoutOf "estop_seq" PackedFieldType.u16 "count" f_1);
   Bitfield (layoutOf "modes" PackedFieldType.bitfield8 "flag" f_1) (text <$> ["override"; "bypass"]%string);
   open 0x0080 "position" STREAM h2c watch f_240 elevated;
   Field (layoutOf "pos_10um" PackedFieldType.u16 "mm" f_100);
   Field (layoutOf "tgt_10um" PackedFieldType.u16 "mm" f_100);
   Field (layoutOf "raw_10um" PackedFieldType.u16 "mm" f_100);
   open 0x0082 "motion-status" STATE h2c watch f_10 normal;
   Bitfield (layoutOf "flags" PackedFieldType.bitfield8 "flag" f_1) (text <$> ["homed"; "homing"; "gen_running"; "paused"; "override"]%string);
   Field (layoutOf "reserved" PackedFieldType.u8 "" f_1);
   open 0x0084 "motion-config-set" INTENT c2h control f_10 critical;
   Argument ((schemaOf 1 "speed" CborFieldType.f32_t "mm/s"){{SchemaField.hasMin := true; SchemaField.hasMax := true; SchemaField.max := f_600}});
   Argument ((schemaOf 2 "depth_pct" CborFieldType.uint_t "%"){{SchemaField.hasMin := true; SchemaField.hasMax := true; SchemaField.max := f_100}});
   Argument (schemaOf 3 "label" CborFieldType.tstr_t "");
   Argument (schemaOf 4 "enable" CborFieldType.bool_t "");
   open 0x008A "anomalies" EVENT h2c watch 0 normal;
   Argument (schemaOf 1 "kind" CborFieldType.uint_t "");
   Argument (schemaOf 2 "t_dev" CborFieldType.uint_t "ms");
   Argument (schemaOf 3 "delta" CborFieldType.int_t "mm");
   Argument (schemaOf 4 "blob" CborFieldType.bstr_t "");
   open 0x0090 "diag" STATE h2c watch f_2 background;
   Field (layoutOf "d_i8" PackedFieldType.i8 "degC" f_1);
   Field ((layoutOf "d_i16" PackedFieldType.i16 "mm/s" f_10){{LayoutField.hasMin := true; LayoutField.hasMax := true;
            LayoutField.min := f_m600; LayoutField.max := f_600}});
   Field (layoutOf "d_i32" PackedFieldType.i32 "count" f_1);
   Field (layoutOf "d_u32" PackedFieldType.u32 "count" f_1);
   Field (layoutOf "d_f32" PackedFieldType.f32 "mm/s2" f_1)].

Lemma build_wf ops : Forall plain ops -> wf (snd (build 8 24 12 24 0 ops emptyCatalog)).
Proof. intros Hp. pose proof (build_spec 8 24 12 24 0 ops Hp) as H. destruct (build 8 24 12 24 0 ops emptyCatalog) as [rs c]. apply H. Qed.

Lemma mini_plain : Forall plain mini_authoring.
Proof. repeat (constructor; [done|]). constructor. Qed.

Lemma mini_wf : wf mini.
Proof.
  assert (mini = snd (build 8 24 12 24 0 mini_authoring emptyCatalog)) as -> by (vm_compute; reflexivity). apply build_wf, mini_plain.
Qed.

#[local] Instance is_u8_dec z : Decision (is_u8 z).
Proof. unfold is_u8. apply _. Defined.
#[local] Instance is_u16_dec z : Decision (is_u16 z).
Proof. unfold is_u16. apply _. Defined.
#[local] Instance is_u32_dec z : Decision (is_u32 z).
Proof. unfold is_u32. apply _. Defined.
#[local] Instance text_ok_dec n s : Decision (text_ok n s).
Proof. unfold text_ok. apply _. Defined.
#[local] Instance option_ok_dec s : Decision (option_ok s).
Proof. unfold option_ok. apply _. Defined.
#[local] Instance default_ok_dec d : Decision (default_ok d).
Proof. destruct d; cbn [default_ok]; apply _. Defined.
#[local] Instance trimmed_dec bs : Decision (trimmed bs).
Proof.
  refine (cast_if (decide (last bs <> Some []))); abstract (unfold trimmed; destruct (last bs) as [s|]; naive_solver).
Defined.

(** Evaluates a decidable fact. *)
Ltac decided := apply (bool_decide_unpack _); vm_compute; exact I.

(** The ranges of a concrete catalog. *)
Ltac ranged cat :=
  let F := fresh "F" in
  assert (Forall (fun c => match c.2 with PLayout fs => Forall layout_said fs | PSchema fs => Forall schema_said fs | PStore _ => True end) (contents cat)) as F;
  [ let l := fresh "l" in set (l := contents cat); vm_compute in l; subst l; repeat (apply Forall_cons; split; cbn [snd]);
    try apply List.Forall_nil; split; first [decided|by split|done]
  | let l := fresh "l" in set (l := contents cat) in *; vm_compute in l; subst l; rewrite !Forall_cons in *; destruct_and! F; split_and!; try apply List.Forall_nil;
    (split; [decided..|]); cbn [snd payload_ranged] in *; try done; split; try done; decided ].

Lemma mini_ranged : Forall (fun c => entry_ranged c.1 c.2) (contents mini).
Proof. ranged mini. Qed.

Lemma mini_checked : ConformanceReport.ok (checkCatalog mini mini_scratch) = true.
Proof. vm_compute. reflexivity. Qed.

Lemma mini_sendable : catalog_sendable mini.
Proof. apply (checked_sendable mini mini_scratch mini_wf mini_ranged); [decided|decided|done|exact mini_checked]. Qed.

(** The pinned vectors K-01 and K-02. *)
Example mini_pinned :
  fst (encodeCatalog mini mini_out) = 775%nat /\ catalogEtag mini mini_out = [0xF4; 0xA2; 0x8F; 0xBB; 0x58; 0xCE; 0xD1; 0x6A].
Proof. vm_compute. done. Qed.

Lemma mini_length : length (catalogBytes (contents mini)) = 775%nat.
Proof. vm_compute. reflexivity. Qed.

Lemma mini_fits (out : bytes) : (775 <= length out)%nat -> (length (catalogBytes (contents mini)) <= length out)%nat.
Proof. by rewrite mini_length. Qed.

Lemma catalog_roundtrip_witness : let '(n, buf) := encodeCatalog mini mini_out in
  exists cat', decodeCatalog 6 15 8 11 0 (take n buf) = Ok cat' /\ contents cat' = settledSaid <$> contents mini.
Proof.
  assert (length mini_out = 832%nat) as Ho by apply length_replicate.
  pose proof (catalog_roundtrip 6 15 8 11 0 mini mini_out mini_sendable (mini_fits mini_out ltac:(rewrite Ho; lia)) ltac:(decided) ltac:(decided) ltac:(decided)
    ltac:(decided) ltac:(decided) ltac:(decided)) as H.
  destruct (encodeCatalog mini mini_out) as [n buf]. destruct H as (_ & cat' & D & _ & _ & C). exists cat'. exact (conj D C).
Defined.

(** The fixture with the arguments of one entry added in another order, and its pools
    laid out in another way. *)
Definition mini_shuffled : BasicCatalog :=
  snd (build 8 24 12 24 0 (take 14 mini_authoring ++ reverse (take 4 (drop 14 mini_authoring)) ++ drop 18 mini_authoring) emptyCatalog).

Lemma mini_shuffled_sendable : catalog_sendable mini_shuffled.
Proof.
  apply (checked_sendable mini_shuffled mini_scratch); [|ranged mini_shuffled|decided|decided|done|vm_compute; reflexivity].
  apply build_wf. pose proof mini_plain as H. rewrite <- (take_drop 14 mini_authoring), <- (take_drop 4 (drop 14 mini_authoring)), !Forall_app, drop_drop in H.
  rewrite !Forall_app, Forall_reverse. exact H.
Qed.

Lemma mini_shuffled_same : settledSaid <$> contents mini = settledSaid <$> contents mini_shuffled /\ contents mini <> contents mini_shuffled.
Proof. split; [vm_compute; reflexivity|]. intros H. apply (f_equal (fun l => said_key <$> match l !! 3%nat with Some (_, PSchema fs) => fs | _ => [] end)) in H. vm_compute in H. done. Qed.

Lemma mini_shuffled_fits : (length (catalogBytes (contents mini_shuffled)) <= length mini_out)%nat.
Proof. rewrite <- (catalogBytes_settled _ _ (proj1 mini_shuffled_same)). apply mini_fits. unfold mini_out. rewrite length_replicate. lia. Qed.

Lemma catalog_encoding_canonical_witness : catalogEtag mini mini_out = catalogEtag mini_shuffled mini_out.
Proof.
  assert (length mini_out = 832%nat) as Ho by apply length_replicate.
  pose proof (catalog_encoding_canonical mini mini_shuffled mini_out mini_out mini_sendable mini_shuffled_sendable
    (mini_fits mini_out ltac:(rewrite Ho; lia)) mini_shuffled_fits) as H.
  destruct (encodeCatalog mini mini_out) as [n1 b1], (encodeCatalog mini_shuffled mini_out) as [n2 b2]. exact (proj2 H (proj1 mini_shuffled_same)).
Defined.

Lemma checked_catalog_survives_witness : let '(n, buf) := encodeCatalog mini (replicate 24585 0) in
  exists cat', decodeCatalog 6 15 8 11 0 (take n buf) = Ok cat' /\ contents cat' = settledSaid <$> contents mini.
Proof.
  assert (9 + 4096 * count mini <= length (replicate 24585 0))%nat as Ho by (rewrite length_replicate; decided).
  pose proof (checked_catalog_survives 6 15 8 11 0 mini mini_scratch (replicate 24585 0) mini_wf mini_ranged ltac:(decided) ltac:(done) mini_checked Ho
    ltac:(decided) ltac:(decided) ltac:(decided) ltac:(decided) ltac:(decided) ltac:(decided)) as H.
  destruct (encodeCatalog mini (replicate 24585 0)) as [n buf]. destruct H as (_ & cat' & D & C). exists cat'. exact (conj D C).
Defined.
