(* ===== verification/CatalogSafe.v ===== *)
(** * CatalogSafe: what the catalog decoder lets through

    On arbitrary bytes: whatever [decodeCatalog] returns is a well-formed catalog
    within the capacities of its pools. The entries' slices tile the pools because
    the keys of an entry ascend, so that at most one payload is read, and it once;
    this needs the reader's own account of open containers. *)

From S2P Require Import Prelude Registry Float ByteIO Cbor Messages Codec Catalog Crypto Accept CatalogCodec CatalogWire CatalogSchema CatalogTrip CatalogEntries CatalogRound.
Local Open Scope Z_scope.

(** ** Readers that consume one value *)

Definition sane (r : CborReader) : Prop := is_bytes (r_in r) /\ (length (r_stack r) <= kMaxDepth)%nat.

Definition next (r r' : CborReader) : Prop := r_in r' = r_in r /\ r_stack r' = consumeOne (r_stack r).

Lemma length_settle f below : (length (settle f below) <= S (length below))%nat.
Proof.
  revert f. induction below as [|g below IH]; intros f; cbn [settle]; case_ifs; cbn [length]; try lia. specialize (IH (dec g)). lia.
Qed.

Lemma length_consumeOne stk : (length (consumeOne stk) <= length stk)%nat.
Proof. destruct stk as [|f below]; [done|]. apply length_settle. Qed.

Lemma sane_next r r' : sane r -> next r r' -> sane r'.
Proof. intros [Hb Hl] [E1 E2]. split; [by rewrite E1|]. rewrite E2. pose proof (length_consumeOne (r_stack r)). lia. Qed.

Lemma next_uint r v r' : readUint r = Ok (v, r') -> next r r'.
Proof. unfold readUint. destruct (parseHeadRaw r); [|done]. cbn [rbind]. case_ifs; [done|]. by intros [= _ <-]. Qed.

Lemma next_int r v r' : readInt r = Ok (v, r') -> next r r'.
Proof. unfold readInt. destruct (parseHeadRaw r); [|done]. cbn [rbind]. case_ifs; try done; by intros [= _ <-]. Qed.

Lemma next_tstr r v r' : readTstr r = Ok (v, r') -> next r r'.
Proof. unfold readTstr, readStr. destruct (parseHeadRaw r); [|done]. cbn [rbind]. case_ifs; try done; by intros [= _ <-]. Qed.

Lemma next_f32 r v r' : readF32 r = Ok (v, r') -> next r r'.
Proof. unfold readF32. destruct (parseSimpleRaw r) as [[[] ? ?]|]; try done. by intros [= _ <-]. Qed.

Lemma next_bool r v r' : readBool r = Ok (v, r') -> next r r'.
Proof. unfold readBool. destruct (parseSimpleRaw r) as [[[] ? ?]|]; try done; by intros [= _ <-]. Qed.

Lemma next_upto max r v r' : readUpTo max r = Ok (v, r') -> next r r'.
Proof. unfold readUpTo. destruct (readUint r) as [[x r1]|] eqn:E; [|done]. cbn [rbind]. case_ifs; [done|]. intros [= _ <-]. by eapply next_uint. Qed.

Lemma next_text e cap r v r' : readText e cap r = Ok (v, r') -> next r r'.
Proof. unfold readText. destruct (readTstr r) as [[x r1]|] eqn:E; [|done]. cbn [rbind]. case_ifs; [done|]. intros [= _ <-]. by eapply next_tstr. Qed.

Lemma next_default r v r' : decodeSettingDefault r = Ok (v, r') -> next r r'.
Proof.
  unfold decodeSettingDefault. destruct (peekType r) as [t|]; [|done]. cbn [rbind]. destruct t; try done.
  1, 2: destruct (readInt r) as [[x r1]|] eqn:E; [|done]; cbn [rbind]; case_ifs; [done|]; intros [= _ <-]; by eapply next_int.
  - destruct (readTstr r) as [[x r1]|] eqn:E; [|done]. intros [= _ <-]. by eapply next_tstr.
  - destruct (readF32 r) as [[x r1]|] eqn:E; [intros [= _ <-]; by eapply next_f32|].
    destruct (readBool r) as [[x r1]|] eqn:E'; [|done]. intros [= _ <-]. by eapply next_bool.
Qed.

Lemma next_skip {M} (m m' : M) r r' : sane r -> ignoreField m r = Ok (m', r') -> m' = m /\ next r r'.
Proof.
  intros [Hb Hl]. unfold ignoreField, skipValue. destruct (skip _ r) as [r1|] eqn:E; [|done]. intros [= <- <-]. split; [done|].
  apply skip_iff in E as (s & rest & _ & _ & ->); [done|done|lia].
Qed.

(** ** Loops over containers *)

Lemma key_step r n hl lk stk k r1 : sane r -> r_stack r = mkFrame true (2 * Z.of_nat (S n)) hl lk :: stk -> readKey r = Ok (k, r1) ->
  0 <= k /\ (forall l, last_of hl lk = Some l -> l < k) /\ sane r1 /\ r_in r1 = r_in r /\ r_stack r1 = mkFrame true (2 * Z.of_nat (S n) - 1) true k :: stk.
Proof.
  intros [Hb Hd] Hst Ek. apply (readKey_iff r _ stk k r1 Hb Hst) in Ek as (Hk & _ & Hl & ->); [|done]. cbn [remaining hasLastKey lastKey] in *.
  assert (St : r_stack (advance (length (head_bytes 0 k)) (fun _ => consumeOne (mkFrame true (2 * Z.of_nat (S n)) true k :: stk)) r)
    = mkFrame true (2 * Z.of_nat (S n) - 1) true k :: stk) by (cbn [advance r_stack]; by rewrite consumeOne_more by lia).
  split_and!; [unfold is_u64 in Hk; lia| |split; [done|rewrite St; by rewrite Hst in Hd]|done|exact St].
  intros l E. destruct hl; [|done]. injection E as <-. by apply Hl.
Qed.

Section loops.
Context {M : Type}.

(** Entries with ascending keys: [P] may speak of how many there were and of the last one. *)
Lemma ordered_fields (P : nat -> option Z -> M -> Prop) (field : Z -> M -> CborReader -> Result (M * CborReader) DecodeError) n stk hl lk j m r m' r' :
  (forall i o k m r m' r', P i o m -> (forall l, o = Some l -> l < k) -> 0 <= k -> sane r -> field k m r = Ok (m', r') -> P (S i) (Some k) m' /\ next r r') ->
  sane r -> r_stack r = mkFrame true (2 * Z.of_nat (S n)) hl lk :: stk -> P j (last_of hl lk) m ->
  decodeFields field (Z.of_nat (S n)) m r = Ok (m', r') -> (exists o, P (j + S n)%nat o m') /\ r_in r' = r_in r /\ r_stack r' = consumeOne stk.
Proof.
  intros Hf. revert hl lk j m r. induction n as [|n IH]; intros hl lk j m r Hs Hst Hp; unfold decodeFields; rewrite forR_S.
  all: destruct (readKey r) as [[k r1]|] eqn:Ek; [|done]; cbn [rbind]; destruct (key_step _ _ _ _ _ _ _ Hs Hst Ek) as (Hk & Hl & Hs1 & Hi & St).
  all: destruct (field k m r1) as [[m1 r2]|] eqn:Ef; [|done]; cbn [rbind]; destruct (Hf _ _ _ _ _ _ _ Hp Hl Hk Hs1 Ef) as [Hp1 [Hn1 Hn2]].
  - cbn [forR Z.of_nat]. intros [= <- <-]. rewrite Nat.add_1_r. split; [by eexists|]. split; [congruence|]. rewrite Hn2, St. apply consumeOne_last.
  - intros H. assert (St2 : r_stack r2 = mkFrame true (2 * Z.of_nat (S n)) true k :: stk) by (rewrite Hn2, St, consumeOne_more by lia; do 2 f_equal; lia).
    destruct (IH true k (S j) m1 r2 (sane_next _ _ Hs1 (conj Hn1 Hn2)) St2 Hp1 H) as (Ho & H1 & H2). rewrite <- Nat.add_succ_comm. split; [done|]. split; [congruence|done].
Qed.

Lemma enter_sane m map r n r1 : sane r -> 0 <= m < 6 -> enterContainer m map r = Ok (n, r1) ->
  is_u32 n /\ r_in r1 = r_in r /\ r_stack r1 = afterConsume (mkFrame map (if map then n * 2 else n) false 0 :: r_stack r) /\ sane r1.
Proof.
  intros [Hb Hl] Hm E. apply enter_iff in E as (Hn & Hd & _ & ->); [|done|done]. split_and!; try done. split; [done|]. cbn [advance r_stack].
  etrans; [apply length_settle|]. lia.
Qed.

Lemma sized n : is_u32 n -> n = 0 \/ exists k, n = Z.of_nat (S k).
Proof. unfold is_u32. intros H. destruct (Z.eq_dec n 0); [by left|]. right. exists (Z.to_nat (n - 1)). lia. Qed.

Lemma ordered_map (P : nat -> option Z -> M -> Prop) (field : Z -> M -> CborReader -> Result (M * CborReader) DecodeError) n m r m' r1 r' :
  (forall i o k m r m' r', P i o m -> (forall l, o = Some l -> l < k) -> 0 <= k -> sane r -> field k m r = Ok (m', r') -> P (S i) (Some k) m' /\ next r r') ->
  sane r -> P 0%nat None m -> readMapHeader r = Ok (n, r1) -> decodeFields field n m r1 = Ok (m', r') -> (exists o, P (Z.to_nat n) o m') /\ next r r'.
Proof.
  intros Hf Hs Hp E. apply enter_sane in E as (Hn & Hi & Hst & Hs1); [|done|lia]. destruct (sized n Hn) as [->|[k ->]].
  - intros [= <- <-]. split; [by eexists|]. split; [done|]. rewrite Hst. apply settle_empty.
  - rewrite open_nonempty in Hst by lia. intros H.
    destruct (ordered_fields P field k (r_stack r) false 0 0 m r1 m' r' Hf Hs1 ltac:(rewrite Hst; do 2 f_equal; lia) Hp H) as (Ho & H1 & H2).
    rewrite Nat2Z.id. split; [done|]. split; [congruence|done].
Qed.

(** Items of an array: [P] may speak of how many there were. *)
Lemma counted_items (P : nat -> M -> Prop) (item : M -> CborReader -> Result (M * CborReader) DecodeError) n stk hl lk j m r m' r' :
  (forall i m r m' r', P i m -> sane r -> item m r = Ok (m', r') -> P (S i) m' /\ next r r') ->
  sane r -> r_stack r = mkFrame false (Z.of_nat (S n)) hl lk :: stk -> P j m ->
  forR (Z.of_nat (S n)) (fun '(m, r) => item m r) (m, r) = Ok (m', r') -> P (j + S n)%nat m' /\ r_in r' = r_in r /\ r_stack r' = consumeOne stk.
Proof.
  intros Hf. revert j m r. induction n as [|n IH]; intros j m r Hs Hst Hp; rewrite forR_S.
  all: destruct (item m r) as [[m1 r1]|] eqn:E; [|done]; cbn [rbind]; destruct (Hf j m r m1 r1 Hp Hs E) as [Hp1 [H1 H2]].
  - cbn [forR Z.of_nat]. intros [= <- <-]. rewrite Nat.add_1_r. split; [done|]. split; [done|]. rewrite H2, Hst. apply consumeOne_last.
  - intros H. assert (St : r_stack r1 = mkFrame false (Z.of_nat (S n)) hl lk :: stk) by (rewrite H2, Hst, consumeOne_more by lia; do 2 f_equal; lia).
    destruct (IH (S j) m1 r1 (sane_next _ _ Hs (conj H1 H2)) St Hp1 H) as (Hp2 & H3 & H4). replace (j + S (S n))%nat with (S j + S n)%nat by lia. split; [done|]. split; [congruence|done].
Qed.

Lemma counted_array (P : nat -> M -> Prop) (item : M -> CborReader -> Result (M * CborReader) DecodeError) n m r m' r1 r' :
  (forall i m r m' r', P i m -> sane r -> item m r = Ok (m', r') -> P (S i) m' /\ next r r') ->
  sane r -> P 0%nat m -> readArrayHeader r = Ok (n, r1) -> forR n (fun '(m, r) => item m r) (m, r1) = Ok (m', r') -> P (Z.to_nat n) m' /\ next r r'.
Proof.
  intros Hf Hs Hp E. apply enter_sane in E as (Hn & Hi & Hst & Hs1); [|done|lia]. destruct (sized n Hn) as [->|[k ->]].
  - intros [= <- <-]. split; [done|]. split; [done|]. rewrite Hst. apply settle_empty.
  - rewrite open_nonempty in Hst by lia. intros H.
    destruct (counted_items P item k (r_stack r) false 0 0 m r1 m' r' Hf Hs1 Hst Hp H) as (Ho & H1 & H2).
    rewrite Nat2Z.id. split; [done|]. split; [congruence|done].
Qed.
End loops.

(** ** Labels *)

Section safe.
Variables Entries LayoutFields SchemaFields Labels Stores : nat.

(** Nothing but labels has come in. *)
Record labels_only (c c' : BasicCatalog) : Prop := {
  b_entries : entries c' = entries c; b_layout : layoutPool c' = layoutPool c; b_schema : schemaPool c' = schemaPool c;
  b_store : storePool c' = storePool c; b_overflow : overflow c' = overflow c; b_more : (labelUsed c <= labelUsed c')%nat }.

#[local] Instance labels_only_preorder : PreOrder labels_only.
Proof.
  split; [intros c; by split|]. intros a b c [? ? ? ? ? ?] [? ? ? ? ? ?]. split; congruence || lia.
Qed.

(** The labels and their levels go together, within the pool. *)
Definition even (c : BasicCatalog) : Prop := length (labelAccessPool c) = labelUsed c /\ (labelUsed c <= Labels)%nat.

Lemma ref_ok_more c c' ref : (labelUsed c <= labelUsed c')%nat -> ref_ok c ref -> ref_ok c' ref.
Proof. intros H [H1|H1]; [by left|right; lia]. Qed.

Lemma pushLabel_safe s c c' : even c -> pushLabel Labels s c = Ok c' -> labels_only c c' /\ even c' /\ labelUsed c' = S (labelUsed c).
Proof.
  intros [H1 H2] H. assert (Hr : (labelUsed c + 1 <= Labels)%nat).
  { unfold pushLabel, poolAddLabel in H. destruct (Nat.leb_spec Labels (labelUsed c)); [done|lia]. }
  rewrite pushLabel_ok in H by done. injection H as <-. pose proof (labelUsed_add [s] c) as U. cbn [length] in U.
  assert (A : labelAccessPool (addLabels [s] c) = labelAccessPool c ++ [watch]) by done. split; [split; try done; lia|]. unfold even. rewrite A, length_app, U. cbn [length].
  split; [split|]; lia.
Qed.

Lemma fillGap_safe n c c' : even c -> fillGap Labels n c = Ok c' -> labels_only c c' /\ even c' /\ labelUsed c' = (labelUsed c + n)%nat.
Proof.
  revert c. induction n as [|n IH]; intros c He; cbn [fillGap]; [intros [= <-]; split; [done|]; split; [done|lia]|].
  destruct (pushLabel Labels [] c) as [c1|] eqn:E; [|done]. cbn [rbind]. destruct (pushLabel_safe _ _ _ He E) as (L1 & E1 & U1). intros H.
  destruct (IH c1 E1 H) as (L2 & E2 & U2). split; [by etrans|]. split; [done|lia].
Qed.

Lemma decodeOptions_safe r c ref c' r' : sane r -> even c -> decodeOptions Labels r c = Ok (ref, c', r') ->
  labels_only c c' /\ even c' /\ ref_ok c' ref /\ next r r'.
Proof.
  intros Hs He. unfold decodeOptions. destruct (readArrayHeader r) as [[n r1]|] eqn:E; [|done]. cbn [rbind].
  destruct ((n =? 0) || (Z.of_nat LabelRef.kMaxCount <? n)) eqn:G; [done|]. apply orb_false_iff in G as [G1%Z.eqb_neq G2%Z.ltb_ge].
  destruct (forR n _ (c, r1)) as [[c2 r2]|] eqn:F; [|done]. cbn [rbind]. intros [= <- <- <-].
  destruct (counted_array (fun i x => labels_only c x /\ even x /\ labelUsed x = (labelUsed c + i)%nat) (option_item Labels) n c r c2 r1 r2) as [(L & E2 & U) N]; try done.
  - intros i m s m' s' (L & Em & U) Hss. unfold option_item. destruct (readText _ _ s) as [[t s1]|] eqn:Et; [|done]. cbn [rbind].
    destruct (pushLabel Labels t m) as [m1|] eqn:Ep; [|done]. intros [= <- <-]. destruct (pushLabel_safe _ _ _ Em Ep) as (L1 & E1 & U1).
    split; [|by eapply next_text]. split; [by etrans|]. split; [done|lia].
  - split; [done|]. split; [done|]. split; [|done]. right. unfold LabelRef.start, LabelRef.kMaxCount in *. cbn [LabelRef.offset LabelRef.count].
    apply enter_sane in E as (Hn & _); [|done|lia]. unfold is_u32 in Hn. rewrite u8_id by (unfold is_u8; lia). lia.
Qed.

Lemma decodeBits_safe r c ref c' r' : sane r -> even c -> decodeBits Labels r c = Ok (ref, c', r') ->
  labels_only c c' /\ even c' /\ ref_ok c' ref /\ next r r'.
Proof.
  intros Hs He. unfold decodeBits. destruct (readMapHeader r) as [[n r1]|] eqn:E; [|done]. cbn [rbind].
  destruct ((n =? 0) || (8 <? n)); [done|]. destruct (decodeFields _ n (c, 0%nat) r1) as [[[c2 filled] r2]|] eqn:F; [|done]. cbn [rbind]. intros [= <- <- <-].
  destruct (ordered_map (fun _ o x => labels_only c x.1 /\ even x.1 /\ labelUsed x.1 = (labelUsed c + x.2)%nat) (bitField Labels) n (c, 0%nat) r (c2, filled) r1 r2)
    as [(o & L & E2 & U) N]; try done.
  - intros i o k [m j] s [m' j'] s' (L & Em & U) _ Hk Hss. cbn [fst snd] in *. unfold bitField. destruct (8 <=? k); [done|].
    destruct (readText _ _ s) as [[t s1]|] eqn:Et; [|done]. cbn [rbind]. destruct (fillGap Labels _ m) as [m1|] eqn:Eg; [|done]. cbn [rbind].
    destruct (pushLabel Labels t m1) as [m2|] eqn:Ep; [|done]. intros [= <- <- <-]. destruct (fillGap_safe _ _ _ Em Eg) as (L1 & E1 & U1).
    destruct (pushLabel_safe _ _ _ E1 Ep) as (L2 & E2 & U2). split; [|by eapply next_text]. split; [etrans; [exact L|]; by etrans|]. split; [done|lia].
  - cbn [fst snd] in *. split; [done|]. split; [done|]. split; [|done]. right. unfold LabelRef.start. cbn [LabelRef.offset LabelRef.count]. lia.
Qed.

Lemma decodeOptionAccess_safe ref r c c' r' : sane r -> even c -> decodeOptionAccess ref r c = Ok (c', r') -> labels_only c c' /\ even c' /\ next r r'.
Proof.
  intros Hs He. unfold decodeOptionAccess. destruct (readArrayHeader r) as [[n r1]|] eqn:E; [|done]. cbn [rbind]. destruct (_ || _); [done|].
  destruct (forR n _ (0%nat, c, r1)) as [[[a c2] r2]|] eqn:F; [|done]. cbn [rbind]. intros [= <- <-].
  destruct (counted_array (fun _ x => labels_only c x.2 /\ even x.2) (access_item ref) n (0%nat, c) r (a, c2) r1 r2) as [[L E2] N]; try done.
  intros i [j m] s [j' m'] s' [L Em] Hss. cbn [fst snd] in *. unfold access_item. destruct (readUpTo 2 s) as [[v s1]|] eqn:Ev; [|done]. cbn [rbind].
  unfold poolSetLabelAccess. destruct (_ <=? _)%nat; [done|]. intros [= <- <- <-]. split; [|by eapply next_upto]. split; [by destruct L; split|].
  destruct Em as [Ea Eu]. split; [|exact Eu]. exact (eq_trans (length_insert (labelAccessPool m) _ _) Ea).
Qed.

(** ** Fields *)

(** A branch that reads one value into the field. *)
Ltac scalar :=
  lazymatch goal with
  | |- rbind ?rd _ = Ok _ -> _ =>
      let E := fresh "E" in destruct rd as [[? ?]|] eqn:E; [|discriminate]; cbn [rbind]; intros [= <- <-]; split;
      [assumption|first [eapply next_upto; exact E|eapply next_text; exact E|eapply next_f32; exact E|eapply next_default; exact E]]
  | |- ignoreField _ _ = Ok _ -> _ =>
      let E := fresh "E" in intros E; apply next_skip in E as [-> E]; [|assumption]; split; [assumption|exact E]
  end.

Definition layout_inv (c : BasicCatalog) (s : LayoutState) : Prop := labels_only c (lf_cat s) /\ even (lf_cat s) /\ layout_ok (lf_cat s) (lf s).

(** A label list joins the pool; the other label references of the field stay. *)
Ltac joined spec Hi :=
  lazymatch goal with
  | |- rbind ?rd _ = Ok _ -> _ =>
      let E := fresh "E" in destruct rd as [[[ref c1] r1]|] eqn:E; [|discriminate]; cbn [rbind]; intros [= <- <-];
      let L := fresh "L" in let V := fresh "V" in let K := fresh "K" in destruct Hi as (L & V & K);
      let L1 := fresh "L" in let V1 := fresh "V" in let K1 := fresh "K" in let N := fresh "N" in
      destruct (spec _ _ _ _ _ ltac:(eassumption) V E) as (L1 & V1 & K1 & N); split; [|exact N]; split; [etrans; eassumption|split; [exact V1|]]
  end.

Lemma layoutKey_safe c k s r s' r' : layout_inv c s -> sane r -> layoutKey Labels k s r = Ok (s', r') -> layout_inv c s' /\ next r r'.
Proof.
  intros Hi Hs. unfold layoutKey.
  repeat match goal with |- (if k =? ?n then _ else _) = _ -> _ => destruct (k =? n); [try (scalar; fail)|] end; try scalar.
  - joined decodeBits_safe Hi. split; [exact K0|]. exact (ref_ok_more _ _ _ (b_more _ _ L0) (proj2 K)).
  - joined decodeOptions_safe Hi. split; [|exact K0]. exact (ref_ok_more _ _ _ (b_more _ _ L0) (proj1 K)).
Qed.

Lemma decodeLayoutField_safe r c f c' r' : sane r -> even c -> decodeLayoutField Labels r c = Ok (f, c', r') ->
  labels_only c c' /\ even c' /\ layout_ok c' f /\ next r r'.
Proof.
  intros Hs He. unfold decodeLayoutField, decodeMap. destruct (readMapHeader r) as [[n r1]|] eqn:E; [|done]. cbn [rbind].
  destruct (decodeFields _ n _ r1) as [[s r2]|] eqn:F; [|done]. cbn [rbind]. case_ifs; [done|]. intros [= <- <- <-].
  assert (H0 : layout_inv c (mkLayoutState LayoutField.init false false false false c)) by (split; [done|]; split; [exact He|]; by split; left).
  destruct (ordered_map (fun _ _ => layout_inv c) _ _ _ _ _ _ _ (fun _ _ k m q m' q' Hp _ _ => layoutKey_safe c k m q m' q' Hp) Hs H0 E F) as [(o & L & V & K) N]. done.
Qed.

Definition schema_inv (c : BasicCatalog) (s : SchemaState) : Prop :=
  labels_only c (sf_cat s) /\ even (sf_cat s) /\ ref_ok (sf_cat s) (SchemaField.options (sf s)).

Lemma schemaKey_safe c k s r s' r' : schema_inv c s -> sane r -> schemaKey Labels k s r = Ok (s', r') -> schema_inv c s' /\ next r r'.
Proof.
  intros Hi Hs. unfold schemaKey.
  repeat match goal with |- (if k =? ?n then _ else _) = _ -> _ => destruct (k =? n); [try (scalar; fail)|] end; try scalar.
  - joined decodeOptions_safe Hi. exact K0.
  - destruct (decodeOptionAccess _ r _) as [[c1 r1]|] eqn:E; [|discriminate]. cbn [rbind]. intros [= <- <-]. destruct Hi as (L & V & K).
    destruct (decodeOptionAccess_safe _ _ _ _ _ Hs V E) as (L1 & V1 & N). split; [|exact N]. split; [etrans; eassumption|]. split; [exact V1|].
    exact (ref_ok_more _ _ _ (b_more _ _ L1) K).
Qed.

Lemma decodeSchemaField_safe k r c f c' r' : sane r -> even c -> decodeSchemaField Labels k r c = Ok (f, c', r') ->
  labels_only c c' /\ even c' /\ ref_ok c' (SchemaField.options f) /\ next r r'.
Proof.
  intros Hs He. unfold decodeSchemaField, decodeMap. destruct (readMapHeader r) as [[n r1]|] eqn:E; [|done]. cbn [rbind].
  destruct (decodeFields _ n _ r1) as [[s r2]|] eqn:F; [|done]. cbn [rbind]. case_ifs; [done|]. intros [= <- <- <-].
  assert (H0 : schema_inv c (mkSchemaState (SchemaField.init{{SchemaField.key := k}}) false false false c)) by (split; [done|]; split; [exact He|]; by left).
  destruct (ordered_map (fun _ _ => schema_inv c) _ _ _ _ _ _ _ (fun _ _ k m q m' q' Hp _ _ => schemaKey_safe c k m q m' q' Hp) Hs H0 E F) as [(o & L & V & K) N]. done.
Qed.

Lemma decodeStoreDescriptor_next r d r' : sane r -> decodeStoreDescriptor r = Ok (d, r') -> next r r'.
Proof.
  intros Hs. unfold decodeStoreDescriptor, decodeMap. destruct (readMapHeader r) as [[n r1]|] eqn:E; [|done]. cbn [rbind].
  destruct (decodeFields _ n _ r1) as [[s r2]|] eqn:F; [|done]. cbn [rbind]. case_ifs; [done|]. intros [= <- <-].
  refine (proj2 (ordered_map (fun _ _ _ => True) storeKey _ _ _ _ _ _ _ Hs I E F)). intros i o k m q m' q' H _ _ Hq. unfold storeKey.
  repeat match goal with |- (if k =? ?n then _ else _) = _ -> _ => destruct (k =? n); [try (scalar; fail)|] end; try scalar.
Qed.

(** ** Pools *)

(** The pools as the decoder leaves them between two fields. *)
Record pools_ok (c : BasicCatalog) : Prop := {
  p_even : even c; p_flag : overflow c = false;
  p_layout : Forall (layout_ok c) (layoutPool c); p_schema : Forall (fun f => ref_ok c (SchemaField.options f)) (schemaPool c);
  p_layouts : (layoutUsed c <= LayoutFields)%nat; p_schemas : (schemaUsed c <= SchemaFields)%nat; p_stores : (storeUsed c <= Stores)%nat }.

(** [n] slots of one form more, and no entry. *)
Record added (fm : FieldForm) (n : nat) (c c' : BasicCatalog) : Prop := {
  a_entries : entries c' = entries c; a_pools : pools_ok c';
  a_used : forall fm', used fm' c' = (used fm' c + if decide (fm = fm') then n else 0)%nat }.

Lemma pools_labels c c' : pools_ok c -> labels_only c c' -> even c' -> pools_ok c' /\ entries c' = entries c /\ forall fm, used fm c' = used fm c.
Proof.
  intros [V O Lo So L S T] [E1 E2 E3 E4 E5 M] V'. unfold layoutUsed, schemaUsed, storeUsed in *. split; [|split; [done|]].
  - split; unfold layoutUsed, schemaUsed, storeUsed; rewrite ?E2, ?E3, ?E4; try done; [congruence| |].
    + eapply Forall_impl; [exact Lo|]. intros f [H1 H2]. split; by eapply ref_ok_more.
    + eapply Forall_impl; [exact So|]. intros f H. by eapply ref_ok_more.
  - intros []; cbn [used]; unfold layoutUsed, schemaUsed, storeUsed; congruence.
Qed.

Lemma added_trans fm n m a b c : added fm n a b -> added fm m b c -> added fm (n + m) a c.
Proof. intros [E1 _ U1] [E2 P2 U2]. split; [congruence|done|]. intros fm'. rewrite U2, U1. case_decide; lia. Qed.

Lemma added_0 fm c : pools_ok c -> added fm 0 c c.
Proof. intros P. split; [done|done|]. intros fm'. case_decide; lia. Qed.

Lemma pushLayout_safe f c c' : pools_ok c -> layout_ok c f -> pooled (poolAddLayoutField LayoutFields f c) = Ok c' -> added Layout 1 c c'.
Proof.
  intros [V O Lo So L S T] K. unfold poolAddLayoutField. destruct (Nat.leb_spec LayoutFields (layoutUsed c)) as [|G]; [done|]. enough (A : added Layout 1 c (c{{layoutPool := layoutPool c ++ [f] }})) by (intros [= <-]; exact A).
  assert (U : layoutUsed (c{{layoutPool := layoutPool c ++ [f] }}) = (layoutUsed c + 1)%nat) by exact (length_app (layoutPool c) [f]).
  split; [done|split; try done; [by apply Forall_app_2, Forall_singleton|rewrite U; lia]|]. intros []; cbn [used]; rewrite ?U; case_decide; try done; exact (eq_sym (Nat.add_0_r _)).
Qed.

Lemma pushSchema_safe f c c' : pools_ok c -> ref_ok c (SchemaField.options f) -> pooled (poolAddSchemaField SchemaFields f c) = Ok c' -> added Schema 1 c c'.
Proof.
  intros [V O Lo So L S T] K. unfold poolAddSchemaField. destruct (Nat.leb_spec SchemaFields (schemaUsed c)) as [|G]; [done|]. enough (A : added Schema 1 c (c{{schemaPool := schemaPool c ++ [f] }})) by (intros [= <-]; exact A).
  assert (U : schemaUsed (c{{schemaPool := schemaPool c ++ [f] }}) = (schemaUsed c + 1)%nat) by exact (length_app (schemaPool c) [f]).
  split; [done|split; try done; [by apply Forall_app_2, Forall_singleton|rewrite U; lia]|]. intros []; cbn [used]; rewrite ?U; case_decide; try done; exact (eq_sym (Nat.add_0_r _)).
Qed.

Lemma pushStore_safe d c c' : pools_ok c -> pooled (poolAddStore Stores d c) = Ok c' -> added Store 1 c c'.
Proof.
  intros [V O Lo So L S T]. unfold poolAddStore. destruct (Nat.leb_spec Stores (storeUsed c)) as [|G]; [done|]. enough (A : added Store 1 c (c{{storePool := storePool c ++ [d] }})) by (intros [= <-]; exact A).
  assert (U : storeUsed (c{{storePool := storePool c ++ [d] }}) = (storeUsed c + 1)%nat) by exact (length_app (storePool c) [d]).
  split; [done|split; try done; rewrite U; lia|]. intros []; cbn [used]; rewrite ?U; case_decide; try done; exact (eq_sym (Nat.add_0_r _)).
Qed.

Lemma added_after fm n a b c : pools_ok a -> labels_only a b -> even b -> added fm n b c -> added fm n a c.
Proof.
  intros P L V [E P2 U]. destruct (pools_labels _ _ P L V) as (_ & E1 & U1). split; [congruence|done|]. intros fm'. by rewrite U, U1.
Qed.

Lemma layout_item_safe c r c' r' : pools_ok c -> sane r -> layout_item LayoutFields Labels c r = Ok (c', r') -> added Layout 1 c c' /\ next r r'.
Proof.
  intros P Hs. unfold layout_item. destruct (decodeLayoutField Labels r c) as [[[f c1] r1]|] eqn:E; [|done]. cbn [rbind].
  destruct (decodeLayoutField_safe _ _ _ _ _ Hs (p_even _ P) E) as (L & V & K & N).
  destruct (pooled _) as [c2|] eqn:F; [|done]. intros [= <- <-]. split; [|done]. apply (added_after _ _ _ c1); try done.
  eapply pushLayout_safe; [by eapply pools_labels|done|done].
Qed.

Lemma schemaEntry_safe k c r c' r' : pools_ok c -> sane r -> schemaEntry SchemaFields Labels k c r = Ok (c', r') -> added Schema 1 c c' /\ next r r'.
Proof.
  intros P Hs. unfold schemaEntry. case_ifs; [done|]. destruct (decodeSchemaField Labels k r c) as [[[f c1] r1]|] eqn:E; [|done]. cbn [rbind].
  destruct (decodeSchemaField_safe _ _ _ _ _ _ Hs (p_even _ P) E) as (L & V & K & N).
  destruct (pooled _) as [c2|] eqn:F; [|done]. intros [= <- <-]. split; [|done]. apply (added_after _ _ _ c1); try done.
  eapply pushSchema_safe; [by eapply pools_labels|done|done].
Qed.

(** The number of fields, as the entry keeps it. *)
Definition kept (n : Z) : nat := Z.to_nat (u8 n).

Lemma kept_small n : is_u32 n -> ((n =? 0) || (Z.of_nat CatalogEntry.kMaxFields <? n)) = false -> kept n = Z.to_nat n /\ (kept n <= CatalogEntry.kMaxFields)%nat.
Proof.
  unfold is_u32, kept. intros H [G1%Z.eqb_neq G2%Z.ltb_ge]%orb_false_iff. unfold CatalogEntry.kMaxFields in *. rewrite u8_id by (unfold is_u8; lia). lia.
Qed.

Lemma decodeLayout_safe r c n c' r' : pools_ok c -> sane r -> decodeLayout LayoutFields Labels r c = Ok (n, c', r') ->
  added Layout (kept n) c c' /\ (kept n <= CatalogEntry.kMaxFields)%nat /\ next r r'.
Proof.
  intros P Hs. unfold decodeLayout. destruct (readArrayHeader r) as [[m r1]|] eqn:E; [|done]. cbn [rbind]. destruct (_ || _) eqn:G; [done|].
  destruct (forR m _ (c, r1)) as [[c2 r2]|] eqn:F; [|done]. cbn [rbind]. intros [= <- <- <-]. apply kept_small in G as [-> G]; [|by eapply enter_sane in E as (? & _); [|done|lia]].
  destruct (counted_array (fun i => added Layout i c) (layout_item LayoutFields Labels) m c r c2 r1 r2) as [A N]; try done.
  - intros i x q x' q' A Hq H. apply layout_item_safe in H as [A1 N]; [|apply A|done]. split; [|done]. rewrite <- Nat.add_1_r. by eapply added_trans.
  - by apply added_0.
Qed.

Lemma decodeSchema_safe r c n c' r' : pools_ok c -> sane r -> decodeSchema SchemaFields Labels r c = Ok (n, c', r') ->
  added Schema (kept n) c c' /\ (kept n <= CatalogEntry.kMaxFields)%nat /\ next r r'.
Proof.
  intros P Hs. unfold decodeSchema. destruct (readMapHeader r) as [[m r1]|] eqn:E; [|done]. cbn [rbind]. destruct (_ || _) eqn:G; [done|].
  destruct (decodeFields _ m c r1) as [[c2 r2]|] eqn:F; [|done]. cbn [rbind]. intros [= <- <- <-]. apply kept_small in G as [-> G]; [|by eapply enter_sane in E as (? & _); [|done|lia]].
  destruct (ordered_map (fun i _ => added Schema i c) (schemaEntry SchemaFields Labels) m c r c2 r1 r2) as [[o A] N]; try done.
  - intros i o k x q x' q' A _ _ Hq H. apply schemaEntry_safe in H as [A1 N]; [|apply A|done]. split; [|done]. rewrite <- Nat.add_1_r. by eapply added_trans.
  - by apply added_0.
Qed.
(** ** Entries *)

(** The key a payload of each form comes under. *)
Definition payloadKey (fm : FieldForm) : Z := match fm with Layout => 8 | Schema => 9 | Store => 12 end.

Definition gotten (s : EntryState) (fm : FieldForm) : bool :=
  match fm with Layout => en_gotLayout s | Schema => en_gotSchema s | Store => en_gotStore s end.

(** One payload has been read, under a key no later than the last. *)
Record settled_on (c : BasicCatalog) (k : Z) (fm : FieldForm) (s : EntryState) : Prop := {
  o_key : payloadKey fm <= k; o_got : forall fm', gotten s fm' = bool_decide (fm = fm');
  o_added : added fm (CatalogEntry.fieldCount (en s)) c (en_cat s); o_offset : CatalogEntry.fieldOffset (en s) = used fm c;
  o_most : (CatalogEntry.fieldCount (en s) <= CatalogEntry.kMaxFields)%nat; o_store : fm = Store -> CatalogEntry.fieldCount (en s) = 1%nat }.

(** No payload has been read yet, or one. *)
Definition entry_inv (c : BasicCatalog) (o : option Z) (s : EntryState) : Prop :=
  (en_cat s = c /\ forall fm, gotten s fm = false) \/ exists k fm, o = Some k /\ settled_on c k fm s.

(** A key that reads no payload. *)
Lemma entry_keep c o k s s' : (forall l, o = Some l -> l < k) -> en_cat s' = en_cat s -> (forall fm, gotten s' fm = gotten s fm) ->
  CatalogEntry.fieldOffset (en s') = CatalogEntry.fieldOffset (en s) -> CatalogEntry.fieldCount (en s') = CatalogEntry.fieldCount (en s) ->
  entry_inv c o s -> entry_inv c (Some k) s'.
Proof.
  intros Ho Ec Eg Eo En [[H1 H2]|(l & fm & -> & [K G A O M T])]; [left|right].
  - split; [congruence|]. intros fm. by rewrite Eg.
  - exists k, fm. split; [done|]. specialize (Ho l eq_refl). split; rewrite ?En, ?Ec; try done; [lia| |congruence]. intros fm'. by rewrite Eg.
Qed.

(** A payload's own key is read at most once, and no payload goes with another. *)
Lemma entry_none c o fm s : entry_inv c o s -> (forall l, o = Some l -> l < payloadKey fm) -> (forall fm', fm' <> fm -> gotten s fm' = false) ->
  en_cat s = c /\ forall fm', gotten s fm' = false.
Proof.
  intros [H|(l & fm1 & -> & [K G _ _ _ _])] Hl Hg; [done|]. destruct (decide (fm1 = fm)) as [->|N].
  - specialize (Hl l eq_refl). lia.
  - specialize (Hg fm1 N). rewrite G, bool_decide_true in Hg; done.
Qed.

(** Reading the payload of form [fm]. *)
Lemma entry_take c fm s s' : (forall fm', gotten s fm' = false) -> (forall fm', gotten s' fm' = bool_decide (fm = fm') || gotten s fm') ->
  added fm (CatalogEntry.fieldCount (en s')) c (en_cat s') -> CatalogEntry.fieldOffset (en s') = used fm c ->
  (CatalogEntry.fieldCount (en s') <= CatalogEntry.kMaxFields)%nat -> (fm = Store -> CatalogEntry.fieldCount (en s') = 1%nat) ->
  entry_inv c (Some (payloadKey fm)) s'.
Proof. intros N G A O M T. right. exists (payloadKey fm), fm. split; [done|]. split; try done. intros fm'. rewrite G, N. by rewrite orb_false_r. Qed.

Lemma entryKey_safe c o k s r s' r' : pools_ok c -> entry_inv c o s -> (forall l, o = Some l -> l < k) -> sane r ->
  entryKey LayoutFields SchemaFields Labels Stores (layoutUsed c) (schemaUsed c) (storeUsed c) k s r = Ok (s', r') -> entry_inv c (Some k) s' /\ next r r'.
Proof.
  intros P Hi Ho Hs. pose proof (fun s' => entry_keep c o k s s' Ho) as Keep. unfold entryKey. cbv zeta.
  repeat match goal with |- (if k =? ?n then _ else _) = _ -> _ => destruct (Z.eqb_spec k n) as [Ek|_];
    [try (lazymatch goal with |- rbind ?rd _ = Ok _ -> _ =>
       let E := fresh "E" in destruct rd as [[? ?]|] eqn:E; [|discriminate]; cbn [rbind]; intros [= <- <-]; split;
       [apply Keep; done|first [eapply next_upto; exact E|eapply next_text; exact E|eapply next_f32; exact E]] end; fail)|] end.
  4: intros E; apply next_skip in E as [-> E]; [|done]; split; [by apply Keep|exact E].
  all: subst k; destruct (_ || _) eqn:G; [discriminate|]; apply orb_false_iff in G as [G1 G2].
  - destruct (entry_none c o Layout s Hi Ho ltac:(by intros [] ?)) as [Ec N]. rewrite Ec.
    destruct (decodeLayout _ _ r c) as [[[n c1] r1]|] eqn:E; [|discriminate]. cbn [rbind]. intros [= <- <-].
    destruct (decodeLayout_safe _ _ _ _ _ P Hs E) as (A & M & X). split; [|exact X]. by apply (entry_take c Layout s); try done; intros [].
  - destruct (entry_none c o Schema s Hi Ho ltac:(by intros [] ?)) as [Ec N]. rewrite Ec.
    destruct (decodeSchema _ _ r c) as [[[n c1] r1]|] eqn:E; [|discriminate]. cbn [rbind]. intros [= <- <-].
    destruct (decodeSchema_safe _ _ _ _ _ P Hs E) as (A & M & X). split; [|exact X]. by apply (entry_take c Schema s); try done; intros [].
  - destruct (entry_none c o Store s Hi Ho ltac:(by intros [] ?)) as [Ec N]. rewrite Ec.
    destruct (decodeStoreDescriptor r) as [[d r1]|] eqn:E; [|discriminate]. cbn [rbind]. destruct (pooled _) as [c1|] eqn:F; [|discriminate]. cbn [rbind].
    intros [= <- <-]. split; [|by eapply decodeStoreDescriptor_next]. apply pushStore_safe in F; [|done].
    apply (entry_take c Store s); try done; [by intros []|]. change (1 <= CatalogEntry.kMaxFields)%nat. unfold CatalogEntry.kMaxFields. lia.
Qed.

Lemma decodeEntry_safe r c e c' r' : pools_ok c -> sane r -> decodeEntry LayoutFields SchemaFields Labels Stores r c = Ok (e, c', r') ->
  added (CatalogEntry.form e) (CatalogEntry.fieldCount e) c c' /\ CatalogEntry.fieldOffset e = used (CatalogEntry.form e) c /\ count_ok e.
Proof.
  intros P Hs. unfold decodeEntry, decodeMap. destruct (readMapHeader r) as [[n r1]|] eqn:E; [|done]. cbn [rbind].
  destruct (decodeFields _ n _ r1) as [[s r2]|] eqn:F; [|done]. cbn [rbind]. destruct (negb _); [done|]. destruct (negb (_ =? 1)%nat) eqn:G1; [done|].
  destruct (negb (match _ with Layout => _ | Schema => _ | Store => _ end)) eqn:G2; [done|]. intros [= <- <- <-]. apply negb_false_iff in G2.
  assert (H0 : entry_inv c None (mkEntryState CatalogEntry.init false false false false false false false false false false c)) by (left; split; [done|by intros []]).
  destruct (ordered_map (fun _ => entry_inv c) _ _ _ _ _ _ _ (fun _ o k m q m' q' Hp Hl _ => entryKey_safe c o k m q m' q' P Hp Hl) Hs H0 E F) as [[o I] _].
  change (gotten s (CatalogEntry.form (en s)) = true) in G2. destruct I as [[_ N]|(k & fm & _ & [_ G A O M T])]; [by rewrite N in G2|].
  rewrite G in G2. apply bool_decide_eq_true in G2. subst fm. split; [done|]. split; [done|]. split; [done|]. intros Hf. rewrite (T Hf). lia.
Qed.

(** ** The catalog *)

Lemma idsAscend_snoc es e : idsAscend es = true -> (forall a, last es = Some a -> CatalogEntry.id a < CatalogEntry.id e) -> idsAscend (es ++ [e]) = true.
Proof.
  induction es as [|a [|b es] IH]; intros H Hl; [done| |].
  - cbn [app idsAscend]. apply andb_true_iff. split; [apply Z.ltb_lt; by apply Hl|done].
  - cbn [app idsAscend] in *. apply andb_true_iff in H as [H1 H2]. rewrite H1. by apply IH.
Qed.

Definition catalog_inv (st : BasicCatalog * nat * option Z) : Prop :=
  let '(c, _, prev) := st in
  wf c /\ pools_ok c /\ idsAscend (entries c) = true /\ (count c <= Entries)%nat /\ prev = CatalogEntry.id <$> last (entries c).

Lemma catalogStep_safe s st st' : is_bytes s -> catalog_inv st -> catalogStep Entries LayoutFields SchemaFields Labels Stores s st = Ok st' -> catalog_inv st'.
Proof.
  intros Hb. destruct st as [[c pos] prev]. intros (W & P & I & N & ->). unfold catalogStep. destruct (_ <? _)%nat; [done|]. cbv zeta.
  destruct (decodeEntry _ _ _ _ _ c) as [[[e c1] r1]|] eqn:E; [|done]. cbn [rbind]. apply decodeEntry_safe in E as (A & O & K); [|done|].
  2: { split; [|cbn; lia]. by apply is_bytes_subspan. }
  destruct (match _ with Some p => _ | None => false end) eqn:G; [done|]. unfold addEntryVerbatim. destruct (Nat.leb_spec Entries (count c1)) as [|G1]; [done|]. cbn [pooled rbind].
  enough (J : catalog_inv (c1{{entries := entries c1 ++ [e] }}, (pos + bytesConsumed r1)%nat, Some (CatalogEntry.id e))) by (intros [= <-]; exact J).
  destruct A as [Ee Pc Us]. pose proof Pc as [V O' Lo So L S T]. split_and!.
  - apply (wf_snoc c c1 e); try done. apply V.
  - by split.
  - change (idsAscend (entries c1 ++ [e]) = true). apply idsAscend_snoc; [congruence|]. intros a. rewrite Ee. intros Ha. rewrite Ha in G. by apply Z.leb_gt in G.
  - change (length (entries c1 ++ [e]) <= Entries)%nat. rewrite length_app. cbn [length]. unfold count in G1. lia.
  - change (Some (CatalogEntry.id e) = CatalogEntry.id <$> last (entries c1 ++ [e])). by rewrite last_snoc.
Qed.
End safe.

(** C15. Whatever the bytes, a catalog that [decodeCatalog] returns is well formed:
    the slices of its entries tile the three pools in order, every label reference
    resolves, the access levels go with the labels, a STORE entry has at most one
    descriptor and no entry more than 64 fields; its ids ascend strictly, its
    overflow flag is clear, and no pool outgrew its capacity. *)
Theorem decodeCatalog_safe (Entries LayoutFields SchemaFields Labels Stores : nat) (s : bytes) (cat : BasicCatalog) :
  is_bytes s -> decodeCatalog Entries LayoutFields SchemaFields Labels Stores s = Ok cat ->
  wf cat /\ ok cat = true /\ idsAscend (entries cat) = true /\
  (count cat <= Entries)%nat /\ (layoutUsed cat <= LayoutFields)%nat /\ (schemaUsed cat <= SchemaFields)%nat /\
  (labelUsed cat <= Labels)%nat /\ (storeUsed cat <= Stores)%nat.
Proof.
  intros Hb. unfold decodeCatalog. destruct (readArrayHeader _) as [[n r]|]; [|done]. cbn [rbind]. destruct (_ <? _); [done|].
  destruct (forR n _ _) as [[[c pos] prev]|] eqn:F; [|done]. cbn [rbind]. intros [= <-].
  apply (forR_inv _ (catalog_inv Entries LayoutFields SchemaFields Labels Stores)) in F; [|intros st st'; by apply catalogStep_safe|].
  - destruct F as (W & [[_ V] O _ _ L S T] & I & N & _). unfold ok. by rewrite O.
  - split_and!; [exact wf_empty| |done|apply Nat.le_0_l|done]. by split; try apply Nat.le_0_l; try constructor; try apply Nat.le_0_l.
Qed.

(** One state channel with one field. *)
Definition one_channel : bytes :=
  [0x81; 0xA8; 0x01; 0x18; 0x80; 0x02; 0x61; 0x61; 0x03; 0x00; 0x04; 0x00; 0x05; 0x00; 0x06; 0xFA; 0x41; 0x20; 0x00; 0x00; 0x07; 0x00;
   0x08; 0x81; 0xA4; 0x01; 0x61; 0x78; 0x02; 0x00; 0x03; 0x60; 0x04; 0xFA; 0x3F; 0x80; 0x00; 0x00].

Lemma decodeCatalog_safe_witness :
  match decodeCatalog 1 1 0 0 0 one_channel with Ok cat => wf cat /\ count cat = 1%nat /\ layoutUsed cat = 1%nat | Err _ => False end.
Proof.
  pose proof (decodeCatalog_safe 1 1 0 0 0 one_channel) as H. destruct (decodeCatalog 1 1 0 0 0 one_channel) as [cat|e] eqn:E; [|vm_compute in E; discriminate].
  destruct (H cat ltac:(apply (bool_decide_unpack _); vm_compute; exact I) eq_refl) as (W & _). split; [exact W|].
  vm_compute in E. injection E as <-. split; reflexivity.
Defined.
