(* ===== verification/CText.v ===== *)
(** * CText: the C library's view of text

    What the bench hub uses of the standard library in the "C" locale:
    character classes, [istream >> string], [std::getline], [strtoul], [strtof],
    [std::to_string], [std::hex], [snprintf] and [std::fmod]. Text is the list of
    its bytes; a C string ends at its first zero byte or at its end. [strtoul] depends on the width of
    [unsigned long]: its largest value is a parameter. [strtof] rounds the decimal or
    hexadecimal numeral to the nearest binary32 value, ties to even; a NaN has one
    bit pattern, whatever the characters in its parentheses. *)

From S2P Require Import Prelude Float.
Local Open Scope Z_scope.

(** ** Characters and words *)

Definition isspace (c : Z) : bool := (c =? 32) || ((9 <=? c) && (c <=? 13)).

Fixpoint skipWhile (p : Z -> bool) (s : bytes) : bytes :=
  match s with c :: s' => if p c then skipWhile p s' else s | [] => [] end.

Fixpoint takeWhile (p : Z -> bool) (s : bytes) : bytes :=
  match s with c :: s' => if p c then c :: takeWhile p s' else [] | [] => [] end.

(** The words between runs of separators; [word] holds the characters of the current one, last first. *)
Fixpoint words_from (p : Z -> bool) (word s : bytes) : list bytes :=
  match s with
  | [] => match word with [] => [] | _ => [reverse word] end
  | c :: s =>
      if p c then match word with [] => words_from p [] s | _ => reverse word :: words_from p [] s end
      else words_from p (c :: word) s
  end.

(** [while (iss >> tok) out.push_back(tok)] *)
Definition extractWords (s : bytes) : list bytes := words_from isspace [] s.

(** [while (std::getline(in, line))]: a last line needs no newline, and an empty rest is no line. *)
Fixpoint getlines (s : bytes) : list bytes :=
  match s with
  | [] => []
  | c :: s =>
      if c =? 10 then [] :: getlines s
      else match getlines s with [] => [[c]] | l :: ls => (c :: l) :: ls end
  end.

(** ** Numerals *)

Definition digitOf (c : Z) : option Z :=
  if (48 <=? c) && (c <=? 57) then Some (c - 48)
  else if (97 <=? c) && (c <=? 122) then Some (c - 87)
  else if (65 <=? c) && (c <=? 90) then Some (c - 55)
  else None.

Definition isDigit (base c : Z) : bool := match digitOf c with Some d => d <? base | None => false end.

Definition digitsValue (base : Z) (ds : bytes) : Z := foldl (fun v c => v * base + default 0 (digitOf c)) 0 ds.

(** An optional sign, and what follows it. *)
Definition signOf (s : bytes) : bool * bytes :=
  match s with
  | c :: s' => if c =? 45 then (true, s') else if c =? 43 then (false, s') else (false, s)
  | [] => (false, s)
  end.

(** "0x" before a hexadecimal digit. *)
Definition hexPrefix (s : bytes) : option bytes :=
  match s with
  | c :: x :: s' => if (c =? 48) && ((x =? 120) || (x =? 88)) then Some s' else None
  | _ => None
  end.

(** [strtoul(s, &end, base)] for base 10 or 16: the value, and the text at [end]. *)
Definition strtoul (ulongMax base : Z) (s : bytes) : Z * bytes :=
  let '(neg, s1) := signOf (skipWhile isspace s) in
  let s2 := match (if base =? 16 then hexPrefix s1 else None) with
            | Some (d :: s') => if isDigit 16 d then d :: s' else s1
            | _ => s1
            end in
  let ds := takeWhile (isDigit base) s2 in
  match ds with
  | [] => (0, s)
  | _ =>
      let v := digitsValue base ds in
      (if ulongMax <? v then ulongMax else if neg then (- v) mod (ulongMax + 1) else v, skipWhile (isDigit base) s2)
  end.

(** [*end == '\0'] *)
Definition atEnd (rest : bytes) : bool := match rest with c :: _ => c =? 0 | [] => true end.

(** *** Floating point *)

(** The nearest binary32 value of [num / den], for positive [num] and [den]. The quotient
    has at least 27 bits, the last of which says whether anything was cut off. *)
Definition roundRatio (neg : bool) (num den : positive) : Float32.t :=
  let k := Z.max 0 (28 + Z.log2 (Z.pos den) - Z.log2 (Z.pos num)) in
  let '(q, r) := Z.div_eucl (Z.pos num * 2 ^ k) (Z.pos den) in
  match 2 * q + (if r =? 0 then 0 else 1) with
  | Zpos m => binary_round Float32.prec Float32.emax neg m (- (k + 1))
  | _ => S754_zero neg
  end.

(** The nearest binary32 value of [m * base^e]. *)
Definition roundScaled (neg : bool) (m base e : Z) : Float32.t :=
  match m, base ^ Z.abs e with
  | Zpos p, Zpos d => if 0 <=? e then roundRatio neg (p * d) 1 else roundRatio neg p d
  | _, _ => S754_zero neg
  end.

(** Digits, a point and digits: their value without the point, the number of digits behind
    the point, the number of digits, and the rest. *)
Definition mantissa (base : Z) (s : bytes) : Z * Z * nat * bytes :=
  let whole := takeWhile (isDigit base) s in
  let s1 := skipWhile (isDigit base) s in
  let '(frac, s2) := match s1 with
                     | c :: s' => if c =? 46 then (takeWhile (isDigit base) s', skipWhile (isDigit base) s') else ([], s1)
                     | [] => ([], s1)
                     end in
  match whole ++ frac with
  | [] => (0, 0, 0%nat, s)
  | ds => (digitsValue base ds, Z.of_nat (length frac), length ds, s2)
  end.

(** An exponent part that starts with the letter [c] (lower case), if it has digits. *)
Definition exponent (c : Z) (s : bytes) : Z * bytes :=
  match s with
  | x :: s' =>
      if (x =? c) || (x =? c - 32) then
        let '(neg, s1) := signOf s' in
        match takeWhile (isDigit 10) s1 with
        | [] => (0, s)
        | ds => let v := digitsValue 10 ds in (if neg then - v else v, skipWhile (isDigit 10) s1)
        end
      else (0, s)
  | [] => (0, s)
  end.

Definition lower (c : Z) : Z := if (65 <=? c) && (c <=? 90) then c + 32 else c.

(** A word of lower-case letters at the front, in any case. *)
Fixpoint afterWord (w s : bytes) : option bytes :=
  match w, s with
  | [], _ => Some s
  | a :: w, c :: s => if lower c =? a then afterWord w s else None
  | _ :: _, [] => None
  end.

Definition inf : bytes := [105; 110; 102].
Definition inity : bytes := [105; 110; 105; 116; 121].
Definition nan : bytes := [110; 97; 110].

Definition isIdent (c : Z) : bool := isDigit 36 c || (c =? 95).

(** "(chars)" behind a NaN. *)
Definition afterParens (s : bytes) : bytes :=
  match s with
  | c :: s' => if c =? 40 then match skipWhile isIdent s' with c' :: rest => if c' =? 41 then rest else s | [] => s end else s
  | [] => s
  end.

(** [strtof(s, &end)]: the value, and the text at [end]. *)
Definition strtof (s : bytes) : Float32.t * bytes :=
  let '(neg, s1) := signOf (skipWhile isspace s) in
  match afterWord inf s1, afterWord nan s1 with
  | Some rest, _ => (S754_infinity neg, match afterWord inity rest with Some rest => rest | None => rest end)
  | None, Some rest => (S754_nan, afterParens rest)
  | None, None =>
      let '(hm, hf, hn, hrest) := match hexPrefix s1 with Some s2 => mantissa 16 s2 | None => (0, 0, 0%nat, s1) end in
      if (0 <? hn)%nat then
        let '(e, rest) := exponent 112 hrest in (roundScaled neg hm 2 (e - 4 * hf), rest)
      else
        let '(m, f, n, rest) := mantissa 10 s1 in
        if (0 <? n)%nat then let '(e, rest) := exponent 101 rest in (roundScaled neg m 10 (e - f), rest)
        else (Float32.zero, s)
  end.

(** ** Printing *)

Definition digitChar (d : Z) : Z := if d <? 10 then d + 48 else d + 87.

Fixpoint show_from (fuel : nat) (base n : Z) (acc : bytes) : bytes :=
  match fuel with
  | O => acc
  | S fuel => let acc := digitChar (n mod base) :: acc in if n <? base then acc else show_from fuel base (n / base) acc
  end.

(** [std::to_string(n)] and [o << std::hex << n] of a number that is not negative. *)
Definition show (base n : Z) : bytes := show_from (Z.to_nat (Z.log2 n) + 1) base n [].
Definition to_string (n : Z) : bytes := show 10 n.
Definition to_hex (n : Z) : bytes := show 16 n.

(** [snprintf] of an integer with ["%02X"], for a value below 256. *)
Definition upperDigit (d : Z) : Z := if d <? 10 then d + 48 else d + 55.
Definition to_02X (n : Z) : bytes := [upperDigit (n / 16); upperDigit (n mod 16)].

(** [snprintf] with ["%.3f"]: the exact value rounded to thousandths, ties to even. *)
Definition thousandths (m : positive) (e : Z) : Z :=
  if 0 <=? e then Z.pos m * 2 ^ e * 1000
  else
    let d := 2 ^ (- e) in
    let '(q, r) := Z.div_eucl (Z.pos m * 1000) d in
    if (d <? 2 * r) || ((2 * r =? d) && Z.odd q) then q + 1 else q.

Definition showThousandths (n : Z) : bytes :=
  to_string (n / 1000) ++ [46] ++ [digitChar (n / 100 mod 10); digitChar (n / 10 mod 10); digitChar (n mod 10)].

Definition fixed3 (x : spec_float) : bytes :=
  let sign (s : bool) := if s then [45] else [] in
  match x with
  | S754_zero s => sign s ++ showThousandths 0
  | S754_infinity s => sign s ++ [105; 110; 102]
  | S754_nan => [110; 97; 110]
  | S754_finite s m e => sign s ++ showThousandths (thousandths m e)
  end.

(** [std::fmod] on [float], which is exact. *)
Definition fmod (x y : Float32.t) : Float32.t :=
  match x, y with
  | S754_nan, _ | _, S754_nan | S754_infinity _, _ | _, S754_zero _ => S754_nan
  | S754_zero _, _ | _, S754_infinity _ => x
  | S754_finite s mx ex, S754_finite _ my ey =>
      let e := Z.min ex ey in
      let r := (Z.pos mx * 2 ^ (ex - e)) mod (Z.pos my * 2 ^ (ey - e)) in
      binary_normalize Float32.prec Float32.emax (if s then - r else r) e s
  end.

(** * Theorems *)

(** ** Rounding stays within binary32 *)

Lemma shr_1_half (r : shr_record) : 0 <= shr_m r -> shr_m (shr_1 r) = shr_m r / 2.
Proof.
  destruct r as [m a b]. cbn [shr_m shr_1]. intros H. destruct m as [|[p|p|]|]; cbn [shr_m]; try done.
  - rewrite Pos2Z.inj_xI. apply Z.div_unique with 1; lia.
  - rewrite Pos2Z.inj_xO. apply Z.div_unique with 0; lia.
Qed.

Lemma shr_iter p (r : shr_record) : 0 <= shr_m r -> shr_m (iter_pos shr_1 p r) = shr_m r / 2 ^ Z.pos p.
Proof.
  assert (D : forall a x y, 0 <= a -> 0 <= x -> 0 <= y -> a / 2 ^ x / 2 ^ y = a / 2 ^ (x + y))
    by (intros; rewrite Z.div_div, <- Z.pow_add_r by lia; done).
  assert (N : forall a x, 0 <= a -> 0 <= a / 2 ^ x) by (intros; destruct (Z.le_gt_cases 0 x); [apply Z.div_pos; lia|rewrite Z.pow_neg_r, Z.div_0_r by lia; lia]).
  revert r. induction p as [p IH|p IH|]; intros r H; cbn [iter_pos].
  - assert (H1 : 0 <= shr_m (shr_1 r)) by (rewrite shr_1_half by done; apply Z.div_pos; lia).
    rewrite !IH, shr_1_half by (rewrite ?IH; auto). rewrite <- (Z.pow_1_r 2) at 1. rewrite !D by (try apply (N _ 1); lia). f_equal. f_equal. lia.
  - rewrite !IH by (rewrite ?IH; auto). rewrite D by lia. f_equal. f_equal. lia.
  - by rewrite shr_1_half.
Qed.

Lemma digits_bound n : 0 <= n -> n < 2 ^ Zdigits2 n.
Proof.
  assert (P : forall p, Z.pos p < 2 ^ Z.pos (digits2_pos p)).
  { induction p as [p IH|p IH|]; cbn [digits2_pos]; [| |done]; rewrite Pos2Z.inj_succ, Z.pow_succ_r by lia; lia. }
  destruct n; intros H; [done|apply P|lia].
Qed.

(** A binary32 value with its mantissa and exponent in range. *)
Definition in_binary32 (x : Float32.t) : Prop :=
  match x with S754_finite _ m e => Z.pos m < 2 ^ 24 /\ -149 <= e <= 104 | _ => True end.

Lemma to_bits_u32 x : in_binary32 x -> is_u32 (Float32.to_bits x).
Proof.
  destruct x as [[]|[]| |s m e]; cbn [in_binary32 Float32.to_bits]; unfold is_u32; try lia. intros [Hm He]. destruct s, (Z.ltb_spec (Z.pos m) 0x800000); lia.
Qed.

Lemma shr_fexp_bound m e l : 0 <= m ->
  let '(r, e') := shr_fexp Float32.prec Float32.emax m e l in 0 <= shr_m r < 2 ^ 24 /\ -149 <= e'.
Proof.
  intros H. unfold shr_fexp, shr. pose proof (digits_bound m H) as Hd. assert (Hm : shr_m (shr_record_of_loc m l) = m) by (destruct l as [|[]]; done).
  set (d := Zdigits2 m) in *. assert (Hf : fexp Float32.prec Float32.emax (d + e) = Z.max (d + e - 24) (-149)) by done. rewrite Hf.
  assert (0 <= d) by (unfold d; destruct m; cbn; lia).
  destruct (Z.max (d + e - 24) (-149) - e) as [|n|n] eqn:E; rewrite ?shr_iter, ?Hm by lia.
  - split; [|lia]. split; [done|]. eapply Z.lt_le_trans; [exact Hd|]. apply Z.pow_le_mono_r; lia.
  - split; [|lia]. split; [apply Z.div_pos; lia|]. apply Z.div_lt_upper_bound; [lia|]. rewrite <- Z.pow_add_r by lia.
    eapply Z.lt_le_trans; [exact Hd|]. apply Z.pow_le_mono_r; lia.
  - split; [|lia]. split; [done|]. eapply Z.lt_le_trans; [exact Hd|]. apply Z.pow_le_mono_r; lia.
Qed.

Lemma round_in s m e : in_binary32 (binary_round Float32.prec Float32.emax s m e).
Proof.
  unfold binary_round. destruct (shl_align m e _) as [mz ez]. unfold binary_round_aux.
  pose proof (shr_fexp_bound (Z.pos mz) ez loc_Exact ltac:(lia)) as B1. destruct (shr_fexp _ _ (Z.pos mz) ez loc_Exact) as [r1 e1].
  assert (R : 0 <= round_nearest_even (shr_m r1) (loc_of_shr_record r1)) by (unfold round_nearest_even; destruct (loc_of_shr_record r1) as [|[]]; case_ifs; lia).
  pose proof (shr_fexp_bound _ e1 loc_Exact R) as B2. destruct (shr_fexp _ _ _ e1 loc_Exact) as [r2 e2].
  destruct (shr_m r2) as [|p|p] eqn:E2; try done. destruct (Z.leb_spec e2 (Float32.emax - Float32.prec)) as [L|L]; [|done].
  cbn [in_binary32]. unfold Float32.emax, Float32.prec in L. lia.
Qed.

Lemma strtof_in s : in_binary32 (strtof s).1.
Proof.
  assert (R : forall neg n d, in_binary32 (roundRatio neg n d)).
  { intros neg n d. unfold roundRatio. destruct (Z.div_eucl _ _) as [q r]. destruct (2 * q + _); try done. apply round_in. }
  assert (S : forall neg m b e, in_binary32 (roundScaled neg m b e)) by (intros; unfold roundScaled; repeat (case_match; try done); apply R).
  unfold strtof. destruct (signOf _) as [neg s1]. destruct (afterWord inf s1); [done|]. destruct (afterWord nan s1); [done|].
  destruct (match hexPrefix s1 with Some _ => _ | None => _ end) as [[[hm hf] hn] hrest]. case_ifs; [destruct (exponent _ _); apply S|].
  destruct (mantissa 10 s1) as [[[m f] n] rest]. case_ifs; [|done]. destruct (exponent _ _). apply S.
Qed.

(** ** Words *)

Lemma words_none p word s : words_from p word s = [] -> word = [] /\ Forall (fun c => p c = true) s.
Proof.
  revert word. induction s as [|c s IH]; intros word; cbn [words_from]; [destruct word; [done|discriminate]|].
  destruct (p c) eqn:E; [destruct word; [|discriminate]|]; intros H; apply IH in H as [? H]; [by auto|done].
Qed.

(** ** Numerals *)

Lemma takeWhile_all p s : Forall (fun c => p c = true) s -> takeWhile p s = s /\ skipWhile p s = [].
Proof. induction 1 as [|c s H _ [IH1 IH2]]; [done|]. cbn [takeWhile skipWhile]. by rewrite H, IH1, IH2. Qed.

(** Decide the comparisons of a character. *)
Ltac bounds := repeat match goal with |- context [?a <=? ?b] => destruct (Z.leb_spec a b) end.

Lemma digit_roundtrip d : 0 <= d < 36 -> digitOf (digitChar d) = Some d.
Proof.
  intros H. unfold digitChar, digitOf. destruct (Z.ltb_spec d 10); bounds; cbn [andb]; try (f_equal; lia); exfalso; lia.
Qed.

Definition value_from (base v : Z) (ds : bytes) : Z := foldl (fun v c => v * base + default 0 (digitOf c)) v ds.

Lemma show_value base fuel n acc : 2 <= base <= 36 -> 0 <= n < base ^ Z.of_nat fuel -> value_from base 0 (show_from fuel base n acc) = value_from base n acc.
Proof.
  intros Hb. revert n acc. induction fuel as [|fuel IH]; intros n acc H; cbn [show_from]; [rewrite Z.pow_0_r in H; by replace n with 0 by lia|].
  pose proof (Z.mod_pos_bound n base ltac:(lia)). destruct (Z.ltb_spec n base) as [L|L].
  - cbn [value_from foldl]. rewrite digit_roundtrip by lia. rewrite Z.mod_small by lia. done.
  - rewrite IH.
    + change (value_from base (n / base * base + default 0 (digitOf (digitChar (n mod base)))) acc = value_from base n acc).
      rewrite digit_roundtrip by lia. pose proof (Z.div_mod n base ltac:(lia)) as D. f_equal. cbn. lia.
    + rewrite Nat2Z.inj_succ, Z.pow_succ_r in H by lia. split; [apply Z.div_pos; lia|]. apply Z.div_lt_upper_bound; lia.
Qed.

Lemma show_digits base fuel n acc : 2 <= base <= 36 -> 0 <= n -> Forall (fun c => isDigit base c = true) acc ->
  Forall (fun c => isDigit base c = true) (show_from fuel base n acc).
Proof.
  intros Hb. revert n acc. induction fuel as [|fuel IH]; intros n acc H Ha; cbn [show_from]; [done|].
  pose proof (Z.mod_pos_bound n base ltac:(lia)).
  assert (D : Forall (fun c => isDigit base c = true) (digitChar (n mod base) :: acc)).
  { constructor; [|done]. unfold isDigit. rewrite digit_roundtrip by lia. apply Z.ltb_lt. lia. }
  case_ifs; [done|]. apply IH; [apply Z.div_pos; lia|done].
Qed.

Lemma show_spec base n : 2 <= base <= 36 -> 0 <= n ->
  digitsValue base (show base n) = n /\ Forall (fun c => isDigit base c = true) (show base n) /\ show base n <> [].
Proof.
  intros Hb Hn. unfold show. split_and!.
  - apply (show_value base _ n []); [done|]. split; [done|]. rewrite Nat2Z.inj_add, Z2Nat.id by apply Z.log2_nonneg.
    destruct (Z.eq_dec n 0) as [->|]; [cbn; lia|]. eapply Z.lt_le_trans; [apply Z.log2_spec; lia|]. pose proof (Z.log2_nonneg n).
    rewrite Z.add_1_r. apply Z.pow_le_mono_l. lia.
  - apply show_digits; [done|done|constructor].
  - assert (NE : forall fuel m acc, acc <> [] -> show_from fuel base m acc <> []).
    { induction fuel as [|fuel IH]; intros m acc Ha; cbn [show_from]; [done|]. case_ifs; [done|by apply IH]. }
    rewrite Nat.add_1_r. cbn [show_from]. case_ifs; [done|by apply NE].
Qed.

Lemma digit_plain base c : isDigit base c = true -> isspace c = false /\ (c =? 45) = false /\ (c =? 43) = false.
Proof.
  intros H. assert (48 <= c) as L by (revert H; unfold isDigit, digitOf; bounds; cbn [andb]; done || lia).
  unfold isspace. rewrite !(proj2 (Z.eqb_neq c _)), (proj2 (Z.leb_gt c 13)), andb_false_r by lia. done.
Qed.

(** What [strtoul] makes of a numeral, with or without "0x". *)
Lemma strtoul_show ulongMax base n pre : (base = 10 /\ pre = []) \/ (base = 16 /\ pre = [48; 120]) -> 0 <= n <= ulongMax ->
  strtoul ulongMax base (pre ++ show base n) = (n, []).
Proof.
  intros Hb Hn. assert (2 <= base <= 16) as B by (destruct Hb as [[-> _]|[-> _]]; lia). destruct (show_spec base n ltac:(lia) ltac:(lia)) as (V & D & NE).
  destruct (show base n) as [|c s] eqn:E; [done|]. destruct (takeWhile_all _ _ D) as [T K]. pose proof (Forall_inv D) as Dc.
  destruct (digit_plain base c Dc) as (P1 & P2 & P3). destruct (Z.ltb_spec ulongMax n); [lia|].
  destruct Hb as [[-> ->]|[-> ->]]; unfold strtoul; cbn [app].
  - cbn [skipWhile]. rewrite P1. unfold signOf. rewrite P2, P3. change (10 =? 16) with false. cbv iota. rewrite T, K, V. by destruct (Z.ltb_spec ulongMax n); [lia|].
  - change (signOf (skipWhile isspace (48 :: 120 :: c :: s))) with (false, 48 :: 120 :: c :: s). change (16 =? 16) with true. cbv iota beta.
    change (hexPrefix (48 :: 120 :: c :: s)) with (Some (c :: s)). cbv iota. rewrite Dc. rewrite T, K, V. by destruct (Z.ltb_spec ulongMax n); [lia|].
Qed.
