(* ===== verification/BenchConfig.v ===== *)
(** * BenchConfig: the configuration file of the bench hub

    hub/slopbench/src/config (ConfigTypes.h and ConfigParser.cpp): the parsed model of
    a .bench file and its line-oriented parser. A [float] is its bit pattern. A
    function that returns [false] after [fail] returns the message; a computation the
    language leaves undefined (an index outside a vector) is [Undefined]. On failure
    the caller uses only the message, so a half-filled configuration is not kept. *)

From Stdlib Require Import String Sorted.
From S2P Require Import Prelude Registry Float Codec Builtin CText.
Local Open Scope Z_scope.

(** ** The data *)

Module ClassKind.
Inductive t : Set := State | Intent | Event | Stream | Store.
#[global] Instance eq_dec : EqDecision t.
Proof. solve_decision. Defined.
End ClassKind.

Module AccessKind.
Inductive t : Set := Watch | Control | Configure.
End AccessKind.

Module LayoutKind.
Inductive t : Set := U8 | I8 | U16 | I16 | U32 | I32 | F32 | Bitfield8 | Str16 | Str32 | Str64.
#[global] Instance eq_dec : EqDecision t.
Proof. solve_decision. Defined.
End LayoutKind.

Module SchemaKind.
Inductive t : Set := Uint | Int | F32 | Bool | Tstr | Bstr.
#[global] Instance eq_dec : EqDecision t.
Proof. solve_decision. Defined.
End SchemaKind.

Module AnimKind.
Inductive t : Set := None | Sine | Ramp.
#[global] Instance eq_dec : EqDecision t.
Proof. solve_decision. Defined.
End AnimKind.

Module FieldConfig.
Record t := mk {
  name : bytes; layoutType : LayoutKind.t; schemaType : SchemaKind.t; unit : bytes; hasMin : bool; hasMax : bool;
  min : Z; max : Z; hasDefault : bool; defaultValue : Z; hasKey : bool; key : Z; anim : AnimKind.t;
  animHz : Z; animA : Z; animB : Z }.

Definition init : t := mk [] LayoutKind.F32 SchemaKind.F32 [] false false 0 0 false 0 false 0 AnimKind.None 0 0 0.

Definition isStringLayout (f : t) : bool :=
  match layoutType f with LayoutKind.Str16 | LayoutKind.Str32 | LayoutKind.Str64 => true | _ => false end.
Definition isNumericLayout (f : t) : bool := negb (bool_decide (layoutType f = LayoutKind.Bitfield8)) && negb (isStringLayout f).
Definition isNumericSchema (f : t) : bool :=
  match schemaType f with SchemaKind.Uint | SchemaKind.Int | SchemaKind.F32 => true | _ => false end.
End FieldConfig.

Module ChannelConfig.
Record t := mk {
  id : Z; name : bytes; cls : ClassKind.t; access : AccessKind.t; rateHz : Z; category : bytes; hasWrites : bool;
  writesChannelId : Z; hasEchoDelay : bool; echoDelayMs : Z; storeKind : bytes; storeCapacity : Z; storePerItemMax : Z;
  storeNameMax : Z; fields : list FieldConfig.t }.

Definition init : t := mk 0 [] ClassKind.State AccessKind.Watch 0 [] false 0 false 0 [] 0 0 0 [].
End ChannelConfig.

Module HubConfig.
Record t := mk { name : bytes; fwVersion : bytes; product : bytes; echoDelayMs : Z; channels : list ChannelConfig.t }.

Definition init : t := mk (text "slopbench") (text "0.1.0") (text "SlopBench") 0 [].

Definition find (id : Z) (c : t) : option ChannelConfig.t := head (filter (fun ch => ChannelConfig.id ch = id) (channels c)).
End HubConfig.

(** ** Small helpers *)

(** Why a file was not loaded. *)
Inductive Failure : Set := Refused (error : bytes) | Undefined.

Definition blank (c : Z) : bool := (c =? 32) || (c =? 9) || (c =? 13) || (c =? 10).

Definition trim (s : bytes) : bytes := reverse (skipWhile blank (reverse (skipWhile blank s))).

Definition tokenize (line : bytes) : list bytes := extractWords line.

Section width.
(** The largest [unsigned long]. *)
Variable ulongMax : Z.

(** The value and [*ok]. *)
Definition parseUintTok (s : bytes) : Z * bool :=
  match s with
  | [] => (0, false)
  | _ =>
      let hex := (2 <? length s)%nat && (nth 0 s 0 =? 48) && ((nth 1 s 0 =? 120) || (nth 1 s 0 =? 88)) in
      let '(v, rest) := strtoul ulongMax (if hex then 16 else 10) s in (u32 v, atEnd rest)
  end.

Definition parseFloatTok (s : bytes) : Z * bool :=
  match s with
  | [] => (0, false)
  | _ => let '(v, rest) := strtof s in (Float32.to_bits v, atEnd rest)
  end.

(** Lookup in a static map from names. *)
Definition named {A} (m : list (string * A)) (s : bytes) : option A := snd <$> head (filter (fun x => text x.1 = s) m).

Definition layoutKindNames : list (string * LayoutKind.t) :=
  [("u8"%string, LayoutKind.U8); ("i8"%string, LayoutKind.I8); ("u16"%string, LayoutKind.U16);
   ("i16"%string, LayoutKind.I16); ("u32"%string, LayoutKind.U32); ("i32"%string, LayoutKind.I32);
   ("f32"%string, LayoutKind.F32); ("bitfield8"%string, LayoutKind.Bitfield8);
   ("str16"%string, LayoutKind.Str16); ("str32"%string, LayoutKind.Str32); ("str64"%string, LayoutKind.Str64)].

Definition schemaKindNames : list (string * SchemaKind.t) :=
  [("uint"%string, SchemaKind.Uint); ("int"%string, SchemaKind.Int); ("f32"%string, SchemaKind.F32);
   ("bool"%string, SchemaKind.Bool); ("tstr"%string, SchemaKind.Tstr); ("bstr"%string, SchemaKind.Bstr)].

Definition says (kw : bytes) (s : string) : bool := bool_decide (kw = text s).

(** ** The parser *)

Inductive Mode : Set := NoBlock | HubBlock | ChannelBlock.

(** [currentChannel] is [None] for [SIZE_MAX]. *)
Record ParseState := mkParseState {
  out : HubConfig.t; mode : Mode; currentChannel : option nat; lineNo : Z; path : bytes }.

Definition fail {A} (st : ParseState) (msg : bytes) : Result A Failure :=
  Err (Refused (path st ++ text ":" ++ to_string (lineNo st) ++ text ": " ++ msg)).

Definition classFromKeyword (kw : bytes) : option ClassKind.t :=
  if says kw "state" then Some ClassKind.State
  else if says kw "intent" then Some ClassKind.Intent
  else if says kw "event" then Some ClassKind.Event
  else if says kw "stream" then Some ClassKind.Stream
  else if says kw "store" then Some ClassKind.Store
  else None.

(** [st.out->channels[st.currentChannel]] *)
Definition channel (st : ParseState) : Result ChannelConfig.t Failure :=
  match currentChannel st ≫= (HubConfig.channels (out st) !!.) with Some ch => Ok ch | None => Err Undefined end.

Definition setChannel (ch : ChannelConfig.t) (st : ParseState) : ParseState :=
  match currentChannel st with
  | Some i => st{{out := (out st){{HubConfig.channels := <[i := ch]> (HubConfig.channels (out st))}} }}
  | None => st
  end.

(** The text before and behind the first '='. *)
Definition splitEq (t : bytes) : option (bytes * bytes) :=
  match skipWhile (fun c => negb (c =? 61)) t with _ :: val => Some (takeWhile (fun c => negb (c =? 61)) t, val) | [] => None end.

Definition fieldAttr (st : ParseState) (f : FieldConfig.t) (t : bytes) : Result FieldConfig.t Failure :=
  match splitEq t with
  | Some (key, val) =>
      if says key "key" then
        let '(v, ok) := parseUintTok val in
        if negb ok || (0xFF <? v) then fail st (text "field key=... must be 0..255")
        else Ok (f{{FieldConfig.hasKey := true; FieldConfig.key := u8 v}})
      else if says key "default" then
        let '(v, ok) := parseFloatTok val in
        if negb ok then fail st (text "field default=... is not a number: '" ++ val ++ text "'")
        else Ok (f{{FieldConfig.hasDefault := true; FieldConfig.defaultValue := v}})
      else fail st (text "unknown field attribute '" ++ key ++ text "='")
  | None =>
      let '(v, ok) := parseFloatTok t in
      if negb ok then fail st (text "field: unexpected token '" ++ t ++ text "' (expected min/max number or key=/default=)")
      else if negb (FieldConfig.hasMin f) then Ok (f{{FieldConfig.hasMin := true; FieldConfig.min := v}})
      else if negb (FieldConfig.hasMax f) then Ok (f{{FieldConfig.hasMax := true; FieldConfig.max := v}})
      else fail st (text "field: too many bare numbers (min and max already set)")
  end.

Fixpoint fieldAttrs (st : ParseState) (f : FieldConfig.t) (ts : list bytes) : Result FieldConfig.t Failure :=
  match ts with [] => Ok f | t :: ts => let? f := fieldAttr st f t in fieldAttrs st f ts end.

Definition isLayoutClass (c : ClassKind.t) : bool := match c with ClassKind.State | ClassKind.Stream => true | _ => false end.

(** The type column, by the class of the channel. *)
Definition fieldType (st : ParseState) (cls : ClassKind.t) (typeStr : bytes) (f : FieldConfig.t) : Result FieldConfig.t Failure :=
  if isLayoutClass cls then
    match named layoutKindNames typeStr with
    | None => fail st (text "unknown STATE/STREAM field type '" ++ typeStr ++ text "'")
    | Some k => Ok (f{{FieldConfig.layoutType := k}})
    end
  else
    match named schemaKindNames typeStr with
    | None => fail st (text "unknown INTENT/EVENT field type '" ++ typeStr ++ text "'")
    | Some k => Ok (f{{FieldConfig.schemaType := k}})
    end.

Definition parseFieldLine (st : ParseState) (tok : list bytes) : Result ParseState Failure :=
  let? ch := channel st in
  if bool_decide (ChannelConfig.cls ch = ClassKind.Store) then
    fail st (text "store channels declare no fields (use kind/capacity/per_item_max/name_max)")
  else
    match tok with
    | _ :: name :: typeStr :: unit :: attrs =>
        if bool_decide (name ∈ FieldConfig.name <$> ChannelConfig.fields ch) then
          fail st (text "duplicate field name '" ++ name ++ text "' in this channel")
        else
          let f := FieldConfig.init{{FieldConfig.name := name; FieldConfig.unit := if says unit "-" then [] else unit}} in
          let? f := fieldType st (ChannelConfig.cls ch) typeStr f in
          let? f := fieldAttrs st f attrs in
          if negb (Bool.eqb (FieldConfig.hasMin f) (FieldConfig.hasMax f)) then
            fail st (text "field: min and max must both be given, or neither")
          else if negb (isLayoutClass (ChannelConfig.cls ch)) && negb (FieldConfig.hasKey f) then
            fail st (text "INTENT/EVENT field '" ++ name ++ text "' needs key=N (the wire sub-map key)")
          else if isLayoutClass (ChannelConfig.cls ch) && FieldConfig.hasKey f then
            fail st (text "field '" ++ name ++ text "': key= only applies to INTENT/EVENT fields")
          else Ok (setChannel (ch{{ChannelConfig.fields := ChannelConfig.fields ch ++ [f] }}) st)
    | _ => fail st (text "field needs at least: field <name> <type> <unit>")
    end.

(** The index of the first field of that name. *)
Definition fieldIndex (name : bytes) (fs : list FieldConfig.t) : option nat := fst <$> list_find (fun f => FieldConfig.name f = name) fs.

Definition animKind (s : bytes) : option AnimKind.t :=
  if says s "sine" then Some AnimKind.Sine else if says s "ramp" then Some AnimKind.Ramp else None.

Definition animate (k : AnimKind.t) (hz p2 p3 : Z) (f : FieldConfig.t) : FieldConfig.t :=
  f{{FieldConfig.anim := k; FieldConfig.animHz := hz; FieldConfig.animA := p2; FieldConfig.animB := p3}}.

Definition parseAnimateLine (st : ParseState) (tok : list bytes) : Result ParseState Failure :=
  let? ch := channel st in
  if negb (bool_decide (ChannelConfig.cls ch = ClassKind.State)) then fail st (text "animate is only meaningful on a state channel")
  else
    match tok with
    | [_; name; kind; t3; t4; t5] =>
        match fieldIndex name (ChannelConfig.fields ch) with
        | None => fail st (text "animate: no field '" ++ name ++ text "' declared yet in this channel (declare it before animating it)")
        | Some i =>
            match animKind kind with
            | None => fail st (text "animate: kind must be 'sine' or 'ramp', got '" ++ kind ++ text "'")
            | Some k =>
                let '(hz, ok1) := parseFloatTok t3 in
                let '(p2, ok2) := parseFloatTok t4 in
                let '(p3, ok3) := parseFloatTok t5 in
                if negb ok1 || negb ok2 || negb ok3 then fail st (text "animate: hz/p2/p3 must all be numbers")
                else Ok (setChannel (ch{{ChannelConfig.fields := alter (animate k hz p2 p3) i (ChannelConfig.fields ch)}}) st)
            end
        end
    | _ => fail st (text "animate needs: animate <field> <sine|ramp> <hz> <p2> <p3>")
    end.

Definition accessKind (v : bytes) : option AccessKind.t :=
  if says v "watch" then Some AccessKind.Watch
  else if says v "control" then Some AccessKind.Control
  else if says v "configure" then Some AccessKind.Configure
  else None.

(** The properties that take one value. *)
Definition setChannelProp (st : ParseState) (ch : ChannelConfig.t) (kw v : bytes) : Result ChannelConfig.t Failure :=
  let only cls := bool_decide (ChannelConfig.cls ch = cls) in
  if says kw "category" then Ok (ch{{ChannelConfig.category := v}})
  else if says kw "rate_hz" then
    let '(x, ok) := parseFloatTok v in
    if negb ok then fail st (text "rate_hz is not a number") else Ok (ch{{ChannelConfig.rateHz := x}})
  else if says kw "access" then
    match accessKind v with
    | Some a => Ok (ch{{ChannelConfig.access := a}})
    | None => fail st (text "access must be watch|control|configure, got '" ++ v ++ text "'")
    end
  else if says kw "writes" then
    if negb (only ClassKind.Intent) then fail st (text "'writes' only applies to an intent channel")
    else
      let '(id, ok) := parseUintTok v in
      if negb ok || (0xFFFF <? id) then fail st (text "writes: bad channel id '" ++ v ++ text "'")
      else Ok (ch{{ChannelConfig.hasWrites := true; ChannelConfig.writesChannelId := u16 id}})
  else if says kw "echo_delay_ms" then
    if negb (only ClassKind.Intent) then fail st (text "'echo_delay_ms' at channel scope only applies to an intent channel")
    else
      let '(ms, ok) := parseUintTok v in
      if negb ok then fail st (text "echo_delay_ms is not an integer")
      else Ok (ch{{ChannelConfig.hasEchoDelay := true; ChannelConfig.echoDelayMs := ms}})
  else if says kw "kind" then
    if negb (only ClassKind.Store) then fail st (text "'kind' only applies to a store channel")
    else Ok (ch{{ChannelConfig.storeKind := v}})
  else if says kw "capacity" then
    if negb (only ClassKind.Store) then fail st (text "'capacity' only applies to a store channel")
    else
      let '(n, ok) := parseUintTok v in
      if negb ok || (0xFFFF <? n) then fail st (text "capacity is not a valid u16")
      else Ok (ch{{ChannelConfig.storeCapacity := u16 n}})
  else if says kw "per_item_max" then
    if negb (only ClassKind.Store) then fail st (text "'per_item_max' only applies to a store channel")
    else
      let '(n, ok) := parseUintTok v in
      if negb ok then fail st (text "per_item_max is not an integer") else Ok (ch{{ChannelConfig.storePerItemMax := n}})
  else if says kw "name_max" then
    if negb (only ClassKind.Store) then fail st (text "'name_max' only applies to a store channel")
    else
      let '(n, ok) := parseUintTok v in
      if negb ok || (0xFFFF <? n) then fail st (text "name_max is not a valid u16")
      else Ok (ch{{ChannelConfig.storeNameMax := u16 n}})
  else fail st (text "unknown channel property '" ++ kw ++ text "'").

Definition oneValue {A} (st : ParseState) (kw : bytes) : Result A Failure := fail st (text "'" ++ kw ++ text "' takes exactly one value").

Definition parseChannelProp (st : ParseState) (tok : list bytes) : Result ParseState Failure :=
  let? ch := channel st in
  match tok with
  | [] => Err Undefined
  | kw :: _ =>
      if says kw "field" then parseFieldLine st tok
      else if says kw "animate" then parseAnimateLine st tok
      else
        match tok with
        | [_; v] => let? ch := setChannelProp st ch kw v in Ok (setChannel ch st)
        | _ => oneValue st kw
        end
  end.

Definition parseHubProp (st : ParseState) (tok : list bytes) : Result ParseState Failure :=
  match tok with
  | [] => Err Undefined
  | [kw; v] =>
      if says kw "name" then Ok (st{{out := (out st){{HubConfig.name := v}} }})
      else if says kw "fw_version" then Ok (st{{out := (out st){{HubConfig.fwVersion := v}} }})
      else if says kw "product" then Ok (st{{out := (out st){{HubConfig.product := v}} }})
      else if says kw "echo_delay_ms" then
        let '(ms, ok) := parseUintTok v in
        if negb ok then fail st (text "echo_delay_ms is not an integer") else Ok (st{{out := (out st){{HubConfig.echoDelayMs := ms}} }})
      else fail st (text "unknown hub property '" ++ kw ++ text "'")
  | kw :: _ => oneValue st kw
  end.

(** ** Validation *)

Definition refused {A} (error : bytes) : Result A Failure := Err (Refused error).

(** The keys of an INTENT's or EVENT's fields ascend. *)
Fixpoint keysAscend (ch : ChannelConfig.t) (last : option Z) (fs : list FieldConfig.t) : Result unit Failure :=
  match fs with
  | [] => Ok tt
  | f :: fs =>
      match last with
      | Some lastKey =>
          if FieldConfig.key f <=? lastKey then
            refused (text "channel '" ++ ChannelConfig.name ch ++ text "': field keys must be strictly ascending ('"
                     ++ FieldConfig.name f ++ text "' key=" ++ to_string (FieldConfig.key f)
                     ++ text " does not follow key=" ++ to_string lastKey ++ text ")")
          else keysAscend ch (Some (FieldConfig.key f)) fs
      | None => keysAscend ch (Some (FieldConfig.key f)) fs
      end
  end.

Fixpoint validateChannels (seenIds : list Z) (chs : list ChannelConfig.t) : Result unit Failure :=
  match chs with
  | [] => Ok tt
  | ch :: chs =>
      if ChannelConfig.id ch <? 0x0080 then
        refused (text "channel '" ++ ChannelConfig.name ch ++ text "' (id 0x" ++ to_hex (ChannelConfig.id ch)
                 ++ text ") is in the spec-core range 0x0001-0x007F, reserved by the protocol")
      else if bool_decide (ChannelConfig.id ch ∈ seenIds) then
        refused (text "duplicate channel id 0x" ++ to_hex (ChannelConfig.id ch))
      else
        let? _ := match ChannelConfig.cls ch with
                  | ClassKind.Intent | ClassKind.Event => keysAscend ch None (ChannelConfig.fields ch)
                  | _ => Ok tt
                  end in
        validateChannels (ChannelConfig.id ch :: seenIds) chs
  end.

Fixpoint validateWrites (cfg : HubConfig.t) (chs : list ChannelConfig.t) : Result unit Failure :=
  match chs with
  | [] => Ok tt
  | ch :: chs =>
      if negb (bool_decide (ChannelConfig.cls ch = ClassKind.Intent)) || negb (ChannelConfig.hasWrites ch) then validateWrites cfg chs
      else
        match HubConfig.find (ChannelConfig.writesChannelId ch) cfg with
        | None =>
            refused (text "intent '" ++ ChannelConfig.name ch ++ text "': writes targets unknown channel id 0x"
                     ++ to_hex (ChannelConfig.writesChannelId ch))
        | Some target =>
            if negb (bool_decide (ChannelConfig.cls target = ClassKind.State)) then
              refused (text "intent '" ++ ChannelConfig.name ch ++ text "': writes target '" ++ ChannelConfig.name target
                       ++ text "' is not a state channel")
            else validateWrites cfg chs
        end
  end.

Definition validate (cfg : HubConfig.t) : Result HubConfig.t Failure :=
  let? _ := validateChannels [] (HubConfig.channels cfg) in
  let? _ := validateWrites cfg (HubConfig.channels cfg) in
  Ok cfg.

(** ** The file *)

Definition atLine {A} (st : ParseState) (msg : bytes) : Result A Failure := refused (text "line " ++ to_string (lineNo st) ++ text ": " ++ msg).

Definition configLine (st : ParseState) (rawLine : bytes) : Result ParseState Failure :=
  let st := st{{lineNo := lineNo st + 1}} in
  let line := trim (takeWhile (fun c => negb (c =? 35)) rawLine) in
  match line with
  | [] => Ok st
  | _ =>
      let tok := tokenize line in
      match tok with
      | [] => Err Undefined
      | kw :: _ =>
          if says kw "hub" then Ok (st{{mode := HubBlock}})
          else
            match classFromKeyword kw with
            | Some cls =>
                match tok with
                | [_; idTok; name] =>
                    let '(id, ok) := parseUintTok idTok in
                    if negb ok || (0xFFFF <? id) then atLine st (text "bad channel id '" ++ idTok ++ text "'")
                    else
                      let ch := ChannelConfig.init{{ChannelConfig.id := u16 id; ChannelConfig.name := name; ChannelConfig.cls := cls}} in
                      let channels := HubConfig.channels (out st) ++ [ch] in
                      Ok (st{{out := (out st){{HubConfig.channels := channels}}; mode := ChannelBlock;
                              currentChannel := Some (length channels - 1)%nat}})
                | _ => atLine st (text "'" ++ kw ++ text "' needs: " ++ kw ++ text " <id> <name>")
                end
            | None =>
                match mode st with
                | HubBlock => parseHubProp st tok
                | ChannelBlock => parseChannelProp st tok
                | NoBlock => atLine st (text "'" ++ kw ++ text "' outside any hub/state/intent/event/stream/store block")
                end
            end
      end
  end.

Fixpoint configLines (st : ParseState) (ls : list bytes) : Result ParseState Failure :=
  match ls with [] => Ok st | l :: ls => let? st := configLine st l in configLines st ls end.

(** The file's content, or [None] when it cannot be opened. *)
Definition loadConfigFile (path : bytes) (file : option bytes) : Result HubConfig.t Failure :=
  match file with
  | None => refused (text "cannot open '" ++ path ++ text "'")
  | Some s =>
      let? st := configLines (mkParseState HubConfig.init NoBlock None 0 path) (getlines s) in
      validate (out st)
  end.
End width.

(** * Theorems *)

(** ** What a configuration promises *)

Record field_ok (cls : ClassKind.t) (f : FieldConfig.t) : Prop := {
  fo_range : FieldConfig.hasMin f = FieldConfig.hasMax f;
  fo_key : FieldConfig.hasKey f = negb (isLayoutClass cls);
  fo_u8 : is_u8 (FieldConfig.key f);
  fo_floats : Forall is_u32 [FieldConfig.min f; FieldConfig.max f; FieldConfig.defaultValue f; FieldConfig.animHz f; FieldConfig.animA f; FieldConfig.animB f];
  fo_anim : FieldConfig.anim f <> AnimKind.None -> cls = ClassKind.State }.

Record channel_ok (ch : ChannelConfig.t) : Prop := {
  co_id : is_u16 (ChannelConfig.id ch);
  co_names : NoDup (FieldConfig.name <$> ChannelConfig.fields ch);
  co_fields : Forall (field_ok (ChannelConfig.cls ch)) (ChannelConfig.fields ch);
  co_store : ChannelConfig.cls ch = ClassKind.Store -> ChannelConfig.fields ch = [];
  co_intent : ChannelConfig.hasWrites ch || ChannelConfig.hasEchoDelay ch = true -> ChannelConfig.cls ch = ClassKind.Intent;
  co_u16 : Forall is_u16 [ChannelConfig.writesChannelId ch; ChannelConfig.storeCapacity ch; ChannelConfig.storeNameMax ch];
  co_u32 : Forall is_u32 [ChannelConfig.rateHz ch; ChannelConfig.echoDelayMs ch; ChannelConfig.storePerItemMax ch] }.

(** The keys of a channel's fields, where it has keys, ascend. *)
Definition keys_ok (ch : ChannelConfig.t) : Prop :=
  match ChannelConfig.cls ch with
  | ClassKind.Intent | ClassKind.Event => StronglySorted Z.lt (FieldConfig.key <$> ChannelConfig.fields ch)
  | _ => True
  end.

Record config_valid (cfg : HubConfig.t) : Prop := {
  cv_channels : Forall channel_ok (HubConfig.channels cfg);
  cv_device : Forall (fun ch => 0x80 <= ChannelConfig.id ch) (HubConfig.channels cfg);
  cv_ids : NoDup (ChannelConfig.id <$> HubConfig.channels cfg);
  cv_keys : Forall keys_ok (HubConfig.channels cfg);
  cv_writes : forall ch, ch ∈ HubConfig.channels cfg -> ChannelConfig.hasWrites ch = true ->
    exists target, target ∈ HubConfig.channels cfg /\ ChannelConfig.id target = ChannelConfig.writesChannelId ch /\ ChannelConfig.cls target = ClassKind.State }.

(** A result satisfies [P], or is a message, or, where [U] allows it, undefined. *)
Definition gives {A} (P : A -> Prop) (U : Prop) (r : Result A Failure) : Prop :=
  match r with Ok a => P a | Err (Refused _) => True | Err Undefined => U end.

Lemma gives_bind {A B} (P : A -> Prop) (Q : B -> Prop) U r (k : A -> Result B Failure) :
  gives P U r -> (forall a, P a -> gives Q U (k a)) -> gives Q U (rbind r k).
Proof. destruct r as [a|[]]; cbn; auto. Qed.

Lemma gives_impl {A} (P Q : A -> Prop) (U V : Prop) r : gives P U r -> (forall a, P a -> Q a) -> (U -> V) -> gives Q V r.
Proof. destruct r as [a|[]]; cbn; auto. Qed.

(** ** The parser *)

Section parser.
Variable ulongMax : Z.

Lemma parseUint_u32 s : is_u32 (parseUintTok ulongMax s).1.
Proof. unfold parseUintTok. destruct s as [|c s]; [cbn; unfold is_u32; lia|]. cbv zeta. destruct (strtoul _ _ _). apply u32_range. Qed.

Lemma parseFloat_u32 s : is_u32 (parseFloatTok s).1.
Proof.
  unfold parseFloatTok. destruct s as [|c s]; [cbn; unfold is_u32; lia|]. pose proof (strtof_in (c :: s)) as H. destruct (strtof _) as [v rest]. by apply to_bits_u32.
Qed.

(** A list of numbers all of which are in range. *)
Ltac all_words := decompose_Forall_hyps; repeat first [apply Forall_nil_2|apply Forall_cons_2; [assumption|]].

(** A field that is being read. *)
Definition field_part (name : bytes) (f : FieldConfig.t) : Prop :=
  FieldConfig.name f = name /\ is_u8 (FieldConfig.key f) /\ FieldConfig.anim f = AnimKind.None /\
  Forall is_u32 [FieldConfig.min f; FieldConfig.max f; FieldConfig.defaultValue f; FieldConfig.animHz f; FieldConfig.animA f; FieldConfig.animB f].

Lemma fieldAttr_part name st f t : field_part name f -> gives (field_part name) False (fieldAttr ulongMax st f t).
Proof.
  intros (N & K & A & F). unfold fieldAttr. destruct (splitEq t) as [[key val]|].
  - destruct (says key "key").
    + destruct (parseUintTok _ val) as [v ok]. case_ifs; [done|]. split; [done|]. split; [apply u8_range|]. by split.
    + destruct (says key "default"); [|done]. pose proof (parseFloat_u32 val) as R. destruct (parseFloatTok val) as [v ok]. case_ifs; [done|].
      split; [done|]. split; [done|]. split; [done|]. change (Forall is_u32 [FieldConfig.min f; FieldConfig.max f; v; FieldConfig.animHz f; FieldConfig.animA f; FieldConfig.animB f]).
      all_words.
  - pose proof (parseFloat_u32 t) as R. destruct (parseFloatTok t) as [v ok]. case_ifs; try done; (split; [done|]; split; [done|]; split; [done|]).
    + change (Forall is_u32 [v; FieldConfig.max f; FieldConfig.defaultValue f; FieldConfig.animHz f; FieldConfig.animA f; FieldConfig.animB f]).
      all_words.
    + change (Forall is_u32 [FieldConfig.min f; v; FieldConfig.defaultValue f; FieldConfig.animHz f; FieldConfig.animA f; FieldConfig.animB f]).
      all_words.
Qed.

Lemma fieldAttrs_part name st ts f : field_part name f -> gives (field_part name) False (fieldAttrs ulongMax st f ts).
Proof.
  revert f. induction ts as [|t ts IH]; intros f H; cbn [fieldAttrs]; [done|]. eapply gives_bind; [by apply fieldAttr_part|exact IH].
Qed.

Lemma fieldType_part name st cls ty f : field_part name f -> gives (field_part name) False (fieldType st cls ty f).
Proof. intros H. unfold fieldType. repeat case_match; done. Qed.

(** Between two lines. *)
Definition st_ok (st : ParseState) : Prop :=
  Forall channel_ok (HubConfig.channels (out st)) /\
  (mode st = ChannelBlock -> is_Some (currentChannel st ≫= (HubConfig.channels (out st) !!.))).

Lemma channel_gives st : st_ok st -> mode st = ChannelBlock ->
  gives (fun ch => channel_ok ch /\ exists i, currentChannel st = Some i /\ HubConfig.channels (out st) !! i = Some ch) False (channel st).
Proof.
  intros [F C] M. unfold channel. destruct (C M) as [ch E]. rewrite E. cbn. apply bind_Some in E as (i & Ei & El). split; [by eapply Forall_lookup_1|]. by exists i.
Qed.

Lemma setChannel_ok st ch : st_ok st -> channel_ok ch -> st_ok (setChannel ch st).
Proof.
  intros Hst H. unfold setChannel. destruct (currentChannel st) as [i|] eqn:E; [|done]. destruct Hst as [F C]. split.
  - change (Forall channel_ok (<[i:=ch]> (HubConfig.channels (out st)))). by apply Forall_insert.
  - intros M. specialize (C M). rewrite E in C. cbn in C.
    change (is_Some (currentChannel st ≫= ((<[i:=ch]> (HubConfig.channels (out st))) !!.))). rewrite E. cbn.
    apply lookup_lt_is_Some_2. rewrite length_insert. by apply lookup_lt_is_Some_1.
Qed.

Lemma parseFieldLine_ok st tok : st_ok st -> mode st = ChannelBlock -> gives st_ok False (parseFieldLine ulongMax st tok).
Proof.
  intros S M. unfold parseFieldLine. eapply gives_bind; [by apply channel_gives|]. intros ch [K _].
  case_bool_decide as B; [done|]. destruct tok as [|? [|name [|ty [|un attrs]]]]; try done. case_bool_decide as D; [done|].
  eapply gives_bind; [apply (fieldType_part name)|intros f P; eapply gives_bind; [by apply (fieldAttrs_part name)|clear f P; intros f (N & U & A & F)]].
  { split; [done|]. split; [cbn; unfold is_u8; lia|]. split; [done|]. change (Forall is_u32 [0; 0; 0; 0; 0; 0]). assert (is_u32 0) by (unfold is_u32; lia). all_words. }
  destruct (Bool.eqb (FieldConfig.hasMin f) (FieldConfig.hasMax f)) eqn:R; [|done]. apply Bool.eqb_prop in R.
  destruct (negb _ && negb _) eqn:K1; [done|]. destruct (isLayoutClass _ && _) eqn:K2; [done|]. apply setChannel_ok; [done|].
  destruct K as [C1 C2 C3 C4 C5 C6 C7]. split; try done.
  - change (NoDup (FieldConfig.name <$> (ChannelConfig.fields ch ++ [f]))). rewrite fmap_app. apply NoDup_app. split; [done|]. split; [|apply NoDup_singleton].
    intros x Hx Hf. apply list_elem_of_singleton in Hf. subst x. rewrite N in Hx. done.
  - change (Forall (field_ok (ChannelConfig.cls ch)) (ChannelConfig.fields ch ++ [f])). apply Forall_app_2; [done|]. apply Forall_singleton. split; try done.
    by destruct (isLayoutClass _), (FieldConfig.hasKey f).
Qed.

Lemma alter_same {A B} (f : A -> B) (g : A -> A) (i : nat) (l : list A) : (forall x, f (g x) = f x) -> f <$> alter g i l = f <$> l.
Proof. intros H. revert i. induction l as [|x l IH]; intros [|i]; try done; cbn; [by rewrite H|]. f_equal. apply IH. Qed.

Lemma parseAnimateLine_ok st tok : st_ok st -> mode st = ChannelBlock -> gives st_ok False (parseAnimateLine st tok).
Proof.
  intros S M. unfold parseAnimateLine. eapply gives_bind; [by apply channel_gives|]. intros ch [K _].
  case_bool_decide as B; [|done]. cbn [negb]. destruct tok as [|? [|name [|kind [|t3 [|t4 [|t5 [|]]]]]]]; try done.
  destruct (fieldIndex name _) as [i|]; [|done]. destruct (animKind kind) as [k|]; [|done].
  pose proof (parseFloat_u32 t3) as R1. destruct (parseFloatTok t3) as [hz ok1]. pose proof (parseFloat_u32 t4) as R2. destruct (parseFloatTok t4) as [p2 ok2].
  pose proof (parseFloat_u32 t5) as R3. destruct (parseFloatTok t5) as [p3 ok3]. destruct (_ || _); [done|]. apply setChannel_ok; [done|].
  set (animated := animate k hz p2 p3). destruct K as [C1 C2 C3 C4 C5 C6 C7]. split; try done.
  - change (NoDup (FieldConfig.name <$> alter animated i (ChannelConfig.fields ch))). by rewrite (alter_same _ animated).
  - change (Forall (field_ok (ChannelConfig.cls ch)) (alter animated i (ChannelConfig.fields ch))). apply Forall_alter; [done|].
    intros f _ [F1 F2 F3 F4 F5]. split; try done.
    change (Forall is_u32 [FieldConfig.min f; FieldConfig.max f; FieldConfig.defaultValue f; hz; p2; p3]). cbn [fst] in *. all_words.
  - change (ChannelConfig.cls ch = ClassKind.Store -> alter animated i (ChannelConfig.fields ch) = []). by rewrite B.
Qed.

Lemma setChannelProp_ok st ch kw v : channel_ok ch -> gives channel_ok False (setChannelProp ulongMax st ch kw v).
Proof.
  intros [C1 C2 C3 C4 C5 C6 C7]. unfold setChannelProp. cbv zeta.
  pose proof (parseUint_u32 v) as U. pose proof (parseFloat_u32 v) as F. destruct (parseUintTok ulongMax v) as [n ok], (parseFloatTok v) as [x okf]. cbn [fst] in U, F.
  repeat (case_match; try done).
  all: repeat match goal with H : negb (bool_decide _) = false |- _ => apply negb_false_iff, bool_decide_eq_true in H end.
  all: split; try done; decompose_Forall_hyps; repeat first [apply Forall_nil_2|apply Forall_cons_2; [first [assumption|exact (u16_range n)]|]].
Qed.

Lemma parseChannelProp_ok st tok : st_ok st -> mode st = ChannelBlock -> tok <> [] -> gives st_ok False (parseChannelProp ulongMax st tok).
Proof.
  intros S M N. unfold parseChannelProp. eapply gives_bind; [by apply channel_gives|]. intros ch [K _]. destruct tok as [|kw tok]; [done|].
  destruct (says kw "field"); [by apply parseFieldLine_ok|]. destruct (says kw "animate"); [by apply parseAnimateLine_ok|].
  destruct tok as [|v [|]]; try done. eapply gives_bind; [by apply setChannelProp_ok|]. intros ch' K'. by apply setChannel_ok.
Qed.

Lemma parseHubProp_ok st tok : st_ok st -> tok <> [] -> gives st_ok False (parseHubProp ulongMax st tok).
Proof.
  intros S N. unfold parseHubProp. destruct tok as [|kw [|v [|]]]; try done. repeat case_ifs; try done. destruct (parseUintTok _ v) as [ms ok]. by case_ifs.
Qed.

(** A line without a token that is not passed over as blank: the part before its
    first '#', or all of it, is nothing but white space (tab, newline, vertical
    tab, form feed, carriage return, space) and holds a vertical tab or a form
    feed, which [trim] does not remove. *)
Definition tokenless (line : bytes) : Prop :=
  exists part comment, line = part ++ comment /\ 35 ∉ part /\ (comment = [] \/ head comment = Some 35) /\
    Forall (.∈ [9; 10; 11; 12; 13; 32]) part /\ (11 ∈ part \/ 12 ∈ part).

Lemma skipWhile_spec p s : (exists a, s = a ++ skipWhile p s) /\ (forall c, head (skipWhile p s) = Some c -> p c = false).
Proof.
  induction s as [|c s [[a IH] IH2]]; cbn [skipWhile]; [split; [by exists []|done]|]. destruct (p c) eqn:E.
  - split; [|done]. exists (c :: a). by rewrite IH at 1.
  - split; [by exists []|]. by intros ? [= <-].
Qed.

Lemma before_hash line part comment : line = part ++ comment -> 35 ∉ part -> comment = [] \/ head comment = Some 35 ->
  takeWhile (fun c => negb (c =? 35)) line = part.
Proof.
  intros -> N C. induction part as [|c part IH]; cbn [app takeWhile].
  - destruct C as [->|C]; [done|]. destruct comment as [|d comment]; [done|]. injection C as ->. done.
  - apply not_elem_of_cons in N as [Hc N]. rewrite (proj2 (Z.eqb_neq c 35)) by done. cbn [negb]. by rewrite IH.
Qed.

Lemma hash_split line : exists comment,
  let part := takeWhile (fun c => negb (c =? 35)) line in
  line = part ++ comment /\ 35 ∉ part /\ (comment = [] \/ head comment = Some 35).
Proof.
  induction line as [|c line (comment & E & N & C)]; cbn [takeWhile]; [exists []; split_and!; [done|apply not_elem_of_nil|by left]|].
  destruct (Z.eqb_spec c 35) as [->|Hc]; cbn [negb].
  - exists (35 :: line). split_and!; [done|apply not_elem_of_nil|by right].
  - exists comment. split_and!; [by rewrite E at 1|apply not_elem_of_cons; by split|done].
Qed.

Lemma isspace_iff c : isspace c = true <-> c ∈ [9; 10; 11; 12; 13; 32].
Proof.
  unfold isspace. rewrite orb_true_iff, andb_true_iff, Z.eqb_eq, !Z.leb_le, !elem_of_cons, elem_of_nil. lia.
Qed.

Lemma blank_iff c : blank c = true <-> isspace c = true /\ c <> 11 /\ c <> 12.
Proof. unfold blank, isspace. rewrite !orb_true_iff, andb_true_iff, !Z.eqb_eq, !Z.leb_le. lia. Qed.

Lemma skipWhile_blank s : exists a, s = a ++ skipWhile blank s /\ Forall (fun c => blank c = true) a.
Proof.
  induction s as [|c s (a & IH & F)]; cbn [skipWhile]; [by exists []|]. destruct (blank c) eqn:E; [|by exists []].
  exists (c :: a). split; [by rewrite IH at 1|by constructor].
Qed.

(** [trim] takes blanks from both ends and nothing else. *)
Lemma trim_split s : exists a b, s = a ++ trim s ++ b /\ Forall (fun c => blank c = true) (a ++ b) /\
  (forall c, last (trim s) = Some c -> blank c = false).
Proof.
  destruct (skipWhile_blank s) as (a & Ea & Fa). destruct (skipWhile_blank (reverse (skipWhile blank s))) as (b & Eb & Fb).
  exists a, (reverse b). unfold trim. split_and!.
  - rewrite Ea at 1. f_equal. by rewrite <- reverse_app, <- Eb, reverse_involutive.
  - apply Forall_app_2; [done|by apply Forall_reverse].
  - intros c. rewrite last_reverse. apply skipWhile_spec.
Qed.

Lemma words_empty p s : Forall (fun c => p c = true) s -> words_from p [] s = [].
Proof. induction 1 as [|c s Hc _ IH]; [done|]. cbn [words_from]. by rewrite Hc. Qed.

(** The lines on which the parser indexes an empty vector. *)
Lemma tokenless_iff line : tokenless line <->
  let part := trim (takeWhile (fun c => negb (c =? 35)) line) in part <> [] /\ tokenize part = [].
Proof.
  cbv zeta. split.
  - intros (part & comment & E & N & C & F & O). rewrite (before_hash line part comment E N C).
    destruct (trim_split part) as (a & b & Es & Fb & _). split.
    + intros Et. rewrite Et in Es. cbn [app] in Es.
      assert (forall c, c ∈ part -> c <> 11 /\ c <> 12) as Hb.
      { intros c Hc. rewrite Es in Hc. apply (proj1 (Forall_forall _ _) Fb) in Hc. by apply blank_iff in Hc as [_ ?]. }
      destruct O as [O|O]; apply Hb in O; by destruct O.
    + apply words_empty. rewrite Es in F. apply Forall_app in F as [_ [F _]%Forall_app].
      eapply Forall_impl; [exact F|]. intros c. apply isspace_iff.
  - intros [Ht Htok]. destruct (hash_split line) as (comment & E & N & C). cbv zeta in *. set (part := takeWhile _ line) in *.
    exists part, comment. apply words_none in Htok as [_ Hsp]. destruct (trim_split part) as (a & b & Es & Fb & Hl). apply Forall_app in Fb as [Fa Fb].
    assert (forall l, Forall (fun c => blank c = true) l -> Forall (.∈ [9; 10; 11; 12; 13; 32]) l) as Hspace.
    { intros l Hf. eapply Forall_impl; [exact Hf|]. intros c Hc. by apply isspace_iff, blank_iff. }
    split_and!; [done|done|done| |].
    + rewrite Es. apply Forall_app_2; [by apply Hspace|]. apply Forall_app_2; [|by apply Hspace].
      eapply Forall_impl; [exact Hsp|]. intros c. apply isspace_iff.
    + destruct (last (trim part)) as [c|] eqn:El; [|by apply last_None in El]. specialize (Hl c eq_refl).
      apply last_Some in El as [l El]. assert (c ∈ part) as Hc by (rewrite Es, El, !elem_of_app, list_elem_of_singleton; auto). rewrite El in Hsp.
      apply Forall_app in Hsp as [_ Hsp%Forall_inv]. destruct (decide (c = 11)) as [->|]; [by left|]. destruct (decide (c = 12)) as [->|]; [by right|].
      exfalso. assert (blank c = true) as Hb by (by apply blank_iff). congruence.
Qed.

Lemma fresh_channel_ok id name cls : channel_ok (ChannelConfig.init{{ChannelConfig.id := u16 id; ChannelConfig.name := name; ChannelConfig.cls := cls}}).
Proof.
  split; try done; [exact (u16_range id)|apply NoDup_nil_2| |].
  - assert (is_u16 0) by (unfold is_u16; lia). change (Forall is_u16 [0; 0; 0]). all_words.
  - assert (is_u32 0) by (unfold is_u32; lia). change (Forall is_u32 [0; 0; 0]). all_words.
Qed.

Lemma configLine_ok st raw : st_ok st -> gives st_ok (tokenless raw) (configLine ulongMax st raw).
Proof.
  intros S0. unfold configLine. set (st1 := st{{lineNo := lineNo st + 1}}). assert (S : st_ok st1) by exact S0. clearbody st1. clear S0 st. cbv zeta.
  pose proof (proj2 (tokenless_iff raw)) as Hnone. cbv zeta in Hnone. set (line := trim (takeWhile _ raw)) in *. destruct line as [|c l] eqn:EL; [done|].
  rewrite <- EL in *. destruct (tokenize line) as [|kw tok] eqn:ET; [apply Hnone; split; [by rewrite EL|done]|]. clear Hnone.
  destruct (says kw "hub"); [split; [apply S|by intros [=]]|]. destruct (classFromKeyword kw) as [cls|].
  - destruct tok as [|idTok [|name [|]]]; try done. destruct (parseUintTok _ idTok) as [id ok]. destruct (_ || _); [done|]. set (ch := ChannelConfig.init{{ChannelConfig.id := u16 id; ChannelConfig.name := name; ChannelConfig.cls := cls}}). split.
    + change (Forall channel_ok (HubConfig.channels (out st1) ++ [ch])). apply Forall_app_2; [apply S|]. apply Forall_singleton. apply fresh_channel_ok.
    + intros _. change (is_Some ((HubConfig.channels (out st1) ++ [ch]) !! (length (HubConfig.channels (out st1) ++ [ch]) - 1)%nat)).
      apply lookup_lt_is_Some_2. rewrite length_app. cbn [length]. lia.
  - destruct (mode st1) eqn:M; [done| |].
    + eapply gives_impl; [by apply parseHubProp_ok|done|done].
    + eapply gives_impl; [by apply parseChannelProp_ok|done|done].
Qed.

(** A line that parses has a token or is blank. *)
Lemma configLine_token st raw st' : configLine ulongMax st raw = Ok st' -> ~ tokenless raw.
Proof.
  intros H. rewrite tokenless_iff. cbv zeta. revert H. unfold configLine. cbv zeta. set (line := trim (takeWhile _ raw)).
  intros H [Hn Ht]. rewrite Ht in H. destruct line; done.
Qed.

Lemma configLines_ok st ls : st_ok st ->
  gives (fun st => st_ok st /\ Forall (fun l => ~ tokenless l) ls) (exists l, l ∈ ls /\ tokenless l) (configLines ulongMax st ls).
Proof.
  revert st. induction ls as [|l ls IH]; intros st S; cbn [configLines]; [done|]. pose proof (configLine_ok st l S) as H1.
  pose proof (configLine_token st l) as H2. destruct (configLine ulongMax st l) as [st'|[]]; cbn [rbind]; [|done|exists l; split; [by left|done]].
  eapply gives_impl; [by apply IH|intros st'' [? ?]; split; [done|constructor; [by eapply H2|done]]|].
  intros (x & Hx & H). exists x. split; [by right|done].
Qed.
End parser.

(** ** Validation *)

Lemma keysAscend_sorted ch last fs : keysAscend ch last fs = Ok tt ->
  StronglySorted Z.lt (FieldConfig.key <$> fs) /\ (forall k, last = Some k -> Forall (fun f => k < FieldConfig.key f) fs).
Proof.
  revert last. induction fs as [|f fs IH]; intros last; cbn [keysAscend fmap list_fmap]; [split; [constructor|by constructor]|].
  intros H. assert (keysAscend ch (Some (FieldConfig.key f)) fs = Ok tt /\ (forall k, last = Some k -> k < FieldConfig.key f)) as [H1 H2].
  { destruct last as [k|]; [|done]. destruct (Z.leb_spec (FieldConfig.key f) k); [done|]. split; [done|]. by intros ? [= <-]. }
  destruct (IH _ H1) as [S F]. specialize (F _ eq_refl). split.
  - constructor; [done|]. apply Forall_fmap. exact F.
  - intros k E. specialize (H2 k E). constructor; [done|]. eapply Forall_impl; [exact F|]. cbn. lia.
Qed.

Lemma validateChannels_sound seen chs : validateChannels seen chs = Ok tt ->
  Forall (fun ch => 0x80 <= ChannelConfig.id ch) chs /\ NoDup (ChannelConfig.id <$> chs) /\ Forall keys_ok chs /\ (forall ch, ch ∈ chs -> ChannelConfig.id ch ∉ seen).
Proof.
  revert seen. induction chs as [|ch chs IH]; intros seen; cbn [validateChannels].
  { intros _. split; [constructor|]. split; [constructor|]. split; [constructor|]. by intros ? ?%elem_of_nil. }
  destruct (Z.ltb_spec (ChannelConfig.id ch) 0x80) as [|G1]; [done|]. case_bool_decide as G2; [done|].
  destruct (match ChannelConfig.cls ch with ClassKind.Intent | ClassKind.Event => _ | _ => _ end) as [[]|] eqn:E; [|done]. cbn [rbind]. intros H.
  destruct (IH _ H) as (I1 & I2 & I3 & I4). split_and!.
  - by constructor.
  - cbn [fmap list_fmap]. constructor; [|done]. intros (y & Ey & Hy)%list_elem_of_fmap. apply (I4 y Hy). rewrite <- Ey. by left.
  - constructor; [|done]. unfold keys_ok. destruct (ChannelConfig.cls ch); try done; by apply keysAscend_sorted in E as [].
  - intros x [->|Hx]%elem_of_cons; [done|]. intros Hs. apply (I4 x Hx). by right.
Qed.

Lemma config_find_spec id cfg ch : HubConfig.find id cfg = Some ch -> ch ∈ HubConfig.channels cfg /\ ChannelConfig.id ch = id.
Proof.
  unfold HubConfig.find. intros H. assert (ch ∈ filter (fun c => ChannelConfig.id c = id) (HubConfig.channels cfg)) as E.
  { destruct (filter _ _); [done|]. injection H as <-. by left. }
  by apply list_elem_of_filter in E as [].
Qed.

Lemma validateWrites_sound cfg chs : validateWrites cfg chs = Ok tt ->
  forall ch, ch ∈ chs -> ChannelConfig.cls ch = ClassKind.Intent -> ChannelConfig.hasWrites ch = true ->
  exists target, target ∈ HubConfig.channels cfg /\ ChannelConfig.id target = ChannelConfig.writesChannelId ch /\ ChannelConfig.cls target = ClassKind.State.
Proof.
  induction chs as [|c chs IH]; cbn [validateWrites]; [by intros _ ? ?%elem_of_nil|]. intros H ch [->|Hc]%elem_of_cons C W.
  - rewrite C, W, bool_decide_true in H by done. cbn [negb orb] in H. destruct (HubConfig.find _ cfg) as [t|] eqn:E; [|done]. apply config_find_spec in E as [E1 E2].
    case_bool_decide as B; [|done]. by exists t.
  - apply IH; try done. revert H. destruct (HubConfig.find _ cfg); case_ifs; done.
Qed.

Lemma keysAscend_defined ch last fs : keysAscend ch last fs <> Err Undefined.
Proof. revert last. induction fs as [|f fs IH]; intros last; cbn [keysAscend]; [done|]. destruct last; [case_ifs; [done|]|]; apply IH. Qed.

Lemma validateChannels_defined seen chs : validateChannels seen chs <> Err Undefined.
Proof.
  revert seen. induction chs as [|ch chs IH]; intros seen; cbn [validateChannels]; [done|]. case_ifs; try done.
  pose proof (keysAscend_defined ch None (ChannelConfig.fields ch)) as K. destruct (ChannelConfig.cls ch); cbn [rbind]; try apply IH.
  all: destruct (keysAscend ch None _) as [|[]]; cbn [rbind]; try apply IH; done.
Qed.

Lemma validateWrites_defined cfg chs : validateWrites cfg chs <> Err Undefined.
Proof. induction chs as [|ch chs IH]; cbn [validateWrites]; [done|]. destruct (HubConfig.find _ cfg); case_ifs; done. Qed.

Lemma validate_sound cfg : Forall channel_ok (HubConfig.channels cfg) -> gives config_valid False (validate cfg).
Proof.
  intros F. unfold validate. pose proof (validateChannels_defined [] (HubConfig.channels cfg)) as D1. destruct (validateChannels [] _) as [[]|[]] eqn:E1; [|done|done].
  cbn [rbind]. pose proof (validateWrites_defined cfg (HubConfig.channels cfg)) as D2. destruct (validateWrites cfg _) as [[]|[]] eqn:E2; [|done|done]. cbn.
  apply validateChannels_sound in E1 as (V1 & V2 & V3 & _). split; try done. intros ch Hc W. apply (validateWrites_sound cfg _ E2); try done.
  apply (proj1 (Forall_forall _ _) F) in Hc. apply Hc. by rewrite W.
Qed.

Lemma load_gives (ulongMax : Z) (path file : bytes) :
  gives (fun cfg => config_valid cfg /\ Forall (fun l => ~ tokenless l) (getlines file)) (exists l, l ∈ getlines file /\ tokenless l)
    (loadConfigFile ulongMax path (Some file)).
Proof.
  unfold loadConfigFile. eapply gives_bind; [by apply configLines_ok; split; [apply Forall_nil_2|]|].
  intros st [[F _] T]. eapply gives_impl; [by apply validate_sound|intros cfg V; by split|done].
Qed.

(** C20. Whatever is in the file, a configuration that loads keeps its promises: channel
    ids are in the device range and distinct, field names are distinct within a channel,
    a field has a minimum exactly when it has a maximum and a key exactly when its channel
    is an INTENT or EVENT, keys ascend strictly, only state fields are animated, only
    intents write and what they write exists and is a STATE channel, and every number is
    within its type. Anything else is a message, with one exception: a line whose part
    before the first '#' is white space only and holds a vertical tab or a form feed, for
    which the parser indexes an empty vector. Loading has no defined outcome only when the
    file has such a line, and a file that has one never loads. *)
Theorem config_loads_valid (ulongMax : Z) (path file : bytes) :
  match loadConfigFile ulongMax path (Some file) with
  | Ok cfg => config_valid cfg /\ Forall (fun line => ~ tokenless line) (getlines file)
  | Err (Refused _) => True
  | Err Undefined => exists line, line ∈ getlines file /\ tokenless line
  end.
Proof.
  exact (load_gives ulongMax path file).
Qed.

(** The numerals the tool itself prints, decimal and "0x" with hexadecimal digits, are
    read back as the number, whatever the width of [unsigned long]. *)
Theorem uint_token_roundtrip (ulongMax n : Z) : 0xFFFFFFFF <= ulongMax -> is_u32 n ->
  parseUintTok ulongMax (to_string n) = (n, true) /\ parseUintTok ulongMax (text "0x" ++ to_hex n) = (n, true).
Proof.
  intros Hm Hn. assert (Hu : u32 n = n) by by apply u32_id. unfold is_u32 in Hn. split.
  - pose proof (strtoul_show ulongMax 10 n [] ltac:(auto) ltac:(lia)) as E. cbn [app] in E. unfold parseUintTok, to_string.
    destruct (show_spec 10 n ltac:(lia) ltac:(lia)) as (_ & D & NE). destruct (show 10 n) as [|c s] eqn:ES; [done|]. cbv zeta.
    assert (H : ((2 <? length (c :: s))%nat && (nth 0 (c :: s) 0 =? 48) && ((nth 1 (c :: s) 0 =? 120) || (nth 1 (c :: s) 0 =? 88))) = false).
    { destruct s as [|d s]; [done|]. apply andb_false_iff. right. cbn [nth]. pose proof (Forall_inv (Forall_inv_tail D)) as Hd.
      unfold isDigit, digitOf in Hd. destruct (Z.eqb_spec d 120) as [->|]; [done|]. by destruct (Z.eqb_spec d 88) as [->|]. }
    rewrite H, E, Hu. done.
  - pose proof (strtoul_show ulongMax 16 n [48; 120] ltac:(auto) ltac:(lia)) as E. unfold to_hex. destruct (show_spec 16 n ltac:(lia) ltac:(lia)) as (_ & _ & NE).
    destruct (show 16 n) as [|c s] eqn:ES; [done|]. change (text "0x" ++ c :: s) with (48 :: 120 :: c :: s). cbn [app] in E. unfold parseUintTok. cbv zeta.
    change ((2 <? length (48 :: 120 :: c :: s)%Z)%nat && (nth 0 (48 :: 120 :: c :: s) 0 =? 48) && ((nth 1 (48 :: 120 :: c :: s) 0 =? 120) || (nth 1 (48 :: 120 :: c :: s) 0 =? 88))) with true.
    cbv iota. rewrite E, Hu. done.
Qed.

Lemma uint_token_roundtrip_witness : parseUintTok 0xFFFFFFFF (to_string 4096) = (4096, true) /\ parseUintTok 0xFFFFFFFF (text "0x" ++ to_hex 0x3000) = (0x3000, true).
Proof.
  split; [apply (proj1 (uint_token_roundtrip 0xFFFFFFFF 4096 ltac:(lia) ltac:(unfold is_u32; lia)))|].
  apply (proj2 (uint_token_roundtrip 0xFFFFFFFF 0x3000 ltac:(lia) ltac:(unfold is_u32; lia))).
Defined.

(** configs/tiny-axis.bench without its comments. *)
Definition tiny_axis : bytes := text "hub
  name tiny-axis
  product SlopBench-Tiny
  fw_version 0.1.0
  echo_delay_ms 0
state 0x1000 telemetry
  category motion
  rate_hz 20
  field pos_mm f32 mm 0 500
  field vel_mm_s f32 mm/s -1000 1000
  animate vel_mm_s sine 0.1 200 0
intent 0x3000 axis-set
  writes 0x1000
  access control
  field pos_mm f32 mm 0 500 key=1
".

(** What it says of its two channels. *)
Example tiny_axis_loads :
  match loadConfigFile 0xFFFFFFFFFFFFFFFF (text "tiny-axis.bench") (Some tiny_axis) with
  | Ok cfg =>
      HubConfig.name cfg = text "tiny-axis" /\
      ((fun ch => (ChannelConfig.id ch, ChannelConfig.cls ch, ChannelConfig.writesChannelId ch, FieldConfig.name <$> ChannelConfig.fields ch)) <$> HubConfig.channels cfg)
      = [(0x1000, ClassKind.State, 0, [text "pos_mm"; text "vel_mm_s"]); (0x3000, ClassKind.Intent, 0x1000, [text "pos_mm"])]
  | Err _ => False
  end.
Proof. vm_compute. split; reflexivity. Qed.

(** An id of more than 32 bits is cut before its range is checked. *)
Example wide_id_accepted :
  match loadConfigFile 0xFFFFFFFFFFFFFFFF [] (Some (text "state 0x100000080 x")) with
  | Ok cfg => ChannelConfig.id <$> HubConfig.channels cfg = [0x80]
  | Err _ => False
  end.
Proof. vm_compute. reflexivity. Qed.

(** A line of one vertical tab, and one of a vertical tab and a comment; after a
    word the same characters only separate. *)
Example vertical_tab_undefined :
  loadConfigFile 0xFFFFFFFFFFFFFFFF [] (Some [11]) = Err Undefined /\
  loadConfigFile 0xFFFFFFFFFFFFFFFF [] (Some (11 :: text "# hub")) = Err Undefined /\
  loadConfigFile 0xFFFFFFFFFFFFFFFF [] (Some ([11] ++ text "hub" ++ [12])) = Ok HubConfig.init.
Proof. repeat split. Qed.
