(* ===== verification/BenchCatalog.v ===== *)
(** * BenchCatalog: the catalog the bench hub serves

    hub/slopbench/src/hub/BenchHub.cpp, [CatalogBuilder]: the spec-core channels, the
    library's own, and a channel for every block of the configuration, in the order of
    the ids. The builder's calls on [Catalog32] are the [Authoring] operations; where
    the source ignores what a call returns, so does the model, and the latched overflow
    tells. [std::sort] is not stable: on equal ids, which a loaded configuration does
    not have, the model's order is one of the possible ones. *)

From Stdlib Require Import String Sorted.
From stdpp Require Import gmap sorting.
From S2P Require Import Prelude Registry Float Codec Catalog Builtin CatalogCodec CText BenchConfig.
Local Open Scope Z_scope.

(** ** Translation of the configuration's vocabulary *)

Definition toPackedType (k : LayoutKind.t) : PackedFieldType.t :=
  match k with
  | LayoutKind.U8 => PackedFieldType.u8
  | LayoutKind.I8 => PackedFieldType.i8
  | LayoutKind.U16 => PackedFieldType.u16
  | LayoutKind.I16 => PackedFieldType.i16
  | LayoutKind.U32 => PackedFieldType.u32
  | LayoutKind.I32 => PackedFieldType.i32
  | LayoutKind.F32 => PackedFieldType.f32
  | LayoutKind.Bitfield8 => PackedFieldType.bitfield8
  | LayoutKind.Str16 => PackedFieldType.str16
  | LayoutKind.Str32 => PackedFieldType.str32
  | LayoutKind.Str64 => PackedFieldType.str64
  end.

Definition toCborType (k : SchemaKind.t) : CborFieldType.t :=
  match k with
  | SchemaKind.Uint => CborFieldType.uint_t
  | SchemaKind.Int => CborFieldType.int_t
  | SchemaKind.F32 => CborFieldType.f32_t
  | SchemaKind.Bool => CborFieldType.bool_t
  | SchemaKind.Tstr => CborFieldType.tstr_t
  | SchemaKind.Bstr => CborFieldType.bstr_t
  end.

Definition toAccessLevel (k : AccessKind.t) : AccessLevel :=
  match k with AccessKind.Watch => watch | AccessKind.Control => control | AccessKind.Configure => configure end.

Definition toChannelClass (k : ClassKind.t) : ChannelClass :=
  match k with
  | ClassKind.State => STATE | ClassKind.Intent => INTENT | ClassKind.Event => EVENT | ClassKind.Stream => STREAM | ClassKind.Store => STORE
  end.

Definition defaultDirectionFor (k : ClassKind.t) : Direction :=
  match k with
  | ClassKind.State | ClassKind.Event | ClassKind.Store => h2c
  | ClassKind.Intent | ClassKind.Stream => c2h
  end.

(** ** The builder *)

(** A call on [Catalog32]. *)
Definition c32 (op : Authoring) (c : BasicCatalog) : bool * BasicCatalog := author 48 200 160 192 4 op c.

(** Calls made for their effect. *)
Definition calls (ops : list Authoring) (c : BasicCatalog) : BasicCatalog := foldl (fun c op => snd (c32 op c)) c ops.

Definition f_20 : Z := 0x41A00000.
Definition f_1 : Z := 0x3F800000.

(** addHandAuthoredSpecCore *)
Definition specCore : list Authoring :=
  [OpenEntry (builtin channels.safety (text "safety") STATE h2c watch 0 critical);
   Bitfield (layoutField (text "word") PackedFieldType.bitfield8 (text "flag")) (text <$> ["estop"; "stop"; "hold"; "pause"]%string);
   Field (layoutField (text "cause") PackedFieldType.u8 []);
   Field (layoutField (text "owner_session") PackedFieldType.u32 []);
   Field (layoutField (text "estop_seq") PackedFieldType.u16 (text "count"));
   Bitfield (layoutField (text "modes") PackedFieldType.bitfield8 (text "flag")) (text <$> ["override"; "bypass"]%string);
   OpenEntry (builtin channels.control_owner (text "control-owner") STATE h2c watch 0 critical);
   Field (layoutField (text "src0") PackedFieldType.u8 []);
   Field (layoutField (text "owner0") PackedFieldType.u32 []);
   Field (layoutField (text "src1") PackedFieldType.u8 []);
   Field (layoutField (text "owner1") PackedFieldType.u32 []);
   Field (layoutField (text "src2") PackedFieldType.u8 []);
   Field (layoutField (text "owner2") PackedFieldType.u32 []);
   Field (layoutField (text "src3") PackedFieldType.u8 []);
   Field (layoutField (text "owner3") PackedFieldType.u32 []);
   OpenEntry (builtin channels.safety_intents (text "safety-intents") INTENT c2h watch f_20 critical);
   SelectArgument (schemaField 1 (text "op") CborFieldType.uint_t [])
     (text <$> ["reserved"; "estop_clear"; "stop"; "hold"; "pause"; "resume"; "estop"; "override_on"; "override_off"; "bypass_on"; "bypass_off"]%string)
     [control; control; watch; control; control; control; watch; control; control; control; control];
   OpenEntry (builtin channels.hub_status (text "hub-status") STATE h2c watch f_1 background);
   Field (layoutField (text "heap_free") PackedFieldType.u32 (text "B"));
   Field (layoutField (text "uptime_s") PackedFieldType.u32 (text "s"));
   Field (layoutField (text "rssi") PackedFieldType.i8 (text "dBm"));
   Field (layoutField (text "sessions") PackedFieldType.u8 (text "count"));
   Field (layoutField (text "log_dropped") PackedFieldType.u32 (text "count"));
   OpenEntry (builtin channels.session_events (text "session-events") EVENT h2c watch 0 normal);
   Argument (schemaField 1 (text "source") CborFieldType.uint_t []);
   Argument (schemaField 2 (text "session") CborFieldType.uint_t [])].

Record CatalogBuilder := mkBuilder {
  b_cat : BasicCatalog; categoryIds : gmap bytes Z; nextVendorCategory : Z; nextStoreId : Z }.

Definition kNamed : list (string * Z) :=
  [("control"%string, 1); ("motion"%string, 2); ("safety"%string, 3); ("limits"%string, 4); ("library"%string, 5);
   ("playback"%string, 6); ("auxiliary"%string, 7); ("automation"%string, 8); ("tuning"%string, 9);
   ("hardware"%string, 10); ("network"%string, 11); ("session"%string, 12); ("system"%string, 13); ("other"%string, 14)].

Definition categoryIdFor (name : bytes) (b : CatalogBuilder) : Z * CatalogBuilder :=
  match named kNamed name with
  | Some id => (id, b)
  | None =>
      match categoryIds b !! name with
      | Some id => (id, b)
      | None =>
          let id := nextVendorCategory b in
          (id, b{{nextVendorCategory := u8 (nextVendorCategory b + 1); categoryIds := <[name := id]> (categoryIds b)}})
      end
  end.

(** A field of a STATE or STREAM, with the key that writes it. *)
Definition configLayoutField (writerFieldKeys : option (gmap bytes Z)) (f : FieldConfig.t) : LayoutField.t :=
  let lf := LayoutField.init{{LayoutField.name := FieldConfig.name f; LayoutField.type := toPackedType (FieldConfig.layoutType f);
    LayoutField.unit := FieldConfig.unit f; LayoutField.scale := f_1; LayoutField.hasMin := FieldConfig.hasMin f;
    LayoutField.hasMax := FieldConfig.hasMax f; LayoutField.min := FieldConfig.min f; LayoutField.max := FieldConfig.max f}} in
  let lf := if FieldConfig.hasDefault f && FieldConfig.isNumericLayout f then lf{{LayoutField.dflt := DFloat (FieldConfig.defaultValue f)}} else lf in
  match writerFieldKeys ≫= (.!! FieldConfig.name f) with
  | Some k => lf{{LayoutField.hasSettingKey := true; LayoutField.settingKey := k}}
  | None => lf
  end.

Definition configSchemaField (f : FieldConfig.t) : SchemaField.t :=
  let sf := SchemaField.init{{SchemaField.key := FieldConfig.key f; SchemaField.name := FieldConfig.name f;
    SchemaField.type := toCborType (FieldConfig.schemaType f); SchemaField.unit := FieldConfig.unit f;
    SchemaField.hasMin := FieldConfig.hasMin f; SchemaField.hasMax := FieldConfig.hasMax f;
    SchemaField.min := FieldConfig.min f; SchemaField.max := FieldConfig.max f}} in
  if FieldConfig.hasDefault f then
    sf{{SchemaField.dflt :=
          if bool_decide (FieldConfig.schemaType f = SchemaKind.Bool)
          then DBool (negb (Float32.eq (Float32.of_bits (FieldConfig.defaultValue f)) Float32.zero))
          else DFloat (FieldConfig.defaultValue f)}}
  else sf.

Definition configHeader (ch : ChannelConfig.t) : CatalogEntry.t :=
  CatalogEntry.init{{CatalogEntry.id := ChannelConfig.id ch; CatalogEntry.name := ChannelConfig.name ch;
    CatalogEntry.cls := toChannelClass (ChannelConfig.cls ch); CatalogEntry.dir := defaultDirectionFor (ChannelConfig.cls ch);
    CatalogEntry.access := toAccessLevel (ChannelConfig.access ch); CatalogEntry.maxRateHz := ChannelConfig.rateHz ch;
    CatalogEntry.defaultPriority := normal}}.

(** The header, with the category. *)
Definition categorised (ch : ChannelConfig.t) (b : CatalogBuilder) : CatalogEntry.t * CatalogBuilder :=
  match ChannelConfig.category ch with
  | [] => (configHeader ch, b)
  | cat =>
      let '(id, b) := categoryIdFor cat b in
      let h := (configHeader ch){{CatalogEntry.hasCategory := true; CatalogEntry.category := id}} in
      (if 0x40 <=? id then h{{CatalogEntry.categoryLabel := cat}} else h, b)
  end.

(** [entry->settingChannel = id] *)
Definition setSettingChannel (i : nat) (id : Z) (c : BasicCatalog) : BasicCatalog :=
  c{{entries := alter (fun e => e{{CatalogEntry.hasSettingChannel := true; CatalogEntry.settingChannel := id}}) i (entries c)}}.

Definition configDescriptor (storeId : Z) (ch : ChannelConfig.t) : StoreDescriptor.t :=
  StoreDescriptor.mk storeId (ChannelConfig.storeKind ch) (ChannelConfig.storeCapacity ch) (ChannelConfig.storePerItemMax ch) (ChannelConfig.storeNameMax ch).

Definition addConfigChannel (ch : ChannelConfig.t) (writerChannelId : Z) (writerFieldKeys : option (gmap bytes Z)) (b : CatalogBuilder) : CatalogBuilder :=
  let '(header, b) := categorised ch b in
  match addEntry 48 header (b_cat b) with
  | (None, c) => b{{b_cat := c}}
  | (Some entry, c) =>
      match ChannelConfig.cls ch with
      | ClassKind.State | ClassKind.Stream =>
          let c := calls ((fun f => Field (configLayoutField writerFieldKeys f)) <$> ChannelConfig.fields ch) c in
          let c := match writerFieldKeys with
                   | Some ks => if bool_decide (ks = ∅) then c else setSettingChannel entry writerChannelId c
                   | None => c
                   end in
          b{{b_cat := c}}
      | ClassKind.Intent | ClassKind.Event =>
          b{{b_cat := calls ((fun f => Argument (configSchemaField f)) <$> ChannelConfig.fields ch) c}}
      | ClassKind.Store =>
          b{{nextStoreId := u8 (nextStoreId b + 1); b_cat := calls [Descriptor (configDescriptor (nextStoreId b) ch)] c}}
      end
  end.

(** [writerFor.emplace]: the first intent that writes a channel. *)
Definition writersOf (chs : list ChannelConfig.t) : gmap Z ChannelConfig.t :=
  foldl (fun m ch =>
    if bool_decide (ChannelConfig.cls ch = ClassKind.Intent) && ChannelConfig.hasWrites ch
    then match m !! ChannelConfig.writesChannelId ch with Some _ => m | None => <[ChannelConfig.writesChannelId ch := ch]> m end
    else m) ∅ chs.

Definition keysByName (fs : list FieldConfig.t) : gmap bytes Z := foldl (fun m f => <[FieldConfig.name f := FieldConfig.key f]> m) ∅ fs.

Definition byId (a b : ChannelConfig.t) : Prop := ChannelConfig.id a <= ChannelConfig.id b.
#[global] Instance byId_dec : RelDecision byId.
Proof. intros a b. unfold byId. apply _. Defined.

(** The intent that writes the channel, as [addConfigChannel] is told of it. *)
Definition writerOf (writerFor : gmap Z ChannelConfig.t) (ch : ChannelConfig.t) : Z * option (gmap bytes Z) :=
  if bool_decide (ChannelConfig.cls ch = ClassKind.State) then
    match writerFor !! ChannelConfig.id ch with
    | Some w => let ks := keysByName (ChannelConfig.fields w) in (ChannelConfig.id w, if bool_decide (ks = ∅) then None else Some ks)
    | None => (0, None)
    end
  else (0, None).

(** The channels every hub has. *)
Definition builtins (c : BasicCatalog) : bool * BasicCatalog :=
  let c := calls specCore c in
  match addLogChannel limits.log_replay_depth_default c with
  | (false, c) => (false, c)
  | (true, c) =>
      match addTrustChannels 1 c with
      | (false, c) => (false, c)
      | (true, c) => addSafetyEventsChannel c
      end
  end.

Definition buildCatalog (cfg : HubConfig.t) (c : BasicCatalog) : BasicCatalog :=
  match builtins (Catalog.clear c) with
  | (false, c) => c
  | (true, c) =>
      let writerFor := writersOf (HubConfig.channels cfg) in
      let order := merge_sort byId (HubConfig.channels cfg) in
      b_cat (foldl (fun b ch => let '(w, ks) := writerOf writerFor ch in addConfigChannel ch w ks b) (mkBuilder c ∅ 0x40 2) order)
  end.

Definition buildCatalogInto (c : BasicCatalog) (cfg : HubConfig.t) : BasicCatalog := buildCatalog cfg c.

(** * Theorems *)

(** ** Well-formedness, decided *)

Definition wfb (c : BasicCatalog) : bool :=
  bool_decide (length (labelAccessPool c) = labelUsed c)
  && forallb (fun i => match entries c !! i with
                       | Some e => bool_decide (CatalogEntry.fieldOffset e = owned (CatalogEntry.form e) (take i (entries c)))
                       | None => true
                       end) (seq 0 (count c))
  && forallb (fun fm => bool_decide (owned fm (entries c) = used fm c)) [Layout; Schema; Store]
  && forallb (fun e => (CatalogEntry.fieldCount e <=? CatalogEntry.kMaxFields)%nat
                       && (negb (bool_decide (CatalogEntry.form e = Store)) || (CatalogEntry.fieldCount e <=? 1)%nat)) (entries c)
  && forallb (fun r => (LabelRef.count r =? 0)%nat || (LabelRef.start r + LabelRef.count r <=? labelUsed c)%nat)
       ((LayoutField.bits <$> layoutPool c) ++ (LayoutField.options <$> layoutPool c) ++ (SchemaField.options <$> schemaPool c)).

Lemma wfb_sound c : wfb c = true -> wf c.
Proof.
  unfold wfb. intros [[[[H1%bool_decide_eq_true H2]%andb_prop H3]%andb_prop H4]%andb_prop H5]%andb_prop.
  rewrite !forallb_forall in *.
  assert (R : forall r, r ∈ (LayoutField.bits <$> layoutPool c) ++ (LayoutField.options <$> layoutPool c) ++ (SchemaField.options <$> schemaPool c) -> ref_ok c r).
  { intros r Hr. apply list_elem_of_In, H5, orb_prop in Hr as [Hr|Hr]; [left; by apply Nat.eqb_eq|right; by apply Nat.leb_le]. }
  split; try done.
  - intros i e Hi. assert (L : (i < count c)%nat) by (by eapply lookup_lt_Some). specialize (H2 i ltac:(apply in_seq; lia)). rewrite Hi in H2. by apply bool_decide_eq_true in H2.
  - intros fm. assert (In fm [Layout; Schema; Store]) as Hf by (destruct fm; cbn; auto). by apply H3, bool_decide_eq_true in Hf.
  - apply Forall_forall. intros e He. apply list_elem_of_In, H4, andb_prop in He as [A B]. split; [by apply Nat.leb_le|]. intros F. rewrite bool_decide_true in B by done. by apply Nat.leb_le.
  - apply Forall_forall. intros f Hf. split; apply R; rewrite !elem_of_app; [left|right; left]; by apply list_elem_of_fmap_2.
  - apply Forall_forall. intros f Hf. apply R. rewrite !elem_of_app. right. right. by apply list_elem_of_fmap_2.
Qed.

(** ** The ids of a catalog *)

Definition ids (c : BasicCatalog) : list Z := CatalogEntry.id <$> entries c.

Lemma ids_contents c : ids c = (fun x => CatalogEntry.id x.1) <$> contents c.
Proof. unfold ids, contents. rewrite <- list_fmap_compose. by apply list_fmap_ext. Qed.

Lemma ids_on_payload f (l : list (CatalogEntry.t * Payload)) : (fun x => CatalogEntry.id x.1) <$> on_payload f l = (fun x => CatalogEntry.id x.1) <$> l.
Proof. unfold on_payload, on_last. apply alter_same. by intros []. Qed.

Definition opens (op : Authoring) : bool := match op with OpenEntry _ => true | _ => false end.

(** A call that adds to the entry that is open. *)
Lemma call_spec op c : wf c -> plain op -> opens op = false ->
  let c' := snd (c32 op c) in
  wf c' /\ ids c' = ids c /\ (ok c' = true -> ok c = true /\ contents c' = authored op (contents c)).
Proof.
  intros W P N. destruct (author_steps 48 200 160 192 4 op c W P) as (_ & W' & O & C). fold (c32 op c) in *. destruct (c32 op c) as [r c']. cbn [fst snd] in *.
  split; [done|]. split.
  - rewrite !ids_contents, C. destruct r; [|done]. destruct op; try done; cbn [authored]; apply ids_on_payload.
  - unfold ok. rewrite O. intros H%negb_true_iff. apply orb_false_iff in H as [-> H]. apply negb_false_iff in H as ->. done.
Qed.

Lemma calls_spec ops c : wf c -> Forall (fun op => plain op /\ opens op = false) ops ->
  let c' := calls ops c in
  wf c' /\ ids c' = ids c /\ (ok c' = true -> ok c = true /\ contents c' = foldl (fun l op => authored op l) (contents c) ops).
Proof.
  revert c. induction ops as [|op ops IH]; intros c W F; [done|]. apply Forall_cons in F as [[P N] F]. cbn [calls foldl].
  destruct (call_spec op c W P N) as (W1 & I1 & C1). fold (calls ops (snd (c32 op c))). destruct (IH _ W1 F) as (W2 & I2 & C2). cbv zeta in *.
  split; [done|]. split; [congruence|]. intros H. destruct (C2 H) as [H1 E2]. destruct (C1 H1) as [H0 E1]. split; [done|]. by rewrite E2, E1.
Qed.

(** A field at a time onto the last entry. *)
Lemma authored_layouts l h p (fs : list LayoutField.t) :
  foldl (fun l op => authored op l) (l ++ [(h, PLayout p)]) (Field <$> fs) = l ++ [(h, PLayout (p ++ ((fun f => (noRefs f, [], [])) <$> fs)))].
Proof.
  revert p. induction fs as [|f fs IH]; intros p; cbn [fmap list_fmap foldl]; [by rewrite app_nil_r|]. cbn [authored]. unfold on_payload. rewrite on_last_snoc. cbn [push_layout].
  rewrite IH. by rewrite <- (assoc_L app).
Qed.

Lemma authored_schemas l h p (fs : list SchemaField.t) :
  foldl (fun l op => authored op l) (l ++ [(h, PSchema p)]) (Argument <$> fs)
  = l ++ [(h, PSchema (p ++ ((fun f => (f{{SchemaField.options := LabelRef.none}}, [], [])) <$> fs)))].
Proof.
  revert p. induction fs as [|f fs IH]; intros p; cbn [fmap list_fmap foldl]; [by rewrite app_nil_r|]. cbn [authored]. unfold on_payload. rewrite on_last_snoc. cbn [push_schema].
  rewrite IH. by rewrite <- (assoc_L app).
Qed.

(** ** One channel *)

Definition linked (id : Z) (h : CatalogEntry.t) : CatalogEntry.t := h{{CatalogEntry.hasSettingChannel := true; CatalogEntry.settingChannel := id}}.

Lemma setSettingChannel_spec i id c : wf c -> S i = count c ->
  let c' := setSettingChannel i id c in
  wf c' /\ ids c' = ids c /\ ok c' = ok c /\ (forall l h p, contents c = l ++ [(h, p)] -> contents c' = l ++ [(linked id h, p)]).
Proof.
  intros W Hi c'. assert (exists es e, entries c = es ++ [e] /\ length es = i) as (es & e & E & L).
  { unfold count in Hi. destruct (entries c) as [|x xs] using rev_ind; [done|]. rewrite length_app in Hi. cbn [length] in Hi. exists xs, x. split; [done|lia]. }
  assert (E' : entries c' = es ++ [linked id e]).
  { change (alter (linked id) i (entries c) = es ++ [linked id e]). rewrite E, <- L. replace (length es) with (length es + 0)%nat by lia. by rewrite alter_app_r. }
  assert (W' : wf c').
  { pose proof (Nat.add_0_r (CatalogEntry.fieldCount e)) as N. apply (wf_last c c' es e (linked id e) 0); try done; try apply W; [exact (last_count c es e W E)|].
    intros fm. change (used fm c = used fm c + (if decide (CatalogEntry.form e = fm) then 0 else 0))%nat. case_decide; lia. }
  split; [done|]. split; [unfold ids; by rewrite E, E', !fmap_app|]. split; [done|]. intros l h p. unfold contents. rewrite E, E', !fmap_app. cbn [fmap list_fmap].
  intros [El [= <- <-]]%app_inj_tail. by rewrite <- El.
Qed.

(** What the catalog says of a channel, given its category and its store's number. *)
Definition channelPayload (ks : option (gmap bytes Z)) (storeId : Z) (ch : ChannelConfig.t) : Payload :=
  match ChannelConfig.cls ch with
  | ClassKind.State | ClassKind.Stream => PLayout ((fun f => (configLayoutField ks f, [], [])) <$> ChannelConfig.fields ch)
  | ClassKind.Intent | ClassKind.Event => PSchema ((fun f => (configSchemaField f, [], [])) <$> ChannelConfig.fields ch)
  | ClassKind.Store => PStore (Some (configDescriptor storeId ch))
  end.

Definition withWriter (w : Z) (ks : option (gmap bytes Z)) (h : CatalogEntry.t) : CatalogEntry.t :=
  match ks with Some _ => linked w h | None => h end.

Lemma layoutField_bare ks f : LayoutField.bits (configLayoutField ks f) = LabelRef.none /\ LayoutField.options (configLayoutField ks f) = LabelRef.none.
Proof. unfold configLayoutField. destruct (ks ≫= _), (FieldConfig.hasDefault f && _); done. Qed.

Lemma schemaField_bare f : SchemaField.options (configSchemaField f) = LabelRef.none /\ SchemaField.hasOptionAccess (configSchemaField f) = false.
Proof. unfold configSchemaField. destruct (FieldConfig.hasDefault f); done. Qed.

Lemma noRefs_bare f : LayoutField.bits f = LabelRef.none -> LayoutField.options f = LabelRef.none -> noRefs f = f.
Proof. destruct f. cbn. by intros -> ->. Qed.

Lemma noOptions_bare f : SchemaField.options f = LabelRef.none -> f{{SchemaField.options := LabelRef.none}} = f.
Proof. destruct f. cbn. by intros ->. Qed.

Lemma layouts_authored ks l h fs :
  foldl (fun l op => authored op l) (l ++ [(h, PLayout [])]) ((fun f => Field (configLayoutField ks f)) <$> fs)
  = l ++ [(h, PLayout ((fun f => (configLayoutField ks f, [], [])) <$> fs))].
Proof.
  rewrite (list_fmap_compose (configLayoutField ks) Field), authored_layouts. cbn [app]. rewrite <- list_fmap_compose. do 4 f_equal. apply list_fmap_ext. intros _ f _.
  change ((noRefs (configLayoutField ks f), @nil bytes, @nil bytes) = (configLayoutField ks f, [], [])). by rewrite noRefs_bare by apply layoutField_bare.
Qed.

Lemma schemas_authored l h fs :
  foldl (fun l op => authored op l) (l ++ [(h, PSchema [])]) ((fun f => Argument (configSchemaField f)) <$> fs)
  = l ++ [(h, PSchema ((fun f => (configSchemaField f, [], [])) <$> fs))].
Proof.
  rewrite (list_fmap_compose configSchemaField Argument), authored_schemas. cbn [app]. rewrite <- list_fmap_compose. do 4 f_equal. apply list_fmap_ext. intros _ f _.
  change (((configSchemaField f){{SchemaField.options := LabelRef.none}}, @nil bytes, @nil AccessLevel) = (configSchemaField f, [], [])). by rewrite noOptions_bare by apply schemaField_bare.
Qed.

(** Opening an entry: the catalog has no room, or one entry more. *)
Lemma open_spec h c : wf c ->
  match addEntry 48 h c with
  | (None, c') => wf c' /\ ids c' = ids c /\ ok c' = false
  | (Some i, c') => wf c' /\ i = count c /\ (count c < 48)%nat /\ ids c' = ids c ++ [CatalogEntry.id h] /\ ok c' = ok c /\ contents c' = contents c ++ [(header h, noPayload h)]
  end.
Proof.
  intros W. pose proof (step_open 48 200 160 192 4 h c W) as (_ & W' & O & C). unfold author in *. unfold addEntry in *.
  destruct (Nat.leb_spec 48 (count c)); cbn [fst snd] in *; [done|]. split; [done|]. split; [done|]. split; [done|]. split; [|split; [|done]].
  - rewrite !ids_contents, C. cbn [authored]. by rewrite fmap_app.
  - unfold ok. by rewrite O, orb_false_r.
Qed.

(** The payload of an entry that was just opened, by form. *)
Definition serves (c c' : BasicCatalog) (l : list (CatalogEntry.t * Payload)) (x : CatalogEntry.t * Payload) : Prop :=
  wf c' /\ ids c' = ids c /\ (ok c' = true -> ok c = true /\ contents c' = l ++ [x]).

Definition addLayouts (i : nat) (w : Z) (ks : option (gmap bytes Z)) (fs : list FieldConfig.t) (c : BasicCatalog) : BasicCatalog :=
  let c := calls ((fun f => Field (configLayoutField ks f)) <$> fs) c in
  match ks with Some m => if bool_decide (m = ∅) then c else setSettingChannel i w c | None => c end.

Lemma layouts_served i w ks fs c l h : wf c -> S i = count c -> (ks = Some ∅ -> False) -> contents c = l ++ [(h, PLayout [])] ->
  serves c (addLayouts i w ks fs c) l (withWriter w ks h, PLayout ((fun f => (configLayoutField ks f, [], [])) <$> fs)).
Proof.
  intros W Hi Hk C. unfold addLayouts. destruct (calls_spec ((fun f => Field (configLayoutField ks f)) <$> fs) c W) as (W2 & I2 & C2).
  { apply Forall_fmap, Forall_true. intros f. cbn. destruct (layoutField_bare ks f) as [-> ->]. done. }
  cbv zeta in *. rewrite C, layouts_authored in C2. destruct ks as [m|]; [|done]. rewrite bool_decide_false by (intros ->; by apply Hk).
  set (c2 := calls _ c) in *. destruct (setSettingChannel_spec i w c2 W2) as (W3 & I3 & O3 & C3).
  { rewrite Hi. unfold ids in I2. apply (f_equal length) in I2. by rewrite !length_fmap in I2. }
  split; [done|]. split; [congruence|]. rewrite O3. intros H. destruct (C2 H) as [H1 E2]. split; [done|]. by apply C3.
Qed.

Lemma schemas_served fs c l h : wf c -> contents c = l ++ [(h, PSchema [])] ->
  serves c (calls ((fun f => Argument (configSchemaField f)) <$> fs) c) l (h, PSchema ((fun f => (configSchemaField f, [], [])) <$> fs)).
Proof.
  intros W C. destruct (calls_spec ((fun f => Argument (configSchemaField f)) <$> fs) c W) as (W2 & I2 & C2).
  { apply Forall_fmap, Forall_true. intros f. cbn. destruct (schemaField_bare f) as [-> ->]. done. }
  cbv zeta in *. by rewrite C, schemas_authored in C2.
Qed.

Lemma store_served d c l h : wf c -> contents c = l ++ [(h, PStore None)] -> serves c (calls [Descriptor d] c) l (h, PStore (Some d)).
Proof.
  intros W C. destruct (calls_spec [Descriptor d] c W) as (W2 & I2 & C2); [by repeat constructor|]. cbv zeta in *. cbn [foldl authored] in C2.
  unfold on_payload in C2. by rewrite C, on_last_snoc in C2.
Qed.

Lemma categorised_keeps ch b : let '(h, b1) := categorised ch b in
  b_cat b1 = b_cat b /\ nextStoreId b1 = nextStoreId b /\ CatalogEntry.id h = ChannelConfig.id ch /\ CatalogEntry.cls h = toChannelClass (ChannelConfig.cls ch) /\ header h = h.
Proof.
  unfold categorised, categoryIdFor. destruct (ChannelConfig.category ch); [done|]. destruct (named kNamed _); [|destruct (categoryIds b !! _)]; by destruct (0x40 <=? _).
Qed.

(** One channel of the configuration: skipped with the flag latched, or served. *)
Lemma addConfigChannel_spec ch w ks b : wf (b_cat b) -> (ks = Some ∅ -> False) -> (isLayoutClass (ChannelConfig.cls ch) = false -> ks = None) ->
  let b' := addConfigChannel ch w ks b in
  let '(h, b1) := categorised ch b in
  wf (b_cat b') /\ categoryIds b' = categoryIds b1 /\ nextVendorCategory b' = nextVendorCategory b1 /\
  ((ids (b_cat b') = ids (b_cat b) ++ [ChannelConfig.id ch] /\ (count (b_cat b) < 48)%nat) \/ ids (b_cat b') = ids (b_cat b)) /\
  (ok (b_cat b') = true -> ok (b_cat b) = true /\
     nextStoreId b' = (if bool_decide (ChannelConfig.cls ch = ClassKind.Store) then u8 (nextStoreId b + 1) else nextStoreId b) /\
     contents (b_cat b') = contents (b_cat b) ++ [(withWriter w ks h, channelPayload ks (nextStoreId b) ch)]).
Proof.
  intros W Hks Hn. unfold addConfigChannel. pose proof (categorised_keeps ch b) as K. destruct (categorised ch b) as [h b1]. destruct K as (Eb & Es & Ei & Ec & Eh). rewrite Eb.
  pose proof (open_spec h (b_cat b) W) as S. destruct (addEntry 48 h (b_cat b)) as [[i|] c].
  2: { destruct S as (W1 & I1 & O1). split; [done|]. split; [done|]. split; [done|]. split; [by right|]. intros H. change (ok c = true) in H. congruence. }
  destruct S as (W1 & Hi & Hr & I1 & O1 & C1). rewrite Ei in I1. rewrite Eh in C1. unfold noPayload, CatalogEntry.form in C1. rewrite Ec in C1.
  assert (Hc : Datatypes.S i = count c).
  { subst i. apply (f_equal length) in I1. unfold ids in I1. rewrite length_app, !length_fmap in I1. unfold count. cbn [length] in I1. lia. }
  assert (Go : forall c' sid, serves c c' (contents (b_cat b)) (withWriter w ks h, channelPayload ks sid ch) ->
    wf c' /\ ((ids c' = ids (b_cat b) ++ [ChannelConfig.id ch] /\ (count (b_cat b) < 48)%nat) \/ ids c' = ids (b_cat b)) /\
    (ok c' = true -> ok (b_cat b) = true /\ contents c' = contents (b_cat b) ++ [(withWriter w ks h, channelPayload ks sid ch)])).
  { intros c' sid (W2 & I2 & C2). split; [done|]. split; [left; split; [congruence|done]|]. intros H. destruct (C2 H) as [H1 E]. split; [congruence|done]. }
  unfold channelPayload in *. rewrite <- Es. destruct (ChannelConfig.cls ch); cbn [toChannelClass isLayoutClass] in *.
  - destruct (Go _ 0 (layouts_served i w ks (ChannelConfig.fields ch) c _ h W1 Hc Hks C1)) as (G1 & G2 & G3).
    exact (conj G1 (conj eq_refl (conj eq_refl (conj G2 (fun o => conj (proj1 (G3 o)) (conj eq_refl (proj2 (G3 o)))))))).
  - rewrite (Hn eq_refl) in *. destruct (Go _ 0 (schemas_served (ChannelConfig.fields ch) c _ h W1 C1)) as (G1 & G2 & G3).
    exact (conj G1 (conj eq_refl (conj eq_refl (conj G2 (fun o => conj (proj1 (G3 o)) (conj eq_refl (proj2 (G3 o)))))))).
  - rewrite (Hn eq_refl) in *. destruct (Go _ 0 (schemas_served (ChannelConfig.fields ch) c _ h W1 C1)) as (G1 & G2 & G3).
    exact (conj G1 (conj eq_refl (conj eq_refl (conj G2 (fun o => conj (proj1 (G3 o)) (conj eq_refl (proj2 (G3 o)))))))).
  - destruct (Go _ 0 (layouts_served i w ks (ChannelConfig.fields ch) c _ h W1 Hc Hks C1)) as (G1 & G2 & G3).
    exact (conj G1 (conj eq_refl (conj eq_refl (conj G2 (fun o => conj (proj1 (G3 o)) (conj eq_refl (proj2 (G3 o)))))))).
  - rewrite (Hn eq_refl) in *.
    destruct (Go _ (nextStoreId b1) (store_served (configDescriptor (nextStoreId b1) ch) c _ h W1 C1)) as (G1 & G2 & G3).
    exact (conj G1 (conj eq_refl (conj eq_refl (conj G2 (fun o => conj (proj1 (G3 o)) (conj eq_refl (proj2 (G3 o)))))))).
Qed.

(** The store's number moves by at most one. *)
Lemma addConfigChannel_ids ch w ks b :
  nextStoreId (addConfigChannel ch w ks b) = nextStoreId b \/ nextStoreId (addConfigChannel ch w ks b) = u8 (nextStoreId b + 1).
Proof.
  unfold addConfigChannel. pose proof (categorised_keeps ch b) as K. destruct (categorised ch b) as [h b1]. destruct K as (Eb & Es & _).
  destruct (addEntry 48 h (b_cat b1)) as [[i|] c]; [|by left]. destruct (ChannelConfig.cls ch); [by left..|]. right. by rewrite <- Es.
Qed.

(** ** Categories *)

(** The number of a category: the registry's, or the one the builder gave the name. *)
Definition categoryOf (cats : gmap bytes Z) (name : bytes) : Z :=
  match named kNamed name with Some id => id | None => default 0 (cats !! name) end.

(** The entry of a channel, apart from who writes it. *)
Definition titled (cats : gmap bytes Z) (ch : ChannelConfig.t) : CatalogEntry.t :=
  match ChannelConfig.category ch with
  | [] => configHeader ch
  | name => (configHeader ch){{CatalogEntry.hasCategory := true; CatalogEntry.category := categoryOf cats name;
              CatalogEntry.categoryLabel := match named kNamed name with Some _ => [] | None => name end}}
  end.

(** The builder has numbered the name of the channel's category. *)
Definition labelled (cats : gmap bytes Z) (ch : ChannelConfig.t) : Prop :=
  ChannelConfig.category ch <> [] -> named kNamed (ChannelConfig.category ch) = None -> is_Some (cats !! ChannelConfig.category ch).

Record cats_ok (n : nat) (cats : gmap bytes Z) (next : Z) : Prop := {
  k_next : 0x40 <= next <= 0x40 + Z.of_nat n;
  k_ids : forall name id, cats !! name = Some id -> 0x40 <= id < next /\ named kNamed name = None;
  k_inj : forall a b id, cats !! a = Some id -> cats !! b = Some id -> a = b }.

Lemma kNamed_small name id : named kNamed name = Some id -> 1 <= id <= 14.
Proof.
  unfold named. destruct (filter _ kNamed) as [|x l] eqn:E; [done|]. intros [= <-]. assert (x ∈ filter (fun x => text x.1 = name) kNamed) as H by (rewrite E; by left).
  apply list_elem_of_filter in H as [_ H]. unfold kNamed in H. repeat (apply elem_of_cons in H as [->|H]; [cbn; lia|]). by apply elem_of_nil in H.
Qed.

Lemma categorised_spec ch b n : cats_ok n (categoryIds b) (nextVendorCategory b) -> (n < 190)%nat ->
  let '(h, b1) := categorised ch b in
  categoryIds b ⊆ categoryIds b1 /\ cats_ok (S n) (categoryIds b1) (nextVendorCategory b1) /\ (forall cats, categoryIds b1 ⊆ cats -> h = titled cats ch /\ labelled cats ch).
Proof.
  intros [K1 K2 K3] Hn. assert (Up : cats_ok (S n) (categoryIds b) (nextVendorCategory b)) by (split; [lia|done|done]).
  unfold categorised, titled, labelled. destruct (ChannelConfig.category ch) as [|x xs]; [done|]. set (name := x :: xs). unfold categoryIdFor.
  destruct (named kNamed name) as [id|] eqn:EN.
  { split; [done|]. split; [done|]. intros cats _. unfold categoryOf. split; [|done]. rewrite EN. apply kNamed_small in EN. by destruct (Z.leb_spec 0x40 id); [lia|]. }
  destruct (categoryIds b !! name) as [id|] eqn:EC.
  { split; [done|]. split; [done|]. intros cats Hs. unfold categoryOf. rewrite EN. rewrite (lookup_weaken _ _ name id EC Hs). split; [|by eexists]. apply K2 in EC as [EC _]. by destruct (Z.leb_spec 0x40 id); [|lia]. }
  set (id := nextVendorCategory b) in *.
  assert (I : categoryIds (b{{nextVendorCategory := u8 (id + 1); categoryIds := <[name := id]> (categoryIds b)}}) = <[name := id]> (categoryIds b)) by done. rewrite I.
  assert (V : nextVendorCategory (b{{nextVendorCategory := u8 (id + 1); categoryIds := <[name := id]> (categoryIds b)}}) = id + 1) by (apply u8_id; unfold is_u8; lia). rewrite V.
  split; [by apply insert_subseteq|]. split.
  - split; [lia| |].
    + intros m j. rewrite lookup_insert_Some. intros [[<- <-]|[_ H]]; [split; [lia|done]|]. apply K2 in H as [H1 H2]. split; [lia|done].
    + intros a c j. rewrite !lookup_insert_Some. intros [[Ha Ea]|[_ Ha]] [[Hc Ec]|[_ Hc]]; [congruence|apply K2 in Hc as [? _]; lia|apply K2 in Ha as [? _]; lia|by eapply K3].
  - intros cats Hs. unfold categoryOf. rewrite EN. rewrite (lookup_weaken _ _ name id (lookup_insert_eq _ _ _) Hs). split; [|by eexists]. by destruct (Z.leb_spec 0x40 id); [|lia].
Qed.

(** ** All channels *)

Definition addChannels (writerFor : gmap Z ChannelConfig.t) (b : CatalogBuilder) (chs : list ChannelConfig.t) : CatalogBuilder :=
  foldl (fun b ch => let '(w, ks) := writerOf writerFor ch in addConfigChannel ch w ks b) b chs.

(** What the builder writes for a channel of the configuration. *)
Definition written (cats : gmap bytes Z) (writerFor : gmap Z ChannelConfig.t) (storeId : Z) (ch : ChannelConfig.t) : CatalogEntry.t * Payload :=
  let '(w, ks) := writerOf writerFor ch in (withWriter w ks (titled cats ch), channelPayload ks storeId ch).

(** The STORE channels of a list. *)
Definition storeCount (chs : list ChannelConfig.t) : nat := length (filter (fun ch => ChannelConfig.cls ch = ClassKind.Store) chs).

Lemma writerOf_keys writerFor ch : let '(w, ks) := writerOf writerFor ch in (ks = Some ∅ -> False) /\ (isLayoutClass (ChannelConfig.cls ch) = false -> ks = None).
Proof.
  unfold writerOf. case_bool_decide as C; [|done]. destruct (writerFor !! _) as [w|]; [|done]. cbv zeta. case_bool_decide as K; [done|]. split; [by intros [=]|]. by rewrite C.
Qed.

Lemma addChannels_sound writerFor chs b : wf (b_cat b) -> (count (b_cat b) <= 48)%nat ->
  let b' := addChannels writerFor b chs in
  wf (b_cat b') /\ (count (b_cat b') <= 48)%nat /\ exists sub, ids (b_cat b') = ids (b_cat b) ++ sub /\ sub `sublist_of` (ChannelConfig.id <$> chs).
Proof.
  revert b. induction chs as [|ch chs IH]; intros b W N; cbn [addChannels foldl].
  { split; [done|]. split; [done|]. exists []. by rewrite app_nil_r. }
  pose proof (writerOf_keys writerFor ch) as K. destruct (writerOf writerFor ch) as [w ks]. destruct K as [K1 K2]. pose proof (addConfigChannel_spec ch w ks b W K1 K2) as S. cbv zeta in S.
  destruct (categorised ch b) as [h b1]. destruct S as (W1 & _ & _ & I & _). fold (addChannels writerFor (addConfigChannel ch w ks b) chs).
  assert (N1 : (count (b_cat (addConfigChannel ch w ks b)) <= 48)%nat).
  { destruct I as [[I L]|I]; apply (f_equal length) in I; unfold ids in I; rewrite ?length_app, !length_fmap in I; unfold count in *; cbn [length] in I; lia. }
  destruct (IH _ W1 N1) as (W2 & N2 & sub & E & Hs). split; [done|]. split; [done|]. destruct I as [[I L]|I]; rewrite I in E.
  - exists (ChannelConfig.id ch :: sub). split; [by rewrite E, <- (assoc_L app)|]. cbn [fmap list_fmap]. by apply sublist_skip.
  - exists sub. split; [done|]. cbn [fmap list_fmap]. by apply sublist_cons.
Qed.

Lemma addChannels_ok writerFor chs b : wf (b_cat b) -> ok (b_cat (addChannels writerFor b chs)) = true ->
  ok (b_cat b) = true /\ length (contents (b_cat (addChannels writerFor b chs))) = (length (contents (b_cat b)) + length chs)%nat.
Proof.
  revert b. induction chs as [|ch chs IH]; intros b W; cbn [addChannels foldl]; [intros H; split; [done|cbn; lia]|].
  pose proof (writerOf_keys writerFor ch) as K. destruct (writerOf writerFor ch) as [w ks]. destruct K as [K1 K2]. pose proof (addConfigChannel_spec ch w ks b W K1 K2) as S. cbv zeta in S.
  destruct (categorised ch b) as [h b1]. destruct S as (W1 & _ & _ & _ & C). fold (addChannels writerFor (addConfigChannel ch w ks b) chs). intros H.
  destruct (IH _ W1 H) as [H1 L]. destruct (C H1) as (H0 & _ & E). split; [done|]. rewrite L, E, length_app. cbn [length]. lia.
Qed.

Lemma addChannels_contents writerFor chs b n : wf (b_cat b) -> cats_ok n (categoryIds b) (nextVendorCategory b) -> (n + length chs <= 190)%nat ->
  0 <= nextStoreId b <= 2 + Z.of_nat n ->
  let b' := addChannels writerFor b chs in
  categoryIds b ⊆ categoryIds b' /\ cats_ok (n + length chs) (categoryIds b') (nextVendorCategory b') /\
  (ok (b_cat b') = true -> forall cats, categoryIds b' ⊆ cats ->
   contents (b_cat b') = contents (b_cat b) ++
     imap (fun i ch => written cats writerFor (nextStoreId b + Z.of_nat (storeCount (take i chs))) ch) chs /\ Forall (labelled cats) chs).
Proof.
  revert b n. induction chs as [|ch chs IH]; intros b n W K N Ns; cbn [addChannels foldl length].
  { split; [done|]. rewrite Nat.add_0_r. split; [done|]. intros _ cats _. split; [by rewrite app_nil_r|constructor]. }
  pose proof (writerOf_keys writerFor ch) as Kk. destruct (writerOf writerFor ch) as [w ks] eqn:Ew. destruct Kk as [K1 K2]. cbn [length] in N.
  pose proof (addConfigChannel_spec ch w ks b W K1 K2) as S. cbv zeta in S. pose proof (categorised_spec ch b n K ltac:(lia)) as Sc. destruct (categorised ch b) as [h b1].
  destruct S as (W1 & Ec & Ev & _ & C). destruct Sc as (S1 & S2 & S3). fold (addChannels writerFor (addConfigChannel ch w ks b) chs). rewrite <- Ec, <- Ev in *.
  pose proof (addConfigChannel_ids ch w ks b) as Hsid.
  assert (Hu : u8 (nextStoreId b + 1) = nextStoreId b + 1) by (apply u8_id; unfold is_u8; lia). rewrite Hu in C, Hsid.
  destruct (IH _ (S n) W1 S2 ltac:(lia) ltac:(lia)) as (G1 & G2 & G3). cbv zeta in *. split; [by etrans|]. split; [by rewrite <- Nat.add_succ_comm|].
  intros H cats Hc. destruct (G3 H cats Hc) as [-> Hl]. destruct (S3 cats ltac:(by etrans)) as [-> Hh] in C. destruct (addChannels_ok _ _ _ W1 H) as [H1 _]. destruct (C H1) as (_ & Es & E1).
  split; [|by constructor]. rewrite E1, Es, <- (assoc_L app). cbn [app imap take]. f_equal. f_equal.
  - unfold written. rewrite Ew. do 3 f_equal. cbn. lia.
  - apply imap_ext. intros i x _. cbn [compose]. change (take (S i) (ch :: chs)) with (ch :: take i chs). f_equal. unfold storeCount. rewrite filter_cons.
    case_bool_decide; [rewrite decide_True by done|rewrite decide_False by done]; cbn [length]; lia.
Qed.

(** ** Order *)

Lemma ascend_sorted es : StronglySorted Z.lt (CatalogEntry.id <$> es) -> idsAscend es = true.
Proof.
  induction es as [|a [|b es] IH]; [done|done|]. intros H. apply StronglySorted_inv in H as [H F]. change ((CatalogEntry.id a <? CatalogEntry.id b) && idsAscend (b :: es) = true). rewrite (IH H), andb_true_r.
  apply Z.ltb_lt. by apply Forall_inv in F.
Qed.

Lemma Forall_sub {A} (P : A -> Prop) (l k : list A) : l `sublist_of` k -> Forall P k -> Forall P l.
Proof. intros H F. apply Forall_forall. intros x Hx. apply (proj1 (Forall_forall _ _) F). by eapply elem_of_sublist. Qed.

Lemma sorted_sublist (l k : list Z) : l `sublist_of` k -> StronglySorted Z.lt k -> StronglySorted Z.lt l.
Proof.
  induction 1 as [|x l k H IH|x l k H IH]; [done| |]; intros S; apply StronglySorted_inv in S as [S F]; [|by apply IH].
  constructor; [by apply IH|]. by eapply Forall_sub.
Qed.

Lemma sorted_app (a b : list Z) m : StronglySorted Z.lt a -> StronglySorted Z.lt b -> Forall (fun x => x < m) a -> Forall (fun x => m <= x) b -> StronglySorted Z.lt (a ++ b).
Proof.
  intros Sa Sb Fa Fb. induction Sa as [|x a Sa IH F]; [done|]. apply Forall_cons in Fa as [Hx Fa]. cbn [app]. constructor; [by apply IH|].
  apply Forall_app_2; [done|]. eapply Forall_impl; [exact Fb|]. cbn. lia.
Qed.

Lemma channels_sorted chs : NoDup (ChannelConfig.id <$> chs) -> StronglySorted Z.lt (ChannelConfig.id <$> merge_sort byId chs).
Proof.
  intros N. assert (P : merge_sort byId chs ≡ₚ chs) by apply merge_sort_Permutation.
  assert (S : StronglySorted byId (merge_sort byId chs)).
  { apply StronglySorted_merge_sort; [intros a b c; unfold byId; lia|]. intros a b. unfold byId. lia. }
  rewrite <- P in N. revert S N. generalize (merge_sort byId chs). induction 1 as [|c l S IH F]; cbn [fmap list_fmap]; intros N; [constructor|].
  apply NoDup_cons in N as [N1 N2]. constructor; [by apply IH|]. apply Forall_fmap. apply Forall_forall. intros x Hx. cbn.
  apply (proj1 (Forall_forall _ _) F) in Hx as L. unfold byId in L. assert (ChannelConfig.id c <> ChannelConfig.id x) by (intros E; apply N1; rewrite E; by apply list_elem_of_fmap_2). lia.
Qed.

(** The built-in channels, alone. *)
Definition core : BasicCatalog := snd (builtins emptyCatalog).

Lemma core_ids : CatalogEntry.id <$> entries core = seqZ 3 12.
Proof. vm_compute. reflexivity. Qed.

Lemma core_facts :
  builtins emptyCatalog = (true, core) /\ wf core /\ (count core <= 48)%nat /\ StronglySorted Z.lt (ids core) /\ Forall (fun x => x < 0x80) (ids core) /\ ok core = true.
Proof.
  assert (I : ids core = [3; 4; 5; 6; 7; 8; 9; 10; 11; 12; 13; 14]) by (vm_compute; reflexivity). rewrite I.
  split; [vm_compute; reflexivity|]. split; [apply wfb_sound; vm_compute; reflexivity|]. split; [apply Nat.leb_le; vm_compute; reflexivity|].
  split; [repeat constructor|]. split; [repeat constructor|vm_compute; reflexivity].
Qed.

(** The channels of a configuration behind those of [c0]. *)
Lemma channels_served (c0 : BasicCatalog) (cfg : HubConfig.t) : wf c0 -> (count c0 <= 48)%nat -> StronglySorted Z.lt (ids c0) -> Forall (fun x => x < 0x80) (ids c0) -> config_valid cfg ->
  let order := merge_sort byId (HubConfig.channels cfg) in
  let wr := writersOf (HubConfig.channels cfg) in
  let cat := b_cat (addChannels wr (mkBuilder c0 ∅ 0x40 2) order) in
  wf cat /\ idsAscend (entries cat) = true /\
  (ok cat = true -> exists cats,
     contents cat = contents c0 ++ imap (fun i ch => written cats wr (2 + Z.of_nat (storeCount (take i order))) ch) order /\
     Forall (labelled cats) order /\
     (forall name id, cats !! name = Some id -> 0x40 <= id <= 0xFF /\ named kNamed name = None) /\
     (forall a b id, cats !! a = Some id -> cats !! b = Some id -> a = b)).
Proof.
  intros W C0 S0 F0 V order wr. set (b0 := mkBuilder c0 ∅ 0x40 2).
  assert (P : order ≡ₚ HubConfig.channels cfg) by apply merge_sort_Permutation. cbv zeta.
  destruct (addChannels_sound wr order b0 W C0) as (W' & N & sub & Es & Hs). cbv zeta in *. split; [exact W'|]. split.
  - apply ascend_sorted. fold (ids (b_cat (addChannels wr b0 order))). rewrite Es. apply (sorted_app _ _ 0x80); [exact S0| |exact F0|].
    + eapply sorted_sublist; [exact Hs|]. apply channels_sorted, V.
    + eapply Forall_sub; [exact Hs|]. apply Forall_fmap. unfold compose. rewrite P. apply V.
  - intros H. destruct (addChannels_ok wr order b0 W H) as [_ L].
    assert (Hn : (0 + length order <= 190)%nat) by (unfold contents in L; rewrite !length_fmap in L; unfold count in N; lia).
    assert (K0 : cats_ok 0 (categoryIds b0) (nextVendorCategory b0)) by (split; [cbn; lia|by intros ? ? ?|by intros ? ? ? ?]).
    destruct (addChannels_contents wr order b0 0 W K0 Hn ltac:(cbn; lia)) as (_ & K & C).
    exists (categoryIds (addChannels wr b0 order)). destruct (C H _ (reflexivity _)) as [El Hl]. split; [exact El|]. split; [exact Hl|]. destruct K as [K1 K2 K3]. split; [|exact K3].
    intros name id E. apply K2 in E as [E1 E2]. split; [lia|done].
Qed.

(** ** What the catalog says of a configuration

    Stated of the configuration and the catalog, without the builder's tables. *)

Module Says.
(** The configuration's words and the registry's. *)
Definition packedTypes : list (LayoutKind.t * PackedFieldType.t) :=
  [(LayoutKind.U8, PackedFieldType.u8); (LayoutKind.I8, PackedFieldType.i8); (LayoutKind.U16, PackedFieldType.u16);
   (LayoutKind.I16, PackedFieldType.i16); (LayoutKind.U32, PackedFieldType.u32); (LayoutKind.I32, PackedFieldType.i32);
   (LayoutKind.F32, PackedFieldType.f32); (LayoutKind.Bitfield8, PackedFieldType.bitfield8); (LayoutKind.Str16, PackedFieldType.str16);
   (LayoutKind.Str32, PackedFieldType.str32); (LayoutKind.Str64, PackedFieldType.str64)].

Definition cborTypes : list (SchemaKind.t * CborFieldType.t) :=
  [(SchemaKind.Uint, CborFieldType.uint_t); (SchemaKind.Int, CborFieldType.int_t); (SchemaKind.F32, CborFieldType.f32_t);
   (SchemaKind.Bool, CborFieldType.bool_t); (SchemaKind.Tstr, CborFieldType.tstr_t); (SchemaKind.Bstr, CborFieldType.bstr_t)].

Definition accessLevels : list (AccessKind.t * AccessLevel) :=
  [(AccessKind.Watch, watch); (AccessKind.Control, control); (AccessKind.Configure, configure)].

(** The class, and which way its frames go. *)
Definition classes : list (ClassKind.t * ChannelClass * Direction) :=
  [(ClassKind.State, STATE, h2c); (ClassKind.Intent, INTENT, c2h); (ClassKind.Event, EVENT, h2c); (ClassKind.Stream, STREAM, c2h); (ClassKind.Store, STORE, h2c)].

(** The registered categories, numbered from 1. *)
Definition categories : list bytes :=
  text <$> ["control"; "motion"; "safety"; "limits"; "library"; "playback"; "auxiliary"; "automation"; "tuning"; "hardware"; "network"; "session"; "system"; "other"]%string.

Definition category (cats : gmap bytes Z) (name : bytes) (has : bool) (number : Z) (label : bytes) : Prop :=
  (name = [] /\ has = false /\ label = []) \/
  (has = true /\ label = [] /\ exists n, categories !! n = Some name /\ number = Z.of_nat n + 1) \/
  (has = true /\ label = name /\ name <> [] /\ name ∉ categories /\ cats !! name = Some number).

(** The intent that owns a STATE channel's settings: the first of the
    configuration that writes it. *)
Definition writer (chs : list ChannelConfig.t) (ch w : ChannelConfig.t) : Prop :=
  ChannelConfig.cls ch = ClassKind.State /\
  first_in (fun i => ChannelConfig.cls i = ClassKind.Intent /\ ChannelConfig.hasWrites i = true /\ ChannelConfig.writesChannelId i = ChannelConfig.id ch) chs w.

(** The key of the field of that name in that intent. *)
Definition settingKey (chs : list ChannelConfig.t) (ch : ChannelConfig.t) (f : FieldConfig.t) (k : Z) : Prop :=
  exists w g, writer chs ch w /\ g ∈ ChannelConfig.fields w /\ FieldConfig.name g = FieldConfig.name f /\ k = FieldConfig.key g.

Record entry (cats : gmap bytes Z) (chs : list ChannelConfig.t) (ch : ChannelConfig.t) (e : CatalogEntry.t) : Prop := {
  e_id : CatalogEntry.id e = ChannelConfig.id ch;
  e_name : CatalogEntry.name e = ChannelConfig.name ch;
  e_class : (ChannelConfig.cls ch, CatalogEntry.cls e, CatalogEntry.dir e) ∈ classes;
  e_access : (ChannelConfig.access ch, CatalogEntry.access e) ∈ accessLevels;
  e_rate : CatalogEntry.maxRateHz e = ChannelConfig.rateHz ch;
  e_priority : CatalogEntry.defaultPriority e = normal;
  e_category : category cats (ChannelConfig.category ch) (CatalogEntry.hasCategory e) (CatalogEntry.category e) (CatalogEntry.categoryLabel e);
  e_setting : forall id, CatalogEntry.hasSettingChannel e = true /\ CatalogEntry.settingChannel e = id <->
    exists w, writer chs ch w /\ ChannelConfig.fields w <> [] /\ id = ChannelConfig.id w;
  e_others : CatalogEntry.hasReplayDepth e = false /\ CatalogEntry.hasRank e = false /\ CatalogEntry.streamKind e = 0 }.

Record layoutField (chs : list ChannelConfig.t) (ch : ChannelConfig.t) (f : FieldConfig.t) (lf : LayoutField.t) : Prop := {
  l_name : LayoutField.name lf = FieldConfig.name f;
  l_type : (FieldConfig.layoutType f, LayoutField.type lf) ∈ packedTypes;
  l_unit : LayoutField.unit lf = FieldConfig.unit f;
  l_scale : LayoutField.scale lf = 0x3F800000;
  l_min : LayoutField.hasMin lf = FieldConfig.hasMin f /\ LayoutField.min lf = FieldConfig.min f;
  l_max : LayoutField.hasMax lf = FieldConfig.hasMax f /\ LayoutField.max lf = FieldConfig.max f;
  l_default : LayoutField.dflt lf =
    if bool_decide (FieldConfig.hasDefault f = true /\ FieldConfig.layoutType f ∉ [LayoutKind.Bitfield8; LayoutKind.Str16; LayoutKind.Str32; LayoutKind.Str64])
    then DFloat (FieldConfig.defaultValue f) else DNone;
  l_setting : forall k, LayoutField.hasSettingKey lf = true /\ LayoutField.settingKey lf = k <-> settingKey chs ch f k;
  l_others : LayoutField.bits lf = LabelRef.none /\ LayoutField.options lf = LabelRef.none /\ LayoutField.group lf = [] /\ LayoutField.desc lf = [] /\
    LayoutField.role lf = [] /\ LayoutField.flags lf = 0 /\ LayoutField.hasStep lf = false /\ LayoutField.hasRank lf = false /\
    LayoutField.hasAspect lf = false /\ LayoutField.hasScope lf = false /\ LayoutField.hasProvenance lf = false /\ LayoutField.hasUnitId lf = false }.

Record schemaField (f : FieldConfig.t) (sf : SchemaField.t) : Prop := {
  s_key : SchemaField.key sf = FieldConfig.key f;
  s_name : SchemaField.name sf = FieldConfig.name f;
  s_type : (FieldConfig.schemaType f, SchemaField.type sf) ∈ cborTypes;
  s_unit : SchemaField.unit sf = FieldConfig.unit f;
  s_min : SchemaField.hasMin sf = FieldConfig.hasMin f /\ SchemaField.min sf = FieldConfig.min f;
  s_max : SchemaField.hasMax sf = FieldConfig.hasMax f /\ SchemaField.max sf = FieldConfig.max f;
  s_nodefault : FieldConfig.hasDefault f = false -> SchemaField.dflt sf = DNone;
  s_bool : FieldConfig.hasDefault f = true -> FieldConfig.schemaType f = SchemaKind.Bool ->
    exists b, SchemaField.dflt sf = DBool b /\ (b = false <-> Float32.of_bits (FieldConfig.defaultValue f) ∈ [S754_zero false; S754_zero true]);
  s_number : FieldConfig.hasDefault f = true -> FieldConfig.schemaType f <> SchemaKind.Bool -> SchemaField.dflt sf = DFloat (FieldConfig.defaultValue f);
  s_access : SchemaField.hasAccess sf = false /\ SchemaField.hasOptionAccess sf = false;
  s_others : SchemaField.options sf = LabelRef.none /\ SchemaField.group sf = [] /\ SchemaField.desc sf = [] /\ SchemaField.role sf = [] /\
    SchemaField.flags sf = 0 /\ SchemaField.hasStep sf = false /\ SchemaField.hasRank sf = false /\ SchemaField.hasAspect sf = false /\
    SchemaField.hasScope sf = false /\ SchemaField.hasProvenance sf = false /\ SchemaField.hasUnitId sf = false }.

(** A channel's entry and its fields, or its store's descriptor. *)
Definition channel (cats : gmap bytes Z) (chs : list ChannelConfig.t) (storeId : Z) (ch : ChannelConfig.t) (x : CatalogEntry.t * Payload) : Prop :=
  entry cats chs ch x.1 /\
  match ChannelConfig.cls ch with
  | ClassKind.State | ClassKind.Stream =>
      exists lfs, x.2 = PLayout ((fun lf => (lf, [], [])) <$> lfs) /\ Forall2 (layoutField chs ch) (ChannelConfig.fields ch) lfs
  | ClassKind.Intent | ClassKind.Event =>
      exists sfs, x.2 = PSchema ((fun sf => (sf, [], [])) <$> sfs) /\ Forall2 schemaField (ChannelConfig.fields ch) sfs
  | ClassKind.Store => exists d, x.2 = PStore (Some d) /\ StoreDescriptor.storeId d = storeId /\ StoreDescriptor.kind d = ChannelConfig.storeKind ch /\
      StoreDescriptor.capacity d = ChannelConfig.storeCapacity ch /\ StoreDescriptor.perItemMax d = ChannelConfig.storePerItemMax ch /\
      StoreDescriptor.nameMax d = ChannelConfig.storeNameMax ch
  end.
End Says.

(** *** The builder's tables *)

Lemma writersOf_lookup chs id : writersOf chs !! id =
  head (filter (fun i => ChannelConfig.cls i = ClassKind.Intent /\ ChannelConfig.hasWrites i = true /\ ChannelConfig.writesChannelId i = id) chs).
Proof.
  induction chs as [|ch chs IH] using rev_ind; [done|]. unfold writersOf in *. rewrite foldl_app, filter_app. cbn [foldl]. set (m := foldl _ ∅ chs) in *.
  rewrite filter_cons. case_bool_decide as Hc; cbn [andb].
  2: { rewrite decide_False by (by intros (? & _)). by rewrite app_nil_r, IH. }
  destruct (ChannelConfig.hasWrites ch) eqn:Hw.
  2: { rewrite decide_False by (by intros (_ & ? & _)). by rewrite app_nil_r, IH. }
  destruct (decide (ChannelConfig.writesChannelId ch = id)) as [<-|Hne].
  - rewrite decide_True by done. destruct (m !! ChannelConfig.writesChannelId ch) as [w|] eqn:E.
    + rewrite E in *. destruct (filter _ chs); [done|]. exact IH.
    + rewrite lookup_insert_eq. by destruct (filter _ chs).
  - rewrite decide_False by (by intros (_ & _ & ?)). rewrite app_nil_r, <- IH. destruct (m !! ChannelConfig.writesChannelId ch); [done|].
    by rewrite lookup_insert_ne.
Qed.

Lemma keysByName_lookup fs n k : NoDup (FieldConfig.name <$> fs) ->
  keysByName fs !! n = Some k <-> exists g, g ∈ fs /\ FieldConfig.name g = n /\ k = FieldConfig.key g.
Proof.
  unfold keysByName. induction fs as [|f fs IH] using rev_ind; [intros _; split; [done|by intros (? & ?%elem_of_nil & _)]|].
  rewrite fmap_app, foldl_app. cbn [foldl]. intros (N & D & _)%NoDup_app. specialize (IH N). rewrite lookup_insert_Some, IH. split.
  - intros [[<- <-]|[Hne (g & Hg & E & Ek)]]; [exists f|exists g]; rewrite elem_of_app, list_elem_of_singleton; auto.
  - intros (g & [Hg| ->%list_elem_of_singleton]%elem_of_app & E & ->); [|by left]. right. split; [|by exists g].
    intros E'. apply (D (FieldConfig.name g)); [by apply list_elem_of_fmap_2|]. rewrite E, <- E'. by left.
Qed.

Lemma keysByName_empty fs : keysByName fs = ∅ <-> fs = [].
Proof.
  split; [|by intros ->]. destruct fs as [|f fs] using rev_ind; [done|]. unfold keysByName. rewrite foldl_app. cbn [foldl].
  intros E. by apply insert_non_empty in E.
Qed.

(** What [addConfigChannel] is told: the writer, when it has fields, and their keys. *)
Lemma writerOf_says chs ch : Forall channel_ok chs ->
  let '(w, ks) := writerOf (writersOf chs) ch in
  (forall id, (exists m, ks = Some m) /\ w = id <-> exists i, Says.writer chs ch i /\ ChannelConfig.fields i <> [] /\ id = ChannelConfig.id i) /\
  (forall f k, ks ≫= (.!! FieldConfig.name f) = Some k <-> Says.settingKey chs ch f k).
Proof.
  intros V. unfold writerOf, Says.settingKey, Says.writer. case_bool_decide as C.
  2: { split; [intros id; split; [by intros [[? ?] _]|by intros (? & [? _] & _)]|intros f k; split; [done|by intros (? & ? & [? _] & _)]]. }
  rewrite writersOf_lookup. destruct (head _) as [i|] eqn:Eh.
  - apply first_in_filter in Eh. cbv zeta. assert (channel_ok i) as Hi by (apply first_in_elem in Eh as [Eh _]; by apply (proj1 (Forall_forall _ _) V)). split.
    + intros id. case_bool_decide as K; rewrite keysByName_empty in K.
      * split; [by intros [[? ?] _]|]. intros (j & [_ Hj] & Hne & _). by rewrite (first_in_unique _ _ _ _ Hj Eh), K in Hne.
      * split; [intros [_ <-]; by exists i|]. intros (j & [_ Hj] & _ & ->). rewrite (first_in_unique _ _ _ _ Hj Eh). split; [by eexists|done].
    + intros f k. transitivity (keysByName (ChannelConfig.fields i) !! FieldConfig.name f = Some k).
      { case_bool_decide as K; [rewrite K; done|done]. }
      rewrite (keysByName_lookup _ _ _ (co_names _ Hi)). split; [intros (g & ? & ? & ?); by exists i, g|].
      intros (j & g & [_ Hj] & Hg & ? & ?). rewrite (first_in_unique _ _ _ _ Hj Eh) in Hg. by exists g.
  - assert (forall i, first_in (fun i => ChannelConfig.cls i = ClassKind.Intent /\ ChannelConfig.hasWrites i = true /\ ChannelConfig.writesChannelId i = ChannelConfig.id ch) chs i -> False) as No.
    { intros i Hi. eapply first_in_filter in Hi. by rewrite Eh in Hi. }
    split; [intros id; split; [by intros [[? ?] _]|by intros (? & [_ ?%No] & _)]|intros f k; split; [done|by intros (? & ? & [_ ?%No] & _)]].
Qed.

Lemma categories_named name id : named kNamed name = Some id <-> exists n, Says.categories !! n = Some name /\ id = Z.of_nat n + 1.
Proof.
  split.
  - intros H. pose proof H as Hid%kNamed_small. exists (Z.to_nat (id - 1)). split; [|lia]. revert H. unfold named.
    destruct (head _) as [x|] eqn:E; [|done]. intros [= <-]. apply first_in_filter, first_in_elem in E as [E <-]. unfold kNamed in E.
    repeat (apply elem_of_cons in E as [->|E]; [reflexivity|]). by apply elem_of_nil in E.
  - intros (n & Hn & ->). do 14 (destruct n as [|n]; [injection Hn as <-; reflexivity|]). done.
Qed.

Lemma categories_unnamed name : named kNamed name = None <-> name ∉ Says.categories.
Proof.
  destruct (named kNamed name) as [id|] eqn:E.
  - split; [done|]. apply categories_named in E as (n & Hn & _). apply list_elem_of_lookup_2 in Hn. done.
  - split; [|done]. intros _ (n & Hn)%list_elem_of_lookup. assert (named kNamed name = Some (Z.of_nat n + 1)) by (apply categories_named; by exists n). congruence.
Qed.

(** *** What the builder writes says what the configuration says *)

Lemma titled_says cats ch : labelled cats ch ->
  let e := titled cats ch in
  Says.category cats (ChannelConfig.category ch) (CatalogEntry.hasCategory e) (CatalogEntry.category e) (CatalogEntry.categoryLabel e).
Proof.
  intros Hin. unfold labelled in Hin. unfold titled, Says.category. destruct (ChannelConfig.category ch) as [|x xs] eqn:Ec; [by left|]. set (name := x :: xs) in *. right.
  cbn [CatalogEntry.hasCategory CatalogEntry.category CatalogEntry.categoryLabel].
  unfold categoryOf. destruct (named kNamed name) as [id|] eqn:En; [left|right].
  - split; [done|]. split; [done|]. by apply categories_named.
  - split; [done|]. split; [done|]. split; [done|]. split; [by apply categories_unnamed|].
    destruct (Hin ltac:(done) eq_refl) as [id E]. by rewrite E.
Qed.

Lemma class_says k : (k, toChannelClass k, defaultDirectionFor k) ∈ Says.classes.
Proof. destruct k; apply (bool_decide_unpack (_ ∈ _)); vm_compute; exact I. Qed.

Lemma access_says k : (k, toAccessLevel k) ∈ Says.accessLevels.
Proof. unfold Says.accessLevels. rewrite !elem_of_cons. destruct k; auto. Qed.

Lemma titled_header cats ch :
  let e := titled cats ch in
  CatalogEntry.id e = ChannelConfig.id ch /\ CatalogEntry.name e = ChannelConfig.name ch /\
  CatalogEntry.cls e = toChannelClass (ChannelConfig.cls ch) /\ CatalogEntry.dir e = defaultDirectionFor (ChannelConfig.cls ch) /\
  CatalogEntry.access e = toAccessLevel (ChannelConfig.access ch) /\ CatalogEntry.maxRateHz e = ChannelConfig.rateHz ch /\
  CatalogEntry.defaultPriority e = normal /\ CatalogEntry.hasSettingChannel e = false /\
  CatalogEntry.hasReplayDepth e = false /\ CatalogEntry.hasRank e = false /\ CatalogEntry.streamKind e = 0.
Proof. unfold titled. destruct (ChannelConfig.category ch); done. Qed.

Lemma entry_says cats chs ch w ks : labelled cats ch ->
  (forall id, (exists m, ks = Some m) /\ w = id <-> exists i, Says.writer chs ch i /\ ChannelConfig.fields i <> [] /\ id = ChannelConfig.id i) ->
  Says.entry cats chs ch (withWriter w ks (titled cats ch)).
Proof.
  intros L Hw. pose proof (titled_says cats ch L) as Hc. pose proof (titled_header cats ch) as H. cbv zeta in *. set (e := titled cats ch) in *.
  destruct H as (H1 & H2 & H3 & H4 & H5 & H6 & H7 & H8 & H9 & H10 & H11).
  pose proof (class_says (ChannelConfig.cls ch)) as Hk. rewrite <- H3, <- H4 in Hk.
  pose proof (access_says (ChannelConfig.access ch)) as Ha. rewrite <- H5 in Ha.
  destruct ks as [m|]; cbn [withWriter]; split; try done; intros id; rewrite <- Hw.
  - change (true = true /\ w = id <-> (exists m0, Some m = Some m0) /\ w = id). split; intros [_ ?]; by eauto.
  - rewrite H8. split; [by intros [? _]|by intros [[? ?] _]].
Qed.

Lemma packedType_says k : (k, toPackedType k) ∈ Says.packedTypes.
Proof. destruct k; apply (bool_decide_unpack (_ ∈ _)); vm_compute; exact I. Qed.

Lemma cborType_says k : (k, toCborType k) ∈ Says.cborTypes.
Proof. unfold Says.cborTypes. rewrite !elem_of_cons. destruct k; auto 10. Qed.

Lemma layoutField_says chs ch ks f : (forall k, ks ≫= (.!! FieldConfig.name f) = Some k <-> Says.settingKey chs ch f k) ->
  Says.layoutField chs ch f (configLayoutField ks f).
Proof.
  intros Hk. unfold configLayoutField. pose proof (packedType_says (FieldConfig.layoutType f)) as Ht.
  assert (FieldConfig.hasDefault f && FieldConfig.isNumericLayout f =
          bool_decide (FieldConfig.hasDefault f = true /\ FieldConfig.layoutType f ∉ [LayoutKind.Bitfield8; LayoutKind.Str16; LayoutKind.Str32; LayoutKind.Str64])) as ->.
  { destruct f as [? lt ? ? ? ? ? ? [] ? ? ? ? ? ? ?]; destruct lt; vm_compute; reflexivity. }
  cbv zeta. destruct (ks ≫= _) as [k0|]; case_bool_decide as Hd; split; try done; try (by rewrite bool_decide_true); try (by rewrite bool_decide_false); intros k; rewrite <- Hk; cbn; naive_solver.
Qed.

Lemma zero_says x : Float32.eq x Float32.zero = true <-> x ∈ [S754_zero false; S754_zero true].
Proof. rewrite !elem_of_cons, elem_of_nil. destruct x as [[]|[]| |[] m e]; vm_compute; split; intros H; try done; auto; by destruct H as [|[|]]. Qed.

Lemma schemaField_says f : Says.schemaField f (configSchemaField f).
Proof.
  unfold configSchemaField. pose proof (cborType_says (FieldConfig.schemaType f)) as Ht. cbv zeta.
  destruct (FieldConfig.hasDefault f) eqn:Hd; (split; try done); try congruence; intros _ Hb.
  - rewrite (bool_decide_true _ Hb). eexists. split; [reflexivity|]. rewrite negb_false_iff. apply zero_says.
  - by rewrite (bool_decide_false _ Hb).
Qed.

(** The names of the vendor categories the channel needs are known. *)
Lemma written_says chs ch cats storeId : Forall channel_ok chs -> labelled cats ch ->
  Says.channel cats chs storeId ch (written cats (writersOf chs) storeId ch).
Proof.
  intros V L. unfold written. pose proof (writerOf_says chs ch V) as Hw. pose proof (writerOf_keys (writersOf chs) ch) as Hk.
  destruct (writerOf (writersOf chs) ch) as [w ks]. destruct Hw as [Hw Hf], Hk as [_ Hk]. split; cbn [fst snd].
  - apply entry_says; done.
  - unfold channelPayload. destruct (ChannelConfig.cls ch) eqn:Ec.
    1, 4: exists (configLayoutField ks <$> ChannelConfig.fields ch); split; [by rewrite <- list_fmap_compose|];
      apply Forall2_fmap_r, Forall_Forall2_diag, Forall_true; intros f; by apply layoutField_says.
    1, 2: exists (configSchemaField <$> ChannelConfig.fields ch); split; [by rewrite <- list_fmap_compose|];
      apply Forall2_fmap_r, Forall_Forall2_diag, Forall_true; intros f; apply schemaField_says.
    eexists. split; [reflexivity|done].
Qed.

(** C21. The catalog of a valid configuration. Whatever was in [c] before, [buildCatalogInto]
    leaves a well-formed catalog whose ids ascend strictly, so that the encoder accepts it.
    If its overflow flag is clear it says exactly what the configuration says: after the
    built-in channels 3 to 14, every channel of the configuration once, in the order of the
    ids. An entry has the channel's id, name, class and direction, access, rate and category
    (the registry's number, or one from 0x40 on that no other name has, with the name as
    label); its fields are the channel's, in their order, each with its name, type, unit,
    bounds and default (and, in a schema, its key). A STATE channel names as its setting
    channel the first intent of the configuration that writes it, when that has fields, and
    a field has a setting key exactly when that intent has a field of its name, and then
    that field's key. The stores are numbered from 2 in the order of the ids. *)
Theorem bench_catalog_built (cfg : HubConfig.t) (c : BasicCatalog) : config_valid cfg ->
  let cat := buildCatalogInto c cfg in
  let chs := HubConfig.channels cfg in
  wf cat /\ idsAscend (entries cat) = true /\
  (ok cat = true -> exists cats order served,
     contents cat = contents core ++ served /\ (CatalogEntry.id <$> entries core) = seqZ 3 12 /\
     order ≡ₚ chs /\ StronglySorted Z.lt (ChannelConfig.id <$> order) /\ length served = length order /\
     (forall i ch x, order !! i = Some ch -> served !! i = Some x ->
        let stores := filter (fun ch => ChannelConfig.cls ch = ClassKind.Store) (take i order) in
        Says.channel cats chs (2 + Z.of_nat (length stores)) ch x) /\
     (forall name id, cats !! name = Some id -> 0x40 <= id <= 0xFF /\ name ∉ Says.categories) /\
     (forall a b id, cats !! a = Some id -> cats !! b = Some id -> a = b)).
Proof.
  intros V. destruct core_facts as (Eb & W & N & S & F & O). unfold buildCatalogInto, buildCatalog. change (Catalog.clear c) with emptyCatalog. rewrite Eb.
  destruct (channels_served core cfg W N S F V) as (W' & A & C). split; [exact W'|]. split; [exact A|]. intros H. destruct (C H) as (cats & E & L & K1 & K2). cbv zeta in *.
  set (order := merge_sort byId (HubConfig.channels cfg)) in *. exists cats, order. eexists. split; [exact E|]. split_and!.
  - exact core_ids.
  - apply merge_sort_Permutation.
  - apply channels_sorted, V.
  - apply length_imap.
  - intros i ch x Hi Hx. rewrite list_lookup_imap, Hi in Hx. injection Hx as <-. apply written_says; [apply V|].
    apply (proj1 (Forall_forall _ _) L). by eapply list_elem_of_lookup_2.
  - intros name id Hn. apply K1 in Hn as [? ?]. split; [done|]. by apply categories_unnamed.
  - exact K2.
Qed.

(** A configuration with two intents that write the same STATE channel and two stores. *)
Definition written_file : bytes := text "state 0x1000 axis
  category rig
  field pos f32 mm 0 100
  field vel f32 mm/s
intent 0x3001 first
  writes 0x1000
  field pos f32 mm key=5
intent 0x3000 second
  writes 0x1000
  field vel f32 mm/s key=9
store 0x4001 b
store 0x4000 a
".

Definition written_config : HubConfig.t := match loadConfigFile 0xFFFFFFFFFFFFFFFF [] (Some written_file) with Ok cfg => cfg | Err _ => HubConfig.init end.

Lemma written_valid : config_valid written_config.
Proof.
  pose proof (load_gives 0xFFFFFFFFFFFFFFFF [] written_file) as H.
  assert (E : loadConfigFile 0xFFFFFFFFFFFFFFFF [] (Some written_file) = Ok written_config) by (vm_compute; reflexivity). rewrite E in H. apply H.
Qed.

(** The intent declared first is the one with the larger id. *)
Lemma bench_catalog_built_witness :
  let cat := buildCatalogInto emptyCatalog written_config in
  wf cat /\ ok cat = true /\
  (exists cats order served, contents cat = contents core ++ served /\ length served = 5%nat /\
     forall i ch x, order !! i = Some ch -> served !! i = Some x ->
       Says.channel cats (HubConfig.channels written_config) (2 + Z.of_nat (storeCount (take i order))) ch x) /\
  ((fun x => (CatalogEntry.id x.1, CatalogEntry.hasSettingChannel x.1, CatalogEntry.settingChannel x.1)) <$> drop 12 (contents cat))
  = [(0x1000, true, 0x3001); (0x3000, false, 0); (0x3001, false, 0); (0x4000, false, 0); (0x4001, false, 0)].
Proof.
  destruct (bench_catalog_built written_config emptyCatalog written_valid) as (W & _ & C). split; [exact W|].
  assert (O : ok (buildCatalogInto emptyCatalog written_config) = true) by (vm_compute; reflexivity). split; [exact O|]. split; [|vm_compute; reflexivity].
  destruct (C O) as (cats & order & served & E & _ & P & _ & L & S & _). exists cats, order, served. split; [exact E|]. split; [|exact S].
  rewrite L, P. vm_compute. reflexivity.
Defined.

(** The configuration of [tiny_axis]. *)
Definition tiny_config : HubConfig.t := match loadConfigFile 0xFFFFFFFFFFFFFFFF [] (Some tiny_axis) with Ok cfg => cfg | Err _ => HubConfig.init end.

Lemma tiny_valid : config_valid tiny_config.
Proof.
  pose proof (load_gives 0xFFFFFFFFFFFFFFFF [] tiny_axis) as H.
  assert (E : loadConfigFile 0xFFFFFFFFFFFFFFFF [] (Some tiny_axis) = Ok tiny_config) by (vm_compute; reflexivity). rewrite E in H. apply H.
Qed.
