(* ===== verification/BenchRuntime.v ===== *)
(** * BenchRuntime: what the bench hub keeps behind its channels

    hub/slopbench/src/hub/BenchHub.{h,cpp}, the members besides the hub and the port:
    the values of the STATE channels, the links from the fields of an INTENT to the
    fields of the STATE it writes, the mirrors that wait for their echo delay, the
    animations and the log of writes. A [float] is its bit pattern. [oob] is what
    [llround] and [lround] return for a value out of range, and [sin] the one of the
    C library. What the code would leave undefined, the conversion of a number out of
    range to [unsigned], is [None]. *)

From Stdlib Require Import String.
From stdpp Require Import gmap.
From S2P Require Import Prelude Registry Float ByteIO Serial Messages Codec Catalog Layout Builtin CText BenchConfig BenchCatalog.
Local Open Scope Z_scope.

(** ** The tables *)

Module StateRuntime.
Record t := mk { cfg : ChannelConfig.t; values : list Z; strValues : list bytes; dirty : bool }.
End StateRuntime.

Module IntentFieldLink.
Record t := mk {
  key : Z; numeric : bool; hasMin : bool; hasMax : bool; min : Z; max : Z; hasTarget : bool; targetStateId : Z;
  targetFieldIndex : nat; targetIsString : bool }.
Definition init : t := mk 0 false false false 0 0 false 0 0 false.
End IntentFieldLink.

Module IntentRuntime.
Record t := mk { cfg : ChannelConfig.t; echoDelayMs : Z; fields : list IntentFieldLink.t }.
End IntentRuntime.

Module PendingMirror.
Record t := mk { stateId : Z; fieldIndex : nat; isString : bool; value : Z; strValue : bytes; dueMs : Z }.
End PendingMirror.

Module WriteLogEntry.
Record t := mk { atMs : Z; channelName : bytes; summary : bytes }.
End WriteLogEntry.

Module Runtime.
Record t := mk {
  startMs : Z; states : list StateRuntime.t; intents : list IntentRuntime.t; pending : list PendingMirror.t;
  writeLog : list WriteLogEntry.t }.
End Runtime.

(** A field of the display is its name and its text. *)
Module StateSnapshot.
Record t := mk { id : Z; name : bytes; fields : list (bytes * bytes) }.
End StateSnapshot.

Definition findState (id : Z) (l : list StateRuntime.t) : option nat := find_index (fun s => ChannelConfig.id (StateRuntime.cfg s) =? id) l.

Definition findIntent (id : Z) (l : list IntentRuntime.t) : option IntentRuntime.t :=
  head (filter (fun r => ChannelConfig.id (IntentRuntime.cfg r) = id) l).

(** ** Building them *)

Definition startState (ch : ChannelConfig.t) : StateRuntime.t :=
  StateRuntime.mk ch ((fun f => if FieldConfig.hasDefault f then FieldConfig.defaultValue f else 0) <$> ChannelConfig.fields ch)
    (replicate (length (ChannelConfig.fields ch)) []) false.

(** A field of the intent and, if it has the name of one, the field it writes. *)
Definition linkField (target : option ChannelConfig.t) (f : FieldConfig.t) : IntentFieldLink.t :=
  let link := IntentFieldLink.init{{IntentFieldLink.key := FieldConfig.key f; IntentFieldLink.numeric := FieldConfig.isNumericSchema f;
    IntentFieldLink.hasMin := FieldConfig.hasMin f; IntentFieldLink.hasMax := FieldConfig.hasMax f;
    IntentFieldLink.min := FieldConfig.min f; IntentFieldLink.max := FieldConfig.max f}} in
  match target with
  | None => link
  | Some st =>
      match find_index (fun g => bool_decide (FieldConfig.name g = FieldConfig.name f)) (ChannelConfig.fields st) with
      | Some i => link{{IntentFieldLink.hasTarget := true; IntentFieldLink.targetStateId := ChannelConfig.id st;
                        IntentFieldLink.targetFieldIndex := i;
                        IntentFieldLink.targetIsString := default false (FieldConfig.isStringLayout <$> ChannelConfig.fields st !! i)}}
      | None => link
      end
  end.

Definition startIntent (cfg : HubConfig.t) (states : list StateRuntime.t) (ch : ChannelConfig.t) : IntentRuntime.t :=
  let target := if ChannelConfig.hasWrites ch
                then findState (ChannelConfig.writesChannelId ch) states ≫= fun i => StateRuntime.cfg <$> states !! i else None in
  IntentRuntime.mk ch (if ChannelConfig.hasEchoDelay ch then ChannelConfig.echoDelayMs ch else HubConfig.echoDelayMs cfg)
    (linkField target <$> ChannelConfig.fields ch).

Definition ofClass (k : ClassKind.t) (cfg : HubConfig.t) : list ChannelConfig.t := filter (fun ch => ChannelConfig.cls ch = k) (HubConfig.channels cfg).

Definition buildRuntime (cfg : HubConfig.t) : list StateRuntime.t * list IntentRuntime.t :=
  let states := startState <$> ofClass ClassKind.State cfg in (states, startIntent cfg states <$> ofClass ClassKind.Intent cfg).

(** The members once the constructor has built them. *)
Definition startRuntime (cfg : HubConfig.t) (startMs : Z) : Runtime.t :=
  Runtime.mk startMs (fst (buildRuntime cfg)) (snd (buildRuntime cfg)) [] [].

Section numbers.
Context (oob : spec_float -> Z) (sin : Float32.t -> Float32.t).

(** ** Publishing *)

Definition wireField (f : FieldConfig.t) : LayoutField.t :=
  LayoutField.init{{LayoutField.type := toPackedType (FieldConfig.layoutType f); LayoutField.scale := f_1}}.

(** One pass of the loop; a field that does not fit ends it. *)
Fixpoint packStates (fs : list FieldConfig.t) (vs : list Z) (ss : list bytes) (offset : nat) (buf : bytes) : nat * bytes :=
  match fs, vs, ss with
  | f :: fs, v :: vs, s :: ss =>
      let lf := wireField f in
      let n := LayoutField.wireSize lf in
      if (length buf <? offset + n)%nat then (offset, buf)
      else
        let '(_, buf) := on_subn offset n (fun out => if FieldConfig.isStringLayout f then packStringField lf s out
                                                      else packField oob lf (Float32.of_bits v) out) buf in
        packStates fs vs ss (offset + n) buf
  | _, _, _ => (offset, buf)
  end.

(** The span that is published. *)
Definition snapshot (sr : StateRuntime.t) : bytes :=
  let '(n, buf) := packStates (ChannelConfig.fields (StateRuntime.cfg sr)) (StateRuntime.values sr) (StateRuntime.strValues sr) 0
                     (replicate limits.min_transport_payload 0) in take n buf.

(** [sr.dirty = false] after the snapshot is published. *)
Definition published (k : nat) (r : Runtime.t) : Runtime.t := r{{Runtime.states := alter (fun sr => sr{{StateRuntime.dirty := false}}) k (Runtime.states r)}}.

(** ** Animations *)

Definition f_2 : Float32.t := Float32.of_Z 2.
Definition pi : Float32.t := Float32.of_bits 0x40490FDB.
Definition half : Float32.t := Float32.of_bits 0x3F000000.

Definition animated (t : Float32.t) (f : FieldConfig.t) (v : Z) : Z :=
  let a := Float32.of_bits (FieldConfig.animA f) in
  let b := Float32.of_bits (FieldConfig.animB f) in
  let hz := Float32.of_bits (FieldConfig.animHz f) in
  match FieldConfig.anim f with
  | AnimKind.None => v
  | AnimKind.Sine => Float32.to_bits (Float32.add b (Float32.mul a (sin (Float32.mul (Float32.mul (Float32.mul f_2 pi) hz) t))))
  | AnimKind.Ramp =>
      let one := Float32.of_Z 1 in
      let period := if Float32.lt Float32.zero hz then Float32.div one hz else one in
      let phase := Float32.div (fmod t period) period in
      let phase := if Float32.lt phase Float32.zero then Float32.add phase one else phase in
      let tri := if Float32.lt phase half then Float32.mul phase f_2 else Float32.sub f_2 (Float32.mul phase f_2) in
      Float32.to_bits (Float32.add a (Float32.mul (Float32.sub b a) tri))
  end.

Definition isAnimated (f : FieldConfig.t) : bool := negb (bool_decide (FieldConfig.anim f = AnimKind.None)).

Definition animateState (t : Float32.t) (sr : StateRuntime.t) : StateRuntime.t :=
  let fs := ChannelConfig.fields (StateRuntime.cfg sr) in
  let sr' := sr{{StateRuntime.values := zip_with (animated t) fs (StateRuntime.values sr)}} in
  if existsb isAnimated fs then sr'{{StateRuntime.dirty := true}} else sr'.

Definition tickAnimations (nowMs : Z) (r : Runtime.t) : Runtime.t :=
  let t := Float32.div (Float32.of_Z (u32 (nowMs - Runtime.startMs r))) (Float32.of_Z 1000) in
  r{{Runtime.states := animateState t <$> Runtime.states r}}.

(** ** Mirrors *)

Definition waits (nowMs : Z) (pm : PendingMirror.t) : bool := i32 (nowMs - PendingMirror.dueMs pm) <? 0.

Definition landOn (pm : PendingMirror.t) (sr : StateRuntime.t) : StateRuntime.t :=
  let i := PendingMirror.fieldIndex pm in
  if (i <? length (StateRuntime.values sr))%nat then
    if PendingMirror.isString pm then sr{{StateRuntime.strValues := <[i := PendingMirror.strValue pm]> (StateRuntime.strValues sr); StateRuntime.dirty := true}}
    else sr{{StateRuntime.values := <[i := PendingMirror.value pm]> (StateRuntime.values sr); StateRuntime.dirty := true}}
  else sr.

Definition land (l : list StateRuntime.t) (pm : PendingMirror.t) : list StateRuntime.t :=
  match findState (PendingMirror.stateId pm) l with Some k => alter (landOn pm) k l | None => l end.

(** The first loop of [tickPendingMirrors]; the second publishes the dirty channels. *)
Definition landMirrors (nowMs : Z) (r : Runtime.t) : Runtime.t :=
  r{{Runtime.states := foldl land (Runtime.states r) (List.filter (fun pm => negb (waits nowMs pm)) (Runtime.pending r));
     Runtime.pending := List.filter (waits nowMs) (Runtime.pending r)}}.

(** ** Writes *)

Definition numericValueOf (v : IntentValue) : Z * bool :=
  match v with
  | F32 b => (b, true)
  | U64 n | I64 n => (Float32.to_bits (Float32.of_Z n), true)
  | _ => (0, false)
  end.

Definition withNumericValue (v : IntentValue) (physical : Z) : IntentValue :=
  let x := Float32.of_bits physical in
  match v with
  | F32 _ => F32 physical
  | U64 _ => U64 (if Float32.le Float32.zero x then u64 (llround oob (Float64.of_float x)) else 0)
  | I64 _ => I64 (i64 (llround oob (Float64.of_float x)))
  | v => v
  end.

Definition clamp (link : IntentFieldLink.t) (physical : Z) : Z :=
  let physical := if IntentFieldLink.hasMin link && Float32.lt (Float32.of_bits physical) (Float32.of_bits (IntentFieldLink.min link))
                  then IntentFieldLink.min link else physical in
  if IntentFieldLink.hasMax link && Float32.lt (Float32.of_bits (IntentFieldLink.max link)) (Float32.of_bits physical)
  then IntentFieldLink.max link else physical.

(** [snprintf(buf, 80, ...)] *)
Definition fieldSummary (key before physical : Z) : bytes :=
  let head := text "key" ++ to_string key ++ text "=" ++ fixed3 (Float32.of_bits physical) in
  take 79 (if negb (Float32.eq (Float32.of_bits physical) (Float32.of_bits before))
           then head ++ text "(clamped from " ++ fixed3 (Float32.of_bits before) ++ text ")" else head).

Definition joinSummary (summary part : bytes) : bytes := (if bool_decide (summary = []) then [] else summary ++ text ", ") ++ part.

Definition linkOf (key : Z) (rt : IntentRuntime.t) : option IntentFieldLink.t := head (filter (fun l => IntentFieldLink.key l = key) (IntentRuntime.fields rt)).

(** The value that is echoed, [physical] with [wasNumeric], and the summary. *)
Definition applyValue (link : option IntentFieldLink.t) (rf : IntentValueField) (summary : bytes) : IntentValue * (Z * bool) * bytes :=
  let v := f_value rf in
  if match link with Some l => IntentFieldLink.numeric l | None => false end then
    let '(before, wasNumeric) := numericValueOf v in
    match link with
    | Some l =>
        if wasNumeric then
          let physical := clamp l before in
          (withNumericValue v physical, (physical, true), joinSummary summary (fieldSummary (f_key rf) before physical))
        else (v, (0, false), summary)
    | None => (v, (0, false), summary)
    end
  else
    (v, (0, false),
     match v with Tstr s => joinSummary summary (text "key" ++ to_string (f_key rf) ++ text "=" ++ [34] ++ s ++ [34]) | _ => summary end).

Definition mirrorOf (link : option IntentFieldLink.t) (v : IntentValue) (physical : Z * bool) (dueMs : Z) : list PendingMirror.t :=
  match link with
  | Some l =>
      if IntentFieldLink.hasTarget l then
        let number := if physical.2 then physical.1 else 0 in
        let '(value, str) := match IntentFieldLink.targetIsString l, v with true, Tstr s => (0, s) | _, _ => (number, []) end in
        [PendingMirror.mk (IntentFieldLink.targetStateId l) (IntentFieldLink.targetFieldIndex l) (IntentFieldLink.targetIsString l) value str dueMs]
      else []
  | None => []
  end.

Fixpoint applyFields (rt : IntentRuntime.t) (dueMs : Z) (requested : list IntentValueField) (summary : bytes) :
    list IntentValueField * list PendingMirror.t * bytes :=
  match requested with
  | [] => ([], [], summary)
  | rf :: rest =>
      let link := linkOf (f_key rf) rt in
      let '(v, physical, summary) := applyValue link rf summary in
      let '(applied, mirrors, summary) := applyFields rt dueMs rest summary in
      (mkField (f_key rf) v :: applied, mirrorOf link v physical dueMs ++ mirrors, summary)
  end.

Definition kWriteLogCapacity : nat := 64.

Definition logWrite (channelName summary : bytes) (nowMs : Z) (r : Runtime.t) : Runtime.t :=
  let l := Runtime.writeLog r ++ [WriteLogEntry.mk nowMs channelName summary] in
  r{{Runtime.writeLog := if (kWriteLogCapacity <? length l)%nat then tail l else l}}.

(** [cfgChanged] is always cleared. *)
Definition applyIntent (channel_id : Z) (requested : list IntentValueField) (nowMs : Z) (r : Runtime.t) : Result (list IntentValueField) Z * Runtime.t :=
  match findIntent channel_id (Runtime.intents r) with
  | None => (Err NackCode.UNKNOWN_CHANNEL, r)
  | Some rt =>
      let '(applied, mirrors, summary) := applyFields rt (u32 (nowMs + IntentRuntime.echoDelayMs rt)) (take kIntentMaxValueFields requested) [] in
      let r := r{{Runtime.pending := Runtime.pending r ++ mirrors}} in
      (Ok applied, logWrite (ChannelConfig.name (IntentRuntime.cfg rt)) (if bool_decide (summary = []) then text "(no fields)" else summary) nowMs r)
  end.

(** ** What the display reads *)

(** [unsigned(physical)], undefined when the truncated value has no [unsigned]. *)
Definition to_unsigned (x : Float32.t) : option Z :=
  match x with
  | S754_zero _ => Some 0
  | S754_finite s m e =>
      let v := if e <? 0 then Z.pos m / 2 ^ (- e) else Z.pos m * 2 ^ e in
      let v := if s then - v else v in
      if (0 <=? v) && (v <? 4294967296) then Some v else None
  | _ => None
  end.

Definition formatFieldValue (f : FieldConfig.t) (physical : Z) (str : bytes) : option bytes :=
  if FieldConfig.isStringLayout f then Some str
  else if bool_decide (FieldConfig.layoutType f = LayoutKind.Bitfield8) then
    n ← to_unsigned (Float32.of_bits physical); Some (text "0x" ++ to_02X (Z.land n 0xFF))
  else Some (take 63 (fixed3 (Float32.of_bits physical))).

Fixpoint snapshotFields (fs : list FieldConfig.t) (vs : list Z) (ss : list bytes) : option (list (bytes * bytes)) :=
  match fs, vs, ss with
  | f :: fs, v :: vs, s :: ss => x ← formatFieldValue f v s; rest ← snapshotFields fs vs ss; Some ((FieldConfig.name f, x) :: rest)
  | _, _, _ => Some []
  end.

Definition snapshotState (sr : StateRuntime.t) : option StateSnapshot.t :=
  fs ← snapshotFields (ChannelConfig.fields (StateRuntime.cfg sr)) (StateRuntime.values sr) (StateRuntime.strValues sr);
  Some (StateSnapshot.mk (ChannelConfig.id (StateRuntime.cfg sr)) (ChannelConfig.name (StateRuntime.cfg sr)) fs).

Definition snapshotStates (r : Runtime.t) : option (list StateSnapshot.t) := mapM snapshotState (Runtime.states r).

Definition recentWrites (n : nat) (r : Runtime.t) : list WriteLogEntry.t := drop (length (Runtime.writeLog r) - n) (Runtime.writeLog r).
End numbers.

(** * Theorems *)

(** ** The order of floats *)

Lemma compare_swap a b : SFcompare a b = CompOpp <$> SFcompare b a.
Proof.
  destruct a as [sa|sa| |sa ma ea], b as [sb|sb| |sb mb eb]; try destruct sa; try destruct sb; try done;
    cbn [SFcompare fmap option_fmap option_map]; f_equal; rewrite (Z.compare_antisym eb ea); destruct (eb ?= ea); cbn [CompOpp]; try done.
  - by rewrite CompOpp_involutive, (Pos.compare_cont_antisym ma mb Eq).
  - by rewrite (Pos.compare_cont_antisym mb ma Eq).
Qed.

Lemma compare_some a b : is_nan a = false -> is_nan b = false -> exists c, SFcompare a b = Some c.
Proof. destruct a, b; intros H1 H2; try discriminate; eexists; reflexivity. Qed.

Lemma lt_false_le a b : is_nan a = false -> is_nan b = false -> Float32.lt a b = false -> Float32.le b a = true.
Proof.
  intros Ha Hb. unfold Float32.lt, Float32.le, SFltb, SFleb. rewrite (compare_swap b a). destruct (compare_some a b Ha Hb) as [c ->]. by destruct c.
Qed.

Lemma le_refl a : is_nan a = false -> Float32.le a a = true.
Proof. intros H. apply lt_false_le; [done|done|]. unfold Float32.lt, SFltb. pose proof (compare_swap a a) as E. destruct (compare_some a a H H) as [c Ec]. rewrite Ec in *. destruct c; [done|discriminate|done]. Qed.

(** ** Clamping *)

(** The bounds of a link, as numbers. *)
Definition within (link : IntentFieldLink.t) (x : Z) : Prop :=
  (IntentFieldLink.hasMin link = true -> Float32.le (Float32.of_bits (IntentFieldLink.min link)) (Float32.of_bits x) = true) /\
  (IntentFieldLink.hasMax link = true -> Float32.le (Float32.of_bits x) (Float32.of_bits (IntentFieldLink.max link)) = true).

(** Bounds that admit a number. *)
Definition bounded (link : IntentFieldLink.t) : Prop :=
  (IntentFieldLink.hasMin link = true -> is_nan (Float32.of_bits (IntentFieldLink.min link)) = false) /\
  (IntentFieldLink.hasMax link = true -> is_nan (Float32.of_bits (IntentFieldLink.max link)) = false) /\
  (IntentFieldLink.hasMin link = true -> IntentFieldLink.hasMax link = true ->
   Float32.le (Float32.of_bits (IntentFieldLink.min link)) (Float32.of_bits (IntentFieldLink.max link)) = true).

Lemma clamp_within link x : bounded link -> is_nan (Float32.of_bits x) = false -> within link (clamp link x).
Proof.
  intros (H1 & H2 & H3) Hx. unfold clamp, within. destruct (IntentFieldLink.hasMin link) eqn:Em, (IntentFieldLink.hasMax link) eqn:Ex; cbn [andb]; try (by split).
  - specialize (H1 eq_refl). specialize (H2 eq_refl). specialize (H3 eq_refl eq_refl).
    destruct (Float32.lt (Float32.of_bits x) _) eqn:L; (destruct (Float32.lt (Float32.of_bits (IntentFieldLink.max link)) _) eqn:U).
    + split; intros _; [done|by apply le_refl].
    + split; intros _; [by apply le_refl|done].
    + split; intros _; [done|by apply le_refl].
    + split; intros _; apply lt_false_le; done.
  - specialize (H1 eq_refl). destruct (Float32.lt _ _) eqn:L; split; try discriminate; intros _; [by apply le_refl|by apply lt_false_le].
  - specialize (H2 eq_refl). destruct (Float32.lt _ _) eqn:L; split; try discriminate; intros _; [by apply le_refl|by apply lt_false_le].
Qed.

Lemma clamp_inside link x :
  IntentFieldLink.hasMin link && Float32.lt (Float32.of_bits x) (Float32.of_bits (IntentFieldLink.min link)) = false ->
  IntentFieldLink.hasMax link && Float32.lt (Float32.of_bits (IntentFieldLink.max link)) (Float32.of_bits x) = false -> clamp link x = x.
Proof. intros A B. unfold clamp. by rewrite A, B. Qed.

(** ** Rounding a number to an integer *)

(** The integer nearest to a float, a half going away from zero: with [a] for its
    magnitude, [a - 1/2 <= m 2^e < a + 1/2], multiplied out. *)
Definition rounds_to (x : spec_float) (r : Z) : Prop :=
  match x with
  | S754_zero _ => r = 0
  | S754_finite s m e =>
      exists a, 0 <= a /\ r = (if s then - a else a) /\
        (2 * a - 1) * 2 ^ Z.max 0 (- e) <= 2 * Z.pos m * 2 ^ Z.max 0 e < (2 * a + 1) * 2 ^ Z.max 0 (- e)
  | _ => False
  end.

Definition finite (x : spec_float) : Prop := match x with S754_zero _ | S754_finite _ _ _ => True | _ => False end.

Lemma round_away_rounds s m e : rounds_to (S754_finite s m e) (round_away s m e).
Proof.
  unfold round_away. cbn [rounds_to]. set (v := if 0 <=? e then _ else _). exists v. unfold v. clear v. destruct (Z.leb_spec 0 e) as [L|L].
  - rewrite Z.max_l, Z.max_r by lia. change (2 ^ 0) with 1. assert (0 < 2 ^ e) by (apply Z.pow_pos_nonneg; lia). split; [nia|]. split; [done|]. nia.
  - rewrite Z.max_r, Z.max_l by lia. change (2 ^ 0) with 1. replace (1 - e) with (Z.succ (- e)) by lia. rewrite Z.pow_succ_r by lia.
    assert (0 < 2 ^ (- e)) as Hp by (apply Z.pow_pos_nonneg; lia). set (p := 2 ^ (- e)) in *.
    pose proof (Z.div_mod (2 * Z.pos m + p) (2 * p) ltac:(lia)) as D. pose proof (Z.mod_pos_bound (2 * Z.pos m + p) (2 * p) ltac:(lia)) as B.
    set (q := (2 * Z.pos m + p) / (2 * p)) in *. split; [unfold q; apply Z.div_pos; lia|]. split; [done|]. nia.
Qed.

(** The same number with a longer mantissa. *)
Lemma rounds_to_scale s m m' e k r : 0 <= k -> Z.pos m' = Z.pos m * 2 ^ k -> rounds_to (S754_finite s m' (e - k)) r -> rounds_to (S754_finite s m e) r.
Proof.
  intros Hk Em (a & Ha & Er & H). exists a. split; [done|]. split; [done|]. rewrite Em in H.
  assert (exists q, 0 < q /\ 2 ^ Z.max 0 (- (e - k)) = q * 2 ^ Z.max 0 (- e) /\ 2 ^ k * 2 ^ Z.max 0 (e - k) = q * 2 ^ Z.max 0 e) as (q & Hq & E1 & E2).
  { exists (2 ^ (Z.max 0 (- (e - k)) - Z.max 0 (- e))). split; [apply Z.pow_pos_nonneg; lia|].
    rewrite <- !Z.pow_add_r by lia. split; f_equal; lia. }
  rewrite E1 in H. replace (2 * (Z.pos m * 2 ^ k) * 2 ^ Z.max 0 (e - k)) with (2 * Z.pos m * (2 ^ k * 2 ^ Z.max 0 (e - k))) in H by ring.
  rewrite E2 in H. set (u := 2 ^ Z.max 0 (- e)) in *. set (v := 2 ^ Z.max 0 e) in *. nia.
Qed.

Lemma digits_lower p : 2 ^ (Z.pos (digits2_pos p) - 1) <= Z.pos p.
Proof.
  induction p as [p IH|p IH|]; cbn [digits2_pos]; [| |done]; rewrite Pos2Z.inj_succ;
    (replace (Z.succ (Z.pos (digits2_pos p)) - 1) with (Z.succ (Z.pos (digits2_pos p) - 1)) by lia); rewrite Z.pow_succ_r by lia; lia.
Qed.

Lemma shifted d m : Z.pos (Pos.iter xO m d) = Z.pos m * 2 ^ Z.pos d /\ Z.pos (digits2_pos (Pos.iter xO m d)) = Z.pos (digits2_pos m) + Z.pos d.
Proof.
  induction d as [|d [IH1 IH2]] using Pos.peano_ind; [cbn; lia|]. rewrite Pos.iter_succ. split.
  - rewrite Pos2Z.inj_xO, IH1, Pos2Z.inj_succ, Z.pow_succ_r by lia. ring.
  - cbn [digits2_pos]. rewrite Pos2Z.inj_succ, IH2. lia.
Qed.

(** A [float] as a [double]: the mantissa is padded, the value is the same. *)
Lemma of_float_exact s m e : Z.pos m < 2 ^ 24 -> -149 <= e <= 104 ->
  exists k m', 0 <= k /\ Z.pos m' = Z.pos m * 2 ^ k /\ Float64.of_float (S754_finite s m e) = S754_finite s m' (e - k).
Proof.
  intros Hm He. assert (Z.pos (digits2_pos m) <= 24) as Hd.
  { pose proof (digits_lower m) as L. destruct (Z.le_gt_cases (Z.pos (digits2_pos m)) 24); [done|].
    assert (2 ^ 24 <= 2 ^ (Z.pos (digits2_pos m) - 1)) by (apply Z.pow_le_mono_r; lia). lia. }
  set (d := Z.pos (digits2_pos m)) in *.
  assert (forall x, fexp Float64.prec Float64.emax x = Z.max (x - 53) (-1074)) as Hf by done.
  assert (exists k m', 0 < k /\ e - k = Z.max (d + e - 53) (-1074) /\ Z.pos m' = Z.pos m * 2 ^ k /\ Z.pos (digits2_pos m') = d + k /\
    shl_align m e (fexp Float64.prec Float64.emax (d + e)) = (m', e - k)) as (k & m' & Hk & Ek & Em & Ed & Es).
  { rewrite Hf. unfold shl_align. destruct (Z.max (d + e - 53) (-1074) - e) as [|n|n] eqn:E; [lia|lia|]. destruct (shifted n m) as [S1 S2].
    exists (Z.pos n), (Pos.iter xO m n). split_and!; [lia|lia|done|done|]. f_equal. lia. }
  exists k, m'. split; [lia|]. split; [done|].
  assert (shr_fexp Float64.prec Float64.emax (Z.pos m') (e - k) loc_Exact = (Build_shr_record (Z.pos m') false false, e - k)) as Hs.
  { unfold shr_fexp, shr. change (Zdigits2 (Z.pos m')) with (Z.pos (digits2_pos m')). rewrite Ed, Hf.
    replace (Z.max (d + k + (e - k) - 53) (-1074) - (e - k)) with 0 by lia. done. }
  assert (binary_round Float64.prec Float64.emax s m e = S754_finite s m' (e - k)) as Hr.
  { unfold binary_round. fold d. rewrite Es. unfold binary_round_aux. rewrite Hs. cbn [shr_m loc_of_shr_record round_nearest_even]. rewrite Hs. cbn [shr_m].
    destruct (Z.leb_spec (e - k) (Float64.emax - Float64.prec)) as [|L]; [done|]. unfold Float64.emax, Float64.prec in L. lia. }
  unfold Float64.of_float, binary_normalize. by destruct s.
Qed.

Lemma of_bits_in b : in_binary32 (Float32.of_bits b).
Proof.
  unfold Float32.of_bits, in_binary32. change 0x7FFFFF with (Z.ones 23). change 255 with (Z.ones 8). rewrite !Z.land_ones by lia.
  pose proof (Z.mod_pos_bound b (2 ^ 23) ltac:(lia)). pose proof (Z.mod_pos_bound (Z.shiftr b 23) (2 ^ 8) ltac:(lia)).
  set (m := b mod 2 ^ 23) in *. set (e := Z.shiftr b 23 mod 2 ^ 8) in *. change (Z.ones 8) with 255. destruct (Z.eqb_spec e 255); [by destruct (m =? 0)|].
  destruct (if e =? 0 then m else m + 0x800000) as [|q|] eqn:Eq; [done| |done]. revert Eq. destruct (e =? 0); intros Eq; lia.
Qed.

(** [llround(double(x))] is the nearest integer, where a [long long] holds it. *)
Lemma llround_nearest oob b : finite (Float32.of_bits b) ->
  exists r, rounds_to (Float32.of_bits b) r /\ (-2 ^ 63 <= r <= 2 ^ 63 - 1 -> llround oob (Float64.of_float (Float32.of_bits b)) = r).
Proof.
  pose proof (of_bits_in b) as Hin. destruct (Float32.of_bits b) as [s|s| |s m e]; try done; intros _; [by exists 0|].
  destruct Hin as [Hm He]. destruct (of_float_exact s m e Hm He) as (k & m' & Hk & Em & ->). exists (round_away s m' (e - k)).
  split; [by apply (rounds_to_scale s m m' e k); [..|apply round_away_rounds]|]. intros R. unfold llround, lround_in. cbv zeta.
  destruct (Z.leb_spec (-9223372036854775808) (round_away s m' (e - k))), (Z.leb_spec (round_away s m' (e - k)) 9223372036854775807); cbn [andb]; lia.
Qed.

(** ** What a write is asked for and answered with

    Stated of the request, without the functions that compute it. *)

(** The number a value carries: a float's pattern, or an integer as a [float]. *)
Definition asked (v : IntentValue) : option Z :=
  match v with
  | F32 b => Some b
  | U64 n | I64 n => Some (Float32.to_bits (Float32.of_Z n))
  | Bool _ | Tstr _ | Bstr _ => None
  end.

Definition below (l : IntentFieldLink.t) (b : Z) : Prop :=
  IntentFieldLink.hasMin l = true /\ Float32.lt (Float32.of_bits b) (Float32.of_bits (IntentFieldLink.min l)) = true.
Definition above (l : IntentFieldLink.t) (b : Z) : Prop :=
  IntentFieldLink.hasMax l = true /\ Float32.lt (Float32.of_bits (IntentFieldLink.max l)) (Float32.of_bits b) = true.

(** The number within the bounds; the maximum wins where it is below the minimum. *)
Inductive clamped (l : IntentFieldLink.t) (b : Z) : Z -> Prop :=
  | clamped_inside : ~ below l b -> ~ above l b -> clamped l b b
  | clamped_up : below l b -> ~ above l (IntentFieldLink.min l) -> clamped l b (IntentFieldLink.min l)
  | clamped_crossed : below l b -> above l (IntentFieldLink.min l) -> clamped l b (IntentFieldLink.max l)
  | clamped_down : ~ below l b -> above l b -> clamped l b (IntentFieldLink.max l).

(** The answer to a number: of the same kind; an integer is the nearest one, and
    zero for a negative number in an unsigned field. *)
Definition answered (v : IntentValue) (x : Z) (v' : IntentValue) : Prop :=
  let f := Float32.of_bits x in
  match v with
  | F32 _ => v' = F32 x
  | U64 _ => exists n, v' = U64 n /\ (Float32.lt f Float32.zero = true -> n = 0) /\
      (finite f -> exists r, rounds_to f r /\ (0 <= r <= 2 ^ 63 - 1 -> n = r))
  | I64 _ => exists n, v' = I64 n /\ (finite f -> exists r, rounds_to f r /\ (-2 ^ 63 <= r <= 2 ^ 63 - 1 -> n = r))
  | Bool _ | Tstr _ | Bstr _ => v' = v
  end.

Lemma clamp_clamped l b : clamped l b (clamp l b).
Proof.
  unfold clamp. destruct (IntentFieldLink.hasMin l && _) eqn:Em.
  - apply andb_true_iff in Em. destruct (IntentFieldLink.hasMax l && _) eqn:Ex.
    + apply andb_true_iff in Ex. by apply clamped_crossed.
    + apply clamped_up; [done|]. intros [A B]. by rewrite A, B in Ex.
  - assert (~ below l b) by (intros [A B]; by rewrite A, B in Em). destruct (IntentFieldLink.hasMax l && _) eqn:Ex.
    + apply andb_true_iff in Ex. by apply clamped_down.
    + apply clamped_inside; [done|]. intros [A B]. by rewrite A, B in Ex.
Qed.

Lemma negative_rounds x r : Float32.le Float32.zero x = false -> rounds_to x r -> 0 <= r -> r = 0.
Proof.
  destruct x as [s|s| |s m e]; cbn [rounds_to]; [done|done|done|]. destruct s; [|done]. intros _ (a & Ha & -> & _) H. lia.
Qed.

Lemma below_zero x : Float32.lt x Float32.zero = true -> Float32.le Float32.zero x = false.
Proof. destruct x as [s|s| |s m e]; try destruct s; done. Qed.

Lemma i64_small z : -2 ^ 63 <= z <= 2 ^ 63 - 1 -> i64 z = z.
Proof.
  intros H. unfold i64, u64. cbv zeta. destruct (Z.leb_spec 0 z) as [L|L].
  - rewrite (Z.mod_small z) by lia. destruct (Z.ltb_spec z 9223372036854775808); lia.
  - rewrite <- (Z.mod_add z 1 18446744073709551616), Z.mod_small by lia. destruct (Z.ltb_spec (z + 1 * 18446744073709551616) 9223372036854775808); lia.
Qed.

Lemma withNumericValue_answered oob v x : answered v x (withNumericValue oob v x).
Proof.
  unfold answered, withNumericValue. cbv zeta. destruct v as [n|n|b|b|t|t]; try done.
  - eexists. split; [reflexivity|]. split; [by intros ->%below_zero|]. intros Hf. destruct (llround_nearest oob x Hf) as (r & Hr & E). exists r. split; [done|].
    intros R. destruct (Float32.le Float32.zero (Float32.of_bits x)) eqn:L; [|symmetry; by eapply negative_rounds; [..|lia]].
    rewrite E by lia. apply u64_id. unfold is_u64. lia.
  - eexists. split; [reflexivity|]. intros Hf. destruct (llround_nearest oob x Hf) as (r & Hr & E). exists r. split; [done|]. intros R. rewrite E by lia.
    by apply i64_small.
Qed.

(** ** One write *)

Section writes.
Context (oob : spec_float -> Z).

(** The number a field writes: clamped, and none for another kind of value. *)
Definition number (link : option IntentFieldLink.t) (v : IntentValue) : option Z :=
  match link with
  | Some l => if IntentFieldLink.numeric l then let '(x, n) := numericValueOf v in if n then Some (clamp l x) else None else None
  | None => None
  end.

(** What a field is answered with, and the mirror it leaves. *)
Definition echo (rt : IntentRuntime.t) (rf : IntentValueField) : IntentValueField :=
  mkField (f_key rf) (match number (linkOf (f_key rf) rt) (f_value rf) with Some x => withNumericValue oob (f_value rf) x | None => f_value rf end).

Definition mirror (rt : IntentRuntime.t) (dueMs : Z) (rf : IntentValueField) : list PendingMirror.t :=
  let link := linkOf (f_key rf) rt in
  mirrorOf link (f_value (echo rt rf)) (match number link (f_value rf) with Some x => (x, true) | None => (0, false) end) dueMs.

Lemma applyValue_spec rt rf summary : exists summary',
  applyValue oob (linkOf (f_key rf) rt) rf summary =
  (f_value (echo rt rf), match number (linkOf (f_key rf) rt) (f_value rf) with Some x => (x, true) | None => (0, false) end, summary').
Proof.
  unfold applyValue, echo, number. destruct (linkOf (f_key rf) rt) as [l|]; [|by eexists]. destruct (IntentFieldLink.numeric l); [|by eexists].
  destruct (numericValueOf (f_value rf)) as [x []]; by eexists.
Qed.

Lemma applyFields_spec rt due requested summary : exists summary',
  applyFields oob rt due requested summary = (echo rt <$> requested, concat (mirror rt due <$> requested), summary').
Proof.
  revert summary. induction requested as [|rf rest IH]; intros summary; [by eexists|]. cbn [applyFields fmap list_fmap concat].
  destruct (applyValue_spec rt rf summary) as (s1 & ->). destruct (IH s1) as (s2 & ->). by eexists.
Qed.

Lemma applyIntent_spec ch requested now r rt : findIntent ch (Runtime.intents r) = Some rt ->
  exists entry, let req := take kIntentMaxValueFields requested in let due := u32 (now + IntentRuntime.echoDelayMs rt) in
  applyIntent oob ch requested now r =
  (Ok (echo rt <$> req), logWrite (ChannelConfig.name (IntentRuntime.cfg rt)) entry now (r{{Runtime.pending := Runtime.pending r ++ concat (mirror rt due <$> req)}})).
Proof.
  intros E. unfold applyIntent. rewrite E. destruct (applyFields_spec rt (u32 (now + IntentRuntime.echoDelayMs rt)) (take kIntentMaxValueFields requested) []) as (s & ->). by eexists.
Qed.
End writes.

(** ** Mirrors *)

(** A number of a STATE channel. *)
Definition value_at (sid : Z) (i : nat) (l : list StateRuntime.t) : option Z := k ← findState sid l; s ← l !! k; StateRuntime.values s !! i.

Definition targets (str : bool) (sid : Z) (i : nat) (pm : PendingMirror.t) : bool :=
  (PendingMirror.stateId pm =? sid) && (PendingMirror.fieldIndex pm =? i)%nat && Bool.eqb (PendingMirror.isString pm) str.

Lemma find_index_alter {A} (p : A -> bool) f k l : (forall x, p (f x) = p x) -> find_index p (alter f k l) = find_index p l.
Proof.
  intros H. revert k. induction l as [|x l IH]; intros k; [done|]. destruct k; cbn [find_index alter list_alter].
  - by rewrite H.
  - destruct (p x); [done|]. by rewrite IH.
Qed.

Lemma cfg_landOn pm s : StateRuntime.cfg (landOn pm s) = StateRuntime.cfg s.
Proof. unfold landOn. by case_ifs. Qed.

Lemma length_landOn pm s : length (StateRuntime.values (landOn pm s)) = length (StateRuntime.values s) /\ length (StateRuntime.strValues (landOn pm s)) = length (StateRuntime.strValues s).
Proof.
  unfold landOn. case_ifs; split; try done; [exact (length_insert _ _ _)|exact (length_insert _ _ _)].
Qed.

Lemma findState_land sid pm l : findState sid (land l pm) = findState sid l.
Proof. unfold land. destruct (findState (PendingMirror.stateId pm) l); [|done]. apply find_index_alter. intros s. by rewrite cfg_landOn. Qed.

Lemma lookup_insert_if {A} (l : list A) k i x : <[k := x]> l !! i = if (k =? i)%nat then (fun _ => x) <$> l !! i else l !! i.
Proof.
  destruct (Nat.eqb_spec k i) as [->|D]; [|by rewrite list_lookup_insert_ne]. destruct (l !! i) eqn:E.
  - by rewrite list_lookup_insert_eq by (by eapply lookup_lt_Some).
  - rewrite list_insert_ge; [done|]. by apply lookup_ge_None.
Qed.

Lemma landOn_values pm s i : StateRuntime.values (landOn pm s) !! i =
  if (PendingMirror.fieldIndex pm =? i)%nat && negb (PendingMirror.isString pm) then (fun _ => PendingMirror.value pm) <$> StateRuntime.values s !! i else StateRuntime.values s !! i.
Proof.
  unfold landOn. destruct (Nat.ltb_spec (PendingMirror.fieldIndex pm) (length (StateRuntime.values s))) as [L|L].
  - destruct (PendingMirror.isString pm); [by rewrite andb_false_r|]. rewrite andb_true_r. apply lookup_insert_if.
  - destruct (Nat.eqb_spec (PendingMirror.fieldIndex pm) i) as [<-|]; [|done]. rewrite (lookup_ge_None_2 _ _ L). by destruct (_ && _).
Qed.

Lemma value_at_land sid i l pm : value_at sid i (land l pm) = if targets false sid i pm then (fun _ => PendingMirror.value pm) <$> value_at sid i l else value_at sid i l.
Proof.
  unfold value_at. rewrite findState_land. destruct (findState sid l) as [k|] eqn:E; [|by destruct (targets _ _ _ _)]. cbn [mbind option_bind].
  unfold land, targets. destruct (Z.eqb_spec (PendingMirror.stateId pm) sid) as [Es|Es]; cbn [andb].
  - rewrite Es, E. rewrite list_lookup_alter_eq. destruct (l !! k) as [s|]; cbn [fmap option_fmap option_map mbind option_bind]; [|by destruct (_ && _)].
    rewrite landOn_values. by destruct (PendingMirror.isString pm).
  - destruct (findState (PendingMirror.stateId pm) l) as [k'|] eqn:E'; [|done]. assert (k <> k').
    { intros <-. apply find_index_Some in E as (x & Hx & H1 & _), E' as (y & Hy & H2 & _). rewrite Hx in Hy. injection Hy as <-. apply Z.eqb_eq in H1, H2. congruence. }
    by rewrite list_lookup_alter_ne.
Qed.

Lemma value_at_lands sid i ms l :
  value_at sid i (foldl land l ms) = match last (List.filter (targets false sid i) ms) with Some pm => (fun _ => PendingMirror.value pm) <$> value_at sid i l | None => value_at sid i l end.
Proof.
  revert l. induction ms as [|pm ms IH]; intros l; [done|]. cbn [foldl List.filter]. rewrite IH, value_at_land. destruct (targets false sid i pm); [|done].
  rewrite last_cons. destruct (last _); [|done]. by destruct (value_at sid i l).
Qed.

(** ** The tables fit together *)

(** Whether a field of a STATE channel holds text. *)
Definition field_kind (sid : Z) (i : nat) (l : list StateRuntime.t) : option bool :=
  k ← findState sid l; s ← l !! k; FieldConfig.isStringLayout <$> ChannelConfig.fields (StateRuntime.cfg s) !! i.

Definition state_shaped (s : StateRuntime.t) : Prop :=
  length (StateRuntime.values s) = length (ChannelConfig.fields (StateRuntime.cfg s)) /\
  length (StateRuntime.strValues s) = length (ChannelConfig.fields (StateRuntime.cfg s)).

(** Every value has its field, every link and every mirror points to a field of its kind. *)
Record shaped (r : Runtime.t) : Prop := {
  sh_states : Forall state_shaped (Runtime.states r);
  sh_links : Forall (fun rt => Forall (fun l => IntentFieldLink.hasTarget l = true ->
    field_kind (IntentFieldLink.targetStateId l) (IntentFieldLink.targetFieldIndex l) (Runtime.states r) = Some (IntentFieldLink.targetIsString l)) (IntentRuntime.fields rt)) (Runtime.intents r);
  sh_pending : Forall (fun pm => field_kind (PendingMirror.stateId pm) (PendingMirror.fieldIndex pm) (Runtime.states r) = Some (PendingMirror.isString pm)) (Runtime.pending r);
  sh_log : (length (Runtime.writeLog r) <= kWriteLogCapacity)%nat }.

Lemma find_index_fmap {A B} (p : B -> bool) (f : A -> B) l : find_index p (f <$> l) = find_index (fun x => p (f x)) l.
Proof. induction l as [|x l IH]; [done|]. rewrite fmap_cons. cbn [find_index]. destruct (p (f x)); [done|]. by rewrite IH. Qed.

Lemma field_kind_cfgs sid i l l' : StateRuntime.cfg <$> l' = StateRuntime.cfg <$> l -> field_kind sid i l' = field_kind sid i l.
Proof.
  assert (C : forall l, field_kind sid i l = (k ← find_index (fun c => ChannelConfig.id c =? sid) (StateRuntime.cfg <$> l); c ← (StateRuntime.cfg <$> l) !! k; FieldConfig.isStringLayout <$> ChannelConfig.fields c !! i)).
  { intros m. rewrite find_index_fmap. unfold field_kind, findState. destruct (find_index _ m) as [k|]; [|done]. cbn [mbind option_bind]. rewrite list_lookup_fmap. by destruct (m !! k). }
  intros E. by rewrite !C, E.
Qed.

Lemma alter_cfg f (k : nat) (l : list StateRuntime.t) : (forall s, StateRuntime.cfg (f s) = StateRuntime.cfg s) -> StateRuntime.cfg <$> alter f k l = StateRuntime.cfg <$> l.
Proof. intros H. revert k. induction l as [|s l IH]; intros [|k]; try done; cbn [alter list_alter fmap list_fmap]; f_equal; [by rewrite H|apply IH]. Qed.

(** A change of values only. *)
Lemma shaped_states r l : shaped r -> StateRuntime.cfg <$> l = StateRuntime.cfg <$> Runtime.states r -> Forall state_shaped l -> shaped (r{{Runtime.states := l}}).
Proof.
  intros [H1 H2 H3 H4] E F. split; try done.
  - eapply Forall_impl; [exact H2|]. intros rt G. eapply Forall_impl; [exact G|]. intros x Gx T. rewrite <- (Gx T). by apply field_kind_cfgs.
  - eapply Forall_impl; [exact H3|]. intros pm G. rewrite <- G. by apply field_kind_cfgs.
Qed.

Lemma cfg_lands ms l : StateRuntime.cfg <$> foldl land l ms = StateRuntime.cfg <$> l.
Proof.
  revert l. induction ms as [|pm ms IH]; intros l; [done|]. cbn [foldl]. rewrite IH. unfold land. destruct (findState _ l) as [k|]; [|done]. apply alter_cfg, cfg_landOn.
Qed.

Lemma shaped_land ms l : Forall state_shaped l -> Forall state_shaped (foldl land l ms).
Proof.
  revert l. induction ms as [|pm ms IH]; intros l H; [done|]. cbn [foldl]. apply IH. unfold land. destruct (findState _ l) as [k|]; [|done].
  apply Forall_alter; [done|]. intros s _ [S1 S2]. unfold state_shaped. rewrite cfg_landOn. destruct (length_landOn pm s) as [-> ->]. done.
Qed.

Lemma shaped_landMirrors now r : shaped r -> shaped (landMirrors now r).
Proof.
  intros H. set (due := List.filter (fun pm => negb (waits now pm)) (Runtime.pending r)).
  destruct (shaped_states r (foldl land (Runtime.states r) due) H (cfg_lands _ _) (shaped_land _ _ (sh_states r H))) as [A B C D]. split; try done. cbn. apply Forall_forall. intros pm Hp. apply list_elem_of_In, filter_In in Hp as [Hp _].
  apply (proj1 (Forall_forall _ _) C). by apply list_elem_of_In.
Qed.

Lemma animate_shaped sin t s : state_shaped s -> StateRuntime.cfg (animateState sin t s) = StateRuntime.cfg s /\ state_shaped (animateState sin t s).
Proof.
  intros [S1 S2]. assert (L : length (zip_with (animated sin t) (ChannelConfig.fields (StateRuntime.cfg s)) (StateRuntime.values s)) = length (ChannelConfig.fields (StateRuntime.cfg s))) by (rewrite length_zip_with; lia).
  unfold animateState. cbv zeta. case_ifs; (split; [done|]; split; [exact L|exact S2]).
Qed.

Lemma shaped_tickAnimations sin now r : shaped r -> shaped (tickAnimations sin now r).
Proof.
  intros H. unfold tickAnimations. cbv zeta. apply shaped_states; [done| |].
  - rewrite <- list_fmap_compose. apply list_fmap_ext. intros i s Hs. apply (animate_shaped sin). eapply Forall_lookup_1; [apply (sh_states r H)|done].
  - apply Forall_fmap. eapply Forall_impl; [apply (sh_states r H)|]. intros s Hs. by apply (animate_shaped sin).
Qed.

Lemma linked_field target f : let l := linkField target f in IntentFieldLink.hasTarget l = true ->
  exists st g, target = Some st /\ IntentFieldLink.targetStateId l = ChannelConfig.id st /\
    ChannelConfig.fields st !! IntentFieldLink.targetFieldIndex l = Some g /\ FieldConfig.name g = FieldConfig.name f /\
    IntentFieldLink.targetIsString l = FieldConfig.isStringLayout g.
Proof.
  unfold linkField. cbv zeta. destruct target as [st|]; [|done]. destruct (find_index _ (ChannelConfig.fields st)) as [i|] eqn:E; [|done]. intros _.
  apply find_index_Some in E as (g & Hg & Hn & _). exists st, g. apply bool_decide_eq_true in Hn. split_and!; try done. change (default false (FieldConfig.isStringLayout <$> ChannelConfig.fields st !! i) = FieldConfig.isStringLayout g). by rewrite Hg.
Qed.

Lemma findState_Some sid l k : findState sid l = Some k -> exists s, l !! k = Some s /\ ChannelConfig.id (StateRuntime.cfg s) = sid.
Proof. intros (s & Hs & H & _)%find_index_Some. exists s. split; [done|]. by apply Z.eqb_eq. Qed.

Lemma shaped_start cfg startMs : shaped (startRuntime cfg startMs).
Proof.
  split; cbn [startRuntime buildRuntime Runtime.states Runtime.intents Runtime.pending Runtime.writeLog fst snd].
  - apply Forall_fmap, Forall_forall. intros ch _. unfold compose, startState. split; [apply length_fmap|apply length_replicate].
  - apply Forall_fmap, Forall_forall. intros ch _. unfold compose, startIntent. cbn [IntentRuntime.fields]. apply Forall_fmap, Forall_forall. intros f _. unfold compose. intros T.
    destruct (linked_field _ f T) as (st & g & Et & -> & Hg & _ & ->). clear T. revert Hg. generalize (IntentFieldLink.targetFieldIndex (linkField (if ChannelConfig.hasWrites ch then
      findState (ChannelConfig.writesChannelId ch) (startState <$> ofClass ClassKind.State cfg) ≫= (fun i => StateRuntime.cfg <$> (startState <$> ofClass ClassKind.State cfg) !! i) else None) f)).
    intros i Hg. destruct (ChannelConfig.hasWrites ch); [|done]. destruct (findState _ _) as [k|] eqn:E; [|done]. cbn [mbind option_bind] in Et.
    destruct (findState_Some _ _ _ E) as (s & Hs & Hid). rewrite Hs in Et. injection Et as <-. unfold field_kind. rewrite Hid, E. cbn [mbind option_bind]. rewrite Hs. cbn [mbind option_bind]. by rewrite Hg.
  - constructor.
  - cbn. lia.
Qed.

Lemma linkOf_elem key rt l : linkOf key rt = Some l -> l ∈ IntentRuntime.fields rt.
Proof. unfold linkOf. intros H. apply head_Some_elem_of, list_elem_of_filter in H as [_ H]. done. Qed.

Lemma findIntent_elem ch l rt : findIntent ch l = Some rt -> rt ∈ l.
Proof. unfold findIntent. intros H. apply head_Some_elem_of, list_elem_of_filter in H as [_ H]. done. Qed.

(** A mirror is the link's. *)
Lemma mirrorOf_link link v ph due pm : pm ∈ mirrorOf link v ph due -> exists l, link = Some l /\ IntentFieldLink.hasTarget l = true /\
  PendingMirror.stateId pm = IntentFieldLink.targetStateId l /\ PendingMirror.fieldIndex pm = IntentFieldLink.targetFieldIndex l /\
  PendingMirror.isString pm = IntentFieldLink.targetIsString l /\ PendingMirror.dueMs pm = due.
Proof.
  unfold mirrorOf. destruct link as [l|]; [|by intros ?%elem_of_nil]. destruct (IntentFieldLink.hasTarget l) eqn:T; [|by intros ?%elem_of_nil].
  destruct (match IntentFieldLink.targetIsString l, v with true, Tstr s => _ | _, _ => _ end) as [value str]. intros ->%list_elem_of_singleton. by exists l.
Qed.

Lemma shaped_log name entry now r : shaped r -> shaped (logWrite name entry now r).
Proof.
  intros [H1 H2 H3 H4]. unfold logWrite. cbv zeta. set (l := Runtime.writeLog r ++ _). split; try done.
  assert (L : length l = S (length (Runtime.writeLog r))) by (unfold l; rewrite length_app; cbn; lia).
  change (length (if (kWriteLogCapacity <? length l)%nat then tail l else l) <= kWriteLogCapacity)%nat. destruct (Nat.ltb_spec kWriteLogCapacity (length l)); [|lia].
  destruct l as [|x l']; [discriminate|]. cbn [tail length] in *. lia.
Qed.

Lemma shaped_applyIntent oob ch requested now r : shaped r -> shaped (applyIntent oob ch requested now r).2.
Proof.
  intros H. destruct (findIntent ch (Runtime.intents r)) as [rt|] eqn:E; [|unfold applyIntent; by rewrite E].
  destruct (applyIntent_spec oob ch requested now r rt E) as (entry & ->). cbn [snd]. apply shaped_log. destruct H as [H1 H2 H3 H4]. split; try done.
  change (Forall (fun pm => field_kind (PendingMirror.stateId pm) (PendingMirror.fieldIndex pm) (Runtime.states r) = Some (PendingMirror.isString pm))
    (Runtime.pending r ++ concat (mirror oob rt (u32 (now + IntentRuntime.echoDelayMs rt)) <$> take kIntentMaxValueFields requested))).
  apply Forall_app_2; [done|]. apply Forall_concat, Forall_fmap, Forall_forall. intros rf _. unfold compose. apply Forall_forall. intros pm Hp.
  apply mirrorOf_link in Hp as (l & El & T & -> & -> & -> & _). apply linkOf_elem in El. apply findIntent_elem in E.
  rewrite Forall_forall in H2. specialize (H2 rt E). rewrite Forall_forall in H2. by apply H2.
Qed.

(** ** Published snapshots *)

(** The bytes of a field, number or text. *)
Definition state_bytes (oob : spec_float -> Z) (f : FieldConfig.t) (v : Z) (s : bytes) : bytes :=
  let n := LayoutField.wireSize (wireField f) in
  if FieldConfig.isStringLayout f then let t := take n s in t ++ replicate (n - length t) 0
  else field_bytes oob (wireField f) (Float32.of_bits v).

Fixpoint states_bytes (oob : spec_float -> Z) (fs : list FieldConfig.t) (vs : list Z) (ss : list bytes) : bytes :=
  match fs, vs, ss with f :: fs, v :: vs, s :: ss => state_bytes oob f v s ++ states_bytes oob fs vs ss | _, _, _ => [] end.

Lemma wire_string f : LayoutField.isString (wireField f) = FieldConfig.isStringLayout f.
Proof. unfold FieldConfig.isStringLayout, LayoutField.isString. change (LayoutField.type (wireField f)) with (toPackedType (FieldConfig.layoutType f)). by destruct (FieldConfig.layoutType f). Qed.

Lemma length_state_bytes oob f v s : length (state_bytes oob f v s) = LayoutField.wireSize (wireField f).
Proof. unfold state_bytes. destruct (FieldConfig.isStringLayout f); [|apply length_field_bytes]. rewrite length_app, length_replicate, length_take. lia. Qed.

(** One field, written into its place. *)
Lemma packState_spec oob f v s offset buf : (offset + LayoutField.wireSize (wireField f) <= length buf)%nat ->
  let out := subspan offset (LayoutField.wireSize (wireField f)) buf in
  (if FieldConfig.isStringLayout f then packStringField (wireField f) s out else packField oob (wireField f) (Float32.of_bits v) out) =
  (LayoutField.wireSize (wireField f), write_at 0 (state_bytes oob f v s) out).
Proof.
  intros L out. assert (Ls : length out = LayoutField.wireSize (wireField f)) by (apply length_subspan; lia).
  unfold state_bytes. destruct (FieldConfig.isStringLayout f) eqn:E.
  - apply packStringField_spec; [by rewrite wire_string|lia].
  - rewrite packField_spec. case_ifs; [lia|done].
Qed.

Lemma packStates_spec oob fs vs ss offset buf : length vs = length fs -> length ss = length fs -> (offset + layoutWireSize (wireField <$> fs) <= length buf)%nat ->
  packStates oob fs vs ss offset buf = ((offset + layoutWireSize (wireField <$> fs))%nat, write_at offset (states_bytes oob fs vs ss) buf) /\
  length (states_bytes oob fs vs ss) = layoutWireSize (wireField <$> fs).
Proof.
  revert vs ss offset buf. induction fs as [|f fs IH]; intros vs ss offset buf Hv Hs Hl.
  { cbn. by rewrite Nat.add_0_r, write_at_nil. }
  destruct vs as [|v vs], ss as [|s ss]; try discriminate. rewrite fmap_cons, layoutWireSize_cons in *. cbn [packStates states_bytes]. injection Hv as Hv. injection Hs as Hs. cbv zeta.
  destruct (Nat.ltb_spec (length buf) (offset + LayoutField.wireSize (wireField f))); [lia|].
  rewrite (on_subn_spec _ _ _ (state_bytes oob f v s)); [|apply length_state_bytes|lia|].
  - assert (L : length (write_at offset (state_bytes oob f v s) buf) = length buf) by (apply length_write_at; rewrite length_state_bytes; lia).
    destruct (IH vs ss (offset + LayoutField.wireSize (wireField f))%nat (write_at offset (state_bytes oob f v s) buf) Hv Hs ltac:(lia)) as [-> E]. rewrite length_app, length_state_bytes, E. split; [|done].
    f_equal; [lia|]. rewrite <- (length_state_bytes oob f v s). apply write_at_app. rewrite length_state_bytes. lia.
  - apply packState_spec. lia.
Qed.

(** The layout the catalog serves for a channel. *)
Definition servedLayout (ks : option (gmap bytes Z)) (fs : list FieldConfig.t) : list LayoutField.t := configLayoutField ks <$> fs.

Lemma served_field ks f : LayoutField.type (configLayoutField ks f) = toPackedType (FieldConfig.layoutType f) /\ LayoutField.scale (configLayoutField ks f) = f_1.
Proof. unfold configLayoutField. cbv zeta. case_ifs; destruct (ks ≫= _); done. Qed.

Lemma served_size ks f : LayoutField.wireSize (configLayoutField ks f) = LayoutField.wireSize (wireField f).
Proof. unfold LayoutField.wireSize. by rewrite (proj1 (served_field ks f)). Qed.

Lemma served_read ks f s : readField (configLayoutField ks f) s = readField (wireField f) s.
Proof. unfold readField. destruct (served_field ks f) as [-> ->]. done. Qed.

Lemma served_total ks fs : layoutWireSize (servedLayout ks fs) = layoutWireSize (wireField <$> fs).
Proof. induction fs as [|f fs IH]; [done|]. unfold servedLayout in *. rewrite !fmap_cons, !layoutWireSize_cons, IH, served_size. done. Qed.

(** A number field is read as its value at the field's resolution, a text field as zero. *)
Lemma readField_state oob f v s rest : readField (wireField f) (state_bytes oob f v s ++ rest) = delivered oob (wireField f) (Float32.of_bits v).
Proof.
  unfold state_bytes. destruct (FieldConfig.isStringLayout f) eqn:E; [|apply readField_bytes].
  unfold readField, delivered. change (LayoutField.type (wireField f)) with (toPackedType (FieldConfig.layoutType f)).
  unfold FieldConfig.isStringLayout in E. by destruct (FieldConfig.layoutType f).
Qed.

Lemma layout_values_states oob ks fs vs ss rest : length vs = length fs -> length ss = length fs ->
  layout_values (servedLayout ks fs) (states_bytes oob fs vs ss ++ rest) = zip_with (fun f v => delivered oob (wireField f) (Float32.of_bits v)) fs vs.
Proof.
  revert vs ss. induction fs as [|f fs IH]; intros [|v vs] [|s ss] Hv Hs; try discriminate; [done|]. unfold servedLayout in *. rewrite fmap_cons. cbn [layout_values states_bytes zip_with].
  rewrite <- app_assoc, served_size, served_read, <- (length_state_bytes oob f v s). rewrite subspan_app_here, drop_app_length by done. f_equal; [|apply IH; cbn in *; lia].
  rewrite <- (app_nil_r (state_bytes oob f v s)). apply readField_state.
Qed.

(** The bytes before and at one field. *)
Lemma states_bytes_at oob fs vs ss i f v s : length vs = length fs -> length ss = length fs -> fs !! i = Some f -> vs !! i = Some v -> ss !! i = Some s ->
  exists rest, drop (layoutWireSize (wireField <$> take i fs)) (states_bytes oob fs vs ss) = state_bytes oob f v s ++ rest.
Proof.
  revert vs ss i. induction fs as [|g fs IH]; intros [|x vs] [|t ss] i Hv Hs Ef Ev Es; try discriminate. destruct i as [|i].
  - injection Ef as ->. injection Ev as ->. injection Es as ->. by eexists.
  - cbn [take states_bytes]. rewrite fmap_cons, layoutWireSize_cons, <- drop_drop, <- (length_state_bytes oob g x t), drop_app_length. apply IH; cbn in *; auto; lia.
Qed.

Lemma snapshot_bytes oob sr : state_shaped sr -> (layoutWireSize (wireField <$> ChannelConfig.fields (StateRuntime.cfg sr)) <= limits.min_transport_payload)%nat ->
  snapshot oob sr = states_bytes oob (ChannelConfig.fields (StateRuntime.cfg sr)) (StateRuntime.values sr) (StateRuntime.strValues sr) /\
  length (snapshot oob sr) = layoutWireSize (wireField <$> ChannelConfig.fields (StateRuntime.cfg sr)).
Proof.
  intros [H1 H2] L. unfold snapshot. destruct (packStates_spec oob _ _ _ 0 (replicate limits.min_transport_payload 0) H1 H2) as [-> E]; [by rewrite length_replicate|].
  rewrite Nat.add_0_l, write_at_0, <- E, take_app_length. done.
Qed.

(** C19. What the bench hub publishes for a STATE channel is what its catalog says of that
    channel. If the layout fits a transport payload, the snapshot has exactly the layout's
    size; a client that decodes it with the fields the catalog serves reads, for every
    number, its value at the field's resolution, and for every text field without NUL
    bytes its text, cut at the field's width. *)
Theorem snapshot_reads_back (oob : spec_float -> Z) (ks : option (gmap bytes Z)) (sr : StateRuntime.t) (outs : list Float32.t) :
  let fs := ChannelConfig.fields (StateRuntime.cfg sr) in let layout := servedLayout ks fs in
  state_shaped sr -> (layoutWireSize layout <= limits.min_transport_payload)%nat -> (length fs <= length outs)%nat ->
  decodeByLayout layout (snapshot oob sr) outs =
    (Ok (length (snapshot oob sr)), zip_with (fun f v => delivered oob (wireField f) (Float32.of_bits v)) fs (StateRuntime.values sr) ++ drop (length fs) outs) /\
  forall i f lf s, fs !! i = Some f -> layout !! i = Some lf -> StateRuntime.strValues sr !! i = Some s -> FieldConfig.isStringLayout f = true -> Forall (fun b => b <> 0) s ->
    readStringField lf (drop (layoutWireSize (take i layout)) (snapshot oob sr)) = take (LayoutField.wireSize lf) s.
Proof.
  intros fs layout H L Lo. unfold layout in L. rewrite served_total in L. destruct (snapshot_bytes oob sr H L) as [Eb El]. destruct (H) as [H1 H2]. fold fs in H1, H2, Eb, El, L. split.
  - destruct (decodeByLayout layout (snapshot oob sr) outs) as [r os] eqn:E. destruct (decodeByLayout_spec layout (snapshot oob sr) outs) as [D1 D2]. rewrite E in D1, D2. cbn [fst snd] in *.
    assert (Ll : length layout = length fs) by apply length_fmap. assert (Lw : layoutWireSize layout = layoutWireSize (wireField <$> fs)) by apply served_total.
    rewrite D1, D2, El, Ll, Lw by lia. case_ifs; try lia. f_equal. rewrite write_at_0, Eb. rewrite <- (app_nil_r (states_bytes _ _ _ _)). unfold layout.
    rewrite layout_values_states by done. rewrite length_zip_with. do 2 f_equal. lia.
  - intros i f lf s Hf Hlf Hs Hstr Hz. unfold layout, servedLayout in Hlf. rewrite list_lookup_fmap, Hf in Hlf. injection Hlf as <-.
    destruct (lookup_lt_is_Some_2 (StateRuntime.values sr) i) as [v Hv]; [rewrite H1; by eapply lookup_lt_Some|].
    destruct (states_bytes_at oob fs _ _ i f v s H1 H2 Hf Hv Hs) as (rest & Er). unfold layout, servedLayout. rewrite <- fmap_take. fold (servedLayout ks (take i fs)). rewrite served_total, Eb, Er.
    unfold state_bytes. rewrite Hstr, <- app_assoc. rewrite <- (served_size ks f).
    apply readStringField_padded; [|by apply Forall_take|rewrite length_take; lia]. rewrite <- wire_string in Hstr. unfold LayoutField.isString in *. by rewrite (proj1 (served_field ks f)).
Qed.

(** ** Histories *)

Section histories.
Context (oob : spec_float -> Z) (sin : Float32.t -> Float32.t).

(** What happens to the tables: a write, the two passes of [tick], a publication. *)
Inductive event := Write (ch : Z) (requested : list IntentValueField) (nowMs : Z) | Animate (nowMs : Z) | Flush (nowMs : Z) | Publish (k : nat).

Definition happens (r : Runtime.t) (e : event) : Runtime.t :=
  match e with
  | Write ch requested now => (applyIntent oob ch requested now r).2
  | Animate now => tickAnimations sin now r
  | Flush now => landMirrors now r
  | Publish k => published k r
  end.

Lemma shaped_published k r : shaped r -> shaped (published k r).
Proof.
  intros H. unfold published. apply shaped_states; [done|by apply alter_cfg|]. apply Forall_alter; [apply H|]. by intros s _ Hs.
Qed.

Lemma shaped_happens r e : shaped r -> shaped (happens r e).
Proof.
  intros H. destruct e; cbn [happens]; [by apply shaped_applyIntent|by apply shaped_tickAnimations|by apply shaped_landMirrors|by apply shaped_published].
Qed.

Lemma shaped_history cfg start es : shaped (foldl happens (startRuntime cfg start) es).
Proof. generalize (shaped_start cfg start). generalize (startRuntime cfg start). induction es as [|e es IH]; intros r H; [done|]. cbn [foldl]. by apply IH, shaped_happens. Qed.
End histories.

(** The tables of the bench hub, after any history of writes, animations, flushes and
    publications: every STATE channel has one number and one text per field; every mirror
    that waits, and every link from an intent, points to an existing field of a STATE
    channel and knows whether it holds text; and the log holds at most 64 writes. *)
Theorem runtime_sound (oob : spec_float -> Z) (sin : Float32.t -> Float32.t) (cfg : HubConfig.t) (start : Z) (es : list event) :
  let r := foldl (happens oob sin) (startRuntime cfg start) es in
  Forall state_shaped (Runtime.states r) /\
  Forall (fun pm => field_kind (PendingMirror.stateId pm) (PendingMirror.fieldIndex pm) (Runtime.states r) = Some (PendingMirror.isString pm)) (Runtime.pending r) /\
  Forall (fun rt => Forall (fun l => IntentFieldLink.hasTarget l = true ->
    field_kind (IntentFieldLink.targetStateId l) (IntentFieldLink.targetFieldIndex l) (Runtime.states r) = Some (IntentFieldLink.targetIsString l)) (IntentRuntime.fields rt)) (Runtime.intents r) /\
  (length (Runtime.writeLog r) <= kWriteLogCapacity)%nat.
Proof. intros r. destruct (shaped_history oob sin cfg start es) as [H1 H2 H3 H4]. done. Qed.

(** A field of a shaped channel has a value. *)
Lemma kind_value r sid i b : shaped r -> field_kind sid i (Runtime.states r) = Some b -> is_Some (value_at sid i (Runtime.states r)).
Proof.
  intros H. unfold field_kind, value_at. destruct (findState sid (Runtime.states r)) as [k|]; [|done]. cbn [mbind option_bind]. destruct (Runtime.states r !! k) as [s|] eqn:E; [|done]. cbn [mbind option_bind].
  destruct (ChannelConfig.fields (StateRuntime.cfg s) !! i) as [f|] eqn:F; [|done]. intros _. apply lookup_lt_is_Some_2.
  destruct (Forall_lookup_1 _ _ _ _ (sh_states r H) E) as [-> _]. by eapply lookup_lt_Some.
Qed.

Lemma waits_spec now pm : waits now pm = negb (timeReached now (PendingMirror.dueMs pm)).
Proof. unfold waits, timeReached, timeDelta. lia. Qed.

Lemma filter_app_l {A} (p : A -> bool) l1 l2 : List.filter p (l1 ++ l2) = List.filter p l1 ++ List.filter p l2.
Proof. apply List.filter_app. Qed.

Lemma filter_none {A} (p : A -> bool) l : Forall (fun x => p x = false) l -> List.filter p l = [].
Proof. induction 1 as [|x l H _ IH]; [done|]. cbn. by rewrite H. Qed.

(** The mirror of a number. *)
Lemma mirror_number oob rt due rf l x : linkOf (f_key rf) rt = Some l -> IntentFieldLink.hasTarget l = true -> IntentFieldLink.targetIsString l = false -> number (Some l) (f_value rf) = Some x ->
  mirror oob rt due rf = [PendingMirror.mk (IntentFieldLink.targetStateId l) (IntentFieldLink.targetFieldIndex l) false x [] due].
Proof. intros E T S N. unfold mirror. rewrite E, N. unfold mirrorOf. by rewrite T, S. Qed.

(** The value of a STATE field, by the channel's id. *)
Definition state_value (sid : Z) (i : nat) (x : Z) (states : list StateRuntime.t) : Prop :=
  exists s, first_in (fun s => ChannelConfig.id (StateRuntime.cfg s) = sid) states s /\ StateRuntime.values s !! i = Some x.

Lemma state_value_at sid i x states : value_at sid i states = Some x -> state_value sid i x states.
Proof.
  unfold value_at. destruct (findState sid states) as [k|] eqn:E; [|done]. cbn [mbind option_bind]. destruct (states !! k) as [s|] eqn:Es; [|done]. cbn [mbind option_bind].
  intros H. exists s. split; [|done]. apply find_index_Some in E as (s' & Es' & P & Hmin). simplify_eq. exists k. split_and!; [done|by apply Z.eqb_eq|].
  intros j y Hj Hy. apply Z.eqb_neq. by eapply Hmin.
Qed.

Lemma findIntent_first ch l rt : first_in (fun rt => ChannelConfig.id (IntentRuntime.cfg rt) = ch) l rt -> findIntent ch l = Some rt.
Proof. intros H. by apply first_in_filter. Qed.

Lemma linkOf_first key rt l : linkOf key rt = Some l <-> first_in (fun l => IntentFieldLink.key l = key) (IntentRuntime.fields rt) l.
Proof. symmetry. apply first_in_filter. Qed.

(** A field that names no number is answered as it is. *)
Lemma echo_unchanged oob rt rf :
  asked (f_value rf) = None \/ (forall l, first_in (fun l => IntentFieldLink.key l = f_key rf) (IntentRuntime.fields rt) l -> IntentFieldLink.numeric l = false) ->
  echo oob rt rf = rf.
Proof.
  intros H. unfold echo, number. destruct rf as [k v]. cbn [f_key f_value] in *. destruct (linkOf k rt) as [l|] eqn:E; [|done]. apply linkOf_first in E.
  destruct H as [H|H]; [|by rewrite (H l E)]. destruct (IntentFieldLink.numeric l); [|done]. by destruct v.
Qed.

Lemma number_asked l v b : IntentFieldLink.numeric l = true -> asked v = Some b -> number (Some l) v = Some (clamp l b).
Proof. intros N A. unfold number. rewrite N. destruct v; try done; by injection A as <-. Qed.

(** The mirrors of a request reach the STATE field. *)
Lemma write_lands oob r ch now now' requested rt pre post rf l x :
  let due := u32 (now + IntentRuntime.echoDelayMs rt) in
  let r' := (applyIntent oob ch requested now r).2 in
  shaped r -> findIntent ch (Runtime.intents r) = Some rt -> take kIntentMaxValueFields requested = pre ++ rf :: post ->
  linkOf (f_key rf) rt = Some l -> IntentFieldLink.hasTarget l = true -> IntentFieldLink.targetIsString l = false -> number (Some l) (f_value rf) = Some x ->
  Forall (fun rf' => forall l', linkOf (f_key rf') rt = Some l' -> IntentFieldLink.hasTarget l' = true -> IntentFieldLink.targetFieldIndex l' <> IntentFieldLink.targetFieldIndex l) post ->
  timeReached now' due = true ->
  value_at (IntentFieldLink.targetStateId l) (IntentFieldLink.targetFieldIndex l) (Runtime.states (landMirrors now' r')) = Some x.
Proof.
  intros due r' H Hi Hreq Hl Ht Hs Hn Hpost Hw. unfold r'. clear r'. destruct (applyIntent_spec oob ch requested now r rt Hi) as (entry & E2). cbv zeta in E2. rewrite E2, Hreq. cbn [snd]. fold due.
  set (sid := IntentFieldLink.targetStateId l). set (i := IntentFieldLink.targetFieldIndex l). set (ms := concat (mirror oob rt due <$> pre ++ rf :: post)).
  change (value_at sid i (foldl land (Runtime.states r) (List.filter (fun pm => negb (waits now' pm)) (Runtime.pending r ++ ms))) = Some x).
  rewrite value_at_lands. assert (V : is_Some (value_at sid i (Runtime.states r))).
  { eapply kind_value; [done|]. pose proof (sh_links r H) as K. rewrite Forall_forall in K. specialize (K rt (findIntent_elem _ _ _ Hi)). rewrite Forall_forall in K. by apply K; [eapply linkOf_elem|]. }
  assert (P : List.filter (targets false sid i) (List.filter (fun pm => negb (waits now' pm)) (concat (mirror oob rt due <$> post))) = []).
  { apply filter_none, Forall_forall. intros pm Hp. apply list_elem_of_In, filter_In in Hp as [Hp _]. apply in_concat in Hp as (ml & Hml%list_elem_of_In & Hpm%list_elem_of_In).
    apply list_elem_of_fmap in Hml as (rf' & -> & Hrf). rewrite Forall_forall in Hpost. pose proof (Hpost rf' Hrf) as D. apply mirrorOf_link in Hpm as (l' & El & T & _ & Ei & _). unfold targets.
    rewrite Ei. destruct (Nat.eqb_spec (IntentFieldLink.targetFieldIndex l') i) as [Q|]; [by apply (D l' El) in Q|]. by rewrite andb_false_r. }
  unfold ms. rewrite fmap_app, fmap_cons, concat_app. cbn [concat]. rewrite (mirror_number oob rt due rf l x Hl Ht Hs Hn). rewrite !filter_app_l, P. cbn [List.filter app].
  rewrite waits_spec. cbn [PendingMirror.dueMs]. rewrite Hw. cbn [negb List.filter app]. unfold targets at 3. cbn [PendingMirror.stateId PendingMirror.fieldIndex PendingMirror.isString].
  rewrite Z.eqb_refl, Nat.eqb_refl. cbn [andb Bool.eqb]. rewrite app_nil_r, app_assoc, last_snoc. destruct V as [y ->]. done.
Qed.

(** C17. A write of a bench client reaches the STATE channel it is linked to. Every field of
    the request, of at most eight, is answered in its place under its key; one that is no
    number, or whose key no numeric link has, is answered as it is. A number whose link
    names a number of a STATE channel is clamped to the link's bounds (within them, whenever
    they admit a number) and answered in the kind it was asked in: a float as the clamped
    number, an integer as the integer nearest to it (a half away from zero, and 0 for a
    negative number in an unsigned field), where 63 bits hold it. At a flush at least the
    echo delay later the clamped number, not the rounded one, is the STATE field's value,
    whatever other writes were waiting, unless a later field of the same request writes it
    too. The write itself changes no STATE value. *)
Theorem write_mirrored (oob : spec_float -> Z) (r : Runtime.t) (ch now now' : Z) (requested : list IntentValueField)
    (rt : IntentRuntime.t) (pre post : list IntentValueField) (rf : IntentValueField) (l : IntentFieldLink.t) (b : Z) :
  let '(res, r') := applyIntent oob ch requested now r in
  let link key := first_in (fun l => IntentFieldLink.key l = key) (IntentRuntime.fields rt) in
  shaped r -> first_in (fun rt => ChannelConfig.id (IntentRuntime.cfg rt) = ch) (Runtime.intents r) rt ->
  take 8 requested = pre ++ rf :: post ->
  link (f_key rf) l -> IntentFieldLink.numeric l = true -> asked (f_value rf) = Some b ->
  IntentFieldLink.hasTarget l = true -> IntentFieldLink.targetIsString l = false ->
  Forall (fun rf' => forall l', link (f_key rf') l' -> IntentFieldLink.hasTarget l' = true -> IntentFieldLink.targetFieldIndex l' <> IntentFieldLink.targetFieldIndex l) post ->
  timeReached now' (u32 (now + IntentRuntime.echoDelayMs rt)) = true ->
  exists answers x v,
    res = Ok answers /\ f_key <$> answers = f_key <$> take 8 requested /\
    (forall k rf', take 8 requested !! k = Some rf' ->
       asked (f_value rf') = None \/ (forall l', link (f_key rf') l' -> IntentFieldLink.numeric l' = false) -> answers !! k = Some rf') /\
    clamped l b x /\ (bounded l -> is_nan (Float32.of_bits b) = false -> within l x) /\
    answers !! length pre = Some (mkField (f_key rf) v) /\ answered (f_value rf) x v /\
    Runtime.states r' = Runtime.states r /\
    state_value (IntentFieldLink.targetStateId l) (IntentFieldLink.targetFieldIndex l) x (Runtime.states (landMirrors now' r')).
Proof.
  destruct (applyIntent oob ch requested now r) as [res r'] eqn:E. intros link H Hi%findIntent_first Hreq Hl%linkOf_first Hnum Ha Ht Hs Hpost Hw.
  pose proof (number_asked l _ b Hnum Ha) as Hn.
  destruct (applyIntent_spec oob ch requested now r rt Hi) as (entry & E2). cbv zeta in E2. change kIntentMaxValueFields with 8%nat in E2.
  exists (echo oob rt <$> take 8 requested), (clamp l b), (withNumericValue oob (f_value rf) (clamp l b)). rewrite E in E2. injection E2 as -> Er'. split_and!.
  - done.
  - rewrite <- list_fmap_compose. by apply list_fmap_ext.
  - intros k rf' Hk Hu. rewrite list_lookup_fmap, Hk. cbn [fmap option_fmap option_map]. by rewrite (echo_unchanged oob rt rf' Hu).
  - apply clamp_clamped.
  - apply clamp_within.
  - rewrite Hreq, list_lookup_fmap, list_lookup_middle by done. cbn [fmap option_fmap option_map]. unfold echo. by rewrite Hl, Hn.
  - apply withNumericValue_answered.
  - by rewrite Er'.
  - apply state_value_at. pose proof (write_lands oob r ch now now' requested rt pre post rf l (clamp l b)) as L. cbv zeta in L. rewrite E in L. apply L; try done.
    eapply Forall_impl; [exact Hpost|]. intros rf' D l' Hl'%linkOf_first. by apply D.
Qed.

(** ** The tiny axis *)

Definition tiny_runtime : Runtime.t := startRuntime tiny_config 0.
Definition no_sin (x : Float32.t) : Float32.t := Float32.zero.
Definition no_oob (x : spec_float) : Z := 0.

(** The first STATE channel and the one intent. *)
Definition tiny_state : StateRuntime.t := nth 0 (Runtime.states tiny_runtime) (startState ChannelConfig.init).
Definition tiny_intent : IntentRuntime.t := nth 0 (Runtime.intents tiny_runtime) (IntentRuntime.mk ChannelConfig.init 0 []).
Definition tiny_link : IntentFieldLink.t := nth 0 (IntentRuntime.fields tiny_intent) IntentFieldLink.init.

Lemma tiny_shaped : shaped tiny_runtime.
Proof. apply shaped_start. Qed.

(** Fresh values, 0 mm and 0 mm/s, are read as they are. *)
Lemma snapshot_reads_back_witness :
  decodeByLayout (servedLayout None (ChannelConfig.fields (StateRuntime.cfg tiny_state))) (snapshot no_oob tiny_state) [S754_nan; S754_nan] = (Ok 8%nat, [Float32.zero; Float32.zero]).
Proof.
  assert (S : state_shaped tiny_state) by (split; vm_compute; reflexivity).
  assert (L : (layoutWireSize (servedLayout None (ChannelConfig.fields (StateRuntime.cfg tiny_state))) <= limits.min_transport_payload)%nat) by (apply Nat.leb_le; vm_compute; reflexivity).
  assert (N : (length (ChannelConfig.fields (StateRuntime.cfg tiny_state)) <= length [S754_nan; S754_nan])%nat) by (apply Nat.leb_le; vm_compute; reflexivity).
  destruct (snapshot_reads_back no_oob None tiny_state [S754_nan; S754_nan] S L N) as [E _]. rewrite E. vm_compute. reflexivity.
Defined.

(** 700 mm are asked for; 500 mm are answered and, without an echo delay, mirrored at once. *)
Definition tiny_write : IntentValueField := mkField 1 (F32 0x442F0000).

Lemma first_one {A} (P : A -> Prop) x l : P x -> first_in P (x :: l) x.
Proof. intros H. apply first_in_cons. by left. Qed.

Lemma write_mirrored_witness :
  let '(res, r') := applyIntent no_oob 0x3000 [tiny_write] 1000 tiny_runtime in
  res = Ok [mkField 1 (F32 0x43FA0000)] /\ state_value 0x1000 0 0x43FA0000 (Runtime.states (landMirrors 1000 r')) /\ within tiny_link 0x43FA0000.
Proof.
  pose proof (write_mirrored no_oob tiny_runtime 0x3000 1000 1000 [tiny_write] tiny_intent [] [] tiny_write tiny_link 0x442F0000) as W.
  assert (Er : (applyIntent no_oob 0x3000 [tiny_write] 1000 tiny_runtime).1 = Ok [mkField 1 (F32 0x43FA0000)]) by (vm_compute; reflexivity).
  destruct (applyIntent no_oob 0x3000 [tiny_write] 1000 tiny_runtime) as [res r']. cbn [fst] in Er. cbv zeta in W.
  destruct W as (answers & x & v & W1 & _ & _ & _ & W5 & W6 & W7 & _ & W9).
  - exact tiny_shaped.
  - apply first_one. vm_compute. reflexivity.
  - reflexivity.
  - apply first_one. vm_compute. reflexivity.
  - vm_compute. reflexivity.
  - reflexivity.
  - vm_compute. reflexivity.
  - vm_compute. reflexivity.
  - constructor.
  - vm_compute. reflexivity.
  - rewrite Er in W1. injection W1 as <-. cbn in W6, W7. injection W6 as <-. injection W7 as <-. split; [exact Er|]. split; [exact W9|].
    apply W5; [split_and!|]; vm_compute; reflexivity.
Defined.

(** ** Values the tables do not keep *)

(** An integer beyond 24 bits is answered rounded, though no bound touches it. *)
Example integer_rounded : echo no_oob (IntentRuntime.mk ChannelConfig.init 0 [IntentFieldLink.init{{IntentFieldLink.key := 1; IntentFieldLink.numeric := true}}]) (mkField 1 (U64 16777217)) = mkField 1 (U64 16777216).
Proof. vm_compute. reflexivity. Qed.

(** An integer field with a fractional bound is answered beyond it: 12, at most
    10.5, is mirrored as 10.5 and answered as 11. *)
Example rounded_beyond_bound :
  let link := IntentFieldLink.init{{IntentFieldLink.key := 1; IntentFieldLink.numeric := true; IntentFieldLink.hasMax := true; IntentFieldLink.max := 0x41280000;
                IntentFieldLink.hasTarget := true; IntentFieldLink.targetStateId := 0x1000}} in
  let rt := IntentRuntime.mk ChannelConfig.init 0 [link] in
  echo no_oob rt (mkField 1 (U64 12)) = mkField 1 (U64 11) /\ PendingMirror.value <$> mirror no_oob rt 0 (mkField 1 (U64 12)) = [0x41280000].
Proof. vm_compute. done. Qed.

(** A bool is answered as it is and mirrored as zero. *)
Example bool_mirrored_as_zero :
  let link := IntentFieldLink.init{{IntentFieldLink.key := 1; IntentFieldLink.hasTarget := true; IntentFieldLink.targetStateId := 0x1000}} in
  let rt := IntentRuntime.mk ChannelConfig.init 0 [link] in
  echo no_oob rt (mkField 1 (Bool true)) = mkField 1 (Bool true) /\ PendingMirror.value <$> mirror no_oob rt 0 (mkField 1 (Bool true)) = [0].
Proof. vm_compute. done. Qed.

(** A negative number in a bitfield has no display. *)
Example negative_bitfield_undefined : formatFieldValue (FieldConfig.init{{FieldConfig.layoutType := LayoutKind.Bitfield8}}) 0xBF800000 [] = None.
Proof. vm_compute. reflexivity. Qed.
