(* ===== verification/HubState.v ===== *)
(** * HubState: the hub's state, its surroundings and its outgoing side

    hub/hub.hpp and the part of hub/hub_impl.hpp that the frame handlers share:
    sending, publishing, the safety latch, ownership, pairing notifications and
    the life of a session (stale, torn down, parked).

    The hub is a record of its members; a handler is a function on [World], the
    hub with everything it talks to. [Platform] is that outside: transports,
    clock, random numbers, the signing seam and the application's [HubDelegate].
    Its answers are functions of an abstract environment; a callback that returns
    nothing, and every frame written, is an [Effect] in the trace. Callbacks do
    not call back into the hub. [inbox] holds the frames the transports will
    deliver.

    A computation returns [None] when the code would be undefined: a null
    transport pointer dereferenced, a slot index out of range, a loop that does
    not end. A pointer to a slot is its index. *)

From S2P Require Import Prelude Registry Float ByteIO Serial Frame Bundle Blob Cbor Messages Codec Trust Handshake Raw Crypto Catalog Channel Safety Pairing TrustLedger Session Builtin.
Local Open Scope Z_scope.

(** ** The hub's surroundings *)

Inductive Effect : Type :=
| Sent (t : nat) (frame : bytes) (ok : bool)
| Closed (t : nat)
| OnEstop (cause origin : Z)
| OnSessionJoined (sid : Z)
| OnSessionLeft (sid : Z)
| OnSourceOwnership (source owner reason : Z)
| OnStreamBundle (ch sid : Z) (bundle : BundleView)
| ApplyIntent (ch : Z) (requested : list IntentValueField) (role : AccessLevel)
| CanClearEstop (answer : bool).

Class Platform := {
  Env : Type;
  (** ITransport *)
  t_open : nat -> Env -> bool * Env;
  t_write : nat -> bytes -> Env -> bool * Env;
  t_mtu : nat -> Env -> Z;
  (** IClock *)
  clk_nowUs : Env -> Z * Env;
  (** HubDelegate *)
  d_validateToken : bytes -> bytes -> bool -> Env -> AccessLevel * Env;
  d_applyIntent : Z -> list IntentValueField -> AccessLevel -> Env -> (Result (list IntentValueField) Z * bool) * Env;
  d_sourceForChannel : Z -> Env -> option Z * Env;
  d_canClearEstop : Env -> bool * Env;
  d_effectiveCurveFamily : Z -> Z -> Env -> Z * Env;
  d_readBlob : Z -> Z -> Z -> Env -> option (bytes * Z) * Env;
  (** the callbacks that return nothing *)
  d_react : Effect -> Env -> Env;
  (** IRandom *)
  Rng : Type;
  #[global] Rng_IRandom :: IRandom Rng;
  nextU32 : Rng -> Z * Rng;
  (** ICrypto, with the P-256 seam: bytes written and the buffer *)
  Cry : Type;
  #[global] Cry_ICrypto :: ICrypto Cry;
  crypto : Cry;
  signP256 : bytes -> nat * bytes;
  publicKey : nat * bytes;
}.

(** ** State *)

Module PushRecord.
Record t := mk { channel_id : Z; lastSeq : Z; valid : bool; shedCounter : Z }.
Definition none : t := mk 0 0 false 0.
End PushRecord.

Module ConflictNack.
Record t := mk { used : bool; source : Z; lastMs : Z }.
Definition none : t := mk false 0 0.
End ConflictNack.

Module PendingBlob.
Record t := mk {
  active : bool; id : BlobId; totalBytes : Z; generation : Z; reqSeq : Z; hasReqSeq : bool; full : bool;
  nextIndex : Z; cursor : Z; chunks : list Z }.
Definition none : t := mk false noBlobId 0 0 0 false true 0 0 [].
End PendingBlob.

Module Slot.
Record t := mk {
  transport : option nat; session : HubSession.t; pushRecords : list PushRecord.t; nonce : bytes; clientNonce : bytes;
  hasClientNonce : bool; sigRequested : bool; signPending : bool; signDelivered : bool; authFailures : Z;
  congestionLevel : Z; criticalStalling : bool; criticalStallSinceMs : Z; hasProbeReport : bool;
  lastProbeReport : ProbeResult; conflictNacks : list ConflictNack.t; blob : PendingBlob.t }.

Definition noPushRecords : list PushRecord.t := replicate limits.max_subscriptions_per_session PushRecord.none.
Definition noConflictNacks : list ConflictNack.t := replicate Ownership.kMaxSources ConflictNack.none.
Definition noClientNonce : bytes := replicate kTrustClientNonceBytes 0.

Definition init : t :=
  mk None HubSession.init noPushRecords (replicate 8 0) noClientNonce false false false false 0 0 false 0 false
    (mkProbe 0 0 0 0) noConflictNacks PendingBlob.none.
End Slot.

Definition kHubMaxSessions : nat := 4.
Definition kSlotCapacity : nat := kHubMaxSessions + 1.
Definition kBlobChunksPerTick : nat := 2.
Definition kHubBusyRetryAfterMs : Z := limits.busy_retry_after_default_ms.
Definition kRetainedCapacity : nat := 32.

Module Hub.
Record t := mk {
  slots : list Slot.t; retained : RetainedStore.store; etag : bytes; catalogEncoded : bytes;
  idProduct : bytes; idFwVersion : bytes; idHubName : bytes; hubInstanceId : Z; wsPort : Z; ipv4 : Z; bootId : Z; cfgGen : Z;
  monoMs : MonotonicMs.t; dispatchSeq : Z; dispatchSeqValid : bool; safetyWord : Z; safetyCause : Z; safetyOwnerSession : Z;
  estopSeq : Z; safetyModes : Z; pairing : Ledger.PairingManager; ownership : Ownership.table; pairedStoreId : Z;
  hasPairedStore : bool; presenceWasOpen : bool; inlineSigning : bool; logRing : EventReplayRing.ring }.
End Hub.

Section hub.
Context {P : Platform}.

Record World := mkWorld { hub : Hub.t; env : Env; rng : Rng; inbox : nat -> list FrameBuffer.t; trace : list Effect }.

(** ** Computations *)

Definition M (A : Type) : Type := World -> option (A * World).

#[global] Instance M_ret : MRet M := fun A a w => Some (a, w).
#[global] Instance M_bind : MBind M := fun A B k m w => match m w with Some (a, w) => k a w | None => None end.
#[global] Instance M_fmap : FMap M := fun A B f m w => match m w with Some (a, w) => Some (f a, w) | None => None end.

Definition undefined {A} : M A := fun _ => None.
Definition when (b : bool) (m : M unit) : M unit := if b then m else mret tt.
Definition gets {A} (f : Hub.t -> A) : M A := fun w => Some (f (hub w), w).
Definition modify (f : Hub.t -> Hub.t) : M unit := fun w => Some (tt, mkWorld (f (hub w)) (env w) (rng w) (inbox w) (trace w)).

(** Ask the surroundings. *)
Definition ask {A} (q : Env -> A * Env) : M A :=
  fun w => let '(a, e) := q (env w) in Some (a, mkWorld (hub w) e (rng w) (inbox w) (trace w)).
Definition record (e : Effect) : M unit := fun w => Some (tt, mkWorld (hub w) (env w) (rng w) (inbox w) (trace w ++ [e])).
(** Tell the surroundings. *)
Definition notify (e : Effect) : M unit := record e ;; ask (fun v => (tt, d_react e v)).
Definition random {A} (f : Rng -> A * Rng) : M A :=
  fun w => let '(a, r) := f (rng w) in Some (a, mkWorld (hub w) (env w) r (inbox w) (trace w)).
Definition read (t : nat) : M (option FrameBuffer.t) :=
  fun w =>
    match inbox w t with
    | [] => Some (None, w)
    | fb :: rest => Some (Some fb, mkWorld (hub w) (env w) (rng w) (fun u => if (u =? t)%nat then rest else inbox w u) (trace w))
    end.

Fixpoint each {A} (l : list A) (body : A -> M unit) : M unit :=
  match l with [] => mret tt | x :: l => body x ;; each l body end.

Definition nowUs : M Z := ask clk_nowUs.
Definition nowMs : M Z := (fun us => us / 1000) <$> nowUs.

(** [do { x = rng.nextU32(); } while (x == 0);], with the number of draws it may
    take. *)
Fixpoint drawNonZero (tries : nat) : M Z :=
  match tries with
  | O => undefined
  | S n => x ← random nextU32; if x =? 0 then drawNonZero n else mret x
  end.

(** *** Slots *)

Definition getSlot (i : nat) : M Slot.t :=
  l ← gets Hub.slots; match l !! i with Some s => mret s | None => undefined end.
Definition modifySlot (i : nat) (f : Slot.t -> Slot.t) : M unit := modify (fun h => h{{Hub.slots := alter f i (Hub.slots h)}}).
Definition getSession (i : nat) : M HubSession.t := s ← getSlot i; mret (Slot.session s).
Definition modifySession (i : nat) (f : HubSession.t -> HubSession.t) : M unit :=
  modifySlot i (fun s => s{{Slot.session := f (Slot.session s)}}).
(** [*slot.transport] *)
Definition deref (i : nat) : M nat := s ← getSlot i; match Slot.transport s with Some t => mret t | None => undefined end.

Definition allSlots : list nat := seq 0 kSlotCapacity.

(** The first slot for which the test holds. *)
Definition findSlot (p : nat -> Slot.t -> bool) (h : Hub.t) : option nat :=
  find_index (fun '(i, s) => p i s) (zip (seq 0 (length (Hub.slots h))) (Hub.slots h)).

Definition isNot (exclude : option nat) (i : nat) : bool :=
  match exclude with Some j => negb (i =? j)%nat | None => true end.
Definition slotOccupied (s : Slot.t) : bool := HubSession.occupied (Slot.session s).

Definition occupiedCount (exclude : option nat) (h : Hub.t) : nat :=
  length (List.filter (fun '(i, s) => isNot exclude i && slotOccupied s) (zip (seq 0 (length (Hub.slots h))) (Hub.slots h))).

Definition findSlotByInstance (instanceId : bytes) (exclude : option nat) : Hub.t -> option nat :=
  findSlot (fun i s => isNot exclude i && slotOccupied s && bool_decide (instanceId = HubSession.instance_id (Slot.session s))).

Definition findSlotBySession (sid : Z) (h : Hub.t) : option nat :=
  if sid =? 0 then None else findSlot (fun _ s => slotOccupied s && (HubSession.session_id (Slot.session s) =? sid)) h.

Definition attachedSlotFor (t : nat) : Hub.t -> option nat :=
  findSlot (fun _ s => bool_decide (Slot.transport s = Some t)).

Definition isStale (s : Slot.t) : bool := bool_decide (HubSession.state (Slot.session s) = HubSessionState.STALE).

(** Lowest role first, then the longest stale. *)
Definition staler (s best : Slot.t) : bool :=
  let role x := access_u8 (HubSession.role (Slot.session x)) in
  (role s <? role best)
  || ((role s =? role best)
      && (timeDelta (HubSession.staleSinceMs (Slot.session s)) (HubSession.staleSinceMs (Slot.session best)) <? 0)).

Definition findEvictableStale (exclude : option nat) (h : Hub.t) : option nat :=
  fst <$> foldl (fun best '(i, s) =>
      if negb (isNot exclude i) || negb (isStale s) then best
      else match best with None => Some (i, s) | Some (_, b) => if staler s b then Some (i, s) else best end)
    None (zip (seq 0 (length (Hub.slots h))) (Hub.slots h)).

Context (catalog : BasicCatalog).

(** ** Sending *)

Definition writeTo (t : nat) (frame : bytes) : M bool :=
  ok ← ask (t_write t frame); record (Sent t frame ok) ;; mret ok.

Definition sendFrameTo (t : nat) (type channel : Z) (payload : bytes) (seq : Z) : M bool :=
  let h := mkFrameHeader type 0 channel seq (u16 (Z.of_nat (length payload))) in
  let '(pos, buf) := encodeFrameHeader h (replicate kFrameBufferCapacity 0) in
  if (pos =? 0)%nat then mret false
  else if (length buf - pos <? length payload)%nat then mret false
  else writeTo t (take (pos + length payload) (write_at pos payload buf)).

Definition nack (code : Z) : NackMsg := mkNack code false 0 false 0 false [] false 0 false 0.
Definition onChannel (ch : Z) (n : NackMsg) : NackMsg := n{{nk_has_channel := true; nk_channel_id := ch}}.
Definition onIntent (id : Z) (n : NackMsg) : NackMsg := n{{nk_has_intent_id := true; nk_intent_id := id}}.
Definition withDetail (s : bytes) (n : NackMsg) : NackMsg := n{{nk_has_detail := true; nk_detail := s}}.
Definition retryAfter (ms : Z) (n : NackMsg) : NackMsg := n{{nk_has_retry := true; nk_retry_after_ms := ms}}.

(** The frame that is being dispatched stamps the NACK. *)
Definition stamped (n : NackMsg) : M NackMsg :=
  seq ← gets Hub.dispatchSeq; valid ← gets Hub.dispatchSeqValid;
  mret (if negb (nk_has_intent_seq n) && valid then n{{nk_has_intent_seq := true; nk_intent_seq := seq}} else n).

Definition sendNack (t : nat) (n : NackMsg) : M unit :=
  n ← stamped n;
  let '(len, buf) := encodeNack n (replicate 128 0) in
  if (len =? 0)%nat then mret tt
  else _ ← sendFrameTo t FrameType.NACK 0 (take len buf) 0; mret tt.

(** [sendNack( *slot.transport, n)] *)
Definition nackTo (i : nat) (n : NackMsg) : M unit := t ← deref i; sendNack t n.

Definition sendGoodbye (t : nat) (code : Z) : M unit :=
  let '(len, buf) := encodeGoodbye (mkGoodbye code false []) (replicate 64 0) in
  if (len =? 0)%nat then mret tt else _ ← sendFrameTo t FrameType.GOODBYE 0 (take len buf) 0; mret tt.

(** ... to a slot that may have no transport. *)
Definition goodbyeTo (i : nat) (code : Z) : M unit :=
  s ← getSlot i; match Slot.transport s with Some t => sendGoodbye t code | None => mret tt end.

(** ** Publishing *)

Definition publishState (ch : Z) (payload : bytes) : M bool :=
  store ← gets Hub.retained;
  let '(seq, store) := RetainedStore.publish kRetainedCapacity ch payload store in
  modify (fun h => h{{Hub.retained := store}}) ;;
  mret (match seq with Some _ => true | None => false end).

(** The same, for its effect. *)
Definition publish (ch : Z) (payload : bytes) : M unit := _ ← publishState ch payload; mret tt.

(** [while (auto ev = events.pop())]: as many rounds as there are events. *)
Fixpoint drainEvents (n : nat) (i t : nat) : M unit :=
  match n with
  | O => mret tt
  | S n =>
      s ← getSession i;
      let '(ev, q) := EventQueue.pop HubSession.kEventDepth HubSession.kEventSlot (HubSession.events s) in
      match ev with
      | None => mret tt
      | Some (ch, bs) =>
          modifySession i (fun s => s{{HubSession.events := q}}) ;;
          _ ← sendFrameTo t FrameType.EVENT ch bs 0;
          drainEvents n i t
      end
  end.

Definition pumpEventDrain (i : nat) : M unit :=
  s ← getSlot i;
  match Slot.transport s with
  | None => mret tt
  | Some t =>
      if negb (HubSession.ready (Slot.session s)) then mret tt
      else drainEvents (S (EventQueue.count (HubSession.events (Slot.session s)))) i t
  end.

Definition subscribed (ch : Z) (s : Slot.t) : bool :=
  match Subscription.find ch (HubSession.subs (Slot.session s)) with Some _ => true | None => false end.

Definition pushEvent (i : nat) (ch : Z) (bs : bytes) : M unit :=
  modifySession i (fun s =>
    s{{HubSession.events := snd (EventQueue.push HubSession.kEventDepth HubSession.kEventSlot ch bs (HubSession.events s))}}).

Definition publishEvent (ch : Z) (bs : bytes) : M bool :=
  l ← gets Hub.slots;
  let any := existsb (fun s => slotOccupied s && subscribed ch s) l in
  each allSlots (fun i =>
    s ← getSlot i; when (slotOccupied s && subscribed ch s) (pushEvent i ch bs)) ;;
  when any (each allSlots (fun i => s ← getSlot i; when (slotOccupied s) (pumpEventDrain i))) ;;
  mret any.

(** [encodeEvent] into a buffer of [cap] bytes, published when it fits. *)
Definition emitEvent (cap : nat) (ev : EventMsg) : M unit :=
  let '(n, buf) := encodeEvent ev (replicate cap 0) in
  if (n =? 0)%nat then mret tt else _ ← publishEvent (ev_channel_id ev) (take n buf); mret tt.

Definition anySubscribed (ch : Z) (h : Hub.t) : bool := existsb (fun s => slotOccupied s && subscribed ch s) (Hub.slots h).

Definition emitTakeoverEvent (source_id newOwnerSession nowMs : Z) : M unit :=
  any ← gets (anySubscribed channels.session_events);
  when any (emitEvent 64 (mkEvent channels.session_events nowMs session_events.takeover false 0 true
    [mkField 1 (U64 source_id); mkField 2 (U64 newOwnerSession)])).

Definition emitSessionEvent (kind sid nowMs : Z) : M unit :=
  any ← gets (anySubscribed channels.session_events);
  when any (emitEvent 32 (mkEvent channels.session_events nowMs kind false 0 true [mkField 1 (U64 sid)])).

Definition declared (ch : Z) : bool := match Catalog.find ch catalog with Some _ => true | None => false end.

Definition emitPairingEvent (kind : Z) (instance_id name : bytes) (mode : Z) (role : AccessLevel) (version : bytes) (nowMs : Z) : M unit :=
  when (declared channels.pairing_events)
    (emitEvent 160 (mkEvent channels.pairing_events nowMs kind false 0 true
      ((if bool_decide (instance_id = []) then [] else [mkField pairing_body.instance_id (Bstr instance_id)])
       ++ (if bool_decide (name = []) then [] else [mkField pairing_body.name (Tstr name)])
       ++ [mkField pairing_body.mode (U64 mode); mkField pairing_body.role (U64 (access_u8 role))]
       ++ (if bool_decide (version = []) then [] else [mkField pairing_body.version (Tstr version)])))).

(** *** Ownership and rosters *)

Definition put (off n : nat) (f : bytes -> nat * bytes) (buf : bytes) : bytes := snd (on_subn off n f buf).

Definition buildControlOwnerPayload (h : Hub.t) : bytes :=
  foldl (fun buf i =>
      let off := (i * 5)%nat in
      let buf := put off 1 (fun s => putU8 s (Z.of_nat i)) buf in
      put (off + 1) 4 (fun s => putU32 s (Ownership.ownerOf (Z.of_nat i) (Hub.ownership h))) buf)
    (replicate 20 0) (seq 0 Ownership.kMaxSources).

Definition publishControlOwnerStateIfPresent : M unit :=
  when (declared channels.control_owner) (p ← gets buildControlOwnerPayload; publish channels.control_owner p).

Definition buildPendingSlot (nowMs : Z) (off : nat) (k : Pending.PendingKnock) (buf : bytes) : bytes :=
  if negb (Pending.used k) then buf
  else
    let buf := put off 4 (fun s => putU32 s (getU32 (subspan 0 4 (Pending.instance_id k)))) buf in
    let buf := put (off + 4) 4 (fun s => putU32 s (getU32 (subspan 4 4 (Pending.instance_id k)))) buf in
    let buf := put (off + 8) 1 (fun s => putU8 s (Pending.mode k)) buf in
    let remainMs := if timeReached nowMs (Pending.expiresAtMs k) then 0 else u32 (Pending.expiresAtMs k - nowMs) in
    let remainS := u32 (remainMs + 999) / 1000 in
    let remainS := if 0xFFFF <? remainS then 0xFFFF else remainS in
    let buf := put (off + 9) 2 (fun s => putU16 s remainS) buf in
    let nm := BoundedString.view (Pending.name k) in
    foldl (fun buf b => write_at (off + 11 + b) [if (b <? length nm)%nat then byte_at b nm else 0] buf) buf (seq 0 16).

Definition buildPendingPayload (nowMs : Z) (m : Ledger.PairingManager) : bytes :=
  let buf := replicate kPendingPayloadBytes 0 in
  let buf := put 0 2 (fun s => putU16 s (Ledger.generation m)) buf in
  let buf := put 2 1 (fun s => putU8 s (u8 (Z.of_nat (Pending.count (Ledger.pending m))))) buf in
  let buf := put 3 1 (fun s => putU8 s (if Ledger.presenceWindowOpen nowMs m then pending_pairing_flags.window_open else 0)) buf in
  foldl (fun buf i =>
      match Ledger.pending m !! i with
      | Some k => buildPendingSlot nowMs (4 + i * kPendingSlotBytes) k buf
      | None => buf
      end) buf (seq 0 kPendingSlots).

Definition publishPendingPairingState (nowMs : Z) : M unit :=
  when (declared channels.pending_pairing)
    (m ← gets Hub.pairing; publish channels.pending_pairing (buildPendingPayload nowMs m)).

Definition buildRosterPayload (m : Ledger.PairingManager) : bytes :=
  let buf := replicate kPairedRosterBytes 0 in
  let buf := put 0 2 (fun s => putU16 s (Ledger.generation m)) buf in
  let buf := put 2 1 (fun s => putU8 s (u8 (Z.of_nat (Ledger.entryCount m)))) buf in
  put 3 1 (fun s => putU8 s (u8 (Z.of_nat Ledger.kMaxPaired))) buf.

Definition publishPairedRosterState : M unit :=
  when (declared channels.paired_devices_roster)
    (m ← gets Hub.pairing; publish channels.paired_devices_roster (buildRosterPayload m)).

(** ** Letting go of a session *)

Definition releaseSessionSources (sid reason nowMs : Z) : M unit :=
  t ← gets Hub.ownership;
  let '(released, t) := Ownership.releaseAllOf sid t in
  modify (fun h => h{{Hub.ownership := t}}) ;;
  each released (fun source => notify (OnSourceOwnership source 0 reason)) ;;
  when (negb (length released =? 0)%nat) publishControlOwnerStateIfPresent.

Definition markStale (i : nat) (nowMs reason : Z) : M unit :=
  s ← getSession i;
  releaseSessionSources (HubSession.session_id s) reason nowMs ;;
  modifySession i (fun s => s{{HubSession.state := HubSessionState.STALE; HubSession.staleSinceMs := nowMs}}) ;;
  emitSessionEvent session_events.session_stale (HubSession.session_id s) nowMs.

Definition reviveIfStale (i : nat) (nowMs : Z) : M unit :=
  s ← getSlot i;
  when (isStale s)
    (modifySession i (fun s => s{{HubSession.state := HubSessionState.LIVE; HubSession.staleSinceMs := 0}}) ;;
     emitSessionEvent session_events.session_resumed (HubSession.session_id (Slot.session s)) nowMs).

Definition modifyPairing (f : Ledger.PairingManager -> Ledger.PairingManager) : M unit :=
  modify (fun h => h{{Hub.pairing := f (Hub.pairing h)}}).

(** Knocks that go away, each announced. *)
Definition announceExpired (gone : list Pending.PendingKnock) (nowMs : Z) : M unit :=
  each gone (fun k =>
    emitPairingEvent pairing_events.expired (Pending.instance_id k) (BoundedString.view (Pending.name k)) (Pending.mode k) watch [] nowMs).

Definition dropKnocks (sid nowMs : Z) : M unit :=
  m ← gets Hub.pairing;
  let '(gone, _, pend) := Pending.dropBySession sid (Ledger.pending m) in
  modifyPairing (fun m => m{{Ledger.pending := pend}}) ;;
  announceExpired gone nowMs ;;
  when (negb (length gone =? 0)%nat) (publishPendingPairingState nowMs).

Definition teardownSession (i : nat) (nowMs reason : Z) : M unit :=
  s ← getSlot i;
  when (slotOccupied s)
    (releaseSessionSources (HubSession.session_id (Slot.session s)) reason nowMs ;;
     dropKnocks (HubSession.session_id (Slot.session s)) nowMs ;;
     notify (OnSessionLeft (HubSession.session_id (Slot.session s)))) ;;
  modifySlot i (fun s =>
    s{{Slot.session := HubSession.init; Slot.pushRecords := Slot.noPushRecords; Slot.conflictNacks := Slot.noConflictNacks;
       Slot.clientNonce := Slot.noClientNonce; Slot.hasClientNonce := false; Slot.sigRequested := false;
       Slot.signPending := false; Slot.signDelivered := false; Slot.authFailures := 0; Slot.blob := PendingBlob.none}}).

(** The default [reason]: session-loss-release. *)
Definition teardown (i : nat) (nowMs : Z) : M unit := teardownSession i nowMs 4.

Definition closeTransport (i : nat) : M unit :=
  s ← getSlot i;
  match Slot.transport s with
  | None => mret tt
  | Some t => notify (Closed t) ;; modifySlot i (fun s => s{{Slot.transport := None}})
  end.

Definition parkAndDetach (i : nat) (nowMs : Z) : M unit :=
  s ← getSlot i;
  when (slotOccupied s && negb (isStale s))
    (markStale i nowMs 4 ;;
     dropKnocks (HubSession.session_id (Slot.session s)) nowMs ;;
     modifySlot i (fun s =>
       s{{Slot.hasClientNonce := false; Slot.clientNonce := Slot.noClientNonce; Slot.sigRequested := false;
          Slot.signPending := false; Slot.signDelivered := false; Slot.authFailures := 0; Slot.blob := PendingBlob.none}})) ;;
  closeTransport i ;;
  modifySlot i (fun s => s{{Slot.congestionLevel := 0; Slot.criticalStalling := false}}).

(** ** Sends that must not stall *)

Definition trackCriticalSend (i : nat) (sendOk : bool) (nowMs : Z) : M unit :=
  s ← getSlot i;
  if Slot.congestionLevel s <? 2 then modifySlot i (fun s => s{{Slot.criticalStalling := false}})
  else if sendOk then modifySlot i (fun s => s{{Slot.criticalStalling := false}})
  else if negb (Slot.criticalStalling s) then
    modifySlot i (fun s => s{{Slot.criticalStalling := true; Slot.criticalStallSinceMs := nowMs}})
  else when (timeReached nowMs (u32 (Slot.criticalStallSinceMs s + limits.never_shed_stall_eviction_ms))) (parkAndDetach i nowMs).

Definition sendFrameToTracked (i : nat) (type channel : Z) (payload : bytes) (nowMs seq : Z) : M bool :=
  s ← getSlot i;
  match Slot.transport s with
  | None => mret false
  | Some t => ok ← sendFrameTo t type channel payload seq; trackCriticalSend i ok nowMs ;; mret ok
  end.

Definition sendNackTracked (i : nat) (n : NackMsg) (nowMs : Z) : M unit :=
  s ← getSlot i;
  match Slot.transport s with
  | None => mret tt
  | Some t =>
      n ← stamped n;
      let '(len, buf) := encodeNack n (replicate 128 0) in
      ok ← (if (len =? 0)%nat then mret false else sendFrameTo t FrameType.NACK 0 (take len buf) 0);
      trackCriticalSend i ok nowMs
  end.

Definition evictSlot (i : nat) (code nowMs : Z) : M unit :=
  s ← getSlot i;
  when (slotOccupied s) (goodbyeTo i code) ;;
  teardown i nowMs ;;
  modifySlot i (fun s => s{{Slot.congestionLevel := 0; Slot.criticalStalling := false}}).

(** ** Pushed snapshots *)

(** [findOrCreatePushRecord]: the record found, or the first free one prepared. *)
Definition findPushRecord (ch : Z) (l : list PushRecord.t) : option nat * list PushRecord.t :=
  match find_index (fun pr => PushRecord.valid pr && (PushRecord.channel_id pr =? ch)) l with
  | Some k => (Some k, l)
  | None =>
      match find_index (fun pr => negb (PushRecord.valid pr)) l with
      | Some k => (Some k, alter (fun pr => pr{{PushRecord.channel_id := ch; PushRecord.lastSeq := 0}}) k l)
      | None => (None, l)
      end
  end.

Definition findOrCreatePushRecord (i : nat) (ch : Z) : M (option nat) :=
  s ← getSlot i;
  let '(k, l) := findPushRecord ch (Slot.pushRecords s) in
  modifySlot i (fun s => s{{Slot.pushRecords := l}}) ;; mret k.

Definition modifyPushRecord (i : nat) (k : option nat) (f : PushRecord.t -> PushRecord.t) : M unit :=
  match k with
  | None => mret tt
  | Some k => modifySlot i (fun s => s{{Slot.pushRecords := alter f k (Slot.pushRecords s)}})
  end.

Definition modifySub (i k : nat) (f : Subscription.SubscriptionEntry -> Subscription.SubscriptionEntry) : M unit :=
  modifySession i (fun s => s{{HubSession.subs := alter f k (HubSession.subs s)}}).

(** ** The safety snapshot *)

Definition buildSafetyPayload (h : Hub.t) : bytes :=
  let buf := replicate 9 0 in
  let buf := put 0 1 (fun s => putU8 s (Hub.safetyWord h)) buf in
  let buf := put 1 1 (fun s => putU8 s (Hub.safetyCause h)) buf in
  let buf := put 2 4 (fun s => putU32 s (Hub.safetyOwnerSession h)) buf in
  let buf := put 6 2 (fun s => putU16 s (Hub.estopSeq h)) buf in
  put 8 1 (fun s => putU8 s (Hub.safetyModes h)) buf.

Definition publishSafetySnapshot : M unit := p ← gets buildSafetyPayload; publish channels.safety p.

Definition broadcastSafetyTo (seq : Z) (payload : bytes) (nowMs : Z) (i : nat) : M unit :=
  s ← getSlot i;
  if negb (slotOccupied s) then mret tt
  else match Slot.transport s with
  | None => mret tt
  | Some _ =>
      if negb (HubSession.ready (Slot.session s)) then mret tt
      else match Subscription.find channels.safety (HubSession.subs (Slot.session s)) with
      | None => mret tt
      | Some k =>
          ok ← sendFrameToTracked i FrameType.STATE channels.safety payload nowMs seq;
          when ok
            (modifySub i k (Subscription.markPushed nowMs) ;;
             pr ← findOrCreatePushRecord i channels.safety;
             modifyPushRecord i pr (fun pr => pr{{PushRecord.lastSeq := seq; PushRecord.valid := true}}))
      end
  end.

Definition broadcastSafetyNow (nowMs : Z) : M unit :=
  store ← gets Hub.retained;
  match RetainedStore.get channels.safety store with
  | None => mret tt
  | Some (seq, payload) => each allSlots (broadcastSafetyTo seq payload nowMs)
  end.
End hub.
