(* ===== verification/HubSafety.v ===== *)
(** * HubSafety: the safety latch

    hub/hub_impl.hpp: ESTOP frames, the operations of the safety channel, the
    motion modes and the events on the edges of the safety word. *)

From S2P Require Import Prelude Registry ByteIO Serial Frame Messages Codec Catalog Channel Safety Session Builtin HubState.
Local Open Scope Z_scope.

Section hub.
Context {P : Platform} (catalog : BasicCatalog).

Definition has (word bit : Z) : bool := negb (Z.land word bit =? 0).
Definition estopLatched (h : Hub.t) : bool := has (Hub.safetyWord h) safety_bits.ESTOP.
Definition stopLatched (h : Hub.t) : bool := has (Hub.safetyWord h) safety_bits.STOP.

(** [x & ~m] on bytes. *)
Definition without (word mask : Z) : Z := Z.ldiff word mask.

Definition emitSafetyEvent (kind level nowMs : Z) : M unit :=
  store ← gets Hub.retained;
  word ← gets Hub.safetyWord; cause ← gets Hub.safetyCause; owner ← gets Hub.safetyOwnerSession; seq ← gets Hub.estopSeq;
  let '(hasSeq, stateSeq) := match RetainedStore.get channels.safety store with Some (n, _) => (true, n) | None => (false, 0) end in
  emitEvent 96 (mkEvent channels.safety_events nowMs kind hasSeq stateSeq true
    ([mkField safety_body.word (U64 word); mkField safety_body.cause (U64 cause);
      mkField safety_body.owner_session (U64 owner); mkField safety_body.estop_seq (U64 seq)]
     ++ (if level =? 0 then [] else [mkField safety_body.level (U64 level)]))).

Definition kStopBits : Z := Z.lor (Z.lor safety_bits.STOP safety_bits.HOLD) safety_bits.PAUSE.

Definition emitSafetyEdgeEvents (beforeWord nowMs : Z) : M unit :=
  after ← gets Hub.safetyWord;
  if negb (declared catalog channels.safety_events) then mret tt
  else if after =? beforeWord then mret tt
  else
    let newlySet := without after beforeWord in
    let newlyClear := without beforeWord after in
    when (has newlySet safety_bits.ESTOP) (emitSafetyEvent safety_events.estop_latched 0 nowMs) ;;
    when (has newlyClear safety_bits.ESTOP) (emitSafetyEvent safety_events.estop_cleared 0 nowMs) ;;
    when (has newlySet kStopBits) (emitSafetyEvent safety_events.stop_latched (Z.land newlySet kStopBits) nowMs) ;;
    when (has newlyClear kStopBits) (emitSafetyEvent safety_events.stop_cleared (Z.land newlyClear kStopBits) nowMs).

Definition handleEstopFrame (f : EstopFrame) (nowMs : Z) : M unit :=
  before ← gets Hub.safetyWord;
  when (negb (has before safety_bits.ESTOP))
    (notify (OnEstop (ef_cause f) (ef_origin f)) ;;
     modify (fun h => h{{Hub.safetyWord := Z.lor (Hub.safetyWord h) safety_bits.ESTOP;
                         Hub.safetyCause := ef_cause f; Hub.estopSeq := ef_seq f}}) ;;
     publishSafetySnapshot) ;;
  broadcastSafetyNow catalog nowMs ;;
  emitSafetyEdgeEvents before nowMs.

Definition latchEstop (cause origin estop_seq : Z) : M unit := now ← nowMs; handleEstopFrame (mkEstopFrame cause origin estop_seq) now.

Definition setSafetyModes (manualOverride bypassLimits : bool) : M unit :=
  let next := Z.lor (if manualOverride then safety_mode_bits.OVERRIDE else 0) (if bypassLimits then safety_mode_bits.BYPASS else 0) in
  modes ← gets Hub.safetyModes;
  when (negb (next =? modes))
    (modify (fun h => h{{Hub.safetyModes := next}}) ;;
     publishSafetySnapshot ;;
     now ← nowMs; broadcastSafetyNow catalog now).

(** The state after the operation; [None] for an operation it does not know. *)
Definition safetyOp (op sessionId : Z) (h : Hub.t) : option Hub.t :=
  let latch bit := Some (h{{Hub.safetyWord := Z.lor (Hub.safetyWord h) bit; Hub.safetyCause := safety_causes.user;
                            Hub.safetyOwnerSession := sessionId}}) in
  if op =? safety_ops.stop then latch safety_bits.STOP
  else if op =? safety_ops.hold then latch safety_bits.HOLD
  else if op =? safety_ops.pause then latch safety_bits.PAUSE
  else if op =? safety_ops.resume then
    Some (h{{Hub.safetyWord := without (Hub.safetyWord h) (Z.lor safety_bits.HOLD safety_bits.PAUSE)}})
  else if op =? safety_ops.override_on then Some (h{{Hub.safetyModes := Z.lor (Hub.safetyModes h) safety_mode_bits.OVERRIDE}})
  else if op =? safety_ops.override_off then Some (h{{Hub.safetyModes := without (Hub.safetyModes h) safety_mode_bits.OVERRIDE}})
  else if op =? safety_ops.bypass_on then Some (h{{Hub.safetyModes := Z.lor (Hub.safetyModes h) safety_mode_bits.BYPASS}})
  else if op =? safety_ops.bypass_off then Some (h{{Hub.safetyModes := without (Hub.safetyModes h) safety_mode_bits.BYPASS}})
  else None.

Definition applySafetyOpLatch (op sessionId : Z) : M bool :=
  h ← gets id;
  match safetyOp op sessionId h with
  | None => mret false
  | Some h' =>
      modify (fun _ => h') ;;
      mret (negb (Hub.safetyWord h' =? Hub.safetyWord h) || negb (Hub.safetyModes h' =? Hub.safetyModes h)
            || negb (Hub.safetyCause h' =? Hub.safetyCause h) || negb (Hub.safetyOwnerSession h' =? Hub.safetyOwnerSession h))
  end.

Definition clearEstop : M bool :=
  before ← gets Hub.safetyWord;
  if negb (has before safety_bits.ESTOP) then mret false
  else
    can ← ask d_canClearEstop; record (CanClearEstop can) ;;
    if negb can then mret false
    else
      modify (fun h => h{{Hub.safetyWord := without (Hub.safetyWord h) safety_bits.ESTOP}}) ;;
      publishSafetySnapshot ;;
      now ← nowMs;
      broadcastSafetyNow catalog now ;;
      emitSafetyEdgeEvents before now ;;
      mret true.
End hub.
