(* ===== verification/HubJoin.v ===== *)
(** * HubJoin: how a session is established

    hub/hub_impl.hpp: the grants, HELLO with the reattachment of a parked session,
    AUTH, the signing jobs, SUBSCRIBE, UNSUBSCRIBE, PUBLISH and CATALOG_READY.
    [tries] bounds the draws of a non-zero random number. *)

From stdpp Require Import strings.
From S2P Require Import Prelude Registry Float ByteIO Serial Frame Blob Cbor Messages Codec Trust Handshake Raw Crypto Catalog Channel Safety Pairing Session Builtin HubState.
Local Open Scope Z_scope.

Section hub.
Context {P : Platform} (catalog : BasicCatalog) (tries : nat).

(** ** Grants *)

(** [std::min] keeps its first argument on a NaN. *)
Definition fmin (a b : Float32.t) : Float32.t := if Float32.lt b a then b else a.

Definition clampRate (wish : Float32.t) (maxRateHz : Float32.t) : Float32.t :=
  if Float32.le maxRateHz Float32.zero then Float32.zero else fmin wish maxRateHz.

Definition subscriptionRate (wish : SubscriptionWish.t) (entry : CatalogEntry.t) : Float32.t :=
  let r := clampRate (Float32.of_bits (SubscriptionWish.rate_hz wish)) (Float32.of_bits (CatalogEntry.maxRateHz entry)) in
  if Float32.lt r Float32.zero then Float32.zero else r.

Definition subscribable (e : CatalogEntry.t) : bool :=
  match CatalogEntry.cls e with INTENT | STORE => false | _ => true end.

Definition mayAccess (role need : AccessLevel) : bool := access_u8 need <=? access_u8 role.

Definition grantOf (ch : Z) (rate : Float32.t) (prio : Priority) : Grant.t := Grant.mk ch (Float32.to_bits rate) (priority_u8 prio).

Definition replayEventsOnGrant (i : nat) (ch : Z) : M unit :=
  match Catalog.find ch catalog with
  | None => mret tt
  | Some e =>
      ring ← gets Hub.logRing;
      when (bool_decide (CatalogEntry.cls e = EVENT) && CatalogEntry.hasReplayDepth e
            && negb (CatalogEntry.replayDepth e =? 0) && (ch =? channels.log))
        (each (EventReplayRing.forEachNewest kLogRingDepth kLogRingSlot (Z.to_nat (CatalogEntry.replayDepth e)) ring)
           (fun bs => pushEvent i ch bs))
  end.

Definition upsertSub (i : nat) (ch : Z) (rate : Float32.t) (prio : Priority) : M bool :=
  s ← getSession i;
  let '(ok, subs) := Subscription.upsert limits.max_subscriptions_per_session ch rate prio (HubSession.subs s) in
  modifySession i (fun s => s{{HubSession.subs := subs}}) ;; mret ok.

Definition modifyGrant (i k : nat) (f : PublishGrant.t -> PublishGrant.t) : M unit :=
  modifySession i (fun s => s{{HubSession.publishGrants := alter f k (HubSession.publishGrants s)}}).

Definition grantPublishWish (i : nat) (wish : PublishWish.t) (nowMs : Z) : M (option GrantedPublish.t) :=
  s ← getSession i;
  match Catalog.find (PublishWish.channel_id wish) catalog with
  | None => mret None
  | Some entry =>
      if negb (bool_decide (CatalogEntry.cls entry = STREAM)) then mret None
      else if negb (bool_decide (CatalogEntry.dir entry = c2h)) then mret None
      else if negb (mayAccess (HubSession.role s) (CatalogEntry.access entry)) then mret None
      else
        let rate := clampRate (Float32.of_bits (PublishWish.rate_hz wish)) (Float32.of_bits (CatalogEntry.maxRateHz entry)) in
        if Float32.le rate Float32.zero then mret None
        else
          let burst :=
            if negb (PublishWish.has_burst wish) then rate
            else
              let ceiling := Float32.mul rate (Float32.of_Z limits.max_burst_multiple) in
              let b := Float32.of_bits (PublishWish.burst wish) in
              let b := if negb (Float32.lt Float32.zero b) then rate else b in
              let b := if Float32.lt b rate then rate else b in
              if Float32.lt ceiling b then ceiling else b in
          family ← (if negb (PublishWish.has_curve_family wish) then mret 0
                    else ask (d_effectiveCurveFamily (PublishWish.channel_id wish)
                                (if PublishWish.curve_family wish <=? curve_families.step
                                 then PublishWish.curve_family wish else curve_families.unspecified)));
          let add := HubSession.addPublishGrant (PublishWish.channel_id wish) rate nowMs burst (PublishWish.has_burst wish) family in
          modifySession i (fun s => snd (add s)) ;;
          if negb (fst (add s)) then mret None
          else mret (Some (GrantedPublish.mk (PublishWish.channel_id wish) (Float32.to_bits rate) (PublishWish.has_burst wish)
            (Float32.to_bits burst) (PublishWish.has_curve_family wish) family (PublishWish.has_curve_family wish)
            (PublishWish.curve_family wish)))
  end.

(** The grants of a list of publish wishes, at most the cap of one message. *)
Fixpoint grantPublishes (i : nat) (wishes : list PublishWish.t) (nowMs : Z) (got : list GrantedPublish.t) : M (list GrantedPublish.t) :=
  match wishes with
  | [] => mret got
  | w :: wishes =>
      gp ← grantPublishWish i w nowMs;
      grantPublishes i wishes nowMs
        (match gp with
         | Some g => if (length got <? kWelcomeMaxGrantedPublishes)%nat then got ++ [g] else got
         | None => got
         end)
  end.

(** ** WELCOME *)

Definition retainedPending (grants : list Grant.t) (store : RetainedStore.store) : Z :=
  Z.of_nat (length (List.filter (fun g =>
    match Catalog.find (Grant.channel_id g) catalog, RetainedStore.get (Grant.channel_id g) store with
    | Some e, Some _ => bool_decide (CatalogEntry.cls e = STATE)
    | _, _ => false
    end) grants)).

Definition maxFrame (i : nat) : M Z :=
  s ← getSlot i;
  match Slot.transport s with
  | Some t => mtu ← ask (fun e => (t_mtu t e, e)); mret (Z.min mtu (Z.of_nat kFrameBufferCapacity))
  | None => mret (Z.of_nat kFrameBufferCapacity)
  end.

Definition welcomeIdentity (h : Hub.t) : bool * IdentityInfo.t :=
  let named := Hello.some (Hub.idProduct h) || Hello.some (Hub.idFwVersion h) || Hello.some (Hub.idHubName h) in
  let i := if named then IdentityInfo.mk (Hub.idProduct h) (Hub.idFwVersion h) (Hub.idHubName h) false 0 else IdentityInfo.none in
  if negb (Hub.hubInstanceId h =? 0)
  then (true, i{{IdentityInfo.has_hub_instance_id := true; IdentityInfo.hub_instance_id := Hub.hubInstanceId h}})
  else (named, i).

(** The message both ways of joining send; the nonce it draws is kept. *)
Definition buildWelcome (i : nat) (grants : list Grant.t) (pubs : list GrantedPublish.t) (deadman nowMs : Z) : M Welcome.t :=
  h ← gets id; s ← getSession i; mx ← maxFrame i;
  nonce ← random (fun r => fill r kWelcomeNonceBytes);
  modifySlot i (fun s => s{{Slot.nonce := nonce}}) ;;
  let '(hasId, ident) := welcomeIdentity h in
  let offered := Ledger.offeredModes nowMs (Hub.pairing h) in
  let lims := WelcomeLimits.mk mx (Z.of_nat limits.max_subscriptions_per_session) (retainedPending grants (Hub.retained h))
                (Z.of_nat kSubscribeMaxWishes) in
  mret (Welcome.mk kProtocolVersion (HubSession.session_id s) (Hub.bootId h) (Hub.etag h) (Hub.cfgGen h) lims
    (access_u8 (HubSession.role s)) deadman 0 nonce grants pubs hasId ident (Hub.wsPort h) (Hub.ipv4 h)
    (negb (offered =? 0))
    (if negb (offered =? 0)
     then TrustMap.none{{TrustMap.has_pairing_modes := true; TrustMap.pairing_modes_mask := offered}} else TrustMap.none)).

(** Whether a signing job is to be armed, and the message. *)
Definition armWelcomeSignature (i : nat) (w : Welcome.t) : M (bool * Welcome.t) :=
  s ← getSlot i; boot ← gets Hub.bootId; inline ← gets Hub.inlineSigning;
  if negb (Slot.sigRequested s && Slot.hasClientNonce s) then mret (false, w)
  else
    let material := hubSigMaterial (Slot.clientNonce s) (HubSession.session_id (Slot.session s)) boot in
    if negb inline then mret (true, w)
    else
      let '(sigLen, sig) := signP256 material in
      if (0 <? sigLen)%nat && (sigLen <=? kTrustSigMaxBytes)%nat then
        modifySlot i (fun s => s{{Slot.signDelivered := true}}) ;;
        mret (false, w{{Welcome.has_trust := true;
                        Welcome.trust_map := (Welcome.trust_map w){{TrustMap.has_welcome_sig := true;
                                                                    TrustMap.welcome_sig := take sigLen sig}} }})
      else mret (false, w).

(** Whether the message left. *)
Definition sendWelcome (i : nat) (w : Welcome.t) : M bool :=
  r ← armWelcomeSignature i w;
  let '(armSignJob, w) := r in
  let '(wlen, wbuf) := Welcome.encodeWelcome w (replicate 700 0) in
  if (wlen =? 0)%nat then mret false
  else
    t ← deref i;
    ok ← sendFrameTo t FrameType.WELCOME 0 (take wlen wbuf) 0;
    if negb ok then mret false
    else when armSignJob (modifySlot i (fun s => s{{Slot.signPending := true}})) ;; mret true.

(** ** Who is speaking *)

Definition knockKind := BoundedString.assign kLedgerKindMaxBytes.
Definition knockName := BoundedString.assign kLedgerNameMaxBytes.
Definition knockVersion := BoundedString.assign kLedgerVersionMaxBytes.

Definition modifyKnock (k : nat) (f : Pending.PendingKnock -> Pending.PendingKnock) : M unit :=
  modifyPairing (fun m => m{{Ledger.pending := alter f k (Ledger.pending m)}}).

Definition addKnock (id : bytes) (sid nowMs : Z) : M (option nat) :=
  m ← gets Hub.pairing;
  let '(k, pend) := Pending.add id sid (u32 (nowMs + limits.pairing_window_default_s * 1000)) pairing_modes.knock_approve (Ledger.pending m) in
  modifyPairing (fun m => m{{Ledger.pending := pend}}) ;; mret k.

Definition applyTrustObservation (i : nat) (nowMs : Z) : M AccessLevel :=
  s ← getSession i; m ← gets Hub.pairing;
  let kind := BoundedString.view (HubSession.clientKind s) in
  let name := BoundedString.view (HubSession.clientName s) in
  let ver := BoundedString.view (HubSession.clientVer s) in
  let '(obs, m) := Ledger.observeHello (HubSession.instance_id s) kind name ver (HubSession.hasClientVer s)
                     (HubSession.presentationMode s) m in
  modifyPairing (fun _ => m) ;;
  if negb (Ledger.known obs) then mret (HubSession.role s)
  else
    when (Ledger.suspended obs)
      (k ← addKnock (HubSession.instance_id s) (HubSession.session_id s) nowMs;
       match k with
       | Some k => modifyKnock k (fun x =>
           x{{Pending.reapproval := true; Pending.kind := knockKind kind (Pending.kind x);
              Pending.name := knockName name (Pending.name x); Pending.version := knockVersion ver (Pending.version x)}})
       | None => mret tt
       end ;;
       emitPairingEvent catalog pairing_events.recognized_pending (HubSession.instance_id s) name pairing_modes.knock_approve
         (Ledger.suspendedRole obs) ver nowMs ;;
       publishPendingPairingState catalog nowMs ;;
       publishPairedRosterState catalog) ;;
    mret (Ledger.effectiveRole obs).

(** The role the presented token earns: the ledger first, then the application. *)
Definition presentedRole (m : Hello.t) : M AccessLevel :=
  pm ← gets Hub.pairing;
  let role := if Hello.has_token m then Ledger.validate crypto (Hello.instance_id m) (Hello.token m) pm else watch in
  if bool_decide (role = watch) then ask (d_validateToken (Hello.instance_id m) (Hello.token m) (Hello.has_token m))
  else mret role.

(** The client's description and its signature request. *)
Definition describeClient (m : Hello.t) (s : Slot.t) : Slot.t :=
  let tm := Hello.trust_map m in
  let hasVer := Hello.has_trust m && TrustMap.has_client_ver tm in
  let hasNonce := Hello.has_trust m && TrustMap.has_client_nonce tm in
  s{{Slot.session := (Slot.session s){{
       HubSession.clientKind := BoundedString.assign limits.trust_ledger_kind_max_bytes (Hello.client_kind m) (HubSession.clientKind (Slot.session s));
       HubSession.clientName := BoundedString.assign limits.trust_ledger_name_max_bytes (Hello.client_name m) (HubSession.clientName (Slot.session s));
       HubSession.hasClientVer := hasVer;
       HubSession.clientVer :=
         if hasVer then BoundedString.assign limits.client_ver_max_bytes (TrustMap.client_ver tm) (HubSession.clientVer (Slot.session s))
         else HubSession.clientVer (Slot.session s);
       HubSession.presentationMode :=
         if Hello.has_trust m && TrustMap.has_presentation_mode tm then TrustMap.presentation_mode tm else 0}};
     Slot.hasClientNonce := hasNonce;
     Slot.clientNonce := (if hasNonce then TrustMap.client_nonce tm else Slot.clientNonce s);
     Slot.sigRequested := Hello.has_trust m && TrustMap.has_sig_request tm && TrustMap.sig_request tm}}.

Definition setRole (i : nat) (role : AccessLevel) : M unit := modifySession i (fun s => s{{HubSession.role := role}}).

(** The observation is only made of a client that presented a token. *)
Definition settleRole (i : nat) (m : Hello.t) (role : AccessLevel) (nowMs : Z) : M unit :=
  role ← (if Hello.has_token m then setRole i role ;; applyTrustObservation i nowMs else mret role);
  setRole i role.

Definition etagMatches (m : Hello.t) (h : Hub.t) : bool :=
  Hello.has_catalog_etag m && bool_decide (Hello.catalog_etag m = Hub.etag h).

(** ** HELLO *)

Fixpoint grantSubscriptions (i : nat) (wishes : list SubscriptionWish.t) (got : list Grant.t) : M (list Grant.t) :=
  match wishes with
  | [] => mret got
  | wish :: wishes =>
      s ← getSession i;
      match Catalog.find (SubscriptionWish.channel_id wish) catalog with
      | None => grantSubscriptions i wishes got
      | Some entry =>
          if negb (subscribable entry) then grantSubscriptions i wishes got
          else if negb (mayAccess (HubSession.role s) (CatalogEntry.access entry)) then grantSubscriptions i wishes got
          else
            let rate := subscriptionRate wish entry in
            ok ← upsertSub i (SubscriptionWish.channel_id wish) rate (CatalogEntry.defaultPriority entry);
            if negb ok then grantSubscriptions i wishes got
            else
              replayEventsOnGrant i (SubscriptionWish.channel_id wish) ;;
              grantSubscriptions i wishes
                (if (length got <? kWelcomeMaxGrants)%nat
                 then got ++ [grantOf (SubscriptionWish.channel_id wish) rate (CatalogEntry.defaultPriority entry)] else got)
      end
  end.

Definition appliedDeadman (wish : Z) : Z :=
  if wish <=? 0 then limits.deadman_default_ms
  else
    let d := if wish <? limits.deadman_min_ms then limits.deadman_min_ms else wish in
    if limits.deadman_max_ms <? d then limits.deadman_max_ms else d.

(** [handleReattach]: the parked session moves to the slot that speaks. *)
Definition moveSession (i j : nat) : M unit :=
  stale ← getSlot j;
  modifySlot i (fun s =>
    s{{Slot.session := Slot.session stale; Slot.pushRecords := Slot.pushRecords stale; Slot.conflictNacks := Slot.conflictNacks stale;
       Slot.hasClientNonce := false; Slot.clientNonce := Slot.noClientNonce; Slot.sigRequested := false; Slot.signPending := false;
       Slot.signDelivered := false; Slot.authFailures := 0; Slot.congestionLevel := 0; Slot.criticalStalling := false;
       Slot.hasProbeReport := false; Slot.blob := PendingBlob.none}}) ;;
  closeTransport j ;;
  modifySlot j (fun s =>
    s{{Slot.session := HubSession.init; Slot.pushRecords := Slot.noPushRecords; Slot.conflictNacks := Slot.noConflictNacks;
       Slot.clientNonce := Slot.noClientNonce; Slot.hasClientNonce := false; Slot.blob := PendingBlob.none}}).

Definition resumeSession (m : Hello.t) (h : Hub.t) (nowMs : Z) (s : HubSession.t) : HubSession.t :=
  let matched := etagMatches m h in
  let s := s{{HubSession.helloSeenCfgGen := Hub.cfgGen h; HubSession.clientEtagMatched := matched}} in
  let s := if matched then s
           else s{{HubSession.ready := false; HubSession.readyEtagMismatch := Hello.has_catalog_etag m; HubSession.grantedAtMs := nowMs}} in
  s{{HubSession.staleSinceMs := 0; HubSession.lastRxMs := nowMs; HubSession.lastTxMs := nowMs;
     HubSession.subs := (fun e => e{{Subscription.everPushed := false}}) <$> HubSession.subs s}}.

(** The grants a reattached session still holds. *)
Definition heldGrants (s : HubSession.t) : list Grant.t :=
  take kWelcomeMaxGrants
    ((fun e => grantOf (Subscription.channel_id e) (Subscription.granted_rate_hz e) (Subscription.priority e)) <$> HubSession.subs s).

Definition heldPublishes (s : HubSession.t) : list GrantedPublish.t :=
  take kWelcomeMaxGrantedPublishes
    ((fun pg => GrantedPublish.mk (PublishGrant.channel_id pg) (Float32.to_bits (PublishGrant.granted_rate_hz pg))
        (PublishGrant.burstRequested pg) (Float32.to_bits (PublishGrant.granted_burst pg))
        (negb (PublishGrant.curveFamily pg =? 0)) (PublishGrant.curveFamily pg) false 0)
     <$> filter (fun pg => PublishGrant.used pg = true) (HubSession.publishGrants s)).

Definition handleReattach (i j : nat) (m : Hello.t) (nowMs : Z) : M unit :=
  teardown catalog i nowMs ;;
  moveSession i j ;;
  modifySlot i (describeClient m) ;;
  role ← presentedRole m;
  settleRole i m role nowMs ;;
  h ← gets id;
  modifySession i (resumeSession m h nowMs) ;;
  s ← getSession i;
  w ← buildWelcome i (heldGrants s) (heldPublishes s) (HubSession.deadmanMs s) nowMs;
  ok ← sendWelcome i w;
  when ok
    (modifySession i (fun s => s{{HubSession.state := HubSessionState.LIVE}}) ;;
     emitSessionEvent session_events.session_resumed (HubSession.session_id s) nowMs).

Definition joined (i : nat) (sid : Z) : M unit :=
  modifySession i (fun s => s{{HubSession.state := HubSessionState.GRANTED}}) ;;
  modifySession i (fun s => s{{HubSession.state := HubSessionState.LIVE}}) ;;
  notify (OnSessionJoined sid).

Definition openSession (i : nat) (m : Hello.t) (nowMs : Z) : M unit :=
  teardown catalog i nowMs ;;
  modifySession i (fun s => s{{HubSession.state := HubSessionState.VALIDATING}}) ;;
  sid ← drawNonZero tries;
  modifySession i (fun s => s{{HubSession.session_id := sid; HubSession.instance_id := Hello.instance_id m}}) ;;
  role ← presentedRole m;
  modifySlot i (describeClient m) ;;
  settleRole i m role nowMs ;;
  h ← gets id;
  modifySession i (fun s =>
    s{{HubSession.helloSeenCfgGen := Hub.cfgGen h; HubSession.clientEtagMatched := etagMatches m h;
       HubSession.ready := etagMatches m h; HubSession.readyEtagMismatch := false; HubSession.grantedAtMs := nowMs;
       HubSession.lastRxMs := nowMs; HubSession.lastTxMs := nowMs}}) ;;
  grants ← grantSubscriptions i (Hello.subscriptions m) [];
  pubs ← grantPublishes i (Hello.publishes m) nowMs [];
  let deadman := appliedDeadman (Hello.deadman_wish_ms m) in
  modifySession i (fun s => s{{HubSession.deadmanMs := deadman}}) ;;
  w ← buildWelcome i grants pubs deadman nowMs;
  ok ← sendWelcome i w;
  when ok (joined i sid).

(** Room for one more session, made by dropping a stale one when it must be. *)
Definition makeRoom (i : nat) (nowMs : Z) : M bool :=
  n ← gets (occupiedCount (Some i));
  if (n <? kHubMaxSessions)%nat then mret true
  else
    v ← gets (findEvictableStale (Some i));
    match v with
    | Some j => goodbyeTo j NackCode.SLOT_RECLAIMED ;; teardown catalog j nowMs ;; mret true
    | None =>
        nackTo i (retryAfter kHubBusyRetryAfterMs (nack NackCode.BUSY)) ;; mret false
    end.

Definition handleHello (i : nat) (payload : bytes) (nowMs : Z) : M unit :=
  match Hello.decodeHello payload with
  | Err _ => nackTo i (nack NackCode.MALFORMED)
  | Ok m =>
      dup ← gets (findSlotByInstance (Hello.instance_id m) (Some i));
      let fresh := room ← makeRoom i nowMs; when room (openSession i m nowMs) in
      match dup with
      | None => fresh
      | Some j =>
          d ← getSlot j;
          if isStale d then handleReattach i j m nowMs
          else goodbyeTo j NackCode.DUPLICATE_INSTANCE ;; teardown catalog j nowMs ;; fresh
      end
  end.

(** ** AUTH and the signing jobs *)

Definition sendGrant (i : nat) (g : GrantMsg.t) (cap : nat) : M unit :=
  let '(glen, gbuf) := GrantMsg.encodeGrant g (replicate cap 0) in
  when (negb (glen =? 0)%nat) (t ← deref i; _ ← sendFrameTo t FrameType.GRANT 0 (take glen gbuf) 0; mret tt).

Definition handleAuth (i : nat) (payload : bytes) (nowMs : Z) : M unit :=
  s ← getSlot i;
  if limits.auth_attempts_max <=? Slot.authFailures s then mret tt
  else
    let malformed := nackTo i (nack NackCode.MALFORMED) in
    match Envelope.decodeTrustEnvelope payload with
    | Err _ => malformed
    | Ok e =>
        let tm := Envelope.trust_map e in
        if negb (TrustMap.has_token_proof tm) then malformed
        else
          modifySession i (fun s => s{{HubSession.presentationMode :=
            if TrustMap.has_presentation_mode tm then TrustMap.presentation_mode tm else presentation_modes.proof}}) ;;
          pm ← gets Hub.pairing;
          let '(proved, proofOk) :=
            Ledger.validateProof crypto (HubSession.instance_id (Slot.session s)) (TrustMap.token_proof tm) (Slot.nonce s) pm in
          if negb proofOk then
            let failures := u8 (Slot.authFailures s + 1) in
            modifySlot i (fun s => s{{Slot.authFailures := failures}}) ;;
            nackTo i (nack NackCode.UNAUTHORIZED) ;;
            when (limits.auth_attempts_max <=? failures)
              (t ← deref i; sendGoodbye t NackCode.UNAUTHORIZED ;; teardown catalog i nowMs)
          else
            modifySlot i (fun s => s{{Slot.authFailures := 0}}) ;;
            setRole i proved ;;
            role ← applyTrustObservation i nowMs;
            setRole i role ;;
            sendGrant i (GrantMsg.none{{GrantMsg.has_roles := true; GrantMsg.roles := access_u8 role}}) 64 ;;
            publishPairedRosterState catalog
    end.

Definition setInlineSigning (on : bool) : M unit := modify (fun h => h{{Hub.inlineSigning := on}}).

Definition pendingSignJobs (h : Hub.t) : nat := length (filter (fun s => Slot.signPending s = true) (Hub.slots h)).

(** The first pending job, its session and message. *)
Definition takePendingSignJob : M (option (Z * bytes)) :=
  h ← gets id;
  match findSlot (fun _ s => Slot.signPending s) h with
  | None => mret None
  | Some i =>
      s ← getSlot i;
      modifySlot i (fun s => s{{Slot.signPending := false}}) ;;
      let sid := HubSession.session_id (Slot.session s) in
      mret (Some (sid, hubSigMaterial (Slot.clientNonce s) sid (Hub.bootId h)))
  end.

Definition emitHubSig (t : nat) (sig : bytes) : M unit :=
  let m := Envelope.mk (TrustMap.none{{TrustMap.has_welcome_sig := true; TrustMap.welcome_sig := sig}}) in
  let '(n, buf) := Envelope.encodeTrustEnvelope m (replicate 128 0) in
  if (n =? 0)%nat then mret tt else _ ← sendFrameTo t FrameType.HUB_SIG 0 (take n buf) 0; mret tt.

Definition submitSignature (sid : Z) (sig : bytes) : M bool :=
  if (sid =? 0) || (length sig =? 0)%nat || (kTrustSigMaxBytes <? length sig)%nat then mret false
  else
    oi ← gets (findSlotBySession sid);
    match oi with
    | None => mret false
    | Some i =>
        s ← getSlot i;
        if Slot.signDelivered s then mret false
        else match Slot.transport s with
        | None => mret false
        | Some t => emitHubSig t sig ;; modifySlot i (fun s => s{{Slot.signDelivered := true}}) ;; mret true
        end
    end.

(** Every round takes a job, so [n] rounds, one per slot, are enough. *)
Fixpoint signPending (n maxJobs done : nat) : M nat :=
  match n with
  | O => mret done
  | S n =>
      if (maxJobs <=? done)%nat then mret done
      else
        job ← takePendingSignJob;
        match job with
        | None => mret done
        | Some (sid, message) =>
            let '(len, sig) := signP256 message in
            if (len =? 0)%nat || (kTrustSigMaxBytes <? len)%nat then signPending n maxJobs done
            else
              ok ← submitSignature sid (take len sig);
              signPending n maxJobs (if (ok : bool) then S done else done)
        end
  end.

Definition signPendingNow (maxJobs : nat) : M nat := signPending (S kSlotCapacity) maxJobs 0.

(** ** SUBSCRIBE, UNSUBSCRIBE, PUBLISH, CATALOG_READY *)

Fixpoint subscribeEach (i : nat) (wishes : list SubscriptionWish.t) (got : list Grant.t) : M (list Grant.t) :=
  match wishes with
  | [] => mret got
  | wish :: wishes =>
      s ← getSession i;
      let ch := SubscriptionWish.channel_id wish in
      let refuse code := nackTo i (onChannel ch (nack code)) ;; subscribeEach i wishes got in
      match Catalog.find ch catalog with
      | None => refuse NackCode.UNKNOWN_CHANNEL
      | Some entry =>
          if negb (subscribable entry) then refuse NackCode.CLASS_MISMATCH
          else if negb (mayAccess (HubSession.role s) (CatalogEntry.access entry)) then refuse NackCode.ACCESS_DENIED
          else
            let rate := subscriptionRate wish entry in
            ok ← upsertSub i ch rate (CatalogEntry.defaultPriority entry);
            if negb ok then refuse NackCode.SUB_LIMIT
            else
              replayEventsOnGrant i ch ;;
              subscribeEach i wishes
                (if (length got <? kGrantMsgMaxGrants)%nat
                 then got ++ [grantOf ch rate (CatalogEntry.defaultPriority entry)] else got)
      end
  end.

Definition handleSubscribe (i : nat) (payload : bytes) (nowMs : Z) : M unit :=
  match Subscribe.decodeSubscribe payload with
  | Err e =>
      nackTo i (withDetail (if bool_decide (e = CapacityExceeded) then text "too many wishes per frame" else text "undecodable subscribe")
        (nack NackCode.SUBSCRIBE_REJECTED))
  | Ok m =>
      grants ← subscribeEach i (Subscribe.subscriptions m) [];
      when (Hello.some grants) (sendGrant i (GrantMsg.none{{GrantMsg.grants := grants}}) 400)
  end.

Definition handleUnsubscribe (i : nat) (payload : bytes) : M unit :=
  match Unsubscribe.decodeUnsubscribe payload with
  | Err _ => mret tt
  | Ok m => each (Unsubscribe.channel_ids m) (fun ch =>
      modifySession i (fun s => s{{HubSession.subs := snd (Subscription.remove ch (HubSession.subs s))}}))
  end.

Definition publishCurveFamily (sid ch : Z) (h : Hub.t) : Z :=
  match findSlot (fun _ s => slotOccupied s && (HubSession.session_id (Slot.session s) =? sid)) h ≫= fun i => Hub.slots h !! i
  with
  | None => 0
  | Some s =>
      match HubSession.publishGrantFor ch (Slot.session s) ≫= fun k => HubSession.publishGrants (Slot.session s) !! k with
      | Some pg => PublishGrant.curveFamily pg
      | None => 0
      end
  end.

Definition handlePublish (i : nat) (payload : bytes) (nowMs : Z) : M unit :=
  match Publish.decodePublish payload with
  | Err _ => sendNackTracked catalog i (nack NackCode.MALFORMED) nowMs
  | Ok m =>
      pubs ← grantPublishes i (Publish.publishes m) nowMs [];
      let '(glen, gbuf) := GrantMsg.encodeGrant (GrantMsg.none{{GrantMsg.granted_publishes := pubs}}) (replicate 400 0) in
      when (negb (glen =? 0)%nat) (_ ← sendFrameToTracked catalog i FrameType.GRANT 0 (take glen gbuf) nowMs 0; mret tt)
  end.

Definition handleCatalogReady (i : nat) (payload : bytes) : M unit :=
  match decodeCatalogReady payload with
  | None => mret tt
  | Some etag =>
      mine ← gets Hub.etag;
      modifySession i (fun s => s{{HubSession.ready := true; HubSession.readyEtagMismatch := negb (bool_decide (etag = mine))}})
  end.
End hub.
