(* ===== verification/HubPairing.v ===== *)
(** * HubPairing: pairing over the wire

    hub/hub_impl.hpp: the pairing windows, PAIR_REQ with the PIN and the knock,
    the grant of a token, the administrative intents (evict, approve, deny,
    revoke) and the expiry of knocks. *)

From S2P Require Import Prelude Registry ByteIO Serial Frame Blob Cbor Messages Codec Trust Handshake Crypto Catalog Channel Safety Pairing TrustLedger Session Builtin HubState HubJoin.
Local Open Scope Z_scope.

Section hub.
Context {P : Platform} (catalog : BasicCatalog).

(** ** Windows and policy *)

Definition openPairingWindow (pinAscii : bytes) : M unit := now ← nowMs; modifyPairing (Ledger.openWindow pinAscii now).
Definition closePairingWindow : M unit := modifyPairing Ledger.closeWindow.
Definition setPresenceDefaultRole (r : AccessLevel) : M unit := modifyPairing (Ledger.setPresenceDefaultRole r).
Definition setKnockApproveEnabled (on : bool) : M unit := modifyPairing (Ledger.setKnockApproveEnabled on).
Definition setTrustChangeAutoKeepMax (r : AccessLevel) : M unit := modifyPairing (Ledger.setTrustChangeAutoKeepMax r).
Definition setWallClockSeconds (s : Z) : M unit := modifyPairing (Ledger.setWallClockSeconds s).

Definition presenceEvent (kind : Z) (role : AccessLevel) (nowMs : Z) : M unit :=
  emitPairingEvent catalog kind [] [] pairing_modes.push_to_pair role [] nowMs.

Definition openPresenceWindow : M unit :=
  now ← nowMs; m ← gets Hub.pairing;
  when (negb (Ledger.presenceWindowOpen now m))
    (modifyPairing (Ledger.openPresenceWindow now) ;;
     modify (fun h => h{{Hub.presenceWasOpen := true}}) ;;
     presenceEvent pairing_events.window_opened (Ledger.presenceGrantRole m) now ;;
     publishPendingPairingState catalog now).

Definition closePresenceWindow : M unit :=
  now ← nowMs; m ← gets Hub.pairing;
  when (Ledger.presenceWindowOpen now m)
    (modifyPairing Ledger.closePresenceWindow ;;
     modify (fun h => h{{Hub.presenceWasOpen := false}}) ;;
     presenceEvent pairing_events.window_closed watch now ;;
     publishPendingPairingState catalog now).

Definition pumpPairing (nowMs : Z) : M unit :=
  m ← gets Hub.pairing;
  let '(gone, _, pend) := Pending.expire nowMs (Ledger.pending m) in
  modifyPairing (fun m => m{{Ledger.pending := pend}}) ;;
  announceExpired catalog gone nowMs ;;
  was ← gets Hub.presenceWasOpen;
  let openNow := Ledger.presenceWindowOpen nowMs m in
  closed ←
    (if was && negb openNow then
       modify (fun h => h{{Hub.presenceWasOpen := false}}) ;; presenceEvent pairing_events.window_closed watch nowMs ;; mret true
     else when (negb was && openNow) (modify (fun h => h{{Hub.presenceWasOpen := true}})) ;; mret false);
  when (negb (length gone =? 0)%nat || (closed : bool)) (publishPendingPairingState catalog nowMs).

(** ** Granting a token *)

(** What the session says of its client, written into the ledger's entry. *)
Definition describeEntry (s : HubSession.t) (e : Ledger.PairedEntry) : Ledger.PairedEntry :=
  e{{Ledger.kind := BoundedString.assign kLedgerKindMaxBytes (BoundedString.view (HubSession.clientKind s)) (Ledger.kind e);
     Ledger.name := BoundedString.assign kLedgerNameMaxBytes (BoundedString.view (HubSession.clientName s)) (Ledger.name e);
     Ledger.version := if HubSession.hasClientVer s
                       then BoundedString.assign kLedgerVersionMaxBytes (BoundedString.view (HubSession.clientVer s)) (Ledger.version e)
                       else Ledger.version e;
     Ledger.presentationMode := HubSession.presentationMode s}}.

Definition modifyEntry (k : option nat) (f : Ledger.PairedEntry -> Ledger.PairedEntry) : M unit :=
  match k with
  | None => mret tt
  | Some k => modifyPairing (fun m => Ledger.with_entries (alter f k (Ledger.entries m)) m)
  end.

(** PAIR_GRANT with the hub's public key, when it has one. *)
Definition pairGrant (token : bytes) (role : AccessLevel) : nat * bytes :=
  let '(pkLen, pk) := publicKey in
  let key := (0 <? pkLen)%nat && (pkLen <=? kTrustPubkeyMaxBytes)%nat in
  PairGrant.encodePairGrant
    (PairGrant.mk token (access_u8 role) key
       (if key then TrustMap.none{{TrustMap.has_hub_pubkey := true; TrustMap.hub_pubkey := take pkLen pk}} else TrustMap.none))
    (replicate 96 0).

(** [_pairing.grant(...)] with the hub's generator. *)
Definition grantToken (id : bytes) (role : AccessLevel) (mode : Z) : M (option nat * bytes) :=
  m ← gets Hub.pairing;
  r ← random (fun r =>
        let '(k, tok, r, m) := Ledger.grant id role mode r (replicate limits.token_bytes 0) m in ((k, tok, m), r));
  let '(k, tok, m) := r in
  modifyPairing (fun _ => m) ;; mret (k, tok).

Definition issuePairGrant (i : nat) (id : bytes) (role : AccessLevel) (mode nowMs : Z) : M bool :=
  r ← grantToken id role mode;
  let '(k, tok) := r in
  match k with
  | None => mret false
  | Some k =>
      s ← getSession i;
      modifyEntry (Some k) (describeEntry s) ;;
      let '(n, buf) := pairGrant tok role in
      if (n =? 0)%nat then mret false
      else
        t ← deref i;
        _ ← sendFrameTo t FrameType.PAIR_GRANT 0 (take n buf) 0;
        setRole i role ;;
        modifyPairing (fun m => m{{Ledger.pending := snd (Pending.remove id (Ledger.pending m))}}) ;;
        emitPairingEvent catalog pairing_events.granted id (BoundedString.view (HubSession.clientName s)) mode role
          (BoundedString.view (HubSession.clientVer s)) nowMs ;;
        publishPendingPairingState catalog nowMs ;;
        publishPairedRosterState catalog ;;
        mret true
  end.

(** ** PAIR_REQ *)

Definition handleKnock (i : nat) (m : PairReq.t) (nowMs : Z) : M unit :=
  s ← getSession i; pm ← gets Hub.pairing;
  let refuse n := sendNackTracked catalog i n nowMs in
  if negb (bool_decide (HubSession.instance_id s = PairReq.instance_id m)) then refuse (nack NackCode.PAIRING_DENIED)
  else if Ledger.presenceWindowOpen nowMs pm then
    let role := Ledger.presenceGrantRole pm in
    modifyPairing Ledger.closePresenceWindow ;;
    modify (fun h => h{{Hub.presenceWasOpen := false}}) ;;
    ok ← issuePairGrant i (PairReq.instance_id m) role pairing_modes.push_to_pair nowMs;
    if negb ok then refuse (nack NackCode.PAIRING_DENIED)
    else presenceEvent pairing_events.window_closed watch nowMs ;; publishPendingPairingState catalog nowMs
  else if negb (Ledger.knockApproveEnabled pm) then refuse (nack NackCode.PAIRING_REQUIRED)
  else
    k ← addKnock (PairReq.instance_id m) (HubSession.session_id s) nowMs;
    match k with
    | None => refuse (retryAfter (limits.pairing_window_default_s * 1000) (nack NackCode.BUSY))
    | Some k =>
        let ver := BoundedString.view (HubSession.clientVer s) in
        modifyKnock k (fun x =>
          x{{Pending.kind := knockKind (BoundedString.view (HubSession.clientKind s)) (Pending.kind x);
             Pending.name := knockName (BoundedString.view (HubSession.clientName s)) (Pending.name x);
             Pending.version := if HubSession.hasClientVer s then knockVersion ver (Pending.version x) else Pending.version x}}) ;;
        pm ← gets Hub.pairing;
        match Ledger.pending pm !! k with
        | None => undefined
        | Some x =>
            emitPairingEvent catalog pairing_events.knocked (PairReq.instance_id m) (BoundedString.view (Pending.name x)) (Pending.mode x)
              watch (BoundedString.view (Pending.version x)) nowMs
        end ;;
        publishPendingPairingState catalog nowMs
    end.

(** [_pairing.handlePairReq(...)] with the hub's generator and crypto. *)
Definition pairWithPin (id proof nonce : bytes) (nowMs : Z) : M (Ledger.PairOutcome * bytes) :=
  m ← gets Hub.pairing;
  r ← random (fun r =>
        let '(o, tok, r, m) := Ledger.handlePairReq crypto id proof nonce r nowMs control (replicate limits.token_bytes 0) m in ((o, tok, m), r));
  let '(o, tok, m) := r in
  modifyPairing (fun _ => m) ;; mret (o, tok).

Definition handlePairReq (i : nat) (payload : bytes) (nowMs : Z) : M unit :=
  match PairReq.decodePairReq payload with
  | Err _ => nackTo i (nack NackCode.MALFORMED)
  | Ok m =>
      if negb (PairReq.has_pin_proof m) then handleKnock i m nowMs
      else
        s ← getSlot i;
        r ← pairWithPin (PairReq.instance_id m) (PairReq.pin_proof m) (Slot.nonce s) nowMs;
        let '(o, tok) := r in
        match o with
        | Ledger.Denied => nackTo i (nack NackCode.PAIRING_DENIED)
        | Ledger.WindowClosed => nackTo i (nack NackCode.PAIRING_REQUIRED)
        | Ledger.Granted =>
            let '(n, buf) := pairGrant tok control in
            when (negb (n =? 0)%nat) (t ← deref i; _ ← sendFrameTo t FrameType.PAIR_GRANT 0 (take n buf) 0; mret tt) ;;
            pm ← gets Hub.pairing;
            modifyEntry (Ledger.findByInstance (PairReq.instance_id m) (Ledger.entries pm)) (describeEntry (Slot.session s)) ;;
            setRole i control ;;
            emitPairingEvent catalog pairing_events.granted (PairReq.instance_id m) (BoundedString.view (HubSession.clientName (Slot.session s)))
              pairing_modes.pin_proof control (BoundedString.view (HubSession.clientVer (Slot.session s))) nowMs ;;
            publishPairedRosterState catalog
        end
  end.

(** ** Administration *)

(** The echo of an intent, remembered for its repeats. *)
Definition storeAndEcho (i : nat) (cap : nat) (ch : Z) (echo : EchoMsg) (nowMs : Z) : M unit :=
  let '(elen, ebuf) := encodeEcho echo (replicate cap 0) in
  when (negb (elen =? 0)%nat)
    (modifySession i (fun s =>
       s{{HubSession.intentRing :=
            snd (IntentRing.store HubSession.kRingDepth HubSession.kRingSlot (em_intent_id echo) (take elen ebuf) (HubSession.intentRing s))}}) ;;
     _ ← sendFrameToTracked catalog i FrameType.ECHO ch (take elen ebuf) nowMs 0; mret tt).

Record AdminRequest := mkAdmin { a_op : option Z; a_session : Z; a_instance : bytes; a_role : option Z }.

(** The last value of a key counts. *)
Definition adminField (a : AdminRequest) (f : IntentValueField) : AdminRequest :=
  match f_value f with
  | U64 v =>
      if f_key f =? admin_value.op then a{{a_op := Some v}}
      else if f_key f =? admin_value.session_id then a{{a_session := u32 v}}
      else if f_key f =? admin_value.role then a{{a_role := Some v}}
      else a
  | Bstr b => if f_key f =? admin_value.instance_id then a{{a_instance := b}} else a
  | _ => a
  end.

Definition adminRequest (fs : list IntentValueField) : AdminRequest := foldl adminField (mkAdmin None 0 [] None) fs.

Definition removeKnock (id : bytes) : M unit :=
  modifyPairing (fun m => m{{Ledger.pending := snd (Pending.remove id (Ledger.pending m))}}).

Definition evict (refuse : Z -> M unit) (echoOk : M unit) (sid nowMs : Z) : M unit :=
  v ← gets (findSlotBySession sid);
  match v with
  | None => refuse NackCode.INVALID_VALUE
  | Some j => echoOk ;; goodbyeTo j NackCode.SESSION_EVICTED ;; teardown catalog j nowMs
  end.

Definition pairApprove (i : nat) (refuse : Z -> M unit) (echoOk : M unit) (a : AdminRequest) (nowMs : Z) : M unit :=
  s ← getSession i; pm ← gets Hub.pairing;
  let want := default (access_u8 control) (a_role a) in
  if access_u8 configure <? want then refuse NackCode.INVALID_VALUE
  else if access_u8 (HubSession.role s) <? want then refuse NackCode.ACCESS_DENIED
  else
    let role := access_of want in
    match Pending.find (a_instance a) (Ledger.pending pm) ≫= fun k => Ledger.pending pm !! k with
    | None => refuse NackCode.INVALID_VALUE
    | Some k =>
        j ← gets (findSlotBySession (Pending.session_id k));
        joiner ← match j with Some j => s ← getSlot j; mret (Slot.transport s ≫= fun _ => Some j) | None => mret None end;
        match joiner with
        | None =>
            removeKnock (a_instance a) ;;
            emitPairingEvent catalog pairing_events.expired (Pending.instance_id k) [] (Pending.mode k) watch [] nowMs ;;
            publishPendingPairingState catalog nowMs ;;
            refuse NackCode.INVALID_VALUE
        | Some j =>
            ok ← issuePairGrant j (a_instance a) role (Pending.mode k) nowMs;
            if negb ok then refuse NackCode.BUSY else echoOk
        end
    end.

Definition revokeEntry (id : bytes) : M bool :=
  m ← gets Hub.pairing;
  let '(ok, m) := Ledger.revoke id m in
  modifyPairing (fun _ => m) ;; mret ok.

Definition pairDeny (refuse : Z -> M unit) (echoOk : M unit) (a : AdminRequest) (nowMs : Z) : M unit :=
  pm ← gets Hub.pairing;
  match Pending.find (a_instance a) (Ledger.pending pm) ≫= fun k => Ledger.pending pm !! k with
  | None => refuse NackCode.INVALID_VALUE
  | Some k =>
      removeKnock (a_instance a) ;;
      when (Pending.reapproval k)
        (_ ← revokeEntry (Pending.instance_id k);
         emitPairingEvent catalog pairing_events.revoked (Pending.instance_id k) [] (Pending.mode k) watch [] nowMs ;;
         publishPairedRosterState catalog) ;;
      emitPairingEvent catalog pairing_events.denied (Pending.instance_id k) [] (Pending.mode k) watch [] nowMs ;;
      publishPendingPairingState catalog nowMs ;;
      echoOk
  end.

Definition revoke (refuse : Z -> M unit) (echoOk : M unit) (a : AdminRequest) (nowMs : Z) : M unit :=
  ok ← revokeEntry (a_instance a);
  if negb ok then refuse NackCode.INVALID_VALUE
  else
    removeKnock (a_instance a) ;;
    emitPairingEvent catalog pairing_events.revoked (a_instance a) [] 0 watch [] nowMs ;;
    publishPairedRosterState catalog ;;
    publishPendingPairingState catalog nowMs ;;
    echoOk.

Definition handleAdminIntent (i : nat) (m : IntentMsg) (nowMs : Z) : M unit :=
  cfg ← gets Hub.cfgGen;
  let refuse code := sendNackTracked catalog i (onIntent (im_intent_id m) (onChannel (im_channel_id m) (nack code))) nowMs in
  let a := adminRequest (im_value m) in
  let echoOk op := storeAndEcho i 64 (im_channel_id m) (mkEcho (im_intent_id m) cfg [mkField admin_value.op (U64 op)]) nowMs in
  let withInstance act := if negb (length (a_instance a) =? limits.instance_id_bytes)%nat then refuse NackCode.INVALID_VALUE else act in
  match a_op a with
  | None => refuse NackCode.INVALID_VALUE
  | Some op =>
      if op =? session_admin_ops.evict then evict refuse (echoOk op) (a_session a) nowMs
      else if op =? session_admin_ops.pair_approve then withInstance (pairApprove i refuse (echoOk op) a nowMs)
      else if op =? session_admin_ops.pair_deny then withInstance (pairDeny refuse (echoOk op) a nowMs)
      else if op =? session_admin_ops.revoke then withInstance (revoke refuse (echoOk op) a nowMs)
      else refuse NackCode.UNSUPPORTED_OP
  end.
End hub.
