(* ===== verification/HubData.v ===== *)
(** * HubData: intents, streams, blobs and pushed state

    hub/hub_impl.hpp: INTENT and STREAM with their gates, PING, CLOCK, GOODBYE and
    the probe, BLOB_REQ with the paced transfer, the paced push of retained state,
    and the log. *)

From S2P Require Import Prelude Registry Float ByteIO Serial Frame Bundle Blob Cbor Messages Codec Raw Catalog Channel Safety Pairing TrustLedger Session Builtin HubState HubSafety HubJoin HubPairing.
Local Open Scope Z_scope.

Section hub.
Context {P : Platform} (catalog : BasicCatalog).

(** ** INTENT *)

Definition raise (need a : AccessLevel) : AccessLevel := if access_u8 need <? access_u8 a then a else need.

Definition fieldAccess (fields : list SchemaField.t) (need : AccessLevel) (f : IntentValueField) : AccessLevel :=
  match find_index (fun sf => SchemaField.key sf =? f_key f) fields ≫= fun k => fields !! k with
  | None => need
  | Some sf =>
      let need := if SchemaField.hasAccess sf then raise need (SchemaField.access sf) else need in
      if negb (SchemaField.hasOptionAccess sf) then need
      else match f_value f with
      | U64 idx =>
          let oa := optionAccess sf catalog in
          if idx <? Z.of_nat (length oa) then raise need (nth (Z.to_nat idx) oa watch) else foldl raise need oa
      | _ => need
      end
  end.

Definition requiredAccessFor (entry : CatalogEntry.t) (m : IntentMsg) : AccessLevel :=
  if negb (CatalogEntry.usesSchema entry) then CatalogEntry.access entry
  else foldl (fieldAccess (schemaFields entry catalog)) (CatalogEntry.access entry) (im_value m).

(** The operation of a safety intent. *)
Definition safetyOpOf (m : IntentMsg) : option Z :=
  if negb (im_channel_id m =? channels.safety_intents) then None
  else
    omap (fun f => match f_value f with U64 v => if f_key f =? 1 then Some v else None | _ => None end) (im_value m) !! 0%nat.

Definition refuseIntent (i : nat) (m : IntentMsg) (code nowMs : Z) : M unit :=
  sendNackTracked catalog i (onIntent (im_intent_id m) (nack code)) nowMs.

Definition estopClearIntent (i : nat) (m : IntentMsg) (nowMs : Z) : M unit :=
  s ← getSession i;
  if negb (mayAccess (HubSession.role s) control) then refuseIntent i m NackCode.NOT_CONTROLLER nowMs
  else
    cleared ← clearEstop catalog;
    if negb cleared then refuseIntent i m NackCode.CLEAR_REFUSED nowMs
    else
      cfg ← gets Hub.cfgGen;
      storeAndEcho catalog i 32 (im_channel_id m) (mkEcho (im_intent_id m) cfg []) nowMs.

Definition estopIntent (i : nat) (m : IntentMsg) (nowMs : Z) : M unit :=
  s ← getSession i; h ← gets id;
  let seq := if estopLatched h then Hub.estopSeq h else u16 (Hub.estopSeq h + 1) in
  handleEstopFrame catalog (mkEstopFrame safety_causes.user (access_u8 (HubSession.role s)) seq) nowMs ;;
  storeAndEcho catalog i 64 (im_channel_id m) (mkEcho (im_intent_id m) (Hub.cfgGen h) [mkField 1 (U64 safety_ops.estop)]) nowMs.

(** The source the channel drives is the session's afterwards, or the intent is
    refused. *)
Definition claimSource (i : nat) (m : IntentMsg) (source nowMs : Z) : M bool :=
  s ← getSession i; t ← gets Hub.ownership;
  let takeover := im_has_takeover m && im_takeover m in
  let sid := HubSession.session_id s in
  let '(acq, t) := Ownership.acquire source sid (HubSession.role s) takeover t in
  modify (fun h => h{{Hub.ownership := t}}) ;;
  match acq with
  | Ownership.Conflict =>
      refuseIntent i m (if takeover then NackCode.SOURCE_CONFLICT else NackCode.TAKEOVER_REQUIRED) nowMs ;; mret false
  | Ownership.Acquired => notify (OnSourceOwnership source sid 0) ;; publishControlOwnerStateIfPresent catalog ;; mret true
  | Ownership.TakenOver =>
      notify (OnSourceOwnership source sid 1) ;; publishControlOwnerStateIfPresent catalog ;;
      emitTakeoverEvent source sid nowMs ;; mret true
  | Ownership.AlreadyOwner => mret true
  end.

Definition announceSafety (before nowMs : Z) : M unit :=
  publishSafetySnapshot ;; broadcastSafetyNow catalog nowMs ;; emitSafetyEdgeEvents catalog before nowMs.

(** The delegate applies the intent; then the safety latches and the echo. *)
Definition applyIntent (i : nat) (m : IntentMsg) (mapped : option Z) (nowMs : Z) : M unit :=
  s ← getSession i;
  r ← ask (d_applyIntent (im_channel_id m) (im_value m) (HubSession.role s));
  record (ApplyIntent (im_channel_id m) (im_value m) (HubSession.role s)) ;;
  let '(applied, cfgChanged) := r in
  match applied with
  | Err code => refuseIntent i m code nowMs
  | Ok fields =>
      when cfgChanged (modify (fun h => h{{Hub.cfgGen := u16 (Hub.cfgGen h + 1)}})) ;;
      before ← gets Hub.safetyWord;
      latched ← match safetyOpOf m with
                | Some op => applySafetyOpLatch (u8 op) (HubSession.session_id s)
                | None => mret false
                end;
      when latched (announceSafety before nowMs) ;;
      h ← gets id;
      when (bool_decide (is_Some mapped) && stopLatched h)
        (modify (fun h => h{{Hub.safetyWord := without (Hub.safetyWord h) safety_bits.STOP; Hub.safetyOwnerSession := 0}}) ;;
         announceSafety (Hub.safetyWord h) nowMs) ;;
      cfg ← gets Hub.cfgGen;
      storeAndEcho catalog i 256 (im_channel_id m) (mkEcho (im_intent_id m) cfg fields) nowMs
  end.

Definition sourceIntent (i : nat) (m : IntentMsg) (nowMs : Z) : M unit :=
  mapped ← ask (d_sourceForChannel (im_channel_id m));
  ok ← match mapped with Some source => claimSource i m source nowMs | None => mret true end;
  when ok (applyIntent i m mapped nowMs).

Definition handleIntent (i : nat) (payload : bytes) (nowMs : Z) : M unit :=
  match decodeIntent payload with
  | Err _ => nackTo i (nack NackCode.MALFORMED)
  | Ok m =>
      s ← getSession i;
      let '(allowed, limiter) := IngressRateLimiter.allow nowMs (HubSession.intentLimiter s) in
      modifySession i (fun s => s{{HubSession.intentLimiter := limiter}}) ;;
      let refuse code := nackTo i (onIntent (im_intent_id m) (nack code)) in
      let refuseHere code := nackTo i (onIntent (im_intent_id m) (onChannel (im_channel_id m) (nack code))) in
      if negb allowed then refuse NackCode.RATE_LIMITED
      else if negb (HubSession.ready s) then refuseHere NackCode.NOT_READY
      else match IntentRing.lookup HubSession.kRingSlot (im_intent_id m) (HubSession.intentRing s) with
      | Some cached => _ ← sendFrameToTracked catalog i FrameType.ECHO (im_channel_id m) cached nowMs 0; mret tt
      | None =>
          match Catalog.find (im_channel_id m) catalog with
          | None => refuseHere NackCode.UNKNOWN_CHANNEL
          | Some entry =>
              if negb (bool_decide (CatalogEntry.cls entry = INTENT)) then refuseHere NackCode.CLASS_MISMATCH
              else
                let need := requiredAccessFor entry m in
                cfg ← gets Hub.cfgGen;
                if negb (mayAccess (HubSession.role s) need) then
                  refuseHere (if bool_decide (need = control) then NackCode.NOT_CONTROLLER else NackCode.ACCESS_DENIED)
                else if im_has_precondition m && negb (im_precondition m =? cfg) then refuse NackCode.CONFLICT
                else if bool_decide (safetyOpOf m = Some safety_ops.estop_clear) then estopClearIntent i m nowMs
                else if bool_decide (safetyOpOf m = Some safety_ops.estop) then estopIntent i m nowMs
                else if im_channel_id m =? channels.session_admin then handleAdminIntent catalog i m nowMs
                else sourceIntent i m nowMs
          end
      end
  end.

(** ** STREAM *)

Definition kNackIntervalMs : Z := 1000 / limits.stream_ingress_overage_nack_per_s.

Definition dropBundle (i : nat) : M unit :=
  modifySession i (fun s => s{{HubSession.streamBundlesDropped := u32 (HubSession.streamBundlesDropped s + 1)}}).

Definition sendStreamOverageNack (i k : nat) (pg : PublishGrant.t) (ch nowMs : Z) : M unit :=
  if PublishGrant.everNackedOverage pg && negb (timeReached nowMs (u32 (PublishGrant.lastOverageNackMs pg + kNackIntervalMs))) then mret tt
  else
    modifyGrant i k (fun pg => pg{{PublishGrant.everNackedOverage := true; PublishGrant.lastOverageNackMs := nowMs}}) ;;
    sendNackTracked catalog i (onChannel ch (nack NackCode.RATE_LIMITED)) nowMs.

(** The record that limits the conflict NACKs of a source, when one is due. *)
Definition conflictNackDue (source nowMs : Z) (l : list ConflictNack.t) : option nat :=
  match find_index (fun c => ConflictNack.used c && (ConflictNack.source c =? source)) l with
  | Some k =>
      match l !! k with
      | Some c => if timeReached nowMs (u32 (ConflictNack.lastMs c + kNackIntervalMs)) then Some k else None
      | None => None
      end
  | None => find_index (fun c => negb (ConflictNack.used c)) l
  end.

Definition sendSourceConflictNack (i : nat) (source ch nowMs : Z) : M unit :=
  s ← getSlot i;
  match conflictNackDue source nowMs (Slot.conflictNacks s) with
  | None => mret tt
  | Some k =>
      modifySlot i (fun s => s{{Slot.conflictNacks := <[k := ConflictNack.mk true source nowMs]> (Slot.conflictNacks s)}}) ;;
      sendNackTracked catalog i (onChannel ch (nack NackCode.SOURCE_CONFLICT)) nowMs
  end.

Definition forgetConflicts (source : Z) (l : list ConflictNack.t) : list ConflictNack.t :=
  (fun c => if ConflictNack.used c && (ConflictNack.source c =? source) then c{{ConflictNack.used := false}} else c) <$> l.

(** [sourceForChannel] and [acquire] without takeover: whether the bundle may
    pass. *)
Definition claimStreamSource (i : nat) (ch nowMs : Z) : M bool :=
  mapped ← ask (d_sourceForChannel ch);
  match mapped with
  | None => mret true
  | Some source =>
      s ← getSession i; t ← gets Hub.ownership;
      let sid := HubSession.session_id s in
      let '(acq, t) := Ownership.acquire source sid (HubSession.role s) false t in
      modify (fun h => h{{Hub.ownership := t}}) ;;
      match acq with
      | Ownership.Conflict => dropBundle i ;; sendSourceConflictNack i source ch nowMs ;; mret false
      | Ownership.Acquired =>
          notify (OnSourceOwnership source sid 0) ;;
          publishControlOwnerStateIfPresent catalog ;;
          modifySlot i (fun s => s{{Slot.conflictNacks := forgetConflicts source (Slot.conflictNacks s)}}) ;;
          mret true
      | Ownership.AlreadyOwner | Ownership.TakenOver => mret true
      end
  end.

(** A segment whose base lies too far ahead of the clock. *)
Definition tooFarAhead (entry : CatalogEntry.t) (bundle : BundleView) : M bool :=
  if negb (isSegmentClass entry) then mret false
  else now ← nowUs; mret (limits.max_future_schedule_ms * 1000 <? timeDelta (bv_tBase bundle) now).

Definition deliverBundle (i k : nat) (ch : Z) (bundle : BundleView) (nowMs : Z) : M unit :=
  s ← getSession i;
  match HubSession.publishGrants s !! k with
  | None => undefined
  | Some pg =>
      let '(allowed, limiter) := IngressRateLimiter.allowN nowMs (Z.of_nat (bv_n bundle)) (PublishGrant.limiter pg) in
      modifyGrant i k (fun pg => pg{{PublishGrant.limiter := limiter}}) ;;
      if negb allowed then dropBundle i ;; sendStreamOverageNack i k pg ch nowMs
      else
        ok ← claimStreamSource i ch nowMs;
        when ok
          (modifySession i (fun s => s{{HubSession.streamBundlesAccepted := u32 (HubSession.streamBundlesAccepted s + 1)}}) ;;
           notify (OnStreamBundle ch (HubSession.session_id s) bundle))
  end.

Definition handleStream (i : nat) (ch : Z) (payload : bytes) (nowMs : Z) : M unit :=
  s ← getSession i;
  if negb (HubSession.ready s) then dropBundle i
  else match HubSession.publishGrantFor ch s with
  | None => dropBundle i
  | Some k =>
      match Catalog.find ch catalog with
      | None => dropBundle i
      | Some entry =>
          if negb (bool_decide (CatalogEntry.cls entry = STREAM)) || negb (bool_decide (CatalogEntry.dir entry = c2h)) then dropBundle i
          else match parse payload (entryWireSize entry catalog) with
          | Err _ => dropBundle i
          | Ok bundle =>
              if (bv_n bundle =? 0)%nat then dropBundle i
              else
                far ← tooFarAhead entry bundle;
                if (far : bool) then dropBundle i else deliverBundle i k ch bundle nowMs
          end
      end
  end.

(** ** PING, CLOCK, GOODBYE, the probe *)

Definition handlePing (i : nat) (payload : bytes) : M unit :=
  let '(n, buf) := encodePong payload (replicate 32 0) in
  t ← deref i; _ ← sendFrameTo t FrameType.PONG 0 (take n buf) 0; mret tt.

Definition handleClock (i : nat) (payload : bytes) : M unit :=
  match decodeClockRequest payload with
  | Err _ => mret tt
  | Ok t0 =>
      t1 ← nowUs; t2 ← nowUs;
      let '(n, buf) := encodeClockReply t0 t1 t2 (replicate kClockReplyBytes 0) in
      when (negb (n =? 0)%nat) (t ← deref i; _ ← sendFrameTo t FrameType.CLOCK 0 (take n buf) 0; mret tt)
  end.

Definition handleGoodbye (i : nat) (nowMs : Z) : M unit := teardown catalog i nowMs.

(** [for (i = 0; i < frameCount; ++i)] until a frame does not fit. *)
Fixpoint sendProbes (t : nat) (room : nat) (first : Z) (n : nat) : M unit :=
  match n with
  | O => mret tt
  | S n =>
      let '(len, buf) := encodeProbeFrame (u16 first) (replicate room 0) in
      if (len =? 0)%nat then mret tt
      else _ ← sendFrameTo t FrameType.PROBE 0 (take len buf) 0; sendProbes t room (first + 1) n
  end.

Definition handleProbeRequest (i : nat) : M unit :=
  t ← deref i;
  mtu ← ask (fun e => (t_mtu t e, e));
  let mtuPayload := u16 (if Z.of_nat kHeaderBytes <? mtu then mtu - Z.of_nat kHeaderBytes else Z.of_nat limits.min_transport_payload) in
  if mtuPayload =? 0 then mret tt
  else
    let frameCount := (limits.probe_default_bytes + mtuPayload - 1) / mtuPayload in
    sendProbes t (Nat.min (Z.to_nat mtuPayload) limits.min_transport_payload) 0 (Z.to_nat frameCount).

Definition handleProbeReportFrame (i : nat) (payload : bytes) : M unit :=
  match decodeProbeReport payload with
  | Err _ => mret tt
  | Ok r => modifySlot i (fun s => s{{Slot.lastProbeReport := r; Slot.hasProbeReport := true}})
  end.

Definition probeReportFor (i : nat) (h : Hub.t) : option ProbeResult :=
  s ← Hub.slots h !! i; if Slot.hasProbeReport s then Some (Slot.lastProbeReport s) else None.

(** ** Blobs *)

Definition storeEntryFor (id : BlobId) : option CatalogEntry.t :=
  find_index (fun e =>
      bool_decide (CatalogEntry.cls e = STORE)
      && match storeDescriptor e catalog with
         | Some sd => Blob.has_store_id id && (StoreDescriptor.storeId sd =? Blob.store_id id)
         | None => false
         end) (entries catalog) ≫= fun k => entries catalog !! k.

Definition kLedgerItemScratch : nat := 256.

(** The blob's identity with its generation and its bytes, or the refusal. *)
Definition resolveBlobBytes (i : nat) (id : BlobId) : M (Result (BlobId * bytes) NackMsg) :=
  s ← getSession i; h ← gets Datatypes.id;
  let unavailable := Err (nack NackCode.CHUNK_UNAVAILABLE) in
  let some_bytes id encoded := if (chunkCount (length encoded) =? 0)%nat then unavailable else Ok (id, encoded) in
  if Blob.isCatalog id then mret (some_bytes (id{{Blob.generation := 0}}) (Hub.catalogEncoded h))
  else match storeEntryFor id with
  | None => mret unavailable
  | Some e =>
      if negb (mayAccess (HubSession.role s) (CatalogEntry.access e))
      then mret (Err (onChannel (CatalogEntry.id e) (nack NackCode.ACCESS_DENIED)))
      else if Hub.hasPairedStore h && (Blob.ns id =? blob_ns.store) && Blob.has_store_id id && (Blob.store_id id =? Hub.pairedStoreId h) then
        match Ledger.slot (if Blob.has_slot id then Z.to_nat (Blob.slot id) else 0%nat) (Hub.pairing h) with
        | None => mret unavailable
        | Some e =>
            let '(itemLen, scratch) := encodeEntry e (replicate kLedgerItemScratch 0) in
            if (itemLen =? 0)%nat then mret unavailable
            else mret (some_bytes (id{{Blob.generation := Ledger.generation (Hub.pairing h)}}) (take itemLen scratch))
        end
      else
        view ← ask (d_readBlob (Blob.ns id) (Blob.store_id id) (Blob.slot id));
        match view with
        | None => mret unavailable
        | Some (bs, generation) => mret (some_bytes (id{{Blob.generation := generation}}) bs)
        end
  end.

Definition modifyBlob (i : nat) (f : PendingBlob.t -> PendingBlob.t) : M unit := modifySlot i (fun s => s{{Slot.blob := f (Slot.blob s)}}).

Definition handleBlobReq (i : nat) (payload : bytes) : M unit :=
  match decodeBlobReq payload with
  | Err _ => nackTo i (nack NackCode.MALFORMED)
  | Ok m =>
      r ← resolveBlobBytes i (br_blob m);
      match r with
      | Err n => nackTo i n
      | Ok (id, encoded) =>
          let cc := chunkCount (length encoded) in
          if negb (br_full m) && existsb (fun c => Z.of_nat cc <=? c) (br_chunks m) then nackTo i (nack NackCode.CHUNK_UNAVAILABLE)
          else
            h ← gets Datatypes.id;
            modifyBlob i (fun _ => PendingBlob.mk true id (u32 (Z.of_nat (length encoded))) (Blob.generation id)
              (Hub.dispatchSeq h) (Hub.dispatchSeqValid h) (br_full m) 0 0 (if br_full m then [] else br_chunks m))
      end
  end.

(** The refusal of a transfer under way names the request that asked. *)
Definition refuseBlob (i : nat) (pb : PendingBlob.t) (n : NackMsg) : M unit :=
  nackTo i (n{{nk_has_intent_seq := PendingBlob.hasReqSeq pb; nk_intent_seq := PendingBlob.reqSeq pb}}) ;;
  modifyBlob i (fun pb => pb{{PendingBlob.active := false}}).

Definition nextChunk (cc : nat) (pb : PendingBlob.t) : option Z :=
  if PendingBlob.full pb then if Z.of_nat cc <=? PendingBlob.nextIndex pb then None else Some (PendingBlob.nextIndex pb)
  else PendingBlob.chunks pb !! Z.to_nat (PendingBlob.cursor pb).

Definition advanceBlob (pb : PendingBlob.t) : PendingBlob.t :=
  if PendingBlob.full pb then pb{{PendingBlob.nextIndex := u16 (PendingBlob.nextIndex pb + 1)}}
  else pb{{PendingBlob.cursor := u16 (PendingBlob.cursor pb + 1)}}.

(** [true] when the loop ended without a return. *)
Fixpoint sendChunks (i : nat) (id : BlobId) (encoded : bytes) (budget : nat) : M bool :=
  match budget with
  | O => mret true
  | S budget =>
      s ← getSlot i;
      match nextChunk (chunkCount (length encoded)) (Slot.blob s) with
      | None => mret true
      | Some idx =>
          let '(n, cbuf) := fillBlobChunk id encoded idx (replicate (kBlobChunkHeaderBytes + limits.catalog_chunk_payload) 0) in
          if (n =? 0)%nat then refuseBlob i (Slot.blob s) (nack NackCode.CHUNK_UNAVAILABLE) ;; mret false
          else
            t ← deref i;
            ok ← sendFrameTo t FrameType.BLOB_CHUNK channels.catalog (take n cbuf) 0;
            if negb ok then mret false
            else modifyBlob i advanceBlob ;; sendChunks i id encoded budget
      end
  end.

Definition pumpBlobTransfer (i : nat) : M unit :=
  s ← getSlot i;
  let pb := Slot.blob s in
  if negb (PendingBlob.active pb) then mret tt
  else if negb (bool_decide (is_Some (Slot.transport s))) || negb (slotOccupied s) then
    modifyBlob i (fun pb => pb{{PendingBlob.active := false}})
  else
    r ← resolveBlobBytes i (PendingBlob.id pb);
    match r with
    | Err n => refuseBlob i pb n
    | Ok (id, encoded) =>
        if negb (u32 (Z.of_nat (length encoded)) =? PendingBlob.totalBytes pb) || negb (Blob.generation id =? PendingBlob.generation pb)
        then refuseBlob i pb (nack NackCode.CHUNK_UNAVAILABLE)
        else
          through ← sendChunks i id encoded kBlobChunksPerTick;
          when through
            (s ← getSlot i;
             when (bool_decide (nextChunk (chunkCount (length encoded)) (Slot.blob s) = None))
               (modifyBlob i (fun pb => pb{{PendingBlob.active := false}})))
    end.

(** ** Pushing retained state *)

(** The next shed counter and whether to transmit. *)
Definition shedTransmit (decision : Shedding.ShedDecision) (counter : option Z) : option Z * bool :=
  let every n := match counter with
                 | Some c => let c := u32 (c + 1) in (Some c, c mod n =? 0)
                 | None => (None, true)
                 end in
  match decision with
  | Shedding.Send => (counter, true)
  | Shedding.Drop => (counter, false)
  | Shedding.Decimate2x => every 2
  | Shedding.Decimate4x | Shedding.ConflateHard => every 4
  end.

Definition pushSub (i : nat) (nowMs : Z) (k : nat) : M unit :=
  s ← getSession i; h ← gets id;
  match HubSession.subs s !! k with
  | None => undefined
  | Some sub =>
      let ch := Subscription.channel_id sub in
      match Catalog.find ch catalog, RetainedStore.get ch (Hub.retained h) with
      | Some entry, Some (seq, payload) =>
          if negb (bool_decide (CatalogEntry.cls entry = STATE)) then mret tt
          else
            pr ← findOrCreatePushRecord i ch;
            slot ← getSlot i;
            let rec := pr ≫= fun r => Slot.pushRecords slot !! r in
            let changePending := match rec with
                                 | None => true
                                 | Some r => negb (PushRecord.valid r) || seqIsNewer seq (PushRecord.lastSeq r)
                                 end in
            if negb (Subscription.dueForPush nowMs changePending sub) then mret tt
            else
              let decision := if negb (Subscription.everPushed sub) then Shedding.Send
                              else Shedding.shedDecision (Subscription.priority sub) (CatalogEntry.cls entry) (Slot.congestionLevel slot)
                                     (isSegmentClass entry) in
              let '(counter, transmit) := shedTransmit decision (PushRecord.shedCounter <$> rec) in
              modifyPushRecord i pr (fun r => r{{PushRecord.shedCounter := default (PushRecord.shedCounter r) counter}}) ;;
              if negb transmit then modifySub i k (Subscription.markPushed nowMs)
              else
                t ← deref i;
                ok ← sendFrameTo t FrameType.STATE ch payload seq;
                when ok
                  (modifySub i k (Subscription.markPushed nowMs) ;;
                   modifyPushRecord i pr (fun r => r{{PushRecord.lastSeq := seq; PushRecord.valid := true}}))
      | _, _ => mret tt
      end
  end.

Definition pumpStatePacing (i : nat) (nowMs : Z) : M unit :=
  s ← getSession i;
  if negb (HubSession.ready s) then mret tt
  else each (seq 0 (length (HubSession.subs s))) (pushSub i nowMs).

(** ** The log *)

Definition publishLog (level : Z) (tag message : bytes) : M bool :=
  if negb (declared catalog channels.log) then mret false
  else
    now ← nowMs;
    let ev := mkEvent channels.log now log_events.entry false 0 true
      [mkField log_body.level (U64 level); mkField log_body.tag (Tstr (take kLogTagMaxBytes tag));
       mkField log_body.hub_ms (U64 now); mkField log_body.message (Tstr (take kLogMessageMaxBytes message))] in
    let '(n, buf) := encodeEvent ev (replicate kLogRingSlot 0) in
    if (n =? 0)%nat then mret false
    else
      modify (fun h => h{{Hub.logRing := snd (EventReplayRing.push kLogRingDepth kLogRingSlot (take n buf) (Hub.logRing h))}}) ;;
      _ ← publishEvent channels.log (take n buf);
      mret true.

Definition logDropped (h : Hub.t) : Z := EventReplayRing.dropped (Hub.logRing h).
End hub.
