(* ===== verification/HubLoop.v ===== *)
(** * HubLoop: the hub's calls

    hub/hub_impl.hpp: attaching and detaching transports, the dispatcher, the
    timeouts, [update], the constructor and the small calls of the application. *)

From S2P Require Import Prelude Registry Float ByteIO Serial Frame Blob Cbor Messages Codec Handshake Crypto Catalog Channel Safety Pairing TrustLedger Session Builtin HubState HubSafety HubJoin HubPairing HubData.
Local Open Scope Z_scope.

Section hub.
Context {P : Platform} (catalog : BasicCatalog) (tries : nat).

(** ** Transports *)

Definition openInto (i t : nat) : M bool :=
  ok ← ask (t_open t);
  if negb ok then mret false else modifySlot i (fun s => s{{Slot.transport := Some t}}) ;; mret true.

Definition attachTransport (t : nat) : M bool :=
  free ← gets (findSlot (fun _ s => bool_decide (Slot.transport s = None) && negb (slotOccupied s)));
  match free with
  | Some i => openInto i t
  | None =>
      v ← gets (findEvictableStale None);
      match v with
      | None => mret false
      | Some j => closeTransport j ;; now ← nowMs; teardown catalog j now ;; openInto j t
      end
  end.

Definition detachTransport (t : nat) : M unit :=
  i ← gets (attachedSlotFor t);
  match i with None => mret tt | Some i => now ← nowMs; parkAndDetach catalog i now end.

Definition setCongestionLevel (i : nat) (level : Z) : M unit :=
  if (kSlotCapacity <=? i)%nat then mret tt
  else
    modifySlot i (fun s => s{{Slot.congestionLevel := level}}) ;;
    when (level <? 2) (modifySlot i (fun s => s{{Slot.criticalStalling := false}})).

Definition setCongestionLevelOf (t : nat) (level : Z) : M unit :=
  i ← gets (attachedSlotFor t);
  match i with None => mret tt | Some i => setCongestionLevel i level end.

(** ** Timeouts *)

Definition ownsAny (sid : Z) (t : Ownership.table) : bool :=
  existsb (fun src => Ownership.ownerOf (Z.of_nat src) t =? sid) (seq 0 Ownership.kMaxSources).

Definition isLive (s : HubSession.t) : bool := bool_decide (HubSession.state s = HubSessionState.LIVE).

Definition pumpDeadman (i : nat) (nowMs : Z) : M unit :=
  s ← getSession i; own ← gets Hub.ownership;
  when (isLive s && ownsAny (HubSession.session_id s) own
        && timeReached nowMs (u32 (HubSession.lastRxMs s + HubSession.deadmanMs s)))
    (markStale catalog i nowMs 3).

Definition kIdleReapMs : Z := limits.idle_reap_multiplier * limits.ping_interval_idle_ms.

Definition pumpIdleReap (i : nat) (nowMs : Z) : M unit :=
  s ← getSession i; own ← gets Hub.ownership;
  when (isLive s && negb (ownsAny (HubSession.session_id s) own)
        && timeReached nowMs (u32 (HubSession.lastRxMs s + kIdleReapMs)))
    (markStale catalog i nowMs 4).

Definition pumpReadyTimeout (i : nat) (nowMs : Z) : M unit :=
  s ← getSlot i;
  when (negb (isStale s) && negb (HubSession.ready (Slot.session s))
        && timeReached nowMs (u32 (HubSession.grantedAtMs (Slot.session s) + limits.catalog_ready_timeout_ms)))
    (goodbyeTo i NackCode.READY_TIMEOUT ;; teardown catalog i nowMs).

(** ** Dispatch *)

Definition handleFrame (i : nat) (h : FrameHeader) (payload : bytes) (nowMs : Z) : M unit :=
  s ← getSlot i;
  let inSession (m : M unit) := when (slotOccupied s) m in
  if fh_type h =? FrameType.HELLO then handleHello catalog tries i payload nowMs
  else if fh_type h =? FrameType.SUBSCRIBE then inSession (handleSubscribe catalog i payload nowMs)
  else if fh_type h =? FrameType.UNSUBSCRIBE then inSession (handleUnsubscribe i payload)
  else if fh_type h =? FrameType.PUBLISH then inSession (handlePublish catalog i payload nowMs)
  else if fh_type h =? FrameType.CATALOG_READY then inSession (handleCatalogReady i payload)
  else if fh_type h =? FrameType.INTENT then inSession (handleIntent catalog i payload nowMs)
  else if fh_type h =? FrameType.STREAM then inSession (handleStream catalog i (fh_channel h) payload nowMs)
  else if fh_type h =? FrameType.PING then inSession (handlePing i payload)
  else if fh_type h =? FrameType.CLOCK then inSession (handleClock i payload)
  else if fh_type h =? FrameType.GOODBYE then inSession (handleGoodbye catalog i nowMs)
  else if fh_type h =? FrameType.BLOB_REQ then inSession (handleBlobReq catalog i payload)
  else if fh_type h =? FrameType.PAIR_REQ then inSession (handlePairReq catalog i payload nowMs)
  else if fh_type h =? FrameType.AUTH then inSession (handleAuth catalog i payload nowMs)
  else if fh_type h =? FrameType.PROBE then inSession (handleProbeRequest i)
  else if fh_type h =? FrameType.PROBE_REPORT then inSession (handleProbeReportFrame i payload)
  else mret tt.

(** The sequence number stamps the refusals of this frame only. *)
Definition dispatchFrame (i : nat) (h : FrameHeader) (payload : bytes) (nowMs : Z) : M unit :=
  modify (fun hub => hub{{Hub.dispatchSeq := fh_seq h; Hub.dispatchSeqValid := true}}) ;;
  handleFrame i h payload nowMs ;;
  modify (fun hub => hub{{Hub.dispatchSeqValid := false}}).

Definition received (i : nat) (nowMs : Z) : M unit :=
  s ← getSlot i;
  when (slotOccupied s) (modifySession i (fun s => s{{HubSession.lastRxMs := nowMs}})) ;;
  reviveIfStale i nowMs.

Definition isEstop (bs : bytes) : bool :=
  (length bs =? kEstopFrameBytes)%nat && bool_decide (take 4 bs = replicate 4 kEstopMagicByte).

Definition handleBytes (i : nat) (fb : FrameBuffer.t) (nowMs : Z) : M unit :=
  let bs := FrameBuffer.bytes_of fb in
  if isEstop bs then
    match decodeEstop bs with
    | Ok f => received i nowMs ;; handleEstopFrame catalog f nowMs
    | Err _ => mret tt
    end
  else match decodeFrameHeader bs with
  | None => mret tt
  | Some h => received i nowMs ;; dispatchFrame i h (FrameBuffer.payload fb) nowMs
  end.

(** [while (slot.transport != nullptr)]: [fuel] rounds, then undefined. *)
Fixpoint pumpFrames (fuel : nat) (i : nat) (nowMs : Z) : M unit :=
  match fuel with
  | O => undefined
  | S fuel =>
      s ← getSlot i;
      match Slot.transport s with
      | None => mret tt
      | Some t =>
          fb ← read t;
          match fb with
          | None => mret tt
          | Some fb => handleBytes i fb nowMs ;; pumpFrames fuel i nowMs
          end
      end
  end.

(** A round per waiting frame, and one to find none. *)
Definition pumpSlot (i : nat) (nowMs : Z) : M unit := fun w =>
  match Hub.slots (hub w) !! i ≫= Slot.transport with
  | None => Some (tt, w)
  | Some t => pumpFrames (S (length (inbox w t))) i nowMs w
  end.

(** ** [update] *)

Definition whenOccupied (i : nat) (m : M unit) : M unit := s ← getSlot i; when (slotOccupied s) m.

Definition updateSlot (nowMs : Z) (i : nat) : M unit :=
  s ← getSlot i;
  match Slot.transport s with
  | None => mret tt
  | Some _ =>
      pumpSlot i nowMs ;;
      whenOccupied i (pumpDeadman i nowMs) ;;
      whenOccupied i (pumpReadyTimeout i nowMs) ;;
      whenOccupied i (pumpIdleReap i nowMs) ;;
      s ← getSlot i;
      when (slotOccupied s && bool_decide (is_Some (Slot.transport s)))
        (pumpStatePacing catalog i nowMs ;; pumpEventDrain i ;; pumpBlobTransfer catalog i)
  end.

Definition update (nowUs : Z) : M unit :=
  c ← gets Hub.monoMs;
  let '(nowMs, c) := MonotonicMs.advance nowUs c in
  modify (fun h => h{{Hub.monoMs := c}}) ;;
  pumpPairing catalog nowMs ;;
  each allSlots (updateSlot nowMs).

(** ** Construction and settings *)

Definition fresh (catalogEncoded : bytes) : Hub.t :=
  Hub.mk (replicate kSlotCapacity Slot.init) [] (take limits.etag_bytes (Sha256.hash catalogEncoded)) catalogEncoded
    [] [] [] 0 0 0 0 1 MonotonicMs.fresh 0 false 0 0 0 0 0 Ledger.init Ownership.empty 0 false false false
    (EventReplayRing.empty kLogRingDepth kLogRingSlot).

(** [catalogEncoded] is what [encodeCatalog] made of the catalog. *)
Definition construct (catalogEncoded : bytes) : M unit :=
  modify (fun _ => fresh catalogEncoded) ;;
  boot ← drawNonZero tries;
  modify (fun h => h{{Hub.bootId := boot}}) ;;
  when (declared catalog channels.safety) publishSafetySnapshot ;;
  match Catalog.find channels.paired_devices catalog ≫= fun e => storeDescriptor e catalog with
  | Some sd => modify (fun h => h{{Hub.pairedStoreId := StoreDescriptor.storeId sd; Hub.hasPairedStore := true}})
  | None => mret tt
  end ;;
  publishPendingPairingState catalog 0 ;;
  publishPairedRosterState catalog.

Definition setIdentity (product fwVersion hubName : bytes) : M unit :=
  modify (fun h => h{{Hub.idProduct := product; Hub.idFwVersion := fwVersion; Hub.idHubName := hubName}}).
Definition setHubInstanceId (v : Z) : M unit := modify (fun h => h{{Hub.hubInstanceId := v}}).
Definition setEndpoint (port ip : Z) : M unit := modify (fun h => h{{Hub.wsPort := port; Hub.ipv4 := ip}}).
Definition pairingWindowOpen : M bool :=
  now ← nowMs; m ← gets Hub.pairing; mret (Ledger.windowOpen now m || Ledger.presenceWindowOpen now m).
Definition bumpConfigGeneration : M unit := modify (fun h => h{{Hub.cfgGen := u16 (Hub.cfgGen h + 1)}}).

Definition sessionCount : Hub.t -> nat := occupiedCount None.
Definition sessionBySlot (i : nat) (h : Hub.t) : option HubSession.t := Slot.session <$> Hub.slots h !! i.

Definition streamIngressCounters (i : nat) (h : Hub.t) : Z * Z :=
  match Hub.slots h !! i with
  | Some s => if slotOccupied s
              then (HubSession.streamBundlesAccepted (Slot.session s), HubSession.streamBundlesDropped (Slot.session s)) else (0, 0)
  | None => (0, 0)
  end.

Definition regrantForTest (i : nat) (ch : Z) (rate : Float32.t) : M bool :=
  if (kSlotCapacity <=? i)%nat then mret false
  else
    s ← getSlot i;
    match Subscription.find ch (HubSession.subs (Slot.session s)) ≫= fun k => HubSession.subs (Slot.session s) !! k with
    | None => mret false
    | Some e =>
        if negb (slotOccupied s) then mret false
        else
          ok ← upsertSub i ch rate (Subscription.priority e);
          if negb ok then mret false
          else
            let '(glen, gbuf) := GrantMsg.encodeGrant (GrantMsg.none{{GrantMsg.grants := [grantOf ch rate (Subscription.priority e)] }})
                                   (replicate 64 0) in
            if (glen =? 0)%nat then mret false
            else t ← deref i; sendFrameTo t FrameType.GRANT 0 (take glen gbuf) 0
    end.
End hub.
