(* ===== verification/HubFacts.v ===== *)
(** * HubFacts: reasoning about the hub's computations

    [runs m w Q]: the computation returns from [w] and [Q] holds of its result.
    The part of the hub its session invariant is about is [view]: per slot the
    transport, the session's state, id and instance, the owners of the sources and
    the ESTOP latch. Most computations are [quiet]: they return, leave the view
    alone and cause no effect the invariants speak of. *)

From S2P Require Import Prelude Registry ByteIO Serial Frame Bundle Messages Codec Trust Handshake Raw Catalog Channel Safety Pairing TrustLedger Session Builtin HubState HubSafety HubJoin HubPairing HubData HubLoop.
Local Open Scope Z_scope.

(** ** The view *)

Record SlotView := mkSV { sv_transport : option nat; sv_state : HubSessionState.t; sv_id : Z; sv_instance : bytes }.
Record View := mkV { v_slots : list SlotView; v_owners : Ownership.table; v_estop : bool }.

Definition slot_view (s : Slot.t) : SlotView :=
  mkSV (Slot.transport s) (HubSession.state (Slot.session s)) (HubSession.session_id (Slot.session s)) (HubSession.instance_id (Slot.session s)).

Definition hub_view (h : Hub.t) : View := mkV (slot_view <$> Hub.slots h) (Hub.ownership h) (estopLatched h).

(** An effect that is neither about ESTOP nor an act on the machine. *)
Definition neutral (e : Effect) : Prop :=
  match e with OnEstop _ _ | CanClearEstop _ | ApplyIntent _ _ _ | OnStreamBundle _ _ _ => False | _ => True end.

Create HintDb quiet discriminated.

Section runs.
Context {P : Platform}.

Definition view (w : World) : View := hub_view (hub w).

Definition runs {A} (m : M A) (w : World) (Q : A -> World -> Prop) : Prop :=
  match m w with Some (a, w') => Q a w' | None => False end.

Lemma runs_ret {A} (a : A) w (Q : A -> World -> Prop) : Q a w -> runs (mret a) w Q.
Proof. done. Qed.

Lemma runs_bind {A B} (m : M A) (k : A -> M B) w (R : A -> World -> Prop) (Q : B -> World -> Prop) :
  runs m w R -> (forall a w', R a w' -> runs (k a) w' Q) -> runs (mbind k m) w Q.
Proof. unfold runs. intros Hm Hk. change ((m ≫= k) w) with (match m w with Some (a, w) => k a w | None => None end). destruct (m w) as [[a w']|]; [|done]. by apply Hk. Qed.

Lemma runs_mono {A} (m : M A) w (R Q : A -> World -> Prop) : runs m w R -> (forall a w', R a w' -> Q a w') -> runs m w Q.
Proof. unfold runs. destruct (m w) as [[a w']|]; auto. Qed.

(** ** Quiet computations *)

Definition quietly (w w' : World) : Prop :=
  inbox w' = inbox w /\ exists tr, trace w' = trace w ++ tr /\ Forall neutral tr.

Lemma quietly_refl w : quietly w w.
Proof. split; [done|]. exists []. by rewrite app_nil_r. Qed.

Lemma quietly_same w w' : inbox w' = inbox w -> trace w' = trace w -> quietly w w'.
Proof. intros I T. split; [done|]. exists []. by rewrite app_nil_r. Qed.

Lemma quietly_trans w1 w2 w3 : quietly w1 w2 -> quietly w2 w3 -> quietly w1 w3.
Proof.
  intros (I1 & t1 & E1 & F1) (I2 & t2 & E2 & F2). split; [congruence|]. exists (t1 ++ t2).
  split; [by rewrite E2, E1, app_assoc|]. by apply Forall_app.
Qed.

Definition five (v : View) : Prop := length (v_slots v) = kSlotCapacity.

Definition quiet (pre : View -> Prop) {A} (m : M A) : Prop :=
  forall w, five (view w) -> pre (view w) -> runs m w (fun _ w' => view w' = view w /\ quietly w w').

Lemma quiet_ret pre {A} (a : A) : quiet pre (mret a).
Proof. intros w _ _. apply runs_ret. split; [done|apply quietly_refl]. Qed.

Lemma quiet_bind pre {A B} (m : M A) (k : A -> M B) : quiet pre m -> (forall a, quiet pre (k a)) -> quiet pre (mbind k m).
Proof.
  intros Hm Hk w H5 Hp. eapply runs_bind; [by apply Hm|]. intros a w' [E1 Q1]. cbn beta.
  eapply runs_mono; [apply Hk; by rewrite E1|]. intros b w'' [E2 Q2]. split; [congruence|by eapply quietly_trans].
Qed.

Lemma quiet_fmap pre {A B} (f : A -> B) (m : M A) : quiet pre m -> quiet pre (f <$> m).
Proof.
  intros Hm w H5 Hp. specialize (Hm w H5 Hp). unfold runs in *. cbn. unfold fmap, M_fmap. by destruct (m w) as [[a w']|].
Qed.

Lemma quiet_weaken (pre pre' : View -> Prop) {A} (m : M A) : (forall v, pre' v -> pre v) -> quiet pre m -> quiet pre' m.
Proof. intros H Hm w H5 Hp. auto. Qed.

Lemma quiet_gets pre {A} (f : Hub.t -> A) : quiet pre (gets f).
Proof. intros w _ _. split; [done|apply quietly_refl]. Qed.

Lemma quiet_ask pre {A} (q : Env -> A * Env) : quiet pre (ask q).
Proof. intros w _ _. unfold runs, ask. destruct (q (env w)). split; [done|by apply quietly_same]. Qed.

Lemma quiet_random pre {A} (f : Rng -> A * Rng) : quiet pre (random f).
Proof. intros w _ _. unfold runs, random. destruct (f (rng w)). split; [done|by apply quietly_same]. Qed.

Lemma quiet_record pre e : neutral e -> quiet pre (record e).
Proof. intros H w _ _. split; [done|]. split; [done|]. exists [e]. split; [done|by constructor]. Qed.

Lemma quiet_notify pre e : neutral e -> quiet pre (notify e).
Proof. intros H. apply quiet_bind; [by apply quiet_record|intros _; apply quiet_ask]. Qed.

Lemma quiet_modify pre f : (forall h, hub_view (f h) = hub_view h) -> quiet pre (modify f).
Proof. intros H w _ _. split; [exact (H (hub w))|]. by apply quietly_same. Qed.

Lemma slots_alter f i (l : list Slot.t) : (forall s, slot_view (f s) = slot_view s) -> slot_view <$> alter f i l = slot_view <$> l.
Proof. intros H. apply list_eq. intros k. rewrite !list_lookup_fmap. destruct (decide (i = k)) as [->|]; [rewrite list_lookup_alter_eq|by rewrite list_lookup_alter_ne by done]. destruct (l !! k); [|done]. cbn. by rewrite H. Qed.

Lemma quiet_modifySlot pre i f : (forall s, slot_view (f s) = slot_view s) -> quiet pre (modifySlot i f).
Proof. intros H. apply quiet_modify. intros h. unfold hub_view. f_equal. by apply slots_alter. Qed.

Lemma quiet_modifySession pre i f :
  (forall s, HubSession.state (f s) = HubSession.state s /\ HubSession.session_id (f s) = HubSession.session_id s
             /\ HubSession.instance_id (f s) = HubSession.instance_id s) -> quiet pre (modifySession i f).
Proof. intros H. apply quiet_modifySlot. intros s. destruct (H (Slot.session s)) as (A & B & C). unfold slot_view. cbn. f_equal; done. Qed.

Lemma lookup_five w i : five (view w) -> (i < kSlotCapacity)%nat -> exists s, Hub.slots (hub w) !! i = Some s.
Proof. intros H5 Hi. apply lookup_lt_is_Some. unfold five, view, hub_view in H5. cbn in H5. rewrite length_fmap in H5. by rewrite H5. Qed.

Lemma slot_lt w i s : five (view w) -> Hub.slots (hub w) !! i = Some s -> (i < kSlotCapacity)%nat.
Proof. intros H5 Hs. rewrite <- H5. change (i < length (slot_view <$> Hub.slots (hub w)))%nat. rewrite length_fmap. by eapply lookup_lt_Some. Qed.

Lemma quiet_getSlot pre i : (i < kSlotCapacity)%nat -> quiet pre (getSlot i).
Proof.
  intros Hi w H5 _. destruct (lookup_five w i H5 Hi) as [s Hs]. unfold getSlot, gets, runs. cbn. unfold mbind, M_bind. rewrite Hs.
  split; [done|apply quietly_refl].
Qed.

Lemma quiet_when pre b m : quiet pre m -> quiet pre (when b m).
Proof. intros H. destruct b; [exact H|apply quiet_ret]. Qed.

Lemma quiet_each pre {A} (l : list A) body : (forall x, x ∈ l -> quiet pre (body x)) -> quiet pre (each l body).
Proof.
  induction l as [|x l IH]; intros H; [apply quiet_ret|]. apply quiet_bind; [apply H; left|]. intros _. apply IH. intros y Hy. apply H. by right.
Qed.

(** *** Stepping through a computation *)

Definition with_hub (h : Hub.t) (w : World) : World := mkWorld h (env w) (rng w) (inbox w) (trace w).

Lemma runs_gets {A B} (f : Hub.t -> A) (k : A -> M B) w Q : runs (k (f (hub w))) w Q -> runs (gets f ≫= k) w Q.
Proof. done. Qed.

Lemma runs_modify {B} f (k : unit -> M B) w Q : runs (k tt) (with_hub (f (hub w)) w) Q -> runs (modify f ≫= k) w Q.
Proof. done. Qed.

Lemma runs_ask {A B} (q : Env -> A * Env) (k : A -> M B) w Q :
  (forall a e, q (env w) = (a, e) -> runs (k a) (mkWorld (hub w) e (rng w) (inbox w) (trace w)) Q) -> runs (ask q ≫= k) w Q.
Proof. intros H. unfold runs, ask, mbind, M_bind in *. destruct (q (env w)) as [a e]. by apply H. Qed.

Lemma runs_record {B} e (k : unit -> M B) w Q :
  runs (k tt) (mkWorld (hub w) (env w) (rng w) (inbox w) (trace w ++ [e])) Q -> runs (record e ≫= k) w Q.
Proof. done. Qed.

Lemma runs_getSlot {B} i s (k : Slot.t -> M B) w Q : Hub.slots (hub w) !! i = Some s -> runs (k s) w Q -> runs (getSlot i ≫= k) w Q.
Proof. intros Hs H. unfold runs, getSlot, gets, mbind, M_bind in *. by rewrite Hs. Qed.

Lemma runs_getSession {B} i s (k : HubSession.t -> M B) w Q :
  Hub.slots (hub w) !! i = Some s -> runs (k (Slot.session s)) w Q -> runs (getSession i ≫= k) w Q.
Proof. intros Hs H. unfold runs, getSession, getSlot, gets, mbind, M_bind in *. by rewrite Hs. Qed.

Lemma runs_quiet pre {A B} (m : M A) (k : A -> M B) w Q :
  quiet pre m -> five (view w) -> pre (view w) ->
  (forall a w', view w' = view w -> quietly w w' -> runs (k a) w' Q) -> runs (m ≫= k) w Q.
Proof. intros Hm H5 Hp Hk. eapply runs_bind; [by apply Hm|]. intros a w' [E H]. by apply Hk. Qed.

Lemma runs_assoc {B} (m n : M unit) (k : M B) w Q : runs ((m ;; n) ;; k) w Q -> runs (m ;; n ;; k) w Q.
Proof. unfold runs, mbind, M_bind. by destruct (m w) as [[a w1]|]. Qed.

Lemma view_slot w i s : Hub.slots (hub w) !! i = Some s -> v_slots (view w) !! i = Some (slot_view s).
Proof. intros H. cbn. by rewrite list_lookup_fmap, H. Qed.

Lemma slot_of_view w i v : v_slots (view w) !! i = Some v -> exists s, Hub.slots (hub w) !! i = Some s /\ slot_view s = v.
Proof. cbn. rewrite list_lookup_fmap. destruct (Hub.slots (hub w) !! i) as [s|]; [|done]. intros [= <-]. by exists s. Qed.

Lemma fmap_alter_insert f i s (l : list Slot.t) : l !! i = Some s -> slot_view <$> alter f i l = <[i := slot_view (f s)]> (slot_view <$> l).
Proof.
  intros H. apply list_eq. intros k. rewrite list_lookup_fmap. destruct (decide (i = k)) as [<-|Hne].
  - rewrite list_lookup_alter_eq, H, list_lookup_insert_eq; [done|]. rewrite length_fmap. by eapply lookup_lt_Some.
  - by rewrite list_lookup_alter_ne, list_lookup_insert_ne, list_lookup_fmap by done.
Qed.

Lemma allSlots_lt i : i ∈ allSlots -> (i < kSlotCapacity)%nat.
Proof. intros H. apply elem_of_seq in H. lia. Qed.
End runs.

(** Decompose a computation down to the primitives and the named ones of the
    database. *)
Ltac quiet_step :=
  lazymatch goal with
  | |- quiet _ (when _ _) => apply quiet_when
  | |- quiet _ (each _ _) => apply quiet_each; intros
  | |- quiet _ (mret _) => apply quiet_ret
  | |- quiet _ (gets _) => apply quiet_gets
  | |- quiet _ (ask _) => apply quiet_ask
  | |- quiet _ (random _) => apply quiet_random
  | |- quiet _ (notify _) => apply quiet_notify; exact I
  | |- quiet _ (record _) => apply quiet_record; exact I
  | |- quiet _ (getSlot _) => apply quiet_getSlot; solve [assumption | by apply allSlots_lt]
  | |- quiet _ (modifySession _ _) =>
      first [apply quiet_modifySession; intros; solve [repeat (split || case_match); reflexivity] | solve [eauto 3 with quiet]]
  | |- quiet _ (modifySlot _ _) => apply quiet_modifySlot; intros; reflexivity
  | |- quiet _ (modify _) => first [apply quiet_modify; intros; reflexivity | solve [eauto 3 with quiet]]
  | |- quiet _ (mbind _ _) => apply quiet_bind; [|intros]
  | |- quiet _ (fmap _ _) => apply quiet_fmap
  | |- quiet _ (if ?b then _ else _) => destruct b
  | |- quiet _ (match ?x with _ => _ end) => destruct x eqn:?
  | |- quiet _ _ => solve [eauto 3 with quiet]
  end.
Ltac quiet := repeat (intros; cbv zeta; quiet_step).

#[export] Hint Extern 1 (_ < kSlotCapacity)%nat => assumption : quiet.
#[export] Hint Extern 2 (_ < kSlotCapacity)%nat => solve [by apply allSlots_lt] : quiet.

(** *** The hub's shared operations *)

Section quiet.
Context {P : Platform}.

Lemma quiet_getSession pre i : (i < kSlotCapacity)%nat -> quiet pre (getSession i).
Proof. intros. unfold getSession. quiet. Qed.

Lemma quiet_nowMs pre : quiet pre nowMs.
Proof. unfold nowMs, nowUs. quiet. Qed.

Lemma quiet_writeTo pre t f : quiet pre (writeTo t f).
Proof. unfold writeTo. quiet. Qed.
#[local] Hint Resolve quiet_getSession quiet_nowMs quiet_writeTo : quiet.

Lemma quiet_sendFrameTo pre t ty ch p n : quiet pre (sendFrameTo t ty ch p n).
Proof. unfold sendFrameTo. quiet. Qed.
#[local] Hint Resolve quiet_sendFrameTo : quiet.

Lemma quiet_stamped pre n : quiet pre (stamped n).
Proof. unfold stamped. quiet. Qed.
#[local] Hint Resolve quiet_stamped : quiet.

Lemma quiet_sendNack pre t n : quiet pre (sendNack t n).
Proof. unfold sendNack. quiet. Qed.

Lemma quiet_sendGoodbye pre t c : quiet pre (sendGoodbye t c).
Proof. unfold sendGoodbye. quiet. Qed.
#[local] Hint Resolve quiet_sendNack quiet_sendGoodbye : quiet.

Lemma quiet_goodbyeTo pre i c : (i < kSlotCapacity)%nat -> quiet pre (goodbyeTo i c).
Proof. intros. unfold goodbyeTo. quiet. Qed.

Lemma quiet_publish pre ch p : quiet pre (publish ch p).
Proof. unfold publish, publishState. quiet. Qed.
#[local] Hint Resolve quiet_goodbyeTo quiet_publish : quiet.

Lemma quiet_drainEvents pre n i t : (i < kSlotCapacity)%nat -> quiet pre (drainEvents n i t).
Proof. intros Hi. induction n as [|n IH]; cbn [drainEvents]; quiet. Qed.
#[local] Hint Resolve quiet_drainEvents : quiet.

Lemma quiet_pumpEventDrain pre i : (i < kSlotCapacity)%nat -> quiet pre (pumpEventDrain i).
Proof. intros. unfold pumpEventDrain. quiet. Qed.

Lemma quiet_pushEvent pre i ch bs : quiet pre (pushEvent i ch bs).
Proof. unfold pushEvent. quiet. Qed.
#[local] Hint Resolve quiet_pumpEventDrain quiet_pushEvent : quiet.

Lemma quiet_publishEvent pre ch bs : quiet pre (publishEvent ch bs).
Proof. unfold publishEvent. quiet. Qed.
#[local] Hint Resolve quiet_publishEvent : quiet.

Lemma quiet_emitEvent pre cap ev : quiet pre (emitEvent cap ev).
Proof. unfold emitEvent. quiet. Qed.
#[local] Hint Resolve quiet_emitEvent : quiet.

Lemma quiet_emitTakeoverEvent pre a b c : quiet pre (emitTakeoverEvent a b c).
Proof. unfold emitTakeoverEvent. quiet. Qed.

Lemma quiet_emitSessionEvent pre a b c : quiet pre (emitSessionEvent a b c).
Proof. unfold emitSessionEvent. quiet. Qed.
End quiet.

#[export] Hint Resolve quiet_getSession quiet_nowMs quiet_writeTo quiet_sendFrameTo quiet_stamped quiet_sendNack quiet_sendGoodbye
  quiet_goodbyeTo quiet_publish quiet_drainEvents quiet_pumpEventDrain quiet_pushEvent quiet_publishEvent quiet_emitEvent
  quiet_emitTakeoverEvent quiet_emitSessionEvent : quiet.

Section quiet_catalog.
Context {P : Platform} (catalog : BasicCatalog).

Lemma quiet_emitPairingEvent pre a b c d e f g : quiet pre (emitPairingEvent catalog a b c d e f g).
Proof. unfold emitPairingEvent. quiet. Qed.

Lemma quiet_publishControlOwner pre : quiet pre (publishControlOwnerStateIfPresent catalog).
Proof. unfold publishControlOwnerStateIfPresent. quiet. Qed.

Lemma quiet_publishPendingPairingState pre now : quiet pre (publishPendingPairingState catalog now).
Proof. unfold publishPendingPairingState. quiet. Qed.

Lemma quiet_publishPairedRosterState pre : quiet pre (publishPairedRosterState catalog).
Proof. unfold publishPairedRosterState. quiet. Qed.
#[local] Hint Resolve quiet_emitPairingEvent quiet_publishControlOwner quiet_publishPendingPairingState quiet_publishPairedRosterState : quiet.

Lemma quiet_modifyPairing pre f : quiet pre (modifyPairing f).
Proof. unfold modifyPairing. quiet. Qed.

Lemma quiet_announceExpired pre l now : quiet pre (announceExpired catalog l now).
Proof. unfold announceExpired. quiet. Qed.
#[local] Hint Resolve quiet_modifyPairing quiet_announceExpired : quiet.

Lemma quiet_dropKnocks pre sid now : quiet pre (dropKnocks catalog sid now).
Proof. unfold dropKnocks. quiet. Qed.

Lemma quiet_findOrCreatePushRecord pre i ch : (i < kSlotCapacity)%nat -> quiet pre (findOrCreatePushRecord i ch).
Proof. intros. unfold findOrCreatePushRecord. quiet. Qed.

Lemma quiet_modifyPushRecord pre i k f : quiet pre (modifyPushRecord i k f).
Proof. unfold modifyPushRecord. quiet. Qed.

Lemma quiet_modifySub pre i k f : quiet pre (modifySub i k f).
Proof. unfold modifySub. quiet. Qed.

Lemma quiet_publishSafetySnapshot pre : quiet pre publishSafetySnapshot.
Proof. unfold publishSafetySnapshot. quiet. Qed.

Lemma quiet_emitSafetyEdgeEvents pre b now : quiet pre (emitSafetyEdgeEvents catalog b now).
Proof. unfold emitSafetyEdgeEvents, emitSafetyEvent. quiet. Qed.
End quiet_catalog.

#[export] Hint Resolve quiet_emitPairingEvent quiet_publishControlOwner quiet_publishPendingPairingState quiet_publishPairedRosterState
  quiet_modifyPairing quiet_announceExpired quiet_dropKnocks quiet_findOrCreatePushRecord quiet_modifyPushRecord quiet_modifySub
  quiet_publishSafetySnapshot quiet_emitSafetyEdgeEvents : quiet.
