(* ===== verification/HubInv.v ===== *)
(** * HubInv: the invariant of the hub's sessions, and its operations

    [vinv]: at most four sessions, one per instance, their ids not zero, and
    every owned source owned by a session that is neither gone nor stale.
    [hist]: the trace only grows; its OnEstop and CanClearEstop effects replay to
    the ESTOP latch; what reaches the machine was authorised. [keeps]: a
    computation returns, keeps the invariant and extends the history. *)

From S2P Require Import Prelude Registry ByteIO Serial Frame Bundle Messages Codec Trust Handshake Raw Catalog Channel Safety Pairing TrustLedger Session Builtin HubState HubSafety HubJoin HubPairing HubData HubLoop HubFacts.
Local Open Scope Z_scope.

(** ** The invariant *)

Definition occ (s : SlotView) : bool := match sv_state s with HubSessionState.FREE | HubSessionState.CLOSED => false | _ => true end.
Definition holds (s : SlotView) : bool := occ s && negb (bool_decide (sv_state s = HubSessionState.STALE)).

Definition owned_by (v : View) (sid : Z) : Prop := exists e, e ∈ v_owners v /\ Ownership.used e = true /\ Ownership.owner e = sid.

Record vinv (v : View) : Prop := {
  i_five : five v;
  i_id : forall i s, v_slots v !! i = Some s -> occ s = true -> sv_id s <> 0;
  i_one : forall i j s t, v_slots v !! i = Some s -> v_slots v !! j = Some t -> occ s = true -> occ t = true ->
    sv_instance s = sv_instance t -> i = j;
  i_cap : (length (filter (fun s => occ s = true) (v_slots v)) <= kHubMaxSessions)%nat;
  i_owner : forall sid, owned_by v sid -> sid <> 0 -> exists i s, v_slots v !! i = Some s /\ holds s = true /\ sv_id s = sid }.

(** ** Changes of the view *)

Definition v_release (sid : Z) (v : View) : View := mkV (v_slots v) (snd (Ownership.releaseAllOf sid (v_owners v))) (v_estop v).
Definition v_on (i : nat) (s : SlotView) (v : View) : View := mkV (<[i := s]> (v_slots v)) (v_owners v) (v_estop v).
Definition v_owns (t : Ownership.table) (v : View) : View := mkV (v_slots v) t (v_estop v).
Definition v_latch (b : bool) (v : View) : View := mkV (v_slots v) (v_owners v) b.

Lemma releaseAllOf_elem sid t e :
  e ∈ snd (Ownership.releaseAllOf sid t) -> Ownership.used e = true -> Ownership.owner e <> 0 ->
  Ownership.owner e <> sid /\ e ∈ t.
Proof.
  induction t as [|x t IH]; cbn [Ownership.releaseAllOf]; [intros H; by apply elem_of_nil in H|].
  destruct (Ownership.releaseAllOf sid t) as [cb t'] eqn:E. cbn [snd] in IH. destruct (Ownership.used x && (Ownership.owner x =? sid)) eqn:B; cbn [snd]; intros H Hu Ho; apply elem_of_cons in H as [->|H].
  - done.
  - destruct (IH H Hu Ho). split; [done|by right].
  - rewrite Hu in B. split; [cbn in B; lia|left].
  - destruct (IH H Hu Ho). split; [done|by right].
Qed.

Lemma owned_release v sid o : owned_by (v_release sid v) o -> o <> 0 -> o <> sid /\ owned_by v o.
Proof. intros (e & He & Hu & Ho) Hz. apply releaseAllOf_elem in He; [|done|congruence]. destruct He as [Hne He]. split; [congruence|by exists e]. Qed.

Lemma vinv_release sid v : vinv v -> vinv (v_release sid v).
Proof. intros [A B C D E]. split; try done. intros o Ho Hz. destruct (owned_release _ _ _ Ho Hz) as [_ Ho']. by apply E. Qed.

Lemma vinv_latch b v : vinv v -> vinv (v_latch b v).
Proof. by intros [A B C D E]. Qed.

Lemma filter_insert_le (l : list SlotView) i s s' : l !! i = Some s -> (occ s' = true -> occ s = true) ->
  (length (filter (fun s => occ s = true) (<[i := s']> l)) <= length (filter (fun s => occ s = true) l))%nat.
Proof.
  intros Hl Himp. rewrite (insert_take_drop _ _ _ ltac:(by eapply lookup_lt_Some)). rewrite <- (take_drop_middle l i s Hl) at 3.
  rewrite !filter_app, !length_app. apply Nat.add_le_mono_l. rewrite !filter_cons. destruct (decide (occ s' = true)), (decide (occ s = true)); cbn; lia || tauto.
Qed.

(** A slot that keeps its session, or loses it. *)
Lemma vinv_shrink i s s' v :
  vinv v -> v_slots v !! i = Some s ->
  (occ s' = true -> occ s = true /\ sv_id s' = sv_id s /\ sv_instance s' = sv_instance s) ->
  (owned_by v (sv_id s) -> sv_id s <> 0 -> holds s = true -> holds s' = true /\ sv_id s' = sv_id s) ->
  vinv (v_on i s' v).
Proof.
  intros [A B C D E] Hi Hocc Hown. assert (Hlt := lookup_lt_Some _ _ _ Hi).
  assert (L : forall k t, v_slots (v_on i s' v) !! k = Some t ->
            (k <> i /\ v_slots v !! k = Some t) \/ (k = i /\ t = s')).
  { intros k t. cbn. destruct (decide (i = k)) as [<-|]; [rewrite list_lookup_insert_eq by done; intros [= <-]; auto|].
    rewrite list_lookup_insert_ne by done. auto. }
  assert (U : forall k t, v_slots (v_on i s' v) !! k = Some t -> occ t = true ->
            exists t0, v_slots v !! k = Some t0 /\ occ t0 = true /\ sv_id t = sv_id t0 /\ sv_instance t = sv_instance t0).
  { intros k t Hk Ho. destruct (L k t Hk) as [[_ Hk']|[-> ->]]; [by exists t|]. destruct (Hocc Ho) as (X & Y & Z). by exists s. }
  split.
  - unfold five in *. cbn. by rewrite length_insert.
  - intros k t Hk Ho. destruct (U k t Hk Ho) as (t0 & Ht0 & O0 & -> & _). by eapply B.
  - intros k j t u Hk Hj Ok Oj. destruct (U k t Hk Ok) as (t0 & Ht0 & O0 & _ & ->). destruct (U j u Hj Oj) as (u0 & Hu0 & U0 & _ & ->). by eapply C.
  - cbn. etrans; [eapply filter_insert_le; [done|by intros (? & _)%Hocc]|done].
  - intros sid Ho Hz. destruct (E sid Ho Hz) as (k & t & Hk & Ht & <-). destruct (decide (k = i)) as [->|Hne].
    + rewrite Hi in Hk. injection Hk as <-. destruct (Hown Ho Hz Ht) as [X Y]. exists i, s'. cbn. rewrite list_lookup_insert_eq by done. done.
    + exists k, t. cbn. by rewrite list_lookup_insert_ne by done.
Qed.

(** A slot whose session is new. *)
Lemma vinv_grow i s s' v :
  vinv v -> v_slots v !! i = Some s -> occ s = false -> sv_id s' <> 0 ->
  (forall k t, k <> i -> v_slots v !! k = Some t -> occ t = true -> sv_instance t <> sv_instance s') ->
  (length (filter (fun s => occ s = true) (v_slots v)) < kHubMaxSessions)%nat ->
  vinv (v_on i s' v).
Proof.
  intros [A B C D E] Hi Hfree Hid Huniq Hroom. assert (Hlt := lookup_lt_Some _ _ _ Hi).
  assert (L : forall k t, v_slots (v_on i s' v) !! k = Some t ->
            (k <> i /\ v_slots v !! k = Some t) \/ (k = i /\ t = s')).
  { intros k t. cbn. destruct (decide (i = k)) as [<-|]; [rewrite list_lookup_insert_eq by done; intros [= <-]; auto|].
    rewrite list_lookup_insert_ne by done. auto. }
  split.
  - unfold five in *. cbn. by rewrite length_insert.
  - intros k t Hk Ho. destruct (L k t Hk) as [[_ Hk']|[-> ->]]; [by eapply B|done].
  - intros k j t u Hk Hj Ok Oj Heq. destruct (L k t Hk) as [[Nk Hk']|[-> ->]], (L j u Hj) as [[Nj Hj']|[-> ->]]; [by eapply C| | |done].
    + by destruct (Huniq k t Nk Hk' Ok).
    + by destruct (Huniq j u Nj Hj' Oj).
  - cbn. rewrite (insert_take_drop _ _ _ Hlt). rewrite <- (take_drop_middle _ i s Hi), filter_app, length_app, filter_cons in Hroom.
    rewrite decide_False in Hroom by (by rewrite Hfree). rewrite filter_app, length_app, filter_cons. destruct (decide (occ s' = true)); cbn; lia.
  - intros sid Ho Hz. destruct (E sid Ho Hz) as (k & t & Hk & Ht & <-). destruct (decide (k = i)) as [->|Hne].
    + rewrite Hi in Hk. injection Hk as <-. unfold holds in Ht. by rewrite Hfree in Ht.
    + exists k, t. cbn. by rewrite list_lookup_insert_ne by done.
Qed.

(** A source acquired by a session that holds. *)
Lemma acquire_owned src sid r tk t e :
  e ∈ snd (Ownership.acquire src sid r tk t) -> Ownership.used e = true ->
  Ownership.owner e = sid \/ Ownership.owner e = 0 \/ exists e0, e0 ∈ t /\ Ownership.used e0 = true /\ Ownership.owner e0 = Ownership.owner e.
Proof.
  assert (F : forall x, x ∈ snd (Ownership.findOrCreate src t) -> Ownership.used x = true ->
            Ownership.owner x = 0 \/ exists e0, e0 ∈ t /\ Ownership.used e0 = true /\ Ownership.owner e0 = Ownership.owner x).
  { intros x. unfold Ownership.findOrCreate. destruct (Ownership.find src t); [eauto|]. destruct (find_index _ t) as [k|]; [|eauto].
    cbn [snd]. intros Hx Hu. apply list_elem_of_lookup in Hx as [n Hn]. destruct (decide (k = n)) as [->|Hne].
    - apply list_lookup_insert_Some in Hn as [(_ & <- & _)|[? _]]; [auto|done].
    - rewrite list_lookup_insert_ne in Hn by done. right. exists x. split; [by eapply list_elem_of_lookup_2|done]. }
  unfold Ownership.acquire. destruct (Ownership.findOrCreate src t) as [[k|] t'] eqn:E; cbn [snd] in F; [|cbn; intros Hx Hu; right; eauto].
  set (x := nth k t' Ownership.noEntry).
  assert (G : forall y, y ∈ <[k := Ownership.setOwner sid r x]> t' -> Ownership.used y = true ->
     Ownership.owner y = sid \/ Ownership.owner y = 0 \/ exists e0, e0 ∈ t /\ Ownership.used e0 = true /\ Ownership.owner e0 = Ownership.owner y).
  { intros y Hy Hu. apply list_elem_of_lookup in Hy as [n Hn]. apply list_lookup_insert_Some in Hn as [(_ & <- & _)|[_ Hn]]; [by left|].
    right. apply F; [by eapply list_elem_of_lookup_2|done]. }
  case_ifs; cbn [snd]; eauto.
Qed.

Lemma vinv_acquire src r tk i s v :
  vinv v -> v_slots v !! i = Some s -> holds s = true ->
  vinv (v_owns (snd (Ownership.acquire src (sv_id s) r tk (v_owners v))) v).
Proof.
  intros [A B C D E] Hi Hh. split; try done. intros sid (e & He & Hu & Ho) Hz.
  destruct (acquire_owned _ _ _ _ _ _ He Hu) as [Hs|[H0|(e0 & He0 & Hu0 & Ho0)]].
  - exists i, s. split; [done|]. split; [done|congruence].
  - congruence.
  - apply E; [exists e0; split; [done|split; [done|congruence]]|done].
Qed.

(** The latch is as it was, and no slot has got a transport. *)
Definition detaches (v v' : View) : Prop :=
  forall i s', v_slots v' !! i = Some s' -> sv_transport s' = None \/ exists s, v_slots v !! i = Some s /\ sv_transport s = sv_transport s'.

Definition still (v v' : View) : Prop := v_estop v' = v_estop v /\ detaches v v'.

Lemma detaches_trans v1 v2 v3 : detaches v1 v2 -> detaches v2 v3 -> detaches v1 v3.
Proof.
  intros H1 H2 i s3 H3. destruct (H2 i s3 H3) as [?|(s2 & E2 & T2)]; [by left|]. destruct (H1 i s2 E2) as [T|(s1 & E1 & T1)]; [left; congruence|].
  right. exists s1. split; [done|congruence].
Qed.

Lemma still_slots v v' : v_slots v' = v_slots v -> v_estop v' = v_estop v -> still v v'.
Proof. intros E1 E2. split; [done|]. intros i s H. right. exists s. by rewrite <- E1. Qed.

#[export] Instance still_refl : Reflexive still.
Proof. intros v. by apply still_slots. Qed.

#[export] Instance still_trans : Transitive still.
Proof. intros v1 v2 v3 [E1 D1] [E2 D2]. split; [congruence|by eapply detaches_trans]. Qed.

Lemma still_on i s s' v : v_slots v !! i = Some s -> sv_transport s' = sv_transport s \/ sv_transport s' = None -> still v (v_on i s' v).
Proof.
  intros Hi Ht. split; [done|]. intros k x. cbn. intros H. apply list_lookup_insert_Some in H as [(<- & <- & _)|[_ H]]; [|right; by exists x].
  destruct Ht as [Ht|Ht]; [|by left]. right. by exists s.
Qed.

Lemma still_release sid v : still v (v_release sid v).
Proof. by apply still_slots. Qed.

(** ** Histories *)

(** The latch after the effects: OnEstop only sets it, and only when it was clear;
    CanClearEstop is only asked while it is set, and decides. *)
Fixpoint replay (latched : bool) (tr : list Effect) : option bool :=
  match tr with
  | [] => Some latched
  | OnEstop _ _ :: tr => if latched then None else replay true tr
  | CanClearEstop answer :: tr => if latched then replay (negb answer) tr else None
  | _ :: tr => replay latched tr
  end.

Lemma replay_app b t1 t2 : replay b (t1 ++ t2) = match replay b t1 with Some b' => replay b' t2 | None => None end.
Proof. revert b. induction t1 as [|e t1 IH]; intros b; [done|]. destruct e; cbn; rewrite ?IH; by destruct b. Qed.

Lemma replay_neutral b tr : Forall neutral tr -> replay b tr = Some b.
Proof. induction 1 as [|e tr He _ IH]; [done|]. by destruct e. Qed.

(** An effect that acts on the machine. *)
Definition machine (e : Effect) : bool := match e with ApplyIntent _ _ _ | OnStreamBundle _ _ _ => true | _ => false end.

(** A property of effects that only restricts those on the machine. *)
Class Permits (A : Effect -> Prop) : Prop := permits : forall e, machine e = false -> A e.

(** The roles a value demands of whoever names a field of a schema: the field's
    own, and where its options have theirs, that of the option the value picks;
    a number beyond the options demands every one of them. *)
Inductive demands (catalog : BasicCatalog) (sf : SchemaField.t) (v : IntentValue) : AccessLevel -> Prop :=
  | demands_field : SchemaField.hasAccess sf = true -> demands catalog sf v (SchemaField.access sf)
  | demands_option n a : SchemaField.hasOptionAccess sf = true -> v = U64 n -> 0 <= n ->
      optionAccess sf catalog !! Z.to_nat n = Some a -> demands catalog sf v a
  | demands_unknown n a : SchemaField.hasOptionAccess sf = true -> v = U64 n -> Z.of_nat (length (optionAccess sf catalog)) <= n ->
      a ∈ optionAccess sf catalog -> demands catalog sf v a.

(** The role is at least the channel's and, for every value, at least what the
    first field of the schema with the value's key demands. *)
Definition covers (catalog : BasicCatalog) (entry : CatalogEntry.t) (vals : list IntentValueField) (role : AccessLevel) : Prop :=
  access_u8 (CatalogEntry.access entry) <= access_u8 role /\
  forall f sf a, f ∈ vals -> first_in (fun sf => SchemaField.key sf = f_key f) (schemaFields entry catalog) sf ->
    demands catalog sf (f_value f) a -> access_u8 a <= access_u8 role.

(** A bundle as it must be on the wire: a count of 1 to 32 in the fifth byte, the
    time base in the first four, offsets that start at 0, ascend strictly and
    stay within the span, and room for all of its samples. *)
Record bundle_ok (sampleSize : nat) (b : BundleView) : Prop := {
  b_size : bv_sampleSize b = sampleSize;
  b_count : bv_n b = Z.to_nat (getU8 (subspan 4 1 (bv_in b)));
  b_some : (0 < bv_n b <= 32)%nat;
  b_base : bv_tBase b = getU32 (subspan 0 4 (bv_in b));
  b_offsets : offsets_ok (tOff b <$> seq 0 (bv_n b));
  b_room : (6 + bv_n b * 2 + bv_n b * sampleSize <= length (bv_in b))%nat }.

(** What an effect on the machine needs. *)
Definition authorised (catalog : BasicCatalog) (e : Effect) : Prop :=
  match e with
  | ApplyIntent ch vals role =>
      exists entry, first_in (fun e => CatalogEntry.id e = ch) (entries catalog) entry /\ CatalogEntry.cls entry = INTENT
        /\ covers catalog entry vals role
  | OnStreamBundle ch _ b =>
      exists entry, first_in (fun e => CatalogEntry.id e = ch) (entries catalog) entry /\ CatalogEntry.cls entry = STREAM /\ CatalogEntry.dir entry = c2h
        /\ bundle_ok (entryWireSize entry catalog) b
  | _ => True
  end.

#[export] Instance authorised_permits catalog : Permits (authorised catalog).
Proof. by intros []. Qed.

(** *** The code's computation of the role *)

Lemma raise_le need a r : access_u8 (raise need a) <= r <-> access_u8 need <= r /\ access_u8 a <= r.
Proof. unfold raise. destruct (Z.ltb_spec (access_u8 need) (access_u8 a)); lia. Qed.

Lemma foldl_raise_le l need r : access_u8 (foldl raise need l) <= r <-> access_u8 need <= r /\ Forall (fun a => access_u8 a <= r) l.
Proof.
  revert need. induction l as [|a l IH]; intros need; cbn [foldl]; [split; [done|by intros [? _]]|]. rewrite IH, raise_le, Forall_cons. tauto.
Qed.

Lemma catalog_find_first ch catalog entry :
  Catalog.find ch catalog = Some entry <-> first_in (fun e => CatalogEntry.id e = ch) (entries catalog) entry.
Proof.
  unfold Catalog.find. transitivity (first_in (fun e => (CatalogEntry.id e =? ch) = true) (entries catalog) entry).
  - rewrite first_in_index. destruct (find_index _ _) as [i|]; cbn; [|split; [done|by intros (? & ? & _)]].
    split; [intros H; by exists i|]. by intros (j & [= <-] & H).
  - unfold first_in. by setoid_rewrite Z.eqb_eq.
Qed.

Lemma schema_field_first (fields : list SchemaField.t) k sf :
  find_index (fun sf => SchemaField.key sf =? k) fields ≫= (fun i => fields !! i) = Some sf <-> first_in (fun sf => SchemaField.key sf = k) fields sf.
Proof.
  transitivity (first_in (fun sf => (SchemaField.key sf =? k) = true) fields sf).
  - rewrite first_in_index. destruct (find_index _ _) as [i|]; cbn; [|split; [done|by intros (? & ? & _)]].
    split; [intros H; by exists i|]. by intros (j & [= <-] & H).
  - unfold first_in. by setoid_rewrite Z.eqb_eq.
Qed.

(** One value: the role computed so far, raised to what its field demands. *)
Section field.
Context (catalog : BasicCatalog) (fields : list SchemaField.t) (need : AccessLevel) (f : IntentValueField) (r : Z).

Definition field_demands : Prop :=
  forall sf a, first_in (fun sf => SchemaField.key sf = f_key f) fields sf -> demands catalog sf (f_value f) a -> access_u8 a <= r.

Lemma fieldAccess_demands : access_u8 (fieldAccess catalog fields need f) <= r -> access_u8 need <= r /\ field_demands.
Proof.
  unfold fieldAccess, field_demands. destruct (find_index _ _ ≫= _) as [sf|] eqn:E.
  2: { intros H. split; [done|]. intros sf a Hf%schema_field_first. congruence. }
  apply schema_field_first in E. cbv zeta. set (need1 := if SchemaField.hasAccess sf then _ else need).
  assert (N1 : access_u8 need1 <= r -> access_u8 need <= r /\ (SchemaField.hasAccess sf = true -> access_u8 (SchemaField.access sf) <= r)).
  { unfold need1. destruct (SchemaField.hasAccess sf); [by rewrite raise_le; intros [? ?]|done]. }
  intros H. assert (H1 : access_u8 need1 <= r) by (revert H; case_ifs; [done|]; case_match; rewrite ?foldl_raise_le, ?raise_le; try done; case_ifs; rewrite ?foldl_raise_le, ?raise_le; by intros [? _]).
  apply N1 in H1 as [H1 H2]. split; [done|]. intros sf' a Hf. rewrite (first_in_unique _ _ _ _ Hf E).
  intros [Ha|n b Ho Ev Hn Hb|n b Ho Ev Hn Hb]; [by apply H2| |]; rewrite Ho, Ev in H; cbn [negb] in H.
  - apply lookup_lt_Some in Hb as L. destruct (Z.ltb_spec n (Z.of_nat (length (optionAccess sf catalog)))); [|lia].
    rewrite (nth_lookup_Some _ _ _ _ Hb), raise_le in H. apply H.
  - destruct (Z.ltb_spec n (Z.of_nat (length (optionAccess sf catalog)))); [lia|]. rewrite foldl_raise_le, Forall_forall in H. by apply H.
Qed.

(** A number on the wire is not negative. *)
Lemma demands_fieldAccess : (forall n, f_value f = U64 n -> 0 <= n) -> access_u8 need <= r -> field_demands -> access_u8 (fieldAccess catalog fields need f) <= r.
Proof.
  unfold fieldAccess, field_demands. intros Hn H1 H2. destruct (find_index _ _ ≫= _) as [sf|] eqn:E; [|done].
  apply schema_field_first in E. cbv zeta. set (need1 := if SchemaField.hasAccess sf then _ else need).
  assert (N1 : access_u8 need1 <= r).
  { unfold need1. destruct (SchemaField.hasAccess sf) eqn:Ha; [|done]. rewrite raise_le. split; [done|]. apply (H2 sf _ E). by constructor. }
  destruct (SchemaField.hasOptionAccess sf) eqn:Ho; cbn [negb]; [|done]. destruct (f_value f) as [n| | | | |] eqn:Ev; try done. specialize (Hn n eq_refl).
  destruct (Z.ltb_spec n (Z.of_nat (length (optionAccess sf catalog)))) as [L|L].
  - rewrite raise_le. split; [done|]. destruct (lookup_lt_is_Some_2 (optionAccess sf catalog) (Z.to_nat n) ltac:(lia)) as [a Ea].
    rewrite (nth_lookup_Some _ _ _ _ Ea). apply (H2 sf _ E). by apply (demands_option _ _ _ n).
  - rewrite foldl_raise_le. split; [done|]. apply Forall_forall. intros a Ha. apply (H2 sf _ E). by apply (demands_unknown _ _ _ n).
Qed.
End field.

Lemma requiredAccess_fold catalog entry m : requiredAccessFor catalog entry m =
  foldl (fieldAccess catalog (schemaFields entry catalog)) (CatalogEntry.access entry) (im_value m).
Proof.
  unfold requiredAccessFor, schemaFields. destruct (CatalogEntry.usesSchema entry); cbn [negb]; [done|]. by induction (im_value m).
Qed.

Lemma requiredAccess_covers catalog entry m role :
  mayAccess role (requiredAccessFor catalog entry m) = true -> covers catalog entry (im_value m) role.
Proof.
  unfold mayAccess, covers. rewrite Z.leb_le, requiredAccess_fold. generalize (CatalogEntry.access entry).
  induction (im_value m) as [|f l IH]; intros need; cbn [foldl]; [intros H; split; [done|]; by intros f ? ? ?%elem_of_nil|].
  intros [[H1 H2]%fieldAccess_demands H3]%IH. split; [done|]. intros g sf a [->|Hg]%elem_of_cons; [by apply H2|by apply H3].
Qed.

(** And no more is asked: [requiredAccessFor] is the least role that covers. *)
Lemma covers_requiredAccess catalog entry m role : Forall (fun f => forall n, f_value f = U64 n -> 0 <= n) (im_value m) ->
  covers catalog entry (im_value m) role -> mayAccess role (requiredAccessFor catalog entry m) = true.
Proof.
  unfold mayAccess, covers. rewrite Z.leb_le, requiredAccess_fold. intros Hn. generalize (CatalogEntry.access entry).
  induction Hn as [|f l Hf Hl IH]; intros need [H1 H2]; cbn [foldl]; [done|]. apply IH. split.
  - apply demands_fieldAccess; [done|done|]. intros sf a. apply H2. by left.
  - intros g sf a Hg. apply H2. by right.
Qed.

Section histories.
Context {P : Platform} (A : Effect -> Prop) {HA : Permits A}.

Definition hist (w w' : World) : Prop :=
  exists tr, trace w' = trace w ++ tr /\ replay (v_estop (view w)) tr = Some (v_estop (view w')) /\ Forall A tr.

Definition logs (w w' : World) : Prop := inbox w' = inbox w /\ hist w w' /\ detaches (view w) (view w').

Lemma hist_refl w : hist w w.
Proof. exists []. by rewrite app_nil_r. Qed.

Lemma hist_trans w1 w2 w3 : hist w1 w2 -> hist w2 w3 -> hist w1 w3.
Proof.
  intros (t1 & E1 & R1 & A1) (t2 & E2 & R2 & A2). exists (t1 ++ t2). split; [by rewrite E2, E1, app_assoc|]. split; [|by apply Forall_app].
  by rewrite replay_app, R1.
Qed.

Lemma logs_refl w : logs w w.
Proof. split; [done|]. split; [apply hist_refl|apply (still_refl (view w))]. Qed.

Lemma logs_trans w1 w2 w3 : logs w1 w2 -> logs w2 w3 -> logs w1 w3.
Proof. intros (I1 & H1 & D1) (I2 & H2 & D2). split; [congruence|]. split; [by eapply hist_trans|by eapply detaches_trans]. Qed.

Lemma neutral_permitted tr : Forall neutral tr -> Forall A tr.
Proof. apply List.Forall_impl. intros []; done || by intros _; apply permits. Qed.

Lemma quietly_logs w w' : quietly w w' -> still (view w) (view w') -> logs w w'.
Proof. intros (I & tr & E & F) [Hv D]. split; [done|]. split; [|done]. exists tr. split; [done|]. rewrite Hv. split; [by apply replay_neutral|by apply neutral_permitted]. Qed.

(** ** Computations that keep the invariant *)

Definition keeps (pre : View -> Prop) {T} (m : M T) : Prop :=
  forall w, vinv (view w) -> pre (view w) -> runs m w (fun _ w' => vinv (view w') /\ logs w w').

Definition anywhere (v : View) : Prop := True.

Lemma keeps_quiet pre {T} (m : M T) : quiet pre m -> keeps pre m.
Proof.
  intros Hq w Hv Hp. eapply runs_mono; [apply Hq; [apply Hv|done]|]. intros a w' [E Q]. rewrite E. split; [done|].
  apply quietly_logs; [done|by rewrite E].
Qed.

Lemma keeps_weaken (pre pre' : View -> Prop) {T} (m : M T) : (forall v, pre' v -> pre v) -> keeps pre m -> keeps pre' m.
Proof. intros H Hm w Hv Hp. auto. Qed.

Lemma keeps_any pre {T} (m : M T) : keeps anywhere m -> keeps pre m.
Proof. intros H w Hv _. by apply H. Qed.

Lemma keeps_bind pre {T B} (m : M T) (k : T -> M B) : keeps pre m -> (forall a, keeps anywhere (k a)) -> keeps pre (mbind k m).
Proof.
  intros Hm Hk w Hv Hp. eapply runs_bind; [by apply Hm|]. intros a w' [Hv' L]. cbn beta. eapply runs_mono; [by apply Hk|].
  intros b w'' [Hv'' L']. split; [done|by eapply logs_trans].
Qed.

Lemma keeps_quiet_bind pre {T B} (m : M T) (k : T -> M B) : quiet pre m -> (forall a, keeps pre (k a)) -> keeps pre (mbind k m).
Proof.
  intros Hm Hk w Hv Hp. eapply runs_bind; [apply Hm; [apply Hv|done]|]. intros a w' [E Q]. cbn beta.
  eapply runs_mono; [apply Hk; by rewrite E|]. intros b w'' [Hv'' L]. split; [done|]. eapply logs_trans; [|done].
  apply quietly_logs; [done|by rewrite E].
Qed.

Lemma keeps_when pre b m : keeps pre m -> keeps pre (when b m).
Proof. intros H. destruct b; [exact H|]. apply keeps_quiet, quiet_ret. Qed.

Lemma keeps_each {T} (l : list T) body : (forall x, x ∈ l -> keeps anywhere (body x)) -> keeps anywhere (each l body).
Proof.
  induction l as [|x l IH]; intros H; [apply keeps_quiet, quiet_ret|]. apply keeps_bind; [apply H; left|]. intros _. apply IH. intros y Hy. apply H. by right.
Qed.

(** A computation whose change of the view is known. *)
Definition acts (f : View -> View) {T} (m : M T) : Prop :=
  forall w, five (view w) -> runs m w (fun _ w' => view w' = f (view w) /\ quietly w w').

Lemma quiet_acts {T} (m : M T) : quiet anywhere m -> acts Datatypes.id m.
Proof. intros H w H5. by apply H. Qed.

Lemma acts_bind f g {T B} (m : M T) (k : T -> M B) :
  acts f m -> (forall v, five v -> five (f v)) -> (forall a, acts g (k a)) -> acts (fun v => g (f v)) (mbind k m).
Proof.
  intros Hm H5 Hk w Hw. eapply runs_bind; [by apply Hm|]. intros a w' [E Q]. cbn beta. eapply runs_mono; [apply Hk; rewrite E; auto|].
  intros b w'' [E' Q']. split; [by rewrite E', E|by eapply quietly_trans].
Qed.

Lemma keeps_acts f pre {T} (m : M T) :
  acts f m -> (forall v, vinv v -> pre v -> vinv (f v)) -> (forall v, still v (f v)) -> keeps pre m.
Proof.
  intros Hm Hf He w Hv Hp. eapply runs_mono; [apply Hm, Hv|]. intros a w' [E Q]. rewrite E. split; [auto|].
  apply quietly_logs; [done|]. rewrite E. apply He.
Qed.
End histories.

Create HintDb keeps discriminated.
#[export] Hint Extern 0 (Permits _) => apply _ : keeps.
#[export] Hint Extern 1 (_ < kSlotCapacity)%nat => assumption : keeps.
#[export] Hint Extern 2 (_ < kSlotCapacity)%nat => solve [by apply allSlots_lt] : keeps.

Ltac keeps_step :=
  lazymatch goal with
  | |- keeps ?A _ (when _ _) => apply (keeps_when A)
  | |- keeps ?A _ (each _ _) => apply keeps_any, (keeps_each A); intros
  | |- keeps ?A _ (mbind _ _) =>
      first [ apply (keeps_quiet_bind A); [solve [quiet]|intros] | apply (keeps_bind A); [|intros] ]
  | |- keeps _ _ (if ?b then _ else _) => destruct b
  | |- keeps _ _ (match ?x with _ => _ end) => destruct x eqn:?
  | |- keeps ?A _ _ => first [solve [eauto 3 with keeps] | apply keeps_any; solve [eauto 3 with keeps] | apply (keeps_quiet A); solve [quiet]]
  end.
Ltac keeps := repeat (intros; cbv zeta; keeps_step).

(** ** Letting go of a session *)

Definition noInstance : bytes := replicate limits.instance_id_bytes 0.

Definition v_stale (i : nat) (v : View) : View :=
  match v_slots v !! i with
  | Some s => v_on i (mkSV (sv_transport s) HubSessionState.STALE (sv_id s) (sv_instance s)) (v_release (sv_id s) v)
  | None => v
  end.

Definition v_free (i : nat) (v : View) : View :=
  match v_slots v !! i with
  | Some s => v_on i (mkSV (sv_transport s) HubSessionState.FREE 0 noInstance) (if occ s then v_release (sv_id s) v else v)
  | None => v
  end.

Definition v_detach (i : nat) (v : View) : View :=
  match v_slots v !! i with
  | Some s => v_on i (mkSV None (sv_state s) (sv_id s) (sv_instance s)) v
  | None => v
  end.

Definition v_park (i : nat) (v : View) : View :=
  v_detach i (match v_slots v !! i with Some s => if holds s then v_stale i v else v | None => v end).

Definition v_revive (i : nat) (v : View) : View :=
  match v_slots v !! i with
  | Some s => if bool_decide (sv_state s = HubSessionState.STALE)
              then v_on i (mkSV (sv_transport s) HubSessionState.LIVE (sv_id s) (sv_instance s)) v else v
  | None => v
  end.

Lemma five_on i s v : five v -> five (v_on i s v).
Proof. unfold five. cbn. by rewrite length_insert. Qed.
#[local] Hint Resolve five_on : core.

Section letting_go.
Context {P : Platform} (catalog : BasicCatalog).

(** A slot is changed. *)
Lemma runs_modifySlot_last i sv (f : Slot.t -> Slot.t) (g : SlotView -> SlotView) w (Q : unit -> World -> Prop) :
  (forall s, slot_view (f s) = g (slot_view s)) -> v_slots (view w) !! i = Some sv ->
  (forall w', view w' = v_on i (g sv) (view w) -> quietly w w' -> Q tt w') ->
  runs (modifySlot i f) w Q.
Proof.
  intros Hg Hsv Hk. destruct (slot_of_view w i sv Hsv) as (s & Hs & <-). apply Hk; [|by apply quietly_same].
  change (mkV (slot_view <$> alter f i (Hub.slots (hub w))) (Hub.ownership (hub w)) (estopLatched (hub w)) = v_on i (g (slot_view s)) (view w)).
  by rewrite (fmap_alter_insert f i s), Hg by done.
Qed.

Lemma runs_modifySlot {B} i sv (f : Slot.t -> Slot.t) (g : SlotView -> SlotView) (k : unit -> M B) w Q :
  (forall s, slot_view (f s) = g (slot_view s)) -> v_slots (view w) !! i = Some sv ->
  (forall w', view w' = v_on i (g sv) (view w) -> quietly w w' -> runs (k tt) w' Q) ->
  runs (modifySlot i f ≫= k) w Q.
Proof.
  intros Hg Hsv Hk. apply (runs_bind _ _ _ (fun _ w' => view w' = v_on i (g sv) (view w) /\ quietly w w')).
  - by eapply runs_modifySlot_last.
  - intros [] w' [E Q']. by apply Hk.
Qed.

Lemma runs_modifySession {B} i sv (f : HubSession.t -> HubSession.t) (g : SlotView -> SlotView) (k : unit -> M B) w Q :
  (forall s, slot_view (s{{Slot.session := f (Slot.session s)}}) = g (slot_view s)) -> v_slots (view w) !! i = Some sv ->
  (forall w', view w' = v_on i (g sv) (view w) -> quietly w w' -> runs (k tt) w' Q) ->
  runs (modifySession i f ≫= k) w Q.
Proof. apply runs_modifySlot. Qed.

Lemma acts_release sid reason now : acts (v_release sid) (releaseSessionSources catalog sid reason now).
Proof.
  intros w H5. unfold releaseSessionSources. apply runs_gets. destruct (Ownership.releaseAllOf sid (Hub.ownership (hub w))) as [rel t] eqn:E.
  apply runs_modify.
  assert (Hq : quiet anywhere (each rel (fun source => notify (OnSourceOwnership source 0 reason)) ;;
                               when (negb (length rel =? 0)%nat) (publishControlOwnerStateIfPresent catalog))) by quiet.
  eapply runs_mono; [apply Hq; done|]. intros a w' [Ev Q]. split; [|done]. rewrite Ev. unfold v_release. cbn. by rewrite E.
Qed.

Lemma view_lookup w i : five (view w) -> (i < kSlotCapacity)%nat -> exists s, Hub.slots (hub w) !! i = Some s /\ v_slots (view w) !! i = Some (slot_view s).
Proof. intros H5 Hi. destruct (lookup_five w i H5 Hi) as [s Hs]. exists s. split; [done|by apply view_slot]. Qed.

Lemma acts_markStale i now reason : (i < kSlotCapacity)%nat -> acts (v_stale i) (markStale catalog i now reason).
Proof.
  intros Hi w H5. destruct (view_lookup w i H5 Hi) as (s & Hs & Hv). unfold markStale. eapply runs_getSession; [done|].
  eapply runs_bind; [by apply acts_release|]. intros _ w1 [E1 Q1].
  eapply (runs_modifySession i (slot_view s) _ (fun x => mkSV (sv_transport x) HubSessionState.STALE (sv_id x) (sv_instance x))); [done|by rewrite E1|].
  intros w2 E2 Q2. eapply runs_mono; [eapply (quiet_emitSessionEvent anywhere); [|done]; rewrite E2, E1; by apply five_on|].
  intros _ w3 [E3 Q3]. split; [|by eapply quietly_trans; [|eapply quietly_trans]]. rewrite E3, E2, E1. unfold v_stale. by rewrite Hv.
Qed.

Lemma five_free i v : five v -> five (v_free i v).
Proof. unfold v_free. destruct (v_slots v !! i); [|done]. intros H. apply five_on. by destruct (occ _). Qed.

Lemma acts_teardownSession i now reason : (i < kSlotCapacity)%nat -> acts (v_free i) (teardownSession catalog i now reason).
Proof.
  intros Hi w H5. destruct (view_lookup w i H5 Hi) as (s & Hs & Hv). unfold teardownSession. eapply runs_getSlot; [done|].
  set (v1 := if occ (slot_view s) then v_release (sv_id (slot_view s)) (view w) else view w).
  eapply (runs_bind _ _ _ (fun _ w' => view w' = v1 /\ quietly w w')).
  - unfold v1, slotOccupied, when. change (occ (slot_view s)) with (HubSession.occupied (Slot.session s)).
    destruct (HubSession.occupied (Slot.session s)); [|apply runs_ret; split; [done|apply quietly_refl]].
    eapply runs_bind; [by apply acts_release|]. intros _ w1 [E1 Q1]. eapply runs_mono; [eapply (quiet_bind anywhere); [quiet|quiet|by rewrite E1|done]|].
    intros _ w2 [E2 Q2]. split; [by rewrite E2, E1|by eapply quietly_trans].
  - intros _ w1 [E1 Q1]. assert (Hv1 : v_slots (view w1) !! i = Some (slot_view s)) by (rewrite E1; unfold v1; by destruct (occ _)).
    eapply (runs_modifySlot_last i (slot_view s) _ (fun x => mkSV (sv_transport x) HubSessionState.FREE 0 noInstance)); [done|done|].
    intros w2 E2 Q2. split; [|by eapply quietly_trans]. rewrite E2, E1. unfold v_free, v1. by rewrite Hv.
Qed.

Lemma acts_closeTransport i : (i < kSlotCapacity)%nat -> acts (v_detach i) (closeTransport i).
Proof.
  intros Hi w H5. destruct (view_lookup w i H5 Hi) as (s & Hs & Hv). unfold closeTransport. eapply runs_getSlot; [done|].
  destruct (Slot.transport s) as [t|] eqn:Et.
  - eapply runs_quiet; [eapply (quiet_notify anywhere); exact I|done|done|]. intros _ w1 E1 Q1.
    eapply (runs_modifySlot_last i (slot_view s) _ (fun x => mkSV None (sv_state x) (sv_id x) (sv_instance x))); [done|by rewrite E1|].
    intros w2 E2 Q2. split; [|by eapply quietly_trans]. rewrite E2, E1. unfold v_detach. by rewrite Hv.
  - apply runs_ret. split; [|apply quietly_refl]. unfold v_detach. rewrite Hv. unfold v_on.
    replace (mkSV None _ _ _) with (slot_view s) by (unfold slot_view; by rewrite Et). rewrite list_insert_id by done. by destruct (view w).
Qed.

Lemma five_detach i v : five v -> five (v_detach i v).
Proof. unfold v_detach. destruct (v_slots v !! i); [apply five_on|done]. Qed.

Lemma five_stale i v : five v -> five (v_stale i v).
Proof. unfold v_stale. destruct (v_slots v !! i); [|done]. intros H. by apply five_on. Qed.

Lemma holds_slot s : holds (slot_view s) = slotOccupied s && negb (isStale s).
Proof. done. Qed.

Lemma acts_parkAndDetach i now : (i < kSlotCapacity)%nat -> acts (v_park i) (parkAndDetach catalog i now).
Proof.
  intros Hi w H5. destruct (view_lookup w i H5 Hi) as (s & Hs & Hv). unfold parkAndDetach. eapply runs_getSlot; [done|].
  set (v1 := if holds (slot_view s) then v_stale i (view w) else view w).
  eapply (runs_bind _ _ _ (fun _ w' => view w' = v1 /\ quietly w w')).
  - unfold v1, when. rewrite holds_slot. destruct (slotOccupied s && negb (isStale s)); [|apply runs_ret; split; [done|apply quietly_refl]].
    eapply runs_bind; [by apply acts_markStale|]. intros _ w1 [E1 Q1]. eapply runs_mono; [eapply (quiet_bind anywhere); [quiet|quiet|rewrite E1; by apply five_stale|done]|].
    intros _ w2 [E2 Q2]. split; [by rewrite E2, E1|by eapply quietly_trans].
  - intros _ w1 [E1 Q1]. assert (H1 : five (view w1)) by (rewrite E1; unfold v1; destruct (holds _); [by apply five_stale|done]).
    eapply runs_bind; [by apply acts_closeTransport|]. intros _ w2 [E2 Q2].
    assert (Hq : quiet anywhere (modifySlot i (fun s => s{{Slot.congestionLevel := 0; Slot.criticalStalling := false}}))) by quiet.
    eapply runs_mono; [apply Hq; [rewrite E2; by apply five_detach|done]|]. intros _ w3 [E3 Q3].
    split; [|by eapply quietly_trans; [|eapply quietly_trans]]. rewrite E3, E2, E1. unfold v_park, v1. by rewrite Hv.
Qed.

Lemma acts_reviveIfStale i now : (i < kSlotCapacity)%nat -> acts (v_revive i) (reviveIfStale i now).
Proof.
  intros Hi w H5. destruct (view_lookup w i H5 Hi) as (s & Hs & Hv). unfold reviveIfStale. eapply runs_getSlot; [done|].
  unfold v_revive. rewrite Hv. change (isStale s) with (bool_decide (sv_state (slot_view s) = HubSessionState.STALE)).
  destruct (bool_decide _); [|apply runs_ret; split; [done|apply quietly_refl]]. unfold when.
  eapply (runs_modifySession i (slot_view s) _ (fun x => mkSV (sv_transport x) HubSessionState.LIVE (sv_id x) (sv_instance x))); [done|done|].
  intros w1 E1 Q1. eapply runs_mono; [eapply (quiet_emitSessionEvent anywhere); [|done]; rewrite E1; by apply five_on|].
  intros _ w2 [E2 Q2]. split; [by rewrite E2|by eapply quietly_trans].
Qed.
End letting_go.

(** *** They keep the invariant *)

Lemma vinv_stale i v : vinv v -> (forall s, v_slots v !! i = Some s -> occ s = true) -> vinv (v_stale i v).
Proof.
  intros Hv Ho. unfold v_stale. destruct (v_slots v !! i) as [s|] eqn:Hi; [|done]. apply (vinv_shrink i s); [by apply vinv_release|done|by auto|].
  intros Hr Hz. by destruct (owned_release _ _ _ Hr Hz).
Qed.

Lemma vinv_free i v : vinv v -> vinv (v_free i v).
Proof.
  intros Hv. unfold v_free. destruct (v_slots v !! i) as [s|] eqn:Hi; [|done].
  apply (vinv_shrink i s); [destruct (occ s); [by apply vinv_release|done]|by destruct (occ s)|done|].
  destruct (occ s) eqn:Ho; [|by unfold holds; rewrite Ho]. intros Hr Hz. by destruct (owned_release _ _ _ Hr Hz).
Qed.

Lemma vinv_detach i v : vinv v -> vinv (v_detach i v).
Proof. intros Hv. unfold v_detach. destruct (v_slots v !! i) as [s|] eqn:Hi; [|done]. by apply (vinv_shrink i s). Qed.

Lemma vinv_revive i v : vinv v -> vinv (v_revive i v).
Proof.
  intros Hv. unfold v_revive. destruct (v_slots v !! i) as [s|] eqn:Hi; [|done]. case_bool_decide as Hst; [|done].
  apply (vinv_shrink i s); [done|done| |done]. intros _. unfold occ. by rewrite Hst.
Qed.

Lemma vinv_park i v : vinv v -> vinv (v_park i v).
Proof.
  intros Hv. unfold v_park. apply vinv_detach. destruct (v_slots v !! i) as [s|] eqn:Hi; [|done]. destruct (holds s) eqn:Hh; [|done].
  apply vinv_stale; [done|]. intros s' Hs'. rewrite Hi in Hs'. injection Hs' as <-. by apply andb_true_iff in Hh as [? _].
Qed.

Lemma still_stale i v : still v (v_stale i v).
Proof. unfold v_stale. destruct (v_slots v !! i) as [s|] eqn:E; [|done]. etrans; [apply (still_release (sv_id s))|]. eapply still_on; [exact E|by left]. Qed.
Lemma still_free i v : still v (v_free i v).
Proof.
  unfold v_free. destruct (v_slots v !! i) as [s|] eqn:E; [|done]. destruct (occ s); [etrans; [apply (still_release (sv_id s))|]|]; (eapply still_on; [exact E|by left]).
Qed.
Lemma still_detach i v : still v (v_detach i v).
Proof. unfold v_detach. destruct (v_slots v !! i) as [s|] eqn:E; [|done]. eapply still_on; [exact E|by right]. Qed.
Lemma still_revive i v : still v (v_revive i v).
Proof. unfold v_revive. destruct (v_slots v !! i) as [s|] eqn:E; [|done]. destruct (bool_decide _); [|done]. eapply still_on; [exact E|by left]. Qed.
Lemma still_park i v : still v (v_park i v).
Proof. unfold v_park. etrans; [|apply still_detach]. destruct (v_slots v !! i); [|done]. destruct (holds _); [apply still_stale|done]. Qed.

Section keeps_letting_go.
Context {P : Platform} (catalog : BasicCatalog) (A : Effect -> Prop) {HA : Permits A}.

Lemma keeps_markStale i now reason : (i < kSlotCapacity)%nat ->
  keeps A (fun v => forall s, v_slots v !! i = Some s -> occ s = true) (markStale catalog i now reason).
Proof. intros Hi. eapply (keeps_acts A); [by apply acts_markStale|apply vinv_stale|apply still_stale]. Qed.

Lemma keeps_teardown i now : (i < kSlotCapacity)%nat -> keeps A anywhere (teardown catalog i now).
Proof. intros Hi. eapply (keeps_acts A); [by apply acts_teardownSession|intros v Hv _; by apply vinv_free|apply still_free]. Qed.

Lemma keeps_closeTransport i : (i < kSlotCapacity)%nat -> keeps A anywhere (closeTransport i).
Proof. intros Hi. eapply (keeps_acts A); [by apply acts_closeTransport|intros v Hv _; by apply vinv_detach|apply still_detach]. Qed.

Lemma keeps_parkAndDetach i now : (i < kSlotCapacity)%nat -> keeps A anywhere (parkAndDetach catalog i now).
Proof. intros Hi. eapply (keeps_acts A); [by apply acts_parkAndDetach|intros v Hv _; by apply vinv_park|apply still_park]. Qed.

Lemma keeps_reviveIfStale i now : (i < kSlotCapacity)%nat -> keeps A anywhere (reviveIfStale i now).
Proof. intros Hi. eapply (keeps_acts A); [by apply acts_reviveIfStale|intros v Hv _; by apply vinv_revive|apply still_revive]. Qed.
#[local] Hint Resolve keeps_teardown keeps_closeTransport keeps_parkAndDetach keeps_reviveIfStale : keeps.

Lemma keeps_trackCriticalSend i ok now : (i < kSlotCapacity)%nat -> keeps A anywhere (trackCriticalSend catalog i ok now).
Proof. intros. unfold trackCriticalSend. keeps. Qed.
#[local] Hint Resolve keeps_trackCriticalSend : keeps.

Lemma keeps_sendFrameToTracked i ty ch p now n : (i < kSlotCapacity)%nat -> keeps A anywhere (sendFrameToTracked catalog i ty ch p now n).
Proof. intros. unfold sendFrameToTracked. keeps. Qed.

Lemma keeps_sendNackTracked i n now : (i < kSlotCapacity)%nat -> keeps A anywhere (sendNackTracked catalog i n now).
Proof. intros. unfold sendNackTracked. keeps. Qed.
#[local] Hint Resolve keeps_sendFrameToTracked keeps_sendNackTracked : keeps.

Lemma keeps_broadcastSafetyNow now : keeps A anywhere (broadcastSafetyNow catalog now).
Proof. unfold broadcastSafetyNow, broadcastSafetyTo. keeps. Qed.

Lemma keeps_storeAndEcho i cap ch echo now : (i < kSlotCapacity)%nat -> keeps A anywhere (storeAndEcho catalog i cap ch echo now).
Proof. intros. unfold storeAndEcho. keeps. Qed.
End keeps_letting_go.

#[export] Hint Resolve keeps_teardown keeps_closeTransport keeps_parkAndDetach keeps_reviveIfStale keeps_trackCriticalSend
  keeps_sendFrameToTracked keeps_sendNackTracked keeps_broadcastSafetyNow keeps_storeAndEcho : keeps.
