(* ===== verification/HubSound.v ===== *)
(** * HubSound: every handler keeps the invariant

    The handlers of HubSafety, HubJoin, HubPairing, HubData and HubLoop are shown
    to return from every state that satisfies [vinv], to preserve it, and to
    extend the history. A handler that dereferences the transport needs the slot
    to be attached ([att]); one that may acquire a source needs its session to be
    neither gone nor stale ([serving]). *)

From S2P Require Import Prelude Registry ByteIO Serial Frame Bundle Messages Codec Trust Handshake Raw Catalog Channel Safety Pairing TrustLedger Session Builtin HubState HubSafety HubJoin HubPairing HubData HubLoop HubFacts HubInv.
Local Open Scope Z_scope.

Definition att (i : nat) (v : View) : Prop := exists s t, v_slots v !! i = Some s /\ sv_transport s = Some t.
Definition serving (i : nat) (v : View) : Prop := exists s t, v_slots v !! i = Some s /\ sv_transport s = Some t /\ holds s = true.

Definition implies (p q : View -> Prop) : Prop := forall v, p v -> q v.
Lemma att_att i : implies (att i) (att i).
Proof. by intros v. Qed.
Lemma serving_att i : implies (serving i) (att i).
Proof. intros v (s & t & A & B & _). by exists s, t. Qed.
#[export] Hint Resolve att_att serving_att : quiet keeps.

Lemma has_estop w : has w safety_bits.ESTOP = Z.testbit w 0.
Proof.
  unfold has. change safety_bits.ESTOP with (Z.ones 1). rewrite Z.land_ones by lia. change (2 ^ 1) with 2.
  rewrite Z.bit0_odd, Zmod_odd. by destruct (Z.odd w).
Qed.

Lemma estopLatched_bit h : estopLatched h = Z.testbit (Hub.safetyWord h) 0.
Proof. apply has_estop. Qed.

(** ** Safety *)

Section safety.
Context {P : Platform} (catalog : BasicCatalog) (A : Effect -> Prop) {HA : Permits A}.

Lemma quiet_word pre f :
  (forall h, Hub.slots (f h) = Hub.slots h /\ Hub.ownership (f h) = Hub.ownership h
             /\ Z.testbit (Hub.safetyWord (f h)) 0 = Z.testbit (Hub.safetyWord h) 0) -> quiet pre (modify f).
Proof. intros H. apply quiet_modify. intros h. destruct (H h) as (E1 & E2 & E3). unfold hub_view. by rewrite E1, E2, !estopLatched_bit, E3. Qed.

Lemma safetyOp_view op sid h h' : safetyOp op sid h = Some h' -> hub_view h' = hub_view h.
Proof.
  intros H. assert (Hub.slots h' = Hub.slots h /\ Hub.ownership h' = Hub.ownership h /\ Z.testbit (Hub.safetyWord h') 0 = Z.testbit (Hub.safetyWord h) 0) as (E1 & E2 & E3).
  { unfold safetyOp in H. repeat (case_match; [injection H as <-; split_and!; try reflexivity|]); try discriminate.
    - change (Z.testbit (Z.lor (Hub.safetyWord h) 2) 0 = Z.testbit (Hub.safetyWord h) 0). by rewrite Z.lor_spec, orb_false_r.
    - change (Z.testbit (Z.lor (Hub.safetyWord h) 4) 0 = Z.testbit (Hub.safetyWord h) 0). by rewrite Z.lor_spec, orb_false_r.
    - change (Z.testbit (Z.lor (Hub.safetyWord h) 8) 0 = Z.testbit (Hub.safetyWord h) 0). by rewrite Z.lor_spec, orb_false_r.
    - change (Z.testbit (Z.ldiff (Hub.safetyWord h) 12) 0 = Z.testbit (Hub.safetyWord h) 0). by rewrite Z.ldiff_spec, andb_true_r. }
  unfold hub_view. by rewrite E1, E2, !estopLatched_bit, E3.
Qed.

Lemma quiet_applySafetyOpLatch pre op sid : quiet pre (applySafetyOpLatch op sid).
Proof.
  intros w H5 Hp. unfold applySafetyOpLatch. apply runs_gets. cbn [Datatypes.id]. destruct (safetyOp op sid (hub w)) as [h'|] eqn:E.
  - apply runs_modify, runs_ret. split; [exact (safetyOp_view _ _ _ _ E)|by apply quietly_same].
  - apply runs_ret. split; [done|apply quietly_refl].
Qed.

Lemma quiet_setWord_stop pre owner :
  quiet pre (modify (fun h => h{{Hub.safetyWord := without (Hub.safetyWord h) safety_bits.STOP; Hub.safetyOwnerSession := owner}})).
Proof.
  apply quiet_word. intros h. split; [reflexivity|]. split; [reflexivity|].
  change (Z.testbit (Z.ldiff (Hub.safetyWord h) 2) 0 = Z.testbit (Hub.safetyWord h) 0). by rewrite Z.ldiff_spec, andb_true_r.
Qed.

Lemma keeps_announceSafety before now : keeps A anywhere (announceSafety catalog before now).
Proof. unfold announceSafety. keeps. Qed.

Lemma keeps_setSafetyModes a b : keeps A anywhere (setSafetyModes catalog a b).
Proof. unfold setSafetyModes. keeps. Qed.

(** The rising edge: the delegate is told, then the latch is set. *)
Lemma latch_edge g (m : M unit) cause origin w :
  (forall h, hub_view (g h) = v_latch true (hub_view h)) -> keeps A anywhere m -> vinv (view w) -> estopLatched (hub w) = false ->
  runs (notify (OnEstop cause origin) ;; modify g ;; m) w (fun _ w' => vinv (view w') /\ logs A w w').
Proof.
  intros Hg Hm Hv Hl.
  set (w1 := mkWorld (g (hub w)) (d_react (OnEstop cause origin) (env w)) (rng w) (inbox w) (trace w ++ [OnEstop cause origin])).
  assert (Ev : view w1 = v_latch true (view w)) by apply Hg.
  change (runs m w1 (fun _ w' => vinv (view w') /\ logs A w w')).
  eapply runs_mono; [apply Hm; [rewrite Ev; by apply vinv_latch|done]|].
  intros _ w2 [Hv2 L2]. split; [done|]. eapply logs_trans; [|exact L2]. split; [done|]. split; [|rewrite Ev; apply (still_refl (view w))].
  exists [OnEstop cause origin]. split; [done|]. split; [|by apply Forall_singleton, permits].
  change (v_estop (view w)) with (estopLatched (hub w)). by rewrite Hl, Ev.
Qed.

(** The falling edge: the delegate is asked; its consent clears the latch. *)
Lemma clear_edge g (m : M bool) w :
  (forall h, hub_view (g h) = v_latch false (hub_view h)) -> keeps A anywhere m -> vinv (view w) -> estopLatched (hub w) = true ->
  runs (can ← ask d_canClearEstop; record (CanClearEstop can) ;; if negb can then mret false else modify g ;; m) w
    (fun _ w' => vinv (view w') /\ logs A w w').
Proof.
  intros Hg Hm Hv Hl. unfold runs, mbind, M_bind, ask at 1. destruct (d_canClearEstop (env w)) as [can e]. cbn [record].
  assert (R : replay (v_estop (view w)) [CanClearEstop can] = Some (negb can)) by (change (v_estop (view w)) with (estopLatched (hub w)); by rewrite Hl).
  destruct can; cbn [negb].
  - set (w1 := mkWorld (g (hub w)) e (rng w) (inbox w) (trace w ++ [CanClearEstop true])).
    assert (Ev : view w1 = v_latch false (view w)) by apply Hg.
    change (runs m w1 (fun _ w' => vinv (view w') /\ logs A w w')).
    eapply runs_mono; [apply Hm; [rewrite Ev; by apply vinv_latch|done]|].
    intros _ w2 [Hv2 L2]. split; [done|]. eapply logs_trans; [|exact L2]. split; [done|]. split; [|rewrite Ev; apply (still_refl (view w))].
    exists [CanClearEstop true]. split; [done|]. split; [by rewrite R, Ev|by apply Forall_singleton, permits].
  - split; [done|]. split; [done|]. split; [|apply (still_refl (view w))]. exists [CanClearEstop false]. split; [done|]. split; [|by apply Forall_singleton, permits].
    rewrite R. change (Some true = Some (estopLatched (hub w))). by rewrite Hl.
Qed.

Lemma set_estop_view h cause seq :
  hub_view (h{{Hub.safetyWord := Z.lor (Hub.safetyWord h) safety_bits.ESTOP; Hub.safetyCause := cause; Hub.estopSeq := seq}}) = v_latch true (hub_view h).
Proof.
  unfold hub_view, v_latch. f_equal. rewrite estopLatched_bit. change (Z.testbit (Z.lor (Hub.safetyWord h) 1) 0 = true). by rewrite Z.lor_spec, orb_true_r.
Qed.

Lemma clear_estop_view h : hub_view (h{{Hub.safetyWord := without (Hub.safetyWord h) safety_bits.ESTOP}}) = v_latch false (hub_view h).
Proof.
  unfold hub_view, v_latch. f_equal. rewrite estopLatched_bit. change (Z.testbit (Z.ldiff (Hub.safetyWord h) 1) 0 = false). by rewrite Z.ldiff_spec, andb_false_r.
Qed.

Lemma keeps_handleEstopFrame f now : keeps A anywhere (handleEstopFrame catalog f now).
Proof.
  intros w Hv _. unfold handleEstopFrame. apply runs_gets. fold (estopLatched (hub w)).
  assert (K : keeps A anywhere (broadcastSafetyNow catalog now ;; emitSafetyEdgeEvents catalog (Hub.safetyWord (hub w)) now)) by keeps.
  eapply (runs_bind _ _ _ (fun _ w' => vinv (view w') /\ logs A w w')).
  - destruct (estopLatched (hub w)) eqn:E; cbn [negb when]; [apply runs_ret; split; [done|apply logs_refl]|].
    apply latch_edge; [intros; apply set_estop_view|keeps|done|done].
  - intros _ w1 [Hv1 L1]. eapply runs_mono; [by apply K|]. intros _ w2 [Hv2 L2]. split; [done|by eapply logs_trans].
Qed.

Lemma keeps_latchEstop a b c : keeps A anywhere (latchEstop catalog a b c).
Proof. unfold latchEstop. apply (keeps_quiet_bind A); [quiet|intros]. apply keeps_handleEstopFrame. Qed.

Lemma keeps_clearEstop : keeps A anywhere (clearEstop catalog).
Proof.
  intros w Hv _. unfold clearEstop. apply runs_gets. fold (estopLatched (hub w)).
  destruct (estopLatched (hub w)) eqn:Hl; cbn [negb]; [|apply runs_ret; split; [done|apply logs_refl]].
  apply clear_edge; [intros; apply clear_estop_view|keeps|done|done].
Qed.
End safety.
#[export] Hint Resolve quiet_applySafetyOpLatch quiet_setWord_stop : quiet.
#[export] Hint Resolve keeps_announceSafety keeps_setSafetyModes keeps_handleEstopFrame keeps_latchEstop keeps_clearEstop : keeps.

(** ** Joining *)

(** The generator gives a non-zero number within [tries] draws. *)
Definition draws_nonzero {P : Platform} (tries : nat) : Prop :=
  forall r, exists n, (n < tries)%nat /\ (nextU32 (Nat.iter n (fun r => (nextU32 r).2) r)).1 <> 0.

Section join.
Context {P : Platform} (catalog : BasicCatalog) (A : Effect -> Prop) {HA : Permits A} (tries : nat).

Lemma quiet_deref pre i : (i < kSlotCapacity)%nat -> implies pre (att i) -> quiet pre (deref i).
Proof.
  intros Hi Hp w H5 Hw. destruct (Hp _ Hw) as (sv & t & Hs & Ht). destruct (slot_of_view w i sv Hs) as (s & Hl & <-).
  unfold deref. eapply runs_getSlot; [done|]. cbn in Ht. rewrite Ht. apply runs_ret. split; [done|apply quietly_refl].
Qed.
#[local] Hint Resolve quiet_deref : quiet.

Lemma quiet_nackTo pre i n : (i < kSlotCapacity)%nat -> implies pre (att i) -> quiet pre (nackTo i n).
Proof. intros. unfold nackTo. quiet. Qed.

Lemma quiet_sendGrant pre i g cap : (i < kSlotCapacity)%nat -> implies pre (att i) -> quiet pre (sendGrant i g cap).
Proof. intros. unfold sendGrant. quiet. Qed.

Lemma quiet_replayEventsOnGrant pre i ch : quiet pre (replayEventsOnGrant catalog i ch).
Proof. unfold replayEventsOnGrant. quiet. Qed.

Lemma quiet_upsertSub pre i ch r p : (i < kSlotCapacity)%nat -> quiet pre (upsertSub i ch r p).
Proof. intros. unfold upsertSub. quiet. Qed.
#[local] Hint Resolve quiet_nackTo quiet_sendGrant quiet_replayEventsOnGrant quiet_upsertSub : quiet.

Lemma quiet_addPublishGrant pre i ch r now b br c :
  quiet pre (modifySession i (fun s => snd (HubSession.addPublishGrant ch r now b br c s))).
Proof.
  apply quiet_modifySession. intros s. unfold HubSession.addPublishGrant.
  destruct (HubSession.publishGrantFor ch s); [done|]. by destruct (find_index _ _).
Qed.
#[local] Hint Resolve quiet_addPublishGrant : quiet.

Lemma quiet_grantPublishWish pre i wish now : (i < kSlotCapacity)%nat -> quiet pre (grantPublishWish catalog i wish now).
Proof. intros. unfold grantPublishWish. quiet. Qed.
#[local] Hint Resolve quiet_grantPublishWish : quiet.

Lemma quiet_grantPublishes pre i wishes now got : (i < kSlotCapacity)%nat -> quiet pre (grantPublishes catalog i wishes now got).
Proof. intros Hi. revert got. induction wishes as [|x wishes IH]; intros got; cbn [grantPublishes]; quiet. Qed.

Lemma quiet_maxFrame pre i : (i < kSlotCapacity)%nat -> quiet pre (maxFrame i).
Proof. intros. unfold maxFrame. quiet. Qed.
#[local] Hint Resolve quiet_maxFrame : quiet.

Lemma quiet_buildWelcome pre i g p d now : (i < kSlotCapacity)%nat -> quiet pre (buildWelcome catalog i g p d now).
Proof. intros. unfold buildWelcome. quiet. Qed.

Lemma quiet_armWelcomeSignature pre i w : (i < kSlotCapacity)%nat -> quiet pre (armWelcomeSignature i w).
Proof. intros. unfold armWelcomeSignature. quiet. Qed.
#[local] Hint Resolve quiet_buildWelcome quiet_armWelcomeSignature : quiet.

Lemma quiet_sendWelcome pre i w : (i < kSlotCapacity)%nat -> implies pre (att i) -> quiet pre (sendWelcome i w).
Proof. intros. unfold sendWelcome. quiet. Qed.

Lemma quiet_modifyKnock pre k f : quiet pre (modifyKnock k f).
Proof. unfold modifyKnock. quiet. Qed.

Lemma quiet_addKnock pre id sid now : quiet pre (addKnock id sid now).
Proof. unfold addKnock. quiet. Qed.

Lemma quiet_setRole pre i r : quiet pre (setRole i r).
Proof. unfold setRole. quiet. Qed.
#[local] Hint Resolve quiet_sendWelcome quiet_modifyKnock quiet_addKnock quiet_setRole : quiet.

Lemma quiet_applyTrustObservation pre i now : (i < kSlotCapacity)%nat -> quiet pre (applyTrustObservation catalog i now).
Proof. intros. unfold applyTrustObservation. quiet. Qed.

Lemma quiet_presentedRole pre m : quiet pre (presentedRole m).
Proof. unfold presentedRole. quiet. Qed.
#[local] Hint Resolve quiet_applyTrustObservation quiet_presentedRole : quiet.

Lemma quiet_settleRole pre i m r now : (i < kSlotCapacity)%nat -> quiet pre (settleRole catalog i m r now).
Proof. intros. unfold settleRole. quiet. Qed.

Lemma quiet_grantSubscriptions pre i wishes got : (i < kSlotCapacity)%nat -> quiet pre (grantSubscriptions catalog i wishes got).
Proof. intros Hi. revert got. induction wishes as [|x wishes IH]; intros got; cbn [grantSubscriptions]; quiet. Qed.

Lemma quiet_subscribeEach pre i wishes got : (i < kSlotCapacity)%nat -> implies pre (att i) -> quiet pre (subscribeEach catalog i wishes got).
Proof. intros Hi Hp. revert got. induction wishes as [|x wishes IH]; intros got; cbn [subscribeEach]; quiet. Qed.

Lemma runs_draw w : draws_nonzero tries -> runs (drawNonZero tries) w (fun x w' => x <> 0 /\ view w' = view w /\ quietly w w').
Proof.
  intros Hd. specialize (Hd (rng w)). revert w Hd. induction tries as [|n IH]; intros w (k & Hk & Hx); [lia|]. cbn [drawNonZero].
  unfold runs, mbind, M_bind, random. destruct (nextU32 (rng w)) as [x r] eqn:E. destruct (Z.eqb_spec x 0) as [->|Hne].
  - set (w1 := mkWorld (hub w) (env w) r (inbox w) (trace w)). destruct k as [|k]; [cbn in Hx; by rewrite E in Hx|].
    change (runs (drawNonZero n) w1 (fun x w' => x <> 0 /\ view w' = view w1 /\ quietly w1 w')).
    apply IH. exists k. split; [lia|]. rewrite Nat.iter_succ_r, E in Hx. exact Hx.
  - split; [done|]. split; [done|by apply quietly_same].
Qed.

Lemma quiet_drawNonZero pre : draws_nonzero tries -> quiet pre (drawNonZero tries).
Proof. intros Hd w _ _. eapply runs_mono; [by apply runs_draw|]. by intros x w' [_ H]. Qed.
End join.
#[export] Hint Resolve quiet_deref quiet_nackTo quiet_sendGrant quiet_replayEventsOnGrant quiet_upsertSub quiet_addPublishGrant
  quiet_grantPublishWish quiet_grantPublishes quiet_maxFrame quiet_buildWelcome quiet_armWelcomeSignature quiet_sendWelcome
  quiet_modifyKnock quiet_addKnock quiet_setRole quiet_applyTrustObservation quiet_presentedRole quiet_settleRole
  quiet_grantSubscriptions quiet_subscribeEach : quiet.

(** *** Counting the other sessions *)

Definition vacant : SlotView := mkSV None HubSessionState.FREE 0 noInstance.
Definition occupied_in (l : list SlotView) : nat := length (filter (fun s => occ s = true) l).
Definition others (i : nat) (v : View) : nat := occupied_in (<[i := vacant]> (v_slots v)).

Lemma occupied_insert l i s : (i < length l)%nat ->
  occupied_in (<[i := s]> l) = (occupied_in (take i l) + (if occ s then 1 else 0) + occupied_in (drop (S i) l))%nat.
Proof.
  intros Hi. unfold occupied_in. rewrite (insert_take_drop _ _ _ Hi), filter_app, length_app, filter_cons.
  destruct (occ s) eqn:E; [rewrite decide_True by done|rewrite decide_False by done]; cbn; lia.
Qed.

Lemma occupied_lookup l i s : l !! i = Some s ->
  occupied_in l = (occupied_in (take i l) + (if occ s then 1 else 0) + occupied_in (drop (S i) l))%nat.
Proof. intros H. rewrite <- (list_insert_id l i s H) at 1. apply occupied_insert. by eapply lookup_lt_Some. Qed.

Lemma others_le i v : (others i v <= occupied_in (v_slots v))%nat.
Proof.
  unfold others. destruct (v_slots v !! i) as [s|] eqn:H.
  - rewrite (occupied_lookup _ _ _ H), occupied_insert by (by eapply lookup_lt_Some). destruct (occ s); cbn; lia.
  - rewrite list_insert_ge; [done|by apply lookup_ge_None].
Qed.

Lemma others_on i s v : occ s = false -> others i v = occupied_in (v_slots (v_on i s v)).
Proof.
  intros Hs. unfold others. change (v_slots (v_on i s v)) with (<[i := s]> (v_slots v)). destruct (decide (i < length (v_slots v))%nat).
  { rewrite (occupied_insert _ _ vacant), (occupied_insert _ _ s), Hs by done. done. }
  by rewrite !list_insert_ge by lia.
Qed.

Lemma others_drop i j s t v : i <> j -> v_slots v !! j = Some s -> occ s = true -> occ t = false -> (others i (v_on j t v) < others i v)%nat.
Proof.
  intros Hne Hj Hs Ht. unfold others. cbn. rewrite list_insert_insert_ne by done.
  assert (Hj' : <[i := vacant]> (v_slots v) !! j = Some s) by (by rewrite list_lookup_insert_ne).
  rewrite (occupied_lookup _ _ _ Hj'), occupied_insert by (by eapply lookup_lt_Some). rewrite Hs, Ht. lia.
Qed.

Lemma occupied_cons s l : occupied_in (s :: l) = ((if occ s then 1 else 0) + occupied_in l)%nat.
Proof. unfold occupied_in. rewrite filter_cons. destruct (occ s) eqn:E; [rewrite decide_True by done|rewrite decide_False by done]; done. Qed.

Definition count_but (k n : nat) (l : list Slot.t) : nat :=
  length (List.filter (fun '(i, s) => isNot (Some k) i && slotOccupied s) (zip (seq n (length l)) l)).

Lemma count_but_cons k n s l : count_but k n (s :: l) = ((if negb (n =? k)%nat && slotOccupied s then 1 else 0) + count_but k (S n) l)%nat.
Proof. unfold count_but. cbn. by destruct (negb (n =? k)%nat && slotOccupied s). Qed.

Lemma count_but_past k n l : (k < n)%nat -> count_but k n l = occupied_in (slot_view <$> l).
Proof.
  revert n. induction l as [|s l IH]; intros n Hn; [done|]. rewrite count_but_cons, fmap_cons, occupied_cons, IH by lia.
  destruct (Nat.eqb_spec n k); [lia|]. done.
Qed.

Lemma count_but_others l n i : (i < length l)%nat -> count_but (n + i) n l = occupied_in (<[i := vacant]> (slot_view <$> l)).
Proof.
  revert n i. induction l as [|s l IH]; intros n i Hi; [cbn in Hi; lia|]. rewrite count_but_cons, fmap_cons. destruct i as [|i].
  - rewrite Nat.add_0_r, Nat.eqb_refl, count_but_past by lia. change (<[0%nat := vacant]> (slot_view s :: (slot_view <$> l))) with (vacant :: (slot_view <$> l)).
    by rewrite occupied_cons.
  - change (<[S i := vacant]> (slot_view s :: (slot_view <$> l))) with (slot_view s :: <[i := vacant]> (slot_view <$> l)).
    rewrite occupied_cons, <- (IH (S n)) by (cbn in Hi; lia). replace (S n + i)%nat with (n + S i)%nat by lia. destruct (Nat.eqb_spec n (n + S i)); [lia|]. done.
Qed.

Lemma occupiedCount_others i h : (i < length (Hub.slots h))%nat -> occupiedCount (Some i) h = others i (hub_view h).
Proof. apply (count_but_others (Hub.slots h) 0). Qed.

(** *** Finding slots *)

Lemma lookup_numbered {A} (l : list A) j i x : zip (seq 0 (length l)) l !! j = Some (i, x) <-> i = j /\ l !! j = Some x.
Proof.
  rewrite lookup_zip_with_Some. split.
  - intros (a & b & [= -> ->] & Ha & Hb). apply lookup_seq in Ha as [-> _]. done.
  - intros [-> Hx]. exists j, x. split_and!; [done| |done]. apply lookup_seq. split; [done|by eapply lookup_lt_Some].
Qed.

Lemma hub_findSlot_Some p h j : findSlot p h = Some j -> exists s, Hub.slots h !! j = Some s /\ p j s = true.
Proof. unfold findSlot. intros ([i s] & Hs & Hp & _)%find_index_Some. apply lookup_numbered in Hs as [-> Hs]. by exists s. Qed.

Lemma hub_findSlot_None p h j s : findSlot p h = None -> Hub.slots h !! j = Some s -> p j s = false.
Proof.
  unfold findSlot. intros H Hs. apply find_index_None in H. rewrite Forall_lookup in H. apply (H j (j, s)). by apply lookup_numbered.
Qed.

Lemma findEvictableStale_Some ex h j : findEvictableStale ex h = Some j -> exists s, Hub.slots h !! j = Some s /\ isNot ex j = true /\ isStale s = true.
Proof.
  unfold findEvictableStale. set (step := fun best '(i, s) => _).
  enough (G : forall l best, (forall k s, best = Some (k, s) -> Hub.slots h !! k = Some s /\ isNot ex k = true /\ isStale s = true) ->
     (forall k s, (k, s) ∈ l -> Hub.slots h !! k = Some s) -> forall k s, foldl step best l = Some (k, s) ->
     Hub.slots h !! k = Some s /\ isNot ex k = true /\ isStale s = true).
  { intros H. destruct (foldl step None _) as [[k s]|] eqn:E; [|done]. injection H as <-. exists s. eapply (G _ None); [done| |exact E].
    intros k' s' Hin. apply list_elem_of_lookup in Hin as [n Hn]. apply lookup_numbered in Hn as [-> Hn]. done. }
  induction l as [|[k s] l IH]; intros best Hb Hl k' s' H; [by apply Hb|]. eapply IH; [|intros; apply Hl; by right|exact H].
  assert (Hk : Hub.slots h !! k = Some s) by (apply Hl; left). clear H k' s'. intros k' s' E. unfold step in E.
  destruct (isNot ex k) eqn:E1, (isStale s) eqn:E2; cbn [negb orb] in E; try (by apply Hb).
  destruct best as [[kb sb]|]; [destruct (staler s sb)|]; try (by apply Hb); injection E as <- <-; done.
Qed.

(** *** HELLO *)

Definition present (i : nat) (v : View) : Prop := exists s t, v_slots v !! i = Some s /\ sv_transport s = Some t /\ occ s = true.
Lemma present_att i : implies (present i) (att i).
Proof. intros v (s & t & A & B & _). by exists s, t. Qed.
#[export] Hint Resolve present_att : quiet keeps.

(** No other session is this instance's. *)
Definition alone (i : nat) (inst : bytes) (v : View) : Prop :=
  forall k s, k <> i -> v_slots v !! k = Some s -> occ s = true -> sv_instance s <> inst.

Definition v_live (i : nat) (v : View) : View :=
  match v_slots v !! i with Some s => v_on i (mkSV (sv_transport s) HubSessionState.LIVE (sv_id s) (sv_instance s)) v | None => v end.

Lemma vinv_live i v : vinv v -> present i v -> vinv (v_live i v).
Proof.
  intros Hv (s & t & Hi & _ & Ho). unfold v_live. rewrite Hi. apply (vinv_shrink i s); [done|done|by intros _|by intros _ _ _].
Qed.

Lemma still_live i v : still v (v_live i v).
Proof. unfold v_live. destruct (v_slots v !! i) as [s|] eqn:E; [|done]. eapply still_on; [exact E|by left]. Qed.

Lemma five_live i v : five v -> five (v_live i v).
Proof. unfold v_live. destruct (v_slots v !! i); [apply five_on|done]. Qed.

Lemma v_on_on i s t v : v_on i s (v_on i t v) = v_on i s v.
Proof. unfold v_on. cbn. by rewrite list_insert_insert_eq. Qed.

Lemma v_slots_on i s v : (i < length (v_slots v))%nat -> v_slots (v_on i s v) !! i = Some s.
Proof. intros H. cbn. by rewrite list_lookup_insert_eq. Qed.

Lemma v_slots_on_ne i k s v : i <> k -> v_slots (v_on i s v) !! k = v_slots v !! k.
Proof. intros H. cbn. by rewrite list_lookup_insert_ne. Qed.

Lemma v_free_on i s v : v_slots v !! i = Some s ->
  v_free i v = v_on i (mkSV (sv_transport s) HubSessionState.FREE 0 noInstance) (if occ s then v_release (sv_id s) v else v).
Proof. intros H. unfold v_free. by rewrite H. Qed.

Lemma slots_free i s v : v_slots v !! i = Some s ->
  v_slots (v_free i v) = <[i := mkSV (sv_transport s) HubSessionState.FREE 0 noInstance]> (v_slots v).
Proof. intros H. rewrite (v_free_on _ _ _ H). by destruct (occ s). Qed.

Section hello.
Context {P : Platform} (catalog : BasicCatalog) (A : Effect -> Prop) {HA : Permits A} (tries : nat) (Hdraw : draws_nonzero tries).

Lemma acts_setLive i : (i < kSlotCapacity)%nat -> acts (v_live i) (modifySession i (fun s => s{{HubSession.state := HubSessionState.LIVE}})).
Proof.
  intros Hi w H5. destruct (view_lookup w i H5 Hi) as (s & Hs & Hv).
  eapply (runs_modifySlot_last i (slot_view s) _ (fun x => mkSV (sv_transport x) HubSessionState.LIVE (sv_id x) (sv_instance x))); [done|done|].
  intros w1 E1 Q1. split; [|done]. rewrite E1. unfold v_live. by rewrite Hv.
Qed.

Lemma keeps_setLive i : (i < kSlotCapacity)%nat -> keeps A (present i) (modifySession i (fun s => s{{HubSession.state := HubSessionState.LIVE}})).
Proof. intros Hi. eapply (keeps_acts A); [by apply acts_setLive|apply vinv_live|apply still_live]. Qed.

Lemma acts_joined i sid : (i < kSlotCapacity)%nat -> acts (v_live i) (joined i sid).
Proof.
  intros Hi w H5. destruct (view_lookup w i H5 Hi) as (s & Hs & Hv). unfold joined.
  eapply (runs_modifySession i (slot_view s) _ (fun x => mkSV (sv_transport x) HubSessionState.GRANTED (sv_id x) (sv_instance x))); [done|done|].
  intros w1 E1 Q1. assert (H1 : five (view w1)) by (rewrite E1; by apply five_on). eapply runs_bind; [by apply acts_setLive|]. intros _ w2 [E2 Q2].
  eapply runs_mono; [eapply (quiet_notify anywhere); [exact I| |done]; rewrite E2; by apply five_live|].
  intros _ w3 [E3 Q3]. split; [|by eapply quietly_trans; [|eapply quietly_trans]]. rewrite E3, E2, E1. unfold v_live.
  rewrite v_slots_on by (by eapply lookup_lt_Some). rewrite Hv. cbn [sv_transport sv_id sv_instance]. by rewrite v_on_on.
Qed.

Lemma keeps_joined i sid : (i < kSlotCapacity)%nat -> keeps A (present i) (joined i sid).
Proof. intros Hi. eapply (keeps_acts A); [by apply acts_joined|apply vinv_live|apply still_live]. Qed.
#[local] Hint Resolve keeps_setLive keeps_joined : keeps.

Definition roomy (i : nat) (v : View) : Prop := (others i v < kHubMaxSessions)%nat.

(** What the rest of HELLO computes with: the state the invariant holds in, and
    the history so far. *)
Lemma runs_keeps pre {T B} (m : M T) w0 w (Q : B -> World -> Prop) (k : T -> M B) :
  keeps A pre m -> vinv (view w) -> pre (view w) -> logs A w0 w ->
  (forall a w', vinv (view w') -> logs A w0 w' -> runs (k a) w' Q) -> runs (m ≫= k) w Q.
Proof. intros Hm Hv Hp L Hk. eapply runs_bind; [by apply Hm|]. intros a w' [Hv' L']. apply Hk; [done|by eapply logs_trans]. Qed.

Lemma openSession_keeps i m now : (i < kSlotCapacity)%nat ->
  keeps A (fun v => att i v /\ alone i (Hello.instance_id m) v /\ roomy i v) (openSession catalog tries i m now).
Proof.
  intros Hi w Hv ((s & t & Hs & Ht) & Ha & Hr). unfold openSession. set (v1 := v_free i (view w)).
  assert (Hs1 : v_slots v1 !! i = Some (mkSV (Some t) HubSessionState.FREE 0 noInstance)).
  { unfold v1. rewrite (slots_free _ _ _ Hs), Ht. apply list_lookup_insert_eq. by eapply lookup_lt_Some. }
  assert (Hv1 : vinv v1) by (by apply vinv_free). assert (Hlt := lookup_lt_Some _ _ _ Hs1).
  eapply runs_bind; [apply acts_teardownSession; [done|apply Hv]|]. intros _ w1 [E1 Q1]. fold v1 in E1.
  eapply (runs_modifySession i _ _ (fun x => mkSV (sv_transport x) HubSessionState.VALIDATING (sv_id x) (sv_instance x))); [done|by rewrite E1|].
  intros w2 E2 Q2. rewrite E1 in E2. eapply runs_bind; [by apply runs_draw|]. intros sid w3 (Hsid & E3 & Q3). rewrite E2 in E3.
  set (v4 := v_on i (mkSV (Some t) HubSessionState.VALIDATING sid (Hello.instance_id m)) v1).
  eapply (runs_modifySession i _ _ (fun x => mkSV (sv_transport x) (sv_state x) sid (Hello.instance_id m)));
    [done|rewrite E3; by apply v_slots_on|]. intros w4 E4 Q4. rewrite E3, v_on_on in E4. change (view w4 = v4) in E4.
  assert (Hv4 : vinv v4).
  { eapply vinv_grow; [done|exact Hs1|done|done| |].
    - intros k u Hk Hu Ho. apply (Ha k u); [done| |done]. unfold v1 in Hu. by rewrite (slots_free _ _ _ Hs), list_lookup_insert_ne in Hu by done.
    - unfold roomy in Hr. rewrite (others_on i (mkSV (sv_transport s) HubSessionState.FREE 0 noInstance)) in Hr by done.
      fold (occupied_in (v_slots v1)). unfold v1. by rewrite (slots_free _ _ _ Hs). }
  assert (Hp4 : present i v4) by (exists (mkSV (Some t) HubSessionState.VALIDATING sid (Hello.instance_id m)), t; split; [by apply v_slots_on|done]).
  assert (L4 : logs A w w4).
  { apply (quietly_logs A); [by eapply quietly_trans; [|eapply quietly_trans; [|eapply quietly_trans]]|]. rewrite E4. etrans; [apply (still_free i)|]. eapply still_on; [exact Hs1|by left]. }
  lazymatch goal with |- runs ?r _ _ => assert (K : keeps A (present i) r) by keeps end.
  eapply runs_mono; [apply K; by rewrite E4|]. intros _ w5 [Hv5 L5]. split; [done|by eapply logs_trans].
Qed.

(** Freeing another slot leaves this one ready for a new session. *)
Lemma free_other i j s v : i <> j -> v_slots v !! j = Some s -> att i v -> att i (v_free j v).
Proof.
  intros Hne Hj (x & t & Hx & Ht). exists x, t. split; [|done]. by rewrite (slots_free _ _ _ Hj), list_lookup_insert_ne.
Qed.

Lemma alone_free i j inst v s : v_slots v !! j = Some s -> alone i inst v -> alone i inst (v_free j v).
Proof.
  intros Hj Ha k x Hk Hx Ho. rewrite (slots_free _ _ _ Hj) in Hx. apply list_lookup_insert_Some in Hx as [(<- & <- & _)|[_ Hx]]; [done|by eapply Ha].
Qed.

Lemma others_free i j s v : i <> j -> v_slots v !! j = Some s -> occ s = true -> (others i (v_free j v) < others i v)%nat.
Proof.
  intros Hne Hj Ho. set (f := mkSV (sv_transport s) HubSessionState.FREE 0 noInstance).
  replace (others i (v_free j v)) with (others i (v_on j f v)) by (unfold others; by rewrite (slots_free _ _ _ Hj)).
  by eapply (others_drop i j s f).
Qed.

Lemma room_under_cap i v : vinv v -> (others i v <= kHubMaxSessions)%nat.
Proof. intros Hv. etrans; [apply others_le|apply Hv]. Qed.

Lemma runs_makeRoom i inst now w : (i < kSlotCapacity)%nat -> vinv (view w) -> att i (view w) -> alone i inst (view w) ->
  runs (makeRoom catalog i now) w (fun room w' => vinv (view w') /\ logs A w w' /\ att i (view w') /\ alone i inst (view w')
                                                  /\ (room = true -> roomy i (view w'))).
Proof.
  intros Hi Hv Hatt Ha. unfold makeRoom. apply runs_gets.
  rewrite occupiedCount_others by (destruct (lookup_five w i (i_five _ Hv) Hi) as [s Hs]; by eapply lookup_lt_Some).
  destruct (Nat.ltb_spec (others i (hub_view (hub w))) kHubMaxSessions); [apply runs_ret; split_and!; try done; apply logs_refl|].
  apply runs_gets. destruct (findEvictableStale (Some i) (hub w)) as [j|] eqn:E.
  - apply findEvictableStale_Some in E as (s & Hs & Hn & Hst). assert (i <> j) by (cbn in Hn; destruct (Nat.eqb_spec j i); [done|congruence]).
    assert (Hj := slot_lt w j s (i_five _ Hv) Hs).
    assert (Hvs := view_slot _ _ _ Hs). eapply (runs_quiet anywhere); [quiet|apply Hv|done|]. intros _ w1 E1 Q1.
    eapply runs_bind; [apply acts_teardownSession; [done|rewrite E1; apply Hv]|]. intros _ w2 [E2 Q2]. rewrite E1 in E2. apply runs_ret. rewrite E2.
    assert (Ho : occ (slot_view s) = true) by (apply bool_decide_eq_true in Hst; unfold occ; cbn; by rewrite Hst).
    split_and!; [by apply vinv_free| |by eapply free_other|by eapply alone_free|].
    + apply (quietly_logs A); [by eapply quietly_trans|]. rewrite E2. apply still_free.
    + intros _. unfold roomy. assert (X := others_free i j _ (view w) ltac:(done) Hvs Ho). assert (Y := room_under_cap i _ Hv). lia.
  - eapply (runs_quiet (att i)); [eauto with quiet|apply Hv|done|]. intros _ w1 E1 Q1. apply runs_ret. rewrite E1.
    split_and!; try done. apply (quietly_logs A); [done|by rewrite E1].
Qed.

(** The parked session in its new slot. *)
Definition v_move (i j : nat) (v : View) : View :=
  match v_slots v !! i, v_slots v !! j with
  | Some a, Some b => v_on i (mkSV (sv_transport a) (sv_state b) (sv_id b) (sv_instance b)) (v_on j vacant v)
  | _, _ => v
  end.

Lemma still_move i j v : i <> j -> still v (v_move i j v).
Proof.
  intros Hne. unfold v_move. destruct (v_slots v !! i) as [a|] eqn:Ei; [|done]. destruct (v_slots v !! j) as [b|] eqn:Ej; [|done].
  etrans; [eapply (still_on j b vacant); [done|by right]|]. eapply (still_on i a); [by rewrite v_slots_on_ne|by left].
Qed.

Lemma acts_moveSession i j : i <> j -> (i < kSlotCapacity)%nat -> (j < kSlotCapacity)%nat -> acts (v_move i j) (moveSession i j).
Proof.
  intros Hne Hi Hj w H5. destruct (view_lookup w i H5 Hi) as (a & Ha & Hva). destruct (view_lookup w j H5 Hj) as (b & Hb & Hvb).
  unfold moveSession. eapply runs_getSlot; [done|].
  eapply (runs_modifySlot i (slot_view a) _ (fun x => mkSV (sv_transport x) (sv_state (slot_view b)) (sv_id (slot_view b)) (sv_instance (slot_view b)))); [done|done|].
  intros w1 E1 Q1. assert (H1 : five (view w1)) by (rewrite E1; by apply five_on). eapply runs_bind; [by apply acts_closeTransport|]. intros _ w2 [E2 Q2].
  assert (Hj1 : v_slots (view w1) !! j = Some (slot_view b)) by (by rewrite E1, v_slots_on_ne).
  unfold v_detach in E2. rewrite Hj1 in E2.
  eapply (runs_modifySlot_last j _ _ (fun x => mkSV (sv_transport x) HubSessionState.FREE 0 noInstance));
    [done|rewrite E2; apply v_slots_on; by eapply lookup_lt_Some|].
  intros w3 E3 Q3. split; [|by eapply quietly_trans; [|eapply quietly_trans]]. rewrite E3, E2, v_on_on, E1. unfold v_move. rewrite Hva, Hvb.
  unfold v_on. cbn. by rewrite list_insert_insert_ne.
Qed.

Lemma vinv_move i j t b v : i <> j -> vinv v -> v_slots v !! i = Some (mkSV t HubSessionState.FREE 0 noInstance) -> v_slots v !! j = Some b ->
  occ b = true -> holds b = false -> vinv (v_move i j v).
Proof.
  intros Hne Hv Hi Hj Ho Hh. unfold v_move. rewrite Hi, Hj.
  assert (Hv1 : vinv (v_on j vacant v)) by (apply (vinv_shrink j b); [done|done|done|intros _ _; by rewrite Hh]).
  eapply vinv_grow; [done|rewrite v_slots_on_ne by done; exact Hi|done|exact (i_id _ Hv j b Hj Ho)| |].
  - intros k x Hk Hx Hox E. destruct (decide (k = j)) as [->|Hkj]; [rewrite v_slots_on in Hx by (by eapply lookup_lt_Some); by injection Hx as <-|].
    rewrite v_slots_on_ne in Hx by done. apply Hkj. by eapply (i_one _ Hv).
  - assert (C := i_cap _ Hv). fold (occupied_in (v_slots v)) in C. rewrite (occupied_lookup _ _ _ Hj), Ho in C.
    change (occupied_in (<[j := vacant]> (v_slots v)) < kHubMaxSessions)%nat. rewrite occupied_insert by (by eapply lookup_lt_Some). cbn. lia.
Qed.

Lemma quiet_resumeSession pre i m h now : quiet pre (modifySession i (resumeSession m h now)).
Proof. apply quiet_modifySession. intros s. unfold resumeSession. by destruct (etagMatches m h). Qed.
#[local] Hint Resolve quiet_resumeSession : quiet.

Lemma handleReattach_keeps i j m now : i <> j -> (i < kSlotCapacity)%nat -> (j < kSlotCapacity)%nat ->
  keeps A (fun v => att i v /\ exists b, v_slots v !! j = Some b /\ sv_state b = HubSessionState.STALE) (handleReattach catalog i j m now).
Proof.
  intros Hne Hi Hj w Hv ((s & t & Hs & Ht) & b & Hb & Hst). unfold handleReattach. set (v1 := v_free i (view w)).
  assert (Hs1 : v_slots v1 !! i = Some (mkSV (Some t) HubSessionState.FREE 0 noInstance)).
  { unfold v1. rewrite (slots_free _ _ _ Hs), Ht. apply list_lookup_insert_eq. by eapply lookup_lt_Some. }
  assert (Hb1 : v_slots v1 !! j = Some b) by (unfold v1; by rewrite (slots_free _ _ _ Hs), list_lookup_insert_ne).
  assert (Hv1 : vinv v1) by (by apply vinv_free).
  eapply runs_bind; [apply acts_teardownSession; [done|apply Hv]|]. intros _ w1 [E1 Q1]. fold v1 in E1.
  eapply runs_bind; [apply (acts_moveSession i j); [done|done|done|rewrite E1; apply Hv1]|]. intros _ w2 [E2 Q2]. rewrite E1 in E2.
  assert (Hv2 : vinv (v_move i j v1)) by (eapply vinv_move; [done|done|exact Hs1|exact Hb1|unfold occ; by rewrite Hst|unfold holds, occ; by rewrite Hst]).
  assert (Hp2 : present i (v_move i j v1)).
  { unfold v_move. rewrite Hs1, Hb1. eexists _, t. split; [apply v_slots_on; cbn; rewrite length_insert; by eapply lookup_lt_Some|]. split; [done|]. unfold occ. cbn. by rewrite Hst. }
  lazymatch goal with |- runs ?r _ _ => assert (K : keeps A (present i) r) by keeps end.
  eapply runs_mono; [apply K; by rewrite E2|]. intros _ w3 [Hv3 L3]. split; [done|]. eapply logs_trans; [|done].
  apply (quietly_logs A); [by eapply quietly_trans|]. rewrite E2. etrans; [apply (still_free i)|by apply still_move].
Qed.

Lemma fresh_keeps i m now : (i < kSlotCapacity)%nat ->
  keeps A (fun v => att i v /\ alone i (Hello.instance_id m) v)
    (room ← makeRoom catalog i now; when room (openSession catalog tries i m now)).
Proof.
  intros Hi w Hv [Hatt Ha]. eapply runs_bind; [by apply (runs_makeRoom i (Hello.instance_id m))|].
  intros room w1 (Hv1 & L1 & Hatt1 & Ha1 & Hr). destruct room; cbn [when]; [|by apply runs_ret].
  eapply runs_mono; [apply openSession_keeps; auto|]. intros _ w2 [Hv2 L2]. split; [done|by eapply logs_trans].
Qed.

Lemma keeps_handleHello i payload now : (i < kSlotCapacity)%nat -> keeps A (att i) (handleHello catalog tries i payload now).
Proof.
  intros Hi. unfold handleHello. destruct (Hello.decodeHello payload) as [m|e]; [|keeps]. intros w Hv Hatt. apply runs_gets.
  destruct (findSlotByInstance (Hello.instance_id m) (Some i) (hub w)) as [j|] eqn:E.
  - apply hub_findSlot_Some in E as (s & Hs & Hp). apply andb_true_iff in Hp as [Hp Hinst]. apply andb_true_iff in Hp as [Hn Ho].
    assert (Hne : i <> j) by (cbn in Hn; destruct (Nat.eqb_spec j i); [done|congruence]). apply bool_decide_eq_true in Hinst.
    assert (Hj := slot_lt w j s (i_five _ Hv) Hs).
    assert (Hvs := view_slot _ _ _ Hs). eapply runs_getSlot; [done|]. destruct (isStale s) eqn:Hst.
    + apply handleReattach_keeps; [done|done|done|done|]. split; [done|]. exists (slot_view s). split; [done|]. by apply bool_decide_eq_true in Hst.
    + eapply (runs_quiet anywhere); [quiet|apply Hv|done|]. intros _ w1 E1 Q1.
      eapply runs_bind; [apply acts_teardownSession; [done|rewrite E1; apply Hv]|]. intros _ w2 [E2 Q2]. rewrite E1 in E2.
      assert (L2 : logs A w w2) by (apply (quietly_logs A); [by eapply quietly_trans|]; rewrite E2; apply still_free).
      eapply runs_mono; [apply fresh_keeps; [done|rewrite E2; by apply vinv_free|rewrite E2; split; [by eapply free_other|]]|].
      * intros k x Hk Hx Hox Heq. rewrite (slots_free _ _ _ Hvs) in Hx. apply list_lookup_insert_Some in Hx as [(<- & <- & _)|[Hkj Hx]]; [done|].
        apply Hkj. apply (i_one _ Hv _ _ _ _ Hvs Hx Ho Hox). cbn. congruence.
      * intros _ w3 [Hv3 L3]. split; [done|by eapply logs_trans].
  - apply fresh_keeps; [done|done|]. split; [done|]. intros k x Hk Hx Hox Heq. destruct (slot_of_view _ _ _ Hx) as (s & Hs & <-).
    assert (F := hub_findSlot_None _ _ _ _ E Hs). cbn beta in F. apply andb_false_iff in F as [F|F].
    + apply andb_false_iff in F as [F|F]; [cbn in F; destruct (Nat.eqb_spec k i); [done|discriminate]|]. change (occ (slot_view s) = false) in F. congruence.
    + apply bool_decide_eq_false in F. by apply F.
Qed.
End hello.
#[export] Hint Resolve keeps_handleHello : keeps.
