(* ===== verification/HubStep.v ===== *)
(** * HubStep: the handlers, the dispatcher and [update] keep the invariant *)

From S2P Require Import Prelude Registry ByteIO Serial Frame Bundle Blob Messages Codec Trust Handshake Raw Catalog Channel Safety Pairing TrustLedger Session Builtin HubState HubSafety HubJoin HubPairing HubData HubLoop HubFacts HubInv HubSound.
Local Open Scope Z_scope.

(** ** Session messages *)

Section session_messages.
Context {P : Platform} (catalog : BasicCatalog) (A : Effect -> Prop) {HA : Permits A}.

Lemma keeps_handleAuth i payload now : (i < kSlotCapacity)%nat -> keeps A (att i) (handleAuth catalog i payload now).
Proof. intros. unfold handleAuth. keeps. Qed.

Lemma keeps_handleSubscribe i payload now : (i < kSlotCapacity)%nat -> keeps A (att i) (handleSubscribe catalog i payload now).
Proof. intros. unfold handleSubscribe. keeps. Qed.

Lemma keeps_handleUnsubscribe i payload : keeps A anywhere (handleUnsubscribe i payload).
Proof. unfold handleUnsubscribe. keeps. Qed.

Lemma keeps_handlePublish i payload now : (i < kSlotCapacity)%nat -> keeps A anywhere (handlePublish catalog i payload now).
Proof. intros. unfold handlePublish. keeps. Qed.

Lemma keeps_handleCatalogReady i payload : keeps A anywhere (handleCatalogReady i payload).
Proof. unfold handleCatalogReady. keeps. Qed.

(** *** Signing *)

Lemma quiet_takePendingSignJob : quiet anywhere takePendingSignJob.
Proof.
  intros w H5 _. unfold takePendingSignJob. apply runs_gets. cbn [Datatypes.id]. destruct (findSlot _ (hub w)) as [i|] eqn:E; [|apply runs_ret; split; [done|apply quietly_refl]].
  apply hub_findSlot_Some in E as (s & Hs & _). eapply runs_getSlot; [done|].
  assert (Q : quiet anywhere (modifySlot i (fun s => s{{Slot.signPending := false}}) ;;
     let sid := HubSession.session_id (Slot.session s) in mret (Some (sid, hubSigMaterial (Slot.clientNonce s) sid (Hub.bootId (hub w)))))) by quiet.
  by apply Q.
Qed.

Lemma quiet_submitSignature sid sig : quiet anywhere (submitSignature sid sig).
Proof.
  unfold submitSignature, emitHubSig. destruct (_ || _); [quiet|]. intros w H5 _. apply runs_gets. destruct (findSlotBySession sid (hub w)) as [i|] eqn:E.
  - assert (Hi : (i < kSlotCapacity)%nat).
    { unfold findSlotBySession in E. destruct (sid =? 0); [done|]. apply hub_findSlot_Some in E as (s & Hs & _). by eapply slot_lt. }
    lazymatch goal with |- runs ?r _ _ => assert (Q : quiet anywhere r) by quiet end. by apply Q.
  - apply runs_ret. split; [done|apply quietly_refl].
Qed.
#[local] Hint Resolve quiet_takePendingSignJob quiet_submitSignature : quiet.

Lemma quiet_signPending n maxJobs done : quiet anywhere (signPending n maxJobs done).
Proof. revert done. induction n as [|n IH]; intros done; cbn [signPending]; quiet. Qed.
End session_messages.
#[export] Hint Resolve keeps_handleAuth keeps_handleSubscribe keeps_handleUnsubscribe keeps_handlePublish keeps_handleCatalogReady : keeps.
#[export] Hint Resolve quiet_takePendingSignJob quiet_submitSignature quiet_signPending : quiet.

(** ** Pairing *)

Lemma pending_add_lookup id sid exp md l k l' : Pending.add id sid exp md l = (Some k, l') -> is_Some (l' !! k).
Proof.
  unfold Pending.add. destruct (Pending.find id l) as [i|] eqn:E.
  - intros [= <- <-]. unfold Pending.find in E. destruct (negb _); [done|]. apply find_index_lt in E. rewrite list_lookup_insert_eq by done. done.
  - destruct (find_index _ l) as [i|] eqn:E'; [|done]. intros [= <- <-]. apply find_index_lt in E'. by rewrite list_lookup_insert_eq.
Qed.

Section pairing.
Context {P : Platform} (catalog : BasicCatalog) (A : Effect -> Prop) {HA : Permits A}.

Lemma quiet_presenceEvent pre k r now : quiet pre (presenceEvent catalog k r now).
Proof. unfold presenceEvent. quiet. Qed.
#[local] Hint Resolve quiet_presenceEvent : quiet.

Lemma quiet_openPresenceWindow pre : quiet pre (openPresenceWindow catalog).
Proof. unfold openPresenceWindow. quiet. Qed.

Lemma quiet_closePresenceWindow pre : quiet pre (closePresenceWindow catalog).
Proof. unfold closePresenceWindow. quiet. Qed.

Lemma quiet_pumpPairing pre now : quiet pre (pumpPairing catalog now).
Proof. unfold pumpPairing. quiet. Qed.

Lemma quiet_modifyEntry pre k f : quiet pre (modifyEntry k f).
Proof. unfold modifyEntry. quiet. Qed.

Lemma quiet_grantToken pre id r md : quiet pre (grantToken id r md).
Proof. unfold grantToken. quiet. Qed.
#[local] Hint Resolve quiet_modifyEntry quiet_grantToken : quiet.

Lemma quiet_issuePairGrant pre i id r md now : (i < kSlotCapacity)%nat -> implies pre (att i) -> quiet pre (issuePairGrant catalog i id r md now).
Proof. intros. unfold issuePairGrant. quiet. Qed.
#[local] Hint Resolve quiet_issuePairGrant : quiet.

(** The knock that was just added is still there. *)
Lemma runs_addKnock id sid now w :
  runs (addKnock id sid now) w (fun k w' => view w' = view w /\ quietly w w'
    /\ forall k', k = Some k' -> is_Some (Ledger.pending (Hub.pairing (hub w')) !! k')).
Proof.
  unfold addKnock. apply runs_gets. destruct (Pending.add _ _ _ _ _) as [k pend] eqn:E. apply runs_modify, runs_ret.
  split; [done|]. split; [by apply quietly_same|]. intros k' ->. exact (pending_add_lookup _ _ _ _ _ _ _ E).
Qed.

Lemma knock_announced pre id sid now edit (k0 : M unit) (f : Pending.PendingKnock -> M unit) (rest : M unit) :
  quiet pre rest -> (forall x, quiet pre (f x)) -> keeps A pre k0 ->
  keeps A pre (k ← addKnock id sid now;
    match k with
    | None => k0
    | Some k =>
        modifyKnock k edit ;;
        pm ← gets Hub.pairing;
        match Ledger.pending pm !! k with None => undefined | Some x => f x end ;; rest
    end).
Proof.
  intros Hrest Hf H0 w Hv Hp. eapply runs_bind; [apply runs_addKnock|]. intros k w1 (E1 & Q1 & Hk). rewrite <- E1 in Hv, Hp.
  assert (L1 : logs A w w1) by (apply (quietly_logs A); [done|by rewrite E1]). apply (runs_mono _ _ (fun _ w' => vinv (view w') /\ logs A w1 w')); [|intros a w' [X Y]; split; [exact X|by eapply logs_trans]].
  destruct k as [k|]; [|by apply H0]. destruct (Hk k eq_refl) as [x Hx]. apply runs_modify, runs_gets.
  set (w2 := with_hub _ w1). replace (Ledger.pending (Hub.pairing (hub w2)) !! k) with (Some (edit x)).
  - exact (keeps_quiet A pre _ (quiet_bind pre _ _ (Hf (edit x)) (fun _ => Hrest)) w2 Hv Hp).
  - change (Some (edit x) = alter edit k (Ledger.pending (Hub.pairing (hub w1))) !! k). by rewrite list_lookup_alter_eq, Hx.
Qed.

Lemma keeps_handleKnock i m now : (i < kSlotCapacity)%nat -> keeps A (att i) (handleKnock catalog i m now).
Proof.
  intros. unfold handleKnock. do 2 (apply (keeps_quiet_bind A); [quiet|intros]). cbv zeta. case_match; [keeps|]. case_match; [keeps|]. case_match; [keeps|].
  apply knock_announced; [quiet|intros; quiet|keeps].
Qed.

Lemma quiet_pairWithPin pre id proof nonce now : quiet pre (pairWithPin id proof nonce now).
Proof. unfold pairWithPin. quiet. Qed.
#[local] Hint Resolve quiet_pairWithPin : quiet.
#[local] Hint Resolve keeps_handleKnock : keeps.

Lemma keeps_handlePairReq i payload now : (i < kSlotCapacity)%nat -> keeps A (att i) (handlePairReq catalog i payload now).
Proof. intros. unfold handlePairReq. keeps. Qed.

(** *** Administration *)

Lemma findSlotBySession_lt sid w j : five (view w) -> findSlotBySession sid (hub w) = Some j -> (j < kSlotCapacity)%nat.
Proof. intros H5. unfold findSlotBySession. destruct (sid =? 0); [done|]. intros (s & Hs & _)%hub_findSlot_Some. by eapply slot_lt. Qed.

Lemma quiet_removeKnock pre id : quiet pre (removeKnock id).
Proof. unfold removeKnock. quiet. Qed.

Lemma quiet_revokeEntry pre id : quiet pre (revokeEntry id).
Proof. unfold revokeEntry. quiet. Qed.
#[local] Hint Resolve quiet_removeKnock quiet_revokeEntry : quiet.

Lemma keeps_evict refuse echoOk sid now :
  (forall c, keeps A anywhere (refuse c)) -> keeps A anywhere echoOk -> keeps A anywhere (evict catalog refuse echoOk sid now).
Proof.
  intros Hr He w Hv _. unfold evict. apply runs_gets. destruct (findSlotBySession sid (hub w)) as [j|] eqn:E; [|by apply Hr].
  apply findSlotBySession_lt in E; [|apply Hv].
  assert (K : keeps A anywhere (echoOk ;; goodbyeTo j NackCode.SESSION_EVICTED ;; teardown catalog j now)) by keeps. by apply K.
Qed.

Lemma keeps_pairApprove i refuse echoOk a now : (i < kSlotCapacity)%nat ->
  (forall c, keeps A anywhere (refuse c)) -> keeps A anywhere echoOk -> keeps A anywhere (pairApprove catalog i refuse echoOk a now).
Proof.
  intros Hi Hr He. unfold pairApprove. do 2 (apply (keeps_quiet_bind A); [quiet|intros]). cbv zeta. case_match; [by apply Hr|]. case_match; [by apply Hr|].
  case_match; [|by apply Hr]. intros w Hv _. apply runs_gets. destruct (findSlotBySession _ (hub w)) as [j|] eqn:E.
  - apply findSlotBySession_lt in E; [|apply Hv]. destruct (view_lookup w j (i_five _ Hv) E) as (s & Hs & Hvs).
    eapply (runs_bind _ _ _ (fun x w' => w' = w /\ x = (Slot.transport s ≫= fun _ => Some j))); [by eapply runs_getSlot|].
    intros x w' [-> ->]. destruct (Slot.transport s) as [t|] eqn:Et; cbn [mbind option_bind].
    + lazymatch goal with |- runs ?r _ _ => assert (K : keeps A (att j) r) by keeps end. apply K; [done|]. exists (slot_view s), t. done.
    + lazymatch goal with |- runs ?r _ _ => assert (K : keeps A anywhere r) by keeps end. by apply K.
  - apply (runs_bind _ _ _ (fun x w' => w' = w /\ x = None)); [by apply runs_ret|]. intros x w' [-> ->].
    lazymatch goal with |- runs ?r _ _ => assert (K : keeps A anywhere r) by keeps end. by apply K.
Qed.

Lemma keeps_pairDeny refuse echoOk a now :
  (forall c, keeps A anywhere (refuse c)) -> keeps A anywhere echoOk -> keeps A anywhere (pairDeny catalog refuse echoOk a now).
Proof. intros Hr He. unfold pairDeny. keeps. Qed.

Lemma keeps_revoke refuse echoOk a now :
  (forall c, keeps A anywhere (refuse c)) -> keeps A anywhere echoOk -> keeps A anywhere (revoke catalog refuse echoOk a now).
Proof. intros Hr He. unfold revoke. keeps. Qed.

Lemma keeps_handleAdminIntent i m now : (i < kSlotCapacity)%nat -> keeps A anywhere (handleAdminIntent catalog i m now).
Proof.
  intros Hi. unfold handleAdminIntent. apply (keeps_quiet_bind A); [quiet|intros cfg]. cbv zeta.
  repeat case_match; try solve [keeps];
    first [apply keeps_evict | apply keeps_pairApprove | apply keeps_pairDeny | apply keeps_revoke]; intros; first [assumption | keeps].
Qed.
End pairing.
#[export] Hint Resolve quiet_presenceEvent quiet_openPresenceWindow quiet_closePresenceWindow quiet_pumpPairing : quiet.
#[export] Hint Resolve keeps_handlePairReq keeps_handleAdminIntent : keeps.

(** ** Projections of the slots that a computation leaves alone

    Between the gate of an intent and its application nothing changes a role;
    while state is pushed nothing changes the number of subscriptions. *)

Definition slot_role (s : Slot.t) : AccessLevel := HubSession.role (Slot.session s).
Definition sub_count (s : Slot.t) : nat := length (HubSession.subs (Slot.session s)).

Create HintDb same discriminated.

Section same.
Context {P : Platform} {X : Type} (proj : Slot.t -> X).

Definition same {A} (m : M A) : Prop := forall w a w', m w = Some (a, w') -> proj <$> Hub.slots (hub w') = proj <$> Hub.slots (hub w).

Lemma same_ret {A} (a : A) : same (mret a).
Proof. by intros w b w' [= <- <-]. Qed.
Lemma same_gets {A} (f : Hub.t -> A) : same (gets f).
Proof. by intros w b w' [= <- <-]. Qed.
Lemma same_ask {A} (q : Env -> A * Env) : same (ask q).
Proof. intros w b w'. unfold ask. destruct (q (env w)). by intros [= <- <-]. Qed.
Lemma same_record e : same (record e).
Proof. by intros w b w' [= <- <-]. Qed.
Lemma same_modify f : (forall h, proj <$> Hub.slots (f h) = proj <$> Hub.slots h) -> same (modify f).
Proof. intros H w b w' [= <- <-]. apply H. Qed.
Lemma same_modifySlot i f : (forall s, proj (f s) = proj s) -> same (modifySlot i f).
Proof.
  intros H. apply same_modify. intros h. change (proj <$> alter f i (Hub.slots h) = proj <$> Hub.slots h).
  apply list_eq. intros k. rewrite !list_lookup_fmap. destruct (decide (i = k)) as [->|]; [rewrite list_lookup_alter_eq|by rewrite list_lookup_alter_ne by done].
  destruct (Hub.slots h !! k); [|done]. cbn. by rewrite H.
Qed.
Lemma same_bind {A B} (m : M A) (k : A -> M B) : same m -> (forall a, same (k a)) -> same (mbind k m).
Proof. intros Hm Hk w b w'. unfold mbind, M_bind. destruct (m w) as [[a w1]|] eqn:E; [|done]. intros H. rewrite (Hk _ _ _ _ H). by eapply Hm. Qed.
Lemma same_getSlot i : same (getSlot i).
Proof. apply same_bind; [apply same_gets|]. intros l. destruct (l !! i); [apply same_ret|by intros w b w']. Qed.
Lemma same_undefined {A} : same (A := A) undefined.
Proof. by intros w b w'. Qed.
Lemma same_when b m : same m -> same (when b m).
Proof. intros H. destruct b; [exact H|apply same_ret]. Qed.
Lemma same_each {A} (l : list A) body : (forall x, same (body x)) -> same (each l body).
Proof. intros H. induction l as [|x l IH]; [apply same_ret|]. by apply same_bind. Qed.

Lemma same_at i s w w' : Hub.slots (hub w) !! i = Some s -> proj <$> Hub.slots (hub w') = proj <$> Hub.slots (hub w) ->
  exists s', Hub.slots (hub w') !! i = Some s' /\ proj s' = proj s.
Proof.
  intros Hs Hr. assert (E : (proj <$> Hub.slots (hub w')) !! i = Some (proj s)) by (by rewrite Hr, list_lookup_fmap, Hs).
  rewrite list_lookup_fmap in E. destruct (Hub.slots (hub w') !! i) as [s'|]; [|done]. injection E as E. by exists s'.
Qed.
End same.

Ltac same_step :=
  lazymatch goal with
  | |- same _ (when _ _) => apply same_when
  | |- same _ (each _ _) => apply same_each; intros
  | |- same _ (mret _) => apply same_ret
  | |- same _ (gets _) => apply same_gets
  | |- same _ (ask _) => apply same_ask
  | |- same _ (record _) => apply same_record
  | |- same _ undefined => apply same_undefined
  | |- same _ (getSlot _) => apply same_getSlot
  | |- same _ (modifySlot _ _) => apply same_modifySlot; intros; reflexivity
  | |- same _ (modifySession _ _) => apply same_modifySlot; intros; reflexivity
  | |- same _ (modify _) => apply same_modify; intros; reflexivity
  | |- same _ (mbind _ _) => apply same_bind; [|intros]
  | |- same _ (if ?b then _ else _) => destruct b
  | |- same _ (match ?x with _ => _ end) => destruct x eqn:?
  | |- same _ _ => solve [eauto 3 with same]
  end.
Ltac same := repeat (intros; cbv zeta; same_step).

Section same_roles.
Context {P : Platform} (catalog : BasicCatalog) (A : Effect -> Prop) {HA : Permits A}.

Lemma roles_notify e : same slot_role (notify e).
Proof. unfold notify. same. Qed.
Lemma same_sendFrameTo {X} (proj : Slot.t -> X) t ty ch p n : same proj (sendFrameTo t ty ch p n).
Proof. unfold sendFrameTo, writeTo. same. Qed.
#[local] Hint Resolve roles_notify same_sendFrameTo : same.
Lemma roles_drainEvents n i t : same slot_role (drainEvents n i t).
Proof. induction n as [|n IH]; cbn [drainEvents]; unfold getSession; same. Qed.
#[local] Hint Resolve roles_drainEvents : same.
Lemma roles_publishEvent ch bs : same slot_role (publishEvent ch bs).
Proof. unfold publishEvent, pushEvent, pumpEventDrain. same. Qed.
#[local] Hint Resolve roles_publishEvent : same.
Lemma roles_emitTakeoverEvent a b c : same slot_role (emitTakeoverEvent a b c).
Proof. unfold emitTakeoverEvent, emitEvent. same. Qed.
Lemma roles_publishControlOwner : same slot_role (publishControlOwnerStateIfPresent catalog).
Proof. unfold publishControlOwnerStateIfPresent, publish, publishState. same. Qed.
End same_roles.
#[export] Hint Resolve roles_notify same_sendFrameTo roles_emitTakeoverEvent roles_publishControlOwner : same.

(** ** INTENT *)

Lemma find_index_here {A} (p : A -> bool) l i x : find_index p l = Some i -> l !! i = Some x -> p x = true.
Proof. intros (y & Hy & Hp & _)%find_index_Some Hx. congruence. Qed.

(** Unless it is a conflict, the source is the session's afterwards. *)
Lemma acquire_ownerOf src sid r tk t a t' : Ownership.acquire src sid r tk t = (a, t') -> a <> Ownership.Conflict -> Ownership.ownerOf src t' = sid.
Proof.
  unfold Ownership.acquire. destruct (Ownership.findOrCreate src t) as [[i|] u] eqn:E; [|by intros [= <- _]].
  assert (Hf : Ownership.find src u = Some i).
  { unfold Ownership.findOrCreate in E. destruct (Ownership.find src t) as [k|] eqn:F; [by injection E as <- <-|].
    destruct (find_index (fun e => negb (Ownership.used e)) t) as [k|] eqn:G; [|done]. injection E as <- <-.
    apply find_index_insert_None; [done|by eapply find_index_lt|]. cbn. by rewrite Z.eqb_refl. }
  assert (Hlt := find_index_lt _ _ _ Hf). set (e := nth i u Ownership.noEntry) in *.
  assert (He : u !! i = Some e) by (destruct (lookup_lt_is_Some_2 u i Hlt) as [x Hx]; unfold e; by rewrite (nth_lookup_Some _ _ _ _ Hx)).
  assert (Hu := find_index_here _ _ _ _ Hf He). cbn beta in Hu.
  assert (G : Ownership.ownerOf src (<[i := Ownership.setOwner sid r e]> u) = sid).
  { unfold Ownership.ownerOf, Ownership.find. rewrite (find_index_insert_Some _ _ _ _ Hf) by exact Hu.
    by rewrite (nth_lookup_Some _ _ _ (Ownership.setOwner sid r e)) by (by apply list_lookup_insert_eq). }
  destruct (Ownership.owner e =? 0) eqn:O1; [by intros [= <- <-] _|]. destruct (Ownership.owner e =? sid) eqn:O2.
  - intros [= <- <-] _. unfold Ownership.ownerOf. rewrite Hf. fold e. lia.
  - destruct (tk && _); [by intros [= <- <-] _|by intros [= <- _]].
Qed.

Section intents.
Context {P : Platform} (catalog : BasicCatalog) (A : Effect -> Prop) {HA : Permits A}.

Lemma keeps_refuseIntent i m c now : (i < kSlotCapacity)%nat -> keeps A anywhere (refuseIntent catalog i m c now).
Proof. intros. unfold refuseIntent. keeps. Qed.
#[local] Hint Resolve keeps_refuseIntent : keeps.

Lemma keeps_estopClearIntent i m now : (i < kSlotCapacity)%nat -> keeps A anywhere (estopClearIntent catalog i m now).
Proof. intros. unfold estopClearIntent. keeps. Qed.

Lemma keeps_estopIntent i m now : (i < kSlotCapacity)%nat -> keeps A anywhere (estopIntent catalog i m now).
Proof. intros. unfold estopIntent. keeps. Qed.

(** The table after an acquisition by the session of the slot. *)
Lemma acquired_vinv i s w src r tk a t :
  vinv (view w) -> serving i (view w) -> Hub.slots (hub w) !! i = Some s ->
  Ownership.acquire src (HubSession.session_id (Slot.session s)) r tk (Hub.ownership (hub w)) = (a, t) ->
  vinv (v_owns t (view w)).
Proof.
  intros Hv (sv & tr & Hsv & _ & Hh) Hs E. assert (Hs' := view_slot _ _ _ Hs). rewrite Hsv in Hs'. injection Hs' as ->.
  assert (X := vinv_acquire src r tk i _ _ Hv Hsv Hh). change (v_owners (view w)) with (Hub.ownership (hub w)) in X.
  change (sv_id (slot_view s)) with (HubSession.session_id (Slot.session s)) in X. by rewrite E in X.
Qed.

(** What [acquire] says to the session of the slot. *)
Definition claim (s : Slot.t) (m : IntentMsg) (src : Z) (t : Ownership.table) : Ownership.AcquireResult :=
  fst (Ownership.acquire src (HubSession.session_id (Slot.session s)) (slot_role s) (im_has_takeover m && im_takeover m) t).

Lemma runs_claimSource i s m src now w : (i < kSlotCapacity)%nat -> vinv (view w) -> serving i (view w) -> Hub.slots (hub w) !! i = Some s ->
  runs (claimSource catalog i m src now) w (fun ok w' => vinv (view w') /\ logs A w w'
    /\ (ok = true <-> claim s m src (Hub.ownership (hub w)) <> Ownership.Conflict)
    /\ (ok = true -> slot_role <$> Hub.slots (hub w') = slot_role <$> Hub.slots (hub w)
                     /\ Ownership.ownerOf src (Hub.ownership (hub w')) = HubSession.session_id (Slot.session s))).
Proof.
  intros Hi Hv Hsv Hs. unfold claimSource. eapply runs_getSession; [done|]. apply runs_gets. unfold claim, slot_role at 1.
  destruct (Ownership.acquire _ _ _ _ _) as [a t] eqn:E. cbn [fst].
  apply runs_modify. set (w1 := with_hub _ w). assert (Ev1 : view w1 = v_owns t (view w)) by done.
  assert (Hv1 : vinv (view w1)) by (rewrite Ev1; by eapply acquired_vinv).
  assert (L1 : logs A w w1) by (apply (quietly_logs A); [by apply quietly_same|by apply still_slots]).
  assert (Hown : a <> Ownership.Conflict -> Ownership.ownerOf src (v_owners (view w1)) = HubSession.session_id (Slot.session s)) by (intros Ha; exact (acquire_ownerOf _ _ _ _ _ _ _ E Ha)).
  assert (G : forall (r : M unit), quiet anywhere r -> same slot_role r -> a <> Ownership.Conflict ->
     runs (r ;; mret true) w1 (fun ok w' => vinv (view w') /\ logs A w w' /\ (ok = true <-> a <> Ownership.Conflict)
       /\ (ok = true -> slot_role <$> Hub.slots (hub w') = slot_role <$> Hub.slots (hub w)
                     /\ Ownership.ownerOf src (Hub.ownership (hub w')) = HubSession.session_id (Slot.session s)))).
  { intros r Hq Hr Ha. assert (Q := Hq w1 (i_five _ Hv1) I). unfold runs, mbind, M_bind, mret, M_ret in *. destruct (r w1) as [[u w2]|] eqn:Er; [|done]. destruct Q as [E2 Q2].
    split; [by rewrite E2|]. split; [eapply logs_trans; [exact L1|]; apply (quietly_logs A); [done|by rewrite E2]|]. split; [done|]. intros _.
    split; [rewrite (Hr _ _ _ Er); done|]. rewrite <- (Hown Ha), <- E2. done. }
  destruct a.
  - apply (runs_assoc (notify _) (publishControlOwnerStateIfPresent catalog)), G; [quiet|same|done].
  - exact (G (mret tt) (quiet_ret anywhere tt) (same_ret slot_role tt) ltac:(done)).
  - eapply (runs_bind _ _ _ (fun _ w' => vinv (view w') /\ logs A w1 w')); [by apply keeps_refuseIntent|].
    intros _ w2 [Hv2 L2]. apply runs_ret. split; [done|]. split; [eapply logs_trans; [exact L1|exact L2]|]. split; [|done]. split; [done|]. by intros [].
  - do 2 apply runs_assoc. apply G; [quiet|same|done].
Qed.

(** The application is asked first of all. *)
Definition applied (s : Slot.t) (m : IntentMsg) : Effect := ApplyIntent (im_channel_id m) (im_value m) (slot_role s).

Lemma runs_applyIntent i s m mapped now w : (i < kSlotCapacity)%nat -> vinv (view w) -> Hub.slots (hub w) !! i = Some s -> A (applied s m) ->
  runs (applyIntent catalog i m mapped now) w (fun _ w' => vinv (view w') /\ logs A w w' /\ exists tr, trace w' = trace w ++ applied s m :: tr).
Proof.
  intros Hi Hv Hs Hauth. unfold applyIntent. eapply runs_getSession; [done|]. apply runs_ask. intros r e _. apply runs_record.
  set (w1 := mkWorld _ _ _ _ _). cbn [hub env rng inbox trace] in w1.
  assert (L1 : logs A w w1).
  { split; [done|]. split; [|apply (still_refl (view w))]. exists [applied s m]. split; [done|]. split; [done|by apply Forall_singleton]. }
  lazymatch goal with |- runs ?r _ _ => assert (K : keeps A anywhere r) by keeps end.
  eapply runs_mono; [by apply K|]. intros _ w2 [Hv2 L2]. split; [done|]. split; [eapply logs_trans; [exact L1|exact L2]|].
  destruct L2 as (_ & (tr & Etr & _) & _). exists tr. rewrite Etr. change (trace w1) with (trace w ++ [applied s m]). by rewrite <- app_assoc.
Qed.

(** Whether the source of the channel, if it has one, goes to the session. *)
Definition claimable (s : Slot.t) (m : IntentMsg) (mapped : option Z) (t : Ownership.table) : Prop :=
  match mapped with None => True | Some src => claim s m src t <> Ownership.Conflict end.

Lemma runs_sourceIntent i s m now w : (i < kSlotCapacity)%nat -> vinv (view w) -> serving i (view w) -> Hub.slots (hub w) !! i = Some s ->
  let mapped := fst (d_sourceForChannel (im_channel_id m) (env w)) in
  (claimable s m mapped (Hub.ownership (hub w)) -> A (applied s m)) ->
  runs (sourceIntent catalog i m now) w (fun _ w' => vinv (view w') /\ logs A w w'
    /\ (claimable s m mapped (Hub.ownership (hub w)) -> exists tr1 tr2, trace w' = trace w ++ tr1 ++ applied s m :: tr2)).
Proof.
  intros Hi Hv Hsv Hs mapped Hauth. unfold sourceIntent. apply runs_ask. intros mp e E. assert (mapped = mp) as <- by (unfold mapped; by rewrite E).
  set (w1 := mkWorld _ _ _ _ _). assert (L1 : logs A w w1) by (apply (quietly_logs A); [by apply quietly_same|by apply still_slots]).
  eapply (runs_bind _ _ _ (fun ok w' => vinv (view w') /\ logs A w1 w' /\ (ok = true <-> claimable s m mapped (Hub.ownership (hub w)))
    /\ (ok = true -> slot_role <$> Hub.slots (hub w') = slot_role <$> Hub.slots (hub w1)))).
  - destruct mapped as [src|]; [|apply runs_ret; split_and!; [done|apply logs_refl|done|done]].
    eapply runs_mono; [by apply (runs_claimSource i s m src now w1)|]. intros ok w2 (X & Y & Z & W). split_and!; [done|done|done|]. intros Ho. by apply W.
  - intros ok w2 (Hv2 & L2 & Hok & Hr). destruct ok; cbn [when].
    + destruct (same_at slot_role i s w w2 Hs (Hr eq_refl)) as (s2 & Hs2 & Er).
      assert (Eapp : applied s2 m = applied s m) by (unfold applied; by rewrite Er).
      eapply runs_mono; [eapply (runs_applyIntent i s2); [done|done|done|rewrite Eapp; by apply Hauth, Hok]|].
      intros _ w3 (Hv3 & L3 & tr & Etr). split; [done|]. split; [eapply logs_trans; [exact L1|eapply logs_trans; [exact L2|exact L3]]|]. intros _.
      destruct L2 as (_ & (tr1 & E1 & _) & _). exists tr1, tr. rewrite Etr, E1, Eapp. by rewrite <- app_assoc.
    + apply runs_ret. split; [done|]. split; [eapply logs_trans; [exact L1|exact L2]|]. intros Hc. by apply Hok in Hc.
Qed.
#[local] Hint Resolve keeps_estopClearIntent keeps_estopIntent : keeps.

(** The gate of an intent: decoded, within the rate, from a ready session, not a
    repeat, on an INTENT channel its role covers, on the generation it expects,
    and not one of the intents the hub handles itself. *)
Definition admits (h : Hub.t) (s : Slot.t) (m : IntentMsg) (now : Z) : bool :=
  let ss := Slot.session s in
  fst (IngressRateLimiter.allow now (HubSession.intentLimiter ss)) && HubSession.ready ss
  && bool_decide (IntentRing.lookup HubSession.kRingSlot (im_intent_id m) (HubSession.intentRing ss) = None)
  && match Catalog.find (im_channel_id m) catalog with
     | Some entry => bool_decide (CatalogEntry.cls entry = INTENT) && mayAccess (HubSession.role ss) (requiredAccessFor catalog entry m)
     | None => false
     end
  && negb (im_has_precondition m && negb (im_precondition m =? Hub.cfgGen h))
  && negb (bool_decide (safetyOpOf m = Some safety_ops.estop_clear)) && negb (bool_decide (safetyOpOf m = Some safety_ops.estop))
  && negb (im_channel_id m =? channels.session_admin).

Definition accepted (w : World) (s : Slot.t) (m : IntentMsg) (now : Z) : Prop :=
  admits (hub w) s m now = true
  /\ claimable s m (fst (d_sourceForChannel (im_channel_id m) (env w))) (Hub.ownership (hub w)).

Lemma runs_handleIntent i s m payload now w : (i < kSlotCapacity)%nat -> vinv (view w) -> serving i (view w) -> Hub.slots (hub w) !! i = Some s ->
  decodeIntent payload = Ok m -> (accepted w s m now -> A (applied s m)) ->
  runs (handleIntent catalog i payload now) w (fun _ w' => vinv (view w') /\ logs A w w'
    /\ (accepted w s m now -> exists tr1 tr2, trace w' = trace w ++ tr1 ++ applied s m :: tr2)).
Proof.
  intros Hi Hv Hsv Hs Hm Hauth. unfold handleIntent. rewrite Hm. eapply runs_getSession; [done|]. unfold accepted, admits in *.
  destruct (IngressRateLimiter.allow _ _) as [allowed lim]. cbn [fst] in *.
  apply runs_modify. set (w1 := with_hub _ w).
  assert (E1 : view w1 = view w) by (unfold view, hub_view; f_equal; by apply slots_alter).
  set (f := fun s : Slot.t => s{{Slot.session := (Slot.session s){{HubSession.intentLimiter := lim}} }}).
  assert (Hs1 : Hub.slots (hub w1) !! i = Some (f s)) by (change (alter f i (Hub.slots (hub w)) !! i = Some (f s)); by rewrite list_lookup_alter_eq, Hs).
  rewrite <- E1 in Hv, Hsv. assert (L1 : logs A w w1) by (apply (quietly_logs A); [by apply quietly_same|by rewrite E1]).
  assert (K : forall r (C : Prop), keeps A (serving i) r -> ~ C -> runs r w1 (fun (_ : unit) w' => vinv (view w') /\ logs A w w' /\ (C -> exists tr1 tr2, trace w' = trace w ++ tr1 ++ applied s m :: tr2))).
  { intros r C Hr Hc. eapply runs_mono; [by apply Hr|]. intros _ w2 [Hv2 L2]. split; [done|]. split; [eapply logs_trans; [exact L1|exact L2]|done]. }
  cbv zeta. destruct allowed; cbn [negb andb] in *; [|apply K; [keeps|by intros [? _]]].
  destruct (HubSession.ready (Slot.session s)); cbn [negb andb] in *; [|apply K; [keeps|by intros [? _]]].
  destruct (IntentRing.lookup _ _ _); [apply K; [keeps|by intros [? _]]|]. rewrite bool_decide_eq_true_2 in * by done. cbn [andb] in *.
  destruct (Catalog.find (im_channel_id m) catalog) as [entry|]; [|apply K; [keeps|by intros [? _]]].
  case_bool_decide as Hc; cbn [negb andb] in *; [|apply K; [keeps|by intros [? _]]]. apply runs_gets. change (Hub.cfgGen (hub w1)) with (Hub.cfgGen (hub w)).
  destruct (mayAccess _ _); cbn [negb andb] in *; [|apply K; [keeps|by intros [? _]]].
  destruct (im_has_precondition m && _); cbn [negb andb] in *; [apply K; [keeps|by intros [? _]]|].
  destruct (bool_decide (safetyOpOf m = Some safety_ops.estop_clear)); cbn [negb andb] in *; [apply K; [keeps|by intros [? _]]|].
  destruct (bool_decide (safetyOpOf m = Some safety_ops.estop)); cbn [negb andb] in *; [apply K; [keeps|by intros [? _]]|].
  destruct (im_channel_id m =? channels.session_admin); cbn [negb andb] in *; [apply K; [keeps|by intros [? _]]|].
  eapply runs_mono; [eapply (runs_sourceIntent i (f s) m now w1); [done|done|done|done|]|].
  - intros Hcl. apply Hauth. split; [done|exact Hcl].
  - intros _ w2 (Hv2 & L2 & H2). split; [done|]. split; [eapply logs_trans; [exact L1|exact L2]|]. intros [_ Hcl]. exact (H2 Hcl).
Qed.

Lemma admits_authorised h s m now : admits h s m now = true -> authorised catalog (applied s m).
Proof.
  unfold admits. intros H. do 4 (apply andb_true_iff in H as [H _]). apply andb_true_iff in H as [_ H].
  destruct (Catalog.find (im_channel_id m) catalog) as [entry|] eqn:Hf; [|done]. apply andb_true_iff in H as [Hc Hr]. apply bool_decide_eq_true in Hc.
  exists entry. split; [by apply catalog_find_first|]. split; [done|]. by apply requiredAccess_covers.
Qed.

Lemma keeps_handleIntent i payload now : (forall e, authorised catalog e -> A e) -> (i < kSlotCapacity)%nat -> keeps A (serving i) (handleIntent catalog i payload now).
Proof.
  intros Hauth Hi w Hv Hsv. destruct (view_lookup w i (i_five _ Hv) Hi) as (s & Hs & Hvs). destruct (decodeIntent payload) as [m|e] eqn:Hm.
  - eapply runs_mono; [eapply (runs_handleIntent i s m); [done|done|done|done|done|]|]; [intros [Had _]; apply Hauth; by eapply admits_authorised|by intros _ w' (X & Y & _)].
  - unfold handleIntent. rewrite Hm. assert (K : keeps A (serving i) (nackTo i (nack NackCode.MALFORMED))) by keeps. by apply K.
Qed.
End intents.
#[export] Hint Resolve keeps_handleIntent : keeps.
#[export] Hint Resolve keeps_refuseIntent keeps_estopClearIntent keeps_estopIntent : keeps.

(** ** STREAM *)

Lemma parse_ok s sz b : parse s sz = Ok b -> bv_n b <> 0%nat -> bundle_ok sz b.
Proof.
  intros H Hne. destruct (bundle_parse_sound s sz b H) as (Hn & Ho & _). apply parse_inv in H as (Hin & Hsz & Hb & Hc & _ & Hl & _).
  unfold kStreamBundleHeaderBytes, kStreamBundleTOffBytes in Hl. unfold limits.bundle_max_samples in Hn. rewrite <- Hin in *. split; [done|done|lia|done|done|lia].
Qed.

Section streams.
Context {P : Platform} (catalog : BasicCatalog) (A : Effect -> Prop) {HA : Permits A}.

Lemma quiet_dropBundle pre i : quiet pre (dropBundle i).
Proof. unfold dropBundle. quiet. Qed.

Lemma quiet_modifyGrant pre i k f : quiet pre (modifyGrant i k f).
Proof. unfold modifyGrant. quiet. Qed.

Lemma quiet_tooFarAhead pre e b : quiet pre (tooFarAhead e b).
Proof. unfold tooFarAhead, nowUs. quiet. Qed.
#[local] Hint Resolve quiet_dropBundle quiet_modifyGrant quiet_tooFarAhead : quiet.

Lemma keeps_sendStreamOverageNack i k pg ch now : (i < kSlotCapacity)%nat -> keeps A anywhere (sendStreamOverageNack catalog i k pg ch now).
Proof. intros. unfold sendStreamOverageNack. keeps. Qed.

Lemma keeps_sendSourceConflictNack i src ch now : (i < kSlotCapacity)%nat -> keeps A anywhere (sendSourceConflictNack catalog i src ch now).
Proof. intros. unfold sendSourceConflictNack. keeps. Qed.
#[local] Hint Resolve keeps_sendStreamOverageNack keeps_sendSourceConflictNack : keeps.

Lemma keeps_claimStreamSource i ch now : (i < kSlotCapacity)%nat -> keeps A (serving i) (claimStreamSource catalog i ch now).
Proof.
  intros Hi. unfold claimStreamSource. apply (keeps_quiet_bind A); [quiet|]. intros [src|]; [|keeps]. intros w Hv Hsv.
  destruct (view_lookup w i (i_five _ Hv) Hi) as (s & Hs & Hvs). eapply runs_getSession; [done|]. apply runs_gets.
  destruct (Ownership.acquire _ _ _ _ _) as [a t] eqn:E. apply runs_modify. set (w1 := with_hub _ w).
  assert (Hv1 : vinv (view w1)) by (change (vinv (v_owns t (view w))); by eapply acquired_vinv).
  assert (L1 : logs A w w1) by (apply (quietly_logs A); [by apply quietly_same|by apply still_slots]).
  lazymatch goal with |- runs ?r _ _ => assert (K : keeps A anywhere r) by keeps end.
  eapply runs_mono; [by apply K|]. intros ok w2 [Hv2 L2]. split; [done|]. eapply logs_trans; [exact L1|exact L2].
Qed.

Lemma deliverBundle_keeps i k s ch b now w : (i < kSlotCapacity)%nat -> vinv (view w) -> serving i (view w) -> Hub.slots (hub w) !! i = Some s ->
  is_Some (HubSession.publishGrants (Slot.session s) !! k) -> (forall sid, A (OnStreamBundle ch sid b)) ->
  runs (deliverBundle catalog i k ch b now) w (fun _ w' => vinv (view w') /\ logs A w w').
Proof.
  intros Hi Hv Hsv Hs [pg Hpg] Hauth. unfold deliverBundle. eapply runs_getSession; [done|]. rewrite Hpg. destruct (IngressRateLimiter.allowN _ _ _) as [allowed lim].
  eapply (runs_quiet (serving i)); [quiet|apply Hv|done|]. intros _ w1 E1 Q1. assert (L1 : logs A w w1) by (apply (quietly_logs A); [done|by rewrite E1]). rewrite <- E1 in Hv, Hsv.
  apply (runs_mono _ _ (fun _ w' => vinv (view w') /\ logs A w1 w')); [|intros a w' [X Y]; split; [exact X|eapply logs_trans; [exact L1|exact Y]]].
  destruct allowed; cbn [negb]; [|lazymatch goal with |- runs ?r _ _ => assert (K : keeps A anywhere r) by keeps end; by apply K].
  assert (K : keeps A (serving i) (ok ← claimStreamSource catalog i ch now;
     when ok (modifySession i (fun s => s{{HubSession.streamBundlesAccepted := u32 (HubSession.streamBundlesAccepted s + 1)}}) ;;
              notify (OnStreamBundle ch (HubSession.session_id (Slot.session s)) b)))).
  { apply (keeps_bind A); [by apply keeps_claimStreamSource|]. intros ok. apply (keeps_when A). apply (keeps_quiet_bind A); [quiet|]. intros _ w2 Hv2 _. unfold notify. apply runs_record.
    set (w3 := mkWorld _ _ _ _ _). unfold runs, ask. split; [done|]. split; [done|]. split; [|apply (still_refl (view w2))].
    exists [OnStreamBundle ch (HubSession.session_id (Slot.session s)) b]. split; [done|]. split; [done|]. apply Forall_singleton, Hauth. }
  by apply K.
Qed.

Lemma keeps_handleStream i ch payload now : (forall e, authorised catalog e -> A e) -> (i < kSlotCapacity)%nat -> keeps A (serving i) (handleStream catalog i ch payload now).
Proof.
  intros Hauth Hi w Hv Hsv. unfold handleStream. destruct (view_lookup w i (i_five _ Hv) Hi) as (s & Hs & Hvs). eapply runs_getSession; [done|].
  assert (D : runs (dropBundle i) w (fun _ w' => vinv (view w') /\ logs A w w')) by (apply (keeps_quiet A anywhere); [quiet|done|done]).
  destruct (HubSession.ready (Slot.session s)); cbn [negb]; [|exact D].
  destruct (HubSession.publishGrantFor ch (Slot.session s)) as [k|] eqn:Hk; [|exact D]. destruct (Catalog.find ch catalog) as [entry|] eqn:Hf; [|exact D].
  case_bool_decide as Hc; cbn [negb orb]; [|exact D]. case_bool_decide as Hd; cbn [negb]; [|exact D].
  destruct (parse payload _) as [b|] eqn:Hp; [|exact D]. destruct (Nat.eqb_spec (bv_n b) 0); [exact D|].
  unfold tooFarAhead. destruct (negb (isSegmentClass entry)).
  - apply (runs_bind _ _ _ (fun far w' => w' = w /\ far = false)); [by apply runs_ret|]. intros far w' [-> ->].
    eapply deliverBundle_keeps; [done|done|done|done|by apply lookup_lt_is_Some, (find_index_lt _ _ _ Hk)|]. intros sid. apply Hauth. exists entry.
    split_and!; [by apply catalog_find_first|done|done|by eapply parse_ok].
  - eapply (runs_bind _ _ _ (fun _ w' => hub w' = hub w /\ quietly w w')).
    { unfold nowUs. apply runs_ask. intros us e _. apply runs_ret. split; [done|by apply quietly_same]. }
    intros far w' [Eh Q]. assert (Ev : view w' = view w) by (unfold view; by rewrite Eh). assert (L : logs A w w') by (apply (quietly_logs A); [done|by rewrite Ev]).
    rewrite <- Ev in Hv, Hsv. rewrite <- Eh in Hs.
    apply (runs_mono _ _ (fun _ w2 => vinv (view w2) /\ logs A w' w2)); [|intros a w2 [X Y]; split; [exact X|eapply logs_trans; [exact L|exact Y]]].
    destruct far; [apply (keeps_quiet A anywhere); [quiet|done|done]|].
    eapply deliverBundle_keeps; [done|done|done|done|by apply lookup_lt_is_Some, (find_index_lt _ _ _ Hk)|]. intros sid. apply Hauth. exists entry.
    split_and!; [by apply catalog_find_first|done|done|by eapply parse_ok].
Qed.
End streams.
#[export] Hint Resolve quiet_dropBundle quiet_modifyGrant : quiet.
#[export] Hint Resolve keeps_handleStream : keeps.

(** ** Requests, blobs and pushed state *)

Section data.
Context {P : Platform} (catalog : BasicCatalog) (A : Effect -> Prop) {HA : Permits A}.

Lemma quiet_handlePing pre i payload : (i < kSlotCapacity)%nat -> implies pre (att i) -> quiet pre (handlePing i payload).
Proof. intros. unfold handlePing. quiet. Qed.

Lemma quiet_handleClock pre i payload : (i < kSlotCapacity)%nat -> implies pre (att i) -> quiet pre (handleClock i payload).
Proof. intros. unfold handleClock, nowUs. quiet. Qed.

Lemma quiet_sendProbes pre t room first n : quiet pre (sendProbes t room first n).
Proof. revert first. induction n as [|n IH]; intros first; cbn [sendProbes]; quiet. Qed.
#[local] Hint Resolve quiet_sendProbes : quiet.

Lemma quiet_handleProbeRequest pre i : (i < kSlotCapacity)%nat -> implies pre (att i) -> quiet pre (handleProbeRequest i).
Proof. intros. unfold handleProbeRequest. quiet. Qed.

Lemma quiet_handleProbeReportFrame pre i payload : quiet pre (handleProbeReportFrame i payload).
Proof. unfold handleProbeReportFrame. quiet. Qed.

Lemma quiet_resolveBlobBytes pre i id : (i < kSlotCapacity)%nat -> quiet pre (resolveBlobBytes catalog i id).
Proof. intros. unfold resolveBlobBytes. quiet. Qed.

Lemma quiet_modifyBlob pre i f : quiet pre (modifyBlob i f).
Proof. unfold modifyBlob. quiet. Qed.
#[local] Hint Resolve quiet_resolveBlobBytes quiet_modifyBlob : quiet.

Lemma quiet_handleBlobReq pre i payload : (i < kSlotCapacity)%nat -> implies pre (att i) -> quiet pre (handleBlobReq catalog i payload).
Proof. intros. unfold handleBlobReq. quiet. Qed.

Lemma quiet_refuseBlob pre i pb n : (i < kSlotCapacity)%nat -> implies pre (att i) -> quiet pre (refuseBlob i pb n).
Proof. intros. unfold refuseBlob. quiet. Qed.
#[local] Hint Resolve quiet_refuseBlob : quiet.

Lemma quiet_sendChunks pre i id enc n : (i < kSlotCapacity)%nat -> implies pre (att i) -> quiet pre (sendChunks i id enc n).
Proof. intros Hi Hp. induction n as [|n IH]; cbn [sendChunks]; quiet. Qed.
#[local] Hint Resolve quiet_sendChunks : quiet.

Lemma quiet_pumpBlobTransfer pre i : (i < kSlotCapacity)%nat -> implies pre (att i) -> quiet pre (pumpBlobTransfer catalog i).
Proof. intros. unfold pumpBlobTransfer. quiet. Qed.

Lemma subs_modifySub i k f : same sub_count (modifySub i k f).
Proof. apply same_modifySlot. intros s. unfold sub_count. cbn. apply length_alter. Qed.

Lemma subs_findOrCreatePushRecord i ch : same sub_count (findOrCreatePushRecord i ch).
Proof. unfold findOrCreatePushRecord. same. Qed.

Lemma subs_modifyPushRecord i k f : same sub_count (modifyPushRecord i k f).
Proof. unfold modifyPushRecord. same. Qed.

Lemma subs_getSession i : same sub_count (getSession i).
Proof. unfold getSession. same. Qed.

Lemma subs_deref i : same sub_count (deref i).
Proof. unfold deref. same. Qed.
#[local] Hint Resolve subs_modifySub subs_findOrCreatePushRecord subs_modifyPushRecord subs_getSession subs_deref : same.

Lemma subs_pushSub i now k : same sub_count (pushSub catalog i now k).
Proof. unfold pushSub. same. Qed.

Lemma runs_pushSub i now k s w : (i < kSlotCapacity)%nat -> five (view w) -> att i (view w) -> Hub.slots (hub w) !! i = Some s -> (k < sub_count s)%nat ->
  runs (pushSub catalog i now k) w (fun _ w' => view w' = view w /\ quietly w w').
Proof.
  intros Hi H5 Hatt Hs Hk. unfold pushSub. eapply runs_getSession; [done|]. apply runs_gets. destruct (lookup_lt_is_Some_2 (HubSession.subs (Slot.session s)) k Hk) as [sub ->].
  lazymatch goal with |- runs ?r _ _ => assert (Q : quiet (att i) r) by quiet end. by apply Q.
Qed.

Lemma quiet_pumpStatePacing i now : (i < kSlotCapacity)%nat -> quiet (att i) (pumpStatePacing catalog i now).
Proof.
  intros Hi w H5 Hatt. unfold pumpStatePacing. destruct (view_lookup w i H5 Hi) as (s & Hs & Hv). eapply runs_getSession; [done|].
  destruct (HubSession.ready (Slot.session s)); cbn [negb]; [|apply runs_ret; split; [done|apply quietly_refl]].
  change (length (HubSession.subs (Slot.session s))) with (sub_count s). clear Hv.
  assert (G : forall l, Forall (fun k => (k < sub_count s)%nat) l -> forall w s', five (view w) -> att i (view w) -> Hub.slots (hub w) !! i = Some s' ->
     sub_count s' = sub_count s -> runs (each l (pushSub catalog i now)) w (fun _ w' => view w' = view w /\ quietly w w')).
  { clear w H5 Hatt Hs. induction 1 as [|k l Hk _ IH]; intros w s' H5 Hatt Hs Hc; cbn [each]; [apply runs_ret; split; [done|apply quietly_refl]|].
    assert (R := runs_pushSub i now k s' w Hi H5 Hatt Hs ltac:(by rewrite Hc)). unfold runs, mbind, M_bind in *.
    destruct (pushSub catalog i now k w) as [[u w1]|] eqn:E; [|done]. destruct R as [E1 Q1].
    destruct (same_at sub_count i s' w w1 Hs (subs_pushSub i now k w u w1 E)) as (s1 & Hs1 & Hc1).
    assert (R1 := IH w1 s1 ltac:(by rewrite E1) ltac:(by rewrite E1) Hs1 ltac:(congruence)). unfold runs in R1.
    destruct (each l (pushSub catalog i now) w1) as [[u2 w2]|]; [|done]. destruct R1 as [E2 Q2]. split; [congruence|by eapply quietly_trans]. }
  eapply G; [|done|done|done|done]. apply Forall_seq. lia.
Qed.

Lemma quiet_publishLog pre l tag msg : quiet pre (publishLog catalog l tag msg).
Proof. unfold publishLog. quiet. Qed.
End data.
#[export] Hint Resolve quiet_handlePing quiet_handleClock quiet_handleProbeRequest quiet_handleProbeReportFrame quiet_handleBlobReq
  quiet_pumpBlobTransfer quiet_pumpStatePacing quiet_publishLog : quiet.
