(* ===== verification/HubCorrect.v ===== *)
(** * HubCorrect: the hub never gets stuck, and its sessions are sound

    [step] is a call of the application or a round of [update]; [reachable] the
    worlds that construction and such calls lead to, with transports that deliver
    whatever they like in between. *)

From Stdlib Require Import String.
From S2P Require Import Prelude Registry Float ByteIO Serial Frame Bundle Blob Messages Codec Trust Handshake Raw Crypto Catalog Channel Safety Pairing TrustLedger Session Builtin HubState HubSafety HubJoin HubPairing HubData HubLoop HubFacts HubInv HubSound HubStep.
Local Open Scope Z_scope.

(** ** Timeouts and transports *)

Section loop.
Context {P : Platform} (catalog : BasicCatalog) (A : Effect -> Prop) {HA : Permits A} (tries : nat) (Hdraw : draws_nonzero tries) (Hauth : forall e, authorised catalog e -> A e).

(** A session that is occupied when the computation starts. *)
Lemma keeps_markStale_live i now reason : (i < kSlotCapacity)%nat ->
  keeps A (fun v => forall s, v_slots v !! i = Some s -> sv_state s = HubSessionState.LIVE) (markStale catalog i now reason).
Proof. intros Hi. eapply keeps_weaken; [|by apply keeps_markStale]. cbn. intros v H s Hs. unfold occ. by rewrite (H s Hs). Qed.

Lemma keeps_staleWhen i (c : HubSession.t -> Ownership.table -> bool) now reason : (i < kSlotCapacity)%nat ->
  keeps A anywhere (s ← getSession i; own ← gets Hub.ownership; when (isLive s && c s own) (markStale catalog i now reason)).
Proof.
  intros Hi w Hv _. destruct (view_lookup w i (i_five _ Hv) Hi) as (s & Hs & Hvs). eapply runs_getSession; [done|]. apply runs_gets.
  unfold isLive. case_bool_decide as Hl; cbn [andb]; [|apply runs_ret; split; [done|apply logs_refl]].
  destruct (c _ _); [|apply runs_ret; split; [done|apply logs_refl]]. apply keeps_markStale_live; [done|done|].
  intros s' Hs'. rewrite Hvs in Hs'. by injection Hs' as <-.
Qed.

Lemma keeps_pumpDeadman i now : (i < kSlotCapacity)%nat -> keeps A anywhere (pumpDeadman catalog i now).
Proof.
  intros Hi. unfold pumpDeadman. eapply (keeps_staleWhen i (fun s own => ownsAny (HubSession.session_id s) own && timeReached now (u32 (HubSession.lastRxMs s + HubSession.deadmanMs s))) now 3) in Hi.
  intros w Hv Hp. specialize (Hi w Hv Hp). unfold runs, mbind, M_bind in *. destruct (getSession i w) as [[s w1]|]; [|done]. cbn in *. by rewrite <- andb_assoc.
Qed.

Lemma keeps_pumpIdleReap i now : (i < kSlotCapacity)%nat -> keeps A anywhere (pumpIdleReap catalog i now).
Proof.
  intros Hi. unfold pumpIdleReap. eapply (keeps_staleWhen i (fun s own => negb (ownsAny (HubSession.session_id s) own) && timeReached now (u32 (HubSession.lastRxMs s + kIdleReapMs))) now 4) in Hi.
  intros w Hv Hp. specialize (Hi w Hv Hp). unfold runs, mbind, M_bind in *. destruct (getSession i w) as [[s w1]|]; [|done]. cbn in *. by rewrite <- andb_assoc.
Qed.

Lemma keeps_pumpReadyTimeout i now : (i < kSlotCapacity)%nat -> keeps A anywhere (pumpReadyTimeout catalog i now).
Proof. intros. unfold pumpReadyTimeout. keeps. Qed.
#[local] Hint Resolve keeps_pumpDeadman keeps_pumpIdleReap keeps_pumpReadyTimeout : keeps.

(** ** Dispatch *)

(** A session of the slot is not stale. *)
Definition settled (i : nat) (v : View) : Prop :=
  att i v /\ forall s, v_slots v !! i = Some s -> occ s = true -> holds s = true.

Lemma settled_att i : implies (settled i) (att i).
Proof. by intros v [H _]. Qed.

Lemma keeps_handleFrame i h payload now : (i < kSlotCapacity)%nat -> keeps A (settled i) (handleFrame catalog tries i h payload now).
Proof.
  intros Hi w Hv [Hatt Hset]. unfold handleFrame. destruct (view_lookup w i (i_five _ Hv) Hi) as (s & Hs & Hvs). eapply runs_getSlot; [done|]. cbv zeta.
  assert (K : forall (r : M unit), keeps A (serving i) r -> runs (when (slotOccupied s) r) w (fun _ w' => vinv (view w') /\ logs A w w')).
  { intros r Hr. destruct (slotOccupied s) eqn:Ho; [|apply runs_ret; split; [done|apply logs_refl]]. apply Hr; [done|].
    destruct Hatt as (x & t & Hx & Ht). exists x, t. split_and!; [done|done|]. apply Hset; [done|]. rewrite Hvs in Hx. injection Hx as <-. exact Ho. }
  assert (W : forall (r : M unit), keeps A (att i) r -> keeps A (serving i) r) by (intros r Hr; eapply keeps_weaken; [|exact Hr]; apply serving_att).
  case_match; [by apply keeps_handleHello|].
  repeat (case_match; [apply K; first [ apply (keeps_quiet A); solve [quiet] | solve [eauto 3 with keeps] | apply keeps_any; solve [eauto 3 with keeps] | apply W; solve [eauto 3 with keeps] ]|]).
  apply runs_ret. split; [done|apply logs_refl].
Qed.

Lemma keeps_dispatchFrame i h payload now : (i < kSlotCapacity)%nat -> keeps A (settled i) (dispatchFrame catalog tries i h payload now).
Proof. intros Hi. unfold dispatchFrame. apply (keeps_quiet_bind A); [quiet|intros]. apply (keeps_bind A); [by apply keeps_handleFrame|intros; keeps]. Qed.

Lemma settled_revive i v : att i v -> settled i (v_revive i v).
Proof.
  intros (s & t & Hs & Ht). unfold v_revive. rewrite Hs. case_bool_decide as E.
  - assert (L : v_slots (v_on i (mkSV (sv_transport s) HubSessionState.LIVE (sv_id s) (sv_instance s)) v) !! i = Some (mkSV (sv_transport s) HubSessionState.LIVE (sv_id s) (sv_instance s)))
      by (apply v_slots_on; by eapply lookup_lt_Some).
    split; [by eexists _, t|]. intros x Hx _. rewrite L in Hx. by injection Hx as <-.
  - split; [by exists s, t|]. intros x Hx Ho. rewrite Hs in Hx. injection Hx as <-. unfold holds. rewrite Ho. by rewrite bool_decide_eq_false_2.
Qed.

Lemma runs_received {B} i now (k : unit -> M B) w Q : (i < kSlotCapacity)%nat -> vinv (view w) -> att i (view w) ->
  (forall w', vinv (view w') -> logs A w w' -> settled i (view w') -> runs (k tt) w' Q) -> runs (received i now ≫= k) w Q.
Proof.
  intros Hi Hv Hatt Hk. apply (runs_bind _ _ _ (fun _ w' => view w' = v_revive i (view w) /\ quietly w w')).
  - unfold received. destruct (view_lookup w i (i_five _ Hv) Hi) as (s & Hs & Hvs). eapply runs_getSlot; [done|].
    eapply (runs_quiet anywhere); [quiet|apply Hv|done|]. intros _ w1 E1 Q1. eapply runs_mono; [apply acts_reviveIfStale; [done|rewrite E1; apply Hv]|].
    intros _ w2 [E2 Q2]. split; [by rewrite E2, E1|by eapply quietly_trans].
  - intros [] w1 [E1 Q1]. apply Hk; rewrite ?E1; [by apply vinv_revive| |by apply settled_revive].
    apply (quietly_logs A); [done|rewrite E1; apply still_revive].
Qed.

Lemma keeps_handleBytes i fb now : (i < kSlotCapacity)%nat -> keeps A (att i) (handleBytes catalog tries i fb now).
Proof.
  intros Hi. unfold handleBytes. destruct (isEstop _).
  - destruct (decodeEstop _) as [f|e]; [|keeps]. intros w Hv Hatt. apply runs_received; [done|done|done|]. intros w1 Hv1 L1 _.
    eapply runs_mono; [by apply keeps_handleEstopFrame|]. intros _ w2 [Hv2 L2]. split; [done|by eapply logs_trans].
  - destruct (decodeFrameHeader _) as [h|]; [|keeps]. intros w Hv Hatt. apply runs_received; [done|done|done|]. intros w1 Hv1 L1 Hs1.
    eapply runs_mono; [by apply keeps_dispatchFrame|]. intros _ w2 [Hv2 L2]. split; [done|by eapply logs_trans].
Qed.

(** ** [update] *)

(** What a round does: the frames that wait get fewer. *)
Definition rounds (w w' : World) : Prop :=
  hist A w w' /\ detaches (view w) (view w') /\ forall t, (length (inbox w' t) <= length (inbox w t))%nat.

Lemma rounds_refl w : rounds w w.
Proof. split; [apply hist_refl|]. split; [apply (still_refl (view w))|done]. Qed.

Lemma rounds_trans w1 w2 w3 : rounds w1 w2 -> rounds w2 w3 -> rounds w1 w3.
Proof.
  intros (H1 & D1 & I1) (H2 & D2 & I2). split; [by eapply hist_trans|]. split; [by eapply detaches_trans|].
  intros t. specialize (I1 t). specialize (I2 t). lia.
Qed.

Lemma logs_rounds w w' : logs A w w' -> rounds w w'.
Proof. intros (I & H & D). split; [done|]. split; [done|]. intros t. by rewrite I. Qed.

(** A round per waiting frame is enough. *)
Lemma runs_pumpFrames fuel i now w : (i < kSlotCapacity)%nat -> vinv (view w) ->
  (forall s t, v_slots (view w) !! i = Some s -> sv_transport s = Some t -> (length (inbox w t) < fuel)%nat) ->
  (0 < fuel)%nat ->
  runs (pumpFrames catalog tries fuel i now) w (fun _ w' => vinv (view w') /\ rounds w w'
    /\ forall s t, v_slots (view w') !! i = Some s -> sv_transport s = Some t -> inbox w' t = []).
Proof.
  intros Hi. revert w. induction fuel as [|fuel IH]; intros w Hv Hf Hpos; [lia|]. cbn [pumpFrames].
  destruct (view_lookup w i (i_five _ Hv) Hi) as (s & Hs & Hvs). eapply runs_getSlot; [done|]. destruct (Slot.transport s) as [t|] eqn:Ht.
  2:{ apply runs_ret. split; [done|]. split; [apply rounds_refl|]. intros s' t' Hs' Ht'. rewrite Hvs in Hs'. injection Hs' as <-. cbn in Ht'. congruence. }
  assert (Hlen := Hf _ _ Hvs Ht). unfold runs, mbind, M_bind, read. destruct (inbox w t) as [|fb rest] eqn:Hin.
  { split; [done|]. split; [apply rounds_refl|]. intros s' t' Hs' Ht'. rewrite Hvs in Hs'. injection Hs' as <-. cbn in Ht'. congruence. }
  set (w1 := mkWorld (hub w) (env w) (rng w) (fun u => if (u =? t)%nat then rest else inbox w u) (trace w)).
  assert (R1 : rounds w w1).
  { split; [exists []; by rewrite app_nil_r|]. split; [apply (still_refl (view w))|]. intros u. cbn. destruct (Nat.eqb_spec u t) as [->|]; [rewrite Hin; cbn; lia|done]. }
  assert (K := keeps_handleBytes i fb now Hi w1 Hv (ex_intro _ (slot_view s) (ex_intro _ t (conj Hvs Ht)))). unfold runs in K.
  destruct (handleBytes catalog tries i fb now w1) as [[u w2]|]; [|done]. destruct K as [Hv2 L2].
  assert (Hf2 : forall s' t', v_slots (view w2) !! i = Some s' -> sv_transport s' = Some t' -> (length (inbox w2 t') < fuel)%nat).
  { intros s' t' Hs' Ht'. destruct L2 as (I2 & _ & D2). destruct (D2 i s' Hs') as [?|(s1 & Hs1 & E)]; [congruence|].
    change (v_slots (view w1)) with (v_slots (view w)) in Hs1. rewrite Hvs in Hs1. injection Hs1 as <-. assert (t' = t) as -> by (cbn in E; congruence).
    rewrite I2. cbn. rewrite Nat.eqb_refl. cbn in Hlen. lia. }
  destruct fuel as [|fuel']; [cbn in Hlen; lia|]. assert (G := IH w2 Hv2 Hf2 ltac:(lia)). unfold runs in G.
  destruct (pumpFrames catalog tries (S fuel') i now w2) as [[u' w3]|]; [|done]. destruct G as (Hv3 & R3 & Hin3). split; [done|]. split; [|done].
  eapply rounds_trans; [exact R1|]. eapply rounds_trans; [apply logs_rounds; exact L2|exact R3].
Qed.

Lemma runs_pumpSlot i now w : (i < kSlotCapacity)%nat -> vinv (view w) ->
  runs (pumpSlot catalog tries i now) w (fun _ w' => vinv (view w') /\ rounds w w'
    /\ forall s t, v_slots (view w') !! i = Some s -> sv_transport s = Some t -> inbox w' t = []).
Proof.
  intros Hi Hv. destruct (view_lookup w i (i_five _ Hv) Hi) as (s & Hs & Hvs). unfold runs, pumpSlot. rewrite Hs. cbn [mbind option_bind].
  destruct (Slot.transport s) as [t|] eqn:Ht.
  - apply (runs_pumpFrames (S (length (inbox w t))) i now w Hi Hv); [|lia]. intros s' t' Hs' Ht'. rewrite Hvs in Hs'. injection Hs' as <-. cbn in Ht'.
    rewrite Ht in Ht'. injection Ht' as <-. lia.
  - split; [done|]. split; [apply rounds_refl|]. intros s' t' Hs' Ht'. rewrite Hvs in Hs'. injection Hs' as <-. cbn in Ht'. congruence.
Qed.

Lemma keeps_whenOccupied i m : (i < kSlotCapacity)%nat -> keeps A anywhere m -> keeps A anywhere (whenOccupied i m).
Proof. intros Hi Hm. unfold whenOccupied. apply (keeps_quiet_bind A); [quiet|]. intros s. by apply (keeps_when A). Qed.

Lemma keeps_pushAll i now : (i < kSlotCapacity)%nat ->
  keeps A anywhere (s ← getSlot i; when (slotOccupied s && bool_decide (is_Some (Slot.transport s)))
    (pumpStatePacing catalog i now ;; pumpEventDrain i ;; pumpBlobTransfer catalog i)).
Proof.
  intros Hi w Hv _. destruct (view_lookup w i (i_five _ Hv) Hi) as (s & Hs & Hvs). eapply runs_getSlot; [done|].
  case_bool_decide as Ht; [|rewrite andb_false_r; apply runs_ret; split; [done|apply logs_refl]].
  destruct Ht as [t Ht]. destruct (slotOccupied s); cbn [andb]; [|apply runs_ret; split; [done|apply logs_refl]].
  assert (K : keeps A (att i) (pumpStatePacing catalog i now ;; pumpEventDrain i ;; pumpBlobTransfer catalog i)) by keeps.
  apply K; [done|]. by exists (slot_view s), t.
Qed.

Definition proceeds (m : M unit) : Prop := forall w, vinv (view w) -> runs m w (fun _ w' => vinv (view w') /\ rounds w w').

Lemma proceeds_keeps m : keeps A anywhere m -> proceeds m.
Proof. intros H w Hv. eapply runs_mono; [by apply H|]. intros _ w' [Hv' L]. split; [done|by apply logs_rounds]. Qed.

Lemma proceeds_bind m (k : unit -> M unit) : proceeds m -> (forall a, proceeds (k a)) -> proceeds (mbind k m).
Proof.
  intros Hm Hk w Hv. eapply runs_bind; [by apply Hm|]. intros a w1 [Hv1 R1]. eapply runs_mono; [by apply Hk|].
  intros _ w2 [Hv2 R2]. split; [done|by eapply rounds_trans].
Qed.

Lemma proceeds_each {T} (l : list T) body : (forall x, x ∈ l -> proceeds (body x)) -> proceeds (each l body).
Proof.
  induction l as [|x l IH]; intros H; cbn [each]; [apply proceeds_keeps; keeps|]. eapply proceeds_bind; [apply H; left|]. intros _. apply IH. intros y Hy. apply H. by right.
Qed.

Lemma proceeds_pumpSlot i now : (i < kSlotCapacity)%nat -> proceeds (pumpSlot catalog tries i now).
Proof. intros Hi w Hv. eapply runs_mono; [by apply runs_pumpSlot|]. by intros _ w' (X & Y & _). Qed.

Lemma proceeds_updateSlot now i : (i < kSlotCapacity)%nat -> proceeds (updateSlot catalog tries now i).
Proof.
  intros Hi w Hv. unfold updateSlot. destruct (view_lookup w i (i_five _ Hv) Hi) as (s & Hs & Hvs). eapply runs_getSlot; [done|].
  destruct (Slot.transport s); [|apply runs_ret; split; [done|apply rounds_refl]]. revert w Hv Hs Hvs. intros w Hv _ _.
  revert w Hv. lazymatch goal with |- forall w, vinv (view w) -> runs ?m w _ => change (proceeds m) end.
  apply proceeds_bind; [by apply proceeds_pumpSlot|intros _]. apply proceeds_keeps.
  do 3 (apply (keeps_bind A); [apply keeps_whenOccupied; [done|keeps]|intros _]). by apply keeps_pushAll.
Qed.

Lemma proceeds_update nowUs : proceeds (update catalog tries nowUs).
Proof.
  intros w Hv. unfold update. apply runs_gets. destruct (MonotonicMs.advance nowUs (Hub.monoMs (hub w))) as [now c].
  revert w Hv. lazymatch goal with |- forall w, vinv (view w) -> runs ?m w _ => change (proceeds m) end.
  apply proceeds_bind; [apply proceeds_keeps; keeps|intros _]. apply proceeds_bind; [apply proceeds_keeps; keeps|intros _].
  apply proceeds_each. intros i Hi. by apply proceeds_updateSlot, allSlots_lt.
Qed.
End loop.

(** ** The hub as its application drives it *)

(** The calls of the application and the round of [update]. *)
Inductive call : Type :=
| Attach (t : nat) | Detach (t : nat) | Update (nowUs : Z) | Congestion (t : nat) (level : Z)
| PublishState (ch : Z) (payload : bytes) | PublishEvent (ch : Z) (bs : bytes) | PublishLog (level : Z) (tag message : bytes)
| LatchEstop (cause origin seq : Z) | ClearEstop | SetSafetyModes (manualOverride bypassLimits : bool)
| OpenPairingWindow (pin : bytes) | ClosePairingWindow | OpenPresenceWindow | ClosePresenceWindow
| SetPresenceDefaultRole (r : AccessLevel) | SetKnockApproveEnabled (on : bool) | SetTrustChangeAutoKeepMax (r : AccessLevel)
| SetWallClockSeconds (s : Z) | SetInlineSigning (on : bool) | SignPendingNow (maxJobs : nat) | TakePendingSignJob
| SubmitSignature (sid : Z) (sig : bytes) | SetIdentity (product fwVersion hubName : bytes) | SetHubInstanceId (v : Z)
| SetEndpoint (port ip : Z) | BumpConfigGeneration.

Section driver.
Context {P : Platform} (catalog : BasicCatalog) (tries : nat).
#[local] Abbreviation A := (authorised catalog).

Definition perform (c : call) : M unit :=
  match c with
  | Attach t => _ ← attachTransport catalog t; mret tt
  | Detach t => detachTransport catalog t
  | Update nowUs => update catalog tries nowUs
  | Congestion t level => setCongestionLevelOf t level
  | PublishState ch payload => _ ← publishState ch payload; mret tt
  | PublishEvent ch bs => _ ← publishEvent ch bs; mret tt
  | PublishLog level tag message => _ ← publishLog catalog level tag message; mret tt
  | LatchEstop cause origin seq => latchEstop catalog cause origin seq
  | ClearEstop => _ ← clearEstop catalog; mret tt
  | SetSafetyModes a b => setSafetyModes catalog a b
  | OpenPairingWindow pin => openPairingWindow pin
  | ClosePairingWindow => closePairingWindow
  | OpenPresenceWindow => openPresenceWindow catalog
  | ClosePresenceWindow => closePresenceWindow catalog
  | SetPresenceDefaultRole r => setPresenceDefaultRole r
  | SetKnockApproveEnabled on => setKnockApproveEnabled on
  | SetTrustChangeAutoKeepMax r => setTrustChangeAutoKeepMax r
  | SetWallClockSeconds s => setWallClockSeconds s
  | SetInlineSigning on => setInlineSigning on
  | SignPendingNow n => _ ← signPendingNow n; mret tt
  | TakePendingSignJob => _ ← takePendingSignJob; mret tt
  | SubmitSignature sid sig => _ ← submitSignature sid sig; mret tt
  | SetIdentity p f h => setIdentity p f h
  | SetHubInstanceId v => setHubInstanceId v
  | SetEndpoint port ip => setEndpoint port ip
  | BumpConfigGeneration => bumpConfigGeneration
  end.

(** Between calls the surroundings move on and frames arrive. *)
Inductive reachable : World -> Prop :=
| constructed w enc w' : trace w = [] -> construct catalog tries enc w = Some (tt, w') -> reachable w'
| called w c w' : reachable w -> perform c w = Some (tt, w') -> reachable w'
| surroundings w e r ib : reachable w -> reachable (mkWorld (hub w) e r ib (trace w)).

Context (Hdraw : draws_nonzero tries).

(** A call keeps the invariant and extends the history. *)
Definition sound (m : M unit) : Prop := forall w, vinv (view w) -> runs m w (fun _ w' => vinv (view w') /\ hist A w w').

Lemma sound_keeps m : keeps A anywhere m -> sound m.
Proof. intros H w Hv. eapply runs_mono; [by apply H|]. by intros _ w' (Hv' & _ & Hh & _). Qed.

Lemma vinv_attach i s t v : vinv v -> v_slots v !! i = Some s -> vinv (v_on i (mkSV (Some t) (sv_state s) (sv_id s) (sv_instance s)) v).
Proof. intros Hv Hi. by apply (vinv_shrink i s). Qed.

Lemma runs_openInto i t w : (i < kSlotCapacity)%nat -> vinv (view w) -> runs (openInto i t) w (fun _ w' => vinv (view w') /\ hist A w w').
Proof.
  intros Hi Hv. unfold openInto. eapply (runs_quiet anywhere); [quiet|apply Hv|done|]. intros ok w1 E1 Q1.
  assert (L1 : logs A w w1) by (apply (quietly_logs A); [done|by rewrite E1]). rewrite <- E1 in Hv.
  destruct ok; cbn [negb]; [|apply runs_ret; split; [done|apply L1]].
  destruct (view_lookup w1 i (i_five _ Hv) Hi) as (s & Hs & Hvs).
  eapply (runs_modifySlot i (slot_view s) _ (fun x => mkSV (Some t) (sv_state x) (sv_id x) (sv_instance x))); [done|done|]. intros w2 E2 Q2.
  apply runs_ret. rewrite E2. split; [by apply vinv_attach|]. eapply hist_trans; [apply L1|]. destruct Q2 as (_ & tr & Etr & Ftr). exists tr.
  split; [done|]. rewrite E2. split; [by apply replay_neutral|by apply (neutral_permitted A)].
Qed.

Lemma sound_attachTransport t : sound (_ ← attachTransport catalog t; mret tt).
Proof.
  intros w Hv. apply (runs_bind _ _ _ (fun _ w' => vinv (view w') /\ hist A w w')); [|by intros a w' H].
  unfold attachTransport. apply runs_gets. destruct (findSlot _ (hub w)) as [i|] eqn:E.
  - apply hub_findSlot_Some in E as (s & Hs & _). apply runs_openInto; [by eapply slot_lt; [apply Hv|]|done].
  - apply runs_gets. destruct (findEvictableStale None (hub w)) as [j|] eqn:F; [|apply runs_ret; split; [done|apply hist_refl]].
    apply findEvictableStale_Some in F as (s & Hs & _). assert (Hj := slot_lt w j s (i_five _ Hv) Hs).
    eapply (runs_keeps A anywhere _ w); [by apply (keeps_closeTransport A)|done|done|apply logs_refl|]. intros _ w1 Hv1 L1.
    eapply (runs_keeps A anywhere _ w); [apply (keeps_quiet A); quiet|done|done|exact L1|]. intros now w2 Hv2 L2.
    eapply (runs_keeps A anywhere _ w); [by apply (keeps_teardown catalog A)|done|done|exact L2|]. intros _ w3 Hv3 L3.
    eapply runs_mono; [by apply runs_openInto|]. intros _ w4 [Hv4 H4]. split; [done|]. eapply hist_trans; [apply L3|done].
Qed.

Lemma attachedSlotFor_lt t w i : five (view w) -> attachedSlotFor t (hub w) = Some i -> (i < kSlotCapacity)%nat.
Proof. intros H5 (s & Hs & _)%hub_findSlot_Some. by eapply slot_lt. Qed.

Lemma sound_detachTransport t : sound (detachTransport catalog t).
Proof.
  intros w Hv. unfold detachTransport. apply runs_gets. destruct (attachedSlotFor t (hub w)) as [i|] eqn:E; [|apply runs_ret; split; [done|apply hist_refl]].
  apply attachedSlotFor_lt in E; [|apply Hv]. assert (K : keeps A anywhere (now ← nowMs; parkAndDetach catalog i now)) by keeps.
  by apply (sound_keeps _ K).
Qed.

Lemma quiet_setCongestionLevelOf t level : quiet anywhere (setCongestionLevelOf t level).
Proof. unfold setCongestionLevelOf, setCongestionLevel. quiet. Qed.

Lemma sound_perform c : sound (perform c).
Proof.
  destruct c; cbn [perform];
    try (apply sound_keeps; unfold openPairingWindow, closePairingWindow, setPresenceDefaultRole, setKnockApproveEnabled,
           setTrustChangeAutoKeepMax, setWallClockSeconds, setInlineSigning, signPendingNow, setIdentity, setHubInstanceId, setEndpoint,
           bumpConfigGeneration, publishState; solve [keeps]).
  - apply sound_attachTransport.
  - apply sound_detachTransport.
  - intros w Hv. eapply runs_mono; [by apply (proceeds_update catalog A tries Hdraw ltac:(done))|]. by intros _ w' (X & Y & _).
  - apply sound_keeps, (keeps_quiet A), quiet_setCongestionLevelOf.
Qed.

Lemma vinv_fresh enc : vinv (hub_view (fresh enc)).
Proof.
  assert (F : forall i x, v_slots (hub_view (fresh enc)) !! i = Some x -> occ x = false).
  { intros i x H. change (replicate kSlotCapacity (slot_view Slot.init) !! i = Some x) in H. apply lookup_replicate in H as [-> _]. done. }
  split.
  - done.
  - intros i x Hx Ho. by rewrite (F i x Hx) in Ho.
  - intros i j x y Hx _ Ho. by rewrite (F i x Hx) in Ho.
  - change (occupied_in (replicate kSlotCapacity (slot_view Slot.init)) <= kHubMaxSessions)%nat. vm_compute. lia.
  - intros sid (e & He & Hu & _). change (e ∈ replicate Ownership.kMaxSources Ownership.noEntry) in He. apply elem_of_replicate in He as [-> _]. done.
Qed.

Lemma keeps_afterFresh : keeps A anywhere (
  boot ← drawNonZero tries;
  modify (fun h => h{{Hub.bootId := boot}}) ;;
  when (declared catalog channels.safety) publishSafetySnapshot ;;
  match Catalog.find channels.paired_devices catalog ≫= fun e => storeDescriptor e catalog with
  | Some sd => modify (fun h => h{{Hub.pairedStoreId := StoreDescriptor.storeId sd; Hub.hasPairedStore := true}})
  | None => mret tt
  end ;;
  publishPendingPairingState catalog 0 ;;
  publishPairedRosterState catalog).
Proof. apply (keeps_quiet_bind A); [by apply quiet_drawNonZero|]. keeps. Qed.

Lemma runs_construct enc w : trace w = [] ->
  runs (construct catalog tries enc) w (fun _ w' => vinv (view w') /\ replay false (trace w') = Some (estopLatched (hub w'))
                                                    /\ Forall (authorised catalog) (trace w')).
Proof.
  intros Ht. unfold construct. apply runs_modify. set (w1 := with_hub (fresh enc) w).
  eapply runs_mono; [apply (keeps_afterFresh w1 (vinv_fresh enc) I)|]. intros _ w2 (Hv2 & _ & (tr & Etr & Hr & Ha) & _). split; [done|].
  change (trace w1) with (trace w) in Etr. rewrite Ht in Etr. rewrite Etr. split; [exact Hr|exact Ha].
Qed.

(** What holds of every reachable world. *)
Lemma reachable_good w : reachable w ->
  vinv (view w) /\ replay false (trace w) = Some (estopLatched (hub w)) /\ Forall (authorised catalog) (trace w).
Proof.
  induction 1 as [w enc w' Ht E|w c w' _ IH E|w e r ib _ IH].
  - assert (R := runs_construct enc w Ht). unfold runs in R. by rewrite E in R.
  - destruct IH as (Hv & Hr & Ha). assert (R := sound_perform c w Hv). unfold runs in R. rewrite E in R. destruct R as (Hv' & tr & Etr & Hr' & Ha').
    split; [done|]. rewrite Etr, replay_app, Hr. split; [exact Hr'|by apply Forall_app].
  - exact IH.
Qed.
End driver.

Lemma count_all l n : length (List.filter (fun '(i, s) => isNot None i && slotOccupied s) (zip (seq n (length l)) l)) = occupied_in (slot_view <$> l).
Proof.
  revert n. induction l as [|s l IH]; intros n; [done|]. cbn [length seq zip zip_with List.filter isNot andb]. rewrite fmap_cons, occupied_cons, <- (IH (S n)).
  change (occ (slot_view s)) with (slotOccupied s). by destruct (slotOccupied s).
Qed.

(** ** What the hub guarantees *)

(** C1. The hub never gets stuck. However its transports, its application and its
    clients behave, in every state it can be in every call of the application and
    every round of [update] returns: no null transport is dereferenced, no slot
    index is out of range and every loop ends, the reading loop of [pumpSlot]
    included. The one assumption is that the random generator does not return
    zero [tries] times in a row. *)
Theorem hub_never_stuck {P : Platform} catalog tries w c :
  draws_nonzero tries -> reachable catalog tries w -> exists w', perform catalog tries c w = Some (tt, w').
Proof.
  intros Hd Hr. destruct (reachable_good catalog tries Hd w Hr) as (Hv & _). assert (R := sound_perform catalog tries Hd c w Hv). unfold runs in R.
  destruct (perform catalog tries c w) as [[[] w']|]; [by exists w'|done].
Qed.

(** C2. The sessions of the hub. In every state it can be in there are at most four
    sessions, each has a non-zero id, no two are of the same client instance, and
    a source of motion is only ever owned by a session that is present and not
    stale: whoever went silent, was parked or was torn down owns nothing. *)
Theorem hub_sessions_sound {P : Platform} catalog tries w :
  draws_nonzero tries -> reachable catalog tries w ->
  (sessionCount (hub w) <= kHubMaxSessions)%nat
  /\ (forall i s, Hub.slots (hub w) !! i = Some s -> slotOccupied s = true -> HubSession.session_id (Slot.session s) <> 0)
  /\ (forall i j s t, Hub.slots (hub w) !! i = Some s -> Hub.slots (hub w) !! j = Some t -> slotOccupied s = true -> slotOccupied t = true ->
        HubSession.instance_id (Slot.session s) = HubSession.instance_id (Slot.session t) -> i = j)
  /\ (forall e, e ∈ Hub.ownership (hub w) -> Ownership.used e = true -> Ownership.owner e <> 0 ->
        exists i s, Hub.slots (hub w) !! i = Some s /\ slotOccupied s = true /\ isStale s = false
                   /\ HubSession.session_id (Slot.session s) = Ownership.owner e).
Proof.
  intros Hd Hr. destruct (reachable_good catalog tries Hd w Hr) as (Hv & _). split_and!.
  - unfold sessionCount, occupiedCount. rewrite count_all. apply (i_cap _ Hv).
  - intros i s Hs Ho. apply (i_id _ Hv i (slot_view s)); [by apply view_slot|done].
  - intros i j s t Hs Ht Ho Hot E. apply (i_one _ Hv i j (slot_view s) (slot_view t)); [by apply view_slot|by apply view_slot|done|done|done].
  - intros e He Hu Hz. destruct (i_owner _ Hv (Ownership.owner e)) as (i & sv & Hi & Hh & Hid); [by exists e|done|].
    destruct (slot_of_view _ _ _ Hi) as (s & Hs & <-). exists i, s. rewrite holds_slot in Hh. apply andb_true_iff in Hh as [Ho Hst]. by apply negb_true_iff in Hst.
Qed.

(** C3. The emergency stop. Replaying the hub's effects from a clear latch gives the
    latch it is in: [onEstop] is called exactly when the latch rises, never while
    it is set; the latch falls only when [canClearEstop] was asked while it was
    set, and said yes. Nothing else, no frame, intent, timeout or reconnection,
    clears it. *)
Theorem hub_estop_latch {P : Platform} catalog tries w :
  draws_nonzero tries -> reachable catalog tries w -> replay false (trace w) = Some (estopLatched (hub w)).
Proof. intros Hd Hr. by destruct (reachable_good catalog tries Hd w Hr) as (_ & H & _). Qed.


(** The intent, as it was applied. *)
Definition gated (e : Effect) (ok : Prop) (x : Effect) : Prop := match x with ApplyIntent _ _ _ => ok /\ x = e | _ => True end.

#[export] Instance gated_permits e ok : Permits (gated e ok).
Proof. by intros []. Qed.

(** C5. Exactly the admitted intents are applied. On a session that is present, an
    INTENT frame that decodes asks the application, with the values and the role
    of the session, exactly when it is within the rate limit, the session is
    ready, the intent was not answered before, its channel takes intents and the
    role covers what it touches, its precondition names the configuration in
    force, the hub does not handle it itself, and the source the channel drives,
    if it drives one, is free, the session's own, or may be taken over. In every
    case the handler returns. *)
Theorem intent_applied_iff {P : Platform} catalog tries w i s m payload now :
  draws_nonzero tries -> reachable catalog tries w ->
  Hub.slots (hub w) !! i = Some s -> slotOccupied s = true -> isStale s = false -> is_Some (Slot.transport s) ->
  decodeIntent payload = Ok m ->
  exists w' tr, handleIntent catalog i payload now w = Some (tt, w') /\ trace w' = trace w ++ tr
    /\ (accepted catalog w s m now -> applied s m ∈ tr)
    /\ forall ch vals role, ApplyIntent ch vals role ∈ tr -> accepted catalog w s m now /\ ApplyIntent ch vals role = applied s m.
Proof.
  intros Hd Hr Hs Ho Hst [t Ht] Hm. destruct (reachable_good catalog tries Hd w Hr) as (Hv & _).
  assert (R := runs_handleIntent catalog (gated (applied s m) (accepted catalog w s m now)) i s m payload now w (slot_lt w i s (i_five _ Hv) Hs) Hv).
  unfold runs in R. destruct (handleIntent catalog i payload now w) as [[[] w']|].
  - destruct R as (_ & (_ & (tr & Etr & _ & Ha) & _) & Happ); [exists (slot_view s), t; split_and!; [by apply view_slot|done|]; by rewrite holds_slot, Ho, Hst|done|done|by intros H|].
    exists w', tr. split; [done|]. split; [done|]. split.
    + intros Hacc. destruct (Happ Hacc) as (tr1 & tr2 & E). rewrite Etr in E. apply app_inv_head in E. rewrite E. apply elem_of_app. right. left.
    + intros ch vals role Hin. rewrite Forall_forall in Ha. exact (Ha _ Hin).
  - destruct R; [exists (slot_view s), t; split_and!; [by apply view_slot|done|]; by rewrite holds_slot, Ho, Hst|done|done|by intros H].
Qed.


(** ** A bench

    A concrete platform, catalog and history: a transport is attached, a client
    says HELLO, drives the one source, streams, and stops the machine. The transports
    take what they are given, the application accepts every intent, and the
    generator is the reference one with its low bit set, which never draws zero. *)

Definition bench : Platform := {|
  Env := Z;
  t_open _ e := (true, e); t_write _ _ e := (true, e); t_mtu _ _ := 512; clk_nowUs e := (e, e);
  d_validateToken _ _ _ e := (control, e);
  d_applyIntent _ vals _ e := ((Ok vals, false), e);
  d_sourceForChannel ch e := ((if ch =? 0x0300 then Some 0 else None), e);
  d_canClearEstop e := (true, e);
  d_effectiveCurveFamily _ f e := (f, e);
  d_readBlob _ _ _ e := (None, e);
  d_react _ e := e;
  Rng := Z; Rng_IRandom := XorShift32_IRandom;
  nextU32 s := let x := XorShift32.nextU32 s in (Z.lor x 1, x);
  Cry := unit; Cry_ICrypto := SoftwareCrypto_ICrypto; crypto := tt;
  signP256 _ := (0%nat, []); publicKey := (0%nat, []) |}.
#[local] Existing Instance bench.

Lemma bench_draws : draws_nonzero 1.
Proof.
  intros r. exists 0%nat. split; [lia|]. cbn -[XorShift32.nextU32]. intros H. apply (f_equal (fun z => Z.testbit z 0)) in H.
  rewrite Z.lor_spec, orb_comm in H. discriminate.
Qed.

Definition bench_moves : CatalogEntry.t :=
  CatalogEntry.init{{CatalogEntry.id := 0x0300; CatalogEntry.cls := INTENT; CatalogEntry.dir := c2h; CatalogEntry.access := watch}}.
(** Option 0 takes [watch], the others [control]. *)
Definition bench_modes (c : BasicCatalog) : BasicCatalog :=
  snd (c32_addSelectSchemaField (schemaField 1 (text "mode") CborFieldType.uint_t []) (text <$> ["stop"; "slow"; "fast"]%string) [watch; control; control] c).
Definition bench_setpoints : CatalogEntry.t :=
  CatalogEntry.init{{CatalogEntry.id := 0x0400; CatalogEntry.cls := STREAM; CatalogEntry.dir := c2h; CatalogEntry.access := control;
                     CatalogEntry.maxRateHz := 0x41A00000}}.
Definition bench_catalog : BasicCatalog :=
  let c := bench_modes (snd (c32_addEntry bench_moves (snd (addTrustChannels 1 (snd (addSafetyEventsChannel emptyCatalog)))))) in
  snd (c32_addLayoutField (layoutField (text "level") PackedFieldType.u8 []) (snd (c32_addEntry bench_setpoints c))).
Definition bench_frame (ty ch : Z) (p : bytes) : FrameBuffer.t :=
  FrameBuffer.from (snd (encodeFrameHeader (mkFrameHeader ty 0 ch 7 (Z.of_nat (length p))) (replicate 8 0)) ++ p).
Definition bench_hello : bytes :=
  let '(n, b) := Hello.encodeHello (Hello.none{{Hello.client_kind := [97]; Hello.client_name := [98]; Hello.has_catalog_etag := true;
                                               Hello.publishes := [PublishWish.none{{PublishWish.channel_id := 0x0400; PublishWish.rate_hz := 0x41200000}}];
                                               Hello.catalog_etag := take limits.etag_bytes (Sha256.hash [])}}) (replicate 400 0) in take n b.
Definition bench_msg : IntentMsg := mkIntent 0x0300 5 [mkField 1 (U64 2)] false 0 false false.
Definition bench_intent : bytes := let '(n, b) := encodeIntent bench_msg (replicate 100 0) in take n b.
Definition bench_estop : FrameBuffer.t := FrameBuffer.from (snd (encodeEstop (mkEstopFrame 2 1 9) (replicate kEstopFrameBytes 0))).

Definition bench_run (m : M unit) (w : World) : World := match m w with Some (_, w') => w' | None => w end.
Definition bench_ok (m : M unit) (w : World) : bool := match m w with Some _ => true | None => false end.
Definition bench_deliver (fbs : list FrameBuffer.t) (w : World) : World :=
  mkWorld (hub w) (env w) (rng w) (fun t => if (t =? 4)%nat then fbs else []) (trace w).
Definition bench_step (w : World) (c : call) : World := bench_run (perform bench_catalog 1 c) w.

Definition bench_off : World := mkWorld (fresh []) 0 1 (fun _ => []) [].
Definition bench_start : World := bench_run (construct bench_catalog 1 []) bench_off.
Definition bench_joined : World := bench_step (bench_deliver [bench_frame FrameType.HELLO 0 bench_hello] (bench_step bench_start (Attach 4))) (Update 5000).
Definition bench_moved : World := bench_step (bench_deliver [bench_frame FrameType.INTENT 0 bench_intent] bench_joined) (Update 9000).
Definition bench_stopped : World := bench_step (bench_deliver [bench_estop] bench_moved) (Update 12000).
Definition bench_slot (w : World) : Slot.t := default Slot.init (Hub.slots (hub w) !! 0%nat).

Lemma bench_called w c : reachable bench_catalog 1 w -> bench_ok (perform bench_catalog 1 c) w = true ->
  reachable bench_catalog 1 (bench_step w c).
Proof.
  intros Hr Hok. apply (called bench_catalog 1 w c); [exact Hr|]. unfold bench_step, bench_run, bench_ok in *.
  destruct (perform bench_catalog 1 c w) as [[[] w']|]; [done|discriminate].
Qed.

Lemma bench_delivered w fbs : reachable bench_catalog 1 w -> reachable bench_catalog 1 (bench_deliver fbs w).
Proof. apply surroundings. Qed.

Lemma bench_started : reachable bench_catalog 1 bench_start.
Proof.
  assert (Hok : bench_ok (construct bench_catalog 1 []) bench_off = true) by (vm_compute; reflexivity).
  eapply (constructed bench_catalog 1 bench_off []); [done|]. unfold bench_start, bench_run, bench_ok in *.
  destruct (construct bench_catalog 1 [] bench_off) as [[[] w']|]; [done|discriminate].
Qed.

Lemma bench_joined_reachable : reachable bench_catalog 1 bench_joined.
Proof.
  apply bench_called; [apply bench_delivered, bench_called; [apply bench_started|]|]; vm_compute; reflexivity.
Qed.

Lemma bench_moved_reachable : reachable bench_catalog 1 bench_moved.
Proof. apply bench_called; [apply bench_delivered, bench_joined_reachable|vm_compute; reflexivity]. Qed.


Lemma bench_stopped_reachable : reachable bench_catalog 1 bench_stopped.
Proof. apply bench_called; [apply bench_delivered, bench_moved_reachable|vm_compute; reflexivity]. Qed.

Lemma hub_never_stuck_witness : exists w', perform bench_catalog 1 (Update 7000) bench_stopped = Some (tt, w').
Proof. apply hub_never_stuck; [exact bench_draws|exact bench_stopped_reachable]. Defined.

Lemma hub_sessions_sound_witness : sessionCount (hub bench_moved) = 1%nat /\ (sessionCount (hub bench_moved) <= kHubMaxSessions)%nat.
Proof.
  split; [vm_compute; reflexivity|]. apply (hub_sessions_sound bench_catalog 1 bench_moved); [exact bench_draws|exact bench_moved_reachable].
Defined.

Lemma hub_estop_latch_witness : estopLatched (hub bench_stopped) = true /\ replay false (trace bench_stopped) = Some (estopLatched (hub bench_stopped)).
Proof.
  split; [vm_compute; reflexivity|]. apply (hub_estop_latch bench_catalog 1); [exact bench_draws|exact bench_stopped_reachable].
Defined.


Lemma intent_applied_iff_witness : exists w' tr,
  handleIntent bench_catalog 0 bench_intent 6 bench_joined = Some (tt, w') /\ trace w' = trace bench_joined ++ tr
  /\ applied (bench_slot bench_joined) bench_msg ∈ tr.
Proof.
  destruct (intent_applied_iff bench_catalog 1 bench_joined 0 (bench_slot bench_joined) bench_msg bench_intent 6) as (w' & tr & H1 & H2 & H3 & _).
  - exact bench_draws.
  - exact bench_joined_reachable.
  - vm_compute. reflexivity.
  - vm_compute. reflexivity.
  - vm_compute. reflexivity.
  - vm_compute. eexists. reflexivity.
  - vm_compute. reflexivity.
  - exists w', tr. split; [exact H1|]. split; [exact H2|]. apply H3. split; vm_compute; [reflexivity|discriminate].
Defined.

