(* ===== verification/ClientState.v ===== *)
(** * ClientState: the client

    client/client.hpp and client_impl.hpp. A client keeps one session with a hub:
    it says HELLO, adopts the WELCOME, fetches the catalog when its own is out of
    date, shadows the channels it subscribes to, sends intents and awaits their
    answers, repeats an emergency stop until it is confirmed, and may authenticate
    the hub. *)

From S2P Require Import Prelude Registry Float ByteIO Serial Frame Blob Messages Codec Trust Handshake Raw Crypto.
From S2P Require Import Channel Safety Session.
Local Open Scope Z_scope.

Module HubAuthState.
Inductive t : Set := NotRequested | Unverifiable | Pending | Verified | Mismatch | Timeout.

#[global] Instance eq_dec : EqDecision t.
Proof. solve_decision. Defined.
End HubAuthState.

#[global] Instance ClientSessionState_eq_dec : EqDecision ClientSessionState.
Proof. solve_decision. Defined.

(** ** Surroundings *)

(** What the client does to the outside, in order. *)
Inductive ClientEffect : Type :=
| Wrote (frame : bytes) (ok : bool)
| ClosedTransport
| OnStateChange (s : ClientSessionState)
| OnState (ch seq : Z) (payload : bytes)
| OnEcho (intent_id : Z) (applied : list IntentValueField) (cfg_gen : Z)
| OnNack (n : NackMsg)
| OnEvent (ch : Z) (payload : bytes)
| OnPendingDropped (intent_id : Z)
| OnPairGrant (token : bytes) (roles : Z)
| OnHubAuth (s : HubAuthState.t)
| OnHubPublicKey (key : bytes)
| OnRolesChanged (roles : Z).

Class ClientPlatform := {
  CEnv : Type;
  (** ITransport *)
  ct_open : CEnv -> bool * CEnv;
  ct_write : bytes -> CEnv -> bool * CEnv;
  (** IClock *)
  cclk_nowUs : CEnv -> Z * CEnv;
  (** ClientDelegate *)
  cd_react : ClientEffect -> CEnv -> CEnv;
  (** IRandom *)
  CRng : Type;
  #[global] CRng_IRandom :: IRandom CRng;
  (** ICrypto, with the P-256 seam *)
  CCry : Type;
  #[global] CCry_ICrypto :: ICrypto CCry;
  ccrypto : CCry;
  verifyP256 : bytes -> bytes -> bytes -> bool;
}.

(** ** State *)

Module Wish.
Record t := mk { channel_id : Z; rate_hz : Z; priority : Priority }.
End Wish.

Module GrantEntry.
Record t := mk { channel_id : Z; rate_hz : Z; priority : Z; valid : bool }.
Definition none : t := mk 0 0 0 false.
End GrantEntry.

Module ShadowEntry.
Record t := mk { channel_id : Z; used : bool; slot : StateApply.ShadowSlot }.
Definition none : t := mk 0 false StateApply.emptySlot.
End ShadowEntry.

Definition kMaxWishes : nat := 16.
Definition kMaxPendingIntents : nat := 8.
Definition kMaxShadowSlots : nat := 16.
Definition kMaxGrants : nat := 16.
Definition kCatalogMaxChunks : nat := 64.

Module Client.
Record t := mk {
  ident : ClientIdentity; monoMs : MonotonicMs.t; state : ClientSessionState; wishes : list Wish.t;
  cachedEtag : bytes; hubEtag : bytes; sessionId : Z; bootId : Z; cfgGen : Z; roles : Z;
  grants : list GrantEntry.t; shadows : list ShadowEntry.t; requiredRetained : Z; adoptedCount : Z;
  catalogReady : bool; chunkReassembler : ChunkReassembler; catalogChunkCount : Z; catalogReqSentCount : Z;
  readyEtag : bytes; readyPending : bool; lastReadySendMs : Z; readyAttempts : Z;
  pending : list Z; nextIntentId : Z; lastRxMs : Z; lastTxMs : Z; holdingSource : bool;
  estopActive : bool; estopSendFailed : bool; estopCause : Z; estopSentSeq : Z; estopNextSeq : Z; estopAttempts : Z;
  lastEstopSendMs : Z; nonce : bytes; clientVer : option bytes; clientNonce : bytes; sigRequested : bool;
  hubPubkey : bytes; hubPubkeyLen : Z; hubAuth : HubAuthState.t; sigDeadlineMs : Z; presentationMode : Z;
  probeActive : bool; probeStartMs : Z; probeBytesReceived : Z; probeFramesReceived : Z; probeMaxIndexSeen : Z;
  probeAnyIndexSeen : bool }.

Definition noEtag : bytes := replicate limits.etag_bytes 0.

(** The constructor. *)
Definition init (id : ClientIdentity) : t :=
  mk id MonotonicMs.fresh CLOSED []
    noEtag noEtag 0 0 0 (access_u8 watch)
    (replicate kMaxGrants GrantEntry.none) (replicate kMaxShadowSlots ShadowEntry.none) 0 0
    true (newReassembler kCatalogMaxChunks) 0 0
    noEtag false 0 0
    [] 1 0 0 false
    false false 0 0 1 0
    0 (replicate kWelcomeNonceBytes 0) None (replicate kTrustClientNonceBytes 0) false
    (replicate kTrustPubkeyMaxBytes 0) 0 HubAuthState.NotRequested 0 presentation_modes.bearer
    false 0 0 0 0 false.
End Client.

Section client.
Context {P : ClientPlatform}.

Record ClientWorld := mkClientWorld { client : Client.t; cenv : CEnv; crng : CRng; ctrace : list ClientEffect }.

(** ** Computations *)

Definition CM (A : Type) : Type := ClientWorld -> A * ClientWorld.

#[global] Instance CM_ret : MRet CM := fun A a w => (a, w).
#[global] Instance CM_bind : MBind CM := fun A B k m w => let '(a, w) := m w in k a w.
#[global] Instance CM_fmap : FMap CM := fun A B f m w => let '(a, w) := m w in (f a, w).

Definition cwhen (b : bool) (m : CM unit) : CM unit := if b then m else mret tt.
Definition cgets {A} (f : Client.t -> A) : CM A := fun w => (f (client w), w).
Definition cmodify (f : Client.t -> Client.t) : CM unit :=
  fun w => (tt, mkClientWorld (f (client w)) (cenv w) (crng w) (ctrace w)).
Definition cask {A} (q : CEnv -> A * CEnv) : CM A :=
  fun w => let '(a, e) := q (cenv w) in (a, mkClientWorld (client w) e (crng w) (ctrace w)).
Definition crecord (e : ClientEffect) : CM unit :=
  fun w => (tt, mkClientWorld (client w) (cenv w) (crng w) (ctrace w ++ [e])).
Definition cnotify (e : ClientEffect) : CM unit := crecord e ;; cask (fun v => (tt, cd_react e v)).
Definition crandom {A} (f : CRng -> A * CRng) : CM A :=
  fun w => let '(a, r) := f (crng w) in (a, mkClientWorld (client w) (cenv w) r (ctrace w)).
Fixpoint ceach {A} (l : list A) (body : A -> CM unit) : CM unit :=
  match l with [] => mret tt | x :: l => body x ;; ceach l body end.

Definition cnowMs : CM Z := (fun us => us / 1000) <$> cask cclk_nowUs.

(** ** Sending *)

Definition writeOut (frame : bytes) : CM bool :=
  ok ← cask (ct_write frame); crecord (Wrote frame ok) ;; mret ok.

Definition sendFrame (type channel : Z) (payload : bytes) : CM bool :=
  let h := mkFrameHeader type 0 channel 0 (u16 (Z.of_nat (length payload))) in
  let '(pos, buf) := encodeFrameHeader h (replicate kFrameBufferCapacity 0) in
  if (pos =? 0)%nat then mret false
  else if (length buf - pos <? length payload)%nat then mret false
  else
    ok ← writeOut (take (pos + length payload) (write_at pos payload buf));
    (if (ok : bool) then now ← cnowMs; cmodify (fun c => c{{Client.lastTxMs := now}}) else mret tt) ;;
    mret ok.

(** Send what an encoder wrote, if it wrote anything. *)
Definition sendEncoded (type channel : Z) (r : nat * bytes) : CM bool :=
  let '(n, buf) := r in if (n =? 0)%nat then mret false else sendFrame type channel (take n buf).

Definition setState (s : ClientSessionState) : CM unit :=
  cmodify (fun c => c{{Client.state := s}}) ;; cnotify (OnStateChange s).

Definition setHubAuth (s : HubAuthState.t) : CM unit :=
  a ← cgets Client.hubAuth;
  if bool_decide (a = s) then mret tt
  else cmodify (fun c => c{{Client.hubAuth := s}}) ;; cnotify (OnHubAuth s).

Definition flushPending : CM unit :=
  l ← cgets Client.pending;
  ceach l (fun id => cnotify (OnPendingDropped id)) ;;
  cmodify (fun c => c{{Client.pending := [] }}).

(** ** Settings *)

Definition addSubscriptionWish (ch rate_hz : Z) (prio : Priority) : CM bool :=
  ws ← cgets Client.wishes;
  if (kMaxWishes <=? length ws)%nat then mret false
  else cmodify (fun c => c{{Client.wishes := ws ++ [Wish.mk ch rate_hz prio] }}) ;; mret true.

Definition setCachedEtag (etag : bytes) : CM unit := cmodify (fun c => c{{Client.cachedEtag := etag}}).
Definition setClientVersion (ver : option bytes) : CM unit := cmodify (fun c => c{{Client.clientVer := ver}}).
Definition requestHubSignature (on : bool) : CM unit := cmodify (fun c => c{{Client.sigRequested := on}}).
Definition setTokenPresentationMode (mode : Z) : CM unit := cmodify (fun c => c{{Client.presentationMode := mode}}).

Definition setHubPublicKey (key : bytes) : CM unit :=
  cmodify (fun c =>
    if (length key =? 0)%nat || (length (Client.hubPubkey c) <? length key)%nat then c{{Client.hubPubkeyLen := 0}}
    else c{{Client.hubPubkey := write_at 0 key (Client.hubPubkey c); Client.hubPubkeyLen := u8 (Z.of_nat (length key))}}).

Definition hubPublicKey (c : Client.t) : bytes := take (Z.to_nat (Client.hubPubkeyLen c)) (Client.hubPubkey c).

(** ** Connecting *)

Definition isAllZero (b : bytes) : bool := forallb (fun x => x =? 0) b.

(** The members a new connection starts from. *)
Definition resetConnection (c : Client.t) : Client.t :=
  c{{Client.sessionId := 0; Client.cfgGen := 0;
     Client.grants := replicate kMaxGrants GrantEntry.none;
     Client.shadows := replicate kMaxShadowSlots ShadowEntry.none;
     Client.requiredRetained := 0; Client.adoptedCount := 0; Client.catalogReady := true;
     Client.chunkReassembler := newReassembler kCatalogMaxChunks; Client.catalogChunkCount := 0;
     Client.readyPending := false; Client.readyAttempts := 0;
     Client.estopActive := false; Client.estopSendFailed := false; Client.holdingSource := false;
     Client.hubAuth := HubAuthState.NotRequested; Client.sigDeadlineMs := 0}}.

Definition proofMode (c : Client.t) : bool :=
  (Client.presentationMode c =? presentation_modes.proof) && ci_hasToken (Client.ident c).

Definition subscriptionWish (w : Wish.t) : SubscriptionWish.t :=
  SubscriptionWish.mk (Wish.channel_id w) (Wish.rate_hz w) (priority_u8 (Wish.priority w)).

Definition helloTrust (c : Client.t) : TrustMap.t :=
  let tm := TrustMap.none in
  let tm := match Client.clientVer c with
            | Some v => tm{{TrustMap.has_client_ver := true; TrustMap.client_ver := v}}
            | None => tm
            end in
  let tm := if negb (Client.presentationMode c =? 0)
            then tm{{TrustMap.has_presentation_mode := true; TrustMap.presentation_mode := Client.presentationMode c}} else tm in
  if Client.sigRequested c
  then tm{{TrustMap.has_client_nonce := true; TrustMap.client_nonce := Client.clientNonce c;
           TrustMap.has_sig_request := true; TrustMap.sig_request := true}} else tm.

Definition hello (c : Client.t) : Hello.t :=
  let id := Client.ident c in
  Hello.mk kProtocolVersion (ci_client_kind id) (ci_client_name id) (ci_instance_id id)
    (ci_hasToken id && negb (proofMode c)) (ci_token id)
    (negb (isAllZero (Client.cachedEtag c))) (Client.cachedEtag c)
    (subscriptionWish <$> Client.wishes c) []
    (match Client.clientVer c with Some _ => true | None => false end || negb (Client.presentationMode c =? 0) || Client.sigRequested c)
    (helloTrust c) 0.

Definition connect : CM bool :=
  flushPending ;;
  ok ← cask ct_open;
  if negb ok then mret false
  else
    cmodify resetConnection ;;
    sig ← cgets Client.sigRequested;
    cwhen sig
      (nonce ← crandom (fun r => fill r kTrustClientNonceBytes);
       cmodify (fun c => c{{Client.clientNonce := nonce}}) ;;
       len ← cgets Client.hubPubkeyLen;
       setHubAuth (if 0 <? len then HubAuthState.Pending else HubAuthState.Unverifiable)) ;;
    c ← cgets id;
    ok ← sendEncoded FrameType.HELLO 0 (Hello.encodeHello (hello c) (replicate 700 0));
    if negb ok then mret false
    else
      auth ← cgets Client.hubAuth;
      cwhen (bool_decide (auth = HubAuthState.Pending))
        (now ← cnowMs; cmodify (fun c => c{{Client.sigDeadlineMs := u32 (now + limits.hub_sig_timeout_ms)}})) ;;
      setState HELLO_SENT ;;
      mret true.

Definition closeTransportC : CM unit := cnotify ClosedTransport.

Definition disconnect : CM unit :=
  s ← cgets Client.state;
  cwhen (negb (bool_decide (s = CLOSED)))
    (_ ← sendEncoded FrameType.GOODBYE 0 (encodeGoodbye (mkGoodbye NackCode.NORMAL_CLOSURE false []) (replicate 64 0)); mret tt) ;;
  flushPending ;;
  closeTransportC ;;
  setState CLOSED.

Definition checkLiveTransition : CM unit :=
  c ← cgets id;
  cwhen (bool_decide (Client.state c = SYNCING) && Client.catalogReady c && (Client.requiredRetained c <=? Client.adoptedCount c))
    (setState LIVE).

(** ** WELCOME and the catalog *)

Definition sendBlobReq : CM unit :=
  ok ← sendEncoded FrameType.BLOB_REQ 0 (encodeBlobReq (mkBlobReq noBlobId true []) (replicate 16 0));
  cwhen ok (cmodify (fun c => c{{Client.catalogReqSentCount := Client.catalogReqSentCount c + 1}})).

Definition adoptHubSignature (sig : bytes) : CM unit :=
  c ← cgets id;
  if bool_decide (Client.hubAuth c = HubAuthState.Verified) || bool_decide (Client.hubAuth c = HubAuthState.Mismatch) then mret tt
  else if negb (Client.sigRequested c) then mret tt
  else if Client.hubPubkeyLen c =? 0 then setHubAuth HubAuthState.Unverifiable
  else if (length sig =? 0)%nat then mret tt
  else
    let material := hubSigMaterial (Client.clientNonce c) (Client.sessionId c) (Client.bootId c) in
    setHubAuth (if verifyP256 (hubPublicKey c) material sig then HubAuthState.Verified else HubAuthState.Mismatch).

Definition sendAuthProof : CM unit :=
  c ← cgets id;
  if negb (ci_hasToken (Client.ident c)) then mret tt
  else match icHmac ccrypto (ci_token (Client.ident c)) (Client.nonce c) with
  | None => mret tt
  | Some mac =>
      let tm := TrustMap.none{{TrustMap.has_token_proof := true; TrustMap.token_proof := take kTrustTokenProofBytes mac;
                               TrustMap.has_presentation_mode := true; TrustMap.presentation_mode := presentation_modes.proof}} in
      _ ← sendEncoded FrameType.AUTH 0 (Envelope.encodeTrustEnvelope (Envelope.mk tm) (replicate 64 0)); mret tt
  end.

(** The grants of a WELCOME, in the first places of the table. *)
Definition grantTable (gs : list Grant.t) : list GrantEntry.t :=
  let gs := take kMaxGrants gs in
  ((fun g => GrantEntry.mk (Grant.channel_id g) (Grant.granted_rate_hz g) (Grant.priority g) true) <$> gs)
  ++ replicate (kMaxGrants - length gs) GrantEntry.none.

Definition adoptWelcome (w : Welcome.t) (c : Client.t) : Client.t :=
  c{{Client.sessionId := Welcome.session_id w; Client.bootId := Welcome.boot_id w; Client.cfgGen := Welcome.cfg_gen w;
     Client.roles := Welcome.roles w; Client.hubEtag := Welcome.catalog_etag w; Client.nonce := Welcome.nonce w;
     Client.grants := grantTable (Welcome.grants w);
     Client.shadows := replicate kMaxShadowSlots ShadowEntry.none;
     Client.requiredRetained := WelcomeLimits.retained_pending (Welcome.limits_info w); Client.adoptedCount := 0}}.

Definition handleWelcome (payload : bytes) (nowMs : Z) : CM unit :=
  s ← cgets Client.state;
  if negb (bool_decide (s = HELLO_SENT)) then mret tt
  else match Welcome.decodeWelcome payload with
  | Err _ => mret tt
  | Ok w =>
      cmodify (adoptWelcome w) ;;
      c ← cgets id;
      (if bool_decide (Client.cachedEtag c = Welcome.catalog_etag w) then cmodify (fun c => c{{Client.catalogReady := true}})
       else
         cmodify (fun c => c{{Client.catalogReady := false; Client.chunkReassembler := newReassembler kCatalogMaxChunks;
                              Client.catalogChunkCount := 0}}) ;;
         sendBlobReq) ;;
      cwhen (Welcome.has_trust w && TrustMap.has_welcome_sig (Welcome.trust_map w))
        (adoptHubSignature (TrustMap.welcome_sig (Welcome.trust_map w))) ;;
      cwhen (proofMode c) sendAuthProof ;;
      setState SYNCING ;;
      checkLiveTransition
  end.

Definition sendCatalogReady (etag : bytes) : CM unit :=
  let '(n, buf) := encodeCatalogReady etag (replicate kCatalogReadyBytes 0) in
  if (n =? 0)%nat then mret tt
  else
    cmodify (fun c => c{{Client.readyEtag := etag}}) ;;
    ok ← sendFrame FrameType.CATALOG_READY 0 (take n buf);
    cwhen ok
      (cmodify (fun c => c{{Client.readyPending := true}}) ;;
       now ← cnowMs;
       cmodify (fun c => c{{Client.lastReadySendMs := now; Client.readyAttempts := u32 (Client.readyAttempts c + 1)}})).

Definition handleBlobChunk (payload : bytes) (nowMs : Z) : CM unit :=
  match getBlobChunkHeader payload with
  | None => mret tt
  | Some h =>
      if negb (isCatalog (hdr_id h)) then mret tt
      else if (chunk_count h =? 0) || (chunk_count h <=? chunk_index h) then mret tt
      else
        cmodify (fun c =>
          let c := if negb (cr_active (Client.chunkReassembler c)) || negb (Client.catalogChunkCount c =? chunk_count h)
                   then c{{Client.chunkReassembler := beginFrom kCatalogMaxChunks h nowMs (Client.chunkReassembler c);
                           Client.catalogChunkCount := chunk_count h}}
                   else c in
          c{{Client.chunkReassembler := snd (insertChunk payload nowMs (Client.chunkReassembler c))}}) ;;
        c ← cgets id;
        if negb (complete (Client.chunkReassembler c)) then mret tt
        else
          let digest := take limits.etag_bytes (Sha256.hash (assembled (Client.chunkReassembler c))) in
          let isMatch := bool_decide (digest = Client.hubEtag c) in
          cmodify (fun c => (if isMatch then c{{Client.cachedEtag := Client.hubEtag c}} else c){{Client.catalogReady := true}}) ;;
          sendCatalogReady (if isMatch then Client.hubEtag c else digest) ;;
          checkLiveTransition
  end.

Definition kMaxReadyAttempts : Z := limits.catalog_ready_timeout_ms / limits.catalog_chunk_gap_timeout_ms.

Definition pumpCatalogReady (nowMs : Z) : CM unit :=
  c ← cgets id;
  if negb (Client.readyPending c) then mret tt
  else if kMaxReadyAttempts <=? Client.readyAttempts c then cmodify (fun c => c{{Client.readyPending := false}})
  else if negb (timeReached nowMs (u32 (Client.lastReadySendMs c + limits.catalog_chunk_gap_timeout_ms))) then mret tt
  else
    let '(n, buf) := encodeCatalogReady (Client.readyEtag c) (replicate kCatalogReadyBytes 0) in
    if (n =? 0)%nat then cmodify (fun c => c{{Client.readyPending := false}})
    else
      _ ← sendFrame FrameType.CATALOG_READY 0 (take n buf);
      cmodify (fun c => c{{Client.lastReadySendMs := nowMs; Client.readyAttempts := u32 (Client.readyAttempts c + 1)}}).

(** ** STATE, EVENT, GRANT *)

(** The entry of a channel, taken if it has none and one is free. *)
Definition findOrCreateShadow (ch : Z) (l : list ShadowEntry.t) : option nat * list ShadowEntry.t :=
  match find_index (fun e => ShadowEntry.used e && (ShadowEntry.channel_id e =? ch)) l with
  | Some i => (Some i, l)
  | None =>
      match find_index (fun e => negb (ShadowEntry.used e)) l with
      | Some i => (Some i, <[i := ShadowEntry.mk ch true StateApply.emptySlot]> l)
      | None => (None, l)
      end
  end.

(** Whether a safety snapshot shows the emergency stop that was sent. *)
Definition estopReached (payload : bytes) (sentSeq : Z) : bool :=
  let estopSeq := getU16 (subspan 6 2 payload) in
  negb (Z.land (byte_at 0 payload) 1 =? 0) && ((estopSeq =? sentSeq) || seqIsNewer estopSeq sentSeq).

Definition handleState (ch seq : Z) (payload : bytes) (nowMs : Z) : CM unit :=
  l ← cgets Client.shadows;
  let '(oi, l) := findOrCreateShadow ch l in
  match oi with
  | None => mret tt
  | Some i =>
      let slot := ShadowEntry.slot (nth i l ShadowEntry.none) in
      let wasValid := StateApply.valid slot in
      let '(accepted, _, slot) := StateApply.applyStateFrame seq payload slot in
      cmodify (fun c => c{{Client.readyPending := false;
                           Client.shadows := alter (fun e => e{{ShadowEntry.slot := slot}}) i l}}) ;;
      if negb accepted then mret tt
      else
        cnotify (OnState ch seq payload) ;;
        s ← cgets Client.state;
        cwhen (bool_decide (s = SYNCING) && negb wasValid)
          (cmodify (fun c => c{{Client.adoptedCount := u32 (Client.adoptedCount c + 1)}}) ;; checkLiveTransition) ;;
        c ← cgets id;
        cwhen ((ch =? channels.safety) && Client.estopActive c && (8 <=? length payload)%nat && estopReached payload (Client.estopSentSeq c))
          (cmodify (fun c => c{{Client.estopActive := false; Client.estopSendFailed := false}}))
  end.

Definition handleEvent (ch : Z) (payload : bytes) : CM unit := cnotify (OnEvent ch payload).

Definition resendSubscriptionWishes : CM unit :=
  ws ← cgets Client.wishes;
  if (length ws =? 0)%nat then mret tt
  else
    _ ← sendEncoded FrameType.SUBSCRIBE 0
          (Subscribe.encodeSubscribe (Subscribe.mk (subscriptionWish <$> take kSubscribeMaxWishes ws)) (replicate 400 0));
    mret tt.

Definition adoptGrant (l : list GrantEntry.t) (g : Grant.t) : list GrantEntry.t :=
  match find_index (fun e => GrantEntry.valid e && (GrantEntry.channel_id e =? Grant.channel_id g)) l with
  | Some i => alter (fun e => e{{GrantEntry.rate_hz := Grant.granted_rate_hz g; GrantEntry.priority := Grant.priority g}}) i l
  | None =>
      match find_index (fun e => negb (GrantEntry.valid e)) l with
      | Some i => <[i := GrantEntry.mk (Grant.channel_id g) (Grant.granted_rate_hz g) (Grant.priority g) true]> l
      | None => l
      end
  end.

Definition handleGrant (payload : bytes) : CM unit :=
  match GrantMsg.decodeGrant payload with
  | Err _ => mret tt
  | Ok m =>
      cmodify (fun c => c{{Client.grants := foldl adoptGrant (Client.grants c) (GrantMsg.grants m)}}) ;;
      cwhen (GrantMsg.has_roles m)
        (before ← cgets Client.roles;
         cmodify (fun c => c{{Client.roles := GrantMsg.roles m}}) ;;
         cwhen (negb (GrantMsg.roles m =? before))
           (cwhen (before <? GrantMsg.roles m) resendSubscriptionWishes ;;
            cnotify (OnRolesChanged (GrantMsg.roles m))))
  end.

(** ** Answers to intents *)

(** The list without the first [id], if it has one. *)
Fixpoint removeFirst (id : Z) (l : list Z) : option (list Z) :=
  match l with
  | [] => None
  | x :: l => if x =? id then Some l else (fun l => x :: l) <$> removeFirst id l
  end.

Definition handleEcho (payload : bytes) : CM unit :=
  match decodeEcho payload with
  | Err _ => mret tt
  | Ok m =>
      l ← cgets Client.pending;
      match removeFirst (em_intent_id m) l with
      | None => mret tt
      | Some l =>
          cmodify (fun c => c{{Client.pending := l; Client.cfgGen := em_cfg_gen m; Client.holdingSource := true}}) ;;
          cnotify (OnEcho (em_intent_id m) (em_applied m) (em_cfg_gen m))
      end
  end.

Definition handleNack (payload : bytes) : CM unit :=
  match decodeNack payload with
  | Err _ => mret tt
  | Ok m =>
      s ← cgets Client.state;
      cwhen (bool_decide (s = HELLO_SENT)) (setState CLOSED) ;;
      cwhen (nk_has_intent_id m)
        (cmodify (fun c => c{{Client.pending := default (Client.pending c) (removeFirst (nk_intent_id m) (Client.pending c))}})) ;;
      cnotify (OnNack m)
  end.

Definition sendIntent (ch : Z) (values : list IntentValueField) (precondition : option Z) (takeover : bool) : CM (option Z) :=
  c ← cgets id;
  if negb (bool_decide (Client.state c = LIVE)) then mret None
  else if bool_decide (Client.hubAuth c = HubAuthState.Mismatch) || bool_decide (Client.hubAuth c = HubAuthState.Timeout) then mret None
  else if (kMaxPendingIntents <=? length (Client.pending c))%nat then mret None
  else
    let m := mkIntent ch (Client.nextIntentId c) values (match precondition with Some _ => true | None => false end)
               (default 0 precondition) true takeover in
    ok ← sendEncoded FrameType.INTENT ch (encodeIntent m (replicate 300 0));
    if negb ok then mret None
    else
      let next := u16 (Client.nextIntentId c + 1) in
      cmodify (fun c' => c'{{Client.pending := Client.pending c' ++ [Client.nextIntentId c];
                             Client.nextIntentId := (if next =? 0 then 1 else next)}}) ;;
      mret (Some (Client.nextIntentId c)).

(** ** Emergency stop *)

Definition nextEstopSeq (s : Z) : Z := let n := u16 (s + 1) in if n =? 0 then 1 else n.

Definition estopFrame (cause : Z) (c : Client.t) : EstopFrame := mkEstopFrame cause (Client.roles c) (Client.estopSentSeq c).

Definition writeEstop (f : EstopFrame) : CM bool :=
  let '(n, buf) := encodeEstop f (replicate kEstopFrameBytes 0) in
  if (n =? 0)%nat then mret false else _ ← writeOut (take n buf); mret true.

Definition initiateEstop (cause : Z) : CM unit :=
  cmodify (fun c => c{{Client.estopActive := true; Client.estopSendFailed := false; Client.estopCause := cause;
                       Client.estopSentSeq := Client.estopNextSeq c; Client.estopNextSeq := nextEstopSeq (Client.estopNextSeq c);
                       Client.estopAttempts := 0}}) ;;
  c ← cgets id;
  sent ← writeEstop (estopFrame cause c);
  (if (sent : bool) then now ← cnowMs; cmodify (fun c => c{{Client.lastTxMs := now}}) else mret tt) ;;
  now ← cnowMs;
  cmodify (fun c => c{{Client.estopAttempts := 1; Client.lastEstopSendMs := now}}).

Definition pumpEstopRepeat (nowMs : Z) : CM unit :=
  c ← cgets id;
  if negb (Client.estopActive c) then mret tt
  else if limits.estop_repeat_max <=? Client.estopAttempts c
  then cmodify (fun c => c{{Client.estopActive := false; Client.estopSendFailed := true}})
  else if negb (timeReached nowMs (u32 (Client.lastEstopSendMs c + limits.estop_repeat_interval_ms))) then mret tt
  else
    sent ← writeEstop (estopFrame (Client.estopCause c) c);
    cwhen sent (cmodify (fun c => c{{Client.lastTxMs := nowMs}})) ;;
    cmodify (fun c => c{{Client.estopAttempts := u32 (Client.estopAttempts c + 1); Client.lastEstopSendMs := nowMs}}).

(** ** Pairing and the hub's signature *)

Definition sendPairReq (pinProof : bytes) : CM bool :=
  c ← cgets id;
  if negb (length pinProof =? kPinProofBytes)%nat then mret false
  else sendEncoded FrameType.PAIR_REQ 0
         (PairReq.encodePairReq (PairReq.mk (ci_instance_id (Client.ident c)) true pinProof) (replicate 64 0)).

Definition sendPairKnock : CM bool :=
  c ← cgets id;
  sendEncoded FrameType.PAIR_REQ 0
    (PairReq.encodePairReq (PairReq.mk (ci_instance_id (Client.ident c)) false (replicate kPinProofBytes 0)) (replicate 64 0)).

Definition handlePairGrant (payload : bytes) : CM unit :=
  match PairGrant.decodePairGrant payload with
  | Err _ => mret tt
  | Ok m =>
      let tm := PairGrant.trust_map m in
      cwhen (PairGrant.has_trust m && TrustMap.has_hub_pubkey tm)
        (setHubPublicKey (TrustMap.hub_pubkey tm) ;; cnotify (OnHubPublicKey (TrustMap.hub_pubkey tm))) ;;
      cnotify (OnPairGrant (PairGrant.token m) (PairGrant.roles m))
  end.

Definition handleHubSig (payload : bytes) : CM unit :=
  match Envelope.decodeTrustEnvelope payload with
  | Err _ => mret tt
  | Ok m =>
      let tm := Envelope.trust_map m in
      cwhen (TrustMap.has_welcome_sig tm) (adoptHubSignature (TrustMap.welcome_sig tm))
  end.

Definition pumpHubSigTimeout (nowMs : Z) : CM unit :=
  c ← cgets id;
  if negb (bool_decide (Client.hubAuth c = HubAuthState.Pending)) then mret tt
  else if negb (timeReached nowMs (Client.sigDeadlineMs c)) then mret tt
  else setHubAuth HubAuthState.Timeout.

(** ** Probing the link *)

Definition runProbe : CM bool :=
  s ← cgets Client.state;
  if negb (bool_decide (s = LIVE)) then mret false
  else
    ok ← sendFrame FrameType.PROBE 0 [];
    if negb ok then mret false
    else
      cmodify (fun c => c{{Client.probeActive := true}}) ;;
      now ← cnowMs;
      cmodify (fun c => c{{Client.probeStartMs := now; Client.probeBytesReceived := 0; Client.probeFramesReceived := 0;
                           Client.probeMaxIndexSeen := 0; Client.probeAnyIndexSeen := false}}) ;;
      mret true.

Definition handleProbeFrame (payload : bytes) : CM unit :=
  active ← cgets Client.probeActive;
  if negb active then mret tt
  else match decodeProbeFrame payload with
  | Err _ => mret tt
  | Ok idx => cmodify (fun c =>
      let c := c{{Client.probeFramesReceived := u32 (Client.probeFramesReceived c + 1);
                  Client.probeBytesReceived := u32 (Client.probeBytesReceived c + Z.of_nat (length payload))}} in
      if negb (Client.probeAnyIndexSeen c) || (Client.probeMaxIndexSeen c <? idx)
      then c{{Client.probeMaxIndexSeen := idx; Client.probeAnyIndexSeen := true}} else c)
  end.

Definition probeReport (nowMs : Z) (c : Client.t) : ProbeResult :=
  let expected := if Client.probeAnyIndexSeen c then Client.probeMaxIndexSeen c + 1 else 0 in
  let lost := if Client.probeFramesReceived c <? expected then expected - Client.probeFramesReceived c else 0 in
  mkProbe (Client.probeBytesReceived c) (if 0 <? timeDelta nowMs (Client.probeStartMs c) then timeDelta nowMs (Client.probeStartMs c) else 0)
    (if 0 <? expected then u32 (lost * 10000 / expected) else 0) 0.

Definition pumpProbe (nowMs : Z) : CM unit :=
  c ← cgets id;
  if negb (Client.probeActive c) then mret tt
  else if negb (timeReached nowMs (u32 (Client.probeStartMs c + limits.probe_max_duration_ms))) then mret tt
  else
    _ ← sendEncoded FrameType.PROBE_REPORT 0 (encodeProbeReport (probeReport nowMs c) (replicate 64 0));
    cmodify (fun c => c{{Client.probeActive := false}}).

(** ** The loop *)

Definition handlePingC (payload : bytes) : CM unit :=
  let '(n, buf) := encodePong payload (replicate 32 0) in
  _ ← sendFrame FrameType.PONG 0 (take n buf); mret tt.

Definition isEstopBytes (bs : bytes) : bool :=
  (length bs =? kEstopFrameBytes)%nat && bool_decide (take 4 bs = replicate 4 kEstopMagicByte).

Definition dispatch (h : FrameHeader) (payload : bytes) (nowMs : Z) : CM unit :=
  let ty := fh_type h in
  if ty =? FrameType.WELCOME then handleWelcome payload nowMs
  else if ty =? FrameType.STATE then handleState (fh_channel h) (fh_seq h) payload nowMs
  else if ty =? FrameType.ECHO then handleEcho payload
  else if ty =? FrameType.NACK then handleNack payload
  else if ty =? FrameType.GRANT then handleGrant payload
  else if ty =? FrameType.EVENT then handleEvent (fh_channel h) payload
  else if ty =? FrameType.BLOB_CHUNK then handleBlobChunk payload nowMs
  else if ty =? FrameType.PING then handlePingC payload
  else if ty =? FrameType.PAIR_GRANT then handlePairGrant payload
  else if ty =? FrameType.HUB_SIG then handleHubSig payload
  else if ty =? FrameType.PROBE then handleProbeFrame payload
  else if ty =? FrameType.GOODBYE then setState CLOSED ;; flushPending
  else mret tt.

Definition handleFrameC (nowMs : Z) (fb : FrameBuffer.t) : CM unit :=
  let bs := FrameBuffer.bytes_of fb in
  if isEstopBytes bs then
    match decodeEstop bs with
    | Ok _ => cmodify (fun c => c{{Client.lastRxMs := nowMs}})
    | Err _ => mret tt
    end
  else match FrameBuffer.header fb with
  | None => mret tt
  | Some h => cmodify (fun c => c{{Client.lastRxMs := nowMs}}) ;; dispatch h (FrameBuffer.payload fb) nowMs
  end.

Definition pumpPing (nowMs : Z) : CM unit :=
  c ← cgets id;
  if bool_decide (Client.state c = CLOSED) then mret tt
  else
    let interval := if Client.holdingSource c then limits.ping_interval_holding_control_ms else limits.ping_interval_idle_ms in
    cwhen (timeReached nowMs (u32 (Client.lastTxMs c + interval)))
      (let '(n, buf) := encodePing [] (replicate 8 0) in _ ← sendFrame FrameType.PING 0 (take n buf); mret tt).

(** [frames] are what the transport's read gives before it gives nothing. *)
Definition clientUpdate (nowUs : Z) (frames : list FrameBuffer.t) : CM unit :=
  mono ← cgets Client.monoMs;
  let '(nowMs, mono) := MonotonicMs.advance nowUs mono in
  cmodify (fun c => c{{Client.monoMs := mono}}) ;;
  ceach frames (handleFrameC nowMs) ;;
  pumpPing nowMs ;;
  pumpEstopRepeat nowMs ;;
  pumpCatalogReady nowMs ;;
  pumpProbe nowMs ;;
  pumpHubSigTimeout nowMs.

(** ** What the application can ask *)

Definition grantedRateHz (ch : Z) (c : Client.t) : option Z :=
  i ← find_index (fun e => GrantEntry.valid e && (GrantEntry.channel_id e =? ch)) (Client.grants c);
  e ← Client.grants c !! i; Some (GrantEntry.rate_hz e).

Definition safetyWord (c : Client.t) : option Z :=
  i ← find_index (fun e => ShadowEntry.used e && (ShadowEntry.channel_id e =? channels.safety)
                           && StateApply.valid (ShadowEntry.slot e) && (1 <=? StateApply.size (ShadowEntry.slot e))) (Client.shadows c);
  e ← Client.shadows c !! i; Some (byte_at 0 (StateApply.value (ShadowEntry.slot e))).

Definition clientStopLatched (c : Client.t) : bool :=
  match safetyWord c with Some w => negb (Z.land w safety_bits.STOP =? 0) | None => false end.
End client.
