(* ===== verification/ClientFacts.v ===== *)
(** * ClientFacts: reasoning about the client's computations

    [cwp m Q w]: what [Q] says of the result of [m] in [w]. A [quiet] computation
    only sends and keeps its books about sending; the rest of the client it leaves
    as it is. [follow] replays a history against the state of the session and the
    intents that await an answer. *)

From S2P Require Import Prelude Registry Float ByteIO Serial Frame Blob Messages Codec Trust Handshake Raw Crypto.
From S2P Require Import Channel Safety Session ClientState.
Local Open Scope Z_scope.

(** ** History *)

(** What happened: the client acted, or an intent was taken from the application. *)
Inductive client_event : Type :=
| Did (e : ClientEffect)
| Took (id : Z).

(** The states a session goes through. *)
Definition allowed (s s' : ClientSessionState) : bool :=
  match s' with
  | CLOSED | HELLO_SENT => true
  | SYNCING => bool_decide (s = HELLO_SENT)
  | LIVE => bool_decide (s = SYNCING)
  | CONNECTING => false
  end.

(** A session state and the intents that await an answer, oldest first. *)
Definition phase : Type := ClientSessionState * list Z.

Definition follow1 (v : phase) (e : client_event) : option phase :=
  let '(s, l) := v in
  match e with
  | Did (OnStateChange s') => if allowed s s' then Some (s', l) else None
  | Did (OnEcho id _ _) => (fun l' => (s, l')) <$> removeFirst id l
  | Did (OnNack n) => Some (s, if nk_has_intent_id n then default l (removeFirst (nk_intent_id n) l) else l)
  | Did (OnPendingDropped id) => match l with x :: l' => if x =? id then Some (s, l') else None | [] => None end
  | Did _ => Some v
  | Took id => if bool_decide (s = LIVE) && (length l <? kMaxPendingIntents)%nat then Some (s, l ++ [id]) else None
  end.

Fixpoint follow (v : phase) (h : list client_event) : option phase :=
  match h with [] => Some v | e :: h => v' ← follow1 v e; follow v' h end.

Lemma follow_app v h1 h2 : follow v (h1 ++ h2) = (v' ← follow v h1; follow v' h2).
Proof. revert v. induction h1 as [|e h1 IH]; intros v; [done|]. cbn. destruct (follow1 v e); [apply IH|done]. Qed.

Definition phase_of (c : Client.t) : phase := (Client.state c, Client.pending c).

(** Effects that do not concern the session or the intents. *)
Definition silent (e : ClientEffect) : Prop := forall v, follow1 v (Did e) = Some v.

Lemma follow_silent v tr : Forall silent tr -> follow v (Did <$> tr) = Some v.
Proof. induction 1 as [|e tr He _ IH]; [done|]. cbn. by rewrite He. Qed.

Section facts.
Context {P : ClientPlatform}.

Definition cwp {A} (m : CM A) (Q : A -> ClientWorld -> Prop) (w : ClientWorld) : Prop := Q (fst (m w)) (snd (m w)).

Lemma cwp_ret {A} (a : A) Q w : Q a w -> cwp (mret a) Q w.
Proof. done. Qed.

Lemma cwp_bind {A B} (m : CM A) (k : A -> CM B) Q w : cwp m (fun a w' => cwp (k a) Q w') w -> cwp (m ≫= k) Q w.
Proof. unfold cwp, mbind, CM_bind. by destruct (m w). Qed.

Lemma run_bind {A B} (m : CM A) (k : A -> CM B) w : (m ≫= k) w = k (fst (m w)) (snd (m w)).
Proof. unfold mbind, CM_bind. by destruct (m w). Qed.

Lemma cwp_mono {A} (m : CM A) (Q Q' : A -> ClientWorld -> Prop) w : cwp m Q w -> (forall a w', Q a w' -> Q' a w') -> cwp m Q' w.
Proof. intros H HQ. by apply HQ. Qed.

Lemma cwp_gets {A B} (f : Client.t -> A) (k : A -> CM B) Q w : cwp (k (f (client w))) Q w -> cwp (cgets f ≫= k) Q w.
Proof. done. Qed.

Definition with_client (c : Client.t) (w : ClientWorld) : ClientWorld := mkClientWorld c (cenv w) (crng w) (ctrace w).

Lemma cwp_modify {B} f (k : unit -> CM B) Q w : cwp (k tt) Q (with_client (f (client w)) w) -> cwp (cmodify f ≫= k) Q w.
Proof. done. Qed.

Lemma cwp_modify_last f (Q : unit -> ClientWorld -> Prop) w : Q tt (with_client (f (client w)) w) -> cwp (cmodify f) Q w.
Proof. done. Qed.

(** ** Quiet computations *)

(** The client without its books about sending. *)
Definition core (c : Client.t) : Client.t :=
  c{{Client.lastTxMs := 0; Client.catalogReqSentCount := 0; Client.readyEtag := []; Client.readyPending := false;
     Client.lastReadySendMs := 0; Client.readyAttempts := 0}}.

(** A frame that is not an emergency stop. *)
Definition ordinary (e : ClientEffect) : Prop := match e with Wrote f _ => isEstopBytes f = false | _ => False end.

Definition cquietly (w w' : ClientWorld) : Prop :=
  core (client w') = core (client w) /\ exists tr, ctrace w' = ctrace w ++ tr /\ Forall ordinary tr.

Definition cquiet {A} (m : CM A) : Prop := forall w, cquietly w (snd (m w)).

Lemma cquietly_refl w : cquietly w w.
Proof. split; [done|]. exists []. by rewrite app_nil_r. Qed.

Lemma cquietly_trans w1 w2 w3 : cquietly w1 w2 -> cquietly w2 w3 -> cquietly w1 w3.
Proof.
  intros (E1 & t1 & T1 & F1) (E2 & t2 & T2 & F2). split; [by rewrite E2|]. exists (t1 ++ t2). rewrite T2, T1, app_assoc. split; [done|by apply Forall_app].
Qed.

Lemma cquiet_ret {A} (a : A) : cquiet (mret a).
Proof. intros w. apply cquietly_refl. Qed.

Lemma cquiet_bind {A B} (m : CM A) (k : A -> CM B) : cquiet m -> (forall a, cquiet (k a)) -> cquiet (m ≫= k).
Proof. intros Hm Hk w. specialize (Hm w). unfold mbind, CM_bind. destruct (m w) as [a w1]. eapply cquietly_trans; [exact Hm|apply Hk]. Qed.

Lemma cquiet_gets {A} (f : Client.t -> A) : cquiet (cgets f).
Proof. intros w. apply cquietly_refl. Qed.

Lemma cquiet_ask {A} (q : CEnv -> A * CEnv) : cquiet (cask q).
Proof. intros w. unfold cask. destruct (q (cenv w)). split; [done|]. exists []. by rewrite app_nil_r. Qed.

Lemma cquiet_nowMs : cquiet cnowMs.
Proof. intros w. unfold cnowMs, fmap, CM_fmap. assert (H := cquiet_ask cclk_nowUs w). destruct (cask cclk_nowUs w). exact H. Qed.

Lemma cquiet_when b m : cquiet m -> cquiet (cwhen b m).
Proof. destruct b; [done|]. intros _. apply cquiet_ret. Qed.

Lemma cquiet_modify f : (forall c, core (f c) = core c) -> cquiet (cmodify f).
Proof. intros H w. split; [apply H|]. exists []. by rewrite app_nil_r. Qed.

Lemma cwp_quiet {A B} (m : CM A) (k : A -> CM B) Q w : cquiet m -> (forall a w', cquietly w w' -> cwp (k a) Q w') -> cwp (m ≫= k) Q w.
Proof. intros Hm Hk. apply cwp_bind. unfold cwp at 1. by apply Hk. Qed.

(** ** Sending *)

(** The bytes of a frame. *)
Definition frameBytes (type ch : Z) (payload : bytes) : bytes :=
  header_bytes (mkFrameHeader type 0 ch 0 (u16 (Z.of_nat (length payload)))) ++ payload.

Definition kMaxPayload : nat := kFrameBufferCapacity - kHeaderBytes.

Lemma written_frame h payload : (length payload <= kMaxPayload)%nat ->
  take (kHeaderBytes + length payload) (write_at kHeaderBytes payload (header_bytes h ++ drop kHeaderBytes (replicate kFrameBufferCapacity 0)))
  = header_bytes h ++ payload.
Proof.
  intros Hl. set (z := drop kHeaderBytes (replicate kFrameBufferCapacity 0)).
  assert (Hz : length z = kMaxPayload) by (unfold z; by rewrite length_drop, length_replicate).
  rewrite <- (take_drop (length payload) z), write_at_mid; [|done|rewrite length_take; lia].
  rewrite app_assoc. apply take_app_length'. rewrite length_app, length_header_bytes. done.
Qed.

Lemma sendFrame_eq type ch payload :
  sendFrame type ch payload =
  if (kMaxPayload <? length payload)%nat then mret false
  else
    ok ← writeOut (frameBytes type ch payload);
    (if (ok : bool) then now ← cnowMs; cmodify (fun c => c{{Client.lastTxMs := now}}) else mret tt) ;; mret ok.
Proof.
  unfold sendFrame. rewrite encodeFrameHeader_spec by (vm_compute; lia). change (kHeaderBytes =? 0)%nat with false. cbv iota.
  rewrite length_app, length_header_bytes, length_drop, length_replicate.
  replace (kHeaderBytes + (kFrameBufferCapacity - kHeaderBytes) - kHeaderBytes)%nat with kMaxPayload by done.
  destruct (Nat.ltb_spec kMaxPayload (length payload)); [done|]. by rewrite written_frame.
Qed.

(** A frame is not taken for an emergency stop. *)
Definition plain (type : Z) : bool := negb (u8 type =? kEstopMagicByte).

Lemma frame_not_estop type ch payload : plain type = true -> isEstopBytes (frameBytes type ch payload) = false.
Proof.
  unfold plain. intros H%negb_true_iff%Z.eqb_neq. unfold isEstopBytes. apply andb_false_iff. right. apply bool_decide_eq_false. intros E. apply H.
  unfold frameBytes, header_bytes in E. cbn in E. by injection E.
Qed.

Lemma cquiet_writeOut f : isEstopBytes f = false -> cquiet (writeOut f).
Proof.
  intros Hf w. unfold writeOut, mbind, CM_bind, cask, crecord. destruct (ct_write f (cenv w)) as [ok e]. split; [done|]. exists [Wrote f ok].
  split; [done|by repeat constructor].
Qed.

Lemma cquiet_sendFrame type ch payload : plain type = true -> cquiet (sendFrame type ch payload).
Proof.
  intros Hp. rewrite sendFrame_eq. destruct (_ <? _)%nat; [apply cquiet_ret|].
  apply cquiet_bind; [by apply cquiet_writeOut, frame_not_estop|]. intros ok. apply cquiet_bind; [|intros; apply cquiet_ret].
  destruct ok; [|apply cquiet_ret]. apply cquiet_bind; [apply cquiet_nowMs|]. intros. by apply cquiet_modify.
Qed.

Lemma cquiet_sendEncoded type ch r : plain type = true -> cquiet (sendEncoded type ch r).
Proof. intros Hp. destruct r as [n buf]. unfold sendEncoded. destruct (n =? 0)%nat; [apply cquiet_ret|by apply cquiet_sendFrame]. Qed.
End facts.

Create HintDb cquiet.
#[export] Hint Resolve cquiet_ret cquiet_gets cquiet_ask cquiet_nowMs : cquiet.

(** Quiet computations are built of quiet ones. *)
Ltac cquiet :=
  repeat (intros; cbv zeta; lazymatch goal with
    | |- cquiet (mbind _ _) => apply cquiet_bind
    | |- cquiet (cwhen _ _) => apply cquiet_when
    | |- cquiet (sendFrame _ _ _) => by apply cquiet_sendFrame
    | |- cquiet (sendEncoded _ _ _) => by apply cquiet_sendEncoded
    | |- cquiet (cmodify _) => apply cquiet_modify; done
    | |- cquiet (match _ with _ => _ end) => case_match
    | _ => solve [eauto 2 with cquiet]
    end).

Section sending.
Context {P : ClientPlatform}.

Lemma cquiet_sendBlobReq : cquiet sendBlobReq.
Proof. unfold sendBlobReq. cquiet. Qed.
Lemma cquiet_sendAuthProof : cquiet sendAuthProof.
Proof. unfold sendAuthProof. cquiet. Qed.
Lemma cquiet_sendCatalogReady etag : cquiet (sendCatalogReady etag).
Proof. unfold sendCatalogReady. cquiet. Qed.
Lemma cquiet_pumpCatalogReady now : cquiet (pumpCatalogReady now).
Proof. unfold pumpCatalogReady. cquiet. Qed.
Lemma cquiet_resendSubscriptionWishes : cquiet resendSubscriptionWishes.
Proof. unfold resendSubscriptionWishes. cquiet. Qed.
Lemma cquiet_handlePingC payload : cquiet (handlePingC payload).
Proof. unfold handlePingC. cquiet. Qed.
Lemma cquiet_pumpPing now : cquiet (pumpPing now).
Proof. unfold pumpPing. cquiet. Qed.
Lemma cquiet_sendPairReq proof : cquiet (sendPairReq proof).
Proof. unfold sendPairReq. cquiet. Qed.
Lemma cquiet_sendPairKnock : cquiet sendPairKnock.
Proof. unfold sendPairKnock. cquiet. Qed.
End sending.
#[export] Hint Resolve cquiet_sendBlobReq cquiet_sendAuthProof cquiet_sendCatalogReady cquiet_pumpCatalogReady
  cquiet_resendSubscriptionWishes cquiet_handlePingC cquiet_pumpPing cquiet_sendPairReq cquiet_sendPairKnock : cquiet.
