(* ===== verification/ClientCorrect.v ===== *)
(** * ClientCorrect: the client keeps its session, its intents and its books

    The invariant of the client and how every operation keeps it, over every
    history of application calls, frames and timeouts; the emergency stop; the
    catalog transfer; intents. *)

From S2P Require Import Prelude Registry Float ByteIO Serial Frame Blob Messages Codec Trust Handshake Raw Crypto.
From S2P Require Import Channel Safety Session ClientState ClientFacts.
Local Open Scope Z_scope.

(** ** The invariant *)

(** At most one shadow per channel. *)
Definition shadows_distinct (l : list ShadowEntry.t) : Prop :=
  forall i j a b, l !! i = Some a -> l !! j = Some b -> ShadowEntry.used a = true -> ShadowEntry.used b = true ->
    ShadowEntry.channel_id a = ShadowEntry.channel_id b -> i = j.

Section correct.
Context {P : ClientPlatform}.

(** Somebody signed the nonce of this connection. *)
Definition attested (c : Client.t) : Prop :=
  exists key sid boot sig, verifyP256 key (hubSigMaterial (Client.clientNonce c) sid boot) sig = true.

Definition client_ok (c : Client.t) : Prop :=
  (length (Client.pending c) <= kMaxPendingIntents)%nat
  /\ (Client.pending c <> [] -> Client.state c = LIVE)
  /\ (Client.state c = LIVE -> Client.catalogReady c = true /\ Client.requiredRetained c <= Client.adoptedCount c)
  /\ (length (Client.wishes c) <= kMaxWishes)%nat
  /\ length (Client.grants c) = kMaxGrants
  /\ length (Client.shadows c) = kMaxShadowSlots /\ shadows_distinct (Client.shadows c)
  /\ (Client.hubAuth c = HubAuthState.Verified -> attested c)
  /\ 0 <= Client.estopAttempts c <= limits.estop_repeat_max
  /\ 0 < Client.nextIntentId c < 65536.

(** The parts of the invariant that a change does not touch. *)
Ltac keep_ok := intros (?Hpend & ?Hlive & ?Hsync & ?Hwish & ?Hgrant & ?Hshl & ?Hsh & ?Hauth & [?Hest1 ?Hest2] & ?Hid1 & ?Hid2); split_and!; try assumption; try discriminate; try congruence.

(** A step: the trace grows, its effects follow the session, the invariant stays. *)
Definition cstep (w w' : ClientWorld) : Prop :=
  (exists tr, ctrace w' = ctrace w ++ tr /\ follow (phase_of (client w)) (Did <$> tr) = Some (phase_of (client w')))
  /\ (client_ok (client w) -> client_ok (client w')).

Lemma cstep_refl w : cstep w w.
Proof. split; [|done]. exists []. by rewrite app_nil_r. Qed.

Lemma cstep_trans w1 w2 w3 : cstep w1 w2 -> cstep w2 w3 -> cstep w1 w3.
Proof.
  intros [(t1 & T1 & F1) K1] [(t2 & T2 & F2) K2]. split; [|auto]. exists (t1 ++ t2). rewrite T2, T1, app_assoc. split; [done|].
  by rewrite fmap_app, follow_app, F1.
Qed.

Lemma ordinary_silent e : ordinary e -> silent e.
Proof. destruct e; try done. by intros _ [s l]. Qed.

Lemma cstep_quiet w w' : cquietly w w' -> cstep w w'.
Proof.
  intros (E & tr & T & F). split.
  - exists tr. split; [done|]. rewrite follow_silent; [|by eapply Forall_impl; [exact F|apply ordinary_silent]].
    f_equal. change (phase_of (core (client w)) = phase_of (core (client w'))). by rewrite E.
  - change (client_ok (core (client w)) -> client_ok (core (client w'))). by rewrite E.
Qed.

(** A member is changed that neither the session nor the invariant look at. *)
Lemma cstep_modify f w : phase_of (f (client w)) = phase_of (client w) -> (client_ok (client w) -> client_ok (f (client w))) ->
  cstep w (with_client (f (client w)) w).
Proof. intros E K. split; [|done]. exists []. rewrite app_nil_r. split; [done|]. cbn. by rewrite E. Qed.

Definition csteps {A} (m : CM A) : Prop := forall w, cstep w (snd (m w)).

Lemma csteps_quiet {A} (m : CM A) : cquiet m -> csteps m.
Proof. intros H w. apply cstep_quiet, H. Qed.

Lemma csteps_bind {A B} (m : CM A) (k : A -> CM B) : csteps m -> (forall a, csteps (k a)) -> csteps (m ≫= k).
Proof. intros Hm Hk w. specialize (Hm w). unfold mbind, CM_bind. destruct (m w) as [a w1]. eapply cstep_trans; [exact Hm|apply Hk]. Qed.

Lemma csteps_when b m : csteps m -> csteps (cwhen b m).
Proof. destruct b; [done|]. intros _ w. apply cstep_refl. Qed.

Lemma csteps_modify f : (forall c, phase_of (f c) = phase_of c) -> (forall c, client_ok c -> client_ok (f c)) -> csteps (cmodify f).
Proof. intros E K w. apply (cstep_modify f); [apply E|apply K]. Qed.

Lemma csteps_each {T} (l : list T) body : (forall x, csteps (body x)) -> csteps (ceach l body).
Proof. intros H. induction l as [|x l IH]; [intros w; apply cstep_refl|]. by apply csteps_bind. Qed.

Lemma cwp_step {A B} (m : CM A) (k : A -> CM B) w0 w (R : ClientWorld -> Prop) :
  cstep w0 w -> csteps m -> (forall a w', cstep w0 w' -> w' = snd (m w) -> cwp (k a) (fun _ => R) w') -> cwp (m ≫= k) (fun _ => R) w.
Proof. intros H0 Hm Hk. apply cwp_bind. unfold cwp at 1. apply Hk; [|done]. eapply cstep_trans; [exact H0|apply Hm]. Qed.

(** An effect the session does not look at. *)
Lemma csteps_notify e : silent e -> csteps (cnotify e).
Proof. intros He w. split; [|done]. exists [e]. split; [done|]. by apply follow_silent, Forall_singleton. Qed.

Lemma cstep_setState s w : allowed (Client.state (client w)) s = true ->
  (client_ok (client w) -> client_ok ((client w){{Client.state := s}})) -> cstep w (snd (setState s w)).
Proof.
  intros Ha K. split; [|exact K]. exists [OnStateChange s]. split; [done|]. cbn. by rewrite Ha.
Qed.

Lemma cstep_setHubAuth s w : (s = HubAuthState.Verified -> attested (client w)) -> cstep w (snd (setHubAuth s w)).
Proof.
  intros Hs. unfold setHubAuth, mbind, CM_bind, cgets. case_bool_decide; [apply cstep_refl|]. split.
  - exists [OnHubAuth s]. done.
  - keep_ok.
Qed.

Lemma follow_dropped s l l' : follow (s, l ++ l') (Did <$> (OnPendingDropped <$> l)) = Some (s, l').
Proof. induction l as [|x l IH]; [done|]. cbn. by rewrite Z.eqb_refl. Qed.

Lemma dropAll_eq l w : exists e, snd (ceach l (fun id => cnotify (OnPendingDropped id)) w)
  = mkClientWorld (client w) e (crng w) (ctrace w ++ (OnPendingDropped <$> l)).
Proof.
  revert w. induction l as [|x l IH]; intros w; [exists (cenv w); cbn; rewrite app_nil_r; by destruct w|].
  destruct (IH (snd (cnotify (OnPendingDropped x) w))) as [e E]. exists e. cbn [ceach]. rewrite run_bind, E. change (ctrace (cnotify (OnPendingDropped x) w).2) with (ctrace w ++ [OnPendingDropped x]). by rewrite <- app_assoc.
Qed.

(** The client after [flushPending]. *)
Lemma flushPending_spec w : exists e, snd (flushPending w)
  = mkClientWorld ((client w){{Client.pending := [] }}) e (crng w) (ctrace w ++ (OnPendingDropped <$> Client.pending (client w))).
Proof.
  unfold flushPending. rewrite run_bind, run_bind. destruct (dropAll_eq (Client.pending (client w)) w) as [e E]. exists e. cbn in E |- *. by rewrite E.
Qed.

Lemma csteps_flushPending : csteps flushPending.
Proof.
  intros w. destruct (flushPending_spec w) as [e E]. rewrite E. split.
  - exists (OnPendingDropped <$> Client.pending (client w)). split; [done|].
    assert (H := follow_dropped (Client.state (client w)) (Client.pending (client w)) []). rewrite app_nil_r in H. exact H.
  - keep_ok; [cbn; lia|done].
Qed.

(** ** Session operations *)

(** The members an application sets, and those a handler changes on its own. *)
Ltac csteps_mod := apply csteps_modify; [done|let c := fresh "c" in intros c; keep_ok; try (cbn; lia)].

(** What a computation does when [pre] holds of the client. *)
Definition chold {A} (pre : Client.t -> Prop) (m : CM A) (post : A -> Client.t -> Prop) : Prop :=
  forall w, pre (client w) -> cstep w (snd (m w)) /\ post (fst (m w)) (client (snd (m w))).

Definition anything (c : Client.t) : Prop := True.

Lemma chold_csteps {A} (m : CM A) post : chold anything m post -> csteps m.
Proof. intros H w. by destruct (H w I). Qed.

Lemma csteps_chold {A} (pre : Client.t -> Prop) (m : CM A) : csteps m -> chold pre m (fun _ => anything).
Proof. by split. Qed.

Lemma chold_bind {A B} pre (m : CM A) mid (k : A -> CM B) post :
  chold pre m mid -> (forall a, chold (mid a) (k a) post) -> chold pre (m ≫= k) post.
Proof.
  intros Hm Hk w Hw. destruct (Hm w Hw) as [S1 M1]. rewrite run_bind. destruct (Hk _ _ M1) as [S2 M2]. split; [by eapply cstep_trans|done].
Qed.

Lemma chold_gets {A B} pre (f : Client.t -> A) (k : A -> CM B) post :
  (forall a, chold (fun c => pre c /\ f c = a) (k a) post) -> chold pre (cgets f ≫= k) post.
Proof. intros H w Hw. by apply (H (f (client w))). Qed.

Lemma chold_ret {A} pre (a : A) post : (forall c, pre c -> post a c) -> chold pre (mret a) post.
Proof. intros H w Hw. split; [apply cstep_refl|by apply H]. Qed.

Lemma chold_quiet {A} (pre : Client.t -> Prop) (m : CM A) : cquiet m -> (forall c, pre (core c) = pre c) -> chold pre m (fun _ => pre).
Proof.
  intros Hm Hp w Hw. split; [apply cstep_quiet, Hm|]. destruct (Hm w) as [E _]. rewrite <- Hp, E, Hp. exact Hw.
Qed.

Lemma chold_modify (pre : Client.t -> Prop) f (post : unit -> Client.t -> Prop) :
  (forall c, pre c -> phase_of (f c) = phase_of c) -> (forall c, pre c -> client_ok c -> client_ok (f c)) -> (forall c, pre c -> post tt (f c)) ->
  chold pre (cmodify f) post.
Proof. intros E K H w Hw. split; [by apply (cstep_modify f); [apply E|apply K]|by apply H]. Qed.

Lemma chold_mono {A} (pre pre' : Client.t -> Prop) (m : CM A) (post post' : A -> Client.t -> Prop) :
  chold pre' m post' -> (forall c, pre c -> pre' c) -> (forall a c, post' a c -> post a c) -> chold pre m post.
Proof. intros H Hp Hq w Hw. destruct (H w (Hp _ Hw)) as [S M]. split; [done|by apply Hq]. Qed.

Lemma chold_pre {A} (pre pre' : Client.t -> Prop) (m : CM A) post : chold pre' m post -> (forall c, pre c -> pre' c) -> chold pre m post.
Proof. intros H Hp. by eapply chold_mono; [exact H|exact Hp|]. Qed.

(** A quiet computation, with what is still needed after it. *)
Lemma chold_keep {A} (pre q : Client.t -> Prop) (m : CM A) :
  cquiet m -> (forall c, pre c -> q c) -> (forall c, q (core c) = q c) -> chold pre m (fun _ => q).
Proof. intros Hm Hp Hq. eapply chold_pre; [by apply chold_quiet|done]. Qed.

Lemma chold_when pre b m post : chold pre m post -> (forall c, pre c -> post tt c) -> chold pre (cwhen b m) post.
Proof. intros Hm Hq. destruct b; [done|by apply chold_ret]. Qed.

Lemma chold_setState (pre : Client.t -> Prop) s post : (forall c, pre c -> allowed (Client.state c) s = true) ->
  (forall c, pre c -> client_ok c -> client_ok (c{{Client.state := s}})) -> (forall c, pre c -> post tt (c{{Client.state := s}})) ->
  chold pre (setState s) post.
Proof. intros Ha K H w Hw. split; [apply cstep_setState; [by apply Ha|by apply K]|by apply H]. Qed.

Lemma chold_setHubAuth (pre : Client.t -> Prop) s : (forall c, pre c -> s = HubAuthState.Verified -> attested c) ->
  (forall c, pre (c{{Client.hubAuth := s}}) = pre c) -> chold pre (setHubAuth s) (fun _ => pre).
Proof.
  intros Hs Hp w Hw. split; [apply cstep_setHubAuth, Hs, Hw|]. unfold setHubAuth. rewrite run_bind. cbn [fst snd cgets]. case_bool_decide; [exact Hw|].
  change (pre ((client w){{Client.hubAuth := s}})). by rewrite Hp.
Qed.

Definition no_pending (c : Client.t) : Prop := Client.pending c = [].

Lemma chold_flushPending : chold anything flushPending (fun _ => no_pending).
Proof. intros w _. split; [apply csteps_flushPending|]. by destruct (flushPending_spec w) as [e ->]. Qed.

Lemma reset_ok c : client_ok c -> client_ok (resetConnection c).
Proof. keep_ok; try done. intros i j a b Ha _ Hu. apply lookup_replicate in Ha as [-> _]. done. Qed.

Lemma no_answers_ok s c : client_ok c -> Client.pending c = [] -> s <> LIVE -> client_ok (c{{Client.state := s}}).
Proof. intros K Hp Hs. revert K. keep_ok; [|done]. intros Hn. by destruct Hn. Qed.

Lemma chold_random {A} pre (f : CRng -> A * CRng) : chold pre (crandom f) (fun _ => pre).
Proof. intros w Hw. unfold crandom. destruct (f (crng w)). split; [|done]. split; [|done]. exists []. by rewrite app_nil_r. Qed.

Lemma csteps_connect : csteps connect.
Proof.
  apply (chold_csteps connect (fun _ => anything)). unfold connect. eapply chold_bind; [apply chold_flushPending|intros []].
  eapply chold_bind; [apply chold_quiet; [cquiet|done]|intros ok]. destruct ok; cbn [negb]; [|by apply chold_ret].
  set (fresh c := no_pending c /\ Client.hubAuth c = HubAuthState.NotRequested).
  eapply (chold_bind _ _ (fun _ => fresh)); [apply chold_modify; [done|intros; by apply reset_ok|by intros c Hc]|intros []].
  apply chold_gets. intros sig. eapply (chold_bind _ _ (fun _ => no_pending)).
  { apply chold_when; [|by intros c [[Hc Hd] Hg]].
    eapply chold_bind; [apply chold_random|intros n]. eapply (chold_bind _ _ (fun _ => no_pending)).
    - apply chold_modify; [done| |by intros c [[Hc Hd] Hg]]. intros c [[Hn Ha] Hg]. keep_ok. intros Hv. change (Client.hubAuth c = HubAuthState.Verified) in Hv. congruence.
    - intros []. apply chold_gets. intros len. eapply chold_mono; [apply (chold_setHubAuth no_pending)|by intros c []|by intros]; [|done].
      intros c _. by destruct (0 <? len). }
  intros []. apply chold_gets. intros c. eapply chold_bind; [apply (chold_keep _ no_pending); [cquiet|by intros ? []|done]|].
  intros ok. destruct ok; cbn [negb]; [|by apply chold_ret]. apply chold_gets. intros auth. eapply (chold_bind _ _ (fun _ => no_pending)).
  { apply chold_when; [|by intros ? []]. eapply chold_bind; [apply (chold_keep _ no_pending); [cquiet|by intros ? []|done]|]. intros now.
    apply chold_modify; [done|intros ? _; keep_ok|done]. }
  intros []. eapply (chold_bind _ _ (fun _ => anything)); [|intros []; by apply chold_ret].
  apply chold_setState; [done|intros; by apply no_answers_ok|done].
Qed.

Lemma csteps_disconnect : csteps disconnect.
Proof.
  apply (chold_csteps disconnect (fun _ => anything)). unfold disconnect. apply chold_gets. intros st.
  eapply (chold_bind _ _ (fun _ => anything)); [apply chold_when; [apply (chold_keep _ anything); [cquiet|done|done]|done]|intros []].
  eapply chold_bind; [apply chold_flushPending|intros []]. eapply (chold_bind _ _ (fun _ => no_pending)).
  - intros w Hw. split; [by apply csteps_notify; intros []|exact Hw].
  - intros []. apply chold_setState; [done|intros; by apply no_answers_ok|done].
Qed.

Lemma csteps_checkLive : csteps checkLiveTransition.
Proof.
  intros w. unfold checkLiveTransition. rewrite run_bind. cbn [fst snd cgets].
  destruct (bool_decide _ && _ && _) eqn:E; [|apply cstep_refl].
  apply andb_true_iff in E as [[Hs Hc]%andb_true_iff Hr%Z.leb_le]. apply bool_decide_eq_true in Hs. change (Client.state (client w) = SYNCING) in Hs.
  apply cstep_setState; [by rewrite Hs|]. keep_ok; done.
Qed.

Lemma csteps_adoptHubSignature sig : csteps (adoptHubSignature sig).
Proof.
  intros w. unfold adoptHubSignature. rewrite run_bind. cbn [fst snd cgets]. change (id (client w)) with (client w).
  case_match; [apply cstep_refl|]. case_match; [apply cstep_refl|]. case_match; [by apply cstep_setHubAuth|]. case_match; [apply cstep_refl|].
  apply cstep_setHubAuth. case_match eqn:V; [|discriminate]. intros _. by eexists _, _, _, _.
Qed.

Definition greeted (c : Client.t) : Prop := Client.state c = HELLO_SENT.

Lemma chold_adoptHubSignature sig : chold greeted (adoptHubSignature sig) (fun _ => greeted).
Proof.
  intros w Hw. split; [apply csteps_adoptHubSignature|]. unfold adoptHubSignature, setHubAuth. rewrite run_bind. cbn [fst snd cgets].
  repeat (case_match || case_bool_decide || rewrite run_bind || exact Hw); done.
Qed.

(** ** Frames *)

Lemma grantTable_length gs : length (grantTable gs) = kMaxGrants.
Proof. unfold grantTable. rewrite length_app, length_fmap, length_replicate, length_take. lia. Qed.

Lemma shadows_none : shadows_distinct (replicate kMaxShadowSlots ShadowEntry.none).
Proof. intros i j a b Ha _ Hu. apply lookup_replicate in Ha as [-> _]. done. Qed.

Lemma csteps_handleWelcome payload now : csteps (handleWelcome payload now).
Proof.
  apply (chold_csteps _ (fun _ => anything)). unfold handleWelcome. apply chold_gets. intros st.
  case_bool_decide as Hs; cbn [negb]; [|by apply chold_ret]. destruct (Welcome.decodeWelcome payload) as [m|]; [|by apply chold_ret].
  eapply (chold_bind _ _ (fun _ => greeted)); [apply chold_modify|intros []].
  { done. }
  { intros c [_ Hg]. keep_ok; [|apply grantTable_length|done|apply shadows_none].
    intros Hl. change (Client.state c = LIVE) in Hl. congruence. }
  { intros c [_ Hg]. change (Client.state c = HELLO_SENT). congruence. }
  apply chold_gets. intros c0. eapply (chold_bind _ _ (fun _ => greeted)).
  { case_bool_decide.
    - apply chold_modify; [done|intros c [Hg _]; keep_ok|by intros c []]. intros Hl. split; [done|]. by apply Hsync.
    - eapply (chold_bind _ _ (fun _ => greeted)); [|intros []; apply (chold_keep _ greeted); [cquiet|done|done]].
      apply chold_modify; [done|intros c [Hg _]; keep_ok|by intros c []]. intros Hl. change (Client.state c = LIVE) in Hl. unfold greeted in Hg. congruence. }
  intros []. eapply (chold_bind _ _ (fun _ => greeted)); [apply chold_when; [apply chold_adoptHubSignature|done]|intros []].
  eapply (chold_bind _ _ (fun _ => greeted)); [apply chold_when; [apply (chold_keep _ greeted); [cquiet|done|done]|done]|intros []].
  eapply (chold_bind _ _ (fun _ => anything)); [|intros []; apply csteps_chold, csteps_checkLive].
  apply chold_setState; [|intros c Hg; keep_ok|done].
  - intros c ->. done.
  - intros Hp. exfalso. assert (Client.state c = LIVE) by (by apply Hlive). unfold greeted in Hg. congruence.
Qed.

Lemma csteps_handleBlobChunk payload now : csteps (handleBlobChunk payload now).
Proof.
  unfold handleBlobChunk. case_match; [|by apply csteps_quiet; cquiet]. do 2 (case_match; [by apply csteps_quiet; cquiet|]).
  apply csteps_bind; [apply csteps_modify; [intros; by case_match|]|].
  { intros cl. case_match; keep_ok. }
  intros []. apply csteps_bind; [by apply csteps_quiet; cquiet|]. intros cl. case_match; [by apply csteps_quiet; cquiet|]. cbv zeta.
  destruct (bool_decide (take _ _ = _)).
  all: apply csteps_bind; [apply csteps_modify; [done|intros c'; keep_ok; intros Hl; split; [done|by apply Hsync] ]|].
  all: intros []; apply csteps_bind; [by apply csteps_quiet; cquiet|]; intros []; apply csteps_checkLive.
Qed.

Lemma findOrCreateShadow_ok ch l i l' : findOrCreateShadow ch l = (i, l') -> shadows_distinct l -> length l' = length l /\ shadows_distinct l'.
Proof.
  unfold findOrCreateShadow. destruct (find_index _ l) as [k|] eqn:E; [by intros [= <- <-]|].
  destruct (find_index (fun e => negb _) l) as [k|] eqn:F; [|by intros [= <- <-]]. intros [= <- <-] H. rewrite length_insert. split; [done|].
  apply find_index_None in E. rewrite Forall_lookup in E. assert (Hk := find_index_lt _ _ _ F).
  assert (N : forall j b, l !! j = Some b -> ShadowEntry.used b = true -> ShadowEntry.channel_id b <> ch).
  { intros j b Hb Hu Hc. specialize (E j b Hb). cbn in E. rewrite Hu, Hc, Z.eqb_refl in E. done. }
  intros p q a b Ha Hb Hua Hub Hc. destruct (decide (p = k)) as [->|Hp], (decide (q = k)) as [->|Hq]; [done| | |].
  - rewrite list_lookup_insert_eq in Ha by done. injection Ha as <-. rewrite list_lookup_insert_ne in Hb by done. by edestruct N.
  - rewrite list_lookup_insert_eq in Hb by done. injection Hb as <-. rewrite list_lookup_insert_ne in Ha by done. by edestruct N.
  - rewrite list_lookup_insert_ne in Ha, Hb by done. by eapply H.
Qed.

Lemma shadows_alter f i l : (forall e, ShadowEntry.used (f e) = ShadowEntry.used e /\ ShadowEntry.channel_id (f e) = ShadowEntry.channel_id e) ->
  shadows_distinct l -> shadows_distinct (alter f i l).
Proof.
  intros Hf H p q a b Ha Hb Hua Hub Hc.
  assert (G : forall p a, alter f i l !! p = Some a -> exists a', l !! p = Some a' /\ ShadowEntry.used a = ShadowEntry.used a' /\ ShadowEntry.channel_id a = ShadowEntry.channel_id a').
  { intros p' a' Hp. destruct (decide (p' = i)) as [->|]; [|rewrite list_lookup_alter_ne in Hp by done; by eexists].
    rewrite list_lookup_alter_eq in Hp. destruct (l !! i) as [x|] eqn:E; [|done]. injection Hp as <-. exists x. by destruct (Hf x). }
  destruct (G _ _ Ha) as (a' & ? & ? & ?), (G _ _ Hb) as (b' & ? & ? & ?). eapply H; [done|done|congruence|congruence|congruence].
Qed.

Lemma csteps_handleState ch seq payload now : csteps (handleState ch seq payload now).
Proof.
  apply (chold_csteps _ (fun _ => anything)). unfold handleState. apply chold_gets. intros l0. destruct (findOrCreateShadow ch l0) as [oi l] eqn:E.
  destruct oi as [i|]; [|by apply chold_ret]. cbv zeta. destruct (StateApply.applyStateFrame _ _ _) as [[acc cap] slot].
  eapply (chold_bind _ _ (fun _ => anything)); [apply chold_modify; [done| |done]|intros []; apply csteps_chold].
  { intros c [_ <-]. keep_ok; destruct (findOrCreateShadow_ok _ _ _ _ E Hsh) as [Hl Hd].
    - change (length (alter (fun e => e{{ShadowEntry.slot := slot}}) i l) = kMaxShadowSlots). rewrite length_alter. congruence.
    - by apply shadows_alter. }
  case_match; [by apply csteps_quiet; cquiet|]. apply csteps_bind; [by apply csteps_notify; intros []|intros []]. apply (chold_csteps _ (fun _ => anything)).
  apply chold_gets. intros st. eapply (chold_bind _ _ (fun _ => anything)).
  - case_bool_decide as Hst; cbn [andb]; [|by apply chold_ret].
    subst st. destruct (StateApply.valid _); [by apply chold_ret|]. cbn [cwhen negb]. eapply (chold_bind _ _ (fun _ => anything)).
    + apply chold_modify; [done|intros c [_ Hg]; keep_ok|done]. intros Hl. change (Client.state c = LIVE) in Hl. congruence.
    + intros []. apply csteps_chold, csteps_checkLive.
  - intros []. apply csteps_chold. apply csteps_bind; [by apply csteps_quiet; cquiet|]. intros cl. apply csteps_when. csteps_mod.
Qed.

Lemma adoptGrants_length gs l : length (foldl adoptGrant l gs) = length l.
Proof.
  revert l. induction gs as [|g gs IH]; intros l; [done|]. cbn [foldl]. rewrite IH. unfold adoptGrant. repeat case_match; by rewrite ?length_alter, ?length_insert.
Qed.

Lemma csteps_handleGrant payload : csteps (handleGrant payload).
Proof.
  unfold handleGrant. case_match; [|by apply csteps_quiet; cquiet]. apply csteps_bind; [apply csteps_modify; [done|intros c; keep_ok]|].
  { rewrite <- Hgrant. apply adoptGrants_length. }
  intros []. apply csteps_when. apply csteps_bind; [by apply csteps_quiet; cquiet|]. intros before. apply csteps_bind; [csteps_mod|intros []].
  apply csteps_when. apply csteps_bind; [by apply csteps_quiet; cquiet|intros []]. by apply csteps_notify; intros [].
Qed.

Lemma removeFirst_length id l l' : removeFirst id l = Some l' -> length l = S (length l').
Proof.
  revert l'. induction l as [|x l IH]; intros l' H; [done|]. cbn in H. case_match; [by injection H as <-|].
  destruct (removeFirst id l) as [k|]; [|done]. injection H as <-. cbn. by rewrite (IH k).
Qed.

Lemma answered_ok l c : client_ok c -> (length l <= length (Client.pending c))%nat -> (l <> [] -> Client.pending c <> []) -> client_ok (c{{Client.pending := l}}).
Proof. intros K Hl Hn. revert K. keep_ok; [|by intros H; apply Hlive, Hn]. change (length l <= kMaxPendingIntents)%nat. lia. Qed.

Lemma csteps_handleEcho payload : csteps (handleEcho payload).
Proof.
  unfold handleEcho. case_match; [|by apply csteps_quiet; cquiet]. intros w. rewrite run_bind. cbn [fst snd cgets].
  destruct (removeFirst _ _) as [l|] eqn:E; [|apply cstep_refl]. rewrite run_bind. assert (Hl := removeFirst_length _ _ _ E). split.
  - eexists [OnEcho _ _ _]. split; [done|]. cbn [follow fmap list_fmap follow1 phase_of mbind option_bind]. rewrite E. done.
  - intros K. assert (K' : client_ok ((client w){{Client.pending := l}})).
    { apply answered_ok; [done|lia|]. intros _ Hn. rewrite Hn in Hl. done. }
    exact K'.
Qed.

Lemma csteps_answer_nack m : csteps (
  cwhen (nk_has_intent_id m)
    (cmodify (fun c => c{{Client.pending := default (Client.pending c) (removeFirst (nk_intent_id m) (Client.pending c))}})) ;;
  cnotify (OnNack m)).
Proof.
  intros w. set (l := Client.pending (client w)). set (l' := if nk_has_intent_id m then default l (removeFirst (nk_intent_id m) l) else l).
  assert (E : exists e, snd ((cwhen (nk_has_intent_id m)
    (cmodify (fun c => c{{Client.pending := default (Client.pending c) (removeFirst (nk_intent_id m) (Client.pending c))}})) ;;
    cnotify (OnNack m)) w) = mkClientWorld ((client w){{Client.pending := l'}}) e (crng w) (ctrace w ++ [OnNack m])).
  { rewrite run_bind. unfold l'. destruct (nk_has_intent_id m); eexists; [done|]. unfold l. by destruct w as [[]]. }
  destruct E as [e E]. rewrite E. split.
  - exists [OnNack m]. split; [done|]. done.
  - intros K. change (client_ok ((client w){{Client.pending := l'}})). unfold l'. destruct (nk_has_intent_id m); [|by apply answered_ok].
    destruct (removeFirst _ l) as [k|] eqn:R; [|by apply answered_ok]. apply removeFirst_length in R. apply answered_ok; [done|change (length k <= length l)%nat; lia|].
    intros _ Hn. unfold l in R. by rewrite Hn in R.
Qed.

Lemma csteps_handleNack payload : csteps (handleNack payload).
Proof.
  unfold handleNack. destruct (decodeNack payload) as [m|]; [|by apply csteps_quiet; cquiet]. apply (chold_csteps _ (fun _ => anything)).
  apply chold_gets. intros st. eapply (chold_bind _ _ (fun _ => anything)); [|intros []; apply csteps_chold, csteps_answer_nack].
  case_bool_decide as Hs; [|by apply chold_ret]. cbn [cwhen]. subst st. apply chold_setState; [done|intros c [_ Hg]; keep_ok|done].
  intros Hn. exfalso. assert (Client.state c = LIVE) by (by apply Hlive). congruence.
Qed.

(** ** Timers and the rest *)

Lemma ordinary_estop_silent f ok : silent (Wrote f ok).
Proof. by intros []. Qed.

Lemma csteps_writeEstop f : csteps (writeEstop f).
Proof.
  unfold writeEstop. destruct (encodeEstop _ _) as [n buf]. case_match; [by apply csteps_quiet; cquiet|]. apply csteps_bind; [|by intros; apply csteps_quiet; cquiet].
  unfold writeOut. apply csteps_bind; [by apply csteps_quiet; cquiet|]. intros ok. apply csteps_bind; [|by intros; apply csteps_quiet; cquiet].
  intros w. split; [|done]. exists [Wrote (take n buf) ok]. split; [done|]. by apply follow_silent, Forall_singleton, ordinary_estop_silent.
Qed.

Lemma csteps_initiateEstop cause : csteps (initiateEstop cause).
Proof.
  unfold initiateEstop. apply csteps_bind; [csteps_mod|intros []]. apply csteps_bind; [by apply csteps_quiet; cquiet|]. intros c.
  apply csteps_bind; [apply csteps_writeEstop|]. intros sent. apply csteps_bind; [by apply csteps_quiet; cquiet|]. intros [].
  apply csteps_bind; [by apply csteps_quiet; cquiet|]. intros now. csteps_mod.
Qed.

Lemma csteps_setHubAuth_timeout : csteps (setHubAuth HubAuthState.Timeout).
Proof. intros w. by apply cstep_setHubAuth. Qed.

Lemma client_writeEstop f w : client (snd (writeEstop f w)) = client w.
Proof.
  unfold writeEstop. destruct (encodeEstop _ _) as [n buf]. case_match; [done|]. rewrite run_bind. unfold writeOut. rewrite run_bind. cbn.
  unfold cask. by destruct (ct_write _ _).
Qed.

Lemma chold_writeEstop pre f : chold pre (writeEstop f) (fun _ => pre).
Proof. intros w Hw. split; [apply csteps_writeEstop|]. by rewrite client_writeEstop. Qed.

Lemma csteps_pumpEstopRepeat now : csteps (pumpEstopRepeat now).
Proof.
  apply (chold_csteps _ (fun _ => anything)). unfold pumpEstopRepeat. apply chold_gets. intros c0.
  case_match; [by apply chold_ret|]. destruct (Z.leb_spec limits.estop_repeat_max (Client.estopAttempts c0)) as [_|Hm]; [apply csteps_chold; csteps_mod|].
  case_match; [by apply chold_ret|]. set (few c := Client.estopAttempts c < limits.estop_repeat_max).
  eapply (chold_bind _ _ (fun _ => few)); [eapply chold_pre; [apply chold_writeEstop|]|intros sent].
  { intros c [_ Ec]. change (c = c0) in Ec. by subst c. }
  eapply (chold_bind _ _ (fun _ => few)); [apply chold_when; [|done]|intros []]; (apply chold_modify; [done|intros c Hf; keep_ok|done]).
  all: unfold few in Hf; assert (E : u32 (Client.estopAttempts c + 1) = Client.estopAttempts c + 1) by (apply u32_id; unfold is_u32, limits.estop_repeat_max in *; lia).
  - change (0 <= u32 (Client.estopAttempts c + 1)). lia.
  - change (u32 (Client.estopAttempts c + 1) <= limits.estop_repeat_max). lia.
Qed.

Lemma csteps_setHubPublicKey key : csteps (setHubPublicKey key).
Proof. apply csteps_modify; [intros c; by case_match|]. intros c. case_match; keep_ok. Qed.

Lemma csteps_handlePairGrant payload : csteps (handlePairGrant payload).
Proof.
  unfold handlePairGrant. case_match; [|by apply csteps_quiet; cquiet]. apply csteps_bind; [|intros []; by apply csteps_notify; intros []].
  apply csteps_when, csteps_bind; [apply csteps_setHubPublicKey|intros []; by apply csteps_notify; intros []].
Qed.

Lemma csteps_handleHubSig payload : csteps (handleHubSig payload).
Proof. unfold handleHubSig. case_match; [apply csteps_when, csteps_adoptHubSignature|by apply csteps_quiet; cquiet]. Qed.

Lemma csteps_pumpHubSigTimeout now : csteps (pumpHubSigTimeout now).
Proof.
  unfold pumpHubSigTimeout. apply csteps_bind; [by apply csteps_quiet; cquiet|]. intros c. do 2 (case_match; [by apply csteps_quiet; cquiet|]).
  apply csteps_setHubAuth_timeout.
Qed.

Lemma csteps_runProbe : csteps runProbe.
Proof.
  unfold runProbe. apply csteps_bind; [by apply csteps_quiet; cquiet|]. intros st. case_match; [by apply csteps_quiet; cquiet|].
  apply csteps_bind; [by apply csteps_quiet; cquiet|]. intros ok. case_match; [by apply csteps_quiet; cquiet|].
  apply csteps_bind; [csteps_mod|intros []]. apply csteps_bind; [by apply csteps_quiet; cquiet|]. intros now.
  apply csteps_bind; [csteps_mod|intros []]. by apply csteps_quiet; cquiet.
Qed.

Lemma csteps_handleProbeFrame payload : csteps (handleProbeFrame payload).
Proof.
  unfold handleProbeFrame. apply csteps_bind; [by apply csteps_quiet; cquiet|]. intros a. case_match; [by apply csteps_quiet; cquiet|].
  case_match; [|by apply csteps_quiet; cquiet]. apply csteps_modify; [intros c; by case_match|]. intros c. case_match; keep_ok.
Qed.

Lemma csteps_pumpProbe now : csteps (pumpProbe now).
Proof.
  unfold pumpProbe. apply csteps_bind; [by apply csteps_quiet; cquiet|]. intros c. do 2 (case_match; [by apply csteps_quiet; cquiet|]).
  apply csteps_bind; [by apply csteps_quiet; cquiet|]. intros ok. csteps_mod.
Qed.

(** ** The loop *)

(** The hub said goodbye. *)
Lemma csteps_closed : csteps (setState CLOSED ;; flushPending).
Proof.
  intros w. rewrite run_bind. destruct (flushPending_spec (snd (setState CLOSED w))) as [e E]. cbn [fst] in *. change (setState CLOSED w).1 with tt. rewrite E. split.
  - exists (OnStateChange CLOSED :: (OnPendingDropped <$> Client.pending (client w))). split; [exact (eq_sym (app_assoc (ctrace w) [OnStateChange CLOSED] _))|].
    assert (H := follow_dropped CLOSED (Client.pending (client w)) []). rewrite app_nil_r in H. exact H.
  - keep_ok; done || (cbn; lia).
Qed.

Lemma csteps_dispatch h payload now : csteps (dispatch h payload now).
Proof.
  unfold dispatch. repeat (case_match; [first [apply csteps_handleWelcome|apply csteps_handleState|apply csteps_handleEcho|apply csteps_handleNack
    |apply csteps_handleGrant|by apply csteps_notify; intros []|apply csteps_handleBlobChunk|apply csteps_quiet, cquiet_handlePingC|apply csteps_handlePairGrant
    |apply csteps_handleHubSig|apply csteps_handleProbeFrame|apply csteps_closed]|]). by apply csteps_quiet; cquiet.
Qed.

Lemma csteps_handleFrame now fb : csteps (handleFrameC now fb).
Proof.
  unfold handleFrameC. cbv zeta. case_match; [case_match; [csteps_mod|by apply csteps_quiet; cquiet]|]. case_match; [|by apply csteps_quiet; cquiet].
  apply csteps_bind; [csteps_mod|intros []]. apply csteps_dispatch.
Qed.

Lemma csteps_update nowUs frames : csteps (clientUpdate nowUs frames).
Proof.
  unfold clientUpdate. apply csteps_bind; [by apply csteps_quiet; cquiet|]. intros mono. destruct (MonotonicMs.advance nowUs mono) as [now m].
  apply csteps_bind; [csteps_mod|intros []]. apply csteps_bind; [apply csteps_each; intros; apply csteps_handleFrame|intros []].
  apply csteps_bind; [apply csteps_quiet, cquiet_pumpPing|intros []]. apply csteps_bind; [apply csteps_pumpEstopRepeat|intros []].
  apply csteps_bind; [apply csteps_quiet, cquiet_pumpCatalogReady|intros []]. apply csteps_bind; [apply csteps_pumpProbe|intros []].
  apply csteps_pumpHubSigTimeout.
Qed.

(** ** The client as its application drives it *)

Inductive client_call : Type :=
| Connect | Disconnect | UpdateClient (nowUs : Z) (frames : list FrameBuffer.t)
| SendIntent (ch : Z) (values : list IntentValueField) (precondition : option Z) (takeover : bool)
| InitiateEstop (cause : Z) | SendPairReq (proof : bytes) | SendPairKnock | RunProbe
| AddSubscriptionWish (ch rate_hz : Z) (prio : Priority) | SetCachedEtag (etag : bytes) | SetClientVersion (ver : option bytes)
| SetHubPublicKey (key : bytes) | RequestHubSignature (on : bool) | SetTokenPresentationMode (mode : Z).

(** A call, and the id of the intent it took. *)
Definition cperform (c : client_call) : CM (option Z) :=
  match c with
  | Connect => _ ← connect; mret None
  | Disconnect => disconnect ;; mret None
  | UpdateClient nowUs frames => clientUpdate nowUs frames ;; mret None
  | SendIntent ch values pre takeover => sendIntent ch values pre takeover
  | InitiateEstop cause => initiateEstop cause ;; mret None
  | SendPairReq proof => _ ← sendPairReq proof; mret None
  | SendPairKnock => _ ← sendPairKnock; mret None
  | RunProbe => _ ← runProbe; mret None
  | AddSubscriptionWish ch rate prio => _ ← addSubscriptionWish ch rate prio; mret None
  | SetCachedEtag etag => setCachedEtag etag ;; mret None
  | SetClientVersion ver => setClientVersion ver ;; mret None
  | SetHubPublicKey key => setHubPublicKey key ;; mret None
  | RequestHubSignature on => requestHubSignature on ;; mret None
  | SetTokenPresentationMode mode => setTokenPresentationMode mode ;; mret None
  end.

Definition took (r : option Z) : list client_event := match r with Some id => [Took id] | None => [] end.

(** The worlds a client gets to, with what happened on the way; between calls the
    surroundings move on. *)
Inductive chistory : ClientWorld -> list client_event -> Prop :=
| c_new w id : client w = Client.init id -> ctrace w = [] -> chistory w []
| c_call w h c r w' tr : chistory w h -> cperform c w = (r, w') -> ctrace w' = ctrace w ++ tr -> chistory w' (h ++ (Did <$> tr) ++ took r)
| c_env w h e r : chistory w h -> chistory (mkClientWorld (client w) e r (ctrace w)) h.

(** A call with the intent it took. *)
Definition ctakes (m : CM (option Z)) : Prop := forall w,
  (exists tr, ctrace (snd (m w)) = ctrace w ++ tr
              /\ follow (phase_of (client w)) ((Did <$> tr) ++ took (fst (m w))) = Some (phase_of (client (snd (m w)))))
  /\ (client_ok (client w) -> client_ok (client (snd (m w)))).

Lemma ctakes_none {A} (m : CM A) : csteps m -> ctakes (_ ← m; mret None).
Proof.
  intros H w. rewrite run_bind. destruct (H w) as [(tr & T & F) K]. split; [|exact K]. exists tr. split; [exact T|]. cbn [fst took mret CM_ret]. by rewrite app_nil_r.
Qed.

(** What [sendIntent] asks of the client. *)
Definition may_send (c : Client.t) : bool :=
  bool_decide (Client.state c = LIVE)
  && negb (bool_decide (Client.hubAuth c = HubAuthState.Mismatch) || bool_decide (Client.hubAuth c = HubAuthState.Timeout))
  && (length (Client.pending c) <? kMaxPendingIntents)%nat.

Definition intent_of (c : Client.t) (ch : Z) (values : list IntentValueField) (precondition : option Z) (takeover : bool) : IntentMsg :=
  mkIntent ch (Client.nextIntentId c) values (match precondition with Some _ => true | None => false end) (default 0 precondition) true takeover.

Lemma sendIntent_eq ch values pre takeover w :
  sendIntent ch values pre takeover w =
  if may_send (client w) then
    let r := sendEncoded FrameType.INTENT ch (encodeIntent (intent_of (client w) ch values pre takeover) (replicate 300 0)) w in
    if fst r then
      let next := u16 (Client.nextIntentId (client w) + 1) in
      (Some (Client.nextIntentId (client w)),
       with_client ((client (snd r)){{Client.pending := Client.pending (client (snd r)) ++ [Client.nextIntentId (client w)];
                                      Client.nextIntentId := (if next =? 0 then 1 else next)}}) (snd r))
    else (None, snd r)
  else (None, w).
Proof.
  unfold sendIntent, may_send. rewrite run_bind. cbn [fst snd cgets]. change (id (client w)) with (client w).
  case_bool_decide; cbn [negb andb]; [|done]. case_match; cbn [negb andb]; [done|].
  rewrite Nat.leb_antisym. destruct (_ <? _)%nat; cbn [negb]; [|done]. rewrite run_bind. fold (intent_of (client w) ch values pre takeover).
  destruct (sendEncoded _ _ _ w) as [ok w']. cbn [fst snd]. by destruct ok.
Qed.

Lemma ctakes_sendIntent ch values pre takeover : ctakes (sendIntent ch values pre takeover).
Proof.
  intros w. rewrite sendIntent_eq. destruct (may_send (client w)) eqn:Hm; [|split; [|done]; exists []; by rewrite app_nil_r].
  cbv zeta. assert (Q := cquiet_sendEncoded FrameType.INTENT ch (encodeIntent (intent_of (client w) ch values pre takeover) (replicate 300 0)) eq_refl w).
  destruct (sendEncoded _ _ _ w) as [ok w']. cbn [fst snd] in *. destruct (cstep_quiet _ _ Q) as [(tr & T & F) K].
  destruct ok; [|split; [|done]; exists tr; split; [done|]; cbn; by rewrite app_nil_r].
  unfold may_send in Hm. apply andb_true_iff in Hm as [[Hl _]%andb_true_iff Hlen%Nat.ltb_lt]. apply bool_decide_eq_true in Hl.
  destruct Q as [E _]. assert (Es : Client.state (client w') = LIVE) by (rewrite <- Hl; change (Client.state (core (client w')) = Client.state (core (client w))); by rewrite E).
  assert (Ep : Client.pending (client w') = Client.pending (client w)) by (change (Client.pending (core (client w')) = Client.pending (core (client w))); by rewrite E).
  split.
  - exists tr. split; [exact T|]. rewrite follow_app, F. cbn [fst took follow mbind option_bind]. unfold phase_of. cbn [follow1].
    rewrite Es, Ep, bool_decide_eq_true_2 by done. destruct (Nat.ltb_spec (length (Client.pending (client w))) kMaxPendingIntents); [|lia]. cbn [andb].
    change (Some (LIVE, Client.pending (client w) ++ [Client.nextIntentId (client w)]) = Some (Client.state (client w'), Client.pending (client w) ++ [Client.nextIntentId (client w)])).
    by rewrite Es.
  - intros K0. specialize (K K0). revert K. keep_ok.
    + change (length (Client.pending (client w') ++ [Client.nextIntentId (client w)]) <= kMaxPendingIntents)%nat. rewrite length_app, Ep. cbn. lia.
    + done.
    + change (0 < if u16 (Client.nextIntentId (client w) + 1) =? 0 then 1 else u16 (Client.nextIntentId (client w) + 1)).
      destruct (Z.eqb_spec (u16 (Client.nextIntentId (client w) + 1)) 0); [lia|]. assert (H := u16_range (Client.nextIntentId (client w) + 1)). unfold is_u16 in H. lia.
    + change ((if u16 (Client.nextIntentId (client w) + 1) =? 0 then 1 else u16 (Client.nextIntentId (client w) + 1)) < 65536).
      destruct (_ =? 0); [lia|]. apply u16_range.
Qed.

Lemma ctakes_perform c : ctakes (cperform c).
Proof.
  destruct c; cbn [cperform]; try (apply ctakes_none).
  - apply csteps_connect.
  - apply csteps_disconnect.
  - apply csteps_update.
  - apply ctakes_sendIntent.
  - apply csteps_initiateEstop.
  - apply csteps_quiet, cquiet_sendPairReq.
  - apply csteps_quiet, cquiet_sendPairKnock.
  - apply csteps_runProbe.
  - apply (chold_csteps _ (fun _ => anything)). unfold addSubscriptionWish. apply chold_gets. intros ws. destruct (Nat.leb_spec kMaxWishes (length ws)); [by apply chold_ret|].
    eapply (chold_bind _ _ (fun _ => anything)); [|intros []; by apply chold_ret]. apply chold_modify; [done|intros c _; keep_ok|done].
    change (length (ws ++ [Wish.mk ch rate_hz prio]) <= kMaxWishes)%nat. rewrite length_app. cbn. lia.
  - csteps_mod.
  - csteps_mod.
  - apply csteps_setHubPublicKey.
  - csteps_mod.
  - csteps_mod.
Qed.

Lemma init_ok id : client_ok (Client.init id).
Proof. unfold client_ok. split_and!; cbn; try done; try (vm_compute; lia). apply shadows_none. Qed.

Lemma chistory_good w h : chistory w h -> client_ok (client w) /\ follow (CLOSED, []) h = Some (phase_of (client w)).
Proof.
  induction 1 as [w id E T|w h c r w' tr _ [K F] E T|w h e r _ IH]; [rewrite E; split; [apply init_ok|done]| |exact IH].
  destruct (ctakes_perform c w) as [(tr' & T' & F') K']. rewrite E in T', F', K'. cbn [fst snd] in *. rewrite T in T'. apply app_inv_head in T' as <-.
  split; [by apply K'|]. by rewrite follow_app, F.
Qed.
End correct.
