(* ===== verification/ClientEstop.v ===== *)
(** * ClientEstop: an emergency stop is repeated until it is confirmed

    What an emergency stop of the client leads to over the following updates:
    it is written again at its interval until the hub's safety snapshot shows it or
    the attempts are used up, and then the failure is reported. Nothing else the
    client does writes such a frame or disturbs the repetition. *)

From S2P Require Import Prelude Registry Float ByteIO Serial Frame Blob Messages Codec Trust Handshake Raw Crypto.
From S2P Require Import Channel Safety Session ClientState ClientFacts.
Local Open Scope Z_scope.

(** The members of the repetition. *)
Definition estop_view (c : Client.t) : bool * bool * Z * Z * Z * Z :=
  (Client.estopActive c, Client.estopSendFailed c, Client.estopCause c, Client.estopSentSeq c, Client.estopAttempts c, Client.lastEstopSendMs c).

(** The emergency stops among the effects. *)
Definition estops (tr : list ClientEffect) : list bytes :=
  omap (fun e => match e with Wrote f _ => if isEstopBytes f then Some f else None | _ => None end) tr.

Section calm.
Context {P : ClientPlatform}.

(** Nothing happened to the repetition. *)
Definition calm (w w' : ClientWorld) : Prop :=
  estop_view (client w') = estop_view (client w) /\ exists tr, ctrace w' = ctrace w ++ tr /\ estops tr = [].

Definition calms {A} (m : CM A) : Prop := forall w, calm w (snd (m w)).

Lemma calm_refl w : calm w w.
Proof. split; [done|]. exists []. by rewrite app_nil_r. Qed.

Lemma estops_app t1 t2 : estops (t1 ++ t2) = estops t1 ++ estops t2.
Proof. apply omap_app. Qed.

Lemma calm_trans w1 w2 w3 : calm w1 w2 -> calm w2 w3 -> calm w1 w3.
Proof.
  intros (E1 & t1 & T1 & F1) (E2 & t2 & T2 & F2). split; [by rewrite E2|]. exists (t1 ++ t2). by rewrite T2, T1, app_assoc, estops_app, F1, F2.
Qed.

Lemma calm_quiet w w' : cquietly w w' -> calm w w'.
Proof.
  intros (E & tr & T & F). split; [change (estop_view (core (client w')) = estop_view (core (client w))); by rewrite E|]. exists tr. split; [done|].
  clear T. induction F as [|e tr He _ IH]; [done|]. destruct e; try done. cbn in He |- *. by rewrite He.
Qed.

Lemma calms_quiet {A} (m : CM A) : cquiet m -> calms m.
Proof. intros H w. by apply calm_quiet. Qed.

Lemma calms_bind {A B} (m : CM A) (k : A -> CM B) : calms m -> (forall a, calms (k a)) -> calms (m ≫= k).
Proof. intros Hm Hk w. rewrite run_bind. eapply calm_trans; [apply Hm|apply Hk]. Qed.

Lemma calms_when b m : calms m -> calms (cwhen b m).
Proof. destruct b; [done|]. intros _ w. apply calm_refl. Qed.

Lemma calms_each {T} (l : list T) body : (forall x, calms (body x)) -> calms (ceach l body).
Proof. intros H. induction l as [|x l IH]; [intros w; apply calm_refl|]. by apply calms_bind. Qed.

Lemma calms_modify f : (forall c, estop_view (f c) = estop_view c) -> calms (cmodify f).
Proof. intros H w. split; [apply H|]. exists []. by rewrite app_nil_r. Qed.

Lemma calms_notify e : (forall f ok, e <> Wrote f ok) -> calms (cnotify e).
Proof. intros He w. split; [done|]. exists [e]. split; [done|]. destruct e; try done. by edestruct He. Qed.
End calm.

(** Calm computations are built of calm ones. *)
Ltac calm :=
  repeat (intros; cbv zeta; lazymatch goal with
    | |- calms (mbind _ _) => apply calms_bind
    | |- calms (cwhen _ _) => apply calms_when
    | |- calms (ceach _ _) => apply calms_each
    | |- calms (cmodify _) => apply calms_modify; intros; repeat case_match; done
    | |- calms (cnotify _) => by apply calms_notify
    | |- calms (match _ with _ => _ end) => case_match
    | _ => solve [eauto 2 with calm | apply calms_quiet; cquiet]
    end).

Create HintDb calm.

Section handlers.
Context {P : ClientPlatform}.

Lemma calms_setState s : calms (setState s).
Proof. unfold setState. calm. Qed.
Lemma calms_setHubAuth s : calms (setHubAuth s).
Proof. unfold setHubAuth. calm. Qed.
Lemma calms_flushPending : calms flushPending.
Proof. unfold flushPending. calm. Qed.
#[local] Hint Resolve calms_setState calms_setHubAuth calms_flushPending : calm.
Lemma calms_checkLive : calms checkLiveTransition.
Proof. unfold checkLiveTransition. calm. Qed.
Lemma calms_adoptHubSignature sig : calms (adoptHubSignature sig).
Proof. unfold adoptHubSignature. calm. Qed.
#[local] Hint Resolve calms_checkLive calms_adoptHubSignature : calm.
Lemma calms_handleWelcome payload now : calms (handleWelcome payload now).
Proof. unfold handleWelcome. calm. Qed.
Lemma calms_handleBlobChunk payload now : calms (handleBlobChunk payload now).
Proof. unfold handleBlobChunk. calm. Qed.
Lemma calms_handleEvent ch payload : calms (handleEvent ch payload).
Proof. unfold handleEvent. calm. Qed.
Lemma calms_handleGrant payload : calms (handleGrant payload).
Proof. unfold handleGrant. calm. Qed.
Lemma calms_handleEcho payload : calms (handleEcho payload).
Proof. unfold handleEcho. calm. Qed.
Lemma calms_handleNack payload : calms (handleNack payload).
Proof. unfold handleNack. calm. Qed.
Lemma calms_handlePairGrant payload : calms (handlePairGrant payload).
Proof. unfold handlePairGrant, setHubPublicKey. calm. Qed.
Lemma calms_handleHubSig payload : calms (handleHubSig payload).
Proof. unfold handleHubSig. calm. Qed.
Lemma calms_handleProbeFrame payload : calms (handleProbeFrame payload).
Proof. unfold handleProbeFrame. calm. Qed.
Lemma calms_pumpProbe now : calms (pumpProbe now).
Proof. unfold pumpProbe. calm. Qed.
Lemma calms_pumpHubSigTimeout now : calms (pumpHubSigTimeout now).
Proof. unfold pumpHubSigTimeout. calm. Qed.
#[local] Hint Resolve calms_handleWelcome calms_handleBlobChunk calms_handleEvent calms_handleGrant calms_handleEcho calms_handleNack calms_handlePairGrant
  calms_handleHubSig calms_handleProbeFrame : calm.

(** A snapshot of the safety channel that shows the emergency stop [seq]. *)
Definition confirming (seq ch : Z) (payload : bytes) : bool :=
  (ch =? channels.safety) && (8 <=? length payload)%nat && estopReached payload seq.

(** The snapshot does not confirm what is being repeated. *)
Definition unmoved (ch : Z) (payload : bytes) (c : Client.t) : Prop :=
  Client.estopActive c = false \/ confirming (Client.estopSentSeq c) ch payload = false.

Lemma calm_confirm ch payload w : unmoved ch payload (client w) ->
  calm w (snd ((c ← cgets id;
    cwhen ((ch =? channels.safety) && Client.estopActive c && (8 <=? length payload)%nat && estopReached payload (Client.estopSentSeq c))
      (cmodify (fun c => c{{Client.estopActive := false; Client.estopSendFailed := false}}))) w)).
Proof.
  unfold unmoved, confirming. intros H. rewrite run_bind. cbn [fst snd cgets]. change (id (client w)) with (client w).
  destruct (Client.estopActive (client w)); [|rewrite andb_false_r; apply calm_refl]. destruct H as [H|H]; [done|]. rewrite andb_true_r.
  destruct (ch =? channels.safety); [|apply calm_refl]. destruct (8 <=? length payload)%nat; [|apply calm_refl].
  destruct (estopReached _ _); [done|apply calm_refl].
Qed.

Lemma calm_unmoved ch payload w w' : calm w w' -> unmoved ch payload (client w) -> unmoved ch payload (client w').
Proof. intros [E _]. injection E as E1 E2 E3 E4 E5 E6. unfold unmoved. by rewrite E1, E4. Qed.

Lemma calm_then {A} (m : CM A) (k : A -> CM unit) w :
  calms m -> (forall a w', calm w w' -> calm w' (snd (k a w'))) -> calm w (snd ((m ≫= k) w)).
Proof. intros Hm Hk. rewrite run_bind. eapply calm_trans; [apply Hm|apply Hk, Hm]. Qed.

Lemma calm_handleState ch seq payload now w : unmoved ch payload (client w) -> calm w (snd (handleState ch seq payload now w)).
Proof.
  intros Hc. unfold handleState. apply calm_then; [calm|]. intros l0 w1 L1. destruct (findOrCreateShadow ch _) as [oi l]. destruct oi as [i|]; [|apply calm_refl].
  cbv zeta. destruct (StateApply.applyStateFrame _ _ _) as [[acc cap] slot].
  apply calm_then; [calm|]. intros [] w2 L2. destruct acc; cbn [negb]; [|apply calm_refl].
  apply calm_then; [calm|]. intros [] w3 L3. apply calm_then; [calm|]. intros st w4 L4. apply calm_then; [calm|]. intros [] w5 L5. apply calm_confirm.
  do 5 (eapply calm_unmoved; [eassumption|]). exact Hc.
Qed.

(** A frame that confirms the emergency stop [seq]. *)
Definition confirms (seq : Z) (fb : FrameBuffer.t) : bool :=
  negb (isEstopBytes (FrameBuffer.bytes_of fb))
  && match FrameBuffer.header fb with
     | Some h => (fh_type h =? FrameType.STATE) && confirming seq (fh_channel h) (FrameBuffer.payload fb)
     | None => false
     end.

Definition unmoved_by (fb : FrameBuffer.t) (c : Client.t) : Prop := Client.estopActive c = false \/ confirms (Client.estopSentSeq c) fb = false.

Lemma calm_unmoved_by fb w w' : calm w w' -> unmoved_by fb (client w) -> unmoved_by fb (client w').
Proof. intros [E _]. injection E as E1 E2 E3 E4 E5 E6. unfold unmoved_by. by rewrite E1, E4. Qed.

Lemma calm_handleFrame now fb w : unmoved_by fb (client w) -> calm w (snd (handleFrameC now fb w)).
Proof.
  unfold unmoved_by, confirms, handleFrameC. intros Hc. destruct (isEstopBytes _); cbn [negb andb] in Hc.
  { destruct (decodeEstop _); [|apply calm_refl]. assert (H : calms (cmodify (fun c => c{{Client.lastRxMs := now}}))) by calm. apply H. }
  destruct (FrameBuffer.header fb) as [h|]; [|apply calm_refl]. apply calm_then; [calm|]. intros [] w1 L1. unfold dispatch.
  destruct (Z.eqb_spec (fh_type h) FrameType.WELCOME); [apply calms_handleWelcome|].
  destruct (Z.eqb_spec (fh_type h) FrameType.STATE); [apply calm_handleState; eapply calm_unmoved; [exact L1|exact Hc]|].
  match goal with |- calm w1 (snd (?m w1)) => assert (H : calms m) by calm; apply H end.
Qed.

Lemma calm_frames now fbs w : Forall (fun fb => unmoved_by fb (client w)) fbs -> calm w (snd (ceach fbs (handleFrameC now) w)).
Proof.
  revert w. induction fbs as [|fb fbs IH]; intros w H; [apply calm_refl|]. apply Forall_cons in H as [Hf H]. cbn [ceach]. rewrite run_bind.
  assert (L := calm_handleFrame now fb w Hf). eapply calm_trans; [exact L|]. apply IH. eapply Forall_impl; [exact H|]. intros fb'. by apply calm_unmoved_by.
Qed.

(** ** Rounds *)

(** The time an update goes by. *)
Definition roundMs (nowUs : Z) (w : ClientWorld) : Z := fst (MonotonicMs.advance nowUs (Client.monoMs (client w))).

Definition due (nowUs : Z) (w : ClientWorld) : Prop :=
  timeReached (roundMs nowUs w) (u32 (Client.lastEstopSendMs (client w) + limits.estop_repeat_interval_ms)) = true.

(** [n] updates, an interval apart, in which nothing confirms the emergency stop. *)
Inductive unconfirmed : nat -> ClientWorld -> ClientWorld -> Prop :=
| u_none w : unconfirmed 0 w w
| u_update n w w1 nowUs frames : unconfirmed n w w1 -> due nowUs w1 ->
    Forall (fun fb => confirms (Client.estopSentSeq (client w1)) fb = false) frames -> unconfirmed (S n) w (snd (clientUpdate nowUs frames w1))
| u_env n w w1 e r : unconfirmed n w w1 -> unconfirmed n w (mkClientWorld (client w1) e r (ctrace w1)).

(** The frame of an emergency stop. *)
Definition is_estop_frame (cause seq : Z) (f : bytes) : Prop := exists origin, f = estop_bytes (mkEstopFrame cause origin seq).

Lemma writeEstop_eq f w : exists ok e, writeEstop f w = (true, mkClientWorld (client w) e (crng w) (ctrace w ++ [Wrote (estop_bytes f) ok])).
Proof.
  unfold writeEstop. rewrite encodeEstop_bytes by (rewrite length_replicate; lia). change (kEstopFrameBytes =? 0)%nat with false. cbv iota.
  rewrite take_app_length' by done. rewrite run_bind. unfold writeOut. rewrite run_bind. cbn. unfold cask. destruct (ct_write _ _) as [ok e]. by exists ok, e.
Qed.

Lemma estop_bytes_estop f : isEstopBytes (estop_bytes f) = true.
Proof. unfold isEstopBytes. apply andb_true_iff. split; [done|by apply bool_decide_eq_true]. Qed.

(** The repetition: its members, [n] attempts and [fs] written since [w0]. *)
Definition repeating (cause seq n : Z) (w0 w : ClientWorld) (fs : nat) : Prop :=
  Client.estopActive (client w) = true /\ Client.estopSendFailed (client w) = false /\ Client.estopCause (client w) = cause
  /\ Client.estopSentSeq (client w) = seq /\ Client.estopAttempts (client w) = n
  /\ exists tr, ctrace w = ctrace w0 ++ tr /\ length (estops tr) = fs /\ Forall (is_estop_frame cause seq) (estops tr).

Lemma repeating_calm cause seq n w0 w w' fs : repeating cause seq n w0 w fs -> calm w w' -> repeating cause seq n w0 w' fs.
Proof.
  intros (Ha & Hf & Hc & Hs & Hn & tr & T & L & F) (E & tr' & T' & N). injection E as E1 E2 E3 E4 E5 E6. unfold repeating.
  rewrite E1, E2, E3, E4, E5. split_and!; try done. exists (tr ++ tr'). rewrite T', T, app_assoc, estops_app, N, app_nil_r. done.
Qed.

Lemma pumpEstop_last cause seq n w0 w fs now : repeating cause seq n w0 w fs -> limits.estop_repeat_max <= n ->
  Client.estopActive (client (snd (pumpEstopRepeat now w))) = false /\ Client.estopSendFailed (client (snd (pumpEstopRepeat now w))) = true
  /\ ctrace (snd (pumpEstopRepeat now w)) = ctrace w.
Proof.
  intros (Ha & _ & _ & _ & Hn & _) Hm. unfold pumpEstopRepeat. rewrite run_bind. cbn [fst snd cgets]. change (id (client w)) with (client w).
  rewrite Ha, Hn. cbn [negb]. destruct (Z.leb_spec limits.estop_repeat_max n); [done|lia].
Qed.

Lemma pumpEstop_next cause seq n w0 w fs now : repeating cause seq n w0 w fs -> 0 <= n < limits.estop_repeat_max ->
  timeReached now (u32 (Client.lastEstopSendMs (client w) + limits.estop_repeat_interval_ms)) = true ->
  repeating cause seq (n + 1) w0 (snd (pumpEstopRepeat now w)) (S fs).
Proof.
  intros (Ha & Hf & Hc & Hs & Hn & tr & T & L & F) Hm Ht. unfold pumpEstopRepeat. rewrite run_bind. cbn [fst snd cgets]. change (id (client w)) with (client w).
  rewrite Ha, Hn, Ht. cbn [negb]. destruct (Z.leb_spec limits.estop_repeat_max n); [lia|]. rewrite run_bind.
  destruct (writeEstop_eq (estopFrame (Client.estopCause (client w)) (client w)) w) as (ok & e & E). rewrite E. cbn [fst snd]. unfold cwhen. rewrite run_bind. split_and!; try done.
  - change (u32 (Client.estopAttempts (client w) + 1) = n + 1). rewrite Hn. apply u32_id. unfold is_u32, limits.estop_repeat_max in *. lia.
  - exists (tr ++ [Wrote (estop_bytes (estopFrame (Client.estopCause (client w)) (client w))) ok]). split; [change (ctrace w ++ [Wrote (estop_bytes (estopFrame (Client.estopCause (client w)) (client w))) ok] = ctrace w0 ++ tr ++ [Wrote (estop_bytes (estopFrame (Client.estopCause (client w)) (client w))) ok]); by rewrite T, app_assoc|].
    rewrite estops_app. cbn [estops omap list_omap]. rewrite estop_bytes_estop, length_app. split; [cbn; lia|]. apply Forall_app. split; [done|]. apply Forall_singleton.
    exists (Client.roles (client w)). unfold estopFrame. by rewrite Hc, Hs.
Qed.

(** An update, around the repetition. *)
Lemma update_around nowUs frames w : Forall (fun fb => unmoved_by fb (client w)) frames ->
  exists w1, calm w w1 /\ calm (snd (pumpEstopRepeat (roundMs nowUs w) w1)) (snd (clientUpdate nowUs frames w)).
Proof.
  intros Hf. unfold clientUpdate, roundMs. rewrite run_bind. cbn [fst snd cgets]. destruct (MonotonicMs.advance nowUs _) as [now m]. rewrite run_bind.
  set (w0 := snd (cmodify (fun c => c{{Client.monoMs := m}}) w)). assert (L0 : calm w w0) by (apply calms_modify; done).
  rewrite run_bind. set (wf := snd (ceach frames (handleFrameC now) w0)).
  assert (Lf : calm w0 wf) by (apply calm_frames; eapply Forall_impl; [exact Hf|]; intros fb; by apply calm_unmoved_by).
  rewrite run_bind. set (wp := snd (pumpPing now wf)). assert (Lp : calm wf wp) by (apply calm_quiet, cquiet_pumpPing).
  exists wp. split; [eapply calm_trans; [exact L0|]; by eapply calm_trans|]. rewrite run_bind. cbn [fst].
  match goal with |- calm ?a (snd (?m ?a)) => assert (H : calms m); [|apply H] end.
  apply calms_bind; [calm|intros _]. apply calms_bind; [apply calms_pumpProbe|intros _]. apply calms_pumpHubSigTimeout.
Qed.

Lemma pumpEstop_idle now w : Client.estopActive (client w) = false -> pumpEstopRepeat now w = (tt, w).
Proof. intros H. unfold pumpEstopRepeat. rewrite run_bind. cbn [fst snd cgets]. change (id (client w)) with (client w). by rewrite H. Qed.

Lemma calm_active w w' : calm w w' -> Client.estopActive (client w') = Client.estopActive (client w) /\ Client.estopSendFailed (client w') = Client.estopSendFailed (client w).
Proof. intros [E _]. injection E as E1 E2. done. Qed.

(** While no emergency stop is being repeated, none is written. *)
Lemma calm_update nowUs frames w : Client.estopActive (client w) = false -> calm w (snd (clientUpdate nowUs frames w)).
Proof.
  intros Ha. destruct (update_around nowUs frames w) as (w1 & L1 & L2); [apply Forall_forall; intros fb _; by left|].
  assert (Ha1 := proj1 (calm_active _ _ L1)). rewrite Ha in Ha1. rewrite pumpEstop_idle in L2 by done. by eapply calm_trans.
Qed.

(** After [n] unconfirmed rounds. *)
Definition rounds_done (cause seq : Z) (w0 w : ClientWorld) (n : nat) : Prop :=
  if (n <? 20)%nat then repeating cause seq (1 + Z.of_nat n) w0 w (S n)
  else Client.estopActive (client w) = false /\ Client.estopSendFailed (client w) = true
       /\ exists tr, ctrace w = ctrace w0 ++ tr /\ length (estops tr) = 20%nat /\ Forall (is_estop_frame cause seq) (estops tr).

Lemma rounds_update cause seq w0 w n nowUs frames : rounds_done cause seq w0 w n -> due nowUs w ->
  Forall (fun fb => confirms (Client.estopSentSeq (client w)) fb = false) frames -> rounds_done cause seq w0 (snd (clientUpdate nowUs frames w)) (S n).
Proof.
  intros R Hd Hf. unfold rounds_done in *. destruct (Nat.ltb_spec n 20) as [Hn|Hn].
  - destruct (update_around nowUs frames w) as (w1 & L1 & L2); [eapply Forall_impl; [exact Hf|by right]|].
    assert (Ht : timeReached (roundMs nowUs w) (u32 (Client.lastEstopSendMs (client w1) + limits.estop_repeat_interval_ms)) = true).
    { destruct L1 as [E _]. injection E as E1 E2 E3 E4 E5 E6. by rewrite E6. }
    assert (R1 := repeating_calm _ _ _ _ _ _ _ R L1). destruct (Nat.ltb_spec (S n) 20) as [Hs|Hs].
    + eapply repeating_calm; [|exact L2]. replace (1 + Z.of_nat (S n)) with (1 + Z.of_nat n + 1) by lia. apply pumpEstop_next; [done| |done].
      unfold limits.estop_repeat_max. lia.
    + assert (n = 19)%nat as -> by lia. destruct (pumpEstop_last _ _ _ _ _ _ (roundMs nowUs w) R1) as (Ha & Hb & T); [done|].
      destruct (calm_active _ _ L2) as [-> ->]. split; [done|]. split; [done|]. destruct R1 as (_ & _ & _ & _ & _ & tr & T1 & N & F).
      destruct L2 as (_ & tr2 & T2 & N2). exists (tr ++ tr2). rewrite T2, T, T1, app_assoc, estops_app, N2, app_nil_r. done.
  - destruct (Nat.ltb_spec (S n) 20); [lia|]. destruct R as (Ha & Hb & tr & T & N & F). assert (L := calm_update nowUs frames w Ha).
    destruct (calm_active _ _ L) as [-> ->]. split; [done|]. split; [done|]. destruct L as (_ & tr2 & T2 & N2). exists (tr ++ tr2).
    rewrite T2, T, app_assoc, estops_app, N2, app_nil_r. done.
Qed.

Lemma estop_timed w : exists t1 t2 e,
  snd (((now ← cnowMs; cmodify (fun c => c{{Client.lastTxMs := now}})) ;; now ← cnowMs;
        cmodify (fun c => c{{Client.estopAttempts := 1; Client.lastEstopSendMs := now}})) w)
  = mkClientWorld ((client w){{Client.lastTxMs := t1; Client.estopAttempts := 1; Client.lastEstopSendMs := t2}}) e (crng w) (ctrace w).
Proof.
  rewrite !run_bind. unfold cnowMs, fmap, CM_fmap, cask, cmodify. cbn [fst snd]. destruct (cclk_nowUs (cenv w)) as [u1 e1].
  cbn [fst snd client cenv crng ctrace]. destruct (cclk_nowUs e1) as [u2 e2].
  by exists (u1 / 1000), (u2 / 1000), e2.
Qed.

Lemma initiateEstop_rounds cause w : rounds_done cause (Client.estopNextSeq (client w)) w (snd (initiateEstop cause w)) 0.
Proof.
  unfold initiateEstop. rewrite run_bind. cbn [fst snd cmodify]. rewrite run_bind. cbn [fst snd cgets]. rewrite run_bind.
  match goal with |- context [writeEstop ?f ?w] => destruct (writeEstop_eq f w) as (ok & e & E) end. rewrite E. cbn [fst snd].
  match goal with |- context [snd (_ ?w)] => destruct (estop_timed w) as (t1 & t2 & e' & ->) end.
  unfold rounds_done. cbn [Nat.ltb Nat.leb]. split_and!; try done.
  eexists [Wrote _ ok]. split; [reflexivity|]. cbn [estops omap list_omap]. rewrite estop_bytes_estop. split; [done|].
  apply Forall_singleton. by exists (Client.roles (client w)).
Qed.

Lemma unconfirmed_rounds cause n w w' : unconfirmed n (snd (initiateEstop cause w)) w' -> rounds_done cause (Client.estopNextSeq (client w)) w w' n.
Proof.
  intros H. remember (snd (initiateEstop cause w)) as w1 eqn:E. induction H as [|n w1 w2 nowUs frames H IH Hd Hf|n w1 w2 e r H IH]; subst.
  - apply initiateEstop_rounds.
  - by apply rounds_update; [apply IH| |].
  - exact (IH eq_refl).
Qed.

(** ** Confirmation *)

(** The shadow of the channel accepts the snapshot. *)
Definition snapshot_accepted (ch seq : Z) (payload : bytes) (c : Client.t) : bool :=
  match findOrCreateShadow ch (Client.shadows c) with
  | (Some i, l) => fst (fst (StateApply.applyStateFrame seq payload (ShadowEntry.slot (nth i l ShadowEntry.none))))
  | (None, _) => false
  end.

Lemma handleState_confirmed ch seq payload now w :
  snapshot_accepted ch seq payload (client w) = true -> confirming (Client.estopSentSeq (client w)) ch payload = true ->
  Client.estopActive (client (snd (handleState ch seq payload now w))) = false
  /\ exists tr, ctrace (snd (handleState ch seq payload now w)) = ctrace w ++ tr /\ estops tr = [].
Proof.
  unfold snapshot_accepted. intros Hacc Hc. unfold handleState. rewrite run_bind. cbn [fst snd cgets].
  destruct (findOrCreateShadow ch _) as [[i|] l]; [|done]. cbv zeta. destruct (StateApply.applyStateFrame _ _ _) as [[acc cap] slot]. cbn [fst snd] in Hacc. subst acc.
  cbn [negb]. rewrite run_bind. set (w1 := snd (cmodify _ w)).
  assert (L1 : calm w w1) by (apply calms_modify; done). clearbody w1. rewrite run_bind. set (w2 := snd (cnotify _ w1)).
  assert (L2 : calm w w2) by (eapply calm_trans; [exact L1|by apply calms_notify]). clearbody w2. rewrite run_bind. cbn [fst snd cgets]. rewrite run_bind.
  match goal with |- context [snd (cwhen ?b ?m w2)] => assert (L3 : calms (cwhen b m)); [calm|]; set (w3 := snd (cwhen b m w2)) end.
  assert (L : calm w w3) by (eapply calm_trans; [exact L2|apply L3]). clearbody w3. clear L1 L2 L3. rewrite run_bind. cbn [fst snd cgets].
  change (id (client w3)) with (client w3). destruct L as (E & tr & T & N). injection E as E1 E2 E3 E4 E5 E6. rewrite E4.
  unfold confirming in Hc. apply andb_true_iff in Hc as [[-> ->]%andb_true_iff ->]. rewrite !andb_true_r. cbn [andb].
  destruct (Client.estopActive (client w3)) eqn:Ha; (split; [done|]); by exists tr.
Qed.

Lemma calm_updates us w : Client.estopActive (client w) = false ->
  calm w (foldl (fun w u => snd (clientUpdate u.1 u.2 w)) w us).
Proof.
  revert w. induction us as [|u us IH]; intros w Ha; [apply calm_refl|]. cbn [foldl]. assert (L := calm_update u.1 u.2 w Ha).
  eapply calm_trans; [exact L|]. apply IH. by rewrite (proj1 (calm_active _ _ L)).
Qed.
End handlers.
