(* ===== verification/ClientTheorems.v ===== *)
(** * ClientTheorems: what the client achieves

    The frames the client writes are read by the hub as what was meant; the catalog
    arrives whatever the order of its chunks; an emergency stop is repeated until it
    is confirmed. A bench gives a concrete client and its histories. *)

From S2P Require Import Prelude Registry Float ByteIO Serial Frame Blob Messages Codec Trust Handshake Raw Crypto.
From S2P Require Import Channel Safety Session ClientState ClientFacts ClientCorrect ClientEstop.
Local Open Scope Z_scope.

(** ** Frames as the other end reads them *)

Lemma frame_fits type ch payload : (length payload <= kMaxPayload)%nat -> (length (frameBytes type ch payload) <= kFrameBufferCapacity)%nat.
Proof. unfold frameBytes, kMaxPayload. rewrite length_app, length_header_bytes. unfold kHeaderBytes, kFrameBufferCapacity. lia. Qed.

Lemma frame_header type ch payload : is_u8 type -> is_u16 ch -> (length payload <= kMaxPayload)%nat ->
  FrameBuffer.header (FrameBuffer.from (frameBytes type ch payload)) = Some (mkFrameHeader type 0 ch 0 (Z.of_nat (length payload))).
Proof.
  intros Ht Hc Hl. unfold FrameBuffer.header. rewrite FrameBuffer.bytes_from by (by apply frame_fits). unfold frameBytes.
  rewrite decodeFrameHeader_bytes.
  - rewrite u16_id; [done|]. unfold is_u16, kMaxPayload, kFrameBufferCapacity, kHeaderBytes in *. lia.
  - unfold header_wf. split_and!; cbn; try done; try (unfold is_u8, is_u16; lia). apply u16_range.
Qed.

Lemma frame_payload type ch payload : (length payload <= kMaxPayload)%nat ->
  FrameBuffer.payload (FrameBuffer.from (frameBytes type ch payload)) = payload.
Proof.
  intros Hl. assert (Hf := frame_fits type ch payload Hl). unfold FrameBuffer.payload. rewrite FrameBuffer.bytes_from by done.
  assert (Hs : FrameBuffer.size (FrameBuffer.from (frameBytes type ch payload)) = Z.of_nat (length (frameBytes type ch payload))).
  { unfold FrameBuffer.from. destruct (Nat.leb_spec (length (frameBytes type ch payload)) kFrameBufferCapacity); [|lia]. apply u16_id.
    unfold is_u16, kFrameBufferCapacity in *. lia. }
  rewrite Hs. assert (Hb : length (frameBytes type ch payload) = (kHeaderBytes + length payload)%nat) by (unfold frameBytes; by rewrite length_app, length_header_bytes).
  rewrite Hb. destruct (Z.leb_spec (Z.of_nat kHeaderBytes) (Z.of_nat (kHeaderBytes + length payload))); [|lia].
  unfold frameBytes. by apply drop_app_length'.
Qed.

Section results.
Context {P : ClientPlatform}.

(** ** Intents *)

Lemma sendFrame_run type ch payload w : (length payload <= kMaxPayload)%nat ->
  exists (ok : bool) e t, sendFrame type ch payload w =
    (ok, mkClientWorld (if ok then (client w){{Client.lastTxMs := t}} else client w) e (crng w) (ctrace w ++ [Wrote (frameBytes type ch payload) ok])).
Proof.
  intros Hl. rewrite sendFrame_eq. destruct (Nat.ltb_spec kMaxPayload (length payload)); [lia|]. rewrite run_bind. unfold writeOut. rewrite !run_bind.
  unfold cask, crecord. cbn [fst snd cenv]. destruct (ct_write _ _) as [ok e]. cbn [fst snd client cenv crng ctrace mret CM_ret]. destruct ok.
  - rewrite run_bind. unfold cnowMs, fmap, CM_fmap, cask, cmodify. cbn [fst snd client cenv crng ctrace].
    destruct (cclk_nowUs e) as [us e']. by exists true, e', (us / 1000).
  - by exists false, e, 0.
Qed.

(** An intent that was handed to the transport: a frame the other end reads as that
    intent, and its id awaits the answer if the transport took the frame. *)
Definition sent_intent (m : IntentMsg) (w w' : ClientWorld) (r : option Z) : Prop :=
  exists f (ok : bool), ctrace w' = ctrace w ++ [Wrote f ok]
    /\ (exists len, FrameBuffer.header (FrameBuffer.from f) = Some (mkFrameHeader FrameType.INTENT 0 (im_channel_id m) 0 len))
    /\ decodeIntent (FrameBuffer.payload (FrameBuffer.from f)) = Ok (canonical_intent m)
    /\ r = (if ok then Some (im_intent_id m) else None)
    /\ Client.pending (client w') = Client.pending (client w) ++ (if ok then [im_intent_id m] else [])
    /\ (ok = false -> client w' = client w).

Lemma encoded_intent m : intent_wf m -> (length (map_bytes (intent_entries m)) <= 300)%nat ->
  exists n buf, encodeIntent m (replicate 300 0) = (n, buf) /\ n <> 0%nat /\ (length (take n buf) <= kMaxPayload)%nat
    /\ decodeIntent (take n buf) = Ok (canonical_intent m).
Proof.
  intros Hwf Hfit. assert (R := intent_roundtrip_at m (replicate 300 0) Hwf). rewrite length_replicate in R. specialize (R Hfit).
  destruct (encodeIntent m (replicate 300 0)) as [n buf]. destruct R as [Hn R]. exists n, buf. split_and!; [done| | |done].
  - intros ->. by rewrite take_0 in R.
  - rewrite length_take. unfold kMaxPayload, kFrameBufferCapacity, kHeaderBytes. lia.
Qed.

Lemma sendIntent_sent ch values pre takeover w : may_send (client w) = true -> intent_wf (intent_of (client w) ch values pre takeover) ->
  (length (map_bytes (intent_entries (intent_of (client w) ch values pre takeover))) <= 300)%nat ->
  sent_intent (intent_of (client w) ch values pre takeover) w (snd (sendIntent ch values pre takeover w)) (fst (sendIntent ch values pre takeover w)).
Proof.
  intros Hm Hwf Hfit. set (m := intent_of (client w) ch values pre takeover) in *. rewrite sendIntent_eq, Hm. fold m.
  destruct (encoded_intent m Hwf Hfit) as (n & buf & E & Hn & Hl & R). rewrite E. unfold sendEncoded.
  destruct (Nat.eqb_spec n 0); [done|]. destruct (sendFrame_run FrameType.INTENT ch (take n buf) w Hl) as (ok & e & t & ->). cbn [fst snd].
  exists (frameBytes FrameType.INTENT ch (take n buf)), ok. assert (Hc : is_u16 ch) by apply Hwf.
  rewrite frame_header, frame_payload by done. split_and!; try done; try (by destruct ok); try by eexists.
  destruct ok; [done|]. by rewrite app_nil_r.
Qed.

(** ** The catalog *)

Section fetch.
Variable enc : bytes.
Hypotheses (Hne : enc <> []) (Hfits : (chunkCount (length enc) <= kCatalogMaxChunks)%nat).

(** The frame of a chunk of the catalog. *)
Definition chunk_frame (k : nat) : FrameBuffer.t := FrameBuffer.from (frameBytes FrameType.BLOB_CHUNK 0 (sendChunk noBlobId enc k)).

(** The hub announced this catalog. *)
Definition announced (c : Client.t) : Prop := Client.hubEtag c = take limits.etag_bytes (Sha256.hash enc).

(** What the client has once the catalog arrived. *)
Definition fetched (c : Client.t) : Prop :=
  Client.catalogReady c = true /\ Client.cachedEtag c = Client.hubEtag c
  /\ (Client.requiredRetained c <= Client.adoptedCount c -> Client.state c = LIVE).

Definition in_session (c : Client.t) : Prop := Client.state c = SYNCING \/ Client.state c = LIVE.

(** The transfer, with the chunks [seen]. *)
Definition fetching (seen : list nat) (c : Client.t) : Prop :=
  announced c /\ in_session c
  /\ match seen with
     | [] => cr_active (Client.chunkReassembler c) = false /\ wf kCatalogMaxChunks (Client.chunkReassembler c)
     | _ => carries kCatalogMaxChunks noBlobId enc seen (Client.chunkReassembler c)
            /\ Client.catalogChunkCount c = Z.of_nat (chunkCount (length enc))
     end
  /\ ((forall k, (k < chunkCount (length enc))%nat -> k ∈ seen) -> fetched c).

Let HMax : Z.of_nat kCatalogMaxChunks <= 65535.
Proof. by vm_compute. Qed.
Let Hid : wf_id noBlobId.
Proof. by repeat split. Qed.

Let Hcc : (0 < chunkCount (length enc) <= kCatalogMaxChunks)%nat.
Proof. apply (enc_fits kCatalogMaxChunks enc Hne Hfits). Qed.

Lemma chunk_length k : (k < chunkCount (length enc))%nat -> (length (sendChunk noBlobId enc k) <= kMaxPayload)%nat.
Proof.
  intros Hk. rewrite (sendChunk_spec kCatalogMaxChunks HMax) by done.
  change (14 + length (chunk enc k) <= 504)%nat. rewrite length_chunk. lia.
Qed.

Lemma chunk_header k : (k < chunkCount (length enc))%nat ->
  getBlobChunkHeader (sendChunk noBlobId enc k)
  = Some (mkChunkHeader noBlobId (Z.of_nat k) (Z.of_nat (chunkCount (length enc))) (Z.of_nat (length enc))).
Proof.
  intros Hk. rewrite (sendChunk_spec kCatalogMaxChunks HMax) by done. by rewrite (chunk_wire_header kCatalogMaxChunks HMax).
Qed.

(** The two members of the transfer after a chunk. *)
Definition receive (k : nat) (now : Z) (c : Client.t) : Client.t :=
  let h := mkChunkHeader noBlobId (Z.of_nat k) (Z.of_nat (chunkCount (length enc))) (Z.of_nat (length enc)) in
  let c := if negb (cr_active (Client.chunkReassembler c)) || negb (Client.catalogChunkCount c =? chunk_count h)
           then c{{Client.chunkReassembler := beginFrom kCatalogMaxChunks h now (Client.chunkReassembler c);
                   Client.catalogChunkCount := chunk_count h}}
           else c in
  c{{Client.chunkReassembler := snd (insertChunk (sendChunk noBlobId enc k) now (Client.chunkReassembler c))}}.

Lemma receive_carries k now seen c : (k < chunkCount (length enc))%nat -> fetching seen c ->
  carries kCatalogMaxChunks noBlobId enc (k :: seen) (Client.chunkReassembler (receive k now c))
  /\ Client.catalogChunkCount (receive k now c) = Z.of_nat (chunkCount (length enc)).
Proof.
  intros Hk (_ & _ & Hr & _). unfold receive. cbv zeta. cbn [chunk_count]. destruct seen as [|x seen].
  - destruct Hr as [Ha Hwf]. rewrite Ha. cbn [negb orb]. split; [|done]. unfold beginFrom. cbn [hdr_id chunk_count total_bytes]. rewrite Nat2Z.id.
    assert (C := begin_carries kCatalogMaxChunks HMax noBlobId enc Hid Hne Hfits now _ Hwf).
    destruct (carries_insert kCatalogMaxChunks HMax noBlobId enc Hid Hne Hfits k now [] _ Hk C) as (r' & E & C' & _).
    change (carries kCatalogMaxChunks noBlobId enc [k] (snd (insertChunk (sendChunk noBlobId enc k) now
      (begin kCatalogMaxChunks noBlobId (Z.of_nat (chunkCount (length enc))) (length enc) now (Client.chunkReassembler c))))). by rewrite E.
  - destruct Hr as [C Hcount]. rewrite Hcount, (c_active _ _ _ _ _ C), Z.eqb_refl. cbn [negb orb]. split; [|done].
    destruct (carries_insert kCatalogMaxChunks HMax noBlobId enc Hid Hne Hfits k now _ _ Hk C) as (r' & E & C' & _).
    change (carries kCatalogMaxChunks noBlobId enc (k :: x :: seen) (snd (insertChunk (sendChunk noBlobId enc k) now (Client.chunkReassembler c)))). by rewrite E.
Qed.

Lemma receive_rest k now c :
  receive k now c = c{{Client.chunkReassembler := Client.chunkReassembler (receive k now c);
                       Client.catalogChunkCount := Client.catalogChunkCount (receive k now c)}}.
Proof. unfold receive. cbv zeta. destruct c, (_ || _); reflexivity. Qed.

Lemma handleBlobChunk_run k now w : (k < chunkCount (length enc))%nat ->
  handleBlobChunk (sendChunk noBlobId enc k) now w =
  let w1 := with_client (receive k now (client w)) w in
  if negb (complete (Client.chunkReassembler (client w1))) then (tt, w1)
  else
    let digest := take limits.etag_bytes (Sha256.hash (assembled (Client.chunkReassembler (client w1)))) in
    let isMatch := bool_decide (digest = Client.hubEtag (client w1)) in
    (cmodify (fun c => (if isMatch then c{{Client.cachedEtag := Client.hubEtag c}} else c){{Client.catalogReady := true}}) ;;
     sendCatalogReady (if isMatch then Client.hubEtag (client w1) else digest) ;; checkLiveTransition) w1.
Proof.
  intros Hk. unfold handleBlobChunk. rewrite chunk_header by done. cbn [hdr_id chunk_count chunk_index]. change (isCatalog noBlobId) with true. cbn [negb].
  destruct (Z.eqb_spec (Z.of_nat (chunkCount (length enc))) 0); [lia|]. destruct (Z.leb_spec (Z.of_nat (chunkCount (length enc))) (Z.of_nat k)); [lia|].
  cbn [orb]. rewrite run_bind. change (snd (cmodify _ w)) with (with_client (receive k now (client w)) w). rewrite run_bind. cbn [fst snd cgets]. cbv zeta.
  change (id (client (with_client (receive k now (client w)) w))) with (client (with_client (receive k now (client w)) w)).
  by destruct (negb (complete _)).
Qed.

Lemma checkLive_client w : client (snd (checkLiveTransition w)) =
  if bool_decide (Client.state (client w) = SYNCING) && Client.catalogReady (client w) && (Client.requiredRetained (client w) <=? Client.adoptedCount (client w))
  then (client w){{Client.state := LIVE}} else client w.
Proof.
  unfold checkLiveTransition. rewrite run_bind. cbn [fst snd cgets]. change (id (client w)) with (client w). by destruct (_ && _ && _).
Qed.
(** What the retained values still to come are counted with. *)
Definition counts (c : Client.t) : Z * Z := (Client.requiredRetained c, Client.adoptedCount c).

Lemma fetching_live seen c : carries kCatalogMaxChunks noBlobId enc seen (Client.chunkReassembler c) -> seen <> [] ->
  Client.catalogChunkCount c = Z.of_nat (chunkCount (length enc)) -> announced c -> in_session c -> Client.catalogReady c = true ->
  Client.cachedEtag c = Client.hubEtag c ->
  fetching seen (if bool_decide (Client.state c = SYNCING) && Client.catalogReady c && (Client.requiredRetained c <=? Client.adoptedCount c)
                 then c{{Client.state := LIVE}} else c).
Proof.
  intros C Hs Hn Ha Hi Hr He. rewrite Hr, andb_true_r. destruct seen as [|k seen]; [done|].
  destruct Hi as [Hi|Hi]; rewrite Hi; [rewrite bool_decide_eq_true_2 by done|rewrite bool_decide_eq_false_2 by done]; cbn [andb].
  - destruct (Z.leb_spec (Client.requiredRetained c) (Client.adoptedCount c)).
    + split; [exact Ha|]. split; [by right|]. by split.
    + split; [exact Ha|]. split; [by left|]. split; [done|]. intros _. split; [done|]. split; [done|lia].
  - split; [exact Ha|]. split; [by right|]. by split.
Qed.

Lemma fetching_chunk k now seen w : (k < chunkCount (length enc))%nat -> fetching seen (client w) ->
  fetching (k :: seen) (client (snd (handleBlobChunk (sendChunk noBlobId enc k) now w)))
  /\ counts (client (snd (handleBlobChunk (sendChunk noBlobId enc k) now w))) = counts (client w).
Proof.
  intros Hk F. destruct (receive_carries k now seen (client w) Hk F) as [C Hn]. rewrite handleBlobChunk_run by done. cbv zeta.
  change (client (with_client (receive k now (client w)) w)) with (receive k now (client w)).
  destruct F as (Ha & Hi & _ & _). assert (E := receive_rest k now (client w)). set (c1 := receive k now (client w)) in *.
  assert (Ha1 : announced c1) by (rewrite E; exact Ha). assert (Hi1 : in_session c1) by (rewrite E; exact Hi).
  assert (Hc1 : counts c1 = counts (client w)) by (by rewrite E). rewrite <- Hc1. clear E Hc1 Ha Hi. clearbody c1.
  assert (Hall := carries_complete kCatalogMaxChunks noBlobId enc Hne Hfits _ _ C).
  destruct (complete (Client.chunkReassembler c1)) eqn:Hcomp; cbn [negb fst snd client with_client].
  - rewrite (carries_assembled kCatalogMaxChunks noBlobId enc Hne Hfits _ _ C Hcomp), bool_decide_eq_true_2 by done. cbv iota.
    rewrite run_bind. change (snd (cmodify _ (with_client c1 w))) with (with_client (c1{{Client.cachedEtag := Client.hubEtag c1; Client.catalogReady := true}}) w).
    rewrite run_bind. match goal with |- context [sendCatalogReady ?e ?w] => destruct (cquiet_sendCatalogReady e w) as [Q _]; set (w2 := snd (sendCatalogReady e w)) in * end.
    rewrite checkLive_client. cbn [client with_client] in Q. set (c2 := client w2) in *. clearbody c2. clear w2.
    assert (Q' : forall A (f : Client.t -> A), f (core c2) = f (core c1{{Client.cachedEtag := Client.hubEtag c1; Client.catalogReady := true}})) by (intros; by rewrite Q).
    split.
    + apply fetching_live; [|done|..].
      * pose proof (Q' _ Client.chunkReassembler) as X. change (Client.chunkReassembler c2 = Client.chunkReassembler c1) in X. by rewrite X.
      * exact (eq_trans (Q' _ Client.catalogChunkCount) Hn).
      * exact (eq_trans (Q' _ Client.hubEtag) Ha1).
      * pose proof (Q' _ Client.state) as X. change (Client.state c2 = Client.state c1) in X. unfold in_session. by rewrite X.
      * exact (Q' _ Client.catalogReady).
      * exact (eq_trans (Q' _ Client.cachedEtag) (eq_sym (Q' _ Client.hubEtag))).
    + destruct (_ && _); exact (Q' _ counts).
  - split; [|done]. split; [exact Ha1|]. split; [exact Hi1|]. split; [done|]. intros H. by apply Hall in H.
Qed.

Lemma chunk_frame_handled k now w : (k < chunkCount (length enc))%nat ->
  handleFrameC now (chunk_frame k) w = handleBlobChunk (sendChunk noBlobId enc k) now (with_client ((client w){{Client.lastRxMs := now}}) w).
Proof.
  intros Hk. assert (Hl := chunk_length k Hk). unfold handleFrameC, chunk_frame. rewrite frame_header, frame_payload by (done || (unfold is_u8, is_u16, FrameType.BLOB_CHUNK; lia)).
  rewrite FrameBuffer.bytes_from by (by apply frame_fits). by rewrite frame_not_estop.
Qed.

Lemma fetching_frames ks now seen w : Forall (fun k => (k < chunkCount (length enc))%nat) ks -> fetching seen (client w) ->
  fetching (reverse ks ++ seen) (client (snd (ceach (chunk_frame <$> ks) (handleFrameC now) w)))
  /\ counts (client (snd (ceach (chunk_frame <$> ks) (handleFrameC now) w))) = counts (client w).
Proof.
  intros Hks. revert seen w. induction Hks as [|k ks Hk _ IH]; intros seen w F; [done|]. cbn [fmap list_fmap ceach]. rewrite run_bind, chunk_frame_handled by done.
  destruct (fetching_chunk k now seen (with_client ((client w){{Client.lastRxMs := now}}) w) Hk) as [F' K']; [exact F|].
  destruct (IH (k :: seen) _ F') as [F'' K'']. rewrite reverse_cons, <- app_assoc. split; [exact F''|]. rewrite K''. exact K'.
Qed.
End fetch.
End results.

(** * Properties *)

(** C7. The client keeps its side of the session in every history. Whatever the
    application calls, whatever frames arrive in which order and however the
    transport and the clock behave, from a new client on: the states it reports
    follow the path HELLO_SENT, SYNCING, LIVE; an ECHO reaches the application only
    for an intent that was taken and not yet answered; dropped intents are reported
    once each, oldest first; the ids that still await an answer are exactly what the
    history leaves. And the invariant holds: intents are pending only while LIVE and
    at most eight, LIVE means the catalog and every promised retained value arrived,
    no channel has two shadows, and the hub counts as verified only if a signature
    over this connection's nonce was checked. *)
Theorem client_protocol {P : ClientPlatform} (w : ClientWorld) (h : list client_event) :
  chistory w h -> client_ok (client w) /\ follow (CLOSED, []) h = Some (phase_of (client w)).
Proof. apply chistory_good. Qed.

(** C10. What [sendIntent] promises, on every branch. A client that is LIVE, does not
    distrust its hub and has a free slot writes exactly one frame, which the hub
    reads as an INTENT for that channel with those values and the id returned; the
    id is pending if and only if the transport took the frame, and a frame that was
    refused changes nothing else. Any other client returns nothing, writes nothing
    and stays as it is. *)
Theorem client_intent_sent {P : ClientPlatform} (ch : Z) (values : list IntentValueField) (pre : option Z) (takeover : bool) (w : ClientWorld) :
  let m := intent_of (client w) ch values pre takeover in
  intent_wf m -> (length (map_bytes (intent_entries m)) <= 300)%nat ->
  let '(r, w') := sendIntent ch values pre takeover w in
  if may_send (client w) then sent_intent m w w' r else r = None /\ w' = w.
Proof.
  intros m Hwf Hfit. destruct (may_send (client w)) eqn:Hm.
  - assert (H := sendIntent_sent ch values pre takeover w Hm Hwf Hfit). by destruct (sendIntent _ _ _ _ w).
  - by rewrite sendIntent_eq, Hm.
Qed.

(** C11. The catalog arrives. From the transfer a WELCOME starts, chunk frames of the
    announced catalog that arrive in any order and with any repetition, until every
    index was there, leave the client with the catalog: it is ready, the cached etag
    is the hub's, and the session is LIVE as soon as the promised retained values
    have been adopted too; they are not miscounted on the way. *)
Theorem client_catalog_fetched {P : ClientPlatform} (enc : bytes) (ks : list nat) (now : Z) (w : ClientWorld) :
  enc <> [] -> (chunkCount (length enc) <= kCatalogMaxChunks)%nat ->
  announced enc (client w) -> in_session (client w) -> Client.chunkReassembler (client w) = newReassembler kCatalogMaxChunks ->
  Forall (fun k => (k < chunkCount (length enc))%nat) ks -> (forall k, (k < chunkCount (length enc))%nat -> k ∈ ks) ->
  let c := client (snd (ceach (chunk_frame enc <$> ks) (handleFrameC now) w)) in
  fetched c /\ counts c = counts (client w).
Proof.
  intros Hne Hfits Ha Hi Hr Hks Hall c. destruct (fetching_frames enc Hne Hfits ks now [] w Hks) as [(_ & _ & _ & F) K].
  - split; [exact Ha|]. split; [exact Hi|]. rewrite Hr. split; [split; [done|apply newReassembler_wf; by vm_compute]|].
    intros H. destruct (enc_fits kCatalogMaxChunks enc Hne Hfits) as [_ [Hc _]]. by apply H in Hc as ?%not_elem_of_nil.
  - split; [|exact K]. apply F. intros k Hk. rewrite app_nil_r. by apply elem_of_reverse, Hall.
Qed.

(** C8. An emergency stop is not lost. In updates an interval apart, whatever other
    frames arrive, the client writes the ESTOP again in each of them with the same
    cause and sequence number, nineteen times after the first; it then reports the
    failure and stops. It is active until then and failed only then. *)
Theorem client_estop_repeated {P : ClientPlatform} (cause : Z) (n : nat) (w w' : ClientWorld) :
  unconfirmed n (snd (initiateEstop cause w)) w' ->
  exists tr, ctrace w' = ctrace w ++ tr /\ length (estops tr) = Nat.min (S n) 20
    /\ Forall (is_estop_frame cause (Client.estopNextSeq (client w))) (estops tr)
    /\ Client.estopActive (client w') = (n <? 20)%nat /\ Client.estopSendFailed (client w') = (20 <=? n)%nat.
Proof.
  intros H%unconfirmed_rounds. unfold rounds_done in H. rewrite (Nat.leb_antisym n 20). destruct (Nat.ltb_spec n 20) as [Hn|Hn].
  - destruct H as (Ha & Hf & _ & _ & _ & tr & T & L & F). exists tr. rewrite Nat.min_l by lia. done.
  - destruct H as (Ha & Hf & tr & T & L & F). exists tr. rewrite Nat.min_r by lia. done.
Qed.

(** C9. A confirmed emergency stop is silent. Once the client accepts a safety
    snapshot that shows its stop, with the number it sent or a newer one, the
    repetition is over, and no later update writes an ESTOP, whatever arrives. *)
Theorem client_estop_confirmed {P : ClientPlatform} (ch seq now : Z) (payload : bytes) (us : list (Z * list FrameBuffer.t)) (w : ClientWorld) :
  snapshot_accepted ch seq payload (client w) = true -> confirming (Client.estopSentSeq (client w)) ch payload = true ->
  let w' := foldl (fun w u => snd (clientUpdate u.1 u.2 w)) (snd (handleState ch seq payload now w)) us in
  Client.estopActive (client w') = false /\ exists tr, ctrace w' = ctrace w ++ tr /\ estops tr = [].
Proof.
  intros Hacc Hc w'. destruct (handleState_confirmed ch seq payload now w Hacc Hc) as (Ha & tr & T & N).
  assert (L := calm_updates us _ Ha). split; [unfold w'; by rewrite (proj1 (calm_active _ _ L))|]. destruct L as (_ & tr' & T' & N').
  exists (tr ++ tr'). unfold w'. by rewrite T', T, app_assoc, estops_app, N, N'.
Qed.

(** * A bench

    A client that caches the etag of the bench catalog, connects, is welcomed, sends
    an intent and gets its echo; another one that has to fetch the catalog first.
    The transport takes what it is given and the clock is the environment. *)

Definition client_bench : ClientPlatform := {|
  CEnv := Z;
  ct_open e := (true, e); ct_write _ e := (true, e); cclk_nowUs e := (e, e); cd_react _ e := e;
  CRng := Z; CRng_IRandom := XorShift32_IRandom;
  CCry := unit; CCry_ICrypto := SoftwareCrypto_ICrypto; ccrypto := tt;
  verifyP256 _ _ _ := false |}.
#[local] Existing Instance client_bench.

Definition cb_catalog : bytes := replicate 192 1 ++ replicate 192 2 ++ [3; 4].
Definition cb_etag : bytes := take limits.etag_bytes (Sha256.hash cb_catalog).
Definition cb_frame (ty : Z) (r : nat * bytes) : FrameBuffer.t := FrameBuffer.from (frameBytes ty 0 (take (fst r) (snd r))).
Definition cb_welcome : FrameBuffer.t :=
  cb_frame FrameType.WELCOME (Welcome.encodeWelcome (Welcome.none{{Welcome.session_id := 7; Welcome.boot_id := 3; Welcome.catalog_etag := cb_etag; Welcome.roles := 2}}) (replicate 400 0)).
Definition cb_echo : FrameBuffer.t := cb_frame FrameType.ECHO (encodeEcho (mkEcho 1 4 [mkField 1 (U64 3)]) (replicate 100 0)).

Definition cb_new : ClientWorld := mkClientWorld (Client.init (mkIdentity (replicate 16 9) [] false [97] [98])) 1000 1 [].
Definition cb_step (w : ClientWorld) (c : client_call) : ClientWorld := snd (cperform c w).
Definition cb_greeted : ClientWorld := cb_step cb_new Connect.
Definition cb_live : ClientWorld := cb_step (cb_step (cb_step cb_new (SetCachedEtag cb_etag)) Connect) (UpdateClient 2000 [cb_welcome]).
Definition cb_asked : ClientWorld := cb_step cb_live (SendIntent 0x0300 [mkField 1 (U64 3)] None false).
Definition cb_answered : ClientWorld := cb_step cb_asked (UpdateClient 3000 [cb_echo]).
Definition cb_syncing : ClientWorld := cb_step cb_greeted (UpdateClient 2000 [cb_welcome]).
Definition cb_stopping : ClientWorld := snd (initiateEstop 3 cb_live).

Lemma cb_history w h c : chistory w h ->
  exists tr, ctrace (cb_step w c) = ctrace w ++ tr /\ chistory (cb_step w c) (h ++ (Did <$> tr) ++ took (fst (cperform c w))).
Proof.
  intros H. destruct (ctakes_perform c w) as [(tr & T & _) _]. exists tr. split; [exact T|].
  eapply (c_call w h c); [exact H|apply surjective_pairing|exact T].
Qed.

Lemma cb_answered_history : exists h, chistory cb_answered h.
Proof.
  assert (H0 : chistory cb_new []) by exact (c_new cb_new _ eq_refl eq_refl).
  edestruct (cb_history _ _ (SetCachedEtag cb_etag) H0) as (t1 & _ & H1). edestruct (cb_history _ _ Connect H1) as (t2 & _ & H2).
  edestruct (cb_history _ _ (UpdateClient 2000 [cb_welcome]) H2) as (t3 & _ & H3).
  edestruct (cb_history _ _ (SendIntent 0x0300 [mkField 1 (U64 3)] None false) H3) as (t4 & _ & H4).
  edestruct (cb_history _ _ (UpdateClient 3000 [cb_echo]) H4) as (t5 & _ & H5). by eexists.
Qed.

Lemma client_protocol_witness :
  (exists h, chistory cb_answered h /\ follow (CLOSED, []) h = Some (LIVE, [])) /\ client_ok (client cb_answered) /\ Client.pending (client cb_asked) = [1].
Proof.
  destruct cb_answered_history as [h H]. destruct (client_protocol cb_answered h H) as [K F]. split; [|split; [exact K|by vm_compute]].
  exists h. split; [exact H|]. rewrite F. by vm_compute.
Defined.

Lemma client_intent_sent_witness :
  may_send (client cb_live) = true
  /\ let '(r, w') := sendIntent 0x0300 [mkField 1 (U64 3)] None false cb_live in
     if may_send (client cb_live) then sent_intent (intent_of (client cb_live) 0x0300 [mkField 1 (U64 3)] None false) cb_live w' r else r = None /\ w' = cb_live.
Proof.
  split; [by vm_compute|]. assert (E : intent_of (client cb_live) 0x0300 [mkField 1 (U64 3)] None false = mkIntent 0x0300 1 [mkField 1 (U64 3)] false 0 true false) by (by vm_compute).
  apply (client_intent_sent 0x0300 [mkField 1 (U64 3)] None false cb_live); rewrite E.
  - clear E. unfold intent_wf, is_u16, values_wf. cbn [im_channel_id im_intent_id im_precondition im_value im_has_precondition im_has_takeover im_takeover].
    split_and!; try lia; try done; [apply Nat.leb_le; by vm_compute|]. apply Forall_singleton. split; [by vm_compute|]. split; by vm_compute.
  - apply Nat.leb_le. by vm_compute.
Defined.

Lemma client_catalog_fetched_witness :
  let c := client (snd (ceach (chunk_frame cb_catalog <$> [2; 0; 0; 1]%nat) (handleFrameC 3) cb_syncing)) in
  fetched c /\ counts c = counts (client cb_syncing).
Proof.
  assert (N : chunkCount (length cb_catalog) = 3%nat) by (by vm_compute).
  apply (client_catalog_fetched cb_catalog [2; 0; 0; 1]%nat 3 cb_syncing).
  - done.
  - rewrite N. apply Nat.leb_le. by vm_compute.
  - by vm_compute.
  - left. by vm_compute.
  - by vm_compute.
  - rewrite N. repeat constructor.
  - rewrite N. intros k Hk. apply (bool_decide_unpack _). by destruct k as [|[|[|k]]]; [vm_compute..|lia].
Defined.

Lemma cb_due1 : due 2000000 (snd (initiateEstop 3 cb_live)).
Proof. by vm_compute. Qed.
Lemma cb_due2 : due 3000000 (snd (clientUpdate 2000000 [] (snd (initiateEstop 3 cb_live)))).
Proof. by vm_compute. Qed.
Lemma cb_silent seq : confirms seq cb_echo = false.
Proof. by vm_compute. Qed.

Lemma client_estop_repeated_witness :
  let w' := snd (clientUpdate 3000000 [cb_echo] (snd (clientUpdate 2000000 [] (snd (initiateEstop 3 cb_live))))) in
  exists tr, ctrace w' = ctrace cb_live ++ tr /\ length (estops tr) = Nat.min 3 20
    /\ Forall (is_estop_frame 3 (Client.estopNextSeq (client cb_live))) (estops tr)
    /\ Client.estopActive (client w') = (2 <? 20)%nat /\ Client.estopSendFailed (client w') = (20 <=? 2)%nat.
Proof.
  apply (client_estop_repeated 3 2 cb_live). apply u_update; [apply u_update; [apply u_none|exact cb_due1|apply Forall_nil_2]|exact cb_due2|].
  apply Forall_singleton, cb_silent.
Defined.

(** A snapshot of the safety channel with stop number [n]. *)
Definition cb_snapshot (n : Z) : bytes := [1; 0; 0; 0; 0; 0] ++ le16 n.

Lemma client_estop_confirmed_witness :
  Client.estopActive (client cb_stopping) = true
  /\ let w' := foldl (fun w u => snd (clientUpdate u.1 u.2 w)) (snd (handleState channels.safety 1 (cb_snapshot 1) 4 cb_stopping)) [(2000000, []); (3000000, [cb_echo])] in
     Client.estopActive (client w') = false /\ exists tr, ctrace w' = ctrace cb_stopping ++ tr /\ estops tr = [].
Proof.
  split; [by vm_compute|]. apply (client_estop_confirmed channels.safety 1 4 (cb_snapshot 1) [(2000000, []); (3000000, [cb_echo])] cb_stopping); by vm_compute.
Defined.

(** ** The two clocks of the client

    [initiateEstop] stamps the attempt with the microsecond counter divided down,
    which starts again at 0 when that counter wraps; the updates go by the extended
    clock, which does not. One millisecond after an emergency stop that follows a
    wrap, the interval of the repetition counts as over. *)
Definition cb_wrapped : ClientWorld :=
  let w := snd (clientUpdate 3000 [] (snd (clientUpdate 4294967000 [] cb_live))) in mkClientWorld (client w) 3000 (crng w) (ctrace w).

Example estop_repeated_early_after_wrap :
  let w := snd (initiateEstop 3 cb_wrapped) in
  length (estops (ctrace w)) = 1%nat /\ length (estops (ctrace (snd (clientUpdate 4000 [] w)))) = 2%nat
  /\ length (estops (ctrace (snd (clientUpdate 4000 [] (snd (initiateEstop 3 cb_live)))))) = 1%nat.
Proof. by vm_compute. Qed.
