(* ===== verification/BenchPort.v ===== *)
(** * BenchPort: the bench hub's WebSocket side

    hub/slopbench/src/net/WsServerPort.{h,cpp}: a transport per connection slot, filled
    by the connection threads and emptied by the hub's thread, and the port that gives
    connections to slots. Every method of a transport runs under its lock, so it is one
    step; the two threads interleave between steps. The socket library is a parameter:
    how much it has buffered, whether it takes a message, and closing. A socket pointer
    is a number, the ring holds whole frame buffers as the code does. *)

From stdpp Require Import gmap.
From S2P Require Import Prelude Registry Frame Codec Channel HubState CText.
Local Open Scope Z_scope.

(** ** One connection slot *)

Module WsTransport.
Definition kRxRingDepth : nat := 8.
Definition kStallEvictMs : Z := 2000.
Definition kMuteBufferedBytes : Z := 64 * 1024.

Record t := mk {
  ws : option nat; peer : bytes; inUse : bool; openEvt : bool; closeEvt : bool;
  rx : list FrameBuffer.t; rxHead : nat; rxTail : nat; rxCount : nat; rxDrops : Z; muted : bool; mutedSinceMs : Z }.

Definition init : t := mk None [] false false false (replicate kRxRingDepth FrameBuffer.init) 0 0 0 0 false 0.

(** Connection threads. *)
Definition onOpen (s : nat) (p : bytes) (x : t) : t :=
  x{{ws := Some s; peer := p; inUse := true; openEvt := true; closeEvt := false; muted := false;
     rxHead := 0%nat; rxTail := 0%nat; rxCount := 0%nat; rxDrops := 0}}.

Definition onClose (x : t) : t := x{{ws := None; closeEvt := true}}.

Definition pushRx (data : bytes) (x : t) : t :=
  if (length data =? 0)%nat || (kFrameBufferCapacity <? length data)%nat then x
  else
    let x := x{{muted := false}} in
    if (rxCount x =? kRxRingDepth)%nat then x{{rxDrops := u32 (rxDrops x + 1)}}
    else
      let fb := nth (rxTail x) (rx x) FrameBuffer.init in
      let fb := FrameBuffer.setSize (length data) (FrameBuffer.mk (write_at 0 data (FrameBuffer.data fb)) (FrameBuffer.size fb)) in
      x{{rx := <[rxTail x := fb]> (rx x); rxTail := ((rxTail x + 1) mod kRxRingDepth)%nat; rxCount := (rxCount x + 1)%nat}}.

(** The hub's thread. *)
Definition read (x : t) : option FrameBuffer.t * t :=
  if (rxCount x =? 0)%nat then (None, x)
  else
    (Some (nth (rxHead x) (rx x) FrameBuffer.init),
     x{{rxHead := ((rxHead x + 1) mod kRxRingDepth)%nat; rxCount := (rxCount x - 1)%nat}}).

Definition consumeOpenEvent (x : t) : bool * t := if openEvt x then (true, x{{openEvt := false}}) else (false, x).
Definition consumeCloseEvent (x : t) : bool * t := if closeEvt x then (true, x{{closeEvt := false}}) else (false, x).

Definition reap (x : t) : t := x{{inUse := false; peer := []; rxHead := 0%nat; rxTail := 0%nat; rxCount := 0%nat; muted := false}}.

Section net.
Context {Net : Type} (bufferedAmount : nat -> Net -> Z) (sendBinary : nat -> bytes -> Net -> bool * Net) (closeSocket : nat -> Net -> Net).

Definition mute (nowMs : option Z) (x : t) : t := x{{muted := true; mutedSinceMs := default 0 nowMs}}.

Definition write (nowMs : option Z) (frame : bytes) (x : t) (net : Net) : bool * t * Net :=
  match ws x with
  | None => (false, x, net)
  | Some s =>
      if muted x then (false, x, net)
      else if kMuteBufferedBytes <? bufferedAmount s net then (false, mute nowMs x, net)
      else
        let '(ok, net) := sendBinary s frame net in
        if ok then (true, x, net) else (false, mute nowMs x, net)
  end.

Definition requestClose (x : t) (net : Net) : Net := match ws x with Some s => closeSocket s net | None => net end.
End net.
End WsTransport.

(** ** The port *)

Module WsPort.
Definition kSlots : nat := kHubMaxSessions + 1.

Record t := mk { slots : list WsTransport.t; attached : list bool; nowMs : Z; slotById : gmap bytes nat }.

Definition init : t := mk (replicate kSlots WsTransport.init) (replicate kSlots false) 0 ∅.

(** A message of the socket library. *)
Inductive Message :=
| Open (id ip : bytes) (ws : nat)
| Close (id : bytes)
| Data (id : bytes) (binary : bool) (data : bytes)
| Other (id : bytes).

Definition firstFree (p : t) : option nat := find_index (fun s => negb (WsTransport.inUse s)) (slots p).

(** The socket to refuse, if all slots are busy, and the port. *)
Definition onMessage (m : Message) (p : t) : option nat * t :=
  match m with
  | Open id ip ws =>
      match firstFree p with
      | None => (Some ws, p)
      | Some i => (None, p{{slotById := <[id := i]> (slotById p); slots := alter (WsTransport.onOpen ws ip) i (slots p)}})
      end
  | Close id =>
      match slotById p !! id with
      | Some i => (None, p{{slots := alter WsTransport.onClose i (slots p); slotById := delete id (slotById p)}})
      | None => (None, p)
      end
  | Data id binary data =>
      if negb binary then (None, p)
      else match slotById p !! id with
           | Some i => (None, p{{slots := alter (WsTransport.pushRx data) i (slots p)}})
           | None => (None, p)
           end
  | Other _ => (None, p)
  end.

Definition slot (i : nat) (p : t) : WsTransport.t := nth i (slots p) WsTransport.init.
Definition setSlot (i : nat) (s : WsTransport.t) (p : t) : t := p{{slots := <[i := s]> (slots p)}}.
Definition setAttached (i : nat) (b : bool) (p : t) : t := p{{attached := <[i := b]> (attached p)}}.

(** The steps of one round of [loop] on a slot, between which the connection threads may
    run. What the hub answers to [attachTransport] is an argument; the result tells
    whether the hub is asked. *)
Definition takeOpen (i : nat) (p : t) : bool * t := let '(b, s) := WsTransport.consumeOpenEvent (slot i p) in (b, setSlot i s p).
Definition attachAnswer (i : nat) (accepted : bool) (p : t) : t := if accepted then setAttached i true p else p.
Definition takeClose (i : nat) (p : t) : bool * t := let '(b, s) := WsTransport.consumeCloseEvent (slot i p) in (b, setSlot i s p).
(** [detachTransport] is called exactly when this slot was attached. *)
Definition detachSlot (i : nat) (p : t) : bool * t := if nth i (attached p) false then (true, setAttached i false p) else (false, p).
Definition reapSlot (i : nat) (p : t) : t := setSlot i (WsTransport.reap (slot i p)) p.
Definition stalled (now : Z) (i : nat) (p : t) : bool :=
  nth i (attached p) false && WsTransport.muted (slot i p) && (WsTransport.kStallEvictMs <? u32 (now - WsTransport.mutedSinceMs (slot i p))).

(** Fault injection: the slot's socket is closed. *)
Definition kick {Net} (closeSocket : nat -> Net -> Net) (i : nat) (p : t) (net : Net) : Net :=
  if (i <? kSlots)%nat then WsTransport.requestClose closeSocket (slot i p) net else net.

Record SlotInfo := mkInfo { i_inUse : bool; i_peer : bytes; i_muted : bool; i_rxDrops : Z }.
Definition slotInfo (i : nat) (p : t) : SlotInfo :=
  if (kSlots <=? i)%nat then mkInfo false [] false 0
  else let s := slot i p in mkInfo (WsTransport.inUse s) (WsTransport.peer s) (WsTransport.muted s) (WsTransport.rxDrops s).
End WsPort.

(** * Theorems *)

(** ** The receive ring is a queue of at most eight frames *)

Module RingFacts.
Import WsTransport.

Definition frame_at (x : t) (i : nat) : FrameBuffer.t := nth ((rxHead x + i) mod kRxRingDepth) (rx x) FrameBuffer.init.

(** The frames that wait. *)
Definition waiting (x : t) : list bytes := (fun i => FrameBuffer.bytes_of (frame_at x i)) <$> seq 0 (rxCount x).

Record ring_ok (x : t) : Prop := {
  r_len : length (rx x) = kRxRingDepth; r_count : (rxCount x <= kRxRingDepth)%nat; r_head : (rxHead x < kRxRingDepth)%nat;
  r_tail : rxTail x = ((rxHead x + rxCount x) mod kRxRingDepth)%nat;
  r_data : Forall (fun b => length (FrameBuffer.data b) = kFrameBufferCapacity) (rx x) }.

(** What the code promises: whole frames of 1 to 512 bytes, in order, the newest dropped
    and counted when eight wait; a new connection or the reaping of an old one empties it. *)
Inductive ring_op := ROpen (s : nat) (p : bytes) | RClose | RPush (data : bytes) | RRead | RReap.

Definition perform (o : ring_op) (x : t) : option bytes * t :=
  match o with
  | ROpen s p => (None, onOpen s p x)
  | RClose => (None, onClose x)
  | RPush d => (None, pushRx d x)
  | RRead => let '(b, x) := read x in (FrameBuffer.bytes_of <$> b, x)
  | RReap => (None, reap x)
  end.

Definition spec (o : ring_op) (q : list bytes * Z) : option bytes * (list bytes * Z) :=
  let '(l, drops) := q in
  match o with
  | ROpen _ _ => (None, ([], 0))
  | RClose => (None, q)
  | RPush d => if (length d =? 0)%nat || (kFrameBufferCapacity <? length d)%nat then (None, q)
               else if (length l =? kRxRingDepth)%nat then (None, (l, u32 (drops + 1))) else (None, (l ++ [d], drops))
  | RRead => (head l, (tail l, drops))
  | RReap => (None, ([], drops))
  end.

Lemma ring_init_ok : ring_ok init.
Proof. split; try done; [cbn; lia|cbn; unfold kRxRingDepth; lia|]. apply Forall_replicate. apply length_replicate. Qed.

Lemma length_waiting x : length (waiting x) = rxCount x.
Proof. unfold waiting. by rewrite length_fmap, length_seq. Qed.

(** A frame written into the free slot joins the queue. *)
Lemma push_waits d x : ring_ok x -> (length d =? 0)%nat || (kFrameBufferCapacity <? length d)%nat = false -> (rxCount x < kRxRingDepth)%nat ->
  ring_ok (pushRx d x) /\ waiting (pushRx d x) = waiting x ++ [d] /\ rxDrops (pushRx d x) = rxDrops x.
Proof.
  intros [Hl Hc Hh Ht Hd] Hlen Hr. unfold pushRx. rewrite Hlen. apply orb_false_iff in Hlen as [_ Hlen%Nat.ltb_ge]. cbv zeta.
  change (rxCount (x{{muted := false}})) with (rxCount x). destruct (Nat.eqb_spec (rxCount x) kRxRingDepth); [lia|].
  set (fb := FrameBuffer.setSize _ _). set (x' := _{{rx := _; rxTail := _; rxCount := _}}).
  assert (Ht8 : (rxTail x < kRxRingDepth)%nat) by (rewrite Ht; apply Nat.mod_upper_bound; done).
  assert (Hd0 : length (FrameBuffer.data (nth (rxTail x) (rx x) FrameBuffer.init)) = kFrameBufferCapacity).
  { destruct (lookup_lt_is_Some_2 (rx x) (rxTail x)) as [y Hy]; [lia|]. rewrite (nth_lookup_Some _ _ _ _ Hy). by eapply Forall_lookup_1 in Hd. }
  assert (Hfb : FrameBuffer.bytes_of fb = d).
  { unfold fb, FrameBuffer.setSize. destruct (Nat.leb_spec (length d) kFrameBufferCapacity); [|lia]. unfold FrameBuffer.bytes_of. cbn [FrameBuffer.size FrameBuffer.data].
    rewrite u16_id by (unfold is_u16, kFrameBufferCapacity in *; lia). rewrite Nat2Z.id, write_at_0. apply take_app_length. }
  split; [split|split; [|done]].
  - change (length (<[rxTail x := fb]> (rx x)) = kRxRingDepth). by rewrite length_insert.
  - change (rxCount x + 1 <= kRxRingDepth)%nat. lia.
  - exact Hh.
  - change (((rxTail x + 1) mod kRxRingDepth)%nat = ((rxHead x + (rxCount x + 1)) mod kRxRingDepth)%nat). rewrite Ht, Nat.Div0.add_mod_idemp_l. f_equal. lia.
  - change (Forall (fun b => length (FrameBuffer.data b) = kFrameBufferCapacity) (<[rxTail x := fb]> (rx x))). apply Forall_insert; [done|].
    change (length (write_at 0 d (FrameBuffer.data (nth (rxTail x) (rx x) FrameBuffer.init))) = kFrameBufferCapacity). rewrite length_write_at; [done|lia].
  - unfold waiting. change (rxCount x') with (rxCount x + 1)%nat. rewrite seq_app, fmap_app. cbn [seq fmap list_fmap]. f_equal.
    + apply list_fmap_ext. intros _ i Hi%list_elem_of_lookup_2%elem_of_seq. f_equal. unfold frame_at. change (rxHead x') with (rxHead x). change (rx x') with (<[rxTail x := fb]> (rx x)).
      rewrite !nth_lookup, list_lookup_insert_ne; [done|]. rewrite Ht. symmetry. apply EventFacts.mod_shift_ne; unfold kRxRingDepth in *; lia.
    + f_equal. unfold frame_at. change (rxHead x') with (rxHead x). change (rx x') with (<[rxTail x := fb]> (rx x)).
      rewrite nth_lookup, Nat.add_0_l, <- Ht, list_lookup_insert_eq by lia. exact Hfb.
Qed.

Lemma read_waits x : ring_ok x -> let '(b, x') := read x in ring_ok x' /\ FrameBuffer.bytes_of <$> b = head (waiting x) /\ waiting x' = tail (waiting x) /\ rxDrops x' = rxDrops x.
Proof.
  intros [Hl Hc Hh Ht Hd]. unfold read. destruct (Nat.eqb_spec (rxCount x) 0) as [E|E].
  { unfold waiting. rewrite E. split; [by split|done]. }
  set (x' := x{{rxHead := _; rxCount := _}}). destruct (rxCount x) as [|n] eqn:En; [lia|]. split; [split; try done|split; [|split; [|done]]].
  - change (S n - 1 <= kRxRingDepth)%nat. lia.
  - change ((rxHead x + 1) mod kRxRingDepth < kRxRingDepth)%nat. by apply Nat.mod_upper_bound.
  - change (rxTail x = (((rxHead x + 1) mod kRxRingDepth + (S n - 1)) mod kRxRingDepth)%nat). rewrite Ht, Nat.Div0.add_mod_idemp_l. f_equal. lia.
  - unfold waiting. rewrite En. cbn [seq fmap list_fmap option_fmap option_map head]. unfold frame_at. by rewrite Nat.add_0_r, Nat.mod_small.
  - unfold waiting. rewrite En. change (rxCount x') with (S n - 1)%nat. replace (S n - 1)%nat with n by lia. cbn [seq fmap list_fmap tail].
    rewrite <- fmap_S_seq, <- list_fmap_compose. apply list_fmap_ext. intros _ i _. cbn [compose]. f_equal. unfold frame_at. change (rx x') with (rx x).
    change (rxHead x') with ((rxHead x + 1) mod kRxRingDepth)%nat. rewrite Nat.Div0.add_mod_idemp_l. do 2 f_equal. lia.
Qed.

Lemma cleared x : ring_ok x -> ring_ok (x{{rxHead := 0%nat; rxTail := 0%nat; rxCount := 0%nat}}).
Proof. intros [Hl Hc Hh Ht Hd]. split; try done; [apply Nat.le_0_l|]. change (0 < kRxRingDepth)%nat. unfold kRxRingDepth. lia. Qed.

(** One operation refines its specification. *)
Lemma ring_step o x : ring_ok x ->
  let '(r, x') := perform o x in ring_ok x' /\ spec o (waiting x, rxDrops x) = (r, (waiting x', rxDrops x')).
Proof.
  intros H. destruct o as [s p| |d| |]; cbn [perform spec].
  - split; [|done]. destruct (cleared x H). by split.
  - split; [|done]. destruct H. by split.
  - rewrite length_waiting. destruct ((length d =? 0)%nat || (kFrameBufferCapacity <? length d)%nat) eqn:E; [unfold pushRx; by rewrite E|].
    destruct (Nat.eqb_spec (rxCount x) kRxRingDepth) as [F|F].
    + unfold pushRx. rewrite E. cbv zeta. change (rxCount (x{{muted := false}})) with (rxCount x). rewrite (proj2 (Nat.eqb_eq _ _) F). split; [destruct H; by split|done].
    + assert (rxCount x < kRxRingDepth)%nat as L by (pose proof (r_count x H); lia). destruct (push_waits d x H E L) as (G1 & G2 & G3). split; [done|]. by rewrite G2, G3.
  - pose proof (read_waits x H) as R. destruct (read x) as [b x']. destruct R as (R1 & R2 & R3 & R4). split; [done|]. by rewrite R2, R3, R4.
  - split; [|done]. destruct (cleared x H). by split.
Qed.

Fixpoint history (ops : list ring_op) (x : t) : list (option bytes) * t :=
  match ops with [] => ([], x) | o :: ops => let '(r, x) := perform o x in let '(rs, x) := history ops x in (r :: rs, x) end.

Fixpoint spec_history (ops : list ring_op) (q : list bytes * Z) : list (option bytes) * (list bytes * Z) :=
  match ops with [] => ([], q) | o :: ops => let '(r, q) := spec o q in let '(rs, q) := spec_history ops q in (r :: rs, q) end.
End RingFacts.

(** The receive ring of a connection, over every history of openings, closings, arriving
    frames, reads and reapings, is a queue of at most eight frames: a frame of 1 to 512 bytes
    joins at the end or, when eight wait, is dropped and counted; frames are read whole and
    in order; a frame of any other size leaves no trace; a new connection starts empty. *)
Theorem ws_ring_refines (ops : list RingFacts.ring_op) :
  let '(rs, x) := RingFacts.history ops WsTransport.init in
  RingFacts.spec_history ops ([], 0) = (rs, (RingFacts.waiting x, WsTransport.rxDrops x)).
Proof.
  change (@nil bytes, 0) with (RingFacts.waiting WsTransport.init, WsTransport.rxDrops WsTransport.init).
  pose proof RingFacts.ring_init_ok as H. revert H. generalize WsTransport.init. induction ops as [|o ops IH]; intros x H; cbn [RingFacts.history RingFacts.spec_history]; [done|].
  pose proof (RingFacts.ring_step o x H) as S. destruct (RingFacts.perform o x) as [r x1]. destruct S as [H1 ->]. specialize (IH x1 H1).
  destruct (RingFacts.history ops x1) as [rs x2]. by rewrite IH.
Qed.

(** ** Slots and connections *)

Module PortFacts.
Import WsPort.

(** Where the hub's thread is in [loop]. *)
Inductive Pc := AtOpen (i : nat) | Asking (i : nat) | AtClose (i : nat) | Detaching (i : nat) | Reaping (i : nat) | AtSweep (i : nat).

Definition opensInto (i : nat) (m : Message) (p : t) : Prop := match m with Open _ _ _ => firstFree p = Some i | _ => False end.

(** The ids of the socket library are fresh. *)
Definition fresh_id (m : Message) (p : t) : Prop := match m with Open id _ _ => slotById p !! id = None | _ => True end.

(** Steps of the hub's thread, and messages between any two of them, except that no
    connection is given slot [i] between the two event checks of [i]. A frame's slot is
    looked up before the frame is pushed, so a frame may come late, to any slot. *)
Inductive step : t * Pc -> t * Pc -> Prop :=
| s_message m p pc : fresh_id m p -> (forall i, pc = AtClose i -> ~ opensInto i m p) -> step (p, pc) (snd (onMessage m p), pc)
| s_push i d p pc : step (p, pc) (p{{slots := alter (WsTransport.pushRx d) i (slots p)}}, pc)
| s_opened i p p' : takeOpen i p = (true, p') -> step (p, AtOpen i) (p', Asking i)
| s_quiet i p p' : takeOpen i p = (false, p') -> step (p, AtOpen i) (p', AtClose i)
| s_answer i b p : step (p, Asking i) (attachAnswer i b p, AtClose i)
| s_closed i p p' : takeClose i p = (true, p') -> step (p, AtClose i) (p', Detaching i)
| s_alive i p p' : takeClose i p = (false, p') -> step (p, AtClose i) (p', AtSweep i)
| s_detach i p : step (p, Detaching i) (snd (detachSlot i p), Reaping i)
| s_reap i p : step (p, Reaping i) (reapSlot i p, AtSweep i)
| s_next i p : step (p, AtSweep i) (p, AtOpen (S i mod kSlots)).

Inductive reached : t * Pc -> Prop :=
| r_start : reached (init, AtOpen 0)
| r_step s s' : reached s -> step s s' -> reached s'.

Definition att (i : nat) (p : t) : bool := nth i (attached p) false.
Definition known (i : nat) (p : t) : Prop := exists id, slotById p !! id = Some i.

(** What holds of one slot. *)
Record slot_ok (p : t) (i : nat) : Prop := {
  q_att : att i p = true -> WsTransport.inUse (slot i p) = true;
  q_open : WsTransport.openEvt (slot i p) = true -> WsTransport.inUse (slot i p) = true /\ att i p = false;
  q_close : WsTransport.closeEvt (slot i p) = true -> WsTransport.inUse (slot i p) = true /\ ~ known i p;
  q_known : known i p -> WsTransport.inUse (slot i p) = true }.

Definition pc_ok (p : t) (pc : Pc) : Prop :=
  match pc with
  | Asking i => WsTransport.inUse (slot i p) = true /\ att i p = false /\ WsTransport.openEvt (slot i p) = false
  | AtClose i => WsTransport.openEvt (slot i p) = false
  | Detaching i => WsTransport.openEvt (slot i p) = false /\ WsTransport.closeEvt (slot i p) = false /\ WsTransport.inUse (slot i p) = true /\ ~ known i p
  | Reaping i => WsTransport.openEvt (slot i p) = false /\ WsTransport.closeEvt (slot i p) = false /\ WsTransport.inUse (slot i p) = true /\ ~ known i p /\ att i p = false
  | _ => True
  end.

Record port_ok (p : t) : Prop := {
  n_slots : length (slots p) = kSlots; n_att : length (attached p) = kSlots;
  n_each : forall i, slot_ok p i;
  n_range : forall id i, slotById p !! id = Some i -> (i < kSlots)%nat;
  n_apart : forall a b i, slotById p !! a = Some i -> slotById p !! b = Some i -> a = b }.

Lemma slot_alter f i j p : (i < length (slots p))%nat -> slot j (p{{slots := alter f i (slots p)}}) = if decide (i = j) then f (slot j p) else slot j p.
Proof.
  intros H. change (nth j (alter f i (slots p)) WsTransport.init = if decide (i = j) then f (slot j p) else slot j p). unfold slot. rewrite !nth_lookup. case_decide as D.
  - subst j. rewrite list_lookup_alter_eq. destruct (lookup_lt_is_Some_2 (slots p) i H) as [x ->]. done.
  - by rewrite list_lookup_alter_ne.
Qed.

Lemma slot_set s i j p : (i < length (slots p))%nat -> slot j (setSlot i s p) = if decide (i = j) then s else slot j p.
Proof.
  intros H. change (nth j (<[i := s]> (slots p)) WsTransport.init = if decide (i = j) then s else slot j p). unfold slot. rewrite !nth_lookup. case_decide as D.
  - subst j. by rewrite list_lookup_insert_eq.
  - by rewrite list_lookup_insert_ne.
Qed.

Lemma att_set b i j p : (i < length (attached p))%nat -> att j (setAttached i b p) = if decide (i = j) then b else att j p.
Proof.
  intros H. change (nth j (<[i := b]> (attached p)) false = if decide (i = j) then b else att j p). unfold att. rewrite !nth_lookup. case_decide as D.
  - subst j. by rewrite list_lookup_insert_eq.
  - by rewrite list_lookup_insert_ne.
Qed.

Lemma outside i p : port_ok p -> (kSlots <= i)%nat -> slot i p = WsTransport.init /\ att i p = false.
Proof. intros H L. split; apply nth_overflow; [rewrite (n_slots p H)|rewrite (n_att p H)]; done. Qed.

Lemma firstFree_spec p i : firstFree p = Some i -> (i < length (slots p))%nat /\ WsTransport.inUse (slot i p) = false.
Proof.
  intros H. pose proof (find_index_lt _ _ _ H). apply find_index_Some in H as (x & Hx & Hn & _). split; [done|]. unfold slot. rewrite (nth_lookup_Some _ _ _ _ Hx). by apply negb_true_iff.
Qed.

(** Another port with the same facts about slot [j]. *)
Definition alike (j : nat) (p p' : t) : Prop :=
  WsTransport.inUse (slot j p') = WsTransport.inUse (slot j p) /\ WsTransport.openEvt (slot j p') = WsTransport.openEvt (slot j p) /\
  WsTransport.closeEvt (slot j p') = WsTransport.closeEvt (slot j p) /\ att j p' = att j p /\ (known j p' <-> known j p).

Lemma alike_slot j p p' : alike j p p' -> slot_ok p j -> slot_ok p' j.
Proof. intros (E1 & E2 & E3 & E4 & E5) [A B C D]. split; rewrite ?E1, ?E2, ?E3, ?E4, ?E5; done. Qed.

Definition pc_slot (pc : Pc) : nat := match pc with AtOpen i | Asking i | AtClose i | Detaching i | Reaping i | AtSweep i => i end.

Lemma alike_pc pc p p' : alike (pc_slot pc) p p' -> pc_ok p pc -> pc_ok p' pc.
Proof. intros (E1 & E2 & E3 & E4 & E5). destruct pc; cbn [pc_slot pc_ok] in *; rewrite ?E1, ?E2, ?E3, ?E4, ?E5; done. Qed.

(** A change of slot [i] alone. *)
Lemma port_local i p p' : port_ok p -> length (slots p') = kSlots -> length (attached p') = kSlots -> (forall j, j <> i -> alike j p p') -> slot_ok p' i ->
  (forall id j, slotById p' !! id = Some j -> (j < kSlots)%nat) -> (forall a b j, slotById p' !! a = Some j -> slotById p' !! b = Some j -> a = b) -> port_ok p'.
Proof.
  intros H L1 L2 Ha Hi R A. split; try done. intros j. destruct (decide (j = i)) as [->|D]; [done|]. eapply alike_slot; [by apply Ha|]. apply (n_each p H).
Qed.

(** *** Messages *)

Lemma known_insert (id : bytes) (i j : nat) (p : t) (m : gmap bytes nat) : slotById p = <[id := i]> m -> m !! id = None ->
  known j p <-> j = i \/ exists a, m !! a = Some j.
Proof.
  intros E F. unfold known. rewrite E. split.
  - intros (a & H). apply lookup_insert_Some in H as [[_ H]|[_ H]]; [by left|right; by exists a].
  - intros [->|(a & H)]; [exists id; by rewrite lookup_insert_eq|]. exists a. rewrite lookup_insert_ne; [done|]. intros ->. congruence.
Qed.

Lemma message_open id ip ws p pc : port_ok p -> pc_ok p pc -> slotById p !! id = None -> (forall i, pc = AtClose i -> firstFree p <> Some i) ->
  let p' := snd (onMessage (Open id ip ws) p) in port_ok p' /\ pc_ok p' pc.
Proof.
  intros H Hpc Hf Hx. cbn [onMessage]. destruct (firstFree p) as [i|] eqn:E; [|done]. destruct (firstFree_spec p i E) as [L U].
  set (p' := p{{slotById := _; slots := _}}). cbn [snd].
  assert (Sj : forall j, slot j p' = if decide (i = j) then WsTransport.onOpen ws ip (slot j p) else slot j p) by exact (fun j => slot_alter (WsTransport.onOpen ws ip) i j p L).
  assert (K : forall j, known j p' <-> j = i \/ known j p) by (intros j; exact (known_insert id i j p' (slotById p) eq_refl Hf)).
  assert (Al : forall j, j <> i -> alike j p p').
  { intros j D. unfold alike. rewrite Sj, decide_False by done. do 4 (split; [done|]). rewrite K. naive_solver. }
  assert (Ai : att i p = false) by (destruct (att i p) eqn:Ea; [|done]; by rewrite (q_att _ _ (n_each p H i) Ea) in U).
  split.
  - apply (port_local i p); [done| |exact (n_att p H)|done| | |].
    + change (length (alter (WsTransport.onOpen ws ip) i (slots p)) = kSlots). rewrite length_alter. apply H.
    + split; rewrite Sj, decide_True by done; try done.
    + intros a j. change (<[id := i]> (slotById p) !! a = Some j -> (j < kSlots)%nat). intros [[_ <-]|[_ Q]]%lookup_insert_Some; [rewrite <- (n_slots p H); done|by eapply (n_range p H)].
    + intros a b j. change (<[id := i]> (slotById p) !! a = Some j -> <[id := i]> (slotById p) !! b = Some j -> a = b).
      assert (N : forall c, slotById p !! c <> Some i) by (intros c Hc; by rewrite (q_known _ _ (n_each p H i) (ex_intro _ c Hc)) in U).
      rewrite !lookup_insert_Some. intros [[Ea Eb]|[_ Ha]] [[Ec Ed]|[_ Hb]]; [congruence|subst j; by apply N in Hb|subst j; by apply N in Ha|by eapply (n_apart p H)].
  - destruct pc as [k|k|k|k|k|k]; try exact I; apply (fun N => alike_pc _ p p' (Al (pc_slot _) N) Hpc); cbn [pc_slot pc_ok] in *.
    all: intros ->; first [by apply (Hx i)|destruct Hpc as (P1 & P2 & P3); congruence|destruct Hpc as (P1 & P2 & P3 & P4); congruence].
Qed.

Lemma message_close id p pc : port_ok p -> pc_ok p pc -> let p' := snd (onMessage (Close id) p) in port_ok p' /\ pc_ok p' pc.
Proof.
  intros H Hpc. cbn [onMessage]. destruct (slotById p !! id) as [i|] eqn:E; [|done]. set (p' := p{{slots := _; slotById := _}}). cbn [snd].
  assert (L : (i < length (slots p))%nat) by (rewrite (n_slots p H); by eapply (n_range p H)). assert (Ki : known i p) by by exists id.
  assert (Sj : forall j, slot j p' = if decide (i = j) then WsTransport.onClose (slot j p) else slot j p) by exact (fun j => slot_alter WsTransport.onClose i j p L).
  assert (K : forall j, known j p' <-> j <> i /\ known j p).
  { intros j. unfold known. change (slotById p') with (delete id (slotById p)). split.
    - intros (a & [Q1 Q2]%lookup_delete_Some). split; [|by exists a]. intros ->. apply Q1. by eapply (n_apart p H).
    - intros [D (a & Q)]. exists a. rewrite lookup_delete_ne; [done|]. intros ->. congruence. }
  assert (Al : forall j, j <> i -> alike j p p').
  { intros j D. unfold alike. rewrite Sj, decide_False by done. do 4 (split; [done|]). rewrite K. naive_solver. }
  pose proof (n_each p H i) as [A B C D]. split.
  - apply (port_local i p); [done| |exact (n_att p H)|done| | |].
    + change (length (alter WsTransport.onClose i (slots p)) = kSlots). rewrite length_alter. apply H.
    + split; rewrite Sj, decide_True by done; try done; [|by intros [? _]%K]. intros _. split; [exact (D Ki)|]. by intros [? _]%K.
    + intros a j. change (delete id (slotById p) !! a = Some j -> (j < kSlots)%nat). intros [_ Q]%lookup_delete_Some. by eapply (n_range p H).
    + intros a b j. change (delete id (slotById p) !! a = Some j -> delete id (slotById p) !! b = Some j -> a = b). intros [_ Q1]%lookup_delete_Some [_ Q2]%lookup_delete_Some. by eapply (n_apart p H).
  - destruct (decide (pc_slot pc = i)) as [D1|D1]; [|by apply (alike_pc _ p); [apply Al|]].
    destruct pc as [k|k|k|k|k|k]; cbn [pc_slot] in D1; subst k; cbn [pc_ok] in *; rewrite ?Sj, ?decide_True by done; try done; naive_solver.
Qed.

(** The flags of a slot stay. *)
Lemma same_flags p p' pc : port_ok p -> pc_ok p pc -> length (slots p') = kSlots -> attached p' = attached p -> slotById p' = slotById p -> (forall j, alike j p p') -> port_ok p' /\ pc_ok p' pc.
Proof.
  intros H Hpc L Ea Es Al. split; [|by eapply alike_pc]. split; rewrite ?Ea, ?Es; try apply H; [done|]. intros i. eapply alike_slot; [apply Al|]. apply H.
Qed.

Lemma push_frame i d p pc : port_ok p -> pc_ok p pc -> let p' := p{{slots := alter (WsTransport.pushRx d) i (slots p)}} in port_ok p' /\ pc_ok p' pc.
Proof.
  intros H Hpc p'. apply (same_flags p); try done; [change (length (alter (WsTransport.pushRx d) i (slots p)) = kSlots); rewrite length_alter; apply H|].
  intros j. unfold alike. assert (Hj : slot j p' = slot j p \/ slot j p' = WsTransport.pushRx d (slot j p)).
  { change (slot j p') with (nth j (alter (WsTransport.pushRx d) i (slots p)) WsTransport.init). unfold slot. rewrite !nth_lookup. destruct (decide (i = j)) as [->|D].
    - rewrite list_lookup_alter_eq. destruct (slots p !! j); auto.
    - rewrite list_lookup_alter_ne by done. auto. }
  destruct Hj as [->| ->]; [done|]. unfold WsTransport.pushRx. cbv zeta. case_ifs; done.
Qed.

Lemma message_data id bin d p pc : port_ok p -> pc_ok p pc -> let p' := snd (onMessage (Data id bin d) p) in port_ok p' /\ pc_ok p' pc.
Proof.
  intros H Hpc. cbn [onMessage]. destruct bin; [|done]. cbn [negb]. destruct (slotById p !! id) as [i|] eqn:E; [|done]. by apply push_frame.
Qed.

(** *** The hub's thread *)

(** A flag of slot [i] is cleared. *)
Lemma set_slot i s p : port_ok p -> (i < kSlots)%nat -> slot_ok (setSlot i s p) i -> port_ok (setSlot i s p) /\ (forall j, j <> i -> alike j p (setSlot i s p)) /\ slot i (setSlot i s p) = s.
Proof.
  intros H L Hi. assert (Ls : (i < length (slots p))%nat) by (by rewrite (n_slots p H)).
  assert (Al : forall j, j <> i -> alike j p (setSlot i s p)) by (intros j D; unfold alike; rewrite (slot_set s i j p Ls), decide_False by done; done).
  split; [|split; [done|by rewrite (slot_set s i i p Ls), decide_True]].
  apply (port_local i p); try done; try apply H. change (length (<[i := s]> (slots p)) = kSlots). rewrite length_insert. apply H.
Qed.

Lemma step_takeOpen i p b p' : port_ok p -> (i < kSlots)%nat -> takeOpen i p = (b, p') -> port_ok p' /\ pc_ok p' (if b then Asking i else AtClose i).
Proof.
  intros H L. unfold takeOpen, WsTransport.consumeOpenEvent. destruct (WsTransport.openEvt (slot i p)) eqn:E; intros [= <- <-].
  - pose proof (n_each p H i) as [A B C D]. destruct (B E) as [B1 B2]. set (s := (slot i p){{WsTransport.openEvt := false}}). change (port_ok (setSlot i s p) /\ pc_ok (setSlot i s p) (Asking i)).
    assert (Es : slot i (setSlot i s p) = s) by (rewrite slot_set, decide_True by (rewrite ?(n_slots p H); done); done).
    destruct (set_slot i s p H L) as (G1 & G2 & G3); [split; rewrite ?Es; try done|]. split; [done|]. cbn [pc_ok]. rewrite ?G3. done.
  - assert (Es : slot i (setSlot i (slot i p) p) = slot i p) by (rewrite slot_set, decide_True by (rewrite ?(n_slots p H); done); done).
    pose proof (n_each p H i) as [A B C D]. destruct (set_slot i (slot i p) p H L) as (G1 & G2 & G3); [split; rewrite ?Es; try done|]. split; [done|]. cbn [pc_ok]. by rewrite G3.
Qed.

Lemma step_answer i b p : port_ok p -> (i < kSlots)%nat -> pc_ok p (Asking i) -> port_ok (attachAnswer i b p) /\ pc_ok (attachAnswer i b p) (AtClose i).
Proof.
  intros H L (P1 & P2 & P3). unfold attachAnswer. destruct b; [|done]. assert (La : (i < length (attached p))%nat) by (by rewrite (n_att p H)).
  assert (Al : forall j, j <> i -> alike j p (setAttached i true p)) by (intros j D; unfold alike; rewrite (att_set true i j p La), decide_False by done; done).
  pose proof (n_each p H i) as [A B C D]. split; [|exact P3]. apply (port_local i p); try done; try apply H.
  - change (length (<[i := true]> (attached p)) = kSlots). rewrite length_insert. apply H.
  - split; try done. intros E. change (WsTransport.openEvt (slot i p) = true) in E. congruence.
Qed.

Lemma step_close i p b p' : port_ok p -> (i < kSlots)%nat -> pc_ok p (AtClose i) -> takeClose i p = (b, p') -> port_ok p' /\ pc_ok p' (if b then Detaching i else AtSweep i).
Proof.
  intros H L Ho. unfold takeClose, WsTransport.consumeCloseEvent. cbn [pc_ok] in Ho. pose proof (n_each p H i) as [A B C D]. destruct (WsTransport.closeEvt (slot i p)) eqn:E; intros [= <- <-].
  - destruct (C eq_refl) as [C1 C2]. set (s := (slot i p){{WsTransport.closeEvt := false}}). change (port_ok (setSlot i s p) /\ pc_ok (setSlot i s p) (Detaching i)).
    assert (Es : slot i (setSlot i s p) = s) by (rewrite slot_set, decide_True by (rewrite ?(n_slots p H); done); done).
    destruct (set_slot i s p H L) as (G1 & G2 & G3); [split; rewrite ?Es; try done|]. split; [done|]. cbn [pc_ok]. rewrite ?G3. done.
  - assert (Es : slot i (setSlot i (slot i p) p) = slot i p) by (rewrite slot_set, decide_True by (rewrite ?(n_slots p H); done); done).
    destruct (set_slot i (slot i p) p H L) as (G1 & G2 & G3); [split; rewrite ?Es, ?E; try done|]. done.
Qed.

Lemma step_detach i p : port_ok p -> (i < kSlots)%nat -> pc_ok p (Detaching i) -> port_ok (snd (detachSlot i p)) /\ pc_ok (snd (detachSlot i p)) (Reaping i).
Proof.
  intros H L (P1 & P2 & P3 & P4). unfold detachSlot. destruct (nth i (attached p) false) eqn:E; cbn [snd]; [|done]. assert (La : (i < length (attached p))%nat) by (by rewrite (n_att p H)).
  assert (Al : forall j, j <> i -> alike j p (setAttached i false p)) by (intros j D; unfold alike; rewrite (att_set false i j p La), decide_False by done; done).
  assert (Ai : att i (setAttached i false p) = false) by (by rewrite (att_set false i i p La), decide_True).
  pose proof (n_each p H i) as [A B C D]. split; [|by split_and!]. apply (port_local i p); try done; try apply H.
  - change (length (<[i := false]> (attached p)) = kSlots). rewrite length_insert. apply H.
Qed.

Lemma step_reap i p : port_ok p -> (i < kSlots)%nat -> pc_ok p (Reaping i) -> port_ok (reapSlot i p).
Proof.
  intros H L (P1 & P2 & P3 & P4 & P5). unfold reapSlot. set (s := WsTransport.reap (slot i p)).
  assert (Es : slot i (setSlot i s p) = s) by (rewrite slot_set, decide_True by (rewrite ?(n_slots p H); done); done).
  apply (set_slot i s p H L). split; rewrite ?Es.
  - intros E. change (att i p = true) in E. congruence.
  - intros E. change (WsTransport.openEvt (slot i p) = true) in E. congruence.
  - intros E. change (WsTransport.closeEvt (slot i p) = true) in E. congruence.
  - intros E. by apply P4 in E.
Qed.

Lemma init_port : port_ok init.
Proof.
  assert (N : forall i, slot i init = WsTransport.init) by (intros i; unfold slot, init; cbn [slots]; rewrite nth_lookup; destruct (replicate _ _ !! i) as [x|] eqn:E; [|done]; by apply lookup_replicate in E as [-> _]).
  assert (A : forall i, att i init = false) by (intros i; unfold att, init; cbn [attached]; rewrite nth_lookup; destruct (replicate _ _ !! i) as [x|] eqn:E; [|done]; by apply lookup_replicate in E as [-> _]).
  split; try done. intros i. split; rewrite ?N, ?A; try done. by intros (a & E).
Qed.

Lemma step_keeps s s' : port_ok s.1 -> pc_ok s.1 s.2 -> (pc_slot s.2 < kSlots)%nat -> step s s' -> port_ok s'.1 /\ pc_ok s'.1 s'.2 /\ (pc_slot s'.2 < kSlots)%nat.
Proof.
  intros H Hpc L St. destruct St as [m p pc Hf Hx|i d p pc|i p p' E|i p p' E|i b p|i p p' E|i p p' E|i p|i p|i p]; cbn [fst snd pc_slot] in *.
  - destruct m as [id ip ws|id|id bin d|id]; cbn [fresh_id opensInto] in *.
    + destruct (message_open id ip ws p pc H Hpc Hf Hx). by split_and!.
    + destruct (message_close id p pc H Hpc). by split_and!.
    + destruct (message_data id bin d p pc H Hpc). by split_and!.
    + done.
  - destruct (push_frame i d p pc H Hpc). by split_and!.
  - destruct (step_takeOpen i p true p' H L E). by split_and!.
  - destruct (step_takeOpen i p false p' H L E). by split_and!.
  - destruct (step_answer i b p H L Hpc). by split_and!.
  - destruct (step_close i p true p' H L Hpc E). by split_and!.
  - destruct (step_close i p false p' H L Hpc E). by split_and!.
  - destruct (step_detach i p H L Hpc). by split_and!.
  - split; [by apply step_reap|]. by split.
  - split; [done|]. split; [done|]. by apply Nat.mod_upper_bound.
Qed.

Lemma reached_ok s : reached s -> port_ok s.1 /\ pc_ok s.1 s.2 /\ (pc_slot s.2 < kSlots)%nat.
Proof.
  induction 1 as [|s s' _ (H & Hpc & L) St]; [split; [exact init_port|]; split; [done|]; cbn; unfold kSlots; lia|]. by eapply step_keeps.
Qed.

Lemma take_opened i p : fst (takeOpen i p) = true -> step (p, AtOpen i) (snd (takeOpen i p), Asking i).
Proof. intros E. apply s_opened. rewrite <- E. apply surjective_pairing. Qed.
End PortFacts.

(** C22. Slots and connections, whatever the interleaving of the two threads, as long as no
    connection is given a slot between the two event checks of that slot: the hub is asked
    to attach a slot only while it is in use and not attached; a slot is attached only while
    it is in use, so it is not given to another connection before the hub let go of it; and
    two connections never share a slot. *)
Theorem port_slots_sound (p : WsPort.t) (pc : PortFacts.Pc) : PortFacts.reached (p, pc) ->
  (forall i, pc = PortFacts.Asking i -> WsTransport.inUse (WsPort.slot i p) = true /\ PortFacts.att i p = false) /\
  (forall i, PortFacts.att i p = true -> WsTransport.inUse (WsPort.slot i p) = true) /\
  (forall a b i, WsPort.slotById p !! a = Some i -> WsPort.slotById p !! b = Some i -> a = b) /\
  (forall a i, WsPort.slotById p !! a = Some i -> WsTransport.inUse (WsPort.slot i p) = true /\ WsTransport.closeEvt (WsPort.slot i p) = false).
Proof.
  intros H. destruct (PortFacts.reached_ok _ H) as (H1 & H2 & _). cbn [fst snd] in *. split_and!.
  - intros i ->. destruct H2 as (A & B & _). done.
  - intros i. apply (PortFacts.q_att _ _ (PortFacts.n_each p H1 i)).
  - apply (PortFacts.n_apart p H1).
  - intros a i E. pose proof (PortFacts.n_each p H1 i) as [A B C D]. assert (K : PortFacts.known i p) by by exists a. split; [by apply D|].
    destruct (WsTransport.closeEvt _); [|done]. by destruct (C eq_refl) as [_ ?].
Qed.

(** A connection opens, its event is taken and the hub attaches it. *)
Definition one_open : WsPort.t := WsPort.attachAnswer 0 true (snd (WsPort.takeOpen 0 (snd (WsPort.onMessage (WsPort.Open [65] [66] 7) WsPort.init)))).

Lemma port_slots_sound_witness :
  PortFacts.reached (one_open, PortFacts.AtClose 0) /\ PortFacts.att 0 one_open = true /\ WsTransport.inUse (WsPort.slot 0 one_open) = true.
Proof.
  assert (R : PortFacts.reached (one_open, PortFacts.AtClose 0)).
  { eapply PortFacts.r_step; [|apply PortFacts.s_answer]. eapply PortFacts.r_step; [|apply PortFacts.take_opened; vm_compute; reflexivity].
    eapply PortFacts.r_step; [apply PortFacts.r_start|]. apply PortFacts.s_message; [vm_compute; reflexivity|discriminate]. }
  destruct (port_slots_sound _ _ R) as (_ & A & _). split; [exact R|]. split; [vm_compute; reflexivity|]. apply A. vm_compute. reflexivity.
Defined.

(** The interleaving that is left out: a connection that opens and closes between the two
    checks of its slot leaves its open event behind, and in the next round the hub is asked
    to attach a slot that no connection holds. *)
Example phantom_attach :
  let p := snd (WsPort.takeOpen 0 WsPort.init) in
  let p := snd (WsPort.onMessage (WsPort.Close [65]) (snd (WsPort.onMessage (WsPort.Open [65] [66] 7) p))) in
  let p := WsPort.reapSlot 0 (snd (WsPort.detachSlot 0 (snd (WsPort.takeClose 0 p)))) in
  let '(asked, p) := WsPort.takeOpen 0 p in
  asked = true /\ PortFacts.att 0 (WsPort.attachAnswer 0 asked p) = true /\ WsTransport.inUse (WsPort.slot 0 p) = false.
Proof. by vm_compute. Qed.
