(* ===== verification/BenchHub.v ===== *)
(** * BenchHub: the bench hub

    hub/slopbench/src/hub/BenchHub.{h,cpp} and common/HostPlatform.h: the hub of the
    library, driven by a configuration. [BenchEnv] is what the hub talks to: the tables
    of BenchRuntime, the port and the socket library, and the clock; [BenchPlatform]
    makes them a [Platform], so that the theorems on the hub hold of the bench hub. The
    socket library, the steady clock, the random device, [sin] and the value of an
    [llround] out of range are parameters. [inbox] holds the frames of the rings while
    [update] runs; the session log is not kept. *)

From S2P Require Import Prelude Registry Float ByteIO Serial Frame Messages Codec Trust Handshake Crypto Catalog Layout Channel Session Builtin CatalogCodec CText BenchConfig BenchCatalog BenchRuntime HubState HubLoop HubFacts HubInv HubSound HubCorrect BenchPort.
Local Open Scope Z_scope.

(** ** HostPlatform *)

Section random.
Context {Dev : Type} (device : Dev -> Z * Dev).

Definition hostNextU32 (d : Dev) : Z * Dev := let '(x, d) := device d in (u32 x, d).

Fixpoint hostFill (d : Dev) (n : nat) : bytes * Dev :=
  match n with
  | O => ([], d)
  | S n => let '(x, d) := device d in let '(bs, d) := hostFill d n in (Z.land x 0xFF :: bs, d)
  end.

Lemma length_hostFill d n : length (hostFill d n).1 = n.
Proof. revert d. induction n as [|n IH]; intros d; [done|]. cbn [hostFill]. destruct (device d) as [x d1]. specialize (IH d1). destruct (hostFill d1 n). cbn in *. lia. Qed.

Lemma bytes_hostFill d n : is_bytes (hostFill d n).1.
Proof.
  revert d. induction n as [|n IH]; intros d; [constructor|]. cbn [hostFill]. destruct (device d) as [x d1]. specialize (IH d1). destruct (hostFill d1 n). cbn in *. constructor; [|done].
  change 255 with (Z.ones 8). rewrite Z.land_ones by lia. unfold is_u8. pose proof (Z.mod_pos_bound x (2 ^ 8) ltac:(lia)). lia.
Qed.

Definition HostRandom : IRandom Dev := {| fill := hostFill; fill_length := length_hostFill; fill_bytes := bytes_hostFill |}.
End random.

Section bench.
Context {Net Clk Dev : Type} (bufferedAmount : nat -> Net -> Z) (sendBinary : nat -> bytes -> Net -> bool * Net) (closeSocket : nat -> Net -> Net).
Context (nowUs64 : Clk -> Z * Clk) (device : Dev -> Z * Dev) (oob : spec_float -> Z) (sin : Float32.t -> Float32.t).

(** ** What the hub talks to *)

Record BenchEnv := mkBenchEnv { runtime : Runtime.t; port : WsPort.t; net : Net; clk : Clk }.

Definition clockUs (e : BenchEnv) : Z * BenchEnv := let '(us, c) := nowUs64 (clk e) in (Z.land us 0xFFFFFFFF, e{{clk := c}}).
Definition clockMs (e : BenchEnv) : Z * BenchEnv := let '(us, c) := nowUs64 (clk e) in (Z.land (us / 1000) 0xFFFFFFFF, e{{clk := c}}).

(** A transport is the slot of the port. *)
Definition writeSlot (t : nat) (frame : bytes) (e : BenchEnv) : bool * BenchEnv :=
  let '(ok, s, n) := WsTransport.write bufferedAmount sendBinary (Some (WsPort.nowMs (port e))) frame (WsPort.slot t (port e)) (net e) in
  (ok, e{{port := WsPort.setSlot t s (port e); net := n}}).

Definition closeSlotSocket (t : nat) (e : BenchEnv) : BenchEnv := e{{net := WsTransport.requestClose closeSocket (WsPort.slot t (port e)) (net e)}}.

(** The clock is read after the channel is found. *)
Definition delegateApply (ch : Z) (requested : list IntentValueField) (role : AccessLevel) (e : BenchEnv) : (Result (list IntentValueField) Z * bool) * BenchEnv :=
  let '(now, e) := match findIntent ch (Runtime.intents (runtime e)) with Some _ => clockMs e | None => (0, e) end in
  let '(res, r) := BenchRuntime.applyIntent oob ch requested now (runtime e) in ((res, false), e{{runtime := r}}).

(** The callbacks that return nothing only write to the session log; a transport that
    is closed closes its socket. *)
Definition react (x : Effect) (e : BenchEnv) : BenchEnv := match x with Closed t => closeSlotSocket t e | _ => e end.

#[local] Instance BenchPlatform : Platform := {|
  Env := BenchEnv;
  t_open _ e := (true, e); t_write := writeSlot; t_mtu _ _ := Z.of_nat kFrameBufferCapacity; clk_nowUs := clockUs;
  d_validateToken _ _ _ e := (configure, e);
  d_applyIntent := delegateApply;
  d_sourceForChannel _ e := (None, e);
  d_canClearEstop e := (true, e);
  d_effectiveCurveFamily _ f e := (f, e);
  d_readBlob _ _ _ e := (None, e);
  d_react := react;
  Rng := Dev; Rng_IRandom := HostRandom device; nextU32 := hostNextU32 device;
  Cry := unit; Cry_ICrypto := SoftwareCrypto_ICrypto; crypto := tt;
  signP256 _ := (0%nat, []); publicKey := (0%nat, []) |}.

Context (cfg : HubConfig.t) (tries : nat).

Definition benchCatalog : BasicCatalog := buildCatalogInto emptyCatalog cfg.

(** ** Publishing *)

Definition asks {A} (q : BenchEnv -> A * BenchEnv) : M A := @ask BenchPlatform A q.

Definition onRuntime (f : Runtime.t -> Runtime.t) : M unit := asks (fun e => (tt, e{{runtime := f (runtime e)}})).
Definition getRuntime : M Runtime.t := asks (fun e => (runtime e, e)).

Definition publishStateChannel (k : nat) : M unit :=
  r ← getRuntime;
  match Runtime.states r !! k with
  | None => undefined
  | Some sr => publish (ChannelConfig.id (StateRuntime.cfg sr)) (snapshot oob sr) ;; onRuntime (published k)
  end.

Definition isDirty (k : nat) (r : Runtime.t) : bool := match Runtime.states r !! k with Some sr => StateRuntime.dirty sr | None => false end.

Definition tickPendingMirrors (nowMs : Z) : M unit :=
  onRuntime (landMirrors nowMs) ;;
  r ← getRuntime;
  each (seq 0 (length (Runtime.states r))) (fun k => r ← getRuntime; when (isDirty k r) (publishStateChannel k)).

(** ** The port's round *)

Definition onPort {A} (f : WsPort.t -> A * WsPort.t) : M A := asks (fun e => let '(a, p) := f (port e) in (a, e{{port := p}})).
Definition getPort {A} (f : WsPort.t -> A) : M A := onPort (fun p => (f p, p)).
Definition changePort (f : WsPort.t -> WsPort.t) : M unit := onPort (fun p => (tt, f p)).
Definition requestClose (i : nat) : M unit := asks (fun e => (tt, closeSlotSocket i e)).

Definition attachSlot (i : nat) : M bool := attachTransport benchCatalog i.

Definition loopSlot (now : Z) (i : nat) : M unit :=
  opened ← onPort (WsPort.takeOpen i);
  when opened (
    accepted ← attachSlot i;
    if (accepted : bool) then changePort (WsPort.attachAnswer i true) else requestClose i) ;;
  closed ← onPort (WsPort.takeClose i);
  when closed (
    was ← getPort (fun p => nth i (WsPort.attached p) false);
    when was (detachTransport benchCatalog i ;; changePort (WsPort.setAttached i false)) ;;
    changePort (WsPort.reapSlot i)) ;;
  stalled ← getPort (WsPort.stalled now i);
  when stalled (requestClose i).

Definition portLoop (now : Z) : M unit :=
  changePort (fun p => p{{WsPort.nowMs := now}}) ;; each (seq 0 WsPort.kSlots) (loopSlot now).

(** ** The frames of the rings *)

(** Read the ring [n] times. *)
Fixpoint readRing (n : nat) (x : WsTransport.t) : list FrameBuffer.t * WsTransport.t :=
  match n with
  | O => ([], x)
  | S n => match WsTransport.read x with (Some fb, x) => let '(fbs, x) := readRing n x in (fb :: fbs, x) | (None, x) => ([], x) end
  end.

(** What [read] will deliver, and the rings once it has. *)
Definition fillInbox : M unit := fun w =>
  Some (tt, mkWorld (hub w) (env w) (rng w) (fun t => (readRing WsTransport.kRxRingDepth (WsPort.slot t (port (env w)))).1) (trace w)).

Definition drainRings : M unit := fun w =>
  let p := port (env w) in
  let taken t s := (readRing (WsTransport.rxCount s - length (inbox w t)) s).2 in
  Some (tt, mkWorld (hub w) ((env w){{port := p{{WsPort.slots := imap taken (WsPort.slots p)}} }}) (rng w) (fun _ => []) (trace w)).

(** ** Construction and [tick] *)

Definition kCatalogScratchBytes : nat := Z.to_nat 32768.

Definition construction : M unit :=
  let '(n, buf) := encodeCatalog benchCatalog (replicate kCatalogScratchBytes 0) in
  construct benchCatalog tries (take n buf) ;;
  onRuntime (fun _ => startRuntime cfg 0) ;;
  start ← asks clockMs;
  onRuntime (fun r => r{{Runtime.startMs := start}}) ;;
  setIdentity (HubConfig.product cfg) (HubConfig.fwVersion cfg) (HubConfig.name cfg) ;;
  r ← getRuntime;
  each (seq 0 (length (Runtime.states r))) publishStateChannel.

Definition tick : M unit :=
  now ← asks clockMs;
  portLoop now ;;
  us ← asks clockUs;
  fillInbox ;; update benchCatalog tries us ;; drainRings ;;
  onRuntime (tickAnimations sin now) ;;
  tickPendingMirrors now.

(** A message of the socket library, between two ticks. *)
Definition socketMessage (m : WsPort.Message) : M unit :=
  refused ← onPort (WsPort.onMessage m);
  match refused with Some s => asks (fun e => (tt, e{{net := closeSocket s (net e)}})) | None => mret tt end.

(** [begin] before it listens. *)
Definition servable (h : Hub.t) : bool := ok benchCatalog && negb (length (Hub.catalogEncoded h) =? 0)%nat.

(** ** What the display reads *)

Definition sessionRows (e : BenchEnv) : list (nat * bytes) :=
  omap (fun i => let info := WsPort.slotInfo i (port e) in if WsPort.i_inUse info then Some (i, WsPort.i_peer info) else None) (seq 0 WsPort.kSlots).

(** * Theorems *)

(** ** The bench hub's worlds are the hub's *)

(** *** Snapshots in the store *)

(** The store holds [p] for [ch], unless it has no room for [ch]. *)
Definition stores (ch : Z) (p : bytes) (s : RetainedStore.store) : Prop :=
  (exists seq, RetainedStore.get ch s = Some (seq, p)) \/ (RetainedStore.find ch s = None /\ (kRetainedCapacity <= length s)%nat).

Lemma find_app_new ch ch' (s : RetainedStore.store) e : RetainedStore.channel_id e = ch -> ch' <> ch -> RetainedStore.find ch' (s ++ [e]) = RetainedStore.find ch' s.
Proof.
  intros He D. unfold RetainedStore.find. induction s as [|x s IH]; cbn [app find_index]; [destruct (Z.eqb_spec (RetainedStore.channel_id e) ch'); [congruence|done]|].
  destruct (_ =? _); [done|]. by rewrite IH.
Qed.

Lemma find_insert_same ch (s : RetainedStore.store) i e : RetainedStore.channel_id e = RetainedStore.channel_id (nth i s (RetainedStore.emptyEntry ch)) -> (i < length s)%nat ->
  forall ch', RetainedStore.find ch' (<[i := e]> s) = RetainedStore.find ch' s.
Proof.
  intros He Hi ch'. unfold RetainedStore.find. revert i He Hi. induction s as [|x s IH]; intros i He Hi; [done|]. destruct i; cbn [insert list_insert find_index nth length] in *; [by rewrite He|].
  destruct (_ =? ch'); [done|]. by rewrite IH by (done || lia).
Qed.

(** Publishing, written with the slot it writes. *)
Lemma publish_slot ch p s : (length p <= limits.min_transport_payload)%nat ->
  (RetainedStore.find ch s = None /\ (kRetainedCapacity <= length s)%nat /\ (RetainedStore.publish kRetainedCapacity ch p s).2 = s) \/
  exists i s1 e, (RetainedStore.publish kRetainedCapacity ch p s).2 = <[i := e]> s1 /\ (i < length s1)%nat /\ (length s <= length s1)%nat /\
    RetainedStore.find ch s1 = Some i /\ RetainedStore.channel_id e = ch /\ RetainedStore.channel_id (nth i s1 (RetainedStore.emptyEntry ch)) = ch /\
    RetainedStore.valid e = true /\ take (Z.to_nat (RetainedStore.size e)) (RetainedStore.payload e) = p /\
    (s1 = s \/ (s1 = s ++ [RetainedStore.emptyEntry ch] /\ RetainedStore.find ch s = None)).
Proof.
  intros Hp. unfold RetainedStore.publish. destruct (Nat.ltb_spec limits.min_transport_payload (length p)); [lia|].
  assert (T : forall x, take (Z.to_nat (u16 (Z.of_nat (length p)))) (write_at 0 p x) = p).
  { intros x. rewrite u16_id by (unfold is_u16, limits.min_transport_payload in *; lia). rewrite Nat2Z.id, write_at_0. apply take_app_length. }
  destruct (RetainedStore.find ch s) as [i|] eqn:E.
  - right. pose proof E as E'. apply find_index_Some in E' as (x & Hx & Hc & _). apply Z.eqb_eq in Hc. pose proof (lookup_lt_Some _ _ _ Hx). eexists i, s, _. cbn [snd]. split; [reflexivity|].
    rewrite (nth_lookup_Some _ _ _ _ Hx). split_and!; try done; [apply T|by left].
  - destruct (Nat.leb_spec kRetainedCapacity (length s)); [by left|]. right. eexists (length s), (s ++ [RetainedStore.emptyEntry ch]), _. cbn [snd]. split; [reflexivity|].
    assert (N : nth (length s) (s ++ [RetainedStore.emptyEntry ch]) (RetainedStore.emptyEntry ch) = RetainedStore.emptyEntry ch) by (rewrite app_nth2, Nat.sub_diag by lia; done).
    assert (F : RetainedStore.find ch (s ++ [RetainedStore.emptyEntry ch]) = Some (length s)).
    { clear N H0. unfold RetainedStore.find in *. induction s as [|x s IH]; cbn [app find_index length] in *; [by rewrite Z.eqb_refl|]. destruct (_ =? ch); [discriminate|]. destruct (find_index _ s); [discriminate|]. by rewrite IH. }
    rewrite N. rewrite !length_app. cbn [length]. split_and!; try done; try lia; [apply T|by right].
Qed.

Lemma publish_stores ch p s : (length p <= limits.min_transport_payload)%nat -> stores ch p (RetainedStore.publish kRetainedCapacity ch p s).2.
Proof.
  intros Hp. destruct (publish_slot ch p s Hp) as [(F & L & ->)|(i & s1 & e & -> & Hi & _ & F & Ec & En & V & T & _)]; [by right|]. left.
  unfold RetainedStore.get. rewrite (find_insert_same ch) by congruence. rewrite F. rewrite nth_lookup, list_lookup_insert_eq by done. cbv beta iota zeta. unfold default, id. 
  rewrite V, T. by eexists.
Qed.

Lemma publish_keeps ch ch' p p' s : (length p <= limits.min_transport_payload)%nat -> ch' <> ch -> stores ch' p' s -> stores ch' p' (RetainedStore.publish kRetainedCapacity ch p s).2.
Proof.
  intros Hp D H. destruct (publish_slot ch p s Hp) as [(F & L & ->)|(i & s1 & e & -> & Hi & Ll & F & Ec & En & V & T & Hs1)]; [done|].
  assert (F' : RetainedStore.find ch' (<[i := e]> s1) = RetainedStore.find ch' s).
  { rewrite (find_insert_same ch) by congruence. destruct Hs1 as [->|[-> _]]; [done|]. by apply (find_app_new ch). }
  destruct H as [[q G]|[N C]]; [left; exists q|right; split; [congruence|rewrite length_insert; lia]].
  unfold RetainedStore.get in *. rewrite F'. destruct (RetainedStore.find ch' s) as [j|] eqn:E; [|done]. apply find_index_Some in E as (x & Hx & Hc & _). apply Z.eqb_eq in Hc.
  assert (Hx1 : s1 !! j = Some x) by (destruct Hs1 as [->|[-> _]]; [done|by apply lookup_app_l_Some]).
  assert (i <> j) by (intros ->; rewrite (nth_lookup_Some _ _ _ _ Hx1) in En; congruence).
  rewrite !nth_lookup in *. rewrite list_lookup_insert_ne by done. rewrite Hx1. rewrite Hx in G. done.
Qed.

(** *** The publishing loop *)

Lemma length_packStates fs vs ss offset buf : (offset <= length buf)%nat -> (fst (packStates oob fs vs ss offset buf) <= length (snd (packStates oob fs vs ss offset buf)))%nat /\ length (snd (packStates oob fs vs ss offset buf)) = length buf.
Proof.
  revert vs ss offset buf. induction fs as [|f fs IH]; intros vs ss offset buf H; [done|]. destruct vs as [|v vs]; [done|]. destruct ss as [|t ss]; [done|]. cbn [packStates]. cbv zeta.
  destruct (Nat.ltb_spec (length buf) (offset + LayoutField.wireSize (wireField f))) as [|L]; [done|].
  rewrite (on_subn_spec _ _ _ (state_bytes oob f v t)); [|apply length_state_bytes|lia|].
  - assert (E : length (write_at offset (state_bytes oob f v t) buf) = length buf) by (apply length_write_at; rewrite length_state_bytes; lia).
    rewrite <- E. apply IH. lia.
  - by apply packState_spec.
Qed.

Lemma length_snapshot sr : (length (snapshot oob sr) <= limits.min_transport_payload)%nat.
Proof.
  unfold snapshot. destruct (length_packStates (ChannelConfig.fields (StateRuntime.cfg sr)) (StateRuntime.values sr) (StateRuntime.strValues sr) 0 (replicate limits.min_transport_payload 0)) as [A B]; [lia|].
  destruct (packStates _ _ _ _ _ _) as [n buf]. cbn [fst snd] in *. rewrite length_take. rewrite length_replicate in B. lia.
Qed.

Definition clean (sr : StateRuntime.t) : StateRuntime.t := sr{{StateRuntime.dirty := false}}.

(** The store of the hub shows the values of a channel. *)
Definition current (w : World) (sr : StateRuntime.t) : Prop := stores (ChannelConfig.id (StateRuntime.cfg sr)) (snapshot oob sr) (Hub.retained (hub w)).

Definition states_of (w : @World BenchPlatform) : list StateRuntime.t := Runtime.states (runtime (env w)).

Lemma publish_world ch p (w : @World BenchPlatform) : publish ch p w =
  Some (tt, mkWorld ((hub w){{Hub.retained := (RetainedStore.publish kRetainedCapacity ch p (Hub.retained (hub w))).2}}) (env w) (rng w) (inbox w) (trace w)).
Proof. unfold publish, publishState, gets, modify, mbind, M_bind. by destruct (RetainedStore.publish _ ch p (Hub.retained (hub w))). Qed.

Lemma publish_runs k w sr : states_of w !! k = Some sr -> exists w', publishStateChannel k w = Some (tt, w') /\
  Hub.retained (hub w') = (RetainedStore.publish kRetainedCapacity (ChannelConfig.id (StateRuntime.cfg sr)) (snapshot oob sr) (Hub.retained (hub w))).2 /\
  states_of w' = alter clean k (states_of w) /\ (reachable benchCatalog tries w -> reachable benchCatalog tries w').
Proof.
  intros E. destruct w as [h e r ib tr]. unfold publishStateChannel, getRuntime, asks, ask, mbind, M_bind. cbv beta iota. unfold states_of in E. cbn [env hub rng inbox trace] in *. rewrite E.
  pose proof (publish_world (ChannelConfig.id (StateRuntime.cfg sr)) (snapshot oob sr) (mkWorld (P := BenchPlatform) h e r ib tr)) as W. rewrite W. eexists. split; [reflexivity|]. split; [done|]. split; [done|].
  intros R. eapply (called _ _ _ (PublishState (ChannelConfig.id (StateRuntime.cfg sr)) (snapshot oob sr))) in R; [|exact W]. exact (surroundings benchCatalog tries _ _ _ _ R).
Qed.

Definition state_ids (w : @World BenchPlatform) : list Z := (fun sr => ChannelConfig.id (StateRuntime.cfg sr)) <$> states_of w.

Lemma ids_alter k (l : list StateRuntime.t) : (fun sr => ChannelConfig.id (StateRuntime.cfg sr)) <$> alter clean k l = (fun sr => ChannelConfig.id (StateRuntime.cfg sr)) <$> l.
Proof. revert k. induction l as [|x l IH]; intros [|k]; try done. cbn [alter list_alter fmap list_fmap]. f_equal. apply IH. Qed.

(** Publishing one channel shows it, and hides no other. *)
Lemma publish_current k w w' sr j x : NoDup (state_ids w) -> states_of w !! k = Some sr -> states_of w !! j = Some x ->
  Hub.retained (hub w') = (RetainedStore.publish kRetainedCapacity (ChannelConfig.id (StateRuntime.cfg sr)) (snapshot oob sr) (Hub.retained (hub w))).2 ->
  j = k \/ current w x -> current w' x.
Proof.
  intros N Ek Ej R H. unfold current. rewrite R. destruct (decide (j = k)) as [->|D].
  - rewrite Ek in Ej. injection Ej as ->. apply publish_stores, length_snapshot.
  - destruct H as [|H]; [done|]. apply publish_keeps; [apply length_snapshot| |done]. intros E. apply D. eapply NoDup_lookup; [exact N| |]; unfold state_ids; rewrite list_lookup_fmap.
    + by rewrite Ej.
    + rewrite Ek. cbn. by rewrite E.
Qed.

Lemma clean_lookup k j (l : list StateRuntime.t) x : l !! j = Some x -> alter clean k l !! j = Some (if decide (k = j) then clean x else x).
Proof. intros E. case_decide as D; [subst; by rewrite list_lookup_alter_eq, E|by rewrite list_lookup_alter_ne]. Qed.

Lemma elem_of_other (j k : nat) ks : j <> k -> j ∈ k :: ks <-> j ∈ ks.
Proof. intros D. rewrite elem_of_cons. tauto. Qed.

(** Publishing the channels that a test selects: afterwards they are clean, and shown. *)
Lemma loop_runs (test : nat -> Runtime.t -> bool) ks w : NoDup ks -> NoDup (state_ids w) -> (forall k, k ∈ ks -> (k < length (states_of w))%nat) ->
  (forall k r r', Runtime.states r !! k = Runtime.states r' !! k -> test k r = test k r') ->
  exists w', each ks (fun k => r ← getRuntime; when (test k r) (publishStateChannel k)) w = Some (tt, w') /\
    (reachable benchCatalog tries w -> reachable benchCatalog tries w') /\
    forall j x, states_of w !! j = Some x ->
      states_of w' !! j = Some (if bool_decide (j ∈ ks) && test j (runtime (env w)) then clean x else x) /\
      ((j ∈ ks /\ test j (runtime (env w)) = true) \/ current w x -> current w' x).
Proof.
  intros Nk N L T. revert w N L. induction Nk as [|k ks Hk Nk IH]; intros w N L.
  { exists w. split_and!; [done|done|]. intros j x E. split; [done|]. intros [[?%elem_of_nil _]|?]; done. }
  assert (S : exists w1, (r ← getRuntime; when (test k r) (publishStateChannel k)) w = Some (tt, w1) /\ (reachable benchCatalog tries w -> reachable benchCatalog tries w1) /\
    states_of w1 = (if test k (runtime (env w)) then alter clean k (states_of w) else states_of w) /\
    forall j x, states_of w !! j = Some x -> (j = k /\ test j (runtime (env w)) = true) \/ current w x -> current w1 x).
  { destruct (lookup_lt_is_Some_2 (states_of w) k) as [sr Ek]; [apply L; left|]. destruct (test k (runtime (env w))) eqn:Et.
    - destruct (publish_runs k w sr Ek) as (w1 & E1 & R1 & S1 & G1). exists w1. split_and!; try done.
      + unfold getRuntime, asks, ask, mbind, M_bind. cbv beta iota. change (runtime (@env BenchPlatform w)) with (runtime (env w)). rewrite Et. cbn [when]. destruct w. exact E1.
      + intros j x Ej H. eapply publish_current; [exact N|exact Ek|exact Ej|exact R1|]. destruct H as [[-> _]|H]; auto.
    - exists w. split_and!; try done.
      + unfold getRuntime, asks, ask, mbind, M_bind. cbv beta iota. rewrite Et. by destruct w.
      + intros j x Ej [[-> ?]|H]; [congruence|done]. }
  destruct S as (w1 & E1 & G1 & S1 & C1). assert (N1 : NoDup (state_ids w1)) by (unfold state_ids; rewrite S1; destruct (test k _); [by rewrite ids_alter|done]).
  assert (Ll : length (states_of w1) = length (states_of w)) by (rewrite S1; destruct (test k _); [apply length_alter|done]).
  destruct (IH w1 N1) as (w' & E' & G' & C'); [intros j Hj; rewrite Ll; apply L; by right|]. exists w'. split_and!.
  - cbn [each]. unfold mbind at 1, M_bind at 1. rewrite E1. exact E'.
  - auto.
  - intros j x Ej. assert (Ej1 : states_of w1 !! j = Some (if bool_decide (j = k) && test k (runtime (env w)) then clean x else x)).
    { rewrite S1. destruct (test k _); [rewrite (clean_lookup k j _ x Ej)|by rewrite andb_false_r]. rewrite andb_true_r. case_decide as D; [by rewrite bool_decide_eq_true_2|by rewrite bool_decide_eq_false_2 by congruence]. }
    destruct (C' j _ Ej1) as [D1 D2].
    destruct (decide (j = k)) as [->|D].
    + rewrite bool_decide_eq_true_2 in * by done. cbn [andb] in *. rewrite (bool_decide_eq_false_2 (k ∈ ks)) in D1 by done. cbn [andb] in D1. split.
      * rewrite bool_decide_eq_true_2 in D1 by done. rewrite bool_decide_eq_true_2 by left. done.
      * intros H. assert (K : current w1 x) by (apply (C1 k x Ej); destruct H as [[_ ?]|?]; auto).
        assert (Q : current w' (if test k (runtime (env w)) then clean x else x)) by (apply D2; right; by destruct (test k _)). by destruct (test k _).
    + rewrite (bool_decide_eq_false_2 (j = k)) in * by done. cbn [andb] in *. assert (Tj : test j (runtime (env w1)) = test j (runtime (env w))) by (apply T; unfold states_of in *; congruence).
      rewrite Tj in *. split.
      * rewrite D1. assert (B : bool_decide (j ∈ k :: ks) = bool_decide (j ∈ ks)) by (apply bool_decide_ext; by apply elem_of_other). by rewrite B.
      * intros H. apply D2. destruct H as [[Hj ?]|H]; [left; split; [by apply (elem_of_other j k ks)|done]|right]. apply (C1 j x Ej). by right.
Qed.

Section runs.
Context (Hdraw : draws_nonzero tries).

(** From a reachable world to a reachable world. *)
Definition goes {A} (m : M A) : Prop := forall w, reachable benchCatalog tries w -> exists a w', m w = Some (a, w') /\ reachable benchCatalog tries w'.

Lemma goes_ret {A} (a : A) : goes (mret a).
Proof. intros w H. by exists a, w. Qed.

Lemma goes_bind {A B} (m : M A) (k : A -> M B) : goes m -> (forall a, goes (k a)) -> goes (mbind k m).
Proof. intros Hm Hk w H. destruct (Hm w H) as (a & w1 & E & H1). destruct (Hk a w1 H1) as (b & w2 & E2 & H2). exists b, w2. split; [|done]. unfold mbind, M_bind. by rewrite E. Qed.

Lemma goes_when b m : goes m -> goes (when b m).
Proof. intros H. destruct b; [done|apply goes_ret]. Qed.

Lemma goes_asks {A} (q : BenchEnv -> A * BenchEnv) : goes (asks q).
Proof.
  intros w H. exists (fst (q (env w))), (@mkWorld BenchPlatform (hub w) (snd (q (env w))) (rng w) (inbox w) (trace w)). split; [|by apply surroundings].
  unfold asks, ask. by destruct (q (env w)).
Qed.

Lemma goes_perform c : goes (perform benchCatalog tries c).
Proof.
  intros w H. destruct (reachable_good benchCatalog tries Hdraw w H) as (Hv & _). pose proof (sound_perform benchCatalog tries Hdraw c w Hv) as R. unfold runs in R.
  destruct (perform benchCatalog tries c w) as [[[] w']|] eqn:E; [|done]. exists tt, w'. split; [done|]. by eapply called.
Qed.

(** A call that answers. *)
Lemma goes_answer {A} c (m : M A) : perform benchCatalog tries c = (_ ← m; mret tt) -> goes m.
Proof.
  intros Ec w H. destruct (goes_perform c w H) as ([] & w' & E & Hr). rewrite Ec in E. unfold mbind, M_bind in E. destruct (m w) as [[a w1]|] eqn:Em; [|discriminate]. injection E as ->. by exists a, w'.
Qed.

Lemma goes_each {T} (l : list T) body : (forall x, goes (body x)) -> goes (each l body).
Proof. intros H. induction l as [|x l IH]; cbn [each]; [apply goes_ret|]. apply goes_bind; [apply H|done]. Qed.

Lemma goes_loopSlot now i : goes (loopSlot now i).
Proof.
  unfold loopSlot, onPort, getPort, changePort, requestClose. apply goes_bind; [apply goes_asks|intros opened]. apply goes_bind; [apply goes_when, goes_bind; [by apply (goes_answer (Attach i))|]|intros _].
  { intros []; apply goes_asks. }
  apply goes_bind; [apply goes_asks|intros closed]. apply goes_bind; [apply goes_when, goes_bind; [apply goes_asks|intros was]; apply goes_bind; [apply goes_when, goes_bind|intros _; apply goes_asks]|intros _].
  - exact (goes_perform (Detach i)).
  - intros _. apply goes_asks.
  - apply goes_bind; [apply goes_asks|intros stalled]. apply goes_when, goes_asks.
Qed.

Lemma goes_portLoop now : goes (portLoop now).
Proof. unfold portLoop. apply goes_bind; [apply goes_asks|intros _]. apply goes_each. apply goes_loopSlot. Qed.

(** The publishing loops, whatever the ids. *)
Lemma goes_loop (test : nat -> Runtime.t -> bool) ks w : (forall k, k ∈ ks -> (k < length (states_of w))%nat) -> reachable benchCatalog tries w ->
  exists w', each ks (fun k => r ← getRuntime; when (test k r) (publishStateChannel k)) w = Some (tt, w') /\ reachable benchCatalog tries w'.
Proof.
  revert w. induction ks as [|k ks IH]; intros w L H; [by exists w|]. cbn [each]. destruct (lookup_lt_is_Some_2 (states_of w) k) as [sr Ek]; [apply L; left|].
  assert (S : exists w1, (r ← getRuntime; when (test k r) (publishStateChannel k)) w = Some (tt, w1) /\ reachable benchCatalog tries w1 /\ length (states_of w1) = length (states_of w)).
  { destruct (test k (runtime (env w))) eqn:Et.
    - destruct (publish_runs k w sr Ek) as (w1 & E1 & _ & S1 & G1). exists w1. split_and!; [|by apply G1|rewrite S1; apply length_alter].
      unfold getRuntime, asks, ask, mbind, M_bind. cbv beta iota. change (runtime (@env BenchPlatform w)) with (runtime (env w)). rewrite Et. cbn [when]. destruct w. exact E1.
    - exists w. split_and!; try done. unfold getRuntime, asks, ask, mbind, M_bind. cbv beta iota. rewrite Et. by destruct w. }
  destruct S as (w1 & E1 & G1 & S1). destruct (IH w1) as (w' & E' & G'); [intros j Hj; rewrite S1; apply L; by right|done|]. exists w'. split; [|done]. unfold mbind at 1, M_bind at 1. by rewrite E1.
Qed.

Lemma goes_publishing (test : nat -> Runtime.t -> bool) : goes (r ← getRuntime; each (seq 0 (length (Runtime.states r))) (fun k => r ← getRuntime; when (test k r) (publishStateChannel k))).
Proof.
  intros w H. destruct (goes_loop test (seq 0 (length (states_of w))) w) as (w' & E & G); [intros k Hk; apply elem_of_seq in Hk; lia|done|]. exists tt, w'. split; [|done].
  destruct w. exact E.
Qed.

Lemma goes_tick : goes tick.
Proof.
  unfold tick, tickPendingMirrors, onRuntime. apply goes_bind; [apply goes_asks|intros now]. apply goes_bind; [apply goes_portLoop|intros _]. apply goes_bind; [apply goes_asks|intros us].
  apply goes_bind; [intros w H; eexists tt, _; split; [reflexivity|]; by apply surroundings|intros _]. apply goes_bind; [exact (goes_perform (Update us))|intros _].
  apply goes_bind; [intros w H; eexists tt, _; split; [reflexivity|]; by apply surroundings|intros _]. apply goes_bind; [apply goes_asks|intros _]. apply goes_bind; [apply goes_asks|intros _].
  apply goes_publishing.
Qed.

Lemma goes_socketMessage m : goes (socketMessage m).
Proof. unfold socketMessage, onPort. apply goes_bind; [apply goes_asks|]. intros [s|]; [apply goes_asks|apply goes_ret]. Qed.

Lemma each_ext {T} (l : list T) (f g : T -> M unit) w : (forall x w, f x w = g x w) -> each l f w = each l g w.
Proof. intros H. revert w. induction l as [|x l IH]; intros w; [done|]. cbn [each]. unfold mbind, M_bind. rewrite H. destruct (g x w) as [[u w1]|]; [apply IH|done]. Qed.

Lemma goes_publishAll : goes (r ← getRuntime; each (seq 0 (length (Runtime.states r))) publishStateChannel).
Proof.
  intros w H. destruct (goes_publishing (fun _ _ => true) w H) as ([] & w' & E & G). exists tt, w'. split; [|done]. rewrite <- E. unfold mbind, M_bind. destruct (getRuntime w) as [[r w1]|]; [|done].
  apply each_ext. intros k w2. by destruct w2.
Qed.

Lemma construction_runs w : trace w = [] -> exists w', construction w = Some (tt, w') /\ reachable benchCatalog tries w'.
Proof.
  intros Ht. unfold construction. destruct (encodeCatalog benchCatalog _) as [n buf]. pose proof (runs_construct benchCatalog tries Hdraw (take n buf) w Ht) as R. unfold runs in R.
  destruct (construct benchCatalog tries (take n buf) w) as [[[] w1]|] eqn:E; [|done]. assert (G1 : reachable benchCatalog tries w1) by (by eapply constructed).
  assert (K : goes (onRuntime (fun _ => startRuntime cfg 0) ;; start ← asks clockMs; onRuntime (fun r => r{{Runtime.startMs := start}}) ;;
    setIdentity (HubConfig.product cfg) (HubConfig.fwVersion cfg) (HubConfig.name cfg) ;; r ← getRuntime; each (seq 0 (length (Runtime.states r))) publishStateChannel)).
  { unfold onRuntime. apply goes_bind; [apply goes_asks|intros _]. apply goes_bind; [apply goes_asks|intros start]. apply goes_bind; [apply goes_asks|intros _].
    apply goes_bind; [exact (goes_perform (SetIdentity (HubConfig.product cfg) (HubConfig.fwVersion cfg) (HubConfig.name cfg)))|intros _]. apply goes_publishAll. }
  destruct (K w1 G1) as ([] & w' & E' & G'). exists w'. split; [|done]. unfold mbind at 1, M_bind at 1. rewrite E. exact E'.
Qed.
End runs.

(** The bench hub's life: ticks, with messages of the socket library between them. *)
Inductive lives : World -> Prop :=
| l_constructed w w' : trace w = [] -> construction w = Some (tt, w') -> lives w'
| l_tick w w' : lives w -> tick w = Some (tt, w') -> lives w'
| l_message m w w' : lives w -> socketMessage m w = Some (tt, w') -> lives w'
| l_kick i w : lives w -> lives (mkWorld (hub w) ((env w){{net := WsPort.kick closeSocket i (port (env w)) (net (env w))}}) (rng w) (inbox w) (trace w)).

Lemma lives_reachable w : draws_nonzero tries -> lives w -> reachable benchCatalog tries w.
Proof.
  intros Hd. induction 1 as [w w' Ht E|w w' _ IH E|m w w' _ IH E|i w _ IH].
  - destruct (construction_runs Hd w Ht) as (w1 & E1 & G). rewrite E in E1. by injection E1 as ->.
  - destruct (goes_tick Hd w IH) as (a & w1 & E1 & G). rewrite E in E1. by injection E1 as _ ->.
  - destruct (goes_socketMessage m w IH) as (a & w1 & E1 & G). rewrite E in E1. by injection E1 as _ ->.
  - by apply (surroundings benchCatalog tries w).
Qed.

(** C16. The bench hub runs. With a random device that does not draw zero forever, whatever
    the configuration, the clients, the clock and the socket library do: construction
    completes, and in every later state the next [tick] and the next message of the socket
    library complete. The clients never have more than four sessions, and every intent that
    reached [applyIntent] was on an INTENT channel of the bench's own catalog and within the
    role of its session. *)
Theorem bench_never_stuck : draws_nonzero tries ->
  (forall w, trace w = [] -> exists w', construction w = Some (tt, w')) /\
  (forall w, lives w ->
     (exists w', tick w = Some (tt, w')) /\ (forall m, exists w', socketMessage m w = Some (tt, w')) /\
     (sessionCount (hub w) <= kHubMaxSessions)%nat /\ Forall (authorised benchCatalog) (trace w)).
Proof.
  intros Hd. split; [intros w Ht; destruct (construction_runs Hd w Ht) as (w' & E & _); by exists w'|]. intros w Hl. apply (lives_reachable w Hd) in Hl as Hr.
  destruct (reachable_good benchCatalog tries Hd w Hr) as (Hv & _ & Ha). split_and!; [| |unfold sessionCount, occupiedCount; rewrite count_all; apply (i_cap _ Hv)|done].
  - destruct (goes_tick Hd w Hr) as ([] & w' & E & _). by exists w'.
  - intros m. destruct (goes_socketMessage m w Hr) as ([] & w' & E & _). by exists w'.
Qed.

(** C18. What [tickPendingMirrors] leaves behind. It always completes; every STATE channel then
    holds the values the due mirrors gave it and is clean, and the hub's retained store, from
    which subscribers are served, shows exactly the snapshot of every channel that a mirror or
    an animation had touched, unless it has no room for that channel; what it showed of the
    others, it still shows. *)
Theorem mirrors_published (w : World) (nowMs : Z) : NoDup (state_ids w) ->
  exists w', tickPendingMirrors nowMs w = Some (tt, w') /\
  forall k sr, Runtime.states (landMirrors nowMs (runtime (env w))) !! k = Some sr ->
    states_of w' !! k = Some (clean sr) /\ (StateRuntime.dirty sr = true \/ current w sr -> current w' sr).
Proof.
  intros N. set (r1 := landMirrors nowMs (runtime (env w))). set (w1 := @mkWorld BenchPlatform (hub w) ((env w){{runtime := r1}}) (rng w) (inbox w) (trace w)).
  assert (N1 : NoDup (state_ids w1)).
  { assert (E : StateRuntime.cfg <$> states_of w1 = StateRuntime.cfg <$> states_of w) by (apply cfg_lands).
    unfold state_ids in *. change (NoDup ((ChannelConfig.id ∘ StateRuntime.cfg) <$> states_of w1)). rewrite list_fmap_compose, E, <- list_fmap_compose. exact N. }
  destruct (loop_runs isDirty (seq 0 (length (states_of w1))) w1) as (w' & E & _ & C).
  - apply NoDup_seq.
  - done.
  - intros k Hk. apply elem_of_seq in Hk. lia.
  - intros k r r' Er. unfold isDirty. by rewrite Er.
  - exists w'. split; [exact E|]. intros k sr Hk. destruct (C k sr Hk) as [C1 C2].
    assert (D : isDirty k (runtime (env w1)) = StateRuntime.dirty sr) by (unfold isDirty; change (runtime (env w1)) with r1; by rewrite Hk).
    rewrite (bool_decide_eq_true_2 (k ∈ _)) in C1 by (apply elem_of_seq; split; [lia|]; by eapply lookup_lt_Some). cbn [andb] in C1. rewrite D in C1, C2. split.
    + rewrite C1. destruct (StateRuntime.dirty sr) eqn:Ed; [done|]. f_equal. destruct sr. cbn in Ed. by subst.
    + intros [H|H]; apply C2; [left|by right]. split; [|done]. apply elem_of_seq. split; [lia|]. by eapply lookup_lt_Some.
Qed.
End bench.

(** ** The tiny axis, live

    Sockets that take everything, a clock that stands still at one second, and a random
    device that draws ones. *)

Definition tiny_env (r : Runtime.t) : @BenchEnv unit Z := mkBenchEnv r WsPort.init tt 1000000.

#[local] Instance TinyPlatform : Platform :=
  @BenchPlatform unit Z unit (fun _ _ => 0) (fun _ _ n => (true, n)) (fun _ n => n) (fun c => (c, c)) (fun d => (1, d)) no_oob.

Definition tiny_world (r : Runtime.t) : World := mkWorld (fresh []) (tiny_env r : Env) (tt : Rng) (fun _ => []) [].

Lemma tiny_draws : draws_nonzero (P := TinyPlatform) 1.
Proof. intros r. exists 0%nat. split; [lia|]. vm_compute. discriminate. Qed.

Lemma bench_never_stuck_witness : exists w', construction (fun _ _ => 0) (fun _ _ n => (true, n)) (fun _ n => n) (fun c => (c, c)) (fun d => (1, d)) no_oob tiny_config 1 (tiny_world (startRuntime HubConfig.init 0)) = Some (tt, w').
Proof.
  destruct (bench_never_stuck (fun _ (_ : unit) => 0) (fun _ _ n => (true, n)) (fun _ n => n) (fun c : Z => (c, c)) (fun d : unit => (1, d)) no_oob no_sin tiny_config 1 tiny_draws) as [C _].
  apply C. vm_compute. reflexivity.
Defined.

(** The write of 700 mm, mirrored as 500 mm, is what the hub then shows. *)
Definition tiny_written : World := tiny_world (applyIntent no_oob 0x3000 [tiny_write] 1000 tiny_runtime).2.
Definition tiny_moved : StateRuntime.t := nth 0 (Runtime.states (landMirrors 1000 (runtime (env tiny_written : BenchEnv)))) tiny_state.

Lemma mirrors_published_witness : exists w',
  tickPendingMirrors (fun _ _ => 0) (fun _ _ n => (true, n)) (fun _ n => n) (fun c => (c, c)) (fun d => (1, d)) no_oob 1000 tiny_written = Some (tt, w') /\
  StateRuntime.values tiny_moved = [0x43FA0000; 0] /\ stores 0x1000 (snapshot no_oob tiny_moved) (Hub.retained (hub w')).
Proof.
  destruct (mirrors_published (fun _ (_ : unit) => 0) (fun _ _ n => (true, n)) (fun _ n => n) (fun c : Z => (c, c)) (fun d : unit => (1, d)) no_oob tiny_config 1 tiny_written 1000) as (w' & E & C).
  - apply (bool_decide_unpack _). vm_compute. exact I.
  - exists w'. split; [exact E|]. split; [vm_compute; reflexivity|].
    apply (C 0%nat tiny_moved); [vm_compute; reflexivity|]. left. vm_compute. reflexivity.
Defined.

(** The store has room for 32 channels: the last of 33 is not shown. *)
Example channel_without_room :
  let s := foldl (fun s k => (RetainedStore.publish kRetainedCapacity (0x1000 + Z.of_nat k) [0] s).2) [] (seq 0 33) in
  RetainedStore.get 0x101F s = Some (1, [0]) /\ RetainedStore.get 0x1020 s = None.
Proof. vm_compute. done. Qed.
